(* ===== verification/_CoqProject ===== *)
-Q . S2P
Prelude.v
GoStrings.v
Regex.v
Names.v
Biscuit.v
NaiveEngine.v
Facts.v
DatalogText.v
Grants.v
Labels.v
HTTPGrants.v
PolicyRules.v
Egress.v
Base64.v
Tar.v
Token.v
TokenModel.v
Identity.v
IdentityFacts.v
Mint.v
MintFacts.v
Middleware.v
MiddlewareFacts.v
MeshAuth.v
LabelsGate.v
Directory.v
Keyring.v
KeyringFacts.v
Router.v
RouterDirectory.v
RouterFacts.v
MeshDirectory.v
Decimal.v
PolicyStore.v
PolicyStoreFacts.v
Store.v
StoreFacts.v
ControlPlane.v
PolicyConfig.v
Enrollment.v
Admin.v
Members.v
Sts.v
OAuth.v
Machine.v
Traces.v
Scenario.v
TokenUsage.v
StsFacts.v
OAuthFacts.v
BanFacts.v
Paging.v
RefreshFacts.v
NodeStore.v
NodeRouters.v
NodeRoutersFacts.v
NodeSync.v
NodeSyncFacts.v
NodeBanFacts.v
NodeRelayFacts.v
NodeScenario.v
Effects.v
Http.v
LocalAuth.v
Callout.v
TlsHello.v
SafeDial.v
EgressService.v
EgressInspect.v
EgressInspectFacts.v
Registry.v
RegistryFacts.v
Ingress.v
IngressFacts.v
CredProvider.v
CredProviderFacts.v
Broker.v
BrokerFacts.v
NodeOAuth.v
NodeOAuthFacts.v
