(* ===== verification/Prelude.v ===== *)
(** * Agent Mesh: a verification development

    Agent Mesh ([src/]) joins programs into a mesh over libp2p.  A control
    plane admits nodes and routers and issues their credentials, routers relay
    connections and keep a directory of services, and nodes offer and call
    services; every node decides for itself, from the credential a caller
    presents and the mesh policy it has downloaded, whether a request may pass.
    A credential is a Biscuit: signed Datalog facts, to which a holder can
    append blocks that narrow it.  This development models the parts that make
    these decisions, and proves what makes them correct.

    ** The parts and where they are modelled

    The language everything is decided in, under [src/api]:
    - [GoStrings], [Regex], [Base64], [Decimal]: what is used of Go's [strings],
      [unicode/utf8], [regexp], [encoding/base64] and [strconv], on byte strings;
      [Decimal] also has the challenges of [api/network.go].
    - [Names] ([names.go], [network.go], [validation.go]), [Labels]
      ([labels.go]), [HTTPGrants] ([http_grants.go]), [Egress] ([egress.go]):
      names, labels, narrowed grants and outside destinations with their
      validators.
    - [Biscuit], [NaiveEngine], [DatalogText]: Datalog as data with its least
      model, an evaluator, and its text; [Facts] and [Grants] ([datalog.go]):
      the vocabulary, the baseline program and how grants become facts;
      [PolicyRules] ([policy_rules.go]): the policy as rules.
    - [Tar] ([tar.go]): the rules of a task, in blocks appended to a credential.

    Credentials, under [src/internal/identity]: [Token] is the interface of
    biscuit-go with [TokenModel] as an instance; [Identity] and [Mint] are
    [biscuit.go], one definition per Go function, with [IdentityFacts] and
    [MintFacts] as their theorems.

    Nodes, under [src/internal/node].  Deciding: [Middleware] ([middleware.go])
    authorizes a request, with [MiddlewareFacts] and, for credentials as they are
    minted at a node that follows the mesh policy and its own configuration,
    [MeshAuth]; [LabelsGate] ([labels_gate.go]) checks a provider before a
    call.  Staying in step: [NodeStore] ([store.go]) is the node's database,
    [NodeRouters] ([routers.go], [connection_monitor.go]) how it chooses, keeps and
    redials routers, [NodeSync] ([controlplane_sync.go], [enroll.go], [gate.go],
    parts of [node.go]) what it pulls and hears of keys, bans, routers and policy,
    how it enrolls, with a token of the identity provider or a bootstrap token,
    renews its credential, enrolls again and recovers at its start, and what its
    relay and gater let through, with
    [NodeRoutersFacts], [NodeSyncFacts], [NodeBanFacts], [NodeRelayFacts]
    and runs in [NodeScenario].

    The data path of a node: [Http] is what is used of [net/http]; [LocalAuth]
    ([sts.go], [sidecar.go]) has the gates of the local API; [Registry]
    ([service_registry.go], [service.go], [egress.go]) the services a node offers
    and the destinations it is assigned; [Ingress] ([node.go], [egress.go],
    [egress_tunnel.go], [ext_authz.go]) what comes in from the mesh, from the local
    API, by CONNECT and from an external proxy, up to its dispatch to a service;
    [EgressService] ([egress.go], [egress_tunnel.go]) a destination outside, with
    the request that leaves and TCP tunnels, for which [TlsHello]
    ([src/internal/tlsinspect]) reads the client hello and [SafeDial] dials;
    [EgressInspect] ([egress_inspect.go]) the inspection chain around it, with
    [Callout] ([src/internal/envoy/callout.go]) for external processors.
    [CredProvider] and [Broker] ([src/internal/credprovider]) are what a destination
    is shown for the caller: what tasks leave of scopes, permissions and session
    policies, and the exchangers with their caches, which [Effects] runs for
    many requests at once; [NodeOAuth] ([sts.go]) is the node's own token endpoint,
    with the credentials and border tokens it gets from the control plane.
    [EgressInspectFacts], [RegistryFacts], [IngressFacts], [CredProviderFacts],
    [BrokerFacts] and [NodeOAuthFacts] are their theorems.

    Routers, under [src/internal/router]: [Router] (handshakes, relay access,
    bans, keys, events), [Directory] and [RouterDirectory] (records and the
    requests of members and of other routers), with [RouterFacts] and
    [MeshDirectory] for a mesh of them.

    The control plane, under [src/internal/controlplane] and
    [src/internal/storage]: [Keyring] (signing keys and their rotation),
    [PolicyStore] and [Store] (the tables), [ControlPlane] (ID tokens, roles,
    challenges and the calls handlers make), [PolicyConfig] (what a posted
    policy must satisfy), and the handlers: [Enrollment], [Admin], [Members],
    [Sts], [OAuth].  [Machine] runs many of them at once; [Traces] says what one
    of them saw.

    ** How code becomes definitions

    A Go function is a Rocq function of the same name.  A function that can fail
    returns a [result]; an [error] keeps its constant text and what it wraps,
    which [errors.Is] inspects.  A struct is a record, a map a finite map
    ([gmap]), a slice a list; where Go iterates over a map, either the order
    cannot be told or the code sorts.  Instants and durations are 64-bit counts
    of nanoseconds in [Z], with the wrap-around written out where a product can
    reach it.  Mutable state is passed along explicitly: a router or a node is a
    record, an operation gives the next one, a history is a list of operations.

    A handler of the control plane is a program ([prog]) over an inductive type
    of calls, each with its type of replies: the clock, one SQL statement or
    transaction, one section under a lock, one draw of random bytes.  Calls are
    atomic and may fail; between two calls anything else may happen.  A history
    ([Machine.history]) is a list of happenings: a request arrives, a thread
    makes its next call, time passes, the policy or the keys are replaced.  A
    request whose connection breaks, or a replica that dies, is a thread that is
    not stepped further.  Two tools reason about histories: a monitor ([safe])
    for what handlers never do, and traces ([runs]) for what an answer rests on.

    An egress request of a node is a program of the same kind ([Effects]) over the
    calls it makes: the caller as the node knows it, the broker's exchange, the
    inspectors, the destination.  Its theorems hold for every trace, so for
    whatever these answer.  An exchange is a program over its calls and a shared
    cache, which may drop entries at any time.  Where a node's own steps interleave (registrations,
    router sessions), the critical sections are the steps of a relation.

    ** What is outside

    Code that is not in the repository is a class whose fields say what is
    relied on, with an instance that runs: [BiscuitEngine], [BiscuitText],
    [BiscuitTokens] (biscuit-go), [PeerCodec], [PeerBytes], [PeerKeys],
    [KeyPeer], [Multiaddr] (libp2p), [TARCodec], [KeysCodec], [EventCodec]
    (protobuf), [PolicyCodec], [ClaimsCodec] (JSON), [OIDCLibrary], [Ed25519],
    [SHA256], [URLParser], [AddrText], [LoopbackIP], [UnicodeCase],
    [UnicodePrint], [Gzip], [QueryText], the JSON of [JSONText], [ArmorText],
    [RPCText], [TaskJSON], [PolicyText] and [JWTHeader], the answers of token
    services as [STSText] reads them, the encodings [CredentialCodec] and
    [LegacyJSON] of the node's database, and [LRU] or [Lru], a cache that may
    evict.  The resolver and the dialer are a [Network], the backends and the
    directory of a registry a [RegistryEnv], the disk and the answers of the
    control plane arguments of the operations that meet them.  SQL is the functions of [Store], [Keyring]
    and [PolicyStore]; text is ordered by its bytes, as SQLite does and as
    PostgreSQL does under the C collation.

    ** What is proved

    - Deciding ([Grants], [HTTPGrants], [Labels], [Egress], [Tar], [MeshAuth],
      [MiddlewareFacts], [PolicyConfig]): the Datalog decisions are those of the
      patterns that the policy lists, a task only narrows, a request passes a
      node exactly when peer, expiry, the node's own checks, service and target
      allow it under the roles of the credential and of the mesh policy, and the
      roles the control plane resolves are those the rules derive.
    - Credentials ([IdentityFacts], [MintFacts]): what is accepted is signed
      under a trusted key, bound and unexpired; what is minted verifies, for its
      own peer only, until its expiry.
    - Nodes ([NodeSyncFacts], [NodeBanFacts], [NodeRelayFacts],
      [NodeRoutersFacts]): over every history of pulls, events, handshakes,
      enrollments, renewals and restarts, a node only comes to trust what its first
      keys or the answer to an enrollment vouch for, follows the verdicts on banned
      peers, relays members only and does not lose a router.
    - The data path ([LocalAuth], [IngressFacts], [RegistryFacts],
      [EgressInspectFacts], [EgressService], [TlsHello], [SafeDial],
      [CredProviderFacts], [BrokerFacts], [NodeOAuthFacts]): a request is
      dispatched only for the caller, service, path and tool that were authorized;
      nothing leaves the mesh before the inspectors passed it, and then with the
      broker's credential and nothing of the caller's; a tunnel carries only what
      begins with a client hello for its destination, and no reserved address is
      dialled; the registry stays well typed and follows its assignments; tasks only
      narrow what is asked of a cloud provider, a default scope apart, what was exchanged for one caller is
      never given to another, and the node's token endpoint hands out nothing that
      was not presented to it.
    - Routers ([RouterFacts], [Directory], [MeshDirectory]): who is relayed and
      who is listed, over every history, with delayed and repeated messages.
    - Keys ([KeyringFacts]): one current key, one rotation per interval, and
      members that look within the grace period follow.
    - The control plane ([TokenUsage], [BanFacts], [RefreshFacts], [StsFacts],
      [OAuthFacts], [Paging], [PolicyStoreFacts]): over every history of
      concurrent requests, bootstrap tokens and authorization codes are not
      overspent and bans hold; what each exchange and each answer rests on, and
      which failure each status stands for; listings are complete; policies read
      back.  The last part of [BanFacts] shows what interleavings lose.

    Each theorem with hypotheses has a witness that runs the definitions on
    concrete data ([Scenario], [TokenModel]).

    ** Bounds

    [naive_engine] runs at most 100 iterations, biscuit-go's default, and gives
    up beyond; theorems about decisions are stated for every engine.
    [FormatInt] has fuel of one more than the binary logarithm, which is more
    than the digits; [Paging.follow] has one more step than there are rows, and
    the theorem says that it ends before.  The parsers of [TlsHello] and
    [EgressInspect.replace_all] have the length of their input as fuel, and consume
    a byte or more each time: the equivalence of [TlsHello] shows that no hello is
    refused for want of it.  The revocation cache of a node holds 10000 entries, as
    in the code.

    ** Not modelled

    The bytes of HTTP, of the libp2p streams and of SQL; metrics and logs; the
    console, configuration and command line programs; what lies behind the registry
    (the MCP, A2A and inference services) apart from the decisions in front of it;
    the loops and timeouts that drive the modelled operations; the identity
    provider behind the tokens a node enrolls with; the widths of SQL columns; the HTTP clients of
    cloud token services and metadata servers, whose answers are replies of the
    environment; the gRPC front of the external checks; the ES256 signer of border tokens.  They move bytes, or call
    services that are outside the repository. *)

From Stdlib Require Ascii.
From Stdlib Require Export Lia ZArith.
From stdpp Require Export sorting.
From stdpp Require Export base numbers list gmap strings.

Export Stdlib.Strings.Ascii (ascii(..), N_of_ascii, ascii_of_N).
Export (notations) Stdlib.Strings.Ascii.

(** stdpp's first-order solver clears names it has already cleared. *)
#[global] Set Warnings "-clear-no-such-hyp".



(** ** Errors and results

    Go functions that can fail return an [error]; the model returns a
    [result].  An error keeps the constant text of its message and the errors
    it wraps ([%w]), so that [errors.Is] can be stated; the values a message
    interpolates are not kept. *)

Inductive error :=
| NewError (msg : string)
| WrapError (msg : string) (inner : error)
| JoinError (first second : error).

#[export] Instance error_eq_dec : EqDecision error.
Proof. solve_decision. Defined.

(** [errors.Is(e, target)]. *)
Fixpoint errors_Is (e target : error) : bool :=
  bool_decide (e = target) ||
  match e with
  | NewError _ => false
  | WrapError _ i => errors_Is i target
  | JoinError a b => errors_Is a target || errors_Is b target
  end.

Inductive result (A : Type) :=
| Ok (a : A)
| Err (e : error).
Arguments Ok {A} a.
Arguments Err {A} e.

#[export] Instance result_eq_dec `{EqDecision A} : EqDecision (result A).
Proof. solve_decision. Defined.

#[export] Instance result_ret : MRet result := @Ok.
#[export] Instance result_bind : MBind result := λ A B f r,
  match r with Ok a => f a | Err e => Err e end.
#[export] Instance result_fmap : FMap result := λ A B f r,
  match r with Ok a => Ok (f a) | Err e => Err e end.

(** [fmt.Errorf("... %w", err)] around a call that failed. *)
Definition wrap_err {A} (msg : string) (r : result A) : result A :=
  match r with Ok a => Ok a | Err e => Err (WrapError msg e) end.

(** [errors.New(msg)] / [fmt.Errorf] returned at once. *)
Definition fail {A} (msg : string) : result A := Err (NewError msg).

(** [if cond { return fmt.Errorf(msg) }]. *)
Definition fail_if (cond : bool) (msg : string) : result unit :=
  if cond then fail msg else Ok tt.

Definition is_ok {A} (r : result A) : bool :=
  match r with Ok _ => true | Err _ => false end.

(** A [for] loop whose body may return an error. *)
Fixpoint for_each {A} (f : A → result unit) (l : list A) : result unit :=
  match l with
  | [] => Ok tt
  | x :: l => f x;; for_each f l
  end.

(** The same with the index [i] of [for i, x := range l]. *)
Fixpoint for_each_i {A} (f : nat → A → result unit) (i : nat) (l : list A) : result unit :=
  match l with
  | [] => Ok tt
  | x :: l => f i x;; for_each_i f (S i) l
  end.

(** A loop that collects the results of its calls and stops at the first error. *)
Fixpoint collect {A B} (f : A → result B) (l : list A) : result (list B) :=
  match l with
  | [] => Ok []
  | x :: l => y ← f x; ys ← collect f l; Ok (y :: ys)
  end.

Section results.
Context {A B : Type}.

Lemma bind_Ok (r : result A) (k : A → result B) b :
  (x ← r; k x) = Ok b ↔ ∃ a, r = Ok a ∧ k a = Ok b.
Proof. destruct r; naive_solver. Qed.

#[global] Instance Ok_inj : Inj (=) (=) (@Ok A).
Proof. by intros a b [= ->]. Qed.

Lemma wrap_err_Ok msg (r : result A) a : wrap_err msg r = Ok a ↔ r = Ok a.
Proof. destruct r; naive_solver. Qed.

Lemma fail_if_Ok c msg u : fail_if c msg = Ok u ↔ c = false.
Proof. destruct c, u; naive_solver. Qed.

Lemma is_ok_true (r : result A) : is_ok r = true ↔ ∃ a, r = Ok a.
Proof. destruct r; naive_solver. Qed.

Lemma is_ok_false (r : result A) : is_ok r = false ↔ ∃ e, r = Err e.
Proof. destruct r; naive_solver. Qed.

End results.

Lemma bind_unit_Ok {B} (r : result unit) (k : result B) b :
  (r;; k) = Ok b ↔ r = Ok tt ∧ k = Ok b.
Proof. destruct r as [[]|]; naive_solver. Qed.

Section loops.
Context {A B : Type}.

Lemma for_each_Ok (f : A → result unit) l u :
  for_each f l = Ok u ↔ Forall (λ x, f x = Ok tt) l.
Proof.
  destruct u. induction l as [|x l IH]; simpl; [naive_solver|].
  by rewrite bind_unit_Ok, Forall_cons, IH.
Qed.

Lemma for_each_i_Ok (f : nat → A → result unit) i l u :
  for_each_i f i l = Ok u ↔ ∀ j x, l !! j = Some x → f (i + j) x = Ok tt.
Proof.
  destruct u. revert i. induction l as [|x l IH]; intros i; simpl; [naive_solver|].
  rewrite bind_unit_Ok, IH. split.
  - intros [Hx Hl] [|j] y; simpl; [rewrite Nat.add_0_r; naive_solver|].
    rewrite Nat.add_succ_r. apply (Hl j y).
  - intros H. split; [specialize (H 0 x); rewrite Nat.add_0_r in H; by apply H|].
    intros j y Hy. specialize (H (S j) y Hy). by rewrite Nat.add_succ_r in H.
Qed.

Lemma collect_Ok (f : A → result B) l ys :
  collect f l = Ok ys ↔ Forall2 (λ x y, f x = Ok y) l ys.
Proof.
  revert ys. induction l as [|x l IH]; intros ys; simpl.
  - split; [by intros [= <-] | by inversion 1].
  - rewrite bind_Ok. setoid_rewrite bind_Ok. setoid_rewrite IH.
    split; [|inversion 1; naive_solver]. intros (y & ? & ys' & ? & [= <-]). by constructor.
Qed.
End loops.

(** Decompose a hypothesis that says a sequence of fallible calls succeeded. *)
Ltac inv_ok :=
  repeat match goal with
  | H : (_ ≫= _) = Ok _ |- _ => first [ apply bind_unit_Ok in H as [? H] | apply bind_Ok in H as (? & ? & H) ]
  | H : wrap_err _ _ = Ok _ |- _ => apply wrap_err_Ok in H
  | H : fail_if _ _ = Ok _ |- _ => apply fail_if_Ok in H
  | H : fail _ = Ok _ |- _ => discriminate H
  | H : Err _ = Ok _ |- _ => discriminate H
  | H : Ok _ = Ok _ |- _ => injection H as H
  | H : for_each _ _ = Ok _ |- _ => apply for_each_Ok in H
  end; simplify_eq.

(** ** Booleans *)

Create HintDb mesh.

Ltac bool_split :=
  repeat match goal with
  | H : _ && _ = true |- _ => apply andb_prop in H as [? ?]
  | H : _ || _ = false |- _ => apply orb_false_elim in H as [? ?]
  | H : negb _ = true |- _ => apply negb_true_iff in H
  | H : negb _ = false |- _ => apply negb_false_iff in H
  | H : bool_decide _ = true |- _ => apply bool_decide_eq_true in H
  | H : bool_decide _ = false |- _ => apply bool_decide_eq_false in H
  end; simplify_eq.

Lemma existsb_True {A} (f : A → bool) l :
  existsb f l = true ↔ ∃ x, x ∈ l ∧ f x = true.
Proof. rewrite existsb_exists. setoid_rewrite list_elem_of_In. done. Qed.

Lemma existsb_False {A} (f : A → bool) l :
  existsb f l = false ↔ ∀ x, x ∈ l → f x = false.
Proof.
  split.
  - intros H x Hx. destruct (f x) eqn:E; [|done].
    assert (existsb f l = true) by (apply existsb_True; eauto). congruence.
  - intros H. destruct (existsb f l) eqn:E; [|done].
    apply existsb_True in E as (x & Hx & Hf). rewrite H in Hf; done.
Qed.

Lemma forallb_True {A} (f : A → bool) l :
  forallb f l = true ↔ ∀ x, x ∈ l → f x = true.
Proof. rewrite forallb_forall. setoid_rewrite list_elem_of_In. done. Qed.

(** [slices.Contains]. *)
Definition slices_Contains `{EqDecision A} (l : list A) (x : A) : bool := bool_decide (x ∈ l).

Lemma slices_Contains_true `{EqDecision A} (l : list A) x :
  slices_Contains l x = true ↔ x ∈ l.
Proof. apply bool_decide_eq_true. Qed.

Lemma exists_snoc {A} (l : list A) x (P : A → Prop) :
  (∃ y, y ∈ l ++ [x] ∧ P y) ↔ (∃ y, y ∈ l ∧ P y) ∨ P x.
Proof.
  setoid_rewrite elem_of_app. setoid_rewrite list_elem_of_singleton.
  split; [intros (y & [?| ->] & ?); eauto|]. intros [(y & ? & ?)|?]; eauto.
Qed.

(** ** Filters, lengths and sums *)

Lemma filter_true {A} (P : A → Prop) `{∀ x, Decision (P x)} (l : list A) : (∀ x, x ∈ l → P x) → filter P l = l.
Proof.
  induction l as [|x l IH]; intros Hl; [done|]. rewrite filter_cons, decide_True by (apply Hl; by left).
  f_equal. apply IH. intros y Hy. apply Hl. by right.
Qed.

Lemma filter_false {A} (P : A → Prop) `{∀ x, Decision (P x)} (l : list A) : (∀ x, x ∈ l → ¬ P x) → filter P l = [].
Proof.
  induction l as [|x l IH]; intros Hl; [done|]. rewrite filter_cons, decide_False by (apply Hl; by left).
  apply IH. intros y Hy. apply Hl. by right.
Qed.

Lemma length_omap_le {A B} (f : A → option B) (l : list A) : length (omap f l) ≤ length l.
Proof. induction l as [|x l IH]; [done|]. csimpl. destruct (f x); csimpl; lia. Qed.

Lemma length_bind {A B} (f : A → list B) l : length (l ≫= f) = sum_list_with (λ x, length (f x)) l.
Proof. induction l as [|x l IH]; [done|]. by rewrite bind_cons, length_app, IH. Qed.

Lemma sum_list_with_le {A} (f g : A → nat) l : (∀ x, x ∈ l → f x ≤ g x) → sum_list_with f l ≤ sum_list_with g l.
Proof.
  induction l as [|x l IH]; intros Hl; [done|]. cbn [sum_list_with]. apply Nat.add_le_mono; [apply Hl; by left|].
  apply IH. intros y Hy. apply Hl. by right.
Qed.

Lemma sum_list_with_ext {A} (f g : A → nat) l : (∀ x, f x = g x) → sum_list_with f l = sum_list_with g l.
Proof. intros Hfg. induction l as [|x l IH]; [done|]. cbn [sum_list_with]. by rewrite Hfg, IH. Qed.

Lemma sum_list_with_add {A} (f g : A → nat) l : sum_list_with (λ x, f x + g x) l = sum_list_with f l + sum_list_with g l.
Proof. induction l as [|x l IH]; cbn [sum_list_with]; lia. Qed.

Lemma sum_list_with_submseteq {A} (f : A → nat) l k : l ⊆+ k → sum_list_with f l ≤ sum_list_with f k.
Proof. induction 1; cbn [sum_list_with]; lia. Qed.

(** ** Sorting: [sort.Strings] *)

Definition sort_Strings : list string → list string := merge_sort String.le.

Lemma sort_Strings_perm l : sort_Strings l ≡ₚ l.
Proof. apply merge_sort_Permutation. Qed.

Lemma elem_of_sort_Strings x l : x ∈ sort_Strings l ↔ x ∈ l.
Proof. by rewrite sort_Strings_perm. Qed.

Lemma sort_Strings_sorted l : StronglySorted String.le (sort_Strings l).
Proof. eapply StronglySorted_merge_sort; apply _. Qed.

Lemma sort_Strings_unique l1 l2 : l1 ≡ₚ l2 → sort_Strings l1 = sort_Strings l2.
Proof.
  intros Hp. apply (StronglySorted_unique String.le); eauto using sort_Strings_sorted.
  by rewrite !sort_Strings_perm.
Qed.

(** The keys of a Go map, sorted, as every deterministic loop over one takes them. *)
Definition sorted_keys {V} (m : gmap string V) : list string :=
  sort_Strings (map_to_list m).*1.

Lemma elem_of_sorted_keys {V} (m : gmap string V) k :
  k ∈ sorted_keys m ↔ is_Some (m !! k).
Proof.
  unfold sorted_keys. rewrite elem_of_sort_Strings, list_elem_of_fmap. split.
  - intros ([k' v] & -> & H). apply elem_of_map_to_list in H. by exists v.
  - intros [v H]. exists (k, v). split; [done|]. by apply elem_of_map_to_list.
Qed.

Lemma NoDup_sorted_keys {V} (m : gmap string V) : NoDup (sorted_keys m).
Proof. unfold sorted_keys. rewrite sort_Strings_perm. apply NoDup_fst_map_to_list. Qed.

(** [m[k]] of a [map[string]string]: the empty string for a missing key. *)
Definition map_get (m : gmap string string) (k : string) : string := default "" (m !! k).
