(* ===== verification/GoStrings.v ===== *)
(** * Go strings

    A Go string is a sequence of bytes, here a [string] of 8-bit [ascii]
    characters.  This file models the functions of the packages [strings],
    [unicode/utf8] and [unicode] that the sources call, with the lemmas that
    relate each to append and membership. *)

From S2P Require Import Prelude.

Declare Scope go_scope.
Delimit Scope go_scope with go.

(** ** Bytes *)

Definition byte (c : ascii) : Z := Z.of_N (N_of_ascii c).
Definition char_of (z : Z) : ascii := ascii_of_N (Z.to_N z).

Definition chars : string → list ascii := String.list_ascii_of_string.

Abbreviation str1 c := (String c EmptyString).

(** [len(s)]. *)
Abbreviation len := String.length.

Fixpoint str_take (n : nat) (s : string) : string :=
  match n, s with
  | S n, String c s => String c (str_take n s)
  | _, _ => ""
  end.

Fixpoint str_drop (n : nat) (s : string) : string :=
  match n, s with
  | S n, String c s => str_drop n s
  | _, _ => s
  end.

Fixpoint str_forallb (p : ascii → bool) (s : string) : bool :=
  match s with
  | "" => true
  | String c s => p c && str_forallb p s
  end.

Fixpoint str_existsb (p : ascii → bool) (s : string) : bool :=
  match s with
  | "" => false
  | String c s => p c || str_existsb p s
  end.

(** The longest prefix of [s] all of whose bytes satisfy [p], and the rest. *)
Fixpoint span (p : ascii → bool) (s : string) : string * string :=
  match s with
  | "" => ("", "")
  | String c s' => if p c then let '(a, b) := span p s' in (String c a, b) else ("", s)
  end.

(** ** The [strings] package *)

Definition HasPrefix (s p : string) : bool := String.prefix p s.

Definition HasSuffix (s p : string) : bool :=
  bool_decide (len p ≤ len s) && bool_decide (str_drop (len s - len p) s = p).

Fixpoint Contains (s sub : string) : bool :=
  HasPrefix s sub || match s with "" => false | String _ s' => Contains s' sub end.

(** [strings.Index], [None] for -1. *)
Fixpoint Index (s sub : string) : option nat :=
  if HasPrefix s sub then Some 0
  else match s with "" => None | String _ s' => S <$> Index s' sub end.

(** [strings.ContainsAny] for a set of ASCII characters. *)
Definition ContainsAny (s set : string) : bool :=
  str_existsb (λ c, bool_decide (c ∈ chars set)) s.

(** [strings.Cut]: what is before and after the first [sep], and whether there is one. *)
Fixpoint Cut (s sep : string) : string * string * bool :=
  if HasPrefix s sep then ("", str_drop (len sep) s, true)
  else match s with
       | "" => ("", "", false)
       | String c s' => let '(b, a, f) := Cut s' sep in (String c b, a, f)
       end.

(** [strings.SplitN(s, sep, 2)]. *)
Definition SplitN2 (s sep : string) : list string :=
  let '(b, a, f) := Cut s sep in if f then [b; a] else [s].

(** [strings.Split(s, sep)] for a one-byte [sep]. *)
Fixpoint Split (s : string) (sep : ascii) : list string :=
  match s with
  | "" => [""]
  | String c s' =>
      if bool_decide (c = sep) then "" :: Split s' sep
      else match Split s' sep with
           | [] => [str1 c]
           | h :: t => String c h :: t
           end
  end.

Definition TrimPrefix (s p : string) : string :=
  if HasPrefix s p then str_drop (len p) s else s.

Definition TrimSuffix (s p : string) : string :=
  if HasSuffix s p then str_take (len s - len p) s else s.

(** [strings.Join]. *)
Fixpoint Join (l : list string) (sep : string) : string :=
  match l with
  | [] => ""
  | [s] => s
  | s :: l => s +:+ sep +:+ Join l sep
  end.

(** [strings.Count(s, sub)] for a one-byte [sub]. *)
Fixpoint Count (s : string) (c : ascii) : nat :=
  match s with
  | "" => 0
  | String d s => (if bool_decide (d = c) then 1 else 0) + Count s c
  end.

(** [strings.TrimRight(s, cutset)] for a one-byte cutset. *)
Fixpoint TrimRight (s : string) (c : ascii) : string :=
  match s with
  | "" => ""
  | String d s =>
      match TrimRight s c with
      | "" => if bool_decide (d = c) then "" else str1 d
      | s' => String d s'
      end
  end.

(** The UTF-8 encodings of the characters for which [unicode.IsSpace] holds. *)
Definition space_encodings : list string :=
  [ str1 "009"; str1 "010"; str1 "011"; str1 "012"; str1 "013"; str1 " " ]
  ++ ((λ b, String "194" (str1 b)) <$> ["133"; "160"]%char)
  ++ [String "225" (String "154" (str1 "128"))]
  ++ ((λ b, String "226" (String "128" (str1 b))) <$>
       ["128"; "129"; "130"; "131"; "132"; "133"; "134"; "135"; "136"; "137"; "138";
        "168"; "169"; "175"]%char)
  ++ [String "226" (String "129" (str1 "159")); String "227" (String "128" (str1 "128"))].

(** A string starts (ends) with a space exactly when one of the encodings is
    its prefix (suffix): each is one complete UTF-8 sequence. *)
Definition leading_space (s : string) : option nat :=
  len <$> List.find (HasPrefix s) space_encodings.

Definition trailing_space (s : string) : option nat :=
  len <$> List.find (HasSuffix s) space_encodings.

Fixpoint trim_left (fuel : nat) (s : string) : string :=
  match fuel with
  | 0 => s
  | S fuel => match leading_space s with
              | Some k => trim_left fuel (str_drop k s)
              | None => s
              end
  end.

Fixpoint trim_right (fuel : nat) (s : string) : string :=
  match fuel with
  | 0 => s
  | S fuel => match trailing_space s with
              | Some k => trim_right fuel (str_take (len s - k) s)
              | None => s
              end
  end.

(** Each step drops at least one byte, so [len s] steps are enough. *)
Definition TrimSpace (s : string) : string :=
  let s := trim_left (len s) s in trim_right (len s) s.

(** [strings.Fields]: the maximal runs of non-space characters.  [cur] is the
    field being read, reversed. *)
Fixpoint fields_go (fuel : nat) (cur : string) (s : string) : list string :=
  let emit := if bool_decide (cur = "") then [] else [String.rev cur] in
  match fuel, s with
  | 0, _ | _, "" => emit
  | S fuel, String c s' =>
      match leading_space s with
      | Some k => emit ++ fields_go fuel "" (str_drop k s)
      | None => fields_go fuel (String c cur) s'
      end
  end.

Definition Fields (s : string) : list string := fields_go (S (len s)) "" s.

(** ** UTF-8 *)

Definition RuneError : Z := 0xFFFD.

Definition in_range (lo hi : Z) (c : ascii) : bool := (lo <=? byte c)%Z && (byte c <=? hi)%Z.

Definition continuation : ascii → bool := in_range 0x80 0xBF.

(** The first rune of a string and the number of bytes it takes
    ([utf8.DecodeRuneInString]); an invalid byte is one [RuneError]. *)
Definition decode_rune (s : string) : Z * nat :=
  match s with
  | "" => (RuneError, 0)
  | String c0 s1 =>
      let b0 := byte c0 in
      if (b0 <? 0x80)%Z then (b0, 1)
      else if in_range 0xC2 0xDF c0 then
        match s1 with
        | String c1 _ =>
            if continuation c1 then (((b0 - 0xC0) * 64 + (byte c1 - 0x80))%Z, 2) else (RuneError, 1)
        | _ => (RuneError, 1)
        end
      else if in_range 0xE0 0xEF c0 then
        match s1 with
        | String c1 (String c2 _) =>
            let lo := if (b0 =? 0xE0)%Z then 0xA0%Z else 0x80%Z in
            let hi := if (b0 =? 0xED)%Z then 0x9F%Z else 0xBF%Z in
            if in_range lo hi c1 && continuation c2
            then (((b0 - 0xE0) * 4096 + (byte c1 - 0x80) * 64 + (byte c2 - 0x80))%Z, 3)
            else (RuneError, 1)
        | _ => (RuneError, 1)
        end
      else if in_range 0xF0 0xF4 c0 then
        match s1 with
        | String c1 (String c2 (String c3 _)) =>
            let lo := if (b0 =? 0xF0)%Z then 0x90%Z else 0x80%Z in
            let hi := if (b0 =? 0xF4)%Z then 0x8F%Z else 0xBF%Z in
            if in_range lo hi c1 && continuation c2 && continuation c3
            then (((b0 - 0xF0) * 262144 + (byte c1 - 0x80) * 4096
                   + (byte c2 - 0x80) * 64 + (byte c3 - 0x80))%Z, 4)
            else (RuneError, 1)
        | _ => (RuneError, 1)
        end
      else (RuneError, 1)
  end.

Fixpoint runes_go (fuel : nat) (s : string) : list Z :=
  match fuel, s with
  | S fuel, String _ _ => let '(r, k) := decode_rune s in r :: runes_go fuel (str_drop k s)
  | _, _ => []
  end.

(** [for _, r := range s]. Every rune takes at least one byte. *)
Definition runes (s : string) : list Z := runes_go (len s) s.

(** [utf8.AppendRune]. *)
Definition encode_rune (r : Z) : string :=
  let cont z := char_of (0x80 + z mod 64)%Z in
  let r := if ((r <? 0) || (0x10FFFF <? r) || ((0xD800 <=? r) && (r <=? 0xDFFF)))%Z
           then RuneError else r in
  if (r <? 0x80)%Z then str1 (char_of r)
  else if (r <? 0x800)%Z then String (char_of (0xC0 + r / 64)) (str1 (cont r))
  else if (r <? 0x10000)%Z then
    String (char_of (0xE0 + r / 4096)) (String (cont (r / 64)%Z) (str1 (cont r)))
  else String (char_of (0xF0 + r / 262144))
         (String (cont (r / 4096)%Z) (String (cont (r / 64)%Z) (str1 (cont r)))).

(** [unicode.IsControl]. *)
Definition IsControl (r : Z) : bool :=
  ((0 <=? r) && (r <? 0x20))%Z || ((0x7F <=? r) && (r <? 0xA0))%Z.

(** ** Case folding *)

Definition ascii_lower_rune (r : Z) : Z :=
  if ((65 <=? r) && (r <=? 90))%Z then (r + 32)%Z else r.

Fixpoint str_map (f : ascii → ascii) (s : string) : string :=
  match s with
  | "" => ""
  | String c s => String (f c) (str_map f s)
  end.

Definition lower_char (c : ascii) : ascii := char_of (ascii_lower_rune (byte c)).

(** The Unicode case tables are data of the Go distribution: [unicode.ToLower]
    is an operation of this interface, known on ASCII only. *)
Class UnicodeCase := {
  unicode_ToLower : Z → Z;
  unicode_ToLower_ascii r : (0 ≤ r < 0x80)%Z → unicode_ToLower r = ascii_lower_rune r;
}.

Definition is_ascii (s : string) : bool := str_forallb (λ c, (byte c <? 0x80)%Z) s.

Definition ToLower `{UnicodeCase} (s : string) : string :=
  if is_ascii s then str_map lower_char s
  else foldr (λ r acc, encode_rune (unicode_ToLower r) +:+ acc) "" (runes s).

(** [strings.EqualFold] with a text of ASCII letters: U+017F folds to s and
    U+212A to k. *)
Definition ascii_lower (c : ascii) : ascii :=
  if ((65 <=? byte c) && (byte c <=? 90))%Z then char_of (byte c + 32) else c.

Fixpoint fold_ascii (s : string) : string :=
  match s with
  | "" => ""
  | String "197" (String "191" s) => String "s" (fold_ascii s)
  | String "226" (String "132" (String "170" s)) => String "k" (fold_ascii s)
  | String c s => String (ascii_lower c) (fold_ascii s)
  end.

(** The interface is inhabited: case tables that only know ASCII. *)
#[refine] Definition ascii_case : UnicodeCase := {| unicode_ToLower := ascii_lower_rune |}.
Proof. done. Defined.

(** ** Lemmas: append, take, drop *)

Lemma char_of_byte c : char_of (byte c) = c.
Proof. unfold char_of, byte. rewrite N2Z.id. apply Ascii.ascii_N_embedding. Qed.

Lemma app_cons c s t : String c s +:+ t = String c (s +:+ t).
Proof. done. Qed.

Lemma app_nil_l s : "" +:+ s = s.
Proof. done. Qed.

Lemma app_nil_r s : s +:+ "" = s.
Proof. induction s as [|c s IH]; [done|]. by rewrite app_cons, IH. Qed.

Lemma app_assoc s t u : (s +:+ t) +:+ u = s +:+ (t +:+ u).
Proof. induction s as [|c s IH]; [done|]. by rewrite !app_cons, IH. Qed.

Lemma len_app s t : len (s +:+ t) = len s + len t.
Proof. induction s as [|c s IH]; [done|]. simpl. by rewrite IH. Qed.

Lemma chars_app s t : chars (s +:+ t) = chars s ++ chars t.
Proof. induction s as [|c s IH]; [done|]. rewrite app_cons. unfold chars in *. simpl. by rewrite IH. Qed.

Lemma length_chars s : length (chars s) = len s.
Proof. induction s as [|c s IH]; [done|]. unfold chars in *. simpl. by rewrite IH. Qed.

Lemma chars_inj s t : chars s = chars t → s = t.
Proof.
  intros H. rewrite <-(String.string_of_list_ascii_of_string s), <-(String.string_of_list_ascii_of_string t).
  unfold chars in H. by rewrite H.
Qed.

Lemma app_inv_tail s1 s2 t : s1 +:+ t = s2 +:+ t → s1 = s2.
Proof.
  intros H. apply (f_equal chars) in H. rewrite !chars_app in H.
  by apply (inj (.++ chars t)), chars_inj in H.
Qed.

Lemma app_inv_head s t1 t2 : s +:+ t1 = s +:+ t2 → t1 = t2.
Proof. apply String.app_inj. Qed.

Lemma app_eq_nil s t : s +:+ t = "" → s = "" ∧ t = "".
Proof. by destruct s. Qed.

Lemma take_app_len s t : str_take (len s) (s +:+ t) = s.
Proof. induction s as [|c s IH]; [done|]. rewrite app_cons. simpl. by rewrite IH. Qed.

Lemma drop_app_len s t : str_drop (len s) (s +:+ t) = t.
Proof. induction s as [|c s IH]; [done|]. by rewrite app_cons. Qed.

Lemma take_drop n s : str_take n s +:+ str_drop n s = s.
Proof. revert s. induction n as [|n IH]; intros [|c s]; simpl; rewrite ?app_cons, ?IH; done. Qed.

Lemma len_take n s : len (str_take n s) = min n (len s).
Proof. revert s. induction n as [|n IH]; intros [|c s]; simpl; auto. Qed.

Lemma len_drop n s : len (str_drop n s) = len s - n.
Proof. revert s. induction n as [|n IH]; intros [|c s]; simpl; auto. Qed.

Lemma len_zero s : len s = 0 ↔ s = "".
Proof. by destruct s. Qed.

(** ** Prefixes and suffixes *)

Lemma HasPrefix_spec s p : HasPrefix s p = true ↔ ∃ r, s = p +:+ r.
Proof.
  unfold HasPrefix. revert s. induction p as [|c p IH]; intros s.
  - split; [by exists s|]. intros _. by destruct s.
  - destruct s as [|d s]; simpl; [naive_solver|].
    destruct (Ascii.ascii_dec c d) as [->|Hne].
    + rewrite IH. setoid_rewrite app_cons. naive_solver.
    + setoid_rewrite app_cons. naive_solver.
Qed.

Lemma HasPrefix_app p r : HasPrefix (p +:+ r) p = true.
Proof. apply HasPrefix_spec. by exists r. Qed.

(** [s[len(p):]] of a string that starts with [p]. *)
Lemma drop_prefix s p : HasPrefix s p = true → p +:+ str_drop (len p) s = s.
Proof. intros [r ->]%HasPrefix_spec. by rewrite drop_app_len. Qed.

Lemma HasPrefix_nil s : HasPrefix s "" = true.
Proof. by destruct s. Qed.

Lemma HasPrefix_cons c s d p :
  HasPrefix (String c s) (String d p) = bool_decide (c = d) && HasPrefix s p.
Proof.
  unfold HasPrefix. simpl. destruct (Ascii.ascii_dec d c) as [->|]; [by rewrite bool_decide_true|].
  by rewrite bool_decide_false.
Qed.

Lemma HasSuffix_spec s p : HasSuffix s p = true ↔ ∃ r, s = r +:+ p.
Proof.
  unfold HasSuffix. rewrite andb_true_iff, !bool_decide_eq_true. split.
  - intros [_ H]. exists (str_take (len s - len p) s). set (t := str_take _ _). rewrite <-H. apply eq_sym, take_drop.
  - intros [r ->]. rewrite len_app. split; [lia|].
    replace (len r + len p - len p) with (len r) by lia. apply drop_app_len.
Qed.

Lemma HasSuffix_app r p : HasSuffix (r +:+ p) p = true.
Proof. apply HasSuffix_spec. by exists r. Qed.

Lemma TrimSuffix_app r p : TrimSuffix (r +:+ p) p = r.
Proof.
  unfold TrimSuffix. rewrite HasSuffix_app, len_app.
  replace (len r + len p - len p) with (len r) by lia. apply take_app_len.
Qed.

Lemma TrimPrefix_app p r : TrimPrefix (p +:+ r) p = r.
Proof. unfold TrimPrefix. by rewrite HasPrefix_app, drop_app_len. Qed.

(** [s[:len(s)-len(p)]] of a string that ends with [p]. *)
Lemma take_suffix s p : HasSuffix s p = true → str_take (len s - len p) s +:+ p = s.
Proof.
  intros [r ->]%HasSuffix_spec. rewrite len_app.
  replace (len r + len p - len p) with (len r) by lia. by rewrite take_app_len.
Qed.

(** ** Membership *)

Lemma str_forallb_spec p s : str_forallb p s = true ↔ ∀ c, c ∈ chars s → p c = true.
Proof.
  induction s as [|c s IH]; unfold chars in *; simpl; [set_solver|].
  rewrite andb_true_iff, IH. set_solver.
Qed.

Lemma str_forallb_app p s t : str_forallb p (s +:+ t) = str_forallb p s && str_forallb p t.
Proof. induction s as [|c s IH]; [done|]. rewrite app_cons. simpl. by rewrite IH, andb_assoc. Qed.

Lemma str_existsb_spec p s : str_existsb p s = true ↔ ∃ c, c ∈ chars s ∧ p c = true.
Proof.
  induction s as [|c s IH]; unfold chars in *; simpl; [set_solver|].
  rewrite orb_true_iff, IH. set_solver.
Qed.

Lemma str_existsb_false p s : str_existsb p s = false ↔ ∀ c, c ∈ chars s → p c = false.
Proof.
  rewrite <-not_true_iff_false, str_existsb_spec. split.
  - intros H c Hc. destruct (p c) eqn:E; [|done]. destruct H. eauto.
  - intros H (c & Hc & E). rewrite H in E; done.
Qed.

Lemma ContainsAny_false s set : ContainsAny s set = false ↔ ∀ c, c ∈ chars s → c ∉ chars set.
Proof.
  unfold ContainsAny. rewrite str_existsb_false. setoid_rewrite bool_decide_eq_false. done.
Qed.

Lemma Contains_spec s sub : Contains s sub = true ↔ ∃ a b, s = a +:+ sub +:+ b.
Proof.
  induction s as [|c s IH]; cbn [Contains]; rewrite orb_true_iff, HasPrefix_spec.
  - split; [intros [[r H]|?]; [|done]; by exists "", r|].
    intros (a & b & H). symmetry in H. apply app_eq_nil in H as [-> H]. left. by exists b.
  - rewrite IH. split.
    + intros [[r H]|(a & b & ->)]; [by exists "", r|]. by exists (String c a), b.
    + intros ([|d a] & b & H); [left; by exists b|]. rewrite app_cons in H. naive_solver.
Qed.

Lemma Contains_char s c : Contains s (str1 c) = true ↔ c ∈ chars s.
Proof.
  rewrite Contains_spec. split.
  - intros (a & b & ->). rewrite !chars_app. unfold chars. set_solver.
  - intros H. apply list_elem_of_split in H as (l1 & l2 & H).
    exists (String.string_of_list_ascii l1), (String.string_of_list_ascii l2).
    apply chars_inj. rewrite H, !chars_app. unfold chars.
    by rewrite !String.list_ascii_of_string_of_list_ascii.
Qed.

Lemma Contains_char_false s c : Contains s (str1 c) = false ↔ c ∉ chars s.
Proof. rewrite <-not_true_iff_false, Contains_char. done. Qed.

(** ** Cut *)

Lemma Cut_found s sep b a : Cut s sep = (b, a, true) → s = b +:+ sep +:+ a.
Proof.
  revert b a. induction s as [|c s IH]; intros b a; cbn [Cut]; destruct (HasPrefix _ _) eqn:E.
  - intros [= <- <-]. by rewrite app_nil_l, drop_prefix.
  - done.
  - intros [= <- <-]. by rewrite app_nil_l, drop_prefix.
  - destruct (Cut s sep) as [[b' a'] f] eqn:E'. intros [= <- <- ->].
    rewrite app_cons. f_equal. by apply IH.
Qed.

Lemma Cut_not_found s sep b a : Cut s sep = (b, a, false) → b = s ∧ a = "" ∧ Contains s sep = false.
Proof.
  revert b a. induction s as [|c s IH]; intros b a; cbn [Cut Contains]; destruct (HasPrefix _ _) eqn:E;
    [done|by intros [= <- <-]; repeat split|done|].
  destruct (Cut s sep) as [[b' a'] f] eqn:E'. intros [= <- <- ->].
  destruct (IH _ _ eq_refl) as (-> & -> & ->). done.
Qed.

Lemma Cut_char s c : c ∉ chars s → ∀ t, Cut (s +:+ String c t) (str1 c) = (s, t, true).
Proof.
  intros Hc t. induction s as [|d s IH].
  - rewrite app_nil_l. cbn [Cut]. rewrite HasPrefix_cons, HasPrefix_nil, bool_decide_true; done.
  - unfold chars in *. simpl in Hc. apply not_elem_of_cons in Hc as [Hd Hs].
    rewrite app_cons. cbn [Cut]. rewrite HasPrefix_cons, bool_decide_false by done.
    by rewrite (IH Hs).
Qed.

Lemma Cut_char_inv s c b a : Cut s (str1 c) = (b, a, true) → s = b +:+ String c a ∧ c ∉ chars b.
Proof.
  intros H. split; [by apply Cut_found in H|].
  revert b a H. induction s as [|d s IH]; intros b a; cbn [Cut].
  - destruct (HasPrefix _ _) eqn:E; [|done]. by apply HasPrefix_spec in E as [r E].
  - rewrite HasPrefix_cons, HasPrefix_nil, andb_true_r. case_bool_decide as E.
    + intros [= <- <-]. unfold chars. set_solver.
    + destruct (Cut s (str1 c)) as [[b' a'] f] eqn:E'. intros [= <- <- ->].
      specialize (IH _ _ eq_refl). unfold chars in *. simpl. set_solver.
Qed.

Lemma Cut_char_none s c : c ∉ chars s → Cut s (str1 c) = (s, "", false).
Proof.
  intros Hc. destruct (Cut s (str1 c)) as [[b a] [|]] eqn:E.
  - apply Cut_char_inv in E as [-> _]. destruct Hc. rewrite chars_app. unfold chars. set_solver.
  - by apply Cut_not_found in E as (-> & -> & _).
Qed.

Lemma SplitN2_pair s c b a : SplitN2 s (str1 c) = [b; a] ↔ s = b +:+ String c a ∧ c ∉ chars b.
Proof.
  unfold SplitN2. split.
  - destruct (Cut s (str1 c)) as [[b' a'] [|]] eqn:E; [|done]. intros [= <- <-]. by apply Cut_char_inv.
  - intros [-> Hc]. by rewrite Cut_char.
Qed.

(** ** Spans *)

Lemma span_app p s : (span p s).1 +:+ (span p s).2 = s.
Proof.
  induction s as [|c s IH]; simpl; [done|]. destruct (p c); [|done].
  destruct (span p s) as [a b]. simpl in *. by rewrite app_cons, IH.
Qed.

Lemma span_forallb p s : str_forallb p (span p s).1 = true.
Proof.
  induction s as [|c s IH]; simpl; [done|]. destruct (p c) eqn:E; [|done].
  destruct (span p s) as [a b]. simpl in *. by rewrite E, IH.
Qed.

Lemma span_rest p s c r : (span p s).2 = String c r → p c = false.
Proof.
  induction s as [|d s IH]; simpl; [done|]. destruct (p d) eqn:E.
  - destruct (span p s) as [a b]. auto.
  - by intros [= <- _].
Qed.

(** A string of bytes in [p] followed by nothing, or by a byte outside [p]. *)
Lemma span_stop p a b :
  str_forallb p a = true → (∀ c r, b = String c r → p c = false) → span p (a +:+ b) = (a, b).
Proof.
  intros Ha Hb. induction a as [|c a IH].
  - rewrite app_nil_l. destruct b as [|c b]; simpl; [done|]. by rewrite (Hb c b eq_refl).
  - simpl in Ha. apply andb_prop in Ha as [Hc Ha]. rewrite app_cons. simpl. by rewrite Hc, (IH Ha).
Qed.

Lemma span_all p a : str_forallb p a = true → span p a = (a, "").
Proof. intros H. rewrite <-(app_nil_r a) at 1. by apply span_stop. Qed.

(** ** Runes *)

Lemma runes_go_ascii fuel s c :
  len s ≤ fuel → c ∈ chars s → (byte c < 0x80)%Z → byte c ∈ runes_go fuel s.
Proof.
  revert s. induction fuel as [|fuel IH]; intros [|c0 s] Hlen Hc Hb; simpl in Hlen.
  1,2,3: solve [by apply not_elem_of_nil in Hc | lia].
  cbn [runes_go]. destruct (decode_rune (String c0 s)) as [r k] eqn:E.
  unfold chars in Hc. simpl in Hc. apply elem_of_cons in Hc as [->|Hc].
  { unfold decode_rune in E. rewrite (proj2 (Z.ltb_lt _ _) Hb) in E. simplify_eq. set_solver. }
  apply list_elem_of_further. apply IH.
  { destruct k; [|rewrite len_drop; simpl; lia].
    exfalso. unfold decode_rune in E. by repeat case_match; simplify_eq. }
  { assert (Hhi : ∀ lo hi, in_range lo hi c = true → (0x80 ≤ lo)%Z → False).
    { intros lo hi Hr ?. unfold in_range in Hr. bool_split. lia. }
    unfold decode_rune, continuation in E.
    repeat case_match; simplify_eq; bool_split; unfold chars in *; simpl in *;
      repeat match goal with H : c ∈ _ :: _ |- _ => apply elem_of_cons in H as [->|H] end; try done;
      first [ exfalso; match goal with H : in_range _ _ _ = true |- _ => apply (Hhi _ _ H); lia end
            | set_solver ]. }
  done.
Qed.

Lemma runes_ascii s c : c ∈ chars s → (byte c < 0x80)%Z → byte c ∈ runes s.
Proof. by apply runes_go_ascii. Qed.

(** ** Trimming *)

Lemma HasSuffix_last s c e d : HasSuffix (s +:+ str1 c) (e +:+ str1 d) = true → c = d.
Proof.
  intros [r Hr]%HasSuffix_spec. apply (f_equal chars) in Hr. rewrite !chars_app in Hr.
  rewrite (assoc_L (++)) in Hr. change (chars (str1 c)) with [c] in Hr. change (chars (str1 d)) with [d] in Hr.
  by apply app_inj_tail in Hr as [_ ?].
Qed.

(** The last byte of a string. *)
Fixpoint last_char (s : string) : option ascii :=
  match s with "" => None | String c "" => Some c | String _ s => last_char s end.

Lemma last_char_app s c : last_char s = Some c → ∃ r, s = r +:+ str1 c.
Proof.
  induction s as [|d s IH]; [done|]. destruct s as [|e s].
  - intros [= ->]. by exists "".
  - intros Hl. destruct (IH Hl) as [r ->]. exists (String d r). done.
Qed.

Lemma find_none {A} (p : A → bool) l : (∀ x, x ∈ l → p x = false) → List.find p l = None.
Proof.
  induction l as [|x l IH]; intros Hp; simpl; [done|]. rewrite Hp by (by left). apply IH. intros y Hy. apply Hp. by right.
Qed.

(** A string that starts and ends with a byte no space starts or ends with is
    not changed. *)
Definition not_space_edge (c : ascii) : bool :=
  forallb (λ e, negb (HasPrefix e (str1 c)) && negb (bool_decide (last_char e = Some c))) space_encodings.

Lemma TrimSpace_id c s d :
  not_space_edge c = true → not_space_edge d = true →
  TrimSpace (String c (s +:+ str1 d)) = String c (s +:+ str1 d).
Proof.
  unfold not_space_edge. rewrite !forallb_True. intros Hc Hd.
  assert (Hl : leading_space (String c (s +:+ str1 d)) = None).
  { unfold leading_space. rewrite find_none; [done|]. intros e He. specialize (Hc e He).
    apply andb_prop in Hc as [Hc _]. apply negb_true_iff in Hc.
    destruct (HasPrefix (String c (s +:+ str1 d)) e) eqn:E; [|done]. exfalso.
    apply HasPrefix_spec in E as [r Hr]. destruct e as [|b e].
    - assert (Hno : "" ∉ space_encodings) by (by apply (bool_decide_unpack _)). done.
    - injection Hr as <- _. change (String c e) with (str1 c +:+ e) in Hc. by rewrite HasPrefix_app in Hc. }
  assert (Ht : trailing_space (String c (s +:+ str1 d)) = None).
  { unfold trailing_space. rewrite find_none; [done|]. intros e He. specialize (Hd e He).
    apply andb_prop in Hd as [_ Hd]. apply negb_true_iff, bool_decide_eq_false in Hd.
    destruct (HasSuffix (String c (s +:+ str1 d)) e) eqn:E; [|done]. exfalso.
    destruct (last_char e) as [b|] eqn:Eb.
    - pose proof (last_char_app e b Eb) as [r ->]. change (String c (s +:+ str1 d)) with (String c s +:+ str1 d) in E.
      apply HasSuffix_last in E. congruence.
    - destruct e as [|b e]; [by assert (Hno : "" ∉ space_encodings) by (by apply (bool_decide_unpack _))|].
      clear - Eb. exfalso. revert b Eb. induction e as [|b' e IH]; intros b Eb; [done|]. apply (IH b'). done. }
  unfold TrimSpace. simpl len. cbn [trim_left]. rewrite Hl. simpl len. cbn [trim_right]. by rewrite Ht.
Qed.
