(* ===== verification/Regex.v ===== *)
(** * Regular expressions

    The anchored patterns of the sources ([^...$] matched with
    [regexp.MatchString]) as data, with their language and an executable
    matcher by derivatives proved equal to it.  All classes of those patterns
    are ASCII, so matching bytes and matching runes agree. *)

From S2P Require Import Prelude GoStrings.

Inductive regex :=
| REmpty
| REps
| RClass (p : ascii → bool)
| RSeq (r1 r2 : regex)
| RAlt (r1 r2 : regex)
| RStar (r : regex)
| RUpTo (p : ascii → bool) (n : nat).  (** [p{0,n}] *)

Inductive re_match : regex → string → Prop :=
| match_eps : re_match REps ""
| match_class p c : p c = true → re_match (RClass p) (str1 c)
| match_seq r1 r2 s1 s2 : re_match r1 s1 → re_match r2 s2 → re_match (RSeq r1 r2) (s1 +:+ s2)
| match_alt_l r1 r2 s : re_match r1 s → re_match (RAlt r1 r2) s
| match_alt_r r1 r2 s : re_match r2 s → re_match (RAlt r1 r2) s
| match_star_nil r : re_match (RStar r) ""
| match_star_app r s1 s2 :
    s1 ≠ "" → re_match r s1 → re_match (RStar r) s2 → re_match (RStar r) (s1 +:+ s2)
| match_upto p n s :
    len s ≤ n → str_forallb p s = true → re_match (RUpTo p n) s.

Fixpoint nullable (r : regex) : bool :=
  match r with
  | REmpty | RClass _ => false
  | REps | RStar _ | RUpTo _ _ => true
  | RSeq r1 r2 => nullable r1 && nullable r2
  | RAlt r1 r2 => nullable r1 || nullable r2
  end.

(** Sequence and alternative that drop the empty language at once. *)
Definition seq' (r1 r2 : regex) : regex :=
  match r1 with REmpty => REmpty | REps => r2 | _ => RSeq r1 r2 end.

Definition alt' (r1 r2 : regex) : regex :=
  match r1, r2 with REmpty, r | r, REmpty => r | _, _ => RAlt r1 r2 end.

Fixpoint deriv (c : ascii) (r : regex) : regex :=
  match r with
  | REmpty | REps => REmpty
  | RClass p => if p c then REps else REmpty
  | RSeq r1 r2 =>
      let d := seq' (deriv c r1) r2 in
      if nullable r1 then alt' d (deriv c r2) else d
  | RAlt r1 r2 => alt' (deriv c r1) (deriv c r2)
  | RStar r => seq' (deriv c r) (RStar r)
  | RUpTo p n => if p c then match n with 0 => REmpty | S n => RUpTo p n end else REmpty
  end.

Fixpoint matchb (r : regex) (s : string) : bool :=
  match s with
  | "" => nullable r
  | String c s => matchb (deriv c r) s
  end.

(** ** The matcher decides the language *)

Lemma re_match_seq r1 r2 s :
  re_match (RSeq r1 r2) s ↔ ∃ s1 s2, s = s1 +:+ s2 ∧ re_match r1 s1 ∧ re_match r2 s2.
Proof. split; [inversion 1; eauto|]. intros (s1 & s2 & -> & ? & ?). by constructor. Qed.

Lemma re_match_alt r1 r2 s : re_match (RAlt r1 r2) s ↔ re_match r1 s ∨ re_match r2 s.
Proof. split; [inversion 1; auto|]. intros [?|?]; [by apply match_alt_l|by apply match_alt_r]. Qed.

Lemma re_match_class p s : re_match (RClass p) s ↔ ∃ c, s = str1 c ∧ p c = true.
Proof. split; [inversion 1; eauto|]. intros (c & -> & ?). by constructor. Qed.

Lemma re_match_eps s : re_match REps s ↔ s = "".
Proof. split; [by inversion 1|]. intros ->. constructor. Qed.

Lemma re_match_empty s : ¬ re_match REmpty s.
Proof. inversion 1. Qed.

Lemma re_match_upto p n s : re_match (RUpTo p n) s ↔ len s ≤ n ∧ str_forallb p s = true.
Proof. split; [by inversion 1|]. intros [? ?]. by constructor. Qed.

Lemma re_match_seq' r1 r2 s : re_match (seq' r1 r2) s ↔ re_match (RSeq r1 r2) s.
Proof.
  destruct r1; simpl; try done; rewrite re_match_seq.
  - split; [by intros ?%re_match_empty|]. by intros (? & ? & _ & ?%re_match_empty & _).
  - setoid_rewrite re_match_eps. split; [intros ?; by exists "", s|]. by intros (? & ? & -> & -> & ?).
Qed.

Lemma re_match_alt' r1 r2 s : re_match (alt' r1 r2) s ↔ re_match (RAlt r1 r2) s.
Proof.
  pose proof (re_match_empty s). rewrite re_match_alt.
  destruct r1, r2; simpl; try tauto; rewrite re_match_alt; done.
Qed.

Lemma nullable_spec r : nullable r = true ↔ re_match r "".
Proof.
  induction r as [| |p|r1 IH1 r2 IH2|r1 IH1 r2 IH2|r IH|p n]; simpl.
  - split; [done|]. by intros ?%re_match_empty.
  - split; [constructor|done].
  - rewrite re_match_class. split; [done|]. by intros (c & ? & _).
  - rewrite andb_true_iff, IH1, IH2, re_match_seq. split.
    + intros [? ?]. by exists "", "".
    + intros (s1 & s2 & H & ? & ?). symmetry in H. by apply app_eq_nil in H as [-> ->].
  - by rewrite orb_true_iff, IH1, IH2, re_match_alt.
  - split; [constructor|done].
  - rewrite re_match_upto. split; [|done]. intros _. split; [simpl; lia|done].
Qed.

Lemma re_match_star_cons r c s :
  re_match (RStar r) (String c s) ↔
  ∃ s1 s2, s = s1 +:+ s2 ∧ re_match r (String c s1) ∧ re_match (RStar r) s2.
Proof.
  split.
  - inversion 1 as [| | | | | |r' s1 s2 Hne H1 H2 Hr Hs|]; subst.
    destruct s1 as [|d s1]; [done|]. rewrite app_cons in Hs. simplify_eq. eauto.
  - intros (s1 & s2 & -> & H1 & H2). rewrite <-app_cons. by constructor.
Qed.

Lemma deriv_spec r c s : re_match (deriv c r) s ↔ re_match r (String c s).
Proof.
  revert s. induction r as [| |p|r1 IH1 r2 IH2|r1 IH1 r2 IH2|r IH|p n]; intros s; simpl.
  - split; by intros ?%re_match_empty.
  - rewrite re_match_eps. split; [by intros ?%re_match_empty|done].
  - rewrite re_match_class. destruct (p c) eqn:E.
    + rewrite re_match_eps. naive_solver.
    + split; [by intros ?%re_match_empty|]. intros (d & [= <- _] & ?). congruence.
  - rewrite (re_match_seq r1 r2). assert (Hd :
      re_match (seq' (deriv c r1) r2) s ↔
      ∃ s1 s2, s = s1 +:+ s2 ∧ re_match r1 (String c s1) ∧ re_match r2 s2).
    { rewrite re_match_seq', re_match_seq. by setoid_rewrite IH1. }
    destruct (nullable r1) eqn:E.
    + rewrite re_match_alt', re_match_alt, Hd, IH2. apply nullable_spec in E. split.
      * intros [(s1 & s2 & -> & ? & ?)|?]; [by exists (String c s1), s2|by exists "", (String c s)].
      * intros ([|d s1] & s2 & H & ? & ?); [rewrite app_nil_l in H; subst; auto|].
        rewrite app_cons in H. simplify_eq. left. by exists s1, s2.
    + rewrite Hd. split.
      * intros (s1 & s2 & -> & ? & ?). by exists (String c s1), s2.
      * intros ([|d s1] & s2 & H & H1 & ?); [apply nullable_spec in H1; congruence|].
        rewrite app_cons in H. simplify_eq. by exists s1, s2.
  - by rewrite re_match_alt', !re_match_alt, IH1, IH2.
  - rewrite re_match_seq', re_match_seq, re_match_star_cons. by setoid_rewrite IH.
  - rewrite re_match_upto. simpl. destruct (p c) eqn:E; simpl.
    + destruct n as [|n]; [split; [by intros ?%re_match_empty|lia]|].
      rewrite re_match_upto. split; intros [? ?]; split; auto; lia.
    + split; [by intros ?%re_match_empty|by intros [_ ?]].
Qed.

Lemma matchb_spec r s : matchb r s = true ↔ re_match r s.
Proof.
  revert r. induction s as [|c s IH]; intros r; simpl; [apply nullable_spec|].
  by rewrite IH, deriv_spec.
Qed.

(** ** Notation of the patterns *)

Definition rlit (c : ascii) : regex := RClass (λ d, bool_decide (d = c)).
Definition ropt (r : regex) : regex := RAlt REps r.

Definition is_upper (c : ascii) : bool := in_range 65 90 c.
Definition is_lower (c : ascii) : bool := in_range 97 122 c.
Definition is_digit (c : ascii) : bool := in_range 48 57 c.
Definition is_alnum (c : ascii) : bool := is_upper c || is_lower c || is_digit c.
Definition one_of (set : string) (c : ascii) : bool := bool_decide (c ∈ chars set).

(** Every byte of a string in the language of [r] satisfies [P], when every
    class of [r] implies [P]. *)
Fixpoint re_chars (P : ascii → Prop) (r : regex) : Prop :=
  match r with
  | REmpty | REps => True
  | RClass p | RUpTo p _ => ∀ c, p c = true → P c
  | RSeq r1 r2 | RAlt r1 r2 => re_chars P r1 ∧ re_chars P r2
  | RStar r => re_chars P r
  end.

Lemma re_match_chars P r s : re_chars P r → re_match r s → ∀ c, c ∈ chars s → P c.
Proof.
  intros Hr Hm. induction Hm as [|p c Hc|r1 r2 s1 s2 _ IH1 _ IH2|r1 r2 s _ IH|r1 r2 s _ IH| |r s1 s2 _ _ IH1 _ IH2|p n s _ Hs];
    simpl in Hr; intros d Hd.
  - by apply not_elem_of_nil in Hd.
  - unfold chars in Hd. simpl in Hd. apply list_elem_of_singleton in Hd as ->. auto.
  - rewrite chars_app, elem_of_app in Hd. naive_solver.
  - naive_solver.
  - naive_solver.
  - by apply not_elem_of_nil in Hd.
  - rewrite chars_app, elem_of_app in Hd. naive_solver.
  - rewrite str_forallb_spec in Hs. auto.
Qed.
