(* ===== verification/Names.v ===== *)
(** * Names of services and targets

    [api/names.go], [api/network.go] and [api/validation.go]: host names,
    service types, the URI grammar of services ("mcp://name"), the "fact:value"
    grammar of targets, and the validators that keep a name from carrying
    Datalog.  Also the character-set check of [api/policy_rules.go], which the
    validators share. *)

From S2P Require Import Prelude GoStrings Regex.

(** ** Host names *)

Definition NormalizeMeshHost `{UnicodeCase} (host : string) : string :=
  ToLower (TrimSuffix (TrimSpace host) ".").

(** ** Service types *)

Inductive ServiceType :=
| SERVICE_TYPE_UNSPECIFIED
| SERVICE_TYPE_MCP
| SERVICE_TYPE_INFERENCE
| SERVICE_TYPE_A2A
| SERVICE_TYPE_EGRESS.

#[export] Instance ServiceType_eq_dec : EqDecision ServiceType.
Proof. solve_decision. Defined.

Definition ServiceTypeStringMCP : string := "mcp".
Definition ServiceTypeStringInference : string := "inference".
Definition ServiceTypeStringA2A : string := "a2a".
Definition ServiceTypeStringEgress : string := "egress".

Definition ParseServiceType `{UnicodeCase} (s : string) : result ServiceType :=
  let l := ToLower s in
  if bool_decide (l = ServiceTypeStringMCP) then Ok SERVICE_TYPE_MCP
  else if bool_decide (l = ServiceTypeStringInference) then Ok SERVICE_TYPE_INFERENCE
  else if bool_decide (l = ServiceTypeStringA2A) then Ok SERVICE_TYPE_A2A
  else if bool_decide (l = ServiceTypeStringEgress) then Ok SERVICE_TYPE_EGRESS
  else fail "invalid service type".

Definition ServiceTypeToString (t : ServiceType) : result string :=
  match t with
  | SERVICE_TYPE_MCP => Ok ServiceTypeStringMCP
  | SERVICE_TYPE_INFERENCE => Ok ServiceTypeStringInference
  | SERVICE_TYPE_A2A => Ok ServiceTypeStringA2A
  | SERVICE_TYPE_EGRESS => Ok ServiceTypeStringEgress
  | SERVICE_TYPE_UNSPECIFIED => fail "invalid or unspecified service type"
  end.

(** ** URIs

    The groups of [rfc3986URIRegex] that the sources read.  The pattern has no
    end anchor and every part of it is optional, so it matches every string;
    its classes are disjoint from the delimiters that follow them, so the
    leftmost-first match is the one computed here. *)

Record uri_groups := {
  matches_2 : string;  (** scheme *)
  matches_3 : string;  (** "//" and the authority *)
  matches_4 : string;  (** authority *)
  matches_5 : string;  (** path *)
  matches_6 : string;  (** "?" and the query *)
  matches_8 : string;  (** "#" and the fragment *)
}.

Definition not_in (set : string) (c : ascii) : bool := negb (one_of set c).

Definition split_scheme (s : string) : string * string :=
  match span (not_in ":/?#") s with
  | (String c sch, String ":" rest) => (String c sch, rest)
  | _ => ("", s)
  end.

Definition split_authority (s : string) : string * string * string :=
  if HasPrefix s "//" then
    let '(a, r) := span (not_in "/?#") (str_drop 2 s) in ("//" +:+ a, a, r)
  else ("", "", s).

Definition split_query (s : string) : string * string :=
  match s with
  | String "?" r => let '(q, r) := span (not_in "#") r in (String "?" q, r)
  | _ => ("", s)
  end.

Definition split_fragment (s : string) : string :=
  match s with
  | String "#" r => String "#" (span (not_in (str1 "010")) r).1
  | _ => ""
  end.

Definition rfc3986URIRegex_FindStringSubmatch (s : string) : option uri_groups :=
  let '(scheme, r) := split_scheme s in
  let '(auth_part, auth, r) := split_authority r in
  let '(path, r) := span (not_in "?#") r in
  let '(query, r) := split_query r in
  Some {| matches_2 := scheme; matches_3 := auth_part; matches_4 := auth; matches_5 := path;
          matches_6 := query; matches_8 := split_fragment r |}.

(** [dnsNameRegex]: a DNS name with underscores, an optional leading "*." and
    an optional trailing ".*". *)
Definition dns_word (c : ascii) : bool := is_alnum c || bool_decide (c = "_"%char).
Definition dns_label : regex :=
  RSeq (RClass dns_word) (RUpTo (λ c, dns_word c || bool_decide (c = "-"%char)) 62).
Definition dnsNameRegex : regex :=
  RSeq (ropt (RSeq (rlit "*") (rlit ".")))
    (RSeq dns_label
      (RSeq (RStar (RSeq (rlit ".") dns_label))
        (RSeq (ropt (RSeq (rlit ".") (rlit "*"))) (ropt (RClass (one_of "._")))))).

(** ** Service targets *)

Definition ParseServiceTarget (target : string) : string * string :=
  if bool_decide (target = "*") then ("*", "*")
  else
    let by_colon :=
      match SplitN2 target ":" with
      | [t; n] => (t, n)
      | _ => ("", target)
      end in
    match Index target "://" with
    | Some idx =>
        if Contains (str_take idx target) ":" then by_colon
        else
          match rfc3986URIRegex_FindStringSubmatch target with
          | None => ("", target)
          | Some m =>
              if bool_decide (matches_2 m = "") || bool_decide (matches_3 m = "") then ("", target)
              else (matches_2 m,
                    if bool_decide (matches_5 m = "") then matches_4 m
                    else matches_4 m +:+ matches_5 m)
          end
    | None => by_colon
    end.

Definition SplitToolName (toolName : string) : result (string * string) :=
  if bool_decide (toolName = "") then fail "tool name cannot be empty"
  else
    match rfc3986URIRegex_FindStringSubmatch toolName with
    | None => fail "invalid namespaced tool name"
    | Some m =>
        fail_if (bool_decide (matches_2 m = "") || bool_decide (matches_3 m = "")
                 || bool_decide (matches_4 m = "") || bool_decide (matches_5 m = "")
                 || bool_decide (matches_5 m = "/"))
          "invalid namespaced tool name: must follow explicit URI format";;
        fail_if (negb (bool_decide (matches_6 m = "")) || negb (bool_decide (matches_8 m = "")))
          "invalid namespaced tool name: queries and fragments are not allowed";;
        Ok (matches_2 m +:+ "://" +:+ matches_4 m, TrimPrefix (matches_5 m) "/")
    end.

(** ** Validation *)

Definition ValidateServiceFormat (svc : string) : result unit :=
  if bool_decide (svc = "*") then Ok tt
  else
    match rfc3986URIRegex_FindStringSubmatch svc with
    | None => fail "invalid service format: must follow explicit URI format"
    | Some m =>
        fail_if (bool_decide (matches_2 m = "") || bool_decide (matches_3 m = ""))
          "invalid service format: must follow explicit URI format";;
        fail_if (negb (bool_decide (matches_6 m = "")))
          "invalid service format: query parameters are not allowed in service URIs";;
        fail_if (negb (bool_decide (matches_8 m = "")))
          "invalid service format: fragments are not allowed in service URIs";;
        fail_if (Contains (matches_4 m) "@")
          "invalid service format: userinfo is not allowed in service URIs";;
        let '(typ, val) := ParseServiceTarget svc in
        fail_if (bool_decide (typ = "")) "invalid service format: type cannot be empty";;
        fail_if (bool_decide (val = "")) "invalid service format: value cannot be empty";;
        if bool_decide (val = "*") then Ok tt
        else
          match SplitN2 val "/" with
          | host :: _ => fail_if (negb (matchb dnsNameRegex host)) "invalid service format: not a valid DNS name"
          | [] => Ok tt
          end
    end.

(** The characters that could end a Datalog string, checked rune by rune: 34 is
    the quote, 92 the backslash. *)
Definition validateBindingMemberCharset (s : string) : result unit :=
  for_each (λ r, fail_if (IsControl r || bool_decide (r = 34%Z) || bool_decide (r = 92%Z))
                   "contains disallowed character") (runes s).

Definition ValidateRoleName (name : string) : result unit :=
  fail_if (bool_decide (TrimSpace name = "")) "role name cannot be empty";;
  wrap_err "role name is invalid" (validateBindingMemberCharset name).

(** ** The grammar of service URIs *)

(** [ty://nm] with a scheme and a name the URI pattern keeps whole. *)
Definition uri_parts (ty nm : string) : Prop :=
  ty ≠ "" ∧ str_forallb (not_in ":/?#") ty = true ∧ str_forallb (not_in "?#") nm = true.

(** The part of a name before its first "/". *)
Definition host_of (nm : string) : string := (span (not_in "/") nm).1.

Lemma not_in_true set c : not_in set c = true ↔ c ∉ chars set.
Proof. unfold not_in, one_of. by rewrite negb_true_iff, bool_decide_eq_false. Qed.

Lemma not_in_false set c : not_in set c = false ↔ c ∈ chars set.
Proof. unfold not_in, one_of. by rewrite negb_false_iff, bool_decide_eq_true. Qed.

Lemma forallb_not_in set s : str_forallb (not_in set) s = true ↔ ∀ c, c ∈ chars s → c ∉ chars set.
Proof. rewrite str_forallb_spec. by setoid_rewrite not_in_true. Qed.

Lemma split_scheme_app ty r :
  ty ≠ "" → str_forallb (not_in ":/?#") ty = true → split_scheme (ty +:+ String ":" r) = (ty, r).
Proof.
  intros Hne Hty. unfold split_scheme. rewrite span_stop; [by destruct ty|done|].
  intros c r' [= <- _]. by apply not_in_false; vm_compute; repeat constructor.
Qed.

Lemma split_scheme_inv s ty r :
  split_scheme s = (ty, r) → ty ≠ "" →
  s = ty +:+ String ":" r ∧ str_forallb (not_in ":/?#") ty = true.
Proof.
  unfold split_scheme. intros H Hne.
  pose proof (span_app (not_in ":/?#") s) as Happ.
  pose proof (span_forallb (not_in ":/?#") s) as Hall.
  destruct (span _ s) as [a b]. simpl in *.
  repeat case_match; simplify_eq; done.
Qed.

Lemma split_authority_app nm :
  split_authority ("//" +:+ nm) =
  ("//" +:+ (span (not_in "/?#") nm).1, (span (not_in "/?#") nm).1, (span (not_in "/?#") nm).2).
Proof. unfold split_authority. rewrite HasPrefix_app. change (str_drop 2 _) with nm. by destruct (span _ nm). Qed.

Lemma split_authority_inv s ap a r :
  split_authority s = (ap, a, r) → ap ≠ "" → s = "//" +:+ a +:+ r ∧ (a, r) = span (not_in "/?#") (a +:+ r).
Proof.
  unfold split_authority. destruct (HasPrefix s "//") eqn:E; [|by intros [= <- _ _] []].
  pose proof (span_app (not_in "/?#") (str_drop 2 s)) as Happ.
  destruct (span _ (str_drop 2 s)) as [x y] eqn:Es. intros [= <- <- <-] _. simpl in Happ.
  rewrite Happ. split; [|done]. symmetry. apply (drop_prefix s "//" E).
Qed.

Lemma Index_uri ty nm :
  str_forallb (not_in ":/?#") ty = true → Index (ty +:+ "://" +:+ nm) "://" = Some (len ty).
Proof.
  intros Hty. induction ty as [|c ty IH].
  - rewrite app_nil_l. destruct nm; done.
  - simpl in Hty. apply andb_prop in Hty as [Hc Hty]. rewrite app_cons. cbn [Index].
    rewrite HasPrefix_cons, bool_decide_false, andb_false_l, (IH Hty); [done|].
    intros ->. by vm_compute in Hc.
Qed.

(** A name without "?" and "#" is its authority followed by its path. *)
Lemma span_authority_path nm :
  str_forallb (not_in "?#") nm = true →
  span (not_in "?#") (span (not_in "/?#") nm).2 = ((span (not_in "/?#") nm).2, "").
Proof.
  intros H. apply span_all. pose proof (span_app (not_in "/?#") nm) as Ha.
  rewrite <-Ha, str_forallb_app in H. by apply andb_prop in H as [_ H].
Qed.

Lemma span_authority_host nm :
  str_forallb (not_in "?#") nm = true → (span (not_in "/?#") nm).1 = host_of nm.
Proof.
  intros H. unfold host_of. f_equal. induction nm as [|c nm IH]; simpl in *; [done|].
  apply andb_prop in H as [Hc H].
  replace (not_in "/?#" c) with (not_in "/" c); [by rewrite IH|].
  apply not_in_true in Hc. unfold not_in, one_of. f_equal. apply bool_decide_ext.
  unfold chars in *. simpl in *. set_solver.
Qed.

Lemma groups_uri ty nm :
  uri_parts ty nm →
  rfc3986URIRegex_FindStringSubmatch (ty +:+ "://" +:+ nm) =
  Some {| matches_2 := ty; matches_3 := "//" +:+ host_of nm; matches_4 := host_of nm;
          matches_5 := (span (not_in "/?#") nm).2; matches_6 := ""; matches_8 := "" |}.
Proof.
  intros (Hne & Hty & Hnm). unfold rfc3986URIRegex_FindStringSubmatch.
  change ("://" +:+ nm) with (String ":" ("//" +:+ nm)).
  rewrite split_scheme_app, split_authority_app, span_authority_path, span_authority_host by done.
  done.
Qed.

Lemma groups_inv s m :
  rfc3986URIRegex_FindStringSubmatch s = Some m →
  matches_2 m ≠ "" → matches_3 m ≠ "" → matches_6 m = "" → matches_8 m = "" →
  ∃ nm, s = matches_2 m +:+ "://" +:+ nm ∧ uri_parts (matches_2 m) nm.
Proof.
  unfold rfc3986URIRegex_FindStringSubmatch.
  destruct (split_scheme s) as [ty r] eqn:E1, (split_authority r) as [[ap a] r2] eqn:E2.
  pose proof (span_app (not_in "?#") r2) as Happ.
  pose proof (span_forallb (not_in "?#") r2) as Hall.
  pose proof (span_rest (not_in "?#") r2) as Hrest.
  destruct (span (not_in "?#") r2) as [pth r3] eqn:E3. simpl in *.
  destruct (split_query r3) as [q r4] eqn:E4. intros [= <-]; simpl. intros Hty Hap -> Hf.
  apply split_scheme_inv in E1 as [-> Hsch]; [|done].
  apply split_authority_inv in E2 as [-> Ha]; [|done].
  assert (r3 = "") as ->.
  { destruct r3 as [|c r3]; [done|]. specialize (Hrest c r3 eq_refl).
    apply not_in_false in Hrest. unfold chars in Hrest. simpl in Hrest.
    apply elem_of_cons in Hrest as [->|Hrest%list_elem_of_singleton]; [|subst c].
    - cbn in E4. destruct (span _ r3). done.
    - simpl in E4. injection E4 as <-. done. }
  exists (a +:+ r2). split; [done|]. split_and!; [done..|].
  rewrite app_nil_r in Happ. subst pth. rewrite str_forallb_app, Hall, andb_true_r.
  pose proof (span_forallb (not_in "/?#") (a +:+ r2)) as Ha'. rewrite <-Ha in Ha'. simpl in Ha'.
  rewrite forallb_not_in in Ha' |- *. intros c Hc Hin. apply (Ha' c Hc).
  unfold chars in *. simpl in *. set_solver.
Qed.

Lemma ParseServiceTarget_uri ty nm :
  uri_parts ty nm → ParseServiceTarget (ty +:+ "://" +:+ nm) = (ty, nm).
Proof.
  intros H. pose proof H as (Hne & Hty & Hnm). unfold ParseServiceTarget.
  rewrite bool_decide_false; [|destruct ty as [|c [|d ty]]; rewrite ?app_cons; naive_solver].
  rewrite Index_uri, take_app_len, groups_uri by done.
  replace (Contains ty ":") with false; simpl.
  2: { symmetry. apply Contains_char_false. intros Hin. rewrite forallb_not_in in Hty.
       apply (Hty _ Hin). by vm_compute; repeat constructor. }
  rewrite bool_decide_false, orb_false_l by done. f_equal.
  pose proof (span_app (not_in "/?#") nm) as Happ. rewrite span_authority_host in Happ by done.
  destruct (bool_decide_reflect ((span (not_in "/?#") nm).2 = "")) as [E|E]; [|done].
  by rewrite E, app_nil_r in Happ.
Qed.

Lemma Cut_char_span s c : (Cut s (str1 c)).1.1 = (span (not_in (str1 c)) s).1.
Proof.
  induction s as [|d s IH]; [done|]. cbn [Cut span].
  rewrite HasPrefix_cons, HasPrefix_nil, andb_true_r. case_bool_decide as E.
  - subst. by rewrite (proj2 (not_in_false _ _)) by (unfold chars; set_solver).
  - rewrite (proj2 (not_in_true _ _)) by (unfold chars; set_solver).
    destruct (Cut s (str1 c)) as [[b a] f], (span _ s). simpl in *. by rewrite IH.
Qed.

Lemma SplitN2_host nm : ∃ t, SplitN2 nm "/" = host_of nm :: t.
Proof.
  pose proof (Cut_char_span nm "/") as H. unfold SplitN2, host_of.
  destruct (Cut nm "/") as [[b a] [|]] eqn:E; simpl in H; rewrite <-H; [by exists [a]|].
  exists []. by apply Cut_not_found in E as (-> & _).
Qed.

Lemma dnsNameRegex_chars s c : re_match dnsNameRegex s → c ∈ chars s → dns_word c || one_of "*.-" c = true.
Proof.
  intros Hm. revert c. eapply re_match_chars; [|exact Hm]. simpl.
  split_and!; try done; intros c; unfold one_of, dns_word; rewrite ?orb_true_iff, ?bool_decide_eq_true;
    unfold chars; simpl; set_solver.
Qed.

Lemma dnsNameRegex_not_empty : ¬ re_match dnsNameRegex "".
Proof. rewrite <-matchb_spec. by vm_compute. Qed.

Lemma dns_word_false c : c ∈ chars "@/:?# " → dns_word c || one_of "*.-" c = false.
Proof. unfold chars; simpl. rewrite !elem_of_cons, elem_of_nil. intuition (subst; reflexivity). Qed.

(** ** Properties *)

(** The service validator accepts exactly "*" and the URIs [ty://nm] whose
    scheme and name survive the URI pattern unchanged and whose name is "*" or
    starts with a DNS name. *)
Lemma ValidateServiceFormat_iff svc :
  ValidateServiceFormat svc = Ok tt ↔
  svc = "*" ∨
  ∃ ty nm, svc = ty +:+ "://" +:+ nm ∧ uri_parts ty nm ∧
           (nm = "*" ∨ re_match dnsNameRegex (host_of nm)).
Proof.
  unfold ValidateServiceFormat. case_bool_decide as Hstar; [by split; auto|]. split.
  - destruct (rfc3986URIRegex_FindStringSubmatch svc) as [m|] eqn:Em; [|done].
    intros H. inv_ok. bool_split. destruct (groups_inv svc m) as (nm & -> & Hu); [done..|].
    rewrite ParseServiceTarget_uri in * by done. inv_ok. bool_split.
    right. exists (matches_2 m), nm. split_and!; [done..|].
    case_bool_decide; [by left|]. destruct (SplitN2_host nm) as [t Ht]. rewrite Ht in *. inv_ok.
    bool_split. right. by apply matchb_spec.
  - intros [->|(ty & nm & -> & Hu & Hnm)]; [done|].
    rewrite groups_uri, ParseServiceTarget_uri by done. simpl.
    pose proof Hu as (Hty & _ & _). rewrite (bool_decide_false _ Hty). simpl.
    assert (Hat : Contains (host_of nm) "@" = false).
    { apply Contains_char_false. intros Hin. destruct Hnm as [->|Hd]; [by vm_compute in Hin; inversion Hin as [|? ? ? Hx]; inversion Hx|].
      pose proof (dnsNameRegex_chars _ _ Hd Hin) as H. by vm_compute in H. }
    rewrite Hat. simpl. rewrite (bool_decide_false (nm = "")).
    2: { intros ->. destruct Hnm as [?|Hd]; [done|]. by apply dnsNameRegex_not_empty. }
    simpl. case_bool_decide as Hs; [done|]. destruct Hnm as [?|Hd]; [done|].
    destruct (SplitN2_host nm) as [t ->]. apply matchb_spec in Hd. by rewrite Hd.
Qed.

(** A service that validates is determined by how it parses: two entries that
    are not the bare wildcard and parse to the same type and name are the
    same string. *)
Lemma ParseServiceTarget_inj svc1 svc2 :
  ValidateServiceFormat svc1 = Ok tt → ValidateServiceFormat svc2 = Ok tt →
  svc1 ≠ "*" → svc2 ≠ "*" →
  ParseServiceTarget svc1 = ParseServiceTarget svc2 → svc1 = svc2.
Proof.
  rewrite !ValidateServiceFormat_iff.
  intros [?|(t1 & n1 & -> & ? & _)] [?|(t2 & n2 & -> & ? & _)] ? ? Heq; try done.
  rewrite !ParseServiceTarget_uri in Heq by done. by simplify_eq.
Qed.

(** Every string parses to a type and a name; a "*" target is the pair of stars. *)
Lemma ParseServiceTarget_star : ParseServiceTarget "*" = ("*", "*").
Proof. done. Qed.

Lemma ParseServiceType_ToString `{UnicodeCase} t s :
  ServiceTypeToString t = Ok s → ParseServiceType s = Ok t.
Proof. destruct t; simpl; intros [= <-]; vm_compute; done. Qed.

Lemma ServiceTypeToString_uri t s :
  ServiceTypeToString t = Ok s → s ≠ "" ∧ str_forallb (not_in ":/?#") s = true.
Proof. destruct t; simpl; intros [= <-]; by vm_compute. Qed.

(** A tool name that is accepted splits into its service URI and the tool
    and joins back: the name is the service, a slash and the tool, the tool is
    not empty, and the service parses to a type and a host. *)
Theorem SplitToolName_Ok n svc tool :
  SplitToolName n = Ok (svc, tool) →
  n = svc +:+ "/" +:+ tool ∧ tool ≠ "" ∧
  ∃ ty host, svc = ty +:+ "://" +:+ host ∧ host ≠ "" ∧ ParseServiceTarget svc = (ty, host).
Proof.
  unfold SplitToolName. case_bool_decide as Hn; [done|].
  destruct (rfc3986URIRegex_FindStringSubmatch n) as [m|] eqn:Em; [|done].
  intros H. inv_ok. bool_split. destruct (groups_inv n m) as (nm & -> & Hu); [done..|].
  pose proof Hu as (Hty & Hsch & Hnm). rewrite groups_uri in Em by done.
  injection Em as Em. rewrite <-Em in *. simpl in *.
  pose proof (span_app (not_in "/?#") nm) as Happ. rewrite span_authority_host in Happ by done.
  destruct (span (not_in "/?#") nm).2 as [|c pth] eqn:Ep in *; [done|].
  assert (c = "/"%char) as ->.
  { pose proof (span_rest _ _ _ _ Ep) as Hc. apply not_in_false in Hc.
    rewrite <-Happ, str_forallb_app in Hnm. apply andb_prop in Hnm as [_ Hnm]. simpl in Hnm.
    apply andb_prop in Hnm as [Hc' _]. apply not_in_true in Hc'.
    unfold chars in *. simpl in *. set_solver. }
  rewrite (TrimPrefix_app "/" pth : TrimPrefix (String "/" pth) "/" = pth).
  split; [by rewrite <-Happ at 1; rewrite !app_assoc|].
  split; [by intros ->|]. exists (matches_2 m), (host_of nm).
  split_and!; [done..|]. apply ParseServiceTarget_uri. split_and!; [done..|].
  rewrite <-Happ, str_forallb_app in Hnm. by apply andb_prop in Hnm as [? _].
Qed.

(** What the character-set check guarantees byte by byte: no quote, no
    backslash and no ASCII control character. *)
Lemma validateBindingMemberCharset_Ok s c :
  validateBindingMemberCharset s = Ok tt → c ∈ chars s →
  c ≠ "034"%char ∧ c ≠ "\"%char ∧ (0x20 ≤ byte c)%Z ∧ (byte c ≠ 0x7F)%Z.
Proof.
  unfold validateBindingMemberCharset. rewrite for_each_Ok, Forall_forall. intros H Hc.
  assert (Hr : (byte c < 0x80)%Z → IsControl (byte c) = false ∧ byte c ≠ 34%Z ∧ byte c ≠ 92%Z).
  { intros Hb. pose proof (H _ (runes_ascii s c Hc Hb)) as Hf. apply fail_if_Ok in Hf. by bool_split. }
  destruct (decide (byte c < 0x80)%Z) as [Hb|Hb].
  - destruct (Hr Hb) as (Hctl & H34 & H92). unfold IsControl in Hctl.
    apply orb_false_elim in Hctl as [H1 H2].
    assert (0 ≤ byte c)%Z by (unfold byte; lia).
    split_and!; [by intros ->|by intros ->| |]; lia.
  - split_and!; try lia; intros ->; by vm_compute in Hb.
Qed.

Lemma ValidateRoleName_Ok s : ValidateRoleName s = Ok tt → validateBindingMemberCharset s = Ok tt ∧ s ≠ "".
Proof. unfold ValidateRoleName. intros H. inv_ok. split; [done|]. intros ->. by vm_compute in H. Qed.

Lemma SplitToolName_Ok_witness :
  "mcp://calc.corp/add" = "mcp://calc.corp" +:+ "/" +:+ "add" ∧ "add" ≠ "" ∧
  ∃ ty host, "mcp://calc.corp" = ty +:+ "://" +:+ host ∧ host ≠ "" ∧
             ParseServiceTarget "mcp://calc.corp" = (ty, host).
Proof. apply (SplitToolName_Ok "mcp://calc.corp/add"). by vm_compute. Defined.

(** The service validator accepts exactly "*" and the URIs [ty://nm] whose
    scheme and name survive the URI pattern unchanged and whose name is "*" or
    starts with a DNS name; such a URI parses to [(ty, nm)], so that two
    accepted entries other than "*" that parse alike are the same string. *)
Theorem service_format_grammar svc :
  (ValidateServiceFormat svc = Ok tt ↔
   svc = "*" ∨
   ∃ ty nm, svc = ty +:+ "://" +:+ nm ∧ uri_parts ty nm ∧
            (nm = "*" ∨ re_match dnsNameRegex (host_of nm))) ∧
  ∀ svc2, ValidateServiceFormat svc = Ok tt → ValidateServiceFormat svc2 = Ok tt →
          svc ≠ "*" → svc2 ≠ "*" → ParseServiceTarget svc = ParseServiceTarget svc2 → svc = svc2.
Proof. split; [apply ValidateServiceFormat_iff|]. intros svc2. apply ParseServiceTarget_inj. Qed.
