(* ===== verification/Biscuit.v ===== *)
(** * Biscuit Datalog

    The authorization language of the sources is Biscuit's: facts, rules,
    checks and policies of [github.com/eclipse-biscuit/biscuit-go].  That
    library is not part of the repository, so this file gives its data types,
    the documented meaning of its programs as a relation (the least model of
    the rules; a check needs one satisfied query; the first matching policy
    decides), and an interface, [BiscuitEngine], that says what the sources
    rely on when they call [Authorize] and [Query].  [naive_engine] is a
    bottom-up evaluator that implements the interface. *)

From S2P Require Import Prelude GoStrings.

(** ** Data *)

Inductive atom :=
| AInt (z : Z)
| AStr (s : string)
| ADate (t : Z)
| ABytes (b : string)
| ABool (b : bool).

#[export] Instance atom_eq_dec : EqDecision atom.
Proof. solve_decision. Defined.

(** A ground term: an atom or a set of atoms. *)
Inductive value :=
| VAtom (a : atom)
| VSet (l : list atom).

#[export] Instance value_eq_dec : EqDecision value.
Proof. solve_decision. Defined.

Abbreviation VStr s := (VAtom (AStr s)).

Inductive term :=
| TVar (x : string)
| TVal (v : value).

#[export] Instance term_eq_dec : EqDecision term.
Proof. solve_decision. Defined.

Record predicate := Pred { p_name : string; p_ids : list term }.
Record fact := Fact { f_name : string; f_ids : list value }.

#[export] Instance predicate_eq_dec : EqDecision predicate.
Proof. solve_decision. Defined.
#[export] Instance fact_eq_dec : EqDecision fact.
Proof. solve_decision. Defined.

(** A fact is a predicate whose terms are ground ([biscuit.Fact] embeds
    [biscuit.Predicate]). *)
Definition fact_predicate (f : fact) : predicate := Pred (f_name f) (TVal <$> f_ids f).

Inductive expr :=
| ETerm (t : term)
| EParens (e : expr)
| ENot (e : expr)
| EEqual (e1 e2 : expr)
| ELessOrEqual (e1 e2 : expr)
| EContains (e1 e2 : expr)
| EStartsWith (e1 e2 : expr)
| EEndsWith (e1 e2 : expr).

Record rule := Rule { r_head : predicate; r_body : list predicate; r_exprs : list expr }.

(** The body of a check or of a policy. *)
Record query := Query { q_body : list predicate; q_exprs : list expr }.

Record check := Check { c_queries : list query }.

Inductive policy_kind := PolicyAllow | PolicyDeny.
Record policy := Policy { pol_kind : policy_kind; pol_queries : list query }.

Record world := World {
  w_facts : list fact;
  w_rules : list rule;
  w_checks : list check;
  w_policies : list policy;
}.

(** ** Meaning *)

Definition valuation := string → value.

Definition inst_term (σ : valuation) (t : term) : value :=
  match t with TVar x => σ x | TVal v => v end.

Definition inst (σ : valuation) (p : predicate) : fact := Fact (p_name p) (inst_term σ <$> p_ids p).

Fixpoint eval (σ : valuation) (e : expr) : option value :=
  match e with
  | ETerm t => Some (inst_term σ t)
  | EParens e => eval σ e
  | ENot e =>
      match eval σ e with
      | Some (VAtom (ABool b)) => Some (VAtom (ABool (negb b)))
      | _ => None
      end
  | EEqual e1 e2 =>
      v1 ← eval σ e1; v2 ← eval σ e2; Some (VAtom (ABool (bool_decide (v1 = v2))))
  | ELessOrEqual e1 e2 =>
      match eval σ e1, eval σ e2 with
      | Some (VAtom (AInt a)), Some (VAtom (AInt b)) => Some (VAtom (ABool (a <=? b)%Z))
      | Some (VAtom (ADate a)), Some (VAtom (ADate b)) => Some (VAtom (ABool (a <=? b)%Z))
      | _, _ => None
      end
  | EContains e1 e2 =>
      match eval σ e1, eval σ e2 with
      | Some (VSet l), Some (VAtom a) => Some (VAtom (ABool (slices_Contains l a)))
      | Some (VStr s), Some (VStr t) => Some (VAtom (ABool (Contains s t)))
      | _, _ => None
      end
  | EStartsWith e1 e2 =>
      match eval σ e1, eval σ e2 with
      | Some (VStr s), Some (VStr t) => Some (VAtom (ABool (HasPrefix s t)))
      | _, _ => None
      end
  | EEndsWith e1 e2 =>
      match eval σ e1, eval σ e2 with
      | Some (VStr s), Some (VStr t) => Some (VAtom (ABool (HasSuffix s t)))
      | _, _ => None
      end
  end.

Definition sat (σ : valuation) (e : expr) : Prop := eval σ e = Some (VAtom (ABool true)).

#[export] Instance sat_dec σ e : Decision (sat σ e).
Proof. unfold sat. apply _. Defined.

(** The least model of [F] and [R]. *)
Inductive derives (F : list fact) (R : list rule) : fact → Prop :=
| derives_fact f : f ∈ F → derives F R f
| derives_rule r σ :
    r ∈ R →
    (∀ p, p ∈ r_body r → derives F R (inst σ p)) →
    (∀ e, e ∈ r_exprs r → sat σ e) →
    derives F R (inst σ (r_head r)).

Definition query_holds (F : list fact) (R : list rule) (q : query) : Prop :=
  ∃ σ, (∀ p, p ∈ q_body q → derives F R (inst σ p)) ∧ (∀ e, e ∈ q_exprs q → sat σ e).

Definition check_holds F R (c : check) : Prop := ∃ q, q ∈ c_queries c ∧ query_holds F R q.
Definition policy_holds F R (p : policy) : Prop := ∃ q, q ∈ pol_queries p ∧ query_holds F R q.

(** The first policy with a satisfied query decides. *)
Inductive decides F R : list policy → option policy_kind → Prop :=
| decides_nil : decides F R [] None
| decides_hit p ps : policy_holds F R p → decides F R (p :: ps) (Some (pol_kind p))
| decides_miss p ps d : ¬ policy_holds F R p → decides F R ps d → decides F R (p :: ps) d.

(** ** The engine *)

Inductive outcome :=
| Success
| ErrCheckFailed
| ErrNoMatchingPolicy
| ErrPolicyDenied
| ErrRun.  (** a limit of the world was reached, or an expression is ill-typed *)

#[export] Instance outcome_eq_dec : EqDecision outcome.
Proof. solve_decision. Defined.

Definition checks_hold (w : world) : Prop :=
  ∀ c, c ∈ w_checks w → check_holds (w_facts w) (w_rules w) c.

Definition world_decides (w : world) : option policy_kind → Prop :=
  decides (w_facts w) (w_rules w) (w_policies w).

(** What [Authorize] and [Query] promise: unless the run itself fails, a
    failed check is reported before the policies are looked at, and the
    answer is that of the least model. *)
Class BiscuitEngine := {
  authorize : world → outcome;
  run_query : world → rule → option (list fact);
  authorize_success w : authorize w = Success → checks_hold w ∧ world_decides w (Some PolicyAllow);
  authorize_check w : authorize w = ErrCheckFailed → ¬ checks_hold w;
  authorize_none w : authorize w = ErrNoMatchingPolicy → checks_hold w ∧ world_decides w None;
  authorize_denied w : authorize w = ErrPolicyDenied → checks_hold w ∧ world_decides w (Some PolicyDeny);
  run_query_spec w r fs f :
    run_query w r = Some fs →
    (f ∈ fs ↔ ∃ σ, f = inst σ (r_head r) ∧
                   (∀ p, p ∈ r_body r → derives (w_facts w) (w_rules w) (inst σ p)) ∧
                   (∀ e, e ∈ r_exprs r → sat σ e));
}.

(** ** Facts about the meaning *)

Section meaning.
Context (F : list fact) (R : list rule).

Lemma decides_fun ps d1 d2 : decides F R ps d1 → decides F R ps d2 → d1 = d2.
Proof.
  intros H1. revert d2. induction H1; inversion 1; subst; naive_solver.
Qed.

Lemma decides_in ps k : decides F R ps (Some k) → ∃ p, p ∈ ps ∧ pol_kind p = k ∧ policy_holds F R p.
Proof.
  remember (Some k) as d eqn:Ed. induction 1 as [|p ps Hp|p ps d Hp Hd IH]; simplify_eq.
  - exists p. set_solver.
  - destruct (IH eq_refl) as (q & ? & ? & ?). exists q. set_solver.
Qed.

Lemma decides_allow_only ps :
  (∀ p, p ∈ ps → pol_kind p = PolicyAllow) →
  ∀ d, decides F R ps d →
  (d = Some PolicyAllow ∧ ∃ p, p ∈ ps ∧ policy_holds F R p) ∨
  (d = None ∧ ∀ p, p ∈ ps → ¬ policy_holds F R p).
Proof.
  intros Hk d Hd. induction Hd as [|p ps Hp|p ps d Hp Hd IH].
  - right. split; [done|]. by intros p ?%not_elem_of_nil.
  - left. rewrite (Hk p) by set_solver. split; [done|]. exists p. set_solver.
  - destruct IH as [(-> & q & ? & ?)|[-> Hn]]; [set_solver| |].
    + left. split; [done|]. exists q. set_solver.
    + right. split; [done|]. intros q [->|Hq]%elem_of_cons; [done|]. by apply Hn.
Qed.

(** A fact whose name no rule derives is a given fact. *)
Lemma derives_no_rule f :
  (∀ r, r ∈ R → p_name (r_head r) ≠ f_name f) → derives F R f → f ∈ F.
Proof. intros Hn. inversion 1 as [|r σ Hr]; subst; [done|]. by destruct (Hn r Hr). Qed.
End meaning.

Lemma derives_mono F R F' R' f :
  F ⊆ F' → R ⊆ R' → derives F R f → derives F' R' f.
Proof.
  intros HF HR. induction 1 as [f Hf|r σ Hr _ IH He]; [by apply derives_fact, HF|].
  apply derives_rule; auto.
Qed.

Lemma query_holds_mono F R F' R' q :
  F ⊆ F' → R ⊆ R' → query_holds F R q → query_holds F' R' q.
Proof. intros ? ? (σ & Hb & He). exists σ. eauto using derives_mono. Qed.

(** With allow policies only, a run that completes succeeds exactly when every
    check holds and one policy does. *)
Lemma authorize_allow_only `{BiscuitEngine} w :
  (∀ p, p ∈ w_policies w → pol_kind p = PolicyAllow) → authorize w ≠ ErrRun →
  authorize w = Success ↔
  checks_hold w ∧ ∃ p, p ∈ w_policies w ∧ policy_holds (w_facts w) (w_rules w) p.
Proof.
  intros Hk Hrun. destruct (authorize w) eqn:E; try done.
  - apply authorize_success in E as [Hc Hd]. split; [|done]. intros _. split; [done|].
    by destruct (decides_allow_only _ _ _ Hk _ Hd) as [[_ ?]|[? _]].
  - split; [done|]. intros [Hc _]. by destruct (authorize_check w E).
  - apply authorize_none in E as [_ Hd]. split; [done|]. intros [_ (p & Hp & Hh)].
    destruct (decides_allow_only _ _ _ Hk _ Hd) as [[? _]|[_ Hn]]; [done|]. by destruct (Hn p Hp).
  - apply authorize_denied in E as [_ Hd]. by destruct (decides_allow_only _ _ _ Hk _ Hd) as [[? _]|[? _]].
Qed.

(** Success needs every check and an allow policy, whatever else the world holds. *)
Lemma authorize_success_inv `{BiscuitEngine} w :
  authorize w = Success →
  checks_hold w ∧
  ∃ p, p ∈ w_policies w ∧ pol_kind p = PolicyAllow ∧ policy_holds (w_facts w) (w_rules w) p.
Proof. intros [Hc Hd]%authorize_success. split; [done|]. by apply decides_in. Qed.
