(* ===== verification/NaiveEngine.v ===== *)
(** * A reference evaluator for Biscuit Datalog

    Bottom-up evaluation with a bound on the iterations, which implements
    [BiscuitEngine]: it shows that what the sources rely on can be provided,
    and it runs the concrete examples of the other files. *)

From S2P Require Import Prelude GoStrings Biscuit.

(** ** Matching *)

Definition bindings := gmap string value.

Definition match_term (m : gmap string value) (t : term) (v : value) : option (gmap string value) :=
  match t with
  | TVal u => if decide (u = v) then Some m else None
  | TVar x =>
      match m !! x with
      | Some u => if decide (u = v) then Some m else None
      | None => Some (<[x := v]> m)
      end
  end.

Fixpoint match_terms (m : gmap string value) (ts : list term) (vs : list value)
  : option (gmap string value) :=
  match ts, vs with
  | [], [] => Some m
  | t :: ts, v :: vs => m' ← match_term m t v; match_terms m' ts vs
  | _, _ => None
  end.

Definition match_pred (m : gmap string value) (p : predicate) (f : fact) : option (gmap string value) :=
  if decide (p_name p = f_name f) then match_terms m (p_ids p) (f_ids f) else None.

Fixpoint match_body (F : list fact) (ps : list predicate) (m : gmap string value)
  : list (gmap string value) :=
  match ps with
  | [] => [m]
  | p :: ps => m' ← omap (match_pred m p) F; match_body F ps m'
  end.

(** A total valuation from finite bindings. *)
Definition tot (m : gmap string value) : valuation := λ x, default (VAtom (ABool false)) (m !! x).

Definition term_vars (t : term) : list string := match t with TVar x => [x] | TVal _ => [] end.
Definition pred_vars (p : predicate) : list string := p_ids p ≫= term_vars.

Fixpoint expr_vars (e : expr) : list string :=
  match e with
  | ETerm t => term_vars t
  | EParens e | ENot e => expr_vars e
  | EEqual a b | ELessOrEqual a b | EContains a b | EStartsWith a b | EEndsWith a b =>
      expr_vars a ++ expr_vars b
  end.

(** Every variable of the head and of the expressions occurs in the body. *)
Definition safe_query (q : query) : bool :=
  bool_decide ((q_exprs q ≫= expr_vars) ⊆ (q_body q ≫= pred_vars)).

Definition safe_rule (r : rule) : bool :=
  bool_decide (pred_vars (r_head r) ⊆ (r_body r ≫= pred_vars))
  && safe_query (Query (r_body r) (r_exprs r)).

(** ** Evaluation *)

Definition solutions (F : list fact) (q : query) : list (gmap string value) :=
  filter (λ m, Forall (sat (tot m)) (q_exprs q)) (match_body F (q_body q) ∅).

Definition apply_rule (F : list fact) (r : rule) : list fact :=
  (λ m, inst (tot m) (r_head r)) <$> solutions F (Query (r_body r) (r_exprs r)).

(** Add what the rules derive until nothing is new, or [fuel] runs out. *)
Fixpoint saturate (fuel : nat) (R : list rule) (F : list fact) : option (list fact) :=
  match filter (.∉ F) (R ≫= apply_rule F) with
  | [] => Some F
  | new => match fuel with
           | 0 => None
           | S fuel => saturate fuel R (remove_dups new ++ F)
           end
  end.

Definition query_holdsb (G : list fact) (q : query) : bool :=
  match solutions G q with [] => false | _ => true end.

Fixpoint first_policy (G : list fact) (ps : list policy) : option policy_kind :=
  match ps with
  | [] => None
  | p :: ps => if existsb (query_holdsb G) (pol_queries p) then Some (pol_kind p) else first_policy G ps
  end.

Definition safe_world (w : world) : bool :=
  forallb safe_rule (w_rules w) &&
  forallb (λ c, forallb safe_query (c_queries c)) (w_checks w) &&
  forallb (λ p, forallb safe_query (pol_queries p)) (w_policies w).

Definition iterations : nat := 100.

Definition naive_authorize (w : world) : outcome :=
  if safe_world w then
    match saturate iterations (w_rules w) (w_facts w) with
    | None => ErrRun
    | Some G =>
        if forallb (λ c, existsb (query_holdsb G) (c_queries c)) (w_checks w) then
          match first_policy G (w_policies w) with
          | Some PolicyAllow => Success
          | Some PolicyDeny => ErrPolicyDenied
          | None => ErrNoMatchingPolicy
          end
        else ErrCheckFailed
    end
  else ErrRun.

Definition naive_query (w : world) (r : rule) : option (list fact) :=
  if forallb safe_rule (w_rules w) && safe_rule r then
    G ← saturate iterations (w_rules w) (w_facts w); Some (apply_rule G r)
  else None.

(** ** Matching is correct *)

Definition extends (m : gmap string value) (σ : valuation) : Prop := ∀ x v, m !! x = Some v → σ x = v.

Lemma extends_weaken m m' σ : m ⊆ m' → extends m' σ → extends m σ.
Proof. intros Hs He x v Hx. apply He. by eapply lookup_weaken. Qed.

Lemma match_term_spec m t v m' :
  match_term m t v = Some m' →
  m ⊆ m' ∧ (∀ σ, extends m' σ → inst_term σ t = v) ∧ (∀ x, x ∈ term_vars t → is_Some (m' !! x)).
Proof.
  destruct t as [x|u]; simpl; intros H.
  - destruct (m !! x) as [u|] eqn:Ex; [case_decide|]; simplify_eq.
    + split_and!; [done|by intros σ He; apply He|]. intros y ->%list_elem_of_singleton. eauto.
    + split_and!; [by apply insert_subseteq| |].
      * intros σ He. apply He. by simplify_map_eq.
      * intros y ->%list_elem_of_singleton. simplify_map_eq. eauto.
  - case_decide; simplify_eq. split_and!; [done..|]. by intros x ?%not_elem_of_nil.
Qed.

Lemma match_terms_spec m ts vs m' :
  match_terms m ts vs = Some m' →
  m ⊆ m' ∧ (∀ σ, extends m' σ → inst_term σ <$> ts = vs) ∧
  (∀ x, x ∈ (ts ≫= term_vars) → is_Some (m' !! x)).
Proof.
  revert m vs. induction ts as [|t ts IH]; intros m [|v vs] H; simpl in H; simplify_eq.
  - split_and!; [done..|]. by intros x ?%not_elem_of_nil.
  - apply bind_Some in H as (m1 & H1 & H2).
    apply match_term_spec in H1 as (Hs1 & Hv1 & Hd1). apply IH in H2 as (Hs2 & Hv2 & Hd2).
    split_and!; [by trans m1| |].
    + intros σ He. simpl. rewrite Hv2, Hv1; eauto using extends_weaken.
    + intros x [Hx|Hx]%elem_of_app; [|eauto]. destruct (Hd1 x Hx) as [u Hu].
      exists u. by eapply lookup_weaken.
Qed.

Lemma match_term_complete m t σ :
  extends m σ → ∃ m', match_term m t (inst_term σ t) = Some m' ∧ extends m' σ.
Proof.
  intros He. destruct t as [x|u]; simpl; [|rewrite decide_True by done; eauto].
  destruct (m !! x) as [u|] eqn:Ex.
  - rewrite decide_True by (by rewrite (He x u Ex)). eauto.
  - eexists. split; [done|]. intros y v Hy. destruct (decide (x = y)) as [->|]; simplify_map_eq; eauto.
Qed.

Lemma match_terms_complete m ts σ :
  extends m σ → ∃ m', match_terms m ts (inst_term σ <$> ts) = Some m' ∧ extends m' σ.
Proof.
  revert m. induction ts as [|t ts IH]; intros m He; simpl; [eauto|].
  destruct (match_term_complete m t σ He) as (m1 & -> & He1). simpl. by apply IH.
Qed.

Lemma match_body_sound F ps m m' :
  m' ∈ match_body F ps m →
  m ⊆ m' ∧ (∀ σ p, extends m' σ → p ∈ ps → inst σ p ∈ F) ∧
  (∀ x, x ∈ (ps ≫= pred_vars) → is_Some (m' !! x)).
Proof.
  revert m. induction ps as [|p ps IH]; intros m Hm; simpl in Hm.
  - apply list_elem_of_singleton in Hm as ->. split_and!; [done|..]; set_solver.
  - apply list_elem_of_bind in Hm as (m1 & Hm & (f & Hf & H1)%list_elem_of_omap).
    unfold match_pred in H1. case_decide as Hn; [|done].
    apply match_terms_spec in H1 as (Hs1 & Hv1 & Hd1). apply IH in Hm as (Hs & Hin & Hd).
    split_and!; [by trans m1| |].
    + intros σ q He [->|Hq]%elem_of_cons; [|eauto]. unfold inst.
      rewrite Hn, Hv1 by eauto using extends_weaken. by destruct f.
    + intros x [Hx|Hx]%elem_of_app; [|eauto]. destruct (Hd1 x Hx) as [u Hu].
      exists u. by eapply lookup_weaken.
Qed.

Lemma match_body_complete F ps m σ :
  extends m σ → (∀ p, p ∈ ps → inst σ p ∈ F) → ∃ m', m' ∈ match_body F ps m ∧ extends m' σ.
Proof.
  revert m. induction ps as [|p ps IH]; intros m He Hps; simpl.
  - exists m. set_solver.
  - destruct (match_terms_complete m (p_ids p) σ He) as (m1 & Hm1 & He1).
    destruct (IH m1 He1) as (m' & Hm' & He'); [set_solver|]. exists m'. split; [|done].
    apply list_elem_of_bind. exists m1. split; [done|]. apply list_elem_of_omap.
    exists (inst σ p). split; [set_solver|]. unfold match_pred. simpl. by rewrite decide_True.
Qed.

Lemma extends_tot m : extends m (tot m).
Proof. intros x v Hx. unfold tot. by rewrite Hx. Qed.

Lemma extends_empty σ : extends ∅ σ.
Proof. intros x v Hx. by rewrite lookup_empty in Hx. Qed.

Lemma inst_term_ext σ1 σ2 t : (∀ x, x ∈ term_vars t → σ1 x = σ2 x) → inst_term σ1 t = inst_term σ2 t.
Proof. destruct t; simpl; [|done]. set_solver. Qed.

Lemma inst_ext σ1 σ2 p : (∀ x, x ∈ pred_vars p → σ1 x = σ2 x) → inst σ1 p = inst σ2 p.
Proof.
  intros H. unfold inst. f_equal. apply list_fmap_ext. intros i t Ht.
  apply inst_term_ext. intros x Hx. apply H. unfold pred_vars. apply list_elem_of_bind.
  exists t. split; [done|]. by eapply list_elem_of_lookup_2.
Qed.

Lemma eval_ext σ1 σ2 e : (∀ x, x ∈ expr_vars e → σ1 x = σ2 x) → eval σ1 e = eval σ2 e.
Proof.
  induction e as [t|e IH|e IH|a IHa b IHb|a IHa b IHb|a IHa b IHb|a IHa b IHb|a IHa b IHb];
    simpl; intros H.
  1: by rewrite (inst_term_ext σ1 σ2).
  1,2: by rewrite IH.
  all: rewrite IHa, IHb; [done|set_solver..].
Qed.

(** ** Queries and rules over a finite set of facts *)

(** [q] holds directly in [G], without rules. *)
Definition holds_in (G : list fact) (q : query) (σ : valuation) : Prop :=
  (∀ p, p ∈ q_body q → inst σ p ∈ G) ∧ (∀ e, e ∈ q_exprs q → sat σ e).

Lemma solutions_sound G q m : m ∈ solutions G q → holds_in G q (tot m).
Proof.
  unfold solutions. rewrite list_elem_of_filter, Forall_forall. intros [He Hm].
  apply match_body_sound in Hm as (_ & Hb & _). split; [|done]. intros p Hp. auto using extends_tot.
Qed.

Lemma solutions_complete G q σ :
  safe_query q = true → holds_in G q σ →
  ∃ m, m ∈ solutions G q ∧ ∀ x, x ∈ (q_body q ≫= pred_vars) → tot m x = σ x.
Proof.
  intros Hsafe [Hb He]. apply bool_decide_eq_true in Hsafe.
  destruct (match_body_complete G (q_body q) ∅ σ (extends_empty σ) Hb) as (m & Hm & Hext).
  pose proof (match_body_sound _ _ _ _ Hm) as (_ & _ & Hd).
  assert (Hagree : ∀ x, x ∈ (q_body q ≫= pred_vars) → tot m x = σ x).
  { intros x Hx. destruct (Hd x Hx) as [v Hv]. unfold tot. rewrite Hv. by rewrite (Hext x v Hv). }
  exists m. split; [|done]. unfold solutions. rewrite list_elem_of_filter, Forall_forall.
  split; [|done]. intros e Hin. unfold sat. rewrite (eval_ext _ σ); [by apply He|].
  intros x Hx. apply Hagree, Hsafe. apply list_elem_of_bind. eauto.
Qed.

Lemma query_holdsb_spec G q :
  safe_query q = true → query_holdsb G q = true ↔ ∃ σ, holds_in G q σ.
Proof.
  intros Hsafe. unfold query_holdsb. split.
  - destruct (solutions G q) as [|m ms] eqn:E; [done|]. intros _. exists (tot m).
    apply solutions_sound. rewrite E. set_solver.
  - intros [σ Hσ]. destruct (solutions_complete G q σ Hsafe Hσ) as (m & Hm & _).
    destruct (solutions G q); [by apply not_elem_of_nil in Hm|done].
Qed.

Lemma apply_rule_spec G r f :
  safe_rule r = true →
  f ∈ apply_rule G r ↔ ∃ σ, f = inst σ (r_head r) ∧ holds_in G (Query (r_body r) (r_exprs r)) σ.
Proof.
  unfold safe_rule. intros [Hh Hq]%andb_prop. apply bool_decide_eq_true in Hh.
  unfold apply_rule. rewrite list_elem_of_fmap. split.
  - intros (m & -> & Hm). exists (tot m). split; [done|]. by apply solutions_sound.
  - intros (σ & -> & Hσ). destruct (solutions_complete _ _ _ Hq Hσ) as (m & Hm & Hag).
    exists m. split; [|done]. symmetry. apply inst_ext. intros x Hx. apply Hag, Hh, Hx.
Qed.

(** ** Saturation is the least model *)

Lemma saturate_sound fuel R F G :
  (∀ r, r ∈ R → safe_rule r = true) →
  saturate fuel R F = Some G →
  F ⊆ G ∧ (∀ r f, r ∈ R → f ∈ apply_rule G r → f ∈ G) ∧ (∀ f, f ∈ G → derives F R f).
Proof.
  intros Hsafe. revert F. induction fuel as [|fuel IH]; intros F; cbn [saturate];
    destruct (filter (.∉ F) (R ≫= apply_rule F)) as [|n new] eqn:E; try done.
  1,2: intros [= <-]; split_and!; [done| |by intros f; constructor];
    intros r f Hr Hf; destruct (decide (f ∈ F)) as [|Hn]; [done|];
    assert (f ∈ filter (.∉ F) (R ≫= apply_rule F)) as Hin
      by (apply list_elem_of_filter; split; [done|]; apply list_elem_of_bind; eauto);
    rewrite E in Hin; by apply not_elem_of_nil in Hin.
  rewrite <-E. clear E n new. set (new := filter _ _). intros H.
  apply IH in H as (Hsub & Hclosed & Hder). split_and!; [set_solver|done|].
  intros f Hf. specialize (Hder f Hf). clear - Hsafe Hder.
  assert (Hnew : ∀ g, g ∈ remove_dups new ++ F → derives F R g).
  { intros g [Hg|Hg]%elem_of_app; [|by constructor]. rewrite elem_of_remove_dups in Hg.
    apply list_elem_of_filter in Hg as [_ Hg]. apply list_elem_of_bind in Hg as (r & Hg & Hr).
    apply apply_rule_spec in Hg as (σ & -> & Hb & He); [|by apply Hsafe].
    apply derives_rule; [done| |done]. intros p Hp. constructor. by apply Hb. }
  induction Hder as [g Hg|r σ Hr _ IHb He]; [auto|]. by apply derives_rule.
Qed.

Lemma saturate_spec fuel R F G f :
  (∀ r, r ∈ R → safe_rule r = true) → saturate fuel R F = Some G → f ∈ G ↔ derives F R f.
Proof.
  intros Hsafe H. destruct (saturate_sound _ _ _ _ Hsafe H) as (Hsub & Hclosed & Hder).
  split; [auto|]. induction 1 as [g Hg|r σ Hr _ IH He]; [by apply Hsub|].
  apply (Hclosed r); [done|]. apply apply_rule_spec; [by apply Hsafe|]. by exists σ.
Qed.

(** ** The engine *)

Section engine.
Context (w : world) (G : list fact).
Hypothesis Hsafe : safe_world w = true.
Hypothesis Hsat : saturate iterations (w_rules w) (w_facts w) = Some G.

Lemma engine_query q :
  safe_query q = true →
  query_holdsb G q = true ↔ query_holds (w_facts w) (w_rules w) q.
Proof using Hsafe Hsat.
  intros Hq. rewrite query_holdsb_spec by done. unfold query_holds, holds_in.
  pose proof Hsafe as [[HR _]%andb_prop _]%andb_prop. rewrite forallb_True in HR.
  by setoid_rewrite (saturate_spec _ _ _ _ _ HR Hsat).
Qed.

Lemma engine_queries qs :
  forallb safe_query qs = true →
  existsb (query_holdsb G) qs = true ↔ ∃ q, q ∈ qs ∧ query_holds (w_facts w) (w_rules w) q.
Proof using Hsafe Hsat.
  rewrite forallb_True, existsb_True. intros Hs. apply exist_proper. intros q.
  split; intros [Hq H]; (split; [done|]); by apply (engine_query q (Hs q Hq)).
Qed.

Lemma engine_checks :
  forallb (λ c, existsb (query_holdsb G) (c_queries c)) (w_checks w) = true ↔ checks_hold w.
Proof using Hsafe Hsat.
  rewrite forallb_True. unfold checks_hold, check_holds.
  pose proof Hsafe as [[_ HC]%andb_prop _]%andb_prop. rewrite forallb_True in HC.
  split; intros H c Hc; apply (engine_queries _ (HC c Hc)); by apply H.
Qed.

Lemma engine_policies ps :
  ps ⊆ w_policies w → decides (w_facts w) (w_rules w) ps (first_policy G ps).
Proof using Hsafe Hsat.
  pose proof Hsafe as [_ HP]%andb_prop. rewrite forallb_True in HP.
  induction ps as [|p ps IH]; intros Hsub; simpl; [constructor|].
  assert (Hin : p ∈ w_policies w) by (apply Hsub; left).
  pose proof (engine_queries _ (HP p Hin)) as Hq.
  destruct (existsb _ (pol_queries p)).
  - apply decides_hit. by apply Hq.
  - apply decides_miss; [|apply IH; intros x Hx; apply Hsub; by right]. intros Hp. by apply Hq in Hp.
Qed.
End engine.

Lemma naive_authorize_cases w G :
  safe_world w = true → saturate iterations (w_rules w) (w_facts w) = Some G →
  naive_authorize w =
  if forallb (λ c, existsb (query_holdsb G) (c_queries c)) (w_checks w) then
    match first_policy G (w_policies w) with
    | Some PolicyAllow => Success
    | Some PolicyDeny => ErrPolicyDenied
    | None => ErrNoMatchingPolicy
    end
  else ErrCheckFailed.
Proof. intros Hs Hg. unfold naive_authorize. by rewrite Hs, Hg. Qed.

Lemma naive_authorize_inv w o :
  naive_authorize w = o → o ≠ ErrRun →
  ∃ G, safe_world w = true ∧ saturate iterations (w_rules w) (w_facts w) = Some G.
Proof.
  unfold naive_authorize. destruct (safe_world w); [|by intros <-].
  destruct (saturate _ _ _) as [G|]; [eauto|by intros <-].
Qed.

Lemma naive_authorize_spec w :
  match naive_authorize w with
  | Success => checks_hold w ∧ world_decides w (Some PolicyAllow)
  | ErrCheckFailed => ¬ checks_hold w
  | ErrNoMatchingPolicy => checks_hold w ∧ world_decides w None
  | ErrPolicyDenied => checks_hold w ∧ world_decides w (Some PolicyDeny)
  | ErrRun => True
  end.
Proof.
  destruct (decide (naive_authorize w = ErrRun)) as [->|Hne]; [done|].
  destruct (naive_authorize_inv w _ eq_refl Hne) as (G & Hs & Hg).
  rewrite (naive_authorize_cases w G Hs Hg).
  pose proof (engine_checks w G Hs Hg) as Hc.
  pose proof (engine_policies w G Hs Hg _ (reflexivity _)) as Hp.
  destruct (forallb _ _); [|by intros H%Hc].
  unfold world_decides. destruct (first_policy _ _) as [[]|]; split; try done; by apply Hc.
Qed.

Lemma naive_query_spec w r fs f :
  naive_query w r = Some fs →
  f ∈ fs ↔ ∃ σ, f = inst σ (r_head r) ∧
                (∀ p, p ∈ r_body r → derives (w_facts w) (w_rules w) (inst σ p)) ∧
                (∀ e, e ∈ r_exprs r → sat σ e).
Proof.
  unfold naive_query. destruct (_ && _) eqn:Hs; [|done]. apply andb_prop in Hs as [HR Hr].
  rewrite forallb_True in HR. intros (G & HG & [= <-])%bind_Some.
  pose proof (λ g, saturate_spec _ _ _ _ g HR HG) as Hd.
  rewrite apply_rule_spec by done. apply exist_proper. intros σ.
  unfold holds_in. simpl. split; intros (-> & H & He); (split_and!; [done| |done]);
    intros p Hp; by apply Hd, H.
Qed.

Opaque saturate.

#[refine] Definition naive_engine : BiscuitEngine :=
  {| authorize := naive_authorize; run_query := naive_query; run_query_spec := naive_query_spec |}.
Proof. all: intros w H; pose proof (naive_authorize_spec w) as Hs; by rewrite H in Hs. Defined.
Transparent saturate.
