(* ===== verification/Facts.v ===== *)
(** * The Datalog vocabulary and the baseline program

    Fact names, marker facts, and the policies, rules and checks that every
    authorizer of the mesh starts from ([src/api/datalog.go]).  The sources
    write the baseline program as text and parse it at start-up: [BaselineSources_*]
    is that text and the other definitions are the parsed program.
    [DatalogText.v] shows that parsing the one gives the other. *)

From S2P Require Import Prelude GoStrings Biscuit.

(** ** Fact names *)

Definition FactExpiration : string := "expiration".
Definition FactNode : string := "node".
Definition FactClientPeerID : string := "client_peer_id".
Definition FactActorNode : string := "actor_node".
Definition FactGroup : string := "group".
Definition FactRole : string := "role".
Definition FactIdpRole : string := "idp_role".
Definition FactRight : string := "right".
Definition RightRelay : string := "relay".
Definition RightServiceInvoke : string := "service:invoke".
Definition RoleRouter : string := "mesh:role:router".
Definition RoleNode : string := "mesh:role:node".
Definition RoleControlPlane : string := "mesh:role:control-plane".
Definition FactUser : string := "user".
Definition FactEmail : string := "email".
Definition FactGrantedServiceAllTypes : string := "granted_service_all_types".
Definition FactGrantedServiceAll : string := "granted_service_all".
Definition FactGrantedServiceSuffix : string := "granted_service_suffix".
Definition FactGrantedServicePrefix : string := "granted_service_prefix".
Definition FactGrantedServiceExact : string := "granted_service_exact".
Definition FactGrantedServiceSet : string := "granted_service_set".
Definition FactGrantedPublishAllTypes : string := "granted_publish_all_types".
Definition FactGrantedPublishAll : string := "granted_publish_all".
Definition FactGrantedPublishSuffix : string := "granted_publish_suffix".
Definition FactGrantedPublishPrefix : string := "granted_publish_prefix".
Definition FactGrantedPublishExact : string := "granted_publish_exact".
Definition FactGrantedPublishSet : string := "granted_publish_set".
Definition FactPublish : string := "publish".
Definition FactGrantedTargetAllTypes : string := "granted_target_all_types".
Definition FactGrantedTargetAll : string := "granted_target_all".
Definition FactGrantedTargetSuffix : string := "granted_target_suffix".
Definition FactGrantedTargetPrefix : string := "granted_target_prefix".
Definition FactGrantedTargetExact : string := "granted_target_exact".
Definition FactGrantedTargetAllFacts : string := "granted_target_all_facts".
Definition FactGrantedTargetSet : string := "granted_target_set".
Definition FactConnectionPeerID : string := "connection_peer_id".
Definition FactTargetFact : string := "target_fact".
Definition FactAllowNetworkTarget : string := "allow_network_target".
Definition FactTargetUnrestricted : string := "target_unrestricted".
Definition FactTargetRestricted : string := "target_restricted".
Definition FactService : string := "service".
Definition FactMethod : string := "method".
Definition FactPath : string := "path".
Definition FactHost : string := "host".
Definition FactPort : string := "port".
Definition FactHTTPGrantedServiceExact : string := "http_granted_service_exact".
Definition FactHTTPGrantedServiceSuffix : string := "http_granted_service_suffix".
Definition FactHTTPGrantedServicePrefix : string := "http_granted_service_prefix".
Definition FactHTTPGrantedServiceAll : string := "http_granted_service_all".
Definition FactHTTPGrantedServiceAllTypes : string := "http_granted_service_all_types".
Definition FactGrantedMethod : string := "granted_method".
Definition FactGrantedMethodAny : string := "granted_method_any".
Definition FactGrantedPathExact : string := "granted_path_exact".
Definition FactGrantedPathPrefix : string := "granted_path_prefix".
Definition FactGrantedPathAny : string := "granted_path_any".
Definition FactHTTPMethodOK : string := "http_method_ok".
Definition FactHTTPPathOK : string := "http_path_ok".
Definition FactLabel : string := "label".
Definition FactTime : string := "time".
Definition FactTARBlock : string := "tar_block".

(** ** Marker facts *)

Definition MarkerTerm : value := VAtom (ABool true).

Definition MarkerFact (name : string) : fact := Fact name [MarkerTerm].

(** ** Identity facts *)

Definition oidcClaimToFact : gmap string string :=
  list_to_map [("sub", FactUser); ("email", FactEmail); ("groups", FactGroup); ("roles", FactIdpRole)].

(** A clone of the map; values are immutable here. *)
Definition OIDCClaimToFact : gmap string string := oidcClaimToFact.

Definition BindingMemberPrefixes : list string :=
  sort_Strings (FactNode :: (map_to_list OIDCClaimToFact).*2).

Definition TargetFactNames : list string :=
  sort_Strings (FactNode :: (map_to_list OIDCClaimToFact).*2).

(** ** The elements of a Datalog body *)

(** A body as it is written: predicates and expressions in one list, which
    the parser separates. *)
Inductive element :=
| EP (p : predicate)
| EE (e : expr).

Definition preds (els : list element) : list predicate :=
  omap (λ el, match el with EP p => Some p | EE _ => None end) els.
Definition exprs (els : list element) : list expr :=
  omap (λ el, match el with EE e => Some e | EP _ => None end) els.

Definition mk_query (els : list element) : query := Query (preds els) (exprs els).
Definition mk_rule (h : predicate) (els : list element) : rule := Rule h (preds els) (exprs els).
Definition allow_if (els : list element) : policy := Policy PolicyAllow [mk_query els].

(** A predicate over variables, and the variable of an expression. *)
Definition pv (name : string) (xs : list string) : predicate := Pred name (TVar <$> xs).
Abbreviation EPv name xs := (EP (pv name xs)).
Abbreviation var x := (ETerm (TVar x)).
Abbreviation lit s := (ETerm (TVal (VStr s))).
Abbreviation TTrue := (TVal (VAtom (ABool true))).

(** ** Service and publish policies *)

Definition service_policy_bodies : list (list element) := [
  [EPv FactService ["type"; "name"]; EPv FactGrantedServiceExact ["type"; "name"]];
  [EPv FactService ["type"; "name"]; EPv FactGrantedServiceSet ["type"; "set"];
   EE (EContains (var "set") (var "name"))];
  [EPv FactService ["type"; "name"]; EPv FactGrantedServicePrefix ["type"; "prefix"];
   EE (EStartsWith (var "name") (var "prefix"))];
  [EPv FactService ["type"; "name"]; EPv FactGrantedServiceSuffix ["type"; "suffix"];
   EE (EEndsWith (var "name") (var "suffix"))];
  [EPv FactService ["type"; "name"]; EPv FactGrantedServiceAll ["type"]];
  [EPv FactService ["type"; "name"]; EP (Pred FactGrantedServiceAllTypes [TTrue])] ].

Definition BaselinePolicies : list policy := allow_if <$> service_policy_bodies.

Definition publish_policy_bodies : list (list element) := [
  [EPv FactPublish ["type"; "name"]; EPv FactGrantedPublishExact ["type"; "name"]];
  [EPv FactPublish ["type"; "name"]; EPv FactGrantedPublishSet ["type"; "set"];
   EE (EContains (var "set") (var "name"))];
  [EPv FactPublish ["type"; "name"]; EPv FactGrantedPublishPrefix ["type"; "prefix"];
   EE (EStartsWith (var "name") (var "prefix"))];
  [EPv FactPublish ["type"; "name"]; EPv FactGrantedPublishSuffix ["type"; "suffix"];
   EE (EEndsWith (var "name") (var "suffix"))];
  [EPv FactPublish ["type"; "name"]; EPv FactGrantedPublishAll ["type"]];
  [EPv FactPublish ["type"; "name"]; EP (Pred FactGrantedPublishAllTypes [TTrue])] ].

Definition PublishPolicies : list policy := allow_if <$> publish_policy_bodies.

(** ** Target rules *)

Definition target_rule_bodies : list (list element) := [
  [EPv FactTargetFact ["fact"; "val"]; EPv FactGrantedTargetExact ["fact"; "val"]];
  [EPv FactTargetFact ["fact"; "val"]; EPv FactGrantedTargetSet ["fact"; "set"];
   EE (EContains (var "set") (var "val"))];
  [EPv FactTargetFact ["fact"; "val"]; EPv FactGrantedTargetPrefix ["fact"; "prefix"];
   EE (EStartsWith (var "val") (var "prefix"))];
  [EPv FactTargetFact ["fact"; "val"]; EPv FactGrantedTargetSuffix ["fact"; "suffix"];
   EE (EEndsWith (var "val") (var "suffix"))];
  [EPv FactTargetFact ["fact"; "val"]; EPv FactGrantedTargetAll ["fact"]];
  [EPv FactTargetFact ["fact"; "val"]; EP (Pred FactGrantedTargetAllFacts [TTrue])] ].

Definition BaselineRules : list rule :=
  mk_rule (pv FactAllowNetworkTarget ["fact"; "val"]) <$> target_rule_bodies.

(** ** Rules for narrowed grants *)

Definition http_rule_bodies : list (predicate * list element) := [
  ((pv FactHTTPMethodOK ["t"; "k"]),
    [EPv FactMethod ["m"]; EPv FactGrantedMethod ["t"; "k"; "set"];
     EE (EContains (var "set") (var "m"))]);
  ((pv FactHTTPMethodOK ["t"; "k"]),
    [EPv FactMethod ["m"]; EE (ENot (EParens (EEqual (var "m") (lit "CONNECT"))));
     EPv FactGrantedMethodAny ["t"; "k"]]);
  ((pv FactHTTPPathOK ["t"; "k"]),
    [EPv FactPath ["p"]; EPv FactGrantedPathExact ["t"; "k"; "set"];
     EE (EContains (var "set") (var "p"))]);
  ((pv FactHTTPPathOK ["t"; "k"]),
    [EPv FactPath ["p"]; EPv FactGrantedPathPrefix ["t"; "k"; "prefix"];
     EE (EStartsWith (var "p") (var "prefix"))]);
  ((pv FactHTTPPathOK ["t"; "k"]),
    [EPv FactPath ["p"]; EE (EStartsWith (var "p") (lit "/")); EPv FactGrantedPathAny ["t"; "k"]]);
  ((pv FactGrantedServiceExact ["t"; "n"]),
    [EPv FactService ["t"; "n"]; EPv FactHTTPGrantedServiceExact ["t"; "n"];
     EPv FactHTTPMethodOK ["t"; "n"]; EPv FactHTTPPathOK ["t"; "n"]]);
  ((pv FactGrantedServiceSuffix ["t"; "s"]),
    [EPv FactService ["t"; "n"]; EPv FactHTTPGrantedServiceSuffix ["t"; "s"];
     EE (EEndsWith (var "n") (var "s")); EPv FactHTTPMethodOK ["t"; "s"]; EPv FactHTTPPathOK ["t"; "s"]]);
  ((pv FactGrantedServicePrefix ["t"; "p"]),
    [EPv FactService ["t"; "n"]; EPv FactHTTPGrantedServicePrefix ["t"; "p"];
     EE (EStartsWith (var "n") (var "p")); EPv FactHTTPMethodOK ["t"; "p"]; EPv FactHTTPPathOK ["t"; "p"]]);
  ((pv FactGrantedServiceAll ["t"]),
    [EPv FactService ["t"; "n"]; EPv FactHTTPGrantedServiceAll ["t"];
     EP (Pred FactHTTPMethodOK [TVar "t"; TVal (VStr "*")]);
     EP (Pred FactHTTPPathOK [TVar "t"; TVal (VStr "*")])]);
  ((Pred FactGrantedServiceAllTypes [TTrue]),
    [EPv FactService ["t"; "n"]; EP (Pred FactHTTPGrantedServiceAllTypes [TTrue]);
     EP (Pred FactHTTPMethodOK [TVal (VStr "*"); TVal (VStr "*")]);
     EP (Pred FactHTTPPathOK [TVal (VStr "*"); TVal (VStr "*")])]) ].

Definition BaselineHTTPRules : list rule := (λ '(h, els), mk_rule h els) <$> http_rule_bodies.

(** ** Checks *)

Definition BaselineReplayCheck : check :=
  Check [mk_query [EPv FactClientPeerID ["id"]; EPv FactConnectionPeerID ["id"]]].

Definition BaselineTargetCheck : check :=
  Check (mk_query <$> [[EPv FactAllowNetworkTarget ["fact"; "val"]];
                       [EP (Pred FactTargetUnrestricted [TTrue])]]).

Definition target_fact_rule (name : string) : rule :=
  mk_rule (Pred FactTargetFact [TVal (VStr name); TVar "val"]) [EPv name ["val"]].

Definition TargetFactRules : list rule := target_fact_rule <$> TargetFactNames.

Definition ControlPlaneStaticTimeCheck : check :=
  Check [mk_query [EPv FactTime ["time"]; EPv FactExpiration ["exp"];
                   EE (ELessOrEqual (var "time") (var "exp"))]].

Definition AllowIfTruePolicy : policy := allow_if [EE (ETerm TTrue)].
