(* ===== verification/DatalogText.v ===== *)
(** * Datalog as text

    Parts of the program are written as Datalog text and parsed back with
    biscuit-go's parser: the baseline ([src/api/datalog.go]), label checks and
    the mesh policy a provider downloads ([src/api/policy_rules.go]).  The
    parser is not part of the repository: [BiscuitText] states what the sources
    rely on, that text printed from plain syntax parses back to it, and
    [reference_text] is a parser that provides it.  A string is plain when it
    cannot end its own literal. *)

From S2P Require Import Prelude GoStrings Regex Names Biscuit Facts.

(** ** [strconv.Quote] *)

(** [unicode.IsPrint] depends on the Unicode tables; it is known on ASCII. *)
Class UnicodePrint := {
  unicode_IsPrint : Z → bool;
  unicode_IsPrint_ascii r : (0 ≤ r < 0x80)%Z → unicode_IsPrint r = ((0x20 <=? r) && (r <=? 0x7E))%Z;
}.

Definition hex_digit (z : Z) : ascii := char_of (if (z <? 10)%Z then 48 + z else 87 + z)%Z.

(** The low [n] hexadecimal digits of [z]. *)
Fixpoint hex (n : nat) (z : Z) : string :=
  match n with
  | 0 => ""
  | S n => hex n (z / 16)%Z +:+ str1 (hex_digit (z mod 16)%Z)
  end.

Definition quote_char : ascii := "034"%char.
Definition quoted (s : string) : string := String quote_char (s +:+ str1 quote_char).

(** One rune of a quoted string; [raw] are its bytes. *)
Definition quote_rune `{UnicodePrint} (r : Z) (raw : string) : string :=
  if (r =? 34)%Z || (r =? 92)%Z then String "\" raw
  else if unicode_IsPrint r then raw
  else
    match r with
    | 7 => "\a" | 8 => "\b" | 12 => "\f" | 10 => "\n" | 13 => "\r" | 9 => "\t" | 11 => "\v"
    | _ =>
        if ((r <? 0x20) || (r =? 0x7F))%Z then "\x" +:+ hex 2 r
        else if (r <? 0x10000)%Z then "\u" +:+ hex 4 r
        else "\U" +:+ hex 8 r
    end%Z.

Fixpoint quote_go `{UnicodePrint} (fuel : nat) (s : string) : string :=
  match fuel, s with
  | S fuel, String c _ =>
      let '(r, k) := decode_rune s in
      (if (k =? 1)%nat && (r =? RuneError)%Z then "\x" +:+ hex 2 (byte c)
       else quote_rune r (str_take k s))
      +:+ quote_go fuel (str_drop k s)
  | _, _ => ""
  end.

Definition strconv_Quote `{UnicodePrint} (s : string) : string := quoted (quote_go (len s) s).

(** A string that cannot end its own literal or contain an escape. *)
Definition plain_char (c : ascii) : bool :=
  negb (bool_decide (c = quote_char)) && negb (bool_decide (c = "\"%char)) && (0x20 <=? byte c)%Z.
Definition plain (s : string) : bool := str_forallb plain_char s.

(** A plain ASCII string is quoted as it is. *)
Definition printable_char (c : ascii) : bool :=
  plain_char c && (byte c <=? 0x7E)%Z.
Definition printable (s : string) : bool := str_forallb printable_char s.

Lemma quote_go_printable `{UnicodePrint} fuel s :
  printable s = true → len s ≤ fuel → quote_go fuel s = s.
Proof.
  revert s. induction fuel as [|fuel IH]; intros [|c s] Hp Hl; simpl in Hl; try done; [lia|].
  unfold printable in Hp. simpl in Hp. apply andb_prop in Hp as [Hc Hp].
  unfold printable_char, plain_char in Hc.
  apply andb_prop in Hc as [[[H34 H92]%andb_prop Hlo]%andb_prop Hhi].
  apply negb_true_iff, bool_decide_eq_false in H34, H92.
  assert (Hb : (0 ≤ byte c < 0x80)%Z) by lia.
  cbn [quote_go]. unfold decode_rune. rewrite (proj2 (Z.ltb_lt _ _) (proj2 Hb)).
  assert (byte c ≠ 34%Z) by (intros Hx; apply H34; by rewrite <-(char_of_byte c), Hx).
  assert (byte c ≠ 92%Z) by (intros Hx; apply H92; by rewrite <-(char_of_byte c), Hx).
  unfold quote_rune. rewrite unicode_IsPrint_ascii by done.
  rewrite (proj2 (Z.eqb_neq (byte c) RuneError)) by (unfold RuneError; lia).
  rewrite !(proj2 (Z.eqb_neq _ _)) by done. rewrite Hlo, Hhi. simpl. rewrite IH by (done || lia). done.
Qed.

Lemma strconv_Quote_printable `{UnicodePrint} s : printable s = true → strconv_Quote s = quoted s.
Proof. intros Hp. unfold strconv_Quote. by rewrite quote_go_printable. Qed.

Lemma printable_plain s : printable s = true → plain s = true.
Proof.
  unfold printable, plain. rewrite !str_forallb_spec. intros Hp c Hc.
  by apply Hp, andb_prop in Hc as [? _].
Qed.

(** The interface is inhabited: tables that only know ASCII. *)
#[refine] Definition ascii_print : UnicodePrint :=
  {| unicode_IsPrint := λ r, ((0x20 <=? r) && (r <=? 0x7E))%Z |}.
Proof. done. Defined.

(** ** Printing *)

Definition show_atom (a : atom) : string :=
  match a with
  | AStr s => quoted s
  | ABool true => "true"
  | ABool false => "false"
  | _ => ""
  end.

Definition show_value (v : value) : string :=
  match v with
  | VAtom a => show_atom a
  | VSet l => "[" +:+ Join (show_atom <$> l) ", " +:+ "]"
  end.

Definition show_term (t : term) : string :=
  match t with TVar x => "$" +:+ x | TVal v => show_value v end.

Definition show_predicate (p : predicate) : string :=
  p_name p +:+ "(" +:+ Join (show_term <$> p_ids p) ", " +:+ ")".

Fixpoint show_expr (e : expr) : string :=
  match e with
  | ETerm t => show_term t
  | EParens e => "(" +:+ show_expr e +:+ ")"
  | ENot e => "!" +:+ show_expr e
  | EEqual a b => show_expr a +:+ " == " +:+ show_expr b
  | ELessOrEqual a b => show_expr a +:+ " <= " +:+ show_expr b
  | EContains a b => show_expr a +:+ ".contains(" +:+ show_expr b +:+ ")"
  | EStartsWith a b => show_expr a +:+ ".starts_with(" +:+ show_expr b +:+ ")"
  | EEndsWith a b => show_expr a +:+ ".ends_with(" +:+ show_expr b +:+ ")"
  end.

Definition show_element (el : element) : string :=
  match el with EP p => show_predicate p | EE e => show_expr e end.

Definition show_body (els : list element) : string := Join (show_element <$> els) ", ".

Definition show_rule (h : predicate) (els : list element) : string :=
  show_predicate h +:+ " <- " +:+ show_body els.
Definition show_check (qs : list (list element)) : string :=
  "check if " +:+ Join (show_body <$> qs) " or ".
Definition show_policy (els : list element) : string := "allow if " +:+ show_body els.

(** ** Plain syntax *)

Definition ident_char (c : ascii) : bool := is_alnum c || bool_decide (c = "_"%char).
(** A name starts with a lower-case letter: it is neither a variable nor a keyword followed by one. *)
Definition ident (x : string) : bool :=
  match x with
  | "" => false
  | String c r => is_lower c && str_forallb ident_char r
  end.

Definition plain_atom (a : atom) : bool :=
  match a with AStr s => plain s | ABool _ => true | _ => false end.
Definition plain_value (v : value) : bool :=
  match v with VAtom a => plain_atom a | VSet l => forallb plain_atom l end.
Definition plain_term (t : term) : bool :=
  match t with TVar x => ident x | TVal v => plain_value v end.

Definition plain_predicate (p : predicate) : bool :=
  ident (p_name p) && negb (bool_decide (p_ids p = [])) && forallb plain_term (p_ids p).

(** The expressions the sources write: a term, a comparison or a method of a
    variable, and a negated equality in parentheses. *)
Definition plain_expr (e : expr) : bool :=
  match e with
  | ETerm t => plain_term t
  | ELessOrEqual (ETerm (TVar x)) (ETerm b) | EContains (ETerm (TVar x)) (ETerm b)
  | EStartsWith (ETerm (TVar x)) (ETerm b) | EEndsWith (ETerm (TVar x)) (ETerm b)
  | ENot (EParens (EEqual (ETerm (TVar x)) (ETerm b))) => plain_term (TVar x) && plain_term b
  | _ => false
  end.

Definition plain_element (el : element) : bool :=
  match el with EP p => plain_predicate p | EE e => plain_expr e end.
Definition plain_body (els : list element) : bool :=
  negb (bool_decide (length els = 0)) && forallb plain_element els.

(** ** What the sources rely on *)

Class BiscuitText := {
  predicate_String : predicate → string;
  FromStringFact : string → result fact;
  FromStringRule : string → result rule;
  FromStringCheck : string → result check;
  FromStringPolicy : string → result policy;
  predicate_String_plain p : plain_predicate p = true → predicate_String p = show_predicate p;
  FromStringRule_plain h els :
    plain_predicate h = true → plain_body els = true → FromStringRule (show_rule h els) = Ok (mk_rule h els);
  FromStringCheck_plain qs :
    qs ≠ [] → forallb plain_body qs = true → FromStringCheck (show_check qs) = Ok (Check (mk_query <$> qs));
  FromStringPolicy_plain els :
    plain_body els = true → FromStringPolicy (show_policy els) = Ok (allow_if els);
}.

(** ** A reference parser *)

(** A parser returns what it read and the rest of the text. *)
Definition parser (A : Type) : Type := string → option (A * string).

Definition expect (w s : string) : option string :=
  if HasPrefix s w then Some (str_drop (len w) s) else None.

(** One or more items with a separator between them. *)
Fixpoint p_sep {A} (p : parser A) (sep : string) (fuel : nat) (s : string) : option (list A * string) :=
  '(x, r) ← p s;
  match expect sep r, fuel with
  | Some r', S fuel => '(xs, r) ← p_sep p sep fuel r'; Some (x :: xs, r)
  | Some _, 0 => None
  | None, _ => Some ([x], r)
  end.

Definition p_atom : parser atom := λ s,
  match s with
  | String c r =>
      if bool_decide (c = quote_char) then
        let '(a, r) := span (λ c, negb (bool_decide (c = quote_char))) r in
        r ← expect (str1 quote_char) r; Some (AStr a, r)
      else if HasPrefix s "true" then Some (ABool true, str_drop 4 s)
      else if HasPrefix s "false" then Some (ABool false, str_drop 5 s)
      else None
  | "" => None
  end.

Definition p_term : parser term := λ s,
  match s with
  | String "$" r => let '(x, r) := span ident_char r in Some (TVar x, r)
  | String "[" (String "]" r) => Some (TVal (VSet []), r)
  | String "[" r => '(l, r) ← p_sep p_atom ", " (len r) r; r ← expect "]" r; Some (TVal (VSet l), r)
  | _ => '(a, r) ← p_atom s; Some (TVal (VAtom a), r)
  end.

Definition p_predicate : parser predicate := λ s,
  let '(n, r) := span ident_char s in
  r ← expect "(" r;
  '(ts, r) ← p_sep p_term ", " (len r) r;
  r ← expect ")" r;
  Some (Pred n ts, r).

(** The second operand of a method call on [a]. *)
Definition p_method (f : expr → expr → expr) (a : term) (r : string) : option (expr * string) :=
  '(b, r) ← p_term r; r ← expect ")" r; Some (f (ETerm a) (ETerm b), r).

Definition p_expr : parser expr := λ s,
  match expect "!(" s with
  | Some r =>
      '(a, r) ← p_term r; r ← expect " == " r; '(b, r) ← p_term r; r ← expect ")" r;
      Some (ENot (EParens (EEqual (ETerm a) (ETerm b))), r)
  | None =>
      '(a, r) ← p_term s;
      match expect ".contains(" r, expect ".starts_with(" r, expect ".ends_with(" r, expect " <= " r with
      | Some r, _, _, _ => p_method EContains a r
      | _, Some r, _, _ => p_method EStartsWith a r
      | _, _, Some r, _ => p_method EEndsWith a r
      | _, _, _, Some r => '(b, r) ← p_term r; Some (ELessOrEqual (ETerm a) (ETerm b), r)
      | _, _, _, _ => Some (ETerm a, r)
      end
  end.

Definition p_element : parser element := λ s,
  match span ident_char s with
  | (String _ _, String "(" _) => '(p, r) ← p_predicate s; Some (EP p, r)
  | _ => '(e, r) ← p_expr s; Some (EE e, r)
  end.

Definition p_body : parser (list element) := λ s, p_sep p_element ", " (len s) s.

(** The whole text is read, or it is an error. *)
Definition complete {A} (r : option (A * string)) : result A :=
  match r with Some (a, "") => Ok a | _ => fail "syntax error" end.

Definition parse_rule (s : string) : result rule :=
  complete ('(h, r) ← p_predicate s; r ← expect " <- " r; '(els, r) ← p_body r; Some (mk_rule h els, r)).

Definition parse_check (s : string) : result check :=
  complete (r ← expect "check if " s; '(qs, r) ← p_sep p_body " or " (len r) r;
            Some (Check (mk_query <$> qs), r)).

Definition parse_policy (s : string) : result policy :=
  complete (r ← expect "allow if " s; '(els, r) ← p_body r; Some (allow_if els, r)).

Definition ground (t : term) : option value := match t with TVal v => Some v | TVar _ => None end.

Definition parse_fact (s : string) : result fact :=
  p ← complete (p_predicate s);
  match mapM ground (p_ids p) with
  | Some vs => Ok (Fact (p_name p) vs)
  | None => fail "a fact has no variables"
  end.

(** ** The baseline text *)

Definition BaselineSources_Policies : list string := [
  "allow if " +:+ FactService +:+ "($type, $name), " +:+ FactGrantedServiceExact +:+ "($type, $name)";
  "allow if " +:+ FactService +:+ "($type, $name), " +:+ FactGrantedServiceSet +:+ "($type, $set), $set.contains($name)";
  "allow if " +:+ FactService +:+ "($type, $name), " +:+ FactGrantedServicePrefix +:+ "($type, $prefix), $name.starts_with($prefix)";
  "allow if " +:+ FactService +:+ "($type, $name), " +:+ FactGrantedServiceSuffix +:+ "($type, $suffix), $name.ends_with($suffix)";
  "allow if " +:+ FactService +:+ "($type, $name), " +:+ FactGrantedServiceAll +:+ "($type)";
  "allow if " +:+ FactService +:+ "($type, $name), " +:+ FactGrantedServiceAllTypes +:+ "(true)" ].

Definition BaselineSources_PublishPolicies : list string := [
  "allow if " +:+ FactPublish +:+ "($type, $name), " +:+ FactGrantedPublishExact +:+ "($type, $name)";
  "allow if " +:+ FactPublish +:+ "($type, $name), " +:+ FactGrantedPublishSet +:+ "($type, $set), $set.contains($name)";
  "allow if " +:+ FactPublish +:+ "($type, $name), " +:+ FactGrantedPublishPrefix +:+ "($type, $prefix), $name.starts_with($prefix)";
  "allow if " +:+ FactPublish +:+ "($type, $name), " +:+ FactGrantedPublishSuffix +:+ "($type, $suffix), $name.ends_with($suffix)";
  "allow if " +:+ FactPublish +:+ "($type, $name), " +:+ FactGrantedPublishAll +:+ "($type)";
  "allow if " +:+ FactPublish +:+ "($type, $name), " +:+ FactGrantedPublishAllTypes +:+ "(true)" ].

Definition BaselineSources_Rules : list string := [
  FactAllowNetworkTarget +:+ "($fact, $val) <- " +:+ FactTargetFact +:+ "($fact, $val), " +:+ FactGrantedTargetExact +:+ "($fact, $val)";
  FactAllowNetworkTarget +:+ "($fact, $val) <- " +:+ FactTargetFact +:+ "($fact, $val), " +:+ FactGrantedTargetSet +:+ "($fact, $set), $set.contains($val)";
  FactAllowNetworkTarget +:+ "($fact, $val) <- " +:+ FactTargetFact +:+ "($fact, $val), " +:+ FactGrantedTargetPrefix +:+ "($fact, $prefix), $val.starts_with($prefix)";
  FactAllowNetworkTarget +:+ "($fact, $val) <- " +:+ FactTargetFact +:+ "($fact, $val), " +:+ FactGrantedTargetSuffix +:+ "($fact, $suffix), $val.ends_with($suffix)";
  FactAllowNetworkTarget +:+ "($fact, $val) <- " +:+ FactTargetFact +:+ "($fact, $val), " +:+ FactGrantedTargetAll +:+ "($fact)";
  FactAllowNetworkTarget +:+ "($fact, $val) <- " +:+ FactTargetFact +:+ "($fact, $val), " +:+ FactGrantedTargetAllFacts +:+ "(true)" ].

Definition BaselineSources_HTTPRules : list string := [
  FactHTTPMethodOK +:+ "($t, $k) <- " +:+ FactMethod +:+ "($m), " +:+ FactGrantedMethod +:+ "($t, $k, $set), $set.contains($m)";
  FactHTTPMethodOK +:+ "($t, $k) <- " +:+ FactMethod +:+ "($m), !($m == " +:+ quoted "CONNECT" +:+ "), " +:+ FactGrantedMethodAny +:+ "($t, $k)";
  FactHTTPPathOK +:+ "($t, $k) <- " +:+ FactPath +:+ "($p), " +:+ FactGrantedPathExact +:+ "($t, $k, $set), $set.contains($p)";
  FactHTTPPathOK +:+ "($t, $k) <- " +:+ FactPath +:+ "($p), " +:+ FactGrantedPathPrefix +:+ "($t, $k, $prefix), $p.starts_with($prefix)";
  FactHTTPPathOK +:+ "($t, $k) <- " +:+ FactPath +:+ "($p), $p.starts_with(" +:+ quoted "/" +:+ "), " +:+ FactGrantedPathAny +:+ "($t, $k)";
  FactGrantedServiceExact +:+ "($t, $n) <- " +:+ FactService +:+ "($t, $n), " +:+ FactHTTPGrantedServiceExact +:+ "($t, $n), " +:+ FactHTTPMethodOK +:+ "($t, $n), " +:+ FactHTTPPathOK +:+ "($t, $n)";
  FactGrantedServiceSuffix +:+ "($t, $s) <- " +:+ FactService +:+ "($t, $n), " +:+ FactHTTPGrantedServiceSuffix +:+ "($t, $s), $n.ends_with($s), " +:+ FactHTTPMethodOK +:+ "($t, $s), " +:+ FactHTTPPathOK +:+ "($t, $s)";
  FactGrantedServicePrefix +:+ "($t, $p) <- " +:+ FactService +:+ "($t, $n), " +:+ FactHTTPGrantedServicePrefix +:+ "($t, $p), $n.starts_with($p), " +:+ FactHTTPMethodOK +:+ "($t, $p), " +:+ FactHTTPPathOK +:+ "($t, $p)";
  FactGrantedServiceAll +:+ "($t) <- " +:+ FactService +:+ "($t, $n), " +:+ FactHTTPGrantedServiceAll +:+ "($t), " +:+ FactHTTPMethodOK +:+ "($t, " +:+ quoted "*" +:+ "), " +:+ FactHTTPPathOK +:+ "($t, " +:+ quoted "*" +:+ ")";
  FactGrantedServiceAllTypes +:+ "(true) <- " +:+ FactService +:+ "($t, $n), " +:+ FactHTTPGrantedServiceAllTypes +:+ "(true), " +:+ FactHTTPMethodOK +:+ "(" +:+ quoted "*" +:+ ", " +:+ quoted "*" +:+ "), " +:+ FactHTTPPathOK +:+ "(" +:+ quoted "*" +:+ ", " +:+ quoted "*" +:+ ")" ].

Definition BaselineSources_ReplayCheck : string :=
  "check if " +:+ FactClientPeerID +:+ "($id), " +:+ FactConnectionPeerID +:+ "($id)".

Definition BaselineSources_TargetCheck : string :=
  "check if " +:+ FactAllowNetworkTarget +:+ "($fact, $val) or " +:+ FactTargetUnrestricted +:+ "(true)".

Definition BaselineSources_TargetFactRules `{UnicodePrint} : list string :=
  (λ name, FactTargetFact +:+ "(" +:+ strconv_Quote name +:+ ", $val) <- " +:+ name +:+ "($val)") <$> TargetFactNames.

Definition BaselineSources_TimeCheck : string :=
  "check if " +:+ FactTime +:+ "($time), " +:+ FactExpiration +:+ "($exp), $time <= $exp".

Definition BaselineSources_AllowIfTrue : string := "allow if true".

(** ** Printing then parsing *)

Lemma expect_app w r : expect w (w +:+ r) = Some r.
Proof. unfold expect. by rewrite HasPrefix_app, drop_app_len. Qed.

(** The rest of the text does not continue a name. *)
Definition stop (r : string) : Prop := ∀ c r', r = String c r' → ident_char c = false.

Lemma Join_cons x y (l : list string) sep : Join (x :: y :: l) sep = x +:+ sep +:+ Join (y :: l) sep.
Proof. done. Qed.

Lemma length_Join (l : list string) sep : 0 < len sep → length l ≤ S (len (Join l sep)).
Proof.
  intros Hs. induction l as [|x [|y l] IH]; simpl length; [lia|lia|].
  rewrite Join_cons, !len_app. simpl length in IH. lia.
Qed.

Section sep.
Context {A : Type} (p : parser A) (show : A → string) (ok : A → bool) (good : string → Prop) (sep : string).
Hypothesis Hp : ∀ x r, ok x = true → good r → p (show x +:+ r) = Some (x, r).
Hypothesis Hsep : ∀ r, good (sep +:+ r).

Lemma p_sep_show l r fuel :
  l ≠ [] → forallb ok l = true → good r → expect sep r = None → length l ≤ S fuel →
  p_sep p sep fuel (Join (show <$> l) sep +:+ r) = Some (l, r).
Proof using Hp Hsep.
  revert fuel. induction l as [|x [|y l] IH]; intros fuel Hne Hok Hr Hn Hf; [done|..];
    cbn [forallb] in Hok; apply andb_prop in Hok as [Hx Hok].
  - assert (Hj : Join (show <$> [x]) sep = show x) by done. rewrite Hj.
    destruct fuel; cbn [p_sep]; rewrite Hp by done; cbn [mbind option_bind]; by rewrite Hn.
  - rewrite fmap_cons, (fmap_cons show y), Join_cons, <-fmap_cons, !app_assoc.
    destruct fuel as [|fuel]; [simpl in Hf; lia|]. cbn [p_sep].
    rewrite Hp by done. cbn [mbind option_bind]. rewrite expect_app. rewrite IH; [done|done|done|done|done|].
    simpl in Hf |- *. lia.
Qed.

Lemma p_sep_show_len l r :
  0 < len sep → l ≠ [] → forallb ok l = true → good r → expect sep r = None →
  p_sep p sep (len (Join (show <$> l) sep +:+ r)) (Join (show <$> l) sep +:+ r) = Some (l, r).
Proof using Hp Hsep.
  intros Hl ? ? ? ?. apply p_sep_show; try done.
  pose proof (length_Join (show <$> l) sep Hl) as HJ. rewrite length_fmap in HJ. rewrite len_app. lia.
Qed.
End sep.

Lemma p_atom_show a r : plain_atom a = true → p_atom (show_atom a +:+ r) = Some (a, r).
Proof.
  destruct a as [|s| | |[]]; intros Ha; try done; simpl in Ha.
  2,3: unfold p_atom; simpl; by destruct r.
  change (show_atom (AStr s) +:+ r) with (String quote_char ((s +:+ str1 quote_char) +:+ r)).
  unfold p_atom. rewrite bool_decide_true by done.
  rewrite app_assoc, span_stop; [by rewrite expect_app|..].
  - unfold plain in Ha. rewrite str_forallb_spec in *. intros c Hc. apply Ha in Hc.
    unfold plain_char in Hc. by apply andb_prop in Hc as [[Hc _]%andb_prop _].
  - by intros c r' [= <- _].
Qed.

Lemma ident_chars x : ident x = true → str_forallb ident_char x = true ∧ x ≠ "".
Proof.
  destruct x as [|c x]; simpl; [done|]. intros [Hc Hx]%andb_prop. split; [|done].
  rewrite Hx. unfold ident_char, is_alnum. rewrite Hc. by rewrite orb_true_r.
Qed.

Lemma Join_head x (l : list string) sep : ∃ t, Join (x :: l) sep = x +:+ t.
Proof. destruct l; [exists ""; by rewrite app_nil_r|]. rewrite Join_cons. eauto. Qed.

Lemma p_term_set a l r :
  plain_value (VSet (a :: l)) = true →
  p_term (show_value (VSet (a :: l)) +:+ r) = Some (TVal (VSet (a :: l)), r).
Proof.
  intros Hp. cbn [plain_value] in Hp.
  change (show_value (VSet (a :: l)) +:+ r)
    with (String "[" ((Join (show_atom <$> a :: l) ", " +:+ "]") +:+ r)).
  set (J := (Join (show_atom <$> a :: l) ", " +:+ "]") +:+ r).
  assert (Hj : J = Join (show_atom <$> a :: l) ", " +:+ "]" +:+ r) by (unfold J; by rewrite app_assoc).
  assert (Hne : ∀ r', J ≠ String "]" r').
  { rewrite fmap_cons in Hj. destruct (Join_head (show_atom a) (show_atom <$> l) ", ") as [t Ht].
    rewrite Ht in Hj. intros r'. rewrite Hj. simpl in Hp. by destruct a as [| | | |[]]. }
  assert (Hsep : p_sep p_atom ", " (len J) J = Some (a :: l, "]" +:+ r)).
  { rewrite Hj. apply (p_sep_show_len p_atom show_atom plain_atom (λ _, True)); try done; [|simpl; lia].
    intros x r' Hx _. by apply p_atom_show. }
  unfold p_term. destruct J as [|c J]; [done|].
  destruct (decide (c = "]"%char)) as [->|Hc]; [by destruct (Hne J)|].
  replace (match c with _ => _ end) with ('(l, r) ← p_sep p_atom ", " (len (String c J)) (String c J); r ← expect "]" r; Some (TVal (VSet l), r)).
  2: { clear - Hc. destruct c as [[] [] [] [] [] [] [] []]; try done. }
  rewrite Hsep. cbn [mbind option_bind]. by rewrite expect_app.
Qed.

Lemma p_term_show t r : plain_term t = true → stop r → p_term (show_term t +:+ r) = Some (t, r).
Proof.
  intros Ht Hr. destruct t as [x|[a|[|a l]]]; simpl in Ht.
  - apply ident_chars in Ht as [Hx _].
    change (p_term (String "$" (x +:+ r)) = Some (TVar x, r)). unfold p_term. by rewrite span_stop.
  - change (show_term (TVal (VAtom a))) with (show_atom a).
    assert (Hd : p_term (show_atom a +:+ r) = '(a, r) ← p_atom (show_atom a +:+ r); Some (TVal (VAtom a), r)).
    { by destruct a as [| | | |[]]. }
    by rewrite Hd, p_atom_show.
  - done.
  - by apply p_term_set.
Qed.

Lemma stop_cons c r : ident_char c = false → stop (String c r).
Proof. by intros Hc c' r' [= <- _]. Qed.

Lemma stop_app c w r : ident_char c = false → stop (String c w +:+ r).
Proof. rewrite app_cons. apply stop_cons. Qed.

Lemma p_predicate_show p r : plain_predicate p = true → p_predicate (show_predicate p +:+ r) = Some (p, r).
Proof.
  destruct p as [n ts]. unfold plain_predicate, show_predicate, p_predicate. simpl p_name. simpl p_ids.
  intros [[Hn Hne]%andb_prop Hts]%andb_prop. apply ident_chars in Hn as [Hn _]. bool_split.
  rewrite !app_assoc, span_stop; [|done|by intros c r' [= <- _]].
  rewrite expect_app. cbn [mbind option_bind].
  rewrite (p_sep_show_len p_term show_term plain_term stop); try done.
  2: { intros. by apply p_term_show. }
  2: { intros. by apply stop_app. }
  - cbn [mbind option_bind]. by rewrite expect_app.
  - simpl. lia.
  - by apply stop_app.
Qed.

(** The rest of the text after a body element: the end, another element, or
    another query. *)
Definition rest_ok (r : string) : Prop := r = "" ∨ (∃ t, r = ", " +:+ t) ∨ (∃ t, r = " or " +:+ t).

Lemma rest_ok_stop r : rest_ok r → stop r.
Proof. intros [->|[[t ->]|[t ->]]]; [done|by apply stop_app..]. Qed.

Lemma rest_ok_expect r :
  rest_ok r →
  expect ".contains(" r = None ∧ expect ".starts_with(" r = None ∧
  expect ".ends_with(" r = None ∧ expect " <= " r = None.
Proof. by intros [->|[[t ->]|[t ->]]]. Qed.

Lemma p_method_show f a b r :
  plain_term b = true → p_method f a (show_term b +:+ ")" +:+ r) = Some (f (ETerm a) (ETerm b), r).
Proof.
  intros Hb. unfold p_method. rewrite p_term_show by (done || by apply stop_app).
  cbn [mbind option_bind]. by rewrite expect_app.
Qed.

(** A printed term is not the start of a negation. *)
Lemma show_term_not_neg t r : plain_term t = true → expect "!(" (show_term t +:+ r) = None.
Proof. destruct t as [x|[a|l]]; [done| |done]. by destruct a as [| | | |[]]. Qed.

Lemma p_expr_show e r : plain_expr e = true → rest_ok r → p_expr (show_expr e +:+ r) = Some (e, r).
Proof.
  intros He Hr. pose proof (rest_ok_stop r Hr) as Hstop. pose proof (rest_ok_expect r Hr) as (E1 & E2 & E3 & E4).
  unfold p_expr. destruct e as [t|e|[| [] | | | | | |]|e1 e2|[[a|]| | | | | | |] [b| | | | | | |]|[[a|]| | | | | | |] [b| | | | | | |]
    |[[a|]| | | | | | |] [b| | | | | | |]|[[a|]| | | | | | |] [b| | | | | | |]]; try done; cbn [plain_expr] in He.
  1: { cbn [show_expr]. rewrite show_term_not_neg, p_term_show by done. cbn [mbind option_bind].
       by rewrite E1, E2, E3, E4. }
  1: { destruct e1 as [[a|]| | | | | | |]; try done. destruct e2 as [b| | | | | | |]; try done.
       apply andb_prop in He as [Ha Hb]. cbn [show_expr].
       change (("!" +:+ "(" +:+ (show_term (TVar a) +:+ " == " +:+ show_term b) +:+ ")") +:+ r)
         with ("!(" +:+ (((show_term (TVar a) +:+ " == " +:+ show_term b) +:+ ")") +:+ r)).
       rewrite expect_app, !app_assoc.
       rewrite p_term_show by (done || by apply stop_app). cbn [mbind option_bind].
       rewrite expect_app. cbn [mbind option_bind].
       rewrite p_term_show by (done || by apply stop_app). cbn [mbind option_bind]. by rewrite expect_app. }
  all: apply andb_prop in He as [Ha Hb]; cbn [show_expr]; rewrite !app_assoc;
    rewrite show_term_not_neg by done; rewrite p_term_show by (done || by apply stop_app);
    cbn [mbind option_bind].
  - change (expect ".contains(" (" <= " +:+ show_term b +:+ r)) with (@None string).
    change (expect ".starts_with(" (" <= " +:+ show_term b +:+ r)) with (@None string).
    change (expect ".ends_with(" (" <= " +:+ show_term b +:+ r)) with (@None string).
    rewrite expect_app, p_term_show by done. done.
  - rewrite expect_app. by apply p_method_show.
  - change (expect ".contains(" (".starts_with(" +:+ show_term b +:+ ")" +:+ r)) with (@None string).
    rewrite expect_app. by apply p_method_show.
  - change (expect ".contains(" (".ends_with(" +:+ show_term b +:+ ")" +:+ r)) with (@None string).
    change (expect ".starts_with(" (".ends_with(" +:+ show_term b +:+ ")" +:+ r)) with (@None string).
    rewrite expect_app. by apply p_method_show.
Qed.

Lemma span_stuck c s : ident_char c = false → span ident_char (String c s) = ("", String c s).
Proof. intros Hc. simpl. by rewrite Hc. Qed.

(** A printed expression does not read as a predicate. *)
Lemma p_element_expr e r :
  plain_expr e = true → rest_ok r →
  p_element (show_expr e +:+ r) = '(e, r) ← p_expr (show_expr e +:+ r); Some (EE e, r).
Proof.
  intros He Hr. unfold p_element.
  assert (Hc : (∃ b, e = ETerm (TVal (VAtom (ABool b)))) ∨
               ∃ c s, show_expr e +:+ r = String c s ∧ ident_char c = false).
  { destruct e as [[x|[[| | | |b]|l]]|e|[]|e1 e2|[[]| | | | | | |] ?|[[]| | | | | | |] ?
      |[[]| | | | | | |] ?|[[]| | | | | | |] ?]; try done; try (by left; eauto);
      right; do 2 eexists; split; (reflexivity || done). }
  destruct Hc as [[b ->]|(c & s & -> & Hc)]; [|by rewrite span_stuck].
  assert (Hs : span ident_char (show_expr (ETerm (TVal (VAtom (ABool b)))) +:+ r)
               = (show_expr (ETerm (TVal (VAtom (ABool b)))), r)).
  { apply span_stop; [by destruct b|]. apply (rest_ok_stop r Hr). }
  rewrite Hs. destruct Hr as [->|[[t ->]|[t ->]]]; by destruct b.
Qed.

Lemma p_element_show el r : plain_element el = true → rest_ok r → p_element (show_element el +:+ r) = Some (el, r).
Proof.
  destruct el as [p|e]; simpl; intros Hp Hr.
  - assert (Hs : ∃ c n t, span ident_char (show_predicate p +:+ r) = (String c n, String "(" t)).
    { destruct p as [n ts]. unfold plain_predicate in Hp. simpl in Hp.
      apply andb_prop in Hp as [[Hn _]%andb_prop _]. apply ident_chars in Hn as [Hn Hne].
      unfold show_predicate. simpl p_name. simpl p_ids. rewrite !app_assoc.
      rewrite span_stop; [|done|by intros c r' [= <- _]]. destruct n as [|c n]; [done|]. by eexists _, _, _. }
    destruct Hs as (c & n & t & Hs). unfold p_element. rewrite Hs, p_predicate_show by done. done.
  - by rewrite p_element_expr, p_expr_show.
Qed.

Lemma p_body_show els r :
  plain_body els = true → rest_ok r → expect ", " r = None → p_body (show_body els +:+ r) = Some (els, r).
Proof.
  unfold plain_body, p_body, show_body. intros [Hne Hok]%andb_prop Hr Hn.
  apply (p_sep_show_len p_element show_element plain_element rest_ok); try done.
  - intros. by apply p_element_show.
  - intros. right. left. eauto.
  - simpl. lia.
  - intros ->. done.
Qed.

Lemma parse_rule_show h els :
  plain_predicate h = true → plain_body els = true → parse_rule (show_rule h els) = Ok (mk_rule h els).
Proof.
  intros Hh Hb. unfold parse_rule, show_rule. rewrite p_predicate_show by done. cbn [mbind option_bind].
  rewrite expect_app. cbn [mbind option_bind]. rewrite <-(app_nil_r (show_body els)).
  rewrite p_body_show by (done || by left). done.
Qed.

Lemma parse_policy_show els : plain_body els = true → parse_policy (show_policy els) = Ok (allow_if els).
Proof.
  intros Hb. unfold parse_policy, show_policy. rewrite expect_app. cbn [mbind option_bind].
  rewrite <-(app_nil_r (show_body els)). rewrite p_body_show by (done || by left). done.
Qed.

Lemma parse_check_show qs :
  qs ≠ [] → forallb plain_body qs = true → parse_check (show_check qs) = Ok (Check (mk_query <$> qs)).
Proof.
  intros Hne Hq. unfold parse_check, show_check. rewrite expect_app. cbn [mbind option_bind].
  rewrite <-(app_nil_r (Join _ _)).
  rewrite (p_sep_show_len p_body show_body plain_body (λ r, rest_ok r ∧ expect ", " r = None)); try done.
  - intros x r Hx [Hr Hn]. by apply p_body_show.
  - intros r. split; [right; right; by eauto|done].
  - simpl. lia.
  - split; [by left|done].
Qed.

(** The interface is inhabited. *)
#[refine] Definition reference_text : BiscuitText :=
  {| predicate_String := show_predicate; FromStringFact := parse_fact; FromStringRule := parse_rule;
     FromStringCheck := parse_check; FromStringPolicy := parse_policy;
     FromStringRule_plain := parse_rule_show; FromStringCheck_plain := parse_check_show;
     FromStringPolicy_plain := parse_policy_show |}.
Proof. done. Defined.

(** ** Start-up *)

Record DatalogBaseline := {
  b_Policies : list policy;
  b_PublishPolicies : list policy;
  b_Rules : list rule;
  b_HTTPRules : list rule;
  b_ReplayCheck : check;
  b_TargetCheck : check;
  b_TargetFactRules : list rule;
  b_TimeCheck : check;
  b_AllowIfTrue : policy;
}.

(** [init] of the package: parse every baseline text, in order; an error is a
    panic, after which nothing runs. *)
Definition datalog_init `{BiscuitText, UnicodePrint} : result DatalogBaseline :=
  policies ← wrap_err "failed to parse baseline policy" (collect FromStringPolicy BaselineSources_Policies);
  publish ← wrap_err "failed to parse publish policy" (collect FromStringPolicy BaselineSources_PublishPolicies);
  rules ← wrap_err "failed to parse baseline rule" (collect FromStringRule BaselineSources_Rules);
  http ← wrap_err "failed to parse baseline http rule" (collect FromStringRule BaselineSources_HTTPRules);
  replay ← wrap_err "failed to parse replay check" (FromStringCheck BaselineSources_ReplayCheck);
  target ← wrap_err "failed to parse target check" (FromStringCheck BaselineSources_TargetCheck);
  target_facts ← wrap_err "failed to parse target fact rule" (collect FromStringRule BaselineSources_TargetFactRules);
  time ← wrap_err "failed to parse static time check" (FromStringCheck BaselineSources_TimeCheck);
  allow ← wrap_err "failed to parse static allow policy" (FromStringPolicy BaselineSources_AllowIfTrue);
  Ok {| b_Policies := policies; b_PublishPolicies := publish; b_Rules := rules; b_HTTPRules := http;
        b_ReplayCheck := replay; b_TargetCheck := target; b_TargetFactRules := target_facts;
        b_TimeCheck := time; b_AllowIfTrue := allow |}.

Section startup.
Context `{BiscuitText, UnicodePrint}.

Lemma collect_policies ls texts ps :
  forallb plain_body ls = true → texts = show_policy <$> ls → ps = allow_if <$> ls →
  collect FromStringPolicy texts = Ok ps.
Proof.
  rewrite forallb_True. intros Hl -> ->. apply collect_Ok, Forall2_fmap, Forall_Forall2_diag, Forall_forall.
  intros els Hin. by apply FromStringPolicy_plain, Hl.
Qed.

Lemma collect_rules (ls : list (predicate * list element)) texts rs :
  forallb (λ '(h, els), plain_predicate h && plain_body els) ls = true →
  texts = (λ '(h, els), show_rule h els) <$> ls → rs = (λ '(h, els), mk_rule h els) <$> ls →
  collect FromStringRule texts = Ok rs.
Proof.
  rewrite forallb_True. intros Hl -> ->. apply collect_Ok, Forall2_fmap, Forall_Forall2_diag, Forall_forall.
  intros [h els] [Hh Hb]%Hl%andb_prop. by apply FromStringRule_plain.
Qed.

(** The pairs of head and body of the target-fact rules. *)
Definition target_fact_bodies : list (predicate * list element) :=
  (λ name, (Pred FactTargetFact [TVal (VStr name); TVar "val"], [EPv name ["val"]])) <$> TargetFactNames.

Lemma TargetFactNames_eq : TargetFactNames = ["email"; "group"; "idp_role"; "node"; "user"].
Proof. by vm_compute. Qed.

Lemma BaselineSources_TargetFactRules_show :
  BaselineSources_TargetFactRules = (λ '(h, els), show_rule h els) <$> target_fact_bodies.
Proof.
  unfold BaselineSources_TargetFactRules, target_fact_bodies. rewrite TargetFactNames_eq.
  cbn [fmap list_fmap]. by rewrite !strconv_Quote_printable by done.
Qed.

(** With any parser that reads back plain Datalog, start-up does not panic,
    and the baseline program it leaves is the one the other theorems are about:
    the text the SDKs embed and the program a node runs are the same. *)
Theorem datalog_init_Ok :
  datalog_init = Ok {|
    b_Policies := BaselinePolicies; b_PublishPolicies := PublishPolicies; b_Rules := BaselineRules;
    b_HTTPRules := BaselineHTTPRules; b_ReplayCheck := BaselineReplayCheck;
    b_TargetCheck := BaselineTargetCheck; b_TargetFactRules := TargetFactRules;
    b_TimeCheck := ControlPlaneStaticTimeCheck; b_AllowIfTrue := AllowIfTruePolicy |}.
Proof.
  unfold datalog_init.
  assert (Ep : collect FromStringPolicy BaselineSources_Policies = Ok BaselinePolicies)
    by (by apply (collect_policies service_policy_bodies); vm_compute).
  assert (Eu : collect FromStringPolicy BaselineSources_PublishPolicies = Ok PublishPolicies)
    by (by apply (collect_policies publish_policy_bodies); vm_compute).
  assert (Er : collect FromStringRule BaselineSources_Rules = Ok BaselineRules)
    by (by apply (collect_rules ((λ b, (pv FactAllowNetworkTarget ["fact"; "val"], b)) <$> target_rule_bodies)); vm_compute).
  assert (Eh : collect FromStringRule BaselineSources_HTTPRules = Ok BaselineHTTPRules)
    by (by apply (collect_rules http_rule_bodies); vm_compute).
  assert (Et : collect FromStringRule BaselineSources_TargetFactRules = Ok TargetFactRules)
    by (apply (collect_rules target_fact_bodies);
        [by vm_compute|apply BaselineSources_TargetFactRules_show|by vm_compute]).
  assert (Ec1 : FromStringCheck BaselineSources_ReplayCheck = Ok BaselineReplayCheck)
    by (by apply (FromStringCheck_plain [[EPv FactClientPeerID ["id"]; EPv FactConnectionPeerID ["id"]]])).
  assert (Ec2 : FromStringCheck BaselineSources_TargetCheck = Ok BaselineTargetCheck)
    by (by apply (FromStringCheck_plain [[EPv FactAllowNetworkTarget ["fact"; "val"]];
                                         [EP (Pred FactTargetUnrestricted [TTrue])]])).
  assert (Ec3 : FromStringCheck BaselineSources_TimeCheck = Ok ControlPlaneStaticTimeCheck)
    by (by apply (FromStringCheck_plain [[EPv FactTime ["time"]; EPv FactExpiration ["exp"];
                   EE (ELessOrEqual (var "time") (var "exp"))]])).
  assert (Ea : FromStringPolicy BaselineSources_AllowIfTrue = Ok AllowIfTruePolicy)
    by (by apply (FromStringPolicy_plain [EE (ETerm TTrue)])).
  by rewrite Ep, Eu, Er, Eh, Et, Ec1, Ec2, Ec3, Ea.
Qed.
End startup.

Lemma datalog_init_Ok_witness :
  @datalog_init reference_text ascii_print = Ok {|
    b_Policies := BaselinePolicies; b_PublishPolicies := PublishPolicies; b_Rules := BaselineRules;
    b_HTTPRules := BaselineHTTPRules; b_ReplayCheck := BaselineReplayCheck;
    b_TargetCheck := BaselineTargetCheck; b_TargetFactRules := TargetFactRules;
    b_TimeCheck := ControlPlaneStaticTimeCheck; b_AllowIfTrue := AllowIfTruePolicy |}.
Proof. apply (@datalog_init_Ok reference_text ascii_print). Defined.
