(* ===== verification/Grants.v ===== *)
(** * Grants: patterns as Datalog facts

    How a role's [allowed_services], [allowed_publish] and [allowed_targets]
    patterns become facts ([src/api/datalog.go]), what a pattern means, and
    the proof that the baseline policies and rules decide by that meaning. *)

From S2P Require Import Prelude GoStrings Regex Names Biscuit NaiveEngine Facts.

(** ** One fact per pattern *)

Definition BuildServiceDatalogFact (serviceStr : string) : fact :=
  let '(svcType, svcName) := ParseServiceTarget serviceStr in
  if bool_decide (svcType = "*") && bool_decide (svcName = "*") then
    MarkerFact FactGrantedServiceAllTypes
  else if bool_decide (svcName = "*") then
    Fact FactGrantedServiceAll [VStr svcType]
  else if HasPrefix svcName "*." then
    Fact FactGrantedServiceSuffix [VStr svcType; VStr (str_drop 1 svcName)]
  else if HasSuffix svcName ".*" then
    Fact FactGrantedServicePrefix [VStr svcType; VStr (str_take (len svcName - 1) svcName)]
  else Fact FactGrantedServiceExact [VStr svcType; VStr svcName].

(** A target with no fact name is about the node. *)
Definition parse_target (targetStr : string) : string * string :=
  let '(tFact, tVal) := ParseServiceTarget targetStr in
  (if bool_decide (tFact = "") then FactNode else tFact, tVal).

Definition BuildTargetDatalogFact (targetStr : string) : fact :=
  let '(tFact, tVal) := parse_target targetStr in
  if bool_decide (tFact = "*") && bool_decide (tVal = "*") then
    MarkerFact FactGrantedTargetAllFacts
  else if bool_decide (tVal = "*") then
    Fact FactGrantedTargetAll [VStr tFact]
  else if HasPrefix tVal "*." then
    Fact FactGrantedTargetSuffix [VStr tFact; VStr (str_drop 1 tVal)]
  else if HasSuffix tVal ".*" then
    Fact FactGrantedTargetPrefix [VStr tFact; VStr (str_take (len tVal - 1) tVal)]
  else Fact FactGrantedTargetExact [VStr tFact; VStr tVal].

(** ** Exact patterns grouped into sets *)

Definition isExactService (serviceStr : string) : string * string * bool :=
  (ParseServiceTarget serviceStr,
   bool_decide (f_name (BuildServiceDatalogFact serviceStr) = FactGrantedServiceExact)).

Definition isExactTarget (targetStr : string) : string * string * bool :=
  (parse_target targetStr,
   bool_decide (f_name (BuildTargetDatalogFact targetStr) = FactGrantedTargetExact)).

(** The state of the grouping loop: facts, [exactByType] and [types]. *)
Record grouping := Grouping {
  g_facts : list fact;
  g_exact : gmap string (gset string);
  g_types : list string;
}.

(** One iteration of the loop over the patterns. *)
Definition group_step (isExact : string → string * string * bool) (build : string → fact)
    (st : grouping) (svc : string) : grouping :=
  let '(ty, nm, exact) := isExact svc in
  if negb exact then Grouping (g_facts st ++ [build svc]) (g_exact st) (g_types st)
  else
    Grouping (g_facts st) (<[ty := {[nm]} ∪ default ∅ (g_exact st !! ty)]> (g_exact st))
      (match g_exact st !! ty with Some _ => g_types st | None => g_types st ++ [ty] end).

(** The set fact of one type: its names sorted. *)
Definition set_fact (set_name : string) (st : grouping) (ty : string) : fact :=
  Fact set_name [VStr ty; VSet (AStr <$> sort_Strings (elements (default ∅ (g_exact st !! ty))))].

Definition group_facts (isExact : string → string * string * bool) (build : string → fact)
    (set_name : string) (l : list string) : list fact :=
  let st := foldl (group_step isExact build) (Grouping [] ∅ []) l in
  g_facts st ++ (set_fact set_name st <$> sort_Strings (g_types st)).

Definition BuildServiceDatalogFacts (services : list string) : list fact :=
  group_facts isExactService BuildServiceDatalogFact FactGrantedServiceSet services.

Definition BuildTargetDatalogFacts (targets : list string) : list fact :=
  group_facts isExactTarget BuildTargetDatalogFact FactGrantedTargetSet targets.

(** ** Publish grants *)

Definition publishFactNames : gmap string string := list_to_map [
  (FactGrantedServiceAllTypes, FactGrantedPublishAllTypes);
  (FactGrantedServiceAll, FactGrantedPublishAll);
  (FactGrantedServiceSuffix, FactGrantedPublishSuffix);
  (FactGrantedServicePrefix, FactGrantedPublishPrefix);
  (FactGrantedServiceExact, FactGrantedPublishExact);
  (FactGrantedServiceSet, FactGrantedPublishSet)].

Definition rename_fact (f : fact) : fact := Fact (map_get publishFactNames (f_name f)) (f_ids f).

Definition BuildPublishDatalogFacts (services : list string) : list fact :=
  rename_fact <$> BuildServiceDatalogFacts services.

Definition PublishFact (svcType svcName : string) : fact := Fact FactPublish [VStr svcType; VStr svcName].

(** ** Validation of targets *)

Definition ValidateTargetFormat (target : string) : result unit :=
  if bool_decide (target = "*") then Ok tt
  else
    match SplitN2 target ":" with
    | [fct; val] =>
        fail_if (bool_decide (fct = "")) "invalid target format: fact cannot be empty";;
        fail_if (bool_decide (val = "")) "invalid target format: value cannot be empty";;
        wrap_err "invalid target format" (validateBindingMemberCharset val);;
        fail_if (negb (bool_decide (fct = "*")) && negb (slices_Contains TargetFactNames fct))
          "invalid target: not a target fact, so nothing would ever match it"
    | _ => fail "invalid target format: must be fact:value"
    end.

(** ** What a pattern means *)

(** A pattern [pty]/[pnm] covers the pair [ty]/[nm]. *)
Definition pattern_covers (pty pnm ty nm : string) : bool :=
  if bool_decide (pty = "*") && bool_decide (pnm = "*") then true
  else
    bool_decide (pty = ty) &&
    (if bool_decide (pnm = "*") then true
     else if HasPrefix pnm "*." then HasSuffix nm (str_drop 1 pnm)
     else if HasSuffix pnm ".*" then HasPrefix nm (str_take (len pnm - 1) pnm)
     else bool_decide (pnm = nm)).

Definition service_covers (pat ty nm : string) : bool :=
  let '(pty, pnm) := ParseServiceTarget pat in pattern_covers pty pnm ty nm.

Definition target_covers (pat ty nm : string) : bool :=
  let '(pty, pnm) := parse_target pat in pattern_covers pty pnm ty nm.

(** ** Families of grant facts *)

(** The three families (service, publish, target) carry the same terms under
    different names. *)
Record grant_names := GrantNames {
  gn_all_types : string;
  gn_all : string;
  gn_suffix : string;
  gn_prefix : string;
  gn_exact : string;
  gn_set : string;
}.

Definition gn_list (g : grant_names) : list string :=
  [gn_all_types g; gn_all g; gn_suffix g; gn_prefix g; gn_exact g; gn_set g].

Definition service_names : grant_names :=
  GrantNames FactGrantedServiceAllTypes FactGrantedServiceAll FactGrantedServiceSuffix
    FactGrantedServicePrefix FactGrantedServiceExact FactGrantedServiceSet.
Definition publish_names : grant_names :=
  GrantNames FactGrantedPublishAllTypes FactGrantedPublishAll FactGrantedPublishSuffix
    FactGrantedPublishPrefix FactGrantedPublishExact FactGrantedPublishSet.
Definition target_names : grant_names :=
  GrantNames FactGrantedTargetAllFacts FactGrantedTargetAll FactGrantedTargetSuffix
    FactGrantedTargetPrefix FactGrantedTargetExact FactGrantedTargetSet.

(** When a grant fact covers a pair. *)
Inductive fact_covers (g : grant_names) (ty nm : string) : fact → Prop :=
| cov_all_types : fact_covers g ty nm (MarkerFact (gn_all_types g))
| cov_all : fact_covers g ty nm (Fact (gn_all g) [VStr ty])
| cov_suffix s : HasSuffix nm s = true → fact_covers g ty nm (Fact (gn_suffix g) [VStr ty; VStr s])
| cov_prefix s : HasPrefix nm s = true → fact_covers g ty nm (Fact (gn_prefix g) [VStr ty; VStr s])
| cov_exact : fact_covers g ty nm (Fact (gn_exact g) [VStr ty; VStr nm])
| cov_set l : AStr nm ∈ l → fact_covers g ty nm (Fact (gn_set g) [VStr ty; VSet l]).

(** The fact of a pattern in a family. *)
Definition family_fact (g : grant_names) (pty pnm : string) : fact :=
  if bool_decide (pty = "*") && bool_decide (pnm = "*") then MarkerFact (gn_all_types g)
  else if bool_decide (pnm = "*") then Fact (gn_all g) [VStr pty]
  else if HasPrefix pnm "*." then Fact (gn_suffix g) [VStr pty; VStr (str_drop 1 pnm)]
  else if HasSuffix pnm ".*" then Fact (gn_prefix g) [VStr pty; VStr (str_take (len pnm - 1) pnm)]
  else Fact (gn_exact g) [VStr pty; VStr pnm].

Lemma BuildServiceDatalogFact_family s :
  BuildServiceDatalogFact s = let '(t, n) := ParseServiceTarget s in family_fact service_names t n.
Proof. unfold BuildServiceDatalogFact. by destruct (ParseServiceTarget s). Qed.

Lemma BuildTargetDatalogFact_family s :
  BuildTargetDatalogFact s = let '(t, n) := parse_target s in family_fact target_names t n.
Proof. unfold BuildTargetDatalogFact. by destruct (parse_target s). Qed.

(** The six names of a family are distinct. *)
Definition gn_distinct (g : grant_names) : Prop := NoDup (gn_list g).

Lemma service_names_distinct : gn_distinct service_names.
Proof. by apply (bool_decide_unpack _). Qed.
Lemma publish_names_distinct : gn_distinct publish_names.
Proof. by apply (bool_decide_unpack _). Qed.
Lemma target_names_distinct : gn_distinct target_names.
Proof. by apply (bool_decide_unpack _). Qed.
#[export] Hint Resolve service_names_distinct publish_names_distinct target_names_distinct : mesh.

Section family.
Context (g : grant_names) (Hg : gn_distinct g).

Lemma fact_covers_family pty pnm ty nm :
  fact_covers g ty nm (family_fact g pty pnm) ↔ pattern_covers pty pnm ty nm = true.
Proof using Hg.
  destruct g as [a b c d e f]. unfold gn_distinct, gn_list in Hg. simpl in Hg.
  rewrite !NoDup_cons, !not_elem_of_cons in Hg. destruct_and?.
  unfold family_fact, pattern_covers. simpl.
  destruct (bool_decide (pty = "*") && bool_decide (pnm = "*")); [split; [done|constructor]|].
  rewrite andb_true_iff, bool_decide_eq_true.
  repeat case_match; (split; [inversion 1; simplify_eq; try congruence; try done|intros [-> Hm]]).
  all: try (by constructor). all: try (split; [done|by apply bool_decide_eq_true]).
  apply bool_decide_eq_true in Hm as ->. apply cov_exact.
Qed.

Lemma family_fact_exact pty pnm :
  f_name (family_fact g pty pnm) = gn_exact g → family_fact g pty pnm = Fact (gn_exact g) [VStr pty; VStr pnm].
Proof using Hg.
  destruct g as [a b c d e f]. unfold gn_distinct, gn_list in Hg. simpl in Hg.
  rewrite !NoDup_cons, !not_elem_of_cons in Hg. destruct_and?.
  unfold family_fact. simpl. repeat case_match; simpl; congruence.
Qed.

Lemma fact_covers_exact_inv t n ty nm :
  fact_covers g ty nm (Fact (gn_exact g) [VStr t; VStr n]) → t = ty ∧ n = nm.
Proof using Hg.
  destruct g as [a b c d e f]. unfold gn_distinct, gn_list in Hg. simpl in *.
  rewrite !NoDup_cons, !not_elem_of_cons in Hg. destruct_and?.
  inversion 1; simplify_eq; try congruence; done.
Qed.

Lemma fact_covers_set_inv t l ty nm :
  fact_covers g ty nm (Fact (gn_set g) [VStr t; VSet l]) → t = ty ∧ AStr nm ∈ l.
Proof using Hg.
  destruct g as [a b c d e f]. unfold gn_distinct, gn_list in Hg. simpl in *.
  rewrite !NoDup_cons, !not_elem_of_cons in Hg. destruct_and?.
  inversion 1; simplify_eq; try congruence; done.
Qed.
End family.

(** ** Grouping keeps the meaning *)

Section group.
Context (isExact : string → string * string * bool) (build : string → fact).

Definition group_state (l : list string) : grouping :=
  foldl (group_step isExact build) (Grouping [] ∅ []) l.

(** What the loop has after the patterns [l]. *)
Record group_inv (l : list string) (st : grouping) : Prop := {
  gi_facts f : f ∈ g_facts st ↔ ∃ x, x ∈ l ∧ (isExact x).2 = false ∧ f = build x;
  gi_exact ty nm : nm ∈ default ∅ (g_exact st !! ty) ↔ ∃ x, x ∈ l ∧ isExact x = (ty, nm, true);
  gi_types ty : ty ∈ g_types st ↔ ∃ x, x ∈ l ∧ ∃ nm, isExact x = (ty, nm, true);
  gi_keys ty : is_Some (g_exact st !! ty) ↔ ty ∈ g_types st;
}.

Lemma group_step_inv l st x :
  group_inv l st → group_inv (l ++ [x]) (group_step isExact build st x).
Proof.
  intros [Hf He Ht Hk]. unfold group_step. destruct (isExact x) as [[ty nm] []] eqn:Ex; simpl.
  - split; simpl.
    + intros f. rewrite Hf, exists_snoc, Ex. simpl. intuition congruence.
    + intros ty' nm'. rewrite exists_snoc, Ex. destruct (decide (ty = ty')) as [<-|Hne].
      * rewrite lookup_insert_eq. simpl. rewrite elem_of_union, elem_of_singleton, He. intuition congruence.
      * rewrite lookup_insert_ne, He by done. intuition congruence.
    + intros ty'. rewrite exists_snoc, <-Ht, Ex. specialize (Hk ty). destruct (g_exact st !! ty) eqn:E.
      * split; [by left|]. intros [?|(? & [= <- _])]; [done|]. apply Hk. eauto.
      * rewrite elem_of_app, list_elem_of_singleton. naive_solver.
    + intros ty'. pose proof (Hk ty) as Hk1. destruct (decide (ty = ty')) as [<-|Hne].
      * rewrite lookup_insert_eq. split; [intros _|by eauto].
        destruct (g_exact st !! ty); [apply Hk1; eauto|]. apply elem_of_app. right. by left.
      * rewrite lookup_insert_ne, (Hk ty') by done. destruct (g_exact st !! ty); [done|].
        rewrite elem_of_app, list_elem_of_singleton. naive_solver.
  - split; simpl.
    + intros f. by rewrite elem_of_app, Hf, list_elem_of_singleton, exists_snoc, Ex; simpl; naive_solver.
    + intros ty' nm'. rewrite He, exists_snoc, Ex. naive_solver.
    + intros ty'. rewrite Ht, exists_snoc, Ex. naive_solver.
    + done.
Qed.

Lemma group_state_inv l : group_inv l (group_state l).
Proof.
  unfold group_state. induction l as [|x l IH] using rev_ind.
  - split; simpl; intros; rewrite ?lookup_empty; simpl; try set_solver.
  - rewrite foldl_app. simpl. by apply group_step_inv.
Qed.

(** The facts of a list of patterns: one per pattern that is not exact, and
    one set per type of the exact ones. *)
Lemma group_facts_inv set_name l f :
  f ∈ group_facts isExact build set_name l →
  (∃ x, x ∈ l ∧ (isExact x).2 = false ∧ f = build x) ∨
  ∃ ty S, f = Fact set_name [VStr ty; VSet (AStr <$> S)] ∧
          ∀ nm, nm ∈ S ↔ ∃ x, x ∈ l ∧ isExact x = (ty, nm, true).
Proof.
  unfold group_facts. fold (group_state l). destruct (group_state_inv l) as [Hf He Ht _].
  rewrite elem_of_app, Hf, list_elem_of_fmap. intros [?|(ty & -> & _)]; [by left|right].
  exists ty. eexists. split; [done|]. intros nm. by rewrite elem_of_sort_Strings, elem_of_elements, He.
Qed.

Lemma group_facts_single set_name l x :
  x ∈ l → (isExact x).2 = false → build x ∈ group_facts isExact build set_name l.
Proof.
  intros Hx Hn. unfold group_facts. fold (group_state l). apply elem_of_app. left.
  apply (gi_facts _ _ (group_state_inv l)). eauto.
Qed.

Lemma group_facts_set set_name l x ty nm :
  x ∈ l → isExact x = (ty, nm, true) →
  ∃ S, nm ∈ S ∧ Fact set_name [VStr ty; VSet (AStr <$> S)] ∈ group_facts isExact build set_name l.
Proof.
  intros Hx Hn. unfold group_facts. fold (group_state l). destruct (group_state_inv l) as [_ He Ht _].
  eexists. split; [|apply elem_of_app; right; apply list_elem_of_fmap; exists ty; split; [done|]].
  - rewrite elem_of_sort_Strings, elem_of_elements, He. eauto.
  - apply elem_of_sort_Strings, Ht. eauto.
Qed.
End group.

Lemma group_facts_ext e1 e2 b1 b2 n l :
  (∀ x, e1 x = e2 x) → (∀ x, b1 x = b2 x) → group_facts e1 b1 n l = group_facts e2 b2 n l.
Proof.
  intros He Hb. unfold group_facts.
  assert (Hs : ∀ st, foldl (group_step e1 b1) st l = foldl (group_step e2 b2) st l).
  { induction l as [|x l IH]; intros st; simpl; [done|]. rewrite IH. unfold group_step. by rewrite He, Hb. }
  by rewrite Hs.
Qed.

(** A list of patterns covers a pair, as facts of a family, exactly when one
    of the patterns does: grouping loses and adds nothing. *)
Lemma group_facts_covers g parse l ty nm :
  gn_distinct g →
  let build x := family_fact g (parse x).1 (parse x).2 in
  let isExact x := (parse x, bool_decide (f_name (build x) = gn_exact g)) in
  (∃ f, f ∈ group_facts isExact build (gn_set g) l ∧ fact_covers g ty nm f) ↔
  ∃ x, x ∈ l ∧ pattern_covers (parse x).1 (parse x).2 ty nm = true.
Proof.
  intros Hg build isExact. setoid_rewrite <-(fact_covers_family g Hg). split.
  - intros (f & [(x & Hx & _ & ->)|(ty' & S & -> & HS)]%group_facts_inv & Hc); [eauto|].
    apply fact_covers_set_inv in Hc as [-> Hin]; [|done].
    apply list_elem_of_fmap in Hin as (n & [= <-] & (x & Hx & [= Hp He])%HS).
    exists x. split; [done|]. apply bool_decide_eq_true, family_fact_exact in He; [|done].
    unfold build in He. rewrite He, Hp. constructor.
  - intros (x & Hx & Hc). destruct (bool_decide (f_name (build x) = gn_exact g)) eqn:E.
    + destruct (group_facts_set isExact build (gn_set g) l x (parse x).1 (parse x).2) as (S & HS & Hin).
      { done. } { unfold isExact. rewrite E. by destruct (parse x). }
      apply bool_decide_eq_true, family_fact_exact in E; [|done]. unfold build in E.
      rewrite E in Hc. apply fact_covers_exact_inv in Hc as [<- <-]; [|done].
      eexists. split; [done|]. apply cov_set. apply list_elem_of_fmap. eauto.
    + exists (build x). split; [by apply group_facts_single|done].
Qed.

(** ** Policies and rules decide by the family *)

Section deciding.
Context (F : list fact) (R : list rule) (g : grant_names) (s x y : string).
Hypothesis Hxy : NoDup [x; y; "set"; "prefix"; "suffix"].

(** The bodies of the six baseline policies (or rules) of a family. *)
Definition family_bodies : list (list element) := [
  [EPv s [x; y]; EPv (gn_exact g) [x; y]];
  [EPv s [x; y]; EPv (gn_set g) [x; "set"]; EE (EContains (var "set") (var y))];
  [EPv s [x; y]; EPv (gn_prefix g) [x; "prefix"]; EE (EStartsWith (var y) (var "prefix"))];
  [EPv s [x; y]; EPv (gn_suffix g) [x; "suffix"]; EE (EEndsWith (var y) (var "suffix"))];
  [EPv s [x; y]; EPv (gn_all g) [x]];
  [EPv s [x; y]; EP (Pred (gn_all_types g) [TTrue])] ].

(** The valuation that sets three variables. *)
Definition val3 (x y z : string) (u v w : value) : valuation :=
  λ a, if decide (a = x) then u else if decide (a = y) then v else w.

(** The set facts carry sets, so that [contains] is membership. *)
Hypothesis Hset : ∀ u v, derives F R (Fact (gn_set g) [u; v]) → ∃ l, v = VSet l.

Lemma family_bodies_sound ty nm σ body :
  body ∈ family_bodies →
  (∀ p, p ∈ preds body → derives F R (inst σ p)) → (∀ e, e ∈ exprs body → sat σ e) →
  σ x = VStr ty → σ y = VStr nm →
  ∃ f, derives F R f ∧ fact_covers g ty nm f.
Proof using Hset.
  unfold family_bodies, sat. rewrite <-!Forall_forall. intros Hin Hp He Hx Hy.
  repeat (apply elem_of_cons in Hin as [->|Hin]); [..|by apply not_elem_of_nil in Hin];
    simpl in Hp, He; rewrite ?Forall_cons in Hp; rewrite ?Forall_cons in He;
    destruct Hp as (_ & Hd & _); unfold inst in Hd; simpl in Hd, He; rewrite ?Hx, ?Hy in *.
  - eexists. split; [exact Hd|constructor].
  - destruct (Hset _ _ Hd) as [l Hl]. rewrite Hl in *. destruct He as [[= Hl'] _].
    eexists. split; [exact Hd|constructor]. by apply slices_Contains_true.
  - destruct He as [He _]. destruct (σ "prefix") as [[]|]; simplify_eq.
    eexists. split; [exact Hd|by constructor].
  - destruct He as [He _]. destruct (σ "suffix") as [[]|]; simplify_eq.
    eexists. split; [exact Hd|by constructor].
  - eexists. split; [exact Hd|constructor].
  - eexists. split; [exact Hd|constructor].
Qed.

Lemma family_bodies_complete ty nm f :
  derives F R (Fact s [VStr ty; VStr nm]) → derives F R f → fact_covers g ty nm f →
  ∃ body σ, body ∈ family_bodies ∧
    (∀ p, p ∈ preds body → derives F R (inst σ p)) ∧ (∀ e, e ∈ exprs body → sat σ e) ∧
    σ x = VStr ty ∧ σ y = VStr nm.
Proof using Hxy.
  intros Hs Hf Hc. rewrite !NoDup_cons, !not_elem_of_cons in Hxy. destruct_and?.
  setoid_rewrite <-Forall_forall.
  assert (Hx : ∀ w, val3 x y "set" (VStr ty) (VStr nm) w x = VStr ty)
    by (intros; unfold val3; by rewrite decide_True).
  assert (Hy : ∀ w, val3 x y "set" (VStr ty) (VStr nm) w y = VStr nm)
    by (intros; unfold val3; by rewrite decide_False, decide_True by congruence).
  assert (Hz : ∀ w z, x ≠ z → y ≠ z → val3 x y "set" (VStr ty) (VStr nm) w z = w)
    by (intros; unfold val3; by rewrite !decide_False by congruence).
  assert (Hbody : ∀ i body w,
    family_bodies !! i = Some body →
    Forall (λ p, derives F R (inst (val3 x y "set" (VStr ty) (VStr nm) w) p)) (preds body) →
    Forall (sat (val3 x y "set" (VStr ty) (VStr nm) w)) (exprs body) →
    ∃ body σ, body ∈ family_bodies ∧ Forall (λ p, derives F R (inst σ p)) (preds body) ∧
      Forall (sat σ) (exprs body) ∧ σ x = VStr ty ∧ σ y = VStr nm) by eauto 10 using list_elem_of_lookup_2.
  destruct Hc as [| |p Hp|p Hp| |l Hl];
    [eapply (Hbody 5 _ MarkerTerm eq_refl) | eapply (Hbody 4 _ MarkerTerm eq_refl)
    |eapply (Hbody 3 _ (VStr p) eq_refl) | eapply (Hbody 2 _ (VStr p) eq_refl)
    |eapply (Hbody 0 _ MarkerTerm eq_refl) | eapply (Hbody 1 _ (VSet l) eq_refl)];
    simpl; rewrite ?Forall_cons, ?Forall_nil; unfold inst, sat; simpl; rewrite ?Hx, ?Hy, ?Hz, ?Hp by done;
    try done.
  split; [|done]. do 3 f_equal. by apply slices_Contains_true.
Qed.

(** A query of the family holds exactly when a derived subject is covered by
    a derived grant. *)
Lemma family_bodies_iff :
  (∀ us, derives F R (Fact s us) → ∃ ty nm, us = [VStr ty; VStr nm]) →
  (∃ body, body ∈ family_bodies ∧ query_holds F R (mk_query body)) ↔
  ∃ ty nm f, derives F R (Fact s [VStr ty; VStr nm]) ∧ derives F R f ∧ fact_covers g ty nm f.
Proof using Hset Hxy.
  intros Hs. split.
  - intros (body & Hb & σ & Hp & He).
    assert (Hsub : inst σ (pv s [x; y]) = Fact s [σ x; σ y]) by done.
    assert (Hin : pv s [x; y] ∈ preds body).
    { unfold family_bodies in Hb. clear - Hb. unfold preds.
      repeat (apply elem_of_cons in Hb as [->|Hb]); [..|by apply not_elem_of_nil in Hb]; left. }
    pose proof (Hp _ Hin) as Hd. rewrite Hsub in Hd. destruct (Hs _ Hd) as (ty & nm & [= Hx Hy]).
    rewrite Hx, Hy in Hd. destruct (family_bodies_sound ty nm σ body) as (f & ? & ?); [done..|]. eauto 10.
  - intros (ty & nm & f & Hd & Hf & Hc).
    destruct (family_bodies_complete ty nm f Hd Hf Hc) as (body & σ & Hb & Hp & He & _).
    exists body. split; [done|]. exists σ. done.
Qed.
End deciding.

(** ** The baseline policies and rules *)

Lemma BaselinePolicies_family : BaselinePolicies = allow_if <$> family_bodies service_names FactService "type" "name".
Proof. done. Qed.
Lemma PublishPolicies_family : PublishPolicies = allow_if <$> family_bodies publish_names FactPublish "type" "name".
Proof. done. Qed.
Lemma BaselineRules_family :
  BaselineRules = mk_rule (pv FactAllowNetworkTarget ["fact"; "val"]) <$>
                  family_bodies target_names FactTargetFact "fact" "val".
Proof. done. Qed.

(** The subjects of a world are pairs of strings, its set grants are sets. *)
Record family_world (F : list fact) (R : list rule) (g : grant_names) (s : string) : Prop := {
  fw_subject us : derives F R (Fact s us) → ∃ ty nm, us = [VStr ty; VStr nm];
  fw_set u v : derives F R (Fact (gn_set g) [u; v]) → ∃ l, v = VSet l;
}.

Lemma family_policies_iff F R g s :
  family_world F R g s →
  (∃ p, p ∈ allow_if <$> family_bodies g s "type" "name" ∧ policy_holds F R p) ↔
  ∃ ty nm f, derives F R (Fact s [VStr ty; VStr nm]) ∧ derives F R f ∧ fact_covers g ty nm f.
Proof.
  intros [Hs Hset].
  assert (Hnd : NoDup ["type"; "name"; "set"; "prefix"; "suffix"]) by (by apply (bool_decide_unpack _)).
  rewrite <-(family_bodies_iff F R g s "type" "name" Hnd Hset Hs). split.
  - intros (p & (body & -> & Hb)%list_elem_of_fmap & q & ->%list_elem_of_singleton & Hq). eauto.
  - intros (body & Hb & Hq). exists (allow_if body). split; [by apply list_elem_of_fmap_2|].
    exists (mk_query body). split; [by left|done].
Qed.

(** The target rules derive [allow_network_target] for exactly the target
    facts that a derived target grant covers. *)
Lemma target_rules_iff F R ty nm :
  family_world F R target_names FactTargetFact →
  BaselineRules ⊆ R → FactAllowNetworkTarget ∉ (f_name <$> F) →
  (∀ r, r ∈ R → p_name (r_head r) = FactAllowNetworkTarget → r ∈ BaselineRules) →
  derives F R (Fact FactAllowNetworkTarget [VStr ty; VStr nm]) ↔
  derives F R (Fact FactTargetFact [VStr ty; VStr nm]) ∧
  ∃ f, derives F R f ∧ fact_covers target_names ty nm f.
Proof.
  intros [Hs Hset] HR HF Honly. rewrite BaselineRules_family in HR, Honly.
  assert (Hnd : NoDup ["fact"; "val"; "set"; "prefix"; "suffix"]) by (by apply (bool_decide_unpack _)).
  split.
  - intros Hder. remember (Fact FactAllowNetworkTarget [VStr ty; VStr nm]) as f0 eqn:Heq.
    destruct Hder as [f Hf|r σ Hr Hb He]; [subst f|].
    { destruct HF. apply list_elem_of_fmap. by exists (Fact FactAllowNetworkTarget [VStr ty; VStr nm]). }
    assert (Hn : p_name (r_head r) = FactAllowNetworkTarget) by (by apply (f_equal f_name) in Heq).
    destruct (list_elem_of_fmap_1 _ _ _ (Honly r Hr Hn)) as (body & -> & Hbody).
    injection Heq as Hx Hy. simpl in Hb, He. split.
    + rewrite <-Hx, <-Hy. apply (Hb (pv FactTargetFact ["fact"; "val"])).
      unfold family_bodies in Hbody.
      repeat (apply elem_of_cons in Hbody as [->|Hbody]); [..|by apply not_elem_of_nil in Hbody]; left.
    + by apply (family_bodies_sound F R target_names FactTargetFact "fact" "val" Hset ty nm σ body).
  - intros [Hd (f & Hf & Hc)].
    destruct (family_bodies_complete F R target_names FactTargetFact "fact" "val" Hnd ty nm f Hd Hf Hc)
      as (body & σ & Hb & Hp & He & Hx & Hy).
    replace (Fact FactAllowNetworkTarget [VStr ty; VStr nm])
      with (inst σ (r_head (mk_rule (pv FactAllowNetworkTarget ["fact"; "val"]) body)))
      by (unfold inst; simpl; by rewrite Hx, Hy).
    apply derives_rule; [|done..]. by apply HR, list_elem_of_fmap_2.
Qed.

(** ** What the facts of a role's patterns cover *)

Lemma BuildServiceDatalogFacts_family l :
  BuildServiceDatalogFacts l =
  let build x := family_fact service_names (ParseServiceTarget x).1 (ParseServiceTarget x).2 in
  group_facts (λ x, (ParseServiceTarget x, bool_decide (f_name (build x) = gn_exact service_names)))
    build (gn_set service_names) l.
Proof.
  apply group_facts_ext; intros x; unfold isExactService;
    rewrite ?BuildServiceDatalogFact_family; by destruct (ParseServiceTarget x).
Qed.

Lemma BuildTargetDatalogFacts_family l :
  BuildTargetDatalogFacts l =
  let build x := family_fact target_names (parse_target x).1 (parse_target x).2 in
  group_facts (λ x, (parse_target x, bool_decide (f_name (build x) = gn_exact target_names)))
    build (gn_set target_names) l.
Proof.
  apply group_facts_ext; intros x; unfold isExactTarget;
    rewrite ?BuildTargetDatalogFact_family; by destruct (parse_target x).
Qed.

Lemma BuildServiceDatalogFacts_covers services ty nm :
  (∃ f, f ∈ BuildServiceDatalogFacts services ∧ fact_covers service_names ty nm f) ↔
  ∃ p, p ∈ services ∧ service_covers p ty nm = true.
Proof.
  rewrite BuildServiceDatalogFacts_family, group_facts_covers by auto with mesh.
  apply exist_proper. intros p. unfold service_covers. by destruct (ParseServiceTarget p).
Qed.

Lemma BuildTargetDatalogFacts_covers targets ty nm :
  (∃ f, f ∈ BuildTargetDatalogFacts targets ∧ fact_covers target_names ty nm f) ↔
  ∃ p, p ∈ targets ∧ target_covers p ty nm = true.
Proof.
  rewrite BuildTargetDatalogFacts_family, group_facts_covers by auto with mesh.
  apply exist_proper. intros p. unfold target_covers. by destruct (parse_target p).
Qed.

(** A fact of a family is one of its six shapes. *)
Inductive family_shape (g : grant_names) : fact → Prop :=
| shape_all_types : family_shape g (MarkerFact (gn_all_types g))
| shape_all t : family_shape g (Fact (gn_all g) [VStr t])
| shape_suffix t n : family_shape g (Fact (gn_suffix g) [VStr t; VStr n])
| shape_prefix t n : family_shape g (Fact (gn_prefix g) [VStr t; VStr n])
| shape_exact t n : family_shape g (Fact (gn_exact g) [VStr t; VStr n])
| shape_set t (S : list string) : family_shape g (Fact (gn_set g) [VStr t; VSet (AStr <$> S)]).
#[export] Hint Constructors family_shape fact_covers : mesh.

Lemma family_fact_shape g t n : family_shape g (family_fact g t n).
Proof. unfold family_fact. repeat case_match; auto with mesh. Qed.
#[export] Hint Resolve family_fact_shape : mesh.

Lemma group_facts_shape g parse isExact l f :
  f ∈ group_facts isExact (λ x, family_fact g (parse x).1 (parse x).2) (gn_set g) l → family_shape g f.
Proof. intros [(x & _ & _ & ->)|(t & S & -> & _)]%group_facts_inv; auto with mesh. Qed.

Lemma BuildServiceDatalogFacts_shape l f : f ∈ BuildServiceDatalogFacts l → family_shape service_names f.
Proof. rewrite BuildServiceDatalogFacts_family. apply group_facts_shape. Qed.

Lemma BuildTargetDatalogFacts_shape l f : f ∈ BuildTargetDatalogFacts l → family_shape target_names f.
Proof. rewrite BuildTargetDatalogFacts_family. apply group_facts_shape. Qed.

(** Publish facts are the service facts under the publish names. *)
Lemma rename_shape f : family_shape service_names f → family_shape publish_names (rename_fact f).
Proof. by destruct 1; repeat constructor. Qed.

Lemma rename_covers f ty nm :
  family_shape service_names f →
  fact_covers publish_names ty nm (rename_fact f) ↔ fact_covers service_names ty nm f.
Proof.
  intros Hs; split; destruct Hs; unfold rename_fact; simpl; intros H;
    vm_compute in H; inversion H; subst; constructor; done.
Qed.

Lemma BuildPublishDatalogFacts_shape l f : f ∈ BuildPublishDatalogFacts l → family_shape publish_names f.
Proof. intros (f' & -> & Hf)%list_elem_of_fmap. by eapply rename_shape, BuildServiceDatalogFacts_shape. Qed.

Lemma BuildPublishDatalogFacts_covers services ty nm :
  (∃ f, f ∈ BuildPublishDatalogFacts services ∧ fact_covers publish_names ty nm f) ↔
  ∃ p, p ∈ services ∧ service_covers p ty nm = true.
Proof.
  rewrite <-BuildServiceDatalogFacts_covers. split.
  - intros (f & (f' & -> & Hf)%list_elem_of_fmap & Hc). exists f'. split; [done|].
    apply rename_covers; eauto using BuildServiceDatalogFacts_shape.
  - intros (f & Hf & Hc). exists (rename_fact f). split; [by apply list_elem_of_fmap_2|].
    apply rename_covers; eauto using BuildServiceDatalogFacts_shape.
Qed.

(** ** Decisions *)

(** Facts and rules that do not interfere with a family: they neither assert
    nor derive its grants or its subject. *)
Definition foreign (g : grant_names) (s : string) (rest : list fact) (R : list rule) : Prop :=
  (∀ f, f ∈ rest → f_name f ∉ s :: gn_list g) ∧
  (∀ r, r ∈ R → p_name (r_head r) ∉ s :: gn_list g).

Lemma family_shape_name g f : family_shape g f → f_name f ∈ gn_list g.
Proof. unfold gn_list. destruct 1; simpl; set_solver. Qed.

Lemma fact_covers_name g ty nm f : fact_covers g ty nm f → f_name f ∈ gn_list g.
Proof. unfold gn_list. destruct 1; simpl; set_solver. Qed.

Section decision.
Context (g : grant_names) (s : string) (G rest : list fact) (R : list rule) (ty nm : string).
Hypothesis Hfor : foreign g s rest R.
Hypothesis HG : ∀ f, f ∈ G → family_shape g f.
Hypothesis Hs : s ∉ gn_list g.
Hypothesis Hd : gn_distinct g.

Let F : list fact := Fact s [VStr ty; VStr nm] :: G ++ rest.

Lemma foreign_derives f :
  f_name f ∈ s :: gn_list g → derives F R f → f = Fact s [VStr ty; VStr nm] ∨ f ∈ G.
Proof using Hfor.
  intros Hn Hf. apply derives_no_rule in Hf.
  - unfold F in Hf. apply elem_of_cons in Hf as [->|[Hf|Hf]%elem_of_app]; [by left|by right|].
    by destruct (proj1 Hfor f Hf).
  - intros r Hr Heq. apply (proj2 Hfor r Hr). by rewrite Heq.
Qed.

Lemma foreign_world : family_world F R g s.
Proof using Hfor HG Hs Hd.
  split.
  - intros us [[= ->]|Hf]%foreign_derives; [eauto| |by left].
    destruct Hs. apply HG, family_shape_name in Hf. done.
  - intros u v [[= Hn _ _]|Hf]%foreign_derives; [| |right; unfold gn_list; set_solver].
    { destruct Hs. rewrite <-Hn. unfold gn_list. set_solver. }
    apply HG in Hf. clear - Hf Hd. destruct g as [a b c d e f]. unfold gn_distinct, gn_list in Hd.
    simpl in *. rewrite !NoDup_cons, !not_elem_of_cons in Hd. destruct_and?.
    inversion Hf; subst; try congruence. eauto.
Qed.

Lemma foreign_grants :
  (∃ ty' nm' f, derives F R (Fact s [VStr ty'; VStr nm']) ∧ derives F R f ∧ fact_covers g ty' nm' f) ↔
  ∃ f, f ∈ G ∧ fact_covers g ty nm f.
Proof using Hfor HG Hs.
  split.
  - intros (ty' & nm' & f & Hsub & Hf & Hc).
    apply foreign_derives in Hsub as [[= -> ->]|Hsub]; [| |by left].
    2: { destruct Hs. by apply HG, family_shape_name in Hsub. }
    pose proof (fact_covers_name _ _ _ _ Hc) as Hn.
    apply foreign_derives in Hf as [->|Hf]; [by destruct Hs|by eauto|by right].
  - intros (f & Hf & Hc). exists ty, nm, f. split_and!; [|apply derives_fact|done].
    + apply derives_fact. by left.
    + unfold F. right. apply elem_of_app. by left.
Qed.

Lemma foreign_decision `{BiscuitEngine} :
  let w := World F R [] (allow_if <$> family_bodies g s "type" "name") in
  authorize w ≠ ErrRun →
  authorize w = Success ↔ ∃ f, f ∈ G ∧ fact_covers g ty nm f.
Proof using Hfor HG Hs Hd.
  intros w Hrun. rewrite authorize_allow_only; [|intros p (b & -> & _)%list_elem_of_fmap; done|done].
  unfold w. simpl w_facts. simpl w_rules. simpl w_policies.
  rewrite (family_policies_iff F R g s foreign_world), foreign_grants.
  split; [by intros [_ ?]|]. split; [|done]. intros c Hc. by apply not_elem_of_nil in Hc.
Qed.
End decision.

(** A completed run over a member's publish grants accepts a service exactly
    when one of the [allowed_publish] patterns covers it, whatever unrelated
    facts and rules the credential carries. *)
Theorem publish_decision `{BiscuitEngine} allowed rest R ty nm :
  foreign publish_names FactPublish rest R →
  let w := World (PublishFact ty nm :: BuildPublishDatalogFacts allowed ++ rest) R [] PublishPolicies in
  authorize w ≠ ErrRun →
  authorize w = Success ↔ ∃ p, p ∈ allowed ∧ service_covers p ty nm = true.
Proof.
  intros Hf w Hrun. rewrite <-BuildPublishDatalogFacts_covers. unfold w, PublishFact in *.
  rewrite PublishPolicies_family in *.
  apply foreign_decision; eauto using BuildPublishDatalogFacts_shape with mesh.
  by apply (bool_decide_unpack _).
Qed.

(** A completed run over a caller's service grants accepts a service exactly
    when one of the [allowed_services] patterns covers it: grouping the exact
    patterns into sets neither adds nor loses a grant, whatever unrelated facts
    and rules the credential carries. *)
Theorem service_decision `{BiscuitEngine} allowed rest R ty nm :
  foreign service_names FactService rest R →
  let w := World (Fact FactService [VStr ty; VStr nm] :: BuildServiceDatalogFacts allowed ++ rest) R []
             BaselinePolicies in
  authorize w ≠ ErrRun →
  authorize w = Success ↔ ∃ p, p ∈ allowed ∧ service_covers p ty nm = true.
Proof.
  intros Hf w Hrun. rewrite <-BuildServiceDatalogFacts_covers. unfold w in *.
  rewrite BaselinePolicies_family in *.
  apply foreign_decision; eauto using BuildServiceDatalogFacts_shape with mesh.
  by apply (bool_decide_unpack _).
Qed.

Definition allowed_example : list string := ["mcp://calc"; "mcp://db"; "a2a://*.corp"; "inference://*"].

Lemma publish_decision_witness :
  authorize (BiscuitEngine := naive_engine)
    (World (PublishFact "a2a" "x.corp" :: BuildPublishDatalogFacts allowed_example ++ [Fact FactRole [VStr "r"]])
       [] [] PublishPolicies) = Success.
Proof.
  apply (@publish_decision naive_engine).
  - split; [|by intros r ?%not_elem_of_nil]. intros f ->%list_elem_of_singleton. by apply (bool_decide_unpack _).
  - by vm_compute.
  - exists "a2a://*.corp". split; [unfold allowed_example; set_solver|by vm_compute].
Defined.

Lemma service_decision_witness :
  authorize (BiscuitEngine := naive_engine)
    (World (Fact FactService [VStr "mcp"; VStr "db"] :: BuildServiceDatalogFacts allowed_example ++ [])
       [] [] BaselinePolicies) = Success.
Proof.
  apply (@service_decision naive_engine).
  - split; [by intros f ?%not_elem_of_nil|by intros r ?%not_elem_of_nil].
  - by vm_compute.
  - exists "mcp://db". split; [unfold allowed_example; set_solver|by vm_compute].
Defined.

Lemma parse_star_target val : HasPrefix val "//" = false → parse_target (String "*" (String ":" val)) = ("*", val).
Proof.
  intros Hp. unfold parse_target, ParseServiceTarget. rewrite bool_decide_false by done.
  assert (Hs : SplitN2 (String "*" (String ":" val)) ":" = ["*"; val]).
  { apply SplitN2_pair. split; [done|]. by apply (bool_decide_unpack _). }
  rewrite Hs. destruct (Index (String "*" (String ":" val)) "://") as [idx|] eqn:Ei; [|done].
  assert (Hc : Contains (str_take idx (String "*" (String ":" val))) ":" = true); [|by rewrite Hc].
  apply Contains_char. destruct idx as [|[|idx]]; [| |right; left].
  all: exfalso; cbn [Index] in Ei; change (HasPrefix (String "*" (String ":" val)) "://") with false in Ei;
    change (HasPrefix (String ":" val) "://") with (HasPrefix val "//") in Ei; rewrite Hp in Ei;
    by destruct (Index val "://").
Qed.

(** A target "*:value" passes validation, as its comment says it would match
    every target fact, but the grant it becomes covers no target fact the
    rules can derive: only "*:*" is granted for every fact name. *)
Theorem star_target_grants_nothing val name v :
  ValidateTargetFormat (String "*" (String ":" val)) = Ok tt → val ≠ "*" → HasPrefix val "//" = false →
  name ∈ TargetFactNames → target_covers (String "*" (String ":" val)) name v = false.
Proof.
  intros _ Hne Hp Hn. unfold target_covers. rewrite parse_star_target by done. unfold pattern_covers.
  rewrite (bool_decide_false (val = "*")) by done.
  rewrite (bool_decide_false ("*" = name)); [done|]. intros <-.
  apply (bool_decide_pack _) in Hn. by vm_compute in Hn.
Qed.

Lemma star_target_grants_nothing_witness :
  ValidateTargetFormat "*:backend" = Ok tt ∧ target_covers "*:backend" "group" "backend" = false.
Proof.
  split; [by vm_compute|]. apply (star_target_grants_nothing "backend" "group" "backend").
  - by vm_compute.
  - done.
  - done.
  - apply (bool_decide_unpack _). by vm_compute.
Defined.
