(* ===== verification/Labels.v ===== *)
(** * Labels

    Validation and matching of node labels ([src/api/labels.go]), the label
    facts and requirements of [src/api/datalog.go], and the parser of the
    required-labels header ([src/internal/node/labels_gate.go]). *)

From S2P Require Import Prelude GoStrings Regex Names Biscuit NaiveEngine Facts DatalogText.

(** ** Validation *)

Definition label_char (c : ascii) : bool := is_alnum c || one_of "_.-" c.

(** [^[a-zA-Z0-9_.-]{1,63}$] *)
Definition labelKeySyntax : regex := RSeq (RClass label_char) (RUpTo label_char 62).

Definition maxLabelValueLen : nat := 255.
Definition MaxNodeLabels : nat := 64.

Definition ValidateLabelKey (key : string) : result unit :=
  fail_if (negb (matchb labelKeySyntax key)) "invalid label key: must be 1-63 chars of [a-zA-Z0-9_.-]".

(** The separators of the wire format, and the line breaks and the tab. *)
Definition label_separators : string :=
  ",=" +:+ str1 "010"%char +:+ str1 "013"%char +:+ str1 "009"%char.

Definition ValidateLabelValue (value : string) : result unit :=
  fail_if (bool_decide (value = "")) "label value must not be empty";;
  fail_if (bool_decide (maxLabelValueLen < len value)) "label value exceeds 255 characters";;
  fail_if (ContainsAny value label_separators) "label value must not contain ',', '=', or control characters";;
  wrap_err "label value" (validateBindingMemberCharset value).

Definition ValidateLabels (labels : gmap string string) : result unit :=
  if bool_decide (size labels = 0) then Ok tt
  else
    fail_if (bool_decide (MaxNodeLabels < size labels)) "too many labels";;
    for_each (λ k, ValidateLabelKey k;; ValidateLabelValue (map_get labels k)) (sorted_keys labels).

(** ** Flags *)

(** The loop of [ParseLabelFlags]; a later flag overwrites an earlier one. *)
Fixpoint parse_flags (labels : gmap string string) (raw : list string) : result (gmap string string) :=
  match raw with
  | [] => Ok labels
  | l :: raw =>
      let '(key, value, found) := Cut l "=" in
      if found then parse_flags (<[TrimSpace key := TrimSpace value]> labels) raw
      else fail "label is not key=value"
  end.

Definition ParseLabelFlags (raw : list string) : result (gmap string string) :=
  if bool_decide (length raw = 0) then Ok ∅
  else
    labels ← parse_flags ∅ raw;
    ValidateLabels labels;;
    Ok labels.

(** ** A role's allowed labels *)

Definition ValidateLabelPattern (pattern : string) : result unit :=
  if bool_decide (pattern = "*") then Ok tt
  else
    let '(key, value, found) := Cut pattern "=" in
    fail_if (negb found) "invalid allowed_label: must be *, key=* or key=value";;
    wrap_err "invalid allowed_label" (ValidateLabelKey key);;
    if bool_decide (value = "*") then Ok tt
    else wrap_err "invalid allowed_label" (ValidateLabelValue value).

Fixpoint labelAllowed (patterns : list string) (key value : string) : bool :=
  match patterns with
  | [] => false
  | p :: patterns =>
      if bool_decide (p = "*") then true
      else
        let '(pKey, pValue, found) := Cut p "=" in
        if negb found || negb (bool_decide (pKey = key)) then labelAllowed patterns key value
        else if bool_decide (pValue = "*") || bool_decide (pValue = value) then true
        else labelAllowed patterns key value
  end.

Definition LabelPatternsAllow (patterns : list string) (labels : gmap string string) : result unit :=
  if bool_decide (size labels = 0) then Ok tt
  else
    for_each (λ key, fail_if (negb (labelAllowed patterns key (map_get labels key)))
                       "label is not permitted by this identity's roles") (sorted_keys labels).

(** ** Facts and requirements *)

Definition LabelFacts (labels : gmap string string) : list fact :=
  if bool_decide (size labels = 0) then []
  else (λ k, Fact FactLabel [VStr k; VStr (map_get labels k)]) <$> sorted_keys labels.

(** One clause of a requirement, as text. *)
Definition label_clause `{UnicodePrint} (required : gmap string string) (k : string) : result string :=
  ValidateLabelKey k;;
  ValidateLabelValue (map_get required k);;
  Ok (FactLabel +:+ "(" +:+ strconv_Quote k +:+ ", " +:+ strconv_Quote (map_get required k) +:+ ")").

Definition LabelCheck `{BiscuitText, UnicodePrint} (required : gmap string string) : result check :=
  fail_if (bool_decide (size required = 0)) "no required labels";;
  clauses ← collect (label_clause required) (sorted_keys required);
  FromStringCheck ("check if " +:+ Join clauses ", ").

(** The check a requirement means: one predicate per pair. *)
Definition label_elements (required : gmap string string) : list element :=
  (λ k, EP (Pred FactLabel [TVal (VStr k); TVal (VStr (map_get required k))])) <$> sorted_keys required.
Definition label_check (required : gmap string string) : check := Check [mk_query (label_elements required)].

Definition LabelsSatisfy (required claimed : gmap string string) : bool :=
  forallb (λ '(k, v), bool_decide (map_get claimed k = v)) (map_to_list required).

Definition LabelsContradict (required claimed : gmap string string) : bool :=
  existsb (λ '(k, v), match claimed !! k with
                      | Some got => negb (bool_decide (got = v))
                      | None => false
                      end) (map_to_list required).

(** ** The required-labels header *)

(** The loop over the comma-separated parts. *)
Fixpoint parse_required (out : gmap string string) (parts : list string) : result (gmap string string) :=
  match parts with
  | [] => Ok out
  | part :: parts =>
      let part := TrimSpace part in
      if bool_decide (part = "") then parse_required out parts
      else
        let '(k, v, ok) := Cut part "=" in
        fail_if (negb ok) "invalid label: expected key=value";;
        let k := TrimSpace k in
        let v := TrimSpace v in
        ValidateLabelKey k;;
        ValidateLabelValue v;;
        fail_if (bool_decide (is_Some (out !! k))) "duplicate label key";;
        parse_required (<[k := v]> out) parts
  end.

Definition parseRequiredLabels (h : string) : result (gmap string string) :=
  if bool_decide (TrimSpace h = "") then Ok ∅
  else
    out ← parse_required ∅ (Split h ",");
    fail_if (bool_decide (size out = 0)) "invalid required labels: expected at least one key=value pair";;
    Ok out.

(** ** What validation guarantees *)

Lemma ValidateLabelKey_Ok k :
  ValidateLabelKey k = Ok tt ↔ 1 ≤ len k ≤ 63 ∧ str_forallb label_char k = true.
Proof.
  unfold ValidateLabelKey. rewrite fail_if_Ok, negb_false_iff, matchb_spec. unfold labelKeySyntax.
  rewrite re_match_seq. setoid_rewrite re_match_class. setoid_rewrite re_match_upto. split.
  - intros (s1 & s2 & -> & (c & -> & Hc) & Hl & Hs). rewrite len_app, str_forallb_app. simpl.
    rewrite Hc, Hs. simpl. split; [lia|done].
  - intros [Hl Hs]. destruct k as [|c k]; simpl in Hl; [lia|]. simpl in Hs. apply andb_prop in Hs as [Hc Hs].
    exists (str1 c), k. split_and!; [done|eauto|lia|done].
Qed.

Lemma label_char_false c : label_char c = true → c ∉ chars "=|#,@/:".
Proof.
  intros Hc Hin. unfold chars in Hin. simpl in Hin. rewrite !elem_of_cons, elem_of_nil in Hin.
  intuition (subst; done).
Qed.

Lemma label_key_no c k : ValidateLabelKey k = Ok tt → c ∈ chars "=|#,@/:" → c ∉ chars k.
Proof.
  rewrite ValidateLabelKey_Ok, str_forallb_spec. intros [_ Hk] Hc Hin. by apply (label_char_false c (Hk c Hin)).
Qed.

Lemma ValidateLabelValue_Ok v :
  ValidateLabelValue v = Ok tt ↔
  1 ≤ len v ≤ 255 ∧ ContainsAny v label_separators = false ∧ validateBindingMemberCharset v = Ok tt.
Proof.
  unfold ValidateLabelValue. rewrite !bind_unit_Ok, !fail_if_Ok, wrap_err_Ok, !bool_decide_eq_false.
  unfold maxLabelValueLen. rewrite <-len_zero. intuition lia.
Qed.

Lemma ValidateLabelValue_not_empty v : ValidateLabelValue v = Ok tt → v ≠ "".
Proof. rewrite ValidateLabelValue_Ok. intros [Hl _] ->. simpl in Hl. lia. Qed.

Lemma label_value_no c v : ValidateLabelValue v = Ok tt → c ∈ chars ",=" → c ∉ chars v.
Proof.
  rewrite ValidateLabelValue_Ok. intros (_ & Hs & _) Hc Hin. rewrite ContainsAny_false in Hs.
  apply (Hs c Hin). unfold label_separators. rewrite chars_app, elem_of_app. by left.
Qed.

Lemma map_get_lookup (m : gmap string string) k v : m !! k = Some v → map_get m k = v.
Proof. unfold map_get. by intros ->. Qed.

(** Accepted label sets are exactly the small ones whose keys and values are
    well-formed. *)
Lemma ValidateLabels_iff labels :
  ValidateLabels labels = Ok tt ↔
  size labels ≤ MaxNodeLabels ∧
  ∀ k v, labels !! k = Some v → ValidateLabelKey k = Ok tt ∧ ValidateLabelValue v = Ok tt.
Proof.
  unfold ValidateLabels. case_bool_decide as Hs.
  - apply map_size_empty_iff in Hs as ->. split; [|done]. intros _. rewrite map_size_empty. split; [unfold MaxNodeLabels; lia|].
    intros k v H. by rewrite lookup_empty in H.
  - rewrite bind_unit_Ok, fail_if_Ok, for_each_Ok, bool_decide_eq_false, Forall_forall.
    rewrite Nat.nlt_ge. apply and_iff_compat_l. split.
    + intros H k v Hk. specialize (H k). rewrite bind_unit_Ok, (map_get_lookup _ _ _ Hk) in H.
      apply H. apply elem_of_sorted_keys. eauto.
    + intros H k Hk. apply elem_of_sorted_keys in Hk as [v Hk]. rewrite bind_unit_Ok.
      rewrite (map_get_lookup _ _ _ Hk). by apply H.
Qed.

Lemma ParseLabelFlags_valid raw labels : ParseLabelFlags raw = Ok labels → ValidateLabels labels = Ok tt.
Proof. unfold ParseLabelFlags. case_bool_decide; intros H'; inv_ok; done. Qed.

(** ** Allowed labels *)

(** The label [key=value] is covered by one of the three pattern forms. *)
Definition label_covered (p key value : string) : Prop :=
  p = "*" ∨ p = key +:+ "=*" ∨ p = key +:+ "=" +:+ value.

Lemma labelAllowed_iff patterns key value :
  "="%char ∉ chars key →
  labelAllowed patterns key value = true ↔ ∃ p, p ∈ patterns ∧ label_covered p key value.
Proof.
  intros Hk. unfold label_covered. induction patterns as [|p ps IH]; simpl.
  { split; [done|]. by intros (p & ?%not_elem_of_nil & _). }
  setoid_rewrite elem_of_cons. case_bool_decide as Hp; [split; [|done]; eauto|].
  destruct (Cut p "=") as [[pk pv] []] eqn:Ec; simpl.
  - apply Cut_char_inv in Ec as [-> Hpk].
    assert (Heq : ∀ v, pk +:+ String "=" pv = key +:+ "=" +:+ v ↔ pk = key ∧ pv = v).
    { intros v. split; [|by intros [-> ->]]. intros He.
      pose proof (Cut_char pk "=" Hpk pv) as C1. rewrite He in C1.
      rewrite (Cut_char key "=" Hk v : Cut (key +:+ "=" +:+ v) "=" = _) in C1. by simplify_eq. }
    change (key +:+ "=*") with (key +:+ "=" +:+ "*").
    case_bool_decide as Hpk'; simpl; [subst pk|].
    + case_bool_decide as Hv1; [subst; split; [intros _|done]; eexists; split; [by left|]; right; by left|].
      case_bool_decide as Hv2; [subst; split; [intros _|done]; eexists; split; [by left|]; right; by right|].
      simpl. rewrite IH. split; [naive_solver|]. intros (q & [->|Hq] & Hc); [|eauto].
      rewrite !Heq in Hc. naive_solver.
    + rewrite IH. split; [naive_solver|]. intros (q & [->|Hq] & Hc); [|eauto].
      rewrite !Heq in Hc. naive_solver.
  - apply Cut_not_found in Ec as (_ & _ & Hn). rewrite IH. split; [naive_solver|].
    assert (Hno : ∀ v, p ≠ key +:+ "=" +:+ v).
    { intros v ->. assert (Contains (key +:+ "=" +:+ v) "=" = true) by (apply Contains_spec; eauto). congruence. }
    intros (q & [->|Hq] & Hc); [|eauto]. destruct Hc as [?|[Hc|Hc]]; [done|by destruct (Hno "*")|by destruct (Hno value)].
Qed.

Lemma LabelPatternsAllow_iff patterns labels :
  LabelPatternsAllow patterns labels = Ok tt ↔
  ∀ k v, labels !! k = Some v → labelAllowed patterns k v = true.
Proof.
  unfold LabelPatternsAllow. case_bool_decide as Hs.
  - apply map_size_empty_iff in Hs as ->. split; [|done]. intros _ k v Hk. by rewrite lookup_empty in Hk.
  - rewrite for_each_Ok, Forall_forall. split.
    + intros H k v Hk. specialize (H k). rewrite fail_if_Ok, (map_get_lookup _ _ _ Hk), negb_false_iff in H.
      apply H, elem_of_sorted_keys. eauto.
    + intros H k [v Hk]%elem_of_sorted_keys. by rewrite fail_if_Ok, (map_get_lookup _ _ _ Hk), (H k v Hk).
Qed.

(** ** Requirements *)

Lemma LabelsSatisfy_iff required claimed :
  (∀ k v, required !! k = Some v → v ≠ "") →
  LabelsSatisfy required claimed = true ↔ required ⊆ claimed.
Proof.
  intros Hne. unfold LabelsSatisfy. rewrite forallb_True, map_subseteq_spec. split.
  - intros H k v Hk. specialize (H (k, v)). simpl in H. rewrite elem_of_map_to_list, bool_decide_eq_true in H.
    specialize (H Hk). unfold map_get in H. destruct (claimed !! k); simpl in H; [by subst|].
    by destruct (Hne k v Hk).
  - intros H [k v] Hk%elem_of_map_to_list. apply bool_decide_eq_true, map_get_lookup. by apply H.
Qed.

Lemma LabelsContradict_iff required claimed :
  LabelsContradict required claimed = true ↔
  ∃ k v got, required !! k = Some v ∧ claimed !! k = Some got ∧ got ≠ v.
Proof.
  unfold LabelsContradict. rewrite existsb_True. split.
  - intros ([k v] & Hk%elem_of_map_to_list & Hc). destruct (claimed !! k) as [got|] eqn:Eg; [|done].
    bool_split. eauto 10.
  - intros (k & v & got & Hk & Hg & Hne). exists (k, v). rewrite elem_of_map_to_list, Hg, bool_decide_false by done. done.
Qed.

Lemma elem_of_LabelFacts labels f :
  f ∈ LabelFacts labels ↔ ∃ k v, labels !! k = Some v ∧ f = Fact FactLabel [VStr k; VStr v].
Proof.
  unfold LabelFacts. case_bool_decide as Hs.
  - apply map_size_empty_iff in Hs as ->. rewrite elem_of_nil. split; [done|].
    intros (k & v & Hk & _). by rewrite lookup_empty in Hk.
  - rewrite list_elem_of_fmap. setoid_rewrite elem_of_sorted_keys. split.
    + intros (k & -> & v & Hk). exists k, v. by rewrite (map_get_lookup _ _ _ Hk).
    + intros (k & v & Hk & ->). exists k. rewrite (map_get_lookup _ _ _ Hk). eauto.
Qed.

(** The label check holds of a world exactly when every required pair is a
    derived label. *)
Lemma label_check_holds F R required :
  check_holds F R (label_check required) ↔
  ∀ k v, required !! k = Some v → derives F R (Fact FactLabel [VStr k; VStr v]).
Proof.
  unfold check_holds, label_check. simpl. split.
  - intros (q & ->%list_elem_of_singleton & σ & Hb & _) k v Hk.
    specialize (Hb (Pred FactLabel [TVal (VStr k); TVal (VStr v)])). apply Hb. simpl.
    unfold preds, label_elements. rewrite list_elem_of_omap. eexists (EP _). split; [|done].
    apply list_elem_of_fmap. exists k. rewrite (map_get_lookup _ _ _ Hk).
    split; [done|]. apply elem_of_sorted_keys. eauto.
  - intros H. eexists. split; [by left|]. exists (λ _, MarkerTerm). split.
    + intros p Hp. simpl in Hp. unfold preds, label_elements in Hp.
      apply list_elem_of_omap in Hp as (el & (k & -> & Hk)%list_elem_of_fmap & [= <-]).
      apply elem_of_sorted_keys in Hk as [v Hk]. unfold inst. simpl. rewrite (map_get_lookup _ _ _ Hk). by apply H.
    + intros e He. simpl in He. unfold exprs, label_elements in He.
      by apply list_elem_of_omap in He as (el & (k & -> & Hk)%list_elem_of_fmap & [=]).
Qed.

Lemma label_char_printable c : label_char c = true → printable_char c = true.
Proof. destruct c as [[] [] [] [] [] [] [] []]; vm_compute; done. Qed.

Lemma label_key_printable k : ValidateLabelKey k = Ok tt → printable k = true.
Proof.
  rewrite ValidateLabelKey_Ok. unfold printable. rewrite !str_forallb_spec. intros [_ H] c Hc.
  by apply label_char_printable, H.
Qed.

Lemma label_clause_Ok `{UnicodePrint} required k v :
  required !! k = Some v → ValidateLabelKey k = Ok tt → ValidateLabelValue v = Ok tt → printable v = true →
  label_clause required k =
  Ok (show_element (EP (Pred FactLabel [TVal (VStr k); TVal (VStr (map_get required k))]))).
Proof.
  intros Hk Hkey Hval Hp. unfold label_clause. rewrite (map_get_lookup _ _ _ Hk), Hkey, Hval. simpl.
  rewrite !strconv_Quote_printable by eauto using label_key_printable.
  change (show_predicate _) with
    (FactLabel +:+ "(" +:+ (quoted k +:+ ", " +:+ quoted v) +:+ ")"). by rewrite !app_assoc.
Qed.

(** A requirement whose labels are valid and printed without escapes compiles
    to its meaning, whatever parser is used. *)
Lemma LabelCheck_Ok `{BiscuitText, UnicodePrint} required :
  required ≠ ∅ →
  (∀ k v, required !! k = Some v →
     ValidateLabelKey k = Ok tt ∧ ValidateLabelValue v = Ok tt ∧ printable v = true) →
  LabelCheck required = Ok (label_check required).
Proof.
  intros Hne Hv. unfold LabelCheck. rewrite bool_decide_false by (by rewrite map_size_empty_iff). simpl.
  assert (Hc : collect (label_clause required) (sorted_keys required) = Ok (show_element <$> label_elements required)).
  { apply collect_Ok. unfold label_elements. rewrite <-list_fmap_compose. apply Forall2_fmap_r, Forall_Forall2_diag, Forall_forall.
    intros k [v Hk]%elem_of_sorted_keys. destruct (Hv k v Hk) as (? & ? & ?). by eapply label_clause_Ok. }
  rewrite Hc. simpl. apply (FromStringCheck_plain [label_elements required]); [done|].
  cbn [forallb]. rewrite andb_true_r. unfold plain_body. apply andb_true_intro. split.
  - rewrite bool_decide_false; [done|]. unfold label_elements. rewrite length_fmap. intros Hl%nil_length_inv.
    destruct (map_choose required Hne) as (k & v & Hk).
    assert (k ∈ sorted_keys required) as Hin by (apply elem_of_sorted_keys; eauto). rewrite Hl in Hin. by apply not_elem_of_nil in Hin.
  - apply forallb_True. unfold label_elements. intros el (k & -> & [v Hk]%elem_of_sorted_keys)%list_elem_of_fmap.
    destruct (Hv k v Hk) as (Hkey & _ & Hp). rewrite (map_get_lookup _ _ _ Hk). simpl.
    unfold plain_predicate. simpl. rewrite !printable_plain by eauto using label_key_printable. done.
Qed.

(** ** The header parser *)

Definition labels_valid (m : gmap string string) : Prop :=
  ∀ k v, m !! k = Some v → ValidateLabelKey k = Ok tt ∧ ValidateLabelValue v = Ok tt.

Lemma parse_required_Ok out parts m :
  parse_required out parts = Ok m → labels_valid out → labels_valid m ∧ out ⊆ m.
Proof.
  revert out. induction parts as [|part parts IH]; intros out; cbn [parse_required]; [by intros [= <-]|].
  case_bool_decide as Hp; [apply IH|]. destruct (Cut (TrimSpace part) "=") as [[k v] ok].
  intros H Hv. inv_ok. bool_split. destruct (IH _ H) as [Hm Hsub].
  - intros k' v'. rewrite lookup_insert_Some. intros [[<- <-]|[_ Hk]]; [done|by apply Hv].
  - split; [done|]. etrans; [|exact Hsub]. apply insert_subseteq. by apply eq_None_not_Some.
Qed.

(** The required-labels header parser fails closed: it returns an empty
    requirement, which switches the label gate off, only for a blank header,
    and every label it returns is valid. *)
Theorem parseRequiredLabels_Ok h m :
  parseRequiredLabels h = Ok m → labels_valid m ∧ (m = ∅ ↔ TrimSpace h = "").
Proof.
  unfold parseRequiredLabels. case_bool_decide as Hh.
  - intros [= <-]. split; [|done]. intros k v Hk. by rewrite lookup_empty in Hk.
  - intros (out & Hp & H)%bind_Ok. inv_ok. bool_split. apply parse_required_Ok in Hp as [Hv _].
    + split; [done|]. split; [|done]. by intros ->.
    + intros k v Hk. by rewrite lookup_empty in Hk.
Qed.

Definition labels_eu : gmap string string := {[ "region" := "eu" ]}.
Definition labels_eu_x : gmap string string := list_to_map [("region", "eu"); ("team", "x")].

Lemma labels_eu_lookup k v : labels_eu !! k = Some v → "region" = k ∧ "eu" = v.
Proof. apply lookup_singleton_Some. Qed.

Lemma parseRequiredLabels_Ok_witness :
  labels_valid labels_eu ∧ (labels_eu = ∅ ↔ TrimSpace " region = eu ,," = "").
Proof. apply (parseRequiredLabels_Ok " region = eu ,,"). by vm_compute. Defined.

(** ** What a requirement means to a credential *)

(** For a credential that carries the labels [labels] and no other label
    facts, the check a caller's requirement compiles to holds exactly when
    the labels satisfy the requirement as [LabelsSatisfy] says for a local
    service, and exactly when they include every required pair. *)
Theorem label_requirement `{BiscuitText, UnicodePrint} required labels rest R c :
  labels_valid required → (∀ k v, required !! k = Some v → printable v = true) →
  (∀ f, f ∈ rest → f_name f ≠ FactLabel) → (∀ r, r ∈ R → p_name (r_head r) ≠ FactLabel) →
  LabelCheck required = Ok c →
  (check_holds (LabelFacts labels ++ rest) R c ↔ LabelsSatisfy required labels = true) ∧
  (LabelsSatisfy required labels = true ↔ required ⊆ labels).
Proof.
  intros Hv Hp Hrest HR Hc.
  assert (Hs : LabelsSatisfy required labels = true ↔ required ⊆ labels).
  { apply LabelsSatisfy_iff. intros k v Hk. by apply ValidateLabelValue_not_empty, (Hv k v Hk). }
  split; [|done]. rewrite Hs.
  assert (required ≠ ∅) as Hne by (intros ->; by unfold LabelCheck in Hc; vm_compute in Hc).
  rewrite LabelCheck_Ok in Hc; [injection Hc as <-|done|].
  2: { intros k v Hk. destruct (Hv k v Hk). split_and!; eauto. }
  rewrite label_check_holds, map_subseteq_spec. split; intros Hall k v Hk.
  - assert (Hin : Fact FactLabel [VStr k; VStr v] ∈ LabelFacts labels ++ rest).
    { eapply derives_no_rule; [|by apply Hall]. intros r Hr. by apply HR. }
    rewrite elem_of_app, elem_of_LabelFacts in Hin. destruct Hin as [(k' & v' & Hl & [= -> ->])|Hin]; [done|].
    by destruct (Hrest _ Hin).
  - apply derives_fact, elem_of_app. left. apply elem_of_LabelFacts. eauto 10.
Qed.

Lemma label_requirement_witness :
  (check_holds (LabelFacts labels_eu_x ++ []) [] (label_check labels_eu) ↔
   LabelsSatisfy labels_eu labels_eu_x = true) ∧
  (LabelsSatisfy labels_eu labels_eu_x = true ↔ labels_eu ⊆ labels_eu_x).
Proof.
  apply (@label_requirement reference_text ascii_print).
  - intros k v [<- <-]%labels_eu_lookup. by vm_compute.
  - by intros k v [<- <-]%labels_eu_lookup.
  - by intros f ?%not_elem_of_nil.
  - by intros r ?%not_elem_of_nil.
  - by vm_compute.
Defined.

(** The control plane attests a set of labels exactly when every label is
    covered by one of the role patterns: "*", "key=*" or "key=value". *)
Theorem label_patterns_allow patterns labels :
  (∀ k v, labels !! k = Some v → ValidateLabelKey k = Ok tt) →
  LabelPatternsAllow patterns labels = Ok tt ↔
  ∀ k v, labels !! k = Some v → ∃ p, p ∈ patterns ∧ label_covered p k v.
Proof.
  intros Hk. rewrite LabelPatternsAllow_iff. split; intros H k v Hl.
  - apply labelAllowed_iff; [|by apply H]. apply (label_key_no "=" k); [by eapply Hk|by left].
  - apply labelAllowed_iff; [|by apply H]. apply (label_key_no "=" k); [by eapply Hk|by left].
Qed.

Lemma label_patterns_allow_witness :
  LabelPatternsAllow ["team=x"; "region=*"] labels_eu = Ok tt.
Proof.
  apply (label_patterns_allow ["team=x"; "region=*"] labels_eu).
  - intros k v [<- <-]%labels_eu_lookup. by vm_compute.
  - intros k v [<- <-]%labels_eu_lookup. exists "region=*".
    split; [set_solver|]. unfold label_covered. by right; left.
Defined.
