(* ===== verification/HTTPGrants.v ===== *)
(** * HTTP narrowing of service grants

    [PolicyRole.http] narrows an [allowed_services] entry to methods and paths
    ([src/api/http_grants.go]).  A narrowed entry is minted as facts from which
    the baseline rules derive the plain grant for a matching request only. *)

From S2P Require Import Prelude GoStrings Regex Names Biscuit NaiveEngine Facts Grants.

(** ** Messages *)

Record HTTPGrant := { hg_service : string; hg_methods : list string; hg_paths : list string }.

Record PolicyRole := {
  role_name : string;
  role_allowed_targets : list string;
  role_allowed_services : list string;
  role_custom_datalog : list string;
  role_allowed_labels : list string;
  role_http : list (option HTTPGrant);  (** entries may be nil *)
  role_allowed_publish : list string;
}.

(** ** Keys *)

(** [^[A-Z][A-Z0-9-]{0,31}$] *)
Definition httpMethodSyntax : regex :=
  RSeq (RClass is_upper) (RUpTo (λ c, is_upper c || is_digit c || bool_decide (c = "-"%char)) 31).

Definition HTTPGrantKey (service : string) : string * string * string :=
  let plain := BuildServiceDatalogFact service in
  let '(svcType, svcName) := ParseServiceTarget service in
  if bool_decide (f_name plain = FactGrantedServiceAllTypes) then (FactHTTPGrantedServiceAllTypes, "*", "*")
  else if bool_decide (f_name plain = FactGrantedServiceAll) then (FactHTTPGrantedServiceAll, svcType, "*")
  else if bool_decide (f_name plain = FactGrantedServiceSuffix) then
    (FactHTTPGrantedServiceSuffix, svcType, str_drop 1 svcName)
  else if bool_decide (f_name plain = FactGrantedServicePrefix) then
    (FactHTTPGrantedServicePrefix, svcType, str_take (len svcName - 1) svcName)
  else (FactHTTPGrantedServiceExact, svcType, svcName).

(** ** Validation *)

(** The scan for encoded dots, slashes, backslashes and NUL, and for bytes
    that never belong in a path.  The two bytes after a "%" are compared with
    ASCII pairs, so lowering them byte by byte decides like [strings.ToLower]. *)
Fixpoint hasEncodedPathTraversal (p : string) : bool :=
  match p with
  | "" => false
  | String c r =>
      if ((byte c <? 0x20) || (byte c =? 0x7F))%Z || bool_decide (c = "\"%char) || bool_decide (c = "034"%char) then true
      else if bool_decide (c = "%"%char) && bool_decide (2 ≤ len r) &&
              (let hex := str_map lower_char (str_take 2 r) in
               bool_decide (hex = "2e") || bool_decide (hex = "2f")
               || bool_decide (hex = "5c") || bool_decide (hex = "00"))
      then true
      else hasEncodedPathTraversal r
  end.

Definition validateHTTPGrantPath (p : string) : result unit :=
  fail_if (negb (HasPrefix p "/")) "path must start with /";;
  fail_if (ContainsAny p "?#") "path must not carry a query or a fragment";;
  fail_if (hasEncodedPathTraversal p) "path must not contain encoded traversal sequences or control characters";;
  let trimmed := TrimSuffix p "*" in
  fail_if (Contains trimmed "*") "path: * is only allowed at the end, as in /v2/*";;
  for_each (λ seg, fail_if (bool_decide (seg = ".") || bool_decide (seg = ".."))
                     "path must not contain a dot segment") (Split trimmed "/").

Definition ValidateHTTPGrant (g : option HTTPGrant) (allowedServices : list string) : result unit :=
  match g with
  | None => fail "http entry is nil"
  | Some g =>
      fail_if (bool_decide (hg_service g = "")) "http entry has no service";;
      fail_if (negb (slices_Contains allowedServices (hg_service g)))
        "http entry does not name one of the role's allowed_services";;
      ValidateServiceFormat (hg_service g);;
      fail_if (bool_decide (length (hg_methods g) = 0) && bool_decide (length (hg_paths g) = 0))
        "http entry narrows nothing: set methods, paths or both, or remove the entry";;
      for_each (λ m,
        fail_if (negb (matchb httpMethodSyntax m)) "http entry: method must be an uppercase HTTP method";;
        fail_if (bool_decide (m = "CONNECT")) "http entry: method is not an HTTP request method") (hg_methods g);;
      for_each (λ p, wrap_err "http entry" (validateHTTPGrantPath p)) (hg_paths g)
  end.

(** The loop of [ValidateHTTPGrants] with the services [seen] so far. *)
Fixpoint validate_http_grants (seen : gset string) (grants : list (option HTTPGrant))
    (allowedServices : list string) : result unit :=
  match grants with
  | [] => Ok tt
  | g :: grants =>
      ValidateHTTPGrant g allowedServices;;
      let svc := match g with Some g => hg_service g | None => "" end in
      fail_if (bool_decide (svc ∈ seen)) "duplicate http entry for service";;
      validate_http_grants ({[svc]} ∪ seen) grants allowedServices
  end.

Definition ValidateHTTPGrants (grants : list (option HTTPGrant)) (allowedServices : list string) : result unit :=
  validate_http_grants ∅ grants allowedServices.

(** ** Facts *)

(** [slices.Compact]: runs of equal elements become one. *)
Fixpoint slices_Compact (l : list string) : list string :=
  match l with
  | [] => []
  | x :: l' =>
      match l' with
      | y :: _ => if bool_decide (x = y) then slices_Compact l' else x :: slices_Compact l'
      | [] => [x]
      end
  end.

Definition stringSet (values : list string) : list atom := AStr <$> slices_Compact (sort_Strings values).

Definition exact_paths (paths : list string) : list string := filter (λ p, HasSuffix p "*" = false) paths.
Definition prefix_paths (paths : list string) : list string :=
  (λ p, TrimSuffix p "*") <$> filter (λ p, HasSuffix p "*" = true) paths.

Definition BuildHTTPGrantFacts (g : HTTPGrant) : list fact :=
  let '(factName, svcType, key) := HTTPGrantKey (hg_service g) in
  let keyTerms := [VStr svcType; VStr key] in
  let exact := exact_paths (hg_paths g) in
  let prefixes := prefix_paths (hg_paths g) in
  [if bool_decide (factName = FactHTTPGrantedServiceAllTypes) then MarkerFact factName
   else if bool_decide (factName = FactHTTPGrantedServiceAll) then Fact factName [VStr svcType]
   else Fact factName keyTerms] ++
  [if bool_decide (length (hg_methods g) = 0) then Fact FactGrantedMethodAny keyTerms
   else Fact FactGrantedMethod (keyTerms ++ [VSet (stringSet (hg_methods g))])] ++
  (if bool_decide (length exact = 0) && bool_decide (length prefixes = 0)
   then [Fact FactGrantedPathAny keyTerms] else []) ++
  (if bool_decide (0 < length exact)
   then [Fact FactGrantedPathExact (keyTerms ++ [VSet (stringSet exact)])] else []) ++
  ((λ prefix, Fact FactGrantedPathPrefix (keyTerms ++ [VStr prefix])) <$> sort_Strings prefixes).

Definition SplitHTTPGrants (role : PolicyRole) : list string * list HTTPGrant :=
  let narrowed :=
    omap (λ og, match og with
                | Some g => if bool_decide (hg_service g = "") then None else Some g
                | None => None
                end) (role_http role) in
  let narrowedByService := list_to_set (hg_service <$> narrowed) : gset string in
  (filter (λ svc, svc ∉ narrowedByService) (role_allowed_services role), narrowed).

(** ** What a narrowed grant permits *)

Definition method_permitted (g : HTTPGrant) (m : string) : bool :=
  if bool_decide (length (hg_methods g) = 0) then negb (bool_decide (m = "CONNECT"))
  else slices_Contains (hg_methods g) m.

Definition path_matches (pat p : string) : bool :=
  if HasSuffix pat "*" then HasPrefix p (TrimSuffix pat "*") else bool_decide (p = pat).

Definition path_permitted (g : HTTPGrant) (p : string) : bool :=
  if bool_decide (length (hg_paths g) = 0) then HasPrefix p "/"
  else existsb (λ pat, path_matches pat p) (hg_paths g).

(** The key two grants share when their method and path facts combine. *)
Definition grant_key (g : HTTPGrant) : string * string :=
  let '(_, t, k) := HTTPGrantKey (hg_service g) in (t, k).

(** ** Sets of strings *)

Lemma elem_of_Compact x l : x ∈ slices_Compact l ↔ x ∈ l.
Proof.
  induction l as [|y [|z l] IH]; [done|done|]. cbn [slices_Compact].
  case_bool_decide as Hyz; [subst; rewrite IH; set_solver|]. rewrite elem_of_cons, IH. set_solver.
Qed.

Lemma elem_of_stringSet x l : AStr x ∈ stringSet l ↔ x ∈ l.
Proof.
  unfold stringSet. rewrite list_elem_of_fmap. setoid_rewrite elem_of_Compact.
  setoid_rewrite elem_of_sort_Strings. split; [by intros (y & [= ->] & ?)|eauto].
Qed.

Lemma stringSet_strings a l : a ∈ stringSet l → ∃ x, a = AStr x.
Proof. intros (x & -> & _)%list_elem_of_fmap. eauto. Qed.

(** ** The facts of a narrowed grant *)

(** The facts of the method axis and of the path axis, keyed by [t] and [k]. *)
Inductive method_fact (t k : string) (g : HTTPGrant) : fact → Prop :=
| mf_any : hg_methods g = [] → method_fact t k g (Fact FactGrantedMethodAny [VStr t; VStr k])
| mf_set : hg_methods g ≠ [] →
    method_fact t k g (Fact FactGrantedMethod [VStr t; VStr k; VSet (stringSet (hg_methods g))]).

Inductive path_fact (t k : string) (g : HTTPGrant) : fact → Prop :=
| pf_any : hg_paths g = [] → path_fact t k g (Fact FactGrantedPathAny [VStr t; VStr k])
| pf_exact : exact_paths (hg_paths g) ≠ [] →
    path_fact t k g (Fact FactGrantedPathExact [VStr t; VStr k; VSet (stringSet (exact_paths (hg_paths g)))])
| pf_prefix x : x ∈ hg_paths g → HasSuffix x "*" = true →
    path_fact t k g (Fact FactGrantedPathPrefix [VStr t; VStr k; VStr (TrimSuffix x "*")]).

(** The head fact: the narrowed form of the plain fact of the service. *)
Definition http_names : grant_names :=
  GrantNames FactHTTPGrantedServiceAllTypes FactHTTPGrantedServiceAll FactHTTPGrantedServiceSuffix
    FactHTTPGrantedServicePrefix FactHTTPGrantedServiceExact "".

Definition http_head (service : string) : fact :=
  let '(t, n) := ParseServiceTarget service in family_fact http_names t n.

Lemma no_paths paths : exact_paths paths = [] → prefix_paths paths = [] → paths = [].
Proof.
  intros He Hp. destruct paths as [|p ps]; [done|]. exfalso.
  destruct (HasSuffix p "*") eqn:E.
  - assert (TrimSuffix p "*" ∈ prefix_paths (p :: ps)) as Hin.
    { apply list_elem_of_fmap. exists p. rewrite list_elem_of_filter. split_and!; [done..|by left]. }
    rewrite Hp in Hin. by apply not_elem_of_nil in Hin.
  - assert (p ∈ exact_paths (p :: ps)) as Hin by (apply list_elem_of_filter; split; [done|by left]).
    rewrite He in Hin. by apply not_elem_of_nil in Hin.
Qed.

Lemma elem_of_method_part t k g f :
  f = (if bool_decide (length (hg_methods g) = 0) then Fact FactGrantedMethodAny [VStr t; VStr k]
       else Fact FactGrantedMethod ([VStr t; VStr k] ++ [VSet (stringSet (hg_methods g))])) ↔
  method_fact t k g f.
Proof.
  case_bool_decide as Hm.
  - apply nil_length_inv in Hm. split; [intros ->; by constructor|]. by inversion 1.
  - split; [intros ->; constructor; by intros Heq; rewrite Heq in Hm|].
    inversion 1 as [Heq|]; [by rewrite Heq in Hm|done].
Qed.

Lemma elem_of_path_part t k g f :
  let exact := exact_paths (hg_paths g) in
  let prefixes := prefix_paths (hg_paths g) in
  f ∈ (if bool_decide (length exact = 0) && bool_decide (length prefixes = 0)
       then [Fact FactGrantedPathAny [VStr t; VStr k]] else []) ++
      (if bool_decide (0 < length exact)
       then [Fact FactGrantedPathExact ([VStr t; VStr k] ++ [VSet (stringSet exact)])] else []) ++
      ((λ prefix, Fact FactGrantedPathPrefix ([VStr t; VStr k] ++ [VStr prefix])) <$> sort_Strings prefixes) ↔
  path_fact t k g f.
Proof.
  intros exact prefixes. rewrite !elem_of_app, list_elem_of_fmap. setoid_rewrite elem_of_sort_Strings. split.
  - intros [Hf|[Hf|(x & -> & Hx)]].
    + destruct (bool_decide _ && bool_decide _) eqn:E; [|by apply not_elem_of_nil in Hf].
      apply list_elem_of_singleton in Hf as ->. bool_split. constructor. apply no_paths; by apply nil_length_inv.
    + case_bool_decide as E; [|by apply not_elem_of_nil in Hf].
      apply list_elem_of_singleton in Hf as ->. constructor. intros Heq. unfold exact in E. rewrite Heq in E. simpl in E. lia.
    + apply list_elem_of_fmap in Hx as (y & -> & [Hy Hin]%list_elem_of_filter). by constructor.
  - intros [Hn|Hn|x Hx Hs].
    + left. unfold exact, prefixes. by rewrite Hn; left.
    + right; left. rewrite bool_decide_true; [by left|]. unfold exact. destruct (exact_paths _); [done|simpl; lia].
    + right; right. exists (TrimSuffix x "*"). split; [done|]. apply list_elem_of_fmap. exists x.
      by rewrite list_elem_of_filter.
Qed.

Lemma elem_of_BuildHTTPGrantFacts g f :
  f ∈ BuildHTTPGrantFacts g ↔
  f = http_head (hg_service g) ∨
  method_fact (grant_key g).1 (grant_key g).2 g f ∨ path_fact (grant_key g).1 (grant_key g).2 g f.
Proof.
  unfold BuildHTTPGrantFacts, grant_key.
  assert (Hhead : http_head (hg_service g) =
    let '(n, t, k) := HTTPGrantKey (hg_service g) in
    if bool_decide (n = FactHTTPGrantedServiceAllTypes) then MarkerFact n
    else if bool_decide (n = FactHTTPGrantedServiceAll) then Fact n [VStr t] else Fact n [VStr t; VStr k]).
  { unfold http_head, HTTPGrantKey. rewrite BuildServiceDatalogFact_family.
    destruct (ParseServiceTarget (hg_service g)) as [t n]. unfold family_fact.
    destruct (bool_decide (t = "*") && bool_decide (n = "*")); [done|].
    destruct (bool_decide (n = "*")); [done|].
    destruct (HasPrefix n "*."); [done|]. by destruct (HasSuffix n ".*"). }
  rewrite Hhead. destruct (HTTPGrantKey (hg_service g)) as [[n t] k]. simpl fst. simpl snd. clear Hhead.
  rewrite !elem_of_app, list_elem_of_singleton. apply or_iff_compat_l.
  by rewrite list_elem_of_singleton, elem_of_method_part, <-!elem_of_app, elem_of_path_part.
Qed.

(** The narrowed fact, the plain fact and the key of a service go together. *)
Inductive head_case (s : string) : Prop :=
| hc_all_types :
    http_head s = MarkerFact FactHTTPGrantedServiceAllTypes →
    BuildServiceDatalogFact s = MarkerFact FactGrantedServiceAllTypes →
    HTTPGrantKey s = (FactHTTPGrantedServiceAllTypes, "*", "*") → head_case s
| hc_all t :
    http_head s = Fact FactHTTPGrantedServiceAll [VStr t] →
    BuildServiceDatalogFact s = Fact FactGrantedServiceAll [VStr t] →
    HTTPGrantKey s = (FactHTTPGrantedServiceAll, t, "*") → head_case s
| hc_suffix t k :
    http_head s = Fact FactHTTPGrantedServiceSuffix [VStr t; VStr k] →
    BuildServiceDatalogFact s = Fact FactGrantedServiceSuffix [VStr t; VStr k] →
    HTTPGrantKey s = (FactHTTPGrantedServiceSuffix, t, k) → head_case s
| hc_prefix t k :
    http_head s = Fact FactHTTPGrantedServicePrefix [VStr t; VStr k] →
    BuildServiceDatalogFact s = Fact FactGrantedServicePrefix [VStr t; VStr k] →
    HTTPGrantKey s = (FactHTTPGrantedServicePrefix, t, k) → head_case s
| hc_exact t k :
    http_head s = Fact FactHTTPGrantedServiceExact [VStr t; VStr k] →
    BuildServiceDatalogFact s = Fact FactGrantedServiceExact [VStr t; VStr k] →
    HTTPGrantKey s = (FactHTTPGrantedServiceExact, t, k) → head_case s.

Lemma http_head_case s : head_case s.
Proof.
  pose proof (BuildServiceDatalogFact_family s) as Hb.
  assert (Hh : http_head s = let '(t, n) := ParseServiceTarget s in family_fact http_names t n) by done.
  assert (Hk : HTTPGrantKey s = HTTPGrantKey s) by done. unfold HTTPGrantKey at 2 in Hk.
  rewrite Hb in Hk. destruct (ParseServiceTarget s) as [t n]. unfold family_fact in *.
  destruct (bool_decide (t = "*") && bool_decide (n = "*")); [by apply hc_all_types|].
  destruct (bool_decide (n = "*")); [by eapply hc_all|].
  destruct (HasPrefix n "*."); [by eapply hc_suffix|].
  destruct (HasSuffix n ".*"); [by eapply hc_prefix|by eapply hc_exact].
Qed.

Lemma service_covers_fact s ty nm :
  fact_covers service_names ty nm (BuildServiceDatalogFact s) ↔ service_covers s ty nm = true.
Proof.
  rewrite BuildServiceDatalogFact_family. unfold service_covers. destruct (ParseServiceTarget s).
  apply fact_covers_family. auto with mesh.
Qed.

(** ** Deriving the plain grant *)

(** A valuation given by an association list. *)
Fixpoint env (l : list (string * value)) (x : string) : value :=
  match l with
  | [] => MarkerTerm
  | (y, v) :: l => if String.eqb x y then v else env l x
  end.

(** The names the request, the narrowed grants and their rules use. *)
Definition http_base_names : list string := [
  FactService; FactMethod; FactPath; FactHTTPGrantedServiceExact; FactHTTPGrantedServiceSuffix;
  FactHTTPGrantedServicePrefix; FactHTTPGrantedServiceAll; FactHTTPGrantedServiceAllTypes;
  FactGrantedMethod; FactGrantedMethodAny; FactGrantedPathExact; FactGrantedPathPrefix; FactGrantedPathAny].
Definition http_reserved : list string :=
  http_base_names ++ [FactHTTPMethodOK; FactHTTPPathOK] ++ gn_list service_names.

Definition request_facts (ty nm m p : string) : list fact :=
  [Fact FactService [VStr ty; VStr nm]; Fact FactMethod [VStr m]; Fact FactPath [VStr p]].

(** Plain patterns that were turned into facts in several groups: those of a
    credential, and those of each role of a policy. *)
Definition service_groups (plains : list (list string)) : list fact := plains ≫= BuildServiceDatalogFacts.

Lemma service_groups_shape plains f : f ∈ service_groups plains → family_shape service_names f.
Proof. intros (l & Hf & _)%list_elem_of_bind. by eapply BuildServiceDatalogFacts_shape. Qed.

(** Grouping does not change what is covered. *)
Lemma service_groups_covers plains ty nm :
  (∃ f, f ∈ service_groups plains ∧ fact_covers service_names ty nm f) ↔
  ∃ s, s ∈ mjoin plains ∧ service_covers s ty nm = true.
Proof.
  split.
  - intros (f & (l & Hf & Hl)%list_elem_of_bind & Hc).
    destruct (proj1 (BuildServiceDatalogFacts_covers l ty nm)) as (s & Hs & Hcov); [by eauto|].
    exists s. rewrite list_elem_of_join. eauto.
  - intros (s & (l & Hs & Hl)%list_elem_of_join & Hc).
    destruct (proj2 (BuildServiceDatalogFacts_covers l ty nm)) as (f & Hf & Hcov); [by eauto|].
    exists f. split; [|done]. apply list_elem_of_bind. eauto.
Qed.

Section narrowing.
Context (plains : list (list string)) (narrowed : list HTTPGrant) (ty nm m p : string).
Context (rest : list fact) (R' : list rule).
Hypothesis Hrest : ∀ f, f ∈ rest → f_name f ∉ http_reserved.
Hypothesis HR' : ∀ r, r ∈ R' → p_name (r_head r) ∉ http_reserved.

Definition narrowed_facts : list fact :=
  request_facts ty nm m p ++ service_groups plains ++ (narrowed ≫= BuildHTTPGrantFacts) ++ rest.
Definition narrowed_rules : list rule := BaselineHTTPRules ++ R'.

Local Abbreviation F := narrowed_facts.
Local Abbreviation R := narrowed_rules.
Local Abbreviation D := (derives F R).

(** How a fact with a reserved name can hold. *)
Inductive origin (f : fact) : Prop :=
| o_request : f ∈ request_facts ty nm m p → origin f
| o_plain : f ∈ service_groups plains → origin f
| o_head g : g ∈ narrowed → f = http_head (hg_service g) → origin f
| o_method g : g ∈ narrowed → method_fact (grant_key g).1 (grant_key g).2 g f → origin f
| o_path g : g ∈ narrowed → path_fact (grant_key g).1 (grant_key g).2 g f → origin f
| o_rule h els σ : (h, els) ∈ http_rule_bodies → f = inst σ h →
    Forall (λ q, D (inst σ q)) (preds els) → Forall (sat σ) (exprs els) → origin f.

Lemma derives_origin f : f_name f ∈ http_reserved → D f → origin f.
Proof using Hrest HR'.
  intros Hn Hd. revert Hn. destruct Hd as [g Hg|r σ Hr Hb He]; intros Hn.
  - unfold narrowed_facts in Hg. rewrite !elem_of_app in Hg. destruct Hg as [Hg|[Hg|[Hg|Hg]]].
    + by apply o_request.
    + by apply o_plain.
    + apply list_elem_of_bind in Hg as (gr & Hg & Hin). apply elem_of_BuildHTTPGrantFacts in Hg as [->|[Hg|Hg]].
      * by eapply o_head.
      * by eapply o_method.
      * by eapply o_path.
    + by destruct (Hrest g Hg).
  - unfold narrowed_rules in Hr. rewrite elem_of_app in Hr. destruct Hr as [Hr|Hr]; [|by destruct (HR' r Hr)].
    unfold BaselineHTTPRules in Hr. apply list_elem_of_fmap in Hr as ([h els] & -> & Hin).
    apply (o_rule _ h els σ); [done|done|..]; apply Forall_forall; [exact Hb|exact He].
Qed.

Lemma derives_narrowed g f : g ∈ narrowed → f ∈ BuildHTTPGrantFacts g → D f.
Proof. intros Hg Hf. apply derives_fact. unfold narrowed_facts. rewrite !elem_of_app, list_elem_of_bind. right; right; left. eauto. Qed.

Lemma derives_request f : f ∈ request_facts ty nm m p → D f.
Proof. intros Hf. apply derives_fact. unfold narrowed_facts. rewrite !elem_of_app. by left. Qed.

Lemma derives_http i h els l :
  http_rule_bodies !! i = Some (h, els) →
  Forall (λ q, D (inst (env l) q)) (preds els) → Forall (sat (env l)) (exprs els) → D (inst (env l) h).
Proof.
  intros Hi Hb He. apply (derives_rule _ _ (mk_rule h els)).
  - unfold narrowed_rules, BaselineHTTPRules. rewrite elem_of_app, list_elem_of_fmap. left.
    exists (h, els). split; [done|]. by eapply list_elem_of_lookup_2.
  - by apply Forall_forall.
  - by apply Forall_forall.
Qed.

(** Keep the origins of a fact whose name is known. *)
Ltac by_origin :=
  let H := fresh "H" in
  intros H; apply derives_origin in H; [|by apply (bool_decide_unpack _)];
  destruct H as [H|H|g Hg H|g Hg H|g Hg H|h els σ H Heq Hb He];
  [ unfold request_facts in H; rewrite !elem_of_cons, elem_of_nil in H; destruct_or?; simplify_eq
  | try (exfalso; apply service_groups_shape in H; by inversion H)
  | try (exfalso; match type of H with _ = http_head ?s =>
      let E := fresh in destruct (http_head_case s) as [E _ _|? E _ _|? ? E _ _|? ? E _ _|? ? E _ _];
      rewrite E in H; discriminate H end)
  | inversion H; simplify_eq
  | inversion H; simplify_eq
  | unfold http_rule_bodies in H; rewrite !elem_of_cons, elem_of_nil in H; destruct_or?; simplify_eq ].

Lemma base_service us : D (Fact FactService us) → us = [VStr ty; VStr nm].
Proof using Hrest HR'. by by_origin. Qed.

Lemma base_method us : D (Fact FactMethod us) → us = [VStr m].
Proof using Hrest HR'. by by_origin. Qed.

Lemma base_path us : D (Fact FactPath us) → us = [VStr p].
Proof using Hrest HR'. by by_origin. Qed.

Lemma base_granted_method us :
  D (Fact FactGrantedMethod us) →
  ∃ g, g ∈ narrowed ∧ hg_methods g ≠ [] ∧
       us = [VStr (grant_key g).1; VStr (grant_key g).2; VSet (stringSet (hg_methods g))].
Proof using Hrest HR'. by_origin. eauto. Qed.

Lemma base_method_any us :
  D (Fact FactGrantedMethodAny us) →
  ∃ g, g ∈ narrowed ∧ hg_methods g = [] ∧ us = [VStr (grant_key g).1; VStr (grant_key g).2].
Proof using Hrest HR'. by_origin. eauto. Qed.

Lemma base_path_exact us :
  D (Fact FactGrantedPathExact us) →
  ∃ g, g ∈ narrowed ∧
       us = [VStr (grant_key g).1; VStr (grant_key g).2; VSet (stringSet (exact_paths (hg_paths g)))].
Proof using Hrest HR'. by_origin. eauto. Qed.

Lemma base_path_prefix us :
  D (Fact FactGrantedPathPrefix us) →
  ∃ g x, g ∈ narrowed ∧ x ∈ hg_paths g ∧ HasSuffix x "*" = true ∧
         us = [VStr (grant_key g).1; VStr (grant_key g).2; VStr (TrimSuffix x "*")].
Proof using Hrest HR'. by_origin. eauto 10. Qed.

Lemma base_path_any us :
  D (Fact FactGrantedPathAny us) →
  ∃ g, g ∈ narrowed ∧ hg_paths g = [] ∧ us = [VStr (grant_key g).1; VStr (grant_key g).2].
Proof using Hrest HR'. by_origin. eauto. Qed.

(** A narrowed head holds only because a narrowed grant made it. *)
Lemma base_head n us :
  n ∈ [FactHTTPGrantedServiceExact; FactHTTPGrantedServiceSuffix; FactHTTPGrantedServicePrefix;
       FactHTTPGrantedServiceAll; FactHTTPGrantedServiceAllTypes] →
  D (Fact n us) → ∃ g, g ∈ narrowed ∧ http_head (hg_service g) = Fact n us.
Proof using Hrest HR'.
  intros Hn. rewrite !elem_of_cons, elem_of_nil in Hn. destruct_or?; subst; by_origin; eauto.
Qed.

(** The method and path predicates hold for exactly the keys whose grants
    permit the request. *)
Lemma method_ok_iff t k :
  D (Fact FactHTTPMethodOK [VStr t; VStr k]) ↔
  ∃ g, g ∈ narrowed ∧ grant_key g = (t, k) ∧ method_permitted g m = true.
Proof using Hrest HR'.
  unfold method_permitted. split.
  - by_origin; simpl in Hb, He; rewrite ?Forall_cons in Hb; rewrite ?Forall_cons in He;
      injection Heq as Et Ek; destruct Hb as (Hmb & Hg & _); apply base_method in Hmb as [= Hm].
    + apply base_granted_method in Hg as (g & Hg & Hne & [= Ht Hk Hs]).
      exists g. split; [done|]. destruct (grant_key g) as [t' k']. simpl in *. destruct He as [He _].
      unfold sat in He. simpl in He. rewrite Hm, Hs in He. injection He as He.
      split; [congruence|]. rewrite bool_decide_false by (intros Hl; by apply nil_length_inv in Hl).
      apply slices_Contains_true, elem_of_stringSet, slices_Contains_true, He.
    + apply base_method_any in Hg as (g & Hg & Hne & [= Ht Hk]).
      exists g. split; [done|]. destruct (grant_key g) as [t' k']. simpl in *. destruct He as [He _].
      unfold sat in He. simpl in He. rewrite Hm in He. injection He as He.
      apply negb_true_iff, bool_decide_eq_false in He.
      split; [congruence|]. rewrite Hne. simpl. rewrite bool_decide_false; [done|]. by intros ->.
  - intros (g & Hg & Hk & Hm). assert (Hfact : ∀ f, method_fact t k g f → D f).
    { intros f Hf. apply (derives_narrowed g f Hg), elem_of_BuildHTTPGrantFacts. rewrite Hk. by right; left. }
    case_bool_decide as Hl.
    + apply nil_length_inv in Hl.
      apply (derives_http 1 _ _ [("t", VStr t); ("k", VStr k); ("m", VStr m)] eq_refl);
        simpl; rewrite ?Forall_cons, ?Forall_nil; split_and!; try done.
      * apply derives_request. right. by left.
      * apply Hfact. by apply mf_any.
      * unfold sat. simpl. do 3 f_equal. apply negb_true_iff, bool_decide_eq_false. by intros [= ->].
    + apply (derives_http 0 _ _ [("t", VStr t); ("k", VStr k); ("m", VStr m); ("set", VSet (stringSet (hg_methods g)))] eq_refl);
        simpl; rewrite ?Forall_cons, ?Forall_nil; split_and!; try done.
      * apply derives_request. right. by left.
      * apply Hfact. apply mf_set. intros Hn. by rewrite Hn in Hl.
      * unfold sat. simpl. do 3 f_equal. apply slices_Contains_true, elem_of_stringSet, slices_Contains_true, Hm.
Qed.

Lemma path_permitted_iff g :
  path_permitted g p = true ↔
  (hg_paths g = [] ∧ HasPrefix p "/" = true) ∨ (p ∈ exact_paths (hg_paths g)) ∨
  ∃ x, x ∈ hg_paths g ∧ HasSuffix x "*" = true ∧ HasPrefix p (TrimSuffix x "*") = true.
Proof.
  unfold path_permitted, exact_paths, path_matches. rewrite list_elem_of_filter. case_bool_decide as Hl.
  - apply nil_length_inv in Hl. rewrite Hl, elem_of_nil. split; [by left|].
    intros [[_ ?]|[[_ []]|(x & ?%not_elem_of_nil & _)]]; done.
  - rewrite existsb_True. split.
    + intros (x & Hx & Hm). right. destruct (HasSuffix x "*") eqn:E; [by right; eauto|].
      bool_split. by left.
    + intros [[Hn _]|[[He Hx]|(x & Hx & Hs & Hm)]]; [by rewrite Hn in Hl|..].
      * exists p. split; [done|]. by rewrite He, bool_decide_true.
      * exists x. by rewrite Hs.
Qed.

Lemma path_ok_iff t k :
  D (Fact FactHTTPPathOK [VStr t; VStr k]) ↔
  ∃ g, g ∈ narrowed ∧ grant_key g = (t, k) ∧ path_permitted g p = true.
Proof using Hrest HR'.
  setoid_rewrite path_permitted_iff. split.
  - by_origin; simpl in Hb, He; rewrite ?Forall_cons in Hb; rewrite ?Forall_cons in He;
      injection Heq as Et Ek; destruct Hb as (Hmb & Hg & _); apply base_path in Hmb as [= Hm];
      destruct He as [He _]; unfold sat in He; simpl in He.
    + apply base_path_exact in Hg as (g & Hg & [= Ht Hk Hs]).
      exists g. split; [done|]. destruct (grant_key g) as [t' k']. simpl in *.
      rewrite Hm, Hs in He. injection He as He. split; [congruence|]. right; left.
      by apply elem_of_stringSet, slices_Contains_true.
    + apply base_path_prefix in Hg as (g & x & Hg & Hx & Hsx & [= Ht Hk Hs]).
      exists g. split; [done|]. destruct (grant_key g) as [t' k']. simpl in *.
      rewrite Hm, Hs in He. injection He as He. split; [congruence|]. right; right. eauto.
    + apply base_path_any in Hg as (g & Hg & Hn & [= Ht Hk]).
      exists g. split; [done|]. destruct (grant_key g) as [t' k']. simpl in *.
      rewrite Hm in He. injection He as He. split; [congruence|]. by left.
  - intros (g & Hg & Hk & Hp). assert (Hfact : ∀ f, path_fact t k g f → D f).
    { intros f Hf. apply (derives_narrowed g f Hg), elem_of_BuildHTTPGrantFacts. rewrite Hk. by right; right. }
    assert (Hpath : D (Fact FactPath [VStr p])) by (apply derives_request; right; right; by left).
    destruct Hp as [[Hn Hp]|[Hp|(x & Hx & Hs & Hp)]].
    + apply (derives_http 4 _ _ [("t", VStr t); ("k", VStr k); ("p", VStr p)] eq_refl);
        simpl; rewrite ?Forall_cons, ?Forall_nil; split_and!; try done.
      * apply Hfact. by apply pf_any.
      * unfold sat. simpl. by rewrite Hp.
    + apply (derives_http 2 _ _ [("t", VStr t); ("k", VStr k); ("p", VStr p);
        ("set", VSet (stringSet (exact_paths (hg_paths g))))] eq_refl);
        simpl; rewrite ?Forall_cons, ?Forall_nil; split_and!; try done.
      * apply Hfact, pf_exact. intros Hn. rewrite Hn in Hp. by apply not_elem_of_nil in Hp.
      * unfold sat. simpl. do 3 f_equal. by apply slices_Contains_true, elem_of_stringSet.
    + apply (derives_http 3 _ _ [("t", VStr t); ("k", VStr k); ("p", VStr p);
        ("prefix", VStr (TrimSuffix x "*"))] eq_refl);
        simpl; rewrite ?Forall_cons, ?Forall_nil; split_and!; try done.
      * apply Hfact. by apply pf_prefix.
      * unfold sat. simpl. by rewrite Hp.
Qed.

(** A narrowed grant earns its plain fact: it covers the service, and grants
    with its key permit the method and the path. *)
Definition earned (g : HTTPGrant) : Prop :=
  g ∈ narrowed ∧ service_covers (hg_service g) ty nm = true ∧
  (∃ g1, g1 ∈ narrowed ∧ grant_key g1 = grant_key g ∧ method_permitted g1 m = true) ∧
  (∃ g2, g2 ∈ narrowed ∧ grant_key g2 = grant_key g ∧ path_permitted g2 p = true).

Lemma earned_iff g t k :
  grant_key g = (t, k) → g ∈ narrowed →
  earned g ↔ fact_covers service_names ty nm (BuildServiceDatalogFact (hg_service g)) ∧
             D (Fact FactHTTPMethodOK [VStr t; VStr k]) ∧ D (Fact FactHTTPPathOK [VStr t; VStr k]).
Proof using Hrest HR'.
  intros Hk Hg. rewrite method_ok_iff, path_ok_iff, service_covers_fact. unfold earned. rewrite Hk. tauto.
Qed.

Lemma granted_origin f :
  f_name f ∈ gn_list service_names → D f →
  f ∈ service_groups plains ∨ ∃ g, earned g.
Proof using Hrest HR'.
  destruct f as [n us]. simpl f_name. intros Hn Hd.
  destruct (decide (Fact n us ∈ service_groups plains)) as [|Hnot]; [by left|right].
  unfold gn_list in Hn. simpl in Hn. rewrite !elem_of_cons, elem_of_nil in Hn.
  destruct_or?; subst; revert Hd; by_origin; try done.
  all: simpl in Hb, He; rewrite ?Forall_cons in Hb; rewrite ?Forall_cons in He.
  all: destruct Hb as (Hs & Hh & Hm & Hp & _); apply base_service in Hs as [= Ht Hn].
  all: apply base_head in Hh; [|by apply (bool_decide_unpack _)]; destruct Hh as (g & Hg & Hh).
  all: unfold inst in Hm, Hp; simpl in Hh, Hm, Hp; rewrite ?Ht, ?Hn in Hh; rewrite ?Ht, ?Hn in Hm; rewrite ?Ht, ?Hn in Hp.
  all: destruct (http_head_case (hg_service g)) as [Eh Eb Ek|? Eh Eb Ek|? ? Eh Eb Ek|? ? Eh Eb Ek|? ? Eh Eb Ek];
    rewrite Eh in Hh; try discriminate Hh; exists g;
    eapply earned_iff; [unfold grant_key; by rewrite Ek|done|]; rewrite Eb.
  - split_and!; [constructor|done..].
  - injection Hh as ->. split_and!; [constructor|done..].
  - injection Hh as -> Hk. destruct He as [He _]. unfold sat in He. simpl in He. rewrite Hn, <-Hk in He.
    injection He as He. rewrite <-Hk in Hm, Hp. split_and!; [by constructor|done..].
  - injection Hh as -> Hk. destruct He as [He _]. unfold sat in He. simpl in He. rewrite Hn, <-Hk in He.
    injection He as He. rewrite <-Hk in Hm, Hp. split_and!; [by constructor|done..].
  - injection Hh as -> ->. split_and!; [constructor|done..].
Qed.

Lemma earned_derives g : earned g → D (BuildServiceDatalogFact (hg_service g)).
Proof using Hrest HR'.
  intros He. pose proof He as (Hg & _ & _).
  assert (Hhead : D (http_head (hg_service g)))
    by (apply (derives_narrowed g); [done|]; apply elem_of_BuildHTTPGrantFacts; by left).
  assert (Hsvc : D (Fact FactService [VStr ty; VStr nm])) by (apply derives_request; by left).
  destruct (http_head_case (hg_service g)) as [Eh Eb Ek|t Eh Eb Ek|t k Eh Eb Ek|t k Eh Eb Ek|t k Eh Eb Ek];
    rewrite Eh in Hhead; eapply earned_iff in He as (Hc & Hm & Hp); try done;
    try (unfold grant_key; by rewrite Ek); rewrite Eb in Hc |- *; inversion Hc; subst.
  - apply (derives_http 9 _ _ [("t", VStr ty); ("n", VStr nm)] eq_refl);
      simpl; rewrite ?Forall_cons, ?Forall_nil; repeat split; done.
  - apply (derives_http 8 _ _ [("t", VStr ty); ("n", VStr nm)] eq_refl);
      simpl; rewrite ?Forall_cons, ?Forall_nil; repeat split; done.
  - apply (derives_http 6 _ _ [("t", VStr ty); ("n", VStr nm); ("s", VStr k)] eq_refl);
      simpl; rewrite ?Forall_cons, ?Forall_nil; repeat split; try done. unfold sat. simpl. congruence.
  - apply (derives_http 7 _ _ [("t", VStr ty); ("n", VStr nm); ("p", VStr k)] eq_refl);
      simpl; rewrite ?Forall_cons, ?Forall_nil; repeat split; try done. unfold sat. simpl. congruence.
  - apply (derives_http 5 _ _ [("t", VStr ty); ("n", VStr nm)] eq_refl);
      simpl; rewrite ?Forall_cons, ?Forall_nil; repeat split; done.
Qed.

(** The request is granted the service exactly when a plain pattern of a group covers it
    or a narrowed grant earns it. *)
Lemma narrowed_grants_iff :
  (∃ ty' nm' f, D (Fact FactService [VStr ty'; VStr nm']) ∧ D f ∧ fact_covers service_names ty' nm' f) ↔
  (∃ s, s ∈ mjoin plains ∧ service_covers s ty nm = true) ∨ ∃ g, earned g.
Proof using Hrest HR'.
  rewrite <-service_groups_covers. split.
  - intros (ty' & nm' & f & Hs & Hf & Hc). apply base_service in Hs as [= -> ->].
    destruct (granted_origin f (fact_covers_name _ _ _ _ Hc) Hf) as [?|?]; eauto.
  - intros [(f & Hf & Hc)|(g & Hg)]; exists ty, nm.
    + exists f. split_and!; [apply derives_request; by left| |done].
      apply derives_fact. unfold narrowed_facts. rewrite !elem_of_app. by right; left.
    + exists (BuildServiceDatalogFact (hg_service g)).
      split_and!; [apply derives_request; by left|by apply earned_derives|].
      apply service_covers_fact. apply Hg.
Qed.

Lemma narrowed_world : family_world F R service_names FactService.
Proof using Hrest HR'.
  split.
  - intros us ->%base_service. eauto.
  - intros u v. by_origin; eauto. apply service_groups_shape in H. inversion H; simplify_eq. eauto.
Qed.
End narrowing.

(** ** Decisions over narrowed grants *)

Lemma earned_distinct narrowed ty nm m p g :
  NoDup (grant_key <$> narrowed) →
  earned narrowed ty nm m p g ↔
  g ∈ narrowed ∧ service_covers (hg_service g) ty nm = true ∧
  method_permitted g m = true ∧ path_permitted g p = true.
Proof.
  intros Hnd. assert (Hinj : ∀ g1, g1 ∈ narrowed → g ∈ narrowed → grant_key g1 = grant_key g → g1 = g).
  { clear - Hnd. intros g1 [i Hi]%list_elem_of_lookup [j Hj]%list_elem_of_lookup Hk.
    assert (i = j) as <-; [|by rewrite Hi in Hj; injection Hj].
    eapply (NoDup_lookup _ _ _ (grant_key g) Hnd); rewrite list_lookup_fmap; [by rewrite Hi; simpl; rewrite Hk|by rewrite Hj]. }
  unfold earned. split.
  - intros (Hg & Hc & (g1 & H1 & Hk1 & Hm) & (g2 & H2 & Hk2 & Hp)).
    rewrite (Hinj g1) in Hm by done. rewrite (Hinj g2) in Hp by done. done.
  - intros (Hg & Hc & Hm & Hp). split_and!; eauto.
Qed.

Lemma narrowed_decision_iff `{BiscuitEngine} plains narrowed ty nm m p rest R' :
  (∀ f, f ∈ rest → f_name f ∉ http_reserved) → (∀ r, r ∈ R' → p_name (r_head r) ∉ http_reserved) →
  let w := World (narrowed_facts plains narrowed ty nm m p rest) (narrowed_rules R') [] BaselinePolicies in
  authorize w ≠ ErrRun →
  authorize w = Success ↔
  (∃ s, s ∈ mjoin plains ∧ service_covers s ty nm = true) ∨ ∃ g, earned narrowed ty nm m p g.
Proof.
  intros Hrest HR' w Hrun. rewrite authorize_allow_only; [|intros q (b & -> & _)%list_elem_of_fmap; done|done].
  unfold w. simpl w_facts. simpl w_rules. simpl w_policies.
  rewrite BaselinePolicies_family, family_policies_iff by (by apply narrowed_world).
  rewrite narrowed_grants_iff by done.
  split; [by intros [_ ?]|]. split; [|done]. intros c Hc. by apply not_elem_of_nil in Hc.
Qed.

(** HTTP narrowing.  For a request with a method and a path, when no two
    narrowed grants share a key, a run that completes grants a service exactly
    when a plain [allowed_services] pattern covers it or one narrowed grant
    covers it and permits both the method and the path; unrelated facts and
    rules of the credential do not matter. *)
Theorem http_narrowing `{BiscuitEngine} plain narrowed ty nm m p rest R' :
  (∀ f, f ∈ rest → f_name f ∉ http_reserved) → (∀ r, r ∈ R' → p_name (r_head r) ∉ http_reserved) →
  NoDup (grant_key <$> narrowed) →
  let w := World (narrowed_facts [plain] narrowed ty nm m p rest) (narrowed_rules R') [] BaselinePolicies in
  authorize w ≠ ErrRun →
  authorize w = Success ↔
  (∃ s, s ∈ plain ∧ service_covers s ty nm = true) ∨
  (∃ g, g ∈ narrowed ∧ service_covers (hg_service g) ty nm = true ∧
        method_permitted g m = true ∧ path_permitted g p = true).
Proof.
  intros Hrest HR' Hnd w Hrun. unfold w in *. rewrite narrowed_decision_iff by done.
  change (mjoin [plain]) with (plain ++ []). rewrite List.app_nil_r. apply or_iff_compat_l, exist_proper. intros g. by apply earned_distinct.
Qed.

Definition grant_calc : HTTPGrant :=
  {| hg_service := "mcp://calc"; hg_methods := ["GET"]; hg_paths := ["/v1/*"] |}.

Definition world_calc (m p : string) : world :=
  World (narrowed_facts [["a2a://*"]] [grant_calc] "mcp" "calc" m p []) (narrowed_rules []) [] BaselinePolicies.

Lemma http_narrowing_witness :
  authorize (BiscuitEngine := naive_engine) (world_calc "GET" "/v1/sum") = Success ∧
  authorize (BiscuitEngine := naive_engine) (world_calc "POST" "/v1/sum") ≠ Success.
Proof.
  split.
  - apply (@http_narrowing naive_engine ["a2a://*"] [grant_calc] "mcp" "calc" "GET" "/v1/sum" [] []).
    + by intros f ?%not_elem_of_nil.
    + by intros f ?%not_elem_of_nil.
    + by apply (bool_decide_unpack _).
    + by vm_compute.
    + right. exists grant_calc. split_and!; [by left|by vm_compute..].
  - by vm_compute.
Defined.

(** A role whose HTTP entries all validate can still combine them: the
    entries "mcp://calc." (GET /a) and "mcp://calc.*" (POST /b) share a key,
    so a GET of /b on "calc.x" is granted although the first entry does not
    cover that name and the second permits POST only. *)
Theorem http_entries_combine :
  let g1 := {| hg_service := "mcp://calc."; hg_methods := ["GET"]; hg_paths := ["/a"] |} in
  let g2 := {| hg_service := "mcp://calc.*"; hg_methods := ["POST"]; hg_paths := ["/b"] |} in
  ValidateHTTPGrants [Some g1; Some g2] ["mcp://calc."; "mcp://calc.*"] = Ok tt ∧
  authorize (BiscuitEngine := naive_engine)
    (World (narrowed_facts [] [g1; g2] "mcp" "calc.x" "GET" "/b" []) (narrowed_rules []) [] BaselinePolicies) = Success ∧
  service_covers (hg_service g1) "mcp" "calc.x" = false ∧ method_permitted g2 "GET" = false.
Proof. by vm_compute. Qed.

(** Narrowed grants of two roles combine as well: a holder of a role that
    narrows "mcp://calc" to GET /a and of one that narrows it to POST /b is
    granted POST /a, which neither role grants. *)
Theorem http_roles_combine :
  let g1 := {| hg_service := "mcp://calc"; hg_methods := ["GET"]; hg_paths := ["/a"] |} in
  let g2 := {| hg_service := "mcp://calc"; hg_methods := ["POST"]; hg_paths := ["/b"] |} in
  ValidateHTTPGrants [Some g1] ["mcp://calc"] = Ok tt ∧
  ValidateHTTPGrants [Some g2] ["mcp://calc"] = Ok tt ∧
  authorize (BiscuitEngine := naive_engine)
    (World (narrowed_facts [] [g1; g2] "mcp" "calc" "POST" "/a" []) (narrowed_rules []) [] BaselinePolicies) = Success ∧
  method_permitted g1 "POST" = false ∧ path_permitted g2 "/a" = false.
Proof. by vm_compute. Qed.
