(* ===== verification/PolicyRules.v ===== *)
(** * The mesh policy as Datalog rules

    [BuildPolicyRules] turns roles and bindings into the rules a provider adds
    to its authorizer, in syntax and as text ([src/api/policy_rules.go]).
    Decoding a peer ID is libp2p's and is an interface here. *)

From S2P Require Import Prelude GoStrings Regex Names Biscuit NaiveEngine Facts DatalogText Grants Labels HTTPGrants.

(** [peer.Decode] followed by [String]: any encoding of a peer ID to its
    canonical one. *)
Class PeerCodec := {
  peer_Decode : string → result string;
  peer_Decode_canonical s id : peer_Decode s = Ok id → peer_Decode id = Ok id;
}.

(** ** Messages *)

Definition SystemAuthenticated : string := "mesh:system:authenticated".

Record PolicyBinding := { binding_role : string; binding_members : list string }.

(** ** Binding members *)

Definition ValidateBindingMember (member : string) : result unit :=
  if bool_decide (member = SystemAuthenticated) then Ok tt
  else
    match SplitN2 member ":" with
    | [prefix; value] =>
        fail_if (bool_decide (TrimSpace value = "")) "member is invalid, must be in format 'type:value'";;
        fail_if (negb (slices_Contains BindingMemberPrefixes prefix)) "member prefix is invalid";;
        wrap_err "member is invalid" (validateBindingMemberCharset value);;
        if Contains value "*" then
          fail_if (bool_decide (prefix = FactNode)) "wildcard is not permitted in node binding member";;
          fail_if (bool_decide (value = "*")) "bare wildcard is not permitted";;
          let leading := HasPrefix value "*" && negb (Contains (str_drop 1 value) "*") in
          let trailing := HasSuffix value "*" && negb (Contains (str_take (len value - 1) value) "*") in
          fail_if (negb leading && negb trailing) "wildcard must be a single leading or trailing '*'"
        else Ok tt
    | _ => fail "member is invalid, must be in format 'type:value'"
    end.

Definition MatchBindingMemberValue (candidates : list string) (pattern : string) : bool :=
  if bool_decide (pattern = "") || bool_decide (pattern = "*") then false
  else if Contains pattern "*" then
    if HasSuffix pattern "*" && negb (Contains (str_take (len pattern - 1) pattern) "*") then
      existsb (λ c, HasPrefix c (str_take (len pattern - 1) pattern)) candidates
    else if HasPrefix pattern "*" && negb (Contains (str_drop 1 pattern) "*") then
      existsb (λ c, HasSuffix c (str_drop 1 pattern)) candidates
    else false
  else slices_Contains candidates pattern.

(** ** Rules *)

Record PolicyRule := { pr_Rule : rule; pr_Text : string }.

(** What a step of [BuildPolicyRules] appends: rules and warnings. *)
Definition output : Type := list PolicyRule * list string.

Definition nothing : output := ([], []).
Definition warn (msg : string) : output := ([], [msg]).
Definition then_ (a b : output) : output := (a.1 ++ b.1, a.2 ++ b.2).
Definition for_all {A} (f : A → output) (l : list A) : output := foldr (λ x acc, then_ (f x) acc) nothing l.

Section build.
Context `{BiscuitText, UnicodePrint, PeerCodec}.

Definition renderRule (r : rule) : string :=
  if bool_decide (length (r_body r) = 0) then predicate_String (r_head r) +:+ " <- true"
  else predicate_String (r_head r) +:+ " <- " +:+ Join (predicate_String <$> r_body r) ", ".

Definition emit (r : rule) (text : string) : output := ([{| pr_Rule := r; pr_Text := text |}], []).

(** The closure [add]. *)
Definition add (head : predicate) (body : list predicate) : output :=
  let r := Rule head body [] in emit r (renderRule r).

(** The text of a wildcard member, or why there is none. *)
Definition wildcard_text (role prefix value : string) : string + string :=
  let roleLiteral := FactRole +:+ "(" +:+ strconv_Quote role +:+ ")" in
  if bool_decide (value = "*") then inr "Binding member has a bare wildcard and grants role to nobody"
  else if HasSuffix value "*" && negb (Contains (str_take (len value - 1) value) "*") then
    inl (roleLiteral +:+ " <- " +:+ prefix +:+ "($v), $v.starts_with("
         +:+ strconv_Quote (str_take (len value - 1) value) +:+ ")")
  else if HasPrefix value "*" && negb (Contains (str_drop 1 value) "*") then
    inl (roleLiteral +:+ " <- " +:+ prefix +:+ "($v), $v.ends_with("
         +:+ strconv_Quote (str_drop 1 value) +:+ ")")
  else inr "Binding member has an invalid wildcard and grants role to nobody".

Definition role_head (role : string) : predicate := Pred FactRole [TVal (VStr role)].

(** One member of a binding of [role]. *)
Definition member_rules (role m : string) : output :=
  if bool_decide (m = SystemAuthenticated) then add (role_head role) []
  else
    match SplitN2 m ":" with
    | [prefix; value] =>
        if negb (slices_Contains BindingMemberPrefixes prefix) then nothing
        else if bool_decide (prefix = FactNode) then
          match peer_Decode value with
          | Err _ => warn "Binding member is not a peer ID and grants role to nobody"
          | Ok id => add (role_head role) [Pred prefix [TVal (VStr id)]]
          end
        else
          match validateBindingMemberCharset value with
          | Err _ => warn "Binding member has a disallowed character and grants role to nobody"
          | Ok _ =>
              if Contains value "*" then
                match wildcard_text role prefix value with
                | inr w => warn w
                | inl text =>
                    match FromStringRule text with
                    | Err _ => warn "Failed to parse wildcard binding rule"
                    | Ok r => emit r text
                    end
                end
              else add (role_head role) [Pred prefix [TVal (VStr value)]]
          end
    | _ => nothing
    end.

Definition binding_rules (ob : option PolicyBinding) : output :=
  match ob with
  | None => nothing
  | Some b =>
      match ValidateRoleName (binding_role b) with
      | Err _ => warn "Binding has invalid role"
      | Ok _ => for_all (member_rules (binding_role b)) (binding_members b)
      end
  end.

(** ** Roles *)

(** What becomes of one [allowed_targets] entry: the unrestricted marker, a
    target to grant, or a warning. *)
Inductive target_entry :=
| TgtUnrestricted
| TgtGrant (t : string)
| TgtSkip (warning : string).

Definition classify_target (t : string) : target_entry :=
  if bool_decide (t = "*") then TgtUnrestricted
  else if bool_decide (t = "") || negb (is_ok (validateBindingMemberCharset t)) then
    TgtSkip "target has invalid characters and is skipped"
  else
    let '(tFact, tVal) := ParseServiceTarget t in
    if bool_decide (tVal = "") || (negb (bool_decide (tFact = "")) && negb (is_ok (ValidateLabelKey tFact))) then
      TgtSkip "target has invalid format and is skipped"
    else if bool_decide (tFact = FactNode) && negb (bool_decide (tVal = "*")) then
      match peer_Decode tVal with
      | Err _ => TgtSkip "target has invalid Peer ID and is skipped"
      | Ok id => TgtGrant (tFact +:+ ":" +:+ id)
      end
    else TgtGrant t.

Definition is_unrestricted (e : target_entry) : bool := match e with TgtUnrestricted => true | _ => false end.
Definition granted_targets (es : list target_entry) : list string :=
  omap (λ e, match e with TgtGrant t => Some t | _ => None end) es.
Definition target_warnings (es : list target_entry) : list string :=
  omap (λ e, match e with TgtSkip w => Some w | _ => None end) es.

(** One [custom_datalog] entry of a role whose [role()] predicate is [fromRole]. *)
Definition custom_rules (fromRole : predicate) (dl : string) : output :=
  let trimmed := TrimRight (TrimSpace dl) ";" in
  if bool_decide (trimmed = "") then nothing
  else
    match FromStringRule trimmed with
    | Ok _ =>
        let '(headStr, bodyStr, _) := Cut trimmed "<-" in
        let scopedText := TrimSpace headStr +:+ " <- " +:+ predicate_String fromRole +:+ ", " +:+ TrimSpace bodyStr in
        match FromStringRule scopedText with
        | Err _ => warn "Failed to scope custom Datalog rule"
        | Ok r => emit r scopedText
        end
    | Err _ =>
        match FromStringFact trimmed with
        | Ok f => add (fact_predicate f) [fromRole]
        | Err _ => warn "Failed to parse custom Datalog rule/fact"
        end
    end.

Definition facts_from (fromRole : predicate) (fs : list fact) : output :=
  for_all (λ f, add (fact_predicate f) [fromRole]) fs.

Definition role_rules (orole : option PolicyRole) : output :=
  match orole with
  | None => nothing
  | Some role =>
      match ValidateRoleName (role_name role) with
      | Err _ => warn "Role has invalid name"
      | Ok _ =>
          let fromRole := role_head (role_name role) in
          let '(plainServices, narrowed) := SplitHTTPGrants role in
          let entries := classify_target <$> role_allowed_targets role in
          let nonWildcardTargets := granted_targets entries in
          then_ (facts_from fromRole (BuildServiceDatalogFacts plainServices)) (
          then_ (for_all (λ g, facts_from fromRole (BuildHTTPGrantFacts g)) narrowed) (
          then_ (facts_from fromRole (BuildPublishDatalogFacts (role_allowed_publish role))) (
          then_ ([], target_warnings entries) (
          then_ (if existsb is_unrestricted entries
                 then add (fact_predicate (MarkerFact FactTargetUnrestricted)) [fromRole] else nothing) (
          then_ (if bool_decide (0 < length nonWildcardTargets)
                 then add (fact_predicate (MarkerFact FactTargetRestricted)) [fromRole] else nothing) (
          then_ (facts_from fromRole (BuildTargetDatalogFacts nonWildcardTargets))
                (for_all (custom_rules fromRole) (role_custom_datalog role))))))))
      end
  end.

Definition BuildPolicyRules (roles : list (option PolicyRole)) (bindings : list (option PolicyBinding)) : output :=
  then_ (for_all binding_rules bindings) (for_all role_rules roles).

Definition PolicyRuleTexts (rules : list PolicyRule) : list string := pr_Text <$> rules.

(** One entry that does not parse fails the whole set. *)
Definition ParseDatalogRules (texts : list string) : result (list rule) :=
  collect (λ text, wrap_err "datalog_rules" (FromStringRule text)) texts.
End build.

(** ** The text says what the rules say *)

Section text.
Context `{BiscuitText, UnicodePrint, PeerCodec}.

(** Every rule is either printed from its syntax or parsed from its text. *)
Definition well_emitted (pr : PolicyRule) : Prop :=
  (pr_Text pr = renderRule (pr_Rule pr) ∧ r_exprs (pr_Rule pr) = []) ∨
  FromStringRule (pr_Text pr) = Ok (pr_Rule pr).

Definition out_ok (o : output) : Prop := Forall well_emitted o.1.

Lemma out_nothing : out_ok nothing.
Proof. constructor. Qed.
Lemma out_warn w : out_ok (warn w).
Proof. constructor. Qed.
Lemma out_warnings ws : out_ok ([], ws).
Proof. constructor. Qed.
Lemma out_then a b : out_ok a → out_ok b → out_ok (then_ a b).
Proof. unfold out_ok. simpl. rewrite Forall_app. done. Qed.
Lemma out_for_all {A} (f : A → output) l : (∀ x, out_ok (f x)) → out_ok (for_all f l).
Proof. intros Hf. induction l; simpl; [constructor|]. by apply out_then. Qed.
Lemma out_add h b : out_ok (add h b).
Proof. repeat constructor. Qed.
Lemma out_emit r text : FromStringRule text = Ok r → out_ok (emit r text).
Proof. intros Hr. constructor; [by right|constructor]. Qed.
#[local] Hint Resolve out_nothing out_warn out_warnings out_then out_for_all out_add out_emit : mesh.

Lemma out_member role m : out_ok (member_rules role m).
Proof. unfold member_rules. repeat case_match; auto with mesh. Qed.
Lemma out_custom p dl : out_ok (custom_rules p dl).
Proof. unfold custom_rules. repeat case_match; auto with mesh. Qed.
Lemma out_facts p fs : out_ok (facts_from p fs).
Proof. unfold facts_from. auto with mesh. Qed.
#[local] Hint Resolve out_member out_custom out_facts : mesh.

Lemma out_binding b : out_ok (binding_rules b).
Proof. unfold binding_rules. repeat case_match; auto with mesh. Qed.
Lemma out_role r : out_ok (role_rules r).
Proof. unfold role_rules. repeat case_match; auto 15 with mesh. Qed.

Lemma out_policy roles bindings : out_ok (BuildPolicyRules roles bindings).
Proof. apply out_then; apply out_for_all; auto using out_binding, out_role. Qed.

(** Two rules mean the same: they are equal, or an unconditional rule got the
    body [true]. *)
Definition same_rule (r r' : rule) : Prop :=
  r' = r ∨ (r_body r = [] ∧ r_exprs r = [] ∧ r' = Rule (r_head r) [] [ETerm TTrue]).

Lemma same_rule_derives F R R' f : Forall2 same_rule R R' → derives F R f → derives F R' f.
Proof.
  intros HR. induction 1 as [f Hf|r σ Hr _ IH He]; [by constructor|].
  apply list_elem_of_lookup in Hr as [i Hi]. destruct (Forall2_lookup_l _ _ _ _ _ HR Hi) as (r' & Hi' & Hs).
  apply list_elem_of_lookup_2 in Hi'. destruct Hs as [->|(Hb & Hx & ->)].
  - by apply derives_rule.
  - apply (derives_rule _ _ (Rule (r_head r) [] [ETerm TTrue]) σ); [done|by intros ? ?%not_elem_of_nil|].
    intros e ->%list_elem_of_singleton. done.
Qed.

Lemma same_rule_derives_back F R R' f : Forall2 same_rule R R' → derives F R' f → derives F R f.
Proof.
  intros HR. induction 1 as [f Hf|r σ Hr _ IH He]; [by constructor|].
  apply list_elem_of_lookup in Hr as [i Hi]. destruct (Forall2_lookup_r _ _ _ _ _ HR Hi) as (r' & Hi' & Hs).
  apply list_elem_of_lookup_2 in Hi'. destruct Hs as [->|(Hb & Hx & ->)].
  - by apply derives_rule.
  - apply (derives_rule _ _ r' σ); [done|..]; [rewrite Hb|rewrite Hx]; by intros ? ?%not_elem_of_nil.
Qed.

Definition plain_rule (r : rule) : bool := forallb plain_predicate (r_head r :: r_body r).

Lemma mk_rule_preds h b : mk_rule h (EP <$> b) = Rule h b [].
Proof.
  unfold mk_rule. f_equal; unfold preds, exprs; induction b as [|q b IH]; simpl; [done| |done|done].
  by f_equal.
Qed.

Lemma renderRule_plain r :
  plain_rule r = true → r_exprs r = [] →
  ∃ r', FromStringRule (renderRule r) = Ok r' ∧ same_rule r r'.
Proof.
  destruct r as [h b e]. unfold plain_rule, renderRule, same_rule. simpl. intros [Hh Hb]%andb_prop ->.
  rewrite predicate_String_plain by done. case_bool_decide as Hl.
  - apply nil_length_inv in Hl as ->. exists (Rule h [] [ETerm TTrue]). split; [|by right].
    by apply (FromStringRule_plain h [EE (ETerm TTrue)]).
  - exists (Rule h b []). split; [|by left]. rewrite <-mk_rule_preds.
    assert (Ht : show_predicate h +:+ " <- " +:+ Join (predicate_String <$> b) ", " = show_rule h (EP <$> b)).
    { unfold show_rule, show_body. do 3 f_equal. rewrite <-list_fmap_compose. apply list_fmap_ext.
      intros i q Hq%list_elem_of_lookup_2. rewrite forallb_True in Hb. by apply predicate_String_plain, Hb. }
    rewrite Ht. apply FromStringRule_plain; [done|]. unfold plain_body.
    rewrite length_fmap, bool_decide_false by done. simpl. apply forallb_True.
    intros el (q & -> & Hq)%list_elem_of_fmap. rewrite forallb_True in Hb. by apply Hb.
Qed.

Definition policy_plain (rules : list PolicyRule) : Prop :=
  ∀ pr, pr ∈ rules → r_exprs (pr_Rule pr) = [] → plain_rule (pr_Rule pr) = true.

(** Every text [BuildPolicyRules] writes parses, to a rule that means what the
    rule it was written from means. *)
Lemma policy_text_rules roles bindings :
  let rules := (BuildPolicyRules roles bindings).1 in
  policy_plain rules →
  ∃ R', ParseDatalogRules (PolicyRuleTexts rules) = Ok R' ∧ Forall2 same_rule (pr_Rule <$> rules) R'.
Proof.
  intros rules Hplain. pose proof (out_policy roles bindings) as Hok. unfold out_ok in Hok. fold rules in Hok.
  clearbody rules. unfold ParseDatalogRules, PolicyRuleTexts. induction rules as [|pr rules IH]; simpl.
  - exists []. by split.
  - apply Forall_cons in Hok as [Hpr Hok]. destruct IH as (R' & HC & HR); [intros q Hq; apply Hplain; by right|done|].
    assert (Hr : ∃ r', FromStringRule (pr_Text pr) = Ok r' ∧ same_rule (pr_Rule pr) r').
    { destruct Hpr as [[-> Hx]|Hpr]; [|exists (pr_Rule pr); split; [done|by left]].
      apply renderRule_plain; [|done]. apply Hplain; [by left|done]. }
    destruct Hr as (r' & -> & Hs). simpl. unfold fmap in HC. rewrite HC. exists (r' :: R').
    split; [done|]. by constructor.
Qed.

(** A policy sent as text keeps its meaning: every text [BuildPolicyRules]
    writes parses, and the rules a provider parses derive exactly what the
    rules the control plane built derive, from any facts and beside any other
    rules.  The rules without expressions must be plain, that is, no string can
    end its own literal. *)
Theorem policy_text_meaning roles bindings :
  let rules := (BuildPolicyRules roles bindings).1 in
  policy_plain rules →
  ∃ R', ParseDatalogRules (PolicyRuleTexts rules) = Ok R' ∧
        ∀ F R0 f, derives F (R0 ++ (pr_Rule <$> rules)) f ↔ derives F (R0 ++ R') f.
Proof.
  intros rules Hplain. destruct (policy_text_rules roles bindings Hplain) as (R' & HP & HR). exists R'. split; [done|].
  intros F R0 f. assert (HR0 : Forall2 same_rule (R0 ++ (pr_Rule <$> rules)) (R0 ++ R')).
  { apply Forall2_app; [|done]. apply Forall_Forall2_diag, Forall_true. by left. }
  split; eauto using same_rule_derives, same_rule_derives_back.
Qed.
End text.

(** ** Bindings grant roles by matching members *)

(** The values of the one-term facts named [prefix]. *)
Definition candidates (prefix : string) (F : list fact) : list string :=
  omap (λ f, match f with
             | Fact n [VStr v] => if bool_decide (n = prefix) then Some v else None
             | _ => None
             end) F.

Lemma elem_of_candidates prefix F v : v ∈ candidates prefix F ↔ Fact prefix [VStr v] ∈ F.
Proof.
  unfold candidates. rewrite list_elem_of_omap. split.
  - intros ([n us] & Hf & Hm). repeat case_match; simplify_eq. bool_split. done.
  - intros Hf. exists (Fact prefix [VStr v]). split; [done|]. by rewrite bool_decide_true.
Qed.

Section bindings.
Context `{BiscuitText, UnicodePrint, PeerCodec}.

(** An identity with the facts [F] matches a binding member. *)
Definition member_matches (F : list fact) (m : string) : bool :=
  bool_decide (m = SystemAuthenticated) ||
  match SplitN2 m ":" with
  | [prefix; value] =>
      if bool_decide (prefix = FactNode) then
        match peer_Decode value with
        | Ok id => slices_Contains (candidates FactNode F) id
        | Err _ => false
        end
      else MatchBindingMemberValue (candidates prefix F) value
  | _ => false
  end.

(** The body of [r] is satisfied by the facts themselves. *)
Definition fires (F : list fact) (r : rule) : Prop :=
  ∃ σ, (∀ p, p ∈ r_body r → inst σ p ∈ F) ∧ (∀ e, e ∈ r_exprs r → sat σ e).

Lemma fires_nil F h : fires F (Rule h [] []).
Proof. exists (λ _, MarkerTerm). split; by intros ? ?%not_elem_of_nil. Qed.

Lemma fires_fact F h n v : fires F (Rule h [Pred n [TVal (VStr v)]] []) ↔ v ∈ candidates n F.
Proof.
  rewrite elem_of_candidates. split.
  - intros (σ & Hb & _). apply (Hb (Pred n [TVal (VStr v)])). by left.
  - intros Hf. exists (λ _, MarkerTerm). split; [|by intros ? ?%not_elem_of_nil].
    intros p ->%list_elem_of_singleton. done.
Qed.

(** A rule [h <- n($v), op($v, lit)] over strings. *)
Lemma fires_affix F h n w op (test : string → string → bool) :
  (∀ σ, eval σ (op (var "v") (lit w)) =
        match σ "v" with VStr s => Some (VAtom (ABool (test s w))) | _ => None end) →
  fires F (Rule h [pv n ["v"]] [op (var "v") (lit w)]) ↔ existsb (λ c, test c w) (candidates n F) = true.
Proof.
  intros Hop. rewrite existsb_True. setoid_rewrite elem_of_candidates. split.
  - intros (σ & Hb & He). specialize (Hb (pv n ["v"]) ltac:(by left)).
    specialize (He (op (var "v") (lit w)) ltac:(by left)). unfold sat in He. rewrite Hop in He.
    unfold inst in Hb. simpl in Hb. destruct (σ "v") as [[]|]; simplify_eq. eauto.
  - intros (c & Hf & Ht). exists (λ _, VStr c). split.
    + intros p ->%list_elem_of_singleton. done.
    + intros e ->%list_elem_of_singleton. unfold sat. by rewrite Hop, Ht.
Qed.

Lemma BindingMemberPrefixes_ident prefix :
  prefix ∈ BindingMemberPrefixes → ident prefix = true ∧ prefix ≠ FactRole.
Proof.
  assert (Hall : forallb (λ n, ident n && negb (bool_decide (n = FactRole))) BindingMemberPrefixes = true)
    by (by vm_compute).
  rewrite forallb_True in Hall. intros [? Hn]%Hall%andb_prop. bool_split. done.
Qed.

(** The wildcard text parses to the rule it is meant to be. *)
Lemma printable_sub s t : printable t = true → (∀ c, c ∈ chars s → c ∈ chars t) → printable s = true.
Proof. unfold printable. rewrite !str_forallb_spec. auto. Qed.

Lemma chars_take n s c : c ∈ chars (str_take n s) → c ∈ chars s.
Proof. intros Hc. rewrite <-(take_drop n s), chars_app, elem_of_app. by left. Qed.
Lemma chars_drop n s c : c ∈ chars (str_drop n s) → c ∈ chars s.
Proof. intros Hc. rewrite <-(take_drop n s), chars_app, elem_of_app. by right. Qed.

Lemma wildcard_parse role prefix w op word :
  printable role = true → printable w = true → ident prefix = true →
  (op = EStartsWith ∧ word = ".starts_with(") ∨ (op = EEndsWith ∧ word = ".ends_with(") →
  FromStringRule ((FactRole +:+ "(" +:+ strconv_Quote role +:+ ")") +:+ " <- " +:+ prefix +:+ "($v), $v"
                  +:+ word +:+ strconv_Quote w +:+ ")") =
  Ok (Rule (role_head role) [pv prefix ["v"]] [op (var "v") (lit w)]).
Proof.
  intros Hr Hw Hp Hop. rewrite !strconv_Quote_printable by done.
  pose proof (FromStringRule_plain (role_head role) [EPv prefix ["v"]; EE (op (var "v") (lit w))]) as Hlaw.
  assert (Ht : show_rule (role_head role) [EPv prefix ["v"]; EE (op (var "v") (lit w))] =
    (FactRole +:+ "(" +:+ quoted role +:+ ")") +:+ " <- " +:+ prefix +:+ "($v), $v" +:+ word +:+ quoted w +:+ ")").
  { destruct Hop as [[-> ->]|[-> ->]].
    - change ((FactRole +:+ "(" +:+ quoted role +:+ ")") +:+ " <- " +:+ (prefix +:+ "(" +:+ "$v" +:+ ")") +:+ ", " +:+
              ("$v" +:+ ".starts_with(" +:+ quoted w +:+ ")") =
              (FactRole +:+ "(" +:+ quoted role +:+ ")") +:+ " <- " +:+ prefix +:+ "($v), $v" +:+ ".starts_with(" +:+ quoted w +:+ ")").
      by rewrite !app_assoc.
    - change ((FactRole +:+ "(" +:+ quoted role +:+ ")") +:+ " <- " +:+ (prefix +:+ "(" +:+ "$v" +:+ ")") +:+ ", " +:+
              ("$v" +:+ ".ends_with(" +:+ quoted w +:+ ")") =
              (FactRole +:+ "(" +:+ quoted role +:+ ")") +:+ " <- " +:+ prefix +:+ "($v), $v" +:+ ".ends_with(" +:+ quoted w +:+ ")").
      by rewrite !app_assoc. }
  rewrite <-Ht. apply Hlaw.
  - unfold plain_predicate. simpl. by rewrite printable_plain.
  - unfold plain_body. cbn [forallb plain_element]. rewrite !andb_true_iff. split_and!; [done| | |done].
    + unfold plain_predicate. cbn [p_name pv]. by rewrite Hp.
    + destruct Hop as [[-> _]|[-> _]]; cbn [plain_expr plain_term plain_value plain_atom];
        by rewrite printable_plain.
Qed.

(** What a member that validates contributes. *)
Definition member_ok (role m : string) : Prop :=
  ValidateBindingMember m = Ok tt ∧ printable role = true ∧ printable m = true.

(** The two shapes of a member that validates. *)
Lemma member_ok_cases role m :
  member_ok role m →
  m = SystemAuthenticated ∨
  ∃ prefix value, m ≠ SystemAuthenticated ∧ SplitN2 m ":" = [prefix; value] ∧
    prefix ∈ BindingMemberPrefixes ∧ validateBindingMemberCharset value = Ok tt ∧
    value ≠ "" ∧ printable role = true ∧ printable value = true ∧
    (Contains value "*" = true → prefix ≠ FactNode ∧ value ≠ "*" ∧
       (HasSuffix value "*" && negb (Contains (str_take (len value - 1) value) "*") = true ∨
        HasPrefix value "*" && negb (Contains (str_drop 1 value) "*") = true)).
Proof.
  intros (Hv & Hrole & Hm). unfold ValidateBindingMember in Hv.
  case_bool_decide as Hsys; [by left|right].
  destruct (SplitN2 m ":") as [|prefix [|value [|? ?]]] eqn:Es; try done.
  rewrite !bind_unit_Ok, !fail_if_Ok, wrap_err_Ok, bool_decide_eq_false, negb_false_iff, slices_Contains_true in Hv.
  destruct Hv as (Hne & Hp & Hc & Hw). exists prefix, value. apply SplitN2_pair in Es as [-> _].
  split_and!; try done.
  - intros ->. by vm_compute in Hne.
  - eapply printable_sub; [exact Hm|]. intros c Hin. rewrite chars_app, elem_of_app. right. by right.
  - intros Hstar. rewrite Hstar in Hw. rewrite !bind_unit_Ok, !fail_if_Ok, !bool_decide_eq_false in Hw.
    destruct Hw as (? & ? & Hw). split_and!; [done..|]. apply andb_false_iff in Hw.
    rewrite !negb_false_iff in Hw. tauto.
Qed.

(** A member that validates contributes at most one rule, whose head is the
    role, and which fires exactly on the identities that match the member. *)
Definition member_spec (F : list fact) (role m : string) (o : output) : Prop :=
  (∀ pr, pr ∈ o.1 → r_head (pr_Rule pr) = role_head role ∧
                    ∀ p, p ∈ r_body (pr_Rule pr) → p_name p ∈ BindingMemberPrefixes) ∧
  ((∃ pr, pr ∈ o.1 ∧ fires F (pr_Rule pr)) ↔ member_matches F m = true).

Lemma member_spec_emit F role m b e text :
  (∀ p, p ∈ b → p_name p ∈ BindingMemberPrefixes) →
  (fires F (Rule (role_head role) b e) ↔ member_matches F m = true) →
  member_spec F role m (emit (Rule (role_head role) b e) text).
Proof.
  intros Hb Hf. split; simpl.
  - intros pr ->%list_elem_of_singleton. done.
  - rewrite <-Hf. split; [by intros (pr & ->%list_elem_of_singleton & ?)|]. intros ?. eexists. split; [by left|done].
Qed.

Lemma member_spec_warn F role m w : member_matches F m = false → member_spec F role m (warn w).
Proof.
  intros Hm. split; simpl; [by intros pr ?%not_elem_of_nil|]. rewrite Hm. split; [|done].
  by intros (pr & ?%not_elem_of_nil & _).
Qed.

(** The wildcard case: which operation the pattern means. *)
Lemma wildcard_spec F role prefix value m :
  prefix ∈ BindingMemberPrefixes → prefix ≠ FactNode → m ≠ SystemAuthenticated → SplitN2 m ":" = [prefix; value] →
  printable role = true → printable value = true → Contains value "*" = true → value ≠ "*" → value ≠ "" →
  (HasSuffix value "*" && negb (Contains (str_take (len value - 1) value) "*") = true ∨
   HasPrefix value "*" && negb (Contains (str_drop 1 value) "*") = true) →
  ∃ text r, wildcard_text role prefix value = inl text ∧ FromStringRule text = Ok r ∧
            member_spec F role m (emit r text).
Proof.
  intros Hp Hnode Hsys Hs Hrole Hval Hstar Hne1 Hne2 Haff. destruct (BindingMemberPrefixes_ident prefix Hp) as [Hid Hnr].
  assert (Hm : member_matches F m = MatchBindingMemberValue (candidates prefix F) value).
  { unfold member_matches. by rewrite Hs, !bool_decide_false. }
  unfold MatchBindingMemberValue in Hm. rewrite !bool_decide_false, Hstar in Hm by done. cbn [orb] in Hm.
  unfold wildcard_text. rewrite bool_decide_false by done.
  destruct (HasSuffix value "*" && _) eqn:E1; [|destruct (HasPrefix value "*" && _) eqn:E2; [|by destruct Haff]].
  - do 2 eexists. split; [done|]. split.
    { apply (wildcard_parse role prefix _ EStartsWith ".starts_with("); try done; [|by left].
      eapply printable_sub; [exact Hval|]. intros c. apply chars_take. }
    apply member_spec_emit; [by intros p ->%list_elem_of_singleton|]. rewrite Hm.
    apply fires_affix. intros σ. simpl. by destruct (σ "v") as [[]|].
  - do 2 eexists. split; [done|]. split.
    { apply (wildcard_parse role prefix _ EEndsWith ".ends_with("); try done; [|by right].
      eapply printable_sub; [exact Hval|]. intros c. apply chars_drop. }
    apply member_spec_emit; [by intros p ->%list_elem_of_singleton|]. rewrite Hm.
    apply fires_affix. intros σ. simpl. by destruct (σ "v") as [[]|].
Qed.

Lemma member_rules_spec F role m : member_ok role m → member_spec F role m (member_rules role m).
Proof.
  intros Hok. destruct (member_ok_cases role m Hok) as [->|(prefix & value & Hsys & Hs & Hp & Hc & Hne & Hr & Hv & Hw)].
  { apply member_spec_emit; [by intros p ?%not_elem_of_nil|]. split; [done|]. intros _. apply fires_nil. }
  unfold member_rules. rewrite bool_decide_false, Hs by done.
  rewrite (proj2 (slices_Contains_true _ _) Hp). cbn [negb].
  destruct (BindingMemberPrefixes_ident prefix Hp) as [_ Hnr].
  destruct (decide (prefix = FactNode)) as [->|Hnode].
  - rewrite bool_decide_true by done.
    assert (Hm : member_matches F m = match peer_Decode value with
                 | Ok id => slices_Contains (candidates FactNode F) id | Err _ => false end).
    { unfold member_matches. by rewrite Hs, bool_decide_false. }
    destruct (peer_Decode value) as [id|e]; [|by apply member_spec_warn].
    apply member_spec_emit; [by intros p ->%list_elem_of_singleton|].
    by rewrite Hm, fires_fact, slices_Contains_true.
  - rewrite bool_decide_false, Hc by done. destruct (Contains value "*") eqn:Estar.
    + destruct (Hw eq_refl) as (_ & Hv' & Haff).
      destruct (wildcard_spec F role prefix value m) as (text & r & -> & -> & Hspec); done.
    + apply member_spec_emit; [by intros p ->%list_elem_of_singleton|].
      unfold member_matches. rewrite Hs, !bool_decide_false by done. cbn [orb]. unfold MatchBindingMemberValue.
      rewrite (bool_decide_false (value = "")) by done.
      rewrite (bool_decide_false (value = "*")) by (intros ->; done).
      cbn [orb]. by rewrite Estar, fires_fact, slices_Contains_true.
Qed.

Lemma elem_of_for_all {A} (f : A → output) l pr :
  pr ∈ (for_all f l).1 ↔ ∃ x, x ∈ l ∧ pr ∈ (f x).1.
Proof.
  induction l as [|x l IH]; simpl.
  - rewrite elem_of_nil. split; [done|]. by intros (x & ?%not_elem_of_nil & _).
  - rewrite elem_of_app, IH. setoid_rewrite elem_of_cons. naive_solver.
Qed.

Definition bindings_ok (bindings : list (option PolicyBinding)) : Prop :=
  ∀ b, Some b ∈ bindings →
    ValidateRoleName (binding_role b) = Ok tt ∧ ∀ m, m ∈ binding_members b → member_ok (binding_role b) m.

Lemma elem_of_binding_rules bindings pr :
  bindings_ok bindings →
  pr ∈ (for_all binding_rules bindings).1 ↔
  ∃ b m, Some b ∈ bindings ∧ m ∈ binding_members b ∧ pr ∈ (member_rules (binding_role b) m).1.
Proof.
  intros Hok. rewrite elem_of_for_all. split.
  - intros ([b|] & Hb & Hpr); [|by apply not_elem_of_nil in Hpr]. unfold binding_rules in Hpr.
    destruct (Hok b Hb) as [Hr _]. rewrite Hr in Hpr. apply elem_of_for_all in Hpr as (m & Hm & Hpr). eauto 10.
  - intros (b & m & Hb & Hm & Hpr). exists (Some b). split; [done|]. unfold binding_rules.
    destruct (Hok b Hb) as [-> _]. apply elem_of_for_all. eauto.
Qed.

(** A binding of the role [ρ] has a member that the facts [F] match. *)
Definition role_bound (F : list fact) (bindings : list (option PolicyBinding)) (ρ : string) : bool :=
  existsb (λ ob, match ob with
                 | Some b => bool_decide (binding_role b = ρ) && existsb (member_matches F) (binding_members b)
                 | None => false
                 end) bindings.

Lemma role_bound_true F bindings ρ :
  role_bound F bindings ρ = true ↔
  ∃ b m, Some b ∈ bindings ∧ binding_role b = ρ ∧ m ∈ binding_members b ∧ member_matches F m = true.
Proof.
  unfold role_bound. rewrite existsb_True. split.
  - intros ([b|] & Hb & Hm); [|done]. apply andb_prop in Hm as [Hr%bool_decide_eq_true Hm].
    apply existsb_True in Hm as (m & ? & ?). eauto 10.
  - intros (b & m & Hb & Hr & Hm & Hmatch). exists (Some b). split; [done|]. rewrite bool_decide_true by done.
    apply existsb_True. eauto.
Qed.

(** The names that the binding rules read and derive. *)
Definition binding_names : list string := FactRole :: BindingMemberPrefixes.

(** The Datalog a provider runs agrees with the matcher the control plane
    runs: from the facts [F], the binding rules derive exactly the roles [F]
    states and the roles of the bindings one of whose members [F] matches, by
    [MatchBindingMemberValue] or by decoding a peer ID, beside any rules that
    derive neither roles nor identity facts. *)
Lemma bindings_grant_in F R bindings ρ :
  bindings_ok bindings → (pr_Rule <$> (for_all binding_rules bindings).1) ⊆ R →
  (∀ r, r ∈ R → r ∈ pr_Rule <$> (for_all binding_rules bindings).1 ∨ p_name (r_head r) ∉ binding_names) →
  derives F R (Fact FactRole [VStr ρ]) ↔ Fact FactRole [VStr ρ] ∈ F ∨ role_bound F bindings ρ = true.
Proof.
  intros Hok Hsub Hother. rewrite role_bound_true. set (B := pr_Rule <$> _) in *.
  assert (Hrule : ∀ r, r ∈ B → ∃ b m pr, Some b ∈ bindings ∧ m ∈ binding_members b ∧
                    pr ∈ (member_rules (binding_role b) m).1 ∧ r = pr_Rule pr).
  { intros r (pr & -> & Hpr)%list_elem_of_fmap. apply elem_of_binding_rules in Hpr as (b & m & ? & ? & ?); [|done]. eauto 10. }
  assert (Hspec : ∀ b m, Some b ∈ bindings → m ∈ binding_members b →
                    member_spec F (binding_role b) m (member_rules (binding_role b) m)).
  { intros b m Hb Hm. apply member_rules_spec. by apply (Hok b Hb). }
  split.
  - intros Hd. remember (Fact FactRole [VStr ρ]) as f eqn:Hf. destruct Hd as [f Hin|r σ Hr Hb He]; [by left; subst|].
    right. destruct (Hother r Hr) as [Hr'|Hn]; cycle 1.
    { destruct Hn. pose proof (f_equal f_name Hf) as Hn. simpl in Hn. rewrite Hn. by left. }
    destruct (Hrule r Hr') as (b & m & pr & Hb' & Hm & Hpr & ->).
    destruct (Hspec b m Hb' Hm) as [Hhead Hfires]. destruct (Hhead pr Hpr) as [Hh Hbody].
    rewrite Hh in Hf. injection Hf as <-. exists b, m. split_and!; try done. apply Hfires. exists pr. split; [done|].
    exists σ. split; [|done]. intros p Hp. specialize (Hbody p Hp). apply (derives_no_rule F R); [|by apply Hb].
    intros r' Hr2 Heq. destruct (Hother r' Hr2) as [Hr3|Hn]; [|destruct Hn; rewrite Heq; by right].
    destruct (Hrule r' Hr3) as (b' & m' & pr' & Hb2 & Hm2 & Hpr2 & ->).
    destruct (Hspec b' m' Hb2 Hm2) as [Hhead' _]. destruct (Hhead' pr' Hpr2) as [Hh' _]. rewrite Hh' in Heq. simpl in Heq.
    apply (proj2 (BindingMemberPrefixes_ident _ Hbody)). by rewrite Heq.
  - intros [Hin|(b & m & Hb & <- & Hm & Hmatch)]; [by constructor|].
    destruct (Hspec b m Hb Hm) as [Hhead Hfires]. apply Hfires in Hmatch as (pr & Hpr & σ & Hbody & He).
    destruct (Hhead pr Hpr) as [Hh _].
    replace (Fact FactRole [VStr (binding_role b)]) with (inst σ (r_head (pr_Rule pr))) by (by rewrite Hh).
    apply derives_rule; [|intros p Hp; constructor; by apply Hbody|done].
    apply Hsub. unfold B. apply list_elem_of_fmap_2, elem_of_binding_rules; eauto 10.
Qed.

Lemma bindings_grant F bindings ρ :
  bindings_ok bindings →
  derives F (pr_Rule <$> (for_all binding_rules bindings).1) (Fact FactRole [VStr ρ]) ↔
  Fact FactRole [VStr ρ] ∈ F ∨
  ∃ b m, Some b ∈ bindings ∧ binding_role b = ρ ∧ m ∈ binding_members b ∧ member_matches F m = true.
Proof. intros Hok. rewrite <-role_bound_true. apply bindings_grant_in; [done|done|]. by left. Qed.

Lemma MatchBindingMemberValue_ext c1 c2 pat :
  (∀ v, v ∈ c1 ↔ v ∈ c2) → MatchBindingMemberValue c1 pat = MatchBindingMemberValue c2 pat.
Proof.
  intros Heq. assert (He : ∀ f : string → bool, existsb f c1 = existsb f c2).
  { intros f. apply eq_true_iff_eq. rewrite !existsb_True. set_solver. }
  unfold MatchBindingMemberValue. rewrite !He. repeat case_match; try done. apply eq_true_iff_eq. rewrite !slices_Contains_true. apply Heq.
Qed.


(** Only the identity facts matter to the bindings. *)
Lemma role_bound_ext F F' bindings ρ :
  bindings_ok bindings → (∀ n v, n ∈ BindingMemberPrefixes → Fact n [VStr v] ∈ F ↔ Fact n [VStr v] ∈ F') →
  role_bound F bindings ρ = role_bound F' bindings ρ.
Proof.
  intros Hok HF. apply eq_true_iff_eq. rewrite !role_bound_true.
  assert (Hm : ∀ b m, Some b ∈ bindings → m ∈ binding_members b → member_matches F m = member_matches F' m).
  { intros b m Hb Hm. destruct (Hok b Hb) as [_ Hmok]. unfold member_matches.
    destruct (member_ok_cases _ _ (Hmok m Hm)) as [->|(prefix & value & _ & -> & Hp & _)]; [done|].
    assert (Hc : ∀ v, v ∈ candidates prefix F ↔ v ∈ candidates prefix F') by (intros v; rewrite !elem_of_candidates; auto).
    f_equal. case_bool_decide as Hn; [|by apply MatchBindingMemberValue_ext]. subst prefix.
    destruct (peer_Decode value); [|done]. apply eq_true_iff_eq. rewrite !slices_Contains_true. apply Hc. }
  split; intros (b & m & Hb & Hr & Hin & Hmatch); exists b, m; (split_and!; [done..|]);
    by rewrite <-Hmatch, (Hm b m Hb Hin).
Qed.
End bindings.

(** ** The policy at a provider *)

(** The facts that a role of the policy states for those who hold it, its
    custom Datalog apart. *)
Definition policy_facts `{PeerCodec} (role : PolicyRole) : list fact :=
  let entries := classify_target <$> role_allowed_targets role in
  BuildServiceDatalogFacts (SplitHTTPGrants role).1 ++
  ((SplitHTTPGrants role).2 ≫= BuildHTTPGrantFacts) ++
  BuildPublishDatalogFacts (role_allowed_publish role) ++
  (if existsb is_unrestricted entries then [MarkerFact FactTargetUnrestricted] else []) ++
  (if bool_decide (0 < length (granted_targets entries)) then [MarkerFact FactTargetRestricted] else []) ++
  BuildTargetDatalogFacts (granted_targets entries).

Section provider.
Context `{BiscuitText, UnicodePrint, PeerCodec}.

Definition grant_rule (role : PolicyRole) (f : fact) : rule := Rule (fact_predicate f) [role_head (role_name role)] [].

Lemma inst_fact_predicate σ f : inst σ (fact_predicate f) = f.
Proof.
  destruct f as [n us]. unfold inst, fact_predicate. simpl. f_equal. rewrite <-list_fmap_compose.
  transitivity (id <$> us); [by apply list_fmap_ext|apply list_fmap_id].
Qed.

Lemma then_rules a b : pr_Rule <$> (then_ a b).1 = (pr_Rule <$> a.1) ++ (pr_Rule <$> b.1).
Proof. apply fmap_app. Qed.

Lemma exists_app {A} (P : A → Prop) l1 l2 :
  (∃ x, x ∈ l1 ++ l2 ∧ P x) ↔ (∃ x, x ∈ l1 ∧ P x) ∨ (∃ x, x ∈ l2 ∧ P x).
Proof. setoid_rewrite elem_of_app. naive_solver. Qed.

Lemma elem_of_facts_from role fs r :
  r ∈ pr_Rule <$> (facts_from (role_head (role_name role)) fs).1 ↔ ∃ f, f ∈ fs ∧ r = grant_rule role f.
Proof.
  rewrite list_elem_of_fmap. unfold facts_from. setoid_rewrite elem_of_for_all. split.
  - intros (pr & -> & f & Hf & ->%list_elem_of_singleton). eauto.
  - intros (f & Hf & ->). eexists. split; [|exists f; split; [done|by left]]. done.
Qed.

(** The rules of custom Datalog of a policy. *)
Definition custom_policy_rules (roles : list (option PolicyRole)) : list rule :=
  pr_Rule <$> (for_all (λ orole, match orole with
    | Some role => match ValidateRoleName (role_name role) with
                   | Ok _ => for_all (custom_rules (role_head (role_name role))) (role_custom_datalog role)
                   | Err _ => nothing
                   end
    | None => nothing
    end) roles).1.

(** The rules of a role: one for each fact it states, and its custom ones. *)
Lemma elem_of_role_rules role r :
  ValidateRoleName (role_name role) = Ok tt →
  r ∈ pr_Rule <$> (role_rules (Some role)).1 ↔
  (∃ f, f ∈ policy_facts role ∧ r = grant_rule role f) ∨
  r ∈ pr_Rule <$> (for_all (custom_rules (role_head (role_name role))) (role_custom_datalog role)).1.
Proof.
  intros Hv. unfold role_rules, policy_facts. rewrite Hv. destruct (SplitHTTPGrants role) as [plainServices narrowed]. cbn [fst snd].
  rewrite !then_rules, !elem_of_app, !elem_of_facts_from.
  assert (Hn : r ∈ pr_Rule <$> (for_all (λ g, facts_from (role_head (role_name role)) (BuildHTTPGrantFacts g)) narrowed).1 ↔
               ∃ f, f ∈ narrowed ≫= BuildHTTPGrantFacts ∧ r = grant_rule role f).
  { rewrite list_elem_of_fmap. setoid_rewrite elem_of_for_all. setoid_rewrite list_elem_of_bind. split.
    - intros (pr & -> & g & Hg & Hpr). apply (list_elem_of_fmap_2 pr_Rule), elem_of_facts_from in Hpr as (f & Hf & ->). eauto.
    - intros (f & (g & Hf & Hg) & ->).
      assert (Hin : grant_rule role f ∈ pr_Rule <$> (facts_from (role_head (role_name role)) (BuildHTTPGrantFacts g)).1)
        by (apply elem_of_facts_from; eauto). apply list_elem_of_fmap in Hin as (pr & ? & ?). eauto. }
  assert (Hm : ∀ (c : bool) f, r ∈ pr_Rule <$> (if c then add (fact_predicate f) [role_head (role_name role)] else nothing).1 ↔
               ∃ f', f' ∈ (if c then [f] else []) ∧ r = grant_rule role f').
  { intros [] f; simpl; [|by rewrite elem_of_nil; split; [done|intros (? & ?%not_elem_of_nil & _)]]. rewrite list_elem_of_singleton. split.
    - intros ->. exists f. split; [by left|done].
    - by intros (f' & ->%list_elem_of_singleton & ->). }
  rewrite Hn, !Hm. cbn [fst]. change (pr_Rule <$> []) with (@nil rule). rewrite elem_of_nil, !exists_app. tauto.
Qed.

Lemma elem_of_BuildPolicyRules roles bindings r :
  r ∈ pr_Rule <$> (BuildPolicyRules roles bindings).1 ↔
  r ∈ pr_Rule <$> (for_all binding_rules bindings).1 ∨
  (∃ role f, Some role ∈ roles ∧ ValidateRoleName (role_name role) = Ok tt ∧ f ∈ policy_facts role ∧ r = grant_rule role f) ∨
  r ∈ custom_policy_rules roles.
Proof.
  unfold BuildPolicyRules, custom_policy_rules. rewrite then_rules, elem_of_app. apply or_iff_compat_l.
  rewrite !list_elem_of_fmap. setoid_rewrite elem_of_for_all. split.
  - intros (pr & -> & [role|] & Hrole & Hpr); [|by apply not_elem_of_nil in Hpr].
    destruct (ValidateRoleName (role_name role)) as [[]|] eqn:Hv; [|unfold role_rules in Hpr; rewrite Hv in Hpr; by apply not_elem_of_nil in Hpr].
    apply (list_elem_of_fmap_2 pr_Rule), elem_of_role_rules in Hpr as [(f & Hf & ->)|Hc]; [by left; eauto 10| |done].
    right. apply list_elem_of_fmap in Hc as (pr' & -> & Hc). exists pr'. split; [done|]. exists (Some role). by rewrite Hv.
  - intros [(role & f & Hrole & Hv & Hf & ->)|(pr & -> & [role|] & Hrole & Hpr)]; [| |by apply not_elem_of_nil in Hpr].
    + assert (Hin : grant_rule role f ∈ pr_Rule <$> (role_rules (Some role)).1) by (apply elem_of_role_rules; eauto).
      apply list_elem_of_fmap in Hin as (pr & ? & ?). eauto.
    + destruct (ValidateRoleName (role_name role)) as [[]|] eqn:Hv; [|by apply not_elem_of_nil in Hpr].
      assert (Hin : pr_Rule pr ∈ pr_Rule <$> (role_rules (Some role)).1).
      { apply elem_of_role_rules; [done|]. right. by apply list_elem_of_fmap_2. }
      apply list_elem_of_fmap in Hin as (pr' & ? & ?). eauto.
Qed.

(** The names of the facts of a narrowed grant. *)
Definition http_fact_names : list string := [
  FactHTTPGrantedServiceExact; FactHTTPGrantedServiceSuffix; FactHTTPGrantedServicePrefix; FactHTTPGrantedServiceAll;
  FactHTTPGrantedServiceAllTypes; FactGrantedMethod; FactGrantedMethodAny; FactGrantedPathExact; FactGrantedPathPrefix;
  FactGrantedPathAny].

Lemma http_facts_name' g f : f ∈ BuildHTTPGrantFacts g → f_name f ∈ http_fact_names.
Proof.
  rewrite elem_of_BuildHTTPGrantFacts. intros [->|[Hf|Hf]].
  - unfold http_head, family_fact. repeat case_match; apply (bool_decide_unpack _); by vm_compute.
  - destruct Hf; apply (bool_decide_unpack _); by vm_compute.
  - destruct Hf; apply (bool_decide_unpack _); by vm_compute.
Qed.

(** Where a fact that a role states comes from, with the names it can have. *)
Inductive policy_part (role : PolicyRole) (f : fact) : Prop :=
| pp_service : f ∈ BuildServiceDatalogFacts (SplitHTTPGrants role).1 → f_name f ∈ gn_list service_names → policy_part role f
| pp_http g : g ∈ (SplitHTTPGrants role).2 → f ∈ BuildHTTPGrantFacts g → f_name f ∈ http_fact_names → policy_part role f
| pp_publish : f_name f ∈ gn_list publish_names → policy_part role f
| pp_unrestricted : "*" ∈ role_allowed_targets role → f = MarkerFact FactTargetUnrestricted →
    f_name f ∈ [FactTargetUnrestricted] → policy_part role f
| pp_restricted : f_name f ∈ [FactTargetRestricted] → policy_part role f
| pp_target : f ∈ BuildTargetDatalogFacts (granted_targets (classify_target <$> role_allowed_targets role)) →
    f_name f ∈ gn_list target_names → policy_part role f.

Lemma unrestricted_entry role :
  existsb is_unrestricted (classify_target <$> role_allowed_targets role) = true ↔ "*" ∈ role_allowed_targets role.
Proof.
  rewrite existsb_True. setoid_rewrite list_elem_of_fmap. split.
  - intros (e & (t & -> & Ht) & He). unfold classify_target in He. case_bool_decide; [by subst|]. repeat case_match; done.
  - intros Hs. exists TgtUnrestricted. split; [by exists "*"|done].
Qed.

Lemma policy_facts_part role f : f ∈ policy_facts role → policy_part role f.
Proof.
  unfold policy_facts. rewrite !elem_of_app. intros [Hf|[Hf|[Hf|[Hf|[Hf|Hf]]]]].
  - apply pp_service; [done|]. by eapply family_shape_name, BuildServiceDatalogFacts_shape.
  - apply list_elem_of_bind in Hf as (g & Hf & Hg). eapply pp_http; [done..|by eapply http_facts_name'].
  - apply pp_publish. by eapply family_shape_name, BuildPublishDatalogFacts_shape.
  - destruct (existsb _ _) eqn:He; [|by apply not_elem_of_nil in Hf]. apply list_elem_of_singleton in Hf as ->.
    apply pp_unrestricted; [by apply unrestricted_entry|done|by left].
  - case_bool_decide; [|by apply not_elem_of_nil in Hf]. apply list_elem_of_singleton in Hf as ->. apply pp_restricted. by left.
  - apply pp_target; [done|]. by eapply family_shape_name, BuildTargetDatalogFacts_shape.
Qed.

Lemma policy_facts_name role f : f ∈ policy_facts role → f_name f ∉ binding_names.
Proof.
  assert (Hno : ∀ l, forallb (λ x, negb (slices_Contains binding_names x)) l = true → ∀ n, n ∈ l → n ∉ binding_names).
  { intros l Hl n Hn. rewrite forallb_True in Hl. specialize (Hl n Hn). apply negb_true_iff in Hl. by apply bool_decide_eq_false in Hl. }
  intros Hf. apply policy_facts_part in Hf. destruct Hf as [_ Hn|? _ _ Hn|Hn|_ _ Hn|Hn|_ Hn]; eapply Hno; try exact Hn; by vm_compute.
Qed.

(** The roles of a policy that are held. *)
Definition held_roles (held : string → bool) (roles : list (option PolicyRole)) : list PolicyRole :=
  omap (λ orole, match orole with
                 | Some role => if is_ok (ValidateRoleName (role_name role)) && held (role_name role) then Some role else None
                 | None => None
                 end) roles.

Lemma elem_of_held_roles held roles role :
  role ∈ held_roles held roles ↔
  Some role ∈ roles ∧ ValidateRoleName (role_name role) = Ok tt ∧ held (role_name role) = true.
Proof.
  unfold held_roles. rewrite list_elem_of_omap. split.
  - intros ([role'|] & Hin & He); [|done]. destruct (ValidateRoleName (role_name role')) as [[]|] eqn:Hv; [|done]. simpl in He.
    destruct (held (role_name role')) eqn:Hh; [|done]. injection He as ->. done.
  - intros (Hin & Hv & Hh). exists (Some role). split; [done|]. by rewrite Hv, Hh.
Qed.

(** The rules of a policy as a provider has them, beside rules that derive
    neither roles nor identity facts: a role is held when the facts state it or
    a binding grants it, and each role that is held adds the facts it states. *)
Section absorbed.
Context (F : list fact) (R0 : list rule) (roles : list (option PolicyRole)) (bindings : list (option PolicyBinding)).
Hypothesis Hok : bindings_ok bindings.
Hypothesis HR0 : ∀ r, r ∈ R0 ++ custom_policy_rules roles → p_name (r_head r) ∉ binding_names.

Local Abbreviation B := (pr_Rule <$> (for_all binding_rules bindings).1).
Local Abbreviation P := (pr_Rule <$> (BuildPolicyRules roles bindings).1).

Definition role_held (ρ : string) : bool := bool_decide (Fact FactRole [VStr ρ] ∈ F) || role_bound F bindings ρ.

Lemma policy_role_held ρ : derives F (R0 ++ P) (Fact FactRole [VStr ρ]) ↔ role_held ρ = true.
Proof using Hok HR0.
  unfold role_held. rewrite orb_true_iff, bool_decide_eq_true. apply bindings_grant_in; [done|..].
  - intros r Hr. apply elem_of_app. right. apply elem_of_BuildPolicyRules. by left.
  - intros r [Hr|Hr]%elem_of_app; [right; apply HR0, elem_of_app; by left|].
    apply elem_of_BuildPolicyRules in Hr as [?|[(role & f & _ & _ & Hf & ->)|Hr]]; [by left|right..].
    + simpl. by eapply policy_facts_name.
    + apply HR0, elem_of_app. by right.
Qed.

Lemma policy_absorbed f :
  derives F (R0 ++ P) f ↔
  derives (F ++ (held_roles role_held roles ≫= policy_facts)) (R0 ++ B ++ custom_policy_rules roles) f.
Proof using Hok HR0.
  split.
  - induction 1 as [f Hf|r σ Hr Hb IH He]; [apply derives_fact, elem_of_app; by left|].
    apply elem_of_app in Hr as [Hr|Hr]; [apply derives_rule; [rewrite !elem_of_app|..]; auto|].
    apply elem_of_BuildPolicyRules in Hr as [Hr|[(role & f & Hrole & Hv & Hf & ->)|Hr]];
      [apply derives_rule; [rewrite !elem_of_app|..]; by auto| |apply derives_rule; [rewrite !elem_of_app|..]; by auto].
    apply derives_fact, elem_of_app. right. simpl. rewrite inst_fact_predicate. apply list_elem_of_bind. exists role. split; [done|].
    apply elem_of_held_roles. split_and!; [done..|]. apply policy_role_held. apply (Hb (role_head (role_name role))). by left.
  - induction 1 as [f Hf|r σ Hr Hb IH He].
    + apply elem_of_app in Hf as [Hf|Hf]; [by apply derives_fact|]. apply list_elem_of_bind in Hf as (role & Hf & Hrole).
      apply elem_of_held_roles in Hrole as (Hin & Hv & Hheld). rewrite <-(inst_fact_predicate (λ _, MarkerTerm) f).
      apply (derives_rule _ _ (grant_rule role f)); [| |by intros ? ?%not_elem_of_nil].
      * apply elem_of_app. right. apply elem_of_BuildPolicyRules. right; left. eauto 10.
      * intros p ->%list_elem_of_singleton. by apply policy_role_held.
    + apply derives_rule; [|done..]. rewrite !elem_of_app in Hr. apply elem_of_app.
      destruct Hr as [?|Hr]; [by left|]. right. apply elem_of_BuildPolicyRules. tauto.
Qed.
End absorbed.
End provider.

(** ** Witnesses *)

(** A codec that knows canonical IDs only. *)
#[refine] Definition plain_codec : PeerCodec :=
  {| peer_Decode := λ s, if HasPrefix s "12D3" then Ok s else fail "not a peer ID" |}.
Proof. intros s id. case_match eqn:E; [|done]. intros [= <-]. by rewrite E. Defined.

Definition bindings_example : list (option PolicyBinding) :=
  [Some {| binding_role := "dev"; binding_members := ["group:eng-*"; "node:12D3abc"] |}; None;
   Some {| binding_role := "all"; binding_members := [SystemAuthenticated] |}].

Definition roles_example : list (option PolicyRole) :=
  [Some {| role_name := "dev"; role_allowed_targets := ["group:backend"]; role_allowed_services := ["mcp://calc"];
           role_custom_datalog := []; role_allowed_labels := []; role_http := [];
           role_allowed_publish := ["mcp://*"] |}].

Lemma bindings_example_ok : bindings_ok bindings_example.
Proof.
  assert (H : forallb (λ ob, match ob with
    | None => true
    | Some b => is_ok (ValidateRoleName (binding_role b)) &&
        forallb (λ m, is_ok (ValidateBindingMember m) && printable (binding_role b) && printable m) (binding_members b)
    end) bindings_example = true) by (by vm_compute).
  rewrite forallb_True in H. intros b Hb. specialize (H _ Hb). simpl in H.
  apply andb_prop in H as [Hr Hm]. rewrite forallb_True in Hm.
  apply is_ok_true in Hr as [[] Hr]. split; [done|]. intros m Hin.
  specialize (Hm m Hin). apply andb_prop in Hm as [[Hm Hpr]%andb_prop Hpm].
  apply is_ok_true in Hm as [[] Hm]. done.
Qed.

Lemma policy_text_meaning_witness :
  let rules := (@BuildPolicyRules reference_text ascii_print plain_codec roles_example bindings_example).1 in
  ∃ R', @ParseDatalogRules reference_text (PolicyRuleTexts rules) = Ok R' ∧
        ∀ F R0 f, derives F (R0 ++ (pr_Rule <$> rules)) f ↔ derives F (R0 ++ R') f.
Proof.
  apply (@policy_text_meaning reference_text ascii_print plain_codec roles_example bindings_example).
  assert (H : forallb (λ pr, negb (bool_decide (length (r_exprs (pr_Rule pr)) = 0)) || plain_rule (pr_Rule pr))
    (@BuildPolicyRules reference_text ascii_print plain_codec roles_example bindings_example).1 = true)
    by (by vm_compute).
  rewrite forallb_True in H. intros pr Hpr He. specialize (H pr Hpr). by rewrite He in H.
Defined.
