(* ===== verification/Egress.v ===== *)
(** * Egress destinations

    Destinations outside the mesh ([src/api/egress.go]): validation, who
    serves one, and the grants the serving nodes get.  URL parsing is Go's
    [net/url] and is an interface here. *)

From S2P Require Import Prelude GoStrings Regex Names Biscuit NaiveEngine Facts DatalogText Grants Labels HTTPGrants PolicyRules.

(** What the sources read of a parsed URL. *)
Record URL := {
  url_Scheme : string;
  url_Host : string;
  url_Hostname : string;
  url_Port : string;
  url_Path : string;
  url_has_User : bool;
  url_RawQuery : string;
  url_Fragment : string;
}.

Class URLParser := { url_Parse : string → result URL }.

(** ** Messages *)

Record OidcFederation := {
  of_token_endpoint : string;
  of_audience : string;
  of_impersonate : string;
  of_scopes : list string;
}.
Record AWSAssumeRole := { aws_role_arn : string; aws_session_policy : string }.

(** The [kind] of a broker; a message pointer may be nil. *)
Inductive CredentialBroker :=
| StaticSecret (s : string)
| Oidc (f : option OidcFederation)
| AwsAssumeRole (a : option AWSAssumeRole)
| PlatformIdentity (scopes : option (list string))
| NoKind.

Inductive HeaderMode := HEADER_MODE_DEFAULT | HEADER_SEND | HEADER_SKIP.
Inductive BodyMode := BODY_NONE | BODY_STREAMED | BODY_BUFFERED | BODY_BUFFERED_PARTIAL | BODY_FULL_DUPLEX_STREAMED.

Record ProcessingMode := {
  pm_RequestHeaderMode : HeaderMode;
  pm_ResponseHeaderMode : HeaderMode;
  pm_RequestBodyMode : BodyMode;
  pm_ResponseBodyMode : BodyMode;
  pm_RequestTrailerMode : HeaderMode;
  pm_ResponseTrailerMode : HeaderMode;
}.

Record ExtProc := {
  ep_target : string;
  ep_ca : string;
  ep_client_certificate : string;
  ep_processing_mode : option ProcessingMode;
  ep_allow_mode_override : bool;
  ep_message_timeout : option Z;
  ep_failure_mode_allow : bool;
  ep_max_buffered_bytes : Z;  (** uint32 *)
}.

Inductive ResponseInspection := RESPONSE_INSPECTION_BUFFERED | RESPONSE_INSPECTION_REQUEST_ONLY.

Record ModelArmorConfig := {
  ma_template : string;
  ma_response : ResponseInspection;
  ma_fail_open : bool;
  ma_timeout : option Z;
}.

Inductive Inspector :=
| ModelArmor (m : option ModelArmorConfig)
| ExtProcKind (p : option ExtProc)
| NoInspector.

Inductive EgressMode := EGRESS_MODE_HTTP | EGRESS_MODE_TCP.

#[export] Instance EgressMode_eq_dec : EqDecision EgressMode.
Proof. solve_decision. Defined.

Record EgressDestination := {
  eg_name : string;
  eg_target_url : string;
  eg_credential : string;
  eg_served_by : list string;
  eg_broker : option CredentialBroker;
  eg_inspectors : list (option Inspector);
  eg_mode : EgressMode;
  eg_ports : list Z;  (** uint32 *)
  eg_preserve_host : bool;
  eg_forward_context : bool;
}.

#[export] Instance HeaderMode_eq_dec : EqDecision HeaderMode.
Proof. solve_decision. Defined.
#[export] Instance BodyMode_eq_dec : EqDecision BodyMode.
Proof. solve_decision. Defined.
#[export] Instance ProcessingMode_eq_dec : EqDecision ProcessingMode.
Proof. solve_decision. Defined.
#[export] Instance ResponseInspection_eq_dec : EqDecision ResponseInspection.
Proof. solve_decision. Defined.
#[export] Instance ModelArmorConfig_eq_dec : EqDecision ModelArmorConfig.
Proof. solve_decision. Defined.
#[export] Instance ExtProc_eq_dec : EqDecision ExtProc.
Proof. solve_decision. Defined.
#[export] Instance Inspector_eq_dec : EqDecision Inspector.
Proof. solve_decision. Defined.
#[export] Instance OidcFederation_eq_dec : EqDecision OidcFederation.
Proof. solve_decision. Defined.
#[export] Instance AWSAssumeRole_eq_dec : EqDecision AWSAssumeRole.
Proof. solve_decision. Defined.
#[export] Instance CredentialBroker_eq_dec : EqDecision CredentialBroker.
Proof. solve_decision. Defined.
#[export] Instance EgressDestination_eq_dec : EqDecision EgressDestination.
Proof. solve_decision. Defined.

(** ** Credentials *)

(** [^[a-zA-Z0-9][a-zA-Z0-9_.-]{0,63}$] *)
Definition credentialNameSyntax : regex := RSeq (RClass is_alnum) (RUpTo label_char 63).

Definition GetStaticSecret (b : option CredentialBroker) : string :=
  match b with Some (StaticSecret s) => s | _ => "" end.

Definition EgressStaticSecret (d : EgressDestination) : string :=
  let s := GetStaticSecret (eg_broker d) in if negb (bool_decide (s = "")) then s else eg_credential d.

(** ** Validation *)

Definition EgressServicePrefix : string := "egress://".

Section egress.
Context `{UnicodeCase, URLParser}.

Definition ValidateEgressName (name : string) : result unit :=
  fail_if (bool_decide (name = "")) "egress entry has no name";;
  fail_if (negb (bool_decide (name = NormalizeMeshHost name))) "egress name must be lowercase with no trailing dot";;
  fail_if (ContainsAny name "*:/") "egress name must be one hostname: no wildcard, port or path";;
  ValidateServiceFormat (EgressServicePrefix +:+ name).

Definition ValidateEgressServicePattern (svc : string) : result unit :=
  let '(svcType, name) := ParseServiceTarget svc in
  if negb (bool_decide (svcType = ServiceTypeStringEgress)) then Ok tt
  else
    ValidateServiceFormat svc;;
    if bool_decide (name = "*") then Ok tt
    else
      fail_if (ContainsAny name ":/") "invalid egress pattern: a destination is a hostname, without a scheme, a port or a path";;
      fail_if (negb (bool_decide (name = NormalizeMeshHost name)))
        "invalid egress pattern: destination names are lowercase with no trailing dot".

Definition validateEgressTargetURL (raw : string) : result unit :=
  match url_Parse raw with
  | Err _ => fail "invalid target_url"
  | Ok u =>
      fail_if (negb (bool_decide (url_Scheme u = "http")) && negb (bool_decide (url_Scheme u = "https")))
        "target_url must use http or https";;
      fail_if (bool_decide (url_Hostname u = "")) "target_url has no host";;
      fail_if (url_has_User u) "target_url must not carry a credential; name one in credential instead";;
      fail_if (negb (bool_decide (url_RawQuery u = "")) || negb (bool_decide (url_Fragment u = "")))
        "target_url must not carry a query or a fragment"
  end.

Definition validate_broker (d : EgressDestination) (b : CredentialBroker) : result unit :=
  fail_if (negb (bool_decide (eg_credential d = "")) &&
           (bool_decide (GetStaticSecret (Some b) = "") || negb (bool_decide (GetStaticSecret (Some b) = eg_credential d))))
    "egress: cannot set both credential and broker";;
  match b with
  | StaticSecret s =>
      fail_if (negb (bool_decide (s = "")) && negb (matchb credentialNameSyntax s))
        "egress: broker.static_secret must be a name, not a path or a value"
  | Oidc f =>
      match f with
      | None => fail "egress: broker.oidc_federation.audience is required"
      | Some f =>
          fail_if (bool_decide (TrimSpace (of_audience f) = "")) "egress: broker.oidc_federation.audience is required";;
          if negb (bool_decide (of_token_endpoint f = ""))
          then wrap_err "egress: broker.oidc_federation.token_endpoint" (validateEgressTargetURL (of_token_endpoint f))
          else Ok tt
      end
  | AwsAssumeRole a =>
      fail_if (match a with None => true | Some a => bool_decide (TrimSpace (aws_role_arn a) = "") end)
        "egress: broker.aws_assume_role.role_arn is required"
  | PlatformIdentity _ | NoKind => Ok tt
  end.

Definition validate_inspector (ins : option Inspector) : result unit :=
  match ins with
  | None => fail "egress: inspector is nil"
  | Some (ModelArmor m) =>
      fail_if (match m with None => true | Some m => bool_decide (TrimSpace (ma_template m) = "") end)
        "egress: inspector.model_armor.template is required"
  | Some (ExtProcKind None) => fail "egress: inspector.ext_proc.target is required"
  | Some (ExtProcKind (Some p)) =>
      fail_if (bool_decide (TrimSpace (ep_target p) = "")) "egress: inspector.ext_proc.target is required";;
      fail_if (negb (bool_decide (ep_ca p = "")) && negb (matchb credentialNameSyntax (ep_ca p)))
        "egress: inspector.ext_proc.ca must be a file name in the secrets directory";;
      fail_if (negb (bool_decide (ep_client_certificate p = "")) && negb (matchb credentialNameSyntax (ep_client_certificate p)))
        "egress: inspector.ext_proc.client_certificate must be a file name in the secrets directory"
  | Some NoInspector => fail "egress: inspector must specify model_armor or ext_proc"
  end.

Definition validate_selector (roleNames : gset string) (sel : string) : result unit :=
  let '(key, value, isLabel) := Cut sel "=" in
  if isLabel then
    wrap_err "egress: served_by" (ValidateLabelKey key);;
    wrap_err "egress: served_by" (ValidateLabelValue value)
  else fail_if (negb (bool_decide (sel ∈ roleNames))) "egress: served_by is neither a role in this policy nor a key=value label".

Definition ValidateEgressDestination (od : option EgressDestination) (roleNames : gset string) : result unit :=
  match od with
  | None => fail "egress entry is nil"
  | Some d =>
      ValidateEgressName (eg_name d);;
      (if negb (bool_decide (eg_target_url d = ""))
       then wrap_err "egress" (validateEgressTargetURL (eg_target_url d)) else Ok tt);;
      fail_if (negb (bool_decide (eg_credential d = "")) && negb (matchb credentialNameSyntax (eg_credential d)))
        "egress: credential must be a name, not a path or a value";;
      (match eg_broker d with Some b => validate_broker d b | None => Ok tt end);;
      fail_if (bool_decide (eg_mode d = EGRESS_MODE_TCP) && bool_decide (length (eg_ports d) = 0))
        "egress: mode EGRESS_MODE_TCP requires at least one port in ports";;
      for_each (λ p, fail_if ((p =? 0) || (65535 <? p))%Z "egress: port must be in 1..65535") (eg_ports d);;
      for_each validate_inspector (eg_inspectors d);;
      fail_if (bool_decide (length (eg_served_by d) = 0)) "egress: served_by must select at least one role or label";;
      for_each (validate_selector roleNames) (eg_served_by d)
  end.

(** ** Who serves a destination *)

Definition EgressTargetURL (d : EgressDestination) : string :=
  if negb (bool_decide (eg_target_url d = "")) then eg_target_url d else "https://" +:+ eg_name d.

Definition selects (roles : list string) (labels : gmap string string) (sel : string) : bool :=
  let '(key, value, isLabel) := Cut sel "=" in
  if isLabel then bool_decide (map_get labels key = value) else slices_Contains roles sel.

Definition EgressServedBy (d : EgressDestination) (roles : list string) (labels : gmap string string) : bool :=
  existsb (selects roles labels) (eg_served_by d).

Definition add_publish (pr : PolicyRole) (served : list string) : PolicyRole :=
  {| role_name := role_name pr; role_allowed_targets := role_allowed_targets pr;
     role_allowed_services := role_allowed_services pr; role_custom_datalog := role_custom_datalog pr;
     role_allowed_labels := role_allowed_labels pr; role_http := role_http pr;
     role_allowed_publish := role_allowed_publish pr ++ served |}.

Definition served_destinations (egress : list (option EgressDestination)) (roles : list string)
    (labels : gmap string string) : list string :=
  omap (λ od, match od with
              | None => None
              | Some d =>
                  if negb (is_ok (ValidateEgressName (eg_name d))) then None
                  else if EgressServedBy d roles labels
                  then Some (ServiceTypeStringEgress +:+ "://" +:+ eg_name d) else None
              end) egress.

Definition is_role (name : string) (opr : option PolicyRole) : bool :=
  match opr with Some pr => bool_decide (role_name pr = name) | None => false end.

Definition WithEgressPublish (policyRoles : list (option PolicyRole)) (egress : list (option EgressDestination))
    (roles : list string) (labels : gmap string string) : list (option PolicyRole) :=
  let served := served_destinations egress roles labels in
  match roles with
  | [] => policyRoles
  | role0 :: _ =>
      if bool_decide (length served = 0) then policyRoles
      else
        let out := (λ opr, if is_role role0 opr
                           then (λ pr, add_publish pr served) <$> opr else opr) <$> policyRoles in
        if existsb (is_role role0) policyRoles then out
        else out ++ [Some {| role_name := role0; role_allowed_targets := []; role_allowed_services := [];
                             role_custom_datalog := []; role_allowed_labels := []; role_http := [];
                             role_allowed_publish := served |}]
  end.

(** The body of the rules a [served_by] entry yields, if it yields any. *)
Definition selector_body (sel : string) : option predicate :=
  let '(key, value, isLabel) := Cut sel "=" in
  if isLabel then
    if negb (is_ok (ValidateLabelKey key)) || negb (is_ok (ValidateLabelValue value)) then None
    else Some (Pred FactLabel [TVal (VStr key); TVal (VStr value)])
  else if negb (is_ok (ValidateRoleName sel)) then None
  else Some (Pred FactRole [TVal (VStr sel)]).

Definition BuildEgressServingRules `{BiscuitText} (egress : list (option EgressDestination)) : list PolicyRule :=
  egress ≫= λ od,
    match od with
    | None => []
    | Some d =>
        if negb (is_ok (ValidateEgressName (eg_name d))) then []
        else
          let destination := [TVal (VStr ServiceTypeStringEgress); TVal (VStr (eg_name d))] in
          eg_served_by d ≫= λ sel,
            match selector_body sel with
            | None => []
            | Some body =>
                (λ head, let r := Rule head [body] [] in {| pr_Rule := r; pr_Text := renderRule r |})
                  <$> [Pred FactGrantedServiceExact destination; Pred FactGrantedPublishExact destination]
            end
    end.
End egress.

(** ** The grants of the serving nodes *)

Section serving.
Context `{UnicodeCase, URLParser, BiscuitText}.

(** The identity facts [F] state the roles and the labels of a node. *)
Definition node_facts (F : list fact) (roles : list string) (labels : gmap string string) : Prop :=
  (∀ r, Fact FactRole [VStr r] ∈ F ↔ r ∈ roles) ∧
  (∀ k v, Fact FactLabel [VStr k; VStr v] ∈ F ↔ labels !! k = Some v).

Lemma selects_body F roles labels roleNames sel :
  node_facts F roles labels → (∀ r, r ∈ roleNames → ValidateRoleName r = Ok tt) →
  validate_selector roleNames sel = Ok tt →
  ∃ body, selector_body sel = Some body ∧ p_name body ∈ [FactRole; FactLabel] ∧
          ∀ σ, inst σ body ∈ F ↔ selects roles labels sel = true.
Proof.
  intros [HR HL] Hnames Hv. unfold validate_selector, selector_body, selects in *.
  destruct (Cut sel "=") as [[key value] []].
  - rewrite bind_unit_Ok, !wrap_err_Ok in Hv. destruct Hv as [Hk Hval]. rewrite Hk, Hval. simpl.
    eexists. split; [done|]. split; [set_solver|]. intros σ. unfold inst. simpl. rewrite HL, bool_decide_eq_true.
    unfold map_get. apply ValidateLabelValue_not_empty in Hval.
    destruct (labels !! key) as [v|]; simpl; [naive_solver|]. split; [done|]. by intros <-.
  - apply fail_if_Ok in Hv. bool_split. rewrite (Hnames sel) by done. simpl.
    eexists. split; [done|]. split; [set_solver|]. intros σ. unfold inst. simpl. by rewrite HR, slices_Contains_true.
Qed.

Lemma elem_of_serving_rules egress r :
  r ∈ pr_Rule <$> BuildEgressServingRules egress ↔
  ∃ d sel body h, Some d ∈ egress ∧ ValidateEgressName (eg_name d) = Ok tt ∧ sel ∈ eg_served_by d ∧
    selector_body sel = Some body ∧ h ∈ [FactGrantedServiceExact; FactGrantedPublishExact] ∧
    r = Rule (Pred h [TVal (VStr ServiceTypeStringEgress); TVal (VStr (eg_name d))]) [body] [].
Proof.
  unfold BuildEgressServingRules. split.
  - intros (pr & -> & (od & Hpr & Hd)%list_elem_of_bind)%list_elem_of_fmap.
    destruct od as [d|]; [|by apply not_elem_of_nil in Hpr].
    destruct (ValidateEgressName (eg_name d)) as [[]|] eqn:Ev; simpl in Hpr; [|by apply not_elem_of_nil in Hpr].
    apply list_elem_of_bind in Hpr as (sel & Hpr & Hsel).
    destruct (selector_body sel) as [body|] eqn:Eb; [|by apply not_elem_of_nil in Hpr].
    rewrite !elem_of_cons, elem_of_nil in Hpr. exists d, sel, body.
    destruct Hpr as [->|[->|[]]]; eexists; split_and!; try done; set_solver.
  - intros (d & sel & body & h & Hd & Hv & Hsel & Hb & Hh & ->).
    set (r := Rule _ [body] []). apply list_elem_of_fmap. exists {| pr_Rule := r; pr_Text := renderRule r |}.
    split; [done|].
    apply list_elem_of_bind. exists (Some d). split; [|done]. rewrite Hv. simpl.
    apply list_elem_of_bind. exists sel. split; [|done]. rewrite Hb.
    rewrite !elem_of_cons, elem_of_nil in Hh. destruct Hh as [->|[->|[]]]; [by left|right; by left].
Qed.

(** The grants that travel with the mesh policy agree with the selection a
    node makes: over the role and label facts of a node, the serving rules of
    validated destinations derive the service grant (and the publish grant) of
    [egress://name] exactly when [EgressServedBy] selects the node for a
    destination of that name, or the node already held the grant. *)
Theorem egress_serving_agrees F roles labels roleNames egress h name :
  node_facts F roles labels → (∀ r, r ∈ roleNames → ValidateRoleName r = Ok tt) →
  (∀ d, Some d ∈ egress → ValidateEgressDestination (Some d) roleNames = Ok tt) →
  h ∈ [FactGrantedServiceExact; FactGrantedPublishExact] →
  let grant := Fact h [VStr ServiceTypeStringEgress; VStr name] in
  derives F (pr_Rule <$> BuildEgressServingRules egress) grant ↔
  grant ∈ F ∨ ∃ d, Some d ∈ egress ∧ eg_name d = name ∧ EgressServedBy d roles labels = true.
Proof.
  intros HF Hnames Hvalid Hh grant. set (R := pr_Rule <$> _).
  assert (Hsel : ∀ d sel, Some d ∈ egress → sel ∈ eg_served_by d → validate_selector roleNames sel = Ok tt).
  { intros d sel Hd Hs. specialize (Hvalid d Hd). simpl in Hvalid. rewrite !bind_unit_Ok, !for_each_Ok in Hvalid.
    destruct Hvalid as (_ & _ & _ & _ & _ & _ & _ & _ & Hall). rewrite Forall_forall in Hall. by apply Hall. }
  assert (Hname : ∀ d, Some d ∈ egress → ValidateEgressName (eg_name d) = Ok tt).
  { intros d Hd. specialize (Hvalid d Hd). simpl in Hvalid. by apply bind_unit_Ok in Hvalid as [? _]. }
  assert (Hhead : ∀ r, r ∈ R → p_name (r_head r) ∉ [FactRole; FactLabel]).
  { intros r (d & sel & body & h' & _ & _ & _ & _ & Hh' & ->)%elem_of_serving_rules. simpl.
    rewrite !elem_of_cons, elem_of_nil in Hh'. destruct Hh' as [->|[->|[]]]; by apply (bool_decide_unpack _). }
  split.
  - intros Hd. remember grant as f eqn:Hf. destruct Hd as [f Hin|r σ Hr Hb _]; [by left|right].
    pose proof Hr as (d & sel & body & h' & Hin & Hv & Hs & Hbody & Hh' & ->)%elem_of_serving_rules.
    injection Hf as _ Hn. exists d. split_and!; [done|done|]. apply existsb_True. exists sel. split; [done|].
    destruct (selects_body F roles labels roleNames sel HF Hnames) as (body' & Hb' & Hpn & Hiff); [by eapply Hsel|].
    rewrite Hbody in Hb'. injection Hb' as <-. apply (Hiff σ), (derives_no_rule F R); [|apply Hb; by left].
    intros r Hr' Heq. apply (Hhead r Hr'). by rewrite Heq.
  - intros [?|(d & Hin & <- & Hserved)]; [by constructor|].
    apply existsb_True in Hserved as (sel & Hs & Hsl).
    destruct (selects_body F roles labels roleNames sel HF Hnames) as (body & Hb & _ & Hiff); [by eapply Hsel|].
    apply (derives_rule F R (Rule (Pred h [TVal (VStr ServiceTypeStringEgress); TVal (VStr (eg_name d))]) [body] [])
             (λ _, MarkerTerm)).
    + apply elem_of_serving_rules. exists d, sel, body, h. split_and!; try done. by apply Hname.
    + intros p ->%list_elem_of_singleton. constructor. by apply Hiff.
    + by intros e ?%not_elem_of_nil.
Qed.
End serving.

(** ** Witness *)

Definition no_urls : URLParser := {| url_Parse := λ _, fail "no URL" |}.

Definition egress_example : EgressDestination :=
  {| eg_name := "api.github.com"; eg_target_url := ""; eg_credential := "github"; eg_served_by := ["gw"; "zone=dmz"];
     eg_broker := None; eg_inspectors := []; eg_mode := EGRESS_MODE_HTTP; eg_ports := [];
     eg_preserve_host := false; eg_forward_context := false |}.

Lemma egress_serving_agrees_witness :
  derives [Fact FactLabel [VStr "zone"; VStr "dmz"]]
    (pr_Rule <$> @BuildEgressServingRules ascii_case reference_text [Some egress_example])
    (Fact FactGrantedPublishExact [VStr "egress"; VStr "api.github.com"]).
Proof.
  apply (@egress_serving_agrees ascii_case no_urls reference_text
           [Fact FactLabel [VStr "zone"; VStr "dmz"]] [] {[ "zone" := "dmz" ]} {[ "gw" ]} [Some egress_example]
           FactGrantedPublishExact "api.github.com").
  - split.
    + intros r. rewrite list_elem_of_singleton, elem_of_nil. done.
    + intros k v. rewrite list_elem_of_singleton, lookup_singleton_Some. split; [by intros [= -> ->]|by intros [<- <-]].
  - intros r ->%elem_of_singleton. by vm_compute.
  - intros d [= ->]%list_elem_of_singleton. by vm_compute.
  - set_solver.
  - right. exists egress_example. split_and!; [by left|done|by vm_compute].
Defined.
