(* ===== verification/Base64.v ===== *)
(** * [base64.RawURLEncoding]

    The unpadded URL alphabet of Go's [encoding/base64], as the sources use it
    for task blocks: the encoder, and the strict decoder (which skips line
    breaks and rejects trailing bits that are not zero). *)

From S2P Require Import Prelude GoStrings.

Definition alphabet : string := "ABCDEFGHIJKLMNOPQRSTUVWXYZabcdefghijklmnopqrstuvwxyz0123456789-_".

(** The character of a 6-bit value, and back. *)
Definition b64_char (z : Z) : ascii := default "A"%char (chars alphabet !! Z.to_nat z).

Fixpoint index_of (c : ascii) (l : list ascii) : option nat :=
  match l with
  | [] => None
  | d :: l => if bool_decide (c = d) then Some 0 else S <$> index_of c l
  end.

Definition b64_value (c : ascii) : option Z := Z.of_nat <$> index_of c (chars alphabet).

(** [EncodeToString]. *)
Fixpoint RawURL_Encode (s : string) : string :=
  match s with
  | "" => ""
  | String a "" =>
      let v := (byte a * 65536)%Z in
      String (b64_char (v / 262144)) (str1 (b64_char (v / 4096 mod 64)))
  | String a (String b "") =>
      let v := (byte a * 65536 + byte b * 256)%Z in
      String (b64_char (v / 262144)) (String (b64_char (v / 4096 mod 64)) (str1 (b64_char (v / 64 mod 64))))
  | String a (String b (String c r)) =>
      let v := (byte a * 65536 + byte b * 256 + byte c)%Z in
      String (b64_char (v / 262144)) (String (b64_char (v / 4096 mod 64))
        (String (b64_char (v / 64 mod 64)) (String (b64_char (v mod 64)) (RawURL_Encode r))))
  end.

(** The 6-bit values of a text, line breaks skipped. *)
Definition is_newline (c : ascii) : bool := bool_decide (c = "010"%char) || bool_decide (c = "013"%char).

Definition sextets (s : string) : option (list Z) :=
  mapM b64_value (filter (λ c, is_newline c = false) (chars s)).

(** Decoding of groups of four; the strict decoder wants the bits that are left
    over to be zero. *)
Fixpoint decode_groups (strict : bool) (l : list Z) : option string :=
  match l with
  | [] => Some ""
  | [_] => None
  | [p; q] =>
      let v := (p * 262144 + q * 4096)%Z in
      if negb strict || (v mod 65536 =? 0)%Z then Some (str1 (char_of (v / 65536))) else None
  | [p; q; r] =>
      let v := (p * 262144 + q * 4096 + r * 64)%Z in
      if negb strict || (v mod 256 =? 0)%Z then Some (String (char_of (v / 65536)) (str1 (char_of (v / 256 mod 256)))) else None
  | p :: q :: r :: t :: l =>
      let v := (p * 262144 + q * 4096 + r * 64 + t)%Z in
      rest ← decode_groups strict l;
      Some (String (char_of (v / 65536)) (String (char_of (v / 256 mod 256)) (String (char_of (v mod 256)) rest)))
  end.

(** [RawURLEncoding.Strict().DecodeString]. *)
Definition RawURL_DecodeStrict (s : string) : result string :=
  match sextets s ≫= decode_groups true with
  | Some b => Ok b
  | None => fail "illegal base64 data"
  end.

(** [RawURLEncoding.DecodeString]. *)
Definition RawURL_Decode (s : string) : result string :=
  match sextets s ≫= decode_groups false with
  | Some b => Ok b
  | None => fail "illegal base64 data"
  end.

(** ** Round trip *)

Lemma byte_range c : (0 ≤ byte c < 256)%Z.
Proof. destruct c as [[] [] [] [] [] [] [] []]; vm_compute; split; (done || congruence). Qed.

Lemma b64_value_char z : (0 ≤ z < 64)%Z → b64_value (b64_char z) = Some z ∧ is_newline (b64_char z) = false.
Proof.
  intros Hz.
  assert (Hall : forallb (λ n, bool_decide (b64_value (b64_char (Z.of_nat n)) = Some (Z.of_nat n))
                    && negb (is_newline (b64_char (Z.of_nat n)))) (seq 0 64) = true) by (by vm_compute).
  rewrite forallb_True in Hall. specialize (Hall (Z.to_nat z)).
  rewrite Z2Nat.id in Hall by lia. rewrite elem_of_seq in Hall.
  assert (Hr : bool_decide (b64_value (b64_char z) = Some z) && negb (is_newline (b64_char z)) = true) by (apply Hall; lia).
  apply andb_prop in Hr as [Hv Hn]. by apply bool_decide_eq_true in Hv; apply negb_true_iff in Hn.
Qed.

Lemma sextets_cons z s : (0 ≤ z < 64)%Z → sextets (String (b64_char z) s) = cons z <$> sextets s.
Proof.
  intros Hz. destruct (b64_value_char z Hz) as [Hv Hn]. unfold sextets, chars. simpl.
  rewrite filter_cons_True by done. simpl. rewrite Hv. simpl. by destruct (mapM _ _).
Qed.

Lemma char_of_div a b c :
  char_of ((byte a * 65536 + byte b * 256 + byte c) / 65536) = a ∧
  char_of ((byte a * 65536 + byte b * 256 + byte c) / 256 mod 256) = b ∧
  char_of ((byte a * 65536 + byte b * 256 + byte c) mod 256) = c.
Proof.
  pose proof (byte_range a). pose proof (byte_range b). pose proof (byte_range c).
  set (v := (byte a * 65536 + byte b * 256 + byte c)%Z).
  assert (v / 65536 = byte a)%Z as -> by (unfold v; Z.to_euclidean_division_equations; lia).
  assert (v / 256 mod 256 = byte b)%Z as -> by (unfold v; Z.to_euclidean_division_equations; lia).
  assert (v mod 256 = byte c)%Z as -> by (unfold v; Z.to_euclidean_division_equations; lia).
  by rewrite !char_of_byte.
Qed.

(** A 24-bit value is the sum of its four sextets. *)
Lemma sextet_sum v :
  (0 ≤ v < 16777216)%Z →
  (v / 262144 * 262144 + v / 4096 mod 64 * 4096 + v / 64 mod 64 * 64 + v mod 64 = v)%Z ∧
  (0 ≤ v / 262144 < 64)%Z ∧ (0 ≤ v / 4096 mod 64 < 64)%Z ∧ (0 ≤ v / 64 mod 64 < 64)%Z ∧ (0 ≤ v mod 64 < 64)%Z.
Proof. intros. split_and!; Z.to_euclidean_division_equations; lia. Qed.

Lemma decode_encode strict s : sextets (RawURL_Encode s) ≫= decode_groups strict = Some s.
Proof.
  revert s. fix IH 1. intros [|a [|b [|c r]]].
  - done.
  - cbn [RawURL_Encode]. set (v := (byte a * 65536)%Z). pose proof (byte_range a) as Ha.
    destruct (sextet_sum v) as (Hsum & H1 & H2 & H3 & H4); [unfold v; lia|].
    rewrite !sextets_cons by done. change (sextets "") with (Some (@nil Z)).
    cbn [fmap option_fmap option_map mbind option_bind decode_groups].
    assert (Hv : (v / 262144 * 262144 + v / 4096 mod 64 * 4096 = v)%Z)
      by (unfold v in *; Z.to_euclidean_division_equations; lia).
    rewrite Hv. assert (v mod 65536 = 0)%Z as -> by (unfold v; by rewrite Z_mod_mult). rewrite orb_true_r.
    unfold v. rewrite Z.div_mul by lia. by rewrite char_of_byte.
  - cbn [RawURL_Encode]. set (v := (byte a * 65536 + byte b * 256)%Z).
    pose proof (byte_range a) as Ha. pose proof (byte_range b) as Hb.
    destruct (sextet_sum v) as (Hsum & H1 & H2 & H3 & H4); [unfold v; lia|].
    rewrite !sextets_cons by done. change (sextets "") with (Some (@nil Z)).
    cbn [fmap option_fmap option_map mbind option_bind decode_groups].
    assert (Hv : (v / 262144 * 262144 + v / 4096 mod 64 * 4096 + v / 64 mod 64 * 64 = v)%Z)
      by (unfold v in *; Z.to_euclidean_division_equations; lia).
    rewrite Hv. assert (v mod 256 = 0)%Z as -> by (unfold v; Z.to_euclidean_division_equations; lia). rewrite orb_true_r.
    destruct (char_of_div a b "000") as (Ea & Eb & _).
    replace (byte a * 65536 + byte b * 256 + byte "000")%Z with v in Ea, Eb by (unfold v; change (byte "000") with 0%Z; lia).
    by rewrite Ea, Eb.
  - cbn [RawURL_Encode]. set (v := (byte a * 65536 + byte b * 256 + byte c)%Z).
    pose proof (byte_range a) as Ha. pose proof (byte_range b) as Hb. pose proof (byte_range c) as Hc.
    destruct (sextet_sum v) as (Hsum & H1 & H2 & H3 & H4); [unfold v; lia|].
    rewrite !sextets_cons by done. specialize (IH r).
    destruct (sextets (RawURL_Encode r)) as [l|]; [|done]. simpl in IH.
    cbn [fmap option_fmap option_map mbind option_bind decode_groups]. rewrite Hsum, IH.
    cbn [mbind option_bind]. destruct (char_of_div a b c) as (Ea & Eb & Ec). fold v in Ea, Eb, Ec.
    by rewrite Ea, Eb, Ec.
Qed.

Lemma RawURL_roundtrip b : RawURL_DecodeStrict (RawURL_Encode b) = Ok b.
Proof. unfold RawURL_DecodeStrict. by rewrite decode_encode. Qed.

Lemma RawURL_Decode_Encode b : RawURL_Decode (RawURL_Encode b) = Ok b.
Proof. unfold RawURL_Decode. by rewrite decode_encode. Qed.

Lemma RawURL_Encode_empty b : RawURL_Encode b = "" → b = "".
Proof. by destruct b as [|? [|? [|? ?]]]. Qed.

(** ** The strict decoder accepts one text per payload *)

Lemma index_of_Some c l n : index_of c l = Some n → l !! n = Some c.
Proof.
  revert n. induction l as [|d l IH]; intros n; simpl; [done|]. case_bool_decide as Hc.
  - by intros [= <-]; subst.
  - intros (k & Hk & ->)%fmap_Some. by apply IH.
Qed.

Lemma b64_value_Some c z : b64_value c = Some z → b64_char z = c ∧ (0 ≤ z < 64)%Z.
Proof.
  unfold b64_value. intros (n & Hn & ->)%fmap_Some. apply index_of_Some in Hn.
  unfold b64_char. rewrite Nat2Z.id, Hn. split; [done|].
  apply lookup_lt_Some in Hn. change (length (chars alphabet)) with 64 in Hn. lia.
Qed.

Definition text_of (l : list Z) : string := foldr (λ z s, String (b64_char z) s) "" l.

Lemma sextets_text s l :
  sextets s = Some l → str_forallb (λ c, negb (is_newline c)) s = true →
  s = text_of l ∧ Forall (λ z, 0 ≤ z < 64)%Z l.
Proof.
  revert l. induction s as [|c s IH]; intros l; unfold sextets, chars; simpl.
  - intros [= <-] _. split; [done|constructor].
  - intros Hs [Hc Hn]%andb_prop. apply negb_true_iff in Hc. rewrite filter_cons_True in Hs by done. simpl in Hs.
    apply bind_Some in Hs as (z & Hz & (l' & Hl & [= <-])%bind_Some).
    apply b64_value_Some in Hz as [Hz Hr]. destruct (IH l' Hl Hn) as [-> HF]. simpl. rewrite Hz. split; [done|]. by constructor.
Qed.

Lemma byte_char_of z : (0 ≤ z < 256)%Z → byte (char_of z) = z.
Proof. intros Hz. unfold byte, char_of. rewrite Ascii.N_ascii_embedding; lia. Qed.

Lemma encode_decode l b :
  decode_groups true l = Some b → Forall (λ z, 0 ≤ z < 64)%Z l → RawURL_Encode b = text_of l.
Proof.
  revert l b. fix IH 1. intros [|p [|q [|r [|t l]]]] b; cbn [decode_groups negb orb]; intros Hd HF.
  - by injection Hd as <-.
  - done.
  - rewrite !Forall_cons in HF. destruct HF as (Hp & Hq & _). case_match eqn:E; [|done]. apply Z.eqb_eq in E.
    injection Hd as <-. cbn [RawURL_Encode text_of foldr].
    assert (Hb : ((p * 262144 + q * 4096) / 65536 * 65536 = p * 262144 + q * 4096)%Z)
      by (Z.to_euclidean_division_equations; lia).
    rewrite byte_char_of, Hb by (Z.to_euclidean_division_equations; lia).
    do 2 f_equal; [|do 1 f_equal]; f_equal; Z.to_euclidean_division_equations; lia.
  - rewrite !Forall_cons in HF. destruct HF as (Hp & Hq & Hr & _). case_match eqn:E; [|done]. apply Z.eqb_eq in E.
    injection Hd as <-. cbn [RawURL_Encode text_of foldr]. set (v := (p * 262144 + q * 4096 + r * 64)%Z) in *.
    assert (Hb : (v / 65536 * 65536 + v / 256 mod 256 * 256 = v)%Z) by (Z.to_euclidean_division_equations; lia).
    rewrite !byte_char_of, Hb by (unfold v; Z.to_euclidean_division_equations; lia).
    assert (v / 262144 = p)%Z as -> by (unfold v; Z.to_euclidean_division_equations; lia).
    assert (v / 4096 mod 64 = q)%Z as -> by (unfold v; Z.to_euclidean_division_equations; lia).
    by assert (v / 64 mod 64 = r)%Z as -> by (unfold v; Z.to_euclidean_division_equations; lia).
  - rewrite !Forall_cons in HF. destruct HF as (Hp & Hq & Hr & Ht & HF).
    apply bind_Some in Hd as (rest & Hrest & [= <-]). apply (IH l rest Hrest) in HF.
    cbn [RawURL_Encode text_of foldr]. set (v := (p * 262144 + q * 4096 + r * 64 + t)%Z).
    assert (Hb : (v / 65536 * 65536 + v / 256 mod 256 * 256 + v mod 256 = v)%Z)
      by (Z.to_euclidean_division_equations; lia).
    rewrite !byte_char_of, Hb by (unfold v; Z.to_euclidean_division_equations; lia).
    assert (v / 262144 = p)%Z as -> by (unfold v; Z.to_euclidean_division_equations; lia).
    assert (v / 4096 mod 64 = q)%Z as -> by (unfold v; Z.to_euclidean_division_equations; lia).
    assert (v / 64 mod 64 = r)%Z as -> by (unfold v; Z.to_euclidean_division_equations; lia).
    assert (v mod 64 = t)%Z as -> by (unfold v; Z.to_euclidean_division_equations; lia).
    by rewrite HF.
Qed.

Lemma RawURL_canonical s b :
  RawURL_DecodeStrict s = Ok b → str_forallb (λ c, negb (is_newline c)) s = true → s = RawURL_Encode b.
Proof.
  unfold RawURL_DecodeStrict. destruct (sextets s) as [l|] eqn:El; simpl; [|done].
  destruct (decode_groups true l) as [b'|] eqn:Ed; [|done]. intros [= <-] Hn.
  destruct (sextets_text s l El Hn) as [-> HF]. symmetry. by apply encode_decode.
Qed.
