(* ===== verification/Tar.v ===== *)
(** * Task authorization rules

    The holder of a credential can append blocks that narrow it; each block
    carries one [TaskAuthorizationRule] ([src/api/tar.go]).  Serialization is
    protobuf's and is an interface, [TARCodec]; a message keeps the bytes of
    the fields it does not know. *)

From S2P Require Import Prelude GoStrings Regex Names Biscuit NaiveEngine Facts DatalogText Grants Labels HTTPGrants PolicyRules Egress Base64.

(** ** Time *)

(** A [time.Time] is its nanoseconds since the Unix epoch. *)
Definition time : Type := Z.
Definition second : Z := 1000000000.
Definition zero_time : time := (-62135596800 * second)%Z.
Definition time_Unix (t : time) : Z := (t / second)%Z.

(** [timestamppb.Timestamp]. *)
Record Timestamp := { ts_seconds : Z; ts_nanos : Z; ts_unknown : string }.

Definition IsValid (ts : Timestamp) : bool :=
  ((-62135596800 <=? ts_seconds ts) && (ts_seconds ts <=? 253402300799)
   && (0 <=? ts_nanos ts) && (ts_nanos ts <? second))%Z.

Definition AsTime (ts : Timestamp) : time := (ts_seconds ts * second + ts_nanos ts)%Z.

(** ** Messages *)

Record TaskOperation := {
  op_allowed_tools : list string;
  op_allowed_methods : list string;
  op_allowed_paths : list string;
  op_allowed_permissions : list string;
  op_unknown : string;
}.

Record TaskRule := {
  tr_description : string;
  tr_allowed_services : list string;
  tr_operation : option TaskOperation;
  tr_allowed_resources : list string;
  tr_unknown : string;
}.

Record TaskAuthorizationRule := {
  tar_name : string;
  tar_display_name : string;
  tar_rules : list (option TaskRule);  (** entries may be nil *)
  tar_expire_time : option Timestamp;
  tar_unknown : string;
}.

(** ** Bounds *)

Definition MaxAttenuationBlocks : nat := 8.
Definition MaxTARBytes : nat := 4096.
Definition MaxRulesPerTAR : nat := 16.
Definition MaxEntriesPerTARList : nat := 64.
Definition MaxTARNameLength : nat := 128.
Definition MaxTARDescriptionLength : nat := 256.
Definition MaxTARResourceLength : nat := 256.

(** ** Validation *)

Definition isPrintableASCIIString (s : string) : bool :=
  str_forallb (λ c, negb ((byte c <? 0x20) || (0x7E <? byte c))%Z) s.

Definition hasASCIIControl (s : string) : bool :=
  str_existsb (λ c, ((byte c <? 0x20) || (byte c =? 0x7F))%Z) s.

(** The blanks of the character sets: space, tab, line breaks. *)
Definition blanks : string := " " +:+ str1 "009"%char +:+ str1 "013"%char +:+ str1 "010"%char.

Section validation.
Context `{UnicodeCase}.

Definition ValidateTARServicePattern (svc : string) : result unit :=
  fail_if (bool_decide (svc = "")) "allowed_services entry cannot be empty";;
  fail_if (bool_decide (MaxTARNameLength < len svc)) "allowed_services entry exceeds max length";;
  ValidateServiceFormat svc;;
  ValidateEgressServicePattern svc;;
  if bool_decide (svc = "*") then Ok tt
  else
    let '(_, svcName) := ParseServiceTarget svc in
    fail_if (Contains svcName "/") "invalid service format: path segments are not allowed in allowed_services";;
    fail_if (negb (bool_decide (svcName = "*")) && bool_decide (1 < Count svcName "*"))
      "invalid service format: at most one wildcard is allowed".

Definition validate_operation (op : TaskOperation) : result unit :=
  fail_if (bool_decide (MaxEntriesPerTARList < length (op_allowed_tools op))) "allowed_tools count exceeds max";;
  for_each (λ tool,
    fail_if (bool_decide (tool = "") || bool_decide (MaxTARNameLength < len tool)
             || ContainsAny tool ("/?#" +:+ blanks) || negb (isPrintableASCIIString tool))
      "invalid tool name in allowed_tools") (op_allowed_tools op);;
  fail_if (bool_decide (MaxEntriesPerTARList < length (op_allowed_methods op))) "allowed_methods count exceeds max";;
  for_each (λ m, fail_if (negb (matchb httpMethodSyntax m)) "method must be an uppercase HTTP method")
    (op_allowed_methods op);;
  fail_if (bool_decide (MaxEntriesPerTARList < length (op_allowed_paths op))) "allowed_paths count exceeds max";;
  for_each (λ p,
    fail_if (bool_decide (MaxTARNameLength < len p)) "path exceeds max length";;
    wrap_err "rule" (validateHTTPGrantPath p)) (op_allowed_paths op);;
  fail_if (bool_decide (MaxEntriesPerTARList < length (op_allowed_permissions op))) "allowed_permissions count exceeds max";;
  for_each (λ perm,
    fail_if (bool_decide (perm = "") || bool_decide (MaxTARNameLength < len perm)
             || ContainsAny perm blanks || negb (isPrintableASCIIString perm))
      "invalid permission in allowed_permissions") (op_allowed_permissions op).

Definition validateTaskRule (orule : option TaskRule) : result unit :=
  match orule with
  | None => fail "rule is nil"
  | Some r =>
      fail_if (bool_decide (MaxTARDescriptionLength < len (tr_description r))) "description exceeds max length";;
      fail_if (hasASCIIControl (tr_description r)) "description must not contain control characters";;
      fail_if (bool_decide (length (tr_allowed_services r) = 0)) "allowed_services must not be empty";;
      fail_if (bool_decide (MaxEntriesPerTARList < length (tr_allowed_services r))) "allowed_services count exceeds max";;
      for_each (λ svc, wrap_err "rule" (ValidateTARServicePattern svc)) (tr_allowed_services r);;
      fail_if (bool_decide (MaxEntriesPerTARList < length (tr_allowed_resources r))) "allowed_resources count exceeds max";;
      for_each (λ res,
        fail_if (bool_decide (res = "") || bool_decide (MaxTARResourceLength < len res) || hasASCIIControl res)
          "invalid allowed_resources entry") (tr_allowed_resources r);;
      match tr_operation r with
      | None => Ok tt
      | Some op => validate_operation op
      end
  end.

Definition ValidateTaskAuthorizationRule (orule : option TaskAuthorizationRule) : result unit :=
  match orule with
  | None => fail "task authorization rule is nil"
  | Some rule =>
      fail_if (bool_decide (MaxTARNameLength < len (tar_name rule))) "name exceeds max length";;
      fail_if (negb (isPrintableASCIIString (tar_name rule))) "name must contain only printable ASCII characters";;
      fail_if (bool_decide (MaxTARDescriptionLength < len (tar_display_name rule))) "display_name exceeds max length";;
      fail_if (hasASCIIControl (tar_display_name rule)) "display_name must not contain control characters";;
      (match tar_expire_time rule with
       | None => Ok tt
       | Some exp =>
           fail_if (negb (IsValid exp)) "expire_time is invalid";;
           fail_if (time_Unix (AsTime exp) <=? 0)%Z "expire_time must be after the Unix epoch"
       end);;
      fail_if (bool_decide (MaxRulesPerTAR < length (tar_rules rule))) "rules count exceeds max";;
      for_each validateTaskRule (tar_rules rule)
  end.
End validation.

(** ** Blocks *)

Definition hasUnknownTARFields (rule : TaskAuthorizationRule) : bool :=
  bool_decide (0 < len (tar_unknown rule)) ||
  match tar_expire_time rule with Some exp => bool_decide (0 < len (ts_unknown exp)) | None => false end ||
  existsb (λ orule, match orule with
                    | None => false
                    | Some r =>
                        bool_decide (0 < len (tr_unknown r)) ||
                        match tr_operation r with Some op => bool_decide (0 < len (op_unknown op)) | None => false end
                    end) (tar_rules rule).

(** No entry of the rules is nil. *)
Definition no_nil_rules (rule : TaskAuthorizationRule) : bool := forallb (λ o, bool_decide (is_Some o)) (tar_rules rule).

(** Protobuf: marshalling a message without nil entries and unmarshalling it
    gives the message back. *)
Class TARCodec := {
  proto_Marshal : TaskAuthorizationRule → result string;
  proto_Unmarshal : string → result TaskAuthorizationRule;
  protojson_Unmarshal : string → result TaskAuthorizationRule;
  proto_roundtrip rule raw :
    no_nil_rules rule = true → proto_Marshal rule = Ok raw → proto_Unmarshal raw = Ok rule;
}.

Section blocks.
Context `{UnicodeCase, TARCodec}.

Definition EncodeTARBlockPayload (rule : TaskAuthorizationRule) : result string :=
  ValidateTaskAuthorizationRule (Some rule);;
  fail_if (bool_decide (length (tar_rules rule) = 0)) "task authorization rule must contain at least one rule when attenuating";;
  raw ← wrap_err "marshal task authorization rule" (proto_Marshal rule);
  fail_if (bool_decide (len raw = 0) || bool_decide (MaxTARBytes < len raw)) "serialized task authorization rule size out of range";;
  Ok (RawURL_Encode raw).

Definition EncodeTARBlockFact (rule : TaskAuthorizationRule) : result fact :=
  encoded ← EncodeTARBlockPayload rule;
  Ok (Fact FactTARBlock [VStr encoded]).

Definition DecodeTARBlockPayload (b64 : string) : result TaskAuthorizationRule :=
  fail_if (bool_decide (b64 = "")) "empty tar_block payload";;
  raw ← wrap_err "invalid base64url in tar_block" (RawURL_DecodeStrict b64);
  fail_if (bool_decide (len raw = 0) || bool_decide (MaxTARBytes < len raw)) "tar_block protobuf size out of range";;
  rule ← wrap_err "unmarshal tar_block protobuf" (proto_Unmarshal raw);
  fail_if (hasUnknownTARFields rule) "tar_block protobuf contains unknown fields";;
  wrap_err "invalid tar_block" (ValidateTaskAuthorizationRule (Some rule));;
  Ok rule.

(** [^tar_block\("([A-Za-z0-9_-]+)"\);?\s*$] and its group. *)
Definition is_b64 (c : ascii) : bool := is_alnum c || one_of "_-" c.
(** [\s] of Go's regexp: tab, line feed, form feed, carriage return, space. *)
Definition is_space_char (c : ascii) : bool :=
  bool_decide (c = "009"%char) || bool_decide (c = "010"%char) || bool_decide (c = "012"%char)
  || bool_decide (c = "013"%char) || bool_decide (c = " "%char).

Definition TARBlockSourceRegex_FindStringSubmatch (s : string) : option string :=
  let open := FactTARBlock +:+ "(" +:+ str1 quote_char in
  if HasPrefix s open then
    let '(payload, r) := span is_b64 (str_drop (len open) s) in
    let close := str1 quote_char +:+ ")" in
    if negb (bool_decide (payload = "")) && HasPrefix r close then
      let r := TrimPrefix (str_drop (len close) r) ";" in
      if str_forallb is_space_char r then Some payload else None
    else None
  else None.

Definition ParseTARBlockSource (blockSource : string) : result TaskAuthorizationRule :=
  match TARBlockSourceRegex_FindStringSubmatch (TrimSpace blockSource) with
  | None => fail "appended block must contain solely a single tar_block fact"
  | Some payload => DecodeTARBlockPayload payload
  end.
End blocks.

(** ** Matching *)

Definition MatchServicePattern (pattern reqType reqName : string) : bool :=
  if bool_decide (reqType = "") || bool_decide (reqName = "") || bool_decide (pattern = "") then false
  else if bool_decide (pattern = "*") then true
  else
    let '(pType, pName) := ParseServiceTarget pattern in
    if bool_decide (pType = "") || negb (bool_decide (pType = reqType)) || bool_decide (pName = "") then false
    else if bool_decide (pName = "*") then true
    else if HasPrefix pName "*." && negb (HasSuffix pName ".*") then HasSuffix reqName (str_drop 1 pName)
    else if HasSuffix pName ".*" && negb (HasPrefix pName "*.") then
      HasPrefix reqName (str_take (len pName - 1) pName)
    else bool_decide (reqName = pName).

Definition IsSafeRequestHTTPPath (reqPath : string) : bool :=
  if negb (HasPrefix reqPath "/") || ContainsAny reqPath "?#" || hasEncodedPathTraversal reqPath then false
  else forallb (λ seg, negb (bool_decide (seg = ".") || bool_decide (seg = ".."))) (Split reqPath "/").

Definition MatchHTTPPath (pattern reqPath : string) : bool :=
  if bool_decide (pattern = "") || negb (IsSafeRequestHTTPPath reqPath) then false
  else if HasSuffix pattern "*" then HasPrefix reqPath (TrimSuffix pattern "*")
  else bool_decide (reqPath = pattern).

Record TaskRequestContext := {
  ServiceType_ : string;
  ServiceName : string;
  HasHTTP : bool;
  Method : string;
  Path : string;
  MCPTool : string;
  AllowMCPStreamInit : bool;
}.

(** The restriction on tools, and the one on methods and paths. *)
Definition tools_match (tools : list string) (req : TaskRequestContext) : bool :=
  if bool_decide (length tools = 0) then true
  else if negb (bool_decide (ServiceType_ req = "mcp")) then false
  else if bool_decide (MCPTool req = "") then AllowMCPStreamInit req
  else slices_Contains tools (MCPTool req).

Definition http_match (methods paths : list string) (req : TaskRequestContext) : bool :=
  if bool_decide (length methods = 0) && bool_decide (length paths = 0) then true
  else if negb (HasHTTP req) || bool_decide (Method req = "") || bool_decide (Method req = "CONNECT")
          || negb (IsSafeRequestHTTPPath (Path req)) then false
  else if negb (bool_decide (length methods = 0)) && negb (slices_Contains methods (Method req)) then false
  else if negb (bool_decide (length paths = 0)) && negb (existsb (λ p, MatchHTTPPath p (Path req)) paths) then false
  else true.

Definition services_match (services : list string) (ty nm : string) : bool :=
  existsb (λ pattern, MatchServicePattern pattern ty nm) services.

Definition MatchTaskRule (orule : option TaskRule) (req : TaskRequestContext) : bool :=
  match orule with
  | None => false
  | Some rule =>
      if negb (services_match (tr_allowed_services rule) (ServiceType_ req) (ServiceName req)) then false
      else
        match tr_operation rule with
        | None => true
        | Some op =>
            if negb (tools_match (op_allowed_tools op) req) then false
            else http_match (op_allowed_methods op) (op_allowed_paths op) req
        end
  end.

(** The expiry of one block, checked before its rules. *)
Definition block_expiry (block : TaskAuthorizationRule) (now : time) : result unit :=
  match tar_expire_time block with
  | None => Ok tt
  | Some exp =>
      fail_if (negb (IsValid exp) || (time_Unix (AsTime exp) <=? 0)%Z) "tar_block has invalid expire_time";;
      fail_if (AsTime exp <? now)%Z "tar_block expired"
  end.

Definition EvaluateTaskRules (blocks : list (option TaskAuthorizationRule)) (req : TaskRequestContext) (now : time)
  : result unit :=
  for_each (λ oblock,
    match oblock with
    | None => fail "tar_block is nil"
    | Some block =>
        block_expiry block now;;
        fail_if (negb (existsb (λ r, MatchTaskRule r req) (tar_rules block))) "tar_block denied request"
    end) blocks.

(** A rule as the destination-level check sees it. *)
Definition rule_allows_destination (orule : option TaskRule) (serviceType serviceName : string) : bool :=
  match orule with
  | None => false
  | Some r =>
      if match tr_operation r with
         | Some op => bool_decide (0 < length (op_allowed_tools op)) && negb (bool_decide (serviceType = "mcp"))
         | None => false
         end then false
      else services_match (tr_allowed_services r) serviceType serviceName
  end.

Definition EvaluateTaskRulesForDestination (blocks : list (option TaskAuthorizationRule))
    (serviceType serviceName : string) (now : time) : result unit :=
  for_each (λ oblock,
    match oblock with
    | None => fail "tar_block is nil"
    | Some block =>
        block_expiry block now;;
        fail_if (negb (existsb (λ r, rule_allows_destination r serviceType serviceName) (tar_rules block)))
          "tar_block denied request"
    end) blocks.

Definition EffectiveTARExpiration (authorityExp : time) (blocks : list (option TaskAuthorizationRule)) : time :=
  foldl (λ effective oblock,
    match oblock with
    | None => effective
    | Some block =>
        match tar_expire_time block with
        | None => effective
        | Some exp =>
            if negb (IsValid exp) || (time_Unix (AsTime exp) <=? 0)%Z then effective
            else if bool_decide (effective = zero_time) || (AsTime exp <? effective)%Z then AsTime exp
            else effective
        end
    end) authorityExp blocks.

(** ** OAuth parameters *)

Record scope_tokens := {
  sc_services : list string;
  sc_tools : list string;
  sc_methods : list string;
  sc_paths : list string;
  sc_perms : list string;
}.

Definition scope_step (st : scope_tokens) (tok : string) : result scope_tokens :=
  let '{| sc_services := s; sc_tools := t; sc_methods := m; sc_paths := p; sc_perms := q |} := st in
  if HasPrefix tok "tool:" then Ok {| sc_services := s; sc_tools := t ++ [TrimPrefix tok "tool:"]; sc_methods := m; sc_paths := p; sc_perms := q |}
  else if HasPrefix tok "method:" then Ok {| sc_services := s; sc_tools := t; sc_methods := m ++ [TrimPrefix tok "method:"]; sc_paths := p; sc_perms := q |}
  else if HasPrefix tok "path:" then Ok {| sc_services := s; sc_tools := t; sc_methods := m; sc_paths := p ++ [TrimPrefix tok "path:"]; sc_perms := q |}
  else if HasPrefix tok "perm:" then Ok {| sc_services := s; sc_tools := t; sc_methods := m; sc_paths := p; sc_perms := q ++ [TrimPrefix tok "perm:"] |}
  else if HasPrefix tok "permission:" then Ok {| sc_services := s; sc_tools := t; sc_methods := m; sc_paths := p; sc_perms := q ++ [TrimPrefix tok "permission:"] |}
  else if Contains tok "://" || bool_decide (tok = "*") then Ok {| sc_services := s ++ [tok]; sc_tools := t; sc_methods := m; sc_paths := p; sc_perms := q |}
  else fail "unrecognized scope token".

Fixpoint scope_loop (st : scope_tokens) (toks : list string) : result scope_tokens :=
  match toks with
  | [] => Ok st
  | tok :: toks => st ← scope_step st tok; scope_loop st toks
  end.

Definition is_nil {A} (l : list A) : bool := match l with [] => true | _ => false end.

(** The operation of the rule built from scopes, absent when no scope narrows one. *)
Definition scope_operation (st : scope_tokens) : option TaskOperation :=
  if is_nil (sc_tools st) && is_nil (sc_methods st) && is_nil (sc_paths st) && is_nil (sc_perms st) then None
  else Some {| op_allowed_tools := sc_tools st; op_allowed_methods := sc_methods st;
               op_allowed_paths := sc_paths st; op_allowed_permissions := sc_perms st; op_unknown := "" |}.

(** The expiry of a rule that came with one: the request can only shorten it. *)
Definition shorten_expiry (own requested : option Timestamp) : option Timestamp :=
  match requested with
  | None => own
  | Some e =>
      match own with
      | None => Some e
      | Some t => if IsValid e && IsValid t && (AsTime e <? AsTime t)%Z then Some e else Some t
      end
  end.

Section oauth.
Context `{UnicodeCase, TARCodec}.

Definition parse_options (optionsParam : string) : result (option TaskAuthorizationRule) :=
  if bool_decide (optionsParam = "") then Ok None
  else if HasPrefix optionsParam "{" then
    tar ← wrap_err "invalid options JSON" (protojson_Unmarshal optionsParam); Ok (Some tar)
  else tar ← wrap_err "invalid options tar_block" (DecodeTARBlockPayload optionsParam); Ok (Some tar).

Definition BuildTARFromOAuthParams (defaultName optionsParam : string) (resources : list string) (scope : string)
    (expireTime : option Timestamp) : result (option TaskAuthorizationRule) :=
  tar ← parse_options (TrimSpace optionsParam);
  let services := filter (λ r, r ≠ "") (TrimSpace <$> resources) in
  st ← scope_loop {| sc_services := services; sc_tools := []; sc_methods := []; sc_paths := []; sc_perms := [] |} (Fields scope);
  let nothing := is_nil (sc_services st) && is_nil (sc_tools st) && is_nil (sc_methods st)
                 && is_nil (sc_paths st) && is_nil (sc_perms st) in
  let finish (tar : TaskAuthorizationRule) : result (option TaskAuthorizationRule) :=
    ValidateTaskAuthorizationRule (Some tar);;
    fail_if (bool_decide (length (tar_rules tar) = 0)) "task authorization rule must contain at least one rule";;
    Ok (Some tar) in
  match tar with
  | None =>
      if nothing then Ok None
      else
        fail_if (is_nil (sc_services st)) "resource or service scope is required when specifying operation scopes";;
        let name := TrimSpace defaultName in
        finish {| tar_name := if bool_decide (name = "") then "oauth-task" else name;
                  tar_display_name := "";
                  tar_rules := [Some {| tr_description := ""; tr_allowed_services := sc_services st;
                                        tr_operation := scope_operation st; tr_allowed_resources := []; tr_unknown := "" |}];
                  tar_expire_time := expireTime; tar_unknown := "" |}
  | Some tar =>
      fail_if (negb nothing) "cannot combine options parameter with resource or scope parameters";;
      finish {| tar_name := if bool_decide (tar_name tar = "") && negb (bool_decide (defaultName = ""))
                            then defaultName else tar_name tar;
                tar_display_name := tar_display_name tar; tar_rules := tar_rules tar;
                tar_expire_time := shorten_expiry (tar_expire_time tar) expireTime; tar_unknown := tar_unknown tar |}
  end.
End oauth.

(** ** Patterns agree with the Datalog *)

Lemma Count_app s t c : Count (s +:+ t) c = Count s c + Count t c.
Proof. induction s as [|d s IH]; [done|]. rewrite app_cons. simpl. rewrite IH. by case_match; simpl. Qed.

(** A name with both wildcards has two of them. *)
Lemma two_wildcards p : HasPrefix p "*." = true → HasSuffix p ".*" = true → 1 < Count p "*".
Proof.
  intros [q Hq]%HasPrefix_spec [r Hr]%HasSuffix_spec. rewrite Hr, Count_app.
  destruct r as [|c r]; [rewrite Hq in Hr; by destruct q|].
  rewrite Hq in Hr. injection Hr as <- _. simpl. lia.
Qed.

Lemma MatchServicePattern_covers `{UnicodeCase} pat ty nm :
  ValidateTARServicePattern pat = Ok tt → pat ≠ "*://*" → ty ≠ "" → nm ≠ "" →
  MatchServicePattern pat ty nm = service_covers pat ty nm.
Proof.
  intros Hv Hne Hty Hnm. unfold ValidateTARServicePattern in Hv.
  rewrite !bind_unit_Ok, !fail_if_Ok, !bool_decide_eq_false in Hv. destruct Hv as (Hp & _ & Hf & _ & Hv).
  unfold MatchServicePattern, service_covers. rewrite !(bool_decide_false (_ = "")) by done. cbn [orb].
  case_bool_decide as Hstar; [by subst|].
  apply ValidateServiceFormat_iff in Hf as [?|(pt & pn & -> & Hu & Hd)]; [done|].
  rewrite ParseServiceTarget_uri in * by done. rewrite bind_unit_Ok, !fail_if_Ok in Hv. destruct Hv as [_ Hc].
  pose proof Hu as (Hpt & _ & _). unfold pattern_covers.
  assert (Hpn : pn ≠ "").
  { intros ->. destruct Hd as [?|Hd]; [done|]. by apply dnsNameRegex_not_empty. }
  rewrite (bool_decide_false (pt = "")), (bool_decide_false (pn = "")) by done. cbn [orb]. rewrite orb_false_r.
  assert (Hss : bool_decide (pt = "*") && bool_decide (pn = "*") = false).
  { apply andb_false_iff. destruct (decide (pn = "*")) as [->|]; [left|right; by rewrite bool_decide_false].
    apply bool_decide_eq_false. by intros ->. }
  rewrite Hss. destruct (bool_decide (pt = ty)) eqn:Et; cbn [orb negb andb]; [|done].
  destruct (decide (pn = "*")) as [->|Hs]; [done|]. rewrite (bool_decide_false (pn = "*")) in Hc |- * by done.
  cbn [negb andb] in Hc. apply bool_decide_eq_false in Hc.
  destruct (HasPrefix pn "*.") eqn:E1, (HasSuffix pn ".*") eqn:E2; cbn [negb andb]; try done.
  - destruct Hc. by apply two_wildcards.
  - by rewrite (bool_decide_ext (nm = pn) (pn = nm)).
Qed.

(** A task block grants a service by the same patterns as a role: for a
    pattern a task rule may carry, other than "*://*", and a request that
    names a service, [MatchServicePattern] and the fact the Datalog of a role
    builds from the pattern cover the same services. *)
Theorem task_patterns_agree `{UnicodeCase} pat ty nm :
  ValidateTARServicePattern pat = Ok tt → pat ≠ "*://*" → ty ≠ "" → nm ≠ "" →
  MatchServicePattern pat ty nm = true ↔ fact_covers service_names ty nm (BuildServiceDatalogFact pat).
Proof. intros. rewrite service_covers_fact, MatchServicePattern_covers by done. done. Qed.

Lemma task_patterns_agree_witness :
  MatchServicePattern "mcp://*.corp" "mcp" "calc.corp" = true ↔
  fact_covers service_names "mcp" "calc.corp" (BuildServiceDatalogFact "mcp://*.corp").
Proof. apply (@task_patterns_agree ascii_case); by vm_compute. Defined.

(** The pattern "*://*" is accepted in task rules and in roles, where it
    becomes the grant of every service, but no request matches it as a task
    pattern: the two meanings differ there. *)
Theorem star_star_pattern_differs `{UnicodeCase} ty nm :
  ValidateTARServicePattern "*://*" = Ok tt ∧
  fact_covers service_names ty nm (BuildServiceDatalogFact "*://*") ∧
  (ty ≠ "*" → MatchServicePattern "*://*" ty nm = false).
Proof.
  split; [by vm_compute|]. split; [change (BuildServiceDatalogFact "*://*") with (MarkerFact FactGrantedServiceAllTypes); apply cov_all_types|].
  intros Hty. unfold MatchServicePattern. destruct (bool_decide (ty = "") || bool_decide (nm = "") || bool_decide ("*://*" = "")); [done|].
  change (ParseServiceTarget "*://*") with ("*", "*"). rewrite bool_decide_false by done.
  by rewrite (bool_decide_false ("*" = ty)) by congruence.
Qed.

(** ** Evaluation *)

(** What a block permits at a time. *)
Definition block_permits (block : TaskAuthorizationRule) (now : time) (p : option TaskRule → bool) : Prop :=
  (∀ exp, tar_expire_time block = Some exp →
     IsValid exp = true ∧ (0 < time_Unix (AsTime exp))%Z ∧ (now ≤ AsTime exp)%Z) ∧
  ∃ r, r ∈ tar_rules block ∧ p r = true.

Lemma block_expiry_Ok block now :
  block_expiry block now = Ok tt ↔
  ∀ exp, tar_expire_time block = Some exp →
    IsValid exp = true ∧ (0 < time_Unix (AsTime exp))%Z ∧ (now ≤ AsTime exp)%Z.
Proof.
  unfold block_expiry. destruct (tar_expire_time block) as [exp|]; [|naive_solver].
  rewrite bind_unit_Ok, !fail_if_Ok, orb_false_iff, negb_false_iff, Z.leb_gt, Z.ltb_ge. naive_solver.
Qed.

Lemma EvaluateTaskRules_iff blocks req now :
  EvaluateTaskRules blocks req now = Ok tt ↔
  ∀ ob, ob ∈ blocks → ∃ block, ob = Some block ∧ block_permits block now (λ r, MatchTaskRule r req).
Proof.
  unfold EvaluateTaskRules, block_permits. rewrite for_each_Ok, Forall_forall.
  split; intros H ob Hob; specialize (H ob Hob).
  - destruct ob as [block|]; [|done]. exists block. split; [done|].
    rewrite bind_unit_Ok, block_expiry_Ok, fail_if_Ok, negb_false_iff, existsb_True in H. done.
  - destruct H as (block & -> & H). by rewrite bind_unit_Ok, block_expiry_Ok, fail_if_Ok, negb_false_iff, existsb_True.
Qed.

Lemma EvaluateTaskRulesForDestination_iff blocks ty nm now :
  EvaluateTaskRulesForDestination blocks ty nm now = Ok tt ↔
  ∀ ob, ob ∈ blocks → ∃ block, ob = Some block ∧ block_permits block now (λ r, rule_allows_destination r ty nm).
Proof.
  unfold EvaluateTaskRulesForDestination, block_permits. rewrite for_each_Ok, Forall_forall.
  split; intros H ob Hob; specialize (H ob Hob).
  - destruct ob as [block|]; [|done]. exists block. split; [done|].
    rewrite bind_unit_Ok, block_expiry_Ok, fail_if_Ok, negb_false_iff, existsb_True in H. done.
  - destruct H as (block & -> & H). by rewrite bind_unit_Ok, block_expiry_Ok, fail_if_Ok, negb_false_iff, existsb_True.
Qed.

Lemma MatchTaskRule_destination r req :
  MatchTaskRule r req = true → rule_allows_destination r (ServiceType_ req) (ServiceName req) = true.
Proof.
  unfold MatchTaskRule, rule_allows_destination. destruct r as [r|]; [|done].
  destruct (services_match _ _ _) eqn:Es; simpl; [|done]. destruct (tr_operation r) as [op|]; [|done].
  unfold tools_match. destruct (op_allowed_tools op); simpl; [done|].
  destruct (bool_decide (ServiceType_ req = "mcp")) eqn:Em; simpl; [|done]. done.
Qed.

(** Appended blocks only narrow.  A chain of blocks permits a request
    exactly when each block, alone, is present, unexpired and has a matching
    rule; so a longer chain permits no more than a shorter one, and a request
    the node lets through also passes the control plane's check of the
    destination. *)
Theorem attenuation_narrows blocks more req now :
  (EvaluateTaskRules blocks req now = Ok tt ↔
   ∀ ob, ob ∈ blocks → ∃ block, ob = Some block ∧ block_permits block now (λ r, MatchTaskRule r req)) ∧
  (EvaluateTaskRules (blocks ++ more) req now = Ok tt →
   EvaluateTaskRules blocks req now = Ok tt ∧
   EvaluateTaskRulesForDestination (blocks ++ more) (ServiceType_ req) (ServiceName req) now = Ok tt).
Proof.
  split; [apply EvaluateTaskRules_iff|]. rewrite !EvaluateTaskRules_iff, EvaluateTaskRulesForDestination_iff.
  intros H. split; intros ob Hob.
  - apply H, elem_of_app. by left.
  - destruct (H ob Hob) as (block & -> & He & r & Hr & Hm). exists block. split; [done|]. split; [done|].
    exists r. split; [done|]. by apply MatchTaskRule_destination.
Qed.

(** ** Expiry *)

Definition usable_expiry (exp : Timestamp) : bool := IsValid exp && (0 <? time_Unix (AsTime exp))%Z.

Lemma time_after_epoch exp : (0 < time_Unix (AsTime exp))%Z → (zero_time < AsTime exp)%Z.
Proof. unfold time_Unix, zero_time, second. intros. Z.to_euclidean_division_equations. lia. Qed.

(** The effective expiry is the least of the authority's and the blocks'. *)
Lemma EffectiveTARExpiration_spec authorityExp blocks :
  authorityExp ≠ zero_time →
  EffectiveTARExpiration authorityExp blocks ≠ zero_time ∧
  ∀ now, (now ≤ EffectiveTARExpiration authorityExp blocks)%Z ↔
    (now ≤ authorityExp)%Z ∧
    ∀ block exp, Some block ∈ blocks → tar_expire_time block = Some exp → usable_expiry exp = true → (now ≤ AsTime exp)%Z.
Proof.
  unfold EffectiveTARExpiration. intros Hz. induction blocks as [|ob blocks IH] using rev_ind.
  { split; [done|]. intros now. simpl. split; [|by intros [? _]]. intros ?. split; [done|]. by intros ? ? ?%not_elem_of_nil. }
  rewrite foldl_app. simpl. set (eff := foldl _ authorityExp blocks) in *. destruct IH as [Hne IH].
  assert (Hskip : (∀ block exp, ob = Some block → tar_expire_time block = Some exp → usable_expiry exp = false) →
    ∀ now, (now ≤ eff)%Z ↔ (now ≤ authorityExp)%Z ∧
      ∀ block exp, Some block ∈ blocks ++ [ob] → tar_expire_time block = Some exp → usable_expiry exp = true → (now ≤ AsTime exp)%Z).
  { intros Hno now. rewrite IH. apply and_iff_compat_l. split; intros H block exp.
    - rewrite elem_of_app, list_elem_of_singleton. intros [Hb|Hb] He Hu; [by eapply H|]. by rewrite (Hno block exp) in Hu.
    - intros Hb. apply H, elem_of_app. by left. }
  destruct ob as [block|]; [|split; [done|by apply Hskip]].
  destruct (tar_expire_time block) as [exp|] eqn:Ee; [|split; [done|apply Hskip; naive_solver]].
  destruct (negb (IsValid exp) || (time_Unix (AsTime exp) <=? 0)%Z) eqn:Eu.
  { split; [done|]. apply Hskip. intros ? ? [= <-] He. rewrite Ee in He. injection He as <-. unfold usable_expiry.
    apply orb_true_iff in Eu as [Eu|Eu]; [by apply negb_true_iff in Eu as ->|].
    rewrite andb_false_iff, Z.ltb_ge. right. lia. }
  apply orb_false_elim in Eu as [Ev Eu]. apply negb_false_iff in Ev. apply Z.leb_gt in Eu.
  assert (Hu : usable_expiry exp = true) by (unfold usable_expiry; rewrite Ev; by apply Z.ltb_lt).
  rewrite (bool_decide_false _ Hne). simpl.
  assert (Hmin : ∀ now, (now ≤ authorityExp)%Z ∧
      (∀ block exp, Some block ∈ blocks → tar_expire_time block = Some exp → usable_expiry exp = true → (now ≤ AsTime exp)%Z) ∧
      (now ≤ AsTime exp)%Z ↔ (now ≤ authorityExp)%Z ∧
      ∀ b e, Some b ∈ blocks ++ [Some block] → tar_expire_time b = Some e → usable_expiry e = true → (now ≤ AsTime e)%Z).
  { intros now. setoid_rewrite elem_of_app. setoid_rewrite list_elem_of_singleton. split.
    - intros (Ha & Hall & Hl). split; [done|]. intros b e [Hb|[= ->]] He Hue; [by eapply Hall|]. rewrite Ee in He. by injection He as <-.
    - intros [Ha Hall]. split_and!; [done| |by apply (Hall block exp); auto]. intros b e Hb. apply Hall. by left. }
  destruct (AsTime exp <? eff)%Z eqn:El.
  - apply Z.ltb_lt in El. split; [pose proof (time_after_epoch exp Eu); lia|].
    intros now. rewrite <-Hmin. specialize (IH now). split; [|lia]. intros Hnow.
    assert (now ≤ eff)%Z as Hle by lia. apply IH in Hle. destruct Hle. split_and!; done.
  - apply Z.ltb_ge in El. split; [done|]. intros now. rewrite <-Hmin. specialize (IH now). rewrite IH. split; [|naive_solver].
    intros Hnow. pose proof (proj2 IH Hnow). destruct Hnow. split_and!; [done..|lia].
Qed.

(** The effective expiry of a token is exactly the deadline it is held to:
    when the authority block has an expiry, a time is within the effective
    expiry exactly when it is within the authority's and within that of every
    block; in particular a token whose blocks permit a request before the
    authority's expiry is within its effective expiry. *)
Theorem effective_expiry authorityExp blocks :
  authorityExp ≠ zero_time →
  (∀ now, (now ≤ EffectiveTARExpiration authorityExp blocks)%Z ↔
    (now ≤ authorityExp)%Z ∧
    ∀ block exp, Some block ∈ blocks → tar_expire_time block = Some exp → usable_expiry exp = true →
                 (now ≤ AsTime exp)%Z) ∧
  ∀ req now, EvaluateTaskRules blocks req now = Ok tt → (now ≤ authorityExp)%Z →
             (now ≤ EffectiveTARExpiration authorityExp blocks)%Z.
Proof.
  intros Hz. destruct (EffectiveTARExpiration_spec authorityExp blocks Hz) as [_ Hs]. split; [done|].
  intros req now Hev Hnow. apply Hs. split; [done|]. intros block exp Hb He _.
  rewrite EvaluateTaskRules_iff in Hev. destruct (Hev _ Hb) as (b & [= <-] & Hexp & _). by apply (Hexp exp He).
Qed.

(** A rule for the examples. *)
Definition tar_example (exp : option Timestamp) : TaskAuthorizationRule :=
  {| tar_name := "t"; tar_display_name := "";
     tar_rules := [Some {| tr_description := ""; tr_allowed_services := ["mcp://calc"];
                           tr_operation := Some {| op_allowed_tools := ["add"]; op_allowed_methods := []; op_allowed_paths := [];
                                                   op_allowed_permissions := []; op_unknown := "" |};
                           tr_allowed_resources := []; tr_unknown := "" |}];
     tar_expire_time := exp; tar_unknown := "" |}.

Lemma effective_expiry_witness :
  (∀ now, (now ≤ EffectiveTARExpiration (2000 * second)
                   [Some (tar_example (Some {| ts_seconds := 1000; ts_nanos := 0; ts_unknown := "" |}))])%Z ↔
    (now ≤ 2000 * second)%Z ∧
    ∀ block exp, Some block ∈ [Some (tar_example (Some {| ts_seconds := 1000; ts_nanos := 0; ts_unknown := "" |}))] →
                 tar_expire_time block = Some exp → usable_expiry exp = true → (now ≤ AsTime exp)%Z) ∧
  ∀ req now, EvaluateTaskRules [Some (tar_example (Some {| ts_seconds := 1000; ts_nanos := 0; ts_unknown := "" |}))] req now = Ok tt →
    (now ≤ 2000 * second)%Z →
    (now ≤ EffectiveTARExpiration (2000 * second)
             [Some (tar_example (Some {| ts_seconds := 1000; ts_nanos := 0; ts_unknown := "" |}))])%Z.
Proof. apply (effective_expiry (2000 * second)%Z). by vm_compute. Defined.

(** ** Encoding *)

Lemma validated_no_nil `{UnicodeCase} rule :
  ValidateTaskAuthorizationRule (Some rule) = Ok tt → no_nil_rules rule = true.
Proof.
  unfold ValidateTaskAuthorizationRule, no_nil_rules. rewrite !bind_unit_Ok, for_each_Ok, Forall_forall.
  intros (_ & _ & _ & _ & _ & _ & Hr). apply forallb_True. intros [r|] Hin; [by rewrite bool_decide_true|].
  by apply Hr in Hin.
Qed.

Lemma RawURL_Encode_chars b : str_forallb is_b64 (RawURL_Encode b) = true.
Proof.
  assert (Hc : ∀ z, is_b64 (b64_char z) = true).
  { intros z. unfold b64_char. destruct (chars alphabet !! Z.to_nat z) as [c|] eqn:E; [|done]. simpl.
    apply list_elem_of_lookup_2 in E.
    assert (Hall : forallb is_b64 (chars alphabet) = true) by (by vm_compute).
    rewrite forallb_True in Hall. by apply Hall. }
  revert b. fix IH 1. intros [|a1 [|a2 [|a3 r]]]; cbn [RawURL_Encode str_forallb]; rewrite ?Hc; try done. simpl. apply IH.
Qed.

Lemma EncodeTARBlockPayload_Ok `{UnicodeCase, TARCodec} rule b64 :
  EncodeTARBlockPayload rule = Ok b64 → hasUnknownTARFields rule = false →
  DecodeTARBlockPayload b64 = Ok rule ∧ b64 ≠ "" ∧ str_forallb is_b64 b64 = true.
Proof.
  unfold EncodeTARBlockPayload. intros He Hu. inv_ok.
  match goal with Hm : proto_Marshal _ = Ok ?r, Hs : _ || _ = false, Hv : ValidateTaskAuthorizationRule _ = Ok _ |- _ =>
    rename r into raw; rename Hm into Hmar; rename Hs into Hsize; rename Hv into Hval end.
  assert (Hne : RawURL_Encode raw ≠ "").
  { intros Hn. apply RawURL_Encode_empty in Hn as ->. by apply orb_false_elim in Hsize as [? _]. }
  split_and!; [|done|apply RawURL_Encode_chars].
  unfold DecodeTARBlockPayload. rewrite bool_decide_false by done. cbn [fail_if mbind result_bind].
  rewrite RawURL_roundtrip. cbn [wrap_err mbind result_bind]. rewrite Hsize. cbn [fail_if mbind result_bind].
  rewrite (proto_roundtrip rule raw) by (done || by apply validated_no_nil). cbn [wrap_err mbind result_bind].
  rewrite Hu. cbn [fail_if mbind result_bind]. by rewrite Hval.
Qed.

(** The Datalog source of an appended block. *)
Definition block_source (payload semi : string) : string :=
  FactTARBlock +:+ "(" +:+ quoted payload +:+ ")" +:+ semi.

Lemma TARBlockSource_match payload semi :
  payload ≠ "" → str_forallb is_b64 payload = true → semi = "" ∨ semi = ";" →
  TARBlockSourceRegex_FindStringSubmatch (block_source payload semi) = Some payload.
Proof.
  intros Hne Hp Hs. unfold TARBlockSourceRegex_FindStringSubmatch, block_source.
  set (open := FactTARBlock +:+ "(" +:+ str1 quote_char).
  set (close := str1 quote_char +:+ ")").
  assert (Heq : FactTARBlock +:+ "(" +:+ quoted payload +:+ ")" +:+ semi = open +:+ payload +:+ close +:+ semi).
  { unfold open, close, quoted. rewrite !app_assoc. f_equal. f_equal. rewrite app_cons.
    change (str1 quote_char +:+ (payload +:+ str1 quote_char +:+ ")" +:+ semi))
      with (String quote_char (payload +:+ str1 quote_char +:+ ")" +:+ semi)). by rewrite !app_assoc. }
  rewrite Heq, HasPrefix_app, drop_app_len.
  rewrite span_stop; [|done|by intros c r [= <- _]].
  rewrite bool_decide_false, HasPrefix_app, drop_app_len by done. simpl.
  by destruct Hs as [->| ->].
Qed.

Lemma block_source_trimmed payload semi :
  semi = "" ∨ semi = ";" → TrimSpace (block_source payload semi) = block_source payload semi.
Proof.
  intros Hs. unfold block_source. change FactTARBlock with (String "t" "ar_block"). rewrite app_cons.
  destruct Hs as [->| ->].
  - rewrite (app_nil_r ")"), <-!app_assoc. by apply TrimSpace_id.
  - change (")" +:+ ";") with (")" +:+ str1 ";"). rewrite <-!app_assoc. by apply TrimSpace_id.
Qed.

(** A task rule survives its block: encoding a rule that has no unknown
    fields gives a payload that decodes to the rule, and the source of the
    block that carries it, with or without a semicolon, is accepted and parses
    to the rule. *)
Theorem tar_block_roundtrip `{UnicodeCase, TARCodec} rule f semi :
  EncodeTARBlockFact rule = Ok f → hasUnknownTARFields rule = false → semi = "" ∨ semi = ";" →
  ∃ payload, f = Fact FactTARBlock [VStr payload] ∧ DecodeTARBlockPayload payload = Ok rule ∧
             ParseTARBlockSource (block_source payload semi) = Ok rule.
Proof.
  unfold EncodeTARBlockFact. intros (payload & He & [= <-])%bind_Ok Hu Hs.
  destruct (EncodeTARBlockPayload_Ok rule payload He Hu) as (Hd & Hne & Hc).
  exists payload. split_and!; [done..|]. unfold ParseTARBlockSource.
  by rewrite block_source_trimmed, TARBlockSource_match.
Qed.

(** A codec that knows one rule. *)
#[export] Instance Timestamp_eq_dec : EqDecision Timestamp.
Proof. solve_decision. Defined.
#[export] Instance TaskOperation_eq_dec : EqDecision TaskOperation.
Proof. solve_decision. Defined.
#[export] Instance TaskRule_eq_dec : EqDecision TaskRule.
Proof. solve_decision. Defined.
#[export] Instance TaskAuthorizationRule_eq_dec : EqDecision TaskAuthorizationRule.
Proof. solve_decision. Defined.

#[refine] Definition one_rule_codec : TARCodec :=
  {| proto_Marshal := λ r, if decide (r = tar_example None) then Ok "t" else fail "unknown";
     proto_Unmarshal := λ s, if bool_decide (s = "t") then Ok (tar_example None) else fail "unknown";
     protojson_Unmarshal := λ _, fail "unknown" |}.
Proof. intros rule raw _. case_decide as Hr; [|done]. intros [= <-]. by subst. Defined.

Lemma tar_block_roundtrip_witness :
  ∃ payload, Fact FactTARBlock [VStr "dA"] = Fact FactTARBlock [VStr payload] ∧
             @DecodeTARBlockPayload ascii_case one_rule_codec payload = Ok (tar_example None) ∧
             @ParseTARBlockSource ascii_case one_rule_codec (block_source payload ";") = Ok (tar_example None).
Proof.
  apply (@tar_block_roundtrip ascii_case one_rule_codec (tar_example None)).
  - by vm_compute.
  - by vm_compute.
  - by right.
Defined.

(** ** OAuth parameters *)

Lemma shorten_expiry_le own e t :
  IsValid e = true → shorten_expiry own (Some e) = Some t → IsValid t = true → (AsTime t ≤ AsTime e)%Z.
Proof.
  intros He Hs Ht. unfold shorten_expiry in Hs. destruct own as [o|]; [|injection Hs as <-; lia].
  rewrite He in Hs. simpl in Hs. destruct (IsValid o) eqn:Eo; simpl in Hs; [|injection Hs as <-; congruence].
  destruct (AsTime e <? AsTime o)%Z eqn:El; injection Hs as <-; [lia|]. by apply Z.ltb_ge in El.
Qed.

Lemma validated_expiry `{UnicodeCase} tar t :
  ValidateTaskAuthorizationRule (Some tar) = Ok tt → tar_expire_time tar = Some t → IsValid t = true.
Proof.
  unfold ValidateTaskAuthorizationRule. rewrite !bind_unit_Ok. intros (_ & _ & _ & _ & He & _) Ht.
  rewrite Ht, bind_unit_Ok, fail_if_Ok in He. by apply negb_false_iff, He.
Qed.

(** A task rule built from OAuth parameters is a valid rule with at least
    one entry, and it never outlives the credential it is requested for: with
    a valid requested expiry, its expiry is not later, also when the client
    sent a rule of its own. *)
Theorem oauth_task_rule `{UnicodeCase, TARCodec} defaultName options resources scope expireTime tar :
  BuildTARFromOAuthParams defaultName options resources scope expireTime = Ok (Some tar) →
  ValidateTaskAuthorizationRule (Some tar) = Ok tt ∧ tar_rules tar ≠ [] ∧
  ∀ e, expireTime = Some e → IsValid e = true → ∃ t, tar_expire_time tar = Some t ∧ (AsTime t ≤ AsTime e)%Z.
Proof.
  unfold BuildTARFromOAuthParams. intros (own & Hown & Hb)%bind_Ok. apply bind_Ok in Hb as (st & _ & Hb).
  destruct own as [own|].
  - apply bind_unit_Ok in Hb as [_ Hb]. rewrite bind_unit_Ok, bind_unit_Ok, fail_if_Ok in Hb.
    destruct Hb as (Hv & Hl & [= <-]). split; [done|]. split.
    { simpl in *. intros Hn. by rewrite Hn in Hl. }
    intros e -> He. destruct (shorten_expiry (tar_expire_time own) (Some e)) as [t|] eqn:Es.
    + exists t. simpl. split; [done|]. eapply shorten_expiry_le; [done..|]. by eapply (validated_expiry _ t Hv).
    + unfold shorten_expiry in Es. by repeat case_match.
  - destruct (is_nil (sc_services st) && _ && _ && _ && _); [done|].
    apply bind_unit_Ok in Hb as [_ Hb]. rewrite bind_unit_Ok, bind_unit_Ok, fail_if_Ok in Hb.
    destruct Hb as (Hv & Hl & [= <-]). split; [done|]. split; [done|].
    intros e -> He. exists e. simpl. split; [done|lia].
Qed.

Definition ts_example : Timestamp := {| ts_seconds := 1000; ts_nanos := 0; ts_unknown := "" |}.

Lemma oauth_task_rule_witness :
  ∃ tar, @BuildTARFromOAuthParams ascii_case one_rule_codec "" "" ["mcp://calc"] "tool:add method:GET" (Some ts_example)
           = Ok (Some tar) ∧
         @ValidateTaskAuthorizationRule ascii_case (Some tar) = Ok tt ∧ tar_rules tar ≠ [].
Proof.
  eexists. split; [by vm_compute|].
  match goal with |- ValidateTaskAuthorizationRule (Some ?t) = _ ∧ _ =>
    destruct (@oauth_task_rule ascii_case one_rule_codec "" "" ["mcp://calc"] "tool:add method:GET" (Some ts_example) t)
      as (Hv & Hr & _); [by vm_compute|done] end.
Defined.
