(* ===== verification/Token.v ===== *)
(** * Biscuit tokens

    What the sources use of [biscuit-go] beside the Datalog engine: building,
    serializing, appending to and sealing a token, the authorizer of a token
    under a key, and the protobuf envelope that [UnmarshalInbound] inspects.
    The library is not part of the repository: [BiscuitTokens] is its
    interface, with the documented behaviour the sources rely on as laws. *)

From S2P Require Import Prelude GoStrings Biscuit NaiveEngine Facts DatalogText Grants Tar.

(** An ed25519 key is its bytes. *)
Definition PublicKey : Type := string.
Definition PrivateKey : Type := string.

(** Biscuit dates count seconds. *)
Definition biscuit_Date (t : time) : value := VAtom (ADate (time_Unix t)).
Definition date_Time (d : Z) : time := (d * second)%Z.

(** A [pb.TermV2]: only whether it is a string is looked at. *)
Inductive PbTerm :=
| TermV2_String (symbol : Z)
| TermV2_Other.

(** A [pb.Block]: the numbers of its rules and checks, and its facts, each the
    terms of its predicate or nil when it has none. *)
Record PbBlock := {
  RulesV2 : nat;
  ChecksV2 : nat;
  FactsV2 : list (option (list PbTerm));
}.

#[export] Instance PbTerm_eq_dec : EqDecision PbTerm.
Proof. solve_decision. Defined.
#[export] Instance PbBlock_eq_dec : EqDecision PbBlock.
Proof. solve_decision. Defined.

(** The block that holds one fact with one string term and nothing else. *)
Definition one_string_fact (b : PbBlock) : Prop :=
  RulesV2 b = 0 ∧ ChecksV2 b = 0 ∧ ∃ sym, FactsV2 b = [Some [TermV2_String sym]].

(** The text of a block as [UnmarshalInbound] reads it: without the frame
    that [Code] prints around it. *)
Definition block_inner (rawCode : string) : string :=
  let inner := TrimSpace rawCode in
  let inner := TrimPrefix inner "Block {" in
  let inner := TrimSuffix inner "}" in
  TrimSpace inner.

Definition ErrInvalidSignature : error := NewError "biscuit: invalid signature".

(** Two values that print alike: sets are printed without an order. *)
Inductive value_same : value → value → Prop :=
| same_atom a : value_same (VAtom a) (VAtom a)
| same_set l l' : (∀ a, a ∈ l ↔ a ∈ l') → value_same (VSet l) (VSet l').

Definition fact_same (f g : fact) : Prop := f_name f = f_name g ∧ Forall2 value_same (f_ids f) (f_ids g).

(** Dates are printed to the second in the zone they were given in. *)
Definition is_date (a : atom) : bool := match a with ADate _ => true | _ => false end.
Definition no_date (v : value) : bool :=
  match v with VAtom a => negb (is_date a) | VSet l => negb (existsb is_date l) end.

Class BiscuitTokens := {
  Rng : Type;               (** the state of a random source *)
  rand_Reader : Rng;
  (** [ed25519.PrivateKey.Public] *)
  Public : PrivateKey → PublicKey;
  (** [biscuit.Fact.String] *)
  fact_String : fact → string;

  Builder : Type;
  NewBuilder : PrivateKey → Builder;
  AddAuthorityFact : Builder → fact → result Builder;

  Biscuit : Type;
  Build : Rng → Builder → result (Biscuit * Rng);
  Unmarshal : string → result Biscuit;
  Serialize : Biscuit → result string;
  BlockCount : Biscuit → nat;
  Code : Biscuit → list string;
  RevocationIds : Biscuit → list string;
  GetBlockID : Biscuit → fact → result nat;
  (** [b.Authorizer(key)]: the world of the authority block *)
  Authorizer : Biscuit → PublicKey → result world;
  Seal : Rng → Biscuit → result (Biscuit * Rng);

  Block : Type;
  BlockBuilder : Type;
  CreateBlock : Biscuit → BlockBuilder;
  AddFact : BlockBuilder → fact → result BlockBuilder;
  BuildBlock : BlockBuilder → Block;
  Append : Rng → Biscuit → Block → result (Biscuit * Rng);

  (** [proto.Unmarshal] into a [pb.Biscuit], its blocks' bytes *)
  container_Blocks : string → result (list string);
  block_Unmarshal : string → result PbBlock;

  (** views the laws are stated with *)
  authority : Biscuit → list fact;
  builder_key : Builder → PrivateKey;
  builder_facts : Builder → list fact;
  blocks : Biscuit → list PbBlock;
  sealed : Biscuit → bool;

  fact_String_same f g :
    ident (f_name f) = true → ident (f_name g) = true →
    forallb no_date (f_ids f) = true → fact_String f = fact_String g → fact_same f g;

  NewBuilder_spec k : builder_key (NewBuilder k) = k ∧ builder_facts (NewBuilder k) = [];
  AddAuthorityFact_spec bld f bld' :
    AddAuthorityFact bld f = Ok bld' →
    builder_key bld' = builder_key bld ∧ builder_facts bld' = builder_facts bld ++ [f];
  Build_spec rng bld b rng' :
    Build rng bld = Ok (b, rng') →
    authority b = builder_facts bld ∧ blocks b = [] ∧ sealed b = false ∧
    is_ok (Authorizer b (Public (builder_key bld))) = true ∧
    (∀ key w, Authorizer b key = Ok w → w = World (builder_facts bld) [] [] []);

  Serialize_spec b data : Serialize b = Ok data → Unmarshal data = Ok b;
  (** [Unmarshal] reads the same envelope *)
  Unmarshal_spec data b :
    Unmarshal data = Ok b →
    ∃ raws, container_Blocks data = Ok raws ∧ Forall2 (λ raw blk, block_Unmarshal raw = Ok blk) raws (blocks b);
  BlockCount_spec b : BlockCount b = length (blocks b);
  Code_spec b : length (Code b) = length (blocks b);

  (** the authorizer sees the facts of the authority block only, and it has
      no policies yet *)
  Authorizer_spec b key w : Authorizer b key = Ok w → w_facts w = authority b ∧ w_policies w = [];
  (** block 0 is the authority block, and it is searched first *)
  GetBlockID_authority b f : GetBlockID b f = Ok 0 ↔ f ∈ authority b;

  Append_spec rng b name s bb b' rng' :
    AddFact (CreateBlock b) (Fact name [VStr s]) = Ok bb →
    Append rng b (BuildBlock bb) = Ok (b', rng') →
    sealed b = false ∧ sealed b' = false ∧ authority b' = authority b ∧
    (∀ key w, Authorizer b key = Ok w → Authorizer b' key = Ok w) ∧
    (∃ blk, blocks b' = blocks b ++ [blk] ∧ one_string_fact blk) ∧
    (∃ code semi, Code b' = Code b ++ [code] ∧ (semi = "" ∨ semi = ";") ∧
       (name = FactTARBlock → str_forallb is_b64 s = true → block_inner code = block_source s semi));
  Seal_spec rng b b' rng' :
    Seal rng b = Ok (b', rng') →
    sealed b' = true ∧ authority b' = authority b ∧ blocks b' = blocks b ∧ Code b' = Code b ∧
    (∀ key w, Authorizer b key = Ok w → Authorizer b' key = Ok w);
}.

(** ** Adding to an authorizer *)

Definition AddFacts (w : world) (fs : list fact) : world :=
  World (w_facts w ++ fs) (w_rules w) (w_checks w) (w_policies w).
Definition AddRules (w : world) (rs : list rule) : world :=
  World (w_facts w) (w_rules w ++ rs) (w_checks w) (w_policies w).
Definition AddChecks (w : world) (cs : list check) : world :=
  World (w_facts w) (w_rules w) (w_checks w ++ cs) (w_policies w).
Definition AddPolicies (w : world) (ps : list policy) : world :=
  World (w_facts w) (w_rules w) (w_checks w) (w_policies w ++ ps).

(** The parts of an authorizer that is added to step by step; unfolding the
    steps instead would copy the world once per part. *)
Lemma w_facts_AddFacts w l : w_facts (AddFacts w l) = w_facts w ++ l.
Proof. done. Qed.
Lemma w_facts_AddRules w l : w_facts (AddRules w l) = w_facts w.
Proof. done. Qed.
Lemma w_facts_AddChecks w l : w_facts (AddChecks w l) = w_facts w.
Proof. done. Qed.
Lemma w_facts_AddPolicies w l : w_facts (AddPolicies w l) = w_facts w.
Proof. done. Qed.
Lemma w_rules_AddFacts w l : w_rules (AddFacts w l) = w_rules w.
Proof. done. Qed.
Lemma w_rules_AddRules w l : w_rules (AddRules w l) = w_rules w ++ l.
Proof. done. Qed.
Lemma w_rules_AddChecks w l : w_rules (AddChecks w l) = w_rules w.
Proof. done. Qed.
Lemma w_rules_AddPolicies w l : w_rules (AddPolicies w l) = w_rules w.
Proof. done. Qed.
Lemma w_checks_AddFacts w l : w_checks (AddFacts w l) = w_checks w.
Proof. done. Qed.
Lemma w_checks_AddRules w l : w_checks (AddRules w l) = w_checks w.
Proof. done. Qed.
Lemma w_checks_AddChecks w l : w_checks (AddChecks w l) = w_checks w ++ l.
Proof. done. Qed.
Lemma w_checks_AddPolicies w l : w_checks (AddPolicies w l) = w_checks w.
Proof. done. Qed.
Lemma w_policies_AddFacts w l : w_policies (AddFacts w l) = w_policies w.
Proof. done. Qed.
Lemma w_policies_AddRules w l : w_policies (AddRules w l) = w_policies w.
Proof. done. Qed.
Lemma w_policies_AddChecks w l : w_policies (AddChecks w l) = w_policies w.
Proof. done. Qed.
Lemma w_policies_AddPolicies w l : w_policies (AddPolicies w l) = w_policies w ++ l.
Proof. done. Qed.
Create Rewrite HintDb world.
#[export] Hint Rewrite w_facts_AddFacts w_facts_AddRules w_facts_AddChecks w_facts_AddPolicies w_rules_AddFacts w_rules_AddRules w_rules_AddChecks w_rules_AddPolicies w_checks_AddFacts w_checks_AddRules w_checks_AddChecks w_checks_AddPolicies w_policies_AddFacts w_policies_AddRules w_policies_AddChecks w_policies_AddPolicies : world.

(** ** Checks and policies of the baseline *)

Lemma checks_hold_add w cs :
  checks_hold (AddChecks w cs) ↔
  checks_hold w ∧ ∀ c, c ∈ cs → check_holds (w_facts w) (w_rules w) c.
Proof.
  unfold checks_hold. simpl. setoid_rewrite elem_of_app. split; [|by intros [H1 H2] c [?|?]; auto].
  intros H. split; intros c Hc; apply H; auto.
Qed.

Lemma AllowIfTrue_holds F R : policy_holds F R AllowIfTruePolicy.
Proof.
  exists (mk_query [EE (ETerm TTrue)]). split; [by left|]. exists (λ _, MarkerTerm). split.
  - intros p Hp. by apply not_elem_of_nil in Hp.
  - by intros e ->%list_elem_of_singleton.
Qed.

(** The time check: some derived time is at or before some derived
    expiration. *)
Lemma time_check_holds F R :
  (∀ us, derives F R (Fact FactTime us) → ∃ t, us = [VAtom (ADate t)]) →
  check_holds F R ControlPlaneStaticTimeCheck ↔
  ∃ t e, derives F R (Fact FactTime [VAtom (ADate t)]) ∧ derives F R (Fact FactExpiration [VAtom (ADate e)]) ∧ (t ≤ e)%Z.
Proof.
  intros Ht. split.
  - intros (q & ->%list_elem_of_singleton & σ & Hb & He).
    pose proof (Hb (pv FactTime ["time"]) ltac:(left)) as H1.
    pose proof (Hb (pv FactExpiration ["exp"]) ltac:(right; left)) as H2.
    specialize (He (ELessOrEqual (var "time") (var "exp")) ltac:(left)).
    unfold inst in H1, H2. simpl in H1, H2. unfold sat in He. simpl in He.
    destruct (Ht _ H1) as [t [= Hσ]]. rewrite Hσ in He, H1.
    destruct (σ "exp") as [[?|?|e|?|?]|?]; try done. injection He as He.
    exists t, e. split_and!; [done..|by apply Z.leb_le].
  - intros (t & e & H1 & H2 & Hle). exists (mk_query [EPv FactTime ["time"]; EPv FactExpiration ["exp"];
                   EE (ELessOrEqual (var "time") (var "exp"))]).
    split; [by left|]. exists (λ x, if bool_decide (x = "time") then VAtom (ADate t) else VAtom (ADate e)). split.
    + intros p. simpl. intros [->|[->|[]%not_elem_of_nil]%elem_of_cons]%elem_of_cons; done.
    + intros ex. simpl. intros ->%list_elem_of_singleton. unfold sat. simpl. f_equal. f_equal. f_equal. by apply Z.leb_le.
Qed.

(** The replay check: the credential names the connection's peer. *)
Lemma replay_check_holds F R :
  check_holds F R BaselineReplayCheck ↔
  ∃ v, derives F R (Fact FactClientPeerID [v]) ∧ derives F R (Fact FactConnectionPeerID [v]).
Proof.
  split.
  - intros (q & ->%list_elem_of_singleton & σ & Hb & _). exists (σ "id"). split.
    + apply (Hb (pv FactClientPeerID ["id"])). left.
    + apply (Hb (pv FactConnectionPeerID ["id"])). right. left.
  - intros (v & H1 & H2). exists (mk_query [EPv FactClientPeerID ["id"]; EPv FactConnectionPeerID ["id"]]).
    split; [by left|]. exists (λ _, v). split.
    + intros p. simpl. intros [->|[->|[]%not_elem_of_nil]%elem_of_cons]%elem_of_cons; done.
    + intros e He. by apply not_elem_of_nil in He.
Qed.

(** The target check: some target is allowed, or the caller is unrestricted. *)
Lemma target_check_holds F R :
  check_holds F R BaselineTargetCheck ↔
  (∃ u v, derives F R (Fact FactAllowNetworkTarget [u; v])) ∨ derives F R (MarkerFact FactTargetUnrestricted).
Proof.
  split.
  - intros (q & Hq & σ & Hb & _). simpl in Hq.
    apply elem_of_cons in Hq as [->|[->|[]%not_elem_of_nil]%elem_of_cons].
    + left. exists (σ "fact"), (σ "val"). apply (Hb (pv FactAllowNetworkTarget ["fact"; "val"])). left.
    + right. apply (Hb (Pred FactTargetUnrestricted [TTrue])). left.
  - intros [(u & v & H)|H].
    + eexists. split; [left|]. exists (λ x, if bool_decide (x = "fact") then u else v). split.
      * intros p. simpl. by intros ->%list_elem_of_singleton.
      * intros e He. by apply not_elem_of_nil in He.
    + eexists. split; [right; left|]. exists (λ _, MarkerTerm). split.
      * intros p. simpl. by intros ->%list_elem_of_singleton.
      * intros e He. by apply not_elem_of_nil in He.
Qed.
