(* ===== verification/TokenModel.v ===== *)
(** * A model of the token interface

    A small implementation of [BiscuitTokens]: a token is its authority facts,
    the payloads of its blocks, the key that signed it and whether it is
    sealed.  Only the tokens of a given table have bytes.  It shows that the
    laws of the interface can hold together, and runs the examples. *)

From S2P Require Import Prelude GoStrings Biscuit NaiveEngine Facts DatalogText Grants Tar Token.

(** ** The text of a fact *)

#[global] Instance atom_countable : Countable atom.
Proof.
  refine (inj_countable'
    (λ a, match a with
          | AInt z => inl (inl z) | AStr s => inl (inr s) | ADate t => inr (inl t)
          | ABytes b => inr (inr (inl b)) | ABool b => inr (inr (inr b)) end)
    (λ x, match x with
          | inl (inl z) => AInt z | inl (inr s) => AStr s | inr (inl t) => ADate t
          | inr (inr (inl b)) => ABytes b | inr (inr (inr b)) => ABool b end) _).
  by intros [].
Defined.

#[global] Instance value_countable : Countable value.
Proof.
  refine (inj_countable'
    (λ v, match v with VAtom a => inl a | VSet l => inr l end)
    (λ x, match x with inl a => VAtom a | inr l => VSet l end) _).
  by intros [].
Defined.

#[global] Instance fact_countable : Countable fact.
Proof.
  refine (inj_countable' (λ f, (f_name f, f_ids f)) (λ x, Fact x.1 x.2) _). by intros [].
Defined.

Fixpoint pos_string (p : positive) : string :=
  match p with
  | xH => ""
  | xO p => String "0" (pos_string p)
  | xI p => String "1" (pos_string p)
  end.

Lemma pos_string_inj p q : pos_string p = pos_string q → p = q.
Proof. revert q. induction p as [p IH|p IH|]; intros [q|q|]; simpl; try done; intros [= Hp]; by rewrite (IH q). Qed.

(** ** Tokens *)

Record toy := Toy {
  toy_key : PrivateKey;
  toy_facts : list fact;
  toy_blocks : list (string * string);  (** name and payload of each block's fact *)
  toy_sealed : bool;
}.

#[export] Instance toy_eq_dec : EqDecision toy.
Proof. solve_decision. Defined.

Definition toy_public (k : PrivateKey) : PublicKey := "pub:" +:+ k.

Definition toy_block : PbBlock := {| RulesV2 := 0; ChecksV2 := 0; FactsV2 := [Some [TermV2_String 1024]] |}.

Definition toy_code (nb : string * string) : string :=
  "Block {" +:+ (nb.1 +:+ "(" +:+ quoted nb.2 +:+ ")" +:+ ";") +:+ "}".

Definition toy_Authorizer (b : toy) (key : PublicKey) : result world :=
  if bool_decide (key = toy_public (toy_key b)) then Ok (World (toy_facts b) [] [] []) else Err ErrInvalidSignature.

Definition toy_GetBlockID (b : toy) (f : fact) : result nat :=
  if bool_decide (f ∈ toy_facts b) then Ok 0
  else match list_find (λ nb, f = Fact nb.1 [VStr nb.2]) (toy_blocks b) with
       | Some (i, _) => Ok (S i)
       | None => fail "fact not found"
       end.

Definition toy_Append (b : toy) (blk : option fact) : result (toy * unit) :=
  if toy_sealed b then fail "sealed"
  else match blk with
       | Some (Fact n [VStr s]) => Ok (Toy (toy_key b) (toy_facts b) (toy_blocks b ++ [(n, s)]) false, tt)
       | _ => fail "unsupported block"
       end.

Definition toy_Seal (b : toy) : result (toy * unit) :=
  if toy_sealed b then fail "sealed" else Ok (Toy (toy_key b) (toy_facts b) (toy_blocks b) true, tt).

Section table.
Context (table : list toy).

Definition toy_Serialize (b : toy) : result string :=
  match list_find (λ b', b = b') table with
  | Some (i, _) => Ok (str1 (ascii_of_N (N.of_nat i)))
  | None => fail "no bytes"
  end.

Definition toy_Unmarshal (s : string) : result toy :=
  match list_find (λ b, toy_Serialize b = Ok s) table with
  | Some (_, b) => Ok b
  | None => fail "malformed"
  end.
End table.

Lemma toy_code_inner s : block_inner (toy_code (FactTARBlock, s)) = block_source s ";".
Proof.
  unfold toy_code, block_inner. cbn [fst snd]. fold (block_source s ";").
  assert (Ht : TrimSpace ("Block {" +:+ block_source s ";" +:+ "}") = "Block {" +:+ block_source s ";" +:+ "}").
  { change ("Block {" +:+ block_source s ";" +:+ "}") with (String "B" ("lock {" +:+ block_source s ";" +:+ str1 "}")).
    rewrite <-app_assoc. by apply TrimSpace_id. }
  rewrite Ht, TrimPrefix_app. change "}" with (str1 "}"). rewrite TrimSuffix_app. apply block_source_trimmed. by right.
Qed.

(** The signature of each block, 64 bytes that depend on what it signs. *)
Definition toy_id (b : toy) (i : nat) : string :=
  str_take 64 (toy_key b +:+ foldr (λ nb s, nb.2 +:+ s) "" (take i (toy_blocks b))
    +:+ "0123456789012345678901234567890123456789012345678901234567890123").
Definition toy_ids (b : toy) : list string := toy_id b <$> seq 0 (S (length (toy_blocks b))).

Lemma toy_id_len b id : id ∈ toy_ids b → len id = 64.
Proof. intros (i & -> & _)%list_elem_of_fmap. unfold toy_id. rewrite len_take, !len_app. cbn [String.length]. lia. Qed.

(** The bytes of the table's tokens are told apart. *)
Definition table_ok (table : list toy) : Prop :=
  ∀ b b' s, b ∈ table → b' ∈ table → toy_Serialize table b = Ok s → toy_Serialize table b' = Ok s → b = b'.

Lemma toy_Serialize_in table b s : toy_Serialize table b = Ok s → b ∈ table.
Proof.
  unfold toy_Serialize. destruct (list_find _ table) as [[i b']|] eqn:E; [|done]. intros _.
  apply list_find_Some in E as (Hl & -> & _). by eapply list_elem_of_lookup_2.
Qed.

Lemma toy_roundtrip table b s : table_ok table → toy_Serialize table b = Ok s → toy_Unmarshal table s = Ok b.
Proof.
  intros Hok Hs. unfold toy_Unmarshal. pose proof (toy_Serialize_in _ _ _ Hs) as Hin.
  destruct (list_find _ table) as [[i b']|] eqn:E.
  - apply list_find_Some in E as (Hl & Hb' & _). f_equal. apply list_elem_of_lookup_2 in Hl. by eapply (Hok b' b).
  - apply list_find_None in E. rewrite Forall_forall in E. by destruct (E b Hin).
Qed.

#[refine] Definition toy_tokens (table : list toy) (Hok : table_ok table) : BiscuitTokens := {|
  Rng := unit;
  rand_Reader := tt;
  Public := toy_public;
  fact_String := λ f, pos_string (encode f);
  Builder := PrivateKey * list fact;
  NewBuilder := λ k, (k, []);
  AddAuthorityFact := λ bld f, if bool_decide (f ∈ bld.2) then fail "duplicate fact" else Ok (bld.1, bld.2 ++ [f]);
  Biscuit := toy;
  Build := λ rng bld, Ok (Toy bld.1 bld.2 [] false, rng);
  Unmarshal := toy_Unmarshal table;
  Serialize := toy_Serialize table;
  BlockCount := λ b, length (toy_blocks b);
  Code := λ b, toy_code <$> toy_blocks b;
  RevocationIds := toy_ids;
  GetBlockID := toy_GetBlockID;
  Authorizer := toy_Authorizer;
  Seal := λ _, toy_Seal;
  Block := option fact;
  BlockBuilder := option fact;
  CreateBlock := λ _, None;
  AddFact := λ bb f, match bb with None => Ok (Some f) | Some _ => fail "one fact" end;
  BuildBlock := λ bb, bb;
  Append := λ _, toy_Append;
  container_Blocks := λ s, b ← toy_Unmarshal table s; Ok ((λ _, "B") <$> toy_blocks b);
  block_Unmarshal := λ s, Ok toy_block;
  authority := toy_facts;
  builder_key := fst;
  builder_facts := snd;
  blocks := λ b, (λ _, toy_block) <$> toy_blocks b;
  sealed := toy_sealed;
|}.
Proof.
  - intros f g _ _ _ Ht%pos_string_inj. apply (inj encode) in Ht as <-. split; [done|].
    induction (f_ids f) as [|v l IH]; constructor; [|done]. by destruct v; constructor.
  - done.
  - intros bld f bld'. case_bool_decide; [done|]. by intros [= <-].
  - intros rng bld b rng' [= <- _]. split_and!; [done..| |].
    + unfold toy_Authorizer. by rewrite bool_decide_true.
    + intros key w. unfold toy_Authorizer. case_bool_decide; [|done]. by intros [= <-].
  - intros b data. by apply toy_roundtrip.
  - intros data b Hu. rewrite Hu. exists ((λ _, "B") <$> toy_blocks b). split; [done|].
    induction (toy_blocks b) as [|nb l IH]; simpl; constructor; done.
  - intros b. by rewrite length_fmap.
  - intros b. by rewrite !length_fmap.
  - intros b key w. unfold toy_Authorizer. case_bool_decide; [|done]. by intros [= <-].
  - intros b f. unfold toy_GetBlockID. case_bool_decide; [done|]. split; [|done].
    by destruct (list_find _ _) as [[i nb]|].
  - intros rng b name s bb b' rng' [= <-]. unfold toy_Append. destruct (toy_sealed b); [done|]. intros [= <- _].
    split_and!; [done..| |].
    + exists toy_block. simpl. rewrite fmap_app. split; [done|]. repeat split. by exists 1024%Z.
    + exists (toy_code (name, s)), ";". simpl. rewrite fmap_app. split_and!; [done|by right|].
      intros -> _. apply toy_code_inner.
  - intros rng b b' rng'. unfold toy_Seal. destruct (toy_sealed b); [done|]. by intros [= <- _].
Defined.

Lemma small_table_ok table : length table ≤ 256 → table_ok table.
Proof.
  intros Hlen b b' s _ _. unfold toy_Serialize.
  destruct (list_find (λ x, b = x) table) as [[i x]|] eqn:Ei; [|done].
  destruct (list_find (λ x, b' = x) table) as [[j y]|] eqn:Ej; [|done].
  apply list_find_Some in Ei as (Hi & -> & _). apply list_find_Some in Ej as (Hj & -> & _).
  intros [= <-] [= He].
  assert (Hb : ∀ n z, table !! n = Some z → (N.of_nat n < 256)%N).
  { intros n z Hn. apply lookup_lt_Some in Hn. lia. }
  apply (f_equal N_of_ascii) in He. rewrite !Ascii.N_ascii_embedding in He by eauto.
  apply Nat2N.inj in He. subst j. congruence.
Qed.

(** ** Example tokens *)

(** A private key whose public key has the size of an ed25519 key. *)
Definition example_key : PrivateKey := "0123456789012345678901234567".
Definition example_public : PublicKey := toy_public example_key.

Definition member_facts : list fact := [
  Fact FactExpiration [biscuit_Date (1000 * second)%Z];
  Fact FactNode [VStr "12D3p1"];
  Fact FactClientPeerID [VStr "12D3p1"];
  Fact FactLabel [VStr "region"; VStr "eu"];
  Fact FactUser [VStr "alice"];
  Fact FactRole [VStr "dev"];
  Fact FactGrantedServiceSet [VStr "mcp"; VSet [AStr "calc"]];
  Fact FactGrantedTargetSet [VStr "node"; VSet [AStr "12D3p2"]];
  Fact FactGrantedPublishSet [VStr "mcp"; VSet [AStr "calc"]] ].

Definition delegated_facts : list fact := [
  Fact FactExpiration [biscuit_Date (1000 * second)%Z];
  Fact FactActorNode [VStr "12D3p1"];
  Fact FactClientPeerID [VStr "12D3p1"];
  Fact FactUser [VStr "alice"];
  Fact FactRole [VStr "dev"];
  Fact FactGrantedServiceSet [VStr "mcp"; VSet [AStr "calc"]];
  Fact FactGrantedTargetSet [VStr "node"; VSet [AStr "12D3p2"]] ].

(** A member's token, the same with a task rule appended, the same sealed, and
    a delegated token. *)
Definition member_token : toy := Toy example_key member_facts [] false.
Definition task_token : toy := Toy example_key member_facts [(FactTARBlock, "dA")] false.
Definition sealed_token : toy := Toy example_key member_facts [(FactTARBlock, "dA")] true.
Definition delegated_token : toy := Toy example_key delegated_facts [] false.

(** The token of the node "12D3p2". *)
Definition node_token : toy := Toy example_key
  [Fact FactExpiration [biscuit_Date (1000 * second)%Z]; Fact FactNode [VStr "12D3p2"]; Fact FactClientPeerID [VStr "12D3p2"]] [] false.

Definition example_table : list toy := [member_token; task_token; sealed_token; delegated_token; node_token].

Lemma example_table_ok : table_ok example_table.
Proof. apply small_table_ok. simpl. lia. Qed.

Definition example_tokens : BiscuitTokens := toy_tokens example_table example_table_ok.

(** Their bytes. *)
Definition token_bytes (i : nat) : string := str1 (ascii_of_N (N.of_nat i)).
