(* ===== verification/Identity.v ===== *)
(** * Credentials

    Reading, attenuating, minting and verifying the credentials of the mesh
    ([src/internal/identity/biscuit.go]).  The clock is an argument, [now]: the
    readings of [time.Now] within one call are taken to be one instant. *)

From S2P Require Import Prelude GoStrings Regex Names Biscuit NaiveEngine Facts DatalogText Grants Labels HTTPGrants PolicyRules Egress Base64 Tar Token.

Definition ErrAppendedBlocks : error :=
  NewError "biscuit carries invalid appended blocks; only tar_block attenuation facts are permitted".

(** [fmt.Errorf("%w: ...", ErrAppendedBlocks)], and the same around another
    error. *)
Definition bad_blocks_if (cond : bool) (msg : string) : result unit :=
  if cond then Err (WrapError msg ErrAppendedBlocks) else Ok tt.
Definition wrap_bad_blocks {A} (msg : string) (r : result A) : result A :=
  match r with Ok a => Ok a | Err e => Err (WrapError msg (JoinError ErrAppendedBlocks e)) end.

(** The world limits are the engine's: a run that reaches one is an [ErrRun]. *)
Definition authorityBlockID : nat := 0.

Definition optional_rules (rules : list TaskAuthorizationRule) : list (option TaskAuthorizationRule) := Some <$> rules.

Section identity.
Context `{UnicodeCase, TARCodec, BiscuitTokens}.

(** ** Reading *)

(** One block of the envelope: nothing but one fact with one string term. *)
Definition inspect_block (raw : string) : result unit :=
  blk ← wrap_bad_blocks "block malformed" (block_Unmarshal raw);
  bad_blocks_if (negb (bool_decide (RulesV2 blk = 0))) "block contains rules (0 allowed)";;
  bad_blocks_if (negb (bool_decide (ChecksV2 blk = 0))) "block contains checks (0 allowed)";;
  match FactsV2 blk with
  | [pred] =>
      match pred with
      | Some [term] =>
          bad_blocks_if (match term with TermV2_String _ => false | TermV2_Other => true end)
            "block fact term must be a string"
      | _ => bad_blocks_if true "block fact must have exactly 1 term"
      end
  | _ => bad_blocks_if true "block contains facts (1 tar_block fact required)"
  end.

Definition UnmarshalInbound (biscuitData : string) : result (Biscuit * list TaskAuthorizationRule) :=
  b ← wrap_err "malformed biscuit" (Unmarshal biscuitData);
  let n := BlockCount b in
  if bool_decide (n = 0) then Ok (b, [])
  else
    bad_blocks_if (bool_decide (MaxAttenuationBlocks < n)) "block count exceeds maximum";;
    raws ← wrap_err "malformed biscuit envelope" (container_Blocks biscuitData);
    bad_blocks_if (negb (bool_decide (length raws = n))) "block count mismatch";;
    for_each inspect_block raws;;
    let codes := Code b in
    bad_blocks_if (negb (bool_decide (length codes = n))) "block code count mismatch";;
    rules ← collect (λ rawCode, wrap_bad_blocks "block" (ParseTARBlockSource (block_inner rawCode))) codes;
    Ok (b, rules).

Definition ExtractTaskRules (biscuitData : string) : result (list TaskAuthorizationRule) :=
  '(_, rules) ← UnmarshalInbound biscuitData; Ok rules.

(** ** Attenuating and sealing *)

Definition AttenuateBiscuitWithRand (rng : Rng) (biscuitData : string) (rule : TaskAuthorizationRule)
  : result (string * Rng) :=
  '(b, existingRules) ← UnmarshalInbound biscuitData;
  bad_blocks_if (bool_decide (MaxAttenuationBlocks ≤ length existingRules)) "cannot append block";;
  fact ← EncodeTARBlockFact rule;
  blockBuilder ← wrap_err "failed to add tar_block fact" (AddFact (CreateBlock b) fact);
  '(attenuated, rng) ← wrap_err "failed to append tar_block to biscuit" (Append rng b (BuildBlock blockBuilder));
  data ← Serialize attenuated;
  Ok (data, rng).

Definition AttenuateBiscuit (biscuitData : string) (rule : TaskAuthorizationRule) : result string :=
  '(data, _) ← AttenuateBiscuitWithRand rand_Reader biscuitData rule; Ok data.

Definition SealBiscuitWithRand (rng : Rng) (biscuitData : string) : result (string * Rng) :=
  '(b, _) ← UnmarshalInbound biscuitData;
  '(sealed, rng) ← wrap_err "failed to seal biscuit" (Seal rng b);
  data ← Serialize sealed;
  Ok (data, rng).

Definition SealBiscuit (biscuitData : string) : result string :=
  '(data, _) ← SealBiscuitWithRand rand_Reader biscuitData; Ok data.

(** ** Checks on a token *)

Definition EnforceExpiration (now : time) (authorizer : world) : world :=
  AddChecks (AddFacts authorizer [Fact FactTime [biscuit_Date now]]) [ControlPlaneStaticTimeCheck].

Definition requireAuthorityFact (b : Biscuit) (factName value : string) : result unit :=
  blockID ← wrap_err "token is not bound to peer" (GetBlockID b (Fact factName [VStr value]));
  fail_if (negb (bool_decide (blockID = authorityBlockID))) "token is not bound to peer: fact comes from appended block".

Definition RequireAuthorityBinding (b : Biscuit) (expectedPeer : string) : result unit :=
  requireAuthorityFact b FactNode expectedPeer.

Definition RequireAuthorityRequestBinding (b : Biscuit) (expectedPeer : string) : result unit :=
  if is_ok (RequireAuthorityBinding b expectedPeer) then Ok tt
  else
    wrap_err "token is not bound to peer (neither node nor actor_node in authority block)"
      (requireAuthorityFact b FactActorNode expectedPeer);;
    wrap_err "delegated token is not bound to client peer"
      (requireAuthorityFact b FactClientPeerID expectedPeer).

Context `{BiscuitEngine}.

(** [head($x) <- name($x)]. *)
Definition select_rule (head x name : string) : rule :=
  Rule (Pred head [TVar x]) [Pred name [TVar x]] [].

Definition earliest_step (earliest : time) (f : fact) : time :=
  match f_ids f with
  | [VAtom (ADate d)] =>
      let t := date_Time d in
      if bool_decide (earliest = zero_time) || (t <? earliest)%Z then t else earliest
  | _ => earliest
  end.

Definition expirationOf (authorizer : world) : result time :=
  match run_query authorizer (select_rule "get_exp" "e" FactExpiration) with
  | None => fail "expiration query failed"
  | Some facts =>
      let earliest := foldl earliest_step zero_time facts in
      fail_if (bool_decide (earliest = zero_time)) "no expiration fact in token";;
      Ok earliest
  end.

(** The loop over the trusted keys: the first whose authorizer passes. *)
Fixpoint first_key (try : PublicKey → option world) (trustedPublicKeys : list PublicKey)
  : option (PublicKey * world) :=
  match trustedPublicKeys with
  | [] => None
  | pubKey :: keys =>
      match try pubKey with
      | Some authorizer => Some (pubKey, authorizer)
      | None => first_key try keys
      end
  end.

(** A candidate authorizer of the verification loops. *)
Definition unexpired_under (now : time) (b : Biscuit) (pubKey : PublicKey) : option world :=
  match Authorizer b pubKey with
  | Err _ => None
  | Ok w =>
      let candidate := AddPolicies (EnforceExpiration now w) [AllowIfTruePolicy] in
      if bool_decide (authorize candidate = Success) then Some candidate else None
  end.

Definition verifyBiscuit (now : time) (biscuitData : string) (expectedPeer : string)
    (trustedPublicKeys : list PublicKey) : result (Biscuit * PublicKey * time) :=
  '(b, rules) ← UnmarshalInbound biscuitData;
  match first_key (unexpired_under now b) trustedPublicKeys with
  | None => fail "no valid key found for verification"
  | Some (verifyingKey, authorizer) =>
      RequireAuthorityBinding b expectedPeer;;
      expiry ← expirationOf authorizer;
      let expiry := EffectiveTARExpiration expiry (optional_rules rules) in
      fail_if (negb (now <? expiry)%Z) "token tar_block expired";;
      Ok (b, verifyingKey, expiry)
  end.

Definition VerifyBiscuit now biscuitData expectedPeer trustedPublicKeys : result Biscuit :=
  '(b, _, _) ← verifyBiscuit now biscuitData expectedPeer trustedPublicKeys; Ok b.
Definition VerifyBiscuitAndGetKey now biscuitData expectedPeer trustedPublicKeys : result (Biscuit * PublicKey) :=
  '(b, key, _) ← verifyBiscuit now biscuitData expectedPeer trustedPublicKeys; Ok (b, key).
Definition VerifyBiscuitAndGetExpiry now biscuitData expectedPeer trustedPublicKeys : result time :=
  '(_, _, expiry) ← verifyBiscuit now biscuitData expectedPeer trustedPublicKeys; Ok expiry.
Definition VerifyBiscuitAdmission now biscuitData expectedPeer trustedPublicKeys : result (Biscuit * PublicKey * time) :=
  verifyBiscuit now biscuitData expectedPeer trustedPublicKeys.

(** ** Extracting the peer *)

Context `{PeerCodec}.

(** The candidate of [extractPeerID]: no policy is added, so that no policy
    matches is success. *)
Definition admitted_under (now : time) (enforceExpiry : bool) (b : Biscuit) (pubKey : PublicKey) : option world :=
  match Authorizer b pubKey with
  | Err _ => None
  | Ok w =>
      let auth := if enforceExpiry then EnforceExpiration now w else w in
      match authorize auth with
      | Success | ErrNoMatchingPolicy => Some auth
      | _ => None
      end
  end.

Definition extractPeerID (now : time) (trustedPublicKeys : list PublicKey) (biscuitData : string)
    (enforceExpiry : bool) : result string :=
  '(b, rules) ← UnmarshalInbound biscuitData;
  (if enforceExpiry then
     for_each (λ rule,
       match tar_expire_time rule with
       | None => Ok tt
       | Some exp => fail_if (AsTime exp <? now)%Z "tar_block expired"
       end) rules
   else Ok tt);;
  match first_key (admitted_under now enforceExpiry b) trustedPublicKeys with
  | None => fail "signature verification failed"
  | Some (_, authorizer) =>
      match run_query authorizer (select_rule "get_peer" "p" FactNode) with
      | None => fail "query failed"
      | Some facts =>
          match facts with
          | [] => fail "no node fact found in biscuit"
          | f :: _ =>
              match f_ids f with
              | [v] =>
                  match v with
                  | VStr strVal => wrap_err "invalid peer ID in biscuit" (peer_Decode strVal)
                  | _ => fail "node fact value is not a string"
                  end
              | _ => fail "unexpected fact structure"
              end
          end
      end
  end.

Definition VerifyExpiredAndExtractPeerID now trustedPublicKeys biscuitData : result string :=
  extractPeerID now trustedPublicKeys biscuitData false.
Definition VerifyAndExtractPeerID now trustedPublicKeys biscuitData : result string :=
  extractPeerID now trustedPublicKeys biscuitData true.

(** ** Roles and serving *)

Definition role_check (expectedRole : string) : check :=
  Check [Query [Pred FactRole [TVal (VStr expectedRole)]] []].

Definition RequireRole (b : Biscuit) (key : PublicKey) (expectedRole : string) : result unit :=
  w ← wrap_err "failed to create authorizer" (Authorizer b key);
  let authorizer := AddPolicies (AddChecks w [role_check expectedRole]) [AllowIfTruePolicy] in
  fail_if (negb (bool_decide (authorize authorizer = Success))) "biscuit lacks expected role".

Definition VerifyBiscuitRole (biscuitData : string) (controlPlanePubKey : PublicKey) (expectedRole : string) : result unit :=
  '(b, _) ← UnmarshalInbound biscuitData;
  RequireRole b controlPlanePubKey expectedRole.

Definition publish_world (w : world) (svcType svcName : string) (policyRules : list rule) : world :=
  AddPolicies (AddRules (AddFacts w [PublishFact svcType svcName]) policyRules) PublishPolicies.

Definition RequirePublish (b : Biscuit) (key : PublicKey) (svcType svcName : string) (policyRules : list rule)
  : result unit :=
  w ← wrap_err "failed to create authorizer" (Authorizer b key);
  fail_if (negb (bool_decide (authorize (publish_world w svcType svcName policyRules) = Success)))
    "credential does not grant serving".

(** ** Claims of a verified token *)

Record VerifiedBiscuitClaims := {
  vc_Biscuit : Biscuit;
  vc_VerifyingKey : PublicKey;
  vc_User : string;
  vc_Email : string;
  vc_Roles : list string;
  vc_NodePeerID : string;
  vc_ActorNodePeerID : string;
  vc_ClientPeerID : string;
  vc_Expiration : time;
  vc_RevocationIDs : list string;
  vc_TaskRules : list TaskAuthorizationRule;
}.

Definition Principal (c : VerifiedBiscuitClaims) : string :=
  if negb (bool_decide (vc_Email c = "")) then vc_Email c
  else if negb (bool_decide (vc_User c = "")) then vc_User c
  else if negb (bool_decide (vc_NodePeerID c = "")) then "node:" +:+ vc_NodePeerID c
  else if negb (bool_decide (vc_ClientPeerID c = "")) then "peer:" +:+ vc_ClientPeerID c
  else "".

Definition InnermostTaskName (c : VerifiedBiscuitClaims) : string :=
  match last (vc_TaskRules c) with None => "" | Some rule => tar_name rule end.

Definition fact_strings (facts : list fact) : list string :=
  omap (λ f, match f_ids f with [VStr s] => Some s | _ => None end) facts.

Definition queryStrings (authorizer : world) (factName : string) : list string :=
  match run_query authorizer (select_rule "q" "v" factName) with
  | None => []
  | Some facts => sort_Strings (fact_strings facts)
  end.

Definition firstString (authorizer : world) (factName : string) : string :=
  match queryStrings authorizer factName with [] => "" | s :: _ => s end.

Definition canonicalPeer (authorizer : world) (factName : string) : result string :=
  let raw := firstString authorizer factName in
  if bool_decide (raw = "") then Ok ""
  else wrap_err "invalid peer ID in biscuit" (peer_Decode raw).

Definition InspectVerifiedBiscuit (now : time) (biscuitData : string) (trustedPublicKeys : list PublicKey)
  : result VerifiedBiscuitClaims :=
  '(b, rules) ← UnmarshalInbound biscuitData;
  match first_key (unexpired_under now b) trustedPublicKeys with
  | None => fail "signature or expiration verification failed"
  | Some (verifyingKey, authorizer) =>
      expiry ← expirationOf authorizer;
      let expiry := EffectiveTARExpiration expiry (optional_rules rules) in
      fail_if (negb (now <? expiry)%Z) "token tar_block expired";;
      nodePeerID ← canonicalPeer authorizer FactNode;
      actorNodePeerID ← canonicalPeer authorizer FactActorNode;
      clientPeerID ← canonicalPeer authorizer FactClientPeerID;
      Ok {| vc_Biscuit := b;
            vc_VerifyingKey := verifyingKey;
            vc_User := firstString authorizer FactUser;
            vc_Email := firstString authorizer FactEmail;
            vc_Roles := queryStrings authorizer FactRole;
            vc_NodePeerID := nodePeerID;
            vc_ActorNodePeerID := actorNodePeerID;
            vc_ClientPeerID := clientPeerID;
            vc_Expiration := expiry;
            vc_RevocationIDs := RevocationIds b;
            vc_TaskRules := rules |}
  end.

End identity.
Arguments VerifiedBiscuitClaims {_}.
