(* ===== verification/IdentityFacts.v ===== *)
(** * Credentials: what is accepted

    Theorems about reading, attenuating, sealing and verifying a credential. *)

From S2P Require Import Prelude GoStrings Regex Names Biscuit NaiveEngine Facts DatalogText Grants Labels HTTPGrants PolicyRules Egress Base64 Tar Token TokenModel Identity.

Section reading.
Context `{UnicodeCase, TARCodec, BiscuitTokens}.

Lemma bad_blocks_if_Ok c msg u : bad_blocks_if c msg = Ok u ↔ c = false.
Proof. destruct c, u; naive_solver. Qed.

Lemma wrap_bad_blocks_Ok {A} msg (r : result A) a : wrap_bad_blocks msg r = Ok a ↔ r = Ok a.
Proof. destruct r; naive_solver. Qed.

Lemma inspect_block_Ok raw u :
  inspect_block raw = Ok u ↔ ∃ blk, block_Unmarshal raw = Ok blk ∧ one_string_fact blk.
Proof.
  unfold inspect_block, one_string_fact. rewrite bind_Ok. setoid_rewrite wrap_bad_blocks_Ok.
  apply exist_proper. intros blk. apply and_iff_compat_l.
  rewrite !bind_unit_Ok, !bad_blocks_if_Ok, !negb_false_iff, !bool_decide_eq_true.
  apply and_iff_compat_l, and_iff_compat_l. destruct (FactsV2 blk) as [|[[|[sym|] [|]]|] [|]]; destruct u; naive_solver.
Qed.

(** What [UnmarshalInbound] accepts, in terms of the token. *)
Lemma UnmarshalInbound_iff data b rules :
  UnmarshalInbound data = Ok (b, rules) ↔
  Unmarshal data = Ok b ∧ length (blocks b) ≤ MaxAttenuationBlocks ∧ Forall one_string_fact (blocks b) ∧
  Forall2 (λ code rule, ParseTARBlockSource (block_inner code) = Ok rule) (Code b) rules.
Proof.
  unfold UnmarshalInbound. rewrite bind_Ok. setoid_rewrite wrap_err_Ok.
  assert (Hex : ∀ P : Biscuit → Prop, (∃ a, Unmarshal data = Ok a ∧ P a) ↔
                match Unmarshal data with Ok a => P a | Err _ => False end).
  { intros P. destruct (Unmarshal data); naive_solver. }
  rewrite Hex. destruct (Unmarshal data) as [b0|e] eqn:Eu; [|naive_solver].
  rewrite BlockCount_spec. destruct (Unmarshal_spec data b0 Eu) as (raws & Hraws & Hblk).
  pose proof (Code_spec b0) as Hcode. pose proof (Forall2_length _ _ _ Hblk) as Hlen. case_bool_decide as Hn.
  - apply nil_length_inv in Hn as Hnil. rewrite Hn in Hcode. apply nil_length_inv in Hcode as Hc. split.
    + intros [= <- <-]. rewrite Hnil, Hc. split_and!; [done|by apply Nat.le_0_l|by constructor|by constructor].
    + intros ([= <-] & _ & _ & Hr). rewrite Hc in Hr. by inversion Hr.
  - rewrite bind_unit_Ok, bad_blocks_if_Ok, bool_decide_eq_false, Hraws. cbn [wrap_err mbind result_bind].
    rewrite bind_unit_Ok, bad_blocks_if_Ok, negb_false_iff, bool_decide_eq_true.
    rewrite bind_unit_Ok, for_each_Ok. cbv zeta. rewrite bind_unit_Ok, bad_blocks_if_Ok, negb_false_iff, bool_decide_eq_true, bind_Ok.
    assert (Hall : Forall (λ x, inspect_block x = Ok tt) raws ↔ Forall one_string_fact (blocks b0)).
    { clear -Hblk. induction Hblk as [|raw blk rs bs Hd _ IH]; [split; constructor|].
      rewrite !Forall_cons, IH. apply and_iff_compat_r. rewrite inspect_block_Ok, Hd. split; [by intros (? & [= <-] & ?)|eauto]. }
    rewrite Hall. setoid_rewrite collect_Ok. split.
    + intros (Hmax & _ & Hone & _ & rs & Hrs & [= <- <-]). split_and!; [done|lia|done|].
      eapply Forall2_impl; [done|]. by intros code rule ?%wrap_bad_blocks_Ok.
    + intros ([= <-] & Hmax & Hone & Hrs). split_and!; [lia..|done|lia|].
      exists rules. split; [|done]. eapply Forall2_impl; [done|]. intros. by apply wrap_bad_blocks_Ok.
Qed.

(** Reading a credential accepts appended blocks only when there are at most
    [MaxAttenuationBlocks] of them and every one is a single fact with one
    string term, without rules or checks; there is one task rule for each block,
    and every one of them is a valid rule that no unknown field rides on. *)
Theorem inbound_blocks data b rules :
  UnmarshalInbound data = Ok (b, rules) →
  length rules = BlockCount b ∧ length rules ≤ MaxAttenuationBlocks ∧ Forall one_string_fact (blocks b) ∧
  ∀ rule, rule ∈ rules → ValidateTaskAuthorizationRule (Some rule) = Ok tt ∧ hasUnknownTARFields rule = false.
Proof.
  intros (Hu & Hmax & Hone & Hr)%UnmarshalInbound_iff. pose proof (Forall2_length _ _ _ Hr) as Hlen.
  rewrite Code_spec in Hlen. rewrite BlockCount_spec, <-Hlen. split_and!; [done..|].
  intros rule [i Hi]%list_elem_of_lookup. destruct (Forall2_lookup_r _ _ _ _ _ Hr Hi) as (code & _ & Hp).
  unfold ParseTARBlockSource in Hp. destruct (TARBlockSourceRegex_FindStringSubmatch _) as [payload|]; [|done].
  unfold DecodeTARBlockPayload in Hp. inv_ok.
  split; [|done]. by match goal with H : ValidateTaskAuthorizationRule _ = Ok ?u |- _ => destruct u end.
Qed.

(** Appending a task rule to a credential and reading the result gives the
    rules of the credential followed by the new rule, with the authority block
    and what the authorizer sees under any key unchanged; it happens only while
    there is room for another block, and never to a sealed credential. *)
Theorem attenuate_roundtrip rng data rule data' rng' :
  AttenuateBiscuitWithRand rng data rule = Ok (data', rng') → hasUnknownTARFields rule = false →
  ∃ b rules b', UnmarshalInbound data = Ok (b, rules) ∧ UnmarshalInbound data' = Ok (b', rules ++ [rule]) ∧
    sealed b = false ∧ length rules < MaxAttenuationBlocks ∧
    authority b' = authority b ∧ ∀ key w, Authorizer b key = Ok w → Authorizer b' key = Ok w.
Proof.
  unfold AttenuateBiscuitWithRand. intros ([b rules] & Hu & Ha)%bind_Ok Hunk.
  rewrite bind_unit_Ok, bad_blocks_if_Ok, bool_decide_eq_false in Ha. destruct Ha as [Hroom Ha].
  apply bind_Ok in Ha as (f & Hf & Ha). apply bind_Ok in Ha as (bb & Hbb & Ha). rewrite wrap_err_Ok in Hbb.
  apply bind_Ok in Ha as ([b' r'] & Happ & Ha). rewrite wrap_err_Ok in Happ.
  apply bind_Ok in Ha as (d & Hser & [= -> ->]).
  unfold EncodeTARBlockFact in Hf. apply bind_Ok in Hf as (payload & He & [= <-]).
  destruct (EncodeTARBlockPayload_Ok rule payload He Hunk) as (Hd & Hne & Hc).
  destruct (Append_spec _ _ _ _ _ _ _ Hbb Happ) as (Hs & _ & Hauth & Hw & (blk & Hblk & Hone) & code & semi & Hcode & Hsemi & Hin).
  pose proof Hu as Hu'. rewrite UnmarshalInbound_iff in Hu'. destruct Hu' as (Hub & Hmax & Hall & Hr).
  exists b, rules, b'. split_and!; [done| |done|lia|done|done].
  pose proof (Forall2_length _ _ _ Hr) as Hlen. rewrite Code_spec in Hlen.
  apply UnmarshalInbound_iff. split_and!.
  - by apply Serialize_spec.
  - rewrite Hblk, length_app. simpl. lia.
  - rewrite Hblk, Forall_app. auto.
  - rewrite Hcode. apply Forall2_app; [done|]. constructor; [|constructor]. rewrite Hin by done.
    unfold ParseTARBlockSource. by rewrite block_source_trimmed, TARBlockSource_match.
Qed.

(** Sealing keeps the rules and the authority block of a credential, and
    nothing can be appended to the result. *)
Theorem sealed_stays rng data data' rng' :
  SealBiscuitWithRand rng data = Ok (data', rng') →
  (∃ b rules b', UnmarshalInbound data = Ok (b, rules) ∧ UnmarshalInbound data' = Ok (b', rules) ∧
     authority b' = authority b) ∧
  ∀ r rule, is_ok (AttenuateBiscuitWithRand r data' rule) = false.
Proof.
  unfold SealBiscuitWithRand. intros ([b rules] & Hu & Ha)%bind_Ok.
  apply bind_Ok in Ha as ([b' r'] & Hs & Ha). rewrite wrap_err_Ok in Hs.
  apply bind_Ok in Ha as (d & Hser%Serialize_spec & [= -> ->]).
  destruct (Seal_spec _ _ _ _ Hs) as (Hsealed & Hauth & Hblk & Hcode & _). split.
  - exists b, rules, b'. split_and!; [done| |done]. rewrite UnmarshalInbound_iff in Hu |- *.
    rewrite Hblk, Hcode. destruct Hu as (_ & ? & ? & ?). done.
  - intros r rule. apply is_ok_false. destruct (AttenuateBiscuitWithRand r data' rule) as [[d r'']|e] eqn:E; [|eauto].
    exfalso. unfold AttenuateBiscuitWithRand in E. apply bind_Ok in E as ([b0 rs] & Hu0 & E).
    apply UnmarshalInbound_iff in Hu0 as (Hu0 & _). rewrite Hser in Hu0. injection Hu0 as <-.
    apply bind_unit_Ok in E as [_ E]. apply bind_Ok in E as (f & Hf & E). apply bind_Ok in E as (bb & Hbb & E). rewrite wrap_err_Ok in Hbb.
    apply bind_Ok in E as ([b1 r1] & Happ & _). rewrite wrap_err_Ok in Happ.
    unfold EncodeTARBlockFact in Hf. apply bind_Ok in Hf as (payload & _ & [= <-]).
    destruct (Append_spec _ _ _ _ _ _ _ Hbb Happ) as (Hs0 & _). congruence.
Qed.
End reading.

(** ** Expiry *)

(** The dates of a list of facts. *)
Definition dates (facts : list fact) (d : Z) : Prop := ∃ n, Fact n [VAtom (ADate d)] ∈ facts.

Lemma date_Time_nonneg d : (0 ≤ d)%Z → date_Time d ≠ zero_time.
Proof. unfold date_Time, zero_time, second. lia. Qed.

(** The scan finds the earliest date, and nothing exactly when there is none. *)
Lemma earliest_spec facts :
  (∀ d, dates facts d → (0 ≤ d)%Z) →
  (foldl earliest_step zero_time facts = zero_time ↔ ¬ ∃ d, dates facts d) ∧
  (foldl earliest_step zero_time facts ≠ zero_time →
   ∀ t, (t ≤ foldl earliest_step zero_time facts)%Z ↔ ∀ d, dates facts d → (t ≤ date_Time d)%Z).
Proof.
  induction facts as [|f facts IH] using rev_ind; intros Hpos.
  { split; [|done]. split; [|done]. intros _ (d & n & ?%not_elem_of_nil). done. }
  rewrite foldl_app. simpl. set (e := foldl earliest_step zero_time facts) in *.
  destruct IH as [IHz IHe]. { intros d (n & Hd). apply Hpos. exists n. apply elem_of_app. by left. }
  unfold dates in *. setoid_rewrite elem_of_app. setoid_rewrite list_elem_of_singleton.
  assert (Hno : (∀ n d, f ≠ Fact n [VAtom (ADate d)]) → earliest_step e f = e ∧
     ∀ d, (∃ n, Fact n [VAtom (ADate d)] ∈ facts ∨ Fact n [VAtom (ADate d)] = f) ↔ ∃ n, Fact n [VAtom (ADate d)] ∈ facts).
  { intros Hf. split.
    - unfold earliest_step. destruct f as [n [|[[| |d| |]|] [|]]]; try done. by destruct (Hf n d).
    - intros d. apply exist_proper. intros n. split; [|by left]. intros [?|<-]; [done|]. by destruct (Hf n d). }
  assert (Hcase : (∃ n d, f = Fact n [VAtom (ADate d)]) ∨ ∀ n d, f ≠ Fact n [VAtom (ADate d)]).
  { destruct f as [n [|[[| |d| |]|] [|]]]; try (right; by intros ? ? [=]). left. eauto. }
  destruct Hcase as [(n & d & ->)|Hf].
  2: { destruct (Hno Hf) as [-> Hiff]. setoid_rewrite Hiff. done. }
  assert (Hd : (0 ≤ d)%Z). { apply Hpos. exists n. apply elem_of_app. right. by left. }
  assert (Hstep : earliest_step e (Fact n [VAtom (ADate d)]) =
    if bool_decide (e = zero_time) || (date_Time d <? e)%Z then date_Time d else e) by done.
  rewrite Hstep. pose proof (date_Time_nonneg d Hd) as Hnz. split.
  - split.
    + intros Hz. exfalso. case_bool_decide; simpl in Hz; [done|]. by destruct (date_Time d <? e)%Z.
    + intros Hn. destruct Hn. exists d, n. by right.
  - intros _ t. destruct (decide (e = zero_time)) as [Hz|Hz].
    + rewrite bool_decide_true by done. simpl. apply IHz in Hz. split.
      * intros Ht d' (n' & [Hin|[= _ ->]]); [|done]. destruct Hz. eauto.
      * intros Ht. apply Ht. exists n. by right.
    + rewrite bool_decide_false by done. simpl. specialize (IHe Hz t).
      assert (Hmin : (t ≤ if (date_Time d <? e)%Z then date_Time d else e)%Z ↔ (t ≤ date_Time d ∧ t ≤ e)%Z).
      { destruct (Z.ltb_spec (date_Time d) e); lia. }
      rewrite Hmin, IHe. split.
      * intros [H1 H2] d' (n' & [Hin|[= _ ->]]); [|done]. eauto.
      * intros Hall. split; [apply Hall; exists n; by right|]. intros d' (n' & Hin). apply Hall. eauto.
Qed.

Section verifying.
Context `{UnicodeCase, TARCodec, BiscuitTokens, BiscuitEngine}.

(** The expirations an authorizer derives. *)
Definition expires (w : world) (e : Z) : Prop :=
  derives (w_facts w) (w_rules w) (Fact FactExpiration [VAtom (ADate e)]).

Lemma select_query w head x name fs f :
  run_query w (select_rule head x name) = Some fs →
  f ∈ fs ↔ ∃ v, f = Fact head [v] ∧ derives (w_facts w) (w_rules w) (Fact name [v]).
Proof.
  intros Hq. rewrite (run_query_spec _ _ _ f Hq). simpl. split.
  - intros (σ & -> & Hb & _). exists (σ x). split; [done|]. apply (Hb (Pred name [TVar x])). by left.
  - intros (v & -> & Hd). exists (λ _, v). split_and!; [done| |by intros ? ?%not_elem_of_nil].
    by intros p ->%list_elem_of_singleton.
Qed.

Lemma expirationOf_Ok w t :
  (∀ e, expires w e → (0 ≤ e)%Z) → expirationOf w = Ok t →
  t ≠ zero_time ∧ ∀ s, (s ≤ t)%Z ↔ ∀ e, expires w e → (s ≤ date_Time e)%Z.
Proof.
  intros Hpos. unfold expirationOf. destruct (run_query _ _) as [fs|] eqn:Eq; [|done]. cbv zeta.
  rewrite bind_unit_Ok, fail_if_Ok, bool_decide_eq_false. intros [Hz [= <-]].
  assert (Hd : ∀ d, dates fs d ↔ expires w d).
  { intros d. unfold dates, expires. setoid_rewrite (select_query _ _ _ _ _ _ Eq). split.
    - intros (n & v & [= -> <-] & Hd). done.
    - intros Hd. eauto. }
  destruct (earliest_spec fs) as [_ Hs]. { intros d. rewrite Hd. apply Hpos. }
  split; [done|]. intros s. rewrite (Hs Hz). by setoid_rewrite Hd.
Qed.

Lemma expirationOf_total w e :
  (∀ e, expires w e → (0 ≤ e)%Z) → run_query w (select_rule "get_exp" "e" FactExpiration) ≠ None → expires w e →
  ∃ t, expirationOf w = Ok t.
Proof.
  intros Hpos Hq He. unfold expirationOf. destruct (run_query _ _) as [fs|] eqn:Eq; [|done]. cbv zeta.
  assert (Hd : ∀ d, dates fs d ↔ expires w d).
  { intros d. unfold dates, expires. setoid_rewrite (select_query _ _ _ _ _ _ Eq). split.
    - intros (n & v & [= -> <-] & Hd). done.
    - intros Hd. eauto. }
  destruct (earliest_spec fs) as [Hz _]. { intros d. rewrite Hd. apply Hpos. }
  rewrite bool_decide_false; [eauto|]. intros Hzero. apply Hz in Hzero. destruct Hzero. exists e. by apply Hd.
Qed.

Lemma first_key_Some try keys key w : first_key try keys = Some (key, w) → key ∈ keys ∧ try key = Some w.
Proof.
  induction keys as [|k keys IH]; simpl; [done|]. destruct (try k) as [w'|] eqn:E.
  - intros [= -> ->]. split; [by left|done].
  - intros [??]%IH. split; [by right|done].
Qed.

Lemma first_key_None try keys : first_key try keys = None ↔ ∀ key, key ∈ keys → try key = None.
Proof.
  induction keys as [|k keys IH]; simpl.
  - split; [|done]. by intros _ key ?%not_elem_of_nil.
  - destruct (try k) as [w|] eqn:E.
    + split; [done|]. intros Hn. rewrite (Hn k) in E; [done|by left].
    + rewrite IH. split; [|by intros Hn key Hk; apply Hn; right]. intros Hn key [->|Hk]%elem_of_cons; auto.
Qed.

Lemma unexpired_under_Some now b key w' :
  unexpired_under now b key = Some w' ↔
  ∃ w, Authorizer b key = Ok w ∧ w' = AddPolicies (EnforceExpiration now w) [AllowIfTruePolicy] ∧ authorize w' = Success.
Proof.
  unfold unexpired_under. destruct (Authorizer b key) as [w|e]; [|naive_solver].
  case_bool_decide as Ha; split.
  - intros [= <-]. eauto.
  - by intros (w0 & [= <-] & -> & _).
  - done.
  - by intros (w0 & [= <-] & -> & ?).
Qed.

Lemma requireAuthorityFact_Ok b name v u : requireAuthorityFact b name v = Ok u ↔ Fact name [VStr v] ∈ authority b.
Proof.
  unfold requireAuthorityFact. rewrite bind_Ok. setoid_rewrite wrap_err_Ok. setoid_rewrite fail_if_Ok.
  setoid_rewrite negb_false_iff. setoid_rewrite bool_decide_eq_true. rewrite <-GetBlockID_authority. unfold authorityBlockID.
  split; [by intros (? & ? & ->)|eauto].
Qed.

(** The dates of a credential are unsigned, as Biscuit encodes them. *)
Definition unsigned_dates (now : time) (b : Biscuit) : Prop :=
  ∀ key w e, Authorizer b key = Ok w → expires (EnforceExpiration now w) e → (0 ≤ e)%Z.

(** C40: A credential that [verifyBiscuit] accepts was read by [UnmarshalInbound],
    is signed under one of the trusted keys, is bound to the expected peer by
    the authority block, and has not expired: the expiry that is reported is in
    the future and is the least of the expirations of the authority block and
    of every task rule. *)
Theorem verify_sound now data peer keys b key expiry :
  verifyBiscuit now data peer keys = Ok (b, key, expiry) → unsigned_dates now b →
  ∃ rules w, UnmarshalInbound data = Ok (b, rules) ∧ key ∈ keys ∧ Authorizer b key = Ok w ∧
    Fact FactNode [VStr peer] ∈ authority b ∧ (now < expiry)%Z ∧
    ∀ t, (t ≤ expiry)%Z ↔
      (∀ e, expires (EnforceExpiration now w) e → (t ≤ date_Time e)%Z) ∧
      ∀ rule exp, rule ∈ rules → tar_expire_time rule = Some exp → usable_expiry exp = true → (t ≤ AsTime exp)%Z.
Proof.
  unfold verifyBiscuit. intros ([b0 rules] & Hu & Hv)%bind_Ok Hpos.
  destruct (first_key _ keys) as [[k wc]|] eqn:Ek; [|done].
  apply bind_unit_Ok in Hv as [Hbind Hv]. apply bind_Ok in Hv as (e & He & Hv). cbv zeta in Hv.
  rewrite bind_unit_Ok, fail_if_Ok, negb_false_iff, Z.ltb_lt in Hv. destruct Hv as [Hnow [= -> -> <-]].
  apply first_key_Some in Ek as [Hin (w & Hw & -> & _)%unexpired_under_Some].
  destruct (expirationOf_Ok (AddPolicies (EnforceExpiration now w) [AllowIfTruePolicy]) e (λ e, Hpos key w e Hw) He) as [Hz Hs].
  exists rules, w. split_and!; [done..|by eapply requireAuthorityFact_Ok|done|].
  intros t. destruct (EffectiveTARExpiration_spec e (optional_rules rules) Hz) as [_ Heff]. rewrite Heff, Hs.
  apply and_iff_compat_l. unfold optional_rules. setoid_rewrite list_elem_of_fmap. split.
  - intros Hall rule exp Hr. apply Hall. eauto.
  - intros Hall rule exp (r & [= ->] & Hr). by apply Hall.
Qed.
End verifying.

Section claims.
Context `{UnicodeCase, TARCodec, BiscuitTokens, BiscuitEngine, PeerCodec}.

Lemma queryStrings_sound w name s :
  s ∈ queryStrings w name → derives (w_facts w) (w_rules w) (Fact name [VStr s]).
Proof.
  unfold queryStrings. destruct (run_query _ _) as [fs|] eqn:Eq; [|by intros ?%not_elem_of_nil].
  rewrite elem_of_sort_Strings. unfold fact_strings. intros (f & Hf & Hs)%list_elem_of_omap.
  apply (select_query _ _ _ _ _ _ Eq) in Hf as (v & -> & Hd). simpl in Hs. by destruct v as [[]|]; simplify_eq.
Qed.

(** Inspecting a credential and verifying it agree: the claims that are
    extracted are those of a credential that [verifyBiscuit] accepts, with the
    same key and expiry, for exactly the peers its authority block names, and
    every role reported is one that the credential carries. *)
Theorem inspect_agrees now data keys c :
  InspectVerifiedBiscuit now data keys = Ok c →
  (∀ p, verifyBiscuit now data p keys = Ok (vc_Biscuit c, vc_VerifyingKey c, vc_Expiration c) ↔
        Fact FactNode [VStr p] ∈ authority (vc_Biscuit c)) ∧
  UnmarshalInbound data = Ok (vc_Biscuit c, vc_TaskRules c) ∧
  ∃ w, Authorizer (vc_Biscuit c) (vc_VerifyingKey c) = Ok w ∧ (now < vc_Expiration c)%Z ∧
    ∀ role, role ∈ vc_Roles c → derives (authority (vc_Biscuit c) ++ [Fact FactTime [biscuit_Date now]]) (w_rules w)
                                  (Fact FactRole [VStr role]).
Proof.
  unfold InspectVerifiedBiscuit, verifyBiscuit. intros ([b rules] & Hu & Hi)%bind_Ok. rewrite Hu. cbn [mbind result_bind].
  destruct (first_key _ keys) as [[key wc]|] eqn:Ek; [|done]. apply bind_Ok in Hi as (e & He & Hi). cbv zeta in Hi.
  rewrite bind_unit_Ok, fail_if_Ok in Hi. destruct Hi as [Hnow Hi].
  apply bind_Ok in Hi as (p1 & _ & Hi). apply bind_Ok in Hi as (p2 & _ & Hi). apply bind_Ok in Hi as (p3 & _ & [= <-]).
  cbn [vc_Biscuit vc_VerifyingKey vc_Expiration vc_TaskRules vc_Roles]. split_and!; [|done|].
  - intros p. rewrite bind_unit_Ok, He. cbn [mbind result_bind]. cbv zeta. rewrite Hnow. cbn [fail_if mbind result_bind].
    unfold RequireAuthorityBinding. rewrite requireAuthorityFact_Ok. by split; [intros [? _]|].
  - apply first_key_Some in Ek as [_ (w & Hw & -> & _)%unexpired_under_Some]. exists w. apply negb_false_iff, Z.ltb_lt in Hnow.
    split_and!; [done..|]. intros role Hr%queryStrings_sound. by rewrite <-(proj1 (Authorizer_spec _ _ _ Hw)).
Qed.

(** The peer that is extracted from a credential is the decoding of a node
    fact of a credential that some trusted key signs; when expiry is enforced,
    no task rule is past its expiry and the credential has an expiration the
    current second does not exceed.  Without enforcement nothing but the
    signature is checked. *)
Theorem extract_sound now keys data enforce p :
  extractPeerID now keys data enforce = Ok p →
  ∃ b rules key w s, UnmarshalInbound data = Ok (b, rules) ∧ key ∈ keys ∧ Authorizer b key = Ok w ∧ peer_Decode s = Ok p ∧
    let w' := if enforce then EnforceExpiration now w else w in
    derives (w_facts w') (w_rules w') (Fact FactNode [VStr s]) ∧
    (enforce = true →
       (∀ rule exp, rule ∈ rules → tar_expire_time rule = Some exp → (now ≤ AsTime exp)%Z) ∧
       check_holds (w_facts w') (w_rules w') ControlPlaneStaticTimeCheck).
Proof.
  unfold extractPeerID. intros ([b rules] & Hu & He)%bind_Ok. apply bind_unit_Ok in He as [Htar He].
  destruct (first_key _ keys) as [[key auth]|] eqn:Ek; [|done]. apply first_key_Some in Ek as [Hin Ek].
  destruct (run_query _ _) as [[|f fs]|] eqn:Eq; [done| |done].
  assert (Hf : f ∈ f :: fs) by left. apply (select_query _ _ _ _ _ _ Eq) in Hf as (v & -> & Hd). simpl in He.
  destruct v as [[|s| | |]|]; try done. rewrite wrap_err_Ok in He.
  unfold admitted_under in Ek. destruct (Authorizer b key) as [w|] eqn:Ew; [|done]. cbv zeta in Ek.
  assert (Hc : auth = (if enforce then EnforceExpiration now w else w) ∧ checks_hold auth).
  { destruct (authorize _) eqn:Ea; try done; injection Ek as <-; (split; [done|]).
    - by apply authorize_success in Ea as [? _].
    - by apply authorize_none in Ea as [? _]. }
  destruct Hc as [-> Hc]. exists b, rules, key, w, s. split_and!; [done..|]. intros ->. split.
  - rewrite for_each_Ok, Forall_forall in Htar. intros rule exp Hr Hexp. specialize (Htar rule Hr). rewrite Hexp in Htar.
    apply fail_if_Ok, Z.ltb_ge in Htar. done.
  - apply Hc. simpl. apply elem_of_app. right. by left.
Qed.
End claims.

(** ** Examples *)

#[local] Existing Instances ascii_case one_rule_codec example_tokens naive_engine.

Lemma inbound_blocks_witness :
  UnmarshalInbound (token_bytes 1) = Ok (task_token, [tar_example None]) ∧
  length [tar_example None] ≤ MaxAttenuationBlocks.
Proof.
  assert (Hu : UnmarshalInbound (token_bytes 1) = Ok (task_token, [tar_example None])) by (by vm_compute).
  split; [exact Hu|]. apply (inbound_blocks _ _ _ Hu).
Defined.

Lemma attenuate_roundtrip_witness :
  ∃ b rules b', UnmarshalInbound (token_bytes 0) = Ok (b, rules) ∧
    UnmarshalInbound (token_bytes 1) = Ok (b', rules ++ [tar_example None]).
Proof.
  destruct (@attenuate_roundtrip ascii_case one_rule_codec example_tokens tt (token_bytes 0) (tar_example None) (token_bytes 1) tt) as (b & rules & b' & H1 & H2 & _).
  - by vm_compute.
  - by vm_compute.
  - exists b, rules, b'. exact (conj H1 H2).
Defined.

Lemma sealed_stays_witness :
  is_ok (@AttenuateBiscuitWithRand ascii_case one_rule_codec example_tokens tt (token_bytes 2) (tar_example None)) = false.
Proof.
  destruct (@sealed_stays ascii_case one_rule_codec example_tokens tt (token_bytes 1) (token_bytes 2) tt) as [_ H].
  - by vm_compute.
  - exact (H tt (tar_example None)).
Defined.

Lemma member_unsigned now : unsigned_dates now member_token.
Proof.
  intros key w e. simpl. unfold toy_Authorizer. case_bool_decide; [|done]. intros [= <-] He.
  unfold expires in He. simpl in He. apply derives_no_rule in He; [|by intros r ?%not_elem_of_nil].
  repeat (apply elem_of_cons in He as [[=]|He]; [subst; vm_compute; done|]).
  repeat (apply elem_of_cons in He as [[=]|He]). by apply not_elem_of_nil in He.
Qed.

Lemma verify_sound_witness :
  verifyBiscuit (5 * second)%Z (token_bytes 0) "12D3p1" ["pub:other"; example_public] = Ok (member_token, example_public, (1000 * second)%Z) ∧
  Fact FactNode [VStr "12D3p1"] ∈ authority member_token.
Proof.
  assert (Hv : verifyBiscuit (5 * second)%Z (token_bytes 0) "12D3p1" ["pub:other"; example_public]
               = Ok (member_token, example_public, (1000 * second)%Z)) by (by vm_compute).
  split; [exact Hv|]. destruct (verify_sound _ _ _ _ _ _ _ Hv) as (rules & w & _ & _ & _ & Hn & _).
  - apply member_unsigned.
  - exact Hn.
Defined.

Lemma inspect_agrees_witness :
  ∃ c, @InspectVerifiedBiscuit _ _ example_tokens _ plain_codec (5 * second)%Z (token_bytes 0) [example_public] = Ok c ∧
       verifyBiscuit (5 * second)%Z (token_bytes 0) "12D3p1" [example_public] = Ok (vc_Biscuit c, vc_VerifyingKey c, vc_Expiration c).
Proof.
  set (r := @InspectVerifiedBiscuit _ _ example_tokens _ plain_codec (5 * second)%Z (token_bytes 0) [example_public]).
  assert (Hb : match r with Ok c => bool_decide (vc_Biscuit c = member_token) | Err _ => false end = true) by (by vm_compute).
  assert (E : r = @InspectVerifiedBiscuit _ _ example_tokens _ plain_codec (5 * second)%Z (token_bytes 0) [example_public])
    by reflexivity.
  clearbody r. destruct r as [c|e]; [|discriminate Hb]. exists c. split; [reflexivity|].
  apply (inspect_agrees _ _ _ c (eq_sym E)). apply bool_decide_eq_true in Hb. rewrite Hb. right. by left.
Defined.

Lemma extract_sound_witness :
  @extractPeerID _ _ example_tokens _ plain_codec (5 * second)%Z [example_public] (token_bytes 0) true = Ok "12D3p1" ∧
  ∃ s, @peer_Decode plain_codec s = Ok "12D3p1".
Proof.
  assert (E : @extractPeerID _ _ example_tokens _ plain_codec (5 * second)%Z [example_public] (token_bytes 0) true = Ok "12D3p1")
    by (by vm_compute).
  split; [exact E|]. destruct (extract_sound _ _ _ _ _ E) as (b & rules & key & w & s & _ & _ & _ & Hs & _). exists s. exact Hs.
Defined.
