(* ===== verification/Mint.v ===== *)
(** * Minting credentials

    The control plane turns a peer, its labels, its identity claims and its
    roles into the facts of the authority block
    ([src/internal/identity/biscuit.go], from [MintBiscuitToken] to
    [mintBiscuitWithBindingAndRand], and [translateClaimsToFacts]). *)

From S2P Require Import Prelude GoStrings Regex Names Biscuit NaiveEngine Facts DatalogText Grants Labels HTTPGrants PolicyRules Egress Base64 Tar Token Identity.

(** ** Claims *)

(** A value of [map[string]any] as the sources look at it. *)
#[warnings="-register-all"]
Inductive any :=
| AnyNil
| AnyBool (b : bool)
| AnyString (s : string)
| AnyStrings (l : list string)
| AnySlice (l : list any)
| AnyMap (m : list (string * any))
| AnyOther.

Definition toStringSlice (val : any) : list string :=
  match val with
  | AnyString v => if negb (bool_decide (v = "")) then [v] else []
  | AnyStrings v => v
  | AnySlice v => omap (λ item, match item with
                                | AnyString str => if negb (bool_decide (str = "")) then Some str else None
                                | _ => None
                                end) v
  | AnyNil | AnyBool _ | AnyMap _ | AnyOther => []
  end.

(** The items of a claim without the repeated ones. *)
Fixpoint unseen (seen : gset string) (items : list string) : list string :=
  match items with
  | [] => []
  | item :: items => if bool_decide (item ∈ seen) then unseen seen items else item :: unseen ({[item]} ∪ seen) items
  end.

(** The facts one claim becomes. *)
Definition claim_facts (claims : gmap string any) (claimKey : string) : list fact :=
  match claims !! claimKey with
  | None | Some AnyNil => []
  | Some val => (λ item, Fact (map_get OIDCClaimToFact claimKey) [VStr item]) <$> unseen ∅ (toStringSlice val)
  end.

Section mint.
Context `{UnicodeCase, TARCodec, BT : BiscuitTokens, BiscuitText}.

(** ** Adding facts *)

(** The builder and the text of the facts added so far. *)
Record mint_state := { ms_builder : Builder; ms_added : gset string }.

Definition addFact (st : mint_state) (f : fact) : result mint_state :=
  let factStr := fact_String f in
  if bool_decide (factStr ∈ ms_added st) then Ok st
  else
    builder ← AddAuthorityFact (ms_builder st) f;
    Ok {| ms_builder := builder; ms_added := {[factStr]} ∪ ms_added st |}.

(** A loop that returns at the first fact that cannot be added. *)
Fixpoint add_all (msg : string) (st : mint_state) (fs : list fact) : result mint_state :=
  match fs with
  | [] => Ok st
  | f :: fs => st ← wrap_err msg (addFact st f); add_all msg st fs
  end.

Definition translateClaimsToFacts (st : mint_state) (claims : gmap string any) : result mint_state :=
  foldl (λ r claimKey, st ← r; add_all "failed to add claim fact" st (claim_facts claims claimKey))
    (Ok st) (sorted_keys OIDCClaimToFact).

(** A loop that collects the errors of the facts that cannot be added. *)
Definition add_collect (msg : string) (acc : mint_state * list error) (f : fact) : mint_state * list error :=
  match addFact acc.1 f with
  | Ok st => (st, acc.2)
  | Err e => (acc.1, acc.2 ++ [WrapError msg e])
  end.

(** ** Roles *)

(** What the loop over the roles carries. *)
Record role_acc := {
  ra_state : mint_state * list error;
  ra_services : list string;
  ra_targets : list string;
  ra_http : list HTTPGrant;
  ra_publish : list string;
}.

Definition custom_entry (acc : mint_state * list error) (customEntry : string) : mint_state * list error :=
  let trimmed := TrimRight (TrimSpace customEntry) ";" in
  if bool_decide (trimmed = "") then acc
  else
    match FromStringFact trimmed with
    | Ok f => add_collect "failed to add custom Datalog fact" acc f
    | Err e =>
        match FromStringRule trimmed with
        | Ok _ => acc
        | Err _ => (acc.1, acc.2 ++ [WrapError "failed to parse custom Datalog entry" e])
        end
    end.

Definition role_step (delegated : bool) (rolesMap : gmap string PolicyRole) (acc : role_acc) (role : string) : role_acc :=
  match addFact (ra_state acc).1 (Fact FactRole [VStr role]) with
  | Err e =>
      {| ra_state := ((ra_state acc).1, (ra_state acc).2 ++ [WrapError "failed to add role fact" e]);
         ra_services := ra_services acc; ra_targets := ra_targets acc; ra_http := ra_http acc; ra_publish := ra_publish acc |}
  | Ok st =>
      let state := (st, (ra_state acc).2) in
      if bool_decide (role = RoleRouter) then
        let state := add_collect "failed to add relay right" state (Fact FactRight [VStr RightRelay]) in
        let state := add_collect "failed to add target unrestricted" state (MarkerFact FactTargetUnrestricted) in
        {| ra_state := state;
           ra_services := ra_services acc; ra_targets := ra_targets acc; ra_http := ra_http acc; ra_publish := ra_publish acc |}
      else
        match rolesMap !! role with
        | None =>
            {| ra_state := state;
               ra_services := ra_services acc; ra_targets := ra_targets acc; ra_http := ra_http acc; ra_publish := ra_publish acc |}
        | Some pr =>
            let '(plainServices, narrowed) := SplitHTTPGrants pr in
            {| ra_state := foldl custom_entry state (role_custom_datalog pr);
               ra_services := ra_services acc ++ plainServices;
               ra_targets := ra_targets acc ++ role_allowed_targets pr;
               ra_http := ra_http acc ++ narrowed;
               ra_publish := if delegated then ra_publish acc else ra_publish acc ++ role_allowed_publish pr |}
        end
  end.

Definition roles_map (policyRoles : list (option PolicyRole)) : gmap string PolicyRole :=
  foldl (λ m opr, match opr with Some pr => <[role_name pr := pr]> m | None => m end) ∅ policyRoles.

Definition join_errors (e : error) (es : list error) : error := foldl JoinError e es.

Definition mintBiscuitWithBindingAndRand (rng : Rng) (signingKey : PrivateKey) (remotePeer : string) (delegated : bool)
    (roles : list string) (expiration : time) (claims : option (gmap string any))
    (policyRoles : list (option PolicyRole)) (labels : gmap string string) : result (string * Rng) :=
  let st := {| ms_builder := NewBuilder signingKey; ms_added := ∅ |} in
  st ← wrap_err "failed to add expiration fact" (addFact st (Fact FactExpiration [biscuit_Date expiration]));
  st ← (if delegated
        then wrap_err "failed to add actor_node fact" (addFact st (Fact FactActorNode [VStr remotePeer]))
        else wrap_err "failed to add node fact" (addFact st (Fact FactNode [VStr remotePeer])));
  st ← wrap_err "failed to add client_peer_id fact" (addFact st (Fact FactClientPeerID [VStr remotePeer]));
  st ← add_all "failed to add label fact" st (LabelFacts labels);
  st ← match claims with None => Ok st | Some c => translateClaimsToFacts st c end;
  let rolesMap := roles_map policyRoles in
  let acc := foldl (role_step delegated rolesMap)
               {| ra_state := (st, []); ra_services := []; ra_targets := []; ra_http := []; ra_publish := [] |}
               (sort_Strings roles) in
  let state := foldl (add_collect "failed to add service fact") (ra_state acc) (BuildServiceDatalogFacts (ra_services acc)) in
  let state := foldl (λ s g, foldl (add_collect "failed to add http grant fact") s (BuildHTTPGrantFacts g)) state (ra_http acc) in
  let state := foldl (add_collect "failed to add target fact") state (BuildTargetDatalogFacts (ra_targets acc)) in
  let state := foldl (add_collect "failed to add publish fact") state (BuildPublishDatalogFacts (ra_publish acc)) in
  match state.2 with
  | e :: es => Err (WrapError "biscuit policy validation failed" (join_errors e es))
  | [] =>
      '(t, rng) ← wrap_err "failed to build biscuit" (Build rng (ms_builder state.1));
      bBytes ← wrap_err "failed to serialize biscuit" (Serialize t);
      Ok (bBytes, rng)
  end.

Definition mintBiscuitWithBinding signingKey remotePeer delegated roles expiration claims policyRoles labels : result string :=
  '(data, _) ← mintBiscuitWithBindingAndRand rand_Reader signingKey remotePeer delegated roles expiration claims policyRoles labels;
  Ok data.

Definition mintBiscuit signingKey remotePeer roles expiration claims policyRoles labels : result string :=
  mintBiscuitWithBinding signingKey remotePeer false roles expiration claims policyRoles labels.

(** The roles come back as the call left the caller's slice: sorted. *)
Definition MintBiscuitToken (signingKey : PrivateKey) (claims : option (gmap string any)) (remotePeer : string)
    (biscuitExpiry : time) (roles : list string) (policyRoles : list (option PolicyRole)) (labels : gmap string string)
  : result (string * list string) :=
  fail_if (bool_decide (claims = None)) "claims cannot be nil";;
  biscuitBytes ← mintBiscuitWithBinding signingKey remotePeer false roles biscuitExpiry claims policyRoles labels;
  Ok (biscuitBytes, sort_Strings roles).

Definition MintBootstrapBiscuitToken (signingKey : PrivateKey) (remotePeer role : string) (expiration : time)
    (policyRoles : list (option PolicyRole)) (labels : gmap string string) : result string :=
  mintBiscuit signingKey remotePeer [role] expiration None policyRoles labels.

Definition MintDelegatedBiscuitTokenWithRand (rng : Rng) (signingKey : PrivateKey) (claims : option (gmap string any))
    (actorPeer : string) (biscuitExpiry : time) (roles : list string) (policyRoles : list (option PolicyRole))
    (taskRule : option TaskAuthorizationRule) (seal : bool) : result (string * Rng) :=
  fail_if (bool_decide (claims = None)) "claims cannot be nil";;
  '(biscuitBytes, rng) ← mintBiscuitWithBindingAndRand rng signingKey actorPeer true roles biscuitExpiry claims policyRoles ∅;
  '(biscuitBytes, rng) ← match taskRule with
                         | None => Ok (biscuitBytes, rng)
                         | Some rule => AttenuateBiscuitWithRand rng biscuitBytes rule
                         end;
  if seal then SealBiscuitWithRand rng biscuitBytes else Ok (biscuitBytes, rng).

Definition MintDelegatedBiscuitToken signingKey claims actorPeer biscuitExpiry roles policyRoles taskRule seal : result string :=
  '(data, _) ← MintDelegatedBiscuitTokenWithRand rand_Reader signingKey claims actorPeer biscuitExpiry roles policyRoles taskRule seal;
  Ok data.
End mint.
