(* ===== verification/MintFacts.v ===== *)
(** * Credentials: what is minted

    The authority block of a minted credential holds the facts asked for and
    no others, and so the credential is accepted, and grants, as intended. *)

From S2P Require Import Prelude GoStrings Regex Names Biscuit NaiveEngine Facts DatalogText Grants Labels HTTPGrants PolicyRules Egress Base64 Tar Token TokenModel Identity IdentityFacts Mint.

(** ** The facts of a credential *)

Section requested.
Context `{BiscuitText}.

Definition custom_fact (customEntry : string) : option fact :=
  let trimmed := TrimRight (TrimSpace customEntry) ";" in
  if bool_decide (trimmed = "") then None
  else match FromStringFact trimmed with Ok f => Some f | Err _ => None end.

(** The policy role a mesh role stands for; the router role stands for none. *)
Definition resolved (rolesMap : gmap string PolicyRole) (role : string) : option PolicyRole :=
  if bool_decide (role = RoleRouter) then None else rolesMap !! role.

Definition role_facts (rolesMap : gmap string PolicyRole) (role : string) : list fact :=
  Fact FactRole [VStr role] ::
  if bool_decide (role = RoleRouter)
  then [Fact FactRight [VStr RightRelay]; MarkerFact FactTargetUnrestricted]
  else match rolesMap !! role with Some pr => omap custom_fact (role_custom_datalog pr) | None => [] end.

Definition claims_facts (claims : option (gmap string any)) : list fact :=
  match claims with None => [] | Some c => sorted_keys OIDCClaimToFact ≫= claim_facts c end.

(** The resolved roles of a list of mesh roles. *)
Definition resolved_roles (rolesMap : gmap string PolicyRole) (roles : list string) : list PolicyRole :=
  omap (resolved rolesMap) (sort_Strings roles).

Definition publish_patterns (delegated : bool) (prs : list PolicyRole) : list string :=
  if delegated then [] else prs ≫= role_allowed_publish.

Definition grant_facts (delegated : bool) (prs : list PolicyRole) : list fact :=
  BuildServiceDatalogFacts (prs ≫= (λ pr, (SplitHTTPGrants pr).1)) ++
  ((prs ≫= (λ pr, (SplitHTTPGrants pr).2)) ≫= BuildHTTPGrantFacts) ++
  BuildTargetDatalogFacts (prs ≫= role_allowed_targets) ++
  BuildPublishDatalogFacts (publish_patterns delegated prs).

Definition requested (remotePeer : string) (delegated : bool) (roles : list string) (expiration : time)
    (claims : option (gmap string any)) (rolesMap : gmap string PolicyRole) (labels : gmap string string) : list fact :=
  [Fact FactExpiration [biscuit_Date expiration];
   Fact (if delegated then FactActorNode else FactNode) [VStr remotePeer];
   Fact FactClientPeerID [VStr remotePeer]] ++
  LabelFacts labels ++ claims_facts claims ++ (sort_Strings roles ≫= role_facts rolesMap) ++
  grant_facts delegated (resolved_roles rolesMap roles).
End requested.

Section minting.
Context `{UnicodeCase, TARCodec, BiscuitTokens, BiscuitText}.

(** ** Adding facts *)

(** The builder holds the facts [L], each once up to its text. *)
Record holds_facts (k : PrivateKey) (st : mint_state) (L : list fact) : Prop := {
  hf_key : builder_key (ms_builder st) = k;
  hf_sound f : f ∈ builder_facts (ms_builder st) → f ∈ L;
  hf_complete f : f ∈ L → ∃ g, g ∈ builder_facts (ms_builder st) ∧ fact_String g = fact_String f;
  hf_added x : x ∈ ms_added st → ∃ g, g ∈ builder_facts (ms_builder st) ∧ fact_String g = x;
  hf_first f : head L = Some f → f ∈ builder_facts (ms_builder st);
}.

Lemma holds_new k : holds_facts k {| ms_builder := NewBuilder k; ms_added := ∅ |} [].
Proof.
  destruct (NewBuilder_spec k) as [Hk Hf]. split; simpl; rewrite ?Hf; [done|..].
  - by intros f ?%not_elem_of_nil.
  - by intros f ?%not_elem_of_nil.
  - by intros x ?%not_elem_of_empty.
  - done.
Qed.

Lemma addFact_holds k st L f st' : holds_facts k st L → addFact st f = Ok st' → holds_facts k st' (L ++ [f]).
Proof.
  intros [Hk Hs Hc Ha H1st] Hadd. unfold addFact in Hadd. cbv zeta in Hadd. case_bool_decide as Hin.
  - injection Hadd as <-. split; [done| | |done|].
    + intros g Hg. apply elem_of_app. left. auto.
    + intros g [Hg| ->%list_elem_of_singleton]%elem_of_app; auto.
    + destruct L as [|f0 L]; [|done]. destruct (Ha _ Hin) as (g & Hg%Hs & _). by apply not_elem_of_nil in Hg.
  - apply bind_Ok in Hadd as (bld & Hb & [= <-]). apply AddAuthorityFact_spec in Hb as [Hbk Hbf].
    split; simpl; rewrite ?Hbf, ?Hbk; [done|..]; setoid_rewrite elem_of_app; setoid_rewrite list_elem_of_singleton.
    + intros g [Hg|Hg]; auto.
    + intros g [Hg| ->]; [|eauto]. destruct (Hc g Hg) as (g' & ? & ?). eauto.
    + intros x [->%elem_of_singleton|Hx]%elem_of_union; [eauto|]. destruct (Ha x Hx) as (g' & ? & ?). eauto.
    + destruct L as [|f0 L]; [intros g [= <-]; by right|]. left. auto.
Qed.

Lemma add_all_holds k msg fs st L st' :
  holds_facts k st L → add_all msg st fs = Ok st' → holds_facts k st' (L ++ fs).
Proof.
  revert st L. induction fs as [|f fs IH]; intros st L Hst; simpl.
  - intros [= <-]. by rewrite (right_id_L [] (++)).
  - intros (st1 & Hst1 & Hst2)%bind_Ok. rewrite wrap_err_Ok in Hst1.
    rewrite cons_middle, (assoc_L (++)). eapply IH; [|done]. by eapply addFact_holds.
Qed.

Lemma foldl_claims_Err e keys c :
  foldl (λ r claimKey, st ← r; add_all "failed to add claim fact" st (claim_facts c claimKey)) (Err e) keys = Err e.
Proof. by induction keys. Qed.

Lemma translate_holds k c st L st' :
  holds_facts k st L → translateClaimsToFacts st c = Ok st' → holds_facts k st' (L ++ claims_facts (Some c)).
Proof.
  unfold translateClaimsToFacts. simpl. generalize (sorted_keys OIDCClaimToFact). intros keys. revert st L.
  induction keys as [|key keys IH]; intros st L Hst; simpl.
  - intros [= <-]. by rewrite (right_id_L [] (++)).
  - destruct (add_all _ st _) as [st1|e] eqn:E; [|by rewrite foldl_claims_Err].
    intros Hrest. rewrite (assoc_L (++)). eapply IH; [|done]. by eapply add_all_holds.
Qed.

(** A step that collects errors: without an error in the end there was none
    before, and the step added its facts. *)
Definition collects (step : mint_state * list error → mint_state * list error) (fs : list fact) : Prop :=
  ∀ k acc L, (step acc).2 = [] → acc.2 = [] ∧ (holds_facts k acc.1 L → holds_facts k (step acc).1 (L ++ fs)).

Lemma collects_id : collects (λ acc, acc) [].
Proof. intros k acc L He. split; [done|]. by rewrite (right_id_L [] (++)). Qed.

Lemma collects_seq s1 s2 fs1 fs2 : collects s1 fs1 → collects s2 fs2 → collects (λ acc, s2 (s1 acc)) (fs1 ++ fs2).
Proof.
  intros Hs1 Hs2 k acc L He. destruct (Hs2 k (s1 acc) (L ++ fs1) He) as [He1 Hh2]. destruct (Hs1 k acc L He1) as [He0 Hh1].
  split; [done|]. intros Hh. rewrite (assoc_L (++)). auto.
Qed.

Lemma collects_foldl {A} (step : mint_state * list error → A → mint_state * list error) (fs : A → list fact) l :
  (∀ x, collects (λ acc, step acc x) (fs x)) → collects (λ acc, foldl step acc l) (l ≫= fs).
Proof.
  intros Hs. induction l as [|x l IH]; simpl; [apply collects_id|].
  by apply (collects_seq (λ acc, step acc x) (λ acc, foldl step acc l)).
Qed.

Lemma collects_add msg f : collects (λ acc, add_collect msg acc f) [f].
Proof.
  intros k acc L. unfold add_collect. destruct (addFact acc.1 f) as [st|e] eqn:E; simpl.
  - intros He. split; [done|]. intros Hh. by eapply addFact_holds.
  - by destruct acc.2.
Qed.

Lemma collects_adds msg fs : collects (λ acc, foldl (add_collect msg) acc fs) fs.
Proof.
  pose proof (collects_foldl (add_collect msg) (λ f, [f]) fs (collects_add msg)) as Hc.
  assert (Heq : fs ≫= (λ f, [f]) = fs) by (clear; induction fs as [|f fs IH]; [done|by rewrite bind_cons, IH]). by rewrite Heq in Hc.
Qed.

Lemma collects_custom e : collects (λ acc, custom_entry acc e) (option_list (custom_fact e)).
Proof.
  unfold custom_entry, custom_fact. cbv zeta. case_bool_decide; [apply collects_id|].
  destruct (FromStringFact _) as [f|e1]; [apply collects_add|].
  destruct (FromStringRule _) as [r|e2]; [apply collects_id|].
  intros k acc L. simpl. by destruct acc.2.
Qed.

Lemma bind_option_list {A B} (f : A → option B) l : l ≫= (λ x, option_list (f x)) = omap f l.
Proof. induction l as [|x l IH]; [done|]. rewrite bind_cons, IH. simpl. by destruct (f x). Qed.

(** ** The roles *)

Definition acc_lists (acc : role_acc) : list string * list HTTPGrant * list string * list string :=
  (ra_services acc, ra_http acc, ra_targets acc, ra_publish acc).

(** What a list of resolved roles adds to the collected patterns. *)
Definition add_lists (delegated : bool) (prs : list PolicyRole) (l : list string * list HTTPGrant * list string * list string) :=
  let '(s, h, t, p) := l in
  (s ++ (prs ≫= (λ pr, (SplitHTTPGrants pr).1)), h ++ (prs ≫= (λ pr, (SplitHTTPGrants pr).2)),
   t ++ (prs ≫= role_allowed_targets), p ++ publish_patterns delegated prs).

Lemma add_lists_nil d l : add_lists d [] l = l.
Proof. destruct l as [[[s h] t] p]. unfold add_lists, publish_patterns. simpl. by destruct d; rewrite !(right_id_L [] (++)). Qed.

Lemma add_lists_cons d pr prs l : add_lists d (pr :: prs) l = add_lists d prs (add_lists d [pr] l).
Proof.
  destruct l as [[[s h] t] p]. unfold add_lists, publish_patterns. simpl.
  by destruct d; rewrite <-!(assoc_L (++)), ?(left_id_L [] (++)).
Qed.

Lemma role_step_spec delegated rolesMap acc role :
  (ra_state (role_step delegated rolesMap acc role)).2 = [] →
  (ra_state acc).2 = [] ∧
  acc_lists (role_step delegated rolesMap acc role) =
    add_lists delegated (option_list (resolved rolesMap role)) (acc_lists acc) ∧
  ∀ k L, holds_facts k (ra_state acc).1 L →
    holds_facts k (ra_state (role_step delegated rolesMap acc role)).1 (L ++ role_facts rolesMap role).
Proof.
  unfold role_step, role_facts, resolved. destruct (addFact _ _) as [st|e] eqn:E; [|simpl; by destruct (ra_state acc).2].
  cbv zeta. case_bool_decide as Hrouter.
  - intros He. rewrite add_lists_nil. cbn [ra_state] in *.
    pose proof (collects_seq _ _ _ _ (collects_add "failed to add relay right" (Fact FactRight [VStr RightRelay]))
      (collects_add "failed to add target unrestricted" (MarkerFact FactTargetUnrestricted))) as Hc.
    split_and!; [|done|].
    + by destruct (Hc "" (st, (ra_state acc).2) [] He).
    + intros k L Hh. destruct (Hc k (st, (ra_state acc).2) (L ++ [Fact FactRole [VStr role]]) He) as [_ Hh'].
      rewrite <-(assoc_L (++)) in Hh'. apply Hh'. by eapply addFact_holds.
  - destruct (rolesMap !! role) as [pr|]; simpl option_list.
    + destruct (SplitHTTPGrants pr) as [plain narrowed] eqn:Es. cbn [ra_state]. intros He.
      pose proof (collects_foldl custom_entry _ (role_custom_datalog pr) collects_custom) as Hc.
      rewrite bind_option_list in Hc. split_and!.
      * by destruct (Hc "" (st, (ra_state acc).2) [] He).
      * unfold acc_lists, add_lists, publish_patterns. rewrite !bind_singleton, Es.
        cbn [ra_services ra_http ra_targets ra_publish fst snd]. by destruct delegated; rewrite ?(right_id_L [] (++)).
      * intros k L Hh. destruct (Hc k (st, (ra_state acc).2) (L ++ [Fact FactRole [VStr role]]) He) as [_ Hh'].
        rewrite <-(assoc_L (++)) in Hh'. apply Hh'. by eapply addFact_holds.
    + intros He. rewrite add_lists_nil. split_and!; [done..|]. intros k L Hh. by eapply addFact_holds.
Qed.

Lemma roles_spec delegated rolesMap roles acc :
  (ra_state (foldl (role_step delegated rolesMap) acc roles)).2 = [] →
  (ra_state acc).2 = [] ∧
  acc_lists (foldl (role_step delegated rolesMap) acc roles) =
    add_lists delegated (omap (resolved rolesMap) roles) (acc_lists acc) ∧
  ∀ k L, holds_facts k (ra_state acc).1 L →
    holds_facts k (ra_state (foldl (role_step delegated rolesMap) acc roles)).1 (L ++ (roles ≫= role_facts rolesMap)).
Proof.
  revert acc. induction roles as [|role roles IH]; intros acc.
  - intros He. simpl omap. rewrite add_lists_nil. split_and!; [done..|].
    intros k L. change ([] ≫= role_facts rolesMap) with (@nil fact). by rewrite (right_id_L [] (++)).
  - cbn [foldl]. rewrite bind_cons. intros (He & Hl & Hh)%IH. apply role_step_spec in He as (He & Hl1 & Hh1). split_and!; [done| |].
    + rewrite Hl, Hl1. cbn [omap list_omap]. destruct (resolved rolesMap role); simpl option_list; [|by rewrite add_lists_nil].
      by rewrite <-add_lists_cons.
    + intros k L HL. rewrite (assoc_L (++)). auto.
Qed.

(** ** The token *)

Section token.
Context (rng : Rng) (signingKey : PrivateKey) (remotePeer : string) (delegated : bool) (roles : list string)
        (expiration : time) (claims : option (gmap string any)) (policyRoles : list (option PolicyRole))
        (labels : gmap string string).

Let L : list fact := requested remotePeer delegated roles expiration claims (roles_map policyRoles) labels.

Lemma mint_Ok data rng' :
  mintBiscuitWithBindingAndRand rng signingKey remotePeer delegated roles expiration claims policyRoles labels = Ok (data, rng') →
  ∃ b, Unmarshal data = Ok b ∧ blocks b = [] ∧ sealed b = false ∧
    is_ok (Authorizer b (Public signingKey)) = true ∧
    (∀ key w, Authorizer b key = Ok w → w = World (authority b) [] [] []) ∧
    Fact FactExpiration [biscuit_Date expiration] ∈ authority b ∧
    (∀ f, f ∈ authority b → f ∈ L) ∧ (∀ f, f ∈ L → ∃ g, g ∈ authority b ∧ fact_String g = fact_String f).
Proof.
  unfold mintBiscuitWithBindingAndRand. cbv zeta.
  intros (st1 & Hs1 & Hm)%bind_Ok. rewrite wrap_err_Ok in Hs1.
  apply bind_Ok in Hm as (st2 & Hs2 & Hm). apply bind_Ok in Hm as (st3 & Hs3 & Hm). rewrite wrap_err_Ok in Hs3.
  apply bind_Ok in Hm as (st4 & Hs4 & Hm). apply bind_Ok in Hm as (st5 & Hs5 & Hm).
  pose proof (addFact_holds _ _ _ _ _ (holds_new signingKey) Hs1) as Hh1.
  assert (Hh2 : holds_facts signingKey st2 (([] ++ [Fact FactExpiration [biscuit_Date expiration]]) ++
                  [Fact (if delegated then FactActorNode else FactNode) [VStr remotePeer]])).
  { destruct delegated; rewrite wrap_err_Ok in Hs2; by eapply addFact_holds. }
  pose proof (addFact_holds _ _ _ _ _ Hh2 Hs3) as Hh3. pose proof (add_all_holds _ _ _ _ _ _ Hh3 Hs4) as Hh4.
  assert (Hh5 : holds_facts signingKey st5
    (((([] ++ [Fact FactExpiration [biscuit_Date expiration]]) ++
       [Fact (if delegated then FactActorNode else FactNode) [VStr remotePeer]]) ++
       [Fact FactClientPeerID [VStr remotePeer]]) ++ LabelFacts labels ++ claims_facts claims)).
  { rewrite (assoc_L (++)). destruct claims as [c|]; [by eapply translate_holds|].
    injection Hs5 as <-. change (claims_facts None) with (@nil fact). by rewrite (right_id_L [] (++)). }
  set (acc := foldl (role_step delegated (roles_map policyRoles)) _ (sort_Strings roles)) in Hm.
  pose proof (collects_adds "failed to add service fact" (BuildServiceDatalogFacts (ra_services acc))) as Hc1.
  pose proof (collects_foldl _ _ (ra_http acc)
    (λ g, collects_adds "failed to add http grant fact" (BuildHTTPGrantFacts g))) as Hc2.
  pose proof (collects_adds "failed to add target fact" (BuildTargetDatalogFacts (ra_targets acc))) as Hc3.
  pose proof (collects_adds "failed to add publish fact" (BuildPublishDatalogFacts (ra_publish acc))) as Hc4.
  pose proof (collects_seq _ _ _ _ Hc1 (collects_seq _ _ _ _ Hc2 (collects_seq _ _ _ _ Hc3 Hc4))) as Hc.
  cbv beta in Hc. clear Hc1 Hc2 Hc3 Hc4.
  match type of Hm with match ?s.2 with _ => _ end = _ => set (state := s) in * end.
  destruct state.2 as [|e es] eqn:Ee; [|done].
  destruct (Hc signingKey (ra_state acc) [] Ee) as [Hacc _].
  destruct (roles_spec _ _ _ _ Hacc) as (_ & Hlists & Hroles). fold acc in Hlists, Hroles.
  specialize (Hroles _ _ Hh5). 
  assert (Hgr : holds_facts signingKey state.1 _) by exact (proj2 (Hc _ (ra_state acc) _ Ee) Hroles). clearbody state.
  unfold acc_lists, add_lists in Hlists. cbn [ra_services ra_http ra_targets ra_publish app] in Hlists.
  injection Hlists as Hl1 Hl2 Hl3 Hl4. rewrite Hl1, Hl2, Hl3, Hl4 in Hgr.
  assert (HL : holds_facts signingKey state.1 L).
  { unfold L, requested, grant_facts, resolved_roles. revert Hgr. by rewrite <-!(assoc_L (++)). }
  apply bind_Ok in Hm as ([t rng1] & Hb & Hm). rewrite wrap_err_Ok in Hb.
  apply bind_Ok in Hm as (bytes & Hser & [= -> ->]). rewrite wrap_err_Ok in Hser.
  destruct (Build_spec _ _ _ _ Hb) as (Hauth & Hblk & Hseal & Hok & Hw). destruct HL as [Hk Hs Hcm _ Hfst].
  exists t. rewrite Hk in Hok. rewrite Hauth. split_and!; [by apply Serialize_spec|done..|by apply Hfst|done|done].
Qed.
End token.
End minting.

(** ** The names of the facts *)

Lemma http_facts_name g f : f ∈ BuildHTTPGrantFacts g → f_name f ∈ http_base_names.
Proof.
  rewrite elem_of_BuildHTTPGrantFacts.
  assert (Hin : ∀ n, bool_decide (n ∈ http_base_names) = true → n ∈ http_base_names) by (by intros n ?%bool_decide_eq_true).
  intros [->|[Hf|Hf]].
  - unfold http_head, family_fact. repeat case_match; by apply Hin.
  - inversion Hf; by apply Hin.
  - inversion Hf; by apply Hin.
Qed.

(** The names of the facts that are neither the binding nor publish grants. *)
Definition other_names : list string :=
  [FactLabel; FactUser; FactEmail; FactGroup; FactIdpRole; FactRole; FactRight; FactTargetUnrestricted]
  ++ gn_list service_names ++ http_base_names ++ gn_list target_names.

Definition binding_facts (remotePeer : string) (delegated : bool) (expiration : time) : list fact :=
  [Fact FactExpiration [biscuit_Date expiration];
   Fact (if delegated then FactActorNode else FactNode) [VStr remotePeer];
   Fact FactClientPeerID [VStr remotePeer]].

Lemma claims_facts_name claims f : f ∈ claims_facts claims → f_name f ∈ [FactUser; FactEmail; FactGroup; FactIdpRole].
Proof.
  destruct claims as [c|]; [|by intros ?%not_elem_of_nil]. intros (key & Hf & Hkey)%list_elem_of_bind.
  assert (Hn : f_name f = map_get OIDCClaimToFact key).
  { unfold claim_facts in Hf. repeat case_match; try (by apply not_elem_of_nil in Hf);
      by apply list_elem_of_fmap in Hf as (? & -> & _). }
  rewrite Hn. apply elem_of_sorted_keys in Hkey as [v Hv]. rewrite (map_get_lookup _ _ _ Hv).
  unfold OIDCClaimToFact, oidcClaimToFact in Hv. apply elem_of_list_to_map_2 in Hv.
  repeat (apply elem_of_cons in Hv as [[= _ ->]|Hv]); try (apply (bool_decide_unpack _); by vm_compute).
  by apply not_elem_of_nil in Hv.
Qed.

Section custom.
Context `{BiscuitText}.
Context (remotePeer : string) (delegated : bool) (roles : list string) (expiration : time)
        (claims : option (gmap string any)) (rolesMap : gmap string PolicyRole) (labels : gmap string string).

(** A custom fact of a resolved role. *)
Definition is_custom (f : fact) : Prop :=
  ∃ role pr e, role ∈ roles ∧ rolesMap !! role = Some pr ∧ e ∈ role_custom_datalog pr ∧ custom_fact e = Some f.

Lemma requested_cases f :
  f ∈ requested remotePeer delegated roles expiration claims rolesMap labels →
  f ∈ binding_facts remotePeer delegated expiration ∨ f_name f ∈ other_names ∨ is_custom f ∨
  f ∈ BuildPublishDatalogFacts (publish_patterns delegated (resolved_roles rolesMap roles)).
Proof.
  assert (Hin : ∀ l, Forall (.∈ other_names) l → ∀ n, n ∈ l → n ∈ other_names).
  { intros l Hl n. by apply (proj1 (Forall_forall _ _) Hl). }
  unfold requested, grant_facts. rewrite !elem_of_app. intros [Hf|[Hf|[Hf|[Hf|[Hf|[Hf|[Hf|Hf]]]]]]].
  - by left.
  - right; left. apply elem_of_LabelFacts in Hf as (k & v & _ & ->). by left.
  - right; left. apply claims_facts_name in Hf. eapply Hin; [|exact Hf]. apply (bool_decide_unpack _). by vm_compute.
  - apply list_elem_of_bind in Hf as (role & Hf & Hrole). rewrite elem_of_sort_Strings in Hrole.
    unfold role_facts in Hf. apply elem_of_cons in Hf as [->|Hf]; [right; left; apply (bool_decide_unpack _); by vm_compute|].
    case_bool_decide.
    + right; left. apply elem_of_cons in Hf as [->| ->%list_elem_of_singleton]; apply (bool_decide_unpack _); by vm_compute.
    + destruct (rolesMap !! role) as [pr|] eqn:Er; [|by inversion Hf].
      apply list_elem_of_omap in Hf as (e & He & Hc). right; right; left. by exists role, pr, e.
  - right; left. apply BuildServiceDatalogFacts_shape, family_shape_name in Hf.
    unfold other_names. rewrite !elem_of_app. auto.
  - right; left. apply list_elem_of_bind in Hf as (g & Hf%http_facts_name & _).
    unfold other_names. rewrite !elem_of_app. auto.
  - right; left. apply BuildTargetDatalogFacts_shape, family_shape_name in Hf.
    unfold other_names. rewrite !elem_of_app. auto.
  - right; right; right. done.
Qed.

(** The custom facts have proper names and stay clear of some names. *)
Definition custom_clear (names : list string) : Prop :=
  ∀ f, is_custom f → ident (f_name f) = true ∧ f_name f ∉ names.

Lemma requested_ident names f :
  custom_clear names → f ∈ requested remotePeer delegated roles expiration claims rolesMap labels → ident (f_name f) = true.
Proof.
  assert (Hid : ∀ l n, forallb ident l = true → n ∈ l → ident n = true).
  { intros l n Hl. by apply (proj1 (forallb_True ident l)). }
  intros Hc [Hf|[Hf|[Hf|Hf]]]%requested_cases.
  - apply (Hid [FactExpiration; FactNode; FactActorNode; FactClientPeerID]); [by vm_compute|].
    unfold binding_facts in Hf. destruct delegated;
    repeat (apply elem_of_cons in Hf as [->|Hf]; [apply (bool_decide_unpack _); by vm_compute|]); by apply not_elem_of_nil in Hf.
  - apply (Hid other_names); [by vm_compute|done].
  - by apply Hc.
  - apply (Hid (gn_list publish_names)); [by vm_compute|]. by eapply family_shape_name, BuildPublishDatalogFacts_shape.
Qed.

(** A fact whose name is none of the others' is a binding fact. *)
Lemma requested_binding n us :
  n ∉ other_names ++ gn_list publish_names → custom_clear [n] →
  Fact n us ∈ requested remotePeer delegated roles expiration claims rolesMap labels →
  Fact n us ∈ binding_facts remotePeer delegated expiration.
Proof.
  rewrite elem_of_app. intros Hn Hc [Hf|[Hf|[Hf|Hf]]]%requested_cases; [done|..].
  - destruct Hn. by left.
  - destruct (Hc _ Hf) as [_ []]. by left.
  - destruct Hn. right. by apply BuildPublishDatalogFacts_shape, family_shape_name in Hf.
Qed.
End custom.

(** ** What a minted credential is good for *)

Lemma derives_no_rules F f : derives F [] f ↔ f ∈ F.
Proof. split; [|by constructor]. apply derives_no_rule. by intros r ?%not_elem_of_nil. Qed.

Lemma same_strings l v : Forall2 value_same ((λ s, VStr s) <$> l) v → v = (λ s, VStr s) <$> l.
Proof.
  revert v. induction l as [|s l IH]; intros v Hv; [by inversion Hv|].
  inversion Hv as [|? ? ? ? Hs Hr]; subst. inversion Hs; subst. simpl. by rewrite (IH _ Hr).
Qed.

Lemma fact_covers_same g ty nm f f' : fact_same f f' → fact_covers g ty nm f → fact_covers g ty nm f'.
Proof.
  destruct f' as [n us]. intros [Hn Hs] Hc. simpl in *. subst n. destruct Hc; simpl in *;
    repeat match goal with
    | H : Forall2 _ (_ :: _) _ |- _ => inversion H; subst; clear H
    | H : Forall2 _ [] _ |- _ => inversion H; subst; clear H
    | H : value_same _ _ |- _ => inversion H; subst; clear H
    end; try (by constructor).
  match goal with Hl : ∀ a, _ ↔ _ |- _ => constructor; by apply Hl end.
Qed.

Lemma family_shape_no_date g f : family_shape g f → forallb no_date (f_ids f) = true.
Proof.
  destruct 1; simpl; try done. rewrite andb_true_r. apply negb_true_iff, existsb_False.
  by intros a (s & -> & _)%list_elem_of_fmap.
Qed.

Section credential.
Context `{UC : UnicodeCase, TC : TARCodec, BT : BiscuitTokens, BX : BiscuitText, BE : BiscuitEngine}.
Context (rng rng' : Rng) (signingKey : PrivateKey) (remotePeer : string) (delegated : bool) (roles : list string)
        (expiration : time) (claims : option (gmap string any)) (policyRoles : list (option PolicyRole))
        (labels : gmap string string) (data : string) (b : Biscuit).
Hypothesis Hmint :
  mintBiscuitWithBindingAndRand rng signingKey remotePeer delegated roles expiration claims policyRoles labels = Ok (data, rng').
Hypothesis Hdata : Unmarshal data = Ok b.

Let L : list fact := requested remotePeer delegated roles expiration claims (roles_map policyRoles) labels.

Lemma minted :
  UnmarshalInbound data = Ok (b, []) ∧ is_ok (Authorizer b (Public signingKey)) = true ∧
  (∀ key w, Authorizer b key = Ok w → w = World (authority b) [] [] []) ∧
  Fact FactExpiration [biscuit_Date expiration] ∈ authority b ∧
  (∀ f, f ∈ authority b → f ∈ L) ∧ (∀ f, f ∈ L → ∃ g, g ∈ authority b ∧ fact_String g = fact_String f).
Proof using UC TC Hmint Hdata.
  destruct (mint_Ok _ _ _ _ _ _ _ _ _ _ _ Hmint) as (b0 & Hu & Hblk & _ & Hok & Hw & He & Hs & Hc).
  rewrite Hdata in Hu. injection Hu as <-. split_and!; [|done..].
  apply UnmarshalInbound_iff. pose proof (Code_spec b) as Hl. rewrite Hblk in *. apply nil_length_inv in Hl as ->.
  split_and!; [done|by apply Nat.le_0_l|by constructor|by constructor].
Qed.

Lemma custom_clear_sub names names' :
  names' ⊆ names → custom_clear roles (roles_map policyRoles) names → custom_clear roles (roles_map policyRoles) names'.
Proof. intros Hsub Hc f Hf. destruct (Hc f Hf) as [Hi Hn]. split; [done|]. intros ?%Hsub. done. Qed.

(** A fact of strings that was asked for is in the authority block. *)
Lemma minted_strings names n l :
  custom_clear roles (roles_map policyRoles) names → Fact n ((λ s, VStr s) <$> l) ∈ L → Fact n ((λ s, VStr s) <$> l) ∈ authority b.
Proof using UC TC Hmint Hdata.
  intros Hc Hf. destruct minted as (_ & _ & _ & _ & Hs & Hcm). destruct (Hcm _ Hf) as ([n' us] & Hg & Ht).
  destruct (fact_String_same (Fact n ((λ s, VStr s) <$> l)) (Fact n' us)) as [Hn Hv].
  - by eapply requested_ident.
  - by eapply requested_ident, Hs.
  - simpl. apply forallb_True. by intros v (s & -> & _)%list_elem_of_fmap.
  - done.
  - simpl in Hn, Hv. subst n'. by rewrite <-(same_strings l us Hv).
Qed.

(** The node fact of the authority block. *)
Lemma minted_node peer :
  custom_clear roles (roles_map policyRoles) [FactNode] →
  Fact FactNode [VStr peer] ∈ authority b ↔ delegated = false ∧ peer = remotePeer.
Proof using UC TC Hmint Hdata.
  intros Hc. split.
  - destruct minted as (_ & _ & _ & _ & Hs & _). intros Hf%Hs. apply requested_binding in Hf; [|by apply (bool_decide_unpack _); vm_compute|done].
    unfold binding_facts in Hf. destruct delegated;
      repeat (apply elem_of_cons in Hf as [Heq|Hf]; [by first [discriminate Heq | injection Heq as ->]|]);
      by apply not_elem_of_nil in Hf.
  - intros [Hd ->]. apply (minted_strings [FactNode] FactNode [remotePeer] Hc).
    unfold L, requested. rewrite Hd. apply elem_of_app. left. right. left.
Qed.

(** The world the verification loops try under a key. *)
Definition minted_world (now : time) : world :=
  AddPolicies (EnforceExpiration now (World (authority b) [] [] [])) [AllowIfTruePolicy].

(** The run and the query on that world complete. *)
Definition completes (now : time) : Prop :=
  authorize (minted_world now) ≠ ErrRun ∧
  run_query (minted_world now) (select_rule "get_exp" "e" FactExpiration) ≠ None.

Hypothesis Hcustom : custom_clear roles (roles_map policyRoles) [FactExpiration; FactNode; FactTime].

Lemma minted_expires now e : expires (minted_world now) e ↔ e = time_Unix expiration.
Proof using UC TC Hmint Hdata Hcustom.
  unfold expires. simpl. rewrite derives_no_rules, elem_of_app. destruct minted as (_ & _ & _ & He & Hs & _). split.
  - intros [Hf%Hs|[=]%list_elem_of_singleton]. apply requested_binding in Hf; cycle 1.
    { by apply (bool_decide_unpack _); vm_compute. }
    { eapply custom_clear_sub; [|exact Hcustom]. apply (bool_decide_unpack _). by vm_compute. }
    unfold binding_facts in Hf. destruct delegated;
      repeat (apply elem_of_cons in Hf as [Heq|Hf]; [by first [discriminate Heq | injection Heq as ->]|]);
      by apply not_elem_of_nil in Hf.
  - intros ->. by left.
Qed.

Lemma minted_time now us : derives (w_facts (minted_world now)) [] (Fact FactTime us) → us = [biscuit_Date now].
Proof using UC TC Hmint Hdata Hcustom.
  simpl. rewrite derives_no_rules, elem_of_app. destruct minted as (_ & _ & _ & _ & Hs & _).
  intros [Hf%Hs|[= ->]%list_elem_of_singleton]; [|done]. apply requested_binding in Hf; cycle 1.
  { by apply (bool_decide_unpack _); vm_compute. }
  { eapply custom_clear_sub; [|exact Hcustom]. apply (bool_decide_unpack _). by vm_compute. }
  unfold binding_facts in Hf. destruct delegated;
    repeat (apply elem_of_cons in Hf as [Heq|Hf]; [by discriminate Heq|]); by apply not_elem_of_nil in Hf.
Qed.

(** The run succeeds until the second of the expiration is over. *)
Lemma minted_authorize now :
  completes now → authorize (minted_world now) = Success ↔ (time_Unix now ≤ time_Unix expiration)%Z.
Proof using UC TC Hmint Hdata Hcustom.
  intros [Hrun _]. rewrite authorize_allow_only; [|by intros p ->%list_elem_of_singleton|done].
  assert (Hpol : ∃ p, p ∈ w_policies (minted_world now) ∧ policy_holds (w_facts (minted_world now)) (w_rules (minted_world now)) p).
  { exists AllowIfTruePolicy. split; [by left|apply AllowIfTrue_holds]. }
  assert (Hiff : checks_hold (minted_world now) ↔
     check_holds (w_facts (minted_world now)) [] ControlPlaneStaticTimeCheck).
  { unfold checks_hold. simpl. split; [intros Hc; apply Hc; by left|]. by intros Hc c ->%list_elem_of_singleton. }
  rewrite Hiff, time_check_holds by (intros us Hus; apply minted_time in Hus as ->; eexists; done). split.
  - intros [(t & e & Ht & He & Hle) _]. apply minted_time in Ht as [= ->]. by apply minted_expires in He as ->.
  - intros Hle. split; [|done]. exists (time_Unix now), (time_Unix expiration). split_and!; [|by apply minted_expires|done].
    apply derives_no_rules, elem_of_app. right. by left.
Qed.

Lemma minted_first_key now keys :
  completes now → Public signingKey ∈ keys →
  if bool_decide (time_Unix now ≤ time_Unix expiration)%Z
  then ∃ key, first_key (unexpired_under now b) keys = Some (key, minted_world now)
  else first_key (unexpired_under now b) keys = None.
Proof using UC TC Hmint Hdata Hcustom.
  intros Hrun Hk. pose proof (minted_authorize now Hrun) as Ha. destruct minted as (_ & Hok & Hw & _).
  assert (Htry : ∀ key w', unexpired_under now b key = Some w' → w' = minted_world now ∧ authorize (minted_world now) = Success).
  { intros key w' (w & Hb%Hw & -> & Hs)%unexpired_under_Some. subst w. done. }
  case_bool_decide as Hle.
  - destruct (first_key _ keys) as [[key w']|] eqn:Ek.
    + exists key. apply first_key_Some in Ek as [_ Ek]. by destruct (Htry _ _ Ek) as [-> _].
    + rewrite first_key_None in Ek. specialize (Ek _ Hk). apply is_ok_true in Hok as [w Hb].
      assert (unexpired_under now b (Public signingKey) = Some (minted_world now)); [|congruence].
      apply unexpired_under_Some. exists w. rewrite (Hw _ _ Hb). split_and!; [by rewrite Hb, (Hw _ _ Hb)|done|by apply Ha].
  - apply first_key_None. intros key _. destruct (unexpired_under now b key) as [w'|] eqn:E; [|done].
    destruct (Htry _ _ E) as [_ Hs]. by apply Ha in Hs.
Qed.

(** A minted credential is accepted under its key, whatever other keys are
    trusted, exactly when it is a member's own (not a delegated one), the peer
    is the one it was minted for and the second of its expiration has not
    begun; the expiry that is reported is then that second. *)
Theorem minted_verifies now peer keys :
  completes now → (0 ≤ time_Unix expiration)%Z → Public signingKey ∈ keys →
  (is_ok (verifyBiscuit now data peer keys) = true ↔
   delegated = false ∧ peer = remotePeer ∧ (now < date_Time (time_Unix expiration))%Z) ∧
  ∀ b' key expiry, verifyBiscuit now data peer keys = Ok (b', key, expiry) →
    b' = b ∧ expiry = date_Time (time_Unix expiration).
Proof using UC TC Hmint Hdata Hcustom.
  intros Hrun Hpos Hk. unfold verifyBiscuit. pose proof (minted_first_key now keys Hrun Hk) as Hkey.
  pose proof minted as (Hu & _). rewrite Hu. cbn [mbind result_bind].
  assert (Hexp : expirationOf (minted_world now) = Ok (date_Time (time_Unix expiration))).
  { destruct (expirationOf_total (minted_world now) (time_Unix expiration)) as [t Ht].
    - by intros e ->%minted_expires.
    - apply Hrun.
    - by apply minted_expires.
    - rewrite Ht. f_equal. destruct (expirationOf_Ok _ _ (λ e He, eq_ind_r (λ e, (0 ≤ e)%Z) Hpos (proj1 (minted_expires now e) He)) Ht) as [_ Hs].
      pose proof (proj1 (Hs t) (Z.le_refl t) _ (proj2 (minted_expires now _) eq_refl)).
      pose proof (proj2 (Hs (date_Time (time_Unix expiration))) (λ e He, eq_ind_r (λ e, (_ ≤ date_Time e)%Z) (Z.le_refl _) (proj1 (minted_expires now e) He))).
      lia. }
  assert (Hclear : custom_clear roles (roles_map policyRoles) [FactNode]).
  { eapply custom_clear_sub; [|exact Hcustom]. apply (bool_decide_unpack _). by vm_compute. }
  case_bool_decide as Hle.
  - destruct Hkey as [key ->]. rewrite Hexp. cbn [mbind result_bind]. cbv zeta.
    change (EffectiveTARExpiration (date_Time (time_Unix expiration)) (optional_rules [])) with (date_Time (time_Unix expiration)).
    split.
    + assert (Hbind : RequireAuthorityBinding b peer = Ok tt ↔ delegated = false ∧ peer = remotePeer).
      { rewrite <-(minted_node peer Hclear). apply requireAuthorityFact_Ok. }
      rewrite is_ok_true. split.
      * intros [a Ha]. rewrite !bind_unit_Ok, fail_if_Ok, negb_false_iff, Z.ltb_lt, Hbind in Ha. naive_solver.
      * intros (Hd & Hp & Hnow). eexists. rewrite !bind_unit_Ok, fail_if_Ok, negb_false_iff, Z.ltb_lt, Hbind. done.
    + intros b' key' expiry. rewrite !bind_unit_Ok. intros (_ & _ & [= <- _ <-]). done.
  - rewrite Hkey. split; [|done]. split; [done|]. intros (_ & _ & Hnow). destruct Hle.
    unfold time_Unix, date_Time, second in *. Z.to_euclidean_division_equations. lia.
Qed.
End credential.

(** ** What a minted credential grants *)

Section grants.
Context `{UC : UnicodeCase, TC : TARCodec, BT : BiscuitTokens, BX : BiscuitText, BE : BiscuitEngine}.
Context (rng rng' : Rng) (signingKey : PrivateKey) (remotePeer : string) (delegated : bool) (roles : list string)
        (expiration : time) (claims : option (gmap string any)) (policyRoles : list (option PolicyRole))
        (labels : gmap string string) (data : string) (b : Biscuit).
Hypothesis Hmint :
  mintBiscuitWithBindingAndRand rng signingKey remotePeer delegated roles expiration claims policyRoles labels = Ok (data, rng').
Hypothesis Hdata : Unmarshal data = Ok b.

Let M := minted rng rng' signingKey remotePeer delegated roles expiration claims policyRoles labels data b Hmint Hdata.

(** A minted credential, a member's own or a delegated one, is bound to
    requests of the peer it was minted for and of no other. *)
Lemma minted_request_binding peer :
  custom_clear roles (roles_map policyRoles) [FactNode; FactActorNode; FactClientPeerID] →
  RequireAuthorityRequestBinding b peer = Ok tt ↔ peer = remotePeer.
Proof using UC TC Hmint Hdata.
  intros Hc. destruct M as (_ & _ & _ & _ & Hs & _).
  assert (Hsub : ∀ n, n ∈ [FactNode; FactActorNode; FactClientPeerID] → custom_clear roles (roles_map policyRoles) [n]).
  { intros n Hn. eapply custom_clear_sub; [|exact Hc]. by intros ? ->%list_elem_of_singleton. }
  pose proof (minted_node rng rng' signingKey remotePeer delegated roles expiration claims policyRoles labels data b Hmint Hdata)
    as Hnode.
  assert (Hcl : ∀ p, Fact FactClientPeerID [VStr p] ∈ authority b → p = remotePeer).
  { intros p Hf%Hs. apply requested_binding in Hf; [|by apply (bool_decide_unpack _); vm_compute|by apply Hsub; set_solver].
    unfold binding_facts in Hf. destruct delegated;
      repeat (apply elem_of_cons in Hf as [Heq|Hf]; [by first [discriminate Heq | injection Heq as ->]|]);
      by apply not_elem_of_nil in Hf. }
  unfold RequireAuthorityRequestBinding, RequireAuthorityBinding. split.
  - destruct (requireAuthorityFact b FactNode peer) as [u|e] eqn:E.
    + intros _. apply requireAuthorityFact_Ok in E. apply Hnode in E as [_ ->]; [done|]. apply Hsub. by left.
    + cbn [is_ok]. rewrite bind_unit_Ok, !wrap_err_Ok, !requireAuthorityFact_Ok. intros [_ Hp]. by apply Hcl.
  - intros ->. destruct (requireAuthorityFact b FactNode remotePeer) as [u|e] eqn:E; [done|].
    cbn [is_ok]. destruct delegated eqn:Ed.
    + rewrite bind_unit_Ok, !wrap_err_Ok, !requireAuthorityFact_Ok. split.
      * eapply (minted_strings _ _ _ _ _ _ _ _ _ _ _ _ Hmint Hdata _ _ [remotePeer]); [exact Hc|]. apply elem_of_app. left. right. left.
      * eapply (minted_strings _ _ _ _ _ _ _ _ _ _ _ _ Hmint Hdata _ _ [remotePeer]); [exact Hc|]. apply elem_of_app. left. right. right. left.
    + assert (Hin : Fact FactNode [VStr remotePeer] ∈ authority b) by (apply Hnode; [apply Hsub; by left|done]).
      apply (requireAuthorityFact_Ok b FactNode remotePeer tt) in Hin. congruence.
Qed.

Lemma elem_of_publish_patterns p :
  p ∈ publish_patterns delegated (resolved_roles (roles_map policyRoles) roles) ↔
  delegated = false ∧ ∃ role pr, role ∈ roles ∧ resolved (roles_map policyRoles) role = Some pr ∧ p ∈ role_allowed_publish pr.
Proof.
  unfold publish_patterns, resolved_roles. destruct delegated; [rewrite elem_of_nil; naive_solver|].
  rewrite list_elem_of_bind. setoid_rewrite list_elem_of_omap. setoid_rewrite elem_of_sort_Strings. naive_solver.
Qed.

Hypothesis Hcustom : custom_clear roles (roles_map policyRoles) (FactPublish :: gn_list publish_names).

Lemma minted_publish_origin f :
  f ∈ authority b → f_name f ∈ FactPublish :: gn_list publish_names →
  f ∈ BuildPublishDatalogFacts (publish_patterns delegated (resolved_roles (roles_map policyRoles) roles)).
Proof using UC TC Hmint Hdata Hcustom.
  destruct M as (_ & _ & _ & _ & Hs & _). intros Hf%Hs Hn. apply requested_cases in Hf as [Hf|[Hf|[Hf|Hf]]]; [| | |done].
  - exfalso. unfold binding_facts in Hf.
    destruct delegated; repeat (apply elem_of_cons in Hf as [->|Hf]; [by apply (bool_decide_pack _) in Hn; vm_compute in Hn|]);
      by apply not_elem_of_nil in Hf.
  - exfalso. assert (Hd : Forall (λ n, n ∉ FactPublish :: gn_list publish_names) other_names).
    { apply (bool_decide_unpack _). by vm_compute. }
    by apply (proj1 (Forall_forall _ _) Hd _ Hf).
  - by destruct (proj2 (Hcustom f Hf)).
Qed.

Lemma minted_publish_covers ty nm :
  (∃ f, f ∈ authority b ∧ fact_covers publish_names ty nm f) ↔
  ∃ p, p ∈ publish_patterns delegated (resolved_roles (roles_map policyRoles) roles) ∧ service_covers p ty nm = true.
Proof using UC TC Hmint Hdata Hcustom.
  rewrite <-BuildPublishDatalogFacts_covers. split.
  - intros (f & Hf & Hc). exists f. split; [|done]. apply minted_publish_origin; [done|]. right. by eapply fact_covers_name.
  - intros (f & Hf & Hc). destruct M as (_ & _ & _ & _ & Hs & Hcm).
    assert (Hreq : f ∈ requested remotePeer delegated roles expiration claims (roles_map policyRoles) labels).
    { unfold requested, grant_facts. rewrite !elem_of_app. by repeat right. }
    destruct (Hcm f Hreq) as (g & Hg & Ht). exists g. split; [done|]. eapply fact_covers_same; [|done].
    apply fact_String_same; [by eapply requested_ident|by eapply requested_ident, Hs| |done].
    by eapply family_shape_no_date, BuildPublishDatalogFacts_shape.
Qed.

Section serving.
Context (ty nm : string) (R : list rule).
Hypothesis HR : ∀ r, r ∈ R → p_name (r_head r) ∉ FactPublish :: gn_list publish_names.

Let W : world := publish_world (World (authority b) [] [] []) ty nm R.

Lemma publish_world_derives f :
  f_name f ∈ FactPublish :: gn_list publish_names →
  derives (w_facts W) (w_rules W) f ↔ f ∈ authority b ∨ f = PublishFact ty nm.
Proof using HR.
  intros Hn. simpl. split.
  - intros Hd. apply derives_no_rule in Hd; [|by intros r Hr Heq; apply (HR r Hr); rewrite Heq].
    by rewrite elem_of_app, list_elem_of_singleton in Hd.
  - intros Hd. apply derives_fact. by rewrite elem_of_app, list_elem_of_singleton.
Qed.

(** The only service asked about is the one of the call. *)
Lemma publish_world_subject us :
  derives (w_facts W) (w_rules W) (Fact FactPublish us) ↔ us = [VStr ty; VStr nm].
Proof using UC TC Hmint Hdata Hcustom HR.
  rewrite publish_world_derives by (by left). split; [|intros ->; by right]. intros [Hf|[= ->]]; [|done].
  apply minted_publish_origin, BuildPublishDatalogFacts_shape, family_shape_name in Hf; [|by left].
  by apply (bool_decide_pack _) in Hf; vm_compute in Hf.
Qed.

Lemma publish_world_family : family_world (w_facts W) (w_rules W) publish_names FactPublish.
Proof using UC TC Hmint Hdata Hcustom HR.
  split.
  - intros us ->%publish_world_subject. eauto.
  - intros u v. rewrite publish_world_derives by (apply (bool_decide_unpack _); by vm_compute). intros [Hf|[=]].
    apply minted_publish_origin, BuildPublishDatalogFacts_shape in Hf; [|apply (bool_decide_unpack _); by vm_compute].
    inversion Hf; eauto.
Qed.

Lemma publish_world_covers :
  (∃ ty' nm' f, derives (w_facts W) (w_rules W) (Fact FactPublish [VStr ty'; VStr nm']) ∧
     derives (w_facts W) (w_rules W) f ∧ fact_covers publish_names ty' nm' f) ↔
  ∃ f, f ∈ authority b ∧ fact_covers publish_names ty nm f.
Proof using UC TC Hmint Hdata Hcustom HR.
  split.
  - intros (ty' & nm' & f & [= -> ->]%publish_world_subject & Hf & Hc). pose proof (fact_covers_name _ _ _ _ Hc) as Hn.
    rewrite publish_world_derives in Hf by (by right).
    destruct Hf as [Hf| ->]; [eauto|]. by apply (bool_decide_pack _) in Hn; vm_compute in Hn.
  - intros (f & Hf & Hc). exists ty, nm, f. rewrite publish_world_subject, publish_world_derives; [auto|].
    right. by eapply fact_covers_name.
Qed.

(** A minted credential grants serving a service exactly when it is a
    member's own and an [allowed_publish] pattern of one of its roles covers the
    service: a delegated credential serves nothing, the router role resolves to
    no policy role, and neither claims nor labels nor other grants add to it. *)
Theorem minted_publish :
  authorize (publish_world (World (authority b) [] [] []) ty nm R) ≠ ErrRun →
  RequirePublish b (Public signingKey) ty nm R = Ok tt ↔
  delegated = false ∧
  ∃ role pr p, role ∈ roles ∧ resolved (roles_map policyRoles) role = Some pr ∧ p ∈ role_allowed_publish pr ∧
               service_covers p ty nm = true.
Proof using UC TC Hmint Hdata Hcustom HR.
  intros Hrun. unfold RequirePublish. destruct M as (_ & Hok & Hw & _). apply is_ok_true in Hok as [w Hb].
  rewrite Hb. cbn [wrap_err mbind result_bind]. rewrite (Hw _ _ Hb), fail_if_Ok, negb_false_iff, bool_decide_eq_true.
  fold W in Hrun |- *.
  assert (Hpol : w_policies W = allow_if <$> family_bodies publish_names FactPublish "type" "name") by done.
  rewrite authorize_allow_only; [|rewrite Hpol; by intros p (bd & -> & _)%list_elem_of_fmap|done].
  rewrite Hpol, (family_policies_iff _ _ _ _ publish_world_family), publish_world_covers, minted_publish_covers.
  setoid_rewrite elem_of_publish_patterns. split.
  - intros (_ & p & (Hd & role & pr & ? & ? & ?) & ?). split; [done|]. by exists role, pr, p.
  - intros (Hd & role & pr & p & ? & ? & ? & ?). split; [by intros c ?%not_elem_of_nil|].
    exists p. split; [|done]. split; [done|]. by exists role, pr.
Qed.
End serving.
End grants.

(** ** Examples *)

#[local] Existing Instances ascii_case one_rule_codec example_tokens naive_engine reference_text.

Definition dev_role : PolicyRole :=
  {| role_name := "dev"; role_allowed_targets := ["node:12D3p2"]; role_allowed_services := ["mcp://calc"];
     role_custom_datalog := []; role_allowed_labels := []; role_http := []; role_allowed_publish := ["mcp://calc"] |}.

Definition alice : option (gmap string any) := Some {[ "sub" := AnyString "alice" ]}.

Definition eu : gmap string string := {[ "region" := "eu" ]}.

Lemma mint_member :
  mintBiscuitWithBindingAndRand (BT := example_tokens) tt example_key "12D3p1" false ["dev"] (1000 * second)%Z alice
    [Some dev_role] eu = Ok (token_bytes 0, tt).
Proof. by vm_compute. Qed.

Lemma mint_delegated :
  mintBiscuitWithBindingAndRand (BT := example_tokens) tt example_key "12D3p1" true ["dev"] (1000 * second)%Z alice
    [Some dev_role] ∅ = Ok (token_bytes 3, tt).
Proof. by vm_compute. Qed.

Lemma example_clear names : custom_clear ["dev"] (roles_map [Some dev_role]) names.
Proof.
  intros f (role & pr & e & ->%list_elem_of_singleton & Hr & He & _). vm_compute in Hr. injection Hr as <-.
  by apply not_elem_of_nil in He.
Qed.

Lemma minted_verifies_witness :
  is_ok (verifyBiscuit (5 * second)%Z (token_bytes 0) "12D3p1" ["pub:old"; example_public]) = true.
Proof.
  apply (minted_verifies (BT := example_tokens) _ _ _ _ _ _ _ _ _ _ _ member_token mint_member).
  - by vm_compute.
  - apply example_clear.
  - split; by vm_compute.
  - by vm_compute.
  - right. by left.
  - split_and!; by vm_compute.
Defined.

Lemma minted_publish_witness : @RequirePublish example_tokens naive_engine member_token example_public "mcp" "calc" [] = Ok tt.
Proof.
  apply (minted_publish (BT := example_tokens) _ _ _ _ _ _ _ _ _ _ _ member_token mint_member).
  - by vm_compute.
  - apply example_clear.
  - intros r Hr. by apply not_elem_of_nil in Hr.
  - by vm_compute.
  - split; [reflexivity|]. exists "dev", dev_role, "mcp://calc". split_and!; [by left|by vm_compute|by left|by vm_compute].
Defined.

(** * Credentials: the minted facts, exactly

    A fact is added to a credential once up to its text.  The sets of the
    mesh's own facts are sorted and without repetition, so that equal text is
    equal facts: a fact with a name of the mesh's vocabulary is in the authority
    block exactly when it was asked for. *)

(** ** Canonical sets *)

Definition canonical_strings (S : list string) : Prop := StronglySorted String.le S ∧ NoDup S.

Definition canonical_value (v : value) : Prop :=
  match v with
  | VAtom a => is_date a = false
  | VSet l => ∃ S, l = AStr <$> S ∧ canonical_strings S
  end.

Definition canonical (f : fact) : Prop := Forall canonical_value (f_ids f).

#[export] Instance AStr_inj : Inj (=) (=) AStr.
Proof. by intros s t [= ->]. Qed.

Lemma canonical_strings_unique S S' :
  canonical_strings S → canonical_strings S' → (∀ s, s ∈ S ↔ s ∈ S') → S = S'.
Proof.
  intros [Hs Hn] [Hs' Hn'] Heq. apply (StronglySorted_unique String.le); [done..|]. by apply NoDup_Permutation.
Qed.

Lemma canonical_same f g : canonical f → canonical g → fact_same f g → f = g.
Proof.
  destruct f as [n us], g as [n' us']. unfold canonical, fact_same. simpl. intros Hf Hg [-> Hs]. f_equal.
  induction Hs as [|v v' l l' Hv _ IH]; [done|]. apply Forall_cons in Hf as [Hv1 Hf]. apply Forall_cons in Hg as [Hv2 Hg].
  rewrite (IH Hf Hg). f_equal. destruct Hv as [a|l1 l2 Heq]; [done|]. f_equal.
  destruct Hv1 as (S & -> & HS), Hv2 as (S' & -> & HS'). f_equal. apply canonical_strings_unique; [done..|].
  intros s. specialize (Heq (AStr s)). by rewrite !(list_elem_of_fmap_inj AStr) in Heq.
Qed.

Lemma canonical_no_date f : canonical f → forallb no_date (f_ids f) = true.
Proof.
  intros Hf. apply forallb_True. intros v Hv. apply (proj1 (Forall_forall _ _) Hf) in Hv. destruct v as [a|l]; simpl in *.
  - by rewrite Hv.
  - destruct Hv as (S & -> & _). apply negb_true_iff, existsb_False. by intros a (s & -> & _)%list_elem_of_fmap.
Qed.

Lemma elements_canonical (X : gset string) : canonical_strings (sort_Strings (elements X)).
Proof. split; [apply sort_Strings_sorted|]. rewrite sort_Strings_perm. apply NoDup_elements. Qed.

Lemma Compact_canonical l : StronglySorted String.le l → canonical_strings (slices_Compact l).
Proof.
  induction l as [|x [|y l] IH]; intros Hs; [split; constructor|split; [repeat constructor|apply NoDup_singleton]|].
  change (slices_Compact (x :: y :: l)) with (if bool_decide (x = y) then slices_Compact (y :: l) else x :: slices_Compact (y :: l)).
  apply StronglySorted_inv in Hs as [Hs Hx]. destruct (IH Hs) as [Hs' Hn].
  case_bool_decide as Hxy; [done|]. rewrite Forall_forall in Hx.
  split.
  - constructor; [done|]. apply Forall_forall. intros z Hz. rewrite elem_of_Compact in Hz. by apply Hx.
  - apply NoDup_cons. split; [|done]. rewrite elem_of_Compact. intros Hz. apply elem_of_cons in Hz as [?|Hz]; [done|].
    destruct Hxy. apply (anti_symm String.le); [apply Hx; by left|].
    apply StronglySorted_inv in Hs as [_ Hy]. rewrite Forall_forall in Hy. by apply Hy.
Qed.

Lemma stringSet_canonical l : canonical_value (VSet (stringSet l)).
Proof. eexists. split; [done|]. apply Compact_canonical, sort_Strings_sorted. Qed.

Lemma family_fact_canonical g t n : canonical (family_fact g t n).
Proof. unfold family_fact, canonical. repeat case_match; repeat constructor. Qed.

Lemma group_facts_canonical g parse isExact l f :
  f ∈ group_facts isExact (λ x, family_fact g (parse x).1 (parse x).2) (gn_set g) l → canonical f.
Proof.
  unfold group_facts. set (st := foldl _ _ l). assert (Hst : Forall canonical (g_facts st)).
  { unfold st. induction l as [|x l IH] using rev_ind; [constructor|]. rewrite foldl_app. simpl.
    unfold group_step at 1. destruct (isExact x) as [[ty nm] e]. destruct (negb e); simpl; [|done].
    apply Forall_app. split; [done|]. constructor; [apply family_fact_canonical|constructor]. }
  intros [Hf|(ty & -> & _)%list_elem_of_fmap]%elem_of_app; [by apply (proj1 (Forall_forall _ _) Hst)|].
  unfold set_fact. repeat constructor. eexists. split; [done|]. apply elements_canonical.
Qed.

Lemma service_canonical l f : f ∈ BuildServiceDatalogFacts l → canonical f.
Proof. rewrite BuildServiceDatalogFacts_family. apply group_facts_canonical. Qed.
Lemma target_canonical l f : f ∈ BuildTargetDatalogFacts l → canonical f.
Proof. rewrite BuildTargetDatalogFacts_family. apply group_facts_canonical. Qed.
Lemma publish_canonical l f : f ∈ BuildPublishDatalogFacts l → canonical f.
Proof. intros (f' & -> & Hf)%list_elem_of_fmap. by apply service_canonical in Hf. Qed.

Lemma http_canonical g f : f ∈ BuildHTTPGrantFacts g → canonical f.
Proof.
  rewrite elem_of_BuildHTTPGrantFacts. intros [->|[Hf|Hf]].
  - unfold http_head. destruct (ParseServiceTarget _). apply family_fact_canonical.
  - destruct Hf; repeat constructor; apply stringSet_canonical.
  - destruct Hf; repeat constructor; apply stringSet_canonical.
Qed.

Section exact.
Context `{UC : UnicodeCase, TC : TARCodec, BT : BiscuitTokens, BX : BiscuitText}.
Context (rng rng' : Rng) (signingKey : PrivateKey) (remotePeer : string) (delegated : bool) (roles : list string)
        (expiration : time) (claims : option (gmap string any)) (policyRoles : list (option PolicyRole))
        (labels : gmap string string) (data : string) (b : Biscuit).
Hypothesis Hmint :
  mintBiscuitWithBindingAndRand rng signingKey remotePeer delegated roles expiration claims policyRoles labels = Ok (data, rng').
Hypothesis Hdata : Unmarshal data = Ok b.

Let L : list fact := requested remotePeer delegated roles expiration claims (roles_map policyRoles) labels.

Lemma requested_canonical f : f ∈ L → f_name f ≠ FactExpiration → ¬ is_custom roles (roles_map policyRoles) f → canonical f.
Proof.
  unfold L, requested, grant_facts. rewrite !elem_of_app. intros [Hf|[Hf|[Hf|[Hf|[Hf|[Hf|[Hf|Hf]]]]]]] Hn Hc.
  - repeat (apply elem_of_cons in Hf as [->|Hf]; [by try done; repeat constructor|]). by apply not_elem_of_nil in Hf.
  - apply elem_of_LabelFacts in Hf as (k & v & _ & ->). repeat constructor.
  - destruct claims as [c|]; [|by apply not_elem_of_nil in Hf]. apply list_elem_of_bind in Hf as (key & Hf & _).
    unfold claim_facts in Hf. repeat case_match; try (by apply not_elem_of_nil in Hf);
      apply list_elem_of_fmap in Hf as (? & -> & _); repeat constructor.
  - apply list_elem_of_bind in Hf as (role & Hf & Hrole). rewrite elem_of_sort_Strings in Hrole.
    unfold role_facts in Hf. apply elem_of_cons in Hf as [->|Hf]; [repeat constructor|]. case_bool_decide.
    + apply elem_of_cons in Hf as [->| ->%list_elem_of_singleton]; repeat constructor.
    + destruct (roles_map policyRoles !! role) as [pr|] eqn:Er; [|by inversion Hf].
      apply list_elem_of_omap in Hf as (e & He & Hcf). destruct Hc. by exists role, pr, e.
  - by eapply service_canonical.
  - apply list_elem_of_bind in Hf as (g & Hf & _). by eapply http_canonical.
  - by eapply target_canonical.
  - by eapply publish_canonical.
Qed.

(** A fact with a name the custom facts stay clear of is in the authority block
    exactly when it was asked for. *)
Lemma minted_exact names f :
  custom_clear roles (roles_map policyRoles) names → f_name f ∈ names → f ∈ authority b ↔ f ∈ L.
Proof using UC TC Hmint Hdata.
  intros Hc Hn.
  destruct (minted rng rng' signingKey remotePeer delegated roles expiration claims policyRoles labels data b Hmint Hdata)
    as (_ & _ & _ & He & Hs & Hcm).
  split; [apply Hs|]. intros Hf.
  assert (Hnc : ∀ g, f_name g = f_name f → ¬ is_custom roles (roles_map policyRoles) g).
  { intros g Hg Hcu. apply (proj2 (Hc g Hcu)). by rewrite Hg. }
  destruct (decide (f_name f = FactExpiration)) as [Hexp|Hexp].
  - apply requested_cases in Hf as [Hf|[Hf|[Hf|Hf]]].
    + repeat (apply elem_of_cons in Hf as [->|Hf]; [first [done | by destruct delegated]|]). by apply not_elem_of_nil in Hf.
    + rewrite Hexp in Hf. by apply (bool_decide_pack _) in Hf; vm_compute in Hf.
    + by destruct (Hnc f).
    + apply BuildPublishDatalogFacts_shape, family_shape_name in Hf. rewrite Hexp in Hf.
      by apply (bool_decide_pack _) in Hf; vm_compute in Hf.
  - destruct (Hcm f Hf) as (g & Hg & Ht). pose proof (requested_canonical f Hf Hexp (Hnc f eq_refl)) as Hcf.
    assert (Hsame : fact_same f g).
    { apply fact_String_same; [by eapply requested_ident|by eapply requested_ident, Hs|by apply canonical_no_date|done]. }
    destruct Hsame as [Hname Hv]. assert (Hcg : canonical g).
    { apply requested_canonical; [by apply Hs|by rewrite <-Hname|]. by apply Hnc. }
    by rewrite (canonical_same f g).
Qed.
End exact.
