(* ===== verification/Middleware.v ===== *)
(** * Authorizing requests at a node

    The policy enforcement point of a node: a request's credential is read,
    bound to the connection's peer, and evaluated with the facts of the request
    and of the node ([src/internal/node/middleware.go]; [IsBiscuitRevoked] and
    [GetIdentity] are in [src/internal/node/node.go]).  The caches are their
    contents; nothing here adds to them, so that they never evict.  Audit
    logging is left out. *)

From S2P Require Import Prelude GoStrings Regex Names Biscuit NaiveEngine Facts DatalogText Grants Labels HTTPGrants PolicyRules Egress Base64 Tar Token Identity.

Definition SystemNamespace : string := "mesh:system".
Definition MCPProtocolID : string := "/mesh/mcp/1.0.0".
Definition PublicKeySize : nat := 32.

(** ** Requests *)

Record HTTPRequestFacts := { hr_Method : string; hr_Path : string }.
Record EgressFacts := { ef_Host : string; ef_Port : Z }.

Record RequestContext := {
  rc_PeerID : string;
  rc_Protocol : string;
  rc_Target : string;
  rc_HTTP : option HTTPRequestFacts;
  rc_Egress : option EgressFacts;
  rc_Local : bool;
  rc_MCPTool : string;
  rc_AllowMCPStreamInit : bool;
}.

(** ** The node *)

Record TrustedKey := { tk_Key : PublicKey; tk_ReceivedAt : time }.

(** What a node is configured with: its policy and the labels it requires of
    every provider. *)
Record NodeConfig := {
  nc_Policies : list policy;
  nc_Checks : list check;
  nc_Rules : list rule;
  nc_EgressRequireLabels : gmap string string;
}.

Record AgentMeshNode := {
  n_revokedPeers : option (gmap string Z);      (** peer to the time of the ban; nil when there is no cache *)
  n_revokedTokens : option (gmap string time);  (** encoded revocation ID to its end *)
  n_trustedKeys : list TrustedKey;
  n_nodeConfig : option NodeConfig;
  n_MeshPolicyRules : list rule;
  n_cachedIdentity : option string;
  n_storedIdentity : option (result string);    (** what [Store.LoadIdentity] returns; nil without a store *)
}.

Definition set_revokedTokens (n : AgentMeshNode) (cache : option (gmap string time)) : AgentMeshNode :=
  {| n_revokedPeers := n_revokedPeers n; n_revokedTokens := cache; n_trustedKeys := n_trustedKeys n;
     n_nodeConfig := n_nodeConfig n; n_MeshPolicyRules := n_MeshPolicyRules n;
     n_cachedIdentity := n_cachedIdentity n; n_storedIdentity := n_storedIdentity n |}.

Definition set_cachedIdentity (n : AgentMeshNode) (b : string) : AgentMeshNode :=
  {| n_revokedPeers := n_revokedPeers n; n_revokedTokens := n_revokedTokens n; n_trustedKeys := n_trustedKeys n;
     n_nodeConfig := n_nodeConfig n; n_MeshPolicyRules := n_MeshPolicyRules n;
     n_cachedIdentity := Some b; n_storedIdentity := n_storedIdentity n |}.

Definition GetIdentity (n : AgentMeshNode) : option string * AgentMeshNode :=
  let load :=
    match n_storedIdentity n with
    | Some (Ok biscuitBytes) =>
        if negb (bool_decide (biscuitBytes = "")) then (Some biscuitBytes, set_cachedIdentity n biscuitBytes) else (None, n)
    | _ => (None, n)
    end in
  match n_cachedIdentity n with
  | Some b => if negb (bool_decide (b = "")) then (Some b, n) else load
  | None => load
  end.

(** The scan over the revocation IDs of a token: a revocation that is over is
    dropped from the cache. *)
Fixpoint revoked_scan (now : time) (cache : gmap string time) (ids : list string) : bool * gmap string time :=
  match ids with
  | [] => (false, cache)
  | id :: ids =>
      let key := RawURL_Encode id in
      match cache !! key with
      | Some exp => if (now <? exp)%Z then (true, cache) else revoked_scan now (delete key cache) ids
      | None => revoked_scan now cache ids
      end
  end.

Section middleware.
Context `{UnicodeCase, TARCodec, BiscuitTokens, BiscuitEngine, PeerCodec}.

Definition IsBiscuitRevoked (now : time) (n : AgentMeshNode) (b : Biscuit) : bool * AgentMeshNode :=
  match n_revokedTokens n with
  | None => (false, n)
  | Some cache =>
      let '(revoked, cache) := revoked_scan now cache (RevocationIds b) in
      (revoked, set_revokedTokens n (Some cache))
  end.

(** The peer is in the revocation cache. *)
Definition peer_revoked (n : AgentMeshNode) (p : string) : bool :=
  match n_revokedPeers n with Some cache => bool_decide (is_Some (cache !! p)) | None => false end.

(** ** The node's own facts *)

(** The first trusted key under which the node's own token has an authorizer,
    or the last error. *)
Fixpoint own_authorizer (ourB : Biscuit) (keys : list TrustedKey) (authErr : option error) : world + option error :=
  match keys with
  | [] => inr authErr
  | tk :: keys =>
      match Authorizer ourB (tk_Key tk) with
      | Ok a => inl a
      | Err e => own_authorizer ourB keys (Some e)
      end
  end.

(** The facts that [injectIdentityFacts] adds to an authorizer. *)
Definition identity_facts (keys : list TrustedKey) (ourIdentity : string) : result (list fact) :=
  ourB ← wrap_err "failed to unmarshal node identity" (Unmarshal ourIdentity);
  match own_authorizer ourB keys None with
  | inr authErr =>
      let msg := "failed to create authorizer for node identity (signature verification mismatch)" in
      Err (match authErr with Some e => WrapError msg e | None => NewError msg end)
  | inl auth =>
      let auth := AddPolicies auth [AllowIfTruePolicy] in
      fail_if (negb (bool_decide (authorize auth = Success))) "failed to validate node identity token (e.g. expired)";;
      Ok (TargetFactRules ≫= (λ r, default [] (run_query auth r)))
  end.

Definition injectIdentityFacts (n : AgentMeshNode) : result (list fact) * AgentMeshNode :=
  let '(ourIdentity, n) := GetIdentity n in
  (match ourIdentity with
   | None => Ok []
   | Some ident => identity_facts (n_trustedKeys n) ident
   end, n).

(** ** One request under one key *)

(** The service a request is for: the target it names, or its protocol. *)
Definition request_operation (req : RequestContext) : string * string :=
  if bool_decide (rc_Target req = "") then (SystemNamespace, rc_Protocol req) else ParseServiceTarget (rc_Target req).

(** The facts of a request. *)
Definition context_facts (req : RequestContext) : list fact :=
  let '(opType, opName) := request_operation req in
  [Fact FactService [VStr opType; VStr opName]; Fact FactConnectionPeerID [VStr (rc_PeerID req)]] ++
  match rc_HTTP req with
  | Some h => [Fact FactMethod [VStr (hr_Method h)]; Fact FactPath [VStr (hr_Path h)]]
  | None => []
  end ++
  match rc_Egress req with
  | Some e => [Fact FactHost [VStr (ef_Host e)]; Fact FactPort [VAtom (AInt (ef_Port e))]]
  | None => []
  end ++
  (if rc_Local req then [MarkerFact FactTargetUnrestricted] else []).

Definition with_config (cfg : option NodeConfig) (w : world) : world :=
  match cfg with
  | None => w
  | Some c => AddRules (AddChecks (AddPolicies w (nc_Policies c)) (nc_Checks c)) (nc_Rules c)
  end.

(** The authorizer of a request, complete. *)
Definition request_world (now : time) (n : AgentMeshNode) (req : RequestContext) (own : list fact) (w : world) : world :=
  let authorizer := AddChecks (AddFacts w (context_facts req)) [BaselineReplayCheck] in
  let authorizer := EnforceExpiration now authorizer in
  let authorizer := AddFacts authorizer own in
  let authorizer := with_config (n_nodeConfig n) authorizer in
  let authorizer := AddChecks authorizer [BaselineTargetCheck] in
  let authorizer := AddPolicies authorizer BaselinePolicies in
  let authorizer := AddRules authorizer BaselineRules in
  let authorizer := AddRules authorizer BaselineHTTPRules in
  AddRules authorizer (n_MeshPolicyRules n).

(** The request as the task rules see it. *)
Definition task_request (req : RequestContext) : TaskRequestContext :=
  let '(opType, opName) := request_operation req in
  {| ServiceType_ := opType;
     ServiceName := opName;
     HasHTTP := bool_decide (is_Some (rc_HTTP req));
     Method := match rc_HTTP req with Some h => hr_Method h | None => "" end;
     Path := match rc_HTTP req with Some h => hr_Path h | None => "" end;
     MCPTool := rc_MCPTool req;
     AllowMCPStreamInit :=
       rc_AllowMCPStreamInit req ||
       (bool_decide (rc_HTTP req = None) && bool_decide (rc_MCPTool req = "") && bool_decide (rc_Protocol req = MCPProtocolID)) |}.

(** The string of the first fact of a query, or none. *)
Definition query_first (authorizer : world) (head x name : string) : string :=
  match run_query authorizer (select_rule head x name) with
  | Some (f :: _) => match f_ids f with VStr s :: _ => s | _ => "" end
  | _ => ""
  end.

Definition outcome_error (o : outcome) : error :=
  NewError (match o with
            | Success => ""
            | ErrCheckFailed => "biscuit: verification failed: failed to verify checks"
            | ErrNoMatchingPolicy => "biscuit: verification failed: no matching policy"
            | ErrPolicyDenied => "biscuit: verification failed: denied by policy"
            | ErrRun => "datalog: world runtime error"
            end).

(** The peer a delegated credential acts through is revoked. *)
Definition actor_revoked (n : AgentMeshNode) (authorizer : world) : bool :=
  let actorNodeStr := query_first authorizer "get_actor_node" "a" FactActorNode in
  if bool_decide (actorNodeStr = "") then false
  else match peer_Decode actorNodeStr with Ok actorPID => peer_revoked n actorPID | Err _ => false end.

Definition authorizeWithRules (now : time) (n : AgentMeshNode) (rawToken : string) (req : RequestContext)
    (pubKey : PublicKey) : result (list TaskAuthorizationRule) * AgentMeshNode :=
  if negb (bool_decide (len pubKey = PublicKeySize)) then (fail "invalid public key size", n)
  else match wrap_err "invalid biscuit" (UnmarshalInbound rawToken) with
  | Err e => (Err e, n)
  | Ok (b, taskRules) =>
      let '(revoked, n) := IsBiscuitRevoked now n b in
      if revoked then (fail "biscuit is revoked", n)
      else match Authorizer b pubKey with
      | Err e => (Err e, n)
      | Ok w =>
          match RequireAuthorityRequestBinding b (rc_PeerID req) with
          | Err e => (Err e, n)
          | Ok _ =>
              let '(own, n) := injectIdentityFacts n in
              match wrap_err "failed to inject target facts" own with
              | Err e => (Err e, n)
              | Ok own =>
                  let authorizer := request_world now n req own w in
                  (match authorize authorizer with
                   | Success =>
                       (if bool_decide (0 < length taskRules)
                        then EvaluateTaskRules (optional_rules taskRules) (task_request req) now else Ok tt);;
                       fail_if (actor_revoked n authorizer) "actor_node is revoked";;
                       Ok taskRules
                   | o => Err (outcome_error o)
                   end, n)
              end
          end
      end
  end.

Definition Authorize (now : time) (n : AgentMeshNode) (rawToken : string) (req : RequestContext) (pubKey : PublicKey)
  : result unit * AgentMeshNode :=
  let '(r, n) := authorizeWithRules now n rawToken req pubKey in (_ ← r; Ok tt, n).

(** ** All trusted keys *)

(** The loop: another key is tried only after a signature error. *)
Fixpoint try_keys (now : time) (n : AgentMeshNode) (biscuitBytes : string) (reqCtx : RequestContext)
    (keys : list TrustedKey) (lastErr : error) : result (list TaskAuthorizationRule) * AgentMeshNode :=
  match keys with
  | [] => (Err lastErr, n)
  | pubKey :: keys =>
      match authorizeWithRules now n biscuitBytes reqCtx (tk_Key pubKey) with
      | (Ok rules, n) => (Ok rules, n)
      | (Err e, n) => if errors_Is e ErrInvalidSignature then try_keys now n biscuitBytes reqCtx keys e else (Err e, n)
      end
  end.

Definition verifyBiscuitTokenWithRules (now : time) (n : AgentMeshNode) (biscuitBytes : string) (reqCtx : RequestContext)
  : result (list TaskAuthorizationRule) * AgentMeshNode :=
  if peer_revoked n (rc_PeerID reqCtx) then (fail "peer is revoked", n)
  else try_keys now n biscuitBytes reqCtx (n_trustedKeys n) (NewError "authorization failed").

Definition VerifyBiscuitToken (now : time) (n : AgentMeshNode) (biscuitBytes : string) (reqCtx : RequestContext)
  : result unit * AgentMeshNode :=
  let '(r, n) := verifyBiscuitTokenWithRules now n biscuitBytes reqCtx in (_ ← r; Ok tt, n).
End middleware.
