(* ===== verification/MiddlewareFacts.v ===== *)
(** * Authorizing requests: what a node accepts *)

From S2P Require Import Prelude GoStrings Regex Names Biscuit NaiveEngine Facts DatalogText Grants Labels HTTPGrants PolicyRules Egress Base64 Tar Token TokenModel Identity IdentityFacts Mint MintFacts Middleware.

(** ** Nodes that answer alike

    A request drops lapsed revocations from a cache and may load the node's
    identity; neither can be observed at the same time. *)

(** A revocation that still counts. *)
Definition live (now : time) (cache : gmap string time) (key : string) : bool :=
  match cache !! key with Some exp => (now <? exp)%Z | None => false end.

Definition caches_equiv (now : time) (c c' : option (gmap string time)) : Prop :=
  match c, c' with
  | Some c, Some c' => ∀ key, live now c key = live now c' key
  | None, None => True
  | _, _ => False
  end.

Record node_equiv (now : time) (n n' : AgentMeshNode) : Prop := {
  ne_peers : n_revokedPeers n = n_revokedPeers n';
  ne_tokens : caches_equiv now (n_revokedTokens n) (n_revokedTokens n');
  ne_keys : n_trustedKeys n = n_trustedKeys n';
  ne_config : n_nodeConfig n = n_nodeConfig n';
  ne_rules : n_MeshPolicyRules n = n_MeshPolicyRules n';
  ne_identity : (GetIdentity n).1 = (GetIdentity n').1;
}.

#[export] Instance caches_equiv_equivalence now : Equivalence (caches_equiv now).
Proof.
  split.
  - by intros [c|].
  - intros [c|] [c'|]; simpl; done.
  - intros [c1|] [c2|] [c3|]; simpl; try done. intros H1 H2 key. by rewrite H1, H2.
Qed.

#[export] Instance node_equiv_equivalence now : Equivalence (node_equiv now).
Proof.
  split.
  - intros n. by split.
  - intros n n' []. split; by symmetry.
  - intros n1 n2 n3 [] []. split; by etrans.
Qed.

Lemma revoked_scan_spec now cache ids :
  (revoked_scan now cache ids).1 = existsb (λ id, live now cache (RawURL_Encode id)) ids ∧
  ∀ key, live now (revoked_scan now cache ids).2 key = live now cache key.
Proof.
  revert cache. induction ids as [|id ids IH]; intros cache; simpl; [done|].
  unfold live at 1. destruct (cache !! RawURL_Encode id) as [exp|] eqn:E; [|apply IH].
  destruct (now <? exp)%Z eqn:El; [done|]. destruct (IH (delete (RawURL_Encode id) cache)) as [IH1 IH2].
  assert (Hd : ∀ key, live now (delete (RawURL_Encode id) cache) key = live now cache key).
  { intros key. unfold live. destruct (decide (key = RawURL_Encode id)) as [->|Hne].
    - by rewrite lookup_delete_eq, E, El.
    - by rewrite lookup_delete_ne. }
  rewrite IH1. split; [|intros key; by rewrite IH2].
  cbn [orb]. clear -Hd. induction ids as [|i ids IH]; simpl; [done|]. by rewrite Hd, IH.
Qed.

Section nodes.
Context `{UnicodeCase, TARCodec, BiscuitTokens, BiscuitEngine, PeerCodec}.

Lemma IsBiscuitRevoked_fst now n b :
  (IsBiscuitRevoked now n b).1 =
  match n_revokedTokens n with
  | Some cache => existsb (λ id, live now cache (RawURL_Encode id)) (RevocationIds b)
  | None => false
  end.
Proof.
  unfold IsBiscuitRevoked. destruct (n_revokedTokens n) as [cache|]; [|done].
  destruct (revoked_scan_spec now cache (RevocationIds b)) as [Hs _]. by destruct (revoked_scan _ _ _).
Qed.

Lemma IsBiscuitRevoked_snd now n b : node_equiv now (IsBiscuitRevoked now n b).2 n.
Proof.
  unfold IsBiscuitRevoked. destruct (n_revokedTokens n) as [cache|] eqn:E; [|reflexivity].
  destruct (revoked_scan_spec now cache (RevocationIds b)) as [_ Hs]. destruct (revoked_scan _ _ _) as [r cache'].
  split; try done.
  - simpl. by rewrite E.
  - unfold GetIdentity. simpl. by repeat case_match.
Qed.

#[export] Instance IsBiscuitRevoked_proper now : Proper (node_equiv now ==> eq ==> eq) (λ n b, (IsBiscuitRevoked now n b).1).
Proof.
  intros n n' [_ Hc _ _ _ _] b _ <-. rewrite !IsBiscuitRevoked_fst.
  destruct (n_revokedTokens n) as [c|], (n_revokedTokens n') as [c'|]; try done. simpl in Hc.
  induction (RevocationIds b) as [|i ids IH]; simpl; [done|]. by rewrite Hc, IH.
Qed.

Lemma GetIdentity_snd now n : node_equiv now (GetIdentity n).2 n.
Proof.
  unfold GetIdentity.
  assert (Hload : ∀ b, n_storedIdentity n = Some (Ok b) → b ≠ "" → (∀ c, n_cachedIdentity n = Some c → c = "") →
    node_equiv now (set_cachedIdentity n b) n).
  { intros b Hb Hne Hcache. split; try done. unfold GetIdentity. simpl. rewrite bool_decide_false, Hb by done. simpl.
    destruct (n_cachedIdentity n) as [c|]; [|by rewrite bool_decide_false]. rewrite (Hcache c), bool_decide_true by done.
    simpl. by rewrite bool_decide_false. }
  repeat case_match; simplify_eq/=; bool_split; try reflexivity; apply Hload; naive_solver.
Qed.

Lemma injectIdentityFacts_fst now n n' : node_equiv now n n' → (injectIdentityFacts n).1 = (injectIdentityFacts n').1.
Proof.
  intros He. pose proof (GetIdentity_snd now n) as Hn. pose proof (GetIdentity_snd now n') as Hn'.
  unfold injectIdentityFacts. pose proof (ne_identity _ _ _ He) as Hi.
  destruct (GetIdentity n) as [i m], (GetIdentity n') as [i' m']. simpl in *. subst i'.
  by rewrite (ne_keys _ _ _ Hn), (ne_keys _ _ _ Hn'), (ne_keys _ _ _ He).
Qed.

Lemma injectIdentityFacts_snd now n : node_equiv now (injectIdentityFacts n).2 n.
Proof.
  pose proof (GetIdentity_snd now n) as Hn. unfold injectIdentityFacts. by destruct (GetIdentity n) as [i m].
Qed.

Lemma peer_revoked_equiv now n n' p : node_equiv now n n' → peer_revoked n p = peer_revoked n' p.
Proof. intros [Hp _ _ _ _ _]. unfold peer_revoked. by rewrite Hp. Qed.

Lemma request_world_equiv now n n' req own w : node_equiv now n n' → request_world now n req own w = request_world now n' req own w.
Proof. intros [_ _ _ Hc Hr _]. unfold request_world. by rewrite Hc, Hr. Qed.

(** The decision on one request under one key, without the state. *)
Definition decision (now : time) (n : AgentMeshNode) (rawToken : string) (req : RequestContext) (pubKey : PublicKey)
  : result (list TaskAuthorizationRule) := (authorizeWithRules now n rawToken req pubKey).1.

Lemma authorizeWithRules_snd now n raw req key : node_equiv now (authorizeWithRules now n raw req key).2 n.
Proof.
  unfold authorizeWithRules. destruct (negb _); [reflexivity|]. destruct (wrap_err _ _) as [[b rules]|]; [|reflexivity].
  pose proof (IsBiscuitRevoked_snd now n b) as Hn1. destruct (IsBiscuitRevoked now n b) as [[] m]; [done|]. simpl in Hn1.
  destruct (Authorizer b key); [|done]. destruct (RequireAuthorityRequestBinding _ _); [|done].
  pose proof (injectIdentityFacts_snd now m) as Hn2. destruct (injectIdentityFacts m) as [own m']. simpl in Hn2.
  destruct (wrap_err _ own); simpl; by etrans.
Qed.

#[export] Instance decision_proper now : Proper (node_equiv now ==> eq ==> eq ==> eq ==> eq) (decision now).
Proof.
  intros n n' He raw _ <- req _ <- key _ <-. unfold decision, authorizeWithRules.
  destruct (negb _); [done|]. destruct (wrap_err _ _) as [[b rules]|]; [|done].
  pose proof (IsBiscuitRevoked_proper now n n' He b b eq_refl) as Hr. cbv beta in Hr.
  pose proof (IsBiscuitRevoked_snd now n b) as Hn. pose proof (IsBiscuitRevoked_snd now n' b) as Hn'.
  destruct (IsBiscuitRevoked now n b) as [r m], (IsBiscuitRevoked now n' b) as [r' m']. simpl in *. subst r'.
  destruct r; [done|]. destruct (Authorizer b key); [|done]. destruct (RequireAuthorityRequestBinding _ _); [|done].
  assert (Hm : node_equiv now m m') by (etrans; [exact Hn|]; etrans; [exact He|]; by symmetry).
  pose proof (injectIdentityFacts_fst now m m' Hm) as Hi.
  pose proof (injectIdentityFacts_snd now m) as Hk. pose proof (injectIdentityFacts_snd now m') as Hk'.
  destruct (injectIdentityFacts m) as [own k], (injectIdentityFacts m') as [own' k']. simpl in *. subst own'.
  destruct (wrap_err _ own) as [own1|]; [|done]. simpl.
  assert (Hkk : node_equiv now k k') by (etrans; [exact Hk|]; etrans; [exact Hm|]; by symmetry).
  rewrite (request_world_equiv now k k') by done. destruct (authorize _); try done. f_equal.
  assert (Ha : ∀ w, actor_revoked k w = actor_revoked k' w); [|by rewrite Ha].
  intros w. unfold actor_revoked. case_bool_decide; [done|]. destruct (peer_Decode _); [|done]. by apply (peer_revoked_equiv now).
Qed.

(** One request under one key, step by step. *)
Lemma decision_Ok now n raw req key rules :
  decision now n raw req key = Ok rules ↔
  len key = PublicKeySize ∧ ∃ b w own,
    UnmarshalInbound raw = Ok (b, rules) ∧ (IsBiscuitRevoked now n b).1 = false ∧ Authorizer b key = Ok w ∧
    RequireAuthorityRequestBinding b (rc_PeerID req) = Ok tt ∧ (injectIdentityFacts n).1 = Ok own ∧
    authorize (request_world now n req own w) = Success ∧
    EvaluateTaskRules (optional_rules rules) (task_request req) now = Ok tt ∧
    actor_revoked n (request_world now n req own w) = false.
Proof.
  assert (Hactor : ∀ m w, node_equiv now m n → actor_revoked m w = actor_revoked n w).
  { intros m w He. unfold actor_revoked. case_bool_decide; [done|]. destruct (peer_Decode _); [|done]. by apply (peer_revoked_equiv now). }
  assert (Htask : ∀ rs, (if bool_decide (0 < length rs) then EvaluateTaskRules (optional_rules rs) (task_request req) now else Ok tt)
                  = EvaluateTaskRules (optional_rules rs) (task_request req) now).
  { intros [|r rs]; [done|]. by rewrite bool_decide_true by (simpl; lia). }
  unfold decision, authorizeWithRules. case_bool_decide as Hlen; cbn [negb]; [|split; [done|by intros [? _]]].
  destruct (UnmarshalInbound raw) as [[b rs]|e]; cbn [wrap_err]; [|split; [done|by intros (_ & b & w & own & [=] & _)]].
  pose proof (IsBiscuitRevoked_snd now n b) as Hn1. destruct (IsBiscuitRevoked now n b) as [[] m] eqn:Er.
  { split; [done|]. intros (_ & b' & w & own & [= <- <-] & Hr & _). by rewrite Er in Hr. }
  simpl in Hn1. destruct (Authorizer b key) as [w|e] eqn:Ea.
  2: { split; [done|]. intros (_ & b' & w & own & [= <- <-] & _ & Hw & _). congruence. }
  destruct (RequireAuthorityRequestBinding b (rc_PeerID req)) as [[]|e] eqn:Eb.
  2: { split; [done|]. intros (_ & b' & w' & own & [= <- <-] & _ & _ & Hb & _). congruence. }
  pose proof (injectIdentityFacts_fst now m n Hn1) as Hi. pose proof (injectIdentityFacts_snd now m) as Hn2.
  destruct (injectIdentityFacts m) as [own m'] eqn:Eo. simpl in Hi, Hn2.
  destruct own as [own|e]; cbn [wrap_err].
  2: { split; [done|]. intros (_ & b' & w' & own & [= <- <-] & _ & _ & _ & Ho & _). congruence. }
  assert (Hm' : node_equiv now m' n) by (by etrans). rewrite Htask, (request_world_equiv now m' n) by done. simpl fst. split.
  - destruct (authorize _) eqn:Eau; try done. rewrite !bind_unit_Ok, fail_if_Ok, Hactor by done.
    intros (Ht & Hac & [= <-]). split; [done|]. exists b, w, own. by rewrite Er.
  - intros (_ & b' & w' & own' & [= <- <-] & _ & Hw & _ & Ho & Hau & Ht & Hac).
    rewrite Ea in Hw. injection Hw as <-. rewrite Ho in Hi. injection Hi as <-. rewrite Hau.
    by rewrite !bind_unit_Ok, fail_if_Ok, Hactor.
Qed.

Lemma try_keys_Ok now n raw req keys e rules :
  (try_keys now n raw req keys e).1 = Ok rules ↔
  ∃ i key, keys !! i = Some key ∧ decision now n raw req (tk_Key key) = Ok rules ∧
    ∀ j key', j < i → keys !! j = Some key' →
      ∃ e', decision now n raw req (tk_Key key') = Err e' ∧ errors_Is e' ErrInvalidSignature = true.
Proof.
  revert n e. induction keys as [|key keys IH]; intros n e; simpl.
  { split; [done|]. by intros (i & key & ? & _). }
  pose proof (authorizeWithRules_snd now n raw req (tk_Key key)) as Hn.
  destruct (authorizeWithRules now n raw req (tk_Key key)) as [[rs|e'] m] eqn:Ea; simpl in Hn;
    assert (Hd : decision now n raw req (tk_Key key) = _) by (unfold decision; rewrite Ea; reflexivity);
    simpl in Hd.
  - simpl. split.
    + intros [= ->]. exists 0, key. split_and!; [done..|]. lia.
    + intros ([|i] & key' & Hk & Hok & Hall); [injection Hk as <-; congruence|].
      destruct (Hall 0 key ltac:(lia) eq_refl) as (e' & He' & _). congruence.
  - destruct (errors_Is e' ErrInvalidSignature) eqn:Es.
    + rewrite IH. setoid_rewrite (decision_proper now m n Hn raw raw eq_refl req req eq_refl _ _ eq_refl). split.
      * intros (i & key' & Hk & Hok & Hall). exists (S i), key'. split_and!; [done..|].
        intros [|j] k Hj Hk'; [injection Hk' as <-; eauto|]. apply (Hall j); [lia|done].
      * intros ([|i] & key' & Hk & Hok & Hall); [injection Hk as <-; congruence|]. exists i, key'. split_and!; [done..|].
        intros j k Hj Hk'. apply (Hall (S j)); [lia|done].
    + simpl. split; [done|]. intros ([|i] & key' & Hk & Hok & Hall); [injection Hk as <-; congruence|].
      destruct (Hall 0 key ltac:(lia) eq_refl) as (e1 & He1 & Hs1). congruence.
Qed.

(** C33: A request is accepted with a chain of task rules exactly when its peer is
    not revoked and some trusted key accepts the credential with that chain
    while every key before it failed on the signature: what one attempt does to
    the node (lapsed revocations are dropped, the node's identity is loaded)
    has no influence on the next, and a node that accepts keeps answering
    alike. *)
Theorem key_rotation now n raw req rules :
  ((verifyBiscuitTokenWithRules now n raw req).1 = Ok rules ↔
   peer_revoked n (rc_PeerID req) = false ∧
   ∃ i key, n_trustedKeys n !! i = Some key ∧ decision now n raw req (tk_Key key) = Ok rules ∧
     ∀ j key', j < i → n_trustedKeys n !! j = Some key' →
       ∃ e', decision now n raw req (tk_Key key') = Err e' ∧ errors_Is e' ErrInvalidSignature = true) ∧
  node_equiv now (verifyBiscuitTokenWithRules now n raw req).2 n.
Proof.
  unfold verifyBiscuitTokenWithRules. destruct (peer_revoked n (rc_PeerID req)).
  - split; [|reflexivity]. split; [done|]. by intros [? _].
  - rewrite try_keys_Ok. split; [split; [done|by intros [_ ?]]|].
    generalize (n_trustedKeys n), (NewError "authorization failed"). intros keys. revert n.
    induction keys as [|key keys IH]; intros n e; simpl; [reflexivity|].
    pose proof (authorizeWithRules_snd now n raw req (tk_Key key)) as Hn.
    destruct (authorizeWithRules now n raw req (tk_Key key)) as [[rs|e'] m]; simpl in Hn; [done|].
    destruct (errors_Is e' ErrInvalidSignature); [|done]. by rewrite (IH m).
Qed.
End nodes.

(** ** The node's own facts *)

Section own.
Context `{BiscuitTokens, BiscuitEngine}.

Lemma own_authorizer_inl ourB keys e w :
  own_authorizer ourB keys e = inl w → ∃ key, key ∈ keys ∧ Authorizer ourB (tk_Key key) = Ok w.
Proof.
  revert e. induction keys as [|tk keys IH]; intros e; simpl; [done|].
  destruct (Authorizer ourB (tk_Key tk)) as [a|e'] eqn:Ea.
  - intros [= ->]. exists tk. split; [by left|done].
  - intros (key & ? & ?)%IH. exists key. split; [by right|done].
Qed.

Lemma target_fact_query w name fs f :
  run_query w (target_fact_rule name) = Some fs →
  f ∈ fs ↔ ∃ v, f = Fact FactTargetFact [VStr name; v] ∧ derives (w_facts w) (w_rules w) (Fact name [v]).
Proof.
  intros Hq. rewrite (run_query_spec _ _ _ f Hq). simpl. split.
  - intros (σ & -> & Hb & _). exists (σ "val"). split; [done|]. apply (Hb (pv name ["val"])). by left.
  - intros (v & -> & Hd). exists (λ _, v). split_and!; [done| |by intros ? ?%not_elem_of_nil].
    by intros p ->%list_elem_of_singleton.
Qed.

(** The facts a node brings to a request are its own identity and nothing
    else: every one is a [target_fact] of one of the target names, with a value
    its own credential derives under a trusted key, and when the queries
    complete there is one for each such value.  No grant, role or right of the
    node's own credential ever reaches the caller's authorizer. *)
Theorem own_target_facts keys ident own :
  identity_facts keys ident = Ok own →
  ∃ b key w, Unmarshal ident = Ok b ∧ key ∈ keys ∧ Authorizer b (tk_Key key) = Ok w ∧
    (∀ f, f ∈ own → ∃ name v, name ∈ TargetFactNames ∧ f = Fact FactTargetFact [VStr name; v] ∧
                              derives (w_facts w) (w_rules w) (Fact name [v])) ∧
    ((∀ r, r ∈ TargetFactRules → run_query (AddPolicies w [AllowIfTruePolicy]) r ≠ None) →
     ∀ name v, name ∈ TargetFactNames → derives (w_facts w) (w_rules w) (Fact name [v]) →
               Fact FactTargetFact [VStr name; v] ∈ own).
Proof.
  unfold identity_facts. intros (b & Hb & Hi)%bind_Ok. rewrite wrap_err_Ok in Hb.
  destruct (own_authorizer b keys None) as [w|] eqn:Eo; [|done]. apply own_authorizer_inl in Eo as (key & Hk & Hw).
  cbv zeta in Hi. apply bind_unit_Ok in Hi as [_ Hi]. apply (inj Ok) in Hi. subst own. exists b, key, w. split_and!; [done..| |].
  - intros f (r & Hf & Hr)%list_elem_of_bind. apply list_elem_of_fmap in Hr as (name & -> & Hname).
    destruct (run_query _ (target_fact_rule name)) as [fs|] eqn:Eq; simpl in Hf; [|by apply not_elem_of_nil in Hf].
    apply (target_fact_query _ _ _ _ Eq) in Hf as (v & -> & Hd). by exists name, v.
  - intros Hq name v Hname Hd. apply list_elem_of_bind. exists (target_fact_rule name).
    assert (Hr : target_fact_rule name ∈ TargetFactRules) by (by apply list_elem_of_fmap_2). split; [|done].
    specialize (Hq _ Hr). destruct (run_query _ (target_fact_rule name)) as [fs|] eqn:Eq; [|done]. simpl.
    apply (target_fact_query _ _ _ _ Eq). eauto.
Qed.
End own.

Lemma own_target_facts_witness :
  @identity_facts example_tokens naive_engine [{| tk_Key := example_public; tk_ReceivedAt := 0%Z |}] (token_bytes 4)
    = Ok [Fact FactTargetFact [VStr "node"; VStr "12D3p2"]] ∧
  ∃ b, @Unmarshal example_tokens (token_bytes 4) = Ok b.
Proof.
  assert (E : @identity_facts example_tokens naive_engine [{| tk_Key := example_public; tk_ReceivedAt := 0%Z |}] (token_bytes 4)
              = Ok [Fact FactTargetFact [VStr "node"; VStr "12D3p2"]]) by (by vm_compute).
  split; [exact E|]. destruct (@own_target_facts example_tokens naive_engine _ _ _ E) as (b & key & w & Hb & _). exists b. exact Hb.
Defined.
