(* ===== verification/MeshAuth.v ===== *)
(** * A request with a minted credential, end to end

    The credential is minted by the control plane from roles, read by a node,
    and evaluated with the request and the node's own facts: the outcome in
    terms of the patterns the roles list. *)

From S2P Require Import Prelude GoStrings Regex Names Biscuit NaiveEngine Facts DatalogText Grants Labels HTTPGrants PolicyRules Egress Base64 Tar Token TokenModel Identity IdentityFacts Mint MintFacts Middleware MiddlewareFacts.

(** ** The vocabulary *)

(** The names only the baseline rules derive. *)
Definition derived_names : list string :=
  FactAllowNetworkTarget :: FactHTTPMethodOK :: FactHTTPPathOK :: gn_list service_names.

(** The names a decision depends on. *)
Definition mesh_names : list string :=
  http_reserved ++ [FactTargetFact; FactAllowNetworkTarget; FactTargetUnrestricted] ++ gn_list target_names ++
  [FactNode; FactActorNode; FactClientPeerID; FactConnectionPeerID; FactExpiration; FactTime].

Definition apart (l1 l2 : list string) : bool := forallb (λ x, negb (slices_Contains l2 x)) l1.

Lemma apart_spec l1 l2 n : apart l1 l2 = true → n ∈ l1 → n ∉ l2.
Proof.
  unfold apart. rewrite forallb_True. intros Ha Hn. specialize (Ha n Hn). apply negb_true_iff in Ha.
  by apply bool_decide_eq_false in Ha.
Qed.

(** Two lists of names that share none, by computation. *)
Ltac clash :=
  match goal with
  | H1 : ?n ∈ ?l1, H2 : ?n ∈ ?l2 |- _ => exfalso; revert H2; apply (apart_spec l1 l2 n); [by vm_compute|exact H1]
  end.
Ltac in_list := apply (bool_decide_unpack _); by vm_compute.

Section requested.
Context `{BX : BiscuitText}.
Context (remotePeer : string) (delegated : bool) (roles : list string) (expiration : time)
        (claims : option (gmap string any)) (rolesMap : gmap string PolicyRole) (labels : gmap string string).

Let L : list fact := requested remotePeer delegated roles expiration claims rolesMap labels.
Let prs : list PolicyRole := resolved_roles rolesMap roles.

Definition plain_services : list string := prs ≫= (λ pr, (SplitHTTPGrants pr).1).
Definition narrowed_services : list HTTPGrant := prs ≫= (λ pr, (SplitHTTPGrants pr).2).
Definition granted_target_patterns : list string := prs ≫= role_allowed_targets.

(** Where a requested fact comes from, with the names it can have. *)
Inductive part (f : fact) : Prop :=
| part_binding : f ∈ binding_facts remotePeer delegated expiration →
    f_name f ∈ [FactExpiration; FactActorNode; FactNode; FactClientPeerID] → part f
| part_identity : f_name f ∈ [FactLabel; FactUser; FactEmail; FactGroup; FactIdpRole; FactRole; FactRight] → part f
| part_router : RoleRouter ∈ roles → f = MarkerFact FactTargetUnrestricted → f_name f ∈ [FactTargetUnrestricted] → part f
| part_custom : is_custom roles rolesMap f → part f
| part_service : f ∈ BuildServiceDatalogFacts plain_services → f_name f ∈ gn_list service_names → part f
| part_http g : g ∈ narrowed_services → f ∈ BuildHTTPGrantFacts g → f_name f ∈ http_fact_names → part f
| part_target : f ∈ BuildTargetDatalogFacts granted_target_patterns → f_name f ∈ gn_list target_names → part f
| part_publish : f_name f ∈ gn_list publish_names → part f.

Lemma requested_part f : f ∈ L → part f.
Proof.
  unfold L, requested, grant_facts. rewrite !elem_of_app. intros [Hf|[Hf|[Hf|[Hf|[Hf|[Hf|[Hf|Hf]]]]]]].
  - apply part_binding; [done|]. destruct delegated;
      repeat (apply elem_of_cons in Hf as [->|Hf]; [in_list|]); by apply not_elem_of_nil in Hf.
  - apply part_identity. apply elem_of_LabelFacts in Hf as (k & v & _ & ->). in_list.
  - apply part_identity. apply claims_facts_name in Hf.
    assert (Hall : Forall (.∈ [FactLabel; FactUser; FactEmail; FactGroup; FactIdpRole; FactRole; FactRight])
                     [FactUser; FactEmail; FactGroup; FactIdpRole]) by in_list.
    by apply (proj1 (Forall_forall _ _) Hall).
  - apply list_elem_of_bind in Hf as (role & Hf & Hrole). rewrite elem_of_sort_Strings in Hrole.
    unfold role_facts in Hf. apply elem_of_cons in Hf as [->|Hf]; [apply part_identity; in_list|]. case_bool_decide as Hr.
    + apply elem_of_cons in Hf as [->| ->%list_elem_of_singleton]; [apply part_identity; in_list|].
      apply part_router; [by subst|done|in_list].
    + destruct (rolesMap !! role) as [pr|] eqn:Er; [|by inversion Hf].
      apply list_elem_of_omap in Hf as (e & He & Hcf). apply part_custom. by exists role, pr, e.
  - apply part_service; [done|]. by eapply family_shape_name, BuildServiceDatalogFacts_shape.
  - apply list_elem_of_bind in Hf as (g & Hf & Hg). eapply part_http; [done..|by eapply http_facts_name'].
  - apply part_target; [done|]. by eapply family_shape_name, BuildTargetDatalogFacts_shape.
  - apply part_publish. by eapply family_shape_name, BuildPublishDatalogFacts_shape.
Qed.

Lemma requested_service f : f ∈ BuildServiceDatalogFacts plain_services → f ∈ L.
Proof. intros Hf. unfold L, requested, grant_facts. rewrite !elem_of_app. auto 10. Qed.
Lemma requested_http g f : g ∈ narrowed_services → f ∈ BuildHTTPGrantFacts g → f ∈ L.
Proof. intros Hg Hf. unfold L, requested, grant_facts. rewrite !elem_of_app. do 5 right. left. apply list_elem_of_bind. by exists g. Qed.
Lemma requested_target f : f ∈ BuildTargetDatalogFacts granted_target_patterns → f ∈ L.
Proof. intros Hf. unfold L, requested, grant_facts. rewrite !elem_of_app. auto 10. Qed.
Lemma requested_router : RoleRouter ∈ roles → MarkerFact FactTargetUnrestricted ∈ L.
Proof.
  intros Hr. unfold L, requested. rewrite !elem_of_app, list_elem_of_bind. do 3 right. left.
  exists RoleRouter. rewrite elem_of_sort_Strings. split; [|done]. unfold role_facts.
  rewrite bool_decide_true by done. right. right. by left.
Qed.
Lemma requested_role us : Fact FactRole us ∈ L → ¬ is_custom roles rolesMap (Fact FactRole us) → ∃ ρ, us = [VStr ρ] ∧ ρ ∈ roles.
Proof.
  unfold L, requested, grant_facts. rewrite !elem_of_app. intros [Hf|[Hf|[Hf|[Hf|[Hf|[Hf|[Hf|Hf]]]]]]] Hc.
  - exfalso. destruct delegated; repeat (apply elem_of_cons in Hf as [Hf|Hf]; [discriminate Hf|]); by apply not_elem_of_nil in Hf.
  - by apply elem_of_LabelFacts in Hf as (k & v & _ & [= ]).
  - apply claims_facts_name in Hf. by apply (bool_decide_pack _) in Hf.
  - apply list_elem_of_bind in Hf as (role & Hf & Hrole). rewrite elem_of_sort_Strings in Hrole.
    unfold role_facts in Hf. apply elem_of_cons in Hf as [[= ->]|Hf]; [by exists role|exfalso]. case_bool_decide as Hr.
    + repeat (apply elem_of_cons in Hf as [Hf|Hf]; [discriminate Hf|]); by apply not_elem_of_nil in Hf.
    + destruct (rolesMap !! role) as [pr|] eqn:Er; [|by inversion Hf].
      apply list_elem_of_omap in Hf as (e & He & Hcf). apply Hc. by exists role, pr, e.
  - apply BuildServiceDatalogFacts_shape, family_shape_name in Hf. by apply (bool_decide_pack _) in Hf.
  - apply list_elem_of_bind in Hf as (g & Hf & Hg). apply http_facts_name' in Hf. by apply (bool_decide_pack _) in Hf.
  - apply BuildTargetDatalogFacts_shape, family_shape_name in Hf. by apply (bool_decide_pack _) in Hf.
  - apply BuildPublishDatalogFacts_shape, family_shape_name in Hf. by apply (bool_decide_pack _) in Hf.
Qed.
Lemma requested_role_fact ρ : ρ ∈ roles → Fact FactRole [VStr ρ] ∈ L.
Proof.
  intros Hr. unfold L, requested. rewrite !elem_of_app, list_elem_of_bind. do 3 right. left.
  exists ρ. rewrite elem_of_sort_Strings. split; [|done]. by left.
Qed.
End requested.

(** ** The authority block by name *)

Section authority.
Context `{UC : UnicodeCase, TC : TARCodec, BT : BiscuitTokens, BX : BiscuitText}.
Context (rng rng' : Rng) (signingKey : PrivateKey) (remotePeer : string) (delegated : bool) (roles : list string)
        (expiration : time) (claims : option (gmap string any)) (policyRoles : list (option PolicyRole))
        (labels : gmap string string) (data : string) (b : Biscuit).
Hypothesis Hmint :
  mintBiscuitWithBindingAndRand rng signingKey remotePeer delegated roles expiration claims policyRoles labels = Ok (data, rng').
Hypothesis Hdata : Unmarshal data = Ok b.
Hypothesis Hcustom : custom_clear roles (roles_map policyRoles) mesh_names.

Local Abbreviation plain := (plain_services roles (roles_map policyRoles)).
Local Abbreviation narrowed := (narrowed_services roles (roles_map policyRoles)).
Local Abbreviation targets := (granted_target_patterns roles (roles_map policyRoles)).

Let exact := minted_exact rng rng' signingKey remotePeer delegated roles expiration claims policyRoles labels data b Hmint Hdata
  mesh_names.

(** A fact of the authority block with a name of the vocabulary. *)
Lemma authority_part f :
  f ∈ authority b → f_name f ∈ mesh_names →
  part remotePeer delegated roles expiration (roles_map policyRoles) f ∧ ¬ is_custom roles (roles_map policyRoles) f.
Proof using UC TC Hmint Hdata Hcustom.
  intros Hf Hn. apply (exact f Hcustom Hn) in Hf. split; [by eapply requested_part|].
  intros Hc. by apply (proj2 (Hcustom f Hc)).
Qed.

Lemma authority_service f :
  f_name f ∈ gn_list service_names → f ∈ authority b ↔ f ∈ BuildServiceDatalogFacts plain.
Proof using UC TC Hmint Hdata Hcustom.
  intros Hn. assert (Hm : f_name f ∈ mesh_names) by (unfold mesh_names, http_reserved; rewrite !elem_of_app; auto).
  split; [|intros Hf; by apply (exact f Hcustom Hm), requested_service].
  intros [Hp Hc]%authority_part; [|done]. destruct Hp; done || clash.
Qed.

Lemma authority_target f :
  f_name f ∈ gn_list target_names → f ∈ authority b ↔ f ∈ BuildTargetDatalogFacts targets.
Proof using UC TC Hmint Hdata Hcustom.
  intros Hn. assert (Hm : f_name f ∈ mesh_names) by (unfold mesh_names; rewrite !elem_of_app; auto).
  split; [|intros Hf; by apply (exact f Hcustom Hm), requested_target].
  intros [Hp Hc]%authority_part; [|done]. destruct Hp; done || clash.
Qed.

Lemma authority_http f :
  f_name f ∈ http_fact_names → f ∈ authority b ↔ ∃ g, g ∈ narrowed ∧ f ∈ BuildHTTPGrantFacts g.
Proof using UC TC Hmint Hdata Hcustom.
  intros Hn. assert (Hm : f_name f ∈ mesh_names).
  { assert (Hall : Forall (.∈ mesh_names) http_fact_names) by in_list. by apply (proj1 (Forall_forall _ _) Hall). }
  split; [|intros (g & Hg & Hf); by eapply (exact f Hcustom Hm), requested_http].
  intros [Hp Hc]%authority_part; [|done]. destruct Hp; eauto; done || clash.
Qed.

Lemma authority_unrestricted us :
  Fact FactTargetUnrestricted us ∈ authority b ↔ us = [MarkerTerm] ∧ RoleRouter ∈ roles.
Proof using UC TC Hmint Hdata Hcustom.
  assert (Hn : f_name (Fact FactTargetUnrestricted us) ∈ [FactTargetUnrestricted]) by (simpl; by left).
  assert (Hm : f_name (Fact FactTargetUnrestricted us) ∈ mesh_names) by (simpl; in_list). split.
  - intros [Hp Hc]%authority_part; [|done]. destruct Hp as [| |Hr [= ->] _| | | | |]; try (done || clash).
  - intros [-> Hr]. apply (exact _ Hcustom Hm). by apply requested_router.
Qed.

(** The names the request and the node bring are not in the authority block. *)
Lemma authority_foreign f :
  f_name f ∈ [FactService; FactMethod; FactPath; FactHTTPMethodOK; FactHTTPPathOK; FactTargetFact; FactAllowNetworkTarget;
              FactConnectionPeerID; FactTime] → f ∉ authority b.
Proof using UC TC Hmint Hdata Hcustom.
  intros Hn Hf. apply authority_part in Hf as [Hp Hc].
  - destruct Hp; done || clash.
  - assert (Hall : Forall (.∈ mesh_names) [FactService; FactMethod; FactPath; FactHTTPMethodOK; FactHTTPPathOK;
      FactTargetFact; FactAllowNetworkTarget; FactConnectionPeerID; FactTime]) by in_list.
    by apply (proj1 (Forall_forall _ _) Hall).
Qed.

Lemma authority_client us : Fact FactClientPeerID us ∈ authority b ↔ us = [VStr remotePeer].
Proof using UC TC Hmint Hdata Hcustom.
  assert (Hm : f_name (Fact FactClientPeerID us) ∈ mesh_names) by (simpl; in_list).
  assert (Hn : f_name (Fact FactClientPeerID us) ∈ [FactClientPeerID]) by (simpl; by left). split.
  - intros [Hp Hc]%authority_part; [|done]. destruct Hp as [Hf _| | | | | | |]; try (done || clash).
    destruct delegated; repeat (apply elem_of_cons in Hf as [Heq|Hf]; [by first [discriminate Heq|injection Heq as ->]|]);
      by apply not_elem_of_nil in Hf.
  - intros ->. apply (exact _ Hcustom Hm). apply elem_of_app. left. right. right. by left.
Qed.

Lemma authority_expiration us : Fact FactExpiration us ∈ authority b ↔ us = [biscuit_Date expiration].
Proof using UC TC Hmint Hdata Hcustom.
  assert (Hm : f_name (Fact FactExpiration us) ∈ mesh_names) by (simpl; in_list).
  assert (Hn : f_name (Fact FactExpiration us) ∈ [FactExpiration]) by (simpl; by left). split.
  - intros [Hp Hc]%authority_part; [|done]. destruct Hp as [Hf _| | | | | | |]; try (done || clash).
    destruct delegated; repeat (apply elem_of_cons in Hf as [Heq|Hf]; [by first [discriminate Heq|injection Heq as ->]|]);
      by apply not_elem_of_nil in Hf.
  - intros ->. apply (exact _ Hcustom Hm). apply elem_of_app. left. by left.
Qed.

(** The roles it states. *)
Hypothesis Hcustom_role : custom_clear roles (roles_map policyRoles) [FactRole].

Lemma authority_role ρ : Fact FactRole [VStr ρ] ∈ authority b ↔ ρ ∈ roles.
Proof using UC TC Hmint Hdata Hcustom_role.
  rewrite (minted_exact rng rng' signingKey remotePeer delegated roles expiration claims policyRoles labels data b Hmint Hdata
    [FactRole] _ Hcustom_role) by by left.
  split; [|apply requested_role_fact]. intros Hf. apply requested_role in Hf as (? & [= ->] & ?); [done|].
  intros Hc. destruct (proj2 (Hcustom_role _ Hc)). by left.
Qed.
End authority.

(** ** The world of a request *)

Lemma derives_ext F R F' R' f :
  (∀ g, g ∈ F ↔ g ∈ F') → (∀ r, r ∈ R ↔ r ∈ R') → derives F R f ↔ derives F' R' f.
Proof. intros HF HR. split; apply derives_mono; intros x; by rewrite ?HF, ?HR. Qed.

(** Policies in two layers: the first list decides, or else the second. *)
Lemma decides_app F R ps qs d :
  decides F R (ps ++ qs) d ↔ (∃ k, d = Some k ∧ decides F R ps (Some k)) ∨ (decides F R ps None ∧ decides F R qs d).
Proof.
  induction ps as [|p ps IH]; simpl.
  - split; [intros Hd; right; split; [constructor|done]|]. intros [(k & -> & Hk)|[_ ?]]; [inversion Hk|done].
  - split.
    + inversion 1 as [|? ? Hp|? ? ? Hp Hd]; subst; [left; eexists; split; [done|by constructor]|].
      apply IH in Hd as [(k & -> & Hk)|[Hn Hd]]; [left; exists k; split; [done|by constructor]|right; split; [by constructor|done]].
    + intros [(k & -> & Hk)|[Hn Hd]].
      * inversion Hk; subst; [by constructor|]. constructor; [done|]. apply IH. left. eauto.
      * inversion Hn; subst. constructor; [done|]. apply IH. by right.
Qed.

Lemma authorize_layered `{BiscuitEngine} w ps qs :
  w_policies w = ps ++ qs → (∀ p, p ∈ qs → pol_kind p = PolicyAllow) → authorize w ≠ ErrRun →
  authorize w = Success ↔
  checks_hold w ∧ (decides (w_facts w) (w_rules w) ps (Some PolicyAllow) ∨
                   (decides (w_facts w) (w_rules w) ps None ∧ ∃ p, p ∈ qs ∧ policy_holds (w_facts w) (w_rules w) p)).
Proof.
  intros Hps Hk Hrun.
  assert (Hd : checks_hold w → ∃ d, world_decides w d ∧ (authorize w = Success ↔ d = Some PolicyAllow)).
  { intros Hc. destruct (authorize w) eqn:E; try done.
    - exists (Some PolicyAllow). split; [by apply authorize_success|done].
    - by destruct (authorize_check w E).
    - exists None. split; [by apply authorize_none|done].
    - exists (Some PolicyDeny). split; [by apply authorize_denied|done]. }
  unfold world_decides in Hd. rewrite Hps in Hd. split.
  - intros Hs. pose proof (authorize_success w Hs) as [Hc _]. split; [done|]. destruct (Hd Hc) as (d & Hdec & Hiff). apply Hiff in Hs as ->.
    apply decides_app in Hdec as [(k & [= <-] & ?)|[Hn Hdec]]; [by left|right]. split; [done|].
    by destruct (decides_allow_only _ _ _ Hk _ Hdec) as [[_ ?]|[? _]].
  - intros [Hc Hl]. destruct (Hd Hc) as (d & Hdec & Hiff). apply Hiff. apply decides_app in Hdec as [(k & -> & Hp)|[Hn Hdec]].
    + destruct Hl as [Hp'|[Hn _]]; [by rewrite (decides_fun _ _ _ _ _ Hp Hp')|by pose proof (decides_fun _ _ _ _ _ Hp Hn)].
    + destruct Hl as [Hp'|[_ (p & Hp & Hh)]]; [by pose proof (decides_fun _ _ _ _ _ Hn Hp')|].
      destruct (decides_allow_only _ _ _ Hk _ Hdec) as [[? _]|[_ Hno]]; [done|by destruct (Hno p Hp)].
Qed.

(** Targets that were turned into facts in several groups. *)
Definition target_groups (groups : list (list string)) : list fact := groups ≫= BuildTargetDatalogFacts.

Lemma target_groups_shape groups f : f ∈ target_groups groups → family_shape target_names f.
Proof. intros (l & Hf & _)%list_elem_of_bind. by eapply BuildTargetDatalogFacts_shape. Qed.

Lemma target_groups_covers groups ty nm :
  (∃ f, f ∈ target_groups groups ∧ fact_covers target_names ty nm f) ↔
  ∃ p, p ∈ mjoin groups ∧ target_covers p ty nm = true.
Proof.
  split.
  - intros (f & (l & Hf & Hl)%list_elem_of_bind & Hc).
    destruct (proj1 (BuildTargetDatalogFacts_covers l ty nm)) as (p & Hp & Hcov); [by eauto|].
    exists p. rewrite list_elem_of_join. eauto.
  - intros (p & (l & Hp & Hl)%list_elem_of_join & Hc).
    destruct (proj2 (BuildTargetDatalogFacts_covers l ty nm)) as (f & Hf & Hcov); [by eauto|].
    exists f. split; [|done]. apply list_elem_of_bind. eauto.
Qed.

Ltac open_world := cbv zeta; unfold EnforceExpiration; autorewrite with world.

Section world.
Context `{UC : UnicodeCase, TC : TARCodec, BT : BiscuitTokens, BX : BiscuitText, UP : UnicodePrint, PC : PeerCodec}.
Context (rng rng' : Rng) (signingKey : PrivateKey) (remotePeer : string) (delegated : bool) (roles : list string)
        (expiration : time) (claims : option (gmap string any)) (policyRoles : list (option PolicyRole))
        (labels : gmap string string) (data : string) (b : Biscuit).
Hypothesis Hmint :
  mintBiscuitWithBindingAndRand rng signingKey remotePeer delegated roles expiration claims policyRoles labels = Ok (data, rng').
Hypothesis Hdata : Unmarshal data = Ok b.
Hypothesis Hcustom : custom_clear roles (roles_map policyRoles) mesh_names.
Hypothesis Hcustom_role : custom_clear roles (roles_map policyRoles) [FactRole].

Context (now : time) (n : AgentMeshNode) (req : RequestContext) (own : list fact).
Hypothesis Hown : ∀ f, f ∈ own → ∃ ty nm, f = Fact FactTargetFact [VStr ty; VStr nm].

(** The mesh policy the node follows: the texts that the control plane writes
    for its roles and bindings, as the node parses them. *)
Context (meshRoles : list (option PolicyRole)) (bindings : list (option PolicyBinding)).
Local Abbreviation policy := ((BuildPolicyRules meshRoles bindings).1).
Hypothesis Hparse : ParseDatalogRules (PolicyRuleTexts policy) = Ok (n_MeshPolicyRules n).
Hypothesis Hplain : policy_plain policy.
Hypothesis Hbindings : bindings_ok bindings.

(** The node's own configuration: its rules, checks and policies. *)
Definition local_config : NodeConfig :=
  default {| nc_Policies := []; nc_Checks := []; nc_Rules := []; nc_EgressRequireLabels := ∅ |} (n_nodeConfig n).

(** The rules that operators write: in the node's configuration and as custom
    Datalog of the policy's roles. *)
Definition other_rules : list rule := nc_Rules local_config ++ custom_policy_rules meshRoles.
Hypothesis Hcustom_rules : ∀ r, r ∈ other_rules → p_name (r_head r) ∉ binding_names ++ mesh_names.

(** The caller holds a role: its credential states it, or a binding of the
    mesh policy matches the identity that the credential states. *)
Definition holds_role (ρ : string) : bool := slices_Contains roles ρ || role_bound (authority b) bindings ρ.

(** The roles of the mesh policy that the caller holds. *)
Definition held : list PolicyRole := held_roles holds_role meshRoles.

(** What those roles, and those the credential was minted with, grant. *)
Definition granted_plain : list (list string) :=
  plain_services roles (roles_map policyRoles) :: ((λ pr, (SplitHTTPGrants pr).1) <$> held).
Definition granted_narrowed : list HTTPGrant :=
  narrowed_services roles (roles_map policyRoles) ++ (held ≫= λ pr, (SplitHTTPGrants pr).2).
Definition role_targets (pr : PolicyRole) : list string := granted_targets (classify_target <$> role_allowed_targets pr).
Definition granted_reach : list (list string) :=
  granted_target_patterns roles (roles_map policyRoles) :: (role_targets <$> held).

Local Abbreviation plains := granted_plain.
Local Abbreviation narrowed := granted_narrowed.
Local Abbreviation targets := (mjoin granted_reach).
Local Abbreviation ty := (request_operation req).1.
Local Abbreviation nm := (request_operation req).2.

Definition minted_request_world : world := request_world now n req own (World (authority b) [] [] []).

Local Abbreviation F := (w_facts minted_request_world ++ (held ≫= policy_facts)).
Local Abbreviation B := (pr_Rule <$> (for_all binding_rules bindings).1).
Local Abbreviation R := (BaselineRules ++ BaselineHTTPRules ++ B ++ other_rules).
Local Abbreviation D := (derives F R).

Local Ltac open_request :=
  unfold minted_request_world, request_world, local_config; destruct (n_nodeConfig n); unfold with_config; cbn [default from_option]; open_world.

Lemma request_facts_cases f :
  f ∈ w_facts minted_request_world ↔
  f ∈ authority b ∨ f ∈ context_facts req ∨ f = Fact FactTime [biscuit_Date now] ∨ f ∈ own.
Proof using Type.
  open_request; rewrite ?elem_of_app, ?list_elem_of_singleton, ?elem_of_nil; tauto.
Qed.

Lemma world_facts f :
  f ∈ F ↔ f ∈ authority b ∨ f ∈ context_facts req ∨ f = Fact FactTime [biscuit_Date now] ∨ f ∈ own ∨ f ∈ held ≫= policy_facts.
Proof using Type. rewrite elem_of_app, request_facts_cases. tauto. Qed.

Lemma request_rules_cases r :
  r ∈ w_rules minted_request_world ↔
  r ∈ (BaselineRules ++ BaselineHTTPRules ++ nc_Rules local_config) ++ n_MeshPolicyRules n.
Proof using Type.
  open_request; rewrite ?elem_of_app, ?elem_of_nil; tauto.
Qed.

Lemma world_rules r : r ∈ R ↔ r ∈ BaselineRules ∨ r ∈ BaselineHTTPRules ∨ r ∈ B ++ other_rules.
Proof. rewrite !elem_of_app. tauto. Qed.

Lemma baseline_head r : r ∈ BaselineRules ++ BaselineHTTPRules → p_name (r_head r) ∈ derived_names.
Proof.
  intros [Hr|Hr]%elem_of_app.
  - apply list_elem_of_fmap in Hr as (body & -> & _). in_list.
  - apply list_elem_of_fmap in Hr as ([h els] & -> & Hr). simpl. unfold http_rule_bodies in Hr.
    repeat (apply elem_of_cons in Hr as [[= -> _]|Hr]; [in_list|]). by apply not_elem_of_nil in Hr.
Qed.

(** The binding rules derive roles. *)
Lemma binding_head r : r ∈ B → p_name (r_head r) = FactRole.
Proof using Hbindings.
  intros (pr & -> & Hpr)%list_elem_of_fmap. apply elem_of_binding_rules in Hpr as (bd & m & Hb & Hm & Hpr); [|done].
  pose proof (member_rules_spec [] (binding_role bd) m (proj2 (Hbindings bd Hb) m Hm)) as [Hh _].
  by rewrite (proj1 (Hh pr Hpr)).
Qed.

Lemma policy_rule_head r : r ∈ B ++ other_rules → p_name (r_head r) ∉ mesh_names.
Proof using Hbindings Hcustom_rules.
  intros [Hr|Hr]%elem_of_app Hn; [|apply (Hcustom_rules r Hr), elem_of_app; by right].
  rewrite (binding_head r Hr) in Hn. by apply (bool_decide_pack _) in Hn.
Qed.

(** The roles that the request's facts state or the bindings grant. *)
Lemma world_held ρ : role_held (w_facts minted_request_world) bindings ρ = holds_role ρ.
Proof using UC TC Hmint Hdata Hcustom_role Hbindings Hown.
  unfold role_held, holds_role. f_equal.
  - apply eq_true_iff_eq. rewrite bool_decide_eq_true, slices_Contains_true, request_facts_cases.
    rewrite <-(authority_role rng rng' signingKey remotePeer delegated roles expiration claims policyRoles labels data b Hmint Hdata Hcustom_role).
    split; [|by left]. intros [?|[Hf|[Hf|Hf]]]; [done|exfalso|done|by destruct (Hown _ Hf) as (? & ? & [= ])].
    unfold context_facts in Hf. destruct (request_operation req). rewrite !elem_of_app in Hf.
    destruct Hf as [Hf|[Hf|[Hf|Hf]]]; repeat case_match;
      repeat (apply elem_of_cons in Hf as [Hf|Hf]; [discriminate Hf|]); by apply not_elem_of_nil in Hf.
  - apply role_bound_ext; [done|]. intros m v Hm. rewrite request_facts_cases. split; [|by left].
    intros [?|[Hf|[Hf|Hf]]]; [done|exfalso..].
    + assert (Hn : f_name (Fact m [VStr v]) ∈ [FactService; FactConnectionPeerID; FactMethod; FactPath; FactHost; FactPort; FactTargetUnrestricted]).
      { unfold context_facts in Hf. destruct (request_operation req). rewrite !elem_of_app in Hf.
        destruct Hf as [Hf|[Hf|[Hf|Hf]]]; repeat case_match;
          repeat (apply elem_of_cons in Hf as [->|Hf]; [in_list|]); by apply not_elem_of_nil in Hf. }
      simpl in Hn. clash.
    + injection Hf as Hn _. assert (Hn' : m ∈ [FactTime]) by (rewrite Hn; by left). clash.
    + destruct (Hown _ Hf) as (? & ? & Heq). injection Heq as Hn _. assert (Hn' : m ∈ [FactTargetFact]) by (rewrite Hn; by left). clash.
Qed.

Lemma held_roles_ext (h h' : string → bool) l : (∀ ρ, h ρ = h' ρ) → held_roles h l = held_roles h' l.
Proof. intros Heq. unfold held_roles. induction l as [|[role|] l IH]; cbn; [done| |exact IH]. rewrite Heq. by destruct (_ && _); rewrite <-IH. Qed.

(** What the request's world derives: each held role of the policy adds the
    facts it states. *)
Lemma world_derives f : derives (w_facts minted_request_world) (w_rules minted_request_world) f ↔ D f.
Proof using UC TC Hmint Hdata Hcustom_role Hbindings Hown Hparse Hplain Hcustom_rules.
  rewrite (derives_ext _ _ _ _ _ (λ _, iff_refl _) request_rules_cases).
  destruct (policy_text_meaning meshRoles bindings Hplain) as (R' & Hp & Hmean). rewrite Hparse in Hp. injection Hp as <-.
  rewrite <-Hmean, policy_absorbed; [|done|].
  - rewrite (held_roles_ext _ _ _ world_held). apply derives_ext; [done|]. intros r. unfold other_rules. rewrite !elem_of_app. tauto.
  - intros r Hr. assert (r ∈ BaselineRules ++ BaselineHTTPRules ∨ r ∈ other_rules) as [Hb|Ho].
    { unfold other_rules. rewrite !elem_of_app in *. tauto. }
    + pose proof (baseline_head r Hb) as Hn. intros Hn'. clash.
    + intros Hn. apply (Hcustom_rules r Ho), elem_of_app. by left.
Qed.

Lemma world_query q : query_holds (w_facts minted_request_world) (w_rules minted_request_world) q ↔ query_holds F R q.
Proof using UC TC Hmint Hdata Hcustom_role Hbindings Hown Hparse Hplain Hcustom_rules.
  unfold query_holds. setoid_rewrite world_derives. done.
Qed.

Lemma world_checks c :
  c ∈ w_checks minted_request_world ↔
  c = BaselineReplayCheck ∨ c = ControlPlaneStaticTimeCheck ∨ c = BaselineTargetCheck ∨ c ∈ nc_Checks local_config.
Proof using Type. open_request; rewrite ?elem_of_app, ?list_elem_of_singleton, ?elem_of_nil; tauto. Qed.

Lemma world_policies : w_policies minted_request_world = nc_Policies local_config ++ BaselinePolicies.
Proof using Type. by open_request. Qed.

(** Only the baseline rules derive facts of the vocabulary. *)
Lemma world_heads r : r ∈ R → p_name (r_head r) ∈ mesh_names → p_name (r_head r) ∈ derived_names.
Proof using Hbindings Hcustom_rules.
  rewrite world_rules. intros [Hr|[Hr|Hr]] Hn; [| |by destruct (policy_rule_head r Hr)];
    apply baseline_head, elem_of_app; auto.
Qed.

Lemma world_base f : f_name f ∈ mesh_names → f_name f ∉ derived_names → D f ↔ f ∈ F.
Proof using Hbindings Hcustom_rules.
  intros Hm Hd. split; [|by constructor]. apply derives_no_rule. intros r Hr Heq. apply Hd. rewrite <-Heq.
  apply world_heads; [done|]. by rewrite Heq.
Qed.

(** The names of the facts of a request. *)
Lemma context_facts_name f :
  f ∈ context_facts req →
  (f_name f ∈ [FactConnectionPeerID] ∧ f = Fact FactConnectionPeerID [VStr (rc_PeerID req)]) ∨
  (f_name f ∈ [FactTargetUnrestricted] ∧ rc_Local req = true ∧ f = MarkerFact FactTargetUnrestricted) ∨
  (f_name f ∈ [FactService] ∧ f = Fact FactService [VStr ty; VStr nm]) ∨
  (∃ h, rc_HTTP req = Some h ∧ f_name f ∈ [FactMethod; FactPath] ∧
        f ∈ [Fact FactMethod [VStr (hr_Method h)]; Fact FactPath [VStr (hr_Path h)]]) ∨
  f_name f ∈ [FactHost; FactPort].
Proof.
  unfold context_facts. destruct (request_operation req) as [t s]. rewrite !elem_of_app. simpl fst. simpl snd.
  intros [Hf|[Hf|[Hf|Hf]]].
  - apply elem_of_cons in Hf as [->| ->%list_elem_of_singleton]; [do 2 right; left|left]; (split; [by left|done]).
  - do 3 right; left. destruct (rc_HTTP req) as [h|]; [|by apply not_elem_of_nil in Hf]. exists h. split_and!; [done| |done].
    apply elem_of_cons in Hf as [->| ->%list_elem_of_singleton]; in_list.
  - do 4 right. destruct (rc_Egress req) as [e|]; [|by apply not_elem_of_nil in Hf].
    apply elem_of_cons in Hf as [->| ->%list_elem_of_singleton]; in_list.
  - right; left. destruct (rc_Local req); [|by apply not_elem_of_nil in Hf]. apply list_elem_of_singleton in Hf as ->.
    split_and!; [by left|done..].
Qed.

Lemma context_service : Fact FactService [VStr ty; VStr nm] ∈ context_facts req.
Proof. unfold context_facts. destruct (request_operation req). by left. Qed.
Lemma context_peer : Fact FactConnectionPeerID [VStr (rc_PeerID req)] ∈ context_facts req.
Proof. unfold context_facts. destruct (request_operation req). right. by left. Qed.

Lemma own_name f : f ∈ own → f_name f ∈ [FactTargetFact].
Proof using Hown. intros (t & s & ->)%Hown. by left. Qed.

Lemma time_name f : f = Fact FactTime [biscuit_Date now] → f_name f ∈ [FactTime].
Proof. intros ->. by left. Qed.

(** *** Facts by name *)

(** Membership in the world's facts, by the name of the fact: the cases that
    its name excludes are closed. *)
Local Ltac by_source Hn :=
  rewrite world_facts; intros [Hf|[Hf|[Hf|[Hf|Hf]]]];
  [|apply context_facts_name in Hf as [[Hc Hf]|[[Hc Hf]|[[Hc Hf]|[(h & Hh & Hc & Hf)|Hc]]]]; try clash
   |pose proof (time_name _ Hf) as Hc; try clash
   |pose proof (own_name _ Hf) as Hc; try clash
   |apply list_elem_of_bind in Hf as (pol & Hf & Hpol);
    destruct (policy_facts_part pol _ Hf) as [Hp Hc|g Hg Hp Hc|Hc|Hs Hp Hc|Hc|Hp Hc]; try clash].

Lemma world_connection us : D (Fact FactConnectionPeerID us) ↔ us = [VStr (rc_PeerID req)].
Proof using UC TC Hmint Hdata Hcustom Hbindings Hcustom_rules Hown.
  rewrite world_base by in_list. split.
  - assert (Hn : f_name (Fact FactConnectionPeerID us) ∈ [FactConnectionPeerID]) by by left. by_source Hn.
    + by eapply authority_foreign in Hf; [|eassumption..|in_list].
    + by injection Hf as ->.
  - intros ->. rewrite world_facts. right; left. apply context_peer.
Qed.

Lemma world_client us : D (Fact FactClientPeerID us) ↔ us = [VStr remotePeer].
Proof using UC TC Hmint Hdata Hcustom Hbindings Hcustom_rules Hown.
  rewrite world_base by in_list. split.
  - assert (Hn : f_name (Fact FactClientPeerID us) ∈ [FactClientPeerID]) by by left. by_source Hn.
    by eapply authority_client in Hf.
  - intros ->. rewrite world_facts. left. by eapply authority_client.
Qed.

Lemma world_time us : D (Fact FactTime us) ↔ us = [biscuit_Date now].
Proof using UC TC Hmint Hdata Hcustom Hbindings Hcustom_rules Hown.
  rewrite world_base by in_list. split.
  - assert (Hn : f_name (Fact FactTime us) ∈ [FactTime]) by by left. by_source Hn.
    + by eapply authority_foreign in Hf; [|eassumption..|in_list].
    + by injection Hf as ->.
  - intros ->. rewrite world_facts. right; right; by left.
Qed.

Lemma world_expiration us : D (Fact FactExpiration us) ↔ us = [biscuit_Date expiration].
Proof using UC TC Hmint Hdata Hcustom Hbindings Hcustom_rules Hown.
  rewrite world_base by in_list. split.
  - assert (Hn : f_name (Fact FactExpiration us) ∈ [FactExpiration]) by by left. by_source Hn.
    by eapply authority_expiration in Hf.
  - intros ->. rewrite world_facts. left. by eapply authority_expiration.
Qed.

Lemma world_unrestricted :
  D (MarkerFact FactTargetUnrestricted) ↔
  rc_Local req = true ∨ RoleRouter ∈ roles ∨ ∃ pr, pr ∈ held ∧ "*" ∈ role_allowed_targets pr.
Proof using UC TC Hmint Hdata Hcustom Hbindings Hcustom_rules Hown.
  rewrite world_base by in_list. split.
  - assert (Hn : f_name (MarkerFact FactTargetUnrestricted) ∈ [FactTargetUnrestricted]) by by left. by_source Hn.
    + right; left. by eapply authority_unrestricted in Hf as [_ ?].
    + left. apply Hf.
    + right; right. by exists pol.
  - intros [Hl|[Hr|(pr & Hpr & Hs)]]; rewrite world_facts.
    + right; left. unfold context_facts. rewrite Hl. destruct (request_operation req). rewrite !elem_of_app. do 3 right. by left.
    + left. eapply authority_unrestricted; [eassumption..|]. done.
    + do 4 right. apply list_elem_of_bind. exists pr. split; [|done]. unfold policy_facts. rewrite !elem_of_app.
      apply unrestricted_entry in Hs. do 3 right. left. rewrite Hs. by left.
Qed.

Lemma world_target_fact us : D (Fact FactTargetFact us) ↔ Fact FactTargetFact us ∈ own.
Proof using UC TC Hmint Hdata Hcustom Hbindings Hcustom_rules Hown.
  rewrite world_base by in_list. split.
  - assert (Hn : f_name (Fact FactTargetFact us) ∈ [FactTargetFact]) by by left. by_source Hn; [|done].
    by eapply authority_foreign in Hf; [|eassumption..|in_list].
  - intros Hf. rewrite world_facts. auto.
Qed.

Lemma world_target_grant f :
  f_name f ∈ gn_list target_names → D f ↔ f ∈ target_groups granted_reach.
Proof using UC TC Hmint Hdata Hcustom Hbindings Hcustom_rules Hown.
  intros Hn. rewrite world_base; cycle 1.
  { unfold mesh_names. rewrite !elem_of_app. auto. }
  { intros Hd. clash. }
  split.
  - unfold target_groups, granted_reach. by_source Hn; rewrite list_elem_of_bind.
    + eexists. split; [by eapply authority_target in Hf|by left].
    + exists (role_targets pol). split; [done|]. right. by apply list_elem_of_fmap_2.
  - intros (l & Hf & Hl)%list_elem_of_bind. rewrite world_facts. apply elem_of_cons in Hl as [->|Hl]; [left; by eapply authority_target|].
    apply list_elem_of_fmap in Hl as (pr & -> & Hpr). do 4 right. apply list_elem_of_bind. exists pr. split; [|done].
    unfold policy_facts. rewrite !elem_of_app. auto 10.
Qed.

(** *** The checks *)

Lemma world_replay : check_holds F R BaselineReplayCheck ↔ rc_PeerID req = remotePeer.
Proof using UC TC Hmint Hdata Hcustom Hbindings Hcustom_rules Hown.
  rewrite replay_check_holds. split.
  - intros (v & [= ->]%world_client & [= Hp]%world_connection). done.
  - intros Hp. exists (VStr remotePeer). by rewrite world_client, world_connection, Hp.
Qed.

Lemma world_unexpired :
  check_holds F R ControlPlaneStaticTimeCheck ↔ (time_Unix now ≤ time_Unix expiration)%Z.
Proof using UC TC Hmint Hdata Hcustom Hbindings Hcustom_rules Hown.
  rewrite time_check_holds by (intros us ->%world_time; eexists; done). split.
  - by intros (t & e & [= ->]%world_time & [= ->]%world_expiration & Hle).
  - intros Hle. exists (time_Unix now), (time_Unix expiration). by rewrite world_time, world_expiration.
Qed.

Lemma world_targets_family : family_world F R target_names FactTargetFact.
Proof using UC TC Hmint Hdata Hcustom Hbindings Hcustom_rules Hown.
  split.
  - intros us Hus. rewrite world_target_fact in Hus. destruct (Hown _ Hus) as (t & s & [= ->]). eauto.
  - intros u v Hd. rewrite world_target_grant in Hd by (simpl; in_list). apply target_groups_shape in Hd. inversion Hd; eauto.
Qed.

(** The node is a target the caller may reach. *)
Definition target_reached : Prop :=
  rc_Local req = true ∨ RoleRouter ∈ roles ∨ (∃ pr, pr ∈ held ∧ "*" ∈ role_allowed_targets pr) ∨
  ∃ p t s, p ∈ targets ∧ Fact FactTargetFact [VStr t; VStr s] ∈ own ∧ target_covers p t s = true.

Lemma world_no_allowed : FactAllowNetworkTarget ∉ (f_name <$> F).
Proof using UC TC Hmint Hdata Hcustom Hown.
  intros (f & Heqn & Hin)%list_elem_of_fmap. assert (Hn : f_name f ∈ [FactAllowNetworkTarget]) by (rewrite <-Heqn; by left).
  revert Hin. by_source Hn. eapply authority_foreign in Hf; [done|eassumption..|rewrite <-Heqn; in_list].
Qed.

Lemma world_allowed_rule r : r ∈ R → p_name (r_head r) = FactAllowNetworkTarget → r ∈ BaselineRules.
Proof using Hbindings Hcustom_rules.
  rewrite world_rules. intros [Hr|[Hr|Hr]] Hn; [done| |].
  - exfalso. apply list_elem_of_fmap in Hr as ([h els] & -> & Hr). simpl in Hn. unfold http_rule_bodies in Hr.
    repeat (apply elem_of_cons in Hr as [[= -> _]|Hr]; [discriminate Hn|]). by apply not_elem_of_nil in Hr.
  - destruct (policy_rule_head r Hr). rewrite Hn. in_list.
Qed.

(** A target that is allowed is one of the node's. *)
Lemma world_allowed_subject u v : D (Fact FactAllowNetworkTarget [u; v]) → D (Fact FactTargetFact [u; v]).
Proof using UC TC Hmint Hdata Hcustom Hbindings Hcustom_rules Hown.
  intros Hd. remember (Fact FactAllowNetworkTarget [u; v]) as f0 eqn:Heq. destruct Hd as [f Hf|r σ Hr Hb He].
  - destruct world_no_allowed. apply list_elem_of_fmap. exists f. by subst f.
  - pose proof (f_equal f_name Heq) as Hn. simpl in Hn. apply world_allowed_rule in Hr; [|done].
    apply list_elem_of_fmap in Hr as (body & -> & Hbody). injection Heq as Hu Hv.
    assert (Hin : pv FactTargetFact ["fact"; "val"] ∈ preds body).
    { unfold target_rule_bodies in Hbody.
      repeat (apply elem_of_cons in Hbody as [->|Hbody]; [by left|]). by apply not_elem_of_nil in Hbody. }
    specialize (Hb _ Hin). unfold inst in Hb. simpl in Hb. by rewrite Hu, Hv in Hb.
Qed.

Lemma world_allowed_target t s :
  D (Fact FactAllowNetworkTarget [VStr t; VStr s]) ↔
  Fact FactTargetFact [VStr t; VStr s] ∈ own ∧ ∃ p, p ∈ targets ∧ target_covers p t s = true.
Proof using UC TC Hmint Hdata Hcustom Hbindings Hcustom_rules Hown.
  rewrite target_rules_iff; [|apply world_targets_family| |apply world_no_allowed|apply world_allowed_rule].
  - rewrite world_target_fact, <-target_groups_covers. apply and_iff_compat_l.
    split; intros (f & Hf & Hc); exists f; (split; [|done]); (apply world_target_grant; [by eapply fact_covers_name|done]).
  - intros r Hr. rewrite world_rules. by left.
Qed.

Lemma world_target : check_holds F R BaselineTargetCheck ↔ target_reached.
Proof using UC TC Hmint Hdata Hcustom Hbindings Hcustom_rules Hown.
  rewrite target_check_holds, world_unrestricted. unfold target_reached. split.
  - intros [(u & v & Hd)|[?|[?|?]]]; [|auto..]. pose proof (world_allowed_subject u v Hd) as Hs.
    rewrite world_target_fact in Hs. destruct (Hown _ Hs) as (t & s & [= -> ->]).
    apply world_allowed_target in Hd as [Hin (p & Hp & Hc)]. right; right; right. by exists p, t, s.
  - intros [?|[?|[?|(p & t & s & Hp & Hin & Hc)]]]; [auto..|]. left. exists (VStr t), (VStr s). apply world_allowed_target. eauto.
Qed.

(** *** The service *)

(** The facts that have nothing to do with services. *)
Definition other_facts : list fact := filter (λ f, f_name f ∉ http_reserved) F.

Lemma world_service_facts m p f :
  (∀ h, rc_HTTP req = Some h → m = hr_Method h ∧ p = hr_Path h) →
  f ∈ F → f ∈ narrowed_facts plains narrowed ty nm m p other_facts.
Proof using UC TC Hmint Hdata Hcustom Hown.
  intros Hmp Hin. destruct (decide (f_name f ∈ http_reserved)) as [Hn|Hn]; unfold narrowed_facts; rewrite !elem_of_app.
  2: { do 3 right. by apply list_elem_of_filter. }
  revert Hin. by_source Hn.
  - unfold http_reserved in Hn. rewrite !elem_of_app in Hn. destruct Hn as [Hn|[Hn|Hn]].
    + change http_base_names with ([FactService; FactMethod; FactPath] ++ http_fact_names) in Hn.
      apply elem_of_app in Hn as [Hn|Hn].
      * exfalso. revert Hf. eapply authority_foreign; [eassumption..|].
        assert (Hall : Forall (.∈ [FactService; FactMethod; FactPath; FactHTTPMethodOK; FactHTTPPathOK; FactTargetFact;
          FactAllowNetworkTarget; FactConnectionPeerID; FactTime]) [FactService; FactMethod; FactPath]) by in_list.
        by apply (proj1 (Forall_forall _ _) Hall).
      * right; right; left. apply list_elem_of_bind. eapply authority_http in Hf as (g & ? & ?); [|eassumption..].
        exists g. split; [done|]. apply elem_of_app. by left.
    + exfalso. revert Hf. eapply authority_foreign; [eassumption..|].
      assert (Hall : Forall (.∈ [FactService; FactMethod; FactPath; FactHTTPMethodOK; FactHTTPPathOK; FactTargetFact;
        FactAllowNetworkTarget; FactConnectionPeerID; FactTime]) [FactHTTPMethodOK; FactHTTPPathOK]) by in_list.
      by apply (proj1 (Forall_forall _ _) Hall).
    + right; left. eapply authority_service in Hf; [|eassumption..]. apply list_elem_of_bind. eexists. split; [exact Hf|by left].
  - left. rewrite Hf. by left.
  - left. destruct (Hmp h Hh) as [-> ->]. by right.
  - right; left. apply list_elem_of_bind. eexists. split; [exact Hp|]. right. by apply (list_elem_of_fmap_2 (λ pr, (SplitHTTPGrants pr).1)).
  - right; right; left. apply list_elem_of_bind. exists g. split; [done|]. apply elem_of_app. right. apply list_elem_of_bind. eauto.
Qed.

Lemma world_service_rules r : r ∈ R ↔ r ∈ narrowed_rules (BaselineRules ++ B ++ other_rules).
Proof. rewrite world_rules. unfold narrowed_rules. rewrite !elem_of_app. tauto. Qed.

Lemma other_facts_name f : f ∈ other_facts → f_name f ∉ http_reserved.
Proof. by intros [? _]%list_elem_of_filter. Qed.

Lemma other_rules_head r : r ∈ BaselineRules ++ B ++ other_rules → p_name (r_head r) ∉ http_reserved.
Proof using Hbindings Hcustom_rules.
  intros [(body & -> & _)%list_elem_of_fmap|Hr]%elem_of_app; [in_list|]. intros Hn. apply (policy_rule_head r Hr).
  unfold mesh_names. apply elem_of_app. by left.
Qed.

(** The method and the path of the request; what stands for them when there is
    no HTTP request permits nothing. *)
Definition request_method : string := match rc_HTTP req with Some h => hr_Method h | None => "CONNECT" end.
Definition request_path : string := match rc_HTTP req with Some h => hr_Path h | None => "" end.

Local Abbreviation F' := (narrowed_facts plains narrowed ty nm request_method request_path other_facts).
Local Abbreviation R' := (narrowed_rules (BaselineRules ++ B ++ other_rules)).

Lemma world_narrowed f : D f → derives F' R' f.
Proof using UC TC Hmint Hdata Hcustom Hown.
  apply derives_mono.
  - intros g. apply world_service_facts. unfold request_method, request_path. by intros h ->.
  - intros r. apply world_service_rules.
Qed.

Lemma world_plain f : f ∈ service_groups plains → f ∈ F.
Proof using UC TC Hmint Hdata Hcustom.
  intros (l & Hg & Hl)%list_elem_of_bind. rewrite world_facts. apply elem_of_cons in Hl as [->|Hl].
  - left. eapply authority_service; [eassumption..| |done]. by eapply family_shape_name, BuildServiceDatalogFacts_shape.
  - apply list_elem_of_fmap in Hl as (pr & -> & Hpr). do 4 right. apply list_elem_of_bind. exists pr. split; [|done].
    unfold policy_facts. rewrite !elem_of_app. by left.
Qed.

Lemma narrowed_world_http f h : rc_HTTP req = Some h → derives F' R' f → D f.
Proof using UC TC Hmint Hdata Hcustom Hown.
  intros Hh. apply derives_mono; [|intros r; apply world_service_rules]. intros g Hg. unfold narrowed_facts in Hg.
  rewrite !elem_of_app in Hg. rewrite world_facts. destruct Hg as [Hg|[Hg|[Hg|Hg]]].
  - right; left. unfold request_facts, request_method, request_path in Hg. rewrite Hh in Hg. unfold context_facts. rewrite Hh.
    destruct (request_operation req) as [t s]. rewrite !elem_of_app. simpl in Hg.
    apply elem_of_cons in Hg as [->|Hg]; [by left; left|]. by right; left.
  - rewrite <-world_facts. by apply world_plain.
  - apply list_elem_of_bind in Hg as (gr & Hg & Hgr). apply elem_of_app in Hgr as [Hgr|Hgr].
    + left. eapply authority_http; [eassumption..|by eapply http_facts_name'|eauto].
    + apply list_elem_of_bind in Hgr as (pr & Hgr & Hpr). do 4 right. apply list_elem_of_bind. exists pr. split; [|done].
      unfold policy_facts. rewrite !elem_of_app, list_elem_of_bind. right; left. eauto.
  - rewrite <-world_facts. by apply list_elem_of_filter in Hg as [_ ?].
Qed.

Lemma world_services_family : family_world F R service_names FactService.
Proof using UC TC Hmint Hdata Hcustom Hbindings Hcustom_rules Hown.
  destruct (narrowed_world plains narrowed ty nm request_method request_path other_facts (BaselineRules ++ B ++ other_rules)
              other_facts_name other_rules_head) as [Hs Hset].
  split; [intros us Hd; by apply Hs, world_narrowed|intros u v Hd; by eapply Hset, world_narrowed].
Qed.

(** *** Requests without a method and a path *)

(** The rules of the narrowed grants need the method or the path. *)
Lemma http_rule_needs h els :
  (h, els) ∈ http_rule_bodies → ∃ q, q ∈ preds els ∧ p_name q ∈ [FactMethod; FactPath; FactHTTPMethodOK].
Proof.
  assert (Hall : forallb (λ b : predicate * list element,
    existsb (λ q, slices_Contains [FactMethod; FactPath; FactHTTPMethodOK] (p_name q)) (preds b.2)) http_rule_bodies = true) by (by vm_compute).
  rewrite forallb_True in Hall. intros Hin. specialize (Hall _ Hin). apply existsb_True in Hall as (q & Hq & Hn).
  exists q. split; [done|]. by apply slices_Contains_true.
Qed.

Lemma no_http_derives f :
  rc_HTTP req = None → D f → derives F (BaselineRules ++ B ++ other_rules) f.
Proof using UC TC Hmint Hdata Hcustom Hbindings Hcustom_rules Hown.
  intros Hnone. induction 1 as [f Hf|r σ Hr Hb IH He]; [by apply derives_fact|].
  apply world_rules in Hr as [Hr|[Hr|Hr]]; [by apply derives_rule; [apply elem_of_app; left|..]| |by apply derives_rule; [apply elem_of_app; right|..]].
  exfalso. apply list_elem_of_fmap in Hr as ([h0 els] & -> & Hin). apply http_rule_needs in Hin as (q & Hq & Hn).
  specialize (IH q Hq). apply derives_no_rule in IH; cycle 1.
  { intros r' Hr' Heq. apply (other_rules_head r' Hr'). rewrite Heq.
    assert (Hall : Forall (.∈ http_reserved) [FactMethod; FactPath; FactHTTPMethodOK]) by in_list.
    by apply (proj1 (Forall_forall _ _) Hall). }
  assert (Hn' : f_name (inst σ q) ∈ [FactMethod; FactPath; FactHTTPMethodOK]) by exact Hn. clear Hn Hq He Hb. revert IH. by_source Hn'.
  - eapply authority_foreign in Hf; [done|eassumption..|].
    assert (Hall : Forall (.∈ [FactService; FactMethod; FactPath; FactHTTPMethodOK; FactHTTPPathOK; FactTargetFact;
      FactAllowNetworkTarget; FactConnectionPeerID; FactTime]) [FactMethod; FactPath; FactHTTPMethodOK]) by in_list.
    by apply (proj1 (Forall_forall _ _) Hall).
  - congruence.
Qed.

Lemma no_http_plain f : rc_HTTP req = None → f_name f ∈ gn_list service_names → D f → f ∈ service_groups plains.
Proof using UC TC Hmint Hdata Hcustom Hbindings Hcustom_rules Hown.
  intros Hnone Hn Hd. apply no_http_derives in Hd; [|done]. apply derives_no_rule in Hd; cycle 1.
  { intros r Hr Heq. apply (other_rules_head r Hr). rewrite Heq. unfold http_reserved. rewrite !elem_of_app. auto. }
  revert Hd. by_source Hn; apply list_elem_of_bind; eexists.
  - split; [by eapply authority_service in Hf|by left].
  - split; [exact Hp|]. right. by apply (list_elem_of_fmap_2 (λ pr, (SplitHTTPGrants pr).1)).
Qed.

(** The service of the request is granted, by a role of the credential or a
    role of the mesh policy that the caller holds: by a plain pattern, or by
    narrowed grants that permit its method and its path. *)
Definition service_granted : Prop :=
  (∃ s, s ∈ mjoin plains ∧ service_covers s ty nm = true) ∨
  ∃ h g, rc_HTTP req = Some h ∧ earned narrowed ty nm (hr_Method h) (hr_Path h) g.

Lemma world_service :
  (∃ p, p ∈ BaselinePolicies ∧ policy_holds F R p) ↔ service_granted.
Proof using UC TC Hmint Hdata Hcustom Hbindings Hcustom_rules Hown.
  rewrite BaselinePolicies_family, (family_policies_iff _ _ _ _ world_services_family).
  pose proof (narrowed_grants_iff plains narrowed ty nm request_method request_path other_facts
    (BaselineRules ++ B ++ other_rules) other_facts_name other_rules_head) as Hiff. unfold service_granted. split.
  - intros (t & s & f & Hs & Hf & Hc). destruct (rc_HTTP req) as [h|] eqn:Hh.
    + assert (Hex : (∃ s, s ∈ mjoin plains ∧ service_covers s ty nm = true) ∨
                    ∃ g, earned narrowed ty nm request_method request_path g).
      { apply Hiff. exists t, s, f. auto using world_narrowed. }
      destruct Hex as [?|[g Hg]]; [by left|]. right. unfold request_method, request_path in Hg. rewrite Hh in Hg. eauto.
    + left. apply service_groups_covers. exists f. split; [by eapply no_http_plain, Hf; [|eapply fact_covers_name]|].
      apply world_narrowed in Hs. apply base_service in Hs as [= <- <-]; [done|apply other_facts_name|apply other_rules_head].
  - intros [Hp|(h & g & Hh & Hg)].
    + apply service_groups_covers in Hp as (f & Hf & Hc). exists ty, nm, f. split_and!; [| |done].
      * apply derives_fact. rewrite world_facts. right; left. apply context_service.
      * by apply derives_fact, world_plain.
    + assert (Hex : ∃ g, earned narrowed ty nm request_method request_path g).
      { exists g. unfold request_method, request_path. by rewrite Hh. }
      apply (or_intror (A := ∃ s, s ∈ mjoin plains ∧ service_covers s ty nm = true)) in Hex. apply Hiff in Hex as (t & s & f & Hs & Hf & Hc).
      exists t, s, f. split_and!; [by eapply narrowed_world_http..|done].
Qed.

(** What the node's own configuration says of the request: every check of it
    holds, and a policy of it allows the request, or none of them decides and
    the service is granted. *)
Definition local_checks_hold : Prop :=
  ∀ c, c ∈ nc_Checks local_config → check_holds (w_facts minted_request_world) (w_rules minted_request_world) c.
Definition locally_decided (d : option policy_kind) : Prop :=
  decides (w_facts minted_request_world) (w_rules minted_request_world) (nc_Policies local_config) d.

(** C1: A node authorizes a request that carries a minted credential exactly
    when the connection's peer is the one the credential was minted for, it has
    not expired, every check of the node's own configuration holds, a policy of
    that configuration allows the request or none decides and the service is
    granted (by an [allowed_services] pattern, or by HTTP entries that permit
    the method and the path), the node is a target that may be reached (one of
    its own facts is covered by an [allowed_targets] pattern, or the request is
    local, the caller a router, or a held role lists the target ["*"]), and the
    peer it acts through, if any, is not revoked.  What is granted is what two
    sets of roles grant together: those the credential was minted with, and
    those of the mesh policy that the caller holds, because the credential
    states the role or because a binding of the policy matches the identity the
    credential states.

    The node follows the mesh policy as the control plane writes it
    ([BuildPolicyRules], parsed from its text), whose bindings are valid and
    whose text is plain.  The Datalog that operators write, as custom entries of
    roles and in the node's configuration, may derive anything but the names the
    decision depends on, roles and identities.  The key is well formed, the
    credential is not revoked, the node's own identity reads as pairs of
    strings, and the engine's run does not hit its limits. *)
Theorem mesh_request `{BE : BiscuitEngine} :
  len (Public signingKey) = PublicKeySize → (IsBiscuitRevoked now n b).1 = false →
  (injectIdentityFacts n).1 = Ok own → authorize minted_request_world ≠ ErrRun →
  decision now n data req (Public signingKey) = Ok [] ↔
  rc_PeerID req = remotePeer ∧ (time_Unix now ≤ time_Unix expiration)%Z ∧
  local_checks_hold ∧ (locally_decided (Some PolicyAllow) ∨ (locally_decided None ∧ service_granted)) ∧
  target_reached ∧ actor_revoked n minted_request_world = false.
Proof using UC TC UP Hmint Hdata Hcustom Hcustom_role Hown Hparse Hplain Hbindings Hcustom_rules.
  intros Hlen Hrev Hident Hrun.
  destruct (minted rng rng' signingKey remotePeer delegated roles expiration claims policyRoles labels data b Hmint Hdata)
    as (Hu & Hok & Hw & _). apply is_ok_true in Hok as [w Hb]. pose proof (Hw _ _ Hb) as ->.
  assert (Hbind : RequireAuthorityRequestBinding b (rc_PeerID req) = Ok tt ↔ rc_PeerID req = remotePeer).
  { eapply minted_request_binding; [eassumption..|]. eapply custom_clear_sub; [|exact Hcustom]. in_list. }
  assert (Hck : ∀ c, check_holds (w_facts minted_request_world) (w_rules minted_request_world) c ↔ check_holds F R c).
  { intros c. unfold check_holds. by setoid_rewrite world_query. }
  assert (Hpol : (∃ p, p ∈ BaselinePolicies ∧ policy_holds (w_facts minted_request_world) (w_rules minted_request_world) p) ↔ service_granted).
  { rewrite <-world_service. unfold policy_holds. by setoid_rewrite world_query. }
  assert (Hau : authorize minted_request_world = Success ↔
    rc_PeerID req = remotePeer ∧ (time_Unix now ≤ time_Unix expiration)%Z ∧ local_checks_hold ∧
    (locally_decided (Some PolicyAllow) ∨ (locally_decided None ∧ service_granted)) ∧ target_reached).
  { rewrite (authorize_layered _ _ _ world_policies) by (done || by intros p (bd & -> & _)%list_elem_of_fmap).
    rewrite Hpol, <-world_replay, <-world_unexpired, <-world_target, <-!Hck. unfold checks_hold, local_checks_hold.
    setoid_rewrite world_checks. split.
    - intros [Hc Hs]. split_and!; [by apply Hc; auto..| |done|by apply Hc; auto]. intros c ?. apply Hc. auto.
    - intros (Hc1 & Hc2 & Hl & Hs & Hc3). split; [|done]. intros c [->|[->|[->|Hc]]]; auto. }
  rewrite decision_Ok. split.
  - intros (_ & b' & w' & own' & Hu' & _ & Hb' & Hbd & Ho' & Hs & _ & Hac).
    rewrite Hu in Hu'. injection Hu' as <-. rewrite Hb in Hb'. injection Hb' as <-. rewrite Hident in Ho'. injection Ho' as <-.
    apply Hau in Hs as (? & ? & ? & ? & ?). done.
  - intros (Hp & Ht & Hlc & Hsv & Htg & Hac). split; [done|]. exists b, (World (authority b) [] [] []), own.
    split_and!; try done; [by apply Hbind|]. by apply Hau.
Qed.
End world.

(** ** Example *)

#[local] Existing Instances ascii_case ascii_print one_rule_codec example_tokens naive_engine reference_text plain_codec.

(** A mesh policy that lets alice reach the service "stats" at every node; her
    credential was minted with the role "dev" alone. *)
Definition ops_role : PolicyRole :=
  {| role_name := "ops"; role_allowed_targets := ["*"]; role_allowed_services := ["mcp://stats"];
     role_custom_datalog := []; role_allowed_labels := []; role_http := []; role_allowed_publish := [] |}.
Definition ops_bindings : list (option PolicyBinding) :=
  [Some {| binding_role := "ops"; binding_members := ["user:ali*"] |}].

Definition example_policy : list rule :=
  match ParseDatalogRules (PolicyRuleTexts (BuildPolicyRules [Some ops_role] ops_bindings).1) with Ok rules => rules | Err _ => [] end.

Definition example_node : AgentMeshNode :=
  {| n_revokedPeers := Some ∅; n_revokedTokens := Some ∅; n_trustedKeys := [{| tk_Key := example_public; tk_ReceivedAt := 0%Z |}];
     n_nodeConfig := None; n_MeshPolicyRules := example_policy; n_cachedIdentity := None; n_storedIdentity := Some (Ok (token_bytes 4)) |}.

Definition example_request (target : string) : RequestContext :=
  {| rc_PeerID := "12D3p1"; rc_Protocol := MCPProtocolID; rc_Target := target; rc_HTTP := None; rc_Egress := None;
     rc_Local := false; rc_MCPTool := ""; rc_AllowMCPStreamInit := false |}.

Definition example_own : list fact := [Fact FactTargetFact [VStr "node"; VStr "12D3p2"]].

Lemma ops_bindings_ok : bindings_ok ops_bindings.
Proof.
  intros b [= ->]%list_elem_of_singleton. split; [by vm_compute|]. intros m ->%list_elem_of_singleton. by vm_compute.
Qed.

Lemma ops_plain : policy_plain (BuildPolicyRules [Some ops_role] ops_bindings).1.
Proof.
  assert (H : forallb (λ pr, negb (bool_decide (length (r_exprs (pr_Rule pr)) = 0)) || plain_rule (pr_Rule pr))
    (BuildPolicyRules [Some ops_role] ops_bindings).1 = true) by (by vm_compute).
  rewrite forallb_True in H. intros pr Hpr He. specialize (H pr Hpr). by rewrite He in H.
Qed.

(** The service that the credential grants and the one that the policy grants
    are served, and no other. *)
Lemma mesh_request_witness :
  decision (5 * second)%Z example_node (token_bytes 0) (example_request "mcp://calc") example_public = Ok [] ∧
  decision (5 * second)%Z example_node (token_bytes 0) (example_request "mcp://stats") example_public = Ok [] ∧
  decision (5 * second)%Z example_node (token_bytes 0) (example_request "mcp://other") example_public ≠ Ok [].
Proof.
  assert (Hiff : ∀ req : RequestContext,
    authorize (minted_request_world member_token (5 * second)%Z example_node req example_own) ≠ ErrRun →
    decision (5 * second)%Z example_node (token_bytes 0) req example_public = Ok [] ↔
    rc_PeerID req = "12D3p1" ∧ (time_Unix (5 * second) ≤ time_Unix (1000 * second))%Z ∧
    local_checks_hold member_token (5 * second)%Z example_node req example_own ∧
    (locally_decided member_token (5 * second)%Z example_node req example_own (Some PolicyAllow) ∨
     (locally_decided member_token (5 * second)%Z example_node req example_own None ∧
      service_granted ["dev"] [Some dev_role] member_token req [Some ops_role] ops_bindings)) ∧
    target_reached ["dev"] [Some dev_role] member_token req example_own [Some ops_role] ops_bindings ∧
    actor_revoked example_node (minted_request_world member_token (5 * second)%Z example_node req example_own) = false).
  { intros req. apply (mesh_request (BT := example_tokens) _ _ _ _ _ _ _ _ _ _ _ member_token mint_member).
    - by vm_compute.
    - apply example_clear.
    - apply example_clear.
    - intros f ->%list_elem_of_singleton. by exists "node", "12D3p2".
    - by vm_compute.
    - apply ops_plain.
    - apply ops_bindings_ok.
    - intros r Hr. vm_compute in Hr. by apply not_elem_of_nil in Hr.
    - by vm_compute.
    - by vm_compute.
    - by vm_compute. }
  assert (Hlocal : ∀ req, local_checks_hold member_token (5 * second)%Z example_node req example_own ∧
    locally_decided member_token (5 * second)%Z example_node req example_own None).
  { intros req. split; [intros c Hc; by apply not_elem_of_nil in Hc|constructor]. }
  split_and!.
  - apply (Hiff (example_request "mcp://calc")); [by vm_compute|]. destruct (Hlocal (example_request "mcp://calc")) as [Hl Hd].
    split_and!; [by vm_compute|by vm_compute|exact Hl| |..|by vm_compute].
    + right. split; [exact Hd|]. left. exists "mcp://calc". split; [by vm_compute; left|by vm_compute].
    + right; right; left. exists ops_role. split; [by vm_compute; left|by left].
  - apply (Hiff (example_request "mcp://stats")); [by vm_compute|]. destruct (Hlocal (example_request "mcp://stats")) as [Hl Hd].
    split_and!; [by vm_compute|by vm_compute|exact Hl| |..|by vm_compute].
    + right. split; [exact Hd|]. left. exists "mcp://stats". split; [by vm_compute; right; left|by vm_compute].
    + right; right; left. exists ops_role. split; [by vm_compute; left|by left].
  - by vm_compute.
Defined.
