(* ===== verification/LabelsGate.v ===== *)
(** * The label gate

    Before a node sends a request to a provider it verifies the provider's
    credential against the labels the caller and the operator require, and that
    the credential grants serving the service; positive verdicts are cached
    ([src/internal/node/labels_gate.go]).  Reaching the provider is a parameter:
    what [fetchPeerBiscuit] returned.  The cache is an LRU of
    [hashicorp/golang-lru], which may evict: [LRU] is what is relied on. *)

From S2P Require Import Prelude GoStrings Regex Names Biscuit NaiveEngine Facts DatalogText Grants Labels HTTPGrants PolicyRules Egress Base64 Tar Token TokenModel Identity Middleware.

Definition CatalogTarget : string := "mesh.catalog".
Definition labelGateTTL : Z := (5 * 60 * second)%Z.

Definition ErrProviderUnreachable : error := NewError "provider unreachable".
Definition ErrProviderNotGranted : error := NewError "provider not granted the service".

(** The text and the HTTP status of a failure. *)
Definition labelGateStatus (err : error) (denied : string) : string * Z :=
  if errors_Is err ErrProviderUnreachable then ("Bad Gateway: destination did not answer", 502%Z) else (denied, 403%Z).

(** ** The cache key *)

(** The pairs of a label set, in the order of their keys. *)
Definition entries (m : gmap string string) : list (string * string) := (λ k, (k, map_get m k)) <$> sorted_keys m.

Fixpoint render (l : list (string * string)) : string :=
  match l with
  | [] => ""
  | (k, v) :: l => String "|" k +:+ String "=" v +:+ render l
  end.

Definition labelGateKey (peerID : string) (required floor : gmap string string) : string :=
  peerID +:+ render (entries required) +:+ "#floor" +:+ render (entries floor).

(** The key a verdict is cached under. *)
Definition providerKey (peerID : string) (required floor : gmap string string) (service : string) : string :=
  labelGateKey peerID required floor +:+ "=svc=" +:+ service.

(** ** The gate *)

(** [lru.Cache.Add]: the entry is added, and others may be evicted. *)
Class LRU := {
  lru_Add : gmap string time → string → time → gmap string time;
  lru_Add_spec c k v k' v' : lru_Add c k v !! k' = Some v' → (k' = k ∧ v' = v) ∨ c !! k' = Some v';
}.

Definition egressFloor (n : AgentMeshNode) : gmap string string :=
  match n_nodeConfig n with None => ∅ | Some c => nc_EgressRequireLabels c end.

Section gate.
Context `{UnicodeCase, TARCodec, BiscuitTokens, BiscuitText, UnicodePrint, BiscuitEngine, LRU}.

(** The check a non-empty label set becomes. *)
Definition label_checks (labels : gmap string string) : result (list check) :=
  if bool_decide (0 < size labels) then c ← LabelCheck labels; Ok [c] else Ok [].

Definition checkProvider (now : time) (n : AgentMeshNode) (providerBiscuit peerID : string)
    (required : gmap string string) (service : string) : result unit :=
  let floor := egressFloor n in
  fail_if (bool_decide (providerBiscuit = "")) "provider returned no identity biscuit; not an enrolled peer";;
  let trustedKeys := tk_Key <$> n_trustedKeys n in
  fail_if (bool_decide (length trustedKeys = 0)) "no trusted control plane keys loaded";;
  '(b, key) ← wrap_err "provider biscuit verification failed"
                (VerifyBiscuitAndGetKey now providerBiscuit peerID trustedKeys);
  wrap_err "provider is not enrolled as a node" (RequireRole b key RoleNode);;
  w ← wrap_err "provider authorizer instantiation failed" (Authorizer b key);
  required_checks ← label_checks required;
  floor_checks ← label_checks floor;
  let authorizer := AddPolicies (AddChecks (AddChecks w required_checks) floor_checks) [AllowIfTruePolicy] in
  fail_if (negb (bool_decide (authorize authorizer = Success))) "provider does not attest every label";;
  if negb (bool_decide (service = "")) && negb (bool_decide (service = "system://" +:+ CatalogTarget)) then
    let '(svcType, svcName) := ParseServiceTarget service in
    fail_if (bool_decide (svcType = "") || bool_decide (svcName = "")) "service must be <type>://<name>";;
    match RequirePublish b key svcType svcName (n_MeshPolicyRules n) with
    | Ok _ => Ok tt
    | Err e => Err (WrapError "" (JoinError ErrProviderNotGranted e))
    end
  else Ok tt.

Definition checkPeerLabels now n providerBiscuit peerID required : result unit :=
  checkProvider now n providerBiscuit peerID required "".

Definition VerifyProvider (now : time) (n : AgentMeshNode) (peerLabelGate : gmap string time) (fetched : result string)
    (peerID : string) (required : gmap string string) (service : string) : result unit * gmap string time :=
  let floor := egressFloor n in
  let key := providerKey peerID required floor service in
  if match peerLabelGate !! key with Some until => (now <? until)%Z | None => false end then (Ok tt, peerLabelGate)
  else match fetched with
  | Err e => (Err (WrapError "provider labels unverifiable" (JoinError ErrProviderUnreachable e)), peerLabelGate)
  | Ok providerBiscuit =>
      match checkProvider now n providerBiscuit peerID required service with
      | Err e => (Err e, peerLabelGate)
      | Ok _ => (Ok tt, lru_Add peerLabelGate key (now + labelGateTTL)%Z)
      end
  end.

Definition VerifyPeerLabels now n peerLabelGate fetched peerID required : result unit * gmap string time :=
  VerifyProvider now n peerLabelGate fetched peerID required "".
End gate.

(** ** The key tells requirements apart *)

(** The segments of a text between the "=" of its entries, with what stands
    before the first and what follows the last. *)
Fixpoint segments (cur : string) (l : list (string * string)) (after : list string) : list string :=
  match l with
  | [] => match after with [] => [cur] | y :: ys => (cur +:+ y) :: ys end
  | (k, v) :: l => (cur +:+ String "|" k) :: segments v l after
  end.

Definition no_eq (s : string) : Prop := "="%char ∉ chars s.

Lemma Split_cons s : ∃ h t, Split s "=" = h :: t.
Proof. induction s as [|c s IH]; simpl; [eauto|]. case_bool_decide; [eauto|]. destruct (Split s "="); eauto. Qed.

Lemma Split_app s t : no_eq s →
  Split (s +:+ t) "=" = match Split t "=" with [] => [s] | y :: ys => (s +:+ y) :: ys end.
Proof.
  unfold no_eq. induction s as [|c s IH]; intros Hs.
  - rewrite app_nil_l. destruct (Split_cons t) as (h & u & ->). by rewrite app_nil_l.
  - rewrite app_cons. simpl in Hs. apply not_elem_of_cons in Hs as [Hc Hs]. cbn [Split].
    rewrite bool_decide_false by done. rewrite IH by done. destruct (Split_cons t) as (h & u & ->). by rewrite app_cons.
Qed.

Lemma Split_sep s t : no_eq s → Split (s +:+ String "=" t) "=" = s :: Split t "=".
Proof. intros Hs. rewrite Split_app by done. simpl. by rewrite app_nil_r. Qed.

Lemma Split_inj s t : Split s "=" = Split t "=" → s = t.
Proof.
  revert t. induction s as [|c s IH]; intros [|d t]; [done|..].
  - simpl. case_bool_decide; [intros [= Ht]; destruct (Split_cons t) as (? & ? & Ht'); congruence|].
    by destruct (Split_cons t) as (? & ? & ->).
  - simpl. case_bool_decide; [intros [= Ht]; destruct (Split_cons s) as (? & ? & Ht'); congruence|].
    by destruct (Split_cons s) as (? & ? & ->).
  - cbn [Split]. destruct (Split_cons s) as (h1 & t1 & E1), (Split_cons t) as (h2 & t2 & E2). rewrite E1, E2.
    repeat case_bool_decide; subst; [intros [= -> ->]|done..|intros [= -> -> ->]]; f_equal; apply IH; by rewrite E1, E2.
Qed.

(** Every key is free of separators, every value of "=". *)
Definition entries_ok (l : list (string * string)) : Prop :=
  Forall (λ kv, no_eq kv.1 ∧ ("|"%char ∉ chars kv.1) ∧ no_eq kv.2) l.

Lemma Split_render cur l t :
  no_eq cur → entries_ok l → Split (cur +:+ render l +:+ t) "=" = segments cur l (Split t "=").
Proof.
  intros Hcur Hl. revert cur Hcur. induction Hl as [|[k v] l (Hk & _ & Hv) _ IH]; intros cur Hcur; cbn [render segments].
  - rewrite app_nil_l. by apply Split_app.
  - simpl in Hk, Hv. rewrite !app_assoc. rewrite <-(app_assoc cur (String "|" k)). rewrite app_cons, Split_sep.
    + f_equal. by apply IH.
    + unfold no_eq in *. rewrite chars_app, elem_of_app. simpl. rewrite elem_of_cons. naive_solver.
Qed.

Lemma segments_length cur l y ys : length (segments cur l (y :: ys)) = length l + S (length ys).
Proof. revert cur. induction l as [|[k v] l IH]; intros cur; simpl; [done|]. by rewrite IH. Qed.

(** After the entries come the segments that follow. *)
Lemma segments_after cur l y ys j : segments cur l (y :: ys) !! (length l + S j) = ys !! j.
Proof. revert cur. induction l as [|[k v] l IH]; intros cur; simpl; [done|]. apply IH. Qed.

(** A segment that is not the name of the service: it has a "|" or a "#". *)
Definition marked (s : string) : Prop := "|"%char ∈ chars s ∨ "#"%char ∈ chars s.

Lemma marked_app s t : marked s ∨ marked t → marked (s +:+ t).
Proof. unfold marked. rewrite chars_app, !elem_of_app. tauto. Qed.

(** The segments up to the last entry are marked, and so is the next when what
    follows begins with a mark. *)
Lemma segments_marked cur l y ys i s :
  marked y → segments cur l (y :: ys) !! i = Some s → i ≤ length l → marked s.
Proof.
  intros Hy. revert cur i. induction l as [|[k v] l IH]; intros cur i; simpl.
  - destruct i; [|simpl; lia]. intros [= <-] _. by apply marked_app; right.
  - destruct i as [|i]; simpl; [|intros Hs Hi; eapply IH; [done|lia]].
    intros [= <-] _. apply marked_app. right. left. by left.
Qed.

Section floor.
Context (floor : list (string * string)).

(** The segments from "#floor" to the service. *)
Definition tail_segments (service : list string) : list string := segments "#floor" floor ("" :: "svc" :: service).

Lemma tail_head service : ∃ y ys, tail_segments service = y :: ys ∧ marked y.
Proof.
  unfold tail_segments. destruct floor as [|[k v] l]; simpl; eexists _, _; (split; [done|]); right; by left.
Qed.

(** The service name stands at a fixed distance from the end of the entries. *)
Lemma tail_svc service : tail_segments service !! S (length floor) = Some "svc".
Proof. unfold tail_segments. rewrite <-Nat.add_1_r. by rewrite (segments_after _ _ _ _ 0). Qed.

(** Before it, only the value of the last pair of the floor is unmarked. *)
Lemma tail_marked service i s :
  tail_segments service !! i = Some s → i < length floor → marked s.
Proof.
  unfold tail_segments. assert (H : ∀ cur l y ys, segments cur l (y :: ys) !! i = Some s → i < length l → marked s).
  { clear. intros cur l y ys. revert cur i. induction l as [|[k v] l IH]; intros cur i Hs Hi; simpl in *; [lia|].
    destruct i as [|i]; simpl in Hs; [injection Hs as <-; apply marked_app; right; left; by left|]. eapply IH; [done|lia]. }
  apply H.
Qed.

Lemma tail_same service service' i : i ≤ length floor → tail_segments service !! i = tail_segments service' !! i.
Proof.
  unfold tail_segments. generalize "#floor". revert i. induction floor as [|[k v] l IH]; intros i cur Hi; simpl in *.
  - by destruct i; [|lia].
  - destruct i as [|i]; [done|]. apply IH. lia.
Qed.

Definition key_segments (l : list (string * string)) (service : list string) : list string :=
  segments "" l (tail_segments service).

Lemma key_tail l service j : 1 ≤ j → key_segments l service !! (length l + j) = tail_segments service !! j.
Proof.
  intros Hj. unfold key_segments. destruct (tail_head service) as (y & ys & -> & _). destruct j as [|j]; [lia|].
  by rewrite segments_after.
Qed.

Lemma key_marked l service i s :
  key_segments l service !! i = Some s → i ≤ length l → marked s.
Proof. unfold key_segments. destruct (tail_head service) as (y & ys & -> & Hy). by apply segments_marked. Qed.

Lemma svc_unmarked : ¬ marked "svc".
Proof. unfold marked. intros [H|H]; apply (bool_decide_pack _) in H; by vm_compute in H. Qed.

(** Keys with the same text have the same number of entries. *)
Lemma key_not_shorter l1 l2 s1 s2 :
  key_segments l1 s1 = key_segments l2 s2 → ¬ length l1 < length l2.
Proof.
  intros Heq Hlt. pose proof (key_tail l1 s1 (S (length floor)) ltac:(lia)) as H1. rewrite tail_svc, Heq in H1.
  destruct (decide (length l1 + S (length floor) ≤ length l2)) as [Hle|Hgt].
  { apply svc_unmarked. by eapply key_marked. }
  set (j := length l1 + S (length floor) - length l2).
  assert (Hj : length l1 + S (length floor) = length l2 + j) by lia. rewrite Hj, key_tail in H1 by lia.
  destruct (decide (j < length floor)) as [Hjf|Hjf]; [apply svc_unmarked; by eapply tail_marked|].
  assert (Ej : j = length floor) by lia. rewrite Ej in H1.
  assert (Hl2 : length l2 = S (length l1)) by lia.
  assert (H2 : key_segments l1 s1 !! (length l1 + length floor) = Some "svc").
  { rewrite key_tail by lia. rewrite <-H1. apply tail_same. lia. }
  rewrite Heq in H2. destruct (decide (length floor = 1)) as [E1|E1].
  - apply svc_unmarked. eapply key_marked; [exact H2|lia].
  - replace (length l1 + length floor) with (length l2 + (length floor - 1)) in H2 by lia.
    rewrite key_tail in H2 by lia. apply svc_unmarked. eapply tail_marked; [exact H2|lia].
Qed.

Lemma tail_inj s1 s2 : tail_segments s1 = tail_segments s2 → s1 = s2.
Proof.
  unfold tail_segments. generalize "#floor". induction floor as [|[k v] l IH]; intros cur; simpl; [by intros [= ?]|].
  intros [= He]. by eapply IH.
Qed.

(** The last separator splits a segment in one way. *)
Lemma last_bar c1 c2 k1 k2 :
  "|"%char ∉ chars k1 → "|"%char ∉ chars k2 → c1 +:+ String "|" k1 = c2 +:+ String "|" k2 → c1 = c2 ∧ k1 = k2.
Proof.
  intros Hk1 Hk2. revert c2. induction c1 as [|a c1 IH]; intros [|a' c2]; rewrite ?app_nil_l, ?app_cons; simpl.
  - by intros [= ->].
  - intros [= <- ->]. destruct Hk1. rewrite chars_app, elem_of_app. right. by left.
  - intros [= -> <-]. destruct Hk2. rewrite chars_app, elem_of_app. right. by left.
  - intros [= -> He]. by destruct (IH c2 He) as [-> ->].
Qed.

Lemma segments_inj cur1 cur2 l1 l2 y ys1 ys2 :
  entries_ok l1 → entries_ok l2 → length l1 = length l2 →
  segments cur1 l1 (y :: ys1) = segments cur2 l2 (y :: ys2) → cur1 = cur2 ∧ l1 = l2 ∧ ys1 = ys2.
Proof.
  intros Hl1. revert cur1 cur2 l2. induction Hl1 as [|[k1 v1] l1 (_ & Hk1 & _) _ IH]; intros cur1 cur2 [|[k2 v2] l2] Hl2 Hlen; try done.
  - simpl. intros [= He ->]. by apply app_inv_tail in He as ->.
  - apply Forall_cons in Hl2 as [(_ & Hk2 & _) Hl2]. simpl. intros [= He Hr]. apply last_bar in He as [-> ->]; [|done..].
    destruct (IH v1 v2 l2 Hl2 ltac:(simpl in Hlen; lia) Hr) as (-> & -> & ->). done.
Qed.

Lemma key_segments_inj l1 l2 s1 s2 :
  entries_ok l1 → entries_ok l2 → key_segments l1 s1 = key_segments l2 s2 → l1 = l2 ∧ s1 = s2.
Proof.
  intros Hl1 Hl2 Heq. assert (Hlen : length l1 = length l2).
  { pose proof (key_not_shorter _ _ _ _ Heq). pose proof (key_not_shorter _ _ _ _ (eq_sym Heq)). lia. }
  unfold key_segments in Heq. pose proof (tail_same s1 s2 0 ltac:(lia)) as Hh.
  destruct (tail_head s1) as (y1 & ys1 & E1 & _), (tail_head s2) as (y2 & ys2 & E2 & _).
  rewrite E1, E2 in Hh, Heq. injection Hh as <-. destruct (segments_inj _ _ _ _ _ _ _ Hl1 Hl2 Hlen Heq) as (_ & -> & ->).
  split; [done|]. apply tail_inj. congruence.
Qed.
End floor.

Lemma entries_valid m : labels_valid m → entries_ok (entries m).
Proof.
  intros Hm. apply Forall_forall. intros [k v] (k' & [= -> ->] & [w Hk]%elem_of_sorted_keys)%list_elem_of_fmap.
  rewrite (map_get_lookup _ _ _ Hk). destruct (Hm _ _ Hk) as [Hkey Hval]. unfold no_eq. simpl. split_and!.
  - apply label_key_no; [done|]. apply (bool_decide_unpack _). by vm_compute.
  - apply label_key_no; [done|]. apply (bool_decide_unpack _). by vm_compute.
  - apply label_value_no; [done|]. apply (bool_decide_unpack _). by vm_compute.
Qed.

Lemma entries_lookup m k v : (k, v) ∈ entries m ↔ m !! k = Some v.
Proof.
  unfold entries. rewrite list_elem_of_fmap. split.
  - intros (k' & [= -> ->] & [w Hk]%elem_of_sorted_keys). by rewrite (map_get_lookup _ _ _ Hk).
  - intros Hk. exists k. rewrite (map_get_lookup _ _ _ Hk), elem_of_sorted_keys. eauto.
Qed.

Lemma entries_inj m1 m2 : entries m1 = entries m2 → m1 = m2.
Proof. intros He. apply map_eq. intros k. apply option_eq. intros v. by rewrite <-!entries_lookup, He. Qed.

(** A peer ID in text is free of the marks of a key. *)
Definition plain_peer (p : string) : Prop := ¬ marked p.

Lemma peer_prefix_inj p1 p2 c1 c2 t1 t2 :
  plain_peer p1 → plain_peer p2 → marked (str1 c1) → marked (str1 c2) →
  p1 +:+ String c1 t1 = p2 +:+ String c2 t2 → p1 = p2 ∧ String c1 t1 = String c2 t2.
Proof.
  unfold plain_peer. revert p2. induction p1 as [|a p1 IH]; intros [|a' p2] Hp1 Hp2 Hc1 Hc2; rewrite ?app_nil_l, ?app_cons.
  - done.
  - intros [= -> _]. destruct Hp2. apply (marked_app (str1 a') p2). by left.
  - intros [= <- _]. destruct Hp1. apply (marked_app (str1 a) p1). by left.
  - intros [= -> He]. destruct (IH p2) as [-> ->]; try done; intros Hm; [apply Hp1|apply Hp2];
      by apply (marked_app (str1 _)); right.
Qed.

(** What follows the peer in a key begins with a mark. *)
Lemma key_rest l t : ∃ c r, render l +:+ "#floor" +:+ t = String c r ∧ marked (str1 c).
Proof.
  destruct l as [|[k v] l]; cbn [render].
  - eexists _, _. split; [rewrite app_nil_l; reflexivity|]. right. by left.
  - eexists _, _. split; [rewrite app_assoc, app_cons; reflexivity|]. left. by left.
Qed.

Lemma providerKey_shape p r floor s :
  providerKey p r floor s = p +:+ render (entries r) +:+ "#floor" +:+ (render (entries floor) +:+ "=svc=" +:+ s).
Proof. unfold providerKey, labelGateKey. by rewrite !app_assoc. Qed.

Lemma Split_providerKey r floor s :
  labels_valid r → labels_valid floor →
  Split (render (entries r) +:+ "#floor" +:+ (render (entries floor) +:+ "=svc=" +:+ s)) "=" =
  key_segments (entries floor) (entries r) (Split s "=").
Proof.
  intros Hr Hf. assert (He : no_eq "") by (by intros ?%not_elem_of_nil).
  pose proof (Split_render "" (entries r) ("#floor" +:+ (render (entries floor) +:+ "=svc=" +:+ s)) He (entries_valid _ Hr)) as H1.
  rewrite app_nil_l in H1. rewrite H1. unfold key_segments, tail_segments. f_equal.
  rewrite Split_render; [|intros Hin; apply (bool_decide_pack _) in Hin; by vm_compute in Hin|by apply entries_valid].
  by f_equal.
Qed.

Lemma providerKey_inj p1 p2 r1 r2 floor s1 s2 :
  plain_peer p1 → plain_peer p2 → labels_valid r1 → labels_valid r2 → labels_valid floor →
  providerKey p1 r1 floor s1 = providerKey p2 r2 floor s2 → p1 = p2 ∧ r1 = r2 ∧ s1 = s2.
Proof.
  intros Hp1 Hp2 Hr1 Hr2 Hf. rewrite !providerKey_shape.
  pose proof (Split_providerKey r1 floor s1 Hr1 Hf) as E1. pose proof (Split_providerKey r2 floor s2 Hr2 Hf) as E2.
  destruct (key_rest (entries r1) (render (entries floor) +:+ "=svc=" +:+ s1)) as (c1 & t1 & Ht1 & Hc1).
  destruct (key_rest (entries r2) (render (entries floor) +:+ "=svc=" +:+ s2)) as (c2 & t2 & Ht2 & Hc2).
  rewrite Ht1 in E1 |- *. rewrite Ht2 in E2 |- *. intros [-> Heq]%peer_prefix_inj; [|done..]. rewrite Heq, E2 in E1.
  apply key_segments_inj in E1 as [He Hs]; [|by apply entries_valid..].
  split_and!; [done|by apply entries_inj|by apply Split_inj].
Qed.

(** ** What a verdict stands for *)

Section verdict.
Context `{UC : UnicodeCase, TC : TARCodec, BT : BiscuitTokens, TX : BiscuitText, UP : UnicodePrint, BE : BiscuitEngine, LR : LRU}.

(** Labels that passed validation and that print as they are. *)
Definition labels_plain (m : gmap string string) : Prop :=
  labels_valid m ∧ ∀ k v, m !! k = Some v → printable v = true.

(** The credential [data] is bound to [peer] and unexpired under a key the node
    trusts, carries the node role, every label of the requirement and of the
    floor, and grants serving the service when one is named. *)
Definition provider_attests (now : time) (n : AgentMeshNode) (data peer : string)
    (required : gmap string string) (service : string) : Prop :=
  ∃ b key expiry w,
    verifyBiscuit now data peer (tk_Key <$> n_trustedKeys n) = Ok (b, key, expiry) ∧ Authorizer b key = Ok w ∧
    derives (authority b) (w_rules w) (Fact FactRole [VStr RoleNode]) ∧
    (∀ k v, required !! k = Some v ∨ egressFloor n !! k = Some v →
       derives (authority b) (w_rules w) (Fact FactLabel [VStr k; VStr v])) ∧
    (service = "" ∨ service = "system://" +:+ CatalogTarget ∨
     ∃ svcType svcName, ParseServiceTarget service = (svcType, svcName) ∧ svcType ≠ "" ∧ svcName ≠ "" ∧
       RequirePublish b key svcType svcName (n_MeshPolicyRules n) = Ok tt).

Lemma label_checks_Ok labels cs F R :
  labels_plain labels → label_checks labels = Ok cs → (∀ c, c ∈ cs → check_holds F R c) →
  ∀ k v, labels !! k = Some v → derives F R (Fact FactLabel [VStr k; VStr v]).
Proof.
  intros [Hv Hp] Hcs Hall k v Hk. unfold label_checks in Hcs.
  assert (Hne : labels ≠ ∅) by (intros ->; by rewrite lookup_empty in Hk).
  rewrite bool_decide_true in Hcs by (by apply Nat.neq_0_lt_0; rewrite map_size_empty_iff).
  rewrite LabelCheck_Ok in Hcs; [|done|intros k' v' Hk'; destruct (Hv k' v' Hk'); eauto].
  injection Hcs as <-. eapply label_check_holds; [|done]. apply Hall. by left.
Qed.

Lemma RequireRole_Ok b key role w :
  Authorizer b key = Ok w → RequireRole b key role = Ok tt → derives (authority b) (w_rules w) (Fact FactRole [VStr role]).
Proof.
  unfold RequireRole. intros Hb. rewrite Hb. cbn [wrap_err mbind result_bind]. rewrite fail_if_Ok, negb_false_iff, bool_decide_eq_true.
  intros [Hc _]%authorize_success. specialize (Hc (role_check role)). rewrite w_checks_AddPolicies, w_checks_AddChecks in Hc.
  destruct Hc as (q & ->%list_elem_of_singleton & σ & Hq & _); [apply elem_of_app; right; by left|].
  rewrite <-(proj1 (Authorizer_spec _ _ _ Hb)). apply (Hq (Pred FactRole [TVal (VStr role)])). by left.
Qed.

Lemma checkProvider_sound now n data peer required service :
  labels_plain required → labels_plain (egressFloor n) → checkProvider now n data peer required service = Ok tt →
  provider_attests now n data peer required service.
Proof.
  intros Hr Hf. unfold checkProvider. rewrite !bind_unit_Ok. intros (_ & _ & Hc).
  apply bind_Ok in Hc as ([b key] & Hv & Hc). apply wrap_err_Ok in Hv. unfold VerifyBiscuitAndGetKey in Hv.
  apply bind_Ok in Hv as ([[b' key'] expiry] & Hv & [= -> ->]). rewrite bind_unit_Ok, wrap_err_Ok in Hc. destruct Hc as [Hrole Hc].
  apply bind_Ok in Hc as (w & Hw & Hc). apply wrap_err_Ok in Hw.
  apply bind_Ok in Hc as (rc & Hrc & Hc). apply bind_Ok in Hc as (fc & Hfc & Hc). cbv zeta in Hc.
  rewrite bind_unit_Ok, fail_if_Ok, negb_false_iff, bool_decide_eq_true in Hc. destruct Hc as [Hau Hsvc].
  apply authorize_success in Hau as [Hch _]. unfold checks_hold in Hch. autorewrite with world in Hch.
  rewrite (proj1 (Authorizer_spec _ _ _ Hw)) in Hch. setoid_rewrite elem_of_app in Hch. setoid_rewrite elem_of_app in Hch.
  exists b, key, expiry, w. split_and!; [done|done|by eapply RequireRole_Ok| |].
  - intros k v [Hk|Hk]; [eapply (label_checks_Ok required)|eapply (label_checks_Ok (egressFloor n))]; eauto.
  - destruct (decide (service = "")) as [|Hne]; [by left|]. right.
    destruct (decide (service = "system://" +:+ CatalogTarget)) as [|Hnc]; [by left|]. right.
    rewrite !bool_decide_false in Hsvc by done. cbn [negb andb] in Hsvc.
    destruct (ParseServiceTarget service) as [t nm]. exists t, nm.
    rewrite bind_unit_Ok, fail_if_Ok, orb_false_iff, !bool_decide_eq_false in Hsvc. destruct Hsvc as [[Ht Hn] Hp].
    split_and!; [done..|]. by destruct (RequirePublish b key t nm _) as [[]|].
Qed.

(** ** Histories of calls *)

(** A call of the gate: when, the node's state, what reaching the provider
    gave, and what is asked. *)
Record GateCall := {
  gc_now : time;
  gc_node : AgentMeshNode;
  gc_fetched : result string;
  gc_peer : string;
  gc_required : gmap string string;
  gc_service : string;
}.

Definition gate_call (cache : gmap string time) (c : GateCall) : result unit * gmap string time :=
  VerifyProvider (gc_now c) (gc_node c) cache (gc_fetched c) (gc_peer c) (gc_required c) (gc_service c).

(** The cache a sequence of calls leaves. *)
Definition gate_run (calls : list GateCall) : gmap string time := foldl (λ cache c, (gate_call cache c).2) ∅ calls.

(** The inputs a caller can give under a floor that stays. *)
Definition call_ok (floor : gmap string string) (c : GateCall) : Prop :=
  plain_peer (gc_peer c) ∧ labels_plain (gc_required c) ∧ egressFloor (gc_node c) = floor.

Definition call_key (c : GateCall) : string :=
  providerKey (gc_peer c) (gc_required c) (egressFloor (gc_node c)) (gc_service c).

(** The call reached the provider and what it presented attests what was asked. *)
Definition call_attested (c : GateCall) : Prop :=
  ∃ data, gc_fetched c = Ok data ∧
    provider_attests (gc_now c) (gc_node c) data (gc_peer c) (gc_required c) (gc_service c).

Lemma gate_call_spec floor cache c cache' :
  labels_plain floor → call_ok floor c → gate_call cache c = (Ok tt, cache') →
  (∃ until, cache !! call_key c = Some until ∧ (gc_now c < until)%Z ∧ cache' = cache) ∨
  (call_attested c ∧ cache' = lru_Add cache (call_key c) (gc_now c + labelGateTTL)%Z).
Proof.
  intros Hf (_ & Hr & Hfl). unfold gate_call, VerifyProvider. fold (call_key c). destruct (cache !! call_key c) as [until|] eqn:Ek.
  - destruct (gc_now c <? until)%Z eqn:El; [intros [= <-]; apply Z.ltb_lt in El; eauto|].
    destruct (gc_fetched c) as [data|] eqn:Ef; [|done]. destruct (checkProvider _ _ _ _ _ _) as [[]|] eqn:Ec; [|done]. intros [= <-].
    right. split; [|done]. exists data. split; [done|]. apply checkProvider_sound; [done|by rewrite Hfl|done].
  - destruct (gc_fetched c) as [data|] eqn:Ef; [|done]. destruct (checkProvider _ _ _ _ _ _) as [[]|] eqn:Ec; [|done]. intros [= <-].
    right. split; [|done]. exists data. split; [done|]. apply checkProvider_sound; [done|by rewrite Hfl|done].
Qed.

Lemma gate_call_Err cache c e cache' : gate_call cache c = (Err e, cache') → cache' = cache.
Proof.
  unfold gate_call, VerifyProvider. destruct (match _ !! _ with Some _ => _ | None => _ end); [done|].
  destruct (gc_fetched c); [|by intros [= _ <-]]. destruct (checkProvider _ _ _ _ _ _); by intros [= _ <-].
Qed.

Lemma gate_run_entries floor calls key until :
  labels_plain floor → Forall (call_ok floor) calls → gate_run calls !! key = Some until →
  ∃ c, c ∈ calls ∧ call_attested c ∧ key = call_key c ∧ until = (gc_now c + labelGateTTL)%Z.
Proof.
  intros Hf. unfold gate_run. revert key until. induction calls as [|c calls IH] using rev_ind; intros key until Hok.
  { simpl. by rewrite lookup_empty. }
  apply Forall_app in Hok as [Hok [Hc _]%Forall_cons]. rewrite foldl_snoc. set (cache := foldl _ ∅ calls) in *.
  assert (Hold : cache !! key = Some until →
    ∃ c0, c0 ∈ calls ++ [c] ∧ call_attested c0 ∧ key = call_key c0 ∧ until = (gc_now c0 + labelGateTTL)%Z).
  { intros (c0 & Hin & Hrest)%IH; [|done]. exists c0. split; [apply elem_of_app; by left|done]. }
  destruct (gate_call cache c) as [[[]|e] cache'] eqn:Eg; cbn [snd].
  - destruct (gate_call_spec floor cache c cache' Hf Hc Eg) as [(u & _ & _ & ->)|[Hat ->]]; [done|].
    intros [[-> ->]|Ho]%lru_Add_spec; [|by apply Hold]. exists c. split_and!; [apply elem_of_app; right; by left|done..].
  - by apply gate_call_Err in Eg as ->.
Qed.

(** Whatever calls came before, and whatever the cache evicted, a node that
    the gate lets through to a provider verified, less than [labelGateTTL] ago
    or now, for this peer, this requirement and this service, a credential bound
    to the peer that carries the node role, attests every label of the
    requirement and of the operator's floor, and grants serving the service. *)
Theorem label_gate_fresh floor calls c cache' :
  labels_plain floor → Forall (call_ok floor) (calls ++ [c]) →
  gate_call (gate_run calls) c = (Ok tt, cache') →
  ∃ c', c' ∈ calls ++ [c] ∧ call_attested c' ∧ (gc_now c < gc_now c' + labelGateTTL)%Z ∧
    gc_peer c' = gc_peer c ∧ gc_required c' = gc_required c ∧ gc_service c' = gc_service c.
Proof.
  intros Hf Hall Hg. pose proof Hall as [Hcalls [Hc _]%Forall_cons]%Forall_app.
  destruct (gate_call_spec floor _ c cache' Hf Hc Hg) as [(until & Hu & Hlt & _)|[Hat _]].
  - destruct (gate_run_entries floor calls _ _ Hf Hcalls Hu) as (c' & Hin & Hat & Hkey & ->).
    exists c'. destruct Hc as (Hp & [Hr _] & Hfl). pose proof (proj1 (Forall_forall _ _) Hcalls _ Hin) as (Hp' & [Hr' _] & Hfl').
    unfold call_key in Hkey. rewrite Hfl, Hfl' in Hkey. apply providerKey_inj in Hkey as (-> & -> & ->); [|done..|by destruct Hf].
    split_and!; [apply elem_of_app; by left|done..].
  - exists c. split_and!; [apply elem_of_app; right; by left|done| |done..].
    change labelGateTTL with 300000000000%Z. lia.
Qed.
End verdict.

(** Two inputs of the label gate that differ in the caller's requirement and
    in the floor can share a key: the "#floor" of one can be read as part of a
    value of the other. *)
Theorem gate_key_collides :
  ∃ required floor required' floor',
    labels_valid required ∧ labels_valid floor ∧ labels_valid required' ∧ labels_valid floor' ∧
    (required, floor) ≠ (required', floor') ∧
    ∀ peer, labelGateKey peer required floor = labelGateKey peer required' floor'.
Proof.
  exists (list_to_map [("a", "x#floor"); ("b", "y")]), ∅, {[ "a" := "x" ]}, {[ "b" := "y#floor" ]}.
  assert (Hv : ∀ k v, ValidateLabelKey k = Ok tt → ValidateLabelValue v = Ok tt → labels_valid {[ k := v ]}).
  { intros k v Hk Hv k' v'. rewrite lookup_singleton_Some. by intros [<- <-]. }
  split_and!.
  - intros k v Hk%elem_of_list_to_map_2.
    apply elem_of_cons in Hk as [[= -> ->]|[= -> ->]%list_elem_of_singleton]; by vm_compute.
  - intros k v. by rewrite lookup_empty.
  - by apply Hv.
  - by apply Hv.
  - intros He. apply (f_equal (λ m, m.1 !! "b")) in He. by vm_compute in He.
  - intros peer. unfold labelGateKey. f_equal; by vm_compute.
Qed.

(** ** Example *)

#[local] Existing Instances ascii_case one_rule_codec naive_engine reference_text ascii_print.

(** A cache that evicts nothing. *)
#[local, refine] Instance lru_map : LRU := {| lru_Add c k v := <[k := v]> c |}.
Proof. intros c k v k' v'. rewrite lookup_insert_Some. intros [[<- <-]|[_ ?]]; auto. Defined.

Definition provider_token : toy := Toy example_key [
  Fact FactExpiration [biscuit_Date (1000 * second)%Z];
  Fact FactNode [VStr "12D3p2"];
  Fact FactLabel [VStr "region"; VStr "eu"];
  Fact FactRole [VStr RoleNode];
  Fact FactGrantedPublishSet [VStr "mcp"; VSet [AStr "calc"]] ] [] false.

Lemma provider_table_ok : table_ok [provider_token].
Proof. apply small_table_ok. simpl. lia. Qed.

#[local] Instance provider_tokens : BiscuitTokens := toy_tokens [provider_token] provider_table_ok.

Definition consumer : AgentMeshNode :=
  {| n_revokedPeers := Some ∅; n_revokedTokens := Some ∅; n_trustedKeys := [{| tk_Key := example_public; tk_ReceivedAt := 0%Z |}];
     n_nodeConfig := None; n_MeshPolicyRules := []; n_cachedIdentity := None; n_storedIdentity := None |}.

(** A call that reaches the provider, and one a minute later that does not. *)
Definition first_call : GateCall :=
  {| gc_now := (5 * second)%Z; gc_node := consumer; gc_fetched := Ok (token_bytes 0); gc_peer := "12D3p2";
     gc_required := labels_eu; gc_service := "mcp://calc" |}.
Definition second_call : GateCall :=
  {| gc_now := (65 * second)%Z; gc_node := consumer; gc_fetched := Err (NewError "dial"); gc_peer := "12D3p2";
     gc_required := labels_eu; gc_service := "mcp://calc" |}.

Lemma example_calls_ok c : gc_peer c = "12D3p2" → gc_required c = labels_eu → gc_node c = consumer → call_ok ∅ c.
Proof.
  intros Hp Hr Hn. unfold call_ok. rewrite Hp, Hr, Hn. split_and!; [|split|done].
  - unfold plain_peer, marked. intros [Hm|Hm]; apply (bool_decide_pack _) in Hm; by vm_compute in Hm.
  - intros k v [<- <-]%labels_eu_lookup. by vm_compute.
  - by intros k v [<- <-]%labels_eu_lookup.
Qed.

Lemma label_gate_fresh_witness :
  (gate_call (gate_run [first_call]) second_call).1 = Ok tt ∧
  ∃ c', c' ∈ [first_call; second_call] ∧ call_attested c' ∧ gc_peer c' = "12D3p2".
Proof.
  set (r := gate_call (gate_run [first_call]) second_call).
  assert (Hr : bool_decide (r.1 = Ok tt) = true) by (by vm_compute). apply bool_decide_eq_true in Hr.
  split; [exact Hr|]. destruct (label_gate_fresh ∅ [first_call] second_call r.2) as (c' & Hin & Hat & _ & Hp & _).
  - split; intros k v; by rewrite lookup_empty.
  - apply Forall_cons; split; [by apply example_calls_ok|]. apply Forall_singleton. by apply example_calls_ok.
  - rewrite <-Hr. apply surjective_pairing.
  - exists c'. auto.
Defined.
