(* ===== verification/Directory.v ===== *)
(** * The directory: parameters, keys and records

    The mesh's directory is kept by its routers: a record says that a provider
    serves what a key names, and lives for a time after its last announcement.
    Here are the parameters ([src/api/directory.go]), the keys
    ([src/api/directory_keys.go]) and the records a router holds
    ([src/internal/router/directory_store.go]), with the history of operations
    that the records stand for.  SHA-256, multiaddresses and the bytes of a
    peer ID are interfaces. *)

From S2P Require Import Prelude GoStrings Names Tar.

(** ** Parameters *)

(** A [time.Duration] is a signed 64-bit number of nanoseconds. *)
Definition wrap64 (z : Z) : Z := ((z + 2 ^ 63) mod 2 ^ 64 - 2 ^ 63)%Z.
Definition int64 (z : Z) : Prop := (- 2 ^ 63 ≤ z < 2 ^ 63)%Z.

Definition wrap32 (z : Z) : Z := ((z + 2 ^ 31) mod 2 ^ 32 - 2 ^ 31)%Z.

Lemma wrap64_id z : int64 z → wrap64 z = z.
Proof. unfold int64, wrap64. intros Hz. rewrite Z.mod_small; lia. Qed.

Lemma wrap32_id z : (- 2 ^ 31 ≤ z < 2 ^ 31)%Z → wrap32 z = z.
Proof. unfold wrap32. intros Hz. rewrite Z.mod_small; lia. Qed.

Definition DefaultDHTReplication : Z := 3.
Definition DefaultReprovideInterval : Z := (5 * 60 * second)%Z.
Definition recordTTLReprovideMultiple : Z := 3.

Definition RecordTTL (reprovide : Z) : Z := wrap64 (recordTTLReprovideMultiple * reprovide).

(** A [DirectoryParameters] message; a duration field is nil when unset. *)
Record DirectoryParameters := {
  dp_Replication : Z;
  dp_ReprovideInterval : option Z;
  dp_RecordTtl : option Z;
}.

Definition NewDirectoryParameters (replication reprovide : Z) : DirectoryParameters :=
  {| dp_Replication := wrap32 replication; dp_ReprovideInterval := Some reprovide; dp_RecordTtl := Some (RecordTTL reprovide) |}.

Definition ValidateDirectoryParameters (replication reprovide : Z) : result unit :=
  fail_if (replication <? 1)%Z "dht replication: at least one router must hold each record";;
  fail_if (reprovide <=? 0)%Z "dht reprovide interval must be positive".

Record DirectorySettings := {
  ds_Replication : Z;
  ds_Reprovide : Z;
  ds_RecordTTL : Z;
}.

Definition DefaultDirectorySettings : DirectorySettings :=
  {| ds_Replication := DefaultDHTReplication; ds_Reprovide := DefaultReprovideInterval;
     ds_RecordTTL := RecordTTL DefaultReprovideInterval |}.

Definition DirectorySettingsFrom (p : option DirectoryParameters) : DirectorySettings :=
  let s := DefaultDirectorySettings in
  match p with
  | None => s
  | Some p =>
      let s := if (1 <=? dp_Replication p)%Z
               then {| ds_Replication := dp_Replication p; ds_Reprovide := ds_Reprovide s; ds_RecordTTL := ds_RecordTTL s |} else s in
      let s := match dp_ReprovideInterval p with
               | Some d => if (0 <? d)%Z
                           then {| ds_Replication := ds_Replication s; ds_Reprovide := d; ds_RecordTTL := RecordTTL d |} else s
               | None => s
               end in
      match dp_RecordTtl p with
      | Some d => if (ds_Reprovide s <? d)%Z
                  then {| ds_Replication := ds_Replication s; ds_Reprovide := ds_Reprovide s; ds_RecordTTL := d |} else s
      | None => s
      end
  end.

(** The least interval three of which do not fit a duration. *)
Definition reprovide_limit : Z := (2 ^ 63 / 3)%Z.

(** Whatever parameters a control plane publishes, a member or router
    runs with at least one router per record and a positive interval; below
    97 years a record outlives its re-announcement, and parameters an operator
    set and that validate are the ones in force. *)
Theorem settings_usable p (s := DirectorySettingsFrom p) :
  (1 ≤ ds_Replication s)%Z ∧ (0 < ds_Reprovide s)%Z ∧
  ((ds_Reprovide s ≤ reprovide_limit)%Z → (ds_Reprovide s < ds_RecordTTL s)%Z) ∧
  ∀ replication reprovide,
    p = Some (NewDirectoryParameters replication reprovide) →
    ValidateDirectoryParameters replication reprovide = Ok tt → (replication < 2 ^ 31)%Z → (reprovide ≤ reprovide_limit)%Z →
    s = {| ds_Replication := replication; ds_Reprovide := reprovide; ds_RecordTTL := 3 * reprovide |}.
Proof.
  assert (Hid : ∀ d, (0 < d ≤ reprovide_limit)%Z → RecordTTL d = (3 * d)%Z).
  { intros d Hd. apply wrap64_id. change reprovide_limit with 3074457345618258602%Z in Hd. unfold int64. simpl. lia. }
  assert (Hd : (0 < DefaultReprovideInterval ≤ reprovide_limit)%Z) by (by vm_compute).
  split_and!.
  - subst s. destruct p as [[r [d|] [t|]]|]; simpl; repeat case_match; simpl; lia || by vm_compute.
  - subst s. destruct p as [[r [d|] [t|]]|]; simpl; repeat case_match; simpl; lia || by vm_compute.
  - subst s. destruct p as [[r [d|] [t|]]|]; simpl; repeat case_match; simpl in *; intros; rewrite ?Hid; try lia; by vm_compute.
  - intros r d -> Hv Hm Hl. unfold ValidateDirectoryParameters in Hv. rewrite bind_unit_Ok, !fail_if_Ok in Hv.
    destruct Hv as [Hr Hp]. subst s. cbn [NewDirectoryParameters DirectorySettingsFrom dp_Replication dp_ReprovideInterval dp_RecordTtl].
    rewrite wrap32_id, Hid by lia. destruct (Z.leb_spec 1 r), (Z.ltb_spec 0 d); [|lia..].
    cbn [ds_Reprovide]. by destruct (Z.ltb_spec d (3 * d)); [|lia].
Qed.

(** ** Keys *)

Class SHA256 := {
  sha256_Sum256 : string → string;
  sha256_length s : len (sha256_Sum256 s) = 32;
}.

Definition DirectoryKeyBytes : nat := 34.
Definition DirectoryMaxAddrs : nat := 32.

Section keys.
Context `{SHA256}.

Definition directoryKey (name : string) : string :=
  String (ascii_of_N 0x12) (String (ascii_of_N 0x20) (sha256_Sum256 name)).

Definition ServiceKey (t : ServiceType) (name : string) : result string :=
  typeStr ← ServiceTypeToString t;
  let parts := ["mesh:service"; typeStr] in
  let parts := if negb (bool_decide (name = "")) then parts ++ [name] else parts in
  Ok (directoryKey (Join parts ":")).

Definition PeerKey (p : string) : string := directoryKey ("mesh:peer:" +:+ p).

Definition ValidateDirectoryKey (key : string) : result unit :=
  fail_if (match key with
           | String a (String b _) => negb (len key =? DirectoryKeyBytes) || negb (bool_decide (a = ascii_of_N 0x12)) || negb (bool_decide (b = ascii_of_N 0x20))
           | _ => true
           end) "directory key must be a sha256 multihash".

Context `{UnicodeCase}.

Definition ServiceOfRecord (provider key service : string) : result (ServiceType * string) :=
  if bool_decide (service = "") then
    if negb (bool_decide (key = PeerKey provider))
    then fail "a record naming no service is the provider's own, under its peer key"
    else Ok (SERVICE_TYPE_UNSPECIFIED, "")
  else
    let '(typeStr, name) := ParseServiceTarget service in
    match ParseServiceType typeStr with
    | Err _ => fail "service must be <type>://<name>"
    | Ok t =>
        if bool_decide (t = SERVICE_TYPE_UNSPECIFIED) || bool_decide (name = "") || bool_decide (name = "*")
        then fail "service must be <type>://<name>"
        else
          k ← ServiceKey t name;
          if bool_decide (key = k) then Ok (t, name)
          else
            k ← ServiceKey t "";
            if bool_decide (key = k) then Ok (t, name)
            else fail "key is not the service's, by name or by type"
    end.
End keys.

(** ** Records *)

(** A [multiaddr.Multiaddr]: parsed, printed, split into its transport and
    the peer it names ("" when it names none), and given a peer suffix. *)
Class Multiaddr := {
  maddr : Type;
  maddr_eq_dec :: EqDecision maddr;
  NewMultiaddr : string → result maddr;
  maddr_String : maddr → string;
  SplitAddr : maddr → option maddr * string;
  Encapsulate_p2p : maddr → string → maddr;
}.

(** The bytes of a peer ID, which a peer's text encodes. *)
Class PeerBytes := {
  peer_bytes : string → string;
  peer_bytes_inj :: Inj (=) (=) peer_bytes;
}.

Section store.
Context `{MA : Multiaddr, PB : PeerBytes}.

Record directoryRecord := {
  dr_addrs : list maddr;
  dr_expires : time;
}.

Record recordStore := {
  rs_ttl : Z;
  rs_keys : gmap string (gmap string directoryRecord);
}.

Definition set_keys (s : recordStore) (keys : gmap string (gmap string directoryRecord)) : recordStore :=
  {| rs_ttl := rs_ttl s; rs_keys := keys |}.

Definition newRecordStore (ttl : Z) : recordStore := {| rs_ttl := ttl; rs_keys := ∅ |}.

(** The providers under a key; a missing map reads as an empty one. *)
Definition under (s : recordStore) (key : string) : gmap string directoryRecord := default ∅ (rs_keys s !! key).

Definition store_put (s : recordStore) (key p : string) (addrs : list maddr) (now : time) : recordStore :=
  set_keys s (<[key := <[p := {| dr_addrs := addrs; dr_expires := (now + rs_ttl s)%Z |}]> (under s key)]> (rs_keys s)).

Definition store_remove (s : recordStore) (key p : string) : bool * recordStore :=
  let providers := under s key in
  if negb (bool_decide (is_Some (providers !! p))) then (false, s)
  else
    let providers := delete p providers in
    (true, set_keys s (if bool_decide (size providers = 0) then delete key (rs_keys s) else <[key := providers]> (rs_keys s))).

(** A [peer.AddrInfo]. *)
Definition AddrInfo : Type := string * list maddr.

Definition peer_le (a b : AddrInfo) : Prop := String.le (peer_bytes a.1) (peer_bytes b.1).
#[global] Instance peer_le_dec : RelDecision peer_le.
Proof. intros a b. unfold peer_le. apply _. Defined.

Definition unexpired (now : time) (rec : directoryRecord) : bool := (now <? dr_expires rec)%Z.

Definition store_providers (s : recordStore) (key : string) (now : time) : list AddrInfo :=
  merge_sort peer_le
    (omap (λ '(p, rec), if negb (unexpired now rec) then None else Some (p, dr_addrs rec)) (map_to_list (under s key))).

(** One key of a sweep: what is left of its providers. *)
Definition sweep_key (now : time) (providers : gmap string directoryRecord) : option (gmap string directoryRecord) :=
  let providers := filter (λ '(_, rec), unexpired now rec = true) providers in
  if bool_decide (size providers = 0) then None else Some providers.

Definition store_size (s : recordStore) : nat := map_fold (λ _ providers n, n + size providers) 0 (rs_keys s).

Definition expired_count (now : time) (providers : gmap string directoryRecord) : nat :=
  size (filter (λ '(_, rec), unexpired now rec = false) providers).

Definition store_sweep (s : recordStore) (now : time) : nat * recordStore :=
  (map_fold (λ _ providers n, n + expired_count now providers) 0 (rs_keys s), set_keys s (omap (sweep_key now) (rs_keys s))).

Definition recordSweepInterval (ttl : Z) : Z := Z.max second (Z.min (Z.quot ttl 3) (60 * second)).

(** ** What the records stand for *)

(** An operation on the store. *)
Inductive store_op :=
| OpPut (key p : string) (addrs : list maddr) (now : time)
| OpRemove (key p : string)
| OpSweep (now : time).

Definition store_step (s : recordStore) (op : store_op) : recordStore :=
  match op with
  | OpPut key p addrs now => store_put s key p addrs now
  | OpRemove key p => (store_remove s key p).2
  | OpSweep now => (store_sweep s now).2
  end.

Definition store_run (ttl : Z) (ops : list store_op) : recordStore := foldl store_step (newRecordStore ttl) ops.

(** The abstract directory: the last announcement of each provider under each
    key that it has not withdrawn, with the time it was made. *)
Local Abbreviation announcements := (gmap (string * string) (list maddr * time)).

Definition announce (m : announcements) (op : store_op) : announcements :=
  match op with
  | OpPut key p addrs now => <[(key, p) := (addrs, now)]> m
  | OpRemove key p => delete (key, p) m
  | OpSweep _ => m
  end.

Definition announced (ops : list store_op) : announcements := foldl announce ∅ ops.

Definition sweep_time (op : store_op) : option time := match op with OpSweep now => Some now | _ => None end.

Definition lookup2 (s : recordStore) (key p : string) : option directoryRecord := under s key !! p.

(** The store's shape: no key without providers. *)
Definition no_empty_key (s : recordStore) : Prop := ∀ key providers, rs_keys s !! key = Some providers → providers ≠ ∅.
End store.

Section refinement.
Context `{MA : Multiaddr, PB : PeerBytes}.
Implicit Types s : recordStore.

Lemma lookup2_put s key p addrs now key' p' :
  lookup2 (store_put s key p addrs now) key' p' =
  if decide (key = key' ∧ p = p') then Some {| dr_addrs := addrs; dr_expires := (now + rs_ttl s)%Z |} else lookup2 s key' p'.
Proof.
  unfold lookup2, store_put, under. simpl. destruct (decide (key = key')) as [<-|Hk].
  - rewrite lookup_insert_eq. simpl. destruct (decide (p = p')) as [<-|Hp].
    + by rewrite lookup_insert_eq, decide_True.
    + by rewrite lookup_insert_ne, decide_False by naive_solver.
  - by rewrite lookup_insert_ne, decide_False by naive_solver.
Qed.

(** Replacing the providers of a key, or dropping the key with the last. *)
Lemma under_replace s key providers key' :
  under (set_keys s (if bool_decide (size providers = 0) then delete key (rs_keys s) else <[key := providers]> (rs_keys s))) key' =
  if decide (key = key') then providers else under s key'.
Proof.
  unfold under. simpl. destruct (decide (key = key')) as [<-|Hk]; case_bool_decide as Hs.
  - apply map_size_empty_iff in Hs as ->. by rewrite lookup_delete_eq.
  - by rewrite lookup_insert_eq.
  - by rewrite lookup_delete_ne.
  - by rewrite lookup_insert_ne.
Qed.

Lemma lookup2_remove s key p key' p' :
  lookup2 (store_remove s key p).2 key' p' = if decide (key = key' ∧ p = p') then None else lookup2 s key' p'.
Proof.
  unfold store_remove. case_bool_decide as Hp; cbn [negb snd].
  - unfold lookup2. rewrite under_replace. destruct (decide (key = key')) as [<-|Hk].
    + destruct (decide (p = p')) as [<-|Hne]; [by rewrite lookup_delete_eq, decide_True|].
      by rewrite lookup_delete_ne, decide_False by naive_solver.
    + by rewrite decide_False by naive_solver.
  - destruct (decide (key = key' ∧ p = p')) as [[<- <-]|]; [|done]. by apply eq_None_not_Some.
Qed.

Lemma under_sweep s now key :
  under (store_sweep s now).2 key = filter (λ '(_, rec), unexpired now rec = true) (under s key).
Proof.
  unfold under. simpl. rewrite lookup_omap. destruct (rs_keys s !! key) as [providers|]; simpl; [|by rewrite map_filter_empty].
  unfold sweep_key. case_bool_decide as Hs; [|done]. by apply map_size_empty_iff in Hs as ->.
Qed.

Lemma lookup2_sweep s now key p :
  lookup2 (store_sweep s now).2 key p =
  match lookup2 s key p with Some rec => if unexpired now rec then Some rec else None | None => None end.
Proof.
  unfold lookup2. rewrite under_sweep, map_lookup_filter. destruct (under s key !! p) as [rec|]; simpl; [|done].
  by destruct (unexpired now rec) eqn:E; case_guard.
Qed.

Lemma rs_ttl_step s op : rs_ttl (store_step s op) = rs_ttl s.
Proof. destruct op; simpl; [done|unfold store_remove; by case_match|done]. Qed.

Lemma store_step_no_empty s op : no_empty_key s → no_empty_key (store_step s op).
Proof.
  unfold no_empty_key. intros Hs key providers. destruct op as [k p addrs now|k p|now]; simpl.
  - rewrite lookup_insert_Some. intros [[<- <-]|[_ Hk]]; [apply insert_non_empty|eauto].
  - unfold store_remove. destruct (negb _); [eauto|]. cbn [snd set_keys rs_keys]. case_bool_decide as Hz.
    + intros [_ Hk]%lookup_delete_Some. eauto.
    + rewrite lookup_insert_Some. intros [[<- <-]|[_ Hk]]; [|eauto]. by rewrite <-map_size_empty_iff.
  - rewrite lookup_omap. destruct (rs_keys s !! key); simpl; [|done]. unfold sweep_key. case_bool_decide as Hz; [done|].
    intros [= <-]. by rewrite <-map_size_empty_iff.
Qed.

(** The store holds the last announcements, less those a sweep found expired. *)
Definition refines (ttl : Z) (ops : list store_op) (s : recordStore) : Prop :=
  rs_ttl s = ttl ∧ no_empty_key s ∧
  (∀ key p rec, lookup2 s key p = Some rec → ∃ addrs (t : time),
     announced ops !! (key, p) = Some (addrs, t) ∧ rec = {| dr_addrs := addrs; dr_expires := (t + ttl)%Z |}) ∧
  (∀ key p addrs (t : time), announced ops !! (key, p) = Some (addrs, t) →
     lookup2 s key p = Some {| dr_addrs := addrs; dr_expires := (t + ttl)%Z |} ∨
     ∃ sw, OpSweep sw ∈ ops ∧ (t + ttl ≤ sw)%Z).

Lemma refines_step ttl ops s op : refines ttl ops s → refines ttl (ops ++ [op]) (store_step s op).
Proof.
  intros (Ht & Hne & Hin & Hout). unfold refines, announced in *. rewrite rs_ttl_step, foldl_snoc.
  set (m := foldl announce ∅ ops) in *. split_and!; [done|by apply store_step_no_empty|..].
  - intros key p rec. destruct op as [k q addrs now|k q|now]; cbn [store_step announce].
    + rewrite lookup2_put, Ht. case_decide as Hd.
      { destruct Hd as [-> ->]. intros [= <-]. exists addrs, now. by rewrite lookup_insert_eq. }
      rewrite lookup_insert_ne by naive_solver. eauto.
    + rewrite lookup2_remove. case_decide as Hd; [done|]. rewrite lookup_delete_ne by naive_solver. eauto.
    + rewrite lookup2_sweep. destruct (lookup2 s key p) eqn:E; [|done]. case_match; [|done]. intros [= <-]. eauto.
  - intros key p addrs t. destruct op as [k q addrs' now|k q|now]; cbn [store_step announce].
    + rewrite lookup2_put, Ht, lookup_insert_Some. intros [[[= -> ->] [= -> ->]]|[Hd Hm]]; [left; by rewrite decide_True|].
      rewrite decide_False by naive_solver. apply Hout in Hm as [?|(sw & Hsw & ?)]; [by left|]. right. exists sw. set_solver.
    + rewrite lookup2_remove, lookup_delete_Some. intros [Hd Hm]. rewrite decide_False by naive_solver.
      apply Hout in Hm as [?|(sw & Hsw & ?)]; [by left|]. right. exists sw. set_solver.
    + intros Hm. rewrite lookup2_sweep. apply Hout in Hm as [->|(sw & Hsw & ?)]; [|right; exists sw; set_solver].
      unfold unexpired. simpl. destruct (Z.ltb_spec now (t + ttl)); [by left|]. right. exists now. set_solver.
Qed.

Lemma store_run_refines ttl ops : refines ttl ops (store_run ttl ops).
Proof.
  unfold store_run. induction ops as [|op ops IH] using rev_ind.
  - split_and!; [done|intros key providers; simpl; by rewrite lookup_empty| |].
    + intros key p rec. unfold lookup2, under. simpl. rewrite lookup_empty. simpl. by rewrite lookup_empty.
    + intros key p addrs t. unfold announced. simpl. by rewrite lookup_empty.
  - rewrite foldl_snoc. by apply refines_step.
Qed.

Lemma elem_of_store_providers s key now p addrs :
  (p, addrs) ∈ store_providers s key now ↔
  ∃ rec, lookup2 s key p = Some rec ∧ unexpired now rec = true ∧ dr_addrs rec = addrs.
Proof.
  unfold store_providers, lookup2. rewrite merge_sort_Permutation, list_elem_of_omap. split.
  - intros ([q rec] & Hq%elem_of_map_to_list & Hs). destruct (unexpired now rec) eqn:E; simpl in Hs; [|done].
    injection Hs as -> <-. eauto.
  - intros (rec & Hr & Hu & <-). exists (p, rec). rewrite elem_of_map_to_list. by rewrite Hu.
Qed.

Lemma NoDup_store_providers s key now : NoDup (store_providers s key now).*1.
Proof.
  unfold store_providers. rewrite merge_sort_Permutation.
  pose proof (NoDup_fst_map_to_list (under s key)) as Hn. induction (map_to_list (under s key)) as [|[p rec] l IH]; simpl; [constructor|].
  simpl in Hn. apply NoDup_cons in Hn as [Hp Hn]. destruct (negb (unexpired now rec)); [by apply IH|]. simpl.
  apply NoDup_cons. split; [|by apply IH]. contradict Hp. apply list_elem_of_fmap in Hp as ([q a] & -> & Hq).
  apply list_elem_of_omap in Hq as ([q' rec'] & Hq & Hs). destruct (negb _); [done|]. injection Hs as -> _.
  apply list_elem_of_fmap. by exists (q, rec').
Qed.

#[global] Instance peer_le_trans : Transitive peer_le.
Proof. intros a b c. unfold peer_le. apply transitivity. Qed.
#[global] Instance peer_le_total : Total peer_le.
Proof. intros a b. unfold peer_le. apply total, _. Qed.

(** C24: However records were announced, withdrawn and swept, a query answers
    exactly the providers whose last announcement under the key has not been
    withdrawn and is younger than the TTL, each once, at the addresses of that
    announcement, in the order of their peer IDs; the sweeps, none of which is
    later than the query, do not show. *)
Theorem directory_refines ttl ops key now :
  (∀ sw, OpSweep sw ∈ ops → (sw ≤ now)%Z) →
  (∀ p addrs, (p, addrs) ∈ store_providers (store_run ttl ops) key now ↔
              ∃ t : time, announced ops !! (key, p) = Some (addrs, t) ∧ (now < t + ttl)%Z) ∧
  NoDup (store_providers (store_run ttl ops) key now).*1 ∧
  StronglySorted peer_le (store_providers (store_run ttl ops) key now).
Proof.
  intros Hsw. destruct (store_run_refines ttl ops) as (_ & _ & Hin & Hout). split_and!.
  - intros p addrs. rewrite elem_of_store_providers. unfold unexpired. split.
    + intros (rec & Hr & Hu & <-). destruct (Hin _ _ _ Hr) as (a & t & Ha & ->). simpl in *. apply Z.ltb_lt in Hu. eauto.
    + intros (t & Ha & Ht). destruct (Hout _ _ _ _ Ha) as [Hl|(sw & Hs & Hle)]; [|apply Hsw in Hs; lia].
      eexists. split; [done|]. simpl. by rewrite Z.ltb_lt.
  - apply NoDup_store_providers.
  - apply (StronglySorted_merge_sort peer_le).
Qed.
End refinement.

(** ** Example *)

(** Addresses that are their text, and peers that are their bytes. *)
#[local] Instance text_addrs : Multiaddr :=
  {| maddr := string; NewMultiaddr s := if bool_decide (s = "") then fail "empty multiaddr" else Ok s; maddr_String s := s;
     SplitAddr s := (Some s, ""); Encapsulate_p2p s p := s +:+ "/p2p/" +:+ p |}.
#[local] Instance text_peers : PeerBytes := {| peer_bytes p := p |}.

Definition example_ops : list store_op :=
  [OpPut "k" "p2" ["/a"] 0%Z; OpPut "k" "p1" ["/b"] 10%Z; OpPut "k" "p3" ["/c"] 95%Z; OpRemove "k" "p3"; OpSweep 105%Z;
   OpPut "k" "p2" ["/d"] 106%Z].

Lemma directory_refines_witness : ("p2", ["/d"]) ∈ store_providers (store_run 100 example_ops) "k" 109%Z.
Proof.
  destruct (directory_refines 100 example_ops "k" 109%Z) as [Hiff _].
  - intros sw Hsw. repeat (apply elem_of_cons in Hsw as [[=]|Hsw]; [subst; lia|]).
    repeat (apply elem_of_cons in Hsw as [[=]|Hsw]). all: try (subst; lia). by apply not_elem_of_nil in Hsw.
  - apply Hiff. exists 106%Z. split; [by vm_compute|lia].
Defined.
