(* ===== verification/Keyring.v ===== *)
(** * Signing keys

    The control plane's signing keys: the keyring table and the rotation lock
    of its store ([src/internal/storage/sql_store.go]), the rotation that
    replicas share ([src/internal/controlplane/server.go]), the signed list of
    keys that members fetch ([src/api/trust.go], [/keys]), and the trust sets
    of routers and nodes that the list replaces.  A table is the list of its
    rows in the order of their ids; a transaction is one step.  Ed25519 and the
    deterministic encoding of a message are interfaces. *)

From S2P Require Import Prelude GoStrings Biscuit Tar Token Middleware Directory.

(** ** Signatures *)

Class Ed25519 := {
  ed_Public : PrivateKey → PublicKey;
  ed_Sign : PrivateKey → string → string;
  ed_Verify : PublicKey → string → string → bool;
  ed_Sign_spec priv msg : ed_Verify (ed_Public priv) msg (ed_Sign priv msg) = true;
}.

(** ** The keyring table *)

(** [t.UnixMilli()] *)
Definition UnixMilli (t : time) : Z := (t / 1000000)%Z.

Lemma UnixMilli_mono s t : (s ≤ t)%Z → (UnixMilli s ≤ UnixMilli t)%Z.
Proof. intros Hst. apply Z.div_le_mono; lia. Qed.

Record KeyRow := {
  kr_private : PrivateKey;
  kr_public : PublicKey;
  kr_expiration : option Z;  (** NULL for the current key *)
}.

Record KeyPair := {
  kp_Private : PrivateKey;
  kp_Public : PublicKey;
  kp_Expiration : option Z;  (** in milliseconds; the zero time when there is none *)
}.

Definition set_expiration (e : option Z) (r : KeyRow) : KeyRow :=
  {| kr_private := kr_private r; kr_public := kr_public r; kr_expiration := e |}.

Definition is_current (r : KeyRow) : bool := bool_decide (kr_expiration r = None).

(** [expiration <= ?], which is not true of NULL. *)
Definition expired_at (ms : Z) (r : KeyRow) : bool :=
  match kr_expiration r with Some e => (e <=? ms)%Z | None => false end.

(** [INSERT]: the public keys are unique. *)
Definition keyring_insert (rows : list KeyRow) (r : KeyRow) : result (list KeyRow) :=
  if existsb (λ r', bool_decide (kr_public r' = kr_public r)) rows
  then fail "UNIQUE constraint failed: keyring.public_key" else Ok (rows ++ [r]).

(** [INSERT ... ON CONFLICT (public_key) DO UPDATE] *)
Definition keyring_upsert (r : KeyRow) (rows : list KeyRow) : list KeyRow :=
  if existsb (λ r', bool_decide (kr_public r' = kr_public r)) rows
  then (λ r', if bool_decide (kr_public r' = kr_public r) then r else r') <$> rows
  else rows ++ [r].

(** [SELECT ... WHERE expiration IS NULL ORDER BY id DESC LIMIT 1] *)
Definition GetCurrentKey (rows : list KeyRow) : option (PrivateKey * PublicKey) :=
  match last (filter (λ r, is_current r = true) rows) with
  | Some r => Some (kr_private r, kr_public r)
  | None => None
  end.

Definition GetAllValidKeys (now : time) (rows : list KeyRow) : list KeyPair :=
  (λ r, {| kp_Private := kr_private r; kp_Public := kr_public r; kp_Expiration := kr_expiration r |})
    <$> filter (λ r, expired_at (UnixMilli now) r = false) rows.

Definition GetAllValidPublicKeys (now : time) (rows : list KeyRow) : list PublicKey :=
  kr_public <$> filter (λ r, expired_at (UnixMilli now) r = false) rows.

Definition RotateKeys (now : time) (rows : list KeyRow) (newPriv : PrivateKey) (newPub : PublicKey) (gracePeriod : Z)
  : result (list KeyRow) :=
  let expireTime := (now + gracePeriod)%Z in
  let rows := (λ r, if is_current r then set_expiration (Some (UnixMilli expireTime)) r else r) <$> rows in
  rows ← keyring_insert rows {| kr_private := newPriv; kr_public := newPub; kr_expiration := None |};
  Ok (filter (λ r, expired_at (UnixMilli now) r = false) rows).

(** 9999-12-31 00:00:00 UTC *)
Definition operatorKeyNoExpiry : time := (253402214400 * second)%Z.

Definition SetKeyring (now : time) (rows : list KeyRow) (current : PrivateKey * PublicKey)
    (verifying : list (PrivateKey * PublicKey)) (gracePeriod : Z) : result (list KeyRow) :=
  fail_if (bool_decide (current.2 = "")) "SetKeyring: no current key";;
  let rows := filter (λ r, expired_at (UnixMilli now) r = false) rows in
  let rows := foldl (λ rows k, keyring_upsert {| kr_private := k.1; kr_public := k.2;
                       kr_expiration := Some (UnixMilli operatorKeyNoExpiry) |} rows) rows verifying in
  let rows := keyring_upsert {| kr_private := current.1; kr_public := current.2; kr_expiration := None |} rows in
  let listed := (verifying.*2) ++ [current.2] in
  let grace := UnixMilli (now + gracePeriod)%Z in
  Ok ((λ r, if negb (bool_decide (kr_public r ∈ listed)) && match kr_expiration r with Some e => (grace <? e)%Z | None => true end
            then set_expiration (Some grace) r else r) <$> rows).

Definition SaveInitialKey (rows : list KeyRow) (priv : PrivateKey) (pub : PublicKey) : result (list KeyRow) :=
  if existsb is_current rows then Ok rows
  else keyring_insert rows {| kr_private := priv; kr_public := pub; kr_expiration := None |}.

(** ** The rotation lock *)

Definition ClaimKeyRotation (now : time) (interval : Z) (next_rotation_at : Z) : bool * Z :=
  if (next_rotation_at <=? UnixMilli now)%Z then (true, UnixMilli (now + interval)%Z) else (false, next_rotation_at).

Definition ReleaseKeyRotationClaim (now : time) (interval : Z) (next_rotation_at : Z) : Z :=
  if bool_decide (next_rotation_at = UnixMilli (now + interval)%Z) then UnixMilli now else next_rotation_at.

Definition ScheduleKeyRotationIfUnset (at_ : time) (next_rotation_at : Z) : bool * Z :=
  if bool_decide (next_rotation_at = 0%Z) then (true, UnixMilli at_) else (false, next_rotation_at).

(** The tables a replica works on. *)
Record KeyStore := { ks_keyring : list KeyRow; ks_next_rotation_at : Z }.

(** One check of a replica: [generated] is the pair it generated, or nothing
    when generating failed. *)
Definition rotateKeysIfDue (now : time) (interval gracePeriod : Z) (generated : option (PrivateKey * PublicKey))
    (s : KeyStore) : bool * KeyStore :=
  let '(claimed, next) := ClaimKeyRotation now interval (ks_next_rotation_at s) in
  let s := {| ks_keyring := ks_keyring s; ks_next_rotation_at := next |} in
  let released := {| ks_keyring := ks_keyring s;
                     ks_next_rotation_at := ReleaseKeyRotationClaim now interval (ks_next_rotation_at s) |} in
  if negb claimed then (false, s)
  else match generated with
  | None => (false, released)
  | Some (newPriv, newPub) =>
      match RotateKeys now (ks_keyring s) newPriv newPub gracePeriod with
      | Err _ => (false, released)
      | Ok rows => (true, {| ks_keyring := rows; ks_next_rotation_at := ks_next_rotation_at s |})
      end
  end.

(** The key an event is signed with: for [KEY_ROTATION] the one that retires
    last beside the new one. *)
Definition retiring_step (newPub : PublicKey) (retiring : option KeyPair) (kp : KeyPair) : option KeyPair :=
  match kp_Expiration kp with
  | None => retiring
  | Some e =>
      if bool_decide (kp_Public kp = newPub) then retiring
      else match retiring with
           | None => Some kp
           | Some r => match kp_Expiration r with
                       | Some e' => if (e' <? e)%Z then Some kp else retiring
                       | None => retiring
                       end
           end
  end.

Definition signingKeyFor (now : time) (rows : list KeyRow) (key_rotation : bool) (newPub : PublicKey) : option PrivateKey :=
  if negb key_rotation then fst <$> GetCurrentKey rows
  else match foldl (retiring_step newPub) None (GetAllValidKeys now rows) with
       | None => fst <$> GetCurrentKey rows
       | Some kp => Some (kp_Private kp)
       end.

(** ** The signed list of keys *)

Definition KeysResponseFreshness : Z := (5 * 60 * second)%Z.

Record KeysResponse := {
  kres_PublicKeys : list PublicKey;
  kres_SignTime : option Timestamp;
  kres_Signatures : list string;
}.

(** The deterministic encoding of the keys and the signing time. *)
Class KeysCodec := { marshal_keys : list PublicKey → option Timestamp → result string }.

(** [timestamppb.New] *)
Definition timestamp_New (t : time) : Timestamp :=
  {| ts_seconds := (t / second)%Z; ts_nanos := (t mod second)%Z; ts_unknown := "" |}.

Lemma AsTime_New t : AsTime (timestamp_New t) = t.
Proof. unfold AsTime, timestamp_New. simpl. pose proof (Z.div_mod t second ltac:(by vm_compute)). lia. Qed.

Section response.
Context `{KeysCodec, Ed25519}.

Definition KeysResponsePayload (resp : KeysResponse) : result string := marshal_keys (kres_PublicKeys resp) (kres_SignTime resp).

Definition SignKeysResponse (publicKeys : list PublicKey) (privateKeys : list PrivateKey) (now : time) : result KeysResponse :=
  fail_if (negb (length privateKeys =? length publicKeys)) "keys response has as many public keys as signing keys";;
  let resp := {| kres_PublicKeys := publicKeys; kres_SignTime := Some (timestamp_New now); kres_Signatures := [] |} in
  payload ← KeysResponsePayload resp;
  Ok {| kres_PublicKeys := publicKeys; kres_SignTime := kres_SignTime resp;
        kres_Signatures := (λ priv, ed_Sign priv payload) <$> privateKeys |}.

(** The loop over the listed keys: their sizes are checked, and whether a
    trusted one vouches is remembered. *)
Fixpoint verify_keys (trusted : list PublicKey) (payload : string) (verified : bool) (l : list (PublicKey * string)) : result bool :=
  match l with
  | [] => Ok verified
  | (kb, sig) :: l =>
      fail_if (negb (len kb =? PublicKeySize)) "keys response public key has invalid length";;
      verify_keys trusted payload
        (verified || existsb (λ t, bool_decide (t = kb) && ed_Verify kb payload sig) trusted) l
  end.

Definition VerifyKeysResponse (resp : KeysResponse) (trusted : list PublicKey) (now : time) : result (list PublicKey) :=
  fail_if (bool_decide (length trusted = 0)) "no trusted control plane key to verify /keys against";;
  fail_if (negb (length (kres_Signatures resp) =? length (kres_PublicKeys resp))) "keys response carries as many signatures as keys";;
  match kres_SignTime resp with
  | None => fail "keys response carries missing or invalid sign_time"
  | Some st =>
      fail_if (negb (IsValid st) || (time_Unix (AsTime st) <=? 0)%Z) "keys response carries missing or invalid sign_time";;
      let issued := AsTime st in
      fail_if ((KeysResponseFreshness <? now - issued)%Z || (KeysResponseFreshness <? issued - now)%Z)
        "keys response sign_time is outside the freshness window";;
      payload ← KeysResponsePayload resp;
      verified ← verify_keys trusted payload false (zip (kres_PublicKeys resp) (kres_Signatures resp));
      fail_if (negb verified) "keys response is not signed by any trusted control plane key";;
      Ok (kres_PublicKeys resp)
  end.

(** [GET /keys] *)
Definition HandleKeys (now : time) (rows : list KeyRow) : result KeysResponse :=
  let validKeys := GetAllValidKeys now rows in
  SignKeysResponse (kp_Public <$> validKeys) (kp_Private <$> validKeys) now.

Definition FetchKeys (answer : result KeysResponse) (trusted : list PublicKey) (now : time) : result (list PublicKey) :=
  resp ← answer;
  wrap_err "/keys response rejected" (VerifyKeysResponse resp trusted now).
End response.

(** ** Trust sets *)

(** The router's: the list replaces it. *)
Definition subsetOf (keys set : list PublicKey) : bool := forallb (λ key, existsb (λ c, bool_decide (key = c)) set) keys.

Definition samePublicKeys (a b : list PublicKey) : bool :=
  (length a =? length b) && forallb (λ k, existsb (λ c, bool_decide (k = c)) a) b.

(** The node's: the list replaces it, and a key that stays keeps the time it
    was received. *)
Definition publicKeysOf (keys : list TrustedKey) : list PublicKey := tk_Key <$> keys.

Definition containsTrustedKey (keys : list TrustedKey) (key : PublicKey) : bool :=
  existsb (λ tk, bool_decide (tk_Key tk = key)) keys.

Definition mergeTrustedKeys (existing : list TrustedKey) (fetched : list PublicKey) (now : time) : list TrustedKey :=
  (λ key, {| tk_Key := key;
             tk_ReceivedAt := match list_find (λ old, tk_Key old = key) existing with
                              | Some (_, old) => tk_ReceivedAt old
                              | None => now
                              end |}) <$> fetched.

Definition addTrustedKey (keys : list TrustedKey) (key : PublicKey) (now : time) : list TrustedKey :=
  if containsTrustedKey keys key then keys else keys ++ [{| tk_Key := key; tk_ReceivedAt := now |}].

(** The index of the key received last, the first of them on a tie. *)
Fixpoint newest_from (best_i : nat) (best : time) (i : nat) (keys : list TrustedKey) : nat :=
  match keys with
  | [] => best_i
  | tk :: keys => if (best <? tk_ReceivedAt tk)%Z then newest_from i (tk_ReceivedAt tk) (S i) keys
                  else newest_from best_i best (S i) keys
  end.

Definition newest (keys : list TrustedKey) : nat :=
  match keys with [] => 0 | tk :: keys => newest_from 0 (tk_ReceivedAt tk) 1 keys end.

Definition pruneTrustedKeys (keys : list TrustedKey) (now : time) (gracePeriod : Z) : list TrustedKey :=
  match keys with
  | [] => keys
  | _ => omap id (imap (λ i tk, if bool_decide (i = newest keys) || (now - tk_ReceivedAt tk <=? gracePeriod)%Z
                               then Some tk else None) keys)
  end.

Section sync.
Context `{KeysCodec, Ed25519}.

Definition syncTrustedKeys (existing : list TrustedKey) (answer : result KeysResponse) (now : time) : result (list TrustedKey) :=
  fail_if (bool_decide (length existing = 0)) "no trusted control plane keys to verify /keys against";;
  keys ← FetchKeys answer (publicKeysOf existing) now;
  fail_if (bool_decide (length keys = 0)) "/keys returned no keys";;
  Ok (mergeTrustedKeys existing keys now).
End sync.

(** ** Histories of the keyring *)

Inductive key_op :=
| KInit (priv : PrivateKey) (pub : PublicKey)
| KRotate (now : time) (priv : PrivateKey) (pub : PublicKey)
| KSet (now : time) (current : PrivateKey * PublicKey) (verifying : list (PrivateKey * PublicKey)).

(** A transaction that fails is rolled back. *)
Definition key_step (grace : Z) (rows : list KeyRow) (op : key_op) : list KeyRow :=
  match (match op with
         | KInit priv pub => SaveInitialKey rows priv pub
         | KRotate now priv pub => RotateKeys now rows priv pub grace
         | KSet now current verifying => SetKeyring now rows current verifying grace
         end) with
  | Ok rows => rows
  | Err _ => rows
  end.

Definition keyring_run (grace : Z) (ops : list key_op) : list KeyRow := foldl (key_step grace) [] ops.
