(* ===== verification/KeyringFacts.v ===== *)
(** * Theorems about the signing keys

    The keyring keeps one current key, a key that stops being current stays
    valid for the grace period, and a member that trusts the key that was
    current within it adopts the keys of today. *)

From S2P Require Import Prelude GoStrings Biscuit Tar Token Middleware Directory Keyring.

(** ** Rows *)

Lemma filter_one {A B} (f : A → B) (P : A → Prop) `{∀ x, Decision (P x)} l x :
  NoDup (f <$> l) → x ∈ l → (∀ y, y ∈ l → P y ↔ f y = f x) → filter P l = [x].
Proof.
  induction l as [|y l IH]; intros Hn Hx HP; [by apply not_elem_of_nil in Hx|].
  rewrite fmap_cons in Hn. apply NoDup_cons in Hn as [Hy Hn]. rewrite filter_cons.
  destruct (decide (P y)) as [HPy|HPy].
  - apply HP in HPy; [|by left]. assert (x = y) as ->.
    { apply elem_of_cons in Hx as [->|Hx]; [done|]. destruct Hy. rewrite HPy. by apply list_elem_of_fmap_2. }
    f_equal. apply elem_of_nil_inv. intros z [HPz Hz]%list_elem_of_filter. apply HP in HPz; [|by right].
    destruct Hy. rewrite <-HPz. by apply list_elem_of_fmap_2.
  - apply IH; [done| |intros z Hz; apply HP; by right]. apply elem_of_cons in Hx as [->|Hx]; [|done].
    destruct HPy. by apply HP; [left|].
Qed.

Lemma is_current_true r : is_current r = true ↔ kr_expiration r = None.
Proof. apply bool_decide_eq_true. Qed.

Lemma has_public rows k :
  existsb (λ r, bool_decide (kr_public r = k)) rows = true ↔ k ∈ kr_public <$> rows.
Proof.
  rewrite existsb_True, list_elem_of_fmap. setoid_rewrite bool_decide_eq_true. split; intros (r & ? & ?); eauto.
Qed.

Lemma upsert_publics r rows :
  kr_public <$> keyring_upsert r rows =
  if decide (kr_public r ∈ kr_public <$> rows) then kr_public <$> rows else (kr_public <$> rows) ++ [kr_public r].
Proof.
  unfold keyring_upsert. case_decide as Hin.
  - apply has_public in Hin as ->. rewrite <-list_fmap_compose. apply list_fmap_ext. intros i r' _. simpl.
    by case_bool_decide.
  - destruct (existsb _ rows) eqn:E; [by apply has_public in E|]. by rewrite fmap_app.
Qed.

Lemma upsert_NoDup r rows : NoDup (kr_public <$> rows) → NoDup (kr_public <$> keyring_upsert r rows).
Proof.
  intros Hn. rewrite upsert_publics. case_decide as Hin; [done|]. apply NoDup_app. split_and!; [done| |apply NoDup_singleton].
  by intros k Hk ->%list_elem_of_singleton.
Qed.

Lemma elem_of_upsert r rows r' :
  r' ∈ keyring_upsert r rows ↔ r' = r ∨ (r' ∈ rows ∧ kr_public r' ≠ kr_public r).
Proof.
  unfold keyring_upsert. destruct (existsb _ rows) eqn:E.
  - apply has_public, list_elem_of_fmap in E as (r0 & Hp & Hr0). rewrite list_elem_of_fmap. split.
    + intros (y & -> & Hy). case_bool_decide; auto.
    + intros [->|[Hr' Hne]]; [exists r0; by rewrite bool_decide_true|exists r'; by rewrite bool_decide_false].
  - rewrite elem_of_app, list_elem_of_singleton. split; [|tauto]. intros [Hr'| ->]; [|by left]. right. split; [done|].
    intros Hp. assert (Hc : existsb (λ r0, bool_decide (kr_public r0 = kr_public r)) rows = true); [|congruence].
    apply has_public. rewrite <-Hp. by apply list_elem_of_fmap_2.
Qed.

(** The row of a key the operator lists for verification. *)
Definition verifying_row (k : PrivateKey * PublicKey) : KeyRow :=
  {| kr_private := k.1; kr_public := k.2; kr_expiration := Some (UnixMilli operatorKeyNoExpiry) |}.
Definition current_row (k : PrivateKey * PublicKey) : KeyRow :=
  {| kr_private := k.1; kr_public := k.2; kr_expiration := None |}.

Lemma elem_of_upserts rows ks r :
  r ∈ foldl (λ rows k, keyring_upsert (verifying_row k) rows) rows ks →
  (∃ k, k ∈ ks ∧ r = verifying_row k) ∨ (r ∈ rows ∧ kr_public r ∉ ks.*2).
Proof.
  revert rows. induction ks as [|k ks IH]; intros rows; simpl; [intros Hr; right; by split; [|apply not_elem_of_nil]|].
  intros [(k' & Hk' & ->)|[[->|[Hr Hne]]%elem_of_upsert Hni]]%IH.
  - left. exists k'. by split; [right|].
  - left. exists k. by split; [left|].
  - right. split; [done|]. simpl. by apply not_elem_of_cons.
Qed.

Lemma upserts_keep rows ks p :
  p ∈ kr_public <$> rows → p ∈ kr_public <$> foldl (λ rows k, keyring_upsert (verifying_row k) rows) rows ks.
Proof.
  revert rows. induction ks as [|k ks IH]; intros rows Hp; simpl; [done|]. apply IH. rewrite upsert_publics.
  case_decide; [done|]. apply elem_of_app. by left.
Qed.

Lemma upserts_NoDup rows ks :
  NoDup (kr_public <$> rows) → NoDup (kr_public <$> foldl (λ rows k, keyring_upsert (verifying_row k) rows) rows ks).
Proof. revert rows. induction ks as [|k ks IH]; intros rows Hn; simpl; [done|]. by apply IH, upsert_NoDup. Qed.

Lemma NoDup_filter_publics (P : KeyRow → Prop) `{∀ r, Decision (P r)} rows :
  NoDup (kr_public <$> rows) → NoDup (kr_public <$> filter P rows).
Proof. intros Hn. eapply sublist_NoDup; [done|]. apply fmap_sublist, sublist_filter. Qed.

(** ** The steps *)

(** The last statement of [SetKeyring]. *)
Definition retire (listed : list PublicKey) (grace : Z) (r : KeyRow) : KeyRow :=
  if negb (bool_decide (kr_public r ∈ listed)) && match kr_expiration r with Some e => (grace <? e)%Z | None => true end
  then set_expiration (Some grace) r else r.

Lemma retire_public listed grace r : kr_public (retire listed grace r) = kr_public r.
Proof. unfold retire. by destruct (_ && _). Qed.
Lemma retire_private listed grace r : kr_private (retire listed grace r) = kr_private r.
Proof. unfold retire. by destruct (_ && _). Qed.

Lemma retire_publics listed grace (rows : list KeyRow) : kr_public <$> (retire listed grace <$> rows) = kr_public <$> rows.
Proof. rewrite <-list_fmap_compose. apply list_fmap_ext. intros. apply retire_public. Qed.

Definition fresh_rows (now : time) (rows : list KeyRow) : list KeyRow := filter (λ r, expired_at (UnixMilli now) r = false) rows.

Definition set_rows (now : time) (rows : list KeyRow) (current : PrivateKey * PublicKey) (verifying : list (PrivateKey * PublicKey)) : list KeyRow :=
  keyring_upsert (current_row current) (foldl (λ rows k, keyring_upsert (verifying_row k) rows) (fresh_rows now rows) verifying).

Lemma SetKeyring_Ok now rows current verifying grace rows' :
  SetKeyring now rows current verifying grace = Ok rows' ↔
  current.2 ≠ "" ∧ rows' = retire (verifying.*2 ++ [current.2]) (UnixMilli (now + grace)%Z) <$> set_rows now rows current verifying.
Proof.
  unfold SetKeyring. rewrite bind_unit_Ok, fail_if_Ok, bool_decide_eq_false. apply and_iff_compat_l.
  split; [intros Hr; apply (inj Ok) in Hr; by rewrite <-Hr|by intros ->].
Qed.

Definition retired (ms : Z) (r : KeyRow) : KeyRow := if is_current r then set_expiration (Some ms) r else r.

Lemma retired_public ms r : kr_public (retired ms r) = kr_public r.
Proof. unfold retired. by destruct (is_current r). Qed.

Lemma retired_publics ms (rows : list KeyRow) : kr_public <$> (retired ms <$> rows) = kr_public <$> rows.
Proof. rewrite <-list_fmap_compose. apply list_fmap_ext. intros. apply retired_public. Qed.

Lemma RotateKeys_Ok now rows priv pub grace rows' :
  RotateKeys now rows priv pub grace = Ok rows' ↔
  (pub ∉ kr_public <$> rows) ∧ rows' = fresh_rows now ((retired (UnixMilli (now + grace)%Z) <$> rows) ++ [current_row (priv, pub)]).
Proof.
  set (ms := UnixMilli (now + grace)%Z).
  assert (Hp : existsb (λ r, bool_decide (kr_public r = pub)) (retired ms <$> rows) = true ↔ pub ∈ (kr_public <$> rows)).
  { by rewrite has_public, retired_publics. }
  unfold RotateKeys, keyring_insert.
  match goal with |- context [existsb ?f ?l] =>
    change (existsb f l) with (existsb (λ r, bool_decide (kr_public r = pub)) (retired ms <$> rows)) end.
  destruct (existsb _ _).
  - split; [done|]. intros [Hn _]. by destruct Hn; apply Hp.
  - cbn [mbind result_bind]. split.
    + intros Hr. apply (inj Ok) in Hr as <-. split; [|done]. by rewrite <-Hp.
    + by intros [_ ->].
Qed.

(** One current key, and every public key once. *)
Definition keyring_ok (rows : list KeyRow) : Prop :=
  NoDup (kr_public <$> rows) ∧ ∃ r, filter (λ r, is_current r = true) rows = [r].

Lemma keyring_current rows r : filter (λ r, is_current r = true) rows = [r] →
  r ∈ rows ∧ kr_expiration r = None ∧ GetCurrentKey rows = Some (kr_private r, kr_public r).
Proof.
  intros Hf. assert (Hr : r ∈ filter (λ r, is_current r = true) rows) by (rewrite Hf; by left).
  apply list_elem_of_filter in Hr as [Hc%is_current_true Hr]. split_and!; [done..|]. unfold GetCurrentKey. by rewrite Hf.
Qed.

Lemma RotateKeys_ok now rows priv pub grace rows' :
  NoDup (kr_public <$> rows) → RotateKeys now rows priv pub grace = Ok rows' → keyring_ok rows'.
Proof.
  intros Hn [Hp ->]%RotateKeys_Ok. split.
  - apply NoDup_filter_publics. rewrite fmap_app, retired_publics.
    apply NoDup_app. split_and!; [done| |apply NoDup_singleton]. by intros k Hk ->%list_elem_of_singleton.
  - exists (current_row (priv, pub)). unfold fresh_rows. rewrite list_filter_filter, filter_app.
    assert (Hnone : filter (λ r, is_current r = true ∧ expired_at (UnixMilli now) r = false)
                      (retired (UnixMilli (now + grace)%Z) <$> rows) = []); [|by rewrite Hnone].
    apply elem_of_nil_inv. intros r [[Hc _] (r0 & -> & _)%list_elem_of_fmap]%list_elem_of_filter.
    apply is_current_true in Hc. unfold retired in Hc. destruct (is_current r0) eqn:E; [done|].
    apply is_current_true in Hc. congruence.
Qed.

Lemma elem_of_set_rows now rows current verifying r :
  r ∈ set_rows now rows current verifying →
  r = current_row current ∨ (kr_public r ≠ current.2 ∧
    ((∃ k, k ∈ verifying ∧ r = verifying_row k) ∨ (r ∈ fresh_rows now rows ∧ kr_public r ∉ verifying.*2))).
Proof. intros [->|[Hr Hne]]%elem_of_upsert; [by left|]. right. split; [done|]. by apply elem_of_upserts. Qed.

Lemma SetKeyring_ok now rows current verifying grace rows' :
  NoDup (kr_public <$> rows) → SetKeyring now rows current verifying grace = Ok rows' → keyring_ok rows'.
Proof.
  intros Hn [_ ->]%SetKeyring_Ok. set (listed := verifying.*2 ++ [current.2]). set (ms := UnixMilli (now + grace)%Z).
  assert (Hnd : NoDup (kr_public <$> (retire listed ms <$> set_rows now rows current verifying))).
  { rewrite retire_publics. by apply upsert_NoDup, upserts_NoDup, NoDup_filter_publics. }
  split; [done|]. exists (current_row current). apply (filter_one kr_public); [done|..].
  - apply list_elem_of_fmap. exists (current_row current). split; [|apply elem_of_upsert; by left].
    unfold retire. rewrite bool_decide_true; [done|]. apply elem_of_app. right. by left.
  - intros y (r & -> & Hr)%list_elem_of_fmap. rewrite retire_public, is_current_true. cbn [current_row kr_public].
    destruct (elem_of_set_rows _ _ _ _ _ Hr) as [->|[Hne Hrest]].
    { unfold retire. rewrite bool_decide_true; [done|]. apply elem_of_app. right. by left. }
    split; [|done]. intros Hc. unfold retire in Hc. destruct Hrest as [(k & Hk & ->)|[Hf Hv]].
    + by destruct (_ && _) in Hc.
    + rewrite bool_decide_false in Hc; [|unfold listed; rewrite elem_of_app, list_elem_of_singleton; tauto].
      cbn [negb andb] in Hc. destruct (kr_expiration r) eqn:Er; [|done]. case_match; [done|congruence].
Qed.

Lemma SaveInitialKey_ok rows priv pub rows' :
  NoDup (kr_public <$> rows) → SaveInitialKey rows priv pub = Ok rows' → keyring_ok rows ∨ rows = [] → keyring_ok rows'.
Proof.
  unfold SaveInitialKey. intros Hn Hs [[_ [r Hr]]| ->].
  - apply keyring_current in Hr as Hcur. destruct Hcur as (Hin & Hc & _).
    assert (He : existsb is_current rows = true).
    { apply existsb_True. exists r. by rewrite is_current_true. }
    rewrite He in Hs. apply (inj Ok) in Hs as <-. split; [done|eauto].
  - simpl in Hs. apply (inj Ok) in Hs as <-. split; [apply NoDup_singleton|by eexists].
Qed.

(** ** Reachable keyrings *)

Section history.
Context `{ED : Ed25519} (grace : Z).

(** A generated pair: the public key of the private one, at its size. *)
Definition key_pair (k : PrivateKey * PublicKey) : Prop := ed_Public k.1 = k.2 ∧ len k.2 = PublicKeySize.

Definition op_pairs (op : key_op) : Prop :=
  match op with
  | KInit priv pub | KRotate _ priv pub => key_pair (priv, pub)
  | KSet _ current verifying => key_pair current ∧ Forall key_pair verifying
  end.

Definition row_pair (r : KeyRow) : Prop := key_pair (kr_private r, kr_public r).

Lemma row_pairs_step rows op : op_pairs op → Forall row_pair rows → Forall row_pair (key_step grace rows op).
Proof.
  unfold key_step. intros Hop Hrows. destruct op as [priv pub|now priv pub|now current verifying].
  - unfold SaveInitialKey, keyring_insert. destruct (existsb _ rows); [done|]. destruct (existsb _ rows); [done|].
    apply Forall_app. split; [done|]. by apply Forall_singleton.
  - destruct (RotateKeys _ _ _ _ _) as [rows'|] eqn:E; [|done]. apply RotateKeys_Ok in E as [_ ->].
    apply Forall_forall. intros r [_ [(r0 & -> & Hr0)%list_elem_of_fmap| ->%list_elem_of_singleton]%elem_of_app]%list_elem_of_filter; [|done].
    apply (proj1 (Forall_forall _ _) Hrows) in Hr0. unfold row_pair, retired. by destruct (is_current r0).
  - destruct (SetKeyring _ _ _ _ _) as [rows'|] eqn:E; [|done]. apply SetKeyring_Ok in E as [_ ->].
    apply Forall_fmap, Forall_forall. intros r Hr. unfold row_pair, compose. rewrite retire_public, retire_private.
    destruct Hop as [Hc Hv]. destruct (elem_of_set_rows _ _ _ _ _ Hr) as [->|[_ [(k & Hk & ->)|[Hf _]]]].
    + by destruct current.
    + apply (proj1 (Forall_forall _ _) Hv) in Hk. by destruct k.
    + apply list_elem_of_filter in Hf as [_ Hf]. by apply (proj1 (Forall_forall _ _) Hrows) in Hf.
Qed.

Lemma keyring_step_ok rows op :
  op_pairs op → NoDup (kr_public <$> rows) → keyring_ok rows ∨ rows = [] → keyring_ok (key_step grace rows op).
Proof.
  unfold key_step. intros Hop Hn Hor. destruct op as [priv pub|now priv pub|now current verifying].
  - destruct (SaveInitialKey _ _ _) as [rows'|] eqn:E; [by eapply SaveInitialKey_ok|].
    destruct Hor as [?| ->]; [done|]. by simpl in E.
  - destruct (RotateKeys _ _ _ _ _) as [rows'|] eqn:E; [by eapply RotateKeys_ok|].
    destruct Hor as [?| ->]; [done|]. by simpl in E.
  - destruct (SetKeyring _ _ _ _ _) as [rows'|] eqn:E; [by eapply SetKeyring_ok|].
    exfalso. unfold SetKeyring in E. destruct Hop as [[_ Hl] _]. rewrite bool_decide_false in E; [done|].
    intros He. rewrite He in Hl. by vm_compute in Hl.
Qed.

Lemma keyring_run_ok ops :
  Forall op_pairs ops → ops ≠ [] → keyring_ok (keyring_run grace ops) ∧ Forall row_pair (keyring_run grace ops).
Proof.
  unfold keyring_run. induction ops as [|op ops IH] using rev_ind; [done|]. intros [Hops [Hop _]%Forall_cons]%Forall_app _.
  rewrite foldl_snoc. destruct (decide (ops = [])) as [->|Hne].
  - split; [apply keyring_step_ok; [done|constructor|by right]|by apply row_pairs_step].
  - destruct (IH Hops Hne) as [Hok Hp]. split; [|by apply row_pairs_step]. apply keyring_step_ok; [done|by destruct Hok|by left].
Qed.

(** C32: Whatever the replicas did, from the first key on the keyring holds
    every public key once, each with the private key it belongs to, and exactly
    one of them is current: the one that signs. *)
Theorem keyring_invariant ops :
  Forall op_pairs ops → ops ≠ [] →
  let rows := keyring_run grace ops in
  NoDup (kr_public <$> rows) ∧
  ∃ priv pub, GetCurrentKey rows = Some (priv, pub) ∧ ed_Public priv = pub ∧
    (∀ now, pub ∈ GetAllValidPublicKeys now rows) ∧
    ∀ r, r ∈ rows → kr_expiration r = None → kr_private r = priv ∧ kr_public r = pub.
Proof.
  intros Hops Hne rows. destruct (keyring_run_ok ops Hops Hne) as [[Hn [r Hr]] Hp]. split; [done|].
  destruct (keyring_current _ _ Hr) as (Hin & He & Hc). exists (kr_private r), (kr_public r). split_and!; [done|..].
  - by apply (proj1 (Forall_forall _ _) Hp).
  - intros now. apply list_elem_of_fmap_2, list_elem_of_filter. unfold expired_at. by rewrite He.
  - intros r' Hr' He'. assert (Hf : r' ∈ filter (λ r, is_current r = true) (keyring_run grace ops)).
    { apply list_elem_of_filter. by rewrite is_current_true. }
    rewrite Hr in Hf. by apply list_elem_of_singleton in Hf as ->.
Qed.

(** ** A key that was current *)

(** The key is current, or valid at least to [until]. *)
Definition kept (k : PublicKey) (until : Z) (rows : list KeyRow) : Prop :=
  ∃ r, r ∈ rows ∧ kr_public r = k ∧ (∀ e, kr_expiration r = Some e → until ≤ e)%Z.

Definition op_time (op : key_op) : option time :=
  match op with KInit _ _ => None | KRotate now _ _ | KSet now _ _ => Some now end.

Lemma fresh_kept k until now rows : (UnixMilli now < until)%Z → kept k until rows → kept k until (fresh_rows now rows).
Proof.
  intros Hnow (r & Hr & Hk & He). exists r. split_and!; [|done..]. apply list_elem_of_filter. split; [|done].
  unfold expired_at. destruct (kr_expiration r) as [e|]; [|done]. specialize (He e eq_refl). lia.
Qed.

Lemma upsert_kept k until x rows :
  (∀ e, kr_expiration x = Some e → until ≤ e)%Z → kept k until rows → kept k until (keyring_upsert x rows).
Proof.
  intros Hx (r & Hr & Hk & He). destruct (decide (kr_public r = kr_public x)) as [Hp|Hp].
  - exists x. split_and!; [apply elem_of_upsert; by left|congruence|done].
  - exists r. split_and!; [apply elem_of_upsert; by right|done..].
Qed.

Lemma upserts_kept k until ks rows :
  (until ≤ UnixMilli operatorKeyNoExpiry)%Z → kept k until rows →
  kept k until (foldl (λ rows k, keyring_upsert (verifying_row k) rows) rows ks).
Proof.
  intros Hu. revert rows. induction ks as [|x ks IH]; intros rows Hk; simpl; [done|]. apply IH, upsert_kept; [|done].
  by intros e [= <-].
Qed.

Lemma map_kept k until (f : KeyRow → KeyRow) rows :
  (∀ r, kr_public (f r) = kr_public r) →
  (∀ r, (∀ e, kr_expiration r = Some e → until ≤ e)%Z → ∀ e, kr_expiration (f r) = Some e → (until ≤ e)%Z) →
  kept k until rows → kept k until (f <$> rows).
Proof. intros Hp Hf (r & Hr & Hk & He). exists (f r). split_and!; [by apply list_elem_of_fmap_2|by rewrite Hp|by apply Hf]. Qed.

Lemma key_step_kept k until rows op :
  (until ≤ UnixMilli operatorKeyNoExpiry)%Z →
  (∀ now, op_time op = Some now → UnixMilli now < until ≤ UnixMilli (now + grace))%Z →
  kept k until rows → kept k until (key_step grace rows op).
Proof.
  intros Hmax Htime Hk. unfold key_step. destruct op as [priv pub|now priv pub|now current verifying].
  - unfold SaveInitialKey, keyring_insert. destruct (existsb _ rows); [done|]. destruct (existsb _ rows); [done|].
    destruct Hk as (r & Hr & Hk). exists r. split; [apply elem_of_app; by left|done].
  - destruct (Htime now eq_refl) as [Hlt Hle]. destruct (RotateKeys _ _ _ _ _) as [rows'|] eqn:E; [|done].
    apply RotateKeys_Ok in E as [_ ->]. apply fresh_kept; [done|].
    destruct (map_kept k until (retired (UnixMilli (now + grace)%Z)) rows) as (r & Hr & Hrest).
    + apply retired_public.
    + intros r Hr e. unfold retired. destruct (is_current r); [by intros [= <-]|apply Hr].
    + done.
    + exists r. split; [apply elem_of_app; by left|done].
  - destruct (Htime now eq_refl) as [Hlt Hle]. destruct (SetKeyring _ _ _ _ _) as [rows'|] eqn:E; [|done].
    apply SetKeyring_Ok in E as [_ ->]. apply map_kept.
    + apply retire_public.
    + intros r Hr e. unfold retire. destruct (_ && _); [by intros [= <-]|apply Hr].
    + apply upsert_kept; [done|]. apply upserts_kept; [done|]. by apply fresh_kept.
Qed.

Lemma kept_valid k until now rows : (UnixMilli now < until)%Z → kept k until rows → k ∈ GetAllValidPublicKeys now rows.
Proof.
  intros Hnow Hk. destruct (fresh_kept k until now rows Hnow Hk) as (r & Hr & <- & _). by apply list_elem_of_fmap_2.
Qed.

Lemma current_kept rows priv k until : GetCurrentKey rows = Some (priv, k) → kept k until rows.
Proof.
  unfold GetCurrentKey. destruct (last _) as [r|] eqn:E; [|done]. intros [= _ <-]. apply last_Some in E as [l E].
  assert (Hr : r ∈ filter (λ r, is_current r = true) rows) by (rewrite E; apply elem_of_app; right; by left).
  apply list_elem_of_filter in Hr as [Hc%is_current_true Hr]. exists r. split_and!; [done..|]. by rewrite Hc.
Qed.

(** The operations of a period in which the key is within its grace. *)
Definition within (t0 t : time) (op : key_op) : Prop := ∀ now, op_time op = Some now → (t0 ≤ now ≤ t)%Z.

Lemma run_kept k t0 t rows ops :
  (UnixMilli t < UnixMilli (t0 + grace) ≤ UnixMilli operatorKeyNoExpiry)%Z → Forall (within t0 t) ops →
  kept k (UnixMilli (t0 + grace)%Z) rows → kept k (UnixMilli (t0 + grace)%Z) (foldl (key_step grace) rows ops).
Proof.
  intros Ht Hops. revert rows. induction Hops as [|op ops Hop _ IH]; intros rows Hk; simpl; [done|]. apply IH.
  apply key_step_kept; [lia| |done]. intros now Hn%Hop.
  pose proof (UnixMilli_mono now t ltac:(lia)). pose proof (UnixMilli_mono (t0 + grace) (now + grace) ltac:(lia)). lia.
Qed.
End history.

(** ** The list of keys reaches who trusts one of them *)

Section distribution.
Context `{KC : KeysCodec, ED : Ed25519}.

Lemma verify_keys_Ok trusted payload verified l res :
  verify_keys trusted payload verified l = Ok res ↔
  Forall (λ ks, len ks.1 = PublicKeySize) l ∧
  res = verified || existsb (λ ks, existsb (λ t, bool_decide (t = ks.1) && ed_Verify ks.1 payload ks.2) trusted) l.
Proof.
  revert verified. induction l as [|[k s] l IH]; intros verified; simpl.
  - rewrite orb_false_r. split; [intros [= <-]; by split; [constructor|]|by intros [_ ->]].
  - rewrite bind_unit_Ok, fail_if_Ok, negb_false_iff, Nat.eqb_eq, IH, Forall_cons. simpl. rewrite orb_assoc. tauto.
Qed.

Lemma existsb_trusted trusted payload k s :
  existsb (λ t, bool_decide (t = k) && ed_Verify k payload s) trusted = true ↔ k ∈ trusted ∧ ed_Verify k payload s = true.
Proof.
  rewrite existsb_True. setoid_rewrite andb_true_iff. setoid_rewrite bool_decide_eq_true. split.
  - intros (t & Ht & -> & Hv). done.
  - intros [Hk Hv]. by exists k.
Qed.

(** What an accepted list says: it is complete as sent, fresh, and one of its
    keys was trusted and signed it. *)
Lemma VerifyKeysResponse_sound resp trusted now keys :
  VerifyKeysResponse resp trusted now = Ok keys →
  keys = kres_PublicKeys resp ∧ Forall (λ k, len k = PublicKeySize) keys ∧
  ∃ payload k s, KeysResponsePayload resp = Ok payload ∧ (k, s) ∈ zip keys (kres_Signatures resp) ∧
    k ∈ trusted ∧ ed_Verify k payload s = true.
Proof.
  unfold VerifyKeysResponse. rewrite !bind_unit_Ok, !fail_if_Ok, negb_false_iff, Nat.eqb_eq. intros (_ & Hlen & Hv).
  destruct (kres_SignTime resp) as [st|]; [|done]. rewrite !bind_unit_Ok in Hv. destruct Hv as (_ & _ & Hv).
  apply bind_Ok in Hv as (payload & Hp & Hv). apply bind_Ok in Hv as (verified & Hk & Hv).
  rewrite bind_unit_Ok, fail_if_Ok, negb_false_iff in Hv. destruct Hv as [-> Hv]. apply (inj Ok) in Hv as <-.
  apply verify_keys_Ok in Hk as [Hsize Hex]. split_and!; [done|..].
  - rewrite <-(fst_zip (kres_PublicKeys resp) (kres_Signatures resp)) by lia. by apply Forall_fmap.
  - symmetry in Hex. simpl in Hex. apply existsb_True in Hex as ([k s] & Hin & [Ht Hs]%existsb_trusted). eauto 10.
Qed.

(** The list the control plane serves. *)
Lemma HandleKeys_Ok now rows payload :
  marshal_keys (GetAllValidPublicKeys now rows) (Some (timestamp_New now)) = Ok payload →
  HandleKeys now rows = Ok {| kres_PublicKeys := GetAllValidPublicKeys now rows; kres_SignTime := Some (timestamp_New now);
    kres_Signatures := (λ r, ed_Sign (kr_private r) payload) <$> fresh_rows now rows |}.
Proof.
  intros Hm. unfold HandleKeys, SignKeysResponse, KeysResponsePayload. cbn [kres_PublicKeys kres_SignTime].
  assert (Hpub : kp_Public <$> GetAllValidKeys now rows = GetAllValidPublicKeys now rows).
  { unfold GetAllValidKeys. by rewrite <-list_fmap_compose. }
  rewrite Hpub, Hm. assert (Hlen : (length (kp_Private <$> GetAllValidKeys now rows) =? length (GetAllValidPublicKeys now rows)) = true).
  { rewrite <-Hpub, !length_fmap. apply Nat.eqb_refl. }
  rewrite Hlen. cbn [negb fail_if mbind result_bind]. unfold GetAllValidKeys. by rewrite <-!list_fmap_compose.
Qed.

Lemma zip_fmap_same {A B C} (f : A → B) (g : A → C) (l : list A) : zip (f <$> l) (g <$> l) = (λ x, (f x, g x)) <$> l.
Proof. induction l as [|x l IH]; [done|]. rewrite !fmap_cons. cbn. by f_equal. Qed.

(** A list that is served is accepted by whoever trusts one of its keys. *)
Lemma keys_roundtrip now now' rows trusted k :
  (∃ payload, marshal_keys (GetAllValidPublicKeys now rows) (Some (timestamp_New now)) = Ok payload) →
  Forall row_pair rows → k ∈ GetAllValidPublicKeys now rows → k ∈ trusted →
  IsValid (timestamp_New now) = true → (0 < time_Unix now)%Z → (Z.abs (now' - now) ≤ KeysResponseFreshness)%Z →
  FetchKeys (HandleKeys now rows) trusted now' = Ok (GetAllValidPublicKeys now rows).
Proof.
  intros [payload Hm] Hp Hk Ht Hv Hpos Hfresh. unfold FetchKeys. rewrite (HandleKeys_Ok _ _ _ Hm). cbn [mbind result_bind].
  apply wrap_err_Ok. unfold VerifyKeysResponse. cbn [kres_PublicKeys kres_SignTime kres_Signatures].
  rewrite bool_decide_false by (intros Hl; apply nil_length_inv in Hl; subst; by apply not_elem_of_nil in Ht).
  assert (Hlen : (length ((λ r, ed_Sign (kr_private r) payload) <$> fresh_rows now rows) =? length (GetAllValidPublicKeys now rows)) = true).
  { unfold GetAllValidPublicKeys. rewrite !length_fmap. apply Nat.eqb_refl. }
  rewrite Hlen, Hv, AsTime_New. destruct (Z.leb_spec (time_Unix now) 0); [lia|].
  destruct (Z.ltb_spec KeysResponseFreshness (now' - now)); [lia|]. destruct (Z.ltb_spec KeysResponseFreshness (now - now')); [lia|].
  cbn [negb orb fail_if mbind result_bind]. unfold KeysResponsePayload. cbn [kres_PublicKeys kres_SignTime]. rewrite Hm. cbn [mbind result_bind].
  unfold GetAllValidPublicKeys. fold (fresh_rows now rows). rewrite zip_fmap_same.
  assert (Hok : verify_keys trusted payload false ((λ r, (kr_public r, ed_Sign (kr_private r) payload)) <$> fresh_rows now rows) = Ok true).
  { apply verify_keys_Ok. assert (Hf : ∀ r, r ∈ fresh_rows now rows → row_pair r).
    { intros r [_ Hr]%list_elem_of_filter. by apply (proj1 (Forall_forall _ _) Hp). }
    split.
    - apply Forall_fmap, Forall_forall. intros r Hr. by destruct (Hf r Hr).
    - symmetry. simpl. apply existsb_True. apply list_elem_of_fmap in Hk as (r & -> & Hr).
      exists (kr_public r, ed_Sign (kr_private r) payload). split; [by apply list_elem_of_fmap; exists r|].
      apply existsb_trusted. split; [done|]. destruct (Hf r Hr) as [Hpub _]. simpl in *. rewrite <-Hpub. apply ed_Sign_spec. }
  rewrite Hok. done.
Qed.

Lemma syncTrustedKeys_Ok existing answer now keys k :
  k ∈ publicKeysOf existing → k ∈ keys → FetchKeys answer (publicKeysOf existing) now = Ok keys →
  ∃ merged, syncTrustedKeys existing answer now = Ok merged ∧ publicKeysOf merged = keys.
Proof.
  intros He Hk Hf. exists (mergeTrustedKeys existing keys now). unfold syncTrustedKeys. rewrite Hf.
  rewrite bool_decide_false by (intros Hl; apply nil_length_inv in Hl; subst; by apply not_elem_of_nil in He).
  cbn [fail_if mbind result_bind].
  rewrite bool_decide_false by (intros Hl; apply nil_length_inv in Hl; subst; by apply not_elem_of_nil in Hk).
  split; [done|]. unfold publicKeysOf, mergeTrustedKeys. rewrite <-list_fmap_compose. apply list_fmap_id.
Qed.

(** C17: A member that trusts the key that was current when it last looked, and
    looks again within the grace period, adopts exactly the keys valid now, the
    current one among them (a router as they are, a node with the times it
    received them), however often the keys were rotated, replaced by
    the operator, or initialised by another replica in between. *)
Theorem keys_sync_within_grace (grace : Z) ops ops' (t0 t now' : time) priv k existing :
  Forall op_pairs (ops ++ ops') → GetCurrentKey (keyring_run grace ops) = Some (priv, k) → k ∈ publicKeysOf existing →
  Forall (within t0 t) ops' → (UnixMilli t < UnixMilli (t0 + grace) ≤ UnixMilli operatorKeyNoExpiry)%Z →
  IsValid (timestamp_New t) = true → (0 < time_Unix t)%Z → (Z.abs (now' - t) ≤ KeysResponseFreshness)%Z →
  let rows := keyring_run grace (ops ++ ops') in
  (∃ payload, marshal_keys (GetAllValidPublicKeys t rows) (Some (timestamp_New t)) = Ok payload) →
  FetchKeys (HandleKeys t rows) (publicKeysOf existing) now' = Ok (GetAllValidPublicKeys t rows) ∧
  (∃ merged, syncTrustedKeys existing (HandleKeys t rows) now' = Ok merged ∧ publicKeysOf merged = GetAllValidPublicKeys t rows) ∧
  k ∈ GetAllValidPublicKeys t rows ∧
  ∃ priv' k', GetCurrentKey rows = Some (priv', k') ∧ k' ∈ GetAllValidPublicKeys t rows.
Proof.
  intros Hops Hcur Ht Hw Hms Hv Hpos Hfresh rows Hm.
  assert (Hk : k ∈ GetAllValidPublicKeys t rows).
  { apply (kept_valid k (UnixMilli (t0 + grace)%Z)); [lia|]. unfold rows, keyring_run. rewrite foldl_app.
    eapply run_kept; [done..|]. by eapply current_kept. }
  assert (Hne : ops ++ ops' ≠ []).
  { intros [-> _]%app_nil. by vm_compute in Hcur. }
  destruct (keyring_run_ok grace (ops ++ ops') Hops Hne) as [[Hn [r Hr]] Hp].
  assert (Hfetch : FetchKeys (HandleKeys t rows) (publicKeysOf existing) now' = Ok (GetAllValidPublicKeys t rows)) by (by eapply keys_roundtrip).
  split_and!; [done|by eapply syncTrustedKeys_Ok|done|].
  destruct (keyring_current _ _ Hr) as (Hin & He & Hc). exists (kr_private r), (kr_public r). split; [done|].
  apply list_elem_of_fmap_2, list_elem_of_filter. unfold expired_at. by rewrite He.
Qed.
End distribution.

(** ** One rotation per interval *)

Section rotation.
Context (interval grace : Z).

(** A check: its time and the pair it generated. *)
Definition check_run (s : KeyStore) (checks : list (time * option (PrivateKey * PublicKey))) : KeyStore :=
  foldl (λ s c, (rotateKeysIfDue c.1 interval grace c.2 s).2) s checks.

Lemma rotateKeysIfDue_rotated now generated s s' :
  rotateKeysIfDue now interval grace generated s = (true, s') →
  (ks_next_rotation_at s ≤ UnixMilli now)%Z ∧ ks_next_rotation_at s' = UnixMilli (now + interval)%Z.
Proof.
  unfold rotateKeysIfDue, ClaimKeyRotation. destruct (Z.leb_spec (ks_next_rotation_at s) (UnixMilli now)); simpl; [|done].
  destruct generated as [[priv pub]|]; [|done]. destruct (RotateKeys _ _ _ _ _); [|done]. by intros [= <-].
Qed.

Lemma rotateKeysIfDue_next bound now generated s :
  (0 ≤ interval)%Z → (bound ≤ ks_next_rotation_at s)%Z →
  (bound ≤ ks_next_rotation_at (rotateKeysIfDue now interval grace generated s).2)%Z.
Proof.
  intros Hi Hb. unfold rotateKeysIfDue, ClaimKeyRotation, ReleaseKeyRotationClaim.
  destruct (Z.leb_spec (ks_next_rotation_at s) (UnixMilli now)); simpl; [|done].
  pose proof (UnixMilli_mono now (now + interval) ltac:(lia)). rewrite bool_decide_true by done.
  destruct generated as [[priv pub]|]; [|simpl; lia]. destruct (RotateKeys _ _ _ _ _); simpl; lia.
Qed.

Lemma check_run_next bound s checks :
  (0 ≤ interval)%Z → (bound ≤ ks_next_rotation_at s)%Z → (bound ≤ ks_next_rotation_at (check_run s checks))%Z.
Proof.
  intros Hi. unfold check_run. revert s. induction checks as [|c checks IH]; intros s Hb; simpl; [done|].
  by apply IH, rotateKeysIfDue_next.
Qed.

(** Replicas that share a store rotate at most once per interval: after a
    rotation at [t1], whatever the replicas check in between, and whichever of
    their rotations fail and are released, the next rotation is at [t1] plus the
    interval or later; and a check rotates exactly when the rotation is due and
    the key it generated is new. *)
Theorem rotation_once_per_interval t1 g1 s s1 checks t2 g2 s2 :
  (0 ≤ interval)%Z → rotateKeysIfDue t1 interval grace g1 s = (true, s1) →
  rotateKeysIfDue t2 interval grace g2 (check_run s1 checks) = (true, s2) →
  (UnixMilli (t1 + interval) ≤ UnixMilli t2)%Z ∧
  (∀ t priv pub s', (rotateKeysIfDue t interval grace (Some (priv, pub)) s').1 = true ↔
     (ks_next_rotation_at s' ≤ UnixMilli t)%Z ∧ (pub ∉ kr_public <$> ks_keyring s')).
Proof.
  intros Hi [_ H1]%rotateKeysIfDue_rotated [H2 _]%rotateKeysIfDue_rotated. split.
  - etransitivity; [|exact H2]. apply check_run_next; [done|lia].
  - intros t priv pub s'. unfold rotateKeysIfDue, ClaimKeyRotation.
    destruct (Z.leb_spec (ks_next_rotation_at s') (UnixMilli t)); simpl; [|split; [done|lia]].
    destruct (RotateKeys t (ks_keyring s') priv pub grace) as [rows|] eqn:E; simpl.
    + apply RotateKeys_Ok in E as [? _]. done.
    + split; [done|]. intros [_ Hn]. assert (Hc : is_ok (RotateKeys t (ks_keyring s') priv pub grace) = true); [|by rewrite E in Hc].
      apply is_ok_true. eexists. by apply RotateKeys_Ok.
Qed.
End rotation.

(** ** Trust sets of nodes *)

Lemma newest_from_bound bi b i keys : newest_from bi b i keys = bi ∨ i ≤ newest_from bi b i keys < i + length keys.
Proof.
  revert bi b i. induction keys as [|tk keys IH]; intros bi b i; simpl; [by left|]. destruct (b <? tk_ReceivedAt tk)%Z.
  - destruct (IH i (tk_ReceivedAt tk) (S i)) as [->|?]; right; lia.
  - destruct (IH bi b (S i)) as [->|?]; [by left|right; lia].
Qed.

(** Pruning keeps every key within the grace period and never empties the
    set. *)
Lemma prune_keeps keys now gracePeriod :
  (∀ tk, tk ∈ keys → (now - tk_ReceivedAt tk ≤ gracePeriod)%Z → tk ∈ pruneTrustedKeys keys now gracePeriod) ∧
  (keys ≠ [] → pruneTrustedKeys keys now gracePeriod ≠ []) ∧
  (∀ tk, tk ∈ pruneTrustedKeys keys now gracePeriod → tk ∈ keys).
Proof.
  destruct keys as [|k0 ks]; [by split_and!|]. set (keys := k0 :: ks). unfold pruneTrustedKeys. fold keys.
  assert (Hin : ∀ i tk, keys !! i = Some tk → i = newest keys ∨ (now - tk_ReceivedAt tk ≤ gracePeriod)%Z →
    tk ∈ omap id (imap (λ i tk, if bool_decide (i = newest keys) || (now - tk_ReceivedAt tk <=? gracePeriod)%Z
                                then Some tk else None) keys)).
  { intros i tk Hi Hor. apply list_elem_of_omap. exists (Some tk). split; [|done]. apply list_elem_of_lookup. exists i.
    rewrite list_lookup_imap, Hi. simpl. f_equal. destruct Hor as [Hn|Hg]; [by rewrite bool_decide_true|].
    apply Z.leb_le in Hg as ->. by rewrite orb_true_r. }
  split_and!.
  - intros tk [i Hi]%list_elem_of_lookup Hg. eauto.
  - intros _ He. assert (Hlt : newest keys < length keys).
    { simpl. destruct (newest_from_bound 0 (tk_ReceivedAt k0) 1 ks) as [->|?]; lia. }
    apply lookup_lt_is_Some in Hlt as [tk Htk]. specialize (Hin _ _ Htk (or_introl eq_refl)). unfold keys in Hin, He.
    rewrite He in Hin. by apply not_elem_of_nil in Hin.
  - intros tk (o & Ho & Heq)%list_elem_of_omap. unfold id in Heq. subst o. apply list_elem_of_lookup in Ho as [i Hi].
    rewrite list_lookup_imap in Hi. destruct (keys !! i) as [x|] eqn:E; [|done]. simpl in Hi.
    destruct (_ || _); [|done]. injection Hi as ->. by eapply list_elem_of_lookup_2.
Qed.

(** ** Examples *)

(** Signatures in the open: a signature is the public key and the message. *)
#[local, refine] Instance open_signatures : Ed25519 :=
  {| ed_Public k := k; ed_Sign k m := k +:+ m; ed_Verify k m s := bool_decide (s = k +:+ m) |}.
Proof. intros k m. by apply bool_decide_eq_true. Defined.

#[local] Instance plain_payload : KeysCodec := {| marshal_keys keys _ := Ok (Join keys ",") |}.

Definition key1 : PublicKey := "a1234567890123456789012345678901".
Definition key2 : PublicKey := "b1234567890123456789012345678901".
Definition key3 : PublicKey := "c1234567890123456789012345678901".

Definition example_grace : Z := (3600 * second)%Z.
Definition example_first : list key_op := [KInit key1 key1].
Definition example_later : list key_op := [KRotate (200 * second)%Z key2 key2; KSet (300 * second)%Z (key3, key3) [(key2, key2)]].

Lemma example_pairs : Forall op_pairs (example_first ++ example_later).
Proof. repeat constructor. Qed.

Lemma keyring_invariant_witness :
  ∃ priv pub, GetCurrentKey (keyring_run example_grace (example_first ++ example_later)) = Some (priv, pub) ∧ ed_Public priv = pub.
Proof.
  destruct (keyring_invariant example_grace (example_first ++ example_later)) as (_ & priv & pub & Hc & Hp & _).
  - exact example_pairs.
  - discriminate.
  - exists priv, pub. split; [exact Hc|exact Hp].
Defined.

Lemma keys_sync_within_grace_witness :
  FetchKeys (HandleKeys (400 * second)%Z (keyring_run example_grace (example_first ++ example_later))) [key1] (401 * second)%Z
  = Ok [key1; key2; key3].
Proof.
  destruct (keys_sync_within_grace example_grace example_first example_later (100 * second)%Z (400 * second)%Z (401 * second)%Z
              key1 key1 [{| tk_Key := key1; tk_ReceivedAt := 0%Z |}]) as [Hf _].
  - exact example_pairs.
  - by vm_compute.
  - by left.
  - apply Forall_cons; split; [|apply Forall_singleton]; intros now [= <-]; unfold second; lia.
  - by vm_compute.
  - by vm_compute.
  - by vm_compute.
  - by vm_compute.
  - by eexists.
  - exact Hf.
Defined.

Lemma rotation_once_per_interval_witness :
  let s := {| ks_keyring := keyring_run example_grace example_first; ks_next_rotation_at := 5 |} in
  let s1 := (rotateKeysIfDue (10 * second)%Z (60 * second)%Z example_grace (Some (key2, key2)) s).2 in
  (UnixMilli (10 * second + 60 * second) ≤ UnixMilli (70 * second))%Z.
Proof.
  intros s s1.
  assert (H1 : rotateKeysIfDue (10 * second)%Z (60 * second)%Z example_grace (Some (key2, key2)) s = (true, s1)) by (by vm_compute).
  set (s2 := (rotateKeysIfDue (70 * second)%Z (60 * second)%Z example_grace (Some (key3, key3))
                (check_run (60 * second)%Z example_grace s1 [((20 * second)%Z, Some (key3, key3))])).2).
  apply (rotation_once_per_interval (60 * second)%Z example_grace (10 * second)%Z (Some (key2, key2)) s s1 [((20 * second)%Z, Some (key3, key3))]
    (70 * second)%Z (Some (key3, key3)) s2); [by vm_compute|exact H1|by vm_compute].
Defined.
