(* ===== verification/Router.v ===== *)
(** * Routers: admission, bans, keys and the directory

    A router's state and its handlers ([src/internal/router]): the handshakes
    that admit a peer, the relay's access checks, the bans, the trusted keys,
    the events of the control plane, and the directory requests of members and
    of other routers.  A handler reads the clock once.  What the network
    delivers (frames, the addresses of connected peers, the answers of other
    routers, the routing table of the DHT) is an argument; the connection
    manager and the metrics are not part of the state. *)

From S2P Require Import Prelude GoStrings Regex Names Biscuit NaiveEngine Facts DatalogText Grants Labels HTTPGrants PolicyRules Egress Base64 Tar Token Identity Middleware Directory Keyring.

(** ** State *)

(** The values of [authenticatedPeers]. *)
Inductive admission :=
| Until (exp : time)
| Flag (ok : bool).

Section router.
Context `{UC : UnicodeCase, TC : TARCodec, BT : BiscuitTokens, BE : BiscuitEngine, PC : PeerCodec, SH : SHA256, MA : Multiaddr, PB : PeerBytes}.

(** The router's own credential; [issuedUnder] is nil until it is pinned. *)
Record credential := {
  c_biscuit : string;
  c_expiration : time;
  c_issuedUnder : option (list PublicKey);
}.

Record Router := {
  r_RequiredRole : string;                          (** of the options *)
  r_authenticatedPeers : gmap string admission;
  r_credentials : gmap string (Biscuit * PublicKey);
  r_policy : option (list rule);
  r_bannedPeers : gmap string time;
  r_records : option recordStore;
  r_peerRouters : gset string;
  r_trustedPublicKeys : list PublicKey;
  r_credential : credential;
}.

Definition set_authenticated (r : Router) m : Router :=
  {| r_RequiredRole := r_RequiredRole r; r_authenticatedPeers := m; r_credentials := r_credentials r; r_policy := r_policy r;
     r_bannedPeers := r_bannedPeers r; r_records := r_records r; r_peerRouters := r_peerRouters r;
     r_trustedPublicKeys := r_trustedPublicKeys r; r_credential := r_credential r |}.
Definition set_credentials (r : Router) m : Router :=
  {| r_RequiredRole := r_RequiredRole r; r_authenticatedPeers := r_authenticatedPeers r; r_credentials := m; r_policy := r_policy r;
     r_bannedPeers := r_bannedPeers r; r_records := r_records r; r_peerRouters := r_peerRouters r;
     r_trustedPublicKeys := r_trustedPublicKeys r; r_credential := r_credential r |}.
Definition set_policy (r : Router) rules : Router :=
  {| r_RequiredRole := r_RequiredRole r; r_authenticatedPeers := r_authenticatedPeers r; r_credentials := r_credentials r; r_policy := rules;
     r_bannedPeers := r_bannedPeers r; r_records := r_records r; r_peerRouters := r_peerRouters r;
     r_trustedPublicKeys := r_trustedPublicKeys r; r_credential := r_credential r |}.
Definition set_banned (r : Router) m : Router :=
  {| r_RequiredRole := r_RequiredRole r; r_authenticatedPeers := r_authenticatedPeers r; r_credentials := r_credentials r; r_policy := r_policy r;
     r_bannedPeers := m; r_records := r_records r; r_peerRouters := r_peerRouters r;
     r_trustedPublicKeys := r_trustedPublicKeys r; r_credential := r_credential r |}.
Definition set_records (r : Router) s : Router :=
  {| r_RequiredRole := r_RequiredRole r; r_authenticatedPeers := r_authenticatedPeers r; r_credentials := r_credentials r; r_policy := r_policy r;
     r_bannedPeers := r_bannedPeers r; r_records := s; r_peerRouters := r_peerRouters r;
     r_trustedPublicKeys := r_trustedPublicKeys r; r_credential := r_credential r |}.
Definition set_peerRouters (r : Router) s : Router :=
  {| r_RequiredRole := r_RequiredRole r; r_authenticatedPeers := r_authenticatedPeers r; r_credentials := r_credentials r; r_policy := r_policy r;
     r_bannedPeers := r_bannedPeers r; r_records := r_records r; r_peerRouters := s;
     r_trustedPublicKeys := r_trustedPublicKeys r; r_credential := r_credential r |}.
Definition set_keys_credential (r : Router) keys c : Router :=
  {| r_RequiredRole := r_RequiredRole r; r_authenticatedPeers := r_authenticatedPeers r; r_credentials := r_credentials r; r_policy := r_policy r;
     r_bannedPeers := r_bannedPeers r; r_records := r_records r; r_peerRouters := r_peerRouters r;
     r_trustedPublicKeys := keys; r_credential := c |}.

(** ** Admission *)

Definition forgetPeer (r : Router) (p : string) : Router :=
  set_credentials (set_authenticated r (delete p (r_authenticatedPeers r))) (delete p (r_credentials r)).

(** A lapsed admission is forgotten when it is looked at. *)
Definition isPeerAuthenticated (now : time) (r : Router) (p : string) : bool * Router :=
  match r_authenticatedPeers r !! p with
  | None => (false, r)
  | Some (Until exp) => if negb (now <? exp)%Z then (false, forgetPeer r p) else (true, r)
  | Some (Flag ok) => (ok, r)
  end.

Definition admitPeer (r : Router) (p : string) (expiry : time) : Router :=
  set_authenticated r (<[p := Until expiry]> (r_authenticatedPeers r)).

Definition AdmittedUntil (now : time) (r : Router) (p : string) : time * bool :=
  match r_authenticatedPeers r !! p with
  | None => (zero_time, false)
  | Some (Until exp) => (exp, (now <? exp)%Z)
  | Some (Flag _) => (zero_time, false)
  end.

Definition is_banned (r : Router) (p : string) : bool := bool_decide (is_Some (r_bannedPeers r !! p)).

Definition InterceptPeerDial (r : Router) (p : string) : bool := negb (is_banned r p).
Definition InterceptSecured (r : Router) (p : string) : bool := negb (is_banned r p).

Definition AllowReserve (now : time) (r : Router) (p : string) : bool * Router :=
  if is_banned r p then (false, r) else isPeerAuthenticated now r p.

Definition AllowConnect (now : time) (r : Router) (src dest : string) : bool * Router :=
  if is_banned r src then (false, r)
  else if is_banned r dest then (false, r)
  else let '(ok, r) := isPeerAuthenticated now r src in
       if negb ok then (false, r) else isPeerAuthenticated now r dest.

Definition isAuthenticatedPeerRouter (now : time) (r : Router) (p : string) : bool * Router :=
  if negb (bool_decide (p ∈ r_peerRouters r)) then (false, r) else isPeerAuthenticated now r p.

Definition admitPeerRouter (r : Router) (p : string) : Router := set_peerRouters r ({[ p ]} ∪ r_peerRouters r).

(** How a handshake ended. *)
Inductive handshake :=
| handshakeOK (ourBiscuit : string)
| handshakeBanned
| handshakeRateLimited
| handshakeReadFailed
| handshakeInvalidFrame
| handshakeUnauthorized.

(** What the limiter and the stream gave: whether the limiter allowed the
    attempt, the frame, and the credential it decodes to.  The handshake is one
    step at the time the credential is verified: that the router may record a
    ban between its first check and the arrival of the frame is not told apart
    from a ban recorded after the handshake. *)
Definition HandleAuthHandshake (now : time) (r : Router) (remotePeer : string) (allowed : bool)
    (frame : result (result string)) : handshake * Router :=
  if is_banned r remotePeer then (handshakeBanned, r)
  else if negb allowed then (handshakeRateLimited, r)
  else match frame with
  | Err _ => (handshakeReadFailed, r)
  | Ok (Err _) => (handshakeInvalidFrame, r)
  | Ok (Ok exchange) =>
      match VerifyBiscuitAdmission now exchange remotePeer (r_trustedPublicKeys r) with
      | Err _ => (handshakeUnauthorized, r)
      | Ok (b, verifyingKey, expiry) =>
          let r := admitPeer r remotePeer expiry in
          let r := set_credentials r (<[remotePeer := (b, verifyingKey)]> (r_credentials r)) in
          let r := if is_ok (RequireRole b verifyingKey RoleRouter) then admitPeerRouter r remotePeer else r in
          (handshakeOK (c_biscuit (r_credential r)), r)
      end
  end.

(** An [AuthResponse]. *)
Record AuthResponse := { ar_Success : bool; ar_Biscuit : string }.

Definition performMutualAuth (now : time) (r : Router) (remotePeer : string) (answer : result AuthResponse) : result unit * Router :=
  let checked : result time :=
    fail_if (is_banned r remotePeer) "peer is banned";;
    resp ← answer;
    fail_if (negb (ar_Success resp)) "mutual auth handshake rejected";;
    fail_if (bool_decide (length (r_trustedPublicKeys r) = 0)) "no trusted control plane keys loaded";;
    '(b, verifyingKey) ← wrap_err "failed to verify peer router biscuit"
                           (VerifyBiscuitAndGetKey now (ar_Biscuit resp) remotePeer (r_trustedPublicKeys r));
    wrap_err "remote peer lacks router authorization role" (RequireRole b verifyingKey (r_RequiredRole r));;
    wrap_err "failed to extract peer router biscuit expiry"
      (VerifyBiscuitAndGetExpiry now (ar_Biscuit resp) remotePeer [verifyingKey]) in
  match checked with
  | Err e => (Err e, r)
  | Ok expiry => (Ok tt, admitPeerRouter (admitPeer r remotePeer expiry) remotePeer)
  end.

(** The last connection of a peer closed, or the router sent it away. *)
Definition disconnected (r : Router) (p : string) : Router := forgetPeer r p.

(** ** Bans and events *)

Definition meshEventFreshness : Z := (5 * 60 * second)%Z.

Inductive MeshEvent_Type := BANNED | KEY_ROTATION | POLICY_UPDATE.

Record MeshEvent := {
  me_Type : MeshEvent_Type;
  me_PeerId : string;
  me_EventTime : option Timestamp;
  me_NewPublicKey : string;
  me_Signature : string;
}.

Inductive ValidationResult := ValidationAccept | ValidationReject | ValidationIgnore.

(** The deterministic encoding of an event without its signature. *)
Class EventCodec := { marshal_event : MeshEvent_Type → string → option Timestamp → string → result string }.

Definition verifyEvent `{EventCodec, Ed25519} (keys : list PublicKey) (event : MeshEvent) : bool :=
  match marshal_event (me_Type event) (me_PeerId event) (me_EventTime event) (me_NewPublicKey event) with
  | Err _ => false
  | Ok data => existsb (λ pubKey, (len pubKey =? PublicKeySize) && ed_Verify pubKey data (me_Signature event)) keys
  end.

(** The event as the message decodes to. *)
Definition validateMeshEvent `{EventCodec, Ed25519} (now : time) (keys : list PublicKey) (event : result MeshEvent) : ValidationResult :=
  match event with
  | Err _ => ValidationReject
  | Ok event =>
      if negb (verifyEvent keys event) then ValidationReject
      else match me_EventTime event with
      | None => ValidationReject
      | Some t => if (meshEventFreshness <? now - AsTime t)%Z || (meshEventFreshness <? AsTime t - now)%Z
                  then ValidationIgnore else ValidationAccept
      end
  end.

(** An event the subscription delivered; the flag says that a sync is asked
    for. *)
Definition handleEvent (now : time) (r : Router) (event : MeshEvent) : Router * bool :=
  match me_Type event with
  | BANNED =>
      if negb (bool_decide (me_PeerId event = "")) then
        match peer_Decode (me_PeerId event) with
        | Ok bannedPeer =>
            let r := forgetPeer r bannedPeer in
            (set_banned r (<[bannedPeer := now]> (r_bannedPeers r)), false)
        | Err _ => (r, false)
        end
      else (r, false)
  | KEY_ROTATION | POLICY_UPDATE => (r, true)
  end.

(** One peer the control plane lists as banned. *)
Definition apply_ban (fetchedAt : time) (r : Router) (p : string) : Router :=
  if bool_decide (is_Some (r_bannedPeers r !! p)) then r
  else forgetPeer (set_banned r (<[p := fetchedAt]> (r_bannedPeers r))) p.

Definition decode_peers (peerIDs : list string) : list string :=
  omap (λ id, match peer_Decode id with Ok p => Some p | Err _ => None end) peerIDs.

Definition reconcileBannedPeers (r : Router) (peerIDs : list string) (fetchedAt : time) : Router :=
  let banned := decode_peers peerIDs in
  let r := set_banned r (filter (λ '(p, bannedAt), p ∈ banned ∨ (fetchedAt ≤ bannedAt)%Z) (r_bannedPeers r)) in
  foldl (apply_ban fetchedAt) r banned.

(** A federation pass: the routers that the control plane lists. *)
Definition list_router (r : Router) (p : string) : Router := set_peerRouters r ({[ p ]} ∪ r_peerRouters r).

(** [sync.Map.Range] over the peer routers. *)
Definition forgetUnlistedRouters (now : time) (r : Router) (listed : list string) : Router :=
  foldl (λ r p, if bool_decide (p ∈ listed) then r
                else let '(ok, r) := isPeerAuthenticated now r p in
                     if ok then r else set_peerRouters r (r_peerRouters r ∖ {[ p ]}))
        r (elements (r_peerRouters r)).

(** ** Keys and policy *)

Definition newCredential (biscuit : string) (expireTime : option Timestamp) (issuedUnder : list PublicKey) : credential :=
  {| c_biscuit := biscuit; c_expiration := match expireTime with Some t => AsTime t | None => zero_time end;
     c_issuedUnder := match issuedUnder with [] => None | _ => Some issuedUnder end |}.

Definition pin (c : credential) (trusted : list PublicKey) : credential :=
  if negb (bool_decide (c_biscuit c = "")) && bool_decide (c_issuedUnder c = None)
  then {| c_biscuit := c_biscuit c; c_expiration := c_expiration c;
          c_issuedUnder := match trusted with [] => None | _ => Some trusted end |}
  else c.

Definition predatesRotation (c : credential) (trusted : list PublicKey) : bool :=
  negb (bool_decide (c_biscuit c = "")) && match c_issuedUnder c with None => false | Some set => negb (subsetOf trusted set) end.

(** The flag says that the router refreshes its own credential. *)
Definition syncKeys (r : Router) (fetched : result (list PublicKey)) : result bool * Router :=
  match fetched with
  | Err e => (Err e, r)
  | Ok newKeys =>
      let c := pin (r_credential r) newKeys in
      (Ok (predatesRotation c newKeys), set_keys_credential r newKeys c)
  end.

Definition verifyOwnBiscuit (now : time) (r : Router) (token peerID : string) : result unit :=
  fail_if (bool_decide (length (r_trustedPublicKeys r) = 0)) "no trusted control plane keys loaded";;
  '(_, key) ← VerifyBiscuitAndGetKey now token peerID (r_trustedPublicKeys r);
  VerifyBiscuitRole token key (r_RequiredRole r).

Definition meshPolicyRules (r : Router) : list rule := default [] (r_policy r).
End router.
