(* ===== verification/RouterDirectory.v ===== *)
(** * Directory requests

    How a router serves the directory ([src/internal/router/directory.go]): a
    member announces and withdraws its own records and looks keys up, another
    router places copies and asks for records.  What a handler sends to other
    routers is part of its result; what they answered is an argument. *)

From S2P Require Import Prelude GoStrings Regex Names Biscuit NaiveEngine Facts DatalogText Grants Labels HTTPGrants PolicyRules Egress Base64 Tar Token Identity Middleware Directory Keyring Router.

Definition directoryDefaultLimit : nat := 20.
Definition directoryMaxLimit : nat := 100.

(** Why a request was refused. *)
Inductive directory_error :=
| directoryInvalidError (e : error)
| directoryDeniedError (service : string) (e : error)
| directoryOtherError (e : error).

Definition errDirectoryNotUp : error := NewError "the directory is not up".
Definition errInvalidDirectoryRequest : error := NewError "request is not provide, withdraw, find_providers or find_peer".

Inductive answer (A : Type) :=
| Answered (a : A)
| Refused (e : directory_error).
Arguments Answered {A} a.
Arguments Refused {A} e.

(** [invalidDirectoryRequest("%w", err)] on an error. *)
Definition or_invalid {A} (r : result A) : answer A :=
  match r with Ok a => Answered a | Err e => Refused (directoryInvalidError e) end.

#[global] Instance answer_bind : MBind answer := λ A B k a, match a with Answered a => k a | Refused e => Refused e end.

(** ** Messages *)

Record DirectoryProvide := { dv_Key : string; dv_Addrs : list string; dv_Provider : string; dv_Service : string }.
Record DirectoryWithdraw := { dw_Key : string; dw_Provider : string }.
Record PeerRecord := { pr_PeerId : string; pr_Addrs : list string }.

Inductive DirectoryRequest :=
| Request_Provide (q : DirectoryProvide)
| Request_Withdraw (q : DirectoryWithdraw)
| Request_FindProviders (key : string) (limit : nat)
| Request_FindPeer (peer_id : string)
| Request_Unset.

Record DirectoryResponse := {
  dresp_Providers : list PeerRecord;
  dresp_Peer : option PeerRecord;
}.

Definition empty_response : DirectoryResponse := {| dresp_Providers := []; dresp_Peer := None |}.

Section directory.
Context `{UC : UnicodeCase, TC : TARCodec, BT : BiscuitTokens, BE : BiscuitEngine, PC : PeerCodec, SH : SHA256, MA : Multiaddr, PB : PeerBytes}.

(** ** Announcing and withdrawing *)

Definition requirePublish (r : Router) (provider : string) (svcType : ServiceType) (svcName : string) : answer unit :=
  if bool_decide (svcName = "") then Answered tt
  else
    typeStr ← or_invalid (ServiceTypeToString svcType);
    let service := typeStr +:+ "://" +:+ svcName in
    match r_credentials r !! provider with
    | None => Refused (directoryDeniedError service (NewError "no credential held for the member"))
    | Some (b, key) =>
        match RequirePublish b key typeStr svcName (meshPolicyRules r) with
        | Err e => Refused (directoryDeniedError service e)
        | Ok _ => Answered tt
        end
    end.

(** The provider, and whether another router placed the record. *)
Definition recordProvider (now : time) (r : Router) (remote named : string) : answer (string * bool) * Router :=
  if bool_decide (named = "") then (Answered (remote, false), r)
  else
    let '(isRouter, r) := isAuthenticatedPeerRouter now r remote in
    if negb isRouter then (Refused (directoryInvalidError (NewError "only a router may name a provider")), r)
    else (p ← or_invalid (wrap_err "provider" (peer_Decode named)); Answered (p, true), r).

Definition record_addr (provider a : string) : result maddr :=
  ma ← wrap_err "address" (NewMultiaddr a);
  let '(transport, p) := SplitAddr ma in
  fail_if (negb (bool_decide (p = "")) && negb (bool_decide (p = provider))) "address names another peer";;
  match transport with
  | None => fail "address has no transport"
  | Some transport => Ok transport
  end.

Definition recordAddrs (provider : string) (raw : list string) : result (list maddr) :=
  fail_if (DirectoryMaxAddrs <? length raw) "too many addresses";;
  collect (record_addr provider) raw.

(** What a member's own router checks. *)
Definition check_own (r : Router) (provider key service : string) : answer unit :=
  '(svcType, svcName) ← or_invalid (ServiceOfRecord provider key service);
  requirePublish r provider svcType svcName.

(** The response, the state, and the request to place on the routers closest
    to the key. *)
Definition directoryProvide (now : time) (r : Router) (remote : string) (q : DirectoryProvide)
  : answer DirectoryResponse * Router * option DirectoryRequest :=
  match or_invalid (ValidateDirectoryKey (dv_Key q)) with
  | Refused e => (Refused e, r, None)
  | Answered _ =>
      let '(who, r) := recordProvider now r remote (dv_Provider q) in
      match who with
      | Refused e => (Refused e, r, None)
      | Answered (provider, placed) =>
          match addrs ← or_invalid (recordAddrs provider (dv_Addrs q));
                (if negb placed then check_own r provider (dv_Key q) (dv_Service q) else Answered tt) ≫= λ _,
                match r_records r with
                | None => Refused (directoryOtherError errDirectoryNotUp)
                | Some records => Answered (store_put records (dv_Key q) provider addrs now)
                end with
          | Refused e => (Refused e, r, None)
          | Answered records =>
              (Answered empty_response, set_records r (Some records),
               if negb placed
               then Some (Request_Provide {| dv_Key := dv_Key q; dv_Addrs := dv_Addrs q; dv_Provider := provider; dv_Service := dv_Service q |})
               else None)
          end
      end
  end.

Definition directoryWithdraw (now : time) (r : Router) (remote : string) (q : DirectoryWithdraw)
  : answer DirectoryResponse * Router * option DirectoryRequest :=
  match or_invalid (ValidateDirectoryKey (dw_Key q)) with
  | Refused e => (Refused e, r, None)
  | Answered _ =>
      let '(who, r) := recordProvider now r remote (dw_Provider q) in
      match who with
      | Refused e => (Refused e, r, None)
      | Answered (provider, placed) =>
          match r_records r with
          | None => (Refused (directoryOtherError errDirectoryNotUp), r, None)
          | Some records =>
              (Answered empty_response, set_records r (Some (store_remove records (dw_Key q) provider).2),
               if negb placed then Some (Request_Withdraw {| dw_Key := dw_Key q; dw_Provider := provider |}) else None)
          end
      end
  end.

(** ** Looking up *)

(** The addresses this router sees for a peer that is connected. *)
Definition seen : Type := string → option (list maddr).

Definition peerRecord (info : AddrInfo) : PeerRecord :=
  {| pr_PeerId := info.1;
     pr_Addrs := (λ a, maddr_String (if bool_decide ((SplitAddr a).2 = "") then Encapsulate_p2p a info.1 else a)) <$> info.2 |}.

Fixpoint freshRecords (now : time) (sees : seen) (r : Router) (infos : list AddrInfo) (limit : nat) : list PeerRecord * Router :=
  match infos, limit with
  | [], _ | _, 0 => ([], r)
  | info :: infos, S limit =>
      let '(ok, r) := isPeerAuthenticated now r info.1 in
      let addrs := if ok then match sees info.1 with Some ((_ :: _) as addrs) => addrs | _ => info.2 end else info.2 in
      let '(records, r) := freshRecords now sees r infos limit in
      (peerRecord (info.1, addrs) :: records, r)
  end.

Definition addrInfoOfRecord (rec : PeerRecord) : result AddrInfo :=
  p ← peer_Decode (pr_PeerId rec);
  addrs ← recordAddrs p (pr_Addrs rec);
  Ok (p, addrs).

Definition containsAddr (addrs : list maddr) (a : maddr) : bool := existsb (λ b, bool_decide (b = a)) addrs.

Definition add_addrs (have more : list maddr) : list maddr :=
  foldl (λ addrs a, if containsAddr addrs a then addrs else addrs ++ [a]) have more.

(** The merged answers and the position of each peer in them. *)
Definition merge_info (st : list AddrInfo * gmap string nat) (info : AddrInfo) : list AddrInfo * gmap string nat :=
  let '(merged, index) := st in
  match index !! info.1 with
  | None => (merged ++ [info], <[info.1 := length merged]> index)
  | Some i => (alter (λ m, (m.1, add_addrs m.2 info.2)) i merged, index)
  end.

Definition index_of (infos : list AddrInfo) : gmap string nat :=
  foldl (λ index '(i, p), <[p := i]> index) ∅ (imap (λ i info, (i, info.1)) infos).

(** The records under a key, with what other routers answered, in the order
    the answers came. *)
Definition findProviders (now : time) (records : recordStore) (key : string) (answers : list (list PeerRecord)) : list AddrInfo :=
  let merged := store_providers records key now in
  let infos := (λ recs, omap (λ rec, match addrInfoOfRecord rec with Ok info => Some info | Err _ => None end) recs) <$> answers in
  (foldl merge_info (merged, index_of merged) (mjoin infos)).1.

(** [again] is what the routers answer after a second federation pass, when one
    ran; [expired] that the request's time is up. *)
Definition lookupProviders (now : time) (sees : seen) (r : Router) (remote key : string) (limit : nat)
    (answers : list (list PeerRecord)) (again : option (list (list PeerRecord))) (expired : bool) : answer (list PeerRecord) * Router :=
  match r_records r with
  | None => (Refused (directoryOtherError errDirectoryNotUp), r)
  | Some records =>
      let '(isRouter, r) := isAuthenticatedPeerRouter now r remote in
      if isRouter then
        let '(recs, r) := freshRecords now sees r (store_providers records key now) limit in (Answered recs, r)
      else
        let found := findProviders now records key answers in
        let found := match found, again with
                     | [], Some answers => findProviders now records key answers
                     | _, _ => found
                     end in
        if expired && bool_decide (length found = 0) then (Refused (directoryOtherError (NewError "lookup")), r)
        else let '(recs, r) := freshRecords now sees r found limit in (Answered recs, r)
  end.

Definition find_limit (limit : nat) : nat :=
  let limit := if limit =? 0 then directoryDefaultLimit else limit in
  if directoryMaxLimit <? limit then directoryMaxLimit else limit.

Definition directoryFindProviders (now : time) (sees : seen) (r : Router) (remote key : string) (limit : nat)
    (answers : list (list PeerRecord)) (again : option (list (list PeerRecord))) (expired : bool) : answer DirectoryResponse * Router :=
  match or_invalid (ValidateDirectoryKey key) with
  | Refused e => (Refused e, r)
  | Answered _ =>
      let '(found, r) := lookupProviders now sees r remote key (find_limit limit) answers again expired in
      (records ← found; Answered {| dresp_Providers := records; dresp_Peer := None |}, r)
  end.

Definition directoryFindPeer (now : time) (sees : seen) (r : Router) (remote peer_id : string)
    (answers : list (list PeerRecord)) (again : option (list (list PeerRecord))) (expired : bool) : answer DirectoryResponse * Router :=
  match or_invalid (wrap_err "peer_id" (peer_Decode peer_id)) with
  | Refused e => (Refused e, r)
  | Answered p =>
      let '(ok, r) := isPeerAuthenticated now r p in
      match (if ok then sees p else None) with
      | Some ((_ :: _) as addrs) =>
          (Answered {| dresp_Providers := []; dresp_Peer := Some (peerRecord (p, addrs)) |}, r)
      | _ =>
          let '(found, r) := lookupProviders now sees r remote (PeerKey p) 1 answers again expired in
          (records ← found;
           Answered {| dresp_Providers := [];
                       dresp_Peer := snd <$> list_find (λ rec, pr_PeerId rec = p) records |}, r)
      end
  end.

(** One request; the operation it is accounted under is not kept, only that a
    find looks whether the peer is a router. *)
Definition serveDirectory (now : time) (sees : seen) (r : Router) (remote : string) (req : DirectoryRequest)
    (answers : list (list PeerRecord)) (again : option (list (list PeerRecord))) (expired : bool)
  : answer DirectoryResponse * Router * option DirectoryRequest :=
  match req with
  | Request_Provide q => directoryProvide now r remote q
  | Request_Withdraw q => directoryWithdraw now r remote q
  | Request_FindProviders key limit =>
      let '(_, r) := isAuthenticatedPeerRouter now r remote in
      (directoryFindProviders now sees r remote key limit answers again expired, None)
  | Request_FindPeer p =>
      let '(_, r) := isAuthenticatedPeerRouter now r remote in
      (directoryFindPeer now sees r remote p answers again expired, None)
  | Request_Unset => (Refused (directoryOtherError errInvalidDirectoryRequest), r, None)
  end.
End directory.
