(* ===== verification/RouterFacts.v ===== *)
(** * Theorems about routers

    What a history of a router's events makes true of the peers it admits. *)

From S2P Require Import Prelude GoStrings Regex Names Biscuit NaiveEngine Facts DatalogText Grants Labels HTTPGrants PolicyRules Egress Base64 Tar Token TokenModel Identity Middleware Directory Keyring Router RouterDirectory.

Section router.
Context `{UC : UnicodeCase, TC : TARCodec, BT : BiscuitTokens, BE : BiscuitEngine, PC : PeerCodec, SH : SHA256, MA : Multiaddr, PB : PeerBytes}.

(** ** Histories *)

(** What happens to a router, each with what the network and the clock gave. *)
Inductive RouterEvent :=
| EvHandshake (now : time) (p : string) (allowed : bool) (frame : result (result string))
| EvMutualAuth (now : time) (p : string) (answer : result AuthResponse)
| EvDisconnected (p : string)
| EvMeshEvent (now : time) (event : MeshEvent)
| EvBanList (peerIDs : list string) (fetchedAt : time)
| EvListed (p : string)
| EvForgetUnlisted (now : time) (listed : list string)
| EvKeys (fetched : result (list PublicKey))
| EvCredential (c : credential)
| EvPolicy (rules : list rule)
| EvReserve (now : time) (p : string)
| EvConnect (now : time) (src dest : string)
| EvSweep (now : time)
| EvDirectory (now : time) (sees : seen) (remote : string) (req : DirectoryRequest)
    (answers : list (list PeerRecord)) (again : option (list (list PeerRecord))) (expired : bool).

Definition router_step (r : Router) (ev : RouterEvent) : Router :=
  match ev with
  | EvHandshake now p allowed frame => (HandleAuthHandshake now r p allowed frame).2
  | EvMutualAuth now p answer => (performMutualAuth now r p answer).2
  | EvDisconnected p => disconnected r p
  | EvMeshEvent now event => (handleEvent now r event).1
  | EvBanList ids fetchedAt => reconcileBannedPeers r ids fetchedAt
  | EvListed p => list_router r p
  | EvForgetUnlisted now listed => forgetUnlistedRouters now r listed
  | EvKeys fetched => (syncKeys r fetched).2
  | EvCredential c => set_keys_credential r (r_trustedPublicKeys r) c
  | EvPolicy rules => set_policy r (Some rules)
  | EvReserve now p => (AllowReserve now r p).2
  | EvConnect now src dest => (AllowConnect now r src dest).2
  | EvSweep now => set_records r ((λ s, (store_sweep s now).2) <$> r_records r)
  | EvDirectory now sees remote req answers again expired => (serveDirectory now sees r remote req answers again expired).1.2
  end.

(** A router as it starts: enrolled, with no peers and no records. *)
Definition starts (r : Router) : Prop := r_authenticatedPeers r = ∅ ∧ r_credentials r = ∅ ∧ r_peerRouters r = ∅ ∧
  match r_records r with Some s => rs_keys s = ∅ | None => True end.

Definition router_run (r0 : Router) (evs : list RouterEvent) : Router := foldl router_step r0 evs.

(** ** What a step does to the admissions *)

(** Nobody is admitted, and no credential kept, that was not before. *)
Definition shrinks (r r' : Router) : Prop :=
  r_authenticatedPeers r' ⊆ r_authenticatedPeers r ∧ r_credentials r' ⊆ r_credentials r.

#[local] Instance shrinks_preorder : PreOrder shrinks.
Proof. split; [by intros r|intros r1 r2 r3 [??] [??]; split; by etransitivity]. Qed.

Lemma forgetPeer_shrinks r p : shrinks r (forgetPeer r p).
Proof. split; simpl; apply delete_subseteq. Qed.

Lemma isPeerAuthenticated_shrinks now r p : shrinks r (isPeerAuthenticated now r p).2.
Proof.
  unfold isPeerAuthenticated. destruct (_ !! p) as [[exp|]|]; [|done..]. destruct (negb _); [apply forgetPeer_shrinks|done].
Qed.

Lemma isAuthenticatedPeerRouter_shrinks now r p : shrinks r (isAuthenticatedPeerRouter now r p).2.
Proof. unfold isAuthenticatedPeerRouter. destruct (negb _); [done|apply isPeerAuthenticated_shrinks]. Qed.

Lemma recordProvider_shrinks now r remote named : shrinks r (recordProvider now r remote named).2.
Proof.
  unfold recordProvider. destruct (bool_decide _); [done|]. pose proof (isAuthenticatedPeerRouter_shrinks now r remote).
  destruct (isAuthenticatedPeerRouter now r remote) as [[] r']; done.
Qed.

Lemma freshRecords_shrinks now sees r infos limit : shrinks r (freshRecords now sees r infos limit).2.
Proof.
  revert r limit. induction infos as [|info infos IH]; intros r [|limit]; simpl; [done..|].
  pose proof (isPeerAuthenticated_shrinks now r info.1). destruct (isPeerAuthenticated now r info.1) as [ok r1].
  specialize (IH r1 limit). destruct (freshRecords now sees r1 infos limit) as [recs r2]. simpl in *. by etransitivity.
Qed.

Lemma lookupProviders_shrinks now sees r remote key limit answers again expired :
  shrinks r (lookupProviders now sees r remote key limit answers again expired).2.
Proof.
  unfold lookupProviders. destruct (r_records r) as [s|]; [|done]. pose proof (isAuthenticatedPeerRouter_shrinks now r remote) as H1.
  destruct (isAuthenticatedPeerRouter now r remote) as [[] r1]; cbn [snd] in H1.
  - pose proof (freshRecords_shrinks now sees r1 (store_providers s key now) limit) as H2.
    destruct (freshRecords _ _ _ _ _). simpl in *. by etransitivity.
  - cbv zeta. set (found := match _ with [] => _ | _ => _ end). destruct (_ && _); [done|].
    pose proof (freshRecords_shrinks now sees r1 found limit) as H2. destruct (freshRecords _ _ _ _ _). simpl in *. by etransitivity.
Qed.

Lemma set_records_shrinks r r' s : shrinks r r' → shrinks r (set_records r' s).
Proof. done. Qed.

Lemma directoryProvide_shrinks now r remote q : shrinks r (directoryProvide now r remote q).1.2.
Proof.
  unfold directoryProvide. destruct (or_invalid _); [|done]. pose proof (recordProvider_shrinks now r remote (dv_Provider q)) as Hr.
  destruct (recordProvider _ _ _ _) as [[[provider placed]|e] r1]; [|done]. by destruct (_ ≫= _).
Qed.

Lemma directoryWithdraw_shrinks now r remote q : shrinks r (directoryWithdraw now r remote q).1.2.
Proof.
  unfold directoryWithdraw. destruct (or_invalid _); [|done]. pose proof (recordProvider_shrinks now r remote (dw_Provider q)) as Hr.
  destruct (recordProvider _ _ _ _) as [[[provider placed]|e] r1]; [|done]. by destruct (r_records r1).
Qed.

Lemma serveDirectory_shrinks now sees r remote req answers again expired :
  shrinks r (serveDirectory now sees r remote req answers again expired).1.2.
Proof.
  destruct req as [q|q|key limit|p|]; cbn [serveDirectory fst snd]; [apply directoryProvide_shrinks|apply directoryWithdraw_shrinks|..|done].
  - pose proof (isAuthenticatedPeerRouter_shrinks now r remote) as H0. destruct (isAuthenticatedPeerRouter now r remote) as [ok r0].
    cbn [fst snd] in *. etransitivity; [exact H0|]. unfold directoryFindProviders. destruct (or_invalid _); [|done].
    pose proof (lookupProviders_shrinks now sees r0 remote key (find_limit limit) answers again expired).
    by destruct (lookupProviders _ _ _ _ _ _ _ _ _).
  - pose proof (isAuthenticatedPeerRouter_shrinks now r remote) as H0. destruct (isAuthenticatedPeerRouter now r remote) as [ok r0].
    cbn [fst snd] in *. etransitivity; [exact H0|]. unfold directoryFindPeer. destruct (or_invalid _) as [p'|]; [|done].
    pose proof (isPeerAuthenticated_shrinks now r0 p') as H1. destruct (isPeerAuthenticated now r0 p') as [ok' r1]. cbn [snd] in H1.
    pose proof (lookupProviders_shrinks now sees r1 remote (PeerKey p') 1 answers again expired) as H2.
    destruct (lookupProviders _ _ _ _ _ _ _ _ _) as [found r2]. cbn [snd] in H2.
    destruct (if ok' then sees p' else None) as [[|a l]|]; cbn [snd fst]; [by etransitivity|done|by etransitivity].
Qed.
Lemma reconcileBannedPeers_shrinks r ids fetchedAt : shrinks r (reconcileBannedPeers r ids fetchedAt).
Proof.
  unfold reconcileBannedPeers. set (r1 := set_banned r _). assert (H1 : shrinks r r1) by done. clearbody r1.
  revert r1 H1. induction (decode_peers ids) as [|p l IH]; intros r1 H1; simpl; [done|]. apply IH. unfold apply_ban.
  destruct (bool_decide _); [done|]. etransitivity; [exact H1|]. etransitivity; [|apply forgetPeer_shrinks]. done.
Qed.

Lemma forgetUnlistedRouters_shrinks now r listed : shrinks r (forgetUnlistedRouters now r listed).
Proof.
  unfold forgetUnlistedRouters. generalize (elements (r_peerRouters r)). intros l. generalize (reflexivity r : shrinks r r).
  generalize r at 2 4 as r1. induction l as [|p l IH]; intros r1 H1; simpl; [done|]. apply IH.
  destruct (bool_decide _); [done|]. pose proof (isPeerAuthenticated_shrinks now r1 p) as H2.
  destruct (isPeerAuthenticated now r1 p) as [[] r2]; cbn [snd] in H2; by etransitivity.
Qed.

Lemma handleEvent_shrinks now r event : shrinks r (handleEvent now r event).1.
Proof.
  unfold handleEvent. destruct (me_Type event); [|done..]. destruct (negb _); [|done]. destruct (peer_Decode _) as [p|]; [|done].
  apply forgetPeer_shrinks.
Qed.

Lemma AllowConnect_shrinks now r src dest : shrinks r (AllowConnect now r src dest).2.
Proof.
  unfold AllowConnect. destruct (is_banned r src); [done|]. destruct (is_banned r dest); [done|].
  pose proof (isPeerAuthenticated_shrinks now r src) as H1. destruct (isPeerAuthenticated now r src) as [[] r1]; cbn [negb snd] in *; [|done].
  etransitivity; [exact H1|]. apply isPeerAuthenticated_shrinks.
Qed.

(** ** Admission *)

(** The credential [data], presented at [now], is verified for [p] under a key
    of the list, to [exp]. *)
Definition verified (now : time) (keys : list PublicKey) (data p : string) (b : Biscuit) (key : PublicKey) (exp : time) : Prop :=
  key ∈ keys ∧ ∃ ks, (∀ k, k ∈ ks → k ∈ keys) ∧ verifyBiscuit now data p ks = Ok (b, key, exp).

(** The event admits [p] to [exp]: the peer is not banned, and it presented a
    credential that the trusted keys verify, in a handshake it opened or one
    the router opened; the latter needs the required role. *)
Definition admits (r : Router) (ev : RouterEvent) (p : string) (exp : time) : Prop :=
  is_banned r p = false ∧ ∃ now data b key, verified now (r_trustedPublicKeys r) data p b key exp ∧
    (ev = EvHandshake now p true (Ok (Ok data)) ∨
     ∃ answer, ev = EvMutualAuth now p (Ok answer) ∧ ar_Biscuit answer = data ∧ RequireRole b key (r_RequiredRole r) = Ok tt).

(** The event ends the admission of [p]. *)
Definition ends (ev : RouterEvent) (p : string) : Prop :=
  ev = EvDisconnected p ∨
  ∃ now event, ev = EvMeshEvent now event ∧ me_Type event = BANNED ∧ me_PeerId event ≠ "" ∧ peer_Decode (me_PeerId event) = Ok p.

Lemma first_key_in try keys key w : first_key try keys = Some (key, w) → key ∈ keys.
Proof.
  induction keys as [|k keys IH]; simpl; [done|]. destruct (try k); [intros [= <- _]; by left|]. intros Hf. right. by apply IH.
Qed.

Lemma verifyBiscuit_key now data p keys b key exp : verifyBiscuit now data p keys = Ok (b, key, exp) → key ∈ keys.
Proof.
  unfold verifyBiscuit. intros ([b0 rules] & _ & Hv)%bind_Ok. destruct (first_key _ keys) as [[k w]|] eqn:Ek; [|done].
  apply bind_unit_Ok in Hv as [_ Hv]. apply bind_Ok in Hv as (e & _ & Hv). cbv zeta in Hv. rewrite bind_unit_Ok in Hv.
  destruct Hv as [_ Hv]. apply (inj Ok) in Hv. injection Hv as _ <- _. by eapply first_key_in.
Qed.

Lemma handshake_step now r p allowed frame :
  shrinks r (HandleAuthHandshake now r p allowed frame).2 ∨
  ∃ data b key exp, allowed = true ∧ frame = Ok (Ok data) ∧ is_banned r p = false ∧
    verifyBiscuit now data p (r_trustedPublicKeys r) = Ok (b, key, exp) ∧
    r_authenticatedPeers (HandleAuthHandshake now r p allowed frame).2 = <[p := Until exp]> (r_authenticatedPeers r) ∧
    r_credentials (HandleAuthHandshake now r p allowed frame).2 = <[p := (b, key)]> (r_credentials r).
Proof.
  unfold HandleAuthHandshake. destruct (is_banned r p); [by left|]. destruct allowed; [|by left].
  destruct frame as [[data|]|]; [|by left..]. cbn [negb]. unfold VerifyBiscuitAdmission.
  destruct (verifyBiscuit now data p (r_trustedPublicKeys r)) as [[[b key] exp]|] eqn:Ev; [|by left].
  right. exists data, b, key, exp. split_and!; [done..| |]; cbn [snd]; by destruct (is_ok _).
Qed.

Lemma mutual_step now r p answer :
  shrinks r (performMutualAuth now r p answer).2 ∨
  ∃ resp b key exp, answer = Ok resp ∧ is_banned r p = false ∧ key ∈ r_trustedPublicKeys r ∧
    verifyBiscuit now (ar_Biscuit resp) p [key] = Ok (b, key, exp) ∧ RequireRole b key (r_RequiredRole r) = Ok tt ∧
    r_authenticatedPeers (performMutualAuth now r p answer).2 = <[p := Until exp]> (r_authenticatedPeers r) ∧
    r_credentials (performMutualAuth now r p answer).2 = r_credentials r.
Proof.
  unfold performMutualAuth. cbv zeta. destruct (_ ;; _) as [exp|e] eqn:Ec; [|by left]. right.
  rewrite bind_unit_Ok, fail_if_Ok in Ec. destruct Ec as [Hb Ec]. apply bind_Ok in Ec as (resp & -> & Ec).
  rewrite !bind_unit_Ok in Ec. destruct Ec as (_ & _ & Ec). apply bind_Ok in Ec as ([b key] & Hv & Ec). apply wrap_err_Ok in Hv.
  rewrite bind_unit_Ok, !wrap_err_Ok in Ec. destruct Ec as [Hrole Hexp]. unfold VerifyBiscuitAndGetKey in Hv.
  apply bind_Ok in Hv as ([[b0 key0] exp0] & Hv & Heq). apply (inj Ok) in Heq. injection Heq as -> ->.
  unfold VerifyBiscuitAndGetExpiry in Hexp. apply bind_Ok in Hexp as ([[b1 key1] exp1] & Hv1 & Heq). apply (inj Ok) in Heq. subst exp1.
  pose proof (verifyBiscuit_key _ _ _ _ _ _ _ Hv) as Hkey.
  pose proof (verifyBiscuit_key _ _ _ _ _ _ _ Hv1) as ->%list_elem_of_singleton.
  assert (b1 = b) as ->.
  { unfold verifyBiscuit in Hv, Hv1. apply bind_Ok in Hv as ([b2 rules] & Hu & Hv). rewrite Hu in Hv1. cbn [mbind result_bind] in Hv1.
    destruct (first_key _ (r_trustedPublicKeys r)) as [[k w]|]; [|done]. destruct (first_key _ [key]) as [[k1 w1]|]; [|done].
    apply bind_unit_Ok in Hv as [_ Hv]. apply bind_Ok in Hv as (e & _ & Hv). cbv zeta in Hv. rewrite bind_unit_Ok in Hv.
    apply bind_unit_Ok in Hv1 as [_ Hv1]. apply bind_Ok in Hv1 as (e1 & _ & Hv1). cbv zeta in Hv1. rewrite bind_unit_Ok in Hv1.
    destruct Hv as [_ Hv], Hv1 as [_ Hv1]. apply (inj Ok) in Hv, Hv1. congruence. }
  exists resp, b, key, exp. done.
Qed.

(** A step keeps an admission, or makes one. *)
Lemma step_admission r ev p a :
  r_authenticatedPeers (router_step r ev) !! p = Some a →
  (r_authenticatedPeers r !! p = Some a ∧ ¬ ends ev p) ∨ ∃ exp, a = Until exp ∧ admits r ev p exp.
Proof.
  intros Ha. assert (Hs : shrinks r (router_step r ev) → ¬ ends ev p →
    (r_authenticatedPeers r !! p = Some a ∧ ¬ ends ev p) ∨ ∃ exp, a = Until exp ∧ admits r ev p exp).
  { intros [Hs _] Hn. left. split; [|done]. by eapply lookup_weaken. }
  assert (Hno : (∀ q, ev ≠ EvDisconnected q) → (∀ now event, ev ≠ EvMeshEvent now event) → ¬ ends ev p).
  { intros H1 H2 [->|(now & event & -> & _)]; [by eapply H1|by eapply H2]. }
  destruct ev; cbn [router_step] in *; try (by apply Hs; [|apply Hno]).
  - destruct (handshake_step now r p0 allowed frame) as [Hsh|(data & b & key & exp & -> & -> & Hb & Hv & Heq & _)].
    + apply Hs; [done|by apply Hno].
    + rewrite Heq in Ha. apply lookup_insert_Some in Ha as [[<- <-]|[Hne Ha]]; [|left; split; [done|by apply Hno]].
      right. exists exp. split; [done|]. split; [done|]. exists now, data, b, key. split; [|by left].
      split; [by eapply verifyBiscuit_key|]. by exists (r_trustedPublicKeys r).
  - destruct (mutual_step now r p0 answer) as [Hsh|(resp & b & key & exp & -> & Hb & Hk & Hv & Hrole & Heq & _)].
    + apply Hs; [done|by apply Hno].
    + rewrite Heq in Ha. apply lookup_insert_Some in Ha as [[<- <-]|[Hne Ha]]; [|left; split; [done|by apply Hno]].
      right. exists exp. split; [done|]. split; [done|]. exists now, (ar_Biscuit resp), b, key. split; [|right; eauto].
      split; [done|]. exists [key]. split; [by intros k ->%list_elem_of_singleton|done].
  - left. unfold disconnected in Ha. simpl in Ha. apply lookup_delete_Some in Ha as [Hne Ha]. split; [done|].
    intros [[= ->]|(? & ? & [=] & _)]. done.
  - left. split; [by eapply lookup_weaken, handleEvent_shrinks|]. intros [[=]|(now' & event' & [= <- <-] & Ht & Hp & Hd)].
    unfold handleEvent in Ha. rewrite Ht, bool_decide_false, Hd in Ha by done. simpl in Ha. by rewrite lookup_delete_eq in Ha.
  - apply Hs; [apply reconcileBannedPeers_shrinks|by apply Hno].
  - apply Hs; [apply forgetUnlistedRouters_shrinks|by apply Hno].
  - apply Hs; [by destruct fetched|by apply Hno].
  - apply Hs; [|by apply Hno]. unfold AllowReserve. destruct (is_banned r p0); [done|apply isPeerAuthenticated_shrinks].
  - apply Hs; [apply AllowConnect_shrinks|by apply Hno].
  - apply Hs; [apply serveDirectory_shrinks|by apply Hno].
Qed.

(** An admission that stands was made by a handshake and not ended since. *)
Lemma run_admission r0 evs p a :
  starts r0 → r_authenticatedPeers (router_run r0 evs) !! p = Some a →
  ∃ exp before ev after, a = Until exp ∧ evs = before ++ ev :: after ∧
    admits (router_run r0 before) ev p exp ∧ Forall (λ ev, ¬ ends ev p) after.
Proof.
  intros (H0 & _). unfold router_run. induction evs as [|ev evs IH] using rev_ind.
  { simpl. by rewrite H0, lookup_empty. }
  rewrite foldl_snoc. intros [[Ha Hn]|(exp & -> & Had)]%step_admission.
  - destruct (IH Ha) as (exp & before & ev' & after & -> & -> & Had & Haf). exists exp, before, ev', (after ++ [ev]).
    split_and!; [done|by rewrite <-(assoc_L (++))|done|]. apply Forall_app. split; [done|]. by apply Forall_singleton.
  - exists exp, evs, ev, []. split_and!; [done..|constructor].
Qed.

(** The router has admitted [p] at [now]. *)
Definition admitted (r0 : Router) (evs : list RouterEvent) (now : time) (p : string) : Prop :=
  ∃ exp before ev after, evs = before ++ ev :: after ∧ (now < exp)%Z ∧
    admits (router_run r0 before) ev p exp ∧ Forall (λ ev, ¬ ends ev p) after.

Lemma isPeerAuthenticated_admitted r0 evs now p :
  starts r0 → (isPeerAuthenticated now (router_run r0 evs) p).1 = true → admitted r0 evs now p.
Proof.
  intros H0 Hp. unfold isPeerAuthenticated in Hp. destruct (_ !! p) as [a|] eqn:Ea; [|done].
  destruct (run_admission r0 evs p a H0 Ea) as (exp & before & ev & after & -> & Hevs & Had & Haf).
  destruct (Z.ltb_spec now exp); [|done]. exists exp, before, ev, after. done.
Qed.

(** C18: The relay lets [src] reach [dest] only when neither is banned and each
    has presented, in a handshake with this router, a credential bound to it
    that a key trusted then verifies and that has not expired, with no ban event
    for it and no disconnection since; this holds whatever else happened to the
    router: other handshakes, ban lists, key and policy syncs, directory
    requests. *)
Theorem relay_members_only r0 evs now src dest :
  starts r0 → (AllowConnect now (router_run r0 evs) src dest).1 = true →
  is_banned (router_run r0 evs) src = false ∧ is_banned (router_run r0 evs) dest = false ∧
  admitted r0 evs now src ∧ admitted r0 evs now dest.
Proof.
  intros H0 Hc. unfold AllowConnect in Hc. destruct (is_banned _ src) eqn:Es; [done|]. destruct (is_banned _ dest) eqn:Ed; [done|].
  destruct (isPeerAuthenticated now (router_run r0 evs) src) as [[] r1] eqn:E1; [|done]. cbn [negb] in Hc.
  assert (r1 = router_run r0 evs) as ->.
  { unfold isPeerAuthenticated in E1. destruct (_ !! src) as [[exp|ok]|]; [|congruence..]. destruct (negb _); congruence. }
  split_and!; [done..|by apply isPeerAuthenticated_admitted; [|rewrite E1]|by apply isPeerAuthenticated_admitted].
Qed.

End router.

(** ** Example *)

#[local] Existing Instances ascii_case one_rule_codec example_tokens naive_engine plain_codec text_addrs text_peers.

(** A digest that is the padded text. *)
#[local, refine] Instance padded : SHA256 := {| sha256_Sum256 s := str_take 32 (s +:+ "00000000000000000000000000000000") |}.
Proof. intros s. rewrite len_take, len_app. cbn [String.length]. lia. Defined.

Definition example_router : Router :=
  {| r_RequiredRole := RoleRouter; r_authenticatedPeers := ∅; r_credentials := ∅; r_policy := None; r_bannedPeers := ∅;
     r_records := Some (newRecordStore (900 * second)%Z); r_peerRouters := ∅; r_trustedPublicKeys := [example_public];
     r_credential := newCredential "" None [] |}.

Lemma example_router_starts : starts example_router.
Proof. by vm_compute. Qed.

Definition example_handshakes : list RouterEvent :=
  [EvHandshake (5 * second)%Z "12D3p1" true (Ok (Ok (token_bytes 0))); EvHandshake (6 * second)%Z "12D3p2" true (Ok (Ok (token_bytes 4)))].

Lemma relay_members_only_witness : admitted example_router example_handshakes (7 * second)%Z "12D3p1".
Proof.
  apply (relay_members_only example_router example_handshakes (7 * second)%Z "12D3p1" "12D3p2").
  - apply example_router_starts.
  - by vm_compute.
Defined.
