(* ===== verification/MeshDirectory.v ===== *)
(** * The directory of a mesh of routers

    Routers that place records on each other, members and strangers that send
    them anything, and a network that delays, repeats and drops what routers
    send: whoever is listed under a key announced it itself, to a router that
    held its credential. *)

From S2P Require Import Prelude GoStrings Regex Names Biscuit NaiveEngine Facts DatalogText Grants Labels HTTPGrants PolicyRules Egress Base64 Tar Token TokenModel Identity Middleware Directory Keyring Router RouterDirectory RouterFacts.

Section mesh.
Context `{UC : UnicodeCase, TC : TARCodec, BT : BiscuitTokens, BE : BiscuitEngine, PC : PeerCodec, SH : SHA256, MA : Multiaddr, PB : PeerBytes}.

(** ** Credentials a router holds *)

(** The event stores the credential of [p]. *)
Definition presents (r : Router) (ev : RouterEvent) (p : string) (b : Biscuit) (key : PublicKey) : Prop :=
  ∃ now data exp, ev = EvHandshake now p true (Ok (Ok data)) ∧ is_banned r p = false ∧
    verifyBiscuit now data p (r_trustedPublicKeys r) = Ok (b, key, exp).

Lemma step_credential r ev p c :
  r_credentials (router_step r ev) !! p = Some c → r_credentials r !! p = Some c ∨ presents r ev p c.1 c.2.
Proof.
  intros Hc. assert (Hs : shrinks r (router_step r ev) → r_credentials r !! p = Some c ∨ presents r ev p c.1 c.2).
  { intros [_ Hs]. left. by eapply lookup_weaken. }
  destruct ev; cbn [router_step] in *; try (by apply Hs).
  - destruct (handshake_step now r p0 allowed frame) as [Hsh|(data & b & key & exp & -> & -> & Hb & Hv & _ & Heq)]; [by apply Hs|].
    rewrite Heq in Hc. apply lookup_insert_Some in Hc as [[<- <-]|[_ Hc]]; [|by left]. right. exists now, data, exp. done.
  - destruct (mutual_step now r p0 answer) as [Hsh|(resp & b & key & exp & _ & _ & _ & _ & _ & _ & Heq)]; [by apply Hs|].
    left. by rewrite <-Heq.
  - apply Hs, forgetPeer_shrinks.
  - apply Hs, handleEvent_shrinks.
  - apply Hs, reconcileBannedPeers_shrinks.
  - apply Hs, forgetUnlistedRouters_shrinks.
  - apply Hs. by destruct fetched.
  - apply Hs. unfold AllowReserve. destruct (is_banned r p0); [done|apply isPeerAuthenticated_shrinks].
  - apply Hs, AllowConnect_shrinks.
  - apply Hs, serveDirectory_shrinks.
Qed.

Lemma run_credential r0 evs p b key :
  starts r0 → r_credentials (router_run r0 evs) !! p = Some (b, key) →
  ∃ before ev after, evs = before ++ ev :: after ∧ presents (router_run r0 before) ev p b key.
Proof.
  intros (_ & H0 & _). unfold router_run. induction evs as [|ev evs IH] using rev_ind.
  { simpl. by rewrite H0, lookup_empty. }
  rewrite foldl_snoc. intros [Hc|Hp]%step_credential.
  - destruct (IH Hc) as (before & ev' & after & -> & Hp). exists before, ev', (after ++ [ev]). by rewrite <-(assoc_L (++)).
  - exists evs, ev, []. done.
Qed.

(** ** Records a router holds *)

Definition holds_record (r : Router) (key p : string) : Prop :=
  ∃ s, r_records r = Some s ∧ is_Some (lookup2 s key p).

(** The event announces [p] under [key]: itself, or a copy that another router
    placed. *)
Definition own_announcement (r : Router) (ev : RouterEvent) (key p service : string) : Prop :=
  ∃ now sees addrs answers again expired,
    ev = EvDirectory now sees p (Request_Provide {| dv_Key := key; dv_Addrs := addrs; dv_Provider := ""; dv_Service := service |}) answers again expired ∧
    check_own r p key service = Answered tt.

Definition placed_copy (r : Router) (ev : RouterEvent) (key p : string) : Prop :=
  ∃ now sees sender addrs named service answers again expired,
    ev = EvDirectory now sees sender (Request_Provide {| dv_Key := key; dv_Addrs := addrs; dv_Provider := named; dv_Service := service |}) answers again expired ∧
    named ≠ "" ∧ (isAuthenticatedPeerRouter now r sender).1 = true ∧ peer_Decode named = Ok p.

Lemma isPeerAuthenticated_records now r p : r_records (isPeerAuthenticated now r p).2 = r_records r.
Proof. unfold isPeerAuthenticated. destruct (_ !! p) as [[exp|]|]; [|done..]. by destruct (negb _). Qed.

Lemma isAuthenticatedPeerRouter_records now r p : r_records (isAuthenticatedPeerRouter now r p).2 = r_records r.
Proof. unfold isAuthenticatedPeerRouter. destruct (negb _); [done|apply isPeerAuthenticated_records]. Qed.

Lemma recordProvider_records now r remote named : r_records (recordProvider now r remote named).2 = r_records r.
Proof.
  unfold recordProvider. destruct (bool_decide _); [done|]. pose proof (isAuthenticatedPeerRouter_records now r remote).
  by destruct (isAuthenticatedPeerRouter now r remote) as [[] r'].
Qed.

Lemma freshRecords_records now sees r infos limit : r_records (freshRecords now sees r infos limit).2 = r_records r.
Proof.
  revert r limit. induction infos as [|info infos IH]; intros r [|limit]; simpl; [done..|].
  pose proof (isPeerAuthenticated_records now r info.1) as H1. destruct (isPeerAuthenticated now r info.1) as [ok r1].
  specialize (IH r1 limit). destruct (freshRecords now sees r1 infos limit) as [recs r2]. simpl in *. congruence.
Qed.

Lemma lookupProviders_records now sees r remote key limit answers again expired :
  r_records (lookupProviders now sees r remote key limit answers again expired).2 = r_records r.
Proof.
  unfold lookupProviders. destruct (r_records r) as [s|] eqn:Es; [|done]. pose proof (isAuthenticatedPeerRouter_records now r remote) as H1.
  destruct (isAuthenticatedPeerRouter now r remote) as [[] r1]; cbn [snd] in H1.
  - pose proof (freshRecords_records now sees r1 (store_providers s key now) limit) as H2.
    destruct (freshRecords _ _ _ _ _). simpl in *. congruence.
  - cbv zeta. set (found := match _ with [] => _ | _ => _ end). destruct (_ && _); [simpl; congruence|].
    pose proof (freshRecords_records now sees r1 found limit) as H2. destruct (freshRecords _ _ _ _ _). simpl in *. congruence.
Qed.
Lemma directoryFind_records now sees r remote req answers again expired :
  match req with Request_Provide _ | Request_Withdraw _ => True | _ =>
    r_records (serveDirectory now sees r remote req answers again expired).1.2 = r_records r end.
Proof.
  destruct req as [q|q|key limit|p|]; [done|done|..|done]; cbn [serveDirectory].
  - pose proof (isAuthenticatedPeerRouter_records now r remote) as H0. destruct (isAuthenticatedPeerRouter now r remote) as [ok r0].
    cbn [fst snd] in *. rewrite <-H0. unfold directoryFindProviders. destruct (or_invalid _); [|done].
    pose proof (lookupProviders_records now sees r0 remote key (find_limit limit) answers again expired).
    by destruct (lookupProviders _ _ _ _ _ _ _ _ _).
  - pose proof (isAuthenticatedPeerRouter_records now r remote) as H0. destruct (isAuthenticatedPeerRouter now r remote) as [ok r0].
    cbn [fst snd] in *. rewrite <-H0. unfold directoryFindPeer. destruct (or_invalid _) as [p'|]; [|done].
    pose proof (isPeerAuthenticated_records now r0 p') as H1. destruct (isPeerAuthenticated now r0 p') as [ok' r1]. cbn [snd] in H1.
    pose proof (lookupProviders_records now sees r1 remote (PeerKey p') 1 answers again expired) as H2.
    destruct (lookupProviders _ _ _ _ _ _ _ _ _) as [found r2]. cbn [snd] in H2.
    destruct (if ok' then sees p' else None) as [[|a l]|]; cbn [snd fst]; congruence.
Qed.

(** What an announcement that is answered did. *)
Lemma directoryProvide_spec now r remote q resp r' sent :
  directoryProvide now r remote q = (Answered resp, r', sent) →
  ∃ provider placed r1 s addrs, recordProvider now r remote (dv_Provider q) = (Answered (provider, placed), r1) ∧
    r_records r1 = Some s ∧ r' = set_records r1 (Some (store_put s (dv_Key q) provider addrs now)) ∧
    (placed = false → check_own r1 provider (dv_Key q) (dv_Service q) = Answered tt) ∧
    sent = if placed then None else
      Some (Request_Provide {| dv_Key := dv_Key q; dv_Addrs := dv_Addrs q; dv_Provider := provider; dv_Service := dv_Service q |}).
Proof.
  unfold directoryProvide. destruct (or_invalid _); [|done]. destruct (recordProvider _ _ _ _) as [[[provider placed]|e] r1]; [|done].
  destruct (or_invalid (recordAddrs provider (dv_Addrs q))) as [addrs|]; [|done]. cbn [mbind answer_bind].
  destruct (if negb placed then check_own r1 provider (dv_Key q) (dv_Service q) else Answered tt) as [[]|] eqn:Ec; [|done].
  cbn [mbind answer_bind]. destruct (r_records r1) as [s|] eqn:Es; [|done]. intros [= _ <- <-].
  exists provider, placed, r1, s, addrs. split_and!; [done..|by intros ->|by destruct placed].
Qed.

Lemma directoryProvide_refused now r remote q e r' sent :
  directoryProvide now r remote q = (Refused e, r', sent) → r_records r' = r_records r ∧ sent = None.
Proof.
  unfold directoryProvide. destruct (or_invalid _); [|by intros [= _ <- <-]].
  pose proof (recordProvider_records now r remote (dv_Provider q)) as Hr.
  destruct (recordProvider _ _ _ _) as [[[provider placed]|e1] r1]; [|by intros [= _ <- <-]].
  destruct (_ ≫= _); [done|]. by intros [= _ <- <-].
Qed.

(** Whose record it is. *)
Lemma recordProvider_spec now r remote named p placed r1 :
  recordProvider now r remote named = (Answered (p, placed), r1) →
  (named = "" ∧ p = remote ∧ placed = false ∧ r1 = r) ∨
  (named ≠ "" ∧ placed = true ∧ (isAuthenticatedPeerRouter now r remote).1 = true ∧ peer_Decode named = Ok p).
Proof.
  unfold recordProvider. case_bool_decide as Hn; [intros [= -> <- ->]; by left|].
  destruct (isAuthenticatedPeerRouter now r remote) as [[] r2]; [|done]. cbn [negb fst].
  destruct (peer_Decode named) as [p'|]; [|done]. intros [= <- <- <-]. by right.
Qed.

Lemma provide_record now sees r remote q answers again expired key p :
  holds_record (directoryProvide now r remote q).1.2 key p →
  let ev := EvDirectory now sees remote (Request_Provide q) answers again expired in
  holds_record r key p ∨ (∃ service, own_announcement r ev key p service) ∨ placed_copy r ev key p.
Proof.
  intros (s' & Hs' & Hl) ev. destruct (directoryProvide now r remote q) as [[[resp|e] r'] sent] eqn:E; cbn [fst snd] in *.
  2: { left. apply directoryProvide_refused in E as [Heq _]. exists s'. by rewrite <-Heq. }
  apply directoryProvide_spec in E as (provider & placed & r1 & s & addrs & Hp & Hr1 & -> & Hown & _).
  pose proof (recordProvider_records now r remote (dv_Provider q)) as Hr. rewrite Hp in Hr. cbn [snd] in Hr.
  injection Hs' as <-. rewrite lookup2_put in Hl. destruct (decide (dv_Key q = key ∧ provider = p)) as [[<- <-]|_].
  - right. destruct q as [k a named service]. cbn [dv_Key dv_Addrs dv_Provider dv_Service] in *.
    apply recordProvider_spec in Hp as [(-> & -> & -> & ->)|(Hn & -> & Hau & Hd)].
    + left. exists service, now, sees, a, answers, again, expired. split; [done|]. by apply Hown.
    + right. exists now, sees, remote, a, named, service, answers, again, expired. done.
  - left. exists s. by rewrite <-Hr.
Qed.

Lemma withdraw_record now r remote q key p :
  holds_record (directoryWithdraw now r remote q).1.2 key p → holds_record r key p.
Proof.
  intros (s' & Hs' & Hl). unfold directoryWithdraw in Hs'. destruct (or_invalid _); [|by exists s'].
  pose proof (recordProvider_records now r remote (dw_Provider q)) as Hr.
  destruct (recordProvider _ _ _ _) as [[[provider placed]|e] r1]; cbn [fst snd] in *; [|rewrite Hr in Hs'; by exists s'].
  destruct (r_records r1) as [s|] eqn:Es; cbn [fst snd r_records set_records] in Hs'; [|congruence].
  injection Hs' as <-. rewrite lookup2_remove in Hl. destruct (decide _); [by destruct Hl|]. by exists s.
Qed.

Lemma step_record r ev key p :
  holds_record (router_step r ev) key p →
  holds_record r key p ∨ (∃ service, own_announcement r ev key p service) ∨ placed_copy r ev key p.
Proof.
  intros Hh. assert (Hs : r_records (router_step r ev) = r_records r →
    holds_record r key p ∨ (∃ service, own_announcement r ev key p service) ∨ placed_copy r ev key p).
  { intros Heq. left. unfold holds_record in *. by rewrite <-Heq. }
  destruct ev; cbn [router_step] in *; try (by apply Hs).
  - apply Hs. unfold HandleAuthHandshake. destruct (is_banned r p0); [done|]. destruct (negb allowed); [done|].
    destruct frame as [[data|]|]; [|done..]. destruct (VerifyBiscuitAdmission _ _ _ _) as [[[b k] exp]|]; [|done]. cbn [snd]. by destruct (is_ok _).
  - apply Hs. unfold performMutualAuth. cbv zeta. by destruct (_ ;; _).
  - apply Hs. unfold handleEvent. destruct (me_Type event); [|done..]. destruct (negb _); [|done]. by destruct (peer_Decode _).
  - apply Hs. unfold reconcileBannedPeers. set (r1 := set_banned r _). assert (H1 : r_records r1 = r_records r) by done. clearbody r1.
    revert r1 H1. clear. induction (decode_peers peerIDs) as [|q l IH]; intros r1 H1; simpl; [done|]. apply IH. unfold apply_ban.
    by destruct (bool_decide _).
  - apply Hs. unfold forgetUnlistedRouters. generalize (elements (r_peerRouters r)). intros l. generalize (eq_refl (r_records r)).
    generalize r at 1 3 as r1. clear. induction l as [|q l IH]; intros r1 H1; simpl; [done|]. apply IH.
    destruct (bool_decide _); [done|]. pose proof (isPeerAuthenticated_records now r1 q) as H2.
    destruct (isPeerAuthenticated now r1 q) as [[] r2]; simpl in *; congruence.
  - apply Hs. by destruct fetched.
  - apply Hs. unfold AllowReserve. destruct (is_banned r p0); [done|apply isPeerAuthenticated_records].
  - apply Hs. unfold AllowConnect. destruct (is_banned r src); [done|]. destruct (is_banned r dest); [done|].
    pose proof (isPeerAuthenticated_records now r src) as H1. destruct (isPeerAuthenticated now r src) as [[] r1]; cbn [negb snd] in *; [|done].
    by rewrite isPeerAuthenticated_records.
  - destruct Hh as (s & Hr & Hl). cbn [r_records set_records] in Hr. apply fmap_Some in Hr as (s0 & Hs0 & ->). left. exists s0. split; [done|].
    rewrite lookup2_sweep in Hl. destruct (lookup2 s0 key p); [done|]. by destruct Hl.
  - pose proof (directoryFind_records now sees r remote req answers again expired) as Hfind.
    destruct req as [q|q|k l|q|]; [|..|by apply Hs|by apply Hs|by apply Hs]; cbn [serveDirectory] in Hh.
    + by eapply provide_record.
    + left. by eapply withdraw_record.
Qed.

(** ** The mesh *)

(** What a router sends to the routers closest to a key. *)
Definition sends (r : Router) (ev : RouterEvent) : option DirectoryRequest :=
  match ev with
  | EvDirectory now sees remote req answers again expired => (serveDirectory now sees r remote req answers again expired).2
  | _ => None
  end.

Context (r0 : string → Router).

(** The history of each router, and the requests sent so far: the network may
    deliver one to any router, late, more than once, or never. *)
Record Mesh := {
  m_history : string → list RouterEvent;
  m_sent : list (string * DirectoryRequest);
}.

Definition router_of (M : Mesh) (id : string) : Router := router_run (r0 id) (m_history M id).

Definition advance (M : Mesh) (id : string) (ev : RouterEvent) : Mesh :=
  {| m_history := λ id', if decide (id = id') then m_history M id ++ [ev] else m_history M id';
     m_sent := m_sent M ++ match sends (router_of M id) ev with Some req => [(id, req)] | None => [] end |}.

(** Anything may happen to a router, and anybody may send it any request, but a
    peer that it takes for a router sends only announcements that a router
    sent; the text of a remote peer's ID is the one its ID has. *)
Definition may_happen (M : Mesh) (id : string) (ev : RouterEvent) : Prop :=
  match ev with
  | EvDirectory now _ remote (Request_Provide q) _ _ _ =>
      peer_Decode remote = Ok remote ∧
      ((isAuthenticatedPeerRouter now (router_of M id) remote).1 = true → (remote, Request_Provide q) ∈ m_sent M)
  | _ => True
  end.

Inductive mesh_step : Mesh → Mesh → Prop :=
| MeshStep M id ev : may_happen M id ev → mesh_step M (advance M id ev).

Definition mesh_start : Mesh := {| m_history := λ _, []; m_sent := [] |}.

(** Some router took the announcement from the provider itself. *)
Definition announced_by (M : Mesh) (key p : string) : Prop :=
  ∃ id before ev after service, m_history M id = before ++ ev :: after ∧
    own_announcement (router_run (r0 id) before) ev key p service.

Lemma announced_advance M id ev key p : announced_by M key p → announced_by (advance M id ev) key p.
Proof.
  intros (id' & before & ev' & after & service & Hh & Ho). destruct (decide (id = id')) as [<-|Hne].
  - exists id, before, ev', (after ++ [ev]), service. split; [|done]. simpl. rewrite decide_True by done. rewrite Hh.
    by rewrite <-(assoc_L (++)).
  - exists id', before, ev', after, service. split; [|done]. simpl. by rewrite decide_False.
Qed.

Lemma announced_now M id ev key p service :
  own_announcement (router_of M id) ev key p service → announced_by (advance M id ev) key p.
Proof. intros Ho. exists id, (m_history M id), ev, [], service. split; [|done]. simpl. by rewrite decide_True. Qed.

Lemma router_advance M id ev id' :
  router_of (advance M id ev) id' = if decide (id = id') then router_step (router_of M id) ev else router_of M id'.
Proof.
  unfold router_of. simpl. destruct (decide (id = id')) as [<-|]; [|done]. unfold router_run. by rewrite foldl_snoc.
Qed.

(** Every record, and every announcement on its way, was announced by its
    provider. *)
Definition mesh_ok (M : Mesh) : Prop :=
  (∀ id key p, holds_record (router_of M id) key p → announced_by M key p) ∧
  (∀ sender q, (sender, Request_Provide q) ∈ m_sent M →
     peer_Decode (dv_Provider q) = Ok (dv_Provider q) ∧ announced_by M (dv_Key q) (dv_Provider q)).

(** What is sent is the sender's own announcement. *)
Lemma sends_own r ev q :
  sends r ev = Some (Request_Provide q) →
  own_announcement r ev (dv_Key q) (dv_Provider q) (dv_Service q) ∧
  ∃ now sees req answers again expired, ev = EvDirectory now sees (dv_Provider q) (Request_Provide req) answers again expired.
Proof.
  destruct ev; try done. cbn [sends]. destruct req as [q'|q'|k l|p|]; cbn [serveDirectory].
  - destruct (directoryProvide now r remote q') as [[[resp|e] r'] sent] eqn:E; cbn [snd].
    2: { by apply directoryProvide_refused in E as [_ ->]. }
    apply directoryProvide_spec in E as (provider & placed & r1 & s & addrs & Hp & _ & _ & Hown & ->).
    destruct placed; [done|]. intros [= <-]. destruct q' as [k a named service]. cbn [dv_Key dv_Addrs dv_Provider dv_Service] in *.
    apply recordProvider_spec in Hp as [(-> & -> & _ & ->)|(_ & [=] & _)]. split; [|eauto 10].
    exists now, sees, a, answers, again, expired. split; [done|]. by apply Hown.
  - unfold directoryWithdraw. destruct (or_invalid _); [|done]. destruct (recordProvider _ _ _ _) as [[[provider placed]|e] r1]; [|done].
    destruct (r_records r1); [|done]. by destruct (negb placed).
  - by destruct (isAuthenticatedPeerRouter now r remote).
  - by destruct (isAuthenticatedPeerRouter now r remote).
  - done.
Qed.

Lemma mesh_ok_step M M' : mesh_ok M → mesh_step M M' → mesh_ok M'.
Proof.
  intros Hok Hstep. destruct Hstep as [M1 id ev Hmay]. destruct Hok as [Hrec Hsent]. split.
  - intros id' key p. rewrite router_advance. destruct (decide (id = id')) as [<-|_]; [|intros Hh; by eapply announced_advance, Hrec].
    intros [Hh|[[service Ho]|(now & sees & sender & addrs & named & service & answers & again & expired & -> & Hn & Hau & Hd)]]%step_record.
    + by eapply announced_advance, Hrec.
    + by eapply announced_now.
    + apply announced_advance. destruct Hmay as [_ Hin]. specialize (Hin Hau). apply Hsent in Hin as [Hc Ha].
      cbn [dv_Key dv_Provider] in *. rewrite Hc in Hd. by injection Hd as ->.
  - intros sender q. cbn [advance m_sent]. rewrite elem_of_app. intros [Hin|Hin].
    + destruct (Hsent _ _ Hin). split; [done|by apply announced_advance].
    + destruct (sends (router_of M1 id) ev) as [req|] eqn:Es; [|by apply not_elem_of_nil in Hin].
      apply list_elem_of_singleton in Hin. injection Hin as -> <-. apply sends_own in Es as [Ho (now & sees & req & answers & again & expired & ->)].
      split; [by destruct Hmay|by eapply announced_now].
Qed.

(** The own announcement of a service: the key is the service's, and the
    credential the router holds grants serving it. *)
Lemma check_own_spec r p key service :
  check_own r p key service = Answered tt →
  (service = "" ∧ key = PeerKey p) ∨
  ∃ ty t typeStr name b k, ParseServiceTarget service = (ty, name) ∧ ParseServiceType ty = Ok t ∧
    ServiceTypeToString t = Ok typeStr ∧ name ≠ "" ∧
    (ServiceKey t name = Ok key ∨ ServiceKey t "" = Ok key) ∧
    r_credentials r !! p = Some (b, k) ∧ RequirePublish b k typeStr name (meshPolicyRules r) = Ok tt.
Proof.
  unfold check_own. destruct (ServiceOfRecord p key service) as [[t name]|] eqn:Es; [|done]. cbn [or_invalid mbind answer_bind].
  intros Hreq. unfold ServiceOfRecord in Es. case_bool_decide as Hs.
  { case_bool_decide as Hk; [|done]. by left. }
  right. destruct (ParseServiceTarget service) as [ty name']. destruct (ParseServiceType ty) as [t'|] eqn:Ety; [|done].
  destruct (_ || _) eqn:Eb in Es; [done|]. rewrite !orb_false_iff, !bool_decide_eq_false in Eb. destruct Eb as [[_ Hn] _].
  assert (Hkey : t' = t ∧ name' = name ∧ (ServiceKey t name = Ok key ∨ ServiceKey t "" = Ok key)).
  { apply bind_Ok in Es as (k1 & Hk1 & Es). case_bool_decide as He; [injection Es as -> ->; subst; by eauto|].
    apply bind_Ok in Es as (k2 & Hk2 & Es). case_bool_decide as He2; [injection Es as -> ->; subst; by eauto|done]. }
  destruct Hkey as (-> & -> & Hkey). unfold requirePublish in Hreq. rewrite bool_decide_false in Hreq by done.
  destruct (ServiceTypeToString t) as [ts|] eqn:Et; [|done]. cbn [or_invalid mbind answer_bind] in Hreq. cbv zeta in Hreq.
  destruct (r_credentials r !! p) as [[b k]|] eqn:Ec; [|done].
  destruct (RequirePublish b k ts name (meshPolicyRules r)) as [[]|] eqn:Er; [|done].
  exists ty, t, ts, name, b, k. done.
Qed.

(** C6: In a mesh whose routers are honest (whoever a router takes for a router
    sends only announcements that it took from a provider itself), with members
    and strangers that send anything and a network that delays, repeats and drops,
    whoever is listed under a key at any router announced that key itself, to some
    router, over its own connection.  Either the key is its own peer key, which
    needs no grant, or it is the key of a service, by name or by type, that a
    credential grants it to serve: one that it had presented to that router in a
    handshake, bound to it, and that the keys trusted then verified. *)
Theorem directory_vouched M id key p :
  (∀ id, starts (r0 id)) → rtc mesh_step mesh_start M → holds_record (router_of M id) key p →
  ∃ id' before ev after service,
    m_history M id' = before ++ ev :: after ∧ own_announcement (router_run (r0 id') before) ev key p service ∧
    ((service = "" ∧ key = PeerKey p) ∨
     ∃ ty t typeStr name b k,
       ParseServiceTarget service = (ty, name) ∧ ParseServiceType ty = Ok t ∧ ServiceTypeToString t = Ok typeStr ∧ name ≠ "" ∧
       (ServiceKey t name = Ok key ∨ ServiceKey t "" = Ok key) ∧
       RequirePublish b k typeStr name (meshPolicyRules (router_run (r0 id') before)) = Ok tt ∧
       ∃ earlier shake rest, before = earlier ++ shake :: rest ∧ presents (router_run (r0 id') earlier) shake p b k).
Proof.
  intros H0 Hr Hh. assert (Hok : mesh_ok M).
  { refine (rtc_ind_r (λ M, mesh_ok M) mesh_start _ _ M Hr); [|intros M1 M2 _ Hs Hok; by eapply mesh_ok_step].
    split; [|by intros sender q ?%not_elem_of_nil]. intros id1 key1 p1 (s & Hs & [rec Hl]). destruct (H0 id1) as (_ & _ & _ & Hk).
    unfold router_of in Hs. simpl in Hs. rewrite Hs in Hk. unfold lookup2, under in Hl. rewrite Hk, lookup_empty in Hl. simpl in Hl.
    by rewrite lookup_empty in Hl. }
  destruct (proj1 Hok _ _ _ Hh) as (id' & before & ev & after & service & Hhist & Ho).
  pose proof Ho as (now & sees & addrs & answers & again & expired & _ & Hown).
  exists id', before, ev, after, service. split; [done|]. split; [done|].
  destruct (check_own_spec _ _ _ _ Hown) as [?|(ty & t & ts & name & b & k & Hps & Hty & Ht & Hn & Hkey & Hc & Hp)]; [by left|]. right.
  exists ty, t, ts, name, b, k. split_and!; try done. by apply run_credential.
Qed.

End mesh.

(** ** Example *)

#[local] Existing Instances ascii_case one_rule_codec example_tokens naive_engine plain_codec text_addrs text_peers padded.

Definition calc_key : string := match ServiceKey SERVICE_TYPE_MCP "calc" with Ok k => k | Err _ => "" end.

Definition example_shake : RouterEvent := EvHandshake (5 * second)%Z "12D3p1" true (Ok (Ok (token_bytes 0))).
Definition example_announcement : RouterEvent :=
  EvDirectory (6 * second)%Z (λ _, None) "12D3p1"
    (Request_Provide {| dv_Key := calc_key; dv_Addrs := ["/ip4/10.0.0.1"]; dv_Provider := ""; dv_Service := "mcp://calc" |}) [] None false.

(** The member attaches to the router "R" and announces its service. *)
Definition example_mesh : Mesh :=
  advance (λ _, example_router) (advance (λ _, example_router) mesh_start "R" example_shake) "R" example_announcement.

Lemma directory_vouched_witness :
  holds_record (router_of (λ _, example_router) example_mesh "R") calc_key "12D3p1" ∧
  ∃ id before ev after service,
    m_history example_mesh id = before ++ ev :: after ∧
    own_announcement (router_run example_router before) ev calc_key "12D3p1" service.
Proof.
  assert (Hh : holds_record (router_of (λ _, example_router) example_mesh "R") calc_key "12D3p1").
  { eexists. split; [vm_compute; reflexivity|]. vm_compute. eauto. }
  split; [exact Hh|]. destruct (directory_vouched (λ _, example_router) example_mesh "R" calc_key "12D3p1")
    as (id & before & ev & after & service & Hm & Ho & _).
  - intros id. apply example_router_starts.
  - eapply rtc_l; [apply (MeshStep _ mesh_start "R" example_shake); exact I|]. apply rtc_once, MeshStep. split; [by vm_compute|]. intros Hr. by vm_compute in Hr.
  - exact Hh.
  - exists id, before, ev, after, service. split; [exact Hm|exact Ho].
Defined.
