(* ===== verification/Decimal.v ===== *)
(** * Decimal integers and signed challenges

    [strconv.FormatInt] and [strconv.ParseInt] in base 10, and the texts that a
    peer signs to prove that it holds its key ([src/api/network.go]). *)

From S2P Require Import Prelude GoStrings.

(** ** Integers *)

Definition digit (d : Z) : ascii := char_of (48 + d).

Fixpoint format_digits (fuel : nat) (n : Z) (acc : string) : string :=
  match fuel with
  | 0 => acc
  | S fuel =>
      let acc := String (digit (n mod 10)) acc in
      if (n <? 10)%Z then acc else format_digits fuel (n / 10) acc
  end.

(** A number has at most one digit more than its binary logarithm. *)
Definition FormatInt (n : Z) : string :=
  let s := format_digits (S (Z.to_nat (Z.log2 (Z.abs n)))) (Z.abs n) "" in
  if (n <? 0)%Z then String "-" s else s.

Fixpoint parse_digits (acc : Z) (s : string) : option Z :=
  match s with
  | "" => Some acc
  | String c s => if in_range 48 57 c then parse_digits (acc * 10 + (byte c - 48))%Z s else None
  end.

Definition ParseUint (s : string) : result Z :=
  if bool_decide (s = "") then fail "invalid syntax"
  else match parse_digits 0 s with
       | None => fail "invalid syntax"
       | Some n => fail_if (2 ^ 64 <=? n)%Z "value out of range";; Ok n
       end.

Definition ParseInt (s : string) : result Z :=
  let '(neg, ds) := match s with
                    | String "+" r => (false, r)
                    | String "-" r => (true, r)
                    | _ => (false, s)
                    end in
  un ← ParseUint ds;
  fail_if (negb neg && (2 ^ 63 <=? un)%Z) "value out of range";;
  fail_if (neg && (2 ^ 63 <? un)%Z) "value out of range";;
  Ok (if neg then - un else un)%Z.

(** ** Challenges *)

Definition challenge (domain peerID : string) (ts : Z) : string := domain +:+ peerID +:+ ":" +:+ FormatInt ts.

Definition EnrollChallenge : string → Z → string := challenge "mesh:enroll:".
Definition EnrollStatusChallenge : string → Z → string := challenge "mesh:enroll-status:".
Definition RefreshChallenge : string → Z → string := challenge "mesh:refresh:".
Definition RegisterChallenge : string → Z → string := challenge "mesh:register:".
Definition RouterLeaseChallenge : string → Z → string := challenge "mesh:routers-lease:".
Definition TokenExchangeChallenge : string → Z → string := challenge "mesh:token-exchange:".
Definition STSTokenChallenge : string → Z → string := challenge "mesh:sts-token:".
Definition PoliciesChallenge : string → Z → string := challenge "mesh:policies:".
Definition EgressChallenge : string → Z → string := challenge "mesh:egress:".
Definition RevocationsChallenge : string → Z → string := challenge "mesh:revocations:".
Definition NodesCatalogChallenge : string → Z → string := challenge "mesh:nodes-catalog:".

Definition challenges : list (string → Z → string) := [
  EnrollChallenge; EnrollStatusChallenge; RefreshChallenge; RegisterChallenge; RouterLeaseChallenge;
  TokenExchangeChallenge; STSTokenChallenge; PoliciesChallenge; EgressChallenge; RevocationsChallenge;
  NodesCatalogChallenge ].

(** ** Round trip *)

Lemma byte_digit d : (0 ≤ d < 10)%Z → byte (digit d) = (48 + d)%Z.
Proof. intros. unfold byte, digit, char_of. rewrite Ascii.N_ascii_embedding; lia. Qed.

Lemma in_range_digit d : (0 ≤ d < 10)%Z → in_range 48 57 (digit d) = true.
Proof. intros. unfold in_range. rewrite byte_digit by done. apply andb_true_iff. split; apply Z.leb_le; lia. Qed.

(** The text of [n] continues a number that [acc] begins. *)
Lemma parse_format fuel n : (0 ≤ n < 2 ^ Z.of_nat fuel)%Z →
  ∀ acc rest, ∃ k, (0 ≤ k)%Z ∧ parse_digits acc (format_digits fuel n rest) = parse_digits (acc * 10 ^ k + n)%Z rest.
Proof.
  revert n. induction fuel as [|fuel IH]; intros n Hn acc rest.
  { exists 0%Z. split; [done|]. simpl in *. f_equal. lia. }
  cbn [format_digits]. pose proof (Z.mod_pos_bound n 10 ltac:(lia)) as Hm.
  destruct (n <? 10)%Z eqn:Hlt.
  - exists 1%Z. split; [lia|]. cbn [parse_digits]. rewrite in_range_digit, byte_digit by done. f_equal.
    apply Z.ltb_lt in Hlt. rewrite Z.mod_small by lia. lia.
  - apply Z.ltb_ge in Hlt.
    destruct (IH (n / 10)%Z) with (acc := acc) (rest := String (digit (n mod 10)) rest) as (k & Hk & ->).
    { rewrite Nat2Z.inj_succ, Z.pow_succ_r in Hn by lia. Z.to_euclidean_division_equations. lia. }
    exists (k + 1)%Z. split; [lia|]. cbn [parse_digits]. rewrite in_range_digit, byte_digit by done. f_equal.
    rewrite Z.pow_add_r by lia. pose proof (Z.div_mod n 10 ltac:(lia)). lia.
Qed.

Lemma format_digits_cons fuel n rest : ∃ c s, format_digits (S fuel) n rest = String c s ∧ in_range 48 57 c = true.
Proof.
  revert n rest. induction fuel as [|fuel IH]; intros n rest;
    pose proof (Z.mod_pos_bound n 10 ltac:(lia)) as Hm; cbn [format_digits]; destruct (n <? 10)%Z;
    eauto using in_range_digit.
Qed.

Lemma ParseUint_format n : (0 ≤ n < 2 ^ 64)%Z → ParseUint (format_digits (S (Z.to_nat (Z.log2 n))) n "") = Ok n.
Proof.
  intros Hn. unfold ParseUint.
  destruct (format_digits_cons (Z.to_nat (Z.log2 n)) n "") as (c & s & Hs & _).
  rewrite bool_decide_false by (by rewrite Hs).
  destruct (parse_format (S (Z.to_nat (Z.log2 n))) n) with (acc := 0%Z) (rest := "") as (k & _ & ->).
  { split; [lia|]. rewrite Nat2Z.inj_succ, Z2Nat.id by apply Z.log2_nonneg.
    destruct (decide (n = 0%Z)) as [->|]; [done|]. apply Z.log2_spec. lia. }
  simpl. unfold fail_if. rewrite (proj2 (Z.leb_gt _ _)) by lia. done.
Qed.

Lemma ParseInt_unsigned c s : in_range 48 57 c = true → ParseInt (String c s) =
  (un ← ParseUint (String c s); fail_if (2 ^ 63 <=? un)%Z "value out of range";; Ok un).
Proof.
  intros Hc. unfold ParseInt.
  assert (c ≠ "+"%char ∧ c ≠ "-"%char) as [Hp Hm] by (split; intros ->; by vm_compute in Hc).
  destruct c as [[] [] [] [] [] [] [] []]; try done;
    destruct (ParseUint _); simpl; try done; by destruct (2 ^ 63 <=? _)%Z.
Qed.

Lemma ParseInt_Format n : (- 2 ^ 63 ≤ n < 2 ^ 63)%Z → ParseInt (FormatInt n) = Ok n.
Proof.
  intros Hn. unfold FormatInt. destruct (n <? 0)%Z eqn:Hneg.
  - apply Z.ltb_lt in Hneg. unfold ParseInt. rewrite ParseUint_format by lia. simpl.
    unfold fail_if. rewrite (proj2 (Z.ltb_ge _ _)) by lia. simpl. f_equal. lia.
  - apply Z.ltb_ge in Hneg. rewrite Z.abs_eq by done.
    destruct (format_digits_cons (Z.to_nat (Z.log2 n)) n "") as (c & s & Hs & Hc).
    rewrite Hs, ParseInt_unsigned, <-Hs, ParseUint_format by (done || lia). simpl.
    unfold fail_if. by rewrite (proj2 (Z.leb_gt _ _)) by lia.
Qed.

Lemma FormatInt_inj n m : (- 2 ^ 63 ≤ n < 2 ^ 63)%Z → (- 2 ^ 63 ≤ m < 2 ^ 63)%Z → FormatInt n = FormatInt m → n = m.
Proof. intros Hn Hm Heq. apply (inj Ok). by rewrite <-(ParseInt_Format n), <-(ParseInt_Format m), Heq. Qed.

(** ** A challenge binds its endpoint, its peer and its time *)

Lemma split_last (c : ascii) s1 t1 s2 t2 :
  c ∉ chars t1 → c ∉ chars t2 → s1 +:+ String c t1 = s2 +:+ String c t2 → s1 = s2 ∧ t1 = t2.
Proof.
  intros H1 H2. revert s2. induction s1 as [|d s1 IH]; intros [|d' s2]; rewrite ?app_nil_l, ?app_cons; intros [=].
  - done.
  - destruct H1. subst t1. rewrite chars_app. set_solver.
  - destruct H2. subst t2. rewrite chars_app. set_solver.
  - edestruct IH as [-> ->]; [done|]. by subst.
Qed.

Lemma chars_format fuel n rest c :
  c ∈ chars (format_digits fuel n rest) → in_range 48 57 c = true ∨ c ∈ chars rest.
Proof.
  revert n rest. induction fuel as [|fuel IH]; intros n rest; cbn [format_digits]; [by right|].
  assert (Hd : in_range 48 57 (digit (n mod 10)) = true) by (apply in_range_digit, Z.mod_pos_bound; lia).
  assert (Hcons : c ∈ chars (String (digit (n mod 10)) rest) → in_range 48 57 c = true ∨ c ∈ chars rest)
    by (intros [->|?]%elem_of_cons; auto).
  destruct (n <? 10)%Z; [done|]. intros [?|?]%IH; auto.
Qed.

Lemma FormatInt_no_colon n : ":"%char ∉ chars (FormatInt n).
Proof.
  unfold FormatInt. set (s := format_digits _ _ _).
  assert (Hs : ":"%char ∉ chars s).
  { intros [H|H]%chars_format; [by vm_compute in H|by apply elem_of_nil in H]. }
  destruct (n <? 0)%Z; [|done]. by intros [?|?]%elem_of_cons.
Qed.

Definition challenge_names : list string := [
  "enroll"; "enroll-status"; "refresh"; "register"; "routers-lease"; "token-exchange"; "sts-token"; "policies";
  "egress"; "revocations"; "nodes-catalog" ].

Lemma challenges_named i f : challenges !! i = Some f →
  ∃ name, challenge_names !! i = Some name ∧ (":"%char ∉ chars name) ∧
    ∀ p ts, f p ts = "mesh:" +:+ name +:+ String ":" (p +:+ String ":" (FormatInt ts)).
Proof.
  intros Hi. do 11 (destruct i as [|i]; [injection Hi as <-; eexists; split; [done|]; split;
    [apply (bool_decide_unpack _); by vm_compute | done]|]). done.
Qed.

(** A signature over a challenge is good for one endpoint, one peer and one
    time only: whatever strings the peers are, two of the texts the endpoints
    verify are equal only when they are the challenge of the same endpoint for
    the same peer and the same 64-bit timestamp. *)
Theorem challenge_binds i j f g p q s t :
  challenges !! i = Some f → challenges !! j = Some g →
  (- 2 ^ 63 ≤ s < 2 ^ 63)%Z → (- 2 ^ 63 ≤ t < 2 ^ 63)%Z →
  f p s = g q t → i = j ∧ p = q ∧ s = t.
Proof.
  intros (n1 & Hi & Hn1 & Hf)%challenges_named (n2 & Hj & Hn2 & Hg)%challenges_named Hs Ht.
  rewrite Hf, Hg. intros Heq%app_inv_head.
  assert (n1 = n2 ∧ p +:+ String ":" (FormatInt s) = q +:+ String ":" (FormatInt t)) as [-> Heq'].
  { pose proof (Cut_char n1 ":" Hn1 (p +:+ String ":" (FormatInt s))) as H1.
    pose proof (Cut_char n2 ":" Hn2 (q +:+ String ":" (FormatInt t))) as H2.
    rewrite Heq in H1. rewrite H1 in H2. by injection H2. }
  apply split_last in Heq' as [-> Hfmt]; try apply FormatInt_no_colon.
  split_and!; [|done|by apply FormatInt_inj].
  eapply (NoDup_lookup challenge_names); [apply (bool_decide_unpack _); by vm_compute|done|done].
Qed.

Lemma challenge_binds_witness :
  RefreshChallenge "12D3a" 1700000000000 = RefreshChallenge "12D3a" 1700000000000 ∧ 2 = 2 ∧ "12D3a" = "12D3a".
Proof.
  split; [done|].
  destruct (challenge_binds 2 2 RefreshChallenge RefreshChallenge "12D3a" "12D3a" 1700000000000 1700000000000) as (? & ? & _);
    [reflexivity..|lia|lia|reflexivity|]. done.
Defined.
