(* ===== verification/PolicyStore.v ===== *)
(** * The mesh policy in the store

    Roles, bindings and egress destinations as the rows a policy post writes
    and a read gives back ([saveMeshPolicyTx], [GetMeshPolicy],
    [saveEgressDestinationsTx] and [GetEgressDestinations] in
    [src/internal/storage/sql_store.go]).  The JSON forms of a narrowed grant,
    of a destination and of a list of strings are interfaces. *)

From S2P Require Import Prelude GoStrings Regex Names Biscuit NaiveEngine Facts DatalogText Grants Labels HTTPGrants PolicyRules Egress.

(** ** Encodings *)

Class PolicyCodec := {
  grant_Marshal : HTTPGrant → result string;
  grant_Unmarshal : string → result HTTPGrant;
  grant_roundtrip g s : grant_Marshal g = Ok s → grant_Unmarshal s = Ok g;
  dest_Marshal : EgressDestination → result string;
  dest_Unmarshal : string → result EgressDestination;
  dest_roundtrip d s : dest_Marshal d = Ok s → dest_Unmarshal s = Ok d ∧ TrimSpace s ≠ "";
  strings_Marshal : list string → result string;
  strings_Unmarshal : string → result (list string);
  strings_roundtrip l s : strings_Marshal l = Ok s → strings_Unmarshal s = Ok l;
}.

(** ** Tables *)

(** [role_permissions]: role, type and value of a resource. *)
Record permission := Permission { pm_role : string; pm_type : string; pm_value : string }.

(** [role_bindings] *)
Record binding_row := BindingRow { br_role : string; br_member : string }.

Record egress_row := {
  egr_name : string;
  egr_target_url : string;
  egr_credential : string;
  egr_served_by : string;
  egr_config_json : string;
}.

Record PolicyTables := {
  pt_roles : list string;
  pt_permissions : list permission;
  pt_bindings : list binding_row;
  pt_egress : list egress_row;
}.

Section store.
Context `{PolicyCodec}.

(** ** Writing *)

Definition permission_rows (r : PolicyRole) : result (list permission) :=
  let rows ty (values : list string) := Permission (role_name r) ty <$> values in
  grants ← collect grant_Marshal (omap id (role_http r));
  Ok (rows "target" (role_allowed_targets r) ++ rows "service" (role_allowed_services r) ++
      rows "custom_datalog" (role_custom_datalog r) ++ rows "label" (role_allowed_labels r) ++
      rows "publish" (role_allowed_publish r) ++ rows "http" grants).

(** The loop over the roles: the name is the primary key. *)
Fixpoint insert_roles (names : list string) (perms : list permission) (roles : list (option PolicyRole))
  : result (list string * list permission) :=
  match roles with
  | [] => Ok (names, perms)
  | None :: roles => insert_roles names perms roles
  | Some r :: roles =>
      fail_if (bool_decide (role_name r ∈ names)) "UNIQUE constraint failed: roles.name";;
      rows ← permission_rows r;
      insert_roles (names ++ [role_name r]) (perms ++ rows) roles
  end.

Definition insert_bindings (bindings : list (option PolicyBinding)) : list binding_row :=
  bindings ≫= λ ob, match ob with
                    | None => []
                    | Some b => BindingRow (binding_role b) <$> binding_members b
                    end.

(** With [foreign_keys], the role of a binding must be in the table. *)
Definition saveMeshPolicyTx (foreign_keys : bool) (roles : list (option PolicyRole)) (bindings : list (option PolicyBinding))
    (t : PolicyTables) : result PolicyTables :=
  '(names, perms) ← insert_roles [] [] roles;
  let rows := insert_bindings bindings in
  fail_if (foreign_keys && negb (forallb (λ b, bool_decide (br_role b ∈ names)) rows))
    "foreign key violation: role_bindings.role_name";;
  Ok {| pt_roles := names; pt_permissions := perms; pt_bindings := rows; pt_egress := pt_egress t |}.

Definition egress_rows (d : EgressDestination) : result egress_row :=
  servedBy ← strings_Marshal (eg_served_by d);
  cfgBytes ← dest_Marshal d;
  Ok {| egr_name := eg_name d; egr_target_url := eg_target_url d; egr_credential := eg_credential d;
        egr_served_by := servedBy; egr_config_json := cfgBytes |}.

(** The loop over the destinations: the name is the primary key. *)
Fixpoint insert_egress (rows : list egress_row) (egress : list (option EgressDestination)) : result (list egress_row) :=
  match egress with
  | [] => Ok rows
  | None :: egress => insert_egress rows egress
  | Some d :: egress =>
      row ← egress_rows d;
      fail_if (bool_decide (eg_name d ∈ egr_name <$> rows)) "UNIQUE constraint failed: egress_destinations.name";;
      insert_egress (rows ++ [row]) egress
  end.

Definition saveEgressDestinationsTx (egress : list (option EgressDestination)) (t : PolicyTables) : result PolicyTables :=
  rows ← insert_egress [] egress;
  Ok {| pt_roles := pt_roles t; pt_permissions := pt_permissions t; pt_bindings := pt_bindings t; pt_egress := rows |}.

(** A transaction: an error leaves the tables as they were.  The columns hold
    texts of any length: that PostgreSQL refuses a name that is longer than its
    column is not modelled. *)
Definition SavePolicyDocument (foreign_keys : bool) (roles : list (option PolicyRole)) (bindings : list (option PolicyBinding))
    (egress : list (option EgressDestination)) (t : PolicyTables) : result PolicyTables :=
  t ← saveMeshPolicyTx foreign_keys roles bindings t;
  saveEgressDestinationsTx egress t.

(** ** Reading *)

(** [ORDER BY] of text columns. *)
Fixpoint lex_leb (a b : list string) : bool :=
  match a, b with
  | x :: a, y :: b => if bool_decide (x = y) then lex_leb a b else bool_decide (String.le x y)
  | _, _ => true
  end.

Definition lex_le (a b : list string) : Prop := lex_leb a b = true.

#[global] Instance lex_le_dec : RelDecision lex_le := λ a b, bool_eq_dec (lex_leb a b) true.

Definition permission_key (p : permission) : list string := [pm_role p; pm_type p; pm_value p].
Definition binding_key (b : binding_row) : list string := [br_role b; br_member b].

Definition perm_le (p q : permission) : Prop := lex_le (permission_key p) (permission_key q).
Definition bind_le (p q : binding_row) : Prop := lex_le (binding_key p) (binding_key q).
Definition egress_le (p q : egress_row) : Prop := lex_le [egr_name p] [egr_name q].
#[global] Instance perm_le_dec : RelDecision perm_le := λ p q, lex_le_dec _ _.
#[global] Instance bind_le_dec : RelDecision bind_le := λ p q, lex_le_dec _ _.
#[global] Instance egress_le_dec : RelDecision egress_le := λ p q, lex_le_dec _ _.

Definition empty_role (name : string) : PolicyRole :=
  {| role_name := name; role_allowed_targets := []; role_allowed_services := []; role_custom_datalog := [];
     role_allowed_labels := []; role_http := []; role_allowed_publish := [] |}.

(** One row of [role_permissions] added to the role it names. *)
Definition add_permission (p : permission) (r : PolicyRole) : result PolicyRole :=
  let v := [pm_value p] in
  if bool_decide (pm_type p = "target") then
    Ok {| role_name := role_name r; role_allowed_targets := role_allowed_targets r ++ v; role_allowed_services := role_allowed_services r;
          role_custom_datalog := role_custom_datalog r; role_allowed_labels := role_allowed_labels r; role_http := role_http r;
          role_allowed_publish := role_allowed_publish r |}
  else if bool_decide (pm_type p = "service") then
    Ok {| role_name := role_name r; role_allowed_targets := role_allowed_targets r; role_allowed_services := role_allowed_services r ++ v;
          role_custom_datalog := role_custom_datalog r; role_allowed_labels := role_allowed_labels r; role_http := role_http r;
          role_allowed_publish := role_allowed_publish r |}
  else if bool_decide (pm_type p = "custom_datalog") then
    Ok {| role_name := role_name r; role_allowed_targets := role_allowed_targets r; role_allowed_services := role_allowed_services r;
          role_custom_datalog := role_custom_datalog r ++ v; role_allowed_labels := role_allowed_labels r; role_http := role_http r;
          role_allowed_publish := role_allowed_publish r |}
  else if bool_decide (pm_type p = "label") then
    Ok {| role_name := role_name r; role_allowed_targets := role_allowed_targets r; role_allowed_services := role_allowed_services r;
          role_custom_datalog := role_custom_datalog r; role_allowed_labels := role_allowed_labels r ++ v; role_http := role_http r;
          role_allowed_publish := role_allowed_publish r |}
  else if bool_decide (pm_type p = "publish") then
    Ok {| role_name := role_name r; role_allowed_targets := role_allowed_targets r; role_allowed_services := role_allowed_services r;
          role_custom_datalog := role_custom_datalog r; role_allowed_labels := role_allowed_labels r; role_http := role_http r;
          role_allowed_publish := role_allowed_publish r ++ v |}
  else if bool_decide (pm_type p = "http") then
    g ← wrap_err "stored http grant does not parse" (grant_Unmarshal (pm_value p));
    Ok {| role_name := role_name r; role_allowed_targets := role_allowed_targets r; role_allowed_services := role_allowed_services r;
          role_custom_datalog := role_custom_datalog r; role_allowed_labels := role_allowed_labels r; role_http := role_http r ++ [Some g];
          role_allowed_publish := role_allowed_publish r |}
  else Ok r.

(** The loop over the permissions: [rolesMap] holds the roles being built. *)
Fixpoint read_permissions (rolesMap : gmap string PolicyRole) (perms : list permission) : result (gmap string PolicyRole) :=
  match perms with
  | [] => Ok rolesMap
  | p :: perms =>
      match rolesMap !! pm_role p with
      | None => read_permissions rolesMap perms
      | Some r => r ← add_permission p r; read_permissions (<[pm_role p := r]> rolesMap) perms
      end
  end.

(** The loop over the bindings: a row of the role of the last binding joins it. *)
Definition add_binding (bindings : list PolicyBinding) (row : binding_row) : list PolicyBinding :=
  match last bindings with
  | Some b =>
      if bool_decide (binding_role b = br_role row)
      then removelast bindings ++ [{| binding_role := binding_role b; binding_members := binding_members b ++ [br_member row] |}]
      else bindings ++ [{| binding_role := br_role row; binding_members := [br_member row] |}]
  | None => [{| binding_role := br_role row; binding_members := [br_member row] |}]
  end.

Definition GetMeshPolicy (t : PolicyTables) : result (list (option PolicyRole) * list (option PolicyBinding)) :=
  let names := sort_Strings (pt_roles t) in
  rolesMap ← read_permissions (list_to_map ((λ name, (name, empty_role name)) <$> names))
               (merge_sort perm_le (pt_permissions t));
  let bindings := foldl add_binding [] (merge_sort bind_le (pt_bindings t)) in
  Ok ((λ name, rolesMap !! name) <$> names, Some <$> bindings).

Definition read_destination (row : egress_row) : result EgressDestination :=
  if negb (bool_decide (TrimSpace (egr_config_json row) = "")) then
    wrap_err "stored config_json does not parse" (dest_Unmarshal (egr_config_json row))
  else
    servedBy ← wrap_err "stored served_by does not parse" (strings_Unmarshal (egr_served_by row));
    Ok {| eg_name := egr_name row; eg_target_url := egr_target_url row; eg_credential := egr_credential row;
          eg_served_by := servedBy; eg_broker := None; eg_inspectors := []; eg_mode := EGRESS_MODE_HTTP; eg_ports := [];
          eg_preserve_host := false; eg_forward_context := false |}.

Definition GetEgressDestinations (t : PolicyTables) : result (list (option EgressDestination)) :=
  ds ← collect read_destination (merge_sort egress_le (pt_egress t));
  Ok (fmap (M:=list) Some ds).
End store.
