(* ===== verification/PolicyStoreFacts.v ===== *)
(** * A policy reads back as it was posted

    What [SavePolicyDocument] writes, [GetMeshPolicy] and
    [GetEgressDestinations] give back, up to the order of the lists. *)

From S2P Require Import Prelude GoStrings Regex Names Biscuit NaiveEngine Facts DatalogText Grants Labels HTTPGrants PolicyRules Egress PolicyStore.

(** ** Roles, up to the order of their entries *)

Record same_role (r r' : PolicyRole) : Prop := {
  sr_name : role_name r' = role_name r;
  sr_targets : role_allowed_targets r' ≡ₚ role_allowed_targets r;
  sr_services : role_allowed_services r' ≡ₚ role_allowed_services r;
  sr_custom : role_custom_datalog r' ≡ₚ role_custom_datalog r;
  sr_labels : role_allowed_labels r' ≡ₚ role_allowed_labels r;
  sr_publish : role_allowed_publish r' ≡ₚ role_allowed_publish r;
  sr_http : role_http r' ≡ₚ Some <$> omap id (role_http r);
}.

Section facts.
Context `{PC : PolicyCodec}.

(** ** Permissions of one role *)

(** The values of the rows of a type. *)
Definition values (ty : string) (perms : list permission) : list string :=
  pm_value <$> filter (λ p, pm_type p = ty) perms.

Lemma values_app ty l l' : values ty (l ++ l') = values ty l ++ values ty l'.
Proof. unfold values. by rewrite filter_app, fmap_app. Qed.

#[local] Instance values_perm ty : Proper ((≡ₚ) ==> (≡ₚ)) (values ty).
Proof. intros l l' Hl. unfold values. by rewrite Hl. Qed.

(** The rows of the type [http] are grants. *)
Definition grants_of (perms : list permission) (gs : list HTTPGrant) : Prop :=
  Forall2 (λ v g, grant_Unmarshal v = Ok g) (values "http" perms) gs.

(** The role that the rows add up to. *)
Fixpoint add_permissions (r : PolicyRole) (perms : list permission) : result PolicyRole :=
  match perms with
  | [] => Ok r
  | p :: perms => r ← add_permission p r; add_permissions r perms
  end.

(** The comparisons of a type that is known, and lists that are the same. *)
Ltac type_is :=
  repeat match goal with
         | |- context [bool_decide (?a = ?b)] => first [rewrite (bool_decide_true (a = b)) by done | rewrite (bool_decide_false (a = b)) by done]
         | H : context [bool_decide (?a = ?b)] |- _ =>
             first [rewrite (bool_decide_true (a = b)) in H by done | rewrite (bool_decide_false (a = b)) in H by done]
         end; cbn [app mbind result_bind] in *.
Ltac entries_eq :=
  cbn [role_name role_allowed_targets role_allowed_services role_custom_datalog role_allowed_labels role_http role_allowed_publish];
  rewrite <-?(assoc_L (++)); reflexivity.

Lemma add_permissions_spec perms r gs :
  grants_of perms gs →
  add_permissions r perms = Ok
    {| role_name := role_name r; role_allowed_targets := role_allowed_targets r ++ values "target" perms;
       role_allowed_services := role_allowed_services r ++ values "service" perms;
       role_custom_datalog := role_custom_datalog r ++ values "custom_datalog" perms;
       role_allowed_labels := role_allowed_labels r ++ values "label" perms;
       role_http := role_http r ++ (Some <$> gs); role_allowed_publish := role_allowed_publish r ++ values "publish" perms |}.
Proof.
  revert r gs. induction perms as [|[ro ty v] perms IH]; intros r gs Hgs.
  { apply Forall2_nil_inv_l in Hgs as ->. unfold values. cbn [add_permissions filter list_filter fmap list_fmap].
    rewrite !(right_id_L [] (++)). by destruct r. }
  assert (Hv : ∀ ty', values ty' (Permission ro ty v :: perms) = (if bool_decide (ty = ty') then [v] else []) ++ values ty' perms).
  { intros ty'. unfold values. rewrite filter_cons. simpl. by case_decide; case_bool_decide. }
  unfold grants_of in Hgs. rewrite Hv in Hgs. rewrite !Hv. cbn [add_permissions]. unfold add_permission. cbn [pm_type pm_value].
  destruct (decide (ty = "target")) as [->|H1]; [by type_is; rewrite (IH _ gs) by done; entries_eq|].
  destruct (decide (ty = "service")) as [->|H2]; [by type_is; rewrite (IH _ gs) by done; entries_eq|].
  destruct (decide (ty = "custom_datalog")) as [->|H3]; [by type_is; rewrite (IH _ gs) by done; entries_eq|].
  destruct (decide (ty = "label")) as [->|H4]; [by type_is; rewrite (IH _ gs) by done; entries_eq|].
  destruct (decide (ty = "publish")) as [->|H5]; [by type_is; rewrite (IH _ gs) by done; entries_eq|].
  destruct (decide (ty = "http")) as [->|H6].
  - type_is. apply Forall2_cons_inv_l in Hgs as (g & gs' & Hg & Hgs & ->). rewrite Hg. cbn [wrap_err mbind result_bind].
    rewrite (IH _ gs') by done. entries_eq.
  - type_is. rewrite (IH _ gs) by done. entries_eq.
Qed.

Local Abbreviation of_role name := (filter (λ p, pm_role p = name)).

(** The loop over the rows gives each role its own. *)
Lemma read_permissions_spec m perms :
  (∀ name r, m !! name = Some r → is_ok (add_permissions r (of_role name perms)) = true) →
  ∃ m', read_permissions m perms = Ok m' ∧
    ∀ name r, m !! name = Some r → ∃ r', m' !! name = Some r' ∧ add_permissions r (of_role name perms) = Ok r'.
Proof.
  revert m. induction perms as [|p perms IH]; intros m Hok; cbn [read_permissions].
  { exists m. split; [done|]. intros name r Hr. by exists r. }
  destruct (m !! pm_role p) as [r0|] eqn:Hr0; cycle 1.
  - destruct (IH m) as (m' & Hm' & Hspec).
    + intros name r Hr. specialize (Hok name r Hr). rewrite filter_cons in Hok. case_decide; [congruence|done].
    + exists m'. split; [done|]. intros name r Hr. rewrite filter_cons. case_decide; [congruence|by apply Hspec].
  - pose proof (Hok _ _ Hr0) as Hp. rewrite filter_cons, decide_True in Hp by done. cbn [add_permissions] in Hp.
    destruct (add_permission p r0) as [r1|] eqn:Hadd; [|done]. cbn [mbind result_bind] in *.
    assert (Hother : ∀ name r, m !! name = Some r → ∃ r2, <[pm_role p := r1]> m !! name = Some r2 ∧
              add_permissions r (of_role name (p :: perms)) = add_permissions r2 (of_role name perms)).
    { intros name r Hr. rewrite filter_cons. case_decide as Hn.
      - subst name. exists r1. rewrite lookup_insert_eq. split; [done|]. rewrite Hr0 in Hr. injection Hr as <-. cbn [add_permissions]. by rewrite Hadd.
      - exists r. by rewrite lookup_insert_ne by done. }
    destruct (IH (<[pm_role p := r1]> m)) as (m' & Hm' & Hspec).
    + intros name r. rewrite lookup_insert_Some. intros [[<- <-]|[Hne Hr]]; [done|].
      specialize (Hok name r Hr). by rewrite filter_cons, decide_False in Hok by done.
    + exists m'. split; [done|]. intros name r Hr. destruct (Hother name r Hr) as (r2 & Hr2 & ->). by apply Hspec.
Qed.

(** ** The rows of one role *)

Lemma values_rows (name ty : string) (vs : list string) ty' :
  values ty' (Permission name ty <$> vs) = if bool_decide (ty = ty') then vs else [].
Proof.
  unfold values. case_bool_decide as Hty.
  - rewrite filter_true; [|by intros p (v & -> & _)%list_elem_of_fmap]. rewrite <-list_fmap_compose. apply list_fmap_id.
  - rewrite filter_false; [done|]. by intros p (v & -> & _)%list_elem_of_fmap.
Qed.

Lemma permission_rows_spec r rows :
  permission_rows r = Ok rows →
  Forall (λ p, pm_role p = role_name r) rows ∧ grants_of rows (omap id (role_http r)) ∧
  values "target" rows = role_allowed_targets r ∧ values "service" rows = role_allowed_services r ∧
  values "custom_datalog" rows = role_custom_datalog r ∧ values "label" rows = role_allowed_labels r ∧
  values "publish" rows = role_allowed_publish r.
Proof.
  unfold permission_rows. intros (gs & Hgs & [= <-])%bind_Ok. apply collect_Ok in Hgs. split.
  { rewrite !Forall_app. split_and!; apply Forall_forall; by intros p (v & -> & _)%list_elem_of_fmap. }
  unfold grants_of. rewrite !values_app, !values_rows. type_is. rewrite ?(right_id_L [] (++)). split_and!; try done.
  apply Forall2_flip. eapply Forall2_impl; [exact Hgs|]. intros g v. apply grant_roundtrip.
Qed.

(** A role read from its rows in any order. *)
Lemma role_reads_back r rows rows' :
  permission_rows r = Ok rows → rows' ≡ₚ rows → ∃ r', add_permissions (empty_role (role_name r)) rows' = Ok r' ∧ same_role r r'.
Proof.
  intros (_ & Hgs & Ht & Hs & Hc & Hl & Hp)%permission_rows_spec Hperm.
  assert (Hperm' : values "http" rows ≡ₚ values "http" rows') by (by rewrite Hperm).
  destruct (Permutation_Forall2 Hperm' Hgs) as (gs' & Hgs' & Hall).
  eexists. split; [by apply add_permissions_spec|]. split; simpl; try (by rewrite Hperm, ?Ht, ?Hs, ?Hc, ?Hl, ?Hp); [done|].
  by rewrite Hgs'.
Qed.

(** ** The rows of all roles *)

Lemma insert_roles_spec roles names perms names' perms' :
  insert_roles names perms roles = Ok (names', perms') → NoDup names →
  ∃ rowss, Forall2 (λ r rows, permission_rows r = Ok rows) (omap id roles) rowss ∧
    names' = names ++ (role_name <$> omap id roles) ∧ perms' = perms ++ concat rowss ∧ NoDup names'.
Proof.
  revert names perms. induction roles as [|[r|] roles IH]; intros names perms; cbn [insert_roles].
  - intros [= <- <-] Hnd. exists []. simpl. by rewrite !(right_id_L [] (++)).
  - rewrite bind_unit_Ok, fail_if_Ok, bool_decide_eq_false. intros (Hfresh & (rows & Hrows & Hrest)%bind_Ok) Hnd.
    apply IH in Hrest as (rowss & Hall & -> & -> & Hnd'); [|by apply NoDup_app; split_and!; [done|set_solver|apply NoDup_singleton]].
    exists (rows :: rowss). change (omap id (Some r :: roles)) with (r :: omap id roles). cbn [fmap list_fmap concat].
    rewrite <-!(assoc_L (++)) in *. simpl in *. split_and!; [by constructor|done..].
  - apply IH.
Qed.

(** The rows of a role among the rows of all. *)
Lemma of_role_rows rs rowss r rows :
  Forall2 (λ r rows, permission_rows r = Ok rows) rs rowss → NoDup (role_name <$> rs) → r ∈ rs → permission_rows r = Ok rows →
  of_role (role_name r) (concat rowss) = rows.
Proof.
  intros Hall. induction Hall as [|r0 rows0 rs rowss Hr0 Hall IH]; [by intros _ ?%elem_of_nil|].
  cbn [fmap list_fmap]. intros [Hfresh Hnd]%NoDup_cons Hin Hrows. cbn [concat]. rewrite filter_app.
  assert (Hother : ∀ r1, role_name r1 ∉ role_name <$> rs → of_role (role_name r1) (concat rowss) = []).
  { clear -Hall. intros r1 Hr1. apply filter_false. intros p Hp Heq. apply list_elem_of_In, in_concat in Hp as (rows & Hrows & Hp).
    apply list_elem_of_In, list_elem_of_lookup in Hrows as [i Hi]. destruct (Forall2_lookup_r _ _ _ _ _ Hall Hi) as (r & Hr & Hrows).
    apply permission_rows_spec in Hrows as [Hro _]. rewrite Forall_forall in Hro. rewrite (Hro p) in Heq by (by apply list_elem_of_In).
    apply Hr1. rewrite <-Heq. apply list_elem_of_fmap_2. by eapply list_elem_of_lookup_2. }
  apply elem_of_cons in Hin as [->|Hin].
  - rewrite Hr0 in Hrows. injection Hrows as ->. rewrite Hother, (right_id_L [] (++)) by done.
    apply permission_rows_spec in Hr0 as [Hro _]. rewrite Forall_forall in Hro. by apply filter_true.
  - rewrite filter_false; [by apply IH|]. intros p Hp Heq. apply permission_rows_spec in Hr0 as [Hro _]. rewrite Forall_forall in Hro.
    rewrite (Hro p Hp) in Heq. apply Hfresh. rewrite Heq. by apply list_elem_of_fmap_2.
Qed.

Lemma lookup_all {A B} (f : A → option B) (P : A → B → Prop) l :
  (∀ x, x ∈ l → ∃ y, f x = Some y ∧ P x y) → ∃ ys, f <$> l = Some <$> ys ∧ Forall2 P l ys.
Proof.
  induction l as [|x l IH]; intros Hl; [exists []; by split; [|constructor]|].
  destruct (Hl x) as (y & Hy & HP); [by left|]. destruct IH as (ys & Hys & HPs); [intros z Hz; apply Hl; by right|].
  exists (y :: ys). cbn [fmap list_fmap]. split; [|by constructor]. rewrite Hy. by f_equal.
Qed.

Lemma empty_roles_lookup names name r :
  (list_to_map ((λ name, (name, empty_role name)) <$> names) : gmap string PolicyRole) !! name = Some r → r = empty_role name ∧ name ∈ names.
Proof. intros Hr%elem_of_list_to_map_2. apply list_elem_of_fmap in Hr as (n & [= -> ->] & Hn). done. Qed.

Lemma empty_roles_in names name : name ∈ names →
  (list_to_map ((λ name, (name, empty_role name)) <$> names) : gmap string PolicyRole) !! name = Some (empty_role name).
Proof.
  induction names as [|n names IH]; [by intros ?%elem_of_nil|]. cbn [fmap list_fmap list_to_map foldr]. simpl.
  destruct (decide (n = name)) as [->|Hne]; [by rewrite lookup_insert_eq|]. rewrite lookup_insert_ne by done.
  intros [->|Hin]%elem_of_cons; [done|by apply IH].
Qed.

Lemma roles_read_back rs rowss :
  Forall2 (λ r rows, permission_rows r = Ok rows) rs rowss → NoDup (role_name <$> rs) →
  let names := sort_Strings (role_name <$> rs) in
  ∃ m rs', read_permissions (list_to_map ((λ name, (name, empty_role name)) <$> names)) (merge_sort perm_le (concat rowss)) = Ok m ∧
    (λ name, m !! name) <$> names = Some <$> rs' ∧
    Forall2 (λ name r', ∃ r, r ∈ rs ∧ role_name r = name ∧ same_role r r') names rs'.
Proof.
  intros Hall Hnd names.
  assert (Hread : ∀ name, name ∈ names → ∃ r r', r ∈ rs ∧ role_name r = name ∧ same_role r r' ∧
            add_permissions (empty_role name) (of_role name (merge_sort perm_le (concat rowss))) = Ok r').
  { intros name Hname. unfold names in Hname. rewrite elem_of_sort_Strings in Hname. apply list_elem_of_fmap in Hname as (r & -> & Hr).
    pose proof Hr as [i Hi]%list_elem_of_lookup. destruct (Forall2_lookup_l _ _ _ _ _ Hall Hi) as (rows & _ & Hrows).
    destruct (role_reads_back r rows (of_role (role_name r) (merge_sort perm_le (concat rowss)))) as (r' & Hr' & Hsame); [done| |eauto 10].
    rewrite merge_sort_Permutation. by rewrite (of_role_rows rs rowss r rows). }
  destruct (read_permissions_spec (list_to_map ((λ name, (name, empty_role name)) <$> names)) (merge_sort perm_le (concat rowss))) as (m & Hm & Hspec).
  { intros name r (-> & Hname)%empty_roles_lookup. destruct (Hread name Hname) as (? & r' & _ & _ & _ & ->). done. }
  destruct (lookup_all (λ name, m !! name) (λ name r', ∃ r, r ∈ rs ∧ role_name r = name ∧ same_role r r') names) as (rs' & Hl & HP).
  { intros name Hname. destruct (Hread name Hname) as (r & r' & Hr & Hn & Hsame & Hadd).
    destruct (Hspec name _ (empty_roles_in names name Hname)) as (r2 & Hr2 & Hadd2). exists r2. split; [done|].
    rewrite Hadd in Hadd2. injection Hadd2 as <-. by exists r. }
  by exists m, rs'.
Qed.

(** ** Bindings *)

Definition binds (bindings : list (option PolicyBinding)) (role member : string) : Prop :=
  ∃ b, Some b ∈ bindings ∧ binding_role b = role ∧ member ∈ binding_members b.

Lemma binds_app l l' role m : binds (l ++ l') role m ↔ binds l role m ∨ binds l' role m.
Proof. unfold binds. setoid_rewrite elem_of_app. naive_solver. Qed.

Lemma binds_single b role m : binds [Some b] role m ↔ binding_role b = role ∧ m ∈ binding_members b.
Proof.
  unfold binds. setoid_rewrite list_elem_of_singleton. split; [by intros (b' & [= ->] & ?)|]. intros ?. by exists b.
Qed.

Lemma add_binding_binds bs row role m :
  binds (Some <$> add_binding bs row) role m ↔ binds (Some <$> bs) role m ∨ br_role row = role ∧ m = br_member row.
Proof.
  unfold add_binding. destruct (last bs) as [b|] eqn:Hl; cycle 1.
  { apply last_None in Hl as ->. rewrite (binds_single {| binding_role := br_role row; binding_members := [br_member row] |}).
    cbn [binding_role binding_members]. rewrite list_elem_of_singleton. split; [by right|]. intros [(b & ?%elem_of_nil & _)|?]; done. }
  apply last_Some in Hl as [bs' ->]. case_bool_decide as Hr.
  - rewrite removelast_last, !fmap_app, !binds_app. cbn [fmap list_fmap]. rewrite !binds_single. cbn [binding_role binding_members].
    rewrite elem_of_app, list_elem_of_singleton. naive_solver.
  - rewrite (fmap_app Some (bs' ++ [b])), binds_app. cbn [fmap list_fmap]. rewrite binds_single. cbn [binding_role binding_members].
    by rewrite list_elem_of_singleton.
Qed.

Lemma add_bindings_binds rows bs role m :
  binds (Some <$> foldl add_binding bs rows) role m ↔ binds (Some <$> bs) role m ∨ BindingRow role m ∈ rows.
Proof.
  revert bs. induction rows as [|row rows IH]; intros bs; cbn [foldl]; [rewrite elem_of_nil; tauto|].
  rewrite IH, add_binding_binds, elem_of_cons. destruct row as [ro me]. simpl. naive_solver.
Qed.

Lemma elem_of_insert_bindings bindings role m : BindingRow role m ∈ insert_bindings bindings ↔ binds bindings role m.
Proof.
  unfold insert_bindings, binds. rewrite list_elem_of_bind. split.
  - intros ([b|] & Hin & Hb); [|by apply elem_of_nil in Hin]. apply list_elem_of_fmap in Hin as (m' & [= -> ->] & Hm). eauto.
  - intros (b & Hb & <- & Hm). exists (Some b). split; [|done]. by apply list_elem_of_fmap_2.
Qed.

(** ** Destinations *)

Lemma insert_egress_spec egress rows rows' :
  insert_egress rows egress = Ok rows' →
  ∃ new, rows' = rows ++ new ∧ Forall2 (λ row d, egress_rows d = Ok row) new (omap id egress).
Proof.
  revert rows. induction egress as [|[d|] egress IH]; intros rows; cbn [insert_egress].
  - intros [= <-]. exists []. rewrite (right_id_L [] (++)). by split; [|constructor].
  - intros (row & Hrow & Hrest)%bind_Ok. apply bind_unit_Ok in Hrest as [_ Hrest]. apply IH in Hrest as (new & -> & Hall).
    exists (row :: new). rewrite <-(assoc_L (++)). split; [done|]. by constructor.
  - apply IH.
Qed.

Lemma egress_rows_read d row : egress_rows d = Ok row → read_destination row = Ok d.
Proof.
  unfold egress_rows. intros (servedBy & _ & (cfg & Hcfg & [= <-])%bind_Ok)%bind_Ok. unfold read_destination. cbn [egr_config_json].
  apply dest_roundtrip in Hcfg as [Hd Hne]. rewrite bool_decide_false by done. cbn [negb]. by rewrite Hd.
Qed.

(** C37: A policy document reads back as it was posted.  When it is saved, the
    roles read back are the posted ones sorted by name, each with the same
    targets, services, custom Datalog, labels, publish patterns and narrowed
    grants up to order; the bindings read back bind the same members to the
    same roles; and the destinations read back are the posted ones. *)
Theorem policy_roundtrip foreign_keys roles bindings egress t t' :
  SavePolicyDocument foreign_keys roles bindings egress t = Ok t' →
  ∃ rs' bindings' egress',
    GetMeshPolicy t' = Ok (Some <$> rs', bindings') ∧ GetEgressDestinations t' = Ok egress' ∧
    Forall2 (λ name r', ∃ r, Some r ∈ roles ∧ role_name r = name ∧ same_role r r') (sort_Strings (role_name <$> omap id roles)) rs' ∧
    (∀ role m, binds bindings' role m ↔ binds bindings role m) ∧
    egress' ≡ₚ Some <$> omap id egress.
Proof.
  unfold SavePolicyDocument, saveMeshPolicyTx, saveEgressDestinationsTx.
  intros (t1 & (pair & Hroles & Ht1)%bind_Ok & (rows & Hegress & [= <-])%bind_Ok)%bind_Ok. destruct pair as [names perms].
  rewrite bind_unit_Ok in Ht1. destruct Ht1 as [_ [= <-]]. cbn [pt_egress pt_roles pt_permissions pt_bindings].
  apply insert_roles_spec in Hroles as (rowss & Hall & -> & -> & Hnd); [|apply NoDup_nil_2]. cbn [app] in *.
  destruct (roles_read_back _ _ Hall Hnd) as (m & rs' & Hm & Hl & HP).
  apply insert_egress_spec in Hegress as (new & -> & Hnew). cbn [app].
  assert (Hdest : Forall2 (λ row d, read_destination row = Ok d) new (omap id egress)).
  { eapply Forall2_impl; [exact Hnew|]. intros row d. apply egress_rows_read. }
  destruct (Permutation_Forall2 (symmetry (merge_sort_Permutation egress_le new)) Hdest) as (ds & Hds & Hsorted).
  exists rs', (Some <$> foldl add_binding [] (merge_sort bind_le (insert_bindings bindings))), (Some <$> ds). split_and!.
  - unfold GetMeshPolicy. cbn [pt_roles pt_permissions pt_bindings]. rewrite Hm. cbn [mbind result_bind]. by rewrite Hl.
  - unfold GetEgressDestinations. cbn [pt_egress]. by rewrite (proj2 (collect_Ok _ _ _) Hsorted).
  - eapply Forall2_impl; [exact HP|]. intros name r' (r & Hr & Hn & Hsame). exists r. split_and!; [|done..].
    apply list_elem_of_omap in Hr as (o & Ho & Heq). simpl in Heq. by subst o.
  - intros role mem. rewrite add_bindings_binds, merge_sort_Permutation, elem_of_insert_bindings. split; [|by right].
    by intros [(b & ?%elem_of_nil & _)|?].
  - by rewrite Hds.
Qed.
End facts.

(** ** Witness *)

#[local] Instance HTTPGrant_eq_dec : EqDecision HTTPGrant.
Proof. solve_decision. Defined.
#[local] Instance OidcFederation_eq_dec : EqDecision OidcFederation.
Proof. solve_decision. Defined.
#[local] Instance CredentialBroker_eq_dec : EqDecision CredentialBroker.
Proof. solve_decision. Defined.
#[local] Instance ExtProc_eq_dec : EqDecision ExtProc.
Proof. solve_decision. Defined.
#[local] Instance Inspector_eq_dec : EqDecision Inspector.
Proof. solve_decision. Defined.
#[local] Instance EgressDestination_eq_dec : EqDecision EgressDestination.
Proof. solve_decision. Defined.

(** An encoding that knows one value. *)
Definition one_Marshal {A} `{EqDecision A} (x : A) (text : string) (y : A) : result string :=
  if decide (y = x) then Ok text else fail "not encoded".
Definition one_Unmarshal {A} (x : A) (text s : string) : result A := if bool_decide (s = text) then Ok x else fail "not decoded".

Lemma one_roundtrip {A} `{EqDecision A} (x : A) text y s : one_Marshal x text y = Ok s → one_Unmarshal x text s = Ok y ∧ s = text.
Proof. unfold one_Marshal, one_Unmarshal. case_decide as Hy; [|done]. intros [= <-]. by rewrite bool_decide_true, Hy. Qed.

Definition read_only : HTTPGrant := {| hg_service := "mcp://calc"; hg_methods := ["GET"]; hg_paths := [] |}.

#[refine] Definition one_value_codec : PolicyCodec :=
  {| grant_Marshal := one_Marshal read_only "get"; grant_Unmarshal := one_Unmarshal read_only "get";
     dest_Marshal := one_Marshal egress_example "github"; dest_Unmarshal := one_Unmarshal egress_example "github";
     strings_Marshal := one_Marshal ["gw"; "zone=dmz"] "gw"; strings_Unmarshal := one_Unmarshal ["gw"; "zone=dmz"] "gw" |}.
Proof.
  - intros g s Hs. by apply one_roundtrip in Hs as [? _].
  - intros d s Hs. apply one_roundtrip in Hs as [? ->]. done.
  - intros l s Hs. by apply one_roundtrip in Hs as [? _].
Defined.

Definition posted_roles : list (option PolicyRole) :=
  [Some {| role_name := "ops"; role_allowed_targets := ["*"]; role_allowed_services := ["mcp://calc"]; role_custom_datalog := [];
           role_allowed_labels := ["zone=*"]; role_http := [Some read_only]; role_allowed_publish := [] |}; None;
   Some {| role_name := "dev"; role_allowed_targets := []; role_allowed_services := ["mcp://b"; "mcp://a"]; role_custom_datalog := [];
           role_allowed_labels := []; role_http := []; role_allowed_publish := [] |}].

Definition posted_bindings : list (option PolicyBinding) :=
  [Some {| binding_role := "ops"; binding_members := ["user:z"; "user:y"] |}; Some {| binding_role := "dev"; binding_members := ["user:x"] |};
   Some {| binding_role := "ops"; binding_members := ["user:w"] |}].

Definition empty_tables : PolicyTables := {| pt_roles := []; pt_permissions := []; pt_bindings := []; pt_egress := [] |}.

Definition posted_tables : PolicyTables :=
  match @SavePolicyDocument one_value_codec true posted_roles posted_bindings [Some egress_example] empty_tables with
  | Ok t => t
  | Err _ => empty_tables
  end.

Lemma policy_roundtrip_witness :
  (match @GetMeshPolicy one_value_codec posted_tables with
   | Ok (roles, bindings) => (map role_name (omap (M:=list) id roles), map binding_members (omap (M:=list) id bindings))
   | Err _ => ([], [])
   end = (["dev"; "ops"], [["user:x"]; ["user:w"; "user:y"; "user:z"]])) ∧
  ∃ rs' bindings' egress',
    @GetMeshPolicy one_value_codec posted_tables = Ok (fmap (M:=list) Some rs', bindings') ∧
    @GetEgressDestinations one_value_codec posted_tables = Ok egress' ∧ egress' ≡ₚ [Some egress_example].
Proof.
  split; [by vm_compute|].
  destruct (@policy_roundtrip one_value_codec true posted_roles posted_bindings [Some egress_example] empty_tables posted_tables)
    as (rs' & bindings' & egress' & Hr & He & _ & _ & Hp); [by vm_compute|].
  exists rs', bindings', egress'. split; [exact Hr|]. split; [exact He|exact Hp].
Defined.
