(* ===== verification/Store.v ===== *)
(** * The control plane's store

    The tables of the control plane's database and the operations on them
    ([src/internal/storage/storage.go], [src/internal/storage/sql_store.go]):
    enrolled nodes, users, bootstrap tokens, enrollment requests, banned
    identities and router leases; the keyring is in [Keyring] and the mesh
    policy in [PolicyStore].  A statement or
    a transaction is one step, a function of the tables.  A table with a
    primary key is a finite map; the enrollment requests, which have two keys,
    are the list of their rows.  Instants are stored in milliseconds: a write
    keeps the instant a read will give back.  The JSON of a label map is not
    modelled: a row holds the map. *)

From S2P Require Import Prelude GoStrings Biscuit Tar Token Middleware Directory Keyring PolicyStore.

(** ** Errors *)

Definition ErrNotFound : error := NewError "not found".
Definition ErrNodeBanned : error := NewError "node is banned".
Definition ErrNodeSessionExpired : error := NewError "node session expired".
Definition ErrBootstrapTokenUnusable : error := NewError "bootstrap token is expired, revoked or exhausted".
Definition ErrEnrollmentAlreadyResolved : error := NewError "enrollment request is already resolved".

(** ** Instants *)

(** [time.UnixMilli(ms)], and an instant as it reads back from a column. *)
Definition of_UnixMilli (ms : Z) : time := (ms * 1000000)%Z.
Definition stored (t : time) : time := of_UnixMilli (UnixMilli t).

(** [t.IsZero()] *)
Definition IsZero (t : time) : bool := bool_decide (t = zero_time).

(** ** Rows *)

Record User := {
  u_ID : string;
  u_Issuer : string;
  u_Email : string;
  u_Role : string;
  u_CreatedAt : time;
}.

Definition IdentityKey (u : User) : string := u_Issuer u +:+ "|" +:+ u_ID u.

Record EnrolledNode := {
  en_PeerID : string;
  en_PublicKey : string;
  en_Biscuit : string;
  en_Role : string;
  en_EnrollmentType : string;
  en_ClaimsJSON : string;
  en_OwnerID : string;
  en_Labels : gmap string string;
  en_EnrolledAt : time;
  en_ExpiresAt : time;
  en_Banned : bool;
  en_AutonomousRecovery : bool;
  en_Ephemeral : bool;
}.

Record BootstrapToken := {
  bt_ID : string;
  bt_TokenHash : string;
  bt_Role : string;
  bt_OwnerID : string;
  bt_MaxUsages : Z;
  bt_UsagesCount : Z;
  bt_Description : string;
  bt_CreatedAt : time;
  bt_ExpiresAt : time;
  bt_RevokedAt : option time;
  bt_AutonomousRecovery : bool;
  bt_Ephemeral : bool;
}.

Definition IsRevoked (t : BootstrapToken) : bool := negb (bool_decide (bt_RevokedAt t = None)).

Inductive EnrollmentStatus :=
| ENROLLMENT_STATUS_UNSPECIFIED
| ENROLLMENT_STATUS_PENDING
| ENROLLMENT_STATUS_APPROVED
| ENROLLMENT_STATUS_REJECTED.

#[export] Instance EnrollmentStatus_eq_dec : EqDecision EnrollmentStatus.
Proof. solve_decision. Defined.

Record EnrollmentRequest := {
  er_ID : string;
  er_PeerID : string;
  er_PublicKey : string;
  er_TokenID : string;
  er_Status : EnrollmentStatus;
  er_Labels : gmap string string;
  er_BiscuitToken : string;
  er_CreatedAt : time;
  er_ResolvedAt : option time;
  er_ResolvedBy : string;
}.

Record RouterLease := {
  rl_PeerID : string;
  rl_Addresses : list string;
  rl_LastRenewal : time;
  rl_ExpiresAt : time;
  rl_ConnectedPeers : list string;
  rl_DHTSize : Z;
  rl_Connections : Z;
  rl_ConnectionLimit : Z;
}.

(** ** Admission *)

Definition CheckAdmission (now : time) (n : EnrolledNode) : result unit :=
  if en_Banned n then Err ErrNodeBanned
  else if negb (IsZero (en_ExpiresAt n)) && (en_ExpiresAt n <? now)%Z then Err ErrNodeSessionExpired
  else Ok tt.

Inductive NodeState := NodeAdmitted | NodeExpired | NodeBanned | NodeStateOther (s : string).

(** The condition of a [WHERE] clause on the row, with the argument [now]. *)
Definition nodeStateWhere (state : NodeState) (now : time) : result (EnrolledNode → bool) :=
  let ms := UnixMilli now in
  match state with
  | NodeBanned => Ok en_Banned
  | NodeExpired => Ok (λ n, negb (en_Banned n) && (0 <? UnixMilli (en_ExpiresAt n))%Z && (UnixMilli (en_ExpiresAt n) <? ms)%Z)
  | NodeAdmitted => Ok (λ n, (negb (en_Banned n) && (UnixMilli (en_ExpiresAt n) <=? 0)%Z) ||
                             (negb (en_Banned n) && (ms <=? UnixMilli (en_ExpiresAt n))%Z))
  | NodeStateOther _ => fail "unknown node state"
  end.

(** ** The database *)

Local Abbreviation table A := (gmap string A).

Record Database := {
  db_postgres : bool;  (** foreign keys are enforced; SQLite leaves them unchecked *)
  db_keyring : list KeyRow;
  db_nodes : table EnrolledNode;
  db_users : table User;
  db_tokens : table BootstrapToken;
  db_requests : list EnrollmentRequest;
  db_banned_identities : table Z;
  db_routers : table RouterLease;
  db_policy : PolicyTables;
  db_revoked_biscuits : table Z;
}.

Definition set_nodes (db : Database) (nodes : table EnrolledNode) : Database :=
  {| db_postgres := db_postgres db; db_keyring := db_keyring db; db_nodes := nodes; db_users := db_users db;
     db_tokens := db_tokens db; db_requests := db_requests db; db_banned_identities := db_banned_identities db;
     db_routers := db_routers db; db_policy := db_policy db;
     db_revoked_biscuits := db_revoked_biscuits db |}.
Definition set_users (db : Database) (users : table User) : Database :=
  {| db_postgres := db_postgres db; db_keyring := db_keyring db; db_nodes := db_nodes db; db_users := users;
     db_tokens := db_tokens db; db_requests := db_requests db; db_banned_identities := db_banned_identities db;
     db_routers := db_routers db; db_policy := db_policy db;
     db_revoked_biscuits := db_revoked_biscuits db |}.
Definition set_tokens (db : Database) (tokens : table BootstrapToken) : Database :=
  {| db_postgres := db_postgres db; db_keyring := db_keyring db; db_nodes := db_nodes db; db_users := db_users db;
     db_tokens := tokens; db_requests := db_requests db; db_banned_identities := db_banned_identities db;
     db_routers := db_routers db; db_policy := db_policy db;
     db_revoked_biscuits := db_revoked_biscuits db |}.
Definition set_requests (db : Database) (requests : list EnrollmentRequest) : Database :=
  {| db_postgres := db_postgres db; db_keyring := db_keyring db; db_nodes := db_nodes db; db_users := db_users db;
     db_tokens := db_tokens db; db_requests := requests; db_banned_identities := db_banned_identities db;
     db_routers := db_routers db; db_policy := db_policy db;
     db_revoked_biscuits := db_revoked_biscuits db |}.
Definition set_banned_identities (db : Database) (banned : table Z) : Database :=
  {| db_postgres := db_postgres db; db_keyring := db_keyring db; db_nodes := db_nodes db; db_users := db_users db;
     db_tokens := db_tokens db; db_requests := db_requests db; db_banned_identities := banned;
     db_routers := db_routers db; db_policy := db_policy db;
     db_revoked_biscuits := db_revoked_biscuits db |}.
Definition set_routers (db : Database) (routers : table RouterLease) : Database :=
  {| db_postgres := db_postgres db; db_keyring := db_keyring db; db_nodes := db_nodes db; db_users := db_users db;
     db_tokens := db_tokens db; db_requests := db_requests db; db_banned_identities := db_banned_identities db;
     db_routers := routers; db_policy := db_policy db;
     db_revoked_biscuits := db_revoked_biscuits db |}.
Definition set_policy (db : Database) (policy : PolicyTables) : Database :=
  {| db_postgres := db_postgres db; db_keyring := db_keyring db; db_nodes := db_nodes db; db_users := db_users db;
     db_tokens := db_tokens db; db_requests := db_requests db; db_banned_identities := db_banned_identities db;
     db_routers := db_routers db; db_policy := policy;
     db_revoked_biscuits := db_revoked_biscuits db |}.
Definition set_revoked_biscuits (db : Database) (revoked : table Z) : Database :=
  {| db_postgres := db_postgres db; db_keyring := db_keyring db; db_nodes := db_nodes db; db_users := db_users db;
     db_tokens := db_tokens db; db_requests := db_requests db; db_banned_identities := db_banned_identities db;
     db_routers := db_routers db; db_policy := db_policy db; db_revoked_biscuits := revoked |}.

(** [SELECT ... WHERE key = ?] of one row. *)
Definition query_row {A} (row : option A) : result A :=
  match row with Some a => Ok a | None => Err ErrNotFound end.

(** [REFERENCES users(id)] of a column that is NULL when empty. *)
Definition owner_known (db : Database) (owner : string) : bool :=
  negb (db_postgres db) || bool_decide (owner = "") || bool_decide (is_Some (db_users db !! owner)).

(** ** Nodes *)

Definition set_banned (banned : bool) (n : EnrolledNode) : EnrolledNode :=
  {| en_PeerID := en_PeerID n; en_PublicKey := en_PublicKey n; en_Biscuit := en_Biscuit n; en_Role := en_Role n;
     en_EnrollmentType := en_EnrollmentType n; en_ClaimsJSON := en_ClaimsJSON n; en_OwnerID := en_OwnerID n;
     en_Labels := en_Labels n; en_EnrolledAt := en_EnrolledAt n; en_ExpiresAt := en_ExpiresAt n; en_Banned := banned;
     en_AutonomousRecovery := en_AutonomousRecovery n; en_Ephemeral := en_Ephemeral n |}.

Definition set_autonomous (enabled : bool) (n : EnrolledNode) : EnrolledNode :=
  {| en_PeerID := en_PeerID n; en_PublicKey := en_PublicKey n; en_Biscuit := en_Biscuit n; en_Role := en_Role n;
     en_EnrollmentType := en_EnrollmentType n; en_ClaimsJSON := en_ClaimsJSON n; en_OwnerID := en_OwnerID n;
     en_Labels := en_Labels n; en_EnrolledAt := en_EnrolledAt n; en_ExpiresAt := en_ExpiresAt n; en_Banned := en_Banned n;
     en_AutonomousRecovery := enabled; en_Ephemeral := en_Ephemeral n |}.

(** The row written for [node]: a conflict on the peer keeps the column
    [banned] as it is, and a row that is new is not banned. *)
Definition node_row (now : time) (node : EnrolledNode) (banned : bool) : EnrolledNode :=
  let EnrolledAt := if IsZero (en_EnrolledAt node) then now else en_EnrolledAt node in
  {| en_PeerID := en_PeerID node; en_PublicKey := en_PublicKey node; en_Biscuit := en_Biscuit node;
     en_Role := en_Role node; en_EnrollmentType := en_EnrollmentType node; en_ClaimsJSON := en_ClaimsJSON node;
     en_OwnerID := en_OwnerID node; en_Labels := en_Labels node; en_EnrolledAt := stored EnrolledAt;
     en_ExpiresAt := stored (en_ExpiresAt node); en_Banned := banned;
     en_AutonomousRecovery := en_AutonomousRecovery node; en_Ephemeral := en_Ephemeral node |}.

Definition EnrollNode (now : time) (node : EnrolledNode) (db : Database) : result Database :=
  fail_if (negb (owner_known db (en_OwnerID node))) "foreign key violation: nodes.owner_id";;
  let banned := match db_nodes db !! en_PeerID node with Some old => en_Banned old | None => false end in
  Ok (set_nodes db (<[en_PeerID node := node_row now node banned]> (db_nodes db))).

Definition GetNode (peerID : string) (db : Database) : result EnrolledNode := query_row (db_nodes db !! peerID).

(** [UPDATE nodes SET ... WHERE peer_id = ?] *)
Definition update_node (peerID : string) (f : EnrolledNode → EnrolledNode) (db : Database) : result Database :=
  match db_nodes db !! peerID with
  | None => Err ErrNotFound
  | Some n => Ok (set_nodes db (<[peerID := f n]> (db_nodes db)))
  end.

Definition SetNodeBanned (peerID : string) (banned : bool) : Database → result Database := update_node peerID (set_banned banned).

Definition SetNodeAutonomousRecovery (peerID : string) (enabled : bool) : Database → result Database :=
  update_node peerID (set_autonomous enabled).

Definition IsNodeBanned (peerID : string) (db : Database) : result bool :=
  match db_nodes db !! peerID with
  | None => Ok false
  | Some n => Ok (en_Banned n)
  end.

Definition set_identity_ban (now : time) (identity : string) (banned : bool) (db : Database) : Database :=
  set_banned_identities db
    (if banned then
       match db_banned_identities db !! identity with
       | Some _ => db_banned_identities db
       | None => <[identity := UnixMilli now]> (db_banned_identities db)
       end
     else delete identity (db_banned_identities db)).

Definition SetIdentityBanned (now : time) (identity : string) (banned : bool) (db : Database) : result Database :=
  fail_if (bool_decide (identity = "")) "identity cannot be empty";;
  Ok (set_identity_ban now identity banned db).

(** One transaction. *)
Definition SetNodeAndIdentityBanned (now : time) (peerID identity : string) (banned : bool) (db : Database)
  : result Database :=
  db ← SetNodeBanned peerID banned db;
  Ok (if bool_decide (identity = "") then db else set_identity_ban now identity banned db).

Definition IsIdentityBanned (identity : string) (db : Database) : result bool :=
  Ok (bool_decide (is_Some (db_banned_identities db !! identity))).

Definition ListBannedPeerIDs (db : Database) : list string :=
  (map_to_list (filter (λ kn, en_Banned kn.2 = true) (db_nodes db))).*1.

(** [DELETE FROM nodes WHERE ...]: the rows that stay, and how many went. *)
Definition delete_nodes (where_ : EnrolledNode → bool) (db : Database) : nat * Database :=
  (size (filter (λ kn, where_ kn.2 = true) (db_nodes db)),
   set_nodes db (filter (λ kn, where_ kn.2 = false) (db_nodes db))).

Definition DeleteExpiredNodes (before : time) (db : Database) : result (nat * Database) :=
  expired ← nodeStateWhere NodeExpired before;
  Ok (delete_nodes expired db).

(** One of the two statements of [DeleteSilentBootstrapNodes]. *)
Definition silent (ephemeral : bool) (before : time) (n : EnrolledNode) : bool :=
  negb (en_Banned n) && (UnixMilli (en_ExpiresAt n) <=? 0)%Z && bool_decide (en_Ephemeral n = ephemeral) &&
  (UnixMilli (en_EnrolledAt n) <? UnixMilli before)%Z.

(** ** Listing nodes *)

Record NodeCursor := { nc_EnrolledAt : time; nc_PeerID : string }.

Record NodeFilter := {
  nf_States : list NodeState;
  nf_Now : time;
  nf_OwnerID : option string;
  nf_Role : string;
  nf_After : option NodeCursor;
  nf_Limit : nat;
}.

(** [owner_id = ?]: an empty owner is NULL, which equals nothing. *)
Definition owner_is (owner : string) (n : EnrolledNode) : bool :=
  negb (bool_decide (en_OwnerID n = "")) && bool_decide (en_OwnerID n = owner).

Definition string_ltb (s t : string) : bool := bool_decide (String.le s t) && negb (bool_decide (s = t)).

Definition after_cursor (c : NodeCursor) (n : EnrolledNode) : bool :=
  let at_ := UnixMilli (nc_EnrolledAt c) in
  (UnixMilli (en_EnrolledAt n) <=? at_)%Z &&
  ((UnixMilli (en_EnrolledAt n) <? at_)%Z || string_ltb (en_PeerID n) (nc_PeerID c)).

Definition nodeFilterWhere (now : time) (filter : NodeFilter) : result (EnrolledNode → bool) :=
  let now := if IsZero (nf_Now filter) then now else nf_Now filter in
  arms ← collect (λ state, nodeStateWhere state now) (nf_States filter);
  Ok (λ n,
    (match arms with [] => true | _ => existsb (λ arm, arm n) arms end) &&
    (match nf_OwnerID filter with None => true | Some owner => owner_is owner n end) &&
    (bool_decide (nf_Role filter = "") || bool_decide (en_Role n = nf_Role filter)) &&
    (match nf_After filter with None => true | Some c => after_cursor c n end)).

(** [ORDER BY enrolled_at DESC, peer_id DESC] *)
Definition listed_before (m n : EnrolledNode) : Prop :=
  (UnixMilli (en_EnrolledAt n) < UnixMilli (en_EnrolledAt m))%Z ∨
  UnixMilli (en_EnrolledAt m) = UnixMilli (en_EnrolledAt n) ∧ String.le (en_PeerID n) (en_PeerID m).

#[export] Instance listed_before_dec : RelDecision listed_before.
Proof. intros m n. unfold listed_before. apply _. Defined.

(** A listed node carries neither its key nor its biscuit. *)
Definition listed_view (n : EnrolledNode) : EnrolledNode :=
  {| en_PeerID := en_PeerID n; en_PublicKey := ""; en_Biscuit := ""; en_Role := en_Role n;
     en_EnrollmentType := en_EnrollmentType n; en_ClaimsJSON := en_ClaimsJSON n; en_OwnerID := en_OwnerID n;
     en_Labels := en_Labels n; en_EnrolledAt := en_EnrolledAt n; en_ExpiresAt := en_ExpiresAt n; en_Banned := en_Banned n;
     en_AutonomousRecovery := en_AutonomousRecovery n; en_Ephemeral := en_Ephemeral n |}.

Definition ListNodes (now : time) (f : NodeFilter) (db : Database) : result (list EnrolledNode) :=
  where_ ← nodeFilterWhere now f;
  let rows := merge_sort listed_before (filter (λ n, where_ n = true) (map_to_list (db_nodes db)).*2) in
  Ok (listed_view <$> (if nf_Limit f =? 0 then rows else take (nf_Limit f) rows)).

(** ** Bootstrap tokens *)

Definition token_row (t : BootstrapToken) : BootstrapToken :=
  {| bt_ID := bt_ID t; bt_TokenHash := bt_TokenHash t; bt_Role := bt_Role t; bt_OwnerID := bt_OwnerID t;
     bt_MaxUsages := bt_MaxUsages t; bt_UsagesCount := bt_UsagesCount t; bt_Description := bt_Description t;
     bt_CreatedAt := stored (bt_CreatedAt t); bt_ExpiresAt := stored (bt_ExpiresAt t); bt_RevokedAt := None;
     bt_AutonomousRecovery := bt_AutonomousRecovery t; bt_Ephemeral := bt_Ephemeral t |}.

(** A conflict on the id does nothing. *)
Definition SaveBootstrapToken (token : BootstrapToken) (db : Database) : result Database :=
  if bool_decide (is_Some (db_tokens db !! bt_ID token)) then Ok db
  else
    fail_if (existsb (λ kt, bool_decide (bt_TokenHash kt.2 = bt_TokenHash token)) (map_to_list (db_tokens db)))
      "UNIQUE constraint failed: bootstrap_tokens.token_hash";;
    fail_if (negb (owner_known db (bt_OwnerID token))) "foreign key violation: bootstrap_tokens.owner_id";;
    Ok (set_tokens db (<[bt_ID token := token_row token]> (db_tokens db))).

Definition GetBootstrapToken (id : string) (db : Database) : result BootstrapToken := query_row (db_tokens db !! id).

Definition set_usages (t : BootstrapToken) (count : Z) : BootstrapToken :=
  {| bt_ID := bt_ID t; bt_TokenHash := bt_TokenHash t; bt_Role := bt_Role t; bt_OwnerID := bt_OwnerID t;
     bt_MaxUsages := bt_MaxUsages t; bt_UsagesCount := count; bt_Description := bt_Description t;
     bt_CreatedAt := bt_CreatedAt t; bt_ExpiresAt := bt_ExpiresAt t; bt_RevokedAt := bt_RevokedAt t;
     bt_AutonomousRecovery := bt_AutonomousRecovery t; bt_Ephemeral := bt_Ephemeral t |}.

Definition set_revoked (t : BootstrapToken) (at_ : time) : BootstrapToken :=
  {| bt_ID := bt_ID t; bt_TokenHash := bt_TokenHash t; bt_Role := bt_Role t; bt_OwnerID := bt_OwnerID t;
     bt_MaxUsages := bt_MaxUsages t; bt_UsagesCount := bt_UsagesCount t; bt_Description := bt_Description t;
     bt_CreatedAt := bt_CreatedAt t; bt_ExpiresAt := bt_ExpiresAt t; bt_RevokedAt := Some at_;
     bt_AutonomousRecovery := bt_AutonomousRecovery t; bt_Ephemeral := bt_Ephemeral t |}.

(** The conditions are in the [WHERE] clause of the update. *)
Definition ConsumeBootstrapTokenUsage (id : string) (now : time) (db : Database) : result Database :=
  match db_tokens db !! id with
  | Some t =>
      if (bt_UsagesCount t <? bt_MaxUsages t)%Z && negb (IsRevoked t) && (UnixMilli now <? UnixMilli (bt_ExpiresAt t))%Z
      then Ok (set_tokens db (<[id := set_usages t (bt_UsagesCount t + 1)]> (db_tokens db)))
      else Err ErrBootstrapTokenUnusable
  | None => Err ErrBootstrapTokenUnusable
  end.

Definition RevokeBootstrapToken (now : time) (id : string) (db : Database) : result Database :=
  match db_tokens db !! id with
  | Some t => if IsRevoked t then Ok db else Ok (set_tokens db (<[id := set_revoked t (stored now)]> (db_tokens db)))
  | None => Ok db
  end.

(** ** Enrollment requests *)

Definition request_row (r : EnrollmentRequest) : EnrollmentRequest :=
  {| er_ID := er_ID r; er_PeerID := er_PeerID r; er_PublicKey := er_PublicKey r; er_TokenID := er_TokenID r;
     er_Status := er_Status r; er_Labels := er_Labels r; er_BiscuitToken := er_BiscuitToken r;
     er_CreatedAt := stored (er_CreatedAt r); er_ResolvedAt := stored <$> er_ResolvedAt r; er_ResolvedBy := er_ResolvedBy r |}.

Definition CreateEnrollmentRequest (req : EnrollmentRequest) (db : Database) : result Database :=
  fail_if (existsb (λ r, bool_decide (er_ID r = er_ID req) || bool_decide (er_PeerID r = er_PeerID req)) (db_requests db))
    "UNIQUE constraint failed: enrollment_requests";;
  fail_if (db_postgres db && negb (bool_decide (is_Some (db_tokens db !! er_TokenID req))))
    "foreign key violation: enrollment_requests.token_id";;
  Ok (set_requests db (db_requests db ++ [request_row req])).

Definition GetEnrollmentRequest (peerID : string) (db : Database) : result EnrollmentRequest :=
  query_row (snd <$> list_find (λ r, er_PeerID r = peerID) (db_requests db)).

Definition GetEnrollmentRequestByID (id : string) (db : Database) : result EnrollmentRequest :=
  query_row (snd <$> list_find (λ r, er_ID r = id) (db_requests db)).

Definition resolve_row (now : time) (status : EnrollmentStatus) (biscuit resolvedBy : string) (r : EnrollmentRequest)
  : EnrollmentRequest :=
  {| er_ID := er_ID r; er_PeerID := er_PeerID r; er_PublicKey := er_PublicKey r; er_TokenID := er_TokenID r;
     er_Status := status; er_Labels := er_Labels r; er_BiscuitToken := biscuit; er_CreatedAt := er_CreatedAt r;
     er_ResolvedAt := Some (stored now); er_ResolvedBy := resolvedBy |}.

(** [UPDATE enrollment_requests SET ... WHERE ...] *)
Definition update_requests (where_ : EnrollmentRequest → bool) (f : EnrollmentRequest → EnrollmentRequest) (db : Database)
  : Database :=
  set_requests db ((λ r, if where_ r then f r else r) <$> db_requests db).

Definition UpdateEnrollmentRequest (now : time) (id : string) (status : EnrollmentStatus) (biscuit resolvedBy : string)
    (db : Database) : result Database :=
  Ok (update_requests (λ r, bool_decide (er_ID r = id)) (resolve_row now status biscuit resolvedBy) db).

Definition is_pending (id : string) (r : EnrollmentRequest) : bool :=
  bool_decide (er_ID r = id) && bool_decide (er_Status r = ENROLLMENT_STATUS_PENDING).

Definition ResolveEnrollmentRequest (now : time) (id : string) (status : EnrollmentStatus) (biscuit resolvedBy : string)
    (db : Database) : result Database :=
  if existsb (is_pending id) (db_requests db)
  then Ok (update_requests (is_pending id) (resolve_row now status biscuit resolvedBy) db)
  else Err ErrEnrollmentAlreadyResolved.

(** [resolved_at < ? OR (resolved_at IS NULL AND created_at < ?)] *)
Definition stale_request (before : time) (r : EnrollmentRequest) : bool :=
  match er_ResolvedAt r with
  | Some t => (UnixMilli t <? UnixMilli before)%Z
  | None => (UnixMilli (er_CreatedAt r) <? UnixMilli before)%Z
  end.

Definition delete_requests (where_ : EnrollmentRequest → bool) (db : Database) : nat * Database :=
  (length (filter (λ r, where_ r = true) (db_requests db)),
   set_requests db (filter (λ r, where_ r = false) (db_requests db))).

(** The second statement of [DeleteStaleEnrollmentRequests]. *)
Definition stale_ephemeral (db : Database) (before : time) (r : EnrollmentRequest) : bool :=
  stale_request before r && match db_tokens db !! er_TokenID r with Some t => bt_Ephemeral t | None => false end.

Definition DeleteExpiredBootstrapTokens (before : time) (db : Database) : nat * Database :=
  let gone (t : BootstrapToken) := (UnixMilli (bt_ExpiresAt t) <? UnixMilli before)%Z &&
    negb (existsb (λ r, bool_decide (er_TokenID r = bt_ID t)) (db_requests db)) in
  (size (filter (λ kt, gone kt.2 = true) (db_tokens db)),
   set_tokens db (filter (λ kt, gone kt.2 = false) (db_tokens db))).

(** ** Users *)

Definition SaveUser (user : User) (db : Database) : result Database :=
  let created := match db_users db !! u_ID user with Some old => u_CreatedAt old | None => stored (u_CreatedAt user) end in
  Ok (set_users db (<[u_ID user := {| u_ID := u_ID user; u_Issuer := u_Issuer user; u_Email := u_Email user;
                                      u_Role := u_Role user; u_CreatedAt := created |}]> (db_users db))).

Definition GetUser (id : string) (db : Database) : result User := query_row (db_users db !! id).

(** ** Router leases *)

Definition UpsertRouterLease (lease : RouterLease) (db : Database) : result Database :=
  Ok (set_routers db (<[rl_PeerID lease := {| rl_PeerID := rl_PeerID lease; rl_Addresses := rl_Addresses lease;
        rl_LastRenewal := stored (rl_LastRenewal lease); rl_ExpiresAt := stored (rl_ExpiresAt lease);
        rl_ConnectedPeers := rl_ConnectedPeers lease; rl_DHTSize := rl_DHTSize lease;
        rl_Connections := rl_Connections lease; rl_ConnectionLimit := rl_ConnectionLimit lease |}]> (db_routers db))).

Definition lease_le (a b : RouterLease) : Prop := String.le (rl_PeerID a) (rl_PeerID b).
#[export] Instance lease_le_dec : RelDecision lease_le.
Proof. intros a b. unfold lease_le. apply _. Defined.

Definition GetActiveRouters (now : time) (db : Database) : list RouterLease :=
  merge_sort lease_le (filter (λ l, (UnixMilli now <? UnixMilli (rl_ExpiresAt l))%Z = true) (map_to_list (db_routers db)).*2).

Definition DeleteExpiredRouterLeases (before : time) (db : Database) : nat * Database :=
  let gone (l : RouterLease) := (UnixMilli (rl_ExpiresAt l) <? UnixMilli before)%Z in
  (size (filter (λ kl, gone kl.2 = true) (db_routers db)),
   set_routers db (filter (λ kl, gone kl.2 = false) (db_routers db))).

(** ** Revoked credentials *)

Definition SaveRevokedBiscuit (revocationID : string) (expiresAt : time) (db : Database) : Database :=
  set_revoked_biscuits db
    (if bool_decide (revocationID = "") then db_revoked_biscuits db
     else <[revocationID := UnixMilli expiresAt]> (db_revoked_biscuits db)).

Definition live_revocation (now : time) (expires_at : Z) : bool := (UnixMilli now <? expires_at)%Z.

(** The first statement of [ListRevokedBiscuits]. *)
Definition prune_revoked (now : time) (db : Database) : Database :=
  set_revoked_biscuits db (filter (λ row, live_revocation now row.2 = true) (db_revoked_biscuits db)).

(** The identifiers [ListRevokedBiscuits] selects. *)
Definition ListRevokedBiscuits (now : time) (db : Database) : gset string :=
  dom (filter (λ row, live_revocation now row.2 = true) (db_revoked_biscuits db)).

(** [IsBiscuitRevoked] of the store. *)
Definition biscuit_revoked (revocationID : string) (now : time) (db : Database) : bool :=
  match db_revoked_biscuits db !! revocationID with
  | Some expires_at => negb (bool_decide (revocationID = "")) && live_revocation now expires_at
  | None => false
  end.
