(* ===== verification/StoreFacts.v ===== *)
(** * Facts about the store

    What each statement leaves in the tables, and the invariants that every
    statement keeps. *)

From S2P Require Import Prelude GoStrings Biscuit Tar Token Middleware Directory Keyring PolicyStore Store.

(** ** Frames *)

Lemma EnrollNode_frame now n db db' : EnrollNode now n db = Ok db' →
  db' = set_nodes db (<[en_PeerID n := node_row now n match db_nodes db !! en_PeerID n with Some old => en_Banned old | None => false end]> (db_nodes db)).
Proof. unfold EnrollNode. intros H. by inv_ok. Qed.

Lemma update_node_frame p f db db' : update_node p f db = Ok db' → ∃ n, db_nodes db !! p = Some n ∧ db' = set_nodes db (<[p := f n]> (db_nodes db)).
Proof. unfold update_node. destruct (db_nodes db !! p) as [n|]; [|done]. intros [= <-]. eauto. Qed.

Lemma SetNodeAndIdentityBanned_frame now p k b db db' : SetNodeAndIdentityBanned now p k b db = Ok db' →
  ∃ n, db_nodes db !! p = Some n ∧
    db' = let db1 := set_nodes db (<[p := set_banned b n]> (db_nodes db)) in
          if bool_decide (k = "") then db1 else set_identity_ban now k b db1.
Proof.
  unfold SetNodeAndIdentityBanned, SetNodeBanned. intros Hdb. apply bind_Ok in Hdb as (db1 & (n & Hn & ->)%update_node_frame & [= <-]). eauto.
Qed.

(** ** Rows *)

(** Every row is stored under its own peer. *)
Definition keyed (db : Database) : Prop := ∀ q n, db_nodes db !! q = Some n → en_PeerID n = q.

Definition peer_banned (p : string) (db : Database) : Prop := ∃ n, db_nodes db !! p = Some n ∧ en_Banned n = true.

Definition identity_banned (k : string) (db : Database) : Prop := is_Some (db_banned_identities db !! k).

Lemma keyed_insert db q n : keyed db → en_PeerID n = q → keyed (set_nodes db (<[q := n]> (db_nodes db))).
Proof. intros Hdb Hn q' n'. simpl. rewrite lookup_insert_Some. intros [[<- <-]|[_ ?]]; auto. Qed.

Lemma keyed_identity_ban now k b db : keyed db → keyed (set_identity_ban now k b db).
Proof. done. Qed.

Lemma EnrollNode_keyed now n db db' : EnrollNode now n db = Ok db' → keyed db → keyed db'.
Proof. intros Hdb%EnrollNode_frame. subst db'. intros ?. by apply keyed_insert. Qed.

Lemma update_node_keyed p f db db' : (∀ n, en_PeerID (f n) = en_PeerID n) → update_node p f db = Ok db' → keyed db → keyed db'.
Proof. intros Hf (n & Hn & ->)%update_node_frame Hdb. apply keyed_insert; [done|]. rewrite Hf. by apply Hdb. Qed.

Lemma ban_keyed now p k b db db' : SetNodeAndIdentityBanned now p k b db = Ok db' → keyed db → keyed db'.
Proof.
  intros (n & Hn & ->)%SetNodeAndIdentityBanned_frame Hdb. assert (keyed (set_nodes db (<[p := set_banned b n]> (db_nodes db)))).
  { apply keyed_insert; [done|]. exact (Hdb p n Hn). }
  cbv zeta. case_bool_decide; [done|by apply keyed_identity_ban].
Qed.

Lemma delete_nodes_keyed where_ db : keyed db → keyed (delete_nodes where_ db).2.
Proof. intros Hdb q n. simpl. intros [Hq _]%map_lookup_filter_Some. by apply Hdb. Qed.

(** A banned row survives every statement that does not unban it: a write of
    the whole record keeps the column, and the sweeps pass over it. *)
Lemma EnrollNode_banned p now n db db' : EnrollNode now n db = Ok db' → peer_banned p db → peer_banned p db'.
Proof.
  intros Hdb%EnrollNode_frame (m & Hm & Hb). subst db'. unfold peer_banned. simpl.
  destruct (decide (en_PeerID n = p)) as [<-|Hne].
  - exists (node_row now n (en_Banned m)). rewrite lookup_insert_eq, Hm. done.
  - exists m. by rewrite lookup_insert_ne.
Qed.

Lemma update_node_banned p q f db db' :
  (∀ n, q = p → en_Banned n = true → en_Banned (f n) = true) → update_node q f db = Ok db' → peer_banned p db → peer_banned p db'.
Proof.
  intros Hf (n & Hn & ->)%update_node_frame (m & Hm & Hb). unfold peer_banned. simpl. destruct (decide (q = p)) as [->|Hne].
  - rewrite lookup_insert_eq. exists (f n). split; [done|]. apply Hf; [done|]. congruence.
  - exists m. by rewrite lookup_insert_ne.
Qed.

Lemma ban_banned p now q k b db db' :
  (q = p → b = true) → SetNodeAndIdentityBanned now q k b db = Ok db' → peer_banned p db → peer_banned p db'.
Proof.
  intros Hb Hdb Hp. unfold SetNodeAndIdentityBanned, SetNodeBanned in Hdb. apply bind_Ok in Hdb as (db1 & Hdb1 & [= <-]).
  assert (peer_banned p db1); [|by case_bool_decide]. revert Hdb1 Hp. apply update_node_banned. intros n Hq _. simpl. by apply Hb.
Qed.

Lemma delete_nodes_banned p where_ db : (∀ n, en_Banned n = true → where_ n = false) → peer_banned p db → peer_banned p (delete_nodes where_ db).2.
Proof. intros Hw (m & Hm & Hb). exists m. split; [|done]. simpl. apply map_lookup_filter_Some. auto. Qed.

Lemma ban_identity k now q i b db db' :
  (i = k → b = true) → SetNodeAndIdentityBanned now q i b db = Ok db' → identity_banned k db → identity_banned k db'.
Proof.
  intros Hb (n & Hn & ->)%SetNodeAndIdentityBanned_frame Hk. cbv zeta. case_bool_decide as Hi; [done|].
  unfold identity_banned, set_identity_ban. simpl. destruct b.
  - case_match; [done|]. destruct (decide (i = k)) as [->|Hne]; [by rewrite lookup_insert_eq|by rewrite lookup_insert_ne].
  - rewrite lookup_delete_ne; [done|]. intros ->. by specialize (Hb eq_refl).
Qed.
