(* ===== verification/ControlPlane.v ===== *)
(** * The control plane: claims, roles and the calls of its handlers

    What the HTTP handlers of [src/internal/controlplane/server.go] share:
    verifying an ID token ([src/internal/identity/oidc.go]), the identity and
    the roles that claims give, the signed challenge, and the calls a handler
    makes to the clock, the store and the replica it runs in.  A handler is a
    program over these calls ([prog]); running a call is one atomic step, so
    handlers of concurrent requests interleave between their calls.  The OIDC
    and JWT libraries, libp2p's public keys and the JSON of claims are
    interfaces. *)

From S2P Require Import Prelude GoStrings Regex Names Biscuit NaiveEngine Facts DatalogText Grants Labels HTTPGrants PolicyRules Egress Base64 Tar Token Identity Mint Middleware Directory Keyring Decimal PolicyStore Store.

Definition claims_map : Type := gmap string any.

(** ** ID tokens *)

Record IDToken := {
  it_Audience : list string;
  it_Expiry : time;
  it_Claims : result claims_map;  (** [token.Claims] *)
}.

Class OIDCLibrary := {
  (** the header and the claims of a token whose signature is not checked *)
  ParseUnverified : string → result (claims_map * claims_map);
  (** the verifier of an issuer's provider, at an instant *)
  verifier_Verify : string → time → string → result IDToken;
}.

(** [s, ok := m[k].(string)] *)
Definition string_claim (claims : claims_map) (k : string) : option string :=
  match claims !! k with Some (AnyString s) => Some s | _ => None end.

(** [s, _ := m[k].(string)] *)
Definition claim_string (claims : claims_map) (k : string) : string := default "" (string_claim claims k).

Definition checkAudience (auds allowedAudiences : list string) : result unit :=
  fail_if (bool_decide (auds = [])) "missing aud claim";;
  if existsb (λ aud, slices_Contains allowedAudiences aud) auds then Ok tt else fail "untrusted audience(s)".

Section tokens.
Context `{UnicodeCase, OIDCLibrary}.

Definition issuerHint (jwtStr : string) : result string :=
  '(header, claims) ← wrap_err "failed to parse JWT" (ParseUnverified jwtStr);
  (match string_claim header "alg" with
   | None => fail "invalid or missing alg header"
   | Some alg => fail_if (bool_decide (alg = "") || bool_decide (ToLower alg = "none")) "invalid or missing alg header"
   end);;
  match string_claim claims "iss" with
  | None => fail "missing or invalid iss claim"
  | Some iss => fail_if (bool_decide (iss = "")) "missing or invalid iss claim";; Ok iss
  end.

(** [providers] are the issuers whose discovery succeeded. *)
Definition VerifyJWT (now : time) (jwtStr : string) (allowedAudiences : list string) (providers : gset string)
  : result (claims_map * IDToken) :=
  iss ← issuerHint jwtStr;
  fail_if (negb (bool_decide (iss ∈ providers))) "unknown issuer";;
  token ← wrap_err "JWT validation failed" (verifier_Verify iss now jwtStr);
  checkAudience (it_Audience token) allowedAudiences;;
  verifiedClaims ← wrap_err "failed to decode verified claims" (it_Claims token);
  Ok (verifiedClaims, token).
End tokens.

(** ** Identities *)

Definition oidcIdentityKey (claims : option claims_map) : string :=
  match claims with
  | None => ""
  | Some claims =>
      let sub := claim_string claims "sub" in
      if bool_decide (sub = "") then "" else claim_string claims "iss" +:+ "|" +:+ sub
  end.

Definition verifiedEmail (claims : claims_map) : string :=
  match claims !! "email_verified" with
  | Some (AnyBool false) => ""
  | _ => claim_string claims "email"
  end.

(** [if verifiedEmail(claims) == "" { delete(claims, "email") }] *)
Definition drop_unverified_email (claims : claims_map) : claims_map :=
  if bool_decide (verifiedEmail claims = "") then delete "email" claims else claims.

(** ** The server *)

Record Options := {
  op_AllowedAudiences : list string;
  op_LeaseDuration : Z;
  op_BiscuitTTL : Z;
  op_OIDCSessionTTL : Z;
  op_WorkloadSessionTTL : Z;
  op_NodeRetention : Z;
  op_EphemeralNodeRetention : Z;
  op_AdminToken : string;
  op_AutoApproveEnrollment : bool;
  op_OIDCIssuer : string;
  op_STSIssuerURL : string;
  op_DelegatedBiscuitTTL : Z;
  op_STSTokenTTL : Z;
}.

Record Server := {
  sv_config : Options;
  sv_providers : gset string;
  sv_workloadIssuers : gset string;
  sv_workloadEmailSuffixes : gmap string (list string);
  sv_addr : string;  (** of the listener *)
}.

(** [g["compute_engine"] != nil] of the claim [google]. *)
Definition compute_engine (claims : claims_map) : bool :=
  match claims !! "google" with
  | Some (AnyMap m) => match (list_to_map m : claims_map) !! "compute_engine" with None | Some AnyNil => false | Some _ => true end
  | _ => false
  end.

Definition isWorkloadClaims (s : Server) (claims : claims_map) : bool :=
  let iss := TrimSpace (claim_string claims "iss") in
  bool_decide (iss ∈ sv_workloadIssuers s) ||
  existsb (λ suffix, HasSuffix (claim_string claims "email") suffix) (default [] (sv_workloadEmailSuffixes s !! iss)) ||
  (bool_decide (iss = "https://accounts.google.com") && compute_engine claims).

Definition sessionTTLForClaims (s : Server) (claims : claims_map) : Z :=
  if isWorkloadClaims s claims then op_WorkloadSessionTTL (sv_config s) else op_OIDCSessionTTL (sv_config s).

(** ** Roles *)

(** The values that the claims give the facts named [fact]. *)
Definition factValues (claims : claims_map) (fact : string) : list string :=
  filter (λ claim, map_get OIDCClaimToFact claim = fact) (sorted_keys OIDCClaimToFact)
    ≫= λ claim, toStringSlice (default AnyNil (claims !! claim)).

Definition member_resolves (peerID : string) (claims : claims_map) (m : string) : bool :=
  if bool_decide (m = SystemAuthenticated) then true
  else match SplitN2 m ":" with
       | [prefix; value] =>
           if bool_decide (prefix = FactNode) then bool_decide (peerID = value)
           else MatchBindingMemberValue (factValues claims prefix) value
       | _ => false
       end.

(** The roles are the keys of a map: their order is not fixed by the code, and
    every use is by membership or sorts them. *)
Definition resolveRoles (peerID : string) (claims : option claims_map) (bindings : list (option PolicyBinding)) : list string :=
  let claims := default ∅ claims in
  elements (list_to_set (bindings ≫= λ ob,
    match ob with
    | None => []
    | Some b => if existsb (member_resolves peerID claims) (binding_members b) then [binding_role b] else []
    end) : gset string).

(** The resolved roles that are not built in and not the primary one. *)
Definition customAccessRoles (primary : string) (resolved : list string) : list string :=
  filter (λ r, negb (HasPrefix r "mesh:role:") && negb (bool_decide (r = primary)) = true) resolved.

Definition allowedLabelPatterns (roles : list string) (policyRoles : list (option PolicyRole)) : list string :=
  policyRoles ≫= λ opr, match opr with
                        | Some pr => if slices_Contains roles (role_name pr) then role_allowed_labels pr else []
                        | None => []
                        end.

Definition filterAllowedLabels (patterns : list string) (labels : gmap string string) : gmap string string :=
  filter (λ kv, is_ok (LabelPatternsAllow patterns {[kv.1 := kv.2]}) = true) labels.

Definition labelsStillAllowed (patterns : list string) (labels : gmap string string) : gmap string string :=
  filterAllowedLabels patterns labels.

(** The JSON of the claims on a node record; [None] is [null]. *)
Class ClaimsCodec := {
  claims_Marshal : claims_map → result string;
  claims_Unmarshal : string → result (option claims_map);
  claims_empty c : claims_Unmarshal "" ≠ Ok c;  (** "unexpected end of JSON input" *)
  claims_roundtrip c s : claims_Marshal c = Ok s → s ≠ "" ∧ ∃ c', claims_Unmarshal s = Ok (Some c') ∧
    (∀ k, claim_string c' k = claim_string c k) ∧ (∀ k, toStringSlice (default AnyNil (c' !! k)) = toStringSlice (default AnyNil (c !! k)));
}.

Definition nodeRoles `{ClaimsCodec} (nodeRecord : EnrolledNode) (bindings : list (option PolicyBinding)) : result (list string) :=
  claims ← (if bool_decide (en_EnrollmentType nodeRecord = "OIDC") && negb (bool_decide (en_ClaimsJSON nodeRecord = ""))
            then claims_Unmarshal (en_ClaimsJSON nodeRecord) else Ok None);
  Ok (en_Role nodeRecord :: customAccessRoles (en_Role nodeRecord) (resolveRoles (en_PeerID nodeRecord) claims bindings)).

(** ** Signed challenges *)

(** libp2p's public keys. *)
Class PeerKeys := {
  PubKey : Type;
  UnmarshalPublicKey : string → result PubKey;
  MatchesPublicKey : string → PubKey → bool;
  key_Verify : PubKey → string → string → result bool;
}.

Definition challengeMaxAge : Z := (5 * 60 * second)%Z.
Definition errStaleChallengeTimestamp : error := NewError "stale or invalid challenge timestamp".

Definition verifyChallengeTimestamp (now : time) (ts : Z) : result unit :=
  fail_if (ts <=? 0)%Z "missing or invalid challenge timestamp";;
  let challengeTime := of_UnixMilli ts in
  if (challengeMaxAge <? now - challengeTime)%Z || (challengeMaxAge <? challengeTime - now)%Z
  then Err errStaleChallengeTimestamp else Ok tt.

Definition verifyFreshChallenge `{PeerKeys} (now : time) (pub : PubKey) (payload : string) (ts : Z) (sig : string) : result unit :=
  verifyChallengeTimestamp now ts;;
  match key_Verify pub payload sig with
  | Ok true => Ok tt
  | _ => fail "challenge signature verification failed"
  end.

(** ** Tokens the control plane issues *)

(** The claims of a JWT for an outbound request, as it is handed to the signer. *)
Record BorderClaims := {
  bj_iss : string;
  bj_sub : string;
  bj_aud : string;
  bj_act : string;  (** [act.sub] *)
  bj_roles : list string;
  bj_iat : Z;
  bj_exp : Z;
  bj_jti : string;
  bj_task : string;  (** absent when empty *)
}.

(** [ActorPeerID] is empty when the request named none. *)
Record oauthAuthCode := {
  ac_ClientID : string;
  ac_RedirectURI : string;
  ac_CodeChallenge : string;
  ac_SubjectJWT : string;
  ac_ActorPeerID : string;
  ac_TAR : option TaskAuthorizationRule;
  ac_ExpiresAt : time;
}.

Definition maxPendingOAuthCodes : Z := 4096.
Definition revokedPruneMin : nat := 64.

(** ** Calls *)

Inductive call :=
| Now
| LimiterAllow
| RandomBytes  (** of [cryptoRandUUID] and of a new token *)
| CGetCurrentKey
| CGetAllValidPublicKeys
| CGetNode (peerID : string)
| CListNodes (f : NodeFilter)
| CEnrollNode (node : EnrolledNode)
| CIsNodeBanned (peerID : string)
| CIsIdentityBanned (identity : string)
| CSetNodeAndIdentityBanned (peerID identity : string) (banned : bool)
| CSetNodeAutonomousRecovery (peerID : string) (enabled : bool)
| CGetUser (id : string)
| CSaveUser (user : User)
| CGetBootstrapToken (id : string)
| CSaveBootstrapToken (token : BootstrapToken)
| CConsumeBootstrapTokenUsage (id : string) (now : time)
| CRevokeBootstrapToken (id : string)
| CGetEnrollmentRequest (peerID : string)
| CGetEnrollmentRequestByID (id : string)
| CCreateEnrollmentRequest (req : EnrollmentRequest)
| CUpdateEnrollmentRequest (id : string) (status : EnrollmentStatus) (biscuit resolvedBy : string)
| CResolveEnrollmentRequest (id : string) (status : EnrollmentStatus) (biscuit resolvedBy : string)
| CGetMeshPolicy
| CGetEgressDestinations
| CGetActiveRouters
| CUpsertRouterLease (lease : RouterLease)
| CDeleteExpiredNodes (before : time)
| CDeleteSilent (ephemeral : bool) (before : time)
| CDeleteStaleRequests (ephemeral : bool) (before : time)
| CDeleteExpiredBootstrapTokens (before : time)
| CDeleteExpiredRouterLeases (before : time)
| MSetRevocation (peerID revID : string)  (** [bannedNodeRevIDs], under its lock *)
| MDelRevocation (peerID : string)
| MDelCatalog (peerID : string)
| MCatalog  (** [catalogSnapshot] *)
| MPruneCatalog (peers : gset string)
| MPublish (event peerID : string)
| CListBannedPeerIDs
| CSavePolicyDocument (roles : list (option PolicyRole)) (bindings : list (option PolicyBinding)) (egress : list (option EgressDestination))
| CSaveRevokedBiscuit (revocationID : string) (expiresAt : time)
| CPruneRevoked (now : time)
| CListRevokedBiscuits (now : time)
| CIsBiscuitRevoked (revocationID : string) (now : time)
| MRevoke (now : time) (revocationID : string) (expiry : time)  (** under [revokedBiscuitsMu], as the next two *)
| MIsRevoked (now : time) (revocationIDs : list string)
| MListRevoked (now : time) (bannedPeers : list string)
| STSLimiterAllow (key : string)
| SignJWT (claims : BorderClaims)
| MAddCode (now : time) (code : string) (entry : oauthAuthCode)  (** under [oauthCodesMu], as the next *)
| MTakeCode (code : string).

Definition reply (c : call) : Type :=
  match c with
  | Now => time
  | LimiterAllow => bool
  | RandomBytes => string
  | CGetCurrentKey => result (PrivateKey * PublicKey)
  | CGetAllValidPublicKeys => result (list PublicKey)
  | CGetNode _ => result EnrolledNode
  | CListNodes _ => result (list EnrolledNode)
  | CIsNodeBanned _ | CIsIdentityBanned _ => result bool
  | CGetUser _ => result User
  | CGetBootstrapToken _ => result BootstrapToken
  | CGetEnrollmentRequest _ | CGetEnrollmentRequestByID _ => result EnrollmentRequest
  | CGetMeshPolicy => result (list (option PolicyRole) * list (option PolicyBinding))
  | CGetEgressDestinations => result (list (option EgressDestination))
  | CGetActiveRouters => result (list RouterLease)
  | CDeleteExpiredNodes _ | CDeleteSilent _ _ | CDeleteStaleRequests _ _
  | CDeleteExpiredBootstrapTokens _ | CDeleteExpiredRouterLeases _ => result nat
  | CEnrollNode _ | CSetNodeAndIdentityBanned _ _ _ | CSetNodeAutonomousRecovery _ _ | CSaveUser _
  | CSaveBootstrapToken _ | CConsumeBootstrapTokenUsage _ _ | CRevokeBootstrapToken _ | CCreateEnrollmentRequest _
  | CUpdateEnrollmentRequest _ _ _ _ | CResolveEnrollmentRequest _ _ _ _ | CUpsertRouterLease _
  | MPublish _ _ => result unit
  | MSetRevocation _ _ | MDelRevocation _ | MDelCatalog _ | MPruneCatalog _ => unit
  | MCatalog => gset string
  | CListBannedPeerIDs => result (list string)
  | CSavePolicyDocument _ _ _ | CSaveRevokedBiscuit _ _ | CPruneRevoked _ | SignJWT _ => result unit
  | CListRevokedBiscuits _ => result (gset string)
  | CIsBiscuitRevoked _ _ => result bool
  | MRevoke _ _ _ => unit
  | MIsRevoked _ _ => bool
  | MListRevoked _ _ => gset string * list string  (** revoked, and the banned peers without an entry *)
  | STSLimiterAllow _ | MAddCode _ _ _ => bool
  | MTakeCode _ => option oauthAuthCode
  end.

(** ** Programs *)

Inductive prog (A : Type) :=
| Ret (a : A)
| Do (c : call) (k : reply c → prog A).
Arguments Ret {A} a.
Arguments Do {A} c k.

Definition perform (c : call) : prog (reply c) := Do c Ret.

#[export] Instance prog_ret : MRet prog := @Ret.
Fixpoint prog_bind_ {A B} (f : A → prog B) (p : prog A) : prog B :=
  match p with
  | Ret a => f a
  | Do c k => Do c (λ r, prog_bind_ f (k r))
  end.
#[export] Instance prog_bind : MBind prog := @prog_bind_.

(** ** Running a call *)

(** What the replica keeps in memory: the revocation ID of each banned node's
    credential, the peers whose service report it holds, the events it has
    handed to the mesh, the credentials revoked here, and the authorization
    codes not redeemed yet. *)
Record Memory := {
  mem_bannedNodeRevIDs : gmap string string;
  mem_catalog : gset string;
  mem_published : list (string * string);
  mem_revokedBiscuits : gmap string time;
  mem_revokedPruneAt : nat;
  mem_oauthCodes : gmap string oauthAuthCode;
}.

Definition set_bannedNodeRevIDs (m : Memory) (ids : gmap string string) : Memory :=
  {| mem_bannedNodeRevIDs := ids; mem_catalog := mem_catalog m; mem_published := mem_published m;
     mem_revokedBiscuits := mem_revokedBiscuits m; mem_revokedPruneAt := mem_revokedPruneAt m; mem_oauthCodes := mem_oauthCodes m |}.
Definition set_catalog (m : Memory) (catalog : gset string) : Memory :=
  {| mem_bannedNodeRevIDs := mem_bannedNodeRevIDs m; mem_catalog := catalog; mem_published := mem_published m;
     mem_revokedBiscuits := mem_revokedBiscuits m; mem_revokedPruneAt := mem_revokedPruneAt m; mem_oauthCodes := mem_oauthCodes m |}.
Definition set_published (m : Memory) (events : list (string * string)) : Memory :=
  {| mem_bannedNodeRevIDs := mem_bannedNodeRevIDs m; mem_catalog := mem_catalog m; mem_published := events;
     mem_revokedBiscuits := mem_revokedBiscuits m; mem_revokedPruneAt := mem_revokedPruneAt m; mem_oauthCodes := mem_oauthCodes m |}.
Definition set_revokedBiscuits (m : Memory) (revoked : gmap string time) (pruneAt : nat) : Memory :=
  {| mem_bannedNodeRevIDs := mem_bannedNodeRevIDs m; mem_catalog := mem_catalog m; mem_published := mem_published m;
     mem_revokedBiscuits := revoked; mem_revokedPruneAt := pruneAt; mem_oauthCodes := mem_oauthCodes m |}.
Definition set_oauthCodes (m : Memory) (codes : gmap string oauthAuthCode) : Memory :=
  {| mem_bannedNodeRevIDs := mem_bannedNodeRevIDs m; mem_catalog := mem_catalog m; mem_published := mem_published m;
     mem_revokedBiscuits := mem_revokedBiscuits m; mem_revokedPruneAt := mem_revokedPruneAt m; mem_oauthCodes := codes |}.

(** The section of [RevokeBiscuitID] under the lock. *)
Definition revoke_locked (now : time) (revocationID : string) (expiry : time) (m : Memory) : Memory :=
  let revoked := mem_revokedBiscuits m in
  if bool_decide (mem_revokedPruneAt m ≤ size revoked) then
    let kept := filter (λ e, (now <? e.2)%Z = true) revoked in
    set_revokedBiscuits m (<[revocationID := expiry]> kept) (revokedPruneMin `max` (2 * size kept))
  else set_revokedBiscuits m (<[revocationID := expiry]> revoked) (mem_revokedPruneAt m).

(** The section of [isBiscuitRevoked] under the lock. *)
Definition revoked_here (now : time) (revocationIDs : list string) (m : Memory) : bool :=
  existsb (λ encoded,
    match mem_revokedBiscuits m !! encoded with Some exp => (now <? exp)%Z | None => false end ||
    existsb (λ peer, negb (bool_decide (peer.2 = "")) && bool_decide (peer.2 = encoded)) (map_to_list (mem_bannedNodeRevIDs m)))
  revocationIDs.

(** The section of [listRevokedBiscuitIDs] under the lock. *)
Definition list_revoked_locked (now : time) (bannedPeers : list string) (m : Memory) : gset string * list string * Memory :=
  let live := filter (λ e, (now <? e.2)%Z = true) (mem_revokedBiscuits m) in
  let cached := filter (λ e, slices_Contains bannedPeers e.1 = true) (mem_bannedNodeRevIDs m) in
  let ids := omap (λ peer, revID ← cached !! peer; if bool_decide (revID = "") then None else Some revID) bannedPeers in
  (dom live ∪ list_to_set ids, filter (λ peer, cached !! peer = None) bannedPeers,
   set_bannedNodeRevIDs (set_revokedBiscuits m live (mem_revokedPruneAt m)) cached).

(** The section of [HandleOAuthAuthorize] under the lock: false when the table
    is full. *)
Definition add_code (now : time) (code : string) (entry : oauthAuthCode) (m : Memory) : bool * Memory :=
  let live := filter (λ e, (ac_ExpiresAt e.2 <? now)%Z = false) (mem_oauthCodes m) in
  if (maxPendingOAuthCodes <=? Z.of_nat (size live))%Z then (false, set_oauthCodes m live)
  else (true, set_oauthCodes m (<[code := entry]> live)).

Record World := { w_clock : time; w_db : Database; w_mem : Memory }.

Definition set_db (w : World) (db : Database) : World := {| w_clock := w_clock w; w_db := db; w_mem := w_mem w |}.
Definition set_mem (w : World) (mem : Memory) : World := {| w_clock := w_clock w; w_db := w_db w; w_mem := mem |}.

(** What the environment decides of a step: the call goes through, it fails (a
    store that does not answer, a limiter that refuses), or it draws the bytes. *)
Inductive choice := Proceed | Break | Draw (bytes : string).

Definition ErrStore : error := NewError "database error".

(** A statement that writes: it applies whole or not at all. *)
Definition write (w : World) (r : result Database) : result unit * World :=
  match r with
  | Ok db => (Ok tt, set_db w db)
  | Err e => (Err e, w)
  end.

Definition delete_rows (w : World) (r : nat * Database) : result nat * World := (Ok r.1, set_db w r.2).

(** How a call that fails answers. *)
Definition broken (c : call) : option (reply c) :=
  match c with
  | Now => None
  | LimiterAllow => Some false
  | RandomBytes => None
  | CGetCurrentKey => Some (Err ErrStore)
  | CGetAllValidPublicKeys => Some (Err ErrStore)
  | CGetNode _ => Some (Err ErrStore)
  | CListNodes _ => Some (Err ErrStore)
  | CEnrollNode _ => Some (Err ErrStore)
  | CIsNodeBanned _ => Some (Err ErrStore)
  | CIsIdentityBanned _ => Some (Err ErrStore)
  | CSetNodeAndIdentityBanned _ _ _ => Some (Err ErrStore)
  | CSetNodeAutonomousRecovery _ _ => Some (Err ErrStore)
  | CGetUser _ => Some (Err ErrStore)
  | CSaveUser _ => Some (Err ErrStore)
  | CGetBootstrapToken _ => Some (Err ErrStore)
  | CSaveBootstrapToken _ => Some (Err ErrStore)
  | CConsumeBootstrapTokenUsage _ _ => Some (Err ErrStore)
  | CRevokeBootstrapToken _ => Some (Err ErrStore)
  | CGetEnrollmentRequest _ => Some (Err ErrStore)
  | CGetEnrollmentRequestByID _ => Some (Err ErrStore)
  | CCreateEnrollmentRequest _ => Some (Err ErrStore)
  | CUpdateEnrollmentRequest _ _ _ _ => Some (Err ErrStore)
  | CResolveEnrollmentRequest _ _ _ _ => Some (Err ErrStore)
  | CGetMeshPolicy => Some (Err ErrStore)
  | CGetEgressDestinations => Some (Err ErrStore)
  | CGetActiveRouters => Some (Err ErrStore)
  | CUpsertRouterLease _ => Some (Err ErrStore)
  | CDeleteExpiredNodes _ => Some (Err ErrStore)
  | CDeleteSilent _ _ => Some (Err ErrStore)
  | CDeleteStaleRequests _ _ => Some (Err ErrStore)
  | CDeleteExpiredBootstrapTokens _ => Some (Err ErrStore)
  | CDeleteExpiredRouterLeases _ => Some (Err ErrStore)
  | MSetRevocation _ _ => None
  | MDelRevocation _ => None
  | MDelCatalog _ => None
  | MCatalog => None
  | MPruneCatalog _ => None
  | MPublish _ _ => Some (Err ErrStore)
  | CListBannedPeerIDs => Some (Err ErrStore)
  | CSavePolicyDocument _ _ _ => Some (Err ErrStore)
  | CSaveRevokedBiscuit _ _ => Some (Err ErrStore)
  | CPruneRevoked _ => Some (Err ErrStore)
  | CListRevokedBiscuits _ => Some (Err ErrStore)
  | CIsBiscuitRevoked _ _ => Some (Err ErrStore)
  | MRevoke _ _ _ => None
  | MIsRevoked _ _ => None
  | MListRevoked _ _ => None
  | STSLimiterAllow _ => Some false
  | SignJWT _ => Some (Err ErrStore)
  | MAddCode _ _ _ => None
  | MTakeCode _ => None
  end.

Section run.
Context `{PolicyCodec}.

(** The call as the store, the clock and the source of randomness answer it. *)
Definition answered (w : World) (drawn : string) (c : call) : reply c * World :=
  let db := w_db w in let now := w_clock w in let mem := w_mem w in
  match c with
  | Now => (now, w)
  | LimiterAllow => (true, w)
  | RandomBytes => (drawn, w)
  | CGetCurrentKey => (query_row (GetCurrentKey (db_keyring db)), w)
  | CGetAllValidPublicKeys => (Ok (GetAllValidPublicKeys now (db_keyring db)), w)
  | CGetNode peerID => (GetNode peerID db, w)
  | CListNodes f => (ListNodes now f db, w)
  | CEnrollNode node => write w (EnrollNode now node db)
  | CIsNodeBanned peerID => (IsNodeBanned peerID db, w)
  | CIsIdentityBanned identity => (IsIdentityBanned identity db, w)
  | CSetNodeAndIdentityBanned peerID identity banned => write w (SetNodeAndIdentityBanned now peerID identity banned db)
  | CSetNodeAutonomousRecovery peerID enabled => write w (SetNodeAutonomousRecovery peerID enabled db)
  | CGetUser id => (GetUser id db, w)
  | CSaveUser user => write w (SaveUser user db)
  | CGetBootstrapToken id => (GetBootstrapToken id db, w)
  | CSaveBootstrapToken token => write w (SaveBootstrapToken token db)
  | CConsumeBootstrapTokenUsage id at_ => write w (ConsumeBootstrapTokenUsage id at_ db)
  | CRevokeBootstrapToken id => write w (RevokeBootstrapToken now id db)
  | CGetEnrollmentRequest peerID => (GetEnrollmentRequest peerID db, w)
  | CGetEnrollmentRequestByID id => (GetEnrollmentRequestByID id db, w)
  | CCreateEnrollmentRequest req => write w (CreateEnrollmentRequest req db)
  | CUpdateEnrollmentRequest id status biscuit resolvedBy => write w (UpdateEnrollmentRequest now id status biscuit resolvedBy db)
  | CResolveEnrollmentRequest id status biscuit resolvedBy => write w (ResolveEnrollmentRequest now id status biscuit resolvedBy db)
  | CGetMeshPolicy => (GetMeshPolicy (db_policy db), w)
  | CGetEgressDestinations => (GetEgressDestinations (db_policy db), w)
  | CGetActiveRouters => (Ok (GetActiveRouters now db), w)
  | CUpsertRouterLease lease => write w (UpsertRouterLease lease db)
  | CDeleteExpiredNodes before =>
      match DeleteExpiredNodes before db with
      | Ok r => delete_rows w r
      | Err e => (Err e, w)
      end
  | CDeleteSilent ephemeral before => delete_rows w (delete_nodes (silent ephemeral before) db)
  | CDeleteStaleRequests ephemeral before =>
      delete_rows w (delete_requests (if ephemeral then stale_ephemeral db before else stale_request before) db)
  | CDeleteExpiredBootstrapTokens before => delete_rows w (DeleteExpiredBootstrapTokens before db)
  | CDeleteExpiredRouterLeases before => delete_rows w (DeleteExpiredRouterLeases before db)
  | MSetRevocation peerID revID => (tt, set_mem w (set_bannedNodeRevIDs mem (<[peerID := revID]> (mem_bannedNodeRevIDs mem))))
  | MDelRevocation peerID => (tt, set_mem w (set_bannedNodeRevIDs mem (delete peerID (mem_bannedNodeRevIDs mem))))
  | MDelCatalog peerID => (tt, set_mem w (set_catalog mem (mem_catalog mem ∖ {[peerID]})))
  | MCatalog => (mem_catalog mem, w)
  | MPruneCatalog peers => (tt, set_mem w (set_catalog mem (mem_catalog mem ∖ peers)))
  | MPublish event peerID => (Ok tt, set_mem w (set_published mem (mem_published mem ++ [(event, peerID)])))
  | CListBannedPeerIDs => (Ok (ListBannedPeerIDs db), w)
  | CSavePolicyDocument roles bindings egress =>
      write w (policy ← SavePolicyDocument (db_postgres db) roles bindings egress (db_policy db); Ok (set_policy db policy))
  | CSaveRevokedBiscuit revocationID expiresAt => (Ok tt, set_db w (SaveRevokedBiscuit revocationID expiresAt db))
  | CPruneRevoked now => (Ok tt, set_db w (prune_revoked now db))
  | CListRevokedBiscuits now => (Ok (ListRevokedBiscuits now db), w)
  | CIsBiscuitRevoked revocationID now => (Ok (biscuit_revoked revocationID now db), w)
  | MRevoke now revocationID expiry => (tt, set_mem w (revoke_locked now revocationID expiry mem))
  | MIsRevoked now revocationIDs => (revoked_here now revocationIDs mem, w)
  | MListRevoked now bannedPeers => let r := list_revoked_locked now bannedPeers mem in (r.1, set_mem w r.2)
  | STSLimiterAllow _ => (true, w)
  | SignJWT _ => (Ok tt, w)
  | MAddCode now code entry => let r := add_code now code entry mem in (r.1, set_mem w r.2)
  | MTakeCode code => (mem_oauthCodes mem !! code, set_mem w (set_oauthCodes mem (delete code (mem_oauthCodes mem))))
  end.

Definition run_call (w : World) (ch : choice) (c : call) : reply c * World :=
  match ch with
  | Proceed => answered w "" c
  | Draw bytes => answered w bytes c
  | Break => match broken c with Some r => (r, w) | None => answered w "" c end
  end.

(** A program run alone, every call answered. *)
Fixpoint run_alone {A} (w : World) (p : prog A) : A * World :=
  match p with
  | Ret a => (a, w)
  | Do c k => let '(r, w) := answered w "" c in run_alone w (k r)
  end.

Lemma run_alone_bind {A B} w (p : prog A) (k : A → prog B) :
  run_alone w (p ≫= k) = let '(a, w) := run_alone w p in run_alone w (k a).
Proof.
  revert w. induction p as [a|c f IH]; intros w; [done|]. simpl. destruct (answered w "" c) as [r w']. apply IH.
Qed.
End run.
