(* ===== verification/PolicyConfig.v ===== *)
(** * Posting a mesh policy

    The checks that [POST /policies] makes before it stores a policy
    ([validatePolicyConfig] in [src/internal/controlplane/server.go]), and what
    they guarantee: the facts that the roles of one identity mint stay within a
    budget, and the roles that the control plane resolves for an identity are
    those that the binding rules derive for its credential. *)

From S2P Require Import Prelude GoStrings Regex Names Biscuit NaiveEngine Facts DatalogText Grants Labels HTTPGrants PolicyRules Egress Base64 Tar Token TokenModel Identity Mint MintFacts Middleware Directory Keyring Decimal PolicyStore Store ControlPlane.

(** ** The checks *)

Record PolicyConfig := {
  pc_roles : list (option PolicyRole);
  pc_bindings : list (option PolicyBinding);
  pc_egress : list (option EgressDestination);
}.

Definition maxIdentityFactBudget : nat := 900.

(** The facts of an entry of [http]; the getters of a nil entry give nothing. *)
Definition entry_facts (og : option HTTPGrant) : list fact :=
  BuildHTTPGrantFacts (default {| hg_service := ""; hg_methods := []; hg_paths := [] |} og).

(** What one role adds to [factBudget]. *)
Definition role_budget (r : PolicyRole) : nat :=
  length (BuildServiceDatalogFacts (role_allowed_services r)) + length (BuildPublishDatalogFacts (role_allowed_publish r)) +
  length (BuildTargetDatalogFacts (role_allowed_targets r)) + length (role_custom_datalog r) +
  sum_list_with (λ og, length (entry_facts og)) (role_http r).

Section validate.
Context `{UnicodeCase, URLParser, BiscuitText}.

Definition validate_custom (dl : string) : result unit :=
  let trimmed := TrimRight (TrimSpace dl) ";" in
  if bool_decide (trimmed = "") then Ok tt
  else match FromStringRule trimmed with
       | Ok _ => Ok tt
       | Err _ => match FromStringFact trimmed with
                  | Ok _ => Ok tt
                  | Err e => Err (WrapError "invalid custom datalog" e)
                  end
       end.

Definition validate_role (r : PolicyRole) : result unit :=
  for_each (λ svc, wrap_err "invalid allowed_service" (ValidateServiceFormat svc);; ValidateEgressServicePattern svc) (role_allowed_services r);;
  for_each (λ target, wrap_err "invalid allowed_target" (ValidateTargetFormat target)) (role_allowed_targets r);;
  for_each ValidateLabelPattern (role_allowed_labels r);;
  for_each (λ svc, wrap_err "invalid allowed_publish" (ValidateServiceFormat svc);; ValidateEgressServicePattern svc) (role_allowed_publish r);;
  ValidateHTTPGrants (role_http r) (role_allowed_services r);;
  for_each validate_custom (role_custom_datalog r).

(** The loop over the roles: [roleNames] and [factBudget]. *)
Fixpoint validate_roles (roleNames : gset string) (factBudget : nat) (roles : list (option PolicyRole)) : result (gset string * nat) :=
  match roles with
  | [] => Ok (roleNames, factBudget)
  | None :: roles => validate_roles roleNames factBudget roles
  | Some r :: roles =>
      ValidateRoleName (role_name r);;
      fail_if (bool_decide (role_name r ∈ roleNames)) "duplicate role name";;
      validate_role r;;
      validate_roles ({[role_name r]} ∪ roleNames) (factBudget + role_budget r) roles
  end.

Definition validate_binding (roleNames : gset string) (ob : option PolicyBinding) : result unit :=
  match ob with
  | None => Ok tt
  | Some b =>
      fail_if (bool_decide (TrimSpace (binding_role b) = "")) "binding role cannot be empty";;
      fail_if (negb (bool_decide (binding_role b ∈ roleNames))) "binding references undefined role";;
      fail_if (bool_decide (length (binding_members b) = 0)) "binding must specify at least one member";;
      for_each ValidateBindingMember (binding_members b)
  end.

Fixpoint validate_egress (roleNames egressNames : gset string) (egress : list (option EgressDestination)) : result unit :=
  match egress with
  | [] => Ok tt
  | None :: egress => validate_egress roleNames egressNames egress
  | Some d :: egress =>
      ValidateEgressDestination (Some d) roleNames;;
      fail_if (bool_decide (eg_name d ∈ egressNames)) "duplicate egress destination";;
      validate_egress roleNames ({[eg_name d]} ∪ egressNames) egress
  end.

Definition validatePolicyConfig (req : PolicyConfig) : result unit :=
  '(roleNames, factBudget) ← validate_roles ∅ 0 (pc_roles req);
  fail_if (maxIdentityFactBudget <? factBudget) "policy config exceeds the safe budget";;
  for_each (validate_binding roleNames) (pc_bindings req);;
  validate_egress roleNames ∅ (pc_egress req).
End validate.

(** ** How many facts a list of patterns becomes *)

Lemma size_union_le (X Y : gset string) : size (X ∪ Y) ≤ size X + size Y.
Proof. rewrite size_union_alt. pose proof (subseteq_size (Y ∖ X) Y ltac:(set_solver)). lia. Qed.

Section count.
Context (isExact : string → string * string * bool).

Definition exact_types (l : list string) : gset string :=
  list_to_set ((λ x, (isExact x).1.1) <$> filter (λ x, (isExact x).2 = true) l).

(** One fact per pattern that is not exact and one per type of the others. *)
Definition fact_count (l : list string) : nat := length (filter (λ x, (isExact x).2 = false) l) + size (exact_types l).

Lemma exact_types_app l l' : exact_types (l ++ l') = exact_types l ∪ exact_types l'.
Proof. unfold exact_types. by rewrite filter_app, fmap_app, list_to_set_app_L. Qed.

Lemma fact_count_app l l' : fact_count (l ++ l') ≤ fact_count l + fact_count l'.
Proof.
  unfold fact_count. rewrite filter_app, length_app, exact_types_app.
  pose proof (size_union_le (exact_types l) (exact_types l')). lia.
Qed.

Lemma fact_count_bind {A} (f : A → list string) xs : fact_count (xs ≫= f) ≤ sum_list_with (λ x, fact_count (f x)) xs.
Proof. induction xs as [|x xs IH]; [done|]. rewrite bind_cons. cbn [sum_list_with]. pose proof (fact_count_app (f x) (xs ≫= f)). lia. Qed.

Lemma fact_count_filter (P : string → Prop) `{∀ x, Decision (P x)} l : fact_count (filter P l) ≤ fact_count l.
Proof.
  unfold fact_count. apply Nat.add_le_mono.
  - rewrite list_filter_filter. rewrite (list_filter_iff _ (λ x, P x ∧ (isExact x).2 = false)) by naive_solver.
    rewrite <-list_filter_filter. apply sublist_length, sublist_filter.
  - apply subseteq_size. unfold exact_types. intros ty. rewrite !elem_of_list_to_set, !list_elem_of_fmap.
    setoid_rewrite list_elem_of_filter. setoid_rewrite list_elem_of_filter. naive_solver.
Qed.
End count.

Section grouped.
Context (isExact : string → string * string * bool) (build : string → fact) (set_name : string).

Lemma group_state_count l :
  length (g_facts (group_state isExact build l)) = length (filter (λ x, (isExact x).2 = false) l) ∧
  NoDup (g_types (group_state isExact build l)).
Proof.
  induction l as [|x l [Hlen Hnd]] using rev_ind; [split; [done|by apply NoDup_nil]|].
  pose proof (gi_keys _ _ _ _ (group_state_inv isExact build l)) as Hkeys. unfold group_state in *. rewrite foldl_snoc, filter_app, length_app.
  set (st := foldl _ _ l) in *. unfold group_step. destruct (isExact x) as [[ty nm] []] eqn:Hx; cbn [negb g_facts g_types];
    rewrite filter_cons, Hx; cbn [snd]; rewrite filter_nil.
  - rewrite decide_False, Nat.add_0_r by done. split; [done|]. destruct (g_exact st !! ty) as [S|] eqn:Hst; [done|].
    apply NoDup_app. split_and!; [done| |apply NoDup_singleton]. intros ty' Hty' ->%list_elem_of_singleton.
    apply Hkeys in Hty' as [? ?]. congruence.
  - rewrite decide_True by done. rewrite length_app. split; [by rewrite Hlen|done].
Qed.

Lemma group_facts_count l : length (group_facts isExact build set_name l) = fact_count isExact l.
Proof.
  unfold group_facts, fact_count. fold (group_state isExact build l). destruct (group_state_count l) as [Hlen Hnd].
  rewrite length_app, length_fmap, Hlen. f_equal.
  assert (length (sort_Strings (g_types (group_state isExact build l))) = length (g_types (group_state isExact build l))) as ->.
  { apply Permutation_length, sort_Strings_perm. }
  rewrite <-(size_list_to_set (C := gset string)) by done. f_equal. apply set_eq. intros ty.
  rewrite elem_of_list_to_set, (gi_types _ _ _ _ (group_state_inv isExact build l)). unfold exact_types.
  rewrite elem_of_list_to_set, list_elem_of_fmap. setoid_rewrite list_elem_of_filter. split.
  - intros (x & Hx & nm & He). exists x. by rewrite He.
  - intros (x & -> & He & Hx). exists x. split; [done|]. destruct (isExact x) as [[ty nm] []]; [|done]. by exists nm.
Qed.
End grouped.

(** ** The budget *)

Section budget.
Context `{UC : UnicodeCase, UP : URLParser, TX : BiscuitText}.

Lemma BuildService_count l : length (BuildServiceDatalogFacts l) = fact_count isExactService l.
Proof. apply group_facts_count. Qed.
Lemma BuildTarget_count l : length (BuildTargetDatalogFacts l) = fact_count isExactTarget l.
Proof. apply group_facts_count. Qed.
Lemma BuildPublish_count l : length (BuildPublishDatalogFacts l) = fact_count isExactService l.
Proof. unfold BuildPublishDatalogFacts. by rewrite length_fmap, BuildService_count. Qed.

(** The custom facts that the roles mint. *)
Definition custom_facts (prs : list PolicyRole) : list fact := prs ≫= λ pr, omap custom_fact (role_custom_datalog pr).

Lemma narrowed_budget (entries : list (option HTTPGrant)) :
  sum_list_with (λ g, length (BuildHTTPGrantFacts g))
    (omap (λ og, match og with Some g => if bool_decide (hg_service g = "") then None else Some g | None => None end) entries)
  ≤ sum_list_with (λ og, length (entry_facts og)) entries.
Proof.
  induction entries as [|[g|] l IH]; [done| |csimpl; lia]. csimpl. unfold entry_facts at 1. cbn [default from_option id].
  case_bool_decide; cbn [sum_list_with]; lia.
Qed.

(** The facts of resolved roles are no more than the roles' shares. *)
Lemma minted_budget prs : length (grant_facts false prs) + length (custom_facts prs) ≤ sum_list_with role_budget prs.
Proof.
  unfold grant_facts, publish_patterns, custom_facts. rewrite !length_app, BuildService_count, BuildTarget_count, BuildPublish_count, !length_bind.
  pose proof (fact_count_bind isExactService (λ pr, (SplitHTTPGrants pr).1) prs) as H1.
  pose proof (fact_count_bind isExactTarget role_allowed_targets prs) as H2.
  pose proof (fact_count_bind isExactService role_allowed_publish prs) as H3.
  assert (H4 : sum_list_with (λ g, length (BuildHTTPGrantFacts g)) (prs ≫= (λ pr, (SplitHTTPGrants pr).2)) ≤
               sum_list_with (λ pr, sum_list_with (λ og, length (entry_facts og)) (role_http pr)) prs).
  { clear. induction prs as [|pr prs IH]; [done|]. rewrite bind_cons, sum_list_with_app. cbn [sum_list_with].
    pose proof (narrowed_budget (role_http pr)) as Hn. change (omap _ (role_http pr)) with (SplitHTTPGrants pr).2 in Hn. lia. }
  assert (H5 : sum_list_with (λ pr, fact_count isExactService (SplitHTTPGrants pr).1) prs ≤
               sum_list_with (λ pr, length (BuildServiceDatalogFacts (role_allowed_services pr))) prs).
  { apply sum_list_with_le. intros pr _. rewrite BuildService_count. unfold SplitHTTPGrants. cbn [fst]. eapply fact_count_filter. }
  assert (H6 : sum_list_with (λ pr, length (omap custom_fact (role_custom_datalog pr))) prs ≤
               sum_list_with (λ pr, length (role_custom_datalog pr)) prs).
  { apply sum_list_with_le. intros pr _. apply length_omap_le. }
  unfold role_budget. rewrite !sum_list_with_add.
  assert (H7 : sum_list_with (λ pr, length (BuildTargetDatalogFacts (role_allowed_targets pr))) prs =
               sum_list_with (λ pr, fact_count isExactTarget (role_allowed_targets pr)) prs).
  { apply sum_list_with_ext. intros pr. apply BuildTarget_count. }
  assert (H8 : sum_list_with (λ pr, length (BuildPublishDatalogFacts (role_allowed_publish pr))) prs =
               sum_list_with (λ pr, fact_count isExactService (role_allowed_publish pr)) prs).
  { apply sum_list_with_ext. intros pr. apply BuildPublish_count. }
  rewrite H7, H8. lia.
Qed.

Definition named (roles : list (option PolicyRole)) : list PolicyRole := omap id roles.

Lemma elem_of_named r roles : r ∈ named roles ↔ Some r ∈ roles.
Proof. unfold named. rewrite list_elem_of_omap. split; [by intros (? & ? & <-)|]. intros ?. by exists (Some r). Qed.

Record validated (names : gset string) (roles : list PolicyRole) : Prop := {
  vd_names : NoDup (role_name <$> roles);
  vd_fresh r : r ∈ roles → role_name r ∉ names;
  vd_role r : r ∈ roles → ValidateRoleName (role_name r) = Ok tt ∧ validate_role r = Ok tt;
}.

Lemma validate_roles_Ok roles names b names' b' :
  validate_roles names b roles = Ok (names', b') →
  b' = b + sum_list_with role_budget (named roles) ∧ validated names (named roles) ∧
  names' = list_to_set (role_name <$> named roles) ∪ names.
Proof.
  revert names b. induction roles as [|[r|] roles IH]; intros names b; cbn [validate_roles].
  - intros [= <- <-]. split_and!; [simpl; lia| |set_solver]. split; [by apply NoDup_nil|..]; intros r ?%elem_of_nil; done.
  - rewrite !bind_unit_Ok, fail_if_Ok, bool_decide_eq_false. intros (Hn & Hfresh & Hr & Hrest).
    apply IH in Hrest as (-> & [Hnd Hfr Hro] & ->). change (named (Some r :: roles)) with (r :: named roles). split_and!.
    + cbn [sum_list_with]. lia.
    + split; cbn [fmap list_fmap].
      * apply NoDup_cons. split; [|done]. intros (r' & Heq & Hin)%list_elem_of_fmap. apply (Hfr r' Hin). rewrite <-Heq. set_solver.
      * intros r' [->|Hin]%elem_of_cons; [done|]. specialize (Hfr r' Hin). set_solver.
      * intros r' [->|Hin]%elem_of_cons; [done|by apply Hro].
    + cbn [fmap list_fmap list_to_set]. set_solver.
  - apply IH.
Qed.

Lemma roles_map_lookup roles r pr :
  roles_map roles !! r = Some pr → pr ∈ named roles ∧ role_name pr = r.
Proof.
  unfold roles_map. induction roles as [|opr roles IH] using rev_ind; [simpl; by rewrite lookup_empty|].
  rewrite foldl_snoc. unfold named. rewrite omap_app. destruct opr as [pr'|]; [|intros Hl; apply IH in Hl as [? ?]; set_solver].
  rewrite lookup_insert_Some. intros [[<- <-]|[_ Hl]]; [set_solver|]. apply IH in Hl as [? ?]. set_solver.
Qed.

Lemma resolved_roles_named roles rs : NoDup rs → resolved_roles (roles_map roles) rs ⊆+ named roles.
Proof.
  intros Hnd. apply NoDup_submseteq.
  - unfold resolved_roles. assert (Hs : NoDup (sort_Strings rs)) by (by rewrite sort_Strings_perm).
    induction Hs as [|r l Hr Hl IH]; [apply NoDup_nil_2|]. csimpl. destruct (resolved _ r) as [pr|] eqn:Hpr; [|done].
    apply NoDup_cons. split; [|done]. intros (r' & Hr' & Hpr')%list_elem_of_omap. unfold resolved in Hpr, Hpr'.
    repeat case_bool_decide; try done. apply roles_map_lookup in Hpr as [_ <-]. apply roles_map_lookup in Hpr' as [_ <-]. done.
  - intros pr (r & _ & Hr)%list_elem_of_omap. unfold resolved in Hr. case_bool_decide; [done|]. by apply roles_map_lookup in Hr as [? _].
Qed.

(** A destination is published under its exact name. *)
Lemma served_exact name : ValidateEgressName name = Ok tt →
  isExactService (ServiceTypeStringEgress +:+ "://" +:+ name) = (ServiceTypeStringEgress, name, true).
Proof.
  unfold ValidateEgressName. rewrite !bind_unit_Ok, !fail_if_Ok. intros (_ & _ & Hany & Hv).
  rewrite ContainsAny_false in Hany. assert (Hstar : "*"%char ∉ chars name) by (intros Hin; apply (Hany _ Hin); by left).
  assert (Hp : ParseServiceTarget (ServiceTypeStringEgress +:+ "://" +:+ name) = (ServiceTypeStringEgress, name)).
  { apply ValidateServiceFormat_iff in Hv as [Hv|(ty & nm & Heq & Hu & _)]; [done|].
    change (EgressServicePrefix +:+ name) with (ServiceTypeStringEgress +:+ "://" +:+ name) in Heq.
    assert (Hty : ":"%char ∉ chars ty).
    { destruct Hu as (_ & Hty & _). rewrite forallb_not_in in Hty. intros Hin. apply (Hty _ Hin). by left. }
    pose proof (Cut_char ty ":" Hty ("//" +:+ nm)) as H1.
    pose proof (Cut_char ServiceTypeStringEgress ":" ltac:(by apply (bool_decide_unpack _)) ("//" +:+ name)) as H2.
    change (String ":" ("//" +:+ nm)) with ("://" +:+ nm) in H1. change (String ":" ("//" +:+ name)) with ("://" +:+ name) in H2.
    rewrite <-Heq, H2 in H1. injection H1 as <- Hnm. change (name = nm) in Hnm. subst nm. by apply ParseServiceTarget_uri. }
  unfold isExactService, BuildServiceDatalogFact. rewrite Hp. f_equal.
  assert (Hne : name ≠ "*") by (intros ->; apply Hstar; by left).
  rewrite !(bool_decide_false (name = "*")), andb_false_r by done.
  assert (HasPrefix name "*." = false) as ->.
  { apply not_true_iff_false. rewrite HasPrefix_spec. intros (r & ->). apply Hstar. by left. }
  assert (HasSuffix name ".*" = false) as ->; [|done].
  apply not_true_iff_false. rewrite HasSuffix_spec. intros (r & ->). apply Hstar. rewrite chars_app. set_solver.
Qed.

Lemma served_destinations_exact egress rs labels x :
  x ∈ served_destinations egress rs labels → ∃ name, isExactService x = (ServiceTypeStringEgress, name, true).
Proof.
  unfold served_destinations. intros (od & _ & Hx)%list_elem_of_omap. destruct od as [d|]; [|done].
  destruct (ValidateEgressName (eg_name d)) as [[]|] eqn:Hv; [|done]. simpl in Hx. case_match; [|done]. injection Hx as <-.
  exists (eg_name d). by apply served_exact.
Qed.

Lemma roles_map_fmap (g : PolicyRole → PolicyRole) roles :
  (∀ pr, role_name (g pr) = role_name pr) → roles_map (fmap (M:=option) g <$> roles) = g <$> roles_map roles.
Proof.
  intros Hg. unfold roles_map. induction roles as [|opr roles IH] using rev_ind; [simpl; by rewrite fmap_empty|].
  rewrite fmap_app, foldl_app, foldl_snoc, IH. destruct opr as [pr|]; simpl; [|done]. by rewrite Hg, fmap_insert.
Qed.

(** The role [role] with the destinations that are served under it. *)
Definition publishing (m : gmap string PolicyRole) (role0 : string) (served : list string) (r : string) : option PolicyRole :=
  if bool_decide (r = role0) then Some (add_publish (default (empty_role role0) (m !! r)) served) else m !! r.

Lemma is_role_lookup role0 roles : existsb (is_role role0) roles = false → roles_map roles !! role0 = None.
Proof.
  intros Hno. destruct (roles_map roles !! role0) as [pr|] eqn:Hpr; [|done]. apply roles_map_lookup in Hpr as [Hin Hn].
  apply elem_of_named in Hin. apply not_true_iff_false in Hno. destruct Hno. apply existsb_True. exists (Some pr). split; [done|].
  simpl. by rewrite bool_decide_true.
Qed.

Lemma is_role_found role0 roles : existsb (is_role role0) roles = true → is_Some (roles_map roles !! role0).
Proof.
  unfold roles_map. intros (opr & Hin & Hr)%existsb_True. destruct opr as [pr|]; [|done]. simpl in Hr. apply bool_decide_eq_true in Hr.
  induction roles as [|o roles IH] using rev_ind; [by apply elem_of_nil in Hin|]. rewrite foldl_snoc.
  apply elem_of_app in Hin as [Hin|<-%list_elem_of_singleton].
  - destruct o as [pr'|]; [|by apply IH]. rewrite lookup_insert_is_Some'. right. by apply IH.
  - rewrite Hr. rewrite lookup_insert_is_Some'. by left.
Qed.

Lemma WithEgressPublish_map roles egress role0 rs labels :
  let served := served_destinations egress (role0 :: rs) labels in
  served = [] ∧ WithEgressPublish roles egress (role0 :: rs) labels = roles ∨
  ∀ r, roles_map (WithEgressPublish roles egress (role0 :: rs) labels) !! r = publishing (roles_map roles) role0 served r.
Proof.
  intros served. unfold WithEgressPublish. fold served. case_bool_decide as Hs; [left; by apply nil_length_inv in Hs|right].
  set (g := λ pr, if bool_decide (role_name pr = role0) then add_publish pr served else pr).
  set (out := _ <$> roles).
  assert (Hout : out = fmap (M:=option) g <$> roles).
  { apply list_fmap_ext. intros _ [pr|] _; [|done]. simpl. unfold g. by case_bool_decide. }
  assert (Hm : ∀ r, roles_map out !! r = g <$> roles_map roles !! r).
  { intros r. rewrite Hout, roles_map_fmap by (intros pr; unfold g; by case_bool_decide). by rewrite lookup_fmap. }
  assert (Hg : ∀ r pr, roles_map roles !! r = Some pr → g pr = if bool_decide (r = role0) then add_publish pr served else pr).
  { intros r pr [_ <-]%roles_map_lookup. done. }
  intros r. unfold publishing. destruct (existsb (is_role role0) roles) eqn:He.
  - rewrite Hm. destruct (is_role_found _ _ He) as [pr0 Hpr0]. case_bool_decide as Hr.
    + subst r. rewrite Hpr0. simpl. by rewrite (Hg _ _ Hpr0), bool_decide_true.
    + destruct (roles_map roles !! r) as [pr|] eqn:Hpr; [|done]. simpl. by rewrite (Hg _ _ Hpr), bool_decide_false.
  - unfold roles_map at 1. rewrite foldl_snoc. fold (roles_map out). simpl. case_bool_decide as Hr.
    + subst r. rewrite lookup_insert_eq, (is_role_lookup _ _ He). done.
    + rewrite lookup_insert_ne by done. rewrite Hm. destruct (roles_map roles !! r) as [pr|] eqn:Hpr; [|done]. simpl.
      by rewrite (Hg _ _ Hpr), bool_decide_false.
Qed.

Section publishing.
Context (m m' : gmap string PolicyRole) (role0 : string) (served : list string).
Hypothesis Hm : ∀ r, m' !! r = publishing m role0 served r.
Hypothesis Hserved : ∀ x, x ∈ served → ∃ name, isExactService x = (ServiceTypeStringEgress, name, true).

Lemma resolved_publishing r :
  resolved m' r = resolved m r ∨
  resolved m' r = Some (add_publish (default (empty_role role0) (resolved m r)) served).
Proof using Hm. unfold resolved. case_bool_decide; [by left|]. rewrite Hm. unfold publishing. case_bool_decide; [by right|by left]. Qed.

Lemma publishing_bind {B} (f : PolicyRole → list B) l :
  (∀ pr, f (add_publish pr served) = f pr) → f (empty_role role0) = [] → omap (resolved m') l ≫= f = omap (resolved m) l ≫= f.
Proof using Hm.
  intros Hf He. induction l as [|r l IH]; [done|]. csimpl. destruct (resolved_publishing r) as [-> | ->].
  - destruct (resolved m r); [by rewrite !bind_cons, IH|done].
  - rewrite bind_cons, Hf, IH. destruct (resolved m r); [done|]. simpl. by rewrite He.
Qed.

Lemma publishing_publish l :
  let pub := omap (resolved m) l ≫= role_allowed_publish in
  let pub' := omap (resolved m') l ≫= role_allowed_publish in
  filter (λ x, (isExactService x).2 = false) pub' = filter (λ x, (isExactService x).2 = false) pub ∧
  exact_types isExactService pub' ⊆ {[ServiceTypeStringEgress]} ∪ exact_types isExactService pub.
Proof using Hm Hserved.
  assert (Hs : filter (λ x, (isExactService x).2 = false) served = []).
  { apply filter_false. intros x [name ->]%Hserved. done. }
  assert (Ht : exact_types isExactService served ⊆ {[ServiceTypeStringEgress]}).
  { unfold exact_types. intros ty. rewrite elem_of_list_to_set, list_elem_of_fmap. intros (x & -> & [_ Hx]%list_elem_of_filter).
    destruct (Hserved x Hx) as [name ->]. set_solver. }
  induction l as [|r l [IHf IHt]]; [split; [done|set_solver]|]. cbv zeta.
  change (omap (resolved ?mm) (r :: l)) with (match resolved mm r with Some y => y :: omap (resolved mm) l | None => omap (resolved mm) l end).
  destruct (resolved_publishing r) as [-> | ->].
  - destruct (resolved m r); [|done]. rewrite !bind_cons, !filter_app, !exact_types_app, IHf. split; [done|set_solver].
  - rewrite bind_cons. cbn [add_publish role_allowed_publish]. rewrite !filter_app, !exact_types_app, IHf, Hs.
    destruct (resolved m r) as [pr|]; cbn [default from_option id empty_role role_allowed_publish].
    + rewrite bind_cons, filter_app, exact_types_app, (right_id_L [] (++)). split; [done|set_solver].
    + rewrite filter_nil. split; [done|]. assert (exact_types isExactService [] = ∅) as -> by done. set_solver.
Qed.

Lemma publishing_budget rs :
  length (grant_facts false (resolved_roles m' rs)) + length (custom_facts (resolved_roles m' rs)) ≤
  length (grant_facts false (resolved_roles m rs)) + length (custom_facts (resolved_roles m rs)) + 1.
Proof using Hm Hserved.
  unfold resolved_roles. set (l := sort_Strings rs). unfold grant_facts, publish_patterns, custom_facts.
  pose proof (publishing_bind (λ pr, (SplitHTTPGrants pr).1) l (λ _, eq_refl) eq_refl) as H1.
  pose proof (publishing_bind (λ pr, (SplitHTTPGrants pr).2) l (λ _, eq_refl) eq_refl) as H2.
  pose proof (publishing_bind role_allowed_targets l (λ _, eq_refl) eq_refl) as H3.
  pose proof (publishing_bind (λ pr, omap (M:=list) custom_fact (role_custom_datalog pr)) l (λ _, eq_refl) eq_refl) as H4.
  rewrite H1, H2, H3, H4. clear H1 H2 H3 H4. rewrite !length_app, !BuildPublish_count. destruct (publishing_publish l) as [Hf Ht]. unfold fact_count. rewrite Hf.
  apply subseteq_size in Ht. pose proof (size_union_le {[ServiceTypeStringEgress]} (exact_types isExactService (omap (resolved m) l ≫= role_allowed_publish))) as Hu.
  rewrite size_singleton in Hu. lia.
Qed.
End publishing.

(** C38: A policy that [POST /policies] accepts bounds the facts of every
    identity: whatever set of roles an identity holds, the service, HTTP, target,
    publish and custom facts that minting derives from the policy's roles number
    at most [maxIdentityFactBudget]; and whatever labels its node has, with the
    egress destinations that the node serves published under its first role they
    number at most one more, since the validation does not count the set of
    destinations.  (Roles that share patterns are grouped into fewer facts, never
    more.) *)
Theorem policy_fact_budget req rs labels :
  validatePolicyConfig req = Ok tt → NoDup rs →
  let facts roles := let prs := resolved_roles (roles_map roles) rs in length (grant_facts false prs) + length (custom_facts prs) in
  facts (pc_roles req) ≤ maxIdentityFactBudget ∧
  facts (WithEgressPublish (pc_roles req) (pc_egress req) rs labels) ≤ maxIdentityFactBudget + 1.
Proof.
  unfold validatePolicyConfig. intros Hv Hnd.
  apply bind_Ok in Hv as ([names b] & Hroles & Hv). rewrite !bind_unit_Ok, fail_if_Ok, Nat.ltb_ge in Hv. destruct Hv as (Hb & _).
  apply validate_roles_Ok in Hroles as (-> & _ & _).
  assert (Hplain : length (grant_facts false (resolved_roles (roles_map (pc_roles req)) rs)) +
                   length (custom_facts (resolved_roles (roles_map (pc_roles req)) rs)) ≤ maxIdentityFactBudget).
  { etrans; [apply minted_budget|]. etrans; [by apply sum_list_with_submseteq, resolved_roles_named|]. lia. }
  cbv zeta. split; [done|]. destruct rs as [|role0 rs']; [simpl; lia|].
  destruct (WithEgressPublish_map (pc_roles req) (pc_egress req) role0 rs' labels) as [[_ ->]|Hm]; [lia|].
  pose proof (publishing_budget _ _ _ _ Hm (served_destinations_exact _ _ _) (role0 :: rs')). lia.
Qed.
End budget.

(** ** The roles of an identity *)

Section roles.
Context `{TX : BiscuitText, UPr : UnicodePrint, PC : PeerCodec}.

(** The facts of an identity that bindings look at: the peer and the claims. *)
Definition identity_facts (peerID : string) (claims : option claims_map) : list fact :=
  Fact FactNode [VStr peerID] :: claims_facts claims.

Lemma elem_of_unseen seen items x : x ∈ unseen seen items ↔ x ∈ items ∧ x ∉ seen.
Proof.
  revert seen. induction items as [|i items IH]; intros seen; simpl; [rewrite elem_of_nil; naive_solver|]. case_bool_decide.
  - rewrite elem_of_cons, IH. naive_solver.
  - rewrite !elem_of_cons, IH, not_elem_of_union, not_elem_of_singleton. destruct (decide (x = i)); naive_solver.
Qed.

Lemma elem_of_claim_facts claims key fact_ : fact_ ∈ claim_facts claims key ↔
  ∃ v, fact_ = Fact (map_get OIDCClaimToFact key) [VStr v] ∧ v ∈ toStringSlice (default AnyNil (claims !! key)).
Proof.
  unfold claim_facts. destruct (claims !! key) as [val|]; simpl; [|rewrite elem_of_nil; split; [done|]; by intros (v & _ & ?%elem_of_nil)].
  assert (Hv : fact_ ∈ (λ item, Fact (map_get OIDCClaimToFact key) [VStr item]) <$> unseen ∅ (toStringSlice val) ↔
               ∃ v, fact_ = Fact (map_get OIDCClaimToFact key) [VStr v] ∧ v ∈ toStringSlice val).
  { rewrite list_elem_of_fmap. setoid_rewrite elem_of_unseen. split.
    - intros (v & -> & Hv & _). eauto.
    - intros (v & -> & Hv). exists v. split_and!; [done|done|apply not_elem_of_empty]. }
  by destruct val.
Qed.

Lemma elem_of_factValues claims f v :
  v ∈ factValues claims f ↔ Fact f [VStr v] ∈ claims_facts (Some claims).
Proof.
  unfold factValues, claims_facts. generalize (sorted_keys OIDCClaimToFact). intros keys. rewrite !list_elem_of_bind. split.
  - intros (key & Hv & [<- Hkey]%list_elem_of_filter). exists key. rewrite elem_of_claim_facts. eauto.
  - intros (key & Hf & Hkey). apply elem_of_claim_facts in Hf as (v' & [= -> ->] & Hv).
    exists key. rewrite list_elem_of_filter. done.
Qed.

(** The node members are written in the encoding that peers are known by. *)
Definition canonical_members (bindings : list (option PolicyBinding)) : Prop :=
  ∀ b m value id, Some b ∈ bindings → m ∈ binding_members b → SplitN2 m ":" = [FactNode; value] → peer_Decode value = Ok id → id = value.

Lemma member_resolves_matches peerID claims m :
  peer_Decode peerID = Ok peerID → (∀ value id, SplitN2 m ":" = [FactNode; value] → peer_Decode value = Ok id → id = value) →
  member_resolves peerID claims m = member_matches (identity_facts peerID (Some claims)) m.
Proof.
  intros Hpeer Hcanon. unfold member_resolves, member_matches. case_bool_decide as Hsys; [done|]. cbn [orb].
  destruct (SplitN2 m ":") as [|prefix [|value [|? ?]]]; try done.
  case_bool_decide as Hp.
  - subst prefix.
    assert (Hc : ∀ v, v ∈ candidates FactNode (identity_facts peerID (Some claims)) ↔ v = peerID).
    { intros v. rewrite elem_of_candidates. unfold identity_facts. rewrite elem_of_cons. split; [|by intros ->; left].
      intros [[= ->]|Hc]; [done|]. apply claims_facts_name in Hc. by apply (bool_decide_pack _) in Hc. }
    destruct (peer_Decode value) as [id|e] eqn:Hd.
    + apply Hcanon in Hd; [|done]. subst id. apply eq_true_iff_eq. rewrite slices_Contains_true, Hc, bool_decide_eq_true. done.
    + apply bool_decide_eq_false. intros ->. congruence.
  - apply MatchBindingMemberValue_ext. intros v. rewrite elem_of_factValues, elem_of_candidates. unfold identity_facts. rewrite elem_of_cons.
    split; [by right|]. intros [[= -> _]|?]; done.
Qed.

(** C39: The roles that the control plane resolves for an identity are the roles
    that the mesh policy's binding rules derive, in a provider's Datalog, from the
    facts of its peer and of its claims: the same bindings, through two
    implementations.  The facts are those of the identity alone, as minting
    states them; a credential also states the roles it was minted with.  This
    holds for bindings that are valid as Datalog and whose node members are written
    as peers are known; a member in another encoding of a peer is accepted by the
    control plane, which then binds nothing where the provider does
    ([node_member_encoding]). *)
Theorem roles_agree peerID claims bindings ρ :
  bindings_ok bindings → canonical_members bindings → peer_Decode peerID = Ok peerID →
  ρ ∈ resolveRoles peerID (Some claims) bindings ↔
  derives (identity_facts peerID (Some claims)) (pr_Rule <$> (for_all binding_rules bindings).1) (Fact FactRole [VStr ρ]).
Proof.
  intros Hok Hcanon Hpeer. rewrite bindings_grant by done. unfold resolveRoles. cbn [default from_option id].
  rewrite elem_of_elements, elem_of_list_to_set, list_elem_of_bind. split.
  - intros ([b|] & Hin & Hb); [|by apply elem_of_nil in Hin]. right. destruct (existsb _ _) eqn:He; [|by apply elem_of_nil in Hin].
    apply list_elem_of_singleton in Hin. apply existsb_True in He as (m & Hm & Hr). exists b, m. split_and!; [done..|].
    by rewrite <-member_resolves_matches; eauto.
  - intros [Hrole|(b & m & Hb & <- & Hm & Hmatch)].
    { unfold identity_facts in Hrole. apply elem_of_cons in Hrole as [[= ]|Hrole]. apply claims_facts_name in Hrole. by apply (bool_decide_pack _) in Hrole. }
    exists (Some b). split; [|done]. assert (existsb (member_resolves peerID claims) (binding_members b) = true) as ->; [|by left].
    apply existsb_True. exists m. split; [done|]. rewrite member_resolves_matches; eauto.
Qed.
End roles.

(** ** Witnesses *)

Definition budget_role : PolicyRole :=
  {| role_name := "dev"; role_allowed_targets := ["group:backend"]; role_allowed_services := ["mcp://calc"; "mcp://*.corp"];
     role_custom_datalog := []; role_allowed_labels := []; role_http := []; role_allowed_publish := ["mcp://*"] |}.

Definition budget_policy : PolicyConfig :=
  {| pc_roles := [Some budget_role]; pc_bindings := [Some {| binding_role := "dev"; binding_members := ["group:eng-*"] |}];
     pc_egress := [Some {| eg_name := "api.github.com"; eg_target_url := ""; eg_credential := "github"; eg_served_by := ["dev"];
                           eg_broker := None; eg_inspectors := []; eg_mode := EGRESS_MODE_HTTP; eg_ports := [];
          eg_preserve_host := false; eg_forward_context := false |}] |}.

Lemma policy_fact_budget_witness :
  let facts roles := let prs := resolved_roles (roles_map roles) ["dev"] in length (grant_facts false prs) + length (@custom_facts reference_text prs) in
  let published := @WithEgressPublish ascii_case (pc_roles budget_policy) (pc_egress budget_policy) ["dev"] ∅ in
  (facts (pc_roles budget_policy) = 4 ∧ facts published = 5) ∧
  facts (pc_roles budget_policy) ≤ maxIdentityFactBudget ∧ facts published ≤ maxIdentityFactBudget + 1.
Proof.
  cbv zeta. split; [by vm_compute|]. apply (@policy_fact_budget ascii_case no_urls reference_text budget_policy ["dev"] ∅).
  - by vm_compute.
  - apply NoDup_singleton.
Defined.

Definition eng_claims : claims_map := {[ "groups" := AnyStrings ["eng-infra"] ]}.

Lemma roles_agree_witness :
  "dev" ∈ resolveRoles "12D3abc" (Some eng_claims) bindings_example ∧
  derives (identity_facts "12D3abc" (Some eng_claims))
    (pr_Rule <$> (@for_all (option PolicyBinding) (@binding_rules reference_text ascii_print plain_codec) bindings_example).1)
    (Fact FactRole [VStr "dev"]).
Proof.
  assert (Hin : "dev" ∈ resolveRoles "12D3abc" (Some eng_claims) bindings_example) by (apply (bool_decide_unpack _); by vm_compute).
  split; [exact Hin|]. revert Hin. apply (@roles_agree reference_text ascii_print plain_codec).
  - apply bindings_example_ok.
  - intros b m value id _ _ _ Hd. unfold peer_Decode, plain_codec in Hd. case_match; [|done]. by injection Hd as <-.
  - by vm_compute.
Defined.

(** ** Node members in another encoding *)

(** A peer that has a second name, as a CIDv1 is a second name of a peer ID. *)
#[refine] Definition aliased_codec : PeerCodec :=
  {| peer_Decode := λ t, if bool_decide (t = "bafya") then Ok "12D3a" else if bool_decide (t = "12D3a") then Ok t else fail "no peer" |}.
Proof. intros t id. repeat case_bool_decide; intros [= <-]; done. Defined.

(** A binding that names a node by its second name grants the role in a
    provider's Datalog, which decodes it, and not in the control plane, which
    compares the text: the node cannot enroll in the role. *)
Example node_member_encoding :
  let bindings := [Some {| binding_role := "dev"; binding_members := ["node:bafya"] |}] in
  (@peer_Decode aliased_codec "12D3a" = Ok "12D3a") ∧ ("dev" ∉ resolveRoles "12D3a" (Some ∅) bindings) ∧
  derives (identity_facts "12D3a" (Some ∅)) (pr_Rule <$> (@for_all (option PolicyBinding) (@binding_rules reference_text ascii_print aliased_codec) bindings).1)
    (Fact FactRole [VStr "dev"]).
Proof.
  split; [done|]. split; [apply (bool_decide_unpack _); by vm_compute|].
  apply (@bindings_grant reference_text ascii_print aliased_codec).
  - intros b [= ->]%list_elem_of_singleton. split; [by vm_compute|]. intros m ->%list_elem_of_singleton. split_and!; by vm_compute.
  - right. eexists _, "node:bafya". split_and!; [by left|done|by left|by vm_compute].
Qed.
