(* ===== verification/Enrollment.v ===== *)
(** * Enrollment

    The handlers that issue credentials to members, each a program over the
    calls of [ControlPlane]: [/register], [/refresh], [/enroll] and
    [/enroll/status], with re-minting an approved enrollment
    ([src/internal/controlplane/server.go]).  A handler takes the request as its
    transport decoded it; reading a body and checking a method come before. *)

From S2P Require Import Prelude GoStrings Regex Names Biscuit NaiveEngine Facts DatalogText Grants Labels HTTPGrants PolicyRules Egress Base64 Tar Token Identity Mint Middleware Directory Keyring Decimal PolicyStore Store ControlPlane.

(** ** Requests and answers *)

Record EnrollRequest := {
  eq_Jwt : string;
  eq_PeerId : string;
  eq_PublicKey : string;
  eq_RequestedRole : string;
  eq_Labels : gmap string string;
  eq_ChallengeUnixMs : Z;
  eq_ChallengeSignature : string;
}.

Record TokenRefreshRequest := {
  tr_ChallengeSignature : string;
  tr_ChallengeUnixMs : Z;
  tr_PeerId : string;
  tr_Jwt : string;
}.

Record BootstrapEnrollRequest := {
  bq_BootstrapToken : string;
  bq_PeerId : string;
  bq_PublicKey : string;
  bq_RequestedRole : string;
  bq_Labels : gmap string string;
  bq_ChallengeUnixMs : Z;
  bq_ChallengeSignature : string;
}.

Record BootstrapEnrollResponse := {
  be_Status : EnrollmentStatus;
  be_BiscuitToken : string;
  be_ControlPlanePublicKey : string;
  be_RouterAddresses : list string;
  be_ErrorMessage : string;
  be_PollIntervalSeconds : Z;
  be_ExpireTime : option time;
}.

Inductive answer :=
| HttpError (code : Z) (msg : string)
| Enrolled (biscuit cpKey : string) (routers : list string) (expires : time)  (** [EnrollResponse] *)
| Refreshed (biscuit : string) (expires : time)  (** [TokenRefreshResponse] *)
| Bootstrap (resp : BootstrapEnrollResponse)
| Created (id token role ownerID : string) (expires : time)  (** [BootstrapTokenCreateResponse] *)
| Leased (expires : time)
| Listed (nodes : list EnrolledNode) (nextPageToken : string)  (** [NodeListResponse] *)
| Done (code : Z)
| PolicyText (rules : list string)  (** [PolicyConfigGetResponse] *)
| Assigned (egress : list EgressDestination)  (** [EgressAssignmentsResponse] *)
| Revocations (revocationIDs bannedPeerIDs : list string)  (** [RevocationsResponse] *)
| Exchanged (biscuit : string) (expires : time) (roles : list string) (subject : string)  (** [TokenExchangeResponse] *)
| BorderToken (claims : BorderClaims) (expires : time)  (** [STSTokenResponse]: the JWT the signer made of the claims *)
| ConsentForm
| AuthorizationCode (code state redirectURI : string)  (** a redirect, or JSON when there is no URI *)
| AccessToken (biscuit : string) (expiresIn : Z)
| OAuthError (status : Z) (code : string).

Definition internalError : answer := HttpError 500 "Internal server error".
Definition tooManyRequests : answer := HttpError 429 "Rate limit exceeded".

Definition enrollError (msg : string) : answer :=
  Bootstrap {| be_Status := ENROLLMENT_STATUS_REJECTED; be_BiscuitToken := ""; be_ControlPlanePublicKey := "";
               be_RouterAddresses := []; be_ErrorMessage := msg; be_PollIntervalSeconds := 0; be_ExpireTime := None |}.

(** An answer that carries the status of a request that is not approved. *)
Definition statusAnswer (req : EnrollmentRequest) (poll : Z) : answer :=
  Bootstrap {| be_Status := er_Status req; be_BiscuitToken := er_BiscuitToken req; be_ControlPlanePublicKey := "";
               be_RouterAddresses := []; be_ErrorMessage := ""; be_PollIntervalSeconds := poll; be_ExpireTime := None |}.

(** [if err != nil { http.Error(w, "Internal server error", 500); return }] *)
Definition internal {A} (r : result A) (k : A → prog answer) : prog answer :=
  match r with Ok a => k a | Err _ => Ret internalError end.

(** The same for the policy: an empty store is not an error. *)
Definition mesh_policy_or_empty (r : result (list (option PolicyRole) * list (option PolicyBinding)))
  : result (list (option PolicyRole) * list (option PolicyBinding)) :=
  match r with Err e => if bool_decide (e = ErrNotFound) then Ok ([], []) else Err e | _ => r end.

(** The addresses of the routers, in the order the routers are listed: the code
    shuffles the routers first. *)
Definition routerAddresses (routers : list RouterLease) : list string := routers ≫= rl_Addresses.

(** [fmt.Sprintf("%x", sum)] *)
Definition hex_string (s : string) : string := foldr (λ c t, hex 2 (byte c) +:+ t) "" (chars s).

Definition min_time (a b : time) : time := if (b <? a)%Z then b else a.

Section handlers.
Context `{UnicodeCase, TARCodec, BT : BiscuitTokens, BiscuitText, BiscuitEngine, PeerCodec, SHA256, PeerKeys, OIDCLibrary, ClaimsCodec}.
Variable s : Server.

Definition BiscuitTTL : Z := op_BiscuitTTL (sv_config s).

(** ** Shared steps *)

Definition mintRoles (policyRoles : list (option PolicyRole)) (roles : list string) (labels : gmap string string)
  : prog (list (option PolicyRole)) :=
  egress ← perform CGetEgressDestinations;
  mret (match egress with
        | Err _ => policyRoles
        | Ok egress => WithEgressPublish policyRoles egress roles labels
        end).

(** [(s *Server) nodeRoles] *)
Definition storedNodeRoles (nodeRecord : EnrolledNode) : prog (list string) :=
  policy ← perform CGetMeshPolicy;
  mret (match policy with
        | Err _ => [en_Role nodeRecord]
        | Ok (_, bindings) => match nodeRoles nodeRecord bindings with Err _ => [en_Role nodeRecord] | Ok roles => roles end
        end).

Definition tokenOwnerBanned (tok : BootstrapToken) : prog (result bool) :=
  if bool_decide (bt_OwnerID tok = "") then mret (Ok false)
  else
    owner ← perform (CGetUser (bt_OwnerID tok));
    match owner with
    | Err e => mret (if bool_decide (e = ErrNotFound) then Ok false else Err e)
    | Ok owner => perform (CIsIdentityBanned (IdentityKey owner))
    end.

Definition buildApprovedBootstrapEnrollResponse (biscuitToken : string) (resolvedAt : option time)
  : prog (result BootstrapEnrollResponse) :=
  key ← perform CGetCurrentKey;
  match key with
  | Err e => mret (Err (WrapError "failed to retrieve signing key" e))
  | Ok (_, pubKey) =>
      routers ← perform CGetActiveRouters;
      match routers with
      | Err e => mret (Err (WrapError "failed to retrieve active routers" e))
      | Ok activeRouters =>
          now ← perform Now;
          let expiration := (default now resolvedAt + BiscuitTTL)%Z in
          mret (Ok {| be_Status := ENROLLMENT_STATUS_APPROVED; be_BiscuitToken := biscuitToken;
                      be_ControlPlanePublicKey := pubKey; be_RouterAddresses := routerAddresses activeRouters;
                      be_ErrorMessage := ""; be_PollIntervalSeconds := 0; be_ExpireTime := Some expiration |})
      end
  end.

(** ** [/register] *)

(** The owner of a node that a human enrolls. *)
Definition register_owner (claims : claims_map) : prog string :=
  let sub := claim_string claims "sub" in
  if isWorkloadClaims s claims || bool_decide (sub = "") then mret ""
  else
    u ← perform (CGetUser sub);
    mret (match u with
          | Err _ => ""
          | Ok u =>
              let iss := claim_string claims "iss" in
              if bool_decide (u_Issuer u = "") || bool_decide (iss = "") || bool_decide (u_Issuer u = iss) then u_ID u else ""
          end).

(** From the policy to the answer: the identity is proved and welcome. *)
Definition register_mint (req : EnrollRequest) (claims : claims_map) (token : IDToken) (canonical : string)
    (privKey : PrivateKey) (pubKey : PublicKey) : prog answer :=
  policy ← perform CGetMeshPolicy;
  internal (mesh_policy_or_empty policy) (λ '(policyRoles, bindings),
  let resolvedRoles := resolveRoles canonical (Some claims) bindings in
  if negb (slices_Contains resolvedRoles (eq_RequestedRole req))
  then Ret (HttpError 403 "requested role is not bound to this identity")
  else
    let finalRoles := eq_RequestedRole req :: customAccessRoles (eq_RequestedRole req) resolvedRoles in
    match LabelPatternsAllow (allowedLabelPatterns finalRoles policyRoles) (eq_Labels req) with
    | Err _ => Ret (HttpError 403 "Label not permitted")
    | Ok _ =>
        t1 ← perform Now;
        let sessionExpiresAt := (t1 + sessionTTLForClaims s claims)%Z in
        t2 ← perform Now;
        let biscuitExpiry := min_time (min_time (t2 + BiscuitTTL)%Z (it_Expiry token)) sessionExpiresAt in
        roles ← mintRoles policyRoles finalRoles (eq_Labels req);
        match MintBiscuitToken privKey (Some claims) canonical biscuitExpiry finalRoles roles (eq_Labels req) with
        | Err _ => Ret (HttpError 403 "Failed to mint biscuit")
        | Ok (biscuitData, _) =>
            internal (claims_Marshal claims) (λ claimsBytes,
            ownerID ← register_owner claims;
            t3 ← perform Now;
            enrolled ← perform (CEnrollNode
              {| en_PeerID := canonical; en_PublicKey := eq_PublicKey req; en_Biscuit := biscuitData;
                 en_Role := eq_RequestedRole req; en_EnrollmentType := "OIDC"; en_ClaimsJSON := claimsBytes;
                 en_OwnerID := ownerID; en_Labels := eq_Labels req; en_EnrolledAt := t3; en_ExpiresAt := sessionExpiresAt;
                 en_Banned := false; en_AutonomousRecovery := false; en_Ephemeral := false |});
            internal enrolled (λ _,
            routers ← perform CGetActiveRouters;
            internal routers (λ activeRouters,
            Ret (Enrolled biscuitData pubKey (routerAddresses activeRouters) biscuitExpiry))))
        end
    end).

Definition HandleRegister (req : EnrollRequest) : prog answer :=
  allowed ← perform LimiterAllow;
  if negb allowed then Ret tooManyRequests
  else
    t ← perform Now;
    match VerifyJWT t (eq_Jwt req) (op_AllowedAudiences (sv_config s)) (sv_providers s) with
    | Err _ => Ret (HttpError 401 "JWT validation failed")
    | Ok (claims, token) =>
        let key := oidcIdentityKey (Some claims) in
        if bool_decide (key = "") then Ret (HttpError 401 "JWT validation failed: token has no sub claim")
        else
          let claims := drop_unverified_email claims in
          match peer_Decode (eq_PeerId req) with
          | Err _ => Ret (HttpError 400 "Invalid Peer ID")
          | Ok canonical =>
              match UnmarshalPublicKey (eq_PublicKey req) with
              | Err _ => Ret (HttpError 400 "Invalid public key")
              | Ok enrolleeKey =>
                  if negb (MatchesPublicKey canonical enrolleeKey) then Ret (HttpError 400 "peer_id is not derived from public_key")
                  else
                    t ← perform Now;
                    match verifyFreshChallenge t enrolleeKey (RegisterChallenge canonical (eq_ChallengeUnixMs req))
                            (eq_ChallengeUnixMs req) (eq_ChallengeSignature req) with
                    | Err _ => Ret (HttpError 401 "Invalid registration challenge")
                    | Ok _ =>
                        banned ← perform (CIsNodeBanned canonical);
                        internal banned (λ banned,
                        if (banned : bool) then Ret (HttpError 403 "Node is banned")
                        else
                          banned ← perform (CIsIdentityBanned (oidcIdentityKey (Some claims)));
                          internal banned (λ banned,
                          if (banned : bool) then Ret (HttpError 403 "Identity is banned")
                          else
                            current ← perform CGetCurrentKey;
                            internal current (λ '(privKey, pubKey),
                            if bool_decide (eq_RequestedRole req = "") then Ret (HttpError 400 "requested_role must be specified")
                            else match ValidateLabels (eq_Labels req) with
                                 | Err _ => Ret (HttpError 400 "Invalid labels")
                                 | Ok _ => register_mint req claims token canonical privKey pubKey
                                 end)))
                    end
              end
          end
    end.
(** ** [/refresh] *)

(** A step of a handler that may answer at once. *)
Definition or_return {A} (step : prog (answer + A)) (k : A → prog answer) : prog answer :=
  r ← step;
  match r with inl a => Ret a | inr x => k x end.

(** A ban of the identity that the claims name. *)
Definition identity_gate (key : string) : prog (answer + unit) :=
  banned ← perform (CIsIdentityBanned key);
  mret (match banned with
        | Err _ => inl internalError
        | Ok true => inl (HttpError 403 "Identity is banned")
        | Ok false => inr tt
        end).

(** The claims and the session that the record goes on with. *)
Definition refresh_attest (req : TokenRefreshRequest) (n : EnrolledNode) : prog (answer + (string * time)) :=
  if negb (bool_decide (tr_Jwt req = "")) then
    if negb (bool_decide (en_EnrollmentType n = "OIDC"))
    then mret (inl (HttpError 400 "JWT refresh attestation is only supported for OIDC-enrolled nodes"))
    else
      t ← perform Now;
      match VerifyJWT t (tr_Jwt req) (op_AllowedAudiences (sv_config s)) (sv_providers s) with
      | Err _ => mret (inl (HttpError 401 "JWT validation failed"))
      | Ok (freshClaims, _) =>
          let freshClaims := drop_unverified_email freshClaims in
          match claims_Unmarshal (en_ClaimsJSON n) with
          | Err _ => mret (inl internalError)
          | Ok storedClaims =>
              let freshKey := oidcIdentityKey (Some freshClaims) in
              if bool_decide (freshKey = "") || negb (bool_decide (freshKey = oidcIdentityKey storedClaims))
              then mret (inl (HttpError 403 "JWT identity does not match enrolled node identity"))
              else
                gate ← identity_gate freshKey;
                match gate with
                | inl a => mret (inl a)
                | inr _ =>
                    match claims_Marshal freshClaims with
                    | Err _ => mret (inl internalError)
                    | Ok claimsBytes =>
                        t ← perform Now;
                        mret (inr (claimsBytes, (t + sessionTTLForClaims s freshClaims)%Z))
                    end
                end
          end
      end
  else if negb (bool_decide (en_ClaimsJSON n = "")) then
    match claims_Unmarshal (en_ClaimsJSON n) with
    | Err _ => mret (inl internalError)
    | Ok storedClaims =>
        let storedKey := oidcIdentityKey storedClaims in
        if bool_decide (storedKey = "") then mret (inr (en_ClaimsJSON n, en_ExpiresAt n))
        else
          gate ← identity_gate storedKey;
          mret (match gate with inl a => inl a | inr _ => inr (en_ClaimsJSON n, en_ExpiresAt n) end)
    end
  else mret (inr (en_ClaimsJSON n, en_ExpiresAt n)).

(** A ban of the user who owns the node. *)
Definition refresh_owner (n : EnrolledNode) : prog (answer + unit) :=
  if bool_decide (en_OwnerID n = "") then mret (inr tt)
  else
    owner ← perform (CGetUser (en_OwnerID n));
    match owner with
    | Err _ => mret (inr tt)
    | Ok owner =>
        if bool_decide (u_Issuer owner = "") then mret (inr tt)
        else
          banned ← perform (CIsIdentityBanned (IdentityKey owner));
          mret (match banned with
                | Err _ => inl internalError
                | Ok true => inl (HttpError 403 "Node owner is banned")
                | Ok false => inr tt
                end)
    end.

(** The record as a refresh writes it back. *)
Definition refreshed (n : EnrolledNode) (claimsJSON : string) (expiresAt : time) (labels : gmap string string)
    (biscuit : string) (enrolledAt : time) : EnrolledNode :=
  {| en_PeerID := en_PeerID n; en_PublicKey := en_PublicKey n; en_Biscuit := biscuit; en_Role := en_Role n;
     en_EnrollmentType := en_EnrollmentType n; en_ClaimsJSON := claimsJSON; en_OwnerID := en_OwnerID n;
     en_Labels := labels; en_EnrolledAt := enrolledAt; en_ExpiresAt := expiresAt; en_Banned := en_Banned n;
     en_AutonomousRecovery := en_AutonomousRecovery n; en_Ephemeral := en_Ephemeral n |}.

(** The credential of an OIDC node and of a bootstrap node, with its labels. *)
Definition refresh_oidc (n : EnrolledNode) (canonical claimsJSON : string) (privKey : PrivateKey) (biscuitExpiry : time)
    (policyRoles : list (option PolicyRole)) (bindings : list (option PolicyBinding)) : prog (answer + (string * gmap string string)) :=
  match claims_Unmarshal claimsJSON with
  | Err _ => mret (inl internalError)
  | Ok claims =>
      let resolvedRoles := resolveRoles canonical claims bindings in
      if negb (slices_Contains resolvedRoles (en_Role n)) then mret (inl (HttpError 403 "role is no longer bound to this identity"))
      else
        let finalRoles := en_Role n :: customAccessRoles (en_Role n) resolvedRoles in
        let labels := labelsStillAllowed (allowedLabelPatterns finalRoles policyRoles) (en_Labels n) in
        roles ← mintRoles policyRoles finalRoles labels;
        mret (match MintBiscuitToken privKey claims canonical biscuitExpiry finalRoles roles labels with
              | Err _ => inl internalError
              | Ok (bBytes, _) => inr (bBytes, labels)
              end)
  end.

Definition refresh_bootstrap (n : EnrolledNode) (claimsJSON : string) (canonical : string) (privKey : PrivateKey) (biscuitExpiry : time)
    (policyRoles : list (option PolicyRole)) (bindings : list (option PolicyBinding)) : prog (answer + (string * gmap string string)) :=
  let n := refreshed n claimsJSON (en_ExpiresAt n) (en_Labels n) (en_Biscuit n) (en_EnrolledAt n) in
  let finalRoles := match nodeRoles n bindings with Ok roles => roles | Err _ => [] end in
  let labels := labelsStillAllowed (allowedLabelPatterns finalRoles policyRoles) (en_Labels n) in
  roles ← mintRoles policyRoles [en_Role n] labels;
  mret (match MintBootstrapBiscuitToken privKey canonical (en_Role n) biscuitExpiry roles labels with
        | Err _ => inl internalError
        | Ok bBytes => inr (bBytes, labels)
        end).

Definition refresh_mint (n : EnrolledNode) (canonical claimsJSON : string) (expiresAt : time) : prog answer :=
  current ← perform CGetCurrentKey;
  internal current (λ '(privKey, _),
  policy ← perform CGetMeshPolicy;
  internal (mesh_policy_or_empty policy) (λ '(policyRoles, bindings),
  t ← perform Now;
  let biscuitExpiry :=
    if negb (IsZero expiresAt) && (expiresAt <? t + BiscuitTTL)%Z then expiresAt else (t + BiscuitTTL)%Z in
  or_return (if bool_decide (en_EnrollmentType n = "OIDC")
             then refresh_oidc n canonical claimsJSON privKey biscuitExpiry policyRoles bindings
             else refresh_bootstrap n claimsJSON canonical privKey biscuitExpiry policyRoles bindings) (λ '(biscuitBytes, labels),
  t ← perform Now;
  enrolled ← perform (CEnrollNode (refreshed n claimsJSON expiresAt labels biscuitBytes t));
  internal enrolled (λ _, Ret (Refreshed biscuitBytes biscuitExpiry))))).

(** From the record to the answer.  [recovering] says that the biscuit did not
    verify and the peer is the one the body names. *)
Definition refresh_record (req : TokenRefreshRequest) (currentBiscuit canonical : string) (recovering : bool) : prog answer :=
  let unauthorized msg := Ret (HttpError 401 (if recovering : bool then "Invalid biscuit" else msg)) in
  node ← perform (CGetNode canonical);
  match node with
  | Err e => if bool_decide (e = ErrNotFound) then unauthorized "Node not enrolled" else Ret internalError
  | Ok n =>
      t ← perform Now;
      let admission := CheckAdmission t n in
      if bool_decide (admission = Err ErrNodeBanned) then Ret (HttpError 403 "Node is banned")
      else if negb (is_ok admission) && (bool_decide (tr_Jwt req = "") || negb (bool_decide (en_EnrollmentType n = "OIDC")))
      then unauthorized "Session expired, please re-enroll interactively"
      else
        match UnmarshalPublicKey (en_PublicKey n) with
        | Err _ => Ret internalError
        | Ok pubKey =>
            t ← perform Now;
            match verifyFreshChallenge t pubKey (RefreshChallenge canonical (tr_ChallengeUnixMs req))
                    (tr_ChallengeUnixMs req) (tr_ChallengeSignature req) with
            | Err _ => unauthorized "Challenge verification failed"
            | Ok _ =>
                if negb (bool_decide (currentBiscuit = en_Biscuit n)) then unauthorized "Biscuit already rotated"
                else if recovering && negb (en_AutonomousRecovery n)
                then Ret (HttpError 401 "Biscuit signing key has been retired and this node is not opted in to autonomous recovery")
                else
                  or_return (refresh_attest req n) (λ '(claimsJSON, expiresAt),
                  or_return (refresh_owner n) (λ _,
                  refresh_mint n canonical claimsJSON expiresAt))
            end
        end
  end.

(** [bearer] is the biscuit of the Authorization header: absent, malformed or
    its bytes. *)
Definition HandleRefresh (bearer : option (result string)) (req : TokenRefreshRequest) : prog answer :=
  match bearer with
  | None => Ret (HttpError 401 "Missing current Biscuit token in Authorization header")
  | Some (Err _) => Ret (HttpError 400 "Malformed base64 token")
  | Some (Ok currentBiscuit) =>
      keys ← perform CGetAllValidPublicKeys;
      internal keys (λ trustedKeys,
      t ← perform Now;
      match VerifyExpiredAndExtractPeerID t trustedKeys currentBiscuit with
      | Err _ =>
          if bool_decide (tr_PeerId req = "") then Ret (HttpError 401 "Invalid biscuit")
          else match peer_Decode (tr_PeerId req) with
               | Err _ => Ret (HttpError 400 "Invalid Peer ID")
               | Ok claimed => refresh_record req currentBiscuit claimed true
               end
      | Ok pID =>
          if bool_decide (tr_PeerId req = "") || bool_decide (peer_Decode (tr_PeerId req) = Ok pID)
          then refresh_record req currentBiscuit pID false
          else Ret (HttpError 401 "peer_id does not match the presented biscuit")
      end)
  end.

(** ** [/enroll] *)

Definition errBootstrapRoleMismatch : error := NewError "bootstrap token role does not match enrolled node role".

Definition remintApprovedBootstrapBiscuit (existingReq : EnrollmentRequest) (tokenRecord : BootstrapToken)
  : prog (result (string * time)) :=
  match peer_Decode (er_PeerID existingReq) with
  | Err e => mret (Err (WrapError "invalid stored peer id" e))
  | Ok pID =>
      node ← perform (CGetNode pID);
      match node with
      | Err e => mret (Err (WrapError "failed to retrieve enrolled node" e))
      | Ok nodeRecord =>
          if negb (bool_decide (bt_Role tokenRecord = en_Role nodeRecord))
          then mret (Err (WrapError "token role, node role" errBootstrapRoleMismatch))
          else
            t ← perform Now;
            match CheckAdmission t nodeRecord with
            | Err e => mret (Err e)
            | Ok _ =>
                t ← perform Now;
                spent ← perform (CConsumeBootstrapTokenUsage (bt_ID tokenRecord) t);
                match spent with
                | Err e => mret (Err (WrapError "bootstrap token cannot re-mint" e))
                | Ok _ =>
                    current ← perform CGetCurrentKey;
                    match current with
                    | Err e => mret (Err (WrapError "failed to retrieve signing key" e))
                    | Ok (privKey, _) =>
                        policy ← perform CGetMeshPolicy;
                        match mesh_policy_or_empty policy with
                        | Err e => mret (Err (WrapError "failed to retrieve mesh policy" e))
                        | Ok (policyRoles, _) =>
                            t ← perform Now;
                            roles ← storedNodeRoles nodeRecord;
                            let allowedLabels := filterAllowedLabels (allowedLabelPatterns roles policyRoles) (en_Labels nodeRecord) in
                            mroles ← mintRoles policyRoles [en_Role nodeRecord] allowedLabels;
                            match MintBootstrapBiscuitToken privKey pID (en_Role nodeRecord) (t + BiscuitTTL)%Z mroles allowedLabels with
                            | Err e => mret (Err (WrapError "failed to mint refreshed bootstrap biscuit" e))
                            | Ok biscuitBytes =>
                                updated ← perform (CUpdateEnrollmentRequest (er_ID existingReq) ENROLLMENT_STATUS_APPROVED
                                                     biscuitBytes (er_ResolvedBy existingReq));
                                match updated with
                                | Err e => mret (Err (WrapError "failed to persist refreshed enrollment request" e))
                                | Ok _ =>
                                    t ← perform Now;
                                    enrolled ← perform (CEnrollNode (refreshed nodeRecord (en_ClaimsJSON nodeRecord)
                                                 (en_ExpiresAt nodeRecord) (en_Labels nodeRecord) biscuitBytes t));
                                    match enrolled with
                                    | Err e => mret (Err (WrapError "failed to persist refreshed node record" e))
                                    | Ok _ => resolvedAt ← perform Now; mret (Ok (biscuitBytes, resolvedAt))
                                    end
                                end
                            end
                        end
                    end
                end
            end
      end
  end.

(** The record a bootstrap token enrolls. *)
Definition bootstrap_node (tokenRecord : BootstrapToken) (canonical publicKey biscuit : string) (labels : gmap string string)
    (enrolledAt : time) : EnrolledNode :=
  {| en_PeerID := canonical; en_PublicKey := publicKey; en_Biscuit := biscuit; en_Role := bt_Role tokenRecord;
     en_EnrollmentType := "BOOTSTRAP"; en_ClaimsJSON := ""; en_OwnerID := bt_OwnerID tokenRecord; en_Labels := labels;
     en_EnrolledAt := enrolledAt; en_ExpiresAt := zero_time; en_Banned := false;
     en_AutonomousRecovery := bt_AutonomousRecovery tokenRecord; en_Ephemeral := bt_Ephemeral tokenRecord |}.

Definition approved (ans : prog (result BootstrapEnrollResponse)) : prog answer :=
  resp ← ans;
  internal resp (λ resp, Ret (Bootstrap resp)).

Definition enroll_existing (existingReq : EnrollmentRequest) (tokenRecord : BootstrapToken) : prog answer :=
  if bool_decide (er_Status existingReq = ENROLLMENT_STATUS_APPROVED) then
    reminted ← remintApprovedBootstrapBiscuit existingReq tokenRecord;
    match reminted with
    | Err e =>
        Ret (if errors_Is e ErrNodeBanned || errors_Is e ErrNodeSessionExpired || errors_Is e errBootstrapRoleMismatch ||
                errors_Is e ErrBootstrapTokenUnusable
             then enrollError "Enrollment no longer valid" else internalError)
    | Ok (biscuitToken, resolvedAt) => approved (buildApprovedBootstrapEnrollResponse biscuitToken (Some resolvedAt))
    end
  else Ret (statusAnswer existingReq 0).

Definition enroll_auto (req : BootstrapEnrollRequest) (enrollReq : EnrollmentRequest) (tokenRecord : BootstrapToken)
    (canonical : string) (privKey : PrivateKey) : prog answer :=
  policy ← perform CGetMeshPolicy;
  internal (mesh_policy_or_empty policy) (λ '(policyRoles, _),
  match LabelPatternsAllow (allowedLabelPatterns [bt_Role tokenRecord] policyRoles) (bq_Labels req) with
  | Err _ => Ret (enrollError "Label not permitted")
  | Ok _ =>
      t ← perform Now;
      spent ← perform (CConsumeBootstrapTokenUsage (bt_ID tokenRecord) t);
      match spent with
      | Err e => Ret (if errors_Is e ErrBootstrapTokenUnusable then enrollError "Bootstrap token expired, revoked or exhausted"
                      else internalError)
      | Ok _ =>
          t ← perform Now;
          roles ← mintRoles policyRoles [bt_Role tokenRecord] (bq_Labels req);
          match MintBootstrapBiscuitToken privKey canonical (bt_Role tokenRecord) (t + BiscuitTTL)%Z roles (bq_Labels req) with
          | Err _ => Ret internalError
          | Ok biscuitBytes =>
              tNow ← perform Now;
              t ← perform Now;
              enrolled ← perform (CEnrollNode (bootstrap_node tokenRecord canonical (bq_PublicKey req) biscuitBytes (bq_Labels req) t));
              internal enrolled (λ _,
              saved ← perform (CCreateEnrollmentRequest
                {| er_ID := er_ID enrollReq; er_PeerID := er_PeerID enrollReq; er_PublicKey := er_PublicKey enrollReq;
                   er_TokenID := er_TokenID enrollReq; er_Status := ENROLLMENT_STATUS_APPROVED; er_Labels := er_Labels enrollReq;
                   er_BiscuitToken := biscuitBytes; er_CreatedAt := er_CreatedAt enrollReq; er_ResolvedAt := Some tNow;
                   er_ResolvedBy := "auto-approver" |});
              internal saved (λ _,
              approved (buildApprovedBootstrapEnrollResponse biscuitBytes (Some tNow))))
          end
      end
  end).

Definition enroll_new (req : BootstrapEnrollRequest) (tokenRecord : BootstrapToken) (canonical : string) : prog answer :=
  uuid ← perform RandomBytes;
  t ← perform Now;
  let enrollReq := {| er_ID := uuid; er_PeerID := canonical; er_PublicKey := bq_PublicKey req; er_TokenID := bt_ID tokenRecord;
                      er_Status := ENROLLMENT_STATUS_PENDING; er_Labels := bq_Labels req; er_BiscuitToken := "";
                      er_CreatedAt := t; er_ResolvedAt := None; er_ResolvedBy := "" |} in
  current ← perform CGetCurrentKey;
  internal current (λ '(privKey, _),
  if op_AutoApproveEnrollment (sv_config s) then enroll_auto req enrollReq tokenRecord canonical privKey
  else
    saved ← perform (CCreateEnrollmentRequest enrollReq);
    internal saved (λ _,
    Ret (Bootstrap {| be_Status := ENROLLMENT_STATUS_PENDING; be_BiscuitToken := ""; be_ControlPlanePublicKey := "";
                      be_RouterAddresses := []; be_ErrorMessage := ""; be_PollIntervalSeconds := 30; be_ExpireTime := None |}))).

(** The peer has proved that it holds the key it enrolls. *)
Definition enroll_proved (req : BootstrapEnrollRequest) (tokenRecord : BootstrapToken) (canonical : string) : prog answer :=
  banned ← perform (CIsNodeBanned canonical);
  internal banned (λ banned,
  if (banned : bool) then Ret (enrollError "Node is banned")
  else
    existing ← perform (CGetEnrollmentRequest canonical);
    match existing with
    | Ok existingReq => enroll_existing existingReq tokenRecord
    | Err e => if bool_decide (e = ErrNotFound) then enroll_new req tokenRecord canonical else Ret internalError
    end).

(** The token is one this control plane may honour. *)
Definition enroll_token (req : BootstrapEnrollRequest) (tokenRecord : BootstrapToken) : prog answer :=
  if bool_decide (bq_RequestedRole req = "") then Ret (enrollError "requested_role must be specified")
  else if negb (bool_decide (bq_RequestedRole req = bt_Role tokenRecord))
  then Ret (enrollError "requested role does not match bootstrap token role")
  else match ValidateLabels (bq_Labels req) with
  | Err _ => Ret (enrollError "Invalid labels")
  | Ok _ =>
      match peer_Decode (bq_PeerId req) with
      | Err _ => Ret (HttpError 400 "Invalid Peer ID")
      | Ok canonical =>
          match UnmarshalPublicKey (bq_PublicKey req) with
          | Err _ => Ret (enrollError "Invalid public key")
          | Ok enrolleeKey =>
              if negb (MatchesPublicKey canonical enrolleeKey) then Ret (enrollError "peer_id is not derived from public_key")
              else
                t ← perform Now;
                match verifyFreshChallenge t enrolleeKey (EnrollChallenge canonical (bq_ChallengeUnixMs req))
                        (bq_ChallengeUnixMs req) (bq_ChallengeSignature req) with
                | Err e => Ret (if errors_Is e errStaleChallengeTimestamp then HttpError 401 "Invalid enrollment challenge"
                                else enrollError "Invalid enrollment challenge")
                | Ok _ => enroll_proved req tokenRecord canonical
                end
          end
      end
  end.

Definition HandleEnroll (req : BootstrapEnrollRequest) : prog answer :=
  allowed ← perform LimiterAllow;
  if negb allowed then Ret tooManyRequests
  else
    token ← perform (CGetBootstrapToken (hex_string (sha256_Sum256 (bq_BootstrapToken req))));
    match token with
    | Err e => Ret (if bool_decide (e = ErrNotFound) then enrollError "Invalid bootstrap token" else internalError)
    | Ok tokenRecord =>
        t ← perform Now;
        if (bt_ExpiresAt tokenRecord <? t)%Z then Ret (enrollError "Bootstrap token expired")
        else if IsRevoked tokenRecord then Ret (enrollError "Bootstrap token revoked")
        else if (bt_MaxUsages tokenRecord <=? bt_UsagesCount tokenRecord)%Z then Ret (enrollError "Bootstrap token max usages exceeded")
        else
          banned ← tokenOwnerBanned tokenRecord;
          internal banned (λ banned,
          if (banned : bool) then Ret (enrollError "Bootstrap token owner is banned")
          else enroll_token req tokenRecord)
    end.

(** ** [/enroll/status] *)

(** The signature is the header's, decoded; nothing when the headers are
    missing or malformed. *)
Definition HandleEnrollStatus (peerID : string) (headers : option (Z * string)) : prog answer :=
  allowed ← perform LimiterAllow;
  if negb allowed then Ret tooManyRequests
  else if bool_decide (peerID = "") then Ret (HttpError 400 "Missing peer_id parameter")
  else match headers with
  | None => Ret (HttpError 401 "Missing or invalid challenge headers: signed challenge required")
  | Some (ts, sig) =>
      if bool_decide (sig = "") then Ret (HttpError 401 "Missing or invalid challenge headers: signed challenge required")
      else
        t ← perform Now;
        match verifyChallengeTimestamp t ts with
        | Err _ => Ret (HttpError 401 "Challenge verification failed")
        | Ok _ =>
            match peer_Decode peerID with
            | Err _ => Ret (HttpError 401 "Unauthorized, Invalid Peer ID")
            | Ok canonical =>
                found ← perform (CGetEnrollmentRequest canonical);
                match found with
                | Err e => Ret (if bool_decide (e = ErrNotFound) then HttpError 401 "Unauthorized" else internalError)
                | Ok enrollReq =>
                    match UnmarshalPublicKey (er_PublicKey enrollReq) with
                    | Err _ => Ret (HttpError 401 "Unauthorized")
                    | Ok pubKey =>
                        t ← perform Now;
                        match verifyFreshChallenge t pubKey (EnrollStatusChallenge canonical ts) ts sig with
                        | Err _ => Ret (HttpError 401 "Unauthorized")
                        | Ok _ =>
                            if bool_decide (er_Status enrollReq = ENROLLMENT_STATUS_APPROVED)
                            then approved (buildApprovedBootstrapEnrollResponse (er_BiscuitToken enrollReq) (er_ResolvedAt enrollReq))
                            else Ret (statusAnswer enrollReq (if bool_decide (er_Status enrollReq = ENROLLMENT_STATUS_PENDING) then 30 else 0))
                        end
                    end
                end
            end
        end
  end.
End handlers.
