(* ===== verification/Admin.v ===== *)
(** * Operating the mesh

    The handlers that users, administrators and routers drive, and the sweep:
    signing in, minting and revoking bootstrap tokens, resolving enrollment
    requests, banning and unbanning nodes, leasing routers
    ([src/internal/controlplane/server.go]) and deleting what has lapsed
    ([src/internal/controlplane/node_gc.go]), as programs over the calls of
    [ControlPlane]. *)

From S2P Require Import Prelude GoStrings Regex Names Biscuit NaiveEngine Facts DatalogText Grants Labels HTTPGrants PolicyRules Egress Base64 Tar Token Identity Mint Middleware Directory Keyring Decimal PolicyStore Store ControlPlane Enrollment.

(** ** Requests *)

Record BootstrapTokenCreateRequest := {
  bc_Role : string;
  bc_OwnerId : string;
  bc_TtlHours : Z;  (** int32 *)
  bc_MaxUsages : Z;  (** int32 *)
  bc_Description : string;
  bc_AutonomousRecovery : bool;
  bc_Ephemeral : bool;
}.

Record RouterLeaseRequest := {
  lq_PeerId : string;
  lq_Addresses : list string;
  lq_Biscuit : string;
  lq_ConnectedPeers : list string;
  lq_DhtSize : Z;
  lq_ChallengeUnixMs : Z;
  lq_ChallengeSignature : string;
  lq_Ttl : option Z;  (** [AsDuration] *)
  lq_Connections : Z;
  lq_ConnectionLimit : Z;
}.

Definition hour : Z := (3600 * second)%Z.

Definition rootAdminID : string := "root-admin".
Definition userTokenMaxTTLHours : Z := 168.
Definition userTokenMaxUsages : Z := 10.

Definition errIdentityBanned : error := NewError "identity is banned".
Definition errWorkloadIdentity : error := NewError "workload tokens are not permitted on user endpoints".

(** ** Pages of nodes *)

Record NodesQuery := {
  nq_page_size : string;
  nq_page_token : string;
  nq_state : list string;
  nq_owner_id : option string;  (** nothing when the parameter is absent *)
  nq_role : string;
}.

Definition defaultNodesPageSize : nat := 50.
Definition maxNodesPageSize : nat := 200.

Definition parseNodesPageSize (raw : string) : result nat :=
  if bool_decide (raw = "") then Ok defaultNodesPageSize
  else match ParseInt raw with
       | Err _ => fail "page_size must be a positive integer"
       | Ok n => fail_if (n <? 1)%Z "page_size must be a positive integer";; Ok (Z.to_nat (Z.min n (Z.of_nat maxNodesPageSize)))
       end.

(** [storage.NodeState(value)] *)
Definition node_state (value : string) : NodeState :=
  if bool_decide (value = "admitted") then NodeAdmitted
  else if bool_decide (value = "expired") then NodeExpired
  else if bool_decide (value = "banned") then NodeBanned
  else NodeStateOther value.

#[export] Instance NodeState_eq_dec : EqDecision NodeState.
Proof. solve_decision. Defined.

Definition add_state (states : list NodeState) (value : string) : result (list NodeState) :=
  match node_state value with
  | NodeStateOther _ => fail "state must be admitted, expired or banned"
  | state => Ok (if bool_decide (state ∈ states) then states else states ++ [state])
  end.

Fixpoint parse_states (states : list NodeState) (raw : list string) : result (list NodeState) :=
  match raw with
  | [] => Ok states
  | value :: raw => states ← add_state states value; parse_states states raw
  end.

Definition parseNodeStates (raw : list string) : result (list NodeState) := parse_states [] raw.

Definition encodeNodesPageToken (c : NodeCursor) : string :=
  RawURL_Encode (FormatInt (UnixMilli (nc_EnrolledAt c)) +:+ ":" +:+ nc_PeerID c).

Definition decodeNodesPageToken (token : string) : result (option NodeCursor) :=
  if bool_decide (token = "") then Ok None
  else
    raw ← RawURL_Decode token;
    let '(ms, peerID, ok) := Cut raw ":" in
    fail_if (negb ok || bool_decide (peerID = "")) "page token lacks a peer ID";;
    at_ ← ParseInt ms;
    Ok (Some {| nc_EnrolledAt := of_UnixMilli at_; nc_PeerID := peerID |}).

(** Which owner's nodes the caller may list: [None] is every owner. *)
Definition listed_owner (user : User) (isAdmin : bool) (owner_id : option string) : result (option string) :=
  match owner_id with
  | None => Ok (if isAdmin then None else Some (u_ID user))
  | Some id => if negb isAdmin && negb (bool_decide (id = u_ID user)) then fail "forbidden" else Ok (Some id)
  end.

(** A node as it is shown: [listed_view] has dropped its key and its biscuit. *)
Definition enrolledNodeView (n : EnrolledNode) (withClaims : bool) : EnrolledNode :=
  {| en_PeerID := en_PeerID n; en_PublicKey := ""; en_Biscuit := ""; en_Role := en_Role n;
     en_EnrollmentType := en_EnrollmentType n; en_ClaimsJSON := if withClaims then en_ClaimsJSON n else "";
     en_OwnerID := en_OwnerID n; en_Labels := en_Labels n; en_EnrolledAt := en_EnrolledAt n; en_ExpiresAt := en_ExpiresAt n;
     en_Banned := en_Banned n; en_AutonomousRecovery := en_AutonomousRecovery n; en_Ephemeral := en_Ephemeral n |}.

(** The page of a list that was asked for one row more: the row past the page
    tells that there is a next one. *)
Definition nodes_page (pageSize : nat) (isAdmin : bool) (nodes : list EnrolledNode) : answer :=
  if pageSize <? length nodes then
    let nodes := take pageSize nodes in
    let token := match last nodes with
                 | Some last => encodeNodesPageToken {| nc_EnrolledAt := en_EnrolledAt last; nc_PeerID := en_PeerID last |}
                 | None => ""
                 end in
    Listed ((λ n, enrolledNodeView n isAdmin) <$> nodes) token
  else Listed ((λ n, enrolledNodeView n isAdmin) <$> nodes) "".

Section handlers.
Context `{UnicodeCase, TARCodec, BT : BiscuitTokens, BiscuitText, BiscuitEngine, PeerCodec, SHA256, PeerKeys, OIDCLibrary, ClaimsCodec}.
Variable s : Server.

(** ** Signing in *)

Definition authenticateUser (authHeader : string) : prog (result User) :=
  if negb (HasPrefix authHeader "Bearer ") then mret (fail "missing or invalid authorization header")
  else
    let tokenStr := TrimPrefix authHeader "Bearer " in
    if bool_decide (tokenStr = "") then mret (fail "empty authorization token")
    else if negb (bool_decide (op_AdminToken (sv_config s) = "")) &&
            bool_decide (sha256_Sum256 tokenStr = sha256_Sum256 (op_AdminToken (sv_config s))) then
      t ← perform Now;
      mret (Ok {| u_ID := rootAdminID; u_Issuer := ""; u_Email := "admin@agentmesh.local"; u_Role := "admin"; u_CreatedAt := t |})
    else
      t ← perform Now;
      match VerifyJWT t tokenStr (op_AllowedAudiences (sv_config s)) (sv_providers s) with
      | Err e => mret (Err (WrapError "failed to verify OIDC token" e))
      | Ok (claims, _) =>
          let sub := claim_string claims "sub" in
          if bool_decide (sub = "") then mret (fail "token subject (sub) claim is empty")
          else
            let iss := claim_string claims "iss" in
            let email := verifiedEmail claims in
            banned ← perform (CIsIdentityBanned (oidcIdentityKey (Some claims)));
            match banned with
            | Err e => mret (Err (WrapError "failed to check identity ban" e))
            | Ok true => mret (Err errIdentityBanned)
            | Ok false =>
                if isWorkloadClaims s claims then mret (Err errWorkloadIdentity)
                else
                  user ← perform (CGetUser sub);
                  match user with
                  | Err e =>
                      if bool_decide (e = ErrNotFound) then
                        t ← perform Now;
                        let user := {| u_ID := sub; u_Issuer := iss; u_Email := email; u_Role := "user"; u_CreatedAt := t |} in
                        saved ← perform (CSaveUser user);
                        mret (_ ← wrap_err "failed to register user" saved; Ok user)
                      else mret (Err (WrapError "failed to get user" e))
                  | Ok user =>
                      if bool_decide (u_Issuer user = "") then
                        let user := {| u_ID := u_ID user; u_Issuer := iss; u_Email := u_Email user; u_Role := u_Role user;
                                       u_CreatedAt := u_CreatedAt user |} in
                        saved ← perform (CSaveUser user);
                        mret (_ ← wrap_err "failed to record user issuer" saved; Ok user)
                      else if negb (bool_decide (u_Issuer user = iss)) then mret (fail "subject is registered under a different issuer")
                      else mret (Ok user)
                  end
            end
      end.

Definition requireUser (authHeader : string) (k : User → prog answer) : prog answer :=
  user ← authenticateUser authHeader;
  match user with
  | Ok user => k user
  | Err e =>
      Ret (if errors_Is e errIdentityBanned then HttpError 403 "Forbidden: identity is banned"
           else if errors_Is e errWorkloadIdentity then HttpError 403 "Forbidden: workload tokens are not permitted on user endpoints"
           else HttpError 401 "Unauthorized")
  end.

Definition checkAdminAuth (authHeader : string) (k : prog answer) : prog answer :=
  requireUser authHeader (λ user,
  if negb (bool_decide (u_Role user = "admin")) then Ret (HttpError 403 "Forbidden: Admin role required") else k).

(** ** Bootstrap tokens *)

Definition at_least_one (n def : Z) : Z := if (n <=? 0)%Z then def else n.

(** The token drawn, its row and the answer.  The lifetime is a product of
    64-bit integers. *)
Definition create_token (req : BootstrapTokenCreateRequest) (role ownerID : string) : prog answer :=
  let ttlHours := at_least_one (bc_TtlHours req) 24 in
  let maxUsages := at_least_one (bc_MaxUsages req) 1 in
  randBytes ← perform RandomBytes;
  let tokenVal := "mesh-bt-" +:+ hex_string randBytes in
  let tokenID := hex_string (sha256_Sum256 tokenVal) in
  t1 ← perform Now;
  t2 ← perform Now;
  let tokenRecord := {| bt_ID := tokenID; bt_TokenHash := tokenID; bt_Role := role; bt_OwnerID := ownerID;
                        bt_MaxUsages := maxUsages; bt_UsagesCount := 0; bt_Description := bc_Description req;
                        bt_CreatedAt := t1; bt_ExpiresAt := (t2 + wrap64 (ttlHours * hour))%Z; bt_RevokedAt := None;
                        bt_AutonomousRecovery := bc_AutonomousRecovery req; bt_Ephemeral := bc_Ephemeral req |} in
  saved ← perform (CSaveBootstrapToken tokenRecord);
  internal saved (λ _, Ret (Created tokenID tokenVal role ownerID (bt_ExpiresAt tokenRecord))).

(** [POST /admin/bootstrap-tokens] *)
Definition HandleAdminBootstrapTokens (authHeader : string) (req : BootstrapTokenCreateRequest) : prog answer :=
  checkAdminAuth authHeader
    (if bool_decide (bc_Role req = "") then Ret (HttpError 400 "role is required") else create_token req (bc_Role req) "").

(** [DELETE /admin/bootstrap-tokens/{id}] *)
Definition HandleAdminBootstrapTokenAction (authHeader id : string) : prog answer :=
  checkAdminAuth authHeader
    (if bool_decide (id = "") || Contains id "/" then Ret (HttpError 404 "Not found")
     else
       token ← perform (CGetBootstrapToken id);
       match token with
       | Err e => Ret (if bool_decide (e = ErrNotFound) then HttpError 404 "Bootstrap token not found" else internalError)
       | Ok _ => revoked ← perform (CRevokeBootstrapToken id); internal revoked (λ _, Ret (Done 204))
       end).

Definition resolveTokenOwner (caller : User) (requested : string) : prog (answer + string) :=
  let requested := TrimSpace requested in
  if bool_decide (requested = "") || bool_decide (requested = u_ID caller) then
    mret (inr (if bool_decide (u_ID caller = rootAdminID) && bool_decide (u_Issuer caller = "") then "" else u_ID caller))
  else if negb (bool_decide (u_Role caller = "admin"))
  then mret (inl (HttpError 403 "forbidden: only admins may issue tokens on behalf of another user"))
  else
    owner ← perform (CGetUser requested);
    mret (match owner with
          | Err e => inl (if bool_decide (e = ErrNotFound) then HttpError 400 "unknown owner_id: the user must have logged in at least once"
                          else HttpError 500 "failed to look up owner")
          | Ok _ => inr requested
          end).

(** [POST /user/bootstrap-tokens] *)
Definition HandleUserBootstrapTokens (authHeader : string) (req : BootstrapTokenCreateRequest) : prog answer :=
  requireUser authHeader (λ user,
  let role := if bool_decide (bc_Role req = "") then RoleNode else bc_Role req in
  let isAdmin := bool_decide (u_Role user = "admin") in
  if negb isAdmin && negb (bool_decide (role = RoleNode))
  then Ret (HttpError 403 "Forbidden: Standard users can only generate tokens for node role")
  else if negb isAdmin && bc_AutonomousRecovery req
  then Ret (HttpError 403 "Forbidden: only admins can issue tokens with autonomous_recovery")
  else
    or_return (resolveTokenOwner user (bc_OwnerId req)) (λ ownerID,
    if negb isAdmin && (userTokenMaxTTLHours <? at_least_one (bc_TtlHours req) 24)%Z
    then Ret (HttpError 400 "ttl_hours may not exceed the ceiling for non-admin users")
    else if negb isAdmin && (userTokenMaxUsages <? at_least_one (bc_MaxUsages req) 1)%Z
    then Ret (HttpError 400 "max_usages may not exceed the ceiling for non-admin users")
    else create_token req role ownerID)).

(** ** Enrollment requests *)

Definition approve (id : string) (enrollReq : EnrollmentRequest) : prog answer :=
  token ← perform (CGetBootstrapToken (er_TokenID enrollReq));
  internal token (λ tokenRecord,
  if IsRevoked tokenRecord then Ret (HttpError 410 "Bootstrap token has been revoked since this request was queued")
  else
  t ← perform Now;
  if (bt_ExpiresAt tokenRecord <? t)%Z then Ret (HttpError 410 "Bootstrap token has expired since this request was queued")
  else if (bt_MaxUsages tokenRecord <=? bt_UsagesCount tokenRecord)%Z then Ret (HttpError 410 "Bootstrap token has no usages left")
  else
    banned ← tokenOwnerBanned tokenRecord;
    internal banned (λ banned,
    if (banned : bool) then Ret (HttpError 403 "Bootstrap token owner is banned")
    else match peer_Decode (er_PeerID enrollReq) with
    | Err _ => Ret (HttpError 500 "Invalid Peer ID stored in request")
    | Ok canonical =>
        current ← perform CGetCurrentKey;
        internal current (λ '(privKey, _),
        policy ← perform CGetMeshPolicy;
        internal (mesh_policy_or_empty policy) (λ '(policyRoles, _),
        match LabelPatternsAllow (allowedLabelPatterns [bt_Role tokenRecord] policyRoles) (er_Labels enrollReq) with
        | Err _ => Ret (HttpError 403 "Label not permitted")
        | Ok _ =>
            t ← perform Now;
            spent ← perform (CConsumeBootstrapTokenUsage (bt_ID tokenRecord) t);
            match spent with
            | Err e => Ret (if errors_Is e ErrBootstrapTokenUnusable then HttpError 410 "Bootstrap token expired, revoked or exhausted"
                            else internalError)
            | Ok _ =>
                t ← perform Now;
                roles ← mintRoles policyRoles [bt_Role tokenRecord] (er_Labels enrollReq);
                match MintBootstrapBiscuitToken privKey canonical (bt_Role tokenRecord) (t + BiscuitTTL s)%Z roles (er_Labels enrollReq) with
                | Err _ => Ret internalError
                | Ok biscuitBytes =>
                    t ← perform Now;
                    enrolled ← perform (CEnrollNode (bootstrap_node tokenRecord canonical (er_PublicKey enrollReq) biscuitBytes
                                                       (er_Labels enrollReq) t));
                    internal enrolled (λ _,
                    resolved ← perform (CResolveEnrollmentRequest id ENROLLMENT_STATUS_APPROVED biscuitBytes "admin");
                    Ret (match resolved with
                         | Err e => if errors_Is e ErrEnrollmentAlreadyResolved then HttpError 409 "Enrollment request is already resolved"
                                    else internalError
                         | Ok _ => Done 200
                         end))
                end
            end
        end))
    end)).

(** [POST /admin/enrollments/{id}/{action}] *)
Definition HandleAdminEnrollmentAction (authHeader path : string) : prog answer :=
  checkAdminAuth authHeader
    match Split (TrimPrefix path "/admin/enrollments/") "/" with
    | [id; action] =>
        found ← perform (CGetEnrollmentRequestByID id);
        match found with
        | Err e => Ret (if bool_decide (e = ErrNotFound) then HttpError 404 "Enrollment request not found" else internalError)
        | Ok enrollReq =>
            if negb (bool_decide (er_Status enrollReq = ENROLLMENT_STATUS_PENDING))
            then Ret (HttpError 409 "Enrollment request is already resolved")
            else if bool_decide (action = "reject") then
              rejected ← perform (CResolveEnrollmentRequest id ENROLLMENT_STATUS_REJECTED "" "admin");
              Ret (match rejected with
                   | Err e => if errors_Is e ErrEnrollmentAlreadyResolved then HttpError 409 "Enrollment request is already resolved"
                              else internalError
                   | Ok _ => Done 200
                   end)
            else if bool_decide (action = "approve") then approve id enrollReq
            else Ret (HttpError 400 "Invalid action")
        end
    | _ => Ret (HttpError 404 "Not found")
    end.

(** ** Bans *)

Definition SetNodeBan (node : EnrolledNode) (banned : bool) : prog (result unit) :=
  match (if bool_decide (en_ClaimsJSON node = "") then Ok ""
         else claims ← wrap_err "stored claims are unreadable" (claims_Unmarshal (en_ClaimsJSON node)); Ok (oidcIdentityKey claims)) with
  | Err e => mret (Err e)
  | Ok identity => perform (CSetNodeAndIdentityBanned (en_PeerID node) identity banned)
  end.

Definition extractRootRevocationID (rawToken : string) : result string :=
  b ← Unmarshal rawToken;
  match RevocationIds b with
  | [] => fail "biscuit has no revocation IDs"
  | id :: _ => Ok (RawURL_Encode id)
  end.

Definition cacheBannedNodeRevocationID (peerID rawBiscuit : string) : prog unit :=
  if bool_decide (peerID = "") || bool_decide (rawBiscuit = "") then mret tt
  else match extractRootRevocationID rawBiscuit with
       | Err _ => mret tt
       | Ok revID => if bool_decide (revID = "") then mret tt else perform (MSetRevocation peerID revID)
       end.

Definition clearBannedNodeRevocationID (peerID : string) : prog unit :=
  if bool_decide (peerID = "") then mret tt else perform (MDelRevocation peerID).

Definition dropCatalogEntry (peerID : string) : prog unit :=
  match peer_Decode peerID with
  | Err _ => mret tt
  | Ok pID => perform (MDelCatalog pID)
  end.

Definition banNode (node : EnrolledNode) : prog (result unit) :=
  banned ← SetNodeBan node true;
  match banned with
  | Err e => mret (Err e)
  | Ok _ =>
      _ ← cacheBannedNodeRevocationID (en_PeerID node) (en_Biscuit node);
      _ ← dropCatalogEntry (en_PeerID node);
      mret (Ok tt)
  end.

(** Ban a node that was found and tell the mesh. *)
Definition ban_and_publish (node : EnrolledNode) : prog answer :=
  banned ← banNode node;
  internal banned (λ _,
  _ ← perform (MPublish "BANNED" (en_PeerID node));
  Ret (Done 200)).

Definition find_node (peerID : string) (k : EnrolledNode → prog answer) : prog answer :=
  node ← perform (CGetNode peerID);
  match node with
  | Err e => Ret (if bool_decide (e = ErrNotFound) then HttpError 404 "Node not found" else internalError)
  | Ok node => k node
  end.

(** [POST /admin/revoke] *)
Definition HandleAdminRevoke (authHeader peerId : string) : prog answer :=
  checkAdminAuth authHeader
    (if bool_decide (peerId = "") then Ret (HttpError 400 "peer_id is required")
     else match peer_Decode peerId with
          | Err _ => Ret (HttpError 400 "Invalid Peer ID")
          | Ok canonical => find_node canonical ban_and_publish
          end).

(** [POST /user/revoke] *)
Definition HandleUserRevoke (authHeader id : string) : prog answer :=
  requireUser authHeader (λ user,
  if bool_decide (id = "") then Ret (HttpError 400 "Missing id parameter")
  else match peer_Decode id with
       | Err _ => Ret (HttpError 400 "Invalid Peer ID")
       | Ok canonical =>
           find_node canonical (λ node,
           if negb (bool_decide (en_OwnerID node = u_ID user)) && negb (bool_decide (u_Role user = "admin"))
           then Ret (HttpError 403 "Forbidden: You do not own this node") else ban_and_publish node)
       end).

(** [POST /admin/nodes/{peer_id}/{action}]; [enabled] is the body, nothing when
    it does not parse. *)
Definition HandleAdminNodeAction (authHeader path : string) (enabled : option bool) : prog answer :=
  checkAdminAuth authHeader
    match Split (TrimPrefix path "/admin/nodes/") "/" with
    | [peer; action] =>
        match peer_Decode peer with
        | Err _ => Ret (HttpError 400 "Invalid Peer ID")
        | Ok canonical =>
            if bool_decide (action = "unban") then
              find_node canonical (λ node,
              unbanned ← SetNodeBan node false;
              internal unbanned (λ _,
              _ ← clearBannedNodeRevocationID (en_PeerID node);
              Ret (Done 204)))
            else if bool_decide (action = "autonomous-recovery") then
              match enabled with
              | None => Ret (HttpError 400 "Invalid JSON body")
              | Some enabled =>
                  set ← perform (CSetNodeAutonomousRecovery canonical enabled);
                  Ret (match set with
                       | Err e => if bool_decide (e = ErrNotFound) then HttpError 404 "Node not found" else internalError
                       | Ok _ => Done 204
                       end)
              end
            else Ret (HttpError 404 "Not found")
        end
    | _ => Ret (HttpError 404 "Not found")
    end.

(** ** Listing nodes *)

(** [GET /user/nodes] *)
Definition HandleListNodes (authHeader : string) (query : NodesQuery) : prog answer :=
  requireUser authHeader (λ user,
  match parseNodesPageSize (nq_page_size query) with
  | Err _ => Ret (HttpError 400 "page_size must be a positive integer")
  | Ok pageSize =>
      match decodeNodesPageToken (nq_page_token query) with
      | Err _ => Ret (HttpError 400 "Invalid page_token")
      | Ok after =>
          match parseNodeStates (nq_state query) with
          | Err _ => Ret (HttpError 400 "state must be admitted, expired or banned")
          | Ok states =>
              let isAdmin := bool_decide (u_Role user = "admin") in
              match listed_owner user isAdmin (nq_owner_id query) with
              | Err _ => Ret (HttpError 403 "Only an administrator may list another owner's nodes")
              | Ok owner =>
                  t ← perform Now;
                  nodes ← perform (CListNodes {| nf_States := states; nf_Now := t; nf_OwnerID := owner; nf_Role := nq_role query;
                                                 nf_After := after; nf_Limit := pageSize + 1 |});
                  internal nodes (λ nodes, Ret (nodes_page pageSize isAdmin nodes))
              end
          end
      end
  end).

(** ** Router leases *)

Definition lease_ttl (req : RouterLeaseRequest) : option Z :=
  let ttl := op_LeaseDuration (sv_config s) in
  match lq_Ttl req with
  | None => Some ttl
  | Some requested => if (requested <? 0)%Z then None else Some (if (requested <? ttl)%Z then requested else ttl)
  end.

Context `{MA : Multiaddr}.

(** Every address ends at the router that was authenticated. *)
Definition lease_address (canonical addrStr : string) : result unit :=
  ma ← NewMultiaddr addrStr;
  fail_if (negb (bool_decide ((SplitAddr ma).2 = canonical))) "Address does not terminate at the authenticated router".

Definition HandleRouterLease (req : RouterLeaseRequest) : prog answer :=
  match peer_Decode (lq_PeerId req) with
  | Err _ => Ret (HttpError 400 "Invalid Peer ID")
  | Ok canonical =>
      keys ← perform CGetAllValidPublicKeys;
      internal keys (λ cpPubKeys,
      t ← perform Now;
      match VerifyBiscuitAndGetKey t (lq_Biscuit req) canonical cpPubKeys with
      | Err _ => Ret (HttpError 401 "Biscuit verification failed")
      | Ok (b, verifyingKey) =>
          match RequireRole b verifyingKey RoleRouter with
          | Err _ => Ret (HttpError 403 "Unauthorized: entity is not a router")
          | Ok _ =>
              node ← perform (CGetNode canonical);
              match node with
              | Err e => Ret (if bool_decide (e = ErrNotFound) then HttpError 401 "Router not enrolled" else internalError)
              | Ok routerRecord =>
                  t ← perform Now;
                  match CheckAdmission t routerRecord with
                  | Err e => Ret (if errors_Is e ErrNodeBanned then HttpError 403 "Router is banned"
                                  else HttpError 401 "Session expired, please re-enroll")
                  | Ok _ =>
                      if negb (bool_decide (en_Role routerRecord = RoleRouter)) then Ret (HttpError 403 "Unauthorized: entity is not a router")
                      else match UnmarshalPublicKey (en_PublicKey routerRecord) with
                      | Err _ => Ret internalError
                      | Ok routerKey =>
                          t ← perform Now;
                          match verifyFreshChallenge t routerKey (RouterLeaseChallenge canonical (lq_ChallengeUnixMs req))
                                  (lq_ChallengeUnixMs req) (lq_ChallengeSignature req) with
                          | Err _ => Ret (HttpError 401 "Invalid lease challenge")
                          | Ok _ =>
                              match for_each (lease_address canonical) (lq_Addresses req) with
                              | Err _ => Ret (HttpError 400 "Invalid address")
                              | Ok _ =>
                                  if (lq_Connections req <? 0)%Z || (lq_ConnectionLimit req <? 0)%Z then Ret (HttpError 400 "Invalid load")
                                  else match lease_ttl req with
                                  | None => Ret (HttpError 400 "Invalid ttl: must not be negative")
                                  | Some ttl =>
                                      now ← perform Now;
                                      leased ← perform (CUpsertRouterLease
                                        {| rl_PeerID := canonical; rl_Addresses := lq_Addresses req; rl_LastRenewal := now;
                                           rl_ExpiresAt := (now + ttl)%Z; rl_ConnectedPeers := lq_ConnectedPeers req;
                                           rl_DHTSize := lq_DhtSize req; rl_Connections := lq_Connections req;
                                           rl_ConnectionLimit := lq_ConnectionLimit req |});
                                      internal leased (λ _, Ret (Leased (now + ttl)%Z))
                                  end
                              end
                          end
                      end
                  end
              end
          end
      end)
  end.

(** ** The sweep *)

(** Two statements: when the first fails the second is not run. *)
Definition DeleteSilentBootstrapNodes (before ephemeralBefore : time) : prog (result nat) :=
  regular ← perform (CDeleteSilent false before);
  match regular with
  | Err e => mret (Err e)
  | Ok _ => perform (CDeleteSilent true ephemeralBefore)
  end.

Definition DeleteStaleEnrollmentRequests (before ephemeralBefore : time) : prog (result nat) :=
  regular ← perform (CDeleteStaleRequests false before);
  match regular with
  | Err e => mret (Err e)
  | Ok n => ephemeral ← perform (CDeleteStaleRequests true ephemeralBefore); mret (m ← ephemeral; Ok (n + m))
  end.

Definition gcExpiredNodes (now : time) : prog unit :=
  let before := (now - op_NodeRetention (sv_config s))%Z in
  deleted ← perform (CDeleteExpiredNodes before);
  match deleted with
  | Err _ => mret tt
  | Ok _ => _ ← DeleteSilentBootstrapNodes before (now - op_EphemeralNodeRetention (sv_config s))%Z; mret tt
  end.

Definition gcEnrollmentRecords (now : time) : prog unit :=
  let before := (now - op_NodeRetention (sv_config s))%Z in
  _ ← DeleteStaleEnrollmentRequests before (now - op_EphemeralNodeRetention (sv_config s))%Z;
  _ ← perform (CDeleteExpiredBootstrapTokens before);
  _ ← perform (CDeleteExpiredRouterLeases before);
  mret tt.

(** The reports of the snapshot whose peer is not an admitted node are dropped
    together, under the lock of the catalog. *)
Definition pruneCatalog (now : time) : prog unit :=
  snap ← perform MCatalog;
  if bool_decide (snap = ∅) then mret tt
  else
    admitted ← perform (CListNodes {| nf_States := [NodeAdmitted]; nf_Now := now; nf_OwnerID := None; nf_Role := "";
                                      nf_After := None; nf_Limit := 0 |});
    match admitted with
    | Err _ => mret tt
    | Ok admitted => perform (MPruneCatalog (snap ∖ list_to_set (en_PeerID <$> admitted)))
    end.

(** One sweep, read at the clock that started it. *)
Definition gcStorage : prog answer :=
  now ← perform Now;
  _ ← gcExpiredNodes now;
  _ ← gcEnrollmentRecords now;
  _ ← pruneCatalog now;
  Ret (Done 0).
End handlers.
