(* ===== verification/Members.v ===== *)
(** * What the control plane tells its members

    The endpoints an admitted member reads with its credential and a signed
    challenge: the policy as rules ([/policies]), its egress assignments
    ([/egress]) and the revocations ([/revocations]); the update of the policy;
    and what is revoked, in memory and in the store
    ([src/internal/controlplane/server.go], [src/internal/controlplane/sts.go]). *)

From S2P Require Import Prelude GoStrings Regex Names Biscuit NaiveEngine Facts DatalogText Grants Labels HTTPGrants PolicyRules Egress Base64 Tar Token Identity Mint Middleware Directory Keyring Decimal PolicyStore Store ControlPlane PolicyConfig Enrollment Admin.

(** [if err != nil && err != storage.ErrNotFound] before the destinations. *)
Definition egress_or_empty (r : result (list (option EgressDestination))) : result (list (option EgressDestination)) :=
  match r with
  | Ok egress => Ok egress
  | Err e => if bool_decide (e = ErrNotFound) then Ok [] else Err e
  end.

(** [d.GetServedBy()] of a nil destination is empty, so nobody serves it. *)
Definition served_by (roles : list string) (labels : gmap string string) (od : option EgressDestination) : bool :=
  match od with Some d => EgressServedBy d roles labels | None => false end.

Definition storeUnavailable : answer := HttpError 503 "Service unavailable: control plane store did not answer".

Section handlers.
Context `{UC : UnicodeCase, TC : TARCodec, BT : BiscuitTokens, TX : BiscuitText, BE : BiscuitEngine, PC : PeerCodec, SH : SHA256,
          PK : PeerKeys, OL : OIDCLibrary, CC : ClaimsCodec, UP : UnicodePrint, UR : URLParser}.
Variable s : Server.

(** ** The member that asks *)

(** [bearer] is the biscuit of the Authorization header: absent, malformed or
    its bytes.  An error is a store that could not be read; no node is a
    credential that was not accepted. *)
Definition admittedNode (bearer : option (result string)) : prog (result (option EnrolledNode)) :=
  match bearer with
  | None | Some (Err _) => mret (Ok None)
  | Some (Ok biscuitBytes) =>
      keys ← perform CGetAllValidPublicKeys;
      match keys with
      | Err e => mret (Err (WrapError "signing keys" e))
      | Ok trustedKeys =>
          t ← perform Now;
          match VerifyAndExtractPeerID t trustedKeys biscuitBytes with
          | Err _ => mret (Ok None)
          | Ok peerID =>
              node ← perform (CGetNode peerID);
              match node with
              | Err e => mret (if errors_Is e ErrNotFound then Ok None else Err (WrapError "node" e))
              | Ok nodeRecord =>
                  t ← perform Now;
                  mret (Ok (if is_ok (CheckAdmission t nodeRecord) then Some nodeRecord else None))
              end
          end
      end
  end.

(** [headers] are the challenge's timestamp and signature; nothing when they
    are missing or malformed. *)
Definition admittedNodeWithChallenge (bearer : option (result string)) (headers : option (Z * string))
    (challengeFn : string → Z → string) : prog (answer + EnrolledNode) :=
  node ← admittedNode bearer;
  match node with
  | Err _ => mret (inl storeUnavailable)
  | Ok None => mret (inl (HttpError 401 "Unauthorized: node credential required"))
  | Ok (Some nodeRecord) =>
      match headers with
      | None => mret (inl (HttpError 401 "Missing or invalid challenge headers"))
      | Some (ts, sig) =>
          match UnmarshalPublicKey (en_PublicKey nodeRecord) with
          | Err _ => mret (inl (HttpError 401 "Unauthorized"))
          | Ok pubKey =>
              t ← perform Now;
              mret (match verifyFreshChallenge t pubKey (challengeFn (en_PeerID nodeRecord) ts) ts sig with
                    | Err _ => inl (HttpError 401 "Challenge verification failed")
                    | Ok _ => inr nodeRecord
                    end)
          end
      end
  end.

(** ** The policy *)

(** [GET /policies] *)
Definition HandlePolicies (bearer : option (result string)) (headers : option (Z * string)) : prog answer :=
  or_return (admittedNodeWithChallenge bearer headers PoliciesChallenge) (λ _,
  policy ← perform CGetMeshPolicy;
  internal (mesh_policy_or_empty policy) (λ '(roles, bindings),
  egress ← perform CGetEgressDestinations;
  internal (egress_or_empty egress) (λ egress,
  let policyRules := (BuildPolicyRules roles bindings).1 ++ BuildEgressServingRules egress in
  Ret (PolicyText (PolicyRuleTexts policyRules))))).

(** The destinations no admitted node serves, and the nodes whose roles cannot
    be resolved. *)
Definition unservedEgress (policy : PolicyConfig) : prog (result (list (option EgressDestination) * list string)) :=
  if bool_decide (pc_egress policy = []) then mret (Ok ([], []))
  else
    nodes ← perform (CListNodes {| nf_States := [NodeAdmitted]; nf_Now := zero_time; nf_OwnerID := None; nf_Role := "";
                                   nf_After := None; nf_Limit := 0 |});
    mret (match nodes with
          | Err e => Err e
          | Ok nodes =>
              let candidates := omap (λ n, match nodeRoles n (pc_bindings policy) with
                                           | Ok roles => Some (roles, en_Labels n)
                                           | Err _ => None
                                           end) nodes in
              let unresolved := omap (λ n, match nodeRoles n (pc_bindings policy) with
                                           | Ok _ => None
                                           | Err _ => Some (en_PeerID n)
                                           end) nodes in
              Ok (filter (λ d, existsb (λ c, served_by c.1 c.2 d) candidates = false) (pc_egress policy), unresolved)
          end).

(** [POST /policies]: the destinations that nobody serves are logged. *)
Definition HandlePoliciesUpdate (authHeader : string) (req : PolicyConfig) : prog answer :=
  checkAdminAuth s authHeader
    match validatePolicyConfig req with
    | Err _ => Ret (HttpError 400 "Invalid policy configuration")
    | Ok _ =>
        saved ← perform (CSavePolicyDocument (pc_roles req) (pc_bindings req) (pc_egress req));
        internal saved (λ _,
        _ ← unservedEgress req;
        _ ← perform (MPublish "POLICY_UPDATE" "");
        Ret (Done 200))
    end.

(** [GET /egress] *)
Definition HandleEgress (bearer : option (result string)) (headers : option (Z * string)) : prog answer :=
  or_return (admittedNodeWithChallenge bearer headers EgressChallenge) (λ nodeRecord,
  policy ← perform CGetMeshPolicy;
  internal (mesh_policy_or_empty policy) (λ '(_, bindings),
  egress ← perform CGetEgressDestinations;
  internal (egress_or_empty egress) (λ egress,
  internal (nodeRoles nodeRecord bindings) (λ roles,
  Ret (Assigned (omap id (filter (λ d, served_by roles (en_Labels nodeRecord) d = true) egress))))))).

(** ** Revoked credentials *)

Definition RevokeBiscuitID (revocationID : string) (expiry : time) : prog unit :=
  if bool_decide (revocationID = "") then mret tt
  else
    t ← perform Now;
    let expiry := if IsZero expiry then (t + BiscuitTTL s)%Z else expiry in
    now ← perform Now;
    _ ← perform (MRevoke now revocationID expiry);
    _ ← perform (CSaveRevokedBiscuit revocationID expiry);
    mret tt.

Definition RevokeBiscuitToken (rawToken : string) (expiry : time) : prog (result string) :=
  match extractRootRevocationID rawToken with
  | Err e => mret (Err e)
  | Ok revID => _ ← RevokeBiscuitID revID expiry; mret (Ok revID)
  end.

(** The banned peers whose identifier is not cached. *)
Fixpoint missing_revocations (missing : list string) (set : gset string) : prog (result (gset string)) :=
  match missing with
  | [] => mret (Ok set)
  | peerID :: missing =>
      node ← perform (CGetNode peerID);
      match node with
      | Err e => if errors_Is e ErrNotFound then missing_revocations missing set else mret (Err e)
      | Ok n =>
          let revID := if bool_decide (en_Biscuit n = "") then ""
                       else match extractRootRevocationID (en_Biscuit n) with Ok id => id | Err _ => "" end in
          _ ← perform (MSetRevocation peerID revID);
          missing_revocations missing (if bool_decide (revID = "") then set else {[revID]} ∪ set)
      end
  end.

Definition listRevokedBiscuitIDs (bannedPeers : list string) : prog (result (list string)) :=
  now ← perform Now;
  _ ← perform (CPruneRevoked now);
  dbRev ← perform (CListRevokedBiscuits now);
  let set := match dbRev with Ok ids => ids | Err _ => ∅ end in
  locked ← perform (MListRevoked now bannedPeers);
  found ← missing_revocations locked.2 (set ∪ locked.1);
  mret (match found with Err e => Err e | Ok set => Ok (sort_Strings (elements set)) end).

(** [GET /revocations] *)
Definition HandleRevocations (bearer : option (result string)) (headers : option (Z * string)) : prog answer :=
  or_return (admittedNodeWithChallenge bearer headers RevocationsChallenge) (λ _,
  banned ← perform CListBannedPeerIDs;
  internal banned (λ bannedPeers,
  ids ← listRevokedBiscuitIDs bannedPeers;
  internal ids (λ revocationIDs, Ret (Revocations revocationIDs bannedPeers)))).

(** The loop over the store: a failure counts as not revoked. *)
Fixpoint revoked_in_store (now : time) (revocationIDs : list string) : prog bool :=
  match revocationIDs with
  | [] => mret false
  | encoded :: revocationIDs =>
      revoked ← perform (CIsBiscuitRevoked encoded now);
      if bool_decide (revoked = Ok true) then mret true else revoked_in_store now revocationIDs
  end.

Definition isBiscuitRevoked (revocationIDs : list string) : prog bool :=
  if bool_decide (revocationIDs = []) then mret false
  else
    now ← perform Now;
    let encoded := RawURL_Encode <$> revocationIDs in
    here ← perform (MIsRevoked now encoded);
    if (here : bool) then mret true else revoked_in_store now encoded.

(** The issuers are the keys of maps after the configured list: the order is
    not fixed by the code. *)
Definition configuredIssuers : list string :=
  elements (list_to_set (filter (λ iss, iss ≠ "") (TrimSpace <$>
    (Split (op_OIDCIssuer (sv_config s)) "," ++ elements (sv_workloadIssuers s) ++
     (map_to_list (sv_workloadEmailSuffixes s)).*1 ++ elements (sv_providers s)))) : gset string).

(** ** Bans behind a credential *)

(** A status and no text, or a pass. *)
Definition deny (status : Z) : prog (Z + unit) := mret (inl status).

Definition not_banned (identity : string) (k : prog (Z + unit)) : prog (Z + unit) :=
  banned ← perform (CIsIdentityBanned identity);
  match banned with
  | Err _ => deny 500
  | Ok true => deny 403
  | Ok false => k
  end.

(** The owner of a node, or the user of a credential, when it is known with
    its issuer. *)
Definition user_not_banned (id : string) (k : prog (Z + unit)) : prog (Z + unit) :=
  user ← perform (CGetUser id);
  match user with
  | Err _ => k
  | Ok user => if bool_decide (u_Issuer user = "") then k else not_banned (IdentityKey user) k
  end.

Definition peer_admitted (now : time) (rawPeerID : string) (k : prog (Z + unit)) : prog (Z + unit) :=
  if bool_decide (rawPeerID = "") then k
  else match peer_Decode rawPeerID with
  | Err _ => deny 403
  | Ok canonical =>
      banned ← perform (CIsNodeBanned canonical);
      match banned with
      | Err _ => deny 500
      | Ok true => deny 403
      | Ok false =>
          node ← perform (CGetNode canonical);
          match node with
          | Err e => if errors_Is e ErrNotFound then k else deny 500
          | Ok nodeRec =>
              if negb (is_ok (CheckAdmission now nodeRec)) then deny 403
              else
                let identity := match claims_Unmarshal (en_ClaimsJSON nodeRec) with Ok claims => oidcIdentityKey claims | Err _ => "" end in
                let claims_checked := if bool_decide (en_ClaimsJSON nodeRec = "") || bool_decide (identity = "") then k
                                      else not_banned identity k in
                if bool_decide (en_OwnerID nodeRec = "") then claims_checked else user_not_banned (en_OwnerID nodeRec) claims_checked
          end
      end
  end.

Fixpoint issuers_not_banned (user : string) (issuers : list string) : prog (Z + unit) :=
  match issuers with
  | [] => mret (inr tt)
  | iss :: issuers => not_banned (iss +:+ "|" +:+ user) (issuers_not_banned user issuers)
  end.

Definition checkBiscuitRevocationAndBans (claims : VerifiedBiscuitClaims) : prog (Z + unit) :=
  revoked ← isBiscuitRevoked (vc_RevocationIDs claims);
  if (revoked : bool) then deny 403
  else
    now ← perform Now;
    let user_checked :=
      if bool_decide (vc_User claims = "") then mret (inr tt)
      else user_not_banned (vc_User claims) (issuers_not_banned (vc_User claims) configuredIssuers) in
    peer_admitted now (vc_NodePeerID claims)
      (peer_admitted now (vc_ActorNodePeerID claims)
        (peer_admitted now (vc_ClientPeerID claims) user_checked)).
End handlers.
