(* ===== verification/Sts.v ===== *)
(** * Exchanging tokens at the border

    The security token service of the control plane
    ([src/internal/controlplane/sts.go]): a node exchanges the ID token of an
    inbound caller for a delegated credential ([/token/exchange]), and an egress
    node exchanges a caller's credential for a short-lived JWT for the outside
    ([/sts/token]).  The JWT is represented by the claims the signer was given. *)

From S2P Require Import Prelude GoStrings Regex Names Biscuit NaiveEngine Facts DatalogText Grants Labels HTTPGrants PolicyRules Egress Base64 Tar Token Identity Mint Middleware Directory Keyring Decimal PolicyStore Store ControlPlane PolicyConfig Enrollment Admin Members.

(** ** Requests *)

Record TokenExchangeRequest := {
  te_SubjectToken : string;
  te_TaskRule : option TaskAuthorizationRule;
  te_Seal : bool;
  te_ChallengeUnixMs : Z;
  te_ChallengeSignature : string;
}.

Record STSTokenRequest := {
  sq_Biscuit : string;
  sq_Destination : string;
  sq_Audience : string;
  sq_ChallengeUnixMs : Z;
  sq_ChallengeSignature : string;
}.

(** What the issuer URL reads of a request: whether it came over TLS, and its host. *)
Record Origin := { or_TLS : bool; or_Host : string }.

Definition maxSTSTokenTTL : Z := (900 * second)%Z.

(** ** The issuer *)

Definition host_char (c : ascii) : bool :=
  let z := byte c in
  ((97 <=? z) && (z <=? 122))%Z || ((65 <=? z) && (z <=? 90))%Z || ((48 <=? z) && (z <=? 57))%Z ||
  bool_decide (c ∈ [".";"-";":";"[";"]"]%char).

Definition isValidHostHeader (host : string) : bool :=
  negb (bool_decide (host = "")) && bool_decide (len host ≤ 255) && forallb host_char (chars host).

(** ** Destinations *)

(** The first destination of that name. *)
Fixpoint find_destination (name : string) (egress : list (option EgressDestination)) : option EgressDestination :=
  match egress with
  | [] => None
  | Some d :: egress => if bool_decide (eg_name d = name) then Some d else find_destination name egress
  | None :: egress => find_destination name egress
  end.

(** The audience the policy fixes for a destination. *)
Definition policy_audience (d : EgressDestination) : option string :=
  match eg_broker d with
  | Some (Oidc (Some fed)) => if bool_decide (TrimSpace (of_audience fed) = "") then None else Some (TrimSpace (of_audience fed))
  | Some (AwsAssumeRole (Some role_arn)) => if bool_decide (TrimSpace (aws_role_arn role_arn) = "") then None else Some "sts.amazonaws.com"
  | _ => None
  end.

Definition destination_host `{UnicodeCase} (destination : string) : string :=
  NormalizeMeshHost (TrimPrefix (TrimSpace destination) EgressServicePrefix).

(** ** The decision *)

(** A destination is granted whether or not its grant is narrowed to methods
    and paths. *)
Definition sts_rule (head : string) (ids body : list term) : rule := Rule (Pred head ids) [Pred FactService body] [].

Definition stsDestinationRules : list rule := [
  sts_rule FactHTTPMethodOK [TVar "t"; TVar "k"] [TVar "t"; TVar "k"];
  sts_rule FactHTTPPathOK [TVar "t"; TVar "k"] [TVar "t"; TVar "k"];
  sts_rule FactHTTPMethodOK [TVar "t"; TVal (VStr "*")] [TVar "t"; TVar "n"];
  sts_rule FactHTTPPathOK [TVar "t"; TVal (VStr "*")] [TVar "t"; TVar "n"];
  sts_rule FactHTTPMethodOK [TVal (VStr "*"); TVal (VStr "*")] [TVar "t"; TVar "n"];
  sts_rule FactHTTPPathOK [TVal (VStr "*"); TVal (VStr "*")] [TVar "t"; TVar "n"]].

Section handlers.
Context `{UC : UnicodeCase, TC : TARCodec, BT : BiscuitTokens, TX : BiscuitText, BE : BiscuitEngine, PC : PeerCodec, SH : SHA256,
          PK : PeerKeys, OL : OIDCLibrary, CC : ClaimsCodec, UP : UnicodePrint, UR : URLParser}.
Variable s : Server.

Definition oidcIssuerURL (o : Origin) : string :=
  let iss := TrimRight (TrimSpace (op_STSIssuerURL (sv_config s))) "/" in
  if negb (bool_decide (iss = "")) then iss
  else
    let scheme := if or_TLS o then "https" else "http" in
    let host := TrimSpace (or_Host o) in
    if isValidHostHeader host then scheme +:+ "://" +:+ host else scheme +:+ "://" +:+ sv_addr s.

(** ** A delegated credential *)

Definition delegated_ttl (requestedTTLSeconds : Z) : Z :=
  let ttl := op_DelegatedBiscuitTTL (sv_config s) in
  let ttl := if (ttl <=? 0)%Z || (BiscuitTTL s <? ttl)%Z then BiscuitTTL s else ttl in
  if (0 <? requestedTTLSeconds)%Z then
    let reqDur := wrap64 (requestedTTLSeconds * second) in
    if (reqDur <? ttl)%Z then reqDur else ttl
  else ttl.

(** The roles of the subject: those bound to it and not to a node, and never
    the router's. *)
Definition delegated_roles (claims : claims_map) (bindings : list (option PolicyBinding)) : list string :=
  sort_Strings (filter (λ r, r ≠ RoleRouter) (resolveRoles "" (Some claims) bindings)).

Definition subject_principal (claims : claims_map) : string :=
  if negb (bool_decide (verifiedEmail claims = "")) then verifiedEmail claims
  else if negb (bool_decide (claim_string claims "sub" = "")) then claim_string claims "sub"
  else oidcIdentityKey (Some claims).

(** The credential, its expiry, the principal and the roles, or the status of a
    refusal. *)
Definition mintDelegatedBiscuitFromJWT (subjectJWT actorPeerID : string) (taskRule : option TaskAuthorizationRule)
    (seal : bool) (requestedTTLSeconds : Z) (allowWorkload : bool) : prog (Z + (string * time * string * list string)) :=
  t ← perform Now;
  match VerifyJWT t subjectJWT (op_AllowedAudiences (sv_config s)) (sv_providers s) with
  | Err _ => mret (inl 401%Z)
  | Ok (claims, token) =>
      if negb allowWorkload && isWorkloadClaims s claims then mret (inl 403%Z)
      else
        let claims := drop_unverified_email claims in
        let subjectKey := oidcIdentityKey (Some claims) in
        banned ← (if bool_decide (subjectKey = "") then mret (Ok false) else perform (CIsIdentityBanned subjectKey));
        match banned with
        | Err _ => mret (inl 500%Z)
        | Ok true => mret (inl 403%Z)
        | Ok false =>
            current ← perform CGetCurrentKey;
            match current with
            | Err _ => mret (inl 500%Z)
            | Ok (privKey, _) =>
                policy ← perform CGetMeshPolicy;
                match mesh_policy_or_empty policy with
                | Err _ => mret (inl 500%Z)
                | Ok (policyRoles, bindings) =>
                    let resolvedRoles := delegated_roles claims bindings in
                    now ← perform Now;
                    let biscuitExpiry := (now + delegated_ttl requestedTTLSeconds)%Z in
                    let biscuitExpiry := if negb (IsZero (it_Expiry token)) && (it_Expiry token <? biscuitExpiry)%Z
                                         then it_Expiry token else biscuitExpiry in
                    mret (match MintDelegatedBiscuitToken privKey (Some claims) actorPeerID biscuitExpiry resolvedRoles policyRoles
                                  taskRule seal with
                          | Err _ => inl 400%Z
                          | Ok biscuitData =>
                              inr (biscuitData,
                                   match taskRule with
                                   | Some rule => EffectiveTARExpiration biscuitExpiry [Some rule]
                                   | None => biscuitExpiry
                                   end, subject_principal claims, resolvedRoles)
                          end)
                end
            end
        end
  end.

(** The caller of the two exchanges: an admitted node that is not a router and
    is within its rate. *)
Definition sts_node (bearer : option (result string)) (k : EnrolledNode → prog answer) : prog answer :=
  node ← admittedNode bearer;
  match node with
  | Err _ => Ret storeUnavailable
  | Ok None => Ret (HttpError 401 "Unauthorized: node credential required")
  | Ok (Some nodeRecord) =>
      if bool_decide (en_Role nodeRecord = RoleRouter) then Ret (HttpError 403 "Forbidden: router credentials cannot exchange tokens")
      else
        allowed ← perform (STSLimiterAllow (en_PeerID nodeRecord));
        if negb allowed then Ret tooManyRequests else k nodeRecord
  end.

(** The node proves that it holds its key. *)
Definition sts_challenge (nodeRecord : EnrolledNode) (challenge : string) (ts : Z) (sig : string) (k : prog answer) : prog answer :=
  internal (UnmarshalPublicKey (en_PublicKey nodeRecord)) (λ nodePubKey,
  t ← perform Now;
  match verifyFreshChallenge t nodePubKey challenge ts sig with
  | Err _ => Ret (HttpError 401 "Invalid challenge")
  | Ok _ => k
  end).

Definition HandleTokenExchange (bearer : option (result string)) (req : TokenExchangeRequest) : prog answer :=
  sts_node bearer (λ nodeRecord,
  if bool_decide (TrimSpace (te_SubjectToken req) = "") then Ret (HttpError 400 "subject_token is required")
  else
    sts_challenge nodeRecord (TokenExchangeChallenge (en_PeerID nodeRecord) (te_ChallengeUnixMs req))
      (te_ChallengeUnixMs req) (te_ChallengeSignature req)
      (internal (peer_Decode (en_PeerID nodeRecord)) (λ actorPeerID,
       minted ← mintDelegatedBiscuitFromJWT (te_SubjectToken req) actorPeerID (te_TaskRule req) (te_Seal req) 0 true;
       match minted with
       | inl status => Ret (HttpError status "token exchange refused")
       | inr (biscuitData, biscuitExpiry, subjectID, resolvedRoles) => Ret (Exchanged biscuitData biscuitExpiry resolvedRoles subjectID)
       end))).

(** ** A JWT for the outside *)

Definition resolveEgressAudience (destination reqAudience : string) : prog (result string) :=
  let destHost := destination_host destination in
  let reqAud := TrimSpace reqAudience in
  let default_audience := if bool_decide (reqAud = "") then "https://" +:+ destHost else reqAud in
  egress ← perform CGetEgressDestinations;
  mret (match egress with
        | Err _ => Ok default_audience
        | Ok egressList =>
            match find_destination destHost egressList ≫= policy_audience with
            | None => Ok default_audience
            | Some policyAud =>
                if negb (bool_decide (reqAud = "")) && negb (bool_decide (reqAud = policyAud))
                then fail "requested audience does not match policy audience" else Ok policyAud
            end
        end).

(** The authorizer of a destination, complete. *)
Definition egress_world (now : time) (destination clientPeer : string) (policyRules : list rule) (w : world) : world :=
  let authorizer := AddFacts w [Fact FactService [VStr "egress"; VStr destination]] in
  let authorizer := AddFacts authorizer [Fact FactConnectionPeerID [VStr clientPeer]] in
  let authorizer := AddChecks authorizer [BaselineReplayCheck] in
  let authorizer := AddFacts authorizer [MarkerFact FactTargetUnrestricted] in
  let authorizer := AddChecks authorizer [BaselineTargetCheck] in
  let authorizer := EnforceExpiration now authorizer in
  let authorizer := AddPolicies authorizer BaselinePolicies in
  let authorizer := AddRules authorizer BaselineRules in
  let authorizer := AddRules authorizer BaselineHTTPRules in
  let authorizer := AddRules authorizer stsDestinationRules in
  AddRules authorizer policyRules.

Definition set_roles (c : VerifiedBiscuitClaims) (roles : list string) : VerifiedBiscuitClaims :=
  {| vc_Biscuit := vc_Biscuit c; vc_VerifyingKey := vc_VerifyingKey c; vc_User := vc_User c; vc_Email := vc_Email c;
     vc_Roles := roles; vc_NodePeerID := vc_NodePeerID c; vc_ActorNodePeerID := vc_ActorNodePeerID c;
     vc_ClientPeerID := vc_ClientPeerID c; vc_Expiration := vc_Expiration c; vc_RevocationIDs := vc_RevocationIDs c;
     vc_TaskRules := vc_TaskRules c |}.

(** The roles of the credential with those the policy derives. *)
Definition merged_roles (authorizer : world) (roles : list string) : list string :=
  match run_query authorizer (select_rule "get_roles" "r" FactRole) with
  | None => roles
  | Some facts => sort_Strings (elements (list_to_set (roles ++ fact_strings facts) : gset string))
  end.

(** The claims of the credential with all its roles, or the status of a refusal. *)
Definition authorizeBiscuitForEgress (rawBiscuit destination : string) : prog (Z + VerifiedBiscuitClaims) :=
  keys ← perform CGetAllValidPublicKeys;
  match keys with
  | Err _ => mret (inl 500%Z)
  | Ok trustedKeys =>
      t ← perform Now;
      match InspectVerifiedBiscuit t rawBiscuit trustedKeys with
      | Err _ => mret (inl 403%Z)
      | Ok claims =>
          gate ← checkBiscuitRevocationAndBans s claims;
          match gate with
          | inl status => mret (inl status)
          | inr _ =>
              if bool_decide (vc_ClientPeerID claims = "") then mret (inl 403%Z)
              else match peer_Decode (vc_ClientPeerID claims) with
              | Err _ => mret (inl 403%Z)
              | Ok clientPeer =>
                  match RequireAuthorityRequestBinding (vc_Biscuit claims) clientPeer with
                  | Err _ => mret (inl 403%Z)
                  | Ok _ =>
                      match Authorizer (vc_Biscuit claims) (vc_VerifyingKey claims) with
                      | Err _ => mret (inl 403%Z)
                      | Ok w =>
                          t ← perform Now;
                          policy ← perform CGetMeshPolicy;
                          match mesh_policy_or_empty policy with
                          | Err _ => mret (inl 500%Z)
                          | Ok (roles, bindings) =>
                              egress ← perform CGetEgressDestinations;
                              match egress_or_empty egress with
                              | Err _ => mret (inl 500%Z)
                              | Ok egressDests =>
                                  let policyRules := (BuildPolicyRules roles bindings).1 ++ BuildEgressServingRules egressDests in
                                  let authorizer := egress_world t destination clientPeer (pr_Rule <$> policyRules) w in
                                  if negb (bool_decide (authorize authorizer = Success)) then mret (inl 403%Z)
                                  else
                                    t ← perform Now;
                                    mret (match EvaluateTaskRulesForDestination (optional_rules (vc_TaskRules claims)) "egress" destination t with
                                          | Err _ => inl 403%Z
                                          | Ok _ => inr (set_roles claims (merged_roles authorizer (vc_Roles claims)))
                                          end)
                              end
                          end
                      end
                  end
              end
          end
      end
  end.

Definition sts_ttl : Z :=
  let ttl := op_STSTokenTTL (sv_config s) in
  let ttl := if (ttl <=? 0)%Z then (300 * second)%Z else ttl in
  if (maxSTSTokenTTL <? ttl)%Z then maxSTSTokenTTL else ttl.

(** The node may ask for a destination it is selected to serve, or for one the
    policy does not name. *)
Definition sts_served (nodeRecord : EnrolledNode) (destination : string) : prog bool :=
  egress ← perform CGetEgressDestinations;
  match egress with
  | Err _ => mret true
  | Ok egressList =>
      match find_destination (destination_host destination) egressList with
      | Some d =>
          if bool_decide (eg_served_by d = []) then mret true
          else
            callingRoles ← storedNodeRoles nodeRecord;
            mret (EgressServedBy d callingRoles (en_Labels nodeRecord))
      | None => mret true
      end
  end.

Definition HandleSTSToken (bearer : option (result string)) (o : Origin) (req : STSTokenRequest) : prog answer :=
  sts_node bearer (λ nodeRecord,
  if bool_decide (sq_Biscuit req = "") then Ret (HttpError 400 "biscuit is required")
  else if bool_decide (TrimSpace (sq_Destination req) = "") then Ret (HttpError 400 "destination is required")
  else
    sts_challenge nodeRecord (STSTokenChallenge (en_PeerID nodeRecord) (sq_ChallengeUnixMs req))
      (sq_ChallengeUnixMs req) (sq_ChallengeSignature req)
      (served ← sts_served nodeRecord (sq_Destination req);
       if negb served then Ret (HttpError 403 "calling node is not in served_by")
       else
         audience ← resolveEgressAudience (sq_Destination req) (sq_Audience req);
         match audience with
         | Err _ => Ret (HttpError 403 "audience refused")
         | Ok audience =>
             authorized ← authorizeBiscuitForEgress (sq_Biscuit req) (sq_Destination req);
             match authorized with
             | inl status => Ret (HttpError status "egress refused")
             | inr claims =>
                 now ← perform Now;
                 let jwtExpiry := (now + sts_ttl)%Z in
                 let jwtExpiry := if negb (IsZero (vc_Expiration claims)) && (vc_Expiration claims <? jwtExpiry)%Z
                                  then vc_Expiration claims else jwtExpiry in
                 if negb (now <? jwtExpiry)%Z then Ret (HttpError 403 "Biscuit token is expired")
                 else
                   jti ← perform RandomBytes;
                   let jwtClaims := {| bj_iss := oidcIssuerURL o; bj_sub := Principal claims; bj_aud := audience;
                                       bj_act := en_PeerID nodeRecord; bj_roles := vc_Roles claims; bj_iat := time_Unix now;
                                       bj_exp := time_Unix jwtExpiry; bj_jti := jti; bj_task := InnermostTaskName claims |} in
                   signed ← perform (SignJWT jwtClaims);
                   internal signed (λ _, Ret (BorderToken jwtClaims jwtExpiry))
             end
         end)).
End handlers.
