(* ===== verification/OAuth.v ===== *)
(** * The OAuth server

    Authorization codes with PKCE and the two grants of [/oauth/token]
    ([src/internal/controlplane/sts.go]).  A request is its form as the
    transport parsed it; the authorization codes live in the memory of the
    replica, under a lock. *)

From S2P Require Import Prelude GoStrings Regex Names Biscuit NaiveEngine Facts DatalogText Grants Labels HTTPGrants PolicyRules Egress Base64 Tar Token Identity Mint Middleware Directory Keyring Decimal PolicyStore Store ControlPlane PolicyConfig Enrollment Admin Members Sts.

(** ** Forms *)

Record AuthorizeForm := {
  af_post : bool;  (** the method is POST, and not GET *)
  af_html : bool;  (** the Accept header contains text/html *)
  af_authorization : string;
  af_client : string;  (** the key of the rate limit *)
  af_response_type : string;
  af_client_id : string;
  af_redirect_uri : string;
  af_state : string;
  af_code_challenge : string;
  af_code_challenge_method : string;
  af_id_token : string;
  af_id_token_hint : string;
  af_actor_peer_id : string;
  af_resource : list string;
  af_scope : string;
  af_options : string;
  af_tar : string;
  af_approve : string;
  af_post_approve : string;  (** of the body alone *)
}.

Record TokenForm := {
  tf_client : string;  (** the key of the rate limit *)
  tf_bearer : option (result string);
  tf_grant_type : string;
  tf_code : string;
  tf_code_verifier : string;
  tf_client_id : string;
  tf_redirect_uri : string;
  tf_seal : bool;
  tf_subject_token : string;
  tf_subject_biscuit : result string;  (** the subject token as base64 *)
  tf_subject_token_type : string;
  tf_expires_in : string;
  tf_task_name : string;
  tf_options : string;
  tf_resource : list string;
  tf_scope : string;
}.

Definition oauthAuthCodeTTL : Z := (300 * second)%Z.
Definition GrantTypeTokenExchange : string := "urn:ietf:params:oauth:grant-type:token-exchange".
Definition GrantTypeAuthorizationCode : string := "authorization_code".
Definition TokenTypeBiscuit : string := "urn:agentmesh:params:oauth:token-type:biscuit".

(** [net.ParseIP] and [IsLoopback] of the host of a URL. *)
Class LoopbackIP := { is_loopback : string → bool }.

(** [peer.IDFromPublicKey] of an Ed25519 key. *)
Class KeyPeer := { IDFromPublicKey : PublicKey → result string }.

(** [timestamppb.New] *)
Definition timestamppb_New (t : time) : Timestamp :=
  {| ts_seconds := time_Unix t; ts_nanos := (t mod second)%Z; ts_unknown := "" |}.

Section handlers.
Context `{UC : UnicodeCase, TC : TARCodec, BT : BiscuitTokens, TX : BiscuitText, BE : BiscuitEngine, PC : PeerCodec, SH : SHA256,
          PK : PeerKeys, OL : OIDCLibrary, CC : ClaimsCodec, UP : UnicodePrint, UR : URLParser, LO : LoopbackIP, KP : KeyPeer}.
Variable s : Server.

(** ** [/oauth/authorize] *)

Definition isValidOAuthRedirectURI (raw : string) : bool :=
  match url_Parse raw with
  | Err _ => false
  | Ok u =>
      if negb (bool_decide (url_Fragment u = "")) || bool_decide (url_Host u = "") then false
      else if bool_decide (fold_ascii (url_Scheme u) = "https") then true
      else if bool_decide (fold_ascii (url_Scheme u) = "http")
      then bool_decide (fold_ascii (url_Hostname u) = "localhost") || is_loopback (url_Hostname u)
      else false
  end.

Definition subject_token_of (f : AuthorizeForm) : string :=
  let id_token := TrimSpace (af_id_token f) in
  let hint := TrimSpace (af_id_token_hint f) in
  if negb (bool_decide (id_token = "")) then id_token
  else if negb (bool_decide (hint = "")) then hint
  else if HasPrefix (af_authorization f) "Bearer " then TrimSpace (TrimPrefix (af_authorization f) "Bearer ") else "".

(** The actor the form names: an admitted node, or none. *)
Definition authorize_actor (f : AuthorizeForm) : prog (answer + string) :=
  let actorPeerStr := TrimSpace (af_actor_peer_id f) in
  if bool_decide (actorPeerStr = "") then mret (inr "")
  else match peer_Decode actorPeerStr with
  | Err _ => mret (inl (HttpError 400 "Invalid actor_peer_id"))
  | Ok pID =>
      node ← perform (CGetNode pID);
      match node with
      | Err _ => mret (inl (HttpError 403 "Invalid or un-admitted actor_peer_id"))
      | Ok nodeRec =>
          t ← perform Now;
          mret (if is_ok (CheckAdmission t nodeRec) then inr pID else inl (HttpError 403 "Invalid or un-admitted actor_peer_id"))
      end
  end.

(** The consent is given: a code that stands for it. *)
Definition issue_code (f : AuthorizeForm) (subjectJWT actorPeerID : string) (tarRule : option TaskAuthorizationRule) : prog answer :=
  rawCode ← perform RandomBytes;
  let code := RawURL_Encode rawCode in
  now ← perform Now;
  added ← perform (MAddCode now code
    {| ac_ClientID := TrimSpace (af_client_id f); ac_RedirectURI := TrimSpace (af_redirect_uri f);
       ac_CodeChallenge := TrimSpace (af_code_challenge f); ac_SubjectJWT := subjectJWT; ac_ActorPeerID := actorPeerID;
       ac_TAR := tarRule; ac_ExpiresAt := (now + oauthAuthCodeTTL)%Z |});
  if negb added then Ret (HttpError 429 "Too many pending authorization requests")
  else Ret (AuthorizationCode code (af_state f) (TrimSpace (af_redirect_uri f))).

Definition authorize_subject (f : AuthorizeForm) (subjectJWT : string) : prog answer :=
  t ← perform Now;
  match VerifyJWT t subjectJWT (op_AllowedAudiences (sv_config s)) (sv_providers s) with
  | Err _ => Ret (HttpError 401 "Invalid OIDC token")
  | Ok (claims, _) =>
      if isWorkloadClaims s claims then Ret (HttpError 403 "workload tokens are not permitted on user endpoints")
      else
        let subjectKey := oidcIdentityKey (Some claims) in
        or_return (if bool_decide (subjectKey = "") then mret (inr tt) else identity_gate subjectKey) (λ _,
        or_return (authorize_actor f) (λ actorPeerID,
        let optionsParam := if bool_decide (af_options f = "") then af_tar f else af_options f in
        match BuildTARFromOAuthParams ("consent-" +:+ TrimSpace (af_client_id f)) optionsParam (af_resource f) (af_scope f) None with
        | Err _ => Ret (HttpError 400 "Invalid task scope/options")
        | Ok tarRule =>
            if negb (af_post f) && (af_html f || negb (bool_decide (af_approve f = ""))) then Ret ConsentForm
            else if af_post f && negb (bool_decide (af_post_approve f = "true")) then Ret (HttpError 403 "Consent approval required")
            else issue_code f subjectJWT actorPeerID tarRule
        end))
  end.

Definition HandleOAuthAuthorize (f : AuthorizeForm) : prog answer :=
  allowed ← perform (STSLimiterAllow ("oauth:" +:+ af_client f));
  if negb allowed then Ret tooManyRequests
  else if negb (bool_decide (af_response_type f = "")) && negb (bool_decide (af_response_type f = "code"))
  then Ret (HttpError 400 "Unsupported response_type (must be code)")
  else if bool_decide (TrimSpace (af_client_id f) = "") then Ret (HttpError 400 "client_id is required")
  else
    let redirectURI := TrimSpace (af_redirect_uri f) in
    if negb (bool_decide (redirectURI = "")) && negb (isValidOAuthRedirectURI redirectURI)
    then Ret (HttpError 400 "Invalid redirect_uri: must be https or loopback http without fragment")
    else
      let method := TrimSpace (af_code_challenge_method f) in
      if bool_decide (TrimSpace (af_code_challenge f) = "") ||
         (negb (bool_decide (method = "")) && negb (bool_decide (method = "S256")))
      then Ret (HttpError 400 "PKCE code_challenge with code_challenge_method=S256 is required")
      else
        let subjectJWT := subject_token_of f in
        if bool_decide (subjectJWT = "") then Ret (HttpError 401 "Bearer OIDC token or id_token parameter required")
        else authorize_subject f subjectJWT.

(** ** [/oauth/token] *)

Definition expires_in (now expiry : time) : Z :=
  let seconds := Z.quot (expiry - now) second in
  if (seconds <? 0)%Z then 0%Z else seconds.

Definition access_token (biscuitData : string) (biscuitExpiry : time) : prog answer :=
  now ← perform Now;
  Ret (AccessToken biscuitData (expires_in now biscuitExpiry)).

(** The node that asks, or else the control plane itself. *)
Definition resolveDefaultActorPeer (bearer : option (result string)) : prog (result string) :=
  node ← admittedNode bearer;
  match node with
  | Err e => mret (Err e)
  | Ok (Some nodeRecord) => mret (peer_Decode (en_PeerID nodeRecord))
  | Ok None =>
      current ← perform CGetCurrentKey;
      mret (match current with Err e => Err e | Ok (_, pub) => IDFromPublicKey pub end)
  end.

(** The challenge of a verifier. *)
Definition code_challenge (codeVerifier : string) : string := RawURL_Encode (sha256_Sum256 codeVerifier).

Definition code_mint (f : TokenForm) (entry : oauthAuthCode) (actorPeerID : string) : prog answer :=
  minted ← mintDelegatedBiscuitFromJWT s (ac_SubjectJWT entry) actorPeerID (ac_TAR entry) (tf_seal f) 0 false;
  match minted with
  | inl status => Ret (OAuthError status "invalid_grant")
  | inr (biscuitData, biscuitExpiry, _, _) => access_token biscuitData biscuitExpiry
  end.

Definition handleOAuthAuthCodeGrant (f : TokenForm) : prog answer :=
  let code := TrimSpace (tf_code f) in
  let codeVerifier := TrimSpace (tf_code_verifier f) in
  if bool_decide (code = "") || bool_decide (codeVerifier = "") then Ret (OAuthError 400 "invalid_request")
  else
    taken ← perform (MTakeCode code);
    match taken with
    | None => Ret (OAuthError 400 "invalid_grant")
    | Some entry =>
        now ← perform Now;
        if (ac_ExpiresAt entry <? now)%Z then Ret (OAuthError 400 "invalid_grant")
        else if negb (bool_decide (ac_ClientID entry = "")) && negb (bool_decide (TrimSpace (tf_client_id f) = ac_ClientID entry))
        then Ret (OAuthError 400 "invalid_grant")
        else if negb (bool_decide (ac_RedirectURI entry = "")) && negb (bool_decide (TrimSpace (tf_redirect_uri f) = ac_RedirectURI entry))
        then Ret (OAuthError 400 "invalid_grant")
        else if negb (bool_decide (code_challenge codeVerifier = ac_CodeChallenge entry)) then Ret (OAuthError 400 "invalid_grant")
        else if bool_decide (ac_ActorPeerID entry = "") then
          actor ← resolveDefaultActorPeer (tf_bearer f);
          match actor with
          | Err _ => Ret (OAuthError 400 "invalid_request")
          | Ok actorPeerID => code_mint f entry actorPeerID
          end
        else code_mint f entry (ac_ActorPeerID entry)
    end.

(** A number of seconds that does not parse, or is not positive, is none. *)
Definition requested_ttl (raw : string) : Z :=
  let ttlStr := TrimSpace raw in
  if bool_decide (ttlStr = "") then 0%Z
  else match ParseInt ttlStr with
       | Ok parsed => if (0 <? parsed)%Z then parsed else 0%Z
       | Err _ => 0%Z
       end.

(** The presented credential itself, narrowed and sealed as asked. *)
Definition exchange_biscuit (f : TokenForm) (tarRule : option TaskAuthorizationRule) : prog answer :=
  match tf_subject_biscuit f with
  | Err _ => Ret (OAuthError 400 "invalid_request")
  | Ok rawBiscuit =>
      keys ← perform CGetAllValidPublicKeys;
      match keys with
      | Err _ => Ret (OAuthError 500 "server_error")
      | Ok trustedKeys =>
          t ← perform Now;
          match InspectVerifiedBiscuit t rawBiscuit trustedKeys with
          | Err _ => Ret (OAuthError 401 "invalid_grant")
          | Ok claims =>
              gate ← checkBiscuitRevocationAndBans s claims;
              match gate with
              | inl status => Ret (OAuthError status "invalid_grant")
              | inr _ =>
                  match match tarRule with
                        | None => Ok (rawBiscuit, vc_Expiration claims)
                        | Some rule => data ← AttenuateBiscuit rawBiscuit rule; Ok (data, EffectiveTARExpiration (vc_Expiration claims) [Some rule])
                        end with
                  | Err _ => Ret (OAuthError 400 "invalid_request")
                  | Ok (biscuitData, biscuitExpiry) =>
                      match (if tf_seal f then SealBiscuit biscuitData else Ok biscuitData) with
                      | Err _ => Ret (OAuthError 500 "server_error")
                      | Ok biscuitData => access_token biscuitData biscuitExpiry
                      end
                  end
              end
          end
      end
  end.

Definition exchange_jwt (f : TokenForm) (tarRule : option TaskAuthorizationRule) (reqTTL : Z) : prog answer :=
  admitted ← admittedNode (tf_bearer f);
  match admitted with
  | Err _ => Ret (OAuthError 503 "temporarily_unavailable")
  | Ok admitted =>
      actor ← resolveDefaultActorPeer (tf_bearer f);
      match actor with
      | Err _ => Ret (OAuthError 400 "invalid_request")
      | Ok actorPeerID =>
          minted ← mintDelegatedBiscuitFromJWT s (TrimSpace (tf_subject_token f)) actorPeerID tarRule (tf_seal f) reqTTL
                     (negb (bool_decide (admitted = None)));
          match minted with
          | inl status => Ret (OAuthError status "invalid_grant")
          | inr (biscuitData, biscuitExpiry, _, _) => access_token biscuitData biscuitExpiry
          end
      end
  end.

Definition handleOAuthTokenExchangeGrant (f : TokenForm) : prog answer :=
  if bool_decide (TrimSpace (tf_subject_token f) = "") then Ret (OAuthError 400 "invalid_request")
  else
    let reqTTL := requested_ttl (tf_expires_in f) in
    tarExpire ← (if (0 <? reqTTL)%Z then now ← perform Now; mret (Some (timestamppb_New (now + wrap64 (reqTTL * second))%Z)) else mret None);
    match BuildTARFromOAuthParams (tf_task_name f) (tf_options f) (tf_resource f) (tf_scope f) tarExpire with
    | Err _ => Ret (OAuthError 400 "invalid_request")
    | Ok tarRule =>
        if bool_decide (TrimSpace (tf_subject_token_type f) = TokenTypeBiscuit) then exchange_biscuit f tarRule
        else exchange_jwt f tarRule reqTTL
    end.

Definition HandleOAuthToken (f : TokenForm) : prog answer :=
  allowed ← perform (STSLimiterAllow ("oauth:" +:+ tf_client f));
  if negb allowed then Ret (OAuthError 429 "temporarily_unavailable")
  else if bool_decide (tf_grant_type f = GrantTypeAuthorizationCode) then handleOAuthAuthCodeGrant f
  else if bool_decide (tf_grant_type f = GrantTypeTokenExchange) then handleOAuthTokenExchangeGrant f
  else Ret (OAuthError 400 "unsupported_grant_type").
End handlers.
