(* ===== verification/Machine.v ===== *)
(** * Concurrent requests

    The control plane serves many requests at once over one store.  A request
    that has arrived is a thread: the calls its handler made so far with their
    replies, and the program that is left.  A history is a list of happenings:
    a request arrives, one thread makes its next call (which may fail), time
    passes, or the policy or the keys are replaced by others.  A monitor says
    which calls a handler may make after the calls it has made; a handler that
    respects it ([safe]) does so in every history. *)

From S2P Require Import Prelude GoStrings Regex Names Biscuit NaiveEngine Facts DatalogText Grants Labels HTTPGrants PolicyRules Egress Base64 Tar Token Identity Mint Middleware Directory Keyring Decimal PolicyStore Store ControlPlane PolicyConfig Enrollment Admin Members Sts OAuth.

(** ** Requests *)

Inductive request :=
| RqRegister (req : EnrollRequest)
| RqRefresh (bearer : option (result string)) (req : TokenRefreshRequest)
| RqEnroll (req : BootstrapEnrollRequest)
| RqEnrollStatus (peerID : string) (headers : option (Z * string))
| RqAdminToken (auth : string) (req : BootstrapTokenCreateRequest)
| RqRevokeToken (auth id : string)
| RqUserToken (auth : string) (req : BootstrapTokenCreateRequest)
| RqResolve (auth path : string)
| RqAdminRevoke (auth peerId : string)
| RqUserRevoke (auth id : string)
| RqNodeAction (auth path : string) (enabled : option bool)
| RqListNodes (auth : string) (query : NodesQuery)
| RqLease (req : RouterLeaseRequest)
| RqSweep
| RqPolicies (bearer : option (result string)) (headers : option (Z * string))
| RqPoliciesUpdate (auth : string) (req : PolicyConfig)
| RqEgress (bearer : option (result string)) (headers : option (Z * string))
| RqRevocations (bearer : option (result string)) (headers : option (Z * string))
| RqRevokeBiscuit (rawToken : string) (expiry : time)  (** [RevokeBiscuitToken], for the program that embeds the server *)
| RqTokenExchange (bearer : option (result string)) (req : TokenExchangeRequest)
| RqSTSToken (bearer : option (result string)) (o : Origin) (req : STSTokenRequest)
| RqAuthorize (form : AuthorizeForm)
| RqOAuthToken (form : TokenForm).

(** ** Threads *)

Abbreviation performed := {c : call & reply c}.

Record Thread := { th_request : request; th_trace : list performed; th_prog : prog answer }.

Record Config := { cf_world : World; cf_threads : list Thread }.

Inductive happening :=
| Arrive (rq : request)
| Step (i : nat) (ch : choice)
| Tick (d : N)
| Replace (policy : PolicyTables) (keys : list KeyRow).

Definition set_policy_keys (db : Database) (policy : PolicyTables) (keys : list KeyRow) : Database :=
  {| db_postgres := db_postgres db; db_keyring := keys; db_nodes := db_nodes db; db_users := db_users db;
     db_tokens := db_tokens db; db_requests := db_requests db; db_banned_identities := db_banned_identities db;
     db_routers := db_routers db; db_policy := policy; db_revoked_biscuits := db_revoked_biscuits db |}.

Section machine.
Context `{UC : UnicodeCase, TC : TARCodec, BT : BiscuitTokens, TX : BiscuitText, BE : BiscuitEngine, PC : PeerCodec, SH : SHA256,
          PK : PeerKeys, OL : OIDCLibrary, CC : ClaimsCodec, UP : UnicodePrint, UR : URLParser, LO : LoopbackIP, KP : KeyPeer, MA : Multiaddr, PO : PolicyCodec}.
Variable s : Server.

Definition handler (rq : request) : prog answer :=
  match rq with
  | RqRegister req => HandleRegister s req
  | RqRefresh bearer req => HandleRefresh s bearer req
  | RqEnroll req => HandleEnroll s req
  | RqEnrollStatus peerID headers => HandleEnrollStatus s peerID headers
  | RqAdminToken auth req => HandleAdminBootstrapTokens s auth req
  | RqRevokeToken auth id => HandleAdminBootstrapTokenAction s auth id
  | RqUserToken auth req => HandleUserBootstrapTokens s auth req
  | RqResolve auth path => HandleAdminEnrollmentAction s auth path
  | RqAdminRevoke auth peerId => HandleAdminRevoke s auth peerId
  | RqUserRevoke auth id => HandleUserRevoke s auth id
  | RqNodeAction auth path enabled => HandleAdminNodeAction s auth path enabled
  | RqListNodes auth query => HandleListNodes s auth query
  | RqLease req => HandleRouterLease s req
  | RqSweep => gcStorage s
  | RqPolicies bearer headers => HandlePolicies bearer headers
  | RqPoliciesUpdate auth req => HandlePoliciesUpdate s auth req
  | RqEgress bearer headers => HandleEgress bearer headers
  | RqRevocations bearer headers => HandleRevocations bearer headers
  | RqRevokeBiscuit rawToken expiry => _ ← RevokeBiscuitToken s rawToken expiry; Ret (Done 0)
  | RqTokenExchange bearer req => HandleTokenExchange s bearer req
  | RqSTSToken bearer o req => HandleSTSToken s bearer o req
  | RqAuthorize form => HandleOAuthAuthorize s form
  | RqOAuthToken form => HandleOAuthToken s form
  end.

Definition thread_step (w : World) (ch : choice) (th : Thread) : World * Thread :=
  match th_prog th with
  | Ret _ => (w, th)
  | Do c k =>
      let '(r, w) := run_call w ch c in
      (w, {| th_request := th_request th; th_trace := th_trace th ++ [existT c r]; th_prog := k r |})
  end.

Definition step (cf : Config) (h : happening) : Config :=
  let w := cf_world cf in
  match h with
  | Arrive rq => {| cf_world := w; cf_threads := cf_threads cf ++ [{| th_request := rq; th_trace := []; th_prog := handler rq |}] |}
  | Step i ch =>
      match cf_threads cf !! i with
      | None => cf
      | Some th => let '(w, th) := thread_step w ch th in {| cf_world := w; cf_threads := <[i := th]> (cf_threads cf) |}
      end
  | Tick d => {| cf_world := {| w_clock := (w_clock w + Z.of_N d)%Z; w_db := w_db w; w_mem := w_mem w |}; cf_threads := cf_threads cf |}
  | Replace policy keys => {| cf_world := set_db w (set_policy_keys (w_db w) policy keys); cf_threads := cf_threads cf |}
  end.

Definition history (cf : Config) (hs : list happening) : Config := foldl step cf hs.

(** ** Monitors *)

(** A monitor that is told nothing of the replies. *)
Definition any_reply (c : call) (r : reply c) : Prop := True.

Section monitor.
Context {S : Type} (permits : S → call → Prop) (rely : ∀ c, reply c → Prop) (after : S → ∀ c, reply c → S).

Inductive safe {A} (Q : S → A → Prop) : S → prog A → Prop :=
| safe_ret m a : Q m a → safe Q m (Ret a)
| safe_do m c k : permits m c → (∀ r, rely c r → safe Q (after m c r) (k r)) → safe Q m (Do c k).

Lemma safe_mono {A} (Q Q' : S → A → Prop) m p : (∀ m a, Q m a → Q' m a) → safe Q m p → safe Q' m p.
Proof. intros HQ. induction 1; constructor; auto. Qed.

Lemma safe_bind {A B} (Q : S → B → Prop) m (p : prog A) (k : A → prog B) :
  safe (λ m a, safe Q m (k a)) m p → safe Q m (p ≫= k).
Proof. induction 1 as [m a Ha|m c f Hc Hk IH]; [done|]. simpl. by constructor. Qed.

Lemma safe_perform {B} (Q : S → B → Prop) m c (k : reply c → prog B) :
  permits m c → (∀ r, rely c r → safe Q (after m c r) (k r)) → safe Q m (perform c ≫= k).
Proof. intros Hc Hk. by apply safe_do. Qed.

Lemma safe_call (c : call) (Q : S → reply c → Prop) m :
  permits m c → (∀ r, rely c r → Q (after m c r) r) → safe Q m (perform c).
Proof. intros Hc Hk. apply safe_do; [done|]. intros r Hr. by apply safe_ret, Hk. Qed.

Definition done_with {A} : S → A → Prop := λ _ _, True.

(** The trace of the thread at an index, which serves a request, stands in the
    relation [P] to the monitor's state.  The threads from [base] on are the
    ones that arrive. *)
Context (Inv : World → Prop) (P : nat → request → S → list performed → Prop) (base : nat).

Definition thread_ok (i : nat) (th : Thread) : Prop :=
  ∃ m, P i (th_request th) m (th_trace th) ∧ safe done_with m (th_prog th).

Definition config_ok (cf : Config) : Prop :=
  Inv (cf_world cf) ∧ base ≤ length (cf_threads cf) ∧ ∀ i th, cf_threads cf !! i = Some th → thread_ok i th.

Record monitor_laws : Prop := {
  ml_rely w ch c : Inv w → rely c (run_call w ch c).1;
  ml_inv w ch c m : Inv w → permits m c → Inv (run_call w ch c).2;
  ml_trace i rq m tr c r : P i rq m tr → permits m c → rely c r → P i rq (after m c r) (tr ++ [existT c r]);
  ml_tick w d : Inv w → Inv {| w_clock := (w_clock w + Z.of_N d)%Z; w_db := w_db w; w_mem := w_mem w |};
  ml_replace w policy keys : Inv w → Inv (set_db w (set_policy_keys (w_db w) policy keys));
}.

Context (laws : monitor_laws).

Lemma thread_step_ok w ch i th :
  Inv w → thread_ok i th → Inv (thread_step w ch th).1 ∧ thread_ok i (thread_step w ch th).2.
Proof using laws.
  intros Hw (m & HP & Hsafe). unfold thread_step. remember (th_prog th) as p eqn:Hp.
  destruct Hsafe as [m a Ha|m c k Hc Hk]; [split; [done|]; exists m; simpl; rewrite <-Hp; by repeat constructor|].
  pose proof (ml_rely laws w ch c Hw) as Hr. pose proof (ml_inv laws w ch c m Hw Hc) as Hi.
  destruct (run_call w ch c) as [r w']. split; [done|]. exists (after m c r). split; [by apply (ml_trace laws)|by apply Hk].
Qed.

(** The requests that arrive have handlers that respect the monitor. *)
Definition arrives_safe (h : happening) : Prop :=
  match h with Arrive rq => ∃ m, (∀ i, base ≤ i → P i rq m []) ∧ safe done_with m (handler rq) | _ => True end.

Lemma step_ok cf h : arrives_safe h → config_ok cf → config_ok (step cf h).
Proof using laws.
  intros Hh (Hw & Hlen & Hth). destruct h as [rq|i ch|d|policy keys]; simpl.
  - split_and!; [done|simpl; rewrite length_app; lia|]. simpl. intros i th [Hi|[Hlt Hi]]%lookup_app_Some; [by apply Hth|].
    destruct Hh as (m & HP & Hsafe). apply list_lookup_singleton_Some in Hi as [Hi <-]. exists m. split; [|done]. apply HP. lia.
  - unfold config_ok. destruct (cf_threads cf !! i) as [th|] eqn:Hi; [|done].
    destruct (thread_step_ok (cf_world cf) ch i th Hw (Hth i th Hi)) as [Hw' Hok'].
    destruct (thread_step (cf_world cf) ch th) as [w' th']. split_and!; [done|simpl; by rewrite length_insert|].
    simpl. intros j th2 [(-> & <- & _)|[_ Hj]]%list_lookup_insert_Some; [done|by apply Hth].
  - split_and!; [by apply (ml_tick laws)|done..].
  - split_and!; [by apply (ml_replace laws)|done..].
Qed.

Lemma history_ok cf hs : Forall arrives_safe hs → config_ok cf → config_ok (history cf hs).
Proof using laws.
  intros Hhs. revert cf. induction Hhs as [|h hs Hh _ IH]; intros cf Hcf; [done|]. apply IH. by apply step_ok.
Qed.
End monitor.
End machine.

(** A monitor that allows as much and is told less accepts as many programs. *)
Lemma safe_weaken {S S' A} (permits : S → call → Prop) (permits' : S' → call → Prop) (rely rely' : ∀ c, reply c → Prop)
    (after : S → ∀ c, reply c → S) (after' : S' → ∀ c, reply c → S') (f : S → S') (Q : S → A → Prop) (Q' : S' → A → Prop) m p :
  (∀ m c, permits m c → permits' (f m) c) → (∀ c r, rely' c r → rely c r) → (∀ m c r, f (after m c r) = after' (f m) c r) →
  (∀ m a, Q m a → Q' (f m) a) →
  safe permits rely after Q m p → safe permits' rely' after' Q' (f m) p.
Proof.
  intros Hp Hr Ha HQ. induction 1 as [m a Hm|m c k Hc _ IH]; constructor; auto. intros r Hr'. rewrite <-Ha. auto.
Qed.

(** Walk through a handler: one case per call and per branch. *)
Ltac safe_step :=
  match goal with
  | |- safe _ _ _ _ _ (Ret _) => apply safe_ret
  | |- safe _ _ _ _ _ (mret _) => apply safe_ret
  | |- safe _ _ _ _ _ (perform _ ≫= _) => apply safe_perform; [|intros ? ?]
  | |- safe ?p ?r ?a ?Q ?m (perform ?c) => refine (safe_call p r a c Q m _ _); [|intros ? ?]
  | |- safe _ _ _ _ _ (_ ≫= _) => apply safe_bind
  | |- safe _ _ _ _ _ (internal ?r _) => destruct r; unfold internal
  | |- safe _ _ _ _ _ (or_return _ _) => unfold or_return
  | |- safe _ _ _ _ _ (approved _) => unfold approved
  | |- safe _ _ _ _ _ (let x := _ in _) => cbv zeta
  | |- safe _ _ _ _ _ (if ?b then _ else _) => destruct b
  | |- safe _ _ _ _ _ (match ?x with _ => _ end) => destruct x
  end.

(** The parts of [/oauth/authorize], the one handler that adds a code. *)
Ltac unfold_authorize := unfold HandleOAuthAuthorize, authorize_subject, authorize_actor, issue_code, identity_gate, or_return.

(** ** Quiet programs *)

(** Calls that leave nodes, bans, tokens, enrollment requests and authorization
    codes to be redeemed as they are. *)
Definition quiet_call (c : call) : bool :=
  match c with
  | CEnrollNode _ | CSetNodeAndIdentityBanned _ _ _ | CSetNodeAutonomousRecovery _ _ | CSaveBootstrapToken _
  | CConsumeBootstrapTokenUsage _ _ | CRevokeBootstrapToken _ | CCreateEnrollmentRequest _ | CUpdateEnrollmentRequest _ _ _ _
  | CResolveEnrollmentRequest _ _ _ _ | CDeleteExpiredNodes _ | CDeleteSilent _ _ | CDeleteStaleRequests _ _
  | CDeleteExpiredBootstrapTokens _ | MAddCode _ _ _ => false
  | _ => true
  end.

Definition quiet {A} : prog A → Prop :=
  safe (λ (_ : unit) c, quiet_call c = true) (λ _ _, True) (λ m _ _, m) (λ _ _, True) tt.

(** A quiet program respects every monitor that lets quiet calls pass. *)
Lemma safe_quiet {S A} (permits : S → call → Prop) rely after (Q : S → A → Prop) m p :
  (∀ c, quiet_call c = true → permits m c ∧ ∀ r, after m c r = m) → (∀ a, Q m a) → quiet p → safe permits rely after Q m p.
Proof.
  intros Hq HQ. unfold quiet. induction 1 as [u a _|u c k Hc _ IH]; constructor; [done|by apply Hq|].
  intros r _. destruct (Hq c Hc) as [_ ->]. by apply IH.
Qed.

Section quiet.
Context `{UC : UnicodeCase, TC : TARCodec, BT : BiscuitTokens, TX : BiscuitText, BE : BiscuitEngine, PC : PeerCodec, SH : SHA256,
          PK : PeerKeys, OL : OIDCLibrary, CC : ClaimsCodec, UP : UnicodePrint, UR : URLParser, LO : LoopbackIP, KP : KeyPeer, MA : Multiaddr}.
Variable s : Server.

Ltac hush := unfold quiet; repeat safe_step; done.

Lemma mintRoles_quiet roles rs labels : quiet (mintRoles roles rs labels).
Proof. unfold mintRoles. hush. Qed.

Lemma storedNodeRoles_quiet n : quiet (storedNodeRoles n).
Proof. unfold storedNodeRoles. hush. Qed.

Lemma tokenOwnerBanned_quiet tok : quiet (tokenOwnerBanned tok).
Proof. unfold tokenOwnerBanned. hush. Qed.

Lemma buildApproved_quiet b t : quiet (buildApprovedBootstrapEnrollResponse s b t).
Proof. unfold buildApprovedBootstrapEnrollResponse. hush. Qed.

Lemma register_owner_quiet claims : quiet (register_owner s claims).
Proof. unfold register_owner. hush. Qed.

Lemma refresh_attest_quiet req n : quiet (refresh_attest s req n).
Proof. unfold refresh_attest, identity_gate. hush. Qed.

Lemma refresh_owner_quiet n : quiet (refresh_owner n).
Proof. unfold refresh_owner. hush. Qed.

Lemma refresh_oidc_quiet n canonical claimsJSON key expiry roles bindings :
  quiet (refresh_oidc n canonical claimsJSON key expiry roles bindings).
Proof. unfold refresh_oidc, mintRoles. hush. Qed.

Lemma refresh_bootstrap_quiet n claimsJSON canonical key expiry roles bindings :
  quiet (refresh_bootstrap n claimsJSON canonical key expiry roles bindings).
Proof. unfold refresh_bootstrap, mintRoles. hush. Qed.

Lemma authenticateUser_quiet auth : quiet (authenticateUser s auth).
Proof. unfold authenticateUser. hush. Qed.

Lemma resolveTokenOwner_quiet caller requested : quiet (resolveTokenOwner caller requested).
Proof. unfold resolveTokenOwner. hush. Qed.

Lemma HandleEnrollStatus_quiet peerID headers : quiet (HandleEnrollStatus s peerID headers).
Proof. unfold HandleEnrollStatus, buildApprovedBootstrapEnrollResponse. hush. Qed.

Lemma HandleListNodes_quiet auth query : quiet (HandleListNodes s auth query).
Proof. unfold HandleListNodes, requireUser, authenticateUser. hush. Qed.

Lemma HandleRouterLease_quiet req : quiet (HandleRouterLease s req).
Proof. unfold HandleRouterLease. hush. Qed.

Lemma quiet_bind {A B} (p : prog A) (k : A → prog B) : quiet p → (∀ a, quiet (k a)) → quiet (p ≫= k).
Proof. intros Hp Hk. apply safe_bind. eapply safe_mono; [|exact Hp]. intros [] a _. apply Hk. Qed.

Lemma admittedNode_quiet bearer : quiet (admittedNode bearer).
Proof. unfold admittedNode. hush. Qed.

Lemma admittedNodeWithChallenge_quiet bearer headers f : quiet (admittedNodeWithChallenge bearer headers f).
Proof. apply quiet_bind; [apply admittedNode_quiet|]. intros [[n|]|]; hush. Qed.

Lemma unservedEgress_quiet policy : quiet (unservedEgress policy).
Proof. unfold unservedEgress. hush. Qed.

Lemma checkAdminAuth_quiet auth k : quiet k → quiet (checkAdminAuth s auth k).
Proof.
  intros Hk. unfold checkAdminAuth, requireUser. apply quiet_bind; [apply authenticateUser_quiet|]. intros [u|e]; [|hush].
  case_match; [hush|done].
Qed.

Lemma missing_revocations_quiet missing set : quiet (missing_revocations missing set).
Proof.
  revert set. induction missing as [|p missing IH]; intros set; [by apply safe_ret|]. cbn [missing_revocations]. unfold quiet.
  repeat safe_step; try done; apply IH.
Qed.

Lemma listRevoked_quiet banned : quiet (listRevokedBiscuitIDs banned).
Proof.
  unfold listRevokedBiscuitIDs. unfold quiet. do 4 (apply safe_perform; [done|intros ? _]).
  apply quiet_bind; [apply missing_revocations_quiet|]. intros [?|?]; hush.
Qed.

Lemma revoked_in_store_quiet now ids : quiet (revoked_in_store now ids).
Proof. induction ids as [|i ids IH]; [by apply safe_ret|]. cbn [revoked_in_store]. unfold quiet. repeat safe_step; try done; apply IH. Qed.

Lemma not_banned_quiet identity k : quiet k → quiet (not_banned identity k).
Proof. intros Hk. unfold not_banned, deny. unfold quiet. repeat safe_step; done. Qed.

Lemma user_not_banned_quiet id k : quiet k → quiet (user_not_banned id k).
Proof. intros Hk. unfold user_not_banned. unfold quiet. repeat safe_step; try done; by apply not_banned_quiet. Qed.

Lemma peer_admitted_quiet now raw k : quiet k → quiet (peer_admitted now raw k).
Proof.
  intros Hk. unfold peer_admitted, deny. cbv zeta. unfold quiet. repeat safe_step; try done;
    first [by apply not_banned_quiet|apply user_not_banned_quiet; case_match; [done|by apply not_banned_quiet]].
Qed.

Lemma checkBans_quiet claims : quiet (checkBiscuitRevocationAndBans s claims).
Proof.
  unfold checkBiscuitRevocationAndBans, isBiscuitRevoked. apply quiet_bind.
  - unfold quiet. repeat safe_step; try done. apply revoked_in_store_quiet.
  - intros [|]; [by apply safe_ret|]. apply safe_perform; [done|intros now _]. cbv zeta. do 3 apply peer_admitted_quiet.
    case_match; [hush|]. apply user_not_banned_quiet. induction (configuredIssuers s); [by apply safe_ret|]. by apply not_banned_quiet.
Qed.

Lemma mintDelegated_quiet jwt actor rule seal ttl allow : quiet (mintDelegatedBiscuitFromJWT s jwt actor rule seal ttl allow).
Proof. unfold mintDelegatedBiscuitFromJWT. hush. Qed.

Lemma resolveDefaultActorPeer_quiet bearer : quiet (resolveDefaultActorPeer bearer).
Proof. apply quiet_bind; [apply admittedNode_quiet|]. intros [[n|]|]; hush. Qed.

Lemma cacheBanned_quiet peerID rawBiscuit : quiet (cacheBannedNodeRevocationID peerID rawBiscuit).
Proof. unfold cacheBannedNodeRevocationID. hush. Qed.

Lemma clearBanned_quiet peerID : quiet (clearBannedNodeRevocationID peerID).
Proof. unfold clearBannedNodeRevocationID. hush. Qed.

Lemma dropCatalogEntry_quiet peerID : quiet (dropCatalogEntry peerID).
Proof. unfold dropCatalogEntry. hush. Qed.

Create HintDb members.
#[local] Hint Resolve admittedNode_quiet admittedNodeWithChallenge_quiet unservedEgress_quiet checkAdminAuth_quiet listRevoked_quiet
  checkBans_quiet mintDelegated_quiet resolveDefaultActorPeer_quiet storedNodeRoles_quiet : members.

(** A handler made of quiet parts. *)
Ltac hush_parts :=
  repeat first
    [ done | eassumption | solve [eauto with members]
    | solve [match goal with |- safe _ _ _ _ _ ?p => change (quiet p); eauto with members end]
    | apply quiet_bind; [solve [eauto with members]|intros ?]
    | unfold quiet; safe_step ].

Lemma HandlePolicies_quiet bearer headers : quiet (HandlePolicies bearer headers).
Proof. unfold HandlePolicies, or_return. hush_parts. Qed.

Lemma HandlePoliciesUpdate_quiet auth req : quiet (HandlePoliciesUpdate s auth req).
Proof. unfold HandlePoliciesUpdate. apply checkAdminAuth_quiet. hush_parts. Qed.

Lemma HandleEgress_quiet bearer headers : quiet (HandleEgress bearer headers).
Proof. unfold HandleEgress, or_return. hush_parts. Qed.

Lemma HandleRevocations_quiet bearer headers : quiet (HandleRevocations bearer headers).
Proof. unfold HandleRevocations, or_return. hush_parts. Qed.

Lemma RevokeBiscuitToken_quiet raw expiry : quiet (RevokeBiscuitToken s raw expiry).
Proof. unfold RevokeBiscuitToken, RevokeBiscuitID. hush. Qed.

Lemma HandleTokenExchange_quiet bearer req : quiet (HandleTokenExchange s bearer req).
Proof. unfold HandleTokenExchange, sts_node, sts_challenge. hush_parts. Qed.

Lemma authorizeBiscuitForEgress_quiet raw dest : quiet (authorizeBiscuitForEgress s raw dest).
Proof. unfold authorizeBiscuitForEgress. hush_parts. Qed.

Lemma sts_served_quiet n dest : quiet (sts_served n dest).
Proof. unfold sts_served. hush_parts. Qed.

Lemma resolveEgressAudience_quiet dest aud : quiet (resolveEgressAudience dest aud).
Proof. unfold resolveEgressAudience. hush. Qed.
#[local] Hint Resolve authorizeBiscuitForEgress_quiet sts_served_quiet resolveEgressAudience_quiet : members.

Lemma HandleSTSToken_quiet bearer o req : quiet (HandleSTSToken s bearer o req).
Proof. unfold HandleSTSToken, sts_node, sts_challenge. hush_parts. Qed.

Lemma code_mint_quiet form entry actor : quiet (code_mint s form entry actor).
Proof. unfold code_mint, access_token. hush_parts. Qed.
#[local] Hint Resolve code_mint_quiet : members.

Lemma exchange_biscuit_quiet form rule : quiet (exchange_biscuit s form rule).
Proof. unfold exchange_biscuit, access_token. hush_parts. Qed.

Lemma exchange_jwt_quiet form rule ttl : quiet (exchange_jwt s form rule ttl).
Proof. unfold exchange_jwt, access_token. hush_parts. Qed.
#[local] Hint Resolve exchange_biscuit_quiet exchange_jwt_quiet : members.

Lemma HandleOAuthToken_quiet form : quiet (HandleOAuthToken s form).
Proof.
  unfold HandleOAuthToken, handleOAuthAuthCodeGrant, handleOAuthTokenExchangeGrant. hush_parts.
Qed.
End quiet.

Create HintDb quiet.
#[export] Hint Resolve mintRoles_quiet storedNodeRoles_quiet tokenOwnerBanned_quiet buildApproved_quiet register_owner_quiet
  refresh_attest_quiet refresh_owner_quiet refresh_oidc_quiet refresh_bootstrap_quiet authenticateUser_quiet resolveTokenOwner_quiet
  HandleEnrollStatus_quiet HandleListNodes_quiet HandleRouterLease_quiet cacheBanned_quiet clearBanned_quiet dropCatalogEntry_quiet
  HandlePolicies_quiet HandlePoliciesUpdate_quiet HandleEgress_quiet HandleRevocations_quiet RevokeBiscuitToken_quiet
  HandleTokenExchange_quiet HandleSTSToken_quiet HandleOAuthToken_quiet : quiet.
