(* ===== verification/Traces.v ===== *)
(** * Traces

    What a handler did, call by call: a program runs along a trace when each
    call of the trace is its next one and the reply is the one it goes on with.
    Every thread of a history has run its handler along its trace, whatever the
    other threads did between two calls, so a fact about the traces of a handler
    holds in every history. *)

From S2P Require Import Prelude GoStrings Regex Names Biscuit NaiveEngine Facts DatalogText Grants Labels HTTPGrants PolicyRules Egress Base64 Tar Token Identity Mint Middleware Directory Keyring Decimal PolicyStore Store ControlPlane PolicyConfig Enrollment Admin Members Sts OAuth Machine.

(** ** Programs along traces *)

Fixpoint runs {A} (p : prog A) (tr : list performed) (q : prog A) {struct tr} : Prop :=
  match tr with
  | [] => p = q
  | e :: tr => match p with
               | Ret _ => False
               | Do c k => ∃ r, e = existT c r ∧ runs (k r) tr q
               end
  end.

(** The program answers [a] along the trace. *)
Abbreviation answers p tr a := (runs p tr (Ret a)).

(** The call was made in the trace and replied to with [r]. *)
Definition replied (tr : list performed) (c : call) (r : reply c) : Prop := existT c r ∈ tr.

Lemma runs_snoc {A} (p : prog A) tr c k r : runs p tr (Do c k) → runs p (tr ++ [existT c r]) (k r).
Proof.
  revert p. induction tr as [|e tr IH]; intros p.
  { cbn [runs app]. intros ->. by exists r. }
  cbn [runs app]. destruct p as [a|c' k']; [done|]. intros (r' & -> & Hrun). exists r'. split; [done|]. by apply IH.
Qed.

Lemma answers_bind {A B} (p : prog A) (k : A → prog B) tr b :
  answers (p ≫= k) tr b → ∃ tr1 tr2 a, tr = tr1 ++ tr2 ∧ answers p tr1 a ∧ answers (k a) tr2 b.
Proof.
  revert p. induction tr as [|e tr IH]; intros [a|c f]; cbn [runs mbind prog_bind prog_bind_].
  - intros Hk. by exists [], [], a.
  - done.
  - intros Hk. by exists [], (e :: tr), a.
  - intros (r & -> & (tr1 & tr2 & a & -> & Hp & Hk)%IH). exists (existT c r :: tr1), tr2, a. split_and!; [done| |done]. by exists r.
Qed.

Lemma answers_perform {B} c (k : reply c → prog B) tr b :
  answers (perform c ≫= k) tr b → ∃ r tr', tr = existT c r :: tr' ∧ answers (k r) tr' b.
Proof. destruct tr as [|e tr]; [done|]. intros (r & -> & Hk). by exists r, tr. Qed.

Lemma answers_call c tr (b : reply c) : answers (perform c) tr b → tr = [existT c b].
Proof. destruct tr as [|e tr]; [done|]. intros (r & -> & Hk). destruct tr; [by injection Hk as ->|done]. Qed.

Lemma answers_ret {A} (a b : A) tr : answers (Ret a) tr b → a = b ∧ tr = [].
Proof. destruct tr; [by intros [= ->]|done]. Qed.

Lemma replied_here tr c r : replied (existT c r :: tr) c r.
Proof. by left. Qed.

Lemma replied_cons tr e c r : replied tr c r → replied (e :: tr) c r.
Proof. by right. Qed.

Lemma replied_app_l tr1 tr2 c r : replied tr1 c r → replied (tr1 ++ tr2) c r.
Proof. intros H. apply elem_of_app. by left. Qed.

Lemma replied_app_r tr1 tr2 c r : replied tr2 c r → replied (tr1 ++ tr2) c r.
Proof. intros H. apply elem_of_app. by right. Qed.

(** A call of a trace that is known. *)
Ltac seen :=
  lazymatch goal with
  | |- replied (existT _ _ :: _) _ _ => first [exact (replied_here _ _ _)|apply replied_cons; seen]
  | |- replied (_ ++ _) _ _ => first [apply replied_app_l; seen|apply replied_app_r; seen]
  | |- _ => assumption
  end.

(** Follow a program along its trace: one step per call, the branches that end
    with another answer closed. *)
Ltac along H :=
  lazymatch type of H with
  | runs (perform _ ≫= _) _ _ =>
      let r := fresh "r" in let tr := fresh "tr" in apply answers_perform in H as (r & tr & -> & H); cbn beta in H
  | runs (perform _) _ _ => apply answers_call in H; subst
  | runs ((if ?b then _ else _) ≫= _) _ _ => destruct b eqn:?
  | runs (mret ?a ≫= ?k) _ _ => change (mret a ≫= k) with (k a) in H; cbn beta in H
  | runs (Ret _) _ _ => apply answers_ret in H; destruct H; simplify_eq
  | runs (mret _) _ _ => apply answers_ret in H; destruct H; simplify_eq
  | runs (let x := _ in _) _ _ => cbv zeta in H
  | runs (internal ?r _) _ _ => destruct r eqn:?; unfold internal in H
  | runs (or_return _ _) _ _ => unfold or_return in H
  | runs (if ?b then _ else _) _ _ => destruct b eqn:?
  | runs (match ?x with _ => _ end) _ _ => destruct x eqn:?
  end.

(** ** Histories *)

Section histories.
Context `{UC : UnicodeCase, TC : TARCodec, BT : BiscuitTokens, TX : BiscuitText, BE : BiscuitEngine, PC : PeerCodec, SH : SHA256,
          PK : PeerKeys, OL : OIDCLibrary, CC : ClaimsCodec, UP : UnicodePrint, UR : URLParser, LO : LoopbackIP, KP : KeyPeer, MA : Multiaddr, PO : PolicyCodec}.
Variable s : Server.

Definition all_calls (cf : Config) : list performed := cf_threads cf ≫= th_trace.

Lemma bind_insert (ths : list Thread) i th th' e :
  ths !! i = Some th → th_trace th' = th_trace th ++ [e] →
  (<[i:=th']> ths ≫= th_trace) ≡ₚ (ths ≫= th_trace) ++ [e].
Proof.
  intros Hi He. rewrite insert_take_drop by (by eapply lookup_lt_Some).
  rewrite <-(take_drop_middle ths i th Hi) at 3. rewrite !bind_app. simpl. rewrite He. solve_Permutation.
Qed.

(** What passes outside the threads leaves the tokens and the memory alone. *)
Definition keeps_state (w w' : World) : Prop := db_tokens (w_db w') = db_tokens (w_db w) ∧ w_mem w' = w_mem w.

(** A happening is a call of one thread or leaves calls, tokens and memory alone. *)
Lemma step_cases cf h :
  (all_calls (step s cf h) ≡ₚ all_calls cf ∧ keeps_state (cf_world cf) (cf_world (step s cf h))) ∨
  (∃ th c k ch, th ∈ cf_threads cf ∧ th_prog th = Do c k ∧
     cf_world (step s cf h) = (run_call (cf_world cf) ch c).2 ∧
     all_calls (step s cf h) ≡ₚ all_calls cf ++ [existT c (run_call (cf_world cf) ch c).1]).
Proof.
  destruct h as [rq|i ch|d|policy keys].
  - left. split; [|done]. unfold all_calls. simpl. rewrite bind_app. simpl. by rewrite (right_id_L [] (++)).
  - unfold all_calls, step. destruct (cf_threads cf !! i) as [th|] eqn:Hi; [|by left].
    unfold thread_step. destruct (th_prog th) as [a|c k] eqn:Hp.
    { left. simpl. split; [|done]. by rewrite list_insert_id. }
    right. exists th, c, k, ch. split; [by eapply list_elem_of_lookup_2|]. split; [done|].
    destruct (run_call (cf_world cf) ch c) as [r w]. split; [done|]. by apply (bind_insert _ i th).
  - by left.
  - by left.
Qed.

(** A thread has run its handler along its trace. *)
Definition on_course (th : Thread) : Prop := runs (handler s (th_request th)) (th_trace th) (th_prog th).

Lemma step_on_course cf h : Forall on_course (cf_threads cf) → Forall on_course (cf_threads (step s cf h)).
Proof.
  intros Hcf. destruct h as [rq|i ch|d|policy keys]; simpl; [|..|done|done].
  - apply Forall_app. split; [done|]. apply Forall_singleton. done.
  - destruct (cf_threads cf !! i) as [th|] eqn:Hi; [|done]. pose proof (Forall_lookup_1 _ _ _ _ Hcf Hi) as Hth.
    unfold thread_step. destruct (th_prog th) as [a|c k] eqn:Hp; [by rewrite list_insert_id by done|].
    destruct (run_call (cf_world cf) ch c) as [r w]. simpl. apply Forall_insert; [done|]. unfold on_course in *. rewrite Hp in Hth.
    exact (runs_snoc _ _ c k r Hth).
Qed.

Lemma history_on_course w hs : Forall on_course (cf_threads (history s {| cf_world := w; cf_threads := [] |} hs)).
Proof.
  induction hs as [|h hs IH] using rev_ind; [constructor|]. unfold history in *. rewrite foldl_snoc. by apply step_on_course.
Qed.

Lemma history_answers w hs i th a :
  cf_threads (history s {| cf_world := w; cf_threads := [] |} hs) !! i = Some th → th_prog th = Ret a →
  answers (handler s (th_request th)) (th_trace th) a.
Proof. intros Hi <-. exact (Forall_lookup_1 _ _ _ _ (history_on_course w hs) Hi). Qed.
End histories.
