(* ===== verification/Scenario.v ===== *)
(** * A small control plane to run

    Concrete instances of the interfaces of the control plane, and a world with
    one administrator token, on which histories evaluate. *)

From S2P Require Import Prelude GoStrings Regex Names Biscuit NaiveEngine Facts DatalogText Grants Labels HTTPGrants PolicyRules Egress Base64 Tar Token TokenModel Identity Mint Middleware Directory Keyring Decimal PolicyStore Store ControlPlane PolicyConfig Enrollment Admin Members Sts OAuth Machine Traces.

(** ** Interfaces *)

(** A digest that is the padded text. *)
#[refine] Definition padded_digest : SHA256 :=
  {| sha256_Sum256 := λ t, str_take 32 (t +:+ "00000000000000000000000000000000") |}.
Proof. intros t. rewrite len_take, len_app. change (len "00000000000000000000000000000000") with 32. lia. Defined.

(** A key is its text; the peer of a key is its text after "12D3". *)
Definition text_keys : PeerKeys :=
  {| PubKey := string; UnmarshalPublicKey := λ t, if bool_decide (t = "") then fail "no key" else Ok t;
     MatchesPublicKey := λ peer key, bool_decide (peer = "12D3" +:+ key);
     key_Verify := λ key payload sig, Ok (bool_decide (sig = key +:+ payload)) |}.

(** An ID token is the subject it vouches for. *)
Definition subject_claims (sub : string) : claims_map := {[ "iss" := AnyString "https://id"; "sub" := AnyString sub ]}.

Definition subject_tokens : OIDCLibrary :=
  {| ParseUnverified := λ jwt, Ok ({[ "alg" := AnyString "ES256" ]}, subject_claims jwt);
     verifier_Verify := λ _ _ jwt, Ok {| it_Audience := ["mesh"]; it_Expiry := (1000 * second)%Z; it_Claims := Ok (subject_claims jwt) |} |}.

(** Stored claims are the subject; new ones cannot be stored. *)
#[refine] Definition subject_codec : ClaimsCodec :=
  {| claims_Marshal := λ _, fail "not stored"; claims_Unmarshal := λ t, if bool_decide (t = "") then fail "no JSON" else Ok (Some (subject_claims t)) |}.
Proof. all: done. Defined.

Definition plain_addrs : Multiaddr := text_addrs.

Definition no_loopback : LoopbackIP := {| is_loopback := λ _, false |}.

(** The peer of every key is the control plane. *)
Definition no_key_peer : KeyPeer := {| IDFromPublicKey := λ _, Ok "12D3cp" |}.

#[refine] Definition no_policy_codec : PolicyCodec :=
  {| grant_Marshal := λ _, fail "no grant"; grant_Unmarshal := λ _, fail "no grant";
     dest_Marshal := λ _, fail "no destination"; dest_Unmarshal := λ _, fail "no destination";
     strings_Marshal := λ _, fail "no list"; strings_Unmarshal := λ _, fail "no list" |}.
Proof. all: done. Defined.

(** ** Credentials *)

(** The credential of the bootstrap node [peer] minted to expire at [exp] seconds. *)
Definition bootstrap_token (peer : string) (exp : Z) : toy := Toy example_key
  [Fact FactExpiration [biscuit_Date (exp * second)%Z]; Fact FactNode [VStr peer]; Fact FactClientPeerID [VStr peer];
   Fact FactRole [VStr RoleNode]] [] false.

(** The delegated credential of a subject, with an actor, minted to expire at
    [exp] seconds. *)
Definition subject_token (sub actor : string) (exp : Z) : toy := Toy example_key
  [Fact FactExpiration [biscuit_Date (exp * second)%Z]; Fact FactActorNode [VStr actor]; Fact FactClientPeerID [VStr actor];
   Fact FactUser [VStr sub]] [] false.

(** The credential of a node that may call a destination. *)
Definition caller_token : toy := Toy example_key
  [Fact FactExpiration [biscuit_Date (150 * second)%Z]; Fact FactNode [VStr "12D3b"]; Fact FactClientPeerID [VStr "12D3b"];
   Fact FactRole [VStr RoleNode]; Fact FactGrantedServiceSet [VStr "egress"; VSet [AStr "api.example.com"]]] [] false.

Definition scenario_table : list toy :=
  [bootstrap_token "12D3a" 150; bootstrap_token "12D3a" 151; bootstrap_token "12D3a" 152;
   bootstrap_token "12D3b" 150; bootstrap_token "12D3b" 151; bootstrap_token "12D3b" 152;
   subject_token "alice" "12D3a" 130; caller_token].

Lemma scenario_table_ok : table_ok scenario_table.
Proof. apply small_table_ok. simpl. lia. Qed.

Definition scenario_tokens : BiscuitTokens := toy_tokens scenario_table scenario_table_ok.

(** ** The server and its world *)

Definition scenario_server (auto : bool) : Server := {|
  sv_config := {| op_AllowedAudiences := ["mesh"]; op_LeaseDuration := (60 * second)%Z; op_BiscuitTTL := (50 * second)%Z;
                  op_OIDCSessionTTL := (500 * second)%Z; op_WorkloadSessionTTL := (100 * second)%Z;
                  op_NodeRetention := (1000 * second)%Z; op_EphemeralNodeRetention := (100 * second)%Z;
                  op_AdminToken := "root"; op_AutoApproveEnrollment := auto; op_OIDCIssuer := "https://id"; op_STSIssuerURL := "";
                  op_DelegatedBiscuitTTL := (30 * second)%Z; op_STSTokenTTL := 0%Z |};
  sv_providers := {[ "https://id" ]}; sv_workloadIssuers := ∅; sv_workloadEmailSuffixes := ∅; sv_addr := "localhost:8080" |}.

Definition no_policy : PolicyTables := {| pt_roles := []; pt_permissions := []; pt_bindings := []; pt_egress := [] |}.

Definition scenario_db : Database := {|
  db_postgres := true;
  db_keyring := [{| kr_private := example_key; kr_public := example_public; kr_expiration := None |}];
  db_nodes := ∅; db_users := ∅; db_tokens := ∅; db_requests := []; db_banned_identities := ∅; db_routers := ∅;
  db_policy := no_policy; db_revoked_biscuits := ∅ |}.

Definition no_memory : Memory := 
  {| mem_bannedNodeRevIDs := ∅; mem_catalog := ∅; mem_published := []; mem_revokedBiscuits := ∅; mem_revokedPruneAt := 0; mem_oauthCodes := ∅ |}.

Definition scenario_world (db : Database) : World := {| w_clock := (100 * second)%Z; w_db := db; w_mem := no_memory |}.

Definition scenario_config (db : Database) : Config := {| cf_world := scenario_world db; cf_threads := [] |}.

Definition scenario_handler (auto : bool) : request → prog answer :=
  @handler ascii_case (one_rule_codec) scenario_tokens reference_text naive_engine plain_codec padded_digest text_keys
    subject_tokens subject_codec ascii_print no_urls no_loopback no_key_peer plain_addrs (scenario_server auto).

Definition scenario_history (auto : bool) : Config → list happening → Config :=
  @history ascii_case one_rule_codec scenario_tokens reference_text naive_engine plain_codec padded_digest text_keys
    subject_tokens subject_codec ascii_print no_urls no_loopback no_key_peer plain_addrs no_policy_codec (scenario_server auto).

(** A thread run to its end, alone. *)
Definition steps (i n : nat) : list happening := replicate n (Step i Proceed).

Definition answer_of (cf : Config) (i : nat) : option answer :=
  th ← cf_threads cf !! i;
  match th_prog th with Ret a => Some a | Do _ _ => None end.

(** ** Requests *)

Definition create_request (uses : Z) : BootstrapTokenCreateRequest :=
  {| bc_Role := RoleNode; bc_OwnerId := ""; bc_TtlHours := 1; bc_MaxUsages := uses; bc_Description := "";
     bc_AutonomousRecovery := false; bc_Ephemeral := false |}.

(** The token drawn from the bytes "x" is "mesh-bt-78". *)
Definition enroll_request (key : string) : BootstrapEnrollRequest :=
  {| bq_BootstrapToken := "mesh-bt-78"; bq_PeerId := "12D3" +:+ key; bq_PublicKey := key; bq_RequestedRole := RoleNode;
     bq_Labels := ∅; bq_ChallengeUnixMs := 100000;
     bq_ChallengeSignature := key +:+ EnrollChallenge ("12D3" +:+ key) 100000 |}.

Definition refresh_request (key : string) : TokenRefreshRequest :=
  {| tr_ChallengeSignature := key +:+ RefreshChallenge ("12D3" +:+ key) 100000; tr_ChallengeUnixMs := 100000;
     tr_PeerId := ""; tr_Jwt := "" |}.

(** ** Members at the border *)

(** A member that enrolled before, with the claims of a subject or by a token. *)
Definition member (key claims : string) : EnrolledNode :=
  {| en_PeerID := "12D3" +:+ key; en_PublicKey := key; en_Biscuit := "old"; en_Role := RoleNode;
     en_EnrollmentType := if bool_decide (claims = "") then "BOOTSTRAP" else "OIDC"; en_ClaimsJSON := claims; en_OwnerID := "";
     en_Labels := ∅; en_EnrolledAt := 0%Z; en_ExpiresAt := if bool_decide (claims = "") then zero_time else (500 * second)%Z;
     en_Banned := false; en_AutonomousRecovery := true; en_Ephemeral := false |}.

Definition members (claims : string) : Database :=
  set_nodes scenario_db {["12D3a" := member "a" claims; "12D3b" := member "b" claims]}.

(** The credentials of the members, by their place in the table. *)
Definition bearer_a : option (result string) := Some (Ok (token_bytes 0)).
Definition caller_bytes : string := token_bytes 7.

(** A challenge signed by "a" at the scenario's time. *)
Definition signed_by_a (challenge : string → Z → string) : Z * string := (100000%Z, "a" +:+ challenge "12D3a" 100000%Z).

Definition exchange_request : TokenExchangeRequest :=
  {| te_SubjectToken := "alice"; te_TaskRule := None; te_Seal := false;
     te_ChallengeUnixMs := 100000; te_ChallengeSignature := (signed_by_a TokenExchangeChallenge).2 |}.

Definition border_request : STSTokenRequest :=
  {| sq_Biscuit := caller_bytes; sq_Destination := "api.example.com"; sq_Audience := "";
     sq_ChallengeUnixMs := 100000; sq_ChallengeSignature := (signed_by_a STSTokenChallenge).2 |}.

(** The code drawn from the bytes "xyz" is "eHl6"; the challenge is that of the verifier "v". *)
Definition authorize_form : AuthorizeForm :=
  {| af_post := true; af_html := true; af_authorization := ""; af_client := "1.2.3.4"; af_response_type := "code"; af_client_id := "app";
     af_redirect_uri := ""; af_state := ""; af_code_challenge := @code_challenge padded_digest "v"; af_code_challenge_method := "S256";
     af_id_token := "alice"; af_id_token_hint := ""; af_actor_peer_id := "12D3a"; af_resource := []; af_scope := ""; af_options := "";
     af_tar := ""; af_approve := ""; af_post_approve := "true" |}.

Definition code_form : TokenForm :=
  {| tf_client := "1.2.3.4"; tf_bearer := None; tf_grant_type := GrantTypeAuthorizationCode; tf_code := "eHl6"; tf_code_verifier := "v";
     tf_client_id := "app"; tf_redirect_uri := ""; tf_seal := false; tf_subject_token := ""; tf_subject_biscuit := fail "none";
     tf_subject_token_type := ""; tf_expires_in := ""; tf_task_name := ""; tf_options := ""; tf_resource := []; tf_scope := "" |}.

(** One request, alone. *)
Definition border_run (rq : request) : Config := scenario_history false (scenario_config (members "")) (Arrive rq :: steps 0 40).

Definition trace_of (cf : Config) (i : nat) : list performed := from_option th_trace [] (cf_threads cf !! i).

Lemma scenario_answers auto db hs i rq a :
  let cf := scenario_history auto (scenario_config db) hs in
  (th_request <$> cf_threads cf !! i) = Some rq → answer_of cf i = Some a → answers (scenario_handler auto rq) (trace_of cf i) a.
Proof.
  cbv zeta. unfold trace_of, answer_of. set (cf := scenario_history _ _ _). destruct (cf_threads cf !! i) as [th|] eqn:Hi; [|done].
  intros [= <-]. cbn [mbind option_bind]. destruct (th_prog th) as [b|] eqn:Hp; [|done]. intros [= <-]. cbn [from_option].
  eapply history_answers; [exact Hi|exact Hp].
Qed.
