(* ===== verification/TokenUsage.v ===== *)
(** * Bootstrap tokens are spent before they admit

    In every history of concurrent requests, a bootstrap token admits at most
    as many enrollments as it was created for: a handler approves an enrollment
    only after it has spent a usage, and the store spends a usage only while
    one is left. *)

From S2P Require Import Prelude GoStrings Regex Names Biscuit NaiveEngine Facts DatalogText Grants Labels HTTPGrants PolicyRules Egress Base64 Tar Token TokenModel Identity Mint Middleware Directory Keyring Decimal PolicyStore Store StoreFacts ControlPlane PolicyConfig Enrollment Admin Members Sts OAuth Machine Traces Scenario.

(** ** What a call did *)

(** The token that a call spent a usage of. *)
Definition spend_of (e : performed) : option string :=
  match e with
  | existT c r =>
      match c as c return reply c → option string with
      | CConsumeBootstrapTokenUsage id _ => λ r, if is_ok r then Some id else None
      | _ => λ _, None
      end r
  end.

(** Whether a call recorded an approval, with the credential it issues. *)
Definition approves (c : call) : bool :=
  match c with
  | CCreateEnrollmentRequest req => bool_decide (er_Status req = ENROLLMENT_STATUS_APPROVED)
  | CUpdateEnrollmentRequest _ status _ _ | CResolveEnrollmentRequest _ status _ _ =>
      bool_decide (status = ENROLLMENT_STATUS_APPROVED)
  | _ => false
  end.

(** The token that a call saved. *)
Definition save_of (e : performed) : option BootstrapToken :=
  match e with
  | existT c r =>
      match c as c return reply c → option BootstrapToken with
      | CSaveBootstrapToken t => λ r, if is_ok r then Some t else None
      | _ => λ _, None
      end r
  end.

Definition approvals (tr : list performed) : list performed := filter (λ e, approves (projT1 e) = true) tr.

(** ** The monitor *)

Inductive phase := Fresh | Paid (id : string) | Settled (id : string).

Definition settle (ph : phase) : phase := match ph with Paid id => Settled id | _ => ph end.

Definition pay_permits (ph : phase) (c : call) : Prop :=
  match c with
  | CConsumeBootstrapTokenUsage _ _ => ph = Fresh
  | CSaveBootstrapToken t => bt_UsagesCount t = 0%Z ∧ (0 < bt_MaxUsages t)%Z
  | _ => approves c = true → ∃ id, ph = Paid id
  end.

Definition pay_after (ph : phase) (c : call) : reply c → phase :=
  match c as c return reply c → phase with
  | CConsumeBootstrapTokenUsage id _ => λ r, if is_ok r then Paid id else ph
  | c => λ _, if approves c then settle ph else ph
  end.

(** The trace that brings a handler to a phase. *)
Definition pay_trace (ph : phase) (tr : list performed) : Prop :=
  match ph with
  | Fresh => omap spend_of tr = [] ∧ approvals tr = []
  | Paid id => omap spend_of tr = [id] ∧ approvals tr = []
  | Settled id => omap spend_of tr = [id] ∧ length (approvals tr) = 1
  end.

Lemma pay_trace_snoc ph tr c r :
  pay_trace ph tr → pay_permits ph c → any_reply c r → pay_trace (pay_after ph c r) (tr ++ [existT c r]).
Proof.
  intros Htr Hc _.
  assert (Happ : approvals (tr ++ [existT c r]) = approvals tr ++ (if approves c then [existT c r] else [])).
  { unfold approvals. rewrite filter_app. f_equal. rewrite filter_cons, filter_nil. simpl. by destruct (approves c). }
  assert (Hsp : omap spend_of (tr ++ [existT c r]) = omap spend_of tr ++ from_option (λ x, [x]) [] (spend_of (existT c r))).
  { by rewrite omap_app. }
  assert (Hother : spend_of (existT c r) = None → pay_after ph c r = (if approves c then settle ph else ph) →
                   (approves c = true → ∃ id, ph = Paid id) →
                   pay_trace (pay_after ph c r) (tr ++ [existT c r])).
  { intros Hnone -> Hpaid. rewrite Hnone in Hsp. revert Happ Hpaid. destruct (approves c); intros Happ Hpaid; simpl in *.
    - destruct Hpaid as [id ->]; [done|]. destruct Htr as [Hs Ha]. simpl. by rewrite Hsp, Happ, Hs, Ha, (right_id_L [] (++)).
    - rewrite (right_id_L [] (++)) in Hsp. rewrite (right_id_L [] (++)) in Happ. destruct ph; simpl in *; by rewrite Hsp, Happ. }
  destruct c; try (apply Hother; [done|done|exact Hc]).
  - by apply Hother.
  - simpl in Hc. subst ph. destruct Htr as [Hs Ha]. simpl in *. rewrite Hs in Hsp. rewrite Ha in Happ.
    destruct r as [[]|e]; simpl in *; by rewrite Hsp, Happ.
Qed.

(** ** Every handler pays before it approves *)

Section handlers.
Context `{UC : UnicodeCase, TC : TARCodec, BT : BiscuitTokens, TX : BiscuitText, BE : BiscuitEngine, PC : PeerCodec, SH : SHA256,
          PK : PeerKeys, OL : OIDCLibrary, CC : ClaimsCodec, UP : UnicodePrint, UR : URLParser, LO : LoopbackIP, KP : KeyPeer, MA : Multiaddr, PO : PolicyCodec}.
Variable s : Server.

Local Abbreviation pays := (safe pay_permits any_reply pay_after).

(** One step, with the monitor's conditions solved. *)
Ltac pay_step := safe_step; cbn [pay_permits pay_after approves settle is_ok] in *; try done; try congruence.
Ltac pay := repeat pay_step; try done.

Lemma quiet_pays {A} (Q : phase → A → Prop) ph p : (∀ a, Q ph a) → quiet p → pays Q ph p.
Proof. intros HQ. apply safe_quiet; [|done]. intros c Hc. by destruct c. Qed.

Ltac pay_helper := apply quiet_pays; [intros ?|solve [auto with quiet]].
Ltac pay_all := repeat first [pay_helper; cbn beta | pay_step]; try done.

Lemma HandleRegister_pays req : pays done_with Fresh (HandleRegister s req).
Proof. unfold HandleRegister, register_mint. pay_all. Qed.

Lemma refresh_mint_pays n canonical claimsJSON expiresAt : pays done_with Fresh (refresh_mint s n canonical claimsJSON expiresAt).
Proof. unfold refresh_mint. pay_all. Qed.

Lemma refresh_record_pays req b canonical recovering : pays done_with Fresh (refresh_record s req b canonical recovering).
Proof. unfold refresh_record. pay_all; apply refresh_mint_pays. Qed.

Lemma HandleRefresh_pays bearer req : pays done_with Fresh (HandleRefresh s bearer req).
Proof. unfold HandleRefresh. pay_all; apply refresh_record_pays. Qed.

Lemma remint_pays Q existingReq tok :
  (∀ a ph, Q ph a) → pays Q Fresh (remintApprovedBootstrapBiscuit s existingReq tok).
Proof. intros HQ. unfold remintApprovedBootstrapBiscuit. pay_all; eauto. Qed.

Lemma enroll_auto_pays req enrollReq tok canonical privKey : pays done_with Fresh (enroll_auto s req enrollReq tok canonical privKey).
Proof. unfold enroll_auto. pay_all; eauto. Qed.

Lemma enroll_proved_pays req tok canonical : pays done_with Fresh (enroll_proved s req tok canonical).
Proof.
  unfold enroll_proved, enroll_existing, enroll_new. pay_all; try apply enroll_auto_pays; try by case_bool_decide.
  apply remint_pays. intros [[? ?]|?] ph; pay_all.
Qed.

Lemma HandleEnroll_pays req : pays done_with Fresh (HandleEnroll s req).
Proof. unfold HandleEnroll, enroll_token. pay_all; apply enroll_proved_pays. Qed.

Lemma create_token_pays req role owner : pays done_with Fresh (create_token req role owner).
Proof.
  unfold create_token. pay_all. split; [done|]. simpl. unfold at_least_one. destruct (Z.leb_spec (bc_MaxUsages req) 0); lia.
Qed.

Lemma approve_pays id enrollReq : pays done_with Fresh (approve s id enrollReq).
Proof. unfold approve. pay_all; eauto. Qed.

Lemma requireUser_pays auth k : (∀ u, pays done_with Fresh (k u)) → pays done_with Fresh (requireUser s auth k).
Proof. intros Hk. unfold requireUser. pay_all. Qed.

Lemma checkAdminAuth_pays auth k : pays done_with Fresh k → pays done_with Fresh (checkAdminAuth s auth k).
Proof. intros Hk. apply requireUser_pays. intros u. pay_all. Qed.

Lemma SetNodeBan_pays Q ph n banned : (∀ a, Q ph a) → pays Q ph (SetNodeBan n banned).
Proof. intros HQ. unfold SetNodeBan. pay_all. Qed.

Lemma find_node_pays peerID k : (∀ n, pays done_with Fresh (k n)) → pays done_with Fresh (find_node peerID k).
Proof. intros Hk. unfold find_node. pay_all. Qed.

Lemma ban_and_publish_pays n : pays done_with Fresh (ban_and_publish n).
Proof.
  unfold ban_and_publish, banNode. pay_all. apply SetNodeBan_pays. intros [?|?]; pay_all.
Qed.

Lemma handler_pays rq : pays done_with Fresh (handler s rq).
Proof.
  destruct rq; cbn [handler].
  - apply HandleRegister_pays.
  - apply HandleRefresh_pays.
  - apply HandleEnroll_pays.
  - pay_all.
  - apply checkAdminAuth_pays. pay_all. apply create_token_pays.
  - apply checkAdminAuth_pays. pay_all.
  - apply requireUser_pays. intros u. pay_all; apply create_token_pays.
  - apply checkAdminAuth_pays. pay_all. apply approve_pays.
  - apply checkAdminAuth_pays. pay_all. apply find_node_pays. intros n. apply ban_and_publish_pays.
  - apply requireUser_pays. intros u. pay_all. apply find_node_pays. intros n. pay_all. apply ban_and_publish_pays.
  - apply checkAdminAuth_pays. pay_all. apply find_node_pays. intros n. pay_all. apply SetNodeBan_pays.
    intros [?|?]; pay_all.
  - pay_all.
  - pay_all.
  - unfold gcStorage, gcExpiredNodes, gcEnrollmentRecords, DeleteSilentBootstrapNodes, DeleteStaleEnrollmentRequests, pruneCatalog. pay_all.
  - pay_all.
  - pay_all.
  - pay_all.
  - pay_all.
  - pay_all.
  - pay_all.
  - pay_all.
  - unfold_authorize. pay_all.
  - pay_all.
Qed.

(** ** Histories *)

Definition spent (id : string) (calls : list performed) : nat := length (filter (λ x, x = id) (omap spend_of calls)).

Definition saved_tokens (cf : Config) : list BootstrapToken := omap save_of (all_calls cf).

(** The threads that spent a usage of the token and recorded an approval. *)
Definition admitted_by (id : string) (cf : Config) : list Thread :=
  filter (λ th, id ∈ omap spend_of (th_trace th) ∧ approvals (th_trace th) ≠ []) (cf_threads cf).

Record usage_inv (tokens : gmap string BootstrapToken) (calls : list performed) : Prop := {
  ui_row id row : tokens !! id = Some row → ∃ tok, tok ∈ omap save_of calls ∧ bt_ID tok = id ∧
    bt_MaxUsages row = bt_MaxUsages tok ∧ bt_UsagesCount row = Z.of_nat (spent id calls);
  ui_unsaved id : (∀ tok, tok ∈ omap save_of calls → bt_ID tok ≠ id) → spent id calls = 0;
  ui_bound tok : tok ∈ omap save_of calls → (Z.of_nat (spent (bt_ID tok) calls) ≤ bt_MaxUsages tok)%Z;
}.

#[local] Instance usage_inv_perm tokens : Proper ((≡ₚ) ==> iff) (usage_inv tokens).
Proof.
  assert (Himp : ∀ calls calls', calls ≡ₚ calls' → usage_inv tokens calls → usage_inv tokens calls').
  { intros calls calls' Hp [Hrow Hun Hb].
    assert (Hs : ∀ id, spent id calls' = spent id calls) by (intros id; unfold spent; by rewrite Hp).
    assert (Ht : ∀ tok, tok ∈ omap save_of calls' ↔ tok ∈ omap save_of calls) by (intros tok; by rewrite Hp).
    split; intros *; rewrite ?Hs, ?Ht; [|intros Hno|apply Hb].
    - intros (tok & ? & ? & ? & ?)%Hrow. exists tok. by rewrite Ht.
    - apply Hun. intros tok Htok. apply Hno. by rewrite Ht. }
  intros calls calls' Hp. split; apply Himp; [done|by symmetry].
Qed.

Lemma usage_quiet tokens tokens' calls e :
  spend_of e = None → save_of e = None →
  (∀ id row, tokens' !! id = Some row → ∃ row', tokens !! id = Some row' ∧ bt_MaxUsages row = bt_MaxUsages row' ∧
                                          bt_UsagesCount row = bt_UsagesCount row') →
  usage_inv tokens calls → usage_inv tokens' (calls ++ [e]).
Proof.
  intros Hsp Hsv Htok [Hrow Hun Hb].
  assert (Hs : ∀ id, spent id (calls ++ [e]) = spent id calls).
  { intros id. unfold spent. rewrite omap_app. simpl. by rewrite Hsp, (right_id_L [] (++)). }
  assert (Ht : omap save_of (calls ++ [e]) = omap save_of calls).
  { rewrite omap_app. simpl. by rewrite Hsv, (right_id_L [] (++)). }
  split; intros *; rewrite ?Hs, ?Ht; auto.
  intros (row' & Hrow' & -> & ->)%Htok. by apply Hrow.
Qed.

Lemma spent_snoc id calls e id' : spend_of e = Some id → spent id' (calls ++ [e]) = spent id' calls + (if bool_decide (id = id') then 1 else 0).
Proof.
  intros He. unfold spent. rewrite omap_app, filter_app, length_app. f_equal. simpl. rewrite He.
  rewrite filter_cons, filter_nil. by repeat case_decide; case_bool_decide.
Qed.

(** The tokens after a call, when the call is not one of the four that write them. *)
Definition writes_tokens (c : call) : bool :=
  match c with
  | CSaveBootstrapToken _ | CConsumeBootstrapTokenUsage _ _ | CRevokeBootstrapToken _ | CDeleteExpiredBootstrapTokens _ => true
  | _ => false
  end.

Lemma db_tokens_write w (r : result Database) :
  (∀ db, r = Ok db → db_tokens db = db_tokens (w_db w)) → db_tokens (w_db (write w r).2) = db_tokens (w_db w).
Proof. intros Hr. destruct r as [db|e]; [|done]. by apply Hr. Qed.

Lemma answered_tokens w drawn c :
  writes_tokens c = false → db_tokens (w_db (answered w drawn c).2) = db_tokens (w_db w).
Proof.
  intros Hc. destruct c; try done; cbn [answered].
  - apply db_tokens_write. intros db Hdb%EnrollNode_frame. by subst.
  - apply db_tokens_write. intros db (n & _ & ->)%SetNodeAndIdentityBanned_frame. by case_bool_decide.
  - apply db_tokens_write. intros db (n & _ & ->)%update_node_frame. done.
  - apply db_tokens_write. unfold CreateEnrollmentRequest. intros db Hdb. by inv_ok.
  - apply db_tokens_write. unfold ResolveEnrollmentRequest. intros db Hdb. case_match; [|done]. by injection Hdb as <-.
  - apply db_tokens_write. intros db Hdb. by inv_ok.
Qed.

Lemma run_call_tokens w ch c :
  writes_tokens c = false → db_tokens (w_db (run_call w ch c).2) = db_tokens (w_db w).
Proof.
  intros Hc. unfold run_call. destruct ch; try by apply answered_tokens.
  destruct (broken c); [done|]. by apply answered_tokens.
Qed.

(** A call that writes tokens either fails and changes nothing or is answered. *)
Lemma run_call_store w ch c :
  writes_tokens c = true → ((run_call w ch c) = answered w "" c) ∨ (broken c = Some (run_call w ch c).1 ∧ (run_call w ch c).2 = w).
Proof. intros Hc. unfold run_call. destruct ch; destruct c; try done; auto. Qed.

Local Abbreviation tokens_of w := (db_tokens (w_db w)).

Lemma usage_consume w calls id at_ db :
  NoDup (bt_ID <$> omap save_of calls) →
  ConsumeBootstrapTokenUsage id at_ (w_db w) = Ok db →
  usage_inv (tokens_of w) calls →
  usage_inv (db_tokens db) (calls ++ [existT (CConsumeBootstrapTokenUsage id at_) (Ok tt)]).
Proof.
  unfold ConsumeBootstrapTokenUsage. intros Hnd Hdb [Hrow Hun Hb]. destruct (db_tokens (w_db w) !! id) as [t|] eqn:Ht; [|done].
  destruct (_ && _ && _) eqn:Hg; [|done]. injection Hdb as <-. bool_split.
  destruct (Hrow id t Ht) as (tok & Htok & <- & Hmax & Hcount).
  set (e := existT _ _). assert (He : spend_of e = Some (bt_ID tok)) by reflexivity.
  assert (Hsv : omap save_of (calls ++ [e]) = omap save_of calls) by (rewrite omap_app; simpl; apply (right_id_L [] (++))).
  split; intros *; rewrite ?Hsv; rewrite ?(spent_snoc _ _ _ _ He).
  - simpl. rewrite lookup_insert_Some. intros [[<- <-]|[Hne Hlk]].
    + exists tok. simpl. rewrite bool_decide_true by done. split_and!; [done..|]. rewrite Hcount. lia.
    + rewrite bool_decide_false, Nat.add_0_r by done. by apply Hrow.
  - intros Hno. rewrite bool_decide_false by (by apply Hno). rewrite Hun; done.
  - intros Htok'. case_bool_decide as Hid; [|rewrite Nat.add_0_r; by apply Hb].
    assert (tok0 = tok) as ->; [|rewrite <-Hmax; lia].
    apply list_elem_of_lookup in Htok as [i Hi]. apply list_elem_of_lookup in Htok' as [j Hj].
    assert (i = j) as ->; [|congruence].
    eapply (NoDup_lookup (bt_ID <$> omap save_of calls)); [done|by rewrite list_lookup_fmap, Hi|].
    by rewrite list_lookup_fmap, Hj, Hid.
Qed.

Lemma usage_save w calls t db :
  NoDup (bt_ID <$> omap save_of calls ++ [t]) → bt_UsagesCount t = 0%Z → (0 < bt_MaxUsages t)%Z →
  SaveBootstrapToken t (w_db w) = Ok db →
  usage_inv (tokens_of w) calls →
  usage_inv (db_tokens db) (calls ++ [existT (CSaveBootstrapToken t) (Ok tt)]).
Proof.
  intros Hnd Hzero Hpos Hdb [Hrow Hun Hb].
  assert (Hnew : ∀ tok, tok ∈ omap save_of calls → bt_ID tok ≠ bt_ID t).
  { intros tok Htok Heq. rewrite fmap_app in Hnd. apply NoDup_app in Hnd as (_ & Hd & _).
    apply (Hd (bt_ID tok)); [by apply list_elem_of_fmap_2|]. rewrite Heq. by apply list_elem_of_singleton. }
  set (e := existT _ _). assert (He : spend_of e = None) by done.
  assert (Hs : ∀ id, spent id (calls ++ [e]) = spent id calls).
  { intros id. unfold spent. rewrite omap_app. simpl. by rewrite (right_id_L [] (++)). }
  assert (Hsv : omap save_of (calls ++ [e]) = omap save_of calls ++ [t]) by (by rewrite omap_app).
  unfold SaveBootstrapToken in Hdb. case_bool_decide as Hin.
  { destruct Hin as [row Hin]. destruct (Hrow _ _ Hin) as (tok & Htok & Hid & _). by destruct (Hnew tok Htok). }
  inv_ok. split; intros *; rewrite ?Hs, ?Hsv.
  - simpl. rewrite lookup_insert_Some. setoid_rewrite elem_of_app. intros [[<- <-]|[Hne Hlk]].
    + exists t. simpl. rewrite list_elem_of_singleton. split_and!; auto. by rewrite (Hun _ Hnew).
    + destruct (Hrow _ _ Hlk) as (tok & ? & ? & ? & ?). eauto 10.
  - intros Hno. apply Hun. intros tok Htok. apply Hno. rewrite elem_of_app. by left.
  - rewrite elem_of_app, list_elem_of_singleton. intros [Htok| ->]; [by apply Hb|]. rewrite (Hun _ Hnew). lia.
Qed.

Lemma usage_call w ch ph c calls :
  pay_permits ph c → NoDup (bt_ID <$> omap save_of (calls ++ [existT c (run_call w ch c).1])) →
  usage_inv (tokens_of w) calls →
  usage_inv (tokens_of (run_call w ch c).2) (calls ++ [existT c (run_call w ch c).1]).
Proof.
  intros Hc Hnd Hinv. destruct (writes_tokens c) eqn:Hw; cycle 1.
  { apply (usage_quiet (tokens_of w)); [by destruct c|by destruct c| |done]. rewrite run_call_tokens by done. eauto. }
  destruct (run_call_store w ch c Hw) as [Heq|[Hbr Heq]]; rewrite Heq; cycle 1.
  { apply (usage_quiet (tokens_of w)); [| |eauto|done];
      destruct c; try done; simpl in *; injection Hbr as <-; done. }
  rewrite Heq in Hnd. destruct c; try done; simpl in *.
  - destruct (SaveBootstrapToken token (w_db w)) as [db|er] eqn:Hdb; simpl in *.
    + rewrite omap_app in Hnd. destruct Hc. by eapply usage_save.
    + apply (usage_quiet (tokens_of w)); eauto.
  - destruct (ConsumeBootstrapTokenUsage id now (w_db w)) as [db|er] eqn:Hdb; simpl in *.
    + apply (usage_consume w); [|done..]. rewrite omap_app in Hnd. simpl in Hnd. by rewrite (right_id_L [] (++)) in Hnd.
    + apply (usage_quiet (tokens_of w)); eauto.
  - apply (usage_quiet (tokens_of w)); try done. unfold RevokeBootstrapToken.
    destruct (db_tokens (w_db w) !! id) as [t|] eqn:Ht; simpl; [|eauto]. destruct (IsRevoked t); simpl; [eauto|].
    intros id' row. rewrite lookup_insert_Some. intros [[<- <-]|[_ ?]]; eauto.
  - apply (usage_quiet (tokens_of w)); try done. simpl. intros id row [Hrow _]%map_lookup_filter_Some. eauto.
Qed.

Lemma pay_laws : monitor_laws pay_permits any_reply pay_after (λ _, True) (λ _ _, pay_trace).
Proof. split; try done. intros _ _. apply pay_trace_snoc. Qed.

Lemma pay_history w hs i th :
  cf_threads (history s {| cf_world := w; cf_threads := [] |} hs) !! i = Some th →
  ∃ ph, pay_trace ph (th_trace th) ∧ safe pay_permits any_reply pay_after done_with ph (th_prog th).
Proof.
  intros Hi.
  destruct (history_ok s pay_permits any_reply pay_after (λ _, True) (λ _ _, pay_trace) 0 pay_laws
              {| cf_world := w; cf_threads := [] |} hs) as (_ & _ & Hth); [| |by apply (Hth i)].
  - apply Forall_forall. intros [rq| | |] _; try done. exists Fresh. split; [done|]. apply handler_pays.
  - split_and!; [done|done|]. intros j th' Hj. simpl in Hj. by rewrite lookup_nil in Hj.
Qed.

Lemma usage_history w hs :
  let cf := history s {| cf_world := w; cf_threads := [] |} hs in
  tokens_of w = ∅ → NoDup (bt_ID <$> saved_tokens cf) → usage_inv (tokens_of (cf_world cf)) (all_calls cf).
Proof.
  intros cf Hw. subst cf. induction hs as [|h hs IH] using rev_ind.
  { intros _. simpl. rewrite Hw. split; intros *; simpl; [by rewrite lookup_empty|done|by intros ?%elem_of_nil]. }
  unfold history in *. rewrite foldl_snoc. set (cf := foldl _ _ _) in *. unfold saved_tokens.
  destruct (step_cases s cf h) as [[Hp [Ht _]]|(th & c & k & ch & Hth & Hprog & Hw' & Hp)].
  - rewrite Hp, Ht. apply IH.
  - apply list_elem_of_lookup in Hth as [i Hi]. destruct (pay_history w hs i th Hi) as (ph & _ & Hsafe). rewrite Hprog in Hsafe.
    assert (Hc : pay_permits ph c) by (by inversion Hsafe).
    rewrite Hp, Hw'. intros Hnd. apply (usage_call _ _ ph); [done|done|]. apply IH.
    unfold saved_tokens. rewrite omap_app, fmap_app in Hnd. by apply NoDup_app in Hnd as (? & _ & _).
Qed.

Lemma admitted_spent id cf : length (admitted_by id cf) ≤ spent id (all_calls cf).
Proof.
  unfold admitted_by, all_calls, spent. induction (cf_threads cf) as [|th ths IH]; [done|].
  rewrite filter_cons, bind_cons, omap_app, filter_app, length_app.
  case_decide as Hth; [|lia]. destruct Hth as [Hin _]. rewrite length_cons.
  assert (length (filter (λ x, x = id) (omap spend_of (th_trace th))) ≠ 0); [|lia].
  intros Hz%nil_length_inv. assert (Hf : id ∈ filter (λ x, x = id) (omap spend_of (th_trace th))) by (by apply list_elem_of_filter).
  rewrite Hz in Hf. by apply elem_of_nil in Hf.
Qed.

Lemma pay_trace_counts ph tr : pay_trace ph tr → length (approvals tr) ≤ length (omap spend_of tr) ≤ 1.
Proof. destruct ph; simpl; intros [-> Ha]; rewrite ?Ha; simpl; lia. Qed.

(** C3: A bootstrap token admits at most as many enrollments as it was created
    for, in every history of concurrent requests over one store: any number of
    handlers of any endpoint, interleaved between their calls, any of which may
    fail.  Each handler records at most one approval and only after it has spent
    a usage of a token, and no more handlers admit a member on a token than the
    token's [max_usages].  (The store starts without tokens, and no two tokens
    drawn have the same id.) *)
Theorem token_usage_bound w hs tok :
  let cf := history s {| cf_world := w; cf_threads := [] |} hs in
  db_tokens (w_db w) = ∅ → NoDup (bt_ID <$> saved_tokens cf) → tok ∈ saved_tokens cf →
  Forall (λ th, length (approvals (th_trace th)) ≤ length (omap spend_of (th_trace th)) ≤ 1) (cf_threads cf) ∧
  (Z.of_nat (length (admitted_by (bt_ID tok) cf)) ≤ bt_MaxUsages tok)%Z.
Proof.
  intros cf Hw Hnd Htok. split.
  - apply Forall_lookup. intros i th (ph & Hph & _)%pay_history. by eapply pay_trace_counts.
  - pose proof (usage_history w hs Hw Hnd) as Hinv. pose proof (ui_bound _ _ Hinv tok Htok) as Hb.
    pose proof (admitted_spent (bt_ID tok) cf). fold cf in Hb. lia.
Qed.
End handlers.

(** ** A token of one usage and two peers that race for it *)

Definition race_for_token : list happening :=
  [Arrive (RqAdminToken "Bearer root" (create_request 1)); Step 0 Proceed; Step 0 (Draw "x")] ++ steps 0 3 ++
  [Arrive (RqEnroll (enroll_request "a")); Arrive (RqEnroll (enroll_request "b"))] ++
  concat (replicate 30 [Step 1 (Draw "u1"); Step 2 (Draw "u2")]).

Definition raced : Config := scenario_history true (scenario_config scenario_db) race_for_token.

Lemma token_usage_bound_witness :
  (length (cf_threads raced) = 3 ∧ length (saved_tokens raced) = 1) ∧
  ∀ tok, tok ∈ saved_tokens raced → (Z.of_nat (length (admitted_by (bt_ID tok) raced)) ≤ bt_MaxUsages tok)%Z.
Proof.
  split; [by vm_compute|]. unfold raced, scenario_history, scenario_config. intros tok Htok.
  apply (token_usage_bound (UC := ascii_case) (TC := one_rule_codec) (BT := scenario_tokens) (TX := reference_text)
           (BE := naive_engine) (PC := plain_codec) (SH := padded_digest) (PK := text_keys) (OL := subject_tokens)
           (CC := subject_codec) (UP := ascii_print) (UR := no_urls) (LO := no_loopback) (KP := no_key_peer) (MA := plain_addrs) (PO := no_policy_codec)
           (scenario_server true) (scenario_world scenario_db) race_for_token tok).
  - reflexivity.
  - apply (bool_decide_unpack _). by vm_compute.
  - exact Htok.
Defined.
