(* ===== verification/StsFacts.v ===== *)
(** * What the control plane checks before it answers a member

    The endpoints for admitted members and the exchanges of tokens, along the
    trace of their calls: what the store answered, what the clock said, and what
    was verified with it.  A trace is what one request saw, whatever other
    requests did between its calls. *)

From S2P Require Import Prelude GoStrings Regex Names Biscuit NaiveEngine Facts DatalogText Grants Labels HTTPGrants PolicyRules Egress Base64 Tar Token TokenModel Identity Mint Middleware Directory Keyring Decimal PolicyStore Store StoreFacts ControlPlane PolicyConfig Enrollment Admin Members Sts OAuth Machine Traces Scenario.

(** ** The member that asks *)

(** A call that could not tell who asks: the store did not answer. *)
Definition lookup_failed (e : performed) : bool :=
  match e with
  | existT c r =>
      match c as c return reply c → bool with
      | CGetAllValidPublicKeys => λ r, negb (is_ok r)
      | CGetNode _ => λ r, match r with Ok _ => false | Err e => negb (errors_Is e ErrNotFound) end
      | _ => λ _, false
      end r
  end.

Definition store_failed (tr : list performed) : bool := existsb lookup_failed tr.

(** A call that an answer needs and that the store did not answer. *)
Definition read_failed (e : performed) : bool :=
  lookup_failed e ||
  match e with
  | existT c r =>
      match c as c return reply c → bool with
      | CGetMeshPolicy => λ r, negb (is_ok (mesh_policy_or_empty r))
      | CGetEgressDestinations => λ r, negb (is_ok (egress_or_empty r))
      | CListBannedPeerIDs => λ r, negb (is_ok r)
      | _ => λ _, false
      end r
  end.

Lemma store_failed_app tr1 tr2 : store_failed (tr1 ++ tr2) = store_failed tr1 || store_failed tr2.
Proof. apply existsb_app. Qed.

Lemma lookup_read tr : existsb read_failed tr = false → store_failed tr = false.
Proof.
  induction tr as [|e tr IH]; [done|]. cbn. unfold read_failed at 1. intros [[-> _]%orb_false_elim H]%orb_false_elim. by apply IH.
Qed.

Section facts.
Context `{UC : UnicodeCase, TC : TARCodec, BT : BiscuitTokens, TX : BiscuitText, BE : BiscuitEngine, PC : PeerCodec, SH : SHA256,
          PK : PeerKeys, OL : OIDCLibrary, CC : ClaimsCodec, UP : UnicodePrint, UR : URLParser, LO : LoopbackIP, KP : KeyPeer, MA : Multiaddr}.
Variable s : Server.

(** The credential verifies, under keys that were valid, to a peer whose record
    is admitted. *)
Definition credentialed (bearer : option (result string)) (tr : list performed) (n : EnrolledNode) : Prop :=
  ∃ raw keys t p t', bearer = Some (Ok raw) ∧ replied tr CGetAllValidPublicKeys (Ok keys) ∧ replied tr Now t ∧
    VerifyAndExtractPeerID t keys raw = Ok p ∧ replied tr (CGetNode p) (Ok n) ∧ replied tr Now t' ∧ CheckAdmission t' n = Ok tt.

(** The node signed the challenge, and not long ago. *)
Definition challenged (tr : list performed) (n : EnrolledNode) (challenge : string) (ts : Z) (sig : string) : Prop :=
  ∃ pub t, UnmarshalPublicKey (en_PublicKey n) = Ok pub ∧ replied tr Now t ∧ verifyFreshChallenge t pub challenge ts sig = Ok tt.

Lemma credentialed_mono bearer tr tr' n : tr ⊆ tr' → credentialed bearer tr n → credentialed bearer tr' n.
Proof. intros Hsub (raw & keys & t & p & t' & ? & ? & ? & ? & ? & ? & ?). exists raw, keys, t, p, t'. unfold replied in *. auto 10. Qed.

Lemma challenged_mono tr tr' n challenge ts sig : tr ⊆ tr' → challenged tr n challenge ts sig → challenged tr' n challenge ts sig.
Proof. intros Hsub (pub & t & ? & ? & ?). exists pub, t. unfold replied in *. auto. Qed.

Lemma admittedNode_answers bearer tr r :
  answers (admittedNode bearer) tr r →
  is_ok r = negb (store_failed tr) ∧ (is_ok r = true → existsb read_failed tr = false) ∧ (∀ n, r = Ok (Some n) → credentialed bearer tr n).
Proof.
  unfold admittedNode. intros H. repeat along H; simplify_eq;
    unfold store_failed, read_failed; cbn [existsb lookup_failed is_ok negb orb andb]; rewrite ?orb_false_r;
    try (destruct (errors_Is _ _) eqn:?); (split_and!; [done|done|intros n Hn; try done]).
  destruct (CheckAdmission _ _) as [[]|] eqn:Ha; [|done]. injection Hn as <-. do 5 eexists. split_and!; [done|seen| |done|seen| |done]; seen.
Qed.

(** The credential is not that of an admitted member: there is none, it does not
    verify under the valid keys, its peer has no record, or the record is not
    admitted. *)
Inductive unaccepted (bearer : option (result string)) (tr : list performed) : Prop :=
| no_credential : (∀ raw, bearer ≠ Some (Ok raw)) → unaccepted bearer tr
| unverified raw keys t e : bearer = Some (Ok raw) → replied tr CGetAllValidPublicKeys (Ok keys) → replied tr Now t →
    VerifyAndExtractPeerID t keys raw = Err e → unaccepted bearer tr
| unknown raw keys t p e : bearer = Some (Ok raw) → replied tr CGetAllValidPublicKeys (Ok keys) → replied tr Now t →
    VerifyAndExtractPeerID t keys raw = Ok p → replied tr (CGetNode p) (Err e) → errors_Is e ErrNotFound = true → unaccepted bearer tr
| not_admitted raw keys t p n t' e : bearer = Some (Ok raw) → replied tr CGetAllValidPublicKeys (Ok keys) → replied tr Now t →
    VerifyAndExtractPeerID t keys raw = Ok p → replied tr (CGetNode p) (Ok n) → replied tr Now t' → CheckAdmission t' n = Err e →
    unaccepted bearer tr.

Lemma admittedNode_refuses bearer tr : answers (admittedNode bearer) tr (Ok None) → unaccepted bearer tr.
Proof.
  unfold admittedNode. intros H. repeat along H; simplify_eq; try (by apply no_credential); try case_match; simplify_eq.
  - destruct (CheckAdmission _ _) eqn:Ha; [done|]. eapply not_admitted; [done|seen|..|exact Ha]; [|done|seen..]; seen.
  - eapply unknown; [done|seen|seen|done|seen|done].
  - eapply unverified; [done|seen|seen|done].
Qed.

(** What the gate of the members' endpoints lets through. *)
Definition let_in (bearer : option (result string)) (headers : option (Z * string)) (challengeFn : string → Z → string)
    (tr : list performed) (n : EnrolledNode) : Prop :=
  ∃ ts sig, headers = Some (ts, sig) ∧ credentialed bearer tr n ∧ challenged tr n (challengeFn (en_PeerID n) ts) ts sig.

Lemma let_in_mono bearer headers fn tr tr' n : tr ⊆ tr' → let_in bearer headers fn tr n → let_in bearer headers fn tr' n.
Proof. intros Hsub (ts & sig & ? & ? & ?). exists ts, sig. eauto using credentialed_mono, challenged_mono. Qed.

(** Why the gate keeps a caller out: its credential is not accepted, or it is
    and the challenge is missing or does not verify under the record's key. *)
Inductive kept_out (bearer : option (result string)) (headers : option (Z * string)) (challengeFn : string → Z → string)
    (tr : list performed) : Prop :=
| out_credential : unaccepted bearer tr → kept_out bearer headers challengeFn tr
| out_unsigned n : credentialed bearer tr n → headers = None → kept_out bearer headers challengeFn tr
| out_unkeyed n e : credentialed bearer tr n → UnmarshalPublicKey (en_PublicKey n) = Err e → kept_out bearer headers challengeFn tr
| out_challenge n ts sig pub t e : credentialed bearer tr n → headers = Some (ts, sig) → UnmarshalPublicKey (en_PublicKey n) = Ok pub →
    replied tr Now t → verifyFreshChallenge t pub (challengeFn (en_PeerID n) ts) ts sig = Err e → kept_out bearer headers challengeFn tr.

Lemma gate_answers bearer headers fn tr g :
  answers (admittedNodeWithChallenge bearer headers fn) tr g →
  match g with
  | inl (HttpError 503 _) => store_failed tr = true
  | inl (HttpError 401 _) => existsb read_failed tr = false ∧ kept_out bearer headers fn tr
  | inl _ => False
  | inr n => existsb read_failed tr = false ∧ let_in bearer headers fn tr n
  end.
Proof.
  unfold admittedNodeWithChallenge. intros (tr1 & tr2 & r & -> & Ha & H)%answers_bind.
  pose proof (admittedNode_answers _ _ _ Ha) as (Hok & Hread & Hn). rewrite store_failed_app, existsb_app.
  repeat along H; simplify_eq; cbn in Hok; try (rewrite Hread by done; cbn); try rewrite (right_id_L [] (++)).
  - match goal with |- context [tr1 ++ ?l] => pose proof (credentialed_mono _ tr1 (tr1 ++ l) _ ltac:(set_solver) (Hn _ eq_refl)) as Hc end.
    destruct (verifyFreshChallenge _ _ _ _ _) as [[]|] eqn:Hv; (split; [done|]).
    + exists z, s0. split_and!; [done|done|]. do 2 eexists. split_and!; [done| |done]; seen.
    + eapply out_challenge; [done..| |done]. seen.
  - split; [done|]. eauto using out_unkeyed.
  - split; [done|]. eauto using out_unsigned.
  - split; [done|]. eauto using out_credential, admittedNode_refuses.
  - by destruct (store_failed tr1).
Qed.
(** *** The endpoints *)

(** The endpoints an admitted member reads, with their challenge. *)
Definition member_endpoint (rq : request) : option (option (result string) * option (Z * string) * (string → Z → string)) :=
  match rq with
  | RqPolicies bearer headers => Some (bearer, headers, PoliciesChallenge)
  | RqEgress bearer headers => Some (bearer, headers, EgressChallenge)
  | RqRevocations bearer headers => Some (bearer, headers, RevocationsChallenge)
  | _ => None
  end.

(** The roles of the record cannot be told from its claims. *)
Definition unreadable (n : EnrolledNode) : Prop := ∃ bindings e, nodeRoles n bindings = Err e.

(** The table of revocations was asked for, and what it answered is listed; a
    table that could not be read is listed as if it were empty. *)
Definition table_listed (tr : list performed) (ids : list string) : Prop :=
  ∃ now table, replied tr Now now ∧ replied tr (CListRevokedBiscuits now) table ∧
    ∀ revoked id, table = Ok revoked → id ∈ revoked → id ∈ ids.

Lemma table_listed_mono tr tr' ids : tr ⊆ tr' → table_listed tr ids → table_listed tr' ids.
Proof. intros Hsub (now & table & ? & ? & ?). exists now, table. unfold replied in *. eauto. Qed.

(** What the answer of an endpoint says of the calls: 503 when the store could
    not tell who asks, 401 when it could and the caller is kept out, 500 when
    the caller is let in and a read failed, and otherwise every read that the
    answer needs was answered. *)
Definition status_of (tr : list performed) (refused : Prop) (admitted : EnrolledNode → Prop) (a : answer) : Prop :=
  match a with
  | HttpError 503 _ => store_failed tr = true
  | HttpError 401 _ => existsb read_failed tr = false ∧ refused
  | HttpError 500 _ => ∃ n, admitted n ∧ (existsb read_failed tr = true ∨ unreadable n)
  | HttpError _ _ => False
  | Revocations ids banned => existsb read_failed tr = false ∧ (∃ n, admitted n) ∧ table_listed tr ids ∧ replied tr CListBannedPeerIDs (Ok banned)
  | _ => existsb read_failed tr = false ∧ ∃ n, admitted n
  end.

Lemma behind_gate bearer headers fn k tr a :
  answers (or_return (admittedNodeWithChallenge bearer headers fn) k) tr a →
  (∀ tr1 tr2 n, let_in bearer headers fn (tr1 ++ tr2) n → existsb read_failed tr1 = false → answers (k n) tr2 a →
     status_of (tr1 ++ tr2) (kept_out bearer headers fn (tr1 ++ tr2)) (let_in bearer headers fn (tr1 ++ tr2)) a) →
  status_of tr (kept_out bearer headers fn tr) (let_in bearer headers fn tr) a.
Proof.
  intros (tr1 & tr2 & g & -> & Hg%gate_answers & H)%answers_bind Hk. destruct g as [b|n].
  - along H. rewrite (right_id_L [] (++)). unfold status_of. repeat case_match; done.
  - destruct Hg as [Hr Hin]. apply (Hk tr1 tr2 n); [|done..]. eapply let_in_mono; [|done]. set_solver.
Qed.

Lemma missing_answers missing set tr r :
  answers (missing_revocations missing set) tr r → is_ok r = negb (existsb read_failed tr) ∧ ∀ found, r = Ok found → set ⊆ found.
Proof.
  revert set tr. induction missing as [|p missing IH]; intros set tr H; cbn [missing_revocations] in H.
  { along H. split; [done|]. by intros found [= <-]. }
  repeat along H; simplify_eq; cbn [existsb]; unfold read_failed at 1; cbn [lookup_failed orb].
  - destruct (IH _ _ H) as [Hok Hsub]. split; [done|]. intros found Hf. specialize (Hsub found Hf). case_bool_decide; set_solver.
  - rewrite Heqb. cbn. by apply IH.
  - rewrite Heqb. done.
Qed.

Lemma listRevoked_answers banned tr r :
  answers (listRevokedBiscuitIDs banned) tr r → is_ok r = negb (existsb read_failed tr) ∧ ∀ ids, r = Ok ids → table_listed tr ids.
Proof.
  unfold listRevokedBiscuitIDs. intros H. do 4 along H. apply answers_bind in H as (tr1 & tr2 & found & -> & [Hok Hsub]%missing_answers & H).
  along H. cbn [existsb read_failed lookup_failed orb]. rewrite (right_id_L [] (++)), <-Hok. destruct found as [found|]; [|done].
  split; [done|]. intros ids [= <-]. do 2 eexists. split_and!; [seen|seen|]. intros revoked id Ht Hid. specialize (Hsub found eq_refl).
  unfold sort_Strings. rewrite merge_sort_Permutation, elem_of_elements. rewrite Ht in Hsub. set_solver.
Qed.

(** The failed reads of a trace that is known to its end. *)
Ltac settle :=
  unfold status_of, internalError; rewrite ?existsb_app; cbn [existsb read_failed lookup_failed is_ok negb orb];
  repeat match goal with
  | H : existsb read_failed _ = _ |- _ => rewrite H; clear H
  | H : mesh_policy_or_empty _ = _ |- _ => rewrite H; clear H
  | H : egress_or_empty _ = _ |- _ => rewrite H; clear H
  end; cbn [is_ok negb orb]; eauto.

(** C35: The endpoints that the members read tell failures apart: 503 only when the
    store could not tell who asks (its keys or the record could not be read, and
    not because there is no record), 401 only when the store answered and the
    caller is kept out for a reason of its own (no credential, one that does not
    verify under the valid keys, a peer without a record or whose record is not
    admitted, no challenge, or one that does not verify under the record's key),
    500 only for a caller that was let in, when the policy, the destinations, the
    bans or a banned record could not be read or the claims of its record do not
    parse; and an answer with content means that every such read was answered and
    the caller is an admitted member that signed the endpoint's own challenge.
    The table of revocations is the exception: /revocations lists all that the
    table answered and the bans, but a table that could not be read is listed as
    an empty one and the answer is no failure. *)
Theorem member_errors rq bearer headers challengeFn tr a :
  member_endpoint rq = Some (bearer, headers, challengeFn) → answers (handler s rq) tr a →
  status_of tr (kept_out bearer headers challengeFn tr) (let_in bearer headers challengeFn tr) a.
Proof.
  destruct rq; cbn [member_endpoint handler]; try done; intros [= <- <- <-] H; eapply behind_gate; try exact H;
    clear H; intros tr1 tr2 n Hin Hr1 H; cbn beta in H.
  - repeat along H; simplify_eq; settle.
  - repeat along H; simplify_eq; settle. exists n. split; [done|]. right. unfold unreadable. eauto.
  - along H. along H; [|repeat along H; simplify_eq; settle].
    apply answers_bind in H as (tr2 & tr3 & ids & -> & [Hl Ht]%listRevoked_answers & H).
    destruct ids as [ids|e]; cbn [internal] in H; along H; rewrite (right_id_L [] (++)) in *; cbn [is_ok] in Hl; symmetry in Hl.
    + apply negb_true_iff in Hl. settle. split_and!; [done|by exists n| |seen].
      eapply table_listed_mono; [|by apply Ht]. set_solver.
    + apply negb_false_iff in Hl. settle.
Qed.
(** ** Delegated credentials *)

(** The ID token verified, the identity it names is not banned, and the
    credential was minted by the current key with the roles the policy binds to
    the identity, to expire with the ID token at the latest. *)
Definition delegated (tr : list performed) (jwt actor : string) (rule : option TaskAuthorizationRule) (seal : bool) (ttl : Z)
    (workload : bool) (b : string) (e : time) (principal : string) (roles : list string) : Prop :=
  ∃ t raw token priv pub policy policyRoles bindings now exp,
    let claims := drop_unverified_email raw in
    replied tr Now t ∧ VerifyJWT t jwt (op_AllowedAudiences (sv_config s)) (sv_providers s) = Ok (raw, token) ∧
    (workload = true ∨ isWorkloadClaims s raw = false) ∧
    (oidcIdentityKey (Some claims) ≠ "" → replied tr (CIsIdentityBanned (oidcIdentityKey (Some claims))) (Ok false)) ∧
    replied tr CGetCurrentKey (Ok (priv, pub)) ∧ replied tr CGetMeshPolicy policy ∧
    mesh_policy_or_empty policy = Ok (policyRoles, bindings) ∧ roles = delegated_roles claims bindings ∧
    principal = subject_principal claims ∧ replied tr Now now ∧ (exp ≤ now + delegated_ttl s ttl)%Z ∧
    (IsZero (it_Expiry token) = false → (exp ≤ it_Expiry token)%Z) ∧
    MintDelegatedBiscuitToken priv (Some claims) actor exp roles policyRoles rule seal = Ok b ∧
    e = match rule with Some r => EffectiveTARExpiration exp [Some r] | None => exp end.

Lemma delegated_mono tr tr' jwt actor rule seal ttl workload b e principal roles :
  tr ⊆ tr' → delegated tr jwt actor rule seal ttl workload b e principal roles → delegated tr' jwt actor rule seal ttl workload b e principal roles.
Proof.
  intros Hsub (t & raw & token & priv & pub & policy & policyRoles & bindings & now & exp & H).
  exists t, raw, token, priv, pub, policy, policyRoles, bindings, now, exp. unfold replied in *. cbv zeta in *. intuition auto.
Qed.

Lemma delegated_ttl_le ttl : (delegated_ttl s ttl ≤ BiscuitTTL s)%Z.
Proof.
  unfold delegated_ttl. cbv zeta. destruct (Z.leb_spec (op_DelegatedBiscuitTTL (sv_config s)) 0), (Z.ltb_spec (BiscuitTTL s) (op_DelegatedBiscuitTTL (sv_config s)));
    cbn [orb]; destruct (0 <? ttl)%Z; try lia; case_match; lia.
Qed.

Lemma delegated_roles_no_router claims bindings : RoleRouter ∉ delegated_roles claims bindings.
Proof. unfold delegated_roles, sort_Strings. rewrite merge_sort_Permutation, list_elem_of_filter. by intros [? _]. Qed.

Lemma within_session (expiry limit : time) :
  let exp := if negb (IsZero limit) && (limit <? expiry)%Z then limit else expiry in
  (exp ≤ expiry)%Z ∧ (IsZero limit = false → (exp ≤ limit)%Z).
Proof. cbv zeta. destruct (IsZero limit); cbn; [done|]. destruct (Z.ltb_spec limit expiry); split; lia. Qed.

Lemma mintDelegated_answers jwt actor rule seal ttl workload tr b e principal roles :
  answers (mintDelegatedBiscuitFromJWT s jwt actor rule seal ttl workload) tr (inr (b, e, principal, roles)) →
  delegated tr jwt actor rule seal ttl workload b e principal roles.
Proof.
  unfold mintDelegatedBiscuitFromJWT. intros H. repeat along H; simplify_eq; case_match eqn:Hm; simplify_eq;
    match goal with
    | Hv : VerifyJWT ?t _ _ _ = Ok (?raw, ?token), Hp : mesh_policy_or_empty ?policy = Ok (?prs, ?bindings),
      Hm : MintDelegatedBiscuitToken ?priv _ _ ?exp _ _ _ _ = Ok _ |- context [existT CGetCurrentKey (Ok (_, ?pub))] =>
        lazymatch exp with context [(?now + delegated_ttl _ _)%Z] => exists t, raw, token, priv, pub, policy, prs, bindings, now, exp end
    end; cbv zeta; split_and!; try seen; try done; try apply within_session; try (by destruct workload; auto).
  - intros Hne. by rewrite bool_decide_eq_true in *.
  - intros _. seen.
Qed.

(** The caller of an exchange. *)
Definition exchanger (bearer : option (result string)) (tr : list performed) (n : EnrolledNode) : Prop :=
  credentialed bearer tr n ∧ en_Role n ≠ RoleRouter ∧ replied tr (STSLimiterAllow (en_PeerID n)) true.

Lemma exchanger_mono bearer tr tr' n : tr ⊆ tr' → exchanger bearer tr n → exchanger bearer tr' n.
Proof. intros Hsub (Hc & Hr & Hl). split_and!; [by eapply credentialed_mono|done|]. unfold replied in *. auto. Qed.

(** An answer that hands out a token. *)
Definition grants (a : answer) : bool :=
  match a with Exchanged _ _ _ _ | BorderToken _ _ | AccessToken _ _ => true | _ => false end.

Lemma sts_node_answers bearer k tr a :
  answers (sts_node bearer k) tr a → grants a = true →
  ∃ tr1 tr2 n, tr = tr1 ++ tr2 ∧ exchanger bearer tr1 n ∧ answers (k n) tr2 a.
Proof.
  unfold sts_node. intros (tr1 & tr2 & r & -> & (_ & _ & Hn)%admittedNode_answers & H)%answers_bind Ha.
  repeat along H; simplify_eq; try done.
  destruct r0; [|done]. exists (tr1 ++ [existT (STSLimiterAllow (en_PeerID e)) true]), tr, e. rewrite <-(assoc_L (++)). split_and!; [done| |done].
  split_and!; [eapply credentialed_mono; [|by apply Hn]; set_solver|by eapply bool_decide_eq_false_1|]. apply replied_app_r. seen.
Qed.

Lemma sts_challenge_answers n challenge ts sig k tr a :
  answers (sts_challenge n challenge ts sig k) tr a → grants a = true →
  ∃ t tr', tr = existT Now t :: tr' ∧ challenged [existT Now t] n challenge ts sig ∧ answers k tr' a.
Proof.
  unfold sts_challenge. intros H Ha. repeat along H; simplify_eq; try done. do 2 eexists. split_and!; [done| |done].
  do 2 eexists. split_and!; [done|seen|]. by destruct a1.
Qed.
(** ** A credential that is clear of revocations and bans *)

(** The identity of a user whose record could be read and names its issuer is
    not banned. *)
Definition user_clear (tr : list performed) (id : string) : Prop :=
  ∃ r, replied tr (CGetUser id) r ∧
    ∀ u, r = Ok u → u_Issuer u ≠ "" → replied tr (CIsIdentityBanned (IdentityKey u)) (Ok false).

(** The peer is not banned, and when it is enrolled its record is admitted and
    neither its identity nor its owner is banned. *)
Definition peer_clear (tr : list performed) (now : time) (raw : string) : Prop :=
  raw ≠ "" → ∃ p r, peer_Decode raw = Ok p ∧ replied tr (CIsNodeBanned p) (Ok false) ∧ replied tr (CGetNode p) r ∧
    (∀ e, r = Err e → errors_Is e ErrNotFound = true) ∧
    (∀ n, r = Ok n → CheckAdmission now n = Ok tt ∧ (en_OwnerID n ≠ "" → user_clear tr (en_OwnerID n)) ∧
       ∀ c, en_ClaimsJSON n ≠ "" → claims_Unmarshal (en_ClaimsJSON n) = Ok c → oidcIdentityKey c ≠ "" →
         replied tr (CIsIdentityBanned (oidcIdentityKey c)) (Ok false)).

(** No identifier of the credential is revoked in memory, nor, as far as the
    store answered, in the store. *)
Definition unrevoked (tr : list performed) (ids : list string) : Prop :=
  ids ≠ [] → ∃ now, replied tr Now now ∧ replied tr (MIsRevoked now (RawURL_Encode <$> ids)) false ∧
    ∀ id, id ∈ ids → ∃ r, replied tr (CIsBiscuitRevoked (RawURL_Encode id) now) r ∧ r ≠ Ok true.

Record clear (tr : list performed) (c : VerifiedBiscuitClaims) : Prop := {
  cl_unrevoked : unrevoked tr (vc_RevocationIDs c);
  cl_peers : ∃ now, replied tr Now now ∧
    ∀ raw, raw ∈ [vc_NodePeerID c; vc_ActorNodePeerID c; vc_ClientPeerID c] → peer_clear tr now raw;
  cl_user : vc_User c ≠ "" → user_clear tr (vc_User c) ∧
    ∀ iss, iss ∈ configuredIssuers s → replied tr (CIsIdentityBanned (iss +:+ "|" +:+ vc_User c)) (Ok false);
}.

Lemma user_clear_mono tr tr' id : tr ⊆ tr' → user_clear tr id → user_clear tr' id.
Proof. intros Hsub (r & Hr & Hu). exists r. unfold replied in *. auto. Qed.

Lemma peer_clear_mono tr tr' now raw : tr ⊆ tr' → peer_clear tr now raw → peer_clear tr' now raw.
Proof.
  intros Hsub H Hne. destruct (H Hne) as (p & r & Hp & Hb & Hr & He & Hn). exists p, r. unfold replied in *. split_and!; [by auto..|].
  intros n Hrn. destruct (Hn n Hrn) as (Ha & Ho & Hc). split_and!; [done|eauto using user_clear_mono|eauto].
Qed.

Lemma not_banned_answers id k tr :
  answers (not_banned id k) tr (inr tt) → ∃ tr', tr = existT (CIsIdentityBanned id) (Ok false) :: tr' ∧ answers k tr' (inr tt).
Proof. unfold not_banned, deny. intros H. repeat along H; simplify_eq; try done. eauto. Qed.

Lemma user_not_banned_answers id k tr :
  answers (user_not_banned id k) tr (inr tt) → ∃ tr1 tr2, tr = tr1 ++ tr2 ∧ user_clear tr1 id ∧ answers k tr2 (inr tt).
Proof.
  unfold user_not_banned. intros H. along H. along H; [along H|]; simplify_eq.
  - exists [existT (CGetUser id) (Ok a)], tr0. split_and!; [done| |done]. exists (Ok a). split; [seen|]. intros u [= <-] Hne.
    by eapply bool_decide_eq_true_1 in Heqb.
  - apply not_banned_answers in H as (tr' & -> & H).
    exists [existT (CGetUser id) (Ok a); existT (CIsIdentityBanned (IdentityKey a)) (Ok false)], tr'. split_and!; [done| |done].
    exists (Ok a). split; [seen|]. intros u [= <-] _. seen.
  - exists [existT (CGetUser id) (Err e)], tr0. split_and!; [done| |done]. exists (Err e). split; [seen|]. done.
Qed.

(** The identity that stored claims name is not banned. *)
Definition claims_clear (tr : list performed) (json : string) : Prop :=
  ∀ c, json ≠ "" → claims_Unmarshal json = Ok c → oidcIdentityKey c ≠ "" → replied tr (CIsIdentityBanned (oidcIdentityKey c)) (Ok false).

Lemma claims_checked_answers json k tr :
  let identity := match claims_Unmarshal json with Ok claims => oidcIdentityKey claims | Err _ => "" end in
  answers (if bool_decide (json = "") || bool_decide (identity = "") then k else not_banned identity k) tr (inr tt) →
  ∃ tr1 tr2, tr = tr1 ++ tr2 ∧ claims_clear tr1 json ∧ answers k tr2 (inr tt).
Proof.
  intros identity H. subst identity. along H.
  - exists [], tr. split_and!; [done| |done]. intros c Hj Hc Hk. rewrite Hc, !bool_decide_false in Heqb by done. done.
  - apply not_banned_answers in H as (tr' & -> & H). eexists [_], tr'. split_and!; [done| |done].
    intros c _ Hc _. rewrite Hc. seen.
Qed.

Lemma owner_checked_answers owner json k tr :
  let identity := match claims_Unmarshal json with Ok claims => oidcIdentityKey claims | Err _ => "" end in
  let claims_checked := if bool_decide (json = "") || bool_decide (identity = "") then k else not_banned identity k in
  answers (if bool_decide (owner = "") then claims_checked else user_not_banned owner claims_checked) tr (inr tt) →
  ∃ tr1 tr2, tr = tr1 ++ tr2 ∧ (owner ≠ "" → user_clear tr1 owner) ∧ claims_clear tr1 json ∧ answers k tr2 (inr tt).
Proof.
  intros identity claims_checked H. subst identity claims_checked. along H.
  - apply claims_checked_answers in H as (tr1 & tr2 & -> & Hc & H). exists tr1, tr2. split_and!; [done| |done|done].
    by apply bool_decide_eq_true in Heqb.
  - apply user_not_banned_answers in H as (tr1 & tr2 & -> & Hu & (tr3 & tr4 & -> & Hc & H)%claims_checked_answers).
    exists (tr1 ++ tr3), tr4. rewrite (assoc_L (++)). split_and!; [done| | |done].
    + intros _. eapply user_clear_mono; [|exact Hu]. set_solver.
    + intros c Hj Hu' Hk. apply replied_app_r. eauto.
Qed.

Lemma peer_admitted_answers now raw k tr :
  answers (peer_admitted now raw k) tr (inr tt) → ∃ tr1 tr2, tr = tr1 ++ tr2 ∧ peer_clear tr1 now raw ∧ answers k tr2 (inr tt).
Proof.
  unfold peer_admitted, deny. intros H. along H; [exists [], tr; split_and!; [done|by intros ?; apply bool_decide_eq_true in Heqb|done]|].
  along H; [|by along H]. along H. along H; [|by along H]. along H; [by along H|]. along H. along H; cycle 1.
  { along H; [|by along H]. simplify_eq. eexists [_; _], _.
    split_and!; [done| |exact H]. intros _. do 2 eexists. split_and!; [done|seen|seen|by intros ? [= <-]|done]. }
  along H; [by along H|]. apply negb_false_iff, is_ok_true in Heqb1 as [[] Hadm]. simplify_eq.
  apply owner_checked_answers in H as (tr1 & tr2 & -> & Ho & Hc & H).
  exists (existT (CIsNodeBanned a) (Ok false) :: existT (CGetNode a) (Ok a1) :: tr1), tr2. split_and!; [done| |done].
  intros _. exists a, (Ok a1). split_and!; [done|seen|seen|done|]. intros n [= <-]. split_and!; [done| |].
  - intros Hne. eapply user_clear_mono; [|by apply Ho]. set_solver.
  - intros c Hj Hu Hk. do 2 apply replied_cons. eauto.
Qed.

Lemma revoked_in_store_answers now ids tr :
  answers (revoked_in_store now ids) tr false → ∀ id, id ∈ ids → ∃ r, replied tr (CIsBiscuitRevoked id now) r ∧ r ≠ Ok true.
Proof.
  revert tr. induction ids as [|i ids IH]; intros tr H id Hid; [by apply elem_of_nil in Hid|]. cbn [revoked_in_store] in H.
  along H. along H; [by along H|]. apply bool_decide_eq_false in Heqb. apply elem_of_cons in Hid as [->|Hid].
  - exists r. split; [seen|done].
  - destruct (IH _ H _ Hid) as (r' & Hr & Hne). exists r'. split; [by apply replied_cons|done].
Qed.

Lemma isBiscuitRevoked_answers ids tr : answers (isBiscuitRevoked ids) tr false → unrevoked tr ids.
Proof.
  unfold isBiscuitRevoked. intros H. along H; [intros Hne; by apply bool_decide_eq_true in Heqb|]. do 2 along H. along H; [by along H|]. subst.
  intros _. exists r. split_and!; [seen|seen|]. intros id Hid.
  destruct (revoked_in_store_answers _ _ _ H (RawURL_Encode id)) as (r' & Hr & Hne); [by apply list_elem_of_fmap_2|].
  exists r'. split; [by do 2 apply replied_cons|done].
Qed.

Lemma issuers_answers user issuers tr :
  answers (issuers_not_banned user issuers) tr (inr tt) →
  ∀ iss, iss ∈ issuers → replied tr (CIsIdentityBanned (iss +:+ "|" +:+ user)) (Ok false).
Proof.
  revert tr. induction issuers as [|i issuers IH]; intros tr H iss Hiss; [by apply elem_of_nil in Hiss|]. cbn [issuers_not_banned] in H.
  apply not_banned_answers in H as (tr' & -> & H). apply elem_of_cons in Hiss as [->|Hiss]; [seen|]. apply replied_cons. eauto.
Qed.

Lemma clear_answers c tr : answers (checkBiscuitRevocationAndBans s c) tr (inr tt) → clear tr c.
Proof.
  unfold checkBiscuitRevocationAndBans, deny. intros (tr1 & tr2 & revoked & -> & Hrev & H)%answers_bind. along H; [by along H|]. subst.
  apply isBiscuitRevoked_answers in Hrev. along H. cbv zeta in H.
  apply peer_admitted_answers in H as (t1 & ? & -> & Hp1 & (t2 & ? & -> & Hp2 & (t3 & t4 & -> & Hp3 & H)%peer_admitted_answers)%peer_admitted_answers).
  split.
  - intros Hne. destruct (Hrev Hne) as (now & Hn & Hm & Hi). exists now. split_and!; [by apply replied_app_l..|].
    intros id Hid. destruct (Hi id Hid) as (r' & Hr & Hne'). exists r'. split; [by apply replied_app_l|done].
  - exists r. split; [apply replied_app_r; seen|]. intros raw Hraw. rewrite !elem_of_cons, elem_of_nil in Hraw.
    destruct Hraw as [->|[->|[->|[]]]]; (eapply peer_clear_mono; [|eassumption]); set_solver.
  - intros Hu. rewrite bool_decide_false in H by done. apply user_not_banned_answers in H as (t5 & t6 & -> & Hcl & Hi). split.
    + eapply user_clear_mono; [|exact Hcl]. set_solver.
    + intros iss Hiss. pose proof (issuers_answers _ _ _ Hi iss Hiss) as Hr. unfold replied in *. set_solver.
Qed.

Lemma clear_mono tr tr' c : tr ⊆ tr' → clear tr c → clear tr' c.
Proof.
  intros Hsub [Hr (now & Hn & Hp) Hu]. split.
  - intros Hne. destruct (Hr Hne) as (t & ? & ? & Hi). exists t. unfold replied in *. split_and!; [by auto..|].
    intros id Hid. destruct (Hi id Hid) as (r & ? & ?). eauto.
  - exists now. unfold replied in *. eauto using peer_clear_mono.
  - intros Hne. destruct (Hu Hne). unfold replied in *. eauto using user_clear_mono.
Qed.

(** ** A credential for the outside *)

(** The credential verifies under a key that was valid, is clear of revocations
    and bans as [clear] says and is bound to its holder; the authorizer of the destination, with
    the credential's facts and the policy's rules, allows it, and so do the
    rules of its task.  [claims] are the credential's, with the roles the policy
    derives. *)
Definition border_authorized (tr : list performed) (raw destination : string) (claims : VerifiedBiscuitClaims) : Prop :=
  ∃ keys t c holder w t2 policy roles bindings egress dests t3,
    replied tr CGetAllValidPublicKeys (Ok keys) ∧ replied tr Now t ∧ InspectVerifiedBiscuit t raw keys = Ok c ∧ clear tr c ∧
    peer_Decode (vc_ClientPeerID c) = Ok holder ∧ RequireAuthorityRequestBinding (vc_Biscuit c) holder = Ok tt ∧
    Authorizer (vc_Biscuit c) (vc_VerifyingKey c) = Ok w ∧ replied tr Now t2 ∧
    replied tr CGetMeshPolicy policy ∧ mesh_policy_or_empty policy = Ok (roles, bindings) ∧
    replied tr CGetEgressDestinations egress ∧ egress_or_empty egress = Ok dests ∧
    let world := egress_world t2 destination holder (pr_Rule <$> (BuildPolicyRules roles bindings).1 ++ BuildEgressServingRules dests) w in
    authorize world = Success ∧ replied tr Now t3 ∧
    EvaluateTaskRulesForDestination (optional_rules (vc_TaskRules c)) "egress" destination t3 = Ok tt ∧
    claims = set_roles c (merged_roles world (vc_Roles c)).

Lemma border_authorized_mono tr tr' raw destination claims :
  tr ⊆ tr' → border_authorized tr raw destination claims → border_authorized tr' raw destination claims.
Proof.
  intros Hsub (keys & t & c & holder & w & t2 & policy & roles & bindings & egress & dests & t3 & H).
  exists keys, t, c, holder, w, t2, policy, roles, bindings, egress, dests, t3. cbv zeta in *. unfold replied in *.
  destruct H as (?&?&?&Hc&H). apply (clear_mono _ tr') in Hc; [|done]. intuition auto.
Qed.

Lemma authorizeBiscuit_answers raw destination tr claims :
  answers (authorizeBiscuitForEgress s raw destination) tr (inr claims) → border_authorized tr raw destination claims.
Proof.
  unfold authorizeBiscuitForEgress. intros H. along H. along H; [|by along H]. along H. along H; [|by along H].
  apply answers_bind in H as (tr1 & tr2 & gate & -> & Hg & H). destruct gate as [?|[]]; [by along H|]. apply clear_answers in Hg.
  repeat along H; simplify_eq; try case_match; simplify_eq. apply negb_false_iff, bool_decide_eq_true in Heqb0. destruct a2, a4.
  exists a, r0, a0, a1, a3, r1, r2, l, l0, r3, a5, r4. cbv zeta. split_and!; try done; try seen.
  eapply clear_mono; [|exact Hg]. set_solver.
Qed.

(** The node serves the destination, or the policy leaves it open who does (or
    the policy could not be read). *)
Definition serves (tr : list performed) (n : EnrolledNode) (destination : string) : Prop :=
  ∃ egress, replied tr CGetEgressDestinations egress ∧
    ∀ dests d, egress = Ok dests → find_destination (destination_host destination) dests = Some d → eg_served_by d ≠ [] →
      ∃ policy roles, replied tr CGetMeshPolicy policy ∧ EgressServedBy d roles (en_Labels n) = true ∧
        (roles = [en_Role n] ∨ ∃ prs bindings, policy = Ok (prs, bindings) ∧ nodeRoles n bindings = Ok roles).

Lemma serves_mono tr tr' n destination : tr ⊆ tr' → serves tr n destination → serves tr' n destination.
Proof.
  intros Hsub (egress & He & Hs). exists egress. unfold replied in *. split; [auto|]. intros dests d Hd Hf Hne.
  destruct (Hs dests d Hd Hf Hne) as (policy & roles & Hp & Hr). exists policy, roles. auto.
Qed.

Lemma sts_served_answers n destination tr : answers (sts_served n destination) tr true → serves tr n destination.
Proof.
  unfold sts_served. intros H. along H. along H; cycle 1.
  { along H. eexists. split; [seen|]. done. }
  along H; [along H|]; [along H| |along H]; (eexists; split; [seen|]; intros dests d [= <-] Hd Hne; simplify_eq).
  - by apply bool_decide_eq_true in Heqb.
  - unfold storedNodeRoles in H. apply answers_bind in H as (tr1 & tr2 & roles & -> & Hr & H). repeat along Hr. along H.
    match goal with H : EgressServedBy _ ?roles _ = true |- _ => exists r, roles end.
    split_and!; [seen|done|]. repeat case_match; simplify_eq; eauto 10.
Qed.

(** The audience is the one the policy fixes, or the one asked for when it fixes
    none. *)
Definition audience_allowed (tr : list performed) (destination asked audience : string) : Prop :=
  ∃ egress, replied tr CGetEgressDestinations egress ∧
    ∀ dests aud, egress = Ok dests → (find_destination (destination_host destination) dests ≫= policy_audience) = Some aud →
      audience = aud ∧ (TrimSpace asked = "" ∨ TrimSpace asked = aud).

Lemma audience_mono tr tr' destination asked audience :
  tr ⊆ tr' → audience_allowed tr destination asked audience → audience_allowed tr' destination asked audience.
Proof. intros Hsub (egress & He & Ha). exists egress. unfold replied in *. auto. Qed.

Lemma audience_answers destination asked tr audience :
  answers (resolveEgressAudience destination asked) tr (Ok audience) → audience_allowed tr destination asked audience.
Proof.
  unfold resolveEgressAudience. intros H. along H. along H. exists r. split; [seen|]. intros dests aud -> Hd. rewrite Hd in H.
  destruct (bool_decide (TrimSpace asked = "")) eqn:Ha; [apply bool_decide_eq_true in Ha|]; simpl in H; simplify_eq; [by auto|].
  destruct (bool_decide (TrimSpace asked = aud)) eqn:Hm; [apply bool_decide_eq_true in Hm|done]. simpl in H. simplify_eq. auto.
Qed.

Lemma sts_ttl_le : (sts_ttl s ≤ maxSTSTokenTTL)%Z.
Proof. unfold sts_ttl. cbv zeta. destruct (Z.ltb_spec maxSTSTokenTTL (if (op_STSTokenTTL (sv_config s) <=? 0)%Z then (300 * second)%Z else op_STSTokenTTL (sv_config s))); lia. Qed.

(** ** The exchanges *)

(** C27: What an exchange of an ID token rests on, whatever happens meanwhile: an
    admitted node that is not a router and is within its rate presented its
    credential and signed a fresh challenge; the ID token verified and names an
    identity that is not banned; and the delegated credential was minted by the
    current key for that node as the actor, with the roles the policy binds to
    the subject and never the router's, to expire within the configured lifetime
    and no later than the ID token. *)
Theorem exchange_sound bearer req tr b e roles principal :
  answers (HandleTokenExchange s bearer req) tr (Exchanged b e roles principal) →
  ∃ n actor, exchanger bearer tr n ∧
    challenged tr n (TokenExchangeChallenge (en_PeerID n) (te_ChallengeUnixMs req)) (te_ChallengeUnixMs req) (te_ChallengeSignature req) ∧
    peer_Decode (en_PeerID n) = Ok actor ∧ (RoleRouter ∉ roles) ∧
    delegated tr (te_SubjectToken req) actor (te_TaskRule req) (te_Seal req) 0 true b e principal roles.
Proof.
  unfold HandleTokenExchange. intros (tr1 & tr2 & n & -> & Hn & H)%sts_node_answers; [|done]. along H; [by along H|].
  apply sts_challenge_answers in H as (t & tr3 & -> & Hc & H); [|done]. along H; [|by along H].
  apply answers_bind in H as (tr4 & tr5 & m & -> & Hm & H). destruct m as [?|[[[? ?] ?] ?]]; [by along H|]. along H.
  apply mintDelegated_answers in Hm. exists n, a. split_and!; [|eapply challenged_mono; [|exact Hc]; set_solver|done| |].
  - eapply exchanger_mono; [|exact Hn]. set_solver.
  - destruct Hm as (?&?&?&?&?&?&?&?&?&?&?&?&?&?&?&?&?&->&?). apply delegated_roles_no_router.
  - eapply delegated_mono; [|exact Hm]. set_solver.
Qed.

End facts.

(** ** Witnesses *)

Definition policies_request : request := RqPolicies bearer_a (Some (signed_by_a PoliciesChallenge)).
Definition policies_unread : Config := scenario_history false (scenario_config (members "")) [Arrive policies_request; Step 0 Break].

Definition unsigned_request : request := RqPolicies bearer_a None.

Lemma member_errors_witness :
  (answer_of (border_run policies_request) 0 = Some (PolicyText []) ∧ answer_of policies_unread 0 = Some storeUnavailable ∧
   answer_of (border_run unsigned_request) 0 = Some (HttpError 401 "Missing or invalid challenge headers")) ∧
  store_failed (trace_of policies_unread 0) = true ∧ existsb read_failed (trace_of (border_run policies_request) 0) = false ∧
  @kept_out ascii_case one_rule_codec scenario_tokens naive_engine plain_codec text_keys bearer_a None PoliciesChallenge
    (trace_of (border_run unsigned_request) 0).
Proof.
  split; [by vm_compute|]. split; [|split].
  - apply (@member_errors ascii_case one_rule_codec scenario_tokens reference_text naive_engine plain_codec padded_digest text_keys
             subject_tokens subject_codec ascii_print no_urls no_loopback no_key_peer plain_addrs (scenario_server false)
             policies_request bearer_a (Some (signed_by_a PoliciesChallenge)) PoliciesChallenge (trace_of policies_unread 0) storeUnavailable).
    + reflexivity.
    + apply scenario_answers; vm_compute; reflexivity.
  - apply (@member_errors ascii_case one_rule_codec scenario_tokens reference_text naive_engine plain_codec padded_digest text_keys
             subject_tokens subject_codec ascii_print no_urls no_loopback no_key_peer plain_addrs (scenario_server false)
             policies_request bearer_a (Some (signed_by_a PoliciesChallenge)) PoliciesChallenge (trace_of (border_run policies_request) 0) (PolicyText [])).
    + reflexivity.
    + apply scenario_answers; vm_compute; reflexivity.
  - apply (@member_errors ascii_case one_rule_codec scenario_tokens reference_text naive_engine plain_codec padded_digest text_keys
             subject_tokens subject_codec ascii_print no_urls no_loopback no_key_peer plain_addrs (scenario_server false)
             unsigned_request bearer_a None PoliciesChallenge (trace_of (border_run unsigned_request) 0)
             (HttpError 401 "Missing or invalid challenge headers")).
    + reflexivity.
    + apply scenario_answers; vm_compute; reflexivity.
Defined.

Definition exchange_run : Config := border_run (RqTokenExchange bearer_a exchange_request).

Lemma exchange_sound_witness :
  answer_of exchange_run 0 = Some (Exchanged (token_bytes 6) (130 * second)%Z [] "alice") ∧
  ∃ n, @credentialed ascii_case one_rule_codec scenario_tokens naive_engine plain_codec bearer_a (trace_of exchange_run 0) n.
Proof.
  split; [by vm_compute|].
  destruct (@exchange_sound ascii_case one_rule_codec scenario_tokens reference_text naive_engine plain_codec text_keys
    subject_tokens (scenario_server false) bearer_a exchange_request (trace_of exchange_run 0) (token_bytes 6) (130 * second)%Z
    [] "alice") as (n & actor & (Hn & _) & _).
  - apply (scenario_answers false (members "") (Arrive (RqTokenExchange bearer_a exchange_request) :: steps 0 40) 0
             (RqTokenExchange bearer_a exchange_request)); vm_compute; reflexivity.
  - exists n. exact Hn.
Defined.

Definition border_origin : Origin := {| or_TLS := true; or_Host := "cp" |}.
Definition token_run : Config := border_run (RqSTSToken bearer_a border_origin border_request).

Definition border_claims : BorderClaims :=
  {| bj_iss := "https://cp"; bj_sub := "node:12D3b"; bj_aud := "https://api.example.com"; bj_act := "12D3a"; bj_roles := [RoleNode];
     bj_iat := 100; bj_exp := 150; bj_jti := ""; bj_task := "" |}.

