(* ===== verification/OAuthFacts.v ===== *)
(** * Authorization codes

    An authorization code stands for one consent and is redeemed at most once,
    in every history of concurrent requests: the table of the codes is read and
    written under a lock, a redemption removes the entry before it looks at it,
    and only [/oauth/authorize] adds one. *)

From S2P Require Import Prelude GoStrings Regex Names Biscuit NaiveEngine Facts DatalogText Grants Labels HTTPGrants PolicyRules Egress Base64 Tar Token TokenModel Identity Mint Middleware Directory Keyring Decimal PolicyStore Store StoreFacts ControlPlane PolicyConfig Enrollment Admin Members Sts OAuth Machine Traces Scenario StsFacts.

(** ** The ledger *)

(** The code that a call recorded, with its entry. *)
Definition issue_of (e : performed) : option (string * oauthAuthCode) :=
  match e with
  | existT c r =>
      match c as c return reply c → option (string * oauthAuthCode) with
      | MAddCode _ code entry => λ r : bool, if r then Some (code, entry) else None
      | _ => λ _, None
      end r
  end.

(** The code that a call removed, with its entry. *)
Definition redeem_of (e : performed) : option (string * oauthAuthCode) :=
  match e with
  | existT c r =>
      match c as c return reply c → option (string * oauthAuthCode) with
      | MTakeCode code => λ r, entry ← r; Some (code, entry)
      | _ => λ _, None
      end r
  end.

Definition count (code : string) (l : list (string * oauthAuthCode)) : nat := length (filter (λ x, x.1 = code) l).

(** How often a code was handed out, and redeemed. *)
Definition issues (code : string) (calls : list performed) : nat := count code (omap issue_of calls).
Definition redemptions (code : string) (calls : list performed) : nat := count code (omap redeem_of calls).

Definition pending (codes : gmap string oauthAuthCode) (code : string) : nat := if decide (is_Some (codes !! code)) then 1 else 0.

Record ledger (codes : gmap string oauthAuthCode) (calls : list performed) : Prop := {
  ld_balance code : redemptions code calls + pending codes code ≤ issues code calls;
  ld_pending code entry : codes !! code = Some entry → (code, entry) ∈ omap issue_of calls;
  ld_redeemed x : x ∈ omap redeem_of calls → x ∈ omap issue_of calls;
  ld_size : (Z.of_nat (size codes) ≤ maxPendingOAuthCodes)%Z;
}.

Lemma count_snoc code l x : count code (l ++ [x]) = count code l + (if decide (x.1 = code) then 1 else 0).
Proof. unfold count. rewrite filter_app, length_app. f_equal. rewrite filter_cons, filter_nil. by case_decide. Qed.

Lemma omap_snoc {A B} (f : A → option B) l x : omap f (l ++ [x]) = omap f l ++ from_option (λ y, [y]) [] (f x).
Proof. rewrite omap_app. by cbn; destruct (f x). Qed.

#[local] Instance ledger_perm codes : Proper ((≡ₚ) ==> iff) (ledger codes).
Proof.
  assert (Himp : ∀ calls calls', calls ≡ₚ calls' → ledger codes calls → ledger codes calls').
  { intros calls calls' Hp [Hb Hpend Hr Hs]. split; [|setoid_rewrite <-Hp; done..|done].
    intros code. unfold redemptions, issues, count in *. setoid_rewrite <-Hp. apply Hb. }
  intros calls calls' Hp. split; apply Himp; [done|by symmetry].
Qed.

Lemma ledger_other codes calls e : issue_of e = None → redeem_of e = None → ledger codes calls → ledger codes (calls ++ [e]).
Proof.
  intros Hi Hr [Hb Hp Hred Hs].
  assert (Hi' : omap issue_of (calls ++ [e]) = omap issue_of calls) by (rewrite omap_snoc, Hi; apply (right_id_L [] (++))).
  assert (Hr' : omap redeem_of (calls ++ [e]) = omap redeem_of calls) by (rewrite omap_snoc, Hr; apply (right_id_L [] (++))).
  split; unfold redemptions, issues in *; by rewrite ?Hi', ?Hr'.
Qed.

Lemma ledger_drop codes codes' calls : codes' ⊆ codes → ledger codes calls → ledger codes' calls.
Proof.
  intros Hsub [Hb Hp Hr Hs]. split; [|intros code entry Hc; by apply Hp, (lookup_weaken _ _ _ _ Hc)|done|].
  - intros code. specialize (Hb code). unfold pending in *. destruct (decide (is_Some (codes' !! code))) as [[x Hx]|]; [|lia].
    by rewrite decide_True in Hb by (eexists; by eapply lookup_weaken).
  - apply map_subseteq_size in Hsub. lia.
Qed.

Lemma ledger_add codes calls now code entry :
  (Z.of_nat (size codes) < maxPendingOAuthCodes)%Z → ledger codes calls →
  ledger (<[code := entry]> codes) (calls ++ [existT (MAddCode now code entry) true]).
Proof.
  intros Hlt [Hb Hp Hr Hs].
  assert (Hi : omap issue_of (calls ++ [existT (MAddCode now code entry) true]) = omap issue_of calls ++ [(code, entry)]) by (by rewrite omap_snoc).
  assert (Hred : omap redeem_of (calls ++ [existT (MAddCode now code entry) true]) = omap redeem_of calls)
    by (rewrite omap_snoc; apply (right_id_L [] (++))).
  split; unfold redemptions, issues in *; rewrite ?Hi, ?Hred.
  - intros code'. rewrite count_snoc. cbn [fst]. specialize (Hb code'). unfold pending in *.
    destruct (decide (code = code')) as [->|Hne]; [destruct (decide _), (decide _) in *; lia|].
    rewrite lookup_insert_ne by done. lia.
  - intros code' entry'. rewrite elem_of_app, list_elem_of_singleton. intros [[<- <-]|[_ Hc]]%lookup_insert_Some; auto.
  - intros x Hx. apply elem_of_app. left. by apply Hr.
  - rewrite map_size_insert. destruct (codes !! code); unfold id; lia.
Qed.

Lemma ledger_take codes calls code :
  ledger codes calls → ledger (delete code codes) (calls ++ [existT (MTakeCode code) (codes !! code)]).
Proof.
  intros Hl. destruct (codes !! code) as [entry|] eqn:Hc; cycle 1.
  { apply ledger_other; [done..|]. eapply ledger_drop; [|exact Hl]. apply delete_subseteq. }
  pose proof Hl as [Hb Hp Hr Hs]. set (e := existT _ _).
  assert (Hi : omap issue_of (calls ++ [e]) = omap issue_of calls) by (rewrite omap_snoc; apply (right_id_L [] (++))).
  assert (Hred : omap redeem_of (calls ++ [e]) = omap redeem_of calls ++ [(code, entry)]) by (by rewrite omap_snoc).
  split; unfold redemptions, issues in *; rewrite ?Hi, ?Hred.
  - intros code'. rewrite count_snoc. cbn [fst]. specialize (Hb code'). unfold pending in *.
    destruct (decide (code = code')) as [<-|Hne]; [|rewrite lookup_delete_ne by done; lia].
    rewrite decide_True in Hb by (rewrite Hc; eauto). rewrite decide_False by (rewrite lookup_delete_eq; by intros [? ?]). lia.
  - intros code' entry' [_ Hc']%lookup_delete_Some. by apply Hp.
  - intros x. rewrite elem_of_app, list_elem_of_singleton. intros [Hx| ->]; [by apply Hr|by apply Hp].
  - pose proof (map_subseteq_size _ _ (delete_subseteq codes code)). lia.
Qed.

(** ** What a consent rests on *)

Section handlers.
Context `{UC : UnicodeCase, TC : TARCodec, BT : BiscuitTokens, TX : BiscuitText, BE : BiscuitEngine, PC : PeerCodec, SH : SHA256,
          PK : PeerKeys, OL : OIDCLibrary, CC : ClaimsCodec, UP : UnicodePrint, UR : URLParser, LO : LoopbackIP, KP : KeyPeer, MA : Multiaddr, PO : PolicyCodec}.
Variable s : Server.

(** The calls after which [/oauth/authorize] records the entry: the subject's ID
    token verified, the subject is a person and is not banned, the actor is an
    admitted node or left open, the form carries a challenge and a redirection
    that is allowed, and the consent was given by a POST (a client that is not a
    browser asks with a plain GET). *)
Record consented (f : AuthorizeForm) (tr : list performed) (now : time) (entry : oauthAuthCode) : Prop := {
  cn_client : ac_ClientID entry = TrimSpace (af_client_id f) ∧ ac_ClientID entry ≠ "";
  cn_redirect : ac_RedirectURI entry = TrimSpace (af_redirect_uri f) ∧
    (ac_RedirectURI entry = "" ∨ isValidOAuthRedirectURI (ac_RedirectURI entry) = true);
  cn_challenge : ac_CodeChallenge entry = TrimSpace (af_code_challenge f) ∧ ac_CodeChallenge entry ≠ "";
  cn_subject : ac_SubjectJWT entry = subject_token_of f ∧ ∃ t claims token, replied tr Now t ∧
    VerifyJWT t (subject_token_of f) (op_AllowedAudiences (sv_config s)) (sv_providers s) = Ok (claims, token) ∧
    isWorkloadClaims s claims = false ∧
    (oidcIdentityKey (Some claims) ≠ "" → replied tr (CIsIdentityBanned (oidcIdentityKey (Some claims))) (Ok false));
  cn_actor : ac_ActorPeerID entry ≠ "" → peer_Decode (TrimSpace (af_actor_peer_id f)) = Ok (ac_ActorPeerID entry) ∧
    ∃ n t, replied tr (CGetNode (ac_ActorPeerID entry)) (Ok n) ∧ replied tr Now t ∧ CheckAdmission t n = Ok tt;
  cn_approved : if af_post f then af_post_approve f = "true" else af_html f = false ∧ af_approve f = "";
  cn_expires : replied tr Now now ∧ ac_ExpiresAt entry = (now + oauthAuthCodeTTL)%Z;
}.

(** ** The monitor *)

(** The monitor keeps the request and the calls made so far: only
    [/oauth/authorize] adds a code, and only for a consent. *)
Definition code_permits (m : request * list performed) (c : call) : Prop :=
  match c with
  | MAddCode now code entry => ∃ f, m.1 = RqAuthorize f ∧ consented f m.2 now entry
  | _ => True
  end.

Definition code_after (m : request * list performed) (c : call) (r : reply c) : request * list performed := (m.1, m.2 ++ [existT c r]).

Local Abbreviation careful := (safe code_permits any_reply code_after).

Lemma quiet_careful {A} (Q : request * list performed → A → Prop) m p : (∀ m a, Q m a) → quiet p → careful Q m p.
Proof.
  intros HQ Hp. unfold quiet in Hp. revert m. induction Hp as [u a _|u c k Hc _ IH]; intros m.
  - by apply safe_ret.
  - apply safe_do; [by destruct c|]. intros r _. by apply IH.
Qed.

Ltac careful_step := first [apply quiet_careful; [intros [? ?] ?|solve [auto with quiet]]; cbn beta | safe_step].
Ltac careful_all := repeat careful_step; try done.

(** As [safe_step], and the branch taken is remembered. *)
Ltac safe_case :=
  match goal with
  | |- safe _ _ _ _ _ (if ?b then _ else _) => destruct b eqn:?
  | |- safe _ _ _ _ _ (match ?x with _ => _ end) => destruct x eqn:?
  | |- _ => safe_step
  end.

Lemma implies_or (c : bool) (P : Prop) `{Decision P} : negb (bool_decide P) && negb c = false → P ∨ c = true.
Proof. destruct c; [by right|]. case_bool_decide; [by left|done]. Qed.

Lemma approve_cases f :
  negb (af_post f) && (af_html f || negb (bool_decide (af_approve f = ""))) = false →
  af_post f && negb (bool_decide (af_post_approve f = "true")) = false →
  if af_post f then af_post_approve f = "true" else af_html f = false ∧ af_approve f = "".
Proof. destruct (af_post f), (af_html f); cbn; repeat case_bool_decide; done. Qed.

Lemma authorize_careful f : careful done_with (RqAuthorize f, []) (HandleOAuthAuthorize s f).
Proof.
  unfold_authorize. repeat safe_case; try done; cbn [code_permits code_after fst snd app] in *; simplify_eq;
    (exists f; split; [done|]);
    repeat match goal with
    | H : bool_decide _ = true |- _ => apply bool_decide_eq_true in H
    | H : bool_decide _ = false |- _ => apply bool_decide_eq_false in H
    | H : negb _ = false |- _ => apply negb_false_iff in H
    | H : _ || _ = false |- _ => apply orb_false_elim in H as [? ?]
    end;
    (split; cbn [ac_ClientID ac_RedirectURI ac_CodeChallenge ac_SubjectJWT ac_ActorPeerID ac_ExpiresAt];
      [split; [done|assumption]|split; [done|]; by eapply implies_or; eassumption|split; [done|assumption]
      |split; [done|]; do 3 eexists; split_and!; [|eassumption|assumption|intros Hne]; [seen|]
      |intros Hne|by apply approve_cases|split; [seen|done]]); try done.
  all: repeat case_match; simplify_eq; try seen.
  all: match goal with Ha : is_ok (CheckAdmission ?t ?n) = true |- _ => apply is_ok_true in Ha as [[] Ha]; split; [done|]; exists n, t end.
  all: split_and!; [seen|seen|done].
Qed.

Lemma handler_careful rq : careful done_with (rq, []) (handler s rq).
Proof.
  destruct rq; cbn [handler].
  - unfold HandleRegister, register_mint. careful_all.
  - unfold HandleRefresh, refresh_record, refresh_mint. careful_all.
  - unfold HandleEnroll, enroll_token, enroll_proved, enroll_existing, enroll_new, enroll_auto, remintApprovedBootstrapBiscuit. careful_all.
  - careful_all.
  - unfold HandleAdminBootstrapTokens, checkAdminAuth, requireUser, create_token. careful_all.
  - unfold HandleAdminBootstrapTokenAction, checkAdminAuth, requireUser. careful_all.
  - unfold HandleUserBootstrapTokens, requireUser, create_token. careful_all.
  - unfold HandleAdminEnrollmentAction, checkAdminAuth, requireUser, approve. careful_all.
  - unfold HandleAdminRevoke, checkAdminAuth, requireUser, find_node, ban_and_publish, banNode, SetNodeBan. careful_all.
  - unfold HandleUserRevoke, requireUser, find_node, ban_and_publish, banNode, SetNodeBan. careful_all.
  - unfold HandleAdminNodeAction, checkAdminAuth, requireUser, find_node, SetNodeBan. careful_all.
  - careful_all.
  - careful_all.
  - unfold gcStorage, gcExpiredNodes, gcEnrollmentRecords, DeleteSilentBootstrapNodes, DeleteStaleEnrollmentRequests, pruneCatalog. careful_all.
  - careful_all.
  - careful_all.
  - careful_all.
  - careful_all.
  - careful_all.
  - careful_all.
  - careful_all.
  - apply authorize_careful.
  - careful_all.
Qed.

(** ** Histories *)

(** Every call of the thread was permitted by the calls before it. *)
Definition careful_trace (i : nat) (rq : request) (m : request * list performed) (tr : list performed) : Prop :=
  m = (rq, tr) ∧ ∀ before e after, tr = before ++ e :: after → code_permits (rq, before) (projT1 e).

Lemma careful_snoc i rq m tr c r :
  careful_trace i rq m tr → code_permits m c → any_reply c r → careful_trace i rq (code_after m c r) (tr ++ [existT c r]).
Proof.
  intros [-> Htr] Hc _. split; [done|]. intros before e after He.
  destruct after as [|e' after _] using rev_ind.
  - apply app_inj_tail in He as [-> <-]. done.
  - rewrite app_comm_cons, (assoc_L (++)) in He. apply app_inj_tail in He as [-> _]. by eapply Htr.
Qed.

Lemma careful_laws : monitor_laws code_permits any_reply code_after (λ _, True) careful_trace.
Proof. split; try done. intros i rq m tr c r. apply careful_snoc. Qed.

Lemma careful_history w hs th before e after :
  th ∈ cf_threads (history s {| cf_world := w; cf_threads := [] |} hs) →
  th_trace th = before ++ e :: after → code_permits (th_request th, before) (projT1 e).
Proof.
  intros [i Hi]%list_elem_of_lookup He.
  destruct (history_ok s code_permits any_reply code_after (λ _, True) careful_trace 0 careful_laws
              {| cf_world := w; cf_threads := [] |} hs) as (_ & _ & Hth).
  - apply Forall_forall. intros [rq| | |] _; try done. exists (rq, []). split; [|apply handler_careful].
    intros j _. split; [done|]. intros b' e' a' Hnil. by destruct b'.
  - split_and!; [done|done|]. intros j th' Hj. simpl in Hj. by rewrite lookup_nil in Hj.
  - destruct (Hth i th Hi) as (m & [_ Hp] & _). by eapply Hp.
Qed.

(** Only two calls touch the codes. *)
Definition touches_codes (c : call) : bool := match c with MAddCode _ _ _ | MTakeCode _ => true | _ => false end.

Local Abbreviation codes_of w := (mem_oauthCodes (w_mem w)).

Lemma write_codes w (r : result Database) : codes_of (write w r).2 = codes_of w.
Proof. by destruct r. Qed.

Lemma run_call_codes w ch c : touches_codes c = false → codes_of (run_call w ch c).2 = codes_of w.
Proof.
  intros Hc. assert (Ha : ∀ drawn, codes_of (answered w drawn c).2 = codes_of w).
  { intros drawn. destruct c; try done; cbn [answered]; try apply write_codes. cbn. unfold revoke_locked. cbv zeta. by case_bool_decide. }
  unfold run_call. destruct ch; auto. by destruct (broken c).
Qed.

Lemma add_code_cases now code entry m :
  ∃ live, live ⊆ mem_oauthCodes m ∧
    (add_code now code entry m = (false, set_oauthCodes m live) ∨
     (Z.of_nat (size live) < maxPendingOAuthCodes)%Z ∧ add_code now code entry m = (true, set_oauthCodes m (<[code := entry]> live))).
Proof.
  unfold add_code. cbv zeta. set (live := filter _ _). exists live. split; [apply map_filter_subseteq|].
  destruct (Z.leb_spec maxPendingOAuthCodes (Z.of_nat (size live))); [by left|]. by right.
Qed.

Lemma ledger_add_call w now code entry calls :
  let r := add_code now code entry (w_mem w) in
  ledger (codes_of w) calls → ledger (mem_oauthCodes r.2) (calls ++ [existT (MAddCode now code entry) r.1]).
Proof.
  cbv zeta. destruct (add_code_cases now code entry (w_mem w)) as (live & Hsub & [->|[Hlt ->]]); intros Hl;
    apply (ledger_drop _ live) in Hl; try exact Hsub; cbn [fst snd set_oauthCodes mem_oauthCodes]; [by apply ledger_other|by apply ledger_add].
Qed.

Lemma ledger_answered w drawn c calls :
  ledger (codes_of w) calls → ledger (codes_of (answered w drawn c).2) (calls ++ [existT c (answered w drawn c).1]).
Proof.
  intros Hl. destruct (touches_codes c) eqn:Hc; cycle 1.
  { pose proof (run_call_codes w (Draw drawn) c Hc) as Hsame. cbn [run_call] in Hsame. rewrite Hsame.
    apply ledger_other; [by destruct c..|done]. }
  destruct c; try discriminate Hc.
  - exact (ledger_add_call w now code entry calls Hl).
  - exact (ledger_take _ _ code Hl).
Qed.

Lemma ledger_call w ch c calls :
  ledger (codes_of w) calls → ledger (codes_of (run_call w ch c).2) (calls ++ [existT c (run_call w ch c).1]).
Proof.
  intros Hl. unfold run_call. destruct ch; try by apply ledger_answered. destruct (broken c) as [r|] eqn:Hb; [|by apply ledger_answered].
  apply ledger_other; [by destruct c|by destruct c|done].
Qed.

Lemma ledger_history w hs :
  let cf := history s {| cf_world := w; cf_threads := [] |} hs in
  codes_of w = ∅ → ledger (codes_of (cf_world cf)) (all_calls cf).
Proof.
  intros cf Hw. subst cf. induction hs as [|h hs IH] using rev_ind.
  { simpl. rewrite Hw. split; simpl; [done|by intros ? ? ?%lookup_empty_Some|by intros ? ?%elem_of_nil|done]. }
  unfold history in *. rewrite foldl_snoc. set (cf := foldl _ _ _) in *.
  destruct (step_cases s cf h) as [[Hp [_ Hm]]|(th & c & k & ch & Hth & Hprog & Hw' & Hp)]; rewrite Hp.
  - by rewrite Hm.
  - rewrite Hw'. by apply ledger_call.
Qed.

(** ** Redeeming a code *)

(** The actor of a grant that names none: the node whose credential came with
    the request, or else the control plane. *)
Definition default_actor (bearer : option (result string)) (tr : list performed) (actor : string) : Prop :=
  (∃ n, credentialed bearer tr n ∧ peer_Decode (en_PeerID n) = Ok actor) ∨
  (∃ priv pub, replied tr CGetCurrentKey (Ok (priv, pub)) ∧ IDFromPublicKey pub = Ok actor).

Lemma default_actor_mono bearer tr tr' actor : tr ⊆ tr' → default_actor bearer tr actor → default_actor bearer tr' actor.
Proof.
  intros Hsub [(n & Hn & Hp)|(priv & pub & Hk & Hp)]; [left; eauto using credentialed_mono|right]. unfold replied in *. eauto.
Qed.

Lemma default_actor_answers bearer tr actor : answers (resolveDefaultActorPeer bearer) tr (Ok actor) → default_actor bearer tr actor.
Proof.
  unfold resolveDefaultActorPeer. intros (tr1 & tr2 & r & -> & (_ & _ & Hn)%admittedNode_answers & H)%answers_bind.
  repeat along H; simplify_eq; try (case_match; simplify_eq).
  - left. exists e. rewrite (right_id_L [] (++)). auto.
  - right. destruct a as [priv pub]. exists priv, pub. split; [apply replied_app_r; seen|done].
Qed.

Lemma guard_implies (P Q : Prop) `{Decision P, Decision Q} : negb (bool_decide P) && negb (bool_decide Q) = false → ¬ P → Q.
Proof. repeat case_bool_decide; done. Qed.

(** What a code grant that succeeds has checked of the entry it took. *)
Record redeems (f : TokenForm) (tr : list performed) (entry : oauthAuthCode) (b : string) : Prop := {
  rd_taken : replied tr (MTakeCode (TrimSpace (tf_code f))) (Some entry);
  rd_fresh : ∃ now, replied tr Now now ∧ (now ≤ ac_ExpiresAt entry)%Z;
  rd_client : ac_ClientID entry ≠ "" → TrimSpace (tf_client_id f) = ac_ClientID entry;
  rd_redirect : ac_RedirectURI entry ≠ "" → TrimSpace (tf_redirect_uri f) = ac_RedirectURI entry;
  rd_verifier : code_challenge (TrimSpace (tf_code_verifier f)) = ac_CodeChallenge entry;
  rd_minted : ∃ actor e principal roles,
    (if decide (ac_ActorPeerID entry = "") then default_actor (tf_bearer f) tr actor else actor = ac_ActorPeerID entry) ∧
    delegated s tr (ac_SubjectJWT entry) actor (ac_TAR entry) (tf_seal f) 0 false b e principal roles;
}.

Lemma redeems_mono f tr tr' entry b : tr ⊆ tr' → redeems f tr entry b → redeems f tr' entry b.
Proof.
  intros Hsub [Ht (now & Hn & Hle) Hc Hr Hv (actor & e & principal & roles & Ha & Hm)]. split; try done.
  - unfold replied in *. auto.
  - exists now. unfold replied in *. auto.
  - exists actor, e, principal, roles. split; [case_decide; eauto using default_actor_mono|by eapply delegated_mono].
Qed.

Lemma code_mint_answers f entry actor tr b secs :
  answers (code_mint s f entry actor) tr (AccessToken b secs) →
  ∃ e principal roles, delegated s tr (ac_SubjectJWT entry) actor (ac_TAR entry) (tf_seal f) 0 false b e principal roles.
Proof.
  unfold code_mint, access_token. intros (tr1 & tr2 & m & -> & Hm & H)%answers_bind. destruct m as [?|[[[? ?] ?] ?]]; repeat along H; simplify_eq.
  apply mintDelegated_answers in Hm. do 3 eexists. eapply delegated_mono; [|exact Hm]. set_solver.
Qed.

Lemma redeems_answers f tr b secs :
  answers (handleOAuthAuthCodeGrant s f) tr (AccessToken b secs) → ∃ entry, redeems f tr entry b.
Proof.
  unfold handleOAuthAuthCodeGrant. intros H. cbv zeta in H. along H; [by along H|]. along H. along H; [|by along H]. along H.
  do 4 (along H; [by along H|]). subst r. apply negb_false_iff, bool_decide_eq_true in Heqb4. apply Z.ltb_ge in Heqb1. exists o. split.
  - seen.
  - exists r0. split; [seen|done].
  - by eapply guard_implies.
  - by eapply guard_implies.
  - done.
  - case_decide as Ha; [rewrite bool_decide_true in H by done|rewrite bool_decide_false in H by done].
    + apply answers_bind in H as (tr1 & tr2 & r & -> & Hr & H). along H; [subst r|by along H]. apply default_actor_answers in Hr.
      apply code_mint_answers in H as (e & principal & roles & Hd). exists a, e, principal, roles. split.
      * eapply default_actor_mono; [|exact Hr]. set_solver.
      * eapply delegated_mono; [|exact Hd]. set_solver.
    + apply code_mint_answers in H as (e & principal & roles & Hd). exists (ac_ActorPeerID o), e, principal, roles. split; [done|].
      eapply delegated_mono; [|exact Hd]. set_solver.
Qed.

Lemma issue_member x cf :
  x ∈ omap issue_of (all_calls cf) →
  ∃ th before now after, th ∈ cf_threads cf ∧ th_trace th = before ++ existT (MAddCode now x.1 x.2) true :: after.
Proof.
  intros ([c r] & He & Hx)%list_elem_of_omap. apply list_elem_of_bind in He as (th & Hc & Hth).
  apply list_elem_of_split in Hc as (before & after & Hc). destruct c; try done. destruct r; [|done]. cbn in Hx. injection Hx as <-.
  by exists th, before, now, after.
Qed.

(** C15: An authorization code stands for one consent.  In every history of
    concurrent requests from a server without codes: a code is redeemed at most
    as often as it was handed out, at most 4096 codes wait to be redeemed, and
    every access token of the authorization code grant was redeemed with a code
    whose entry a request to [/oauth/authorize] recorded, after it had verified
    the subject's ID token and its bans and the consent was given; by the same
    client with the same redirection, with a verifier that hashes to the
    challenge of that request, before it expired; and it is a credential of that
    subject, for that actor, with the rights consented to. *)
Theorem oauth_code_once w hs :
  let cf := history s {| cf_world := w; cf_threads := [] |} hs in
  codes_of w = ∅ →
  (∀ code, redemptions code (all_calls cf) ≤ issues code (all_calls cf)) ∧
  (Z.of_nat (size (codes_of (cf_world cf))) ≤ maxPendingOAuthCodes)%Z ∧
  ∀ th f b secs, th ∈ cf_threads cf → th_request th = RqOAuthToken f → tf_grant_type f = GrantTypeAuthorizationCode →
    th_prog th = Ret (AccessToken b secs) →
    ∃ entry th' f' before now after, redeems f (th_trace th) entry b ∧
      th' ∈ cf_threads cf ∧ th_request th' = RqAuthorize f' ∧
      th_trace th' = before ++ existT (MAddCode now (TrimSpace (tf_code f)) entry) true :: after ∧ consented f' before now entry.
Proof.
  intros cf Hw. pose proof (ledger_history w hs Hw) as Hl. fold cf in Hl. split_and!; [|apply Hl|].
  { intros code. pose proof (ld_balance _ _ Hl code). lia. }
  intros th f b secs Hth Hrq Hgrant Hprog. pose proof (history_on_course s w hs) as Hc. rewrite Forall_forall in Hc.
  specialize (Hc th Hth). unfold on_course in Hc. rewrite Hrq, Hprog in Hc. cbn [handler] in Hc. unfold HandleOAuthToken in Hc.
  apply answers_perform in Hc as (r & tr & Htr & Hc). along Hc; [by along Hc|]. rewrite bool_decide_true in Hc by done.
  apply redeems_answers in Hc as [entry Hr]. assert (Hi : (TrimSpace (tf_code f), entry) ∈ omap issue_of (all_calls cf)).
  { apply (ld_redeemed _ _ Hl). apply list_elem_of_omap. exists (existT (MTakeCode (TrimSpace (tf_code f))) (Some entry)). split; [|done].
    apply list_elem_of_bind. exists th. split; [|done]. rewrite Htr. right. exact (rd_taken _ _ _ _ Hr). }
  apply issue_member in Hi as (th' & before & now & after & Hth' & Htr'). cbn [fst snd] in Htr'.
  destruct (careful_history w hs th' before _ after Hth' Htr') as (f' & Hrq' & Hcons).
  exists entry, th', f', before, now, after. split_and!; try done. eapply redeems_mono; [|exact Hr]. rewrite Htr. set_solver.
Qed.
End handlers.

(** ** A code that is redeemed twice *)

(** Two requests race for the code. *)
Definition code_race : list happening :=
  Arrive (RqAuthorize authorize_form) :: replicate 20 (Step 0 (Draw "xyz")) ++ [Arrive (RqOAuthToken code_form); Arrive (RqOAuthToken code_form)] ++
  concat (replicate 20 [Step 1 Proceed; Step 2 Proceed]).

Definition code_raced : Config := scenario_history false (scenario_config (members "")) code_race.

Lemma oauth_code_once_witness :
  (answer_of code_raced 1 = Some (AccessToken (token_bytes 6) 30) ∧ answer_of code_raced 2 = Some (OAuthError 400 "invalid_grant")) ∧
  redemptions "eHl6" (all_calls code_raced) ≤ issues "eHl6" (all_calls code_raced).
Proof.
  split; [by vm_compute|].
  destruct (@oauth_code_once ascii_case one_rule_codec scenario_tokens reference_text naive_engine plain_codec padded_digest text_keys
    subject_tokens subject_codec ascii_print no_urls no_loopback no_key_peer plain_addrs no_policy_codec (scenario_server false)
    (scenario_world (members "")) code_race) as (Honce & _).
  - reflexivity.
  - apply (Honce "eHl6").
Defined.

(** ** Boundaries *)

(** A lifetime asked for in seconds is turned into 64-bit nanoseconds: one of
    9223372037 seconds (292 years) is read as one that has passed, and the
    credential is minted expired. *)
Example long_lifetime_expires : (delegated_ttl (scenario_server false) 9223372037 < 0)%Z.
Proof. by vm_compute. Qed.

(** The store holds a revocation and every read is answered but that of the
    revocations: the members are told that nothing is revoked. *)
Definition revocations_unread : Config :=
  scenario_history false (scenario_config (SaveRevokedBiscuit "stolen" (1000 * second)%Z (members "")))
    (Arrive (RqRevocations bearer_a (Some (signed_by_a RevocationsChallenge))) :: steps 0 8 ++ [Step 0 Break] ++ steps 0 5).

Example revocations_fail_open : answer_of revocations_unread 0 = Some (Revocations [] []).
Proof. by vm_compute. Qed.
