(* ===== verification/BanFacts.v ===== *)
(** * Bans hold

    A ban outlives every request that is in flight when it is recorded, and no
    request that arrives afterwards enrolls the banned peer or the banned
    identity again, in every history of concurrent requests without an unban.
    The one exception is an administrator's approval, which consults no ban
    ([approval_admits_banned]). *)

From S2P Require Import Prelude GoStrings Regex Names Biscuit NaiveEngine Facts DatalogText Grants Labels HTTPGrants PolicyRules Egress Base64 Tar Token TokenModel Identity Mint Middleware Directory Keyring Decimal PolicyStore Store StoreFacts ControlPlane PolicyConfig Enrollment Admin Members Sts OAuth Machine Scenario.

(** ** Nodes and bans after a call *)

(** The calls that write the nodes or the banned identities. *)
Definition writes_nodes (c : call) : bool :=
  match c with
  | CEnrollNode _ | CSetNodeAndIdentityBanned _ _ _ | CSetNodeAutonomousRecovery _ _ | CDeleteExpiredNodes _ | CDeleteSilent _ _ => true
  | _ => false
  end.

(** A call that lifts the ban of the peer, of the identity. *)
Definition unbans_peer (p : string) (c : call) : Prop :=
  match c with CSetNodeAndIdentityBanned q _ false => q = p | _ => False end.
Definition unbans_identity (k : string) (c : call) : Prop :=
  match c with CSetNodeAndIdentityBanned _ i false => i = k | _ => False end.

Section store.
Context `{PO : PolicyCodec}.

(** A call that is answered, or one that fails and changes nothing. *)
Lemma run_call_cases w ch c : (∃ drawn, run_call w ch c = answered w drawn c) ∨ (broken c = Some (run_call w ch c).1 ∧ (run_call w ch c).2 = w).
Proof. unfold run_call. destruct ch; [by left; eexists|destruct (broken c) eqn:Hb; [by right|by left; eexists]|by left; eexists]. Qed.

Lemma write_frame (P : Database → Prop) w r : (∀ db, r = Ok db → P db) → P (w_db w) → P (w_db (write w r).2).
Proof. intros HP Hw. destruct r as [db|e]; [by apply HP|done]. Qed.

Lemma answered_nodes w drawn c : writes_nodes c = false →
  db_nodes (w_db (answered w drawn c).2) = db_nodes (w_db w) ∧
  db_banned_identities (w_db (answered w drawn c).2) = db_banned_identities (w_db w).
Proof.
  intros Hc. destruct c; try done; cbn [answered];
    apply (write_frame (λ db, db_nodes db = db_nodes (w_db w) ∧ db_banned_identities db = db_banned_identities (w_db w)));
    try done; intros db Hdb;
    unfold CreateEnrollmentRequest, SaveBootstrapToken, ConsumeBootstrapTokenUsage, RevokeBootstrapToken, ResolveEnrollmentRequest in Hdb;
    repeat case_match; by inv_ok.
Qed.

(** A property of the nodes and the bans holds after a call when the call does
    not write them, and when the statements that do preserve it. *)
Lemma run_call_frame (P : Database → Prop) w ch c :
  (∀ db db', db_nodes db' = db_nodes db → db_banned_identities db' = db_banned_identities db → P db → P db') →
  (∀ drawn, writes_nodes c = true → P (w_db (answered w drawn c).2)) →
  P (w_db w) → P (w_db (run_call w ch c).2).
Proof.
  intros Hproper Hwrites HP. destruct (run_call_cases w ch c) as [[drawn ->]|[_ ->]]; [|done].
  destruct (writes_nodes c) eqn:Hc; [by apply Hwrites|]. destruct (answered_nodes w drawn c Hc). by apply (Hproper (w_db w)).
Qed.

Lemma run_call_keyed w ch c : keyed (w_db w) → keyed (w_db (run_call w ch c).2).
Proof.
  intros Hw. apply run_call_frame; [|intros drawn Hc|done].
  { unfold keyed. by intros ? ? ->. }
  destruct c; try done; cbn [answered].
  - apply (write_frame keyed); [|done]. intros db Hdb. by apply (EnrollNode_keyed _ _ _ _ Hdb).
  - apply (write_frame keyed); [|done]. intros db Hdb. by apply (ban_keyed _ _ _ _ _ _ Hdb).
  - apply (write_frame keyed); [|done]. intros db Hdb. revert Hdb Hw. by apply update_node_keyed.
  - by apply delete_nodes_keyed.
  - by apply delete_nodes_keyed.
Qed.

Lemma run_call_banned p w ch c : ¬ unbans_peer p c → peer_banned p (w_db w) → peer_banned p (w_db (run_call w ch c).2).
Proof.
  intros Hno Hw. apply run_call_frame; [|intros drawn Hc|done].
  { unfold peer_banned. by intros ? ? ->. }
  destruct c; try done; cbn [answered].
  - apply (write_frame (peer_banned p)); [|done]. intros db Hdb. by apply (EnrollNode_banned _ _ _ _ _ Hdb).
  - apply (write_frame (peer_banned p)); [|done]. intros db Hdb. revert Hdb Hw. apply ban_banned. by intros ->; destruct banned.
  - apply (write_frame (peer_banned p)); [|done]. intros db Hdb. revert Hdb Hw. by apply update_node_banned.
  - apply delete_nodes_banned; [|done]. intros n ->. done.
  - apply delete_nodes_banned; [|done]. intros n Hn. unfold silent. by rewrite Hn.
Qed.

Lemma run_call_identity k w ch c :
  ¬ unbans_identity k c → identity_banned k (w_db w) → identity_banned k (w_db (run_call w ch c).2).
Proof.
  intros Hno Hw. apply run_call_frame; [|intros drawn Hc|done].
  { unfold identity_banned. by intros ? ? _ ->. }
  destruct c; try done; cbn [answered]; (apply (write_frame (identity_banned k)); [|done]); intros db Hdb.
  - apply EnrollNode_frame in Hdb. by subst.
  - revert Hdb Hw. apply ban_identity. by intros ->; destruct banned.
  - apply update_node_frame in Hdb as (n & _ & ->). done.
Qed.
End store.

(** ** The monitor *)

(** Which enrollments a handler must not record: those of the banned peer, those
    of the banned identity. *)
Record level := { lv_peer : bool; lv_identity : bool }.

Definition lenient : level := {| lv_peer := false; lv_identity := false |}.

Section ban.
Context `{UC : UnicodeCase, TC : TARCodec, BT : BiscuitTokens, TX : BiscuitText, BE : BiscuitEngine, PC : PeerCodec, SH : SHA256,
          PK : PeerKeys, OL : OIDCLibrary, CC : ClaimsCodec, UP : UnicodePrint, UR : URLParser, LO : LoopbackIP, KP : KeyPeer, MA : Multiaddr, PO : PolicyCodec}.
Variable s : Server.
(** The peer and the identity that are banned. *)
Variables (p k : option string).

(** The claims on the record are those of the identity. *)
Definition claims_name (claimsJSON identity : string) : Prop :=
  ∃ c, claims_Unmarshal claimsJSON = Ok c ∧ oidcIdentityKey c = identity.

Definition names_banned (claimsJSON : string) : Prop := ∃ i, k = Some i ∧ claims_name claimsJSON i.

Definition ban_permits (lv : level) (c : call) : Prop :=
  match c with
  | CSetNodeAndIdentityBanned q i false => p ≠ Some q ∧ k ≠ Some i
  | CEnrollNode n => (lv_peer lv = true → p ≠ Some (en_PeerID n)) ∧ (lv_identity lv = true → ¬ names_banned (en_ClaimsJSON n))
  | _ => True
  end.

(** What the store answers once the ban is [recorded]. *)
Definition ban_rely (recorded : Prop) (c : call) : reply c → Prop :=
  match c as c return reply c → Prop with
  | CGetNode q => λ r, ∀ n, r = Ok n → en_PeerID n = q ∧ (recorded → p = Some q → en_Banned n = true)
  | CIsNodeBanned q => λ r, recorded → p = Some q → r ≠ Ok false
  | CIsIdentityBanned i => λ r, recorded → k = Some i → r ≠ Ok false
  | _ => λ _, True
  end.

Definition ban_after (lv : level) (c : call) (r : reply c) : level := lv.

Variable recorded : Prop.
Variable lv : level.
Hypothesis Hpeer : lv_peer lv = true → recorded.
Hypothesis Hidentity : lv_identity lv = true → recorded.
Hypothesis Hk : k ≠ Some "".

Local Abbreviation bans Q := (safe ban_permits (ban_rely recorded) ban_after Q lv).

Lemma quiet_bans {A} (Q : level → A → Prop) prg : (∀ a, Q lv a) → quiet prg → bans Q prg.
Proof. intros HQ. apply safe_quiet; [|done]. intros c Hc. by destruct c. Qed.

(** The claims that are read and written are remembered. *)
Ltac codec_step :=
  match goal with
  | |- safe _ _ _ _ _ (internal (claims_Marshal ?c) _) => destruct (claims_Marshal c) eqn:?; unfold internal
  | |- safe _ _ _ _ _ (match claims_Marshal ?c with _ => _ end) => destruct (claims_Marshal c) eqn:?
  | |- safe _ _ _ _ _ (match claims_Unmarshal ?t with _ => _ end) => destruct (claims_Unmarshal t) eqn:?
  end.

Ltac ban_step :=
  match goal with |- safe _ _ _ _ _ (refresh_attest _ _ _) => fail 1 | _ => idtac end;
  first [apply quiet_bans; [intros ?; cbn beta|solve [auto with quiet]] | codec_step | safe_step];
  cbn [ban_permits ban_rely] in *; change (ban_after ?l ?c ?r) with l in *; try done.
Ltac ban_all := repeat ban_step; try done.

Lemma marshal_clean claims t : claims_Marshal claims = Ok t → k ≠ Some (oidcIdentityKey (Some claims)) → ¬ names_banned t.
Proof.
  intros Ht Hne (i & -> & c & Hc & <-). destruct (claims_roundtrip claims t Ht) as (_ & c' & Hc' & Hs & _).
  rewrite Hc in Hc'. injection Hc' as ->. destruct Hne. unfold oidcIdentityKey. by rewrite !Hs.
Qed.

Lemma empty_clean : ¬ names_banned "".
Proof. intros (i & _ & c & Hc & _). by apply claims_empty in Hc. Qed.

Lemma HandleRegister_bans req : bans done_with (HandleRegister s req).
Proof.
  unfold HandleRegister, register_mint. ban_all. split; [naive_solver|]. intros Hi. eapply marshal_clean; [done|]. naive_solver.
Qed.

Lemma identity_gate_bans key (Q : level → answer + unit → Prop) :
  (∀ a, Q lv (inl a)) → ((recorded → k ≠ Some key) → Q lv (inr tt)) → bans Q (identity_gate key).
Proof. intros Hl Hr. unfold identity_gate. ban_all. destruct r as [[]|]; [apply Hl|apply Hr; naive_solver|apply Hl]. Qed.

(** The claims that a refresh goes on with are not the banned identity's. *)
Lemma refresh_attest_bans req n (Q : level → answer + string * time → Prop) :
  (∀ a, Q lv (inl a)) → (∀ json t, (lv_identity lv = true → ¬ names_banned json) → Q lv (inr (json, t))) →
  bans Q (refresh_attest s req n).
Proof.
  intros Hl Hr. unfold refresh_attest. destruct (negb (bool_decide (tr_Jwt req = ""))).
  - ban_all; auto. apply identity_gate_bans; [intros a'; ban_all; auto|]. intros Hgate. ban_all; auto.
    apply Hr. intros Hi. eapply marshal_clean; [done|]. auto.
  - case_bool_decide as Hempty; cbn [negb].
    { apply safe_ret, Hr. rewrite Hempty. intros _. apply empty_clean. }
    ban_step; [|apply safe_ret, Hl]. cbv zeta. case_bool_decide as Hkey.
    + apply safe_ret, Hr. intros _ (i & -> & c & Hc & <-). congruence.
    + apply safe_bind, identity_gate_bans; [intros a'; apply safe_ret, Hl|]. intros Hgate. apply safe_ret, Hr.
      intros Hi (i & -> & c & Hc & <-). apply Hgate; [auto|congruence].
Qed.

Lemma CheckAdmission_banned t n : en_Banned n = true → CheckAdmission t n = Err ErrNodeBanned.
Proof. unfold CheckAdmission. by intros ->. Qed.

Lemma refresh_mint_bans n canonical claimsJSON expiresAt :
  (lv_peer lv = true → p ≠ Some (en_PeerID n)) → (lv_identity lv = true → ¬ names_banned claimsJSON) →
  bans done_with (refresh_mint s n canonical claimsJSON expiresAt).
Proof. intros Hp Hi. unfold refresh_mint. ban_all. Qed.

Lemma refresh_record_bans req b canonical recovering : bans done_with (refresh_record s req b canonical recovering).
Proof.
  unfold refresh_record. cbv zeta. apply safe_perform; [done|]. intros [e|er] Hrely; [|ban_all].
  ban_step. case_bool_decide as Hadm; [ban_all|]. destruct (Hrely e eq_refl) as [Hid Hb].
  assert (Hp : lv_peer lv = true → p ≠ Some (en_PeerID e)).
  { intros Hlv Heq. apply Hadm, CheckAdmission_banned, Hb; [auto|congruence]. }
  ban_all; apply refresh_attest_bans; intros *; ban_all; intros ?; ban_all; by apply refresh_mint_bans.
Qed.

Lemma HandleRefresh_bans bearer req : bans done_with (HandleRefresh s bearer req).
Proof. unfold HandleRefresh. ban_all; apply refresh_record_bans. Qed.

Lemma remint_bans Q existingReq tok :
  lv_identity lv = false → (∀ a, Q lv a) → bans Q (remintApprovedBootstrapBiscuit s existingReq tok).
Proof.
  intros Hi HQ. unfold remintApprovedBootstrapBiscuit. destruct (peer_Decode (er_PeerID existingReq)) as [pID|e]; [|ban_all].
  apply safe_perform; [done|]. intros [n|e] Hrely; [|ban_all]. destruct (Hrely n eq_refl) as [Hid Hb].
  ban_step; [ban_all|]. ban_step. destruct (CheckAdmission r n) eqn:Hadm; [|ban_all].
  assert (Hp : lv_peer lv = true → p ≠ Some (en_PeerID n)).
  { intros Hlv Heq. rewrite CheckAdmission_banned in Hadm; [done|]. apply Hb; [auto|congruence]. }
  ban_all. split; [done|congruence].
Qed.

Lemma enroll_proved_bans req tok canonical : lv_identity lv = false → bans done_with (enroll_proved s req tok canonical).
Proof.
  intros Hi. unfold enroll_proved, enroll_existing, enroll_new, enroll_auto. ban_all.
  - by apply remint_bans; [done|intros [[? ?]|?]; ban_all].
  - split; [naive_solver|congruence].
Qed.

Lemma HandleEnroll_bans req : lv_identity lv = false → bans done_with (HandleEnroll s req).
Proof. intros Hi. unfold HandleEnroll, enroll_token. ban_all. by apply enroll_proved_bans. Qed.

Lemma create_token_bans req role owner : bans done_with (create_token req role owner).
Proof. unfold create_token. ban_all. Qed.

Lemma approve_bans id enrollReq : lv = lenient → bans done_with (approve s id enrollReq).
Proof. intros Hlv. unfold approve. ban_all. by rewrite Hlv. Qed.

Lemma requireUser_bans auth kk : (∀ u, bans done_with (kk u)) → bans done_with (requireUser s auth kk).
Proof. intros Hkk. unfold requireUser. ban_all. Qed.

Lemma checkAdminAuth_bans auth prg : bans done_with prg → bans done_with (checkAdminAuth s auth prg).
Proof. intros Hprg. apply requireUser_bans. intros u. ban_all. Qed.

Lemma find_node_bans peerID kk : (∀ n, en_PeerID n = peerID → bans done_with (kk n)) → bans done_with (find_node peerID kk).
Proof. intros Hkk. unfold find_node. ban_all. apply Hkk. naive_solver. Qed.

Lemma SetNodeBan_bans Q n banned : (banned = false → p ≠ Some (en_PeerID n) ∧ k = None) → (∀ a, Q lv a) → bans Q (SetNodeBan n banned).
Proof. intros Hb HQ. unfold SetNodeBan. ban_all. destruct banned; [done|]. destruct Hb as [? ->]; done. Qed.

Lemma ban_and_publish_bans n : bans done_with (ban_and_publish n).
Proof. unfold ban_and_publish, banNode. ban_all. apply SetNodeBan_bans; [done|]. intros [?|?]; ban_all. Qed.

(** The request lifts no ban of the peer, and none at all when an identity is
    banned. *)
Definition keeps_ban (rq : request) : Prop :=
  match rq with
  | RqNodeAction _ path _ =>
      match Split (TrimPrefix path "/admin/nodes/") "/" with
      | [peer; action] => action = "unban" → k = None ∧ ∀ q, peer_Decode peer = Ok q → p ≠ Some q
      | _ => True
      end
  | _ => True
  end.

Lemma HandleAdminNodeAction_bans auth path enabled :
  keeps_ban (RqNodeAction auth path enabled) → bans done_with (HandleAdminNodeAction s auth path enabled).
Proof.
  intros Hrq. apply checkAdminAuth_bans. simpl in Hrq. destruct (Split _ _) as [|peer [|action [|]]]; try (by ban_all).
  destruct (peer_Decode peer) as [q|e]; [|ban_all]. case_bool_decide as Ha; [|ban_all].
  destruct (Hrq Ha) as [Hnone Hq]. apply find_node_bans. intros n Hn. ban_all. apply SetNodeBan_bans.
  - intros _. split; [|done]. rewrite Hn. by apply Hq.
  - intros [?|?]; ban_all.
Qed.

(** What a handler of the request must not record. *)
Definition level_of (rq : request) : level :=
  match rq with
  | RqResolve _ _ => lenient
  | RqEnroll _ => {| lv_peer := true; lv_identity := false |}
  | _ => {| lv_peer := true; lv_identity := true |}
  end.

Lemma handler_bans rq : keeps_ban rq → lv = lenient ∨ lv = level_of rq → bans done_with (handler s rq).
Proof.
  intros Hrq Hlv. destruct rq; cbn [handler].
  - apply HandleRegister_bans.
  - apply HandleRefresh_bans.
  - apply HandleEnroll_bans. by destruct Hlv as [-> | ->].
  - ban_all.
  - apply checkAdminAuth_bans. ban_all. apply create_token_bans.
  - apply checkAdminAuth_bans. ban_all.
  - apply requireUser_bans. intros u. ban_all; apply create_token_bans.
  - apply checkAdminAuth_bans. ban_all. apply approve_bans. by destruct Hlv.
  - apply checkAdminAuth_bans. ban_all. apply find_node_bans. intros n _. apply ban_and_publish_bans.
  - apply requireUser_bans. intros u. ban_all. apply find_node_bans. intros n _. ban_all. apply ban_and_publish_bans.
  - by apply HandleAdminNodeAction_bans.
  - ban_all.
  - ban_all.
  - unfold gcStorage, gcExpiredNodes, gcEnrollmentRecords, DeleteSilentBootstrapNodes, DeleteStaleEnrollmentRequests, pruneCatalog. ban_all.
  - ban_all.
  - ban_all.
  - ban_all.
  - ban_all.
  - ban_all.
  - ban_all.
  - ban_all.
  - unfold_authorize. ban_all.
  - ban_all.
Qed.
End ban.

(** ** Histories *)

Section histories.
Context `{UC : UnicodeCase, TC : TARCodec, BT : BiscuitTokens, TX : BiscuitText, BE : BiscuitEngine, PC : PeerCodec, SH : SHA256,
          PK : PeerKeys, OL : OIDCLibrary, CC : ClaimsCodec, UP : UnicodePrint, UR : URLParser, LO : LoopbackIP, KP : KeyPeer, MA : Multiaddr, PO : PolicyCodec}.
Variable s : Server.

Lemma keyed_history cf hs : keyed (w_db (cf_world cf)) → keyed (w_db (cf_world (history s cf hs))).
Proof.
  revert cf. induction hs as [|h hs IH]; intros cf Hcf; [done|]. apply IH. destruct h as [rq|i ch|d|policy keys]; try done.
  simpl. destruct (cf_threads cf !! i) as [th|]; [|done]. unfold thread_step. destruct (th_prog th) as [a|c f]; [done|].
  pose proof (run_call_keyed (cf_world cf) ch c Hcf) as Hk. by destruct (run_call (cf_world cf) ch c).
Qed.

Section monitored.
Variables (p k : option string).

(** The store when the bans are recorded, and before. *)
Definition ban_inv (recorded : Prop) (w : World) : Prop :=
  keyed (w_db w) ∧ (recorded → (∀ q, p = Some q → peer_banned q (w_db w)) ∧ (∀ i, k = Some i → identity_banned i (w_db w))).

Lemma ban_inv_rely recorded w ch c : ban_inv recorded w → ban_rely p k recorded c (run_call w ch c).1.
Proof.
  intros [Hkey Hrec]. destruct (run_call_cases w ch c) as [[drawn ->]|[Hbr _]].
  - destruct c; try done; simpl.
    + unfold GetNode, query_row. intros n Hn. destruct (db_nodes (w_db w) !! peerID) as [m|] eqn:Hm; [|done].
      injection Hn as ->. split; [by apply Hkey|]. intros Hr Hp. destruct (Hrec Hr) as [Hb _]. destruct (Hb _ Hp) as (m & ? & ?). congruence.
    + unfold IsNodeBanned. intros Hr Hp. destruct (Hrec Hr) as [Hb _]. destruct (Hb _ Hp) as (m & -> & ->). done.
    + unfold IsIdentityBanned. intros Hr Hi. destruct (Hrec Hr) as [_ Hb]. by rewrite bool_decide_true by (by apply Hb).
  - destruct c; try done; simpl in *; injection Hbr as <-; done.
Qed.

Lemma ban_inv_call recorded w ch lv c : ban_inv recorded w → ban_permits p k lv c → ban_inv recorded (run_call w ch c).2.
Proof.
  intros [Hkey Hrec] Hc. split; [by apply run_call_keyed|]. intros Hr. destruct (Hrec Hr) as [Hp Hi]. split.
  - intros q Hq. apply run_call_banned; [|by apply Hp]. intros Hun. destruct c; try done.
    simpl in Hun, Hc. destruct banned; [done|]. subst. by destruct Hc.
  - intros i Hi'. apply run_call_identity; [|by apply Hi]. intros Hun. destruct c; try done.
    simpl in Hun, Hc. destruct banned; [done|]. subst. by destruct Hc.
Qed.

Lemma ban_laws recorded P :
  (∀ i rq lv tr c r, P i rq lv tr → ban_permits p k lv c → P i rq lv (tr ++ [existT c r])) →
  monitor_laws (ban_permits p k) (ban_rely p k recorded) ban_after (ban_inv recorded) P.
Proof.
  intros HP. split; try done.
  - apply ban_inv_rely.
  - intros w ch c lv. apply ban_inv_call.
  - intros i rq lv tr c r Htr Hc _. by apply HP.
Qed.

(** The history up to the ban, and the history after it. *)
Definition arrives_kept (h : happening) : Prop := match h with Arrive rq => keeps_ban p k rq | _ => True end.

Definition trace_clean (base i : nat) (rq : request) (lv : level) (tr : list performed) : Prop :=
  base ≤ i → lv = level_of rq ∧ Forall (λ e, ban_permits p k (level_of rq) (projT1 e)) tr.

Lemma bans_hold w hs0 hs1 :
  let cf0 := history s {| cf_world := w; cf_threads := [] |} hs0 in
  let cf1 := history s cf0 hs1 in
  k ≠ Some "" → keyed (w_db w) → Forall arrives_kept hs0 → Forall arrives_kept hs1 → ban_inv True (cf_world cf0) →
  ban_inv True (cf_world cf1) ∧
  ∀ i th, cf_threads cf1 !! i = Some th → length (cf_threads cf0) ≤ i →
    Forall (λ e, ban_permits p k (level_of (th_request th)) (projT1 e)) (th_trace th).
Proof.
  intros cf0 cf1 Hk Hkey Hhs0 Hhs1 Hban.
  pose proof (ban_laws False (λ _ _ lv _, lv = lenient) ltac:(naive_solver)) as Hlaws0.
  destruct (history_ok s (ban_permits p k) (ban_rely p k False) ban_after (ban_inv False) (λ _ _ lv _, lv = lenient) 0 Hlaws0
              {| cf_world := w; cf_threads := [] |} hs0) as (_ & _ & Hth0).
  { apply (Forall_impl _ _ _ Hhs0). intros [rq| | |] Hrq; try done. exists lenient. split; [done|].
    apply handler_bans; auto; done. }
  { split_and!; [by split|done|]. intros i th Hi. simpl in Hi. by rewrite lookup_nil in Hi. }
  set (base := length (cf_threads cf0)).
  assert (Hlaws : monitor_laws (ban_permits p k) (ban_rely p k True) ban_after (ban_inv True) (trace_clean base)).
  { apply ban_laws. intros i rq lv tr c r Htr Hc Hi. destruct (Htr Hi) as [-> Hall]. split; [done|].
    apply Forall_app. by rewrite Forall_singleton. }
  destruct (history_ok s (ban_permits p k) (ban_rely p k True) ban_after (ban_inv True) (trace_clean base) base Hlaws cf0 hs1)
    as (Hinv & _ & Hth1).
  - apply (Forall_impl _ _ _ Hhs1). intros [rq| | |] Hrq; try done. exists (level_of rq). split; [done|].
    apply handler_bans; auto.
  - split_and!; [done|done|]. intros i th Hi. destruct (Hth0 i th Hi) as (lv & -> & Hsafe). exists lenient. split.
    + intros Hle. apply lookup_lt_Some in Hi. unfold base in Hle. lia.
    + revert Hsafe. apply (safe_weaken _ _ _ _ _ _ (λ lv, lv)); [done| |done|done].
      intros c r Hr. destruct c; try done; simpl in *; naive_solver.
  - split; [done|]. intros i th Hi Hle. by destruct (Hth1 i th Hi) as (lv & Htr & _); destruct (Htr Hle).
Qed.
End monitored.

(** The calls with which a thread enrolls. *)
Definition enrolls (th : Thread) (n : EnrolledNode) : Prop := ∃ r, existT (CEnrollNode n) r ∈ th_trace th.

Lemma enrolls_permitted p k th n :
  Forall (λ e, ban_permits p k (level_of (th_request th)) (projT1 e)) (th_trace th) → enrolls th n →
  ban_permits p k (level_of (th_request th)) (CEnrollNode n).
Proof. intros Hall [r Hr]. by rewrite Forall_forall in Hall; apply (Hall _ Hr). Qed.

Definition is_approval (rq : request) : bool := match rq with RqResolve _ _ => true | _ => false end.

(** C7: A banned node stays banned and out.  Take any history in which no
    administrator unbans the peer, and any point of it at which the peer's row
    is banned.  Whatever the requests that were in flight at that point write,
    at the end the row is still banned; and no request that arrived after that
    point, an administrator's approval excepted, has recorded an enrollment of
    the peer: register, refresh, enroll with any token and the sweep included. *)
Theorem node_ban_holds w hs0 hs1 p :
  let cf0 := history s {| cf_world := w; cf_threads := [] |} hs0 in
  let cf1 := history s cf0 hs1 in
  keyed (w_db w) → Forall (arrives_kept (Some p) None) hs0 → Forall (arrives_kept (Some p) None) hs1 →
  peer_banned p (w_db (cf_world cf0)) →
  peer_banned p (w_db (cf_world cf1)) ∧
  ∀ i th n, cf_threads cf1 !! i = Some th → length (cf_threads cf0) ≤ i → is_approval (th_request th) = false →
    enrolls th n → en_PeerID n ≠ p.
Proof.
  intros cf0 cf1 Hkey Hhs0 Hhs1 Hb.
  destruct (bans_hold (Some p) None w hs0 hs1) as [[_ Hinv] Hth]; [done..| |].
  { split; [by apply keyed_history|]. naive_solver. }
  split; [by apply Hinv|]. intros i th n Hi Hle Hrq Hen.
  pose proof (enrolls_permitted _ _ th n (Hth i th Hi Hle) Hen) as [Hp _]. intros <-. apply Hp; [|done]. by destruct (th_request th).
Qed.

Definition enrolls_by_token (rq : request) : bool := match rq with RqResolve _ _ | RqEnroll _ => true | _ => false end.

(** C10: A banned identity stays banned and out.  Take any history without an
    unban and any point of it at which the identity is banned.  At the end it
    is still banned, and no request that arrived after that point records an
    enrollment with claims of the identity, whichever peer presents them:
    register and refresh both consult the ban.  (Enrollments with a bootstrap
    token carry no claims; the token's owner is what they consult.) *)
Theorem identity_ban_holds w hs0 hs1 k :
  let cf0 := history s {| cf_world := w; cf_threads := [] |} hs0 in
  let cf1 := history s cf0 hs1 in
  k ≠ "" → keyed (w_db w) → Forall (arrives_kept None (Some k)) hs0 → Forall (arrives_kept None (Some k)) hs1 →
  identity_banned k (w_db (cf_world cf0)) →
  identity_banned k (w_db (cf_world cf1)) ∧
  ∀ i th n, cf_threads cf1 !! i = Some th → length (cf_threads cf0) ≤ i → enrolls_by_token (th_request th) = false →
    enrolls th n → ¬ claims_name (en_ClaimsJSON n) k.
Proof.
  intros cf0 cf1 Hk Hkey Hhs0 Hhs1 Hb.
  destruct (bans_hold None (Some k) w hs0 hs1) as [[_ Hinv] Hth]; [congruence|done..| |].
  { split; [by apply keyed_history|]. naive_solver. }
  split; [by apply Hinv|]. intros i th n Hi Hle Hrq Hen Hname.
  pose proof (enrolls_permitted _ _ th n (Hth i th Hi Hle) Hen) as [_ Hi']. apply Hi'; [by destruct (th_request th)|]. by exists k.
Qed.
End histories.

(** ** A ban among requests in flight *)

(** A refresh of the member, whose old credential no longer verifies. *)
Definition recovery (key : string) : request :=
  RqRefresh (Some (Ok "old")) {| tr_ChallengeSignature := key +:+ RefreshChallenge ("12D3" +:+ key) 100000; tr_ChallengeUnixMs := 100000;
    tr_PeerId := "12D3" +:+ key; tr_Jwt := "" |}.

(** A refresh reads the record; the member is banned; then the refresh ends,
    and others arrive. *)
Definition until_ban : list happening :=
  [Arrive (recovery "a")] ++ steps 0 4 ++ [Arrive (RqAdminRevoke "Bearer root" "12D3a")] ++ steps 1 8.
Definition after_ban : list happening :=
  steps 0 20 ++ [Arrive (recovery "a"); Arrive (recovery "b")] ++ steps 2 20 ++ steps 3 20.

Lemma members_keyed claims : keyed (members claims).
Proof.
  intros q n. simpl. rewrite lookup_insert_Some. intros [[<- <-]|[_ Hq]]; [done|].
  by apply lookup_singleton_Some in Hq as [<- <-].
Qed.

Example banned_in_flight :
  let cf := scenario_history false (scenario_config (members "")) (until_ban ++ after_ban) in
  (match answer_of cf 0 with Some (Refreshed _ _) => true | _ => false end) = true ∧
  answer_of cf 1 = Some (Done 200) ∧ answer_of cf 2 = Some (HttpError 403 "Node is banned") ∧
  (match answer_of cf 3 with Some (Refreshed _ _) => true | _ => false end) = true.
Proof. vm_compute. done. Qed.

Lemma node_ban_holds_witness :
  (answer_of (scenario_history false (scenario_config (members "")) until_ban) 1 = Some (Done 200)) ∧
  peer_banned "12D3a" (w_db (cf_world (scenario_history false (scenario_history false (scenario_config (members "")) until_ban) after_ban))).
Proof.
  split; [by vm_compute|]. unfold scenario_history, scenario_config.
  refine (proj1 (node_ban_holds (UC := ascii_case) (TC := one_rule_codec) (BT := scenario_tokens) (TX := reference_text)
    (BE := naive_engine) (PC := plain_codec) (SH := padded_digest) (PK := text_keys) (OL := subject_tokens) (CC := subject_codec)
    (UP := ascii_print) (UR := no_urls) (LO := no_loopback) (KP := no_key_peer) (MA := plain_addrs) (PO := no_policy_codec) (scenario_server false) (scenario_world (members "")) until_ban after_ban "12D3a" _ _ _ _)).
  - apply members_keyed.
  - repeat (apply Forall_cons; split; [done|]). by apply Forall_nil.
  - repeat (apply Forall_cons; split; [done|]). by apply Forall_nil.
  - eexists. split; vm_compute; reflexivity.
Defined.

Lemma identity_ban_holds_witness :
  (answer_of (scenario_history false (scenario_config (members "bob")) until_ban) 1 = Some (Done 200)) ∧
  identity_banned "https://id|bob"
    (w_db (cf_world (scenario_history false (scenario_history false (scenario_config (members "bob")) until_ban) after_ban))).
Proof.
  split; [by vm_compute|]. unfold scenario_history, scenario_config.
  refine (proj1 (identity_ban_holds (UC := ascii_case) (TC := one_rule_codec) (BT := scenario_tokens) (TX := reference_text)
    (BE := naive_engine) (PC := plain_codec) (SH := padded_digest) (PK := text_keys) (OL := subject_tokens) (CC := subject_codec)
    (UP := ascii_print) (UR := no_urls) (LO := no_loopback) (KP := no_key_peer) (MA := plain_addrs) (PO := no_policy_codec) (scenario_server false) (scenario_world (members "bob")) until_ban after_ban
    "https://id|bob" _ _ _ _ _)).
  - done.
  - apply members_keyed.
  - repeat (apply Forall_cons; split; [done|]). by apply Forall_nil.
  - repeat (apply Forall_cons; split; [done|]). by apply Forall_nil.
  - eexists. vm_compute. reflexivity.
Defined.

(** ** An approval consults no ban *)

(** A member asks to enroll again with a token; it is banned; an administrator
    approves the request that was pending; the member collects the credential. *)
Definition approve_banned : list happening :=
  [Arrive (RqAdminToken "Bearer root" (create_request 1)); Step 0 Proceed; Step 0 (Draw "x")] ++ steps 0 3 ++
  [Arrive (RqEnroll (enroll_request "a"))] ++ concat (replicate 12 [Step 1 (Draw "u1")]) ++
  [Arrive (RqAdminRevoke "Bearer root" "12D3a")] ++ steps 2 8 ++
  [Arrive (RqResolve "Bearer root" "/admin/enrollments/u1/approve")] ++ steps 3 20 ++
  [Arrive (RqEnrollStatus "12D3a" (Some (100000%Z, "a" +:+ EnrollStatusChallenge "12D3a" 100000)))] ++ steps 4 8.

(** The credential that the last answer hands out, and whether the node's row
    is banned. *)
Definition bootstrap_answer (cf : Config) (i : nat) : option (EnrollmentStatus * string) :=
  match answer_of cf i with Some (Bootstrap resp) => Some (be_Status resp, be_BiscuitToken resp) | _ => None end.

(** An administrator's approval issues a fresh credential to a node that is
    banned: the checks of the token and its owner are repeated there, the ban
    of the node is not. *)
Example approval_admits_banned :
  let cf := scenario_history false (scenario_config (members "")) approve_banned in
  answer_of cf 2 = Some (Done 200) ∧ answer_of cf 3 = Some (Done 200) ∧
  (∃ biscuit, bootstrap_answer cf 4 = Some (ENROLLMENT_STATUS_APPROVED, biscuit) ∧ biscuit ≠ "" ∧
     en_Biscuit <$> db_nodes (w_db (cf_world cf)) !! "12D3a" = Some biscuit) ∧
  IsNodeBanned "12D3a" (w_db (cf_world cf)) = Ok true.
Proof. vm_compute. split_and!; [done..| |done]. eexists. split_and!; [reflexivity|done|reflexivity]. Qed.

(** * Races between requests

    Interleavings of two requests for one record, each run to its end.  A
    handler reads the record, decides and writes the whole record back, in
    separate statements: what the other request wrote in between is lost. *)

Definition refreshed_with (cf : Config) (i : nat) : option string :=
  match answer_of cf i with Some (Refreshed biscuit _) => Some biscuit | _ => None end.

Definition row_of (cf : Config) (p : string) : option EnrolledNode := db_nodes (w_db (cf_world cf)) !! p.

(** ** Two refreshes with one credential *)

(** Both read the record before either writes it; a second passes between the
    two mints. *)
Definition refresh_race : list happening :=
  [Arrive (recovery "a"); Arrive (recovery "a")] ++ concat (replicate 4 [Step 0 Proceed; Step 1 Proceed]) ++
  steps 0 20 ++ [Tick 1000000000] ++ steps 1 20.

(** One credential is redeemed twice, for two credentials that differ; the
    record keeps the second. *)
Example one_credential_two_refreshes :
  let cf := scenario_history false (scenario_config (members "")) refresh_race in
  ∃ b0 b1, refreshed_with cf 0 = Some b0 ∧ refreshed_with cf 1 = Some b1 ∧ b0 ≠ b1 ∧ en_Biscuit <$> row_of cf "12D3a" = Some b1.
Proof. do 2 eexists. split_and!; [vm_compute; reflexivity..| |vm_compute; reflexivity]. done. Qed.

(** ** A toggle during a refresh *)

Definition toggle_race : list happening :=
  [Arrive (recovery "a")] ++ steps 0 4 ++ [Arrive (RqNodeAction "Bearer root" "/admin/nodes/12D3a/autonomous-recovery" (Some false))] ++
  steps 1 4 ++ steps 0 20.

(** An administrator switches autonomous recovery off and is told that it is
    off; the refresh that was under way switches it on again. *)
Example toggle_lost :
  let cf := scenario_history false (scenario_config (members "")) toggle_race in
  answer_of cf 1 = Some (Done 204) ∧ is_Some (refreshed_with cf 0) ∧ en_AutonomousRecovery <$> row_of cf "12D3a" = Some true.
Proof. vm_compute. split_and!; [done|eexists; reflexivity|done]. Qed.

(** ** Two approvals of one request *)

Definition approval_race : list happening :=
  [Arrive (RqAdminToken "Bearer root" (create_request 2)); Step 0 Proceed; Step 0 (Draw "x")] ++ steps 0 3 ++
  [Arrive (RqEnroll (enroll_request "a"))] ++ concat (replicate 12 [Step 1 (Draw "u1")]) ++
  [Arrive (RqResolve "Bearer root" "/admin/enrollments/u1/approve"); Arrive (RqResolve "Bearer root" "/admin/enrollments/u1/approve")] ++
  concat (replicate 4 [Step 2 Proceed; Step 3 Proceed]) ++ steps 2 20 ++ [Tick 1000000000] ++ steps 3 20.

(** The approval that loses is told of the conflict only after it has spent a
    usage and replaced the node's credential: the request hands out a
    credential that the node's record no longer has, so it cannot be refreshed. *)
Example losing_approval_writes :
  let cf := scenario_history false (scenario_config scenario_db) approval_race in
  answer_of cf 2 = Some (Done 200) ∧ answer_of cf 3 = Some (HttpError 409 "Enrollment request is already resolved") ∧
  bt_UsagesCount <$> (map_to_list (db_tokens (w_db (cf_world cf)))).*2 = [2%Z] ∧
  (∃ b b', er_BiscuitToken <$> db_requests (w_db (cf_world cf)) = [b] ∧ en_Biscuit <$> row_of cf "12D3a" = Some b' ∧ b ≠ b').
Proof. vm_compute. split_and!; [done..|]. do 2 eexists. split_and!; [reflexivity|reflexivity|]. done. Qed.

(** ** The lifetime of a token *)

(** The lifetime is a product of 64-bit nanoseconds: a token asked for
    2562048 hours (292 years) has expired when it is created. *)
Definition long_lived : BootstrapTokenCreateRequest :=
  {| bc_Role := RoleNode; bc_OwnerId := ""; bc_TtlHours := 2562048; bc_MaxUsages := 1; bc_Description := "";
     bc_AutonomousRecovery := false; bc_Ephemeral := false |}.

Definition created_expired (cf : Config) (i : nat) : option bool :=
  match answer_of cf i with Some (Created _ _ _ _ expires) => Some (expires <? w_clock (cf_world cf))%Z | _ => None end.

Example long_lived_token_expired :
  created_expired (scenario_history false (scenario_config scenario_db)
    ([Arrive (RqAdminToken "Bearer root" long_lived); Step 0 Proceed; Step 0 (Draw "x")] ++ steps 0 3)) 0 = Some true.
Proof. by vm_compute. Qed.
