(* ===== verification/Paging.v ===== *)
(** * Listing nodes page by page

    The states of a node in SQL agree with [CheckAdmission], a page token gives
    back the cursor it was made of, and the pages that follow one another give
    every node that matches once, in order, and end. *)

From S2P Require Import Prelude GoStrings Regex Names Biscuit NaiveEngine Facts DatalogText Grants Labels HTTPGrants PolicyRules Egress Base64 Tar Token TokenModel Identity Mint Middleware Directory Keyring Decimal PolicyStore Store StoreFacts ControlPlane PolicyConfig Enrollment Admin Members Sts OAuth Machine Scenario.

(** ** The order of a list *)

#[local] Instance listed_before_total : Total listed_before.
Proof.
  intros m n. unfold listed_before. destruct (Z.lt_trichotomy (UnixMilli (en_EnrolledAt m)) (UnixMilli (en_EnrolledAt n))) as [?|[?|?]]; auto.
  destruct (total String.le (en_PeerID n) (en_PeerID m)); auto.
Qed.

#[local] Instance listed_before_trans : Transitive listed_before.
Proof.
  intros l m n [H1|[H1 H1']] [H2|[H2 H2']]; unfold listed_before; [left; lia..|]. right. split; [congruence|]. by transitivity (en_PeerID m).
Qed.

Lemma listed_before_antisymm m n : listed_before m n → listed_before n m → en_PeerID m = en_PeerID n.
Proof.
  intros [H1|[H1 H1']] [H2|[H2 H2']]; try lia. by apply (anti_symm String.le).
Qed.

Definition cursor_of (n : EnrolledNode) : NodeCursor := {| nc_EnrolledAt := en_EnrolledAt n; nc_PeerID := en_PeerID n |}.

(** The rows past the cursor of [x] are the other rows listed after [x]. *)
Lemma after_cursor_self x : after_cursor (cursor_of x) x = false.
Proof. unfold after_cursor, string_ltb. simpl. by rewrite Z.leb_refl, Z.ltb_irrefl, (bool_decide_true (_ = _)), andb_false_r. Qed.

Lemma after_cursor_ne x n : en_PeerID n ≠ en_PeerID x → (after_cursor (cursor_of x) n = true ↔ listed_before x n).
Proof.
  intros Hne. unfold after_cursor, listed_before, string_ltb. simpl.
  rewrite !andb_true_iff, orb_true_iff, andb_true_iff, negb_true_iff, Z.leb_le, Z.ltb_lt, bool_decide_eq_true, bool_decide_eq_false.
  split; [|intros [?|[? ?]]; (split; [lia|auto])]. intros [Hle [Hlt|[Hs _]]]; [by left|].
  destruct (decide (UnixMilli (en_EnrolledAt x) = UnixMilli (en_EnrolledAt n))); [by right|left; lia].
Qed.

Lemma rows_nodup db : keyed db → NoDup (en_PeerID <$> (map_to_list (db_nodes db)).*2).
Proof.
  intros Hk. rewrite <-list_fmap_compose.
  assert (en_PeerID ∘ snd <$> map_to_list (db_nodes db) = (map_to_list (db_nodes db)).*1) as ->; [|apply NoDup_fst_map_to_list].
  apply list_fmap_ext. intros i [q n] Hi. apply (Hk q n). apply elem_of_map_to_list. by eapply list_elem_of_lookup_2.
Qed.

Section sorted.
Context (rows : list EnrolledNode) (Hnd : NoDup (en_PeerID <$> rows)).

Lemma same_peer m n : m ∈ rows → n ∈ rows → en_PeerID m = en_PeerID n → m = n.
Proof using Hnd.
  intros [i Hi]%list_elem_of_lookup [j Hj]%list_elem_of_lookup Heq. assert (i = j) as ->; [|congruence].
  eapply (NoDup_lookup _ _ _ (en_PeerID m) Hnd); rewrite list_lookup_fmap; [by rewrite Hi|by rewrite Hj, Heq].
Qed.

Lemma sorted_unique l l' : l ⊆ rows → l ≡ₚ l' → StronglySorted listed_before l → StronglySorted listed_before l' → l = l'.
Proof using Hnd.
  intros Hsub Hp Hl Hl'. apply (StronglySorted_unique_strong listed_before); [|done..].
  intros m n Hm Hn H1 H2. apply same_peer; [by apply Hsub|by apply Hsub; rewrite Hp|by apply listed_before_antisymm].
Qed.

(** What is left after the row [x] of a sorted list. *)
Lemma after_row l1 x l2 :
  merge_sort listed_before rows = l1 ++ x :: l2 →
  merge_sort listed_before (filter (λ n, after_cursor (cursor_of x) n = true) rows) = l2.
Proof using Hnd.
  intros Hs. pose proof (merge_sort_Permutation listed_before rows) as Hp. rewrite Hs in Hp.
  pose proof (StronglySorted_merge_sort listed_before rows) as Hss. rewrite Hs in Hss.
  apply StronglySorted_app in Hss as (H12 & _ & [Hx Hss]%StronglySorted_cons). rewrite Forall_forall in Hx.
  assert (Hnd' : NoDup (en_PeerID <$> l1 ++ x :: l2)) by (by rewrite Hp).
  rewrite fmap_app, fmap_cons in Hnd'. apply NoDup_app in Hnd' as (_ & Hd & [Hnx _]%NoDup_cons).
  assert (Hf : filter (λ n, after_cursor (cursor_of x) n = true) rows ≡ₚ l2).
  { rewrite <-Hp, filter_app, filter_cons, after_cursor_self, decide_False by done.
    rewrite filter_false, filter_true; [done| |].
    - intros n Hi. apply after_cursor_ne; [|by apply Hx]. intros Heq. apply Hnx. rewrite <-Heq. by apply list_elem_of_fmap_2.
    - intros n Hi Ha.
      assert (Hne : en_PeerID n ≠ en_PeerID x).
      { intros Heq. apply (Hd (en_PeerID n)); [by apply list_elem_of_fmap_2|]. rewrite Heq. by left. }
      apply after_cursor_ne in Ha; [|done]. apply Hne, listed_before_antisymm; [|done]. apply H12; [done|by left]. }
  symmetry. apply sorted_unique; [|by rewrite merge_sort_Permutation|done|by apply (StronglySorted_merge_sort listed_before); apply _].
  intros n Hn. rewrite <-Hp. set_solver.
Qed.
End sorted.

(** ** Pages of the store *)

Definition with_page (f : NodeFilter) (after : option NodeCursor) (limit : nat) : NodeFilter :=
  {| nf_States := nf_States f; nf_Now := nf_Now f; nf_OwnerID := nf_OwnerID f; nf_Role := nf_Role f; nf_After := after; nf_Limit := limit |}.

(** The cursor stands after the rows [l]. *)
Definition stands_after (after : option NodeCursor) (l : list EnrolledNode) : Prop :=
  match after with
  | None => l = []
  | Some c => ∃ l0 x, l = l0 ++ [x] ∧ UnixMilli (nc_EnrolledAt c) = UnixMilli (en_EnrolledAt x) ∧ nc_PeerID c = en_PeerID x
  end.

(** The rows that match the filter, in the order of the list. *)
Definition listed_rows (where_ : EnrolledNode → bool) (db : Database) : list EnrolledNode :=
  merge_sort listed_before (filter (λ n, where_ n = true) (map_to_list (db_nodes db)).*2).

Lemma nodeFilterWhere_page now f after limit where_ :
  nodeFilterWhere now (with_page f None 0) = Ok where_ →
  ∃ where', nodeFilterWhere now (with_page f after limit) = Ok where' ∧
    ∀ n, where' n = where_ n && match after with None => true | Some c => after_cursor c n end.
Proof.
  unfold nodeFilterWhere. simpl. intros (arms & -> & [= <-])%bind_Ok. eexists. split; [done|]. intros n. simpl. by rewrite andb_true_r.
Qed.

Lemma ListNodes_page now f db after limit where_ l rest :
  keyed db → nodeFilterWhere now (with_page f None 0) = Ok where_ → listed_rows where_ db = l ++ rest → stands_after after l →
  ListNodes now (with_page f after limit) db = Ok (listed_view <$> (if limit =? 0 then rest else take limit rest)).
Proof.
  intros Hk Hw Hl Hafter. destruct (nodeFilterWhere_page now f after limit where_ Hw) as (where' & Hw' & Heq).
  unfold ListNodes. rewrite Hw'. cbn [mbind result_bind nf_Limit with_page]. do 2 f_equal.
  assert (Hrows : listed_rows where' db = rest); [|unfold listed_rows in Hrows; by rewrite Hrows].
  unfold listed_rows in *. set (all := (map_to_list (db_nodes db)).*2) in *.
  destruct after as [c|]; cycle 1.
  { simpl in Hafter. subst l. simpl in Hl. rewrite <-Hl. f_equal. apply list_filter_iff. intros n. by rewrite Heq, andb_true_r. }
  destruct Hafter as (l0 & x & -> & Hat & Hp). rewrite <-(assoc_L (++)) in Hl. simpl in Hl.
  rewrite <-(after_row (filter (λ n, where_ n = true) all)) with (l1 := l0) (x := x) (l2 := rest); [|..|done].
  - f_equal. rewrite list_filter_filter. apply list_filter_iff. intros n. rewrite Heq, andb_true_iff.
    unfold after_cursor. simpl. rewrite Hat, Hp. naive_solver.
  - pose proof (rows_nodup db Hk) as Hnd. fold all in Hnd. clear -Hnd. revert Hnd. generalize all. intros m Hnd.
    eapply sublist_NoDup; [done|]. apply fmap_sublist, sublist_filter.
Qed.

(** ** Page tokens *)

Definition int64 (z : Z) : Prop := (- 2 ^ 63 ≤ z < 2 ^ 63)%Z.

Lemma UnixMilli_of_UnixMilli ms : UnixMilli (of_UnixMilli ms) = ms.
Proof. unfold UnixMilli, of_UnixMilli. by rewrite Z.div_mul. Qed.

Lemma page_token_roundtrip c :
  int64 (UnixMilli (nc_EnrolledAt c)) → nc_PeerID c ≠ "" →
  encodeNodesPageToken c ≠ "" ∧
  decodeNodesPageToken (encodeNodesPageToken c) = Ok (Some {| nc_EnrolledAt := stored (nc_EnrolledAt c); nc_PeerID := nc_PeerID c |}).
Proof.
  intros Hr Hp. unfold encodeNodesPageToken. set (ms := UnixMilli (nc_EnrolledAt c)).
  assert (Hne : RawURL_Encode (FormatInt ms +:+ ":" +:+ nc_PeerID c) ≠ "").
  { intros He%RawURL_Encode_empty. by destruct (FormatInt ms). }
  split; [done|]. unfold decodeNodesPageToken. rewrite bool_decide_false by done. rewrite RawURL_Decode_Encode. cbn [mbind result_bind].
  change (":" +:+ nc_PeerID c) with (String ":" (nc_PeerID c)). rewrite (Cut_char _ ":" (FormatInt_no_colon ms)).
  rewrite (bool_decide_false (nc_PeerID c = "")) by done. cbn [negb orb fail_if]. rewrite ParseInt_Format by done. done.
Qed.

Definition known_state (st : NodeState) : Prop := match st with NodeStateOther _ => False | _ => True end.

Lemma parse_states_known acc raw states : Forall known_state acc → parse_states acc raw = Ok states → Forall known_state states.
Proof.
  revert acc. induction raw as [|v raw IH]; intros acc Hacc; simpl; [by intros [= <-]|].
  intros (acc' & Hv & Hr)%bind_Ok. apply (IH acc'); [|done]. unfold add_state in Hv.
  destruct (node_state v) eqn:Hst; try done; injection Hv as <-; case_bool_decide; [done| |done| |done|];
    apply Forall_app; split; [done|by apply Forall_singleton|done|by apply Forall_singleton|done|by apply Forall_singleton].
Qed.

Lemma known_where now f : Forall known_state (nf_States f) → ∃ where_, nodeFilterWhere now f = Ok where_.
Proof.
  intros Hst. unfold nodeFilterWhere. set (t := if IsZero _ then _ else _).
  assert (∃ arms, collect (λ st, nodeStateWhere st t) (nf_States f) = Ok arms) as [arms ->]; [|by eexists].
  induction Hst as [|st sts Hs _ [arms IH]]; simpl; [by eexists|]. rewrite IH. destruct st; try done; by eexists.
Qed.

Lemma elem_of_listed_rows where_ db n :
  keyed db → n ∈ listed_rows where_ db ↔ db_nodes db !! en_PeerID n = Some n ∧ where_ n = true.
Proof.
  intros Hk. unfold listed_rows. rewrite merge_sort_Permutation, list_elem_of_filter, list_elem_of_fmap. split.
  - intros [Hw ([q m] & -> & Hin%elem_of_map_to_list)]. split; [|done]. simpl. by rewrite (Hk _ _ Hin).
  - intros [Hin Hw]. split; [done|]. exists (en_PeerID n, n). split; [done|]. by apply elem_of_map_to_list.
Qed.

Lemma listed_rows_nodup where_ db : keyed db → NoDup (en_PeerID <$> listed_rows where_ db).
Proof.
  intros Hk. unfold listed_rows. rewrite merge_sort_Permutation.
  eapply sublist_NoDup; [by apply rows_nodup|]. apply fmap_sublist, sublist_filter.
Qed.

Lemma parseNodesPageSize_pos raw n : parseNodesPageSize raw = Ok n → 1 ≤ n ≤ maxNodesPageSize.
Proof.
  unfold parseNodesPageSize, defaultNodesPageSize, maxNodesPageSize. case_bool_decide; [intros [= <-]; lia|].
  destruct (ParseInt raw) as [m|]; [|done]. destruct (Z.ltb_spec m 1); [done|]. cbn [fail_if mbind result_bind]. intros Hn%(inj Ok). lia.
Qed.

(** ** Following the pages *)

Section follow.
Context `{UC : UnicodeCase, TC : TARCodec, BT : BiscuitTokens, TX : BiscuitText, BE : BiscuitEngine, PC : PeerCodec, SH : SHA256,
          PK : PeerKeys, OL : OIDCLibrary, CC : ClaimsCodec, PO : PolicyCodec}.
Variable s : Server.

Definition with_token (q : NodesQuery) (token : string) : NodesQuery :=
  {| nq_page_size := nq_page_size q; nq_page_token := token; nq_state := nq_state q; nq_owner_id := nq_owner_id q; nq_role := nq_role q |}.

(** A client that asks for page after page, until a page names no next one. *)
Fixpoint follow (fuel : nat) (w : World) (auth : string) (q : NodesQuery) : option (list EnrolledNode) :=
  match fuel with
  | 0 => None
  | S fuel =>
      match (run_alone w (HandleListNodes s auth q)).1 with
      | Listed nodes next => if bool_decide (next = "") then Some nodes else (app nodes) <$> follow fuel w auth (with_token q next)
      | _ => None
      end
  end.

Section user.
Context (w : World) (auth : string) (user : User) (q : NodesQuery) (size : nat) (states : list NodeState) (owner : option string).
Hypothesis Hauth : run_alone w (authenticateUser s auth) = (Ok user, w).
Hypothesis Hsize : parseNodesPageSize (nq_page_size q) = Ok size.
Hypothesis Hstates : parseNodeStates (nq_state q) = Ok states.

Local Abbreviation isAdmin := (bool_decide (u_Role user = "admin")).

Hypothesis Howner : listed_owner user isAdmin (nq_owner_id q) = Ok owner.

(** The query as a filter of every page. *)
Definition query_filter : NodeFilter :=
  {| nf_States := states; nf_Now := w_clock w; nf_OwnerID := owner; nf_Role := nq_role q; nf_After := None; nf_Limit := 0 |}.

Lemma HandleListNodes_answer token after :
  decodeNodesPageToken token = Ok after →
  (run_alone w (HandleListNodes s auth (with_token q token))).1 =
    match ListNodes (w_clock w) (with_page query_filter after (size + 1)) (w_db w) with
    | Ok nodes => nodes_page size isAdmin nodes
    | Err _ => internalError
    end.
Proof using Hauth Hsize Hstates Howner.
  intros Htok. unfold HandleListNodes, requireUser. rewrite run_alone_bind, Hauth. cbn [with_token nq_page_size nq_page_token nq_state nq_owner_id nq_role].
  rewrite Hsize, Htok, Hstates, Howner. rewrite run_alone_bind. simpl. by destruct (ListNodes _ _ _).
Qed.

Lemma follow_pages where_ l rest token after fuel :
  keyed (w_db w) → (∀ p n, db_nodes (w_db w) !! p = Some n → p ≠ "" ∧ int64 (UnixMilli (en_EnrolledAt n))) →
  nodeFilterWhere (w_clock w) query_filter = Ok where_ →
  listed_rows where_ (w_db w) = l ++ rest → decodeNodesPageToken token = Ok after → stands_after after l → length rest < fuel →
  follow fuel w auth (with_token q token) = Some ((λ n, enrolledNodeView n isAdmin) <$> rest).
Proof using Hauth Hsize Hstates Howner.
  intros Hk Hrows Hw Hl. revert l rest token after Hl.
  induction fuel as [|fuel IH]; intros l rest token after Hl Htok Hafter Hfuel; [lia|]. cbn [follow].
  rewrite (HandleListNodes_answer _ _ Htok), (ListNodes_page _ query_filter _ _ _ _ _ _ Hk Hw Hl Hafter).
  rewrite (proj2 (Nat.eqb_neq (size + 1) 0)) by lia. unfold nodes_page. rewrite length_fmap, length_take. pose proof (parseNodesPageSize_pos _ _ Hsize) as Hpos.
  destruct (Nat.ltb_spec size ((size + 1) `min` length rest)) as [Hlt|Hge]; cycle 1.
  { rewrite bool_decide_true by done. f_equal. rewrite take_ge by lia. by rewrite <-list_fmap_compose. }
  rewrite <-fmap_take, take_take, Nat.min_l by lia.
  destruct (exists_last (l := take size rest)) as (page & x & Hpage).
  { intros Hnil%(f_equal length). rewrite length_take in Hnil. simpl in Hnil. lia. }
  assert (Hx : x ∈ listed_rows where_ (w_db w)).
  { rewrite Hl, <-(firstn_skipn size rest), Hpage. set_solver. }
  assert (Hx' : en_PeerID x ≠ "" ∧ int64 (UnixMilli (en_EnrolledAt x))).
  { unfold listed_rows in Hx. rewrite merge_sort_Permutation in Hx. apply list_elem_of_filter in Hx as [_ Hx].
    apply list_elem_of_fmap in Hx as ([p n] & -> & Hin). apply elem_of_map_to_list in Hin. simpl. rewrite (Hk _ _ Hin). by apply (Hrows p). }
  rewrite Hpage, fmap_app. change (listed_view <$> [x]) with [listed_view x]. rewrite last_snoc.
  set (c := {| nc_EnrolledAt := _ |}). destruct (page_token_roundtrip c) as [Hne Hdec]; [apply Hx'|apply Hx'|].
  rewrite bool_decide_false by done.
  change (with_token (with_token q token) ?next) with (with_token q next).
  rewrite (IH (l ++ take size rest) (drop size rest) _ _ ltac:(by rewrite <-(assoc_L (++)), firstn_skipn) Hdec); [| |rewrite length_drop; lia].
  - cbn [fmap option_fmap option_map]. f_equal. change [listed_view x] with (listed_view <$> [x]).
    rewrite <-(fmap_app listed_view page [x]), <-Hpage, <-list_fmap_compose.
    rewrite <-(firstn_skipn size rest) at 3. by rewrite fmap_app.
  - exists (l ++ page), x. rewrite Hpage, (assoc_L (++)). split_and!; [done| |done]. simpl. unfold stored. apply UnixMilli_of_UnixMilli.
Qed.
End user.

(** C36: A client that follows the page tokens of [GET /user/nodes] sees every
    node that matches its query, each once, in the order of the list, and
    reaches a last page: after as many requests as there are nodes, and one
    more, however small its pages.  (The caller is signed in, its parameters
    parse, and the rows have a peer ID and an enrollment instant of 64 bits.) *)
Theorem pages_complete w auth user q size states owner :
  run_alone w (authenticateUser s auth) = (Ok user, w) →
  parseNodesPageSize (nq_page_size q) = Ok size → parseNodeStates (nq_state q) = Ok states →
  listed_owner user (bool_decide (u_Role user = "admin")) (nq_owner_id q) = Ok owner →
  keyed (w_db w) → (∀ p n, db_nodes (w_db w) !! p = Some n → p ≠ "" ∧ int64 (UnixMilli (en_EnrolledAt n))) →
  ∃ where_ rows, nodeFilterWhere (w_clock w) (query_filter w q states owner) = Ok where_ ∧
    follow (S (length rows)) w auth (with_token q "") = Some ((λ n, enrolledNodeView n (bool_decide (u_Role user = "admin"))) <$> rows) ∧
    (∀ n, n ∈ rows ↔ db_nodes (w_db w) !! en_PeerID n = Some n ∧ where_ n = true) ∧
    NoDup (en_PeerID <$> rows) ∧ StronglySorted listed_before rows.
Proof.
  intros Hauth Hsize Hstates Howner Hk Hrows.
  destruct (known_where (w_clock w) (query_filter w q states owner)) as [where_ Hw].
  { eapply parse_states_known; [|exact Hstates]. by apply Forall_nil. }
  exists where_, (listed_rows where_ (w_db w)). split_and!; [done| | | |].
  - eapply (follow_pages _ _ _ _ _ _ _ Hauth Hsize Hstates Howner where_ [] _ "" None); try done. lia.
  - intros n. by apply elem_of_listed_rows.
  - by apply listed_rows_nodup.
  - apply (StronglySorted_merge_sort listed_before); apply _.
Qed.
End follow.

(** ** The states of a node *)

(** The condition of the state in SQL, false when there is none. *)
Definition in_state (st : NodeState) (now : time) (n : EnrolledNode) : bool :=
  match nodeStateWhere st now with Ok where_ => where_ n | Err _ => false end.

(** The states that the store selects by in SQL are those of
    [CheckAdmission], read at the millisecond of the clock: for a row as the
    store reads it, whose session never ends or ends after 1970, exactly one of
    admitted, expired and banned holds, the one that [CheckAdmission] gives. *)
Theorem admission_sql now n e :
  en_ExpiresAt n = stored e → e = zero_time ∨ (0 < UnixMilli e)%Z →
  (in_state NodeAdmitted now n = true ↔ CheckAdmission (stored now) n = Ok tt) ∧
  (in_state NodeExpired now n = true ↔ CheckAdmission (stored now) n = Err ErrNodeSessionExpired) ∧
  (in_state NodeBanned now n = true ↔ CheckAdmission (stored now) n = Err ErrNodeBanned).
Proof.
  intros Hn He. unfold in_state, nodeStateWhere, CheckAdmission. rewrite Hn.
  assert (Hms : UnixMilli (stored e) = UnixMilli e) by apply UnixMilli_of_UnixMilli. rewrite Hms.
  assert (Hlt : (stored e <? stored now)%Z = (UnixMilli e <? UnixMilli now)%Z).
  { unfold stored, of_UnixMilli. destruct (Z.ltb_spec (UnixMilli e) (UnixMilli now)); [apply Z.ltb_lt|apply Z.ltb_ge]; lia. }
  rewrite Hlt. clear Hlt Hms.
  assert (Hz : IsZero (stored e) = (UnixMilli e <=? 0)%Z).
  { destruct He as [->|He]; [reflexivity|]. rewrite (proj2 (Z.leb_gt _ _)) by lia. apply bool_decide_eq_false.
    unfold stored, of_UnixMilli, zero_time. unfold second. lia. }
  rewrite Hz. destruct (en_Banned n); simpl; [naive_solver|].
  destruct (Z.leb_spec (UnixMilli e) 0); destruct (Z.ltb_spec (UnixMilli e) (UnixMilli now)); destruct (Z.ltb_spec 0 (UnixMilli e));
    destruct (Z.leb_spec (UnixMilli now) (UnixMilli e)); simpl; try lia; naive_solver.
Qed.

Lemma admission_sql_witness :
  let n := {| en_PeerID := "12D3a"; en_PublicKey := ""; en_Biscuit := ""; en_Role := RoleNode; en_EnrollmentType := "OIDC";
              en_ClaimsJSON := ""; en_OwnerID := ""; en_Labels := ∅; en_EnrolledAt := 0%Z; en_ExpiresAt := (5 * second)%Z;
              en_Banned := false; en_AutonomousRecovery := false; en_Ephemeral := false |} in
  in_state NodeExpired (6 * second)%Z n = true ∧ CheckAdmission (stored (6 * second)%Z) n = Err ErrNodeSessionExpired.
Proof.
  intros n. split; [by vm_compute|]. apply (admission_sql (6 * second)%Z n (5 * second)%Z); [by vm_compute|right; by vm_compute|by vm_compute].
Defined.

(** ** Three nodes in pages of one *)

Definition listed_node (key : string) (at_ : Z) : EnrolledNode :=
  {| en_PeerID := "12D3" +:+ key; en_PublicKey := key; en_Biscuit := "b"; en_Role := RoleNode; en_EnrollmentType := "BOOTSTRAP";
     en_ClaimsJSON := ""; en_OwnerID := ""; en_Labels := ∅; en_EnrolledAt := (at_ * second)%Z; en_ExpiresAt := zero_time;
     en_Banned := false; en_AutonomousRecovery := false; en_Ephemeral := false |}.

Definition listed_db : Database := set_nodes scenario_db
  {["12D3a" := listed_node "a" 1; "12D3b" := listed_node "b" 2; "12D3c" := listed_node "c" 2]}.

Definition one_per_page : NodesQuery :=
  {| nq_page_size := "1"; nq_page_token := ""; nq_state := ["admitted"]; nq_owner_id := None; nq_role := "" |}.

Definition root_user : User :=
  {| u_ID := rootAdminID; u_Issuer := ""; u_Email := "admin@agentmesh.local"; u_Role := "admin"; u_CreatedAt := (100 * second)%Z |}.

Definition scenario_follow : nat → World → string → NodesQuery → option (list EnrolledNode) :=
  @follow ascii_case padded_digest subject_tokens no_policy_codec (scenario_server false).

Lemma pages_complete_witness :
  (fmap (M:=list) en_PeerID <$> scenario_follow 4 (scenario_world listed_db) "Bearer root" (with_token one_per_page "") =
     Some ["12D3c"; "12D3b"; "12D3a"]) ∧
  ∃ where_ rows, nodeFilterWhere (w_clock (scenario_world listed_db))
      (query_filter (scenario_world listed_db) one_per_page [NodeAdmitted] None) = Ok where_ ∧
    scenario_follow (S (length rows)) (scenario_world listed_db) "Bearer root" (with_token one_per_page "") =
      Some ((λ n, enrolledNodeView n true) <$> rows).
Proof.
  split; [by vm_compute|]. unfold scenario_follow.
  destruct (pages_complete (UC := ascii_case) (SH := padded_digest) (OL := subject_tokens) (PO := no_policy_codec)
    (scenario_server false) (scenario_world listed_db) "Bearer root" root_user one_per_page 1 [NodeAdmitted] None)
    as (where_ & rows & Hw & Hf & _); [vm_compute; reflexivity..| | |exists where_, rows; split; [exact Hw|exact Hf]].
  - intros q n. simpl. rewrite !lookup_insert_Some, lookup_singleton_Some. by intros [[<- <-]|[_ [[<- <-]|[_ [<- <-]]]]].
  - intros q n. simpl. rewrite !lookup_insert_Some, lookup_singleton_Some.
    by intros [[<- <-]|[_ [[<- <-]|[_ [<- <-]]]]]; split; [done|by vm_compute|done|by vm_compute|done|by vm_compute].
Defined.

(** An owner that is given but empty selects no node: a node without an owner
    has none to compare. *)
Lemma empty_owner_lists_nothing now f db nodes :
  nf_OwnerID f = Some "" → ListNodes now f db = Ok nodes → nodes = [].
Proof.
  intros Ho. unfold ListNodes, nodeFilterWhere. rewrite Ho.
  destruct (collect _ (nf_States f)) as [arms|e]; [|done]. cbn [mbind result_bind]. intros [= <-].
  rewrite (filter_false _ (map_to_list (db_nodes db)).*2).
  - assert (merge_sort listed_before [] = []) as -> by done. rewrite take_nil. by destruct (nf_Limit f =? 0).
  - intros n _. unfold owner_is. destruct (decide (en_OwnerID n = "")) as [->|Hn].
    + rewrite andb_false_r. done.
    + rewrite (bool_decide_eq_false_2 (en_OwnerID n = "")) by done. by rewrite !andb_false_r.
Qed.
