(* ===== verification/RefreshFacts.v ===== *)
(** * Refreshing a credential

    What a refresh that succeeds has checked, what it issues and what it writes
    back, along the calls of the request in every history: other requests run
    between two calls, calls fail and time passes.  ([BanFacts] has what two
    refreshes at once do.) *)

From S2P Require Import Prelude GoStrings Regex Names Biscuit NaiveEngine Facts DatalogText Grants Labels HTTPGrants PolicyRules Egress Base64 Tar Token TokenModel Identity Mint Middleware Directory Keyring Decimal PolicyStore Store StoreFacts ControlPlane PolicyConfig Enrollment Admin Members Sts OAuth Machine Traces Scenario StsFacts BanFacts.

Section refresh.
Context `{UC : UnicodeCase, TC : TARCodec, BT : BiscuitTokens, TX : BiscuitText, BE : BiscuitEngine, PC : PeerCodec, SH : SHA256,
          PK : PeerKeys, OL : OIDCLibrary, CC : ClaimsCodec, UP : UnicodePrint, UR : URLParser, LO : LoopbackIP, KP : KeyPeer, MA : Multiaddr, PO : PolicyCodec}.
Variable s : Server.

(** ** Calls that read *)

(** A call that leaves the world as it is, whatever it replies. *)
Definition reads (e : performed) : Prop := ∀ w ch, (run_call w ch (projT1 e)).2 = w.

Ltac reading := repeat (first [apply Forall_app; split | apply Forall_cons; split | apply Forall_nil; exact I | by intros ? [| |?]]); try assumption.

(** A step that answers at once issues nothing. *)
Definition step_refuses {A} (p : prog (answer + A)) : Prop := ∀ tr b e, ¬ answers p tr (inl (Refreshed b e)).

Ltac refuse := let tr := fresh in let b := fresh in let e := fresh in let H := fresh in intros tr b e H; repeat along H; simplify_eq; repeat (case_match; simplify_eq); try done.

Lemma step_refuses_bind {A B} (p : prog A) (k : A → prog (answer + B)) : (∀ a, step_refuses (k a)) → step_refuses (p ≫= k).
Proof. intros Hk tr b e (tr1 & tr2 & a & -> & _ & H)%answers_bind. by apply Hk in H. Qed.

Lemma identity_gate_refuses key : step_refuses (identity_gate key).
Proof. unfold identity_gate. refuse. Qed.

(** ** The identity of a refresh *)

(** The claims and the session that a refresh goes on with: those of the
    record, or those of a fresh token of the same identity. *)
Record attested (tr : list performed) (req : TokenRefreshRequest) (n : EnrolledNode) (claimsJSON : string) (expiresAt : time) : Prop := {
  at_plain : tr_Jwt req = "" → claimsJSON = en_ClaimsJSON n ∧ expiresAt = en_ExpiresAt n;
  at_fresh : tr_Jwt req ≠ "" → en_EnrollmentType n = "OIDC" ∧
    ∃ t claims token stored_ t', replied tr Now t ∧ VerifyJWT t (tr_Jwt req) (op_AllowedAudiences (sv_config s)) (sv_providers s) = Ok (claims, token) ∧
      claims_Unmarshal (en_ClaimsJSON n) = Ok stored_ ∧
      oidcIdentityKey (Some (drop_unverified_email claims)) = oidcIdentityKey stored_ ∧ oidcIdentityKey stored_ ≠ "" ∧
      replied tr Now t' ∧ expiresAt = (t' + sessionTTLForClaims s (drop_unverified_email claims))%Z;
  at_unbanned k : claims_name claimsJSON k → k ≠ "" → replied tr (CIsIdentityBanned k) (Ok false);
}.

Lemma identity_gate_answers key tr : answers (identity_gate key) tr (inr tt) → tr = [existT (CIsIdentityBanned key) (Ok false)].
Proof. unfold identity_gate. intros H. repeat along H; simplify_eq; by repeat case_match. Qed.

Lemma refresh_attest_refuses req n : step_refuses (refresh_attest s req n).
Proof.
  unfold refresh_attest. intros tr b e H.
  repeat first [along H | apply answers_bind in H as (tr1 & tr2 & [a'|[]] & -> & Hg & H)]; simplify_eq;
    try (by apply identity_gate_refuses in Hg); by repeat case_match.
Qed.

Lemma refresh_attest_answers req n tr json expiresAt :
  answers (refresh_attest s req n) tr (inr (json, expiresAt)) → Forall reads tr ∧ attested tr req n json expiresAt.
Proof.
  unfold refresh_attest. intros H. along H; [apply negb_true_iff, bool_decide_eq_false in Heqb|apply negb_false_iff, bool_decide_eq_true in Heqb].
  - along H; [by along H|]. apply negb_false_iff, bool_decide_eq_true in Heqb0. along H. along H; [|by along H]. destruct a as [claims token].
    cbv zeta in H. along H; [|by along H]. along H; [by along H|].
    apply orb_false_elim in Heqb1 as [Hne%bool_decide_eq_false Heq%negb_false_iff%bool_decide_eq_true].
    apply answers_bind in H as (tr1 & tr2 & g & -> & Hg & H). destruct g as [?|[]]; [by along H|]. apply identity_gate_answers in Hg as ->.
    along H; [|by along H]. along H. along H. split; [reading|]. split; [done| |].
    + intros _. split; [done|]. do 5 eexists. split_and!; [seen|done|done|done|congruence| |done]. seen.
    + intros k (c' & Hc' & <-) _. match goal with Hm : claims_Marshal _ = Ok _ |- _ => destruct (claims_roundtrip _ _ Hm) as (_ & c2 & Hc2 & Hs & _) end.
      rewrite Hc' in Hc2. injection Hc2 as ->. unfold oidcIdentityKey. rewrite !Hs. seen.
  - along H; [|apply negb_false_iff, bool_decide_eq_true in Heqb0; along H].
    + along H; [|by along H]. cbv zeta in H. along H; [along H|].
      * split; [reading|]. apply bool_decide_eq_true in Heqb1. split; [done|done|]. intros k (c' & Hc' & <-) Hne. congruence.
      * apply answers_bind in H as (tr1 & tr2 & g & -> & Hg & H). along H. destruct g as [?|[]]; [done|]. simplify_eq.
        apply identity_gate_answers in Hg as ->. split; [reading|]. split; [done|done|]. intros k (c' & Hc' & <-) Hne.
        match goal with Hc : claims_Unmarshal _ = Ok _ |- _ => rewrite Hc in Hc'; injection Hc' as <- end. seen.
    + split; [reading|]. split; [done|done|]. rewrite Heqb0. intros k (c & Hc & _). by apply claims_empty in Hc.
Qed.

Lemma refresh_owner_refuses n : step_refuses (refresh_owner n).
Proof. unfold refresh_owner. refuse. Qed.

Lemma refresh_owner_answers n tr :
  answers (refresh_owner n) tr (inr tt) → Forall reads tr ∧ (en_OwnerID n ≠ "" → user_clear tr (en_OwnerID n)).
Proof.
  unfold refresh_owner. intros H. along H; [along H; split; [reading|by apply bool_decide_eq_true in Heqb]|]. repeat along H; (split; [reading|]); intros _;
    eexists; (split; [seen|]); intros u Hu Hi; simplify_eq.
  - by apply bool_decide_eq_true in Heqb0.
  - repeat case_match; simplify_eq. seen.
Qed.

(** ** What is issued *)

(** The credential [b] was minted by the current key for the peer and the
    record's role, to expire at [e], with the labels. *)
Definition issued (tr : list performed) (n : EnrolledNode) (p claimsJSON : string) (e : time) (b : string) (labels : gmap string string) : Prop :=
  ∃ priv pub policyRoles, replied tr CGetCurrentKey (Ok (priv, pub)) ∧
    if bool_decide (en_EnrollmentType n = "OIDC")
    then ∃ claims roles sorted, claims_Unmarshal claimsJSON = Ok claims ∧ en_Role n ∈ roles ∧
           MintBiscuitToken priv claims p e roles policyRoles labels = Ok (b, sorted)
    else MintBootstrapBiscuitToken priv p (en_Role n) e policyRoles labels = Ok b.

Lemma mintRoles_answers roles rs labels tr r : answers (mintRoles roles rs labels) tr r → Forall reads tr.
Proof. unfold mintRoles. intros H. repeat along H. reading. Qed.

Lemma still_allowed_subseteq patterns labels : labelsStillAllowed patterns labels ⊆ labels.
Proof. apply map_filter_subseteq. Qed.

Lemma refresh_credential_refuses n p json priv e policyRoles bindings :
  step_refuses (if bool_decide (en_EnrollmentType n = "OIDC") then refresh_oidc n p json priv e policyRoles bindings
                else refresh_bootstrap n json p priv e policyRoles bindings).
Proof.
  case_bool_decide; unfold refresh_oidc, refresh_bootstrap; cbv zeta.
  - destruct (claims_Unmarshal json); [|refuse]. destruct (negb _); [refuse|]. apply step_refuses_bind. intros mroles. refuse.
  - apply step_refuses_bind. intros mroles. refuse.
Qed.

Lemma refresh_credential_answers tr0 n p json priv pub e policyRoles bindings tr b labels :
  replied tr0 CGetCurrentKey (Ok (priv, pub)) →
  answers (if bool_decide (en_EnrollmentType n = "OIDC") then refresh_oidc n p json priv e policyRoles bindings
           else refresh_bootstrap n json p priv e policyRoles bindings) tr (inr (b, labels)) →
  Forall reads tr ∧ labels ⊆ en_Labels n ∧ issued tr0 n p json e b labels.
Proof.
  intros Hkey H. unfold issued. destruct (bool_decide (en_EnrollmentType n = "OIDC")).
  - unfold refresh_oidc in H. along H; [|by along H]. cbv zeta in H. along H; [by along H|].
    apply answers_bind in H as (tr1 & tr2 & mroles & -> & Hm%mintRoles_answers & H). along H. case_match eqn:Hmint; [|done]. case_match. simplify_eq.
    split; [reading|]. split; [apply still_allowed_subseteq|]. exists priv, pub, mroles. split; [done|]. do 3 eexists.
    split; [done|]. split; [|exact Hmint]. by left.
  - unfold refresh_bootstrap in H. cbv zeta in H.
    apply answers_bind in H as (tr1 & tr2 & mroles & -> & Hm%mintRoles_answers & H). along H. cbn [refreshed en_Role en_Labels] in *.
    case_match eqn:Hmint; [|done]. simplify_eq. split; [reading|]. split; [apply still_allowed_subseteq|]. by exists priv, pub, mroles.
Qed.

(** The calls of a refresh that succeeds: reads, and then the record written
    with the new credential. *)
Definition writes_back (tr : list performed) (record : EnrolledNode) : Prop :=
  ∃ tr0, tr = tr0 ++ [existT (CEnrollNode record) (Ok tt)] ∧ Forall reads tr0.

Lemma refresh_mint_answers n p json expiresAt tr b e :
  answers (refresh_mint s n p json expiresAt) tr (Refreshed b e) →
  ∃ now at_ labels, replied tr Now now ∧ (e ≤ now + BiscuitTTL s)%Z ∧ (IsZero expiresAt = false → (e ≤ expiresAt)%Z) ∧
    labels ⊆ en_Labels n ∧ issued tr n p json e b labels ∧ replied tr Now at_ ∧ writes_back tr (refreshed n json expiresAt labels b at_).
Proof.
  unfold refresh_mint. intros H. along H. along H; [|by along H]. destruct a as [priv pub]. along H. along H; [|by along H].
  destruct a as [policyRoles bindings]. along H. cbv zeta in H. unfold or_return in H.
  apply answers_bind in H as (tr1 & tr2 & g & -> & Hg & H). destruct g as [?|[b' labels]]; [along H; by apply refresh_credential_refuses in Hg|]. along H. along H.
  along H; [|by along H]. along H.
  match goal with |- context [?x :: ?y :: existT Now ?now :: tr1 ++ ?tl] =>
    destruct (refresh_credential_answers (x :: y :: existT Now now :: tr1 ++ tl) _ _ _ _ pub _ _ _ _ _ _ ltac:(seen) Hg) as (Hr & Hsub & Hiss);
    lazymatch tl with existT Now ?at_ :: _ => exists now, at_, labels end; pose proof (within_session (now + BiscuitTTL s)%Z expiresAt) as [Hl1 Hl2]
  end.
  split_and!; try done; try seen. destruct a. eexists (_ :: _ :: _ :: tr1 ++ [_]). cbn [app]. rewrite <-(assoc_L (++)).
  split; [reflexivity|]. reading.
Qed.

(** ** The whole refresh *)

(** What a refresh of the record [n] under the peer [p] has checked. *)
Record checked (tr : list performed) (req : TokenRefreshRequest) (recovering : bool) (p : string) (n : EnrolledNode) (json : string) (expiresAt : time) : Prop := {
  ck_unbanned : en_Banned n = false;
  ck_session : tr_Jwt req = "" → ∃ t, replied tr Now t ∧ CheckAdmission t n = Ok tt;
  ck_signed : challenged tr n (RefreshChallenge p (tr_ChallengeUnixMs req)) (tr_ChallengeUnixMs req) (tr_ChallengeSignature req);
  ck_recovery : recovering = true → en_AutonomousRecovery n = true;
  ck_attested : attested tr req n json expiresAt;
  ck_owner : en_OwnerID n ≠ "" → user_clear tr (en_OwnerID n);
}.

Lemma attested_mono tr tr' req n json expiresAt : tr ⊆ tr' → attested tr req n json expiresAt → attested tr' req n json expiresAt.
Proof.
  intros Hsub [Hp Hf Hu]. split; [done| |by unfold replied in *; auto]. unfold replied in *. intros Hj. destruct (Hf Hj) as (? & t & claims & token & st & t' & H).
  split; [done|]. exists t, claims, token, st, t'. destruct H as (?&?&?&?&?&?&?). auto 10.
Qed.

Lemma checked_mono tr tr' req recovering p n json expiresAt :
  tr ⊆ tr' → checked tr req recovering p n json expiresAt → checked tr' req recovering p n json expiresAt.
Proof.
  intros Hsub [Hb Hs Hc Hr Ha Ho]. split; [done| | |done| |].
  - intros Hj. destruct (Hs Hj) as (t & ? & ?). exists t. unfold replied in *. auto.
  - by eapply challenged_mono.
  - by eapply attested_mono.
  - eauto using user_clear_mono.
Qed.

Lemma CheckAdmission_unbanned t n : CheckAdmission t n ≠ Err ErrNodeBanned → en_Banned n = false.
Proof. unfold CheckAdmission. by destruct (en_Banned n). Qed.

(** A credential that the record [n] of the peer [p] holds is replaced. *)
Definition replaced (tr : list performed) (req : TokenRefreshRequest) (recovering : bool) (current p : string) (n : EnrolledNode) (b : string) (e : time) : Prop :=
  ∃ json expiresAt labels now at_, replied tr (CGetNode p) (Ok n) ∧ en_Biscuit n = current ∧ checked tr req recovering p n json expiresAt ∧
    issued tr n p json e b labels ∧ labels ⊆ en_Labels n ∧
    replied tr Now now ∧ (e ≤ now + BiscuitTTL s)%Z ∧ (IsZero expiresAt = false → (e ≤ expiresAt)%Z) ∧
    replied tr Now at_ ∧ writes_back tr (refreshed n json expiresAt labels b at_).

Lemma issued_mono tr tr' n p json e b labels : tr ⊆ tr' → issued tr n p json e b labels → issued tr' n p json e b labels.
Proof. intros Hsub (priv & pub & rs & Hk & H). exists priv, pub, rs. unfold replied in *. auto. Qed.

Lemma writes_back_app tr tr' r : Forall reads tr → writes_back tr' r → writes_back (tr ++ tr') r.
Proof. intros Htr (tr0 & -> & H0). exists (tr ++ tr0). rewrite (assoc_L (++)). split; [done|]. by apply Forall_app. Qed.

Lemma replaced_app tr tr' req recovering current p n b e :
  Forall reads tr → replaced tr' req recovering current p n b e → replaced (tr ++ tr') req recovering current p n b e.
Proof.
  intros Htr (json & expiresAt & labels & now & at_ & Hn & Hb & Hck & Hiss & Hl & Hnow & He1 & He2 & Hat & Hw).
  assert (tr' ⊆ tr ++ tr') by set_solver. exists json, expiresAt, labels, now, at_. unfold replied in *.
  split_and!; eauto using checked_mono, issued_mono, writes_back_app.
Qed.

Lemma refresh_record_answers req current p recovering tr b e :
  answers (refresh_record s req current p recovering) tr (Refreshed b e) → ∃ n, replaced tr req recovering current p n b e.
Proof.
  unfold refresh_record. cbv zeta. intros H. along H. along H; [|along H; by along H]. rename a into n. along H. cbv zeta in H. along H; [by along H|].
  along H; [by along H|]. along H; [|by along H]. along H. along H; [|by along H]. along H; [by along H|]. along H; [by along H|]. unfold or_return in H.
  apply answers_bind in H as (tr1 & tr2 & g & -> & Ha & H). destruct g as [?|[json expiresAt]]; [along H; by apply refresh_attest_refuses in Ha|].
  apply answers_bind in H as (tr3 & tr4 & g & -> & Ho & H). destruct g as [?|[]]; [along H; by apply refresh_owner_refuses in Ho|].
  apply refresh_attest_answers in Ha as [Hr1 Ha]. apply refresh_owner_answers in Ho as [Hr2 Ho].
  apply refresh_mint_answers in H as (now & at_ & labels & Hnow & He1 & He2 & Hl & Hiss & Hat & Hw).
  apply bool_decide_eq_false in Heqb0. apply negb_false_iff, bool_decide_eq_true in Heqb2. subst. destruct a0.
  exists n, json, expiresAt, labels, now, at_. split_and!; try done; try seen.
  - split; [by eapply CheckAdmission_unbanned| | | | |].
    + intros Hj. rewrite bool_decide_true in Heqb1 by done. simpl in Heqb1. rewrite andb_true_r, negb_false_iff in Heqb1.
      apply is_ok_true in Heqb1 as [[] ?]. eexists. split; [|done]. seen.
    + do 2 eexists. split_and!; [done| |done]. seen.
    + intros ->. by destruct (en_AutonomousRecovery n).
    + eapply attested_mono; [|exact Ha]. set_solver.
    + intros Hne. eapply user_clear_mono; [|by apply Ho]. set_solver.
  - eapply issued_mono; [|exact Hiss]. set_solver.
  - rewrite (assoc_L (++)). eapply (writes_back_app (_ :: _ :: _ :: tr1 ++ tr3)); [|done]. reading.
Qed.
(** How the peer of a refresh is told from the credential and the request. *)
Definition identified (req : TokenRefreshRequest) (recovering : bool) (t : time) (keys : list PublicKey) (current p : string) : Prop :=
  if recovering then is_ok (VerifyExpiredAndExtractPeerID t keys current) = false ∧ peer_Decode (tr_PeerId req) = Ok p
  else VerifyExpiredAndExtractPeerID t keys current = Ok p ∧ (tr_PeerId req = "" ∨ peer_Decode (tr_PeerId req) = Ok p).

Lemma HandleRefresh_answers bearer req tr b e :
  answers (HandleRefresh s bearer req) tr (Refreshed b e) →
  ∃ current keys t p n recovering, bearer = Some (Ok current) ∧ replied tr CGetAllValidPublicKeys (Ok keys) ∧ replied tr Now t ∧
    identified req recovering t keys current p ∧ replaced tr req recovering current p n b e.
Proof.
  unfold HandleRefresh, identified. intros H. destruct bearer as [[current|]|]; [|by along H..]. along H. along H; [|by along H]. along H. subst.
  match goal with H : answers _ ?tr' _ |- context [?x :: existT Now ?t :: ?tr'] =>
    assert (∀ p recovering, answers (refresh_record s req current p recovering) tr' (Refreshed b e) →
      ∃ n, replaced (x :: existT Now t :: tr') req recovering current p n b e) as Hrec
  end.
  { intros p recovering (n & Hn)%refresh_record_answers. exists n. eapply (replaced_app [_; _]); [reading|done]. }
  destruct (VerifyExpiredAndExtractPeerID _ _ _) as [p|] eqn:Hv.
  - along H; [|by along H]. apply Hrec in H as [n Hn]. exists current, a. do 2 eexists. exists n, false. rewrite Hv.
    split_and!; [done|seen|seen|done| |done]. apply orb_true_iff in Heqb0 as [?%bool_decide_eq_true|?%bool_decide_eq_true]; auto.
  - along H; [by along H|]. along H; [|by along H]. apply Hrec in H as [n Hn]. exists current, a. do 2 eexists. exists n, true. rewrite Hv.
    split_and!; [done|seen|seen|done|done|done].
Qed.

(** *** In a history *)

(** The store answers for a peer with the record of this peer. *)
Definition named (e : performed) : Prop :=
  match e with
  | existT c r => match c as c return reply c → Prop with CGetNode p => λ r, ∀ n, r = Ok n → en_PeerID n = p | _ => λ _, True end r
  end.

Lemma run_call_named w ch c : keyed (w_db w) → named (existT c (run_call w ch c).1).
Proof.
  intros Hkey. destruct c; try done. assert (∀ r, r = GetNode peerID (w_db w) ∨ r = Err ErrStore → ∀ n, r = Ok n → en_PeerID n = peerID) as Hr.
  { intros r [->| ->] n; [|done]. unfold GetNode, query_row. destruct (_ !! _) eqn:Hn; [|done]. intros [= <-]. by apply Hkey. }
  destruct ch; refine (Hr _ _); cbn; auto.
Qed.

Lemma history_named w hs : keyed (w_db w) → Forall named (all_calls (history s {| cf_world := w; cf_threads := [] |} hs)).
Proof.
  intros Hkey. induction hs as [|h hs IH] using rev_ind; [constructor|]. unfold history in *. rewrite foldl_snoc.
  destruct (step_cases s (foldl (step s) {| cf_world := w; cf_threads := [] |} hs) h) as [[Hc _]|(th & c & k & ch & _ & _ & _ & Hc)]; rewrite Hc; [done|].
  apply Forall_app. split; [done|]. apply Forall_singleton, run_call_named. by apply (keyed_history s {| cf_world := w; cf_threads := [] |}).
Qed.

Lemma trace_named w hs i th p n :
  keyed (w_db w) → cf_threads (history s {| cf_world := w; cf_threads := [] |} hs) !! i = Some th →
  replied (th_trace th) (CGetNode p) (Ok n) → en_PeerID n = p.
Proof.
  intros Hkey Hi Hr. pose proof (history_named w hs Hkey) as Hall. rewrite Forall_forall in Hall.
  refine (Hall (existT (CGetNode p) (Ok n)) _ n eq_refl). unfold all_calls. apply list_elem_of_bind. exists th. split; [exact Hr|].
  by eapply list_elem_of_lookup_2.
Qed.

(** What the record, written over whatever the row holds by then, does to the
    store. *)
Definition row_replaced (p : string) (record : EnrolledNode) : Prop :=
  ∀ w ch, (run_call w ch (CEnrollNode record)).1 = Ok tt →
    (run_call w ch (CEnrollNode record)).2 =
    set_db w (set_nodes (w_db w) (<[p := node_row (w_clock w) record match db_nodes (w_db w) !! p with Some row => en_Banned row | None => false end]> (db_nodes (w_db w)))).

Lemma enroll_replaces record : row_replaced (en_PeerID record) record.
Proof.
  intros w ch. assert ((answered w "" (CEnrollNode record)).1 = Ok tt → (answered w "" (CEnrollNode record)).2 =
    set_db w (set_nodes (w_db w) (<[en_PeerID record := node_row (w_clock w) record match db_nodes (w_db w) !! en_PeerID record with Some row => en_Banned row | None => false end]> (db_nodes (w_db w))))) as Ha.
  { cbn [answered]. destruct (EnrollNode _ _ _) as [db|] eqn:Hdb; [|done]. cbn. apply EnrollNode_frame in Hdb. by subst db. }
  destruct ch; [exact Ha|done|exact Ha].
Qed.

(** C29: What a refresh that succeeds rests on, in every history: whatever other
    requests do between its calls, whichever calls fail and however the clock
    moves.  The caller presented the credential that the record of the peer held
    when the request read it; its signature verifies to the peer under the keys
    that were read, or it does not, the record has opted in to autonomous
    recovery and the caller named the peer.  The caller signed a fresh challenge
    with the record's key; the record as read is not banned, its session is valid
    or a fresh ID token of the same identity renews it; the store answered that
    the identity of the claims is not banned, and so for the owner's where the
    owner's record could be read and names an issuer.  The credential issued is
    minted by the current key for the peer and the record's role, with labels of
    the record; it expires within the credential's lifetime and no later than the
    session.  Every call but the last reads; the last writes the record as it was
    read with the new credential, claims, session and labels, which replaces the
    peer's row and nothing else, and leaves the ban that the row has by then.
    What another request wrote to the row since the read is otherwise
    overwritten, and two refreshes that both read the record before either wrote
    it may both succeed. *)
Theorem refresh_sound w hs i th bearer req b e :
  keyed (w_db w) → cf_threads (history s {| cf_world := w; cf_threads := [] |} hs) !! i = Some th →
  th_request th = RqRefresh bearer req → th_prog th = Ret (Refreshed b e) →
  let tr := th_trace th in
  ∃ p n keys t json expiresAt labels now at_ recovering,
    replied tr (CGetNode p) (Ok n) ∧ bearer = Some (Ok (en_Biscuit n)) ∧
    replied tr CGetAllValidPublicKeys (Ok keys) ∧ replied tr Now t ∧
    identified req recovering t keys (en_Biscuit n) p ∧
    checked tr req recovering p n json expiresAt ∧
    issued tr n p json e b labels ∧ labels ⊆ en_Labels n ∧
    replied tr Now now ∧ (e ≤ now + BiscuitTTL s)%Z ∧ (IsZero expiresAt = false → (e ≤ expiresAt)%Z) ∧
    replied tr Now at_ ∧ writes_back tr (refreshed n json expiresAt labels b at_) ∧
    row_replaced p (refreshed n json expiresAt labels b at_).
Proof.
  intros Hkey Hi Hrq Hret tr. pose proof (history_answers s w hs i th _ Hi Hret) as H. rewrite Hrq in H. cbn [handler] in H. fold tr in H.
  pose proof (λ p n, trace_named w hs i th p n Hkey Hi) as Hnamed. fold tr in Hnamed. clearbody tr. clear Hkey Hi Hrq Hret.
  apply HandleRefresh_answers in H as (current & keys & t & p & n & recovering & -> & Hk & Ht & Hid & Hr).
  destruct Hr as (json & expiresAt & labels & now & at_ & Hn & <- & Hck & Hiss & Hl & Hnow & He1 & He2 & Hat & Hw).
  exists p, n, keys, t, json, expiresAt, labels, now, at_, recovering. split_and!; try done. rewrite <-(Hnamed p n Hn).
  apply (enroll_replaces (refreshed n json expiresAt labels b at_)).
Qed.
End refresh.

(** ** Witness *)

(** The second of two refreshes that overlap, a second after the first. *)
Local Abbreviation raced := (@history ascii_case one_rule_codec scenario_tokens reference_text naive_engine plain_codec padded_digest text_keys
  subject_tokens subject_codec ascii_print no_urls no_loopback no_key_peer plain_addrs no_policy_codec (scenario_server false)
  {| cf_world := scenario_world (members ""); cf_threads := [] |} refresh_race).
Definition raced_credential : string := default "" (refreshed_with raced 1).

Lemma answered_thread cf i rq a :
  (th_request <$> cf_threads cf !! i) = Some rq → answer_of cf i = Some a →
  ∃ th, cf_threads cf !! i = Some th ∧ th_request th = rq ∧ th_prog th = Ret a.
Proof.
  unfold answer_of. destruct (cf_threads cf !! i) as [th|]; [|done]. cbn. intros [= <-] Ha. exists th.
  destruct (th_prog th); [by injection Ha as ->|done].
Qed.

Lemma raced_answered :
  (th_request <$> cf_threads raced !! 1) = Some (recovery "a") ∧ answer_of raced 1 = Some (Refreshed raced_credential (151 * second)%Z).
Proof. split; vm_compute; reflexivity. Qed.

Lemma refresh_sound_witness :
  refreshed_with raced 1 = Some raced_credential ∧
  ∃ p n, replied (trace_of raced 1) (CGetNode p) (Ok n) ∧ "old" = en_Biscuit n ∧ en_Banned n = false.
Proof.
  split; [vm_compute; reflexivity|]. destruct raced_answered as [Hrq Hret].
  destruct (answered_thread raced 1 _ _ Hrq Hret) as (th & Hth & Hreq & Hp). unfold trace_of. rewrite Hth. cbn [from_option].
  destruct (refresh_sound (UC := ascii_case) (TC := one_rule_codec) (BT := scenario_tokens) (TX := reference_text)
    (BE := naive_engine) (PC := plain_codec) (SH := padded_digest) (PK := text_keys) (OL := subject_tokens) (CC := subject_codec)
    (UP := ascii_print) (UR := no_urls) (LO := no_loopback) (KP := no_key_peer) (MA := plain_addrs) (PO := no_policy_codec)
    (scenario_server false) (scenario_world (members "")) refresh_race 1 th _ _ raced_credential (151 * second)%Z
    (members_keyed "") Hth Hreq Hp) as (p & n & keys & t & json & expiresAt & labels & now & at_ & recovering & Hn & Hb & _ & _ & _ & Hck & _).
  exists p, n. split; [exact Hn|]. split; [by injection Hb|]. exact (ck_unbanned _ _ _ _ _ _ _ _ Hck).
Defined.
