(* ===== verification/NodeStore.v ===== *)
(** * What a node keeps on disk

    A node's database holds its private key and its membership, one
    [api.MemberCredential] ([src/internal/node/store.go]).  The database is the
    contents of its bucket; a transaction that writes is committed or, when the
    disk refuses it, leaves the bucket as it was.  The encoding of the
    credential and the JSON of older databases are parameters. *)

From S2P Require Import Prelude GoStrings Regex Names Biscuit NaiveEngine Facts DatalogText Grants Labels HTTPGrants PolicyRules Egress Base64 Tar Token Identity Middleware Keyring Decimal.

Definition keyPrivKey : string := "node_private_key".
Definition keyCredential : string := "member_credential".

Definition legacyKeys : list string := [
  "identity_biscuit"; "identity_expiration"; "refresh_token"; "oidc_issuer"; "oidc_client_id"; "oidc_audience";
  "trusted_keys"; "identity_key_set"; "control_plane_public_key"; "router_addresses"; "control_plane_url"].

(** ** The credential *)

Record OIDCSession := { os_Issuer : string; os_ClientId : string; os_Audience : string; os_RefreshToken : string }.

Record TrustedSigningKey := { sk_PublicKey : PublicKey; sk_ReceiveTime : option Timestamp }.

Record MemberCredential := {
  mc_ControlPlaneUrl : string;
  mc_Biscuit : string;
  mc_ExpireTime : option Timestamp;
  mc_TrustedKeys : list TrustedSigningKey;
  mc_IssuedUnderKeys : list PublicKey;
  mc_RouterAddresses : list string;
  mc_OidcSession : option OIDCSession;
}.

(** A node that has not enrolled. *)
Definition empty_credential : MemberCredential :=
  {| mc_ControlPlaneUrl := ""; mc_Biscuit := ""; mc_ExpireTime := None; mc_TrustedKeys := []; mc_IssuedUnderKeys := [];
     mc_RouterAddresses := []; mc_OidcSession := None |}.

Definition set_ControlPlaneUrl url (c : MemberCredential) : MemberCredential :=
  {| mc_ControlPlaneUrl := url; mc_Biscuit := mc_Biscuit c; mc_ExpireTime := mc_ExpireTime c; mc_TrustedKeys := mc_TrustedKeys c;
     mc_IssuedUnderKeys := mc_IssuedUnderKeys c; mc_RouterAddresses := mc_RouterAddresses c; mc_OidcSession := mc_OidcSession c |}.
Definition set_Biscuit biscuit (c : MemberCredential) : MemberCredential :=
  {| mc_ControlPlaneUrl := mc_ControlPlaneUrl c; mc_Biscuit := biscuit; mc_ExpireTime := mc_ExpireTime c; mc_TrustedKeys := mc_TrustedKeys c;
     mc_IssuedUnderKeys := mc_IssuedUnderKeys c; mc_RouterAddresses := mc_RouterAddresses c; mc_OidcSession := mc_OidcSession c |}.
Definition set_ExpireTime t (c : MemberCredential) : MemberCredential :=
  {| mc_ControlPlaneUrl := mc_ControlPlaneUrl c; mc_Biscuit := mc_Biscuit c; mc_ExpireTime := t; mc_TrustedKeys := mc_TrustedKeys c;
     mc_IssuedUnderKeys := mc_IssuedUnderKeys c; mc_RouterAddresses := mc_RouterAddresses c; mc_OidcSession := mc_OidcSession c |}.
Definition set_TrustedKeys keys (c : MemberCredential) : MemberCredential :=
  {| mc_ControlPlaneUrl := mc_ControlPlaneUrl c; mc_Biscuit := mc_Biscuit c; mc_ExpireTime := mc_ExpireTime c; mc_TrustedKeys := keys;
     mc_IssuedUnderKeys := mc_IssuedUnderKeys c; mc_RouterAddresses := mc_RouterAddresses c; mc_OidcSession := mc_OidcSession c |}.
Definition set_IssuedUnderKeys keys (c : MemberCredential) : MemberCredential :=
  {| mc_ControlPlaneUrl := mc_ControlPlaneUrl c; mc_Biscuit := mc_Biscuit c; mc_ExpireTime := mc_ExpireTime c; mc_TrustedKeys := mc_TrustedKeys c;
     mc_IssuedUnderKeys := keys; mc_RouterAddresses := mc_RouterAddresses c; mc_OidcSession := mc_OidcSession c |}.
Definition set_RouterAddresses addrs (c : MemberCredential) : MemberCredential :=
  {| mc_ControlPlaneUrl := mc_ControlPlaneUrl c; mc_Biscuit := mc_Biscuit c; mc_ExpireTime := mc_ExpireTime c; mc_TrustedKeys := mc_TrustedKeys c;
     mc_IssuedUnderKeys := mc_IssuedUnderKeys c; mc_RouterAddresses := addrs; mc_OidcSession := mc_OidcSession c |}.
Definition set_OidcSession s (c : MemberCredential) : MemberCredential :=
  {| mc_ControlPlaneUrl := mc_ControlPlaneUrl c; mc_Biscuit := mc_Biscuit c; mc_ExpireTime := mc_ExpireTime c; mc_TrustedKeys := mc_TrustedKeys c;
     mc_IssuedUnderKeys := mc_IssuedUnderKeys c; mc_RouterAddresses := mc_RouterAddresses c; mc_OidcSession := s |}.

(** [proto.Marshal] and [proto.Unmarshal] of a credential: what is written is
    read back. *)
Class CredentialCodec := {
  cred_Marshal : MemberCredential → result string;
  cred_Unmarshal : string → result MemberCredential;
  cred_roundtrip c data : cred_Marshal c = Ok data → cred_Unmarshal data = Ok c;
  cred_Marshal_empty c : cred_Marshal c = Ok "" → c = empty_credential;
}.

(** The JSON entries of a database from before the credential was one message. *)
Class LegacyJSON := {
  json_addresses : string → result (list string);
  json_trusted_keys : string → result (list TrustedKey);
  json_key_set : string → result (list PublicKey);
}.

(** ** Conversions *)

Definition trustedKeysToProto (keys : list TrustedKey) : list TrustedSigningKey :=
  (λ k, {| sk_PublicKey := tk_Key k;
           sk_ReceiveTime := if bool_decide (tk_ReceivedAt k = zero_time) then None else Some (timestamp_New (tk_ReceivedAt k)) |}) <$> keys.

Definition trustedKeysFromProto (now : time) (keys : list TrustedSigningKey) : list TrustedKey :=
  (λ k, {| tk_Key := sk_PublicKey k; tk_ReceivedAt := match sk_ReceiveTime k with Some t => AsTime t | None => now end |}) <$> keys.

Definition trustedKeyBytes (keys : list TrustedSigningKey) : list PublicKey := sk_PublicKey <$> keys.

Definition containsKeyBytes (keys : list PublicKey) (want : PublicKey) : bool := existsb (λ k, bool_decide (k = want)) keys.

(** The key enters a credential: the trusted set, and the issuance set when
    nothing recorded it. *)
Definition seed_key (now : time) (pubKey : PublicKey) (c : MemberCredential) : MemberCredential :=
  if negb (len pubKey =? PublicKeySize) then c
  else
    let c := if negb (containsKeyBytes (trustedKeyBytes (mc_TrustedKeys c)) pubKey)
             then set_TrustedKeys (mc_TrustedKeys c ++ [{| sk_PublicKey := pubKey; sk_ReceiveTime := Some (timestamp_New now) |}]) c
             else c in
    if bool_decide (length (mc_IssuedUnderKeys c) = 0) then set_IssuedUnderKeys [pubKey] c else c.

(** [Time.Unix], and the timestamp of a Unix time. *)
Definition Unix (t : time) : Z := (t / second)%Z.
Definition unix_timestamp (s : Z) : Timestamp := timestamp_New (s * second)%Z.

Definition expireUnix (t : option Timestamp) : Z :=
  match t with None => 0%Z | Some t => Unix (AsTime t) end.

(** ** The database *)

Abbreviation bucket := (gmap string string) (only parsing).

(** [string(b.Get(k))]. *)
Definition bucket_text (b : bucket) (k : string) : string := default "" (b !! k).

Section store.
Context `{CC : CredentialCodec}.

Definition putCredential (b : bucket) (c : MemberCredential) : result bucket :=
  data ← cred_Marshal c;
  Ok (<[keyCredential := data]> b).

Definition getCredential (b : bucket) : result MemberCredential :=
  let raw := bucket_text b keyCredential in
  if 0 <? len raw then wrap_err "corrupt member credential in store" (cred_Unmarshal raw) else Ok empty_credential.

Definition view {A} (b : bucket) (fn : MemberCredential → result A) : result A :=
  c ← getCredential b;
  fn c.

(** A writing transaction; [commit] is what committing it gives. *)
Definition db_Update (commit : result unit) (b : bucket) (tx : result bucket) : result unit * bucket :=
  match (b ← tx; commit;; Ok b) with
  | Ok b' => (Ok tt, b')
  | Err e => (Err e, b)
  end.

Definition update (commit : result unit) (b : bucket) (fn : MemberCredential → MemberCredential) : result unit * bucket :=
  db_Update commit b (c ← getCredential b; putCredential b (fn c)).

Definition Credential (b : bucket) : result MemberCredential := view b Ok.

Definition SetCredential commit (b : bucket) (c : MemberCredential) : result unit * bucket :=
  db_Update commit b (putCredential b c).

Definition SaveIdentity commit (b : bucket) (biscuit : string) : result unit * bucket := update commit b (set_Biscuit biscuit).

Definition LoadIdentity (b : bucket) : result string :=
  val ← view b (λ c, Ok (mc_Biscuit c));
  fail_if (len val =? 0) "no identity found";;
  Ok val.

Definition SaveIdentityExpiration commit (b : bucket) (exp : Z) : result unit * bucket :=
  update commit b (set_ExpireTime (Some (unix_timestamp exp))).

Definition LoadIdentityExpiration (b : bucket) : result Z :=
  exp ← view b (λ c, Ok (mc_ExpireTime c));
  match exp with
  | None => Err (NewError "no identity expiration found")
  | Some exp => Ok (Unix (AsTime exp))
  end.

(** The session of a credential, empty when there is none. *)
Definition session (c : MemberCredential) : OIDCSession :=
  default {| os_Issuer := ""; os_ClientId := ""; os_Audience := ""; os_RefreshToken := "" |} (mc_OidcSession c).

Definition SaveRefreshToken commit (b : bucket) (token : string) : result unit * bucket :=
  update commit b (λ c, set_OidcSession (Some {| os_Issuer := os_Issuer (session c); os_ClientId := os_ClientId (session c);
    os_Audience := os_Audience (session c); os_RefreshToken := token |}) c).

Definition LoadRefreshToken (b : bucket) : result string :=
  token ← view b (λ c, Ok (os_RefreshToken (session c)));
  fail_if (bool_decide (token = "")) "no refresh token found";;
  Ok token.

Definition SaveOIDCConfig commit (b : bucket) (issuer clientID audience : string) : result unit * bucket :=
  update commit b (λ c, set_OidcSession (Some {| os_Issuer := issuer; os_ClientId := clientID; os_Audience := audience;
    os_RefreshToken := os_RefreshToken (session c) |}) c).

Definition LoadOIDCConfig (b : bucket) : result (string * string * string) :=
  view b (λ c, Ok (os_Issuer (session c), os_ClientId (session c), os_Audience (session c))).

Definition SaveKey commit (b : bucket) (key : string) : result unit * bucket := db_Update commit b (Ok (<[keyPrivKey := key]> b)).

Definition LoadKey (b : bucket) : string := bucket_text b keyPrivKey.

Definition SaveMeshConfig commit (now : time) (b : bucket) (pubKey : PublicKey) (addrs : list string) : result unit * bucket :=
  update commit b (λ c, seed_key now pubKey (set_RouterAddresses addrs c)).

Definition LoadMeshConfig (b : bucket) : result (PublicKey * list string) :=
  view b (λ c, Ok (match mc_TrustedKeys c with k :: _ => sk_PublicKey k | [] => "" end, mc_RouterAddresses c)).

Definition SaveControlPlaneURL commit (b : bucket) (url : string) : result unit * bucket := update commit b (set_ControlPlaneUrl url).

Definition LoadControlPlaneURL (b : bucket) : result string := view b (λ c, Ok (mc_ControlPlaneUrl c)).

Definition SaveTrustedKeys commit (b : bucket) (keys : list TrustedKey) : result unit * bucket :=
  update commit b (set_TrustedKeys (trustedKeysToProto keys)).

Definition LoadTrustedKeys (now : time) (b : bucket) : result (list TrustedKey) :=
  view b (λ c, Ok (trustedKeysFromProto now (mc_TrustedKeys c))).

Definition SaveIdentityKeySet commit (b : bucket) (keys : list PublicKey) : result unit * bucket := update commit b (set_IssuedUnderKeys keys).

Definition LoadIdentityKeySet (b : bucket) : result (list PublicKey) := view b (λ c, Ok (mc_IssuedUnderKeys c)).

Definition ResetMeshIdentity commit (b : bucket) : result unit * bucket := db_Update commit b (Ok (delete keyCredential b)).

(** ** Migration *)

Context `{LJ : LegacyJSON}.

(** A legacy entry that is there and not empty, decoded. *)
Definition legacy_entry {A} (b : bucket) (k : string) (decode : string → result A) : result (option A) :=
  let raw := bucket_text b k in
  if 0 <? len raw then (a ← wrap_err ("migrating " +:+ k) (decode raw); Ok (Some a)) else Ok None.

(** The credential that an older database spells out. *)
Definition legacy_credential (now : time) (b : bucket) : result MemberCredential :=
  let exp := let raw := bucket_text b "identity_expiration" in
             if 0 <? len raw then match ParseInt raw with Ok exp => Some (unix_timestamp exp) | Err _ => None end else None in
  addrs ← legacy_entry b "router_addresses" json_addresses;
  keys ← legacy_entry b "trusted_keys" json_trusted_keys;
  issued ← legacy_entry b "identity_key_set" json_key_set;
  let issuer := bucket_text b "oidc_issuer" in
  let clientID := bucket_text b "oidc_client_id" in
  let audience := bucket_text b "oidc_audience" in
  let refresh := bucket_text b "refresh_token" in
  let c := {| mc_ControlPlaneUrl := bucket_text b "control_plane_url"; mc_Biscuit := bucket_text b "identity_biscuit"; mc_ExpireTime := exp;
              mc_TrustedKeys := trustedKeysToProto (default [] keys); mc_IssuedUnderKeys := default [] issued;
              mc_RouterAddresses := default [] addrs; mc_OidcSession := None |} in
  let c := seed_key now (bucket_text b "control_plane_public_key") c in
  Ok (if bool_decide (issuer = "") && bool_decide (clientID = "") && bool_decide (audience = "") && bool_decide (refresh = "") then c
      else set_OidcSession (Some {| os_Issuer := issuer; os_ClientId := clientID; os_Audience := audience; os_RefreshToken := refresh |}) c).

Definition migrateLegacyCredential (now : time) (b : bucket) : result bucket :=
  if bool_decide (is_Some (b !! keyCredential)) then Ok b
  else if negb (existsb (λ k, bool_decide (is_Some (b !! k))) legacyKeys) then Ok b
  else
    c ← legacy_credential now b;
    b' ← putCredential b c;
    Ok (foldl (λ b k, delete k b) b' legacyKeys).

(** The store as it is opened. *)
Definition NewStore commit (now : time) (b : bucket) : result bucket :=
  match db_Update commit b (migrateLegacyCredential now b) with
  | (Ok _, b) => Ok b
  | (Err e, _) => Err e
  end.
End store.

(** ** Reading back what was written *)

Section facts.
Context `{CC : CredentialCodec}.

Lemma db_Update_cases commit b tx r b' :
  db_Update commit b tx = (r, b') → (r = Ok tt ∧ tx = Ok b') ∨ (is_ok r = false ∧ b' = b).
Proof.
  unfold db_Update. destruct tx as [b1|e1]; simpl; [destruct commit as [[]|e]; simpl|]; intros [= <- <-]; auto.
Qed.

Lemma get_put b c b' : putCredential b c = Ok b' →
  getCredential b' = Ok c ∧ (∀ k, k ≠ keyCredential → b' !! k = b !! k) ∧ is_Some (b' !! keyCredential).
Proof.
  unfold putCredential. intros (data & Hm & Hb)%bind_Ok. injection Hb as <-. split_and!.
  - unfold getCredential, bucket_text. rewrite lookup_insert_eq. simpl. destruct (Nat.ltb_spec 0 (len data)) as [Hl|Hl].
    + by rewrite (cred_roundtrip c data Hm).
    + destruct data; [|simpl in Hl; lia]. by rewrite (cred_Marshal_empty c Hm).
  - intros k Hk. by rewrite lookup_insert_ne.
  - by rewrite lookup_insert_eq.
Qed.

(** A write that succeeds changes the credential the way it says and nothing
    else; one that fails changes nothing. *)
Lemma update_cases commit b fn r b' :
  update commit b fn = (r, b') →
  (r = Ok tt ∧ ∃ c, getCredential b = Ok c ∧ getCredential b' = Ok (fn c) ∧ ∀ k, k ≠ keyCredential → b' !! k = b !! k) ∨
  (is_ok r = false ∧ b' = b).
Proof.
  intros [[-> Htx]|[Hr ->]]%db_Update_cases; [left|by right]. split; [done|]. apply bind_Ok in Htx as (c & Hc & Hp).
  apply get_put in Hp as (Hg & Hk & _). by exists c.
Qed.

Lemma LoadTrustedKeys_get now b c : getCredential b = Ok c → LoadTrustedKeys now b = Ok (trustedKeysFromProto now (mc_TrustedKeys c)).
Proof. intros Hc. unfold LoadTrustedKeys, view. by rewrite Hc. Qed.

(** The time a key was received, as it is read back at [now]. *)
Definition reloaded (now : time) (k : TrustedKey) : TrustedKey :=
  {| tk_Key := tk_Key k; tk_ReceivedAt := if bool_decide (tk_ReceivedAt k = zero_time) then now else tk_ReceivedAt k |}.

Lemma trusted_keys_roundtrip now keys : trustedKeysFromProto now (trustedKeysToProto keys) = reloaded now <$> keys.
Proof.
  unfold trustedKeysFromProto, trustedKeysToProto. rewrite <-list_fmap_compose. apply list_fmap_ext. intros i k _.
  unfold compose, reloaded. cbn [sk_PublicKey sk_ReceiveTime]. f_equal. case_bool_decide; [done|]. by rewrite AsTime_New.
Qed.

Lemma seed_key_trusted now k c : len k = PublicKeySize → k ∈ sk_PublicKey <$> mc_TrustedKeys (seed_key now k c).
Proof.
  intros Hk. unfold seed_key. rewrite Hk. cbn [Nat.eqb negb PublicKeySize].
  assert (H : k ∈ sk_PublicKey <$> mc_TrustedKeys (if negb (containsKeyBytes (trustedKeyBytes (mc_TrustedKeys c)) k)
    then set_TrustedKeys (mc_TrustedKeys c ++ [{| sk_PublicKey := k; sk_ReceiveTime := Some (timestamp_New now) |}]) c else c)).
  { destruct (containsKeyBytes _ k) eqn:Ec; cbn [negb set_TrustedKeys mc_TrustedKeys].
    - unfold containsKeyBytes in Ec. apply existsb_exists in Ec as (x & Hx & ->%bool_decide_eq_true). by apply list_elem_of_In.
    - rewrite fmap_app. apply elem_of_app. right. by left. }
  destruct (bool_decide _); [|done]. done.
Qed.

Lemma seed_key_keys now k c x : x ∈ sk_PublicKey <$> mc_TrustedKeys (seed_key now k c) → x ∈ sk_PublicKey <$> mc_TrustedKeys c ∨ x = k.
Proof.
  unfold seed_key. destruct (negb (len k =? _)); [by left|]. destruct (negb (containsKeyBytes _ k)); case_bool_decide;
    cbn [mc_TrustedKeys set_TrustedKeys set_IssuedUnderKeys]; try (by left); rewrite fmap_app, elem_of_app; intros [Hx|Hx]; [by left| |by left|];
    right; by apply list_elem_of_singleton in Hx.
Qed.

Lemma seed_key_rest now k c :
  mc_ControlPlaneUrl (seed_key now k c) = mc_ControlPlaneUrl c ∧ mc_Biscuit (seed_key now k c) = mc_Biscuit c ∧
  mc_ExpireTime (seed_key now k c) = mc_ExpireTime c ∧ mc_RouterAddresses (seed_key now k c) = mc_RouterAddresses c ∧
  mc_OidcSession (seed_key now k c) = mc_OidcSession c.
Proof. unfold seed_key. destruct (negb (len k =? _)); [done|]. by destruct (negb (containsKeyBytes _ k)); case_bool_decide. Qed.

Lemma delete_all_lookup (ks : list string) (b : bucket) k : foldl (λ b k, delete k b) b ks !! k = if bool_decide (k ∈ ks) then None else b !! k.
Proof.
  revert b. induction ks as [|k' ks IH]; intros b; simpl; [done|]. rewrite IH.
  destruct (decide (k = k')) as [->|Hne].
  - rewrite (bool_decide_true (k' ∈ k' :: ks)) by by left. rewrite lookup_delete_eq. by case_bool_decide.
  - rewrite lookup_delete_ne by done. do 2 case_bool_decide; [done| | |done]; set_solver.
Qed.
End facts.

(** ** Migration keeps the membership *)

Section migration.
Context `{CC : CredentialCodec, LJ : LegacyJSON}.

(** The database is in the old form. *)
Definition legacy (b : bucket) : Prop := b !! keyCredential = None ∧ ∃ k, k ∈ legacyKeys ∧ is_Some (b !! k).

Lemma migrate_cases now b b' : migrateLegacyCredential now b = Ok b' →
  (b' = b ∧ ¬ legacy b) ∨
  (legacy b ∧ ∃ c b1, legacy_credential now b = Ok c ∧ putCredential b c = Ok b1 ∧ b' = foldl (λ b k, delete k b) b1 legacyKeys).
Proof.
  unfold migrateLegacyCredential. case_bool_decide as Hc.
  { intros [= <-]. left. split; [done|]. intros [Hn _]. rewrite Hn in Hc. by destruct Hc. }
  destruct (existsb _ legacyKeys) eqn:Ee; cbn [negb].
  - intros (c & Hl & (b1 & Hp & Hb)%bind_Ok)%bind_Ok. injection Hb as <-. right. split; [|by exists c, b1].
    split; [by apply eq_None_not_Some|]. apply existsb_exists in Ee as (k & Hk & Hs%bool_decide_eq_true). exists k. by rewrite list_elem_of_In.
  - intros [= <-]. left. split; [done|]. intros (_ & k & Hk & Hs). assert (existsb (λ k, bool_decide (is_Some (b !! k))) legacyKeys = true) as He; [|congruence].
    apply existsb_exists. exists k. rewrite <-list_elem_of_In. split; [done|by apply bool_decide_eq_true].
Qed.

Lemma legacy_credential_fields now b c : legacy_credential now b = Ok c →
  mc_ControlPlaneUrl c = bucket_text b "control_plane_url" ∧ mc_Biscuit c = bucket_text b "identity_biscuit" ∧
  os_RefreshToken (session c) = bucket_text b "refresh_token" ∧
  (len (bucket_text b "control_plane_public_key") = PublicKeySize →
   bucket_text b "control_plane_public_key" ∈ sk_PublicKey <$> mc_TrustedKeys c).
Proof.
  unfold legacy_credential. intros (addrs & _ & Hl)%bind_Ok. apply bind_Ok in Hl as (keys & _ & Hl). apply bind_Ok in Hl as (issued & _ & Hl).
  cbv zeta in Hl. apply (inj Ok) in Hl. subst c.
  set (c0 := {| mc_ControlPlaneUrl := _ |}).
  destruct (seed_key_rest now (bucket_text b "control_plane_public_key") c0) as (Hu & Hb & _ & _ & Ho).
  pose proof (seed_key_trusted now (bucket_text b "control_plane_public_key") c0) as Ht.
  destruct (bool_decide (bucket_text b "oidc_issuer" = "") && _ && _ && bool_decide (bucket_text b "refresh_token" = "")) eqn:Es.
  - apply andb_true_iff in Es as [_ Hr%bool_decide_eq_true]. rewrite Hu, Hb. unfold session. rewrite Ho, Hr. done.
  - cbn [mc_ControlPlaneUrl mc_Biscuit mc_TrustedKeys set_OidcSession]. rewrite Hu, Hb. unfold session. cbn [set_OidcSession mc_OidcSession default os_RefreshToken]. done.
Qed.

(** Opening an older database keeps the node's key, its control plane, its
    credential and its session, trusts the key it was enrolled under, leaves no
    entry in the old form, and does nothing the second time. *)
Theorem migration_keeps_membership now now' b b' :
  legacy b → migrateLegacyCredential now b = Ok b' →
  LoadKey b' = LoadKey b ∧
  LoadControlPlaneURL b' = Ok (bucket_text b "control_plane_url") ∧
  (bucket_text b "identity_biscuit" ≠ "" → LoadIdentity b' = Ok (bucket_text b "identity_biscuit")) ∧
  (bucket_text b "refresh_token" ≠ "" → LoadRefreshToken b' = Ok (bucket_text b "refresh_token")) ∧
  (len (bucket_text b "control_plane_public_key") = PublicKeySize →
   ∃ keys, LoadTrustedKeys now' b' = Ok keys ∧ bucket_text b "control_plane_public_key" ∈ publicKeysOf keys) ∧
  (∀ k, k ∈ legacyKeys → b' !! k = None) ∧ migrateLegacyCredential now' b' = Ok b'.
Proof.
  intros Hleg [[_ Hn]|(_ & c & b1 & Hc & Hp & ->)]%migrate_cases; [by exfalso; apply Hn|].
  apply legacy_credential_fields in Hc as (Hurl & Hbis & Href & Hkey). apply get_put in Hp as (Hg & Hother & Hsome).
  assert (Hcred : foldl (λ b k, delete k b) b1 legacyKeys !! keyCredential = b1 !! keyCredential) by (by rewrite delete_all_lookup).
  assert (Hget : getCredential (foldl (λ b k, delete k b) b1 legacyKeys) = Ok c).
  { unfold getCredential, bucket_text. rewrite Hcred. apply Hg. }
  split_and!.
  - unfold LoadKey, bucket_text. rewrite delete_all_lookup. change (bool_decide (keyPrivKey ∈ legacyKeys)) with false. cbv iota.
    by rewrite Hother.
  - unfold LoadControlPlaneURL, view. rewrite Hget. by rewrite <-Hurl.
  - intros Hne. unfold LoadIdentity, view. rewrite Hget. simpl. rewrite Hbis. by destruct (bucket_text b "identity_biscuit").
  - intros Hne. unfold LoadRefreshToken, view. rewrite Hget. simpl. rewrite Href. by rewrite bool_decide_false.
  - intros Hk. eexists. split; [by apply LoadTrustedKeys_get|]. unfold publicKeysOf, trustedKeysFromProto.
    rewrite <-list_fmap_compose. apply Hkey, Hk.
  - intros k Hk. rewrite delete_all_lookup. by rewrite bool_decide_true.
  - unfold migrateLegacyCredential. by rewrite Hcred, bool_decide_true.
Qed.
End migration.
