(* ===== verification/NodeRouters.v ===== *)
(** * The routers a node keeps

    A node reads the mesh's routers from the control plane, chooses a few by
    their labels and load, and keeps a session with each: a router that drops
    is redialled, one that sends the node away or stays away is shunned and
    replaced ([src/internal/node/routers.go], and the redial and handshake
    functions of [src/internal/node/node.go]).  The network is what the
    operations are given: resolved addresses, the outcomes of dials and
    handshakes, the noise on the load.  Loads are IEEE 754 doubles. *)

From Stdlib Require Import SpecFloat.
From S2P Require Import Prelude GoStrings Regex Names Biscuit NaiveEngine Facts DatalogText Grants Labels HTTPGrants PolicyRules Egress Base64 Tar Token Identity Middleware Directory Keyring Router.

(** ** Doubles *)

Definition float64 : Type := spec_float.
Definition float_of_int (z : Z) : float64 := binary_normalize 53 1024 z 0 false.
Definition float_div (a b : float64) : float64 := SFdiv 53 1024 a b.
Definition float_add (a b : float64) : float64 := SFadd 53 1024 a b.
Definition float_mul (a b : float64) : float64 := SFmul 53 1024 a b.
Definition float_ltb (a b : float64) : bool := SFltb a b.

(** The constants 0.5 and 0.05. *)
Definition float_half : float64 := float_div (float_of_int 1) (float_of_int 2).
Definition float_twentieth : float64 := float_div (float_of_int 1) (float_of_int 20).

Section candidates.
Context `{PC : PeerCodec, MA : Multiaddr, PB : PeerBytes}.

(** ** Candidates *)

Record routerCandidate := {
  rc_ID : string;
  rc_Addrs : list maddr;
  rc_Labels : gmap string string;
  rc_Connections : Z;
  rc_ConnectionLimit : Z;
}.

Definition loadRatio (c : routerCandidate) : float64 :=
  if (rc_ConnectionLimit c <=? 0)%Z then float_half
  else float_div (float_of_int (rc_Connections c)) (float_of_int (rc_ConnectionLimit c)).

(** [peer.AddrInfoFromP2pAddr]: the peer an address names and its transport. *)
Definition AddrInfoFromP2pAddr (a : maddr) : result AddrInfo :=
  let '(transport, id) := SplitAddr a in
  fail_if (bool_decide (id = "")) "invalid p2p multiaddr";;
  Ok (id, match transport with Some t => [t] | None => [] end).

(** One resolved address joins the peers seen so far. *)
Definition merge_addr (peers : list AddrInfo) (r : maddr) : list AddrInfo :=
  match AddrInfoFromP2pAddr r with
  | Err _ => peers
  | Ok (id, addrs) =>
      if bool_decide (id ∈ peers.*1)
      then (λ '(p, known), if bool_decide (p = id) then (p, known ++ filter (λ a, a ∉ known) addrs) else (p, known)) <$> peers
      else peers ++ [(id, addrs)]
  end.

(** [resolve] is what looking a name up gives. *)
Definition routerPeers (resolve : maddr → result (list maddr)) (addrs : list maddr) : list AddrInfo :=
  foldl merge_addr [] (addrs ≫= (λ addr, match resolve addr with Ok resolved => resolved | Err _ => [addr] end)).

Definition parseMultiaddrs (addrs : list string) : list maddr :=
  omap (λ s, match NewMultiaddr s with Ok ma => Some ma | Err _ => None end) addrs.

(** A router as [/info] lists it. *)
Record RouterInfo := {
  ri_PeerId : string;
  ri_Addresses : list string;
  ri_Labels : gmap string string;
  ri_Connections : Z;
  ri_ConnectionLimit : Z;
}.

Definition candidatesFromAddrs resolve (addrs : list maddr) : list routerCandidate :=
  (λ pi : AddrInfo, {| rc_ID := pi.1; rc_Addrs := pi.2; rc_Labels := ∅; rc_Connections := 0; rc_ConnectionLimit := 0 |})
  <$> routerPeers resolve addrs.

(** One listed router: skipped when its identity is undecodable or seen. *)
Definition add_candidate resolve (out : list routerCandidate) (r : RouterInfo) : list routerCandidate :=
  match peer_Decode (ri_PeerId r) with
  | Err _ => out
  | Ok id =>
      if bool_decide (id ∈ rc_ID <$> out) then out
      else out ++ ((λ pi : AddrInfo, {| rc_ID := pi.1; rc_Addrs := pi.2; rc_Labels := ri_Labels r;
                      rc_Connections := ri_Connections r; rc_ConnectionLimit := ri_ConnectionLimit r |})
                   <$> filter (λ pi, pi.1 = id) (routerPeers resolve (parseMultiaddrs (ri_Addresses r))))
  end.

Definition candidatesFromInfo resolve (routers : list RouterInfo) (addresses : list string) : list routerCandidate :=
  if bool_decide (length routers = 0) then candidatesFromAddrs resolve (parseMultiaddrs addresses)
  else foldl (add_candidate resolve) [] routers.

(** ** Selection *)

Record scored := { sc_cand : routerCandidate; sc_preferred : nat; sc_load : float64 }.

(** The candidate attests the selector. *)
Definition attests (selector : gmap string string) (c : routerCandidate) : bool :=
  bool_decide (size selector = 0) || LabelsSatisfy selector (rc_Labels c).

Definition preferred (prefer : gmap string string) (c : routerCandidate) : nat :=
  length (filter (λ '(key, value), map_get (rc_Labels c) key = value) (map_to_list prefer)).

(** [rand.Float64] at each eligible candidate. *)
Fixpoint eligible (noise : nat → float64) (selector prefer : gmap string string) (exclude : gset string)
    (i : nat) (cands : list routerCandidate) : list scored :=
  match cands with
  | [] => []
  | c :: cands =>
      if negb (attests selector c) || bool_decide (rc_ID c ∈ exclude) then eligible noise selector prefer exclude i cands
      else {| sc_cand := c; sc_preferred := preferred prefer c;
              sc_load := float_add (loadRatio c) (float_mul (noise i) float_twentieth) |}
           :: eligible noise selector prefer exclude (S i) cands
  end.

(** The order of the choice. *)
Definition scored_less (a b : scored) : bool :=
  if negb (sc_preferred a =? sc_preferred b) then sc_preferred b <? sc_preferred a else float_ltb (sc_load a) (sc_load b).

(** [sort.SliceStable]. *)
Fixpoint insert_stable {A} (less : A → A → bool) (x : A) (l : list A) : list A :=
  match l with
  | [] => [x]
  | y :: l => if less y x then y :: insert_stable less x l else x :: y :: l
  end.
Definition SliceStable {A} (less : A → A → bool) (l : list A) : list A := foldr (insert_stable less) [] l.

Definition selectRouters (noise : nat → float64) (cands : list routerCandidate) (k : nat)
    (selector prefer : gmap string string) (exclude : gset string) : list AddrInfo * nat :=
  ((λ s, (rc_ID (sc_cand s), rc_Addrs (sc_cand s)))
     <$> take k (SliceStable scored_less (eligible noise selector prefer exclude 0 cands)),
   length (filter (λ c, attests selector c = true) cands)).

(** ** The node's routers *)

Record RouterOptions := {
  ro_Routers : nat;
  ro_RouterSelector : gmap string string;
  ro_RouterPrefer : gmap string string;
  ro_RouterShunDuration : Z;
}.

Record Routers := {
  nr_catalog : list routerCandidate;
  nr_attached : gset string;
  nr_shunned : gmap string time;
  nr_authenticated : gset string;
  nr_redialing : gset string;
  nr_relays : list AddrInfo;
}.

Definition set_routerCatalog (s : Routers) c : Routers :=
  {| nr_catalog := c; nr_attached := nr_attached s; nr_shunned := nr_shunned s; nr_authenticated := nr_authenticated s;
     nr_redialing := nr_redialing s; nr_relays := nr_relays s |}.
Definition set_attached (s : Routers) a : Routers :=
  {| nr_catalog := nr_catalog s; nr_attached := a; nr_shunned := nr_shunned s; nr_authenticated := nr_authenticated s;
     nr_redialing := nr_redialing s; nr_relays := nr_relays s |}.
Definition set_shunned (s : Routers) m : Routers :=
  {| nr_catalog := nr_catalog s; nr_attached := nr_attached s; nr_shunned := m; nr_authenticated := nr_authenticated s;
     nr_redialing := nr_redialing s; nr_relays := nr_relays s |}.
Definition set_sessions (s : Routers) a : Routers :=
  {| nr_catalog := nr_catalog s; nr_attached := nr_attached s; nr_shunned := nr_shunned s; nr_authenticated := a;
     nr_redialing := nr_redialing s; nr_relays := nr_relays s |}.
Definition set_redialing (s : Routers) r : Routers :=
  {| nr_catalog := nr_catalog s; nr_attached := nr_attached s; nr_shunned := nr_shunned s; nr_authenticated := nr_authenticated s;
     nr_redialing := r; nr_relays := nr_relays s |}.

Definition setRouterCatalog (s : Routers) (cands : list routerCandidate) : Routers := set_routerCatalog s cands.

(** How many routers the node wants. *)
Definition wantRouters (o : RouterOptions) (s : Routers) : nat :=
  ro_Routers o `min` length (filter (λ c, attests (ro_RouterSelector o) c = true) (nr_catalog s)).

(** [connected] is the host's connectedness to a peer. *)
Definition isAuthenticatedAndConnected (connected : gset string) (s : Routers) (router : string) : bool :=
  bool_decide (router ∈ nr_authenticated s) && bool_decide (router ∈ connected).

Definition attachedRouters (connected : gset string) (s : Routers) : list string :=
  filter (λ pid, isAuthenticatedAndConnected connected s pid = true) (elements (nr_attached s)).

Definition refreshRelays (s : Routers) : Routers :=
  {| nr_catalog := nr_catalog s; nr_attached := nr_attached s; nr_shunned := nr_shunned s; nr_authenticated := nr_authenticated s;
     nr_redialing := nr_redialing s;
     nr_relays := (λ c, (rc_ID c, rc_Addrs c)) <$> filter (λ c, rc_ID c ∈ nr_attached s) (nr_catalog s) |}.

Definition attach (s : Routers) (router : string) : Routers := refreshRelays (set_attached s ({[ router ]} ∪ nr_attached s)).

Definition detach (s : Routers) (router : string) : Routers := refreshRelays (set_attached s (nr_attached s ∖ {[ router ]})).

Definition isAttached (s : Routers) (router : string) : bool := bool_decide (router ∈ nr_attached s).

Definition shun (now : time) (s : Routers) (router : string) (d : Z) : Routers :=
  set_shunned s (<[router := (now + d)%Z]> (nr_shunned s)).

(** A shun that is over is forgotten. *)
Definition pickRouters (o : RouterOptions) (noise : nat → float64) (now : time) (s : Routers) (k : nat) : list AddrInfo * Routers :=
  let shunned := filter (λ '(_, until), (now < until)%Z) (nr_shunned s) in
  let exclude := nr_attached s ∪ dom shunned in
  ((selectRouters noise (nr_catalog s) k (ro_RouterSelector o) (ro_RouterPrefer o) exclude).1, set_shunned s shunned).

Definition goAwayMaxRetryAfter : Z := (3600 * second)%Z.

(** A go-away that decodes to [retryAfter], from [router]; the flag says that
    the node tops up. *)
Definition HandleGoAway (o : RouterOptions) (now : time) (s : Routers) (router : string) (goAway : result (option Z)) : bool * Routers :=
  if negb (isAttached s router) then (false, s)
  else match goAway with
  | Err _ => (false, s)
  | Ok retry =>
      let retryAfter := default 0%Z retry in
      let retryAfter := if (retryAfter <=? 0)%Z then ro_RouterShunDuration o else retryAfter in
      let retryAfter := (retryAfter `min` goAwayMaxRetryAfter)%Z in
      let s := detach (shun now s router retryAfter) router in
      (true, set_sessions s (nr_authenticated s ∖ {[ router ]}))
  end.

(** ** Topping up *)

(** The routers that a round of dials reaches: each that admits the node has a
    session and is attached. *)
Definition dialAndAttach (dial : string → result unit) (s : Routers) (routers : list AddrInfo) : Routers :=
  foldl (λ s (router : AddrInfo),
    match dial router.1 with
    | Err _ => s
    | Ok _ => attach (set_sessions s ({[ router.1 ]} ∪ nr_authenticated s)) router.1
    end) s routers.

(** [connected'] is the connectedness once the dials are done. *)
Definition topUpRouters (o : RouterOptions) noise (now : time) (connected connected' : gset string) (identity : result string)
    (dial : string → result unit) (s : Routers) : nat * Routers :=
  let have := length (attachedRouters connected s) in
  let want := wantRouters o s in
  if want <=? have then (have, s)
  else match identity with
  | Err _ => (have, s)
  | Ok _ =>
      let '(targets, s) := pickRouters o noise now s (want - have) in
      if bool_decide (length targets = 0) then (have, s)
      else let s := dialAndAttach dial s targets in
           (length (attachedRouters connected' s), s)
  end.
End candidates.

(** ** The connection monitor *)

(** A node as the monitor sees it. *)
Class routerAttacher (St : Type) := {
  AttachedRouters : St → nat;
  WantRouters : St → nat;
  TopUp : St → nat * St;
  RefreshRouters : St → result unit * St;
}.

Section monitor.
Context {St : Type} `{RA : routerAttacher St}.

(** Whether the connection is stable, and whether the node found a router
    again. *)
Definition checkRouterConnection (s : St) : bool * bool * St :=
  let have := AttachedRouters s in
  let want := WantRouters s in
  if 0 <? have then
    let s := if have <? want then (TopUp s).2 else s in
    (true, false, s)
  else
    let '(n, s) := TopUp s in
    if 0 <? n then (false, true, s)
    else match RefreshRouters s with
    | (Err _, s) => (false, false, s)
    | (Ok _, s) =>
        let '(n, s) := TopUp s in
        if 0 <? n then (false, true, s) else (false, false, s)
    end.

(** What one check does to the count of failures in a row; [None] ends the
    process. *)
Definition monitor_tick (maxFailures consecutiveFailures : nat) (s : St) : option (nat * St) :=
  let '(stable, reconnected, s) := checkRouterConnection s in
  if stable || reconnected then Some (0, s)
  else if maxFailures <=? consecutiveFailures + 1 then None
  else Some (consecutiveFailures + 1, s).
End monitor.

(** ** Sessions, drops and redials *)

(** The critical sections of the functions that keep sessions, as steps that
    interleave: [Start]'s disconnect handler, [redialRouter], [redialUntilUp],
    [releaseRedialIfUp], [authenticateRouterSession], [dialAndAttach],
    [readmitRouter] and [HandleGoAway].  What a thread has decided and not yet
    done is part of the state. *)
Section redial.
Context `{PC : PeerCodec, MA : Multiaddr, PB : PeerBytes}.

Record Sessions := {
  ss_routers : Routers;
  ss_connected : gset string;   (** the peers the host has a connection to *)
  ss_closed : gset string;      (** last connections closed whose notification is not handled *)
  ss_dropped : gset string;     (** drops that are about to enter [redialRouter] *)
  ss_leaving : gset string;     (** redials that left their loop and have not cleared their mark *)
  ss_dialed : gset string;      (** dials that succeeded and have not attached *)
}.

Inductive session_step :=
| Connected (p : string)
| Disconnected (p : string)
| DisconnectedF (p : string)
| RedialRouter (p : string)
| ReleaseRedialIfUp (p : string)
| RedialNotAttached (p : string)
| RedialDetach (p : string)
| RedialShun (now : time) (p : string) (d : Z)
| RedialAbandon (p : string)
| RedialCleared (p : string)
| SessionRecorded (p : string)
| Dialed (p : string)
| Attach (p : string)
| ReadmitRefused (p : string)
| GoAway (o : RouterOptions) (now : time) (p : string) (goAway : result (option Z))
| Pick (o : RouterOptions) (noise : nat → float64) (now : time) (k : nat).

Definition with_routers (st : Sessions) s : Sessions :=
  {| ss_routers := s; ss_connected := ss_connected st; ss_closed := ss_closed st; ss_dropped := ss_dropped st;
     ss_leaving := ss_leaving st; ss_dialed := ss_dialed st |}.
Definition with_connections (st : Sessions) connected closed : Sessions :=
  {| ss_routers := ss_routers st; ss_connected := connected; ss_closed := closed; ss_dropped := ss_dropped st;
     ss_leaving := ss_leaving st; ss_dialed := ss_dialed st |}.
Definition with_dropped (st : Sessions) d : Sessions :=
  {| ss_routers := ss_routers st; ss_connected := ss_connected st; ss_closed := ss_closed st; ss_dropped := d;
     ss_leaving := ss_leaving st; ss_dialed := ss_dialed st |}.
Definition with_leaving (st : Sessions) l : Sessions :=
  {| ss_routers := ss_routers st; ss_connected := ss_connected st; ss_closed := ss_closed st; ss_dropped := ss_dropped st;
     ss_leaving := l; ss_dialed := ss_dialed st |}.
Definition with_dialed (st : Sessions) d : Sessions :=
  {| ss_routers := ss_routers st; ss_connected := ss_connected st; ss_closed := ss_closed st; ss_dropped := ss_dropped st;
     ss_leaving := ss_leaving st; ss_dialed := d |}.

(** A redial of [p] is in its loop. *)
Definition redial_running (st : Sessions) (p : string) : bool :=
  bool_decide (p ∈ nr_redialing (ss_routers st)) && negb (bool_decide (p ∈ ss_leaving st)).

(** The session of [p] is up. *)
Definition session_up (st : Sessions) (p : string) : bool := isAuthenticatedAndConnected (ss_connected st) (ss_routers st) p.

(** The last connection to [p] is gone: the session is cleared, and a router
    that the node keeps is redialled. *)
Definition disconnect_handler (st : Sessions) (p : string) : Sessions :=
  let s := ss_routers st in
  let wasAuthenticated := bool_decide (p ∈ nr_authenticated s) in
  let st := with_routers st (set_sessions s (nr_authenticated s ∖ {[ p ]})) in
  if wasAuthenticated && isAttached s p then with_dropped st ({[ p ]} ∪ ss_dropped st) else st.

(** The steps; [None] where the step is not enabled. *)
Definition session_next (st : Sessions) (l : session_step) : option Sessions :=
  let s := ss_routers st in
  match l with
  | Connected p => Some (with_connections st ({[ p ]} ∪ ss_connected st) (ss_closed st))
  | Disconnected p =>
      if bool_decide (p ∈ ss_connected st)
      then Some (with_connections st (ss_connected st ∖ {[ p ]}) ({[ p ]} ∪ ss_closed st)) else None
  | DisconnectedF p =>
      if bool_decide (p ∈ ss_closed st)
      then let st := with_connections st (ss_connected st) (ss_closed st ∖ {[ p ]}) in
           Some (if bool_decide (p ∈ ss_connected st) then st else disconnect_handler st p)
      else None
  | RedialRouter p =>
      if bool_decide (p ∈ ss_dropped st)
      then let st := with_dropped st (ss_dropped st ∖ {[ p ]}) in
           Some (if bool_decide (p ∈ nr_redialing s) then st
                 else with_routers st (set_redialing s ({[ p ]} ∪ nr_redialing s)))
      else None
  | ReleaseRedialIfUp p =>
      if redial_running st p && session_up st p
      then Some (with_routers st (set_redialing s (nr_redialing s ∖ {[ p ]}))) else None
  | RedialNotAttached p =>
      if redial_running st p && negb (isAttached s p) then Some (with_leaving st ({[ p ]} ∪ ss_leaving st)) else None
  | RedialDetach p =>
      if redial_running st p
      then Some (with_leaving (with_routers st (detach s p)) ({[ p ]} ∪ ss_leaving st)) else None
  | RedialShun now p d =>
      if bool_decide (p ∈ ss_leaving st) then Some (with_routers st (shun now s p d)) else None
  | RedialAbandon p => if redial_running st p then Some (with_leaving st ({[ p ]} ∪ ss_leaving st)) else None
  | RedialCleared p =>
      if bool_decide (p ∈ ss_leaving st)
      then Some (with_leaving (with_routers st (set_redialing s (nr_redialing s ∖ {[ p ]}))) (ss_leaving st ∖ {[ p ]})) else None
  | SessionRecorded p =>
      if bool_decide (p ∈ ss_connected st) then Some (with_routers st (set_sessions s ({[ p ]} ∪ nr_authenticated s))) else None
  | Dialed p =>
      if session_up st p then Some (with_dialed st ({[ p ]} ∪ ss_dialed st)) else None
  | Attach p =>
      if bool_decide (p ∈ ss_dialed st)
      then Some (with_dialed (with_routers st (attach s p)) (ss_dialed st ∖ {[ p ]})) else None
  | ReadmitRefused p => Some (with_routers st (set_sessions s (nr_authenticated s ∖ {[ p ]})))
  | GoAway o now p goAway => Some (with_routers st (HandleGoAway o now s p goAway).2)
  | Pick o noise now k => Some (with_routers st (pickRouters o noise now s k).2)
  end.

(** A run of the steps. *)
Fixpoint session_run (st : Sessions) (ls : list session_step) : option Sessions :=
  match ls with
  | [] => Some st
  | l :: ls => st' ← session_next st l; session_run st' ls
  end.
End redial.
