(* ===== verification/NodeRoutersFacts.v ===== *)
(** * Theorems about the routers a node keeps

    The routers that are chosen, and that a router the node keeps is never
    left without a session and without a redial, but where the code gives the
    redial up. *)

From S2P Require Import Prelude GoStrings Regex Names Biscuit NaiveEngine Facts DatalogText Grants Labels HTTPGrants PolicyRules Egress Base64 Tar Token TokenModel Identity Middleware Directory Keyring Router NodeRouters.

(** ** Stable sorting *)

Section stable.
Context {A : Type} (less : A → A → bool) (rank : A → nat).

Lemma insert_stable_perm x l : insert_stable less x l ≡ₚ x :: l.
Proof. induction l as [|y l IH]; simpl; [done|]. destruct (less y x); [|done]. rewrite IH. apply Permutation_swap. Qed.

Lemma SliceStable_perm l : SliceStable less l ≡ₚ l.
Proof. induction l as [|x l IH]; simpl; [done|]. by rewrite insert_stable_perm, IH. Qed.

(** An order that puts higher ranks first sorts by rank. *)
Hypothesis less_rank : ∀ a b, less a b = true → rank b ≤ rank a.
Hypothesis rank_less : ∀ a b, rank b < rank a → less a b = true.

Lemma insert_stable_sorted x l :
  StronglySorted (λ a b, rank b ≤ rank a) l → StronglySorted (λ a b, rank b ≤ rank a) (insert_stable less x l).
Proof.
  induction l as [|y l IH]; intros Hl; simpl; [by repeat constructor|]. apply StronglySorted_inv in Hl as [Hl Hy].
  destruct (less y x) eqn:Eyx.
  - constructor; [by apply IH|]. rewrite insert_stable_perm. constructor; [by apply less_rank|done].
  - assert (rank y ≤ rank x) as Hyx.
    { destruct (Nat.le_gt_cases (rank y) (rank x)) as [|Hgt]; [done|]. by rewrite (rank_less y x Hgt) in Eyx. }
    constructor; [by constructor|]. constructor; [done|]. eapply Forall_impl; [exact Hy|]. simpl. lia.
Qed.

Lemma SliceStable_sorted l : StronglySorted (λ a b, rank b ≤ rank a) (SliceStable less l).
Proof. induction l; simpl; [constructor|by apply insert_stable_sorted]. Qed.
End stable.

Lemma sorted_split {A} (R : A → A → Prop) l1 l2 x y :
  StronglySorted R (l1 ++ l2) → x ∈ l1 → y ∈ l2 → R x y.
Proof.
  induction l1 as [|z l1 IH]; simpl; intros Hs Hx Hy; [by apply not_elem_of_nil in Hx|]. apply StronglySorted_inv in Hs as [Hs Hz].
  apply elem_of_cons in Hx as [->|Hx]; [|by apply IH]. rewrite Forall_forall in Hz. apply Hz, elem_of_app. by right.
Qed.

Section selection.
Context `{PC : PeerCodec, MA : Multiaddr, PB : PeerBytes}.

(** The candidates that may be chosen. *)
Definition usable (selector : gmap string string) (exclude : gset string) (c : routerCandidate) : Prop :=
  attests selector c = true ∧ rc_ID c ∉ exclude.

#[export] Instance usable_dec selector exclude c : Decision (usable selector exclude c).
Proof. unfold usable. apply _. Defined.

Lemma eligible_cands noise selector prefer exclude i cands :
  sc_cand <$> eligible noise selector prefer exclude i cands = filter (usable selector exclude) cands ∧
  Forall (λ s, sc_preferred s = preferred prefer (sc_cand s)) (eligible noise selector prefer exclude i cands).
Proof.
  revert i. induction cands as [|c cands IH]; intros i; [split; [done|constructor]|]. simpl eligible. rewrite filter_cons.
  destruct (attests selector c) eqn:Ea; simpl; [|rewrite decide_False by (by intros [? _]; congruence); apply IH].
  case_bool_decide; [rewrite decide_False by (by intros [_ ?]); apply IH|].
  rewrite decide_True by done. destruct (IH (S i)) as [IH1 IH2]. split; [by rewrite fmap_cons, IH1|]. by constructor.
Qed.

Lemma scored_less_rank a b : scored_less a b = true → sc_preferred b ≤ sc_preferred a.
Proof. unfold scored_less. destruct (Nat.eqb_spec (sc_preferred a) (sc_preferred b)); cbn [negb]; [lia|]. intros ?%Nat.ltb_lt. lia. Qed.

Lemma rank_scored_less a b : sc_preferred b < sc_preferred a → scored_less a b = true.
Proof. unfold scored_less. destruct (Nat.eqb_spec (sc_preferred a) (sc_preferred b)); [lia|]. intros. by apply Nat.ltb_lt. Qed.

(** What is chosen, and what is left. *)
Lemma selectRouters_spec noise cands k selector prefer exclude :
  ∃ chosen left, (selectRouters noise cands k selector prefer exclude).1 = (λ c, (rc_ID c, rc_Addrs c)) <$> chosen ∧
    chosen ++ left ≡ₚ filter (usable selector exclude) cands ∧
    length chosen = k `min` length (filter (usable selector exclude) cands) ∧
    ∀ c d, c ∈ chosen → d ∈ left → preferred prefer d ≤ preferred prefer c.
Proof.
  set (l := SliceStable scored_less (eligible noise selector prefer exclude 0 cands)).
  destruct (eligible_cands noise selector prefer exclude 0 cands) as [Hc Hp].
  pose proof (SliceStable_perm scored_less (eligible noise selector prefer exclude 0 cands)) as Hl. fold l in Hl.
  pose proof (SliceStable_sorted _ _ scored_less_rank rank_scored_less (eligible noise selector prefer exclude 0 cands)) as Hs. fold l in Hs.
  rewrite <-Hl in Hp. exists (sc_cand <$> take k l), (sc_cand <$> drop k l). split_and!.
  - unfold selectRouters. fold l. cbn [fst]. by rewrite <-list_fmap_compose.
  - by rewrite <-fmap_app, firstn_skipn, Hl, Hc.
  - by rewrite length_fmap, length_take, <-Hc, length_fmap, Hl.
  - intros c d (sc & -> & Hsc)%list_elem_of_fmap (sd & -> & Hsd)%list_elem_of_fmap. rewrite Forall_forall in Hp.
    rewrite <-(firstn_skipn k l) in Hs, Hp. rewrite <-(Hp sc), <-(Hp sd) by (rewrite elem_of_app; auto).
    by apply (sorted_split _ _ _ _ _ Hs).
Qed.

(** The routers that the node does not dial: those it keeps, and those it was
    sent away from and must still stay off. *)
Definition kept_off (now : time) (s : Routers) : gset string :=
  nr_attached s ∪ dom (filter (λ '(_, until), (now < until)%Z) (nr_shunned s)).

(** The routers that a node picks are routers of its catalog that attest every
    pair of its selector, that it neither keeps already nor must stay off, as
    many as it asks for or as there are; and none that is left out attests more
    of the pairs it prefers than one that is picked, whatever the load and the
    noise on it.  Picking forgets the shuns that are over and changes nothing
    else. *)
Theorem routers_picked o noise now s k :
  let '(picked, s') := pickRouters o noise now s k in
  (∃ chosen left, picked = (λ c, (rc_ID c, rc_Addrs c)) <$> chosen ∧
    chosen ++ left ≡ₚ filter (usable (ro_RouterSelector o) (kept_off now s)) (nr_catalog s) ∧
    length chosen = k `min` length (filter (usable (ro_RouterSelector o) (kept_off now s)) (nr_catalog s)) ∧
    ∀ c d, c ∈ chosen → d ∈ left → preferred (ro_RouterPrefer o) d ≤ preferred (ro_RouterPrefer o) c) ∧
  (∀ now', (now ≤ now')%Z → kept_off now' s' = kept_off now' s) ∧
  nr_attached s' = nr_attached s ∧ nr_authenticated s' = nr_authenticated s ∧ nr_redialing s' = nr_redialing s ∧ nr_catalog s' = nr_catalog s.
Proof.
  unfold pickRouters. split; [apply selectRouters_spec|]. split_and!; [|done..]. intros now' Hnow. unfold kept_off. cbn. f_equal. f_equal.
  apply map_eq. intros p. apply option_eq. intros t. rewrite !map_lookup_filter_Some. split; [by intros [[? _] ?]|].
  intros [? Ht]. split; [|done]. split; [done|]. lia.
Qed.
End selection.

(** ** No redial is lost *)

Section redial.
Context `{PC : PeerCodec, MA : Multiaddr, PB : PeerBytes}.

(** The node has, or is about to look for, a session with [p]: the session is
    up, or its end is about to be noticed, or a redial is about to start, or it
    is in its loop. *)
Definition covered (st : Sessions) (p : string) : Prop :=
  session_up st p = true ∨ (p ∈ nr_authenticated (ss_routers st) ∧ p ∈ ss_closed st) ∨ p ∈ ss_dropped st ∨ redial_running st p = true.

(** The steps after which the code leaves a router it keeps to nobody: a redial
    that ends because the identity cannot be read or the process ends, a
    credential that a kept router goes on refusing, and a router that is attached
    after it dropped or while its redial is ending. *)
Definition careful (st : Sessions) (l : session_step) : Prop :=
  match l with
  | RedialAbandon p | ReadmitRefused p => p ∉ nr_attached (ss_routers st)
  | Attach p => (p ∉ ss_leaving st) ∧ covered st p
  | _ => True
  end.

Fixpoint careful_run (st : Sessions) (ls : list session_step) : Prop :=
  match ls with
  | [] => True
  | l :: ls => careful st l ∧ match session_next st l with Some st' => careful_run st' ls | None => True end
  end.

#[export] Instance covered_dec st p : Decision (covered st p).
Proof. unfold covered. apply _. Defined.
#[export] Instance careful_dec st l : Decision (careful st l).
Proof. destruct l; simpl; apply _. Defined.
#[export] Instance careful_run_dec st ls : Decision (careful_run st ls).
Proof.
  revert st. induction ls as [|l ls IH]; intros st; simpl; [apply _|].
  apply and_dec; [apply _|]. destruct (session_next st l); [apply IH|apply _].
Defined.

Definition sessions_ok (st : Sessions) : Prop :=
  (∀ p, p ∈ nr_attached (ss_routers st) → covered st p) ∧
  (∀ p, p ∈ ss_leaving st → p ∈ nr_redialing (ss_routers st) ∧ p ∉ nr_attached (ss_routers st)).

(** A node that keeps no router yet. *)
Definition no_routers (st : Sessions) : Prop := nr_attached (ss_routers st) = ∅ ∧ ss_leaving st = ∅.

Lemma covered_iff st p : covered st p ↔
  (p ∈ nr_authenticated (ss_routers st) ∧ (p ∈ ss_connected st ∨ p ∈ ss_closed st)) ∨ p ∈ ss_dropped st ∨
  (p ∈ nr_redialing (ss_routers st) ∧ p ∉ ss_leaving st).
Proof.
  unfold covered, session_up, isAuthenticatedAndConnected, redial_running.
  rewrite !andb_true_iff, negb_true_iff, bool_decide_eq_false, !bool_decide_eq_true. tauto.
Qed.

Lemma running_iff st p : redial_running st p = true ↔ p ∈ nr_redialing (ss_routers st) ∧ p ∉ ss_leaving st.
Proof. unfold redial_running. by rewrite andb_true_iff, negb_true_iff, bool_decide_eq_false, bool_decide_eq_true. Qed.

Lemma up_iff st p : session_up st p = true ↔ p ∈ nr_authenticated (ss_routers st) ∧ p ∈ ss_connected st.
Proof. unfold session_up, isAuthenticatedAndConnected. by rewrite andb_true_iff, !bool_decide_eq_true. Qed.

(** A go-away touches the router that sent it, and picking touches none. *)
Lemma HandleGoAway_sets o now s p goAway s' : s' = (HandleGoAway o now s p goAway).2 →
  nr_redialing s' = nr_redialing s ∧ (s' = s ∨ nr_attached s' = nr_attached s ∖ {[ p ]} ∧ nr_authenticated s' = nr_authenticated s ∖ {[ p ]}).
Proof. intros ->. unfold HandleGoAway. destruct (negb _); [auto|]. destruct goAway; [|auto]. split; [done|]. by right. Qed.

(** One router's part of the invariant, step by step. *)
#[local] Ltac pointwise q :=
  let r := fresh "r" in
  intros [= <-]; split; intros r; cbn [ss_routers ss_connected ss_closed ss_dropped ss_leaving ss_dialed nr_attached nr_authenticated nr_redialing
    with_routers with_connections with_dropped with_leaving with_dialed set_sessions set_redialing set_attached set_shunned
    shun attach detach refreshRelays] in *;
  repeat match goal with H : ∀ p : string, _ |- _ => specialize (H r) end;
  rewrite ?elem_of_union, ?elem_of_difference, ?elem_of_singleton;
  destruct (decide (r = q)) as [->|]; tauto.

Lemma session_next_ok st l st' : sessions_ok st → careful st l → session_next st l = Some st' → sessions_ok st'.
Proof.
  intros [Hc Hl] Hcare. setoid_rewrite covered_iff in Hc. unfold sessions_ok. setoid_rewrite covered_iff.
  destruct l as [p|p|p|p|p|p|p|now p d|p|p|p|p|p|p|o now p g|o noise now k]; cbn [careful session_next] in Hcare |- *.
  - pointwise p.
  - case_bool_decide; [|done]. pointwise p.
  - case_bool_decide; [|done]. cbn [with_connections ss_connected]. case_bool_decide; [pointwise p|].
    unfold disconnect_handler, isAttached. cbn [with_connections ss_routers].
    destruct (bool_decide_reflect (p ∈ nr_authenticated (ss_routers st))), (bool_decide_reflect (p ∈ nr_attached (ss_routers st))); cbn [andb]; pointwise p.
  - case_bool_decide; [|done]. case_bool_decide; pointwise p.
  - destruct (redial_running st p && _) eqn:E; [|done]. apply andb_true_iff in E as [[? ?]%running_iff [? ?]%up_iff]. pointwise p.
  - destruct (redial_running st p && _) eqn:E; [|done]. apply andb_true_iff in E as [[? ?]%running_iff Ha%negb_true_iff%bool_decide_eq_false]. pointwise p.
  - destruct (redial_running st p) eqn:E; [|done]. apply running_iff in E as [? ?]. pointwise p.
  - case_bool_decide; [|done]. pointwise p.
  - destruct (redial_running st p) eqn:E; [|done]. apply running_iff in E as [? ?]. pointwise p.
  - case_bool_decide; [|done]. pointwise p.
  - case_bool_decide; [|done]. pointwise p.
  - destruct (session_up st p); [|done]. pointwise p.
  - case_bool_decide; [|done]. rewrite covered_iff in Hcare. pointwise p.
  - pointwise p.
  - set (s' := (HandleGoAway o now (ss_routers st) p g).2). destruct (HandleGoAway_sets o now (ss_routers st) p g s' eq_refl) as [Hr [Hs|[Ha Hs]]].
    + rewrite Hs. by intros [= <-].
    + intros [= <-]. cbn [with_routers ss_routers]. clearbody s'. revert Hr Ha Hs. split; intros r; cbn; rewrite ?Hr, ?Ha, ?Hs;
        specialize (Hc r); specialize (Hl r); rewrite ?elem_of_difference, ?elem_of_singleton; destruct (decide (r = p)) as [->|]; tauto.
  - pointwise "".
Qed.

(** C23: A router that the node keeps is never forgotten: along every interleaving of
    connections, drops, handshakes, redials, go-aways and top-ups that has none
    of the steps where the code gives a kept router up, the node has a session
    with each router it keeps, or its drop is being handled, or a redial of it
    runs. *)
Theorem redial_not_lost st ls st' p :
  no_routers st → careful_run st ls → session_run st ls = Some st' →
  p ∈ nr_attached (ss_routers st') → covered st' p.
Proof.
  intros [Ha Hl] Hcare Hrun. assert (Hok : sessions_ok st) by (split; rewrite ?Ha, ?Hl; set_solver).
  clear Ha Hl. revert st Hok Hcare Hrun. induction ls as [|l ls IH]; intros st Hok; simpl; [intros _ [= <-]; by apply Hok|].
  intros [Hc Hcare]. destruct (session_next st l) as [st1|] eqn:E; [|done]. simpl. by eapply IH; [eapply session_next_ok|].
Qed.

(** ** Where the code gives a router up *)

(** A router that the node keeps is not chosen. *)
Lemma picked_unattached o noise now s k p : p ∈ nr_attached s → p ∉ (pickRouters o noise now s k).1.*1.
Proof.
  intros Ha (a & -> & Hin)%list_elem_of_fmap. unfold pickRouters in Hin. cbn [fst] in Hin.
  destruct (selectRouters_spec noise (nr_catalog s) k (ro_RouterSelector o) (ro_RouterPrefer o)
    (nr_attached s ∪ dom (filter (λ '(_, until), (now < until)%Z) (nr_shunned s)))) as (chosen & left & Heq & Hperm & _).
  rewrite Heq in Hin. apply list_elem_of_fmap in Hin as (c & -> & Hc). cbn [fst] in Ha.
  assert (c ∈ chosen ++ left) as Hm by (apply elem_of_app; by left). rewrite Hperm in Hm.
  apply list_elem_of_filter in Hm as [[_ Hn] _]. set_solver.
Qed.

(** The node keeps [p] and nobody looks after it. *)
Definition given_up (st : Sessions) (p : string) : Prop :=
  p ∈ nr_attached (ss_routers st) ∧ (p ∉ nr_authenticated (ss_routers st)) ∧ (p ∉ ss_dropped st) ∧ (p ∉ ss_dialed st) ∧
  redial_running st p = false.

(** The step gives [p] a session, or lets it go. *)
Definition rescues (l : session_step) (p : string) : Prop :=
  match l with SessionRecorded q | GoAway _ _ q _ => q = p | _ => False end.

Lemma given_up_iff st p : given_up st p ↔
  p ∈ nr_attached (ss_routers st) ∧ (p ∉ nr_authenticated (ss_routers st)) ∧ (p ∉ ss_dropped st) ∧ (p ∉ ss_dialed st) ∧
  (p ∈ nr_redialing (ss_routers st) → p ∈ ss_leaving st).
Proof.
  unfold given_up. assert (redial_running st p = false ↔ (p ∈ nr_redialing (ss_routers st) → p ∈ ss_leaving st)) as ->; [|done].
  rewrite <-not_true_iff_false, running_iff. destruct (decide (p ∈ ss_leaving st)); tauto.
Qed.

Lemma given_up_uncovered st p : given_up st p → ¬ covered st p.
Proof. rewrite given_up_iff, covered_iff. tauto. Qed.

#[local] Ltac elsewhere q p :=
  intros [= <-]; cbn [ss_routers ss_connected ss_closed ss_dropped ss_leaving ss_dialed nr_attached nr_authenticated nr_redialing
    with_routers with_connections with_dropped with_leaving with_dialed set_sessions set_redialing set_attached set_shunned
    shun attach detach refreshRelays] in *;
  rewrite ?elem_of_union, ?elem_of_difference, ?elem_of_singleton;
  destruct (decide (p = q)) as [->|]; tauto.

Lemma given_up_step st l st' p : given_up st p → ¬ rescues l p → session_next st l = Some st' → given_up st' p.
Proof.
  rewrite !given_up_iff. intros (Ha & Hs & Hd & Hdl & Hr) Hresc.
  destruct l as [q|q|q|q|q|q|q|now q d|q|q|q|q|q|q|o now q g|o noise now k]; cbn [rescues session_next] in Hresc |- *.
  - elsewhere q p.
  - case_bool_decide; [|done]. elsewhere q p.
  - case_bool_decide; [|done]. cbn [with_connections ss_connected]. case_bool_decide; [elsewhere q p|].
    unfold disconnect_handler, isAttached. cbn [with_connections ss_routers].
    destruct (bool_decide_reflect (q ∈ nr_authenticated (ss_routers st))), (bool_decide_reflect (q ∈ nr_attached (ss_routers st))); cbn [andb]; elsewhere q p.
  - case_bool_decide; [|done]. case_bool_decide; elsewhere q p.
  - destruct (redial_running st q && _) eqn:E; [|done]. elsewhere q p.
  - destruct (redial_running st q && _) eqn:E; [|done]. elsewhere q p.
  - destruct (redial_running st q) eqn:E; [|done]. apply running_iff in E as [? ?]. elsewhere q p.
  - case_bool_decide; [|done]. elsewhere q p.
  - destruct (redial_running st q) eqn:E; [|done]. elsewhere q p.
  - case_bool_decide; [|done]. elsewhere q p.
  - case_bool_decide; [|done]. elsewhere q p.
  - destruct (session_up st q) eqn:E; [|done]. apply up_iff in E as [? ?]. elsewhere q p.
  - case_bool_decide; [|done]. elsewhere q p.
  - elsewhere q p.
  - set (s' := (HandleGoAway o now (ss_routers st) q g).2). destruct (HandleGoAway_sets o now (ss_routers st) q g s' eq_refl) as [Hrd [Hs'|[Ha' Hs']]].
    + rewrite Hs'. by intros [= <-].
    + intros [= <-]. cbn [with_routers ss_routers ss_dropped ss_dialed ss_leaving]. rewrite Hrd, Ha', Hs'. set_solver.
  - elsewhere "" p.
Qed.

(** A router that the node keeps and nobody looks after stays so, whatever else
    happens, until a session with it comes about some other way or it sends the
    node away: no redial of it starts, and topping up never picks it. *)
Theorem given_up_stays st ls st' p o noise now k :
  given_up st p → Forall (λ l, ¬ rescues l p) ls → session_run st ls = Some st' →
  given_up st' p ∧ ¬ covered st' p ∧ p ∉ (pickRouters o noise now (ss_routers st') k).1.*1.
Proof.
  intros Hg Hls Hrun. assert (given_up st' p) as Hg'.
  { revert st Hg Hrun. induction Hls as [|l ls Hl Hls IH]; intros st Hg; simpl; [by intros [= <-]|].
    destruct (session_next st l) as [st1|] eqn:E; [|done]. simpl. apply IH. by eapply given_up_step. }
  split_and!; [done|by apply given_up_uncovered|]. apply picked_unattached, Hg'.
Qed.
End redial.

(** ** The connection monitor *)

Section monitor.
Context {St : Type} `{RA : routerAttacher St}.

(** The checks of the monitor from [s], with the failures in a row so far. *)
Fixpoint monitor_run (maxFailures : nat) (env : list (St → St)) (failures : nat) (s : St) : option (nat * St) :=
  match env with
  | [] => Some (failures, s)
  | f :: env => '(failures, s) ← monitor_tick maxFailures failures (f s); monitor_run maxFailures env failures s
  end.

(** A check fails: no router is held, topping up holds none, and neither does
    topping up from what the control plane lists. *)
Definition check_fails (s : St) : Prop := (checkRouterConnection s).1 = (false, false).

Lemma check_fails_no_router s : check_fails s → AttachedRouters s = 0 ∧ (TopUp s).1 = 0.
Proof.
  unfold check_fails, checkRouterConnection. destruct (Nat.ltb_spec 0 (AttachedRouters s)); [done|].
  destruct (TopUp s) as [n s1]. destruct (Nat.ltb_spec 0 n); [done|]. cbn [fst]. lia.
Qed.
End monitor.

(** ** Examples *)

#[local] Existing Instances plain_codec text_addrs text_peers.

Definition only_router : routerCandidate :=
  {| rc_ID := "12D3r1"; rc_Addrs := []; rc_Labels := ∅; rc_Connections := 3; rc_ConnectionLimit := 10 |}.

Definition idle : Sessions :=
  {| ss_routers := {| nr_catalog := [only_router]; nr_attached := ∅; nr_shunned := ∅; nr_authenticated := ∅; nr_redialing := ∅; nr_relays := [] |};
     ss_connected := ∅; ss_closed := ∅; ss_dropped := ∅; ss_leaving := ∅; ss_dialed := ∅ |}.

Definition attaches : list session_step := [Connected "12D3r1"; SessionRecorded "12D3r1"; Dialed "12D3r1"; Attach "12D3r1"].

(** The router restarts; the redial of the node restores the session. *)
Definition restart_steps : list session_step :=
  [Disconnected "12D3r1"; DisconnectedF "12D3r1"; RedialRouter "12D3r1"; Connected "12D3r1"; SessionRecorded "12D3r1"; Disconnected "12D3r1"].

Lemma redial_not_lost_witness : ∃ st, session_run idle (attaches ++ restart_steps) = Some st ∧ covered st "12D3r1".
Proof.
  destruct (session_run idle (attaches ++ restart_steps)) as [st|] eqn:E; [|by vm_compute in E]. exists st. split; [done|].
  apply (redial_not_lost idle (attaches ++ restart_steps) st "12D3r1").
  - by split.
  - apply (bool_decide_unpack _). by vm_compute.
  - exact E.
  - vm_compute in E. injection E as <-. apply (bool_decide_unpack _). by vm_compute.
Defined.

(** A router that goes on refusing the refreshed credential is kept without a
    session, and the monitor does not dial it though it would now admit the
    node; neither is one that drops between the handshake and its attachment. *)
Example refused_router_kept :
  ∃ st, session_run idle (attaches ++ [ReadmitRefused "12D3r1"]) = Some st ∧ given_up st "12D3r1" ∧
    (topUpRouters {| ro_Routers := 1; ro_RouterSelector := ∅; ro_RouterPrefer := ∅; ro_RouterShunDuration := (300 * second)%Z |}
       (λ _, float_half) 0%Z {["12D3r1"]} {["12D3r1"]} (Ok "credential") (λ _, Ok tt) (ss_routers st)).1 = 0.
Proof.
  eexists. split; [by vm_compute|]. split; [|by vm_compute]. unfold given_up. repeat split; apply (bool_decide_unpack _); by vm_compute.
Qed.

Example dropped_before_attached :
  ∃ st, session_run idle [Connected "12D3r1"; SessionRecorded "12D3r1"; Dialed "12D3r1"; Disconnected "12D3r1"; DisconnectedF "12D3r1"; Attach "12D3r1"]
    = Some st ∧ given_up st "12D3r1".
Proof. eexists. split; [by vm_compute|]. unfold given_up. repeat split; apply (bool_decide_unpack _); by vm_compute. Qed.
