(* ===== verification/NodeSync.v ===== *)
(** * A node kept in step with the control plane

    What a node knows of the mesh while it runs: the keys it trusts, the peers
    and tokens that are revoked, the peers it admitted, the policy, its own
    credential.  It learns them by pulling ([src/internal/node/controlplane_sync.go]),
    from signed events, from handshakes and from its own enrollment
    ([src/internal/node/node.go], [src/internal/node/enroll.go],
    [src/internal/node/gate.go]).  What the control plane, the disk, the clock
    and the limiters give is what the operations are given; the answers may
    come from anyone who answers the control plane's URL. *)

From S2P Require Import Prelude GoStrings Regex Names Biscuit NaiveEngine Facts DatalogText Grants Labels HTTPGrants PolicyRules Egress Base64 Tar Token Identity Middleware Directory Keyring Router Decimal Store NodeStore NodeRouters.

Definition BiscuitTokenTTL : Z := (24 * 3600 * second)%Z.
Definition FreshnessThreshold : Z := (5 * 60 * second)%Z.
Definition RevocationCacheSize : Z := 10000.
Definition reenrollCooldown : Z := (60 * second)%Z.

(** ** Caches *)

(** What an [lru.Cache] of [RevocationCacheSize] entries does with [Add]: the
    entry is there afterwards, the others stay or are evicted, and nothing is
    evicted while there is room.  Which entry goes depends on the order of use,
    which is not kept: each operation is given the cache's behaviour. *)
Record Lru (V : Type) := {
  lru_Add : gmap string V → string → V → gmap string V;
  lru_Add_new c k v : lru_Add c k v !! k = Some v;
  lru_Add_old c k v k' v' : k' ≠ k → lru_Add c k v !! k' = Some v' → c !! k' = Some v';
  lru_Add_room c k v : is_Some (c !! k) ∨ (Z.of_nat (size c) < RevocationCacheSize)%Z → lru_Add c k v = <[k := v]> c;
}.
Arguments lru_Add {V} _ _ _ _.
Arguments lru_Add_new {V} _ _ _ _.
Arguments lru_Add_old {V} _ _ _ _ _ _ _ _.
Arguments lru_Add_room {V} _ _ _ _ _.

(** ** Hexadecimal *)

Definition hex_value (c : ascii) : option Z :=
  let z := byte c in
  (if (48 <=? z) && (z <=? 57) then Some (z - 48)
   else if (97 <=? z) && (z <=? 102) then Some (z - 87)
   else if (65 <=? z) && (z <=? 70) then Some (z - 55)
   else None)%Z.

(** [hex.DecodeString]. *)
Fixpoint hex_DecodeString (s : string) : result string :=
  match s with
  | EmptyString => Ok ""
  | String c (String d s) =>
      match hex_value c, hex_value d with
      | Some hi, Some lo => (λ t, String (char_of (16 * hi + lo)%Z) t) <$> hex_DecodeString s
      | _, _ => Err (NewError "encoding/hex: invalid byte")
      end
  | String c EmptyString =>
      Err (NewError (match hex_value c with Some _ => "encoding/hex: odd length hex string" | None => "encoding/hex: invalid byte" end))
  end.

(** ** Errors of the control plane *)

(** A [cpclient.StatusError]: the leaf of an error that says which status the
    control plane answered. *)
Definition status_text : string := "control plane returned status ".
Definition StatusError (code : Z) : error := NewError (status_text +:+ FormatInt code).
Definition ErrEndpointNotFound : error := NewError "control plane does not serve this endpoint".

(** [errors.As] for a [StatusError]: the first of the tree. *)
Fixpoint as_StatusError (e : error) : option Z :=
  match e with
  | NewError msg =>
      if HasPrefix msg status_text
      then match ParseInt (str_drop (len status_text) msg) with Ok code => Some code | Err _ => None end else None
  | WrapError _ i => as_StatusError i
  | JoinError a b => match as_StatusError a with Some code => Some code | None => as_StatusError b end
  end.

Definition controlPlaneForgotUs (e : error) : bool := bool_decide (as_StatusError e = Some 401%Z).

(** [errors.Join]. *)
Fixpoint errors_Join (errs : list error) : option error :=
  match errs with
  | [] => None
  | e :: errs => Some (match errors_Join errs with None => e | Some r => JoinError e r end)
  end.

Section node.
Context `{UC : UnicodeCase, TC : TARCodec, BT : BiscuitTokens, TX : BiscuitText, BE : BiscuitEngine, PC : PeerCodec, MA : Multiaddr, PB : PeerBytes,
  KC : KeysCodec, ED : Ed25519, EC : EventCodec, CC : CredentialCodec}.

(** ** The node *)

(** What the node does to its surroundings. *)
Inductive effect :=
| ClosePeer (p : string)
| TriggerControlPlaneSync
| TriggerReprovide
| ReadmitRouters.

Record MeshNode := {
  mn_node : AgentMeshNode;
  mn_self : string;                            (** the peer of its key *)
  mn_RequiredRole : string;
  mn_started : bool;                           (** its host exists *)
  mn_store : option bucket;
  mn_authPeers : gmap string time;
  mn_opening : gset string;                    (** handshakes past their first checks *)
  mn_peerLastEventTime : gmap string Z;
  mn_inbox : list MeshEvent;                   (** events that the validator accepted *)
  mn_meshPolicyTexts : option (list string);
  mn_RouterAddrs : list maddr;
  mn_catalog : list routerCandidate;
  mn_directory : DirectorySettings;
  mn_lastReenroll : option time;
  mn_out : list effect;
}.

Definition with_node (m : MeshNode) n : MeshNode :=
  {| mn_node := n; mn_self := mn_self m; mn_RequiredRole := mn_RequiredRole m; mn_started := mn_started m; mn_store := mn_store m;
     mn_authPeers := mn_authPeers m; mn_opening := mn_opening m; mn_peerLastEventTime := mn_peerLastEventTime m; mn_inbox := mn_inbox m;
     mn_meshPolicyTexts := mn_meshPolicyTexts m; mn_RouterAddrs := mn_RouterAddrs m; mn_catalog := mn_catalog m; mn_directory := mn_directory m;
     mn_lastReenroll := mn_lastReenroll m; mn_out := mn_out m |}.
Definition with_peers (m : MeshNode) auth opening : MeshNode :=
  {| mn_node := mn_node m; mn_self := mn_self m; mn_RequiredRole := mn_RequiredRole m; mn_started := mn_started m; mn_store := mn_store m;
     mn_authPeers := auth; mn_opening := opening; mn_peerLastEventTime := mn_peerLastEventTime m; mn_inbox := mn_inbox m;
     mn_meshPolicyTexts := mn_meshPolicyTexts m; mn_RouterAddrs := mn_RouterAddrs m; mn_catalog := mn_catalog m; mn_directory := mn_directory m;
     mn_lastReenroll := mn_lastReenroll m; mn_out := mn_out m |}.
Definition with_events (m : MeshNode) last inbox : MeshNode :=
  {| mn_node := mn_node m; mn_self := mn_self m; mn_RequiredRole := mn_RequiredRole m; mn_started := mn_started m; mn_store := mn_store m;
     mn_authPeers := mn_authPeers m; mn_opening := mn_opening m; mn_peerLastEventTime := last; mn_inbox := inbox;
     mn_meshPolicyTexts := mn_meshPolicyTexts m; mn_RouterAddrs := mn_RouterAddrs m; mn_catalog := mn_catalog m; mn_directory := mn_directory m;
     mn_lastReenroll := mn_lastReenroll m; mn_out := mn_out m |}.
Definition with_texts (m : MeshNode) texts : MeshNode :=
  {| mn_node := mn_node m; mn_self := mn_self m; mn_RequiredRole := mn_RequiredRole m; mn_started := mn_started m; mn_store := mn_store m;
     mn_authPeers := mn_authPeers m; mn_opening := mn_opening m; mn_peerLastEventTime := mn_peerLastEventTime m; mn_inbox := mn_inbox m;
     mn_meshPolicyTexts := texts; mn_RouterAddrs := mn_RouterAddrs m; mn_catalog := mn_catalog m; mn_directory := mn_directory m;
     mn_lastReenroll := mn_lastReenroll m; mn_out := mn_out m |}.
Definition with_info (m : MeshNode) addrs catalog directory : MeshNode :=
  {| mn_node := mn_node m; mn_self := mn_self m; mn_RequiredRole := mn_RequiredRole m; mn_started := mn_started m; mn_store := mn_store m;
     mn_authPeers := mn_authPeers m; mn_opening := mn_opening m; mn_peerLastEventTime := mn_peerLastEventTime m; mn_inbox := mn_inbox m;
     mn_meshPolicyTexts := mn_meshPolicyTexts m; mn_RouterAddrs := addrs; mn_catalog := catalog; mn_directory := directory;
     mn_lastReenroll := mn_lastReenroll m; mn_out := mn_out m |}.
Definition with_reenroll (m : MeshNode) t : MeshNode :=
  {| mn_node := mn_node m; mn_self := mn_self m; mn_RequiredRole := mn_RequiredRole m; mn_started := mn_started m; mn_store := mn_store m;
     mn_authPeers := mn_authPeers m; mn_opening := mn_opening m; mn_peerLastEventTime := mn_peerLastEventTime m; mn_inbox := mn_inbox m;
     mn_meshPolicyTexts := mn_meshPolicyTexts m; mn_RouterAddrs := mn_RouterAddrs m; mn_catalog := mn_catalog m; mn_directory := mn_directory m;
     mn_lastReenroll := t; mn_out := mn_out m |}.
Definition node_emit (m : MeshNode) (effs : list effect) : MeshNode :=
  {| mn_node := mn_node m; mn_self := mn_self m; mn_RequiredRole := mn_RequiredRole m; mn_started := mn_started m; mn_store := mn_store m;
     mn_authPeers := mn_authPeers m; mn_opening := mn_opening m; mn_peerLastEventTime := mn_peerLastEventTime m; mn_inbox := mn_inbox m;
     mn_meshPolicyTexts := mn_meshPolicyTexts m; mn_RouterAddrs := mn_RouterAddrs m; mn_catalog := mn_catalog m; mn_directory := mn_directory m;
     mn_lastReenroll := mn_lastReenroll m; mn_out := mn_out m ++ effs |}.

(** The fields of [AgentMeshNode] that change here. *)
Definition set_revokedPeers (n : AgentMeshNode) cache : AgentMeshNode :=
  {| n_revokedPeers := cache; n_revokedTokens := n_revokedTokens n; n_trustedKeys := n_trustedKeys n; n_nodeConfig := n_nodeConfig n;
     n_MeshPolicyRules := n_MeshPolicyRules n; n_cachedIdentity := n_cachedIdentity n; n_storedIdentity := n_storedIdentity n |}.
Definition set_trustedKeys (n : AgentMeshNode) keys : AgentMeshNode :=
  {| n_revokedPeers := n_revokedPeers n; n_revokedTokens := n_revokedTokens n; n_trustedKeys := keys; n_nodeConfig := n_nodeConfig n;
     n_MeshPolicyRules := n_MeshPolicyRules n; n_cachedIdentity := n_cachedIdentity n; n_storedIdentity := n_storedIdentity n |}.
Definition set_MeshPolicyRules (n : AgentMeshNode) rules : AgentMeshNode :=
  {| n_revokedPeers := n_revokedPeers n; n_revokedTokens := n_revokedTokens n; n_trustedKeys := n_trustedKeys n; n_nodeConfig := n_nodeConfig n;
     n_MeshPolicyRules := rules; n_cachedIdentity := n_cachedIdentity n; n_storedIdentity := n_storedIdentity n |}.
Definition set_storedIdentity (n : AgentMeshNode) stored : AgentMeshNode :=
  {| n_revokedPeers := n_revokedPeers n; n_revokedTokens := n_revokedTokens n; n_trustedKeys := n_trustedKeys n; n_nodeConfig := n_nodeConfig n;
     n_MeshPolicyRules := n_MeshPolicyRules n; n_cachedIdentity := n_cachedIdentity n; n_storedIdentity := stored |}.

(** The database changes, and with it what [LoadIdentity] returns. *)
Definition with_store (m : MeshNode) (b : bucket) : MeshNode :=
  {| mn_node := set_storedIdentity (mn_node m) (Some (LoadIdentity b)); mn_self := mn_self m; mn_RequiredRole := mn_RequiredRole m;
     mn_started := mn_started m; mn_store := Some b;
     mn_authPeers := mn_authPeers m; mn_opening := mn_opening m; mn_peerLastEventTime := mn_peerLastEventTime m; mn_inbox := mn_inbox m;
     mn_meshPolicyTexts := mn_meshPolicyTexts m; mn_RouterAddrs := mn_RouterAddrs m; mn_catalog := mn_catalog m; mn_directory := mn_directory m;
     mn_lastReenroll := mn_lastReenroll m; mn_out := mn_out m |}.

(** [GetIdentity] on the whole node. *)
Definition identity_of (m : MeshNode) : option string * MeshNode :=
  let '(b, n) := GetIdentity (mn_node m) in (b, with_node m n).

(** [SetIdentityCache]. *)
Definition SetIdentityCache (m : MeshNode) (b : string) : MeshNode :=
  if negb (bool_decide (b = "")) then with_node m (set_cachedIdentity (mn_node m) b) else m.

(** The transactions of the node's operations, and what committing each gives. *)
Inductive node_write := WriteIdentity | WriteExpiration | WriteMeshConfig | WriteAddedKey | WriteTrustedKeys | WriteKeySet.
Definition Disk : Type := node_write → result unit.

(** A transaction on the node's store, when it has one. *)
Definition store_write (m : MeshNode) (save : bucket → result unit * bucket) : result unit * MeshNode :=
  match mn_store m with
  | None => (Ok tt, m)
  | Some b => let '(r, b) := save b in (r, with_store m b)
  end.

(** ** Revoked tokens *)

Definition node_RevokeBiscuitID (lru : Lru time) (now : time) (n : AgentMeshNode) (revocationID : string) (expiry : time) : AgentMeshNode :=
  if bool_decide (revocationID = "") then n
  else
    let cache := default ∅ (n_revokedTokens n) in
    let expiry := if bool_decide (expiry = zero_time) then (now + BiscuitTokenTTL)%Z else expiry in
    let cache := lru_Add lru cache revocationID expiry in
    let cache := match hex_DecodeString revocationID with
                 | Ok raw => if 0 <? len raw then lru_Add lru cache (RawURL_Encode raw) expiry else cache
                 | Err _ => cache
                 end in
    set_revokedTokens n (Some cache).

Definition node_RevokeBiscuitToken (lru : Lru time) (now : time) (n : AgentMeshNode) (rawToken : string) (expiry : time) : result string * AgentMeshNode :=
  match UnmarshalInbound rawToken with
  | Err e => (Err e, n)
  | Ok (b, _) =>
      match last (RevocationIds b) with
      | None => (Err (NewError "biscuit has no revocation IDs"), n)
      | Some id => let revID := RawURL_Encode id in (Ok revID, node_RevokeBiscuitID lru now n revID expiry)
      end
  end.

(** ** Bans *)

Definition banPeer (lru : Lru Z) (m : MeshNode) (p : string) (bannedAtMs : Z) : MeshNode :=
  let n := match n_revokedPeers (mn_node m) with
           | Some cache => set_revokedPeers (mn_node m) (Some (lru_Add lru cache p bannedAtMs))
           | None => mn_node m
           end in
  let m := with_peers (with_node m n) (delete p (mn_authPeers m)) (mn_opening m) in
  if mn_started m then node_emit m [ClosePeer p] else m.

(** One peer that the control plane lists. *)
Definition ban_listed (lru : Lru Z) (fetchedAtMs : Z) (m : MeshNode) (p : string) : MeshNode :=
  if peer_revoked (mn_node m) p then m else banPeer lru m p fetchedAtMs.

Definition node_reconcileBannedPeers (lru : Lru Z) (m : MeshNode) (peerIDs : list string) (fetchedAt : time) : MeshNode :=
  match n_revokedPeers (mn_node m) with
  | None => m
  | Some cache =>
      let banned := remove_dups (decode_peers peerIDs) in
      let fetchedAtMs := UnixMilli fetchedAt in
      let cache := filter (λ '(key, bannedAt), key ∈ banned ∨ (fetchedAtMs ≤ bannedAt)%Z) cache in
      foldl (ban_listed lru fetchedAtMs) (with_node m (set_revokedPeers (mn_node m) (Some cache))) banned
  end.

(** The gater. *)
Definition node_InterceptPeerDial (m : MeshNode) (p : string) : bool := negb (peer_revoked (mn_node m) p).
Definition node_InterceptSecured (m : MeshNode) (p : string) : bool := negb (peer_revoked (mn_node m) p).

(** ** Admission *)

Definition isAdmitted (now : time) (m : MeshNode) (p : string) : bool * MeshNode :=
  match mn_authPeers m !! p with
  | None => (false, m)
  | Some expiry =>
      if negb (now <? expiry)%Z then (false, with_peers m (delete p (mn_authPeers m)) (mn_opening m)) else (true, m)
  end.

Definition node_AllowReserve (now : time) (m : MeshNode) (p : string) : bool * MeshNode := isAdmitted now m p.

Definition node_AllowConnect (now : time) (m : MeshNode) (src dest : string) : bool * MeshNode :=
  let '(ok, m) := isAdmitted now m src in
  if negb ok then (false, m) else isAdmitted now m dest.

(** The handshake a peer opens, up to where it waits for the peer's frame. *)
Definition handshake_open (m : MeshNode) (remotePeer : string) (allowed : bool) : MeshNode :=
  if peer_revoked (mn_node m) remotePeer then m
  else if negb allowed then m
  else with_peers m (mn_authPeers m) ({[ remotePeer ]} ∪ mn_opening m).

Definition getTrustedPublicKeys (m : MeshNode) : list PublicKey := tk_Key <$> n_trustedKeys (mn_node m).

(** The frame arrives: the node answers with its own credential when it admits
    the peer. *)
Definition handshake_frame (now : time) (m : MeshNode) (remotePeer : string) (frame : result (result string)) : option string * MeshNode :=
  if negb (bool_decide (remotePeer ∈ mn_opening m)) then (None, m)
  else
    let m := with_peers m (mn_authPeers m) (mn_opening m ∖ {[ remotePeer ]}) in
    match frame with
    | Err _ | Ok (Err _) => (None, m)
    | Ok (Ok exchange) =>
        match VerifyBiscuitAndGetExpiry now exchange remotePeer (getTrustedPublicKeys m) with
        | Err _ => (None, m)
        | Ok expiry =>
            let m := with_peers m (<[remotePeer := expiry]> (mn_authPeers m)) (mn_opening m) in
            let '(ident, m) := identity_of m in
            (Some (default "" ident), m)
        end
    end.

(** ** Events *)

Definition node_verifyEvent (m : MeshNode) (event : MeshEvent) : bool :=
  match marshal_event (me_Type event) (me_PeerId event) (me_EventTime event) (me_NewPublicKey event) with
  | Err _ => false
  | Ok data => existsb (λ tk, (len (tk_Key tk) =? PublicKeySize) && ed_Verify (tk_Key tk) data (me_Signature event)) (n_trustedKeys (mn_node m))
  end.

Definition node_validateMeshEvent (now : time) (m : MeshNode) (msg : result MeshEvent) : ValidationResult :=
  match msg with
  | Err _ => ValidationReject
  | Ok event =>
      if negb (node_verifyEvent m event) then ValidationReject
      else match me_EventTime event with
      | None => ValidationReject
      | Some t => if (FreshnessThreshold <? now - AsTime t)%Z || (FreshnessThreshold <? AsTime t - now)%Z
                  then ValidationIgnore else ValidationAccept
      end
  end.

(** The validator; an accepted event waits for the subscription. *)
Definition receive_event (now : time) (m : MeshNode) (msg : result MeshEvent) : MeshNode :=
  match msg, node_validateMeshEvent now m msg with
  | Ok event, ValidationAccept => with_events m (mn_peerLastEventTime m) (mn_inbox m ++ [event])
  | _, _ => m
  end.

(** [event.GetEventTime().AsTime().UnixMilli()]. *)
Definition event_ms (event : MeshEvent) : Z :=
  match me_EventTime event with Some t => UnixMilli (AsTime t) | None => 0%Z end.

Definition handleBannedEvent (lru : Lru Z) (m : MeshNode) (event : MeshEvent) : MeshNode :=
  match peer_Decode (me_PeerId event) with
  | Err _ => m
  | Ok p =>
      let eventMs := event_ms event in
      if (eventMs <? default 0 (mn_peerLastEventTime m !! p))%Z then m
      else banPeer lru (with_events m (<[p := eventMs]> (mn_peerLastEventTime m)) (mn_inbox m)) p eventMs
  end.

Definition persistTrustedKeys (commit : result unit) (m : MeshNode) (keys : list TrustedKey) : MeshNode :=
  (store_write m (λ b, SaveTrustedKeys commit b keys)).2.

Definition node_addTrustedKey (commit : result unit) (now : time) (m : MeshNode) (key : PublicKey) : MeshNode :=
  let keys := n_trustedKeys (mn_node m) in
  if containsTrustedKey keys key then m
  else
    let keys := keys ++ [{| tk_Key := key; tk_ReceivedAt := now |}] in
    persistTrustedKeys commit (with_node m (set_trustedKeys (mn_node m) keys)) keys.

Definition handleKeyRotationEvent (disk : Disk) (now : time) (m : MeshNode) (event : MeshEvent) : MeshNode :=
  if negb (len (me_NewPublicKey event) =? PublicKeySize) then m
  else node_emit (node_addTrustedKey (disk WriteAddedKey) now m (me_NewPublicKey event)) [TriggerControlPlaneSync].

(** The next accepted event; [allowed] is the limiter's word on its author. *)
Definition listenForControlPlaneEvents (lru : Lru Z) (disk : Disk) (now : time) (m : MeshNode) (allowed : bool) : MeshNode :=
  match mn_inbox m with
  | [] => m
  | event :: inbox =>
      let m := with_events m (mn_peerLastEventTime m) inbox in
      if negb allowed then m
      else match me_Type event with
      | BANNED => handleBannedEvent lru m event
      | KEY_ROTATION => handleKeyRotationEvent disk now m event
      | POLICY_UPDATE => node_emit m [TriggerControlPlaneSync]
      end
  end.

(** One tick of the pruning loop. *)
Definition startKeyPruning (disk : Disk) (now : time) (gracePeriod : Z) (m : MeshNode) : MeshNode :=
  let keys := n_trustedKeys (mn_node m) in
  let pruned := pruneTrustedKeys keys now gracePeriod in
  let m := with_node m (set_trustedKeys (mn_node m) pruned) in
  if negb (length pruned =? length keys) then persistTrustedKeys (disk WriteTrustedKeys) m pruned else m.

(** ** The node's own credential *)

Definition node_verifyOwnBiscuit (now : time) (m : MeshNode) (token : string) : result unit :=
  fail_if (bool_decide (token = "")) "empty biscuit token";;
  let trusted := publicKeysOf (n_trustedKeys (mn_node m)) in
  fail_if (bool_decide (length trusted = 0)) "no trusted control plane keys loaded";;
  '(_, key) ← VerifyBiscuitAndGetKey now token (mn_self m) trusted;
  if bool_decide (mn_RequiredRole m = "") then Ok tt else VerifyBiscuitRole token key (mn_RequiredRole m).

Definition recordIdentityKeySet (disk : Disk) (m : MeshNode) : MeshNode :=
  (store_write m (λ b, SaveIdentityKeySet (disk WriteKeySet) b (publicKeysOf (n_trustedKeys (mn_node m))))).2.

(** Saving a credential and its expiration, the first half of what follows an
    accepted answer. *)
Definition adopt_identity (disk : Disk) (m : MeshNode) (token : string) (expireTime : option Timestamp) : result unit * MeshNode :=
  let '(r, m) := store_write m (λ b, SaveIdentity (disk WriteIdentity) b token) in
  match r with
  | Err e => (Err (WrapError "failed to save identity" e), m)
  | Ok _ =>
      let m := SetIdentityCache m token in
      let '(r, m) := store_write m (λ b, SaveIdentityExpiration (disk WriteExpiration) b (expireUnix expireTime)) in
      (wrap_err "failed to save identity expiration" r, m)
  end.

Definition http_url (url : string) : bool := HasPrefix url "http://" || HasPrefix url "https://".

(** [answer] is the outcome of the exchange under the node's key: the credential
    and its expiration, or an error. *)
Definition RefreshEnrollment (disk : Disk) (now : time) (m : MeshNode) (answer : result (string * option Timestamp)) : result unit * MeshNode :=
  match mn_store m with
  | None => (Err (NewError "node has no store"), m)
  | Some b =>
      match (wrap_err "failed to load current identity" (LoadIdentity b);;
             url ← wrap_err "failed to load control plane URL" (LoadControlPlaneURL b);
             fail_if (negb (http_url url)) "control plane address must be an HTTP or HTTPS URL for renewal";;
             resp ← answer;
             wrap_err "refreshed biscuit rejected" (node_verifyOwnBiscuit now m resp.1);;
             Ok resp) with
      | Err e => (Err e, m)
      | Ok (token, expireTime) =>
          match adopt_identity disk m token expireTime with
          | (Err e, m) => (Err e, m)
          | (Ok _, m) => (Ok tt, node_emit (recordIdentityKeySet disk m) [ReadmitRouters])
          end
      end
  end.

(** ** Pulling *)

Definition node_syncTrustedKeys (commit : result unit) (now : time) (m : MeshNode) (answer : result KeysResponse) : result unit * MeshNode :=
  match syncTrustedKeys (n_trustedKeys (mn_node m)) answer now with
  | Err e => (Err e, m)
  | Ok merged => (Ok tt, persistTrustedKeys commit (with_node m (set_trustedKeys (mn_node m) merged)) merged)
  end.

Definition containsPublicKey (keys : list PublicKey) (key : PublicKey) : bool := existsb (λ candidate, bool_decide (candidate = key)) keys.

Definition identityPredatesRotation (m : MeshNode) : bool :=
  match mn_store m, GetIdentity (mn_node m) with
  | Some b, (Some _, _) =>
      match LoadIdentityKeySet b with
      | Err _ => false
      | Ok issuance =>
          let issuance := match issuance with
                          | [] => match LoadMeshConfig b with
                                  | Ok (enrollmentKey, _) => if len enrollmentKey =? PublicKeySize then Some [enrollmentKey] else None
                                  | Err _ => None
                                  end
                          | _ => Some issuance
                          end in
          match issuance with
          | None => false
          | Some issuance => existsb (λ tk, negb (containsPublicKey issuance (tk_Key tk))) (n_trustedKeys (mn_node m))
          end
      end
  | _, _ => false
  end.

(** What [/info] answers. *)
Record InfoResponse := {
  in_RouterAddresses : list string;
  in_Routers : list RouterInfo;
  in_Directory : option DirectoryParameters;
  in_BannedPeerIds : list string;
}.

Definition adoptDirectory (m : MeshNode) (p : option DirectoryParameters) : MeshNode :=
  with_info m (mn_RouterAddrs m) (mn_catalog m) (DirectorySettingsFrom p).

(** The routers that [/info] lists: kept for the next start and, before this
    one, dialled. *)
Definition adopt_routers (commit : result unit) (now : time) resolve (m : MeshNode) (info : InfoResponse) : MeshNode :=
  if bool_decide (length (in_RouterAddresses info) = 0) && bool_decide (length (in_Routers info) = 0) then m
  else
    let m := match mn_store m with
             | None => m
             | Some b =>
                 match LoadMeshConfig b with
                 | Err _ => m
                 | Ok (pubKey, _) =>
                     if negb (bool_decide (pubKey = "")) then (store_write m (λ b, SaveMeshConfig commit now b pubKey (in_RouterAddresses info))).2 else m
                 end
             end in
    let addrs := parseMultiaddrs (in_RouterAddresses info) in
    let addrs := if negb (mn_started m) && negb (bool_decide (length addrs = 0)) then addrs else mn_RouterAddrs m in
    with_info m addrs (candidatesFromInfo resolve (in_Routers info) (in_RouterAddresses info)) (mn_directory m).

Definition syncMeshInfo (lru : Lru Z) (disk : Disk) (fetchedAt : time) resolve (m : MeshNode) (answer : result InfoResponse) : result unit * MeshNode :=
  match answer with
  | Err e => (Err e, m)
  | Ok info =>
      let m := adopt_routers (disk WriteMeshConfig) fetchedAt resolve m info in
      let m := adoptDirectory m (in_Directory info) in
      (Ok tt, node_reconcileBannedPeers lru m (in_BannedPeerIds info) fetchedAt)
  end.

(** What [/policies] answers; [po_Unknown] says that it has fields this node
    does not know. *)
Record PolicyResponse := { po_DatalogRules : list string; po_Unknown : bool }.

(** A repeated field with no elements decodes to nil. *)
Definition nil_if_empty {A} (l : list A) : option (list A) := match l with [] => None | _ => Some l end.

Definition syncMeshPolicy (m : MeshNode) (answer : result PolicyResponse) : result unit * MeshNode :=
  match mn_store m with
  | None => (Err (NewError "node has no store"), m)
  | Some b =>
      if negb (match LoadControlPlaneURL b with Ok url => negb (bool_decide (url = "")) | Err _ => false end)
      then (Err (NewError "control plane URL not found in store"), m)
      else match identity_of m with
      | (None, m) => (Err (NewError "node has no identity token to fetch mesh policy"), m)
      | (Some _, m) =>
          match (resp ← wrap_err "failed to fetch mesh policy" answer;
                 fail_if (po_Unknown resp) "control plane predates datalog_rules in its policy response; upgrade the control plane";;
                 rules ← wrap_err "mesh policy carries an unparseable rule" (ParseDatalogRules (po_DatalogRules resp));
                 Ok (rules, po_DatalogRules resp)) with
          | Err e => (Err e, m)
          | Ok (rules, texts) =>
              let changed := match mn_meshPolicyTexts m with Some old => negb (bool_decide (old = texts)) | None => false end in
              let m := with_texts (with_node m (set_MeshPolicyRules (mn_node m) rules)) (nil_if_empty texts) in
              (Ok tt, if changed then node_emit m [TriggerReprovide] else m)
          end
      end
  end.

(** What [/revocations] answers. *)
Record RevocationsResponse := { rv_RevocationIds : list string; rv_BannedPeerIds : list string }.

Definition syncRevocations (bans : Lru Z) (revs : Lru time) (fetchedAt : time) (m : MeshNode) (answer : result RevocationsResponse) : result unit * MeshNode :=
  match identity_of m with
  | (None, m) => (Ok tt, m)
  | (Some _, m) =>
      match answer with
      | Err e => (if errors_Is e ErrEndpointNotFound then Ok tt else Err e, m)
      | Ok resp =>
          let expiry := (fetchedAt + 24 * 3600 * second)%Z in
          let m := with_node m (foldl (λ n revID, node_RevokeBiscuitID revs fetchedAt n revID expiry) (mn_node m) (rv_RevocationIds resp)) in
          (Ok tt, if bool_decide (length (rv_BannedPeerIds resp) = 0) then m
                  else node_reconcileBannedPeers bans m (rv_BannedPeerIds resp) fetchedAt)
      end
  end.

(** What one pull is given: the clock and the answers of each part.  The egress
    assignments are handed to the service registry, which is not part of this
    state: their outcome is given. *)
Record Pull := {
  pl_keysAt : time;
  pl_keys : result KeysResponse;
  pl_refreshAt : time;
  pl_refresh : result (string * option Timestamp);
  pl_infoAt : time;
  pl_info : result InfoResponse;
  pl_policy : result PolicyResponse;
  pl_egress : result unit;
  pl_revocationsAt : time;
  pl_revocations : result RevocationsResponse;
}.

(** A part's error among the errors of the pull. *)
Definition sync_part {A} (msg : string) (r : result A) : list error := match r with Ok _ => [] | Err e => [WrapError msg e] end.

Definition syncControlPlaneOnce (bans : Lru Z) (revs : Lru time) (disk : Disk) resolve (m : MeshNode) (pull : Pull) : result unit * MeshNode :=
  match mn_store m with
  | None => (Err (NewError "node has no store"), m)
  | Some b =>
      if negb (match LoadControlPlaneURL b with Ok url => negb (bool_decide (url = "")) | Err _ => false end)
      then (Err (NewError "control plane URL not found in store"), m)
      else
        let '(keys, m) := node_syncTrustedKeys (disk WriteTrustedKeys) (pl_keysAt pull) m (pl_keys pull) in
        let '(refresh, m) :=
          if is_ok keys && identityPredatesRotation m then RefreshEnrollment disk (pl_refreshAt pull) m (pl_refresh pull) else (Ok tt, m) in
        let '(info, m) := syncMeshInfo bans disk (pl_infoAt pull) resolve m (pl_info pull) in
        let '(policy, m) := syncMeshPolicy m (pl_policy pull) in
        let '(revocations, m) := syncRevocations bans revs (pl_revocationsAt pull) m (pl_revocations pull) in
        let errs := sync_part "keys" keys ++ sync_part "refresh enrollment after key rotation" refresh ++ sync_part "info" info ++ sync_part "policy" policy
                    ++ sync_part "egress" (pl_egress pull) ++ sync_part "revocations" revocations in
        (match errors_Join errs with None => Ok tt | Some e => Err e end, m)
  end.

(** ** Enrolling *)

Record EnrollAnswer := {
  be_Status : EnrollmentStatus;
  be_ErrorMessage : string;
  be_BiscuitToken : string;
  be_ControlPlanePublicKey : PublicKey;
  be_ExpireTime : option Timestamp;
  be_RouterAddresses : list string;
}.

(** The polls of a pending enrollment, up to the end of the context. *)
Fixpoint poll_status (answers : list (result EnrollAnswer)) : result EnrollAnswer :=
  match answers with
  | [] => Err (NewError "context canceled")
  | Err _ :: answers => poll_status answers
  | Ok resp :: answers =>
      if negb (bool_decide (be_ErrorMessage resp = "")) then Err (NewError "enrollment failed")
      else match be_Status resp with
      | ENROLLMENT_STATUS_APPROVED => Ok resp
      | ENROLLMENT_STATUS_REJECTED => Err (NewError "enrollment was rejected by administrator")
      | _ => poll_status answers
      end
  end.

Definition isTrustedKey (m : MeshNode) (pub : PublicKey) : bool := existsb (λ k, bool_decide (k = pub)) (getTrustedPublicKeys m).

Definition adoptEnrolledKeys (disk : Disk) (now : time) (m : MeshNode) (newest : PublicKey) (keys : result KeysResponse) : MeshNode :=
  let m := node_addTrustedKey (disk WriteAddedKey) now m newest in
  let m := (node_syncTrustedKeys (disk WriteTrustedKeys) now m keys).2 in
  recordIdentityKeySet disk m.

(** The answer to an enrollment that the node takes. *)
Definition accept_enrollment (now : time) (m : MeshNode) (trustedOnly : bool) (answer : result EnrollAnswer)
    (polls : list (result EnrollAnswer)) (url : string) : result EnrollAnswer :=
  fail_if (negb (http_url url)) "control plane address must be an HTTP or HTTPS URL for enrollment";;
  resp ← answer;
  fail_if (negb (bool_decide (be_ErrorMessage resp = ""))) "enrollment failed";;
  resp ← (match be_Status resp with ENROLLMENT_STATUS_PENDING => poll_status polls | _ => Ok resp end);
  fail_if (bool_decide (be_BiscuitToken resp = "")) "received empty biscuit token from enrollment response";;
  fail_if (negb (len (be_ControlPlanePublicKey resp) =? PublicKeySize)) "received invalid control plane public key size";;
  (if trustedOnly then
     fail_if (negb (isTrustedKey m (be_ControlPlanePublicKey resp))) "re-enrollment answer names a control plane key this node does not trust";;
     wrap_err "re-enrollment credential does not verify under a trusted control plane key" (node_verifyOwnBiscuit now m (be_BiscuitToken resp))
   else wrap_err "enrolled biscuit token lacks required role" (VerifyBiscuitRole (be_BiscuitToken resp) (be_ControlPlanePublicKey resp) (mn_RequiredRole m)));;
  Ok resp.

Definition enrollBootstrapCredential (disk : Disk) (now : time) (m : MeshNode) (trustedOnly : bool) (url : string)
    (answer : result EnrollAnswer) (polls : list (result EnrollAnswer)) (keys : result KeysResponse) : result unit * MeshNode :=
  match accept_enrollment now m trustedOnly answer polls url with
  | Err e => (Err e, m)
  | Ok resp =>
      match adopt_identity disk m (be_BiscuitToken resp) (be_ExpireTime resp) with
      | (Err e, m) => (Err e, m)
      | (Ok _, m) =>
          match store_write m (λ b, SaveMeshConfig (disk WriteMeshConfig) now b (be_ControlPlanePublicKey resp) (be_RouterAddresses resp)) with
          | (Err e, m) => (Err (WrapError "failed to save mesh config" e), m)
          | (Ok _, m) => (Ok tt, adoptEnrolledKeys disk now m (be_ControlPlanePublicKey resp) keys)
          end
      end
  end.

(** What a recovery is given: the bootstrap token, when one is configured and
    readable, and the answers to the enrollment. *)
Record Recovery := {
  rc_now : time;
  rc_token : option (result string);
  rc_answer : result EnrollAnswer;
  rc_polls : list (result EnrollAnswer);
  rc_keys : result KeysResponse;
}.

Definition recoverEnrollment (disk : Disk) (m : MeshNode) (r : Recovery) : bool * MeshNode :=
  match rc_token r with
  | None => (false, m)
  | Some token =>
      if match mn_lastReenroll m with Some t => (rc_now r - t <? reenrollCooldown)%Z | None => false end then (false, m)
      else
        let m := with_reenroll m (Some (rc_now r)) in
        match token, mn_store m with
        | Ok _, Some b =>
            match LoadControlPlaneURL b with
            | Err _ => (false, m)
            | Ok url =>
                let '(res, m) := enrollBootstrapCredential disk (rc_now r) m true url (rc_answer r) (rc_polls r) (rc_keys r) in
                (is_ok res, m)
            end
        | _, _ => (false, m)
        end
  end.

(** The pull, and the pull that follows a recovery, each with its own disk and
    answers. *)
Definition SyncControlPlane (bans : Lru Z) (revs : Lru time) resolve (m : MeshNode) (disk : Disk) (pull : Pull)
    (disk' : Disk) (r : Recovery) (disk'' : Disk) (pull' : Pull) : result unit * MeshNode :=
  let '(res, m) := syncControlPlaneOnce bans revs disk resolve m pull in
  match res with
  | Ok _ => (res, m)
  | Err e =>
      if controlPlaneForgotUs e then
        let '(recovered, m) := recoverEnrollment disk' m r in
        if recovered then syncControlPlaneOnce bans revs disk'' resolve m pull' else (res, m)
      else (res, m)
  end.

(** ** Enrolling with a token of the identity provider *)

(** What [/register] answers. *)
Record EnrollResponse := {
  ep_ErrorMessage : string;
  ep_BiscuitToken : string;
  ep_ControlPlanePublicKey : PublicKey;
  ep_ExpireTime : option Timestamp;
  ep_RouterAddresses : list string;
}.

(** [resp] is the response's message, or why there is none: its status, its
    body or its encoding. *)
Definition processEnrollResponse (disk : Disk) (now : time) (m : MeshNode) (resp : result EnrollResponse) : result EnrollResponse * MeshNode :=
  match (enrollResp ← resp;
         fail_if (negb (bool_decide (ep_ErrorMessage enrollResp = ""))) "enrollment failed";;
         fail_if (bool_decide (ep_BiscuitToken enrollResp = "")) "received empty biscuit token";;
         fail_if (negb (len (ep_ControlPlanePublicKey enrollResp) =? PublicKeySize)) "received invalid control plane public key size";;
         (if bool_decide (mn_RequiredRole m = "") then Ok tt
          else wrap_err "enrolled biscuit token lacks required role"
                 (VerifyBiscuitRole (ep_BiscuitToken enrollResp) (ep_ControlPlanePublicKey enrollResp) (mn_RequiredRole m)));;
         Ok enrollResp) with
  | Err e => (Err e, m)
  | Ok enrollResp =>
      match adopt_identity disk m (ep_BiscuitToken enrollResp) (ep_ExpireTime enrollResp) with
      | (Err e, m) => (Err e, m)
      | (Ok _, m) =>
          match store_write m (λ b, SaveMeshConfig (disk WriteMeshConfig) now b (ep_ControlPlanePublicKey enrollResp) (ep_RouterAddresses enrollResp)) with
          | (Err e, m) => (Err (WrapError "failed to save mesh config" e), m)
          | (Ok _, m) => (Ok enrollResp, m)
          end
      end
  end.

(** What a registration is given: the clock, the answer under the node's key,
    the key set and the routers that are fetched next, and the outcome of
    joining the routers. *)
Record Registration := {
  rg_now : time;
  rg_answer : result EnrollResponse;
  rg_keys : result KeysResponse;
  rg_info : result InfoResponse;
  rg_admitted : result unit;
}.

Definition enrollHTTP (disk : Disk) (m : MeshNode) (url : string) (r : Registration) : result EnrollResponse * MeshNode :=
  if negb (http_url url) then (Err (NewError "control plane address must be an HTTP or HTTPS URL for enrollment"), m)
  else match processEnrollResponse disk (rg_now r) m (wrap_err "HTTP request failed" (rg_answer r)) with
  | (Err e, m) => (Err e, m)
  | (Ok enrollResp, m) => (Ok enrollResp, adoptEnrolledKeys disk (rg_now r) m (ep_ControlPlanePublicKey enrollResp) (rg_keys r))
  end.

Definition joinRouters resolve (m : MeshNode) (info : result InfoResponse) (addrs : list string) (admitted : result unit) : result unit * MeshNode :=
  let cands := match info with Ok info => candidatesFromInfo resolve (in_Routers info) (in_RouterAddresses info) | Err _ => [] end in
  let cands := if bool_decide (length cands = 0) then candidatesFromAddrs resolve (parseMultiaddrs addrs) else cands in
  if bool_decide (length cands = 0) then (Err (NewError "no router peer behind the addresses"), m)
  else (admitted, with_info m (mn_RouterAddrs m) cands (mn_directory m)).

Definition connectToRouters resolve (m : MeshNode) (r : Registration) (addrs : list string) : result unit * MeshNode :=
  if bool_decide (length addrs = 0)
  then (Err (NewError "failed to connect and authenticate after HTTP enrollment: control plane returned no router addresses"), m)
  else let '(res, m) := joinRouters resolve m (rg_info r) addrs (rg_admitted r) in
       (wrap_err "failed to connect and authenticate with any router after HTTP enrollment" res, m).

Definition Enroll (disk : Disk) resolve (m : MeshNode) (url : string) (r : Registration) : result unit * MeshNode :=
  match enrollHTTP disk m url r with
  | (Err e, m) => (Err e, m)
  | (Ok enrollResp, m) => connectToRouters resolve (node_emit m [ReadmitRouters]) r (ep_RouterAddresses enrollResp)
  end.

(** [jwt] is what the identity provider gives for the stored refresh token. *)
Definition ReEnrollWithRefreshToken (disk : Disk) (m : MeshNode) (jwt : result string) (r : Registration) : result unit * MeshNode :=
  match mn_store m with
  | None => (Err (NewError "node has no store"), m)
  | Some b =>
      match LoadControlPlaneURL b, jwt with
      | Ok url, Ok _ =>
          if bool_decide (url = "") then (Err (NewError "no control plane URL in store"), m)
          else let '(res, m) := enrollHTTP disk m url r in (_ ← res; Ok tt, m)
      | Err _, _ => (Err (NewError "no control plane URL in store"), m)
      | Ok url, Err e => (if bool_decide (url = "") then Err (NewError "no control plane URL in store") else Err e, m)
      end
  end.

(** The first enrollment with a bootstrap token: the key of the answer is
    trusted on first use. *)
Definition EnrollBootstrap (disk : Disk) resolve (now : time) (m : MeshNode) (url : string) (answer : result EnrollAnswer)
    (polls : list (result EnrollAnswer)) (keys : result KeysResponse) (info : result InfoResponse) (admitted : result unit) : result unit * MeshNode :=
  match accept_enrollment now m false answer polls url, enrollBootstrapCredential disk now m false url answer polls keys with
  | Ok resp, (Ok _, m) =>
      if bool_decide (length (be_RouterAddresses resp) = 0)
      then (Err (NewError "failed to connect and authenticate after bootstrap enrollment: control plane returned no router addresses"), m)
      else let '(res, m) := joinRouters resolve m info (be_RouterAddresses resp) admitted in
           (wrap_err "failed to connect/auth with router after bootstrap enrollment" res, m)
  | Err e, (_, m) | Ok _, (Err e, m) => (Err e, m)
  end.

(** What one turn of the renewal loop comes to. *)
Inductive renewal := Renewed | RenewalFailed (e : error) | Exited.

(** A turn of the loop: the credential is refreshed; failing that, the node
    registers with a token from its source, when it has one; failing that, a
    node whose credential has expired exits. *)
Definition renewal_turn (disk : Disk) resolve (now : time) (m : MeshNode) (refresh : result (string * option Timestamp))
    (disk' : Disk) (src : option (result string)) (r : Registration) (after : time) : renewal * MeshNode :=
  let '(refreshErr, m) := RefreshEnrollment disk now m refresh in
  if is_ok refreshErr then (Renewed, m)
  else
    let '(fetchErr, m) :=
      match default (Err (NewError "no token source configured for renewal")) src, mn_store m with
      | Err e, _ => (Err e, m)
      | Ok _, None => (Err (NewError "node has no store"), m)
      | Ok _, Some b =>
          match LoadControlPlaneURL b with
          | Err e => (Err (WrapError "failed to load control plane URL for renewal" e), m)
          | Ok url => Enroll disk' resolve m url r
          end
      end in
    match fetchErr with
    | Ok _ => (Renewed, m)
    | Err e =>
        match mn_store m with
        | Some b =>
            match LoadIdentityExpiration b with
            | Ok exp => if (0 <? exp)%Z && (exp * second <? after)%Z then (Exited, m) else (RenewalFailed e, m)
            | Err _ => (RenewalFailed e, m)
            end
        | None => (RenewalFailed e, m)
        end
    end.

(** A start whose stored credential lacks the role the node runs as: it is
    refreshed, or the node registers with its stored refresh token, and the
    router addresses are read again. *)
Definition start_recovery (disk : Disk) (now : time) (m : MeshNode) (refresh : result (string * option Timestamp))
    (disk' : Disk) (jwt : result string) (r : Registration) : result unit * MeshNode :=
  let '(refreshErr, m) := RefreshEnrollment disk now m refresh in
  let '(res, m) := if is_ok refreshErr then (Ok tt, m) else ReEnrollWithRefreshToken disk' m jwt r in
  match res, mn_store m with
  | Ok _, Some b =>
      (Ok tt, match LoadMeshConfig b with
              | Ok (_, storedAddrs) =>
                  let addrs := parseMultiaddrs storedAddrs in
                  if bool_decide (length addrs = 0) then m else with_info m addrs (mn_catalog m) (mn_directory m)
              | Err _ => m
              end)
  | _, _ => (wrap_err "loaded identity fails role requirement" res, m)
  end.

(** ** Starting *)

(** What a node is started with. *)
Record NodeOptions := {
  no_self : string;
  no_RequiredRole : string;
  no_ControlPlanePubKey : PublicKey;
  no_NodeConfig : option NodeConfig;
  no_RouterAddrs : list maddr;
}.

Definition NewAgentMeshNode (now : time) (o : NodeOptions) (store : option bucket) : MeshNode :=
  let stored := match store with
                | Some b => match LoadTrustedKeys now b with
                            | Ok keys => filter (λ tk, len (tk_Key tk) = PublicKeySize) keys
                            | Err _ => []
                            end
                | None => []
                end in
  let keys := if negb (bool_decide (no_ControlPlanePubKey o = "")) && negb (containsTrustedKey stored (no_ControlPlanePubKey o))
              then stored ++ [{| tk_Key := no_ControlPlanePubKey o; tk_ReceivedAt := now |}] else stored in
  {| mn_node := {| n_revokedPeers := Some ∅; n_revokedTokens := Some ∅; n_trustedKeys := keys; n_nodeConfig := no_NodeConfig o;
                   n_MeshPolicyRules := []; n_cachedIdentity := None; n_storedIdentity := LoadIdentity <$> store |};
     mn_self := no_self o; mn_RequiredRole := no_RequiredRole o; mn_started := false; mn_store := store; mn_authPeers := ∅; mn_opening := ∅;
     mn_peerLastEventTime := ∅; mn_inbox := []; mn_meshPolicyTexts := None; mn_RouterAddrs := no_RouterAddrs o; mn_catalog := [];
     mn_directory := DefaultDirectorySettings; mn_lastReenroll := None; mn_out := [] |}.
End node.
