(* ===== verification/NodeSyncFacts.v ===== *)
(** * Theorems about a node kept in step

    What a history of a node's pulls, events, handshakes and restarts makes
    true of the keys it trusts, the credential it holds, the peers it refuses
    and the peers it relays for. *)

From S2P Require Import Prelude GoStrings Regex Names Biscuit NaiveEngine Facts DatalogText Grants Labels HTTPGrants PolicyRules Egress Base64 Tar Token TokenModel Identity Middleware Directory Keyring KeyringFacts Router RouterFacts Decimal Store NodeStore NodeRouters NodeSync.

Section node.
Context `{UC : UnicodeCase, TC : TARCodec, BT : BiscuitTokens, TX : BiscuitText, BE : BiscuitEngine, PC : PeerCodec, MA : Multiaddr, PB : PeerBytes,
  KC : KeysCodec, ED : Ed25519, EC : EventCodec, CC : CredentialCodec}.

(** ** Histories *)

(** What happens to an enrolled node. *)
Inductive NodeEvent :=
| NReceive (now : time) (msg : result MeshEvent)
| NListen (lru : Lru Z) (disk : Disk) (now : time) (allowed : bool)
| NOpen (p : string) (allowed : bool)
| NFrame (now : time) (p : string) (frame : result (result string))
| NReserve (now : time) (p : string)
| NConnect (now : time) (src dest : string)
| NPrune (disk : Disk) (now : time) (gracePeriod : Z)
| NSync (bans : Lru Z) (revs : Lru time) (resolve : maddr → result (list maddr)) (disk : Disk) (pull : Pull)
    (disk' : Disk) (r : Recovery) (disk'' : Disk) (pull' : Pull)
| NRefresh (disk : Disk) (now : time) (answer : result (string * option Timestamp))
| NRevoke (lru : Lru time) (now : time) (id : string) (expiry : time)
| NRevokeToken (lru : Lru time) (now : time) (token : string) (expiry : time)
| NEnroll (disk : Disk) (resolve : maddr → result (list maddr)) (url : string) (r : Registration)
| NEnrollBootstrap (disk : Disk) (resolve : maddr → result (list maddr)) (now : time) (url : string) (answer : result EnrollAnswer)
    (polls : list (result EnrollAnswer)) (keys : result KeysResponse) (info : result InfoResponse) (admitted : result unit)
| NRenew (disk : Disk) (resolve : maddr → result (list maddr)) (now : time) (refresh : result (string * option Timestamp))
    (disk' : Disk) (src : option (result string)) (r : Registration) (after : time)
| NRecover (disk : Disk) (now : time) (refresh : result (string * option Timestamp)) (disk' : Disk) (jwt : result string) (r : Registration)
| NReEnroll (disk : Disk) (jwt : result string) (r : Registration)
| NStart
| NRestart (now : time) (pubKey : PublicKey) (cfg : option NodeConfig) (addrs : list maddr).

Definition with_started (m : MeshNode) : MeshNode :=
  {| mn_node := mn_node m; mn_self := mn_self m; mn_RequiredRole := mn_RequiredRole m; mn_started := true; mn_store := mn_store m;
     mn_authPeers := mn_authPeers m; mn_opening := mn_opening m; mn_peerLastEventTime := mn_peerLastEventTime m; mn_inbox := mn_inbox m;
     mn_meshPolicyTexts := mn_meshPolicyTexts m; mn_RouterAddrs := mn_RouterAddrs m; mn_catalog := mn_catalog m; mn_directory := mn_directory m;
     mn_lastReenroll := mn_lastReenroll m; mn_out := mn_out m |}.

Definition node_step (m : MeshNode) (ev : NodeEvent) : MeshNode :=
  match ev with
  | NReceive now msg => receive_event now m msg
  | NListen lru disk now allowed => listenForControlPlaneEvents lru disk now m allowed
  | NOpen p allowed => handshake_open m p allowed
  | NFrame now p frame => (handshake_frame now m p frame).2
  | NReserve now p => (node_AllowReserve now m p).2
  | NConnect now src dest => (node_AllowConnect now m src dest).2
  | NPrune disk now grace => startKeyPruning disk now grace m
  | NSync bans revs resolve disk pull disk' r disk'' pull' => (SyncControlPlane bans revs resolve m disk pull disk' r disk'' pull').2
  | NRefresh disk now answer => (RefreshEnrollment disk now m answer).2
  | NRevoke lru now id expiry => with_node m (node_RevokeBiscuitID lru now (mn_node m) id expiry)
  | NRevokeToken lru now token expiry => with_node m (node_RevokeBiscuitToken lru now (mn_node m) token expiry).2
  | NEnroll disk resolve url r => (Enroll disk resolve m url r).2
  | NEnrollBootstrap disk resolve now url answer polls keys info admitted =>
      (EnrollBootstrap disk resolve now m url answer polls keys info admitted).2
  | NRenew disk resolve now refresh disk' src r after => (renewal_turn disk resolve now m refresh disk' src r after).2
  | NRecover disk now refresh disk' jwt r => (start_recovery disk now m refresh disk' jwt r).2
  | NReEnroll disk jwt r => (ReEnrollWithRefreshToken disk m jwt r).2
  | NStart => with_started m
  | NRestart now pubKey cfg addrs =>
      NewAgentMeshNode now {| no_self := mn_self m; no_RequiredRole := mn_RequiredRole m; no_ControlPlanePubKey := pubKey; no_NodeConfig := cfg;
                              no_RouterAddrs := addrs |} (mn_store m)
  end.

Definition node_run (m : MeshNode) (evs : list NodeEvent) : MeshNode := foldl node_step m evs.

(** ** The chain of trust *)

(** The lists of keys and the events that an event brings. *)
Definition heard_keys (ev : NodeEvent) : list KeysResponse :=
  omap (λ a, match a with Ok resp => Some resp | Err _ => None end)
    match ev with
    | NSync _ _ _ _ pull _ r _ pull' => [pl_keys pull; rc_keys r; pl_keys pull']
    | NEnroll _ _ _ r | NRenew _ _ _ _ _ _ r _ | NRecover _ _ _ _ _ r | NReEnroll _ _ r => [rg_keys r]
    | NEnrollBootstrap _ _ _ _ _ _ keys _ _ => [keys]
    | _ => []
    end.
Definition heard_events (ev : NodeEvent) : list MeshEvent := match ev with NReceive _ (Ok e) => [e] | _ => [] end.

(** The answers to an enrollment that an event brings: the control plane key and
    the credential that each names.  A node registers with a token of the
    identity provider on the operator's word ([Enroll]), when its renewal loop or
    its start cannot refresh its credential and such a token is to be had, and
    with a bootstrap token once ([EnrollBootstrap]); recovering from a control
    plane that forgot it is not among them. *)
Definition enrollment_answers (ev : NodeEvent) : list (PublicKey * string) :=
  let registered r := match rg_answer r with Ok resp => [(ep_ControlPlanePublicKey resp, ep_BiscuitToken resp)] | Err _ => [] end in
  match ev with
  | NEnroll _ _ _ r | NRenew _ _ _ _ _ (Some (Ok _)) r _ | NRecover _ _ _ _ (Ok _) r | NReEnroll _ (Ok _) r => registered r
  | NEnrollBootstrap _ _ _ _ answer polls _ _ _ =>
      omap (λ a, match a with Ok resp => Some (be_ControlPlanePublicKey resp, be_BiscuitToken resp) | Err _ => None end) (answer :: polls)
  | _ => []
  end.

(** In [ev], [signer] signs what names [k]: a list of keys with [k], or a
    rotation to [k]. *)
Definition names_key (ev : NodeEvent) (signer k : PublicKey) : Prop :=
  (∃ resp payload sig, resp ∈ heard_keys ev ∧ KeysResponsePayload resp = Ok payload ∧ k ∈ kres_PublicKeys resp ∧
     (signer, sig) ∈ zip (kres_PublicKeys resp) (kres_Signatures resp) ∧ ed_Verify signer payload sig = true) ∨
  (∃ e data, e ∈ heard_events ev ∧ me_Type e = KEY_ROTATION ∧ me_NewPublicKey e = k ∧
     marshal_event (me_Type e) (me_PeerId e) (me_EventTime e) (me_NewPublicKey e) = Ok data ∧ ed_Verify signer data (me_Signature e) = true).

(** A key of [root], or one that such a key vouched for in the history, in some
    steps. *)
Inductive vouched (root : PublicKey → Prop) (evs : list NodeEvent) : PublicKey → Prop :=
| vouched_root k : root k → vouched root evs k
| vouched_by ev signer k : ev ∈ evs → vouched root evs signer → names_key ev signer k → vouched root evs k.

(** What the invariant is about. *)
Definition trust_view (m : MeshNode) :=
  (n_trustedKeys (mn_node m), n_cachedIdentity (mn_node m), n_storedIdentity (mn_node m), mn_store m, mn_inbox m, mn_self m, mn_RequiredRole m).

Section invariant.
Context (V : PublicKey → Prop) (E : MeshEvent → Prop) (T : string → Prop) (self role : string) (restarted : Prop).

(** The credential on disk names only such keys and holds such a token. *)
Definition credential_ok (c : MemberCredential) : Prop :=
  (∀ k, k ∈ sk_PublicKey <$> mc_TrustedKeys c → V k) ∧ (mc_Biscuit c ≠ "" → T (mc_Biscuit c)).

Definition bucket_ok (b : bucket) : Prop := ∀ c, getCredential b = Ok c → credential_ok c.

Definition view_ok '(keys, cached, stored, store, inbox, s, r) : Prop :=
  Forall (λ tk, V (tk_Key tk)) keys ∧
  (∀ tok, cached = Some tok → tok ≠ "" → T tok) ∧
  stored = LoadIdentity <$> store ∧
  (∀ b, store = Some b → bucket_ok b) ∧
  Forall E inbox ∧
  s = self ∧ r = role ∧ (restarted ∨ keys ≠ []).

Definition trust_ok (m : MeshNode) : Prop := view_ok (trust_view m).

(** The tokens that the node may hold are those it verifies for itself. *)
Hypothesis T_own : ∀ now m tok, Forall (λ tk, V (tk_Key tk)) (n_trustedKeys (mn_node m)) → mn_self m = self → mn_RequiredRole m = role →
  node_verifyOwnBiscuit now m tok = Ok tt → T tok.

(** An event that waits and rotates the keys names such a key. *)
Hypothesis E_rotation : ∀ e, E e → me_Type e = KEY_ROTATION → V (me_NewPublicKey e).

Lemma trust_ok_view m m' : trust_view m' = trust_view m → trust_ok m → trust_ok m'.
Proof. unfold trust_ok. by intros ->. Qed.

Lemma bucket_ok_update commit b fn r b' : update commit b fn = (r, b') → (∀ c, credential_ok c → credential_ok (fn c)) → bucket_ok b → bucket_ok b'.
Proof.
  intros Hu Hfn Hb c' Hc'. apply update_cases in Hu as [(_ & c & Hc & Hg & _)|(_ & ->)]; [|by apply Hb].
  rewrite Hg in Hc'. injection Hc' as <-. by apply Hfn, Hb.
Qed.

Lemma store_write_ok m (save : bucket → result unit * bucket) r m' :
  store_write m save = (r, m') → (∀ b, mn_store m = Some b → bucket_ok b → bucket_ok (save b).2) → trust_ok m → trust_ok m'.
Proof.
  unfold store_write. destruct (mn_store m) as [b|] eqn:Eb; [|by intros [= _ <-]]. destruct (save b) as [r0 b'] eqn:Es. intros [= _ <-] Hs Hok.
  specialize (Hs b eq_refl). rewrite Es in Hs. unfold trust_ok, trust_view in *. rewrite Eb in Hok. simpl in *.
  destruct Hok as (Hk & Hc & _ & Hst & Hi & Hself & Hrole & Hne). split_and!; try done. intros b0 [= <-]. apply Hs, Hst. done.
Qed.

Lemma store_write_rest m (save : bucket → result unit * bucket) :
  mn_node (store_write m save).2 = set_storedIdentity (mn_node m) (n_storedIdentity (mn_node (store_write m save).2)) ∧
  mn_self (store_write m save).2 = mn_self m ∧ mn_RequiredRole (store_write m save).2 = mn_RequiredRole m.
Proof. unfold store_write. destruct (mn_store m) as [b|]; [|by destruct m as [[]]]. destruct (save b). by destruct m as [[]]. Qed.

Lemma set_keys_ok m keys : Forall (λ tk, V (tk_Key tk)) keys → restarted ∨ keys ≠ [] → trust_ok m → trust_ok (with_node m (set_trustedKeys (mn_node m) keys)).
Proof. unfold trust_ok, trust_view. simpl. tauto. Qed.

Lemma persist_ok commit m keys : Forall (λ tk, V (tk_Key tk)) keys → trust_ok m → trust_ok (persistTrustedKeys commit m keys).
Proof.
  intros Hk. unfold persistTrustedKeys. destruct (store_write _ _) as [r m'] eqn:Es. apply (store_write_ok _ _ _ _ Es). intros b _.
  unfold SaveTrustedKeys. destruct (update _ _ _) as [r0 b'] eqn:Eu. apply (bucket_ok_update _ _ _ _ _ Eu). intros c [_ HT]. split; [|done].
  intros k. unfold set_TrustedKeys. cbn [mc_TrustedKeys]. unfold trustedKeysToProto. rewrite <-list_fmap_compose.
  intros (tk & -> & Htk)%list_elem_of_fmap. rewrite Forall_forall in Hk. by apply Hk.
Qed.

Lemma addTrustedKey_ok commit now m key : V key → trust_ok m → trust_ok (node_addTrustedKey commit now m key).
Proof.
  intros HV Hok. unfold node_addTrustedKey. destruct (containsTrustedKey _ key); [done|].
  assert (Forall (λ tk, V (tk_Key tk)) (n_trustedKeys (mn_node m) ++ [{| tk_Key := key; tk_ReceivedAt := now |}])).
  { apply Forall_app. split; [apply Hok|by apply Forall_singleton]. }
  apply persist_ok; [done|]. apply set_keys_ok; [done| |done]. right. by destruct (n_trustedKeys (mn_node m)).
Qed.

(** A signed list brings only such keys. *)
Definition list_ok (answer : result KeysResponse) : Prop := ∀ resp payload signer sig k,
  answer = Ok resp → KeysResponsePayload resp = Ok payload → V signer → (signer, sig) ∈ zip (kres_PublicKeys resp) (kres_Signatures resp) →
  ed_Verify signer payload sig = true → k ∈ kres_PublicKeys resp → V k.

Lemma syncTrustedKeys_keys existing answer now merged : syncTrustedKeys existing answer now = Ok merged →
  merged ≠ [] ∧ ∃ resp, answer = Ok resp ∧ publicKeysOf merged = kres_PublicKeys resp ∧
    VerifyKeysResponse resp (publicKeysOf existing) now = Ok (kres_PublicKeys resp).
Proof.
  unfold syncTrustedKeys. intros [_ (keys & Hf & [Hne Hm]%bind_unit_Ok)%bind_Ok]%bind_unit_Ok. apply (inj Ok) in Hm. subst merged.
  apply fail_if_Ok, bool_decide_eq_false in Hne. split.
  { intros Heq%fmap_nil_inv. by subst. }
  unfold FetchKeys in Hf. apply bind_Ok in Hf as (resp & -> & Hv%wrap_err_Ok). pose proof Hv as (-> & _)%VerifyKeysResponse_sound.
  exists resp. split_and!; [done| |done]. unfold publicKeysOf, mergeTrustedKeys. rewrite <-list_fmap_compose. apply list_fmap_id.
Qed.

Lemma syncTrustedKeys_ok commit now m answer : list_ok answer → trust_ok m → trust_ok (node_syncTrustedKeys commit now m answer).2.
Proof.
  intros Hl Hok. unfold node_syncTrustedKeys. destruct (syncTrustedKeys _ answer now) as [merged|] eqn:Es; [|done].
  apply syncTrustedKeys_keys in Es as (Hne & resp & -> & Hkeys & Hv).
  apply VerifyKeysResponse_sound in Hv as (_ & _ & payload & signer & sig & Hp & Hz & Ht & Hver).
  assert (V signer) as HVs.
  { apply list_elem_of_fmap in Ht as (tk & -> & Htk). destruct Hok as [Hk _]. rewrite Forall_forall in Hk. by apply Hk. }
  assert (Forall (λ tk, V (tk_Key tk)) merged); [|apply persist_ok, set_keys_ok; [done..|by right|done]].
  rewrite Forall_forall. intros tk Htk. eapply (Hl resp payload signer sig); try done. rewrite <-Hkeys. by apply list_elem_of_fmap_2.
Qed.

Lemma recordIdentityKeySet_ok disk m : trust_ok m → trust_ok (recordIdentityKeySet disk m).
Proof.
  unfold recordIdentityKeySet. destruct (store_write _ _) as [r m'] eqn:Es. apply (store_write_ok _ _ _ _ Es). intros b _.
  unfold SaveIdentityKeySet. destruct (update _ _ _) as [r0 b'] eqn:Eu. by apply (bucket_ok_update _ _ _ _ _ Eu).
Qed.

Lemma adopt_identity_ok disk m token exp : T token → trust_ok m → trust_ok (adopt_identity disk m token exp).2.
Proof.
  intros HT Hok. unfold adopt_identity. destruct (store_write m _) as [r m1] eqn:E1.
  assert (trust_ok m1) as Hok1.
  { apply (store_write_ok _ _ _ _ E1); [|done]. intros b _. unfold SaveIdentity. destruct (update _ _ _) as [r0 b'] eqn:Eu.
    apply (bucket_ok_update _ _ _ _ _ Eu). intros c [Hk _]. by split. }
  destruct r as [[]|e]; [|done]. assert (trust_ok (SetIdentityCache m1 token)) as Hok2.
  { unfold SetIdentityCache. case_bool_decide; simpl; [done|]. unfold trust_ok, trust_view in *. simpl in *.
    destruct Hok1 as (? & ? & ? & ? & ? & ?). split_and!; try done; try tauto. by intros tok [= <-]. }
  destruct (store_write (SetIdentityCache m1 token) _) as [r2 m2] eqn:E2. apply (store_write_ok _ _ _ _ E2); [|done]. intros b _.
  unfold SaveIdentityExpiration. destruct (update _ _ _) as [r0 b'] eqn:Eu. by apply (bucket_ok_update _ _ _ _ _ Eu).
Qed.

Lemma RefreshEnrollment_ok disk now m answer : trust_ok m → trust_ok (RefreshEnrollment disk now m answer).2.
Proof.
  intros Hok. unfold RefreshEnrollment. destruct (mn_store m) as [b|]; [|done].
  destruct (_ ;; _) as [[token exp]|e] eqn:Ev; [|done]. apply bind_Ok in Ev as (old & _ & Ev).
  apply bind_Ok in Ev as (url & _ & Ev). rewrite bind_unit_Ok in Ev. destruct Ev as [_ Ev]. apply bind_Ok in Ev as (resp & _ & Ev).
  rewrite bind_unit_Ok, wrap_err_Ok in Ev. destruct Ev as [Hv Heq]. apply (inj Ok) in Heq. subst resp. cbn [fst] in Hv.
  assert (T token) as HT by (eapply T_own; [..|exact Hv]; apply Hok).
  pose proof (adopt_identity_ok disk m token exp HT Hok) as Hok'. destruct (adopt_identity disk m token exp) as [[[]|e] m']; [|done].
  cbn [snd] in *. eapply trust_ok_view; [|by apply recordIdentityKeySet_ok]. done.
Qed.

Lemma banPeer_view lru m p t : trust_view (banPeer lru m p t) = trust_view m.
Proof. unfold banPeer. destruct (n_revokedPeers (mn_node m)), (mn_started _); done. Qed.

Lemma reconcile_view lru m ids fetchedAt : trust_view (node_reconcileBannedPeers lru m ids fetchedAt) = trust_view m.
Proof.
  unfold node_reconcileBannedPeers. destruct (n_revokedPeers (mn_node m)) as [cache|]; [|done].
  set (m0 := with_node m _). trans (trust_view m0); [|done]. generalize m0. clear m0.
  induction (remove_dups (decode_peers ids)) as [|p l IH]; intros m0; simpl; [done|]. rewrite IH. unfold ban_listed.
  destruct (peer_revoked _ p); [done|]. apply banPeer_view.
Qed.

Lemma identity_of_ok m : trust_ok m → trust_ok (identity_of m).2.
Proof.
  intros Hok. unfold identity_of, GetIdentity.
  assert (trust_ok (let '(b, n) := match n_storedIdentity (mn_node m) with
    | Some (Ok biscuitBytes) => if negb (bool_decide (biscuitBytes = "")) then (Some biscuitBytes, set_cachedIdentity (mn_node m) biscuitBytes) else (None, mn_node m)
    | _ => (None, mn_node m) end in (b, with_node m n)).2) as Hload.
  { destruct (n_storedIdentity (mn_node m)) as [[tok|]|] eqn:Es; [|done..]. case_bool_decide as Ht; simpl; [done|].
    unfold trust_ok, trust_view in *. simpl in *. destruct Hok as (Hk & Hc & Hst & Hb & Hrest). rewrite Es in Hst.
    split_and!; try done; try apply Hrest; [|congruence]. intros tok' [= <-] _.
    destruct (mn_store m) as [b|]; [|done]. simpl in Hst. injection Hst as Hst. unfold LoadIdentity, view in Hst. symmetry in Hst.
    apply bind_Ok in Hst as (val & (c & Hg & Heq)%bind_Ok & Hst). injection Heq as <-. apply bind_unit_Ok in Hst as [_ Hst].
    injection Hst as <-. by apply (Hb b eq_refl c). }
  destruct (n_cachedIdentity (mn_node m)) as [b|]; [|done]. case_bool_decide; simpl; [|done]. done.
Qed.

Lemma identity_of_store m : mn_store (identity_of m).2 = mn_store m.
Proof. unfold identity_of. by destruct (GetIdentity (mn_node m)). Qed.

Lemma seed_ok now k c : V k → credential_ok c → credential_ok (seed_key now k c).
Proof.
  intros Hk [HV HT]. split; [|by rewrite (proj1 (proj2 (seed_key_rest now k c)))]. intros x [Hx| ->]%seed_key_keys; [by apply HV|done].
Qed.

Lemma SaveMeshConfig_ok commit now m k addrs r m' :
  V k → store_write m (λ b, SaveMeshConfig commit now b k addrs) = (r, m') → trust_ok m → trust_ok m'.
Proof.
  intros HV Es. apply (store_write_ok _ _ _ _ Es). intros b _. unfold SaveMeshConfig. destruct (update _ _ _) as [r0 b'] eqn:Eu.
  apply (bucket_ok_update _ _ _ _ _ Eu). intros c Hc. by apply seed_ok.
Qed.

Lemma adopt_routers_ok commit now resolve m info : trust_ok m → trust_ok (adopt_routers commit now resolve m info).
Proof.
  intros Hok. unfold adopt_routers. destruct (bool_decide _ && _); [done|]. cbv zeta.
  match goal with |- trust_ok (with_info ?m1 _ _ _) => apply (trust_ok_view m1); [done|] end.
  destruct (mn_store m) as [b|] eqn:Eb; [|done]. destruct (LoadMeshConfig b) as [[pubKey addrs]|] eqn:El; [|done].
  case_bool_decide as Hne; simpl; [done|]. destruct (store_write m _) as [r m'] eqn:Es. simpl. eapply SaveMeshConfig_ok; [|exact Es|done].
  unfold LoadMeshConfig, view in El. apply bind_Ok in El as (c & Hg & Heq). injection Heq as Hpk _.
  destruct Hok as (_ & _ & _ & Hb & _). destruct (Hb b Eb c Hg) as [HV _]. destruct (mc_TrustedKeys c) as [|sk l]; [done|]. subst. apply HV. by left.
Qed.

Lemma syncMeshInfo_ok lru disk fetchedAt resolve m answer : trust_ok m → trust_ok (syncMeshInfo lru disk fetchedAt resolve m answer).2.
Proof.
  intros Hok. unfold syncMeshInfo. destruct answer as [info|]; [|done]. cbn [snd]. eapply trust_ok_view; [apply reconcile_view|].
  eapply trust_ok_view; [|by apply adopt_routers_ok]. done.
Qed.

Lemma syncMeshPolicy_ok m answer : trust_ok m → trust_ok (syncMeshPolicy m answer).2.
Proof.
  intros Hok. unfold syncMeshPolicy. destruct (mn_store m) as [b|]; [|done]. destruct (negb _); [done|].
  pose proof (identity_of_ok m Hok) as Hok'. destruct (identity_of m) as [[tok|] m']; [|done].
  destruct (_ ← _ ; _) as [[rules texts]|]; [|done]. cbn [snd]. eapply trust_ok_view; [|exact Hok'].
  destruct (match mn_meshPolicyTexts m' with Some _ => _ | None => _ end); done.
Qed.

Lemma RevokeBiscuitID_view lru now m id expiry n :
  trust_view (with_node m (node_RevokeBiscuitID lru now n id expiry)) = trust_view (with_node m n).
Proof. unfold node_RevokeBiscuitID. by case_bool_decide. Qed.

Lemma revokes_view lru now m ids expiry n :
  trust_view (with_node m (foldl (λ n id, node_RevokeBiscuitID lru now n id expiry) n ids)) = trust_view (with_node m n).
Proof. revert n. induction ids as [|id ids IH]; intros n; simpl; [done|]. by rewrite IH, RevokeBiscuitID_view. Qed.

Lemma syncRevocations_ok bans revs fetchedAt m answer : trust_ok m → trust_ok (syncRevocations bans revs fetchedAt m answer).2.
Proof.
  intros Hok. unfold syncRevocations. pose proof (identity_of_ok m Hok) as Hok'. destruct (identity_of m) as [[tok|] m']; [|done].
  cbn [snd] in Hok'. destruct answer as [resp|e]; [|done]. cbn [snd]. cbv zeta.
  assert (trust_ok (with_node m' (foldl (λ n revID, node_RevokeBiscuitID revs fetchedAt n revID (fetchedAt + 24 * 3600 * second)%Z) (mn_node m') (rv_RevocationIds resp)))) as Hr.
  { eapply trust_ok_view; [apply revokes_view|]. eapply trust_ok_view; [|exact Hok']. done. }
  case_bool_decide; [done|]. eapply trust_ok_view; [apply reconcile_view|done].
Qed.

Lemma syncControlPlaneOnce_ok bans revs disk resolve m pull :
  list_ok (pl_keys pull) → trust_ok m → trust_ok (syncControlPlaneOnce bans revs disk resolve m pull).2.
Proof.
  intros Hl Hok. unfold syncControlPlaneOnce. destruct (mn_store m) as [b|]; [|done]. destruct (negb _); [done|].
  pose proof (syncTrustedKeys_ok (disk WriteTrustedKeys) (pl_keysAt pull) m _ Hl Hok) as Hok1.
  destruct (node_syncTrustedKeys _ _ m _) as [keys m1]. cbn [snd] in Hok1.
  assert (trust_ok (if is_ok keys && identityPredatesRotation m1 then RefreshEnrollment disk (pl_refreshAt pull) m1 (pl_refresh pull) else (Ok tt, m1)).2) as Hok2.
  { destruct (is_ok keys && _); [by apply RefreshEnrollment_ok|done]. }
  destruct (if is_ok keys && _ then _ else _) as [refresh m2]. cbn [snd] in Hok2.
  pose proof (syncMeshInfo_ok bans disk (pl_infoAt pull) resolve m2 (pl_info pull) Hok2) as Hok3. destruct (syncMeshInfo _ _ _ _ m2 _) as [info m3].
  pose proof (syncMeshPolicy_ok m3 (pl_policy pull) Hok3) as Hok4. destruct (syncMeshPolicy m3 _) as [policy m4].
  pose proof (syncRevocations_ok bans revs (pl_revocationsAt pull) m4 (pl_revocations pull) Hok4) as Hok5. by destruct (syncRevocations _ _ _ m4 _) as [revocations m5].
Qed.

Lemma accept_trusted now m answer polls url resp : accept_enrollment now m true answer polls url = Ok resp →
  be_ControlPlanePublicKey resp ∈ getTrustedPublicKeys m ∧ node_verifyOwnBiscuit now m (be_BiscuitToken resp) = Ok tt.
Proof.
  unfold accept_enrollment. rewrite bind_unit_Ok. intros (_ & (r0 & _ & Ha)%bind_Ok). rewrite bind_unit_Ok in Ha. destruct Ha as [_ Ha].
  apply bind_Ok in Ha as (r1 & _ & Ha). rewrite !bind_unit_Ok, wrap_err_Ok in Ha.
  destruct Ha as (_ & _ & [Ht%fail_if_Ok%negb_false_iff Hv] & Heq). apply (inj Ok) in Heq. subst r1. split; [|done].
  unfold isTrustedKey in Ht. apply existsb_exists in Ht as (k & Hk & ->%bool_decide_eq_true). by apply list_elem_of_In.
Qed.

Lemma enroll_trusted_ok disk now m url answer polls keys : list_ok keys → trust_ok m →
  trust_ok (enrollBootstrapCredential disk now m true url answer polls keys).2.
Proof.
  intros Hl Hok. unfold enrollBootstrapCredential. destruct (accept_enrollment _ _ _ _ _ _) as [resp|] eqn:Ea; [|done].
  apply accept_trusted in Ea as [Hk Hv]. assert (V (be_ControlPlanePublicKey resp)) as HV.
  { apply list_elem_of_fmap in Hk as (tk & -> & Htk). destruct Hok as [HF _]. rewrite Forall_forall in HF. by apply HF. }
  assert (T (be_BiscuitToken resp)) as HT by (eapply T_own; [..|exact Hv]; apply Hok).
  pose proof (adopt_identity_ok disk m _ (be_ExpireTime resp) HT Hok) as Hok1. destruct (adopt_identity _ _ _ _) as [[[]|] m1]; [|done].
  cbn [snd] in Hok1. destruct (store_write m1 _) as [r m2] eqn:Es. pose proof (SaveMeshConfig_ok _ _ _ _ _ _ _ HV Es Hok1) as Hok2.
  destruct r; [|done]. cbn [snd]. apply recordIdentityKeySet_ok, syncTrustedKeys_ok; [done|]. by apply addTrustedKey_ok.
Qed.

(** *** Enrollments that trust on first use *)

Definition register_ok (r : Registration) : Prop :=
  list_ok (rg_keys r) ∧ ∀ resp, rg_answer r = Ok resp → V (ep_ControlPlanePublicKey resp) ∧ T (ep_BiscuitToken resp).

Lemma adoptEnrolledKeys_ok disk now m newest keys : V newest → list_ok keys → trust_ok m → trust_ok (adoptEnrolledKeys disk now m newest keys).
Proof. intros HV Hl Hok. apply recordIdentityKeySet_ok, syncTrustedKeys_ok; [done|]. by apply addTrustedKey_ok. Qed.

Lemma enrollHTTP_ok disk m url r : register_ok r → trust_ok m → trust_ok (enrollHTTP disk m url r).2.
Proof.
  intros [Hl Hr] Hok. unfold enrollHTTP. destruct (negb _); [done|]. unfold processEnrollResponse.
  destruct (resp ← _; _) as [resp|] eqn:Ea; [|done].
  assert (rg_answer r = Ok resp) as Hresp.
  { apply bind_Ok in Ea as (r0 & Ha%wrap_err_Ok & Ea). rewrite !bind_unit_Ok in Ea. destruct Ea as (_ & _ & _ & _ & Heq). by injection Heq as <-. }
  destruct (Hr resp Hresp) as [HV HT].
  pose proof (adopt_identity_ok disk m _ (ep_ExpireTime resp) HT Hok) as Hok1. destruct (adopt_identity _ _ _ _) as [[[]|] m1]; [|done].
  cbn [snd] in Hok1. destruct (store_write m1 _) as [[[]|] m2] eqn:Es; pose proof (SaveMeshConfig_ok _ _ _ _ _ _ _ HV Es Hok1) as Hok2; [|done].
  cbn [snd]. by apply adoptEnrolledKeys_ok.
Qed.

Lemma joinRouters_view resolve m info addrs admitted : trust_view (joinRouters resolve m info addrs admitted).2 = trust_view m.
Proof. unfold joinRouters. by destruct (bool_decide (length _ = 0)). Qed.

Lemma Enroll_ok disk resolve m url r : register_ok r → trust_ok m → trust_ok (Enroll disk resolve m url r).2.
Proof.
  intros Hr Hok. unfold Enroll. pose proof (enrollHTTP_ok disk m url r Hr Hok) as Hok1. destruct (enrollHTTP disk m url r) as [[resp|] m1]; [|done].
  unfold connectToRouters. case_bool_decide; [done|]. pose proof (joinRouters_view resolve (node_emit m1 [ReadmitRouters]) (rg_info r)
    (ep_RouterAddresses resp) (rg_admitted r)) as Hv. destruct (joinRouters _ _ _ _ _) as [res m2]. by eapply trust_ok_view, Hok1.
Qed.

Lemma ReEnroll_ok disk m jwt r : (is_ok jwt = true → register_ok r) → trust_ok m → trust_ok (ReEnrollWithRefreshToken disk m jwt r).2.
Proof.
  intros Hr Hok. unfold ReEnrollWithRefreshToken. destruct (mn_store m) as [b|]; [|done]. destruct (LoadControlPlaneURL b) as [url|]; [|done].
  destruct jwt as [jwt|]; [|done]. case_bool_decide; [done|]. pose proof (enrollHTTP_ok disk m url r (Hr eq_refl) Hok) as Hok1.
  by destruct (enrollHTTP disk m url r).
Qed.

Lemma renewal_turn_ok disk resolve now m refresh disk' src r after :
  (∀ jwt, src = Some (Ok jwt) → register_ok r) → trust_ok m → trust_ok (renewal_turn disk resolve now m refresh disk' src r after).2.
Proof.
  intros Hr Hok. unfold renewal_turn. pose proof (RefreshEnrollment_ok disk now m refresh Hok) as Hok1.
  destruct (RefreshEnrollment disk now m refresh) as [res m1]. cbn [snd] in Hok1. destruct (is_ok res); [done|].
  set (step := match default _ src, mn_store m1 with Ok _, Some b => _ | _, _ => _ end).
  assert (trust_ok step.2) as Hok2.
  { subst step. destruct src as [[jwt|]|]; cbn [default from_option id]; [|done..]. destruct (mn_store m1) as [b|]; [|done].
    destruct (LoadControlPlaneURL b) as [url|]; [|done]. apply Enroll_ok; [by eapply Hr|done]. }
  destruct step as [fetchErr m2]. cbn [snd] in Hok2. destruct fetchErr; [done|]. destruct (mn_store m2) as [b|]; [|done].
  destruct (LoadIdentityExpiration b) as [exp|]; [|done]. by destruct (_ && _).
Qed.

Lemma start_recovery_ok disk now m refresh disk' jwt r :
  (is_ok jwt = true → register_ok r) → trust_ok m → trust_ok (start_recovery disk now m refresh disk' jwt r).2.
Proof.
  intros Hr Hok. unfold start_recovery. pose proof (RefreshEnrollment_ok disk now m refresh Hok) as Hok1.
  destruct (RefreshEnrollment disk now m refresh) as [res m1]. cbn [snd] in Hok1.
  assert (trust_ok (if is_ok res then (Ok tt, m1) else ReEnrollWithRefreshToken disk' m1 jwt r).2) as Hok2.
  { destruct (is_ok res); [done|by apply ReEnroll_ok]. }
  destruct (if is_ok res then _ else _) as [res2 m2]. cbn [snd] in Hok2. destruct res2; [|done]. destruct (mn_store m2) as [b|]; [|done]. cbn [snd].
  destruct (LoadMeshConfig b) as [[pubKey addrs]|]; [|done]. case_bool_decide; [done|]. by eapply trust_ok_view, Hok2.
Qed.

(** The answer that is taken is one that came. *)
Lemma poll_status_in polls resp : poll_status polls = Ok resp → Ok resp ∈ polls.
Proof.
  induction polls as [|[r|] polls IH]; simpl; [done| |by right; apply IH]. case_bool_decide; simpl; [|done].
  destruct (be_Status r); first [done|by right; apply IH|by intros [= ->]; left].
Qed.

Lemma accept_in now m trustedOnly answer polls url resp :
  accept_enrollment now m trustedOnly answer polls url = Ok resp → Ok resp ∈ answer :: polls.
Proof.
  unfold accept_enrollment. rewrite bind_unit_Ok. intros (_ & (r0 & -> & Ha)%bind_Ok). rewrite bind_unit_Ok in Ha. destruct Ha as [_ Ha].
  apply bind_Ok in Ha as (r1 & H1 & Ha). rewrite !bind_unit_Ok in Ha. destruct Ha as (_ & _ & _ & Heq). injection Heq as ->.
  destruct (be_Status r0); try (injection H1 as ->; by left). right. by apply poll_status_in.
Qed.

Lemma EnrollBootstrap_ok disk resolve now m url answer polls keys info admitted :
  list_ok keys → (∀ resp, Ok resp ∈ answer :: polls → V (be_ControlPlanePublicKey resp) ∧ T (be_BiscuitToken resp)) → trust_ok m →
  trust_ok (EnrollBootstrap disk resolve now m url answer polls keys info admitted).2.
Proof.
  intros Hl Hr Hok. unfold EnrollBootstrap, enrollBootstrapCredential.
  destruct (accept_enrollment now m false answer polls url) as [resp|] eqn:Ea; [|done].
  destruct (Hr resp (accept_in _ _ _ _ _ _ _ Ea)) as [HV HT].
  pose proof (adopt_identity_ok disk m _ (be_ExpireTime resp) HT Hok) as Hok1. destruct (adopt_identity _ _ _ _) as [[[]|] m1]; [|done].
  cbn [snd] in Hok1. destruct (store_write m1 _) as [[[]|] m2] eqn:Es; pose proof (SaveMeshConfig_ok _ _ _ _ _ _ _ HV Es Hok1) as Hok2; [|done].
  pose proof (adoptEnrolledKeys_ok disk now m2 _ keys HV Hl Hok2) as Hok3. case_bool_decide; [done|].
  pose proof (joinRouters_view resolve (adoptEnrolledKeys disk now m2 (be_ControlPlanePublicKey resp) keys) info (be_RouterAddresses resp) admitted) as Hv.
  destruct (joinRouters _ _ _ _ _) as [res m3]. by eapply trust_ok_view, Hok3.
Qed.

Lemma SyncControlPlane_ok bans revs resolve m disk pull disk' r disk'' pull' :
  list_ok (pl_keys pull) → list_ok (rc_keys r) → list_ok (pl_keys pull') → trust_ok m →
  trust_ok (SyncControlPlane bans revs resolve m disk pull disk' r disk'' pull').2.
Proof.
  intros H1 H2 H3 Hok. unfold SyncControlPlane. pose proof (syncControlPlaneOnce_ok bans revs disk resolve m pull H1 Hok) as Hok1.
  destruct (syncControlPlaneOnce bans revs disk resolve m pull) as [[[]|e] m1]; [done|]. cbn [snd] in Hok1.
  destruct (controlPlaneForgotUs e); [|done].
  assert (trust_ok (recoverEnrollment disk' m1 r).2) as Hok2.
  { unfold recoverEnrollment. destruct (rc_token r) as [token|]; [|done]. destruct (match mn_lastReenroll m1 with Some _ => _ | None => _ end); [done|].
    assert (trust_ok (with_reenroll m1 (Some (rc_now r)))) as Hok1' by (eapply trust_ok_view; [|exact Hok1]; done).
    destruct token; [|done]. destruct (mn_store _) as [b|]; [|done]. destruct (LoadControlPlaneURL b) as [url|]; [|done].
    pose proof (enroll_trusted_ok disk' (rc_now r) _ url (rc_answer r) (rc_polls r) _ H2 Hok1') as Hok2.
    by destruct (enrollBootstrapCredential _ _ _ _ _ _ _ _). }
  destruct (recoverEnrollment disk' m1 r) as [[] m2]; [|done]. by apply syncControlPlaneOnce_ok.
Qed.

Lemma restart_ok now pubKey cfg addrs m :
  restarted → (pubKey ≠ "" → V pubKey) → trust_ok m → trust_ok (node_step m (NRestart now pubKey cfg addrs)).
Proof.
  intros HR HV (_ & _ & _ & Hb & _ & Hself & Hrole & _). unfold trust_ok, trust_view. cbn. split_and!; try done; try (by left).
  set (stored := match mn_store m with Some b => _ | None => [] end).
  assert (Forall (λ tk, V (tk_Key tk)) stored) as Hst.
  { subst stored. destruct (mn_store m) as [b|]; [|done]. destruct (LoadTrustedKeys now b) as [keys|] eqn:El; [|done].
    unfold LoadTrustedKeys, view in El. apply bind_Ok in El as (c & Hg & Heq). injection Heq as <-.
    destruct (Hb b eq_refl c Hg) as [Hk _]. rewrite Forall_forall. intros tk [_ Htk]%list_elem_of_filter.
    apply list_elem_of_fmap in Htk as (sk & -> & Hsk). cbn [tk_Key]. apply Hk. by apply list_elem_of_fmap_2. }
  case_bool_decide as Hp; cbn [negb andb]; [done|]. destruct (negb _); [|done]. apply Forall_app. split; [done|]. apply Forall_singleton. by apply HV.
Qed.

(** A node that hears an event brings only such keys. *)
Definition event_ok (ev : NodeEvent) : Prop :=
  (∀ resp, resp ∈ heard_keys ev → list_ok (Ok resp)) ∧
  (∀ e signer data, e ∈ heard_events ev → V signer → marshal_event (me_Type e) (me_PeerId e) (me_EventTime e) (me_NewPublicKey e) = Ok data →
     ed_Verify signer data (me_Signature e) = true → E e) ∧
  (∀ k tok, (k, tok) ∈ enrollment_answers ev → V k ∧ T tok) ∧
  (∀ now pubKey cfg addrs, ev = NRestart now pubKey cfg addrs → restarted ∧ (pubKey ≠ "" → V pubKey)).

Lemma event_ok_lists ev answer : event_ok ev → (∀ resp, answer = Ok resp → resp ∈ heard_keys ev) → list_ok answer.
Proof. intros [Hn _] Hh resp payload signer sig k -> Hp HV Hz Hver Hk. eapply (Hn resp); [by apply Hh|done..]. Qed.

(** A registration whose answer is among those of the event. *)
Lemma event_ok_register ev r :
  event_ok ev → (∀ resp, rg_keys r = Ok resp → resp ∈ heard_keys ev) →
  (∀ resp, rg_answer r = Ok resp → (ep_ControlPlanePublicKey resp, ep_BiscuitToken resp) ∈ enrollment_answers ev) → register_ok r.
Proof. intros Hev Hk Ha. split; [by eapply event_ok_lists|]. intros resp Hresp. destruct Hev as (_ & _ & Hans & _). by apply Hans, Ha. Qed.

Lemma receive_ok now m msg : event_ok (NReceive now msg) → trust_ok m → trust_ok (receive_event now m msg).
Proof.
  intros (_ & Hn & _) Hok. unfold receive_event. destruct msg as [e|]; [|done].
  destruct (node_validateMeshEvent now m (Ok e)) eqn:Ev; [|done..]. unfold node_validateMeshEvent in Ev.
  destruct (node_verifyEvent m e) eqn:Es; [|done]. destruct Hok as (Hk & ? & ? & ? & Hi & ?).
  unfold trust_ok, trust_view. cbn. split_and!; try done; try tauto. apply Forall_app. split; [done|]. apply Forall_singleton.
  unfold node_verifyEvent in Es. destruct (marshal_event _ _ _ _) as [data|] eqn:Em; [|done].
  apply existsb_exists in Es as (tk & Htk & [_ Hv]%andb_true_iff). rewrite Forall_forall in Hk.
  eapply (Hn e (tk_Key tk)); [by left|by apply Hk, list_elem_of_In|done..].
Qed.

Lemma listen_ok lru disk now m allowed : trust_ok m → trust_ok (listenForControlPlaneEvents lru disk now m allowed).
Proof.
  intros Hok. unfold listenForControlPlaneEvents. destruct (mn_inbox m) as [|e inbox] eqn:Ei; [done|].
  assert (trust_ok (with_events m (mn_peerLastEventTime m) inbox) ∧ (me_Type e = KEY_ROTATION → V (me_NewPublicKey e))) as [Hok' HV].
  { destruct Hok as (? & ? & ? & ? & Hin & ?). rewrite Ei in Hin. apply Forall_cons in Hin as [? ?]. split; [|by apply E_rotation].
    unfold trust_ok, trust_view. cbn. tauto. }
  destruct allowed; [|done]. cbn [negb]. destruct (me_Type e) eqn:Et.
  - unfold handleBannedEvent. destruct (peer_Decode _) as [p|]; [|done]. destruct (_ <? _)%Z; [done|].
    eapply trust_ok_view; [apply banPeer_view|]. eapply trust_ok_view; [|exact Hok']. done.
  - unfold handleKeyRotationEvent. destruct (negb _); [done|]. eapply trust_ok_view; [|apply addTrustedKey_ok; [by apply HV|exact Hok']]. done.
  - eapply trust_ok_view; [|exact Hok']. done.
Qed.

Local Ltac by_register Hev :=
  eapply event_ok_register; [exact Hev|intros resp Heq; cbn; rewrite Heq; by left|intros resp Heq; cbn; rewrite Heq; by left].

Lemma node_step_ok m ev : event_ok ev → trust_ok m → trust_ok (node_step m ev).
Proof.
  intros Hev Hok. destruct ev; cbn [node_step].
  - by apply receive_ok.
  - by apply listen_ok.
  - unfold handshake_open. destruct (peer_revoked _ _); [done|]. by destruct allowed.
  - unfold handshake_frame. destruct (negb _); [done|]. destruct frame as [[data|]|]; [|done..].
    destruct (VerifyBiscuitAndGetExpiry _ _ _ _) as [exp|]; [|done].
    set (m1 := with_peers _ _ _). assert (trust_ok m1) as Hok1 by (eapply trust_ok_view; [|exact Hok]; done).
    apply identity_of_ok in Hok1. by destruct (identity_of m1).
  - unfold node_AllowReserve, isAdmitted. destruct (_ !! p) as [exp|]; [|done]. by destruct (negb _).
  - assert (∀ now m p, trust_view (isAdmitted now m p).2 = trust_view m) as Hv.
    { clear. intros now m p. unfold isAdmitted. destruct (_ !! p) as [exp|]; [|done]. by destruct (negb _). }
    eapply trust_ok_view; [|exact Hok]. unfold node_AllowConnect. specialize (Hv now m src) as Hs. destruct (isAdmitted now m src) as [[] m1]; [|done].
    cbn [negb]. by rewrite Hv.
  - unfold startKeyPruning. assert (Forall (λ tk, V (tk_Key tk)) (pruneTrustedKeys (n_trustedKeys (mn_node m)) now gracePeriod)) as HF.
    { destruct Hok as [Hk _]. rewrite Forall_forall in *. intros tk Htk. apply Hk. by eapply prune_keeps. }
    assert (restarted ∨ pruneTrustedKeys (n_trustedKeys (mn_node m)) now gracePeriod ≠ []) as Hne.
    { destruct Hok as (_ & _ & _ & _ & _ & _ & _ & [?|Hne]); [by left|]. right. by apply prune_keeps. }
    destruct (negb _); [apply persist_ok; [done|]|]; by apply set_keys_ok.
  - apply SyncControlPlane_ok; try done; eapply event_ok_lists; try done; intros resp Heq; cbn -[pl_keys rc_keys]; rewrite Heq.
    + by left.
    + destruct (pl_keys pull), (pl_keys pull'); set_solver.
    + destruct (pl_keys pull), (rc_keys r); set_solver.
  - by apply RefreshEnrollment_ok.
  - eapply trust_ok_view; [apply RevokeBiscuitID_view|]. eapply trust_ok_view; [|exact Hok]. done.
  - unfold node_RevokeBiscuitToken. destruct (UnmarshalInbound token) as [[b rules]|]; [|eapply trust_ok_view; [|exact Hok]; done].
    destruct (last _); cbn [snd]; [eapply trust_ok_view; [apply RevokeBiscuitID_view|]|]; (eapply trust_ok_view; [|exact Hok]; done).
  - apply Enroll_ok; [|done]. by_register Hev.
  - apply EnrollBootstrap_ok; [..|done].
    + eapply event_ok_lists; [exact Hev|]. intros resp Heq. cbn. rewrite Heq. by left.
    + intros resp Hresp. apply (proj1 (proj2 (proj2 Hev))). cbn [enrollment_answers]. apply list_elem_of_omap. by exists (Ok resp).
  - apply renewal_turn_ok; [|done]. intros jwt ->. by_register Hev.
  - apply start_recovery_ok; [|done]. destruct jwt; [intros _|done]. by_register Hev.
  - apply ReEnroll_ok; [|done]. destruct jwt; [intros _|done]. by_register Hev.
  - eapply trust_ok_view; [|exact Hok]. done.
  - destruct (proj2 (proj2 (proj2 Hev)) now pubKey cfg addrs eq_refl) as [HR HV]. by apply restart_ok.
Qed.

Lemma node_run_ok m evs : (∀ ev, ev ∈ evs → event_ok ev) → trust_ok m → trust_ok (node_run m evs).
Proof.
  revert m. induction evs as [|ev evs IH]; intros m Hev Hok; [done|]. simpl. apply IH; [intros; apply Hev; by right|].
  apply node_step_ok; [|done]. apply Hev. by left.
Qed.
End invariant.

(** The keys that a history starts from: those the node trusts and has on disk,
    those an operator configures at a restart, and those that the answer to an
    enrollment names. *)
Definition root_key (m : MeshNode) (evs : list NodeEvent) (k : PublicKey) : Prop :=
  k ∈ getTrustedPublicKeys m ∨ (∃ b c, mn_store m = Some b ∧ getCredential b = Ok c ∧ k ∈ sk_PublicKey <$> mc_TrustedKeys c) ∨
  (∃ now cfg addrs, NRestart now k cfg addrs ∈ evs) ∨ (∃ ev tok, ev ∈ evs ∧ (k, tok) ∈ enrollment_answers ev).

(** The credential that the node started with. *)
Definition held (m : MeshNode) (tok : string) : Prop :=
  n_cachedIdentity (mn_node m) = Some tok ∨ ∃ b c, mn_store m = Some b ∧ getCredential b = Ok c ∧ mc_Biscuit c = tok.

(** A credential for the node itself, verified under such keys. *)
Definition verified_own (P : PublicKey → Prop) (self role tok : string) : Prop :=
  ∃ now keys b key, (∀ k, k ∈ keys → P k) ∧ VerifyBiscuitAndGetKey now tok self keys = Ok (b, key) ∧
    (role = "" ∨ VerifyBiscuitRole tok key role = Ok tt).

(** A node that has nothing in flight and whose memory agrees with its disk. *)
Definition settled (m : MeshNode) : Prop := mn_inbox m = [] ∧ n_storedIdentity (mn_node m) = LoadIdentity <$> mn_store m.

Lemma verifyOwn_verified (P : PublicKey → Prop) now m tok :
  Forall (λ tk, P (tk_Key tk)) (n_trustedKeys (mn_node m)) → node_verifyOwnBiscuit now m tok = Ok tt → verified_own P (mn_self m) (mn_RequiredRole m) tok.
Proof.
  intros HP. unfold node_verifyOwnBiscuit. rewrite !bind_unit_Ok. intros (_ & _ & ([b key] & Hv & Hr)%bind_Ok).
  exists now, (publicKeysOf (n_trustedKeys (mn_node m))), b, key. split_and!; [|done|by case_bool_decide; [left|right]].
  intros k (tk & -> & Htk)%list_elem_of_fmap. rewrite Forall_forall in HP. by apply HP.
Qed.

Lemma GetIdentity_held m tok : (GetIdentity (mn_node m)).1 = Some tok → n_storedIdentity (mn_node m) = LoadIdentity <$> mn_store m →
  tok ≠ "" ∧ held m tok.
Proof.
  intros Hg Hst.
  assert (Hload : match n_storedIdentity (mn_node m) with Some (Ok b) => b ≠ "" ∧ b = tok | _ => False end → tok ≠ "" ∧ held m tok).
  { rewrite Hst. destruct (mn_store m) as [b|] eqn:Eb; [|done]. simpl. destruct (LoadIdentity b) as [s|] eqn:El; [|done]. intros [Hne ->].
    split; [done|]. right. unfold LoadIdentity, view in El. apply bind_Ok in El as (val & (c & Hc & Heq)%bind_Ok & El).
    injection Heq as <-. apply bind_unit_Ok in El as [_ El]. injection El as <-. by exists b, c. }
  unfold GetIdentity in Hg. destruct (n_cachedIdentity (mn_node m)) as [c|] eqn:Ec.
  - case_bool_decide; simpl in Hg.
    + apply Hload. destruct (n_storedIdentity (mn_node m)) as [[s|]|]; [|done..]. case_bool_decide; [done|]. by injection Hg.
    + injection Hg as <-. split; [done|]. by left.
  - apply Hload. destruct (n_storedIdentity (mn_node m)) as [[s|]|]; [|done..]. simpl in Hg. case_bool_decide; [done|]. by injection Hg.
Qed.

End node.
