(* ===== verification/NodeBanFacts.v ===== *)
(** * A node's bans follow the control plane's

    The revocation cache of a node along its history: what each operation does
    to it, and that it comes to agree with the bans of the control plane and
    stays so. *)

From S2P Require Import Prelude GoStrings Regex Names Biscuit NaiveEngine Facts DatalogText Grants Labels HTTPGrants PolicyRules Egress Base64 Tar Token TokenModel Identity Middleware Directory Keyring KeyringFacts Router Decimal Store NodeStore NodeRouters NodeSync NodeSyncFacts.

Section node.
Context `{UC : UnicodeCase, TC : TARCodec, BT : BiscuitTokens, TX : BiscuitText, BE : BiscuitEngine, PC : PeerCodec, MA : Multiaddr, PB : PeerBytes,
  KC : KeysCodec, ED : Ed25519, EC : EventCodec, CC : CredentialCodec}.

(** ** The cache *)

Definition bans (m : MeshNode) : option (gmap string Z) := n_revokedPeers (mn_node m).

(** What a ban list of [fetchedAt] does to the cache. *)
Definition reconciled (lru : Lru Z) (cache : gmap string Z) '((ids, fetchedAt) : list string * time) : gmap string Z :=
  let banned := remove_dups (decode_peers ids) in
  foldl (λ c p, if bool_decide (is_Some (c !! p)) then c else lru_Add lru c p (UnixMilli fetchedAt))
    (filter (λ '(p, bannedAt), p ∈ banned ∨ (UnixMilli fetchedAt ≤ bannedAt)%Z) cache) banned.

Lemma banPeer_bans lru m p t : bans (banPeer lru m p t) = (λ c, lru_Add lru c p t) <$> bans m.
Proof. unfold bans, banPeer. destruct (n_revokedPeers (mn_node m)) eqn:E; destruct (mn_started _); simpl; by rewrite ?E. Qed.

Lemma reconcile_bans lru m ids fetchedAt :
  bans (node_reconcileBannedPeers lru m ids fetchedAt) = (λ c, reconciled lru c (ids, fetchedAt)) <$> bans m.
Proof.
  unfold node_reconcileBannedPeers, reconciled. fold (bans m). destruct (bans m) as [cache|] eqn:Eb; [|done]. simpl.
  set (c0 := filter _ cache). set (m0 := with_node m _). assert (bans m0 = Some c0) as Hm0 by done. clearbody m0 c0. clear Eb.
  revert m0 c0 Hm0. induction (remove_dups (decode_peers ids)) as [|p l IH]; intros m0 c0 Hm0; simpl; [done|]. apply IH.
  unfold ban_listed, peer_revoked. fold (bans m0). rewrite Hm0. case_bool_decide; [done|]. by rewrite banPeer_bans, Hm0.
Qed.

Lemma store_write_bans m save : bans (store_write m save).2 = bans m.
Proof. unfold store_write. destruct (mn_store m) as [b|]; [|done]. by destruct (save b). Qed.

Lemma persist_bans commit m keys : bans (persistTrustedKeys commit m keys) = bans m.
Proof. apply store_write_bans. Qed.

Lemma addTrustedKey_bans commit now m key : bans (node_addTrustedKey commit now m key) = bans m.
Proof. unfold node_addTrustedKey. destruct (containsTrustedKey _ _); [done|]. by rewrite persist_bans. Qed.

Lemma syncTrustedKeys_bans commit now m answer : bans (node_syncTrustedKeys commit now m answer).2 = bans m.
Proof. unfold node_syncTrustedKeys. destruct (syncTrustedKeys _ _ _); [|done]. cbn [snd]. by rewrite persist_bans. Qed.

Lemma SetIdentityCache_bans m b : bans (SetIdentityCache m b) = bans m.
Proof. unfold SetIdentityCache. by destruct (negb _). Qed.

Lemma adopt_identity_bans disk m tok exp : bans (adopt_identity disk m tok exp).2 = bans m.
Proof.
  unfold adopt_identity. destruct (store_write m _) as [r m1] eqn:E1. pose proof (store_write_bans m (λ b, SaveIdentity (disk WriteIdentity) b tok)) as H1.
  rewrite E1 in H1. destruct r; [|done].
  destruct (store_write (SetIdentityCache m1 tok) _) as [r2 m2] eqn:E2.
  pose proof (store_write_bans (SetIdentityCache m1 tok) (λ b, SaveIdentityExpiration (disk WriteExpiration) b (expireUnix exp))) as H2.
  rewrite E2 in H2. cbn [snd] in *. by rewrite H2, SetIdentityCache_bans.
Qed.

Lemma RefreshEnrollment_bans disk now m answer : bans (RefreshEnrollment disk now m answer).2 = bans m.
Proof.
  unfold RefreshEnrollment. destruct (mn_store m) as [b|]; [|done]. destruct (_ ;; _) as [[tok exp]|]; [|done].
  pose proof (adopt_identity_bans disk m tok exp) as Ha. destruct (adopt_identity disk m tok exp) as [[[]|] m1]; [|done].
  cbn [snd] in *. rewrite <-Ha. apply (store_write_bans m1).
Qed.

Lemma identity_of_bans m : bans (identity_of m).2 = bans m.
Proof.
  unfold identity_of, GetIdentity, bans. destruct (n_cachedIdentity (mn_node m)) as [c|]; [case_bool_decide; simpl; [|done]|];
    (destruct (n_storedIdentity (mn_node m)) as [[s|]|]; [|done..]; by case_bool_decide).
Qed.

Lemma RevokeBiscuitID_peers lru now n id expiry : n_revokedPeers (node_RevokeBiscuitID lru now n id expiry) = n_revokedPeers n.
Proof. unfold node_RevokeBiscuitID. by case_bool_decide. Qed.

Lemma revokes_peers lru now expiry n ids : n_revokedPeers (foldl (λ n id, node_RevokeBiscuitID lru now n id expiry) n ids) = n_revokedPeers n.
Proof. revert n. induction ids as [|id ids IH]; intros n; simpl; [done|]. by rewrite IH, RevokeBiscuitID_peers. Qed.

Lemma adopt_routers_bans commit now resolve m info : bans (adopt_routers commit now resolve m info) = bans m.
Proof.
  unfold adopt_routers. destruct (bool_decide _ && _); [done|]. cbv zeta. unfold bans at 1. cbn [with_info mn_node].
  destruct (mn_store m) as [b|]; [|done]. destruct (LoadMeshConfig b) as [[k addrs]|]; [|done]. destruct (negb _); [|done]. apply store_write_bans.
Qed.

Lemma syncMeshInfo_bans lru disk at_ resolve m answer :
  bans (syncMeshInfo lru disk at_ resolve m answer).2 =
  match answer with Ok info => (λ c, reconciled lru c (in_BannedPeerIds info, at_)) <$> bans m | Err _ => bans m end.
Proof.
  unfold syncMeshInfo. destruct answer as [info|]; [|done]. cbn [snd]. rewrite reconcile_bans. f_equal.
  change (bans (adoptDirectory ?x _)) with (bans x). apply adopt_routers_bans.
Qed.

Lemma syncMeshPolicy_bans m answer : bans (syncMeshPolicy m answer).2 = bans m.
Proof.
  unfold syncMeshPolicy. destruct (mn_store m) as [b|]; [|done]. destruct (negb _); [done|]. pose proof (identity_of_bans m) as Hi.
  destruct (identity_of m) as [[tok|] m1]; [|done]. destruct (_ ← _ ; _) as [[rules texts]|]; [|done]. cbn [snd] in *. rewrite <-Hi.
  by destruct (match mn_meshPolicyTexts m1 with Some _ => _ | None => _ end).
Qed.

(** *** Enrollments leave the peers alone *)

Definition peers_view (m : MeshNode) := (n_revokedPeers (mn_node m), mn_authPeers m, mn_peerLastEventTime m, mn_opening m, mn_inbox m).

Lemma store_write_view m save : peers_view (store_write m save).2 = peers_view m.
Proof. unfold store_write. destruct (mn_store m) as [b|]; [|done]. by destruct (save b). Qed.

Lemma adopt_identity_view disk m tok exp : peers_view (adopt_identity disk m tok exp).2 = peers_view m.
Proof.
  unfold adopt_identity. pose proof (store_write_view m (λ b, SaveIdentity (disk WriteIdentity) b tok)) as H1.
  destruct (store_write m _) as [[[]|] m1]; [|done]. cbn [snd] in H1.
  pose proof (store_write_view (SetIdentityCache m1 tok) (λ b, SaveIdentityExpiration (disk WriteExpiration) b (expireUnix exp))) as H2.
  destruct (store_write (SetIdentityCache m1 tok) _) as [r2 m2]. cbn [snd] in *. rewrite H2, <-H1.
  unfold SetIdentityCache. by destruct (negb _).
Qed.

Lemma RefreshEnrollment_view disk now m answer : peers_view (RefreshEnrollment disk now m answer).2 = peers_view m.
Proof.
  unfold RefreshEnrollment. destruct (mn_store m) as [b|]; [|done]. destruct (_ ;; _) as [[tok exp]|]; [|done].
  pose proof (adopt_identity_view disk m tok exp) as Ha. destruct (adopt_identity disk m tok exp) as [[[]|] m1]; [|done].
  cbn [snd] in *. rewrite <-Ha. apply (store_write_view m1).
Qed.

Lemma adoptEnrolledKeys_view disk now m newest keys : peers_view (adoptEnrolledKeys disk now m newest keys) = peers_view m.
Proof.
  unfold adoptEnrolledKeys, recordIdentityKeySet. rewrite store_write_view. trans (peers_view (node_addTrustedKey (disk WriteAddedKey) now m newest)).
  - unfold node_syncTrustedKeys. destruct (syncTrustedKeys _ _ _); [|done]. cbn [snd]. unfold persistTrustedKeys. by rewrite store_write_view.
  - unfold node_addTrustedKey. destruct (containsTrustedKey _ _); [done|]. unfold persistTrustedKeys. by rewrite store_write_view.
Qed.

Lemma joinRouters_peers resolve m info addrs admitted : peers_view (joinRouters resolve m info addrs admitted).2 = peers_view m.
Proof. unfold joinRouters. by destruct (bool_decide (length _ = 0)). Qed.

(** Saving what an answer brings, and the key that follows. *)
Lemma enrolled_view {A} disk now m tok exp key addrs keys (x : A) e :
  peers_view (match adopt_identity disk m tok exp with
              | (Err e, m) => (Err e, m)
              | (Ok _, m) =>
                  match store_write m (λ b, SaveMeshConfig (disk WriteMeshConfig) now b key addrs) with
                  | (Err e0, m) => (Err (WrapError e e0), m)
                  | (Ok _, m) => (Ok x, adoptEnrolledKeys disk now m key keys)
                  end
              end).2 = peers_view m.
Proof.
  pose proof (adopt_identity_view disk m tok exp) as Ha. destruct (adopt_identity disk m tok exp) as [[[]|] m1]; [|done]. cbn [snd] in Ha.
  pose proof (store_write_view m1 (λ b, SaveMeshConfig (disk WriteMeshConfig) now b key addrs)) as Hs.
  destruct (store_write m1 _) as [[[]|] m2]; cbn [snd] in *; [rewrite adoptEnrolledKeys_view|]; congruence.
Qed.

Lemma enrollHTTP_view disk m url r : peers_view (enrollHTTP disk m url r).2 = peers_view m.
Proof.
  unfold enrollHTTP. destruct (negb _); [done|]. unfold processEnrollResponse. destruct (resp ← _; _) as [resp|]; [|done].
  rewrite <-(enrolled_view disk (rg_now r) m (ep_BiscuitToken resp) (ep_ExpireTime resp) (ep_ControlPlanePublicKey resp) (ep_RouterAddresses resp) (rg_keys r) resp "failed to save mesh config").
  destruct (adopt_identity _ _ _ _) as [[[]|] m1]; [|done]. by destruct (store_write m1 _) as [[[]|] m2].
Qed.

Lemma Enroll_view disk resolve m url r : peers_view (Enroll disk resolve m url r).2 = peers_view m.
Proof.
  unfold Enroll. rewrite <-(enrollHTTP_view disk m url r). destruct (enrollHTTP disk m url r) as [[resp|] m1]; [|done].
  unfold connectToRouters. case_bool_decide; [done|]. pose proof (joinRouters_peers resolve (node_emit m1 [ReadmitRouters]) (rg_info r)
    (ep_RouterAddresses resp) (rg_admitted r)) as Hv. by destruct (joinRouters _ _ _ _ _) as [res m2].
Qed.

Lemma ReEnroll_view disk m jwt r : peers_view (ReEnrollWithRefreshToken disk m jwt r).2 = peers_view m.
Proof.
  unfold ReEnrollWithRefreshToken. destruct (mn_store m) as [b|]; [|done]. destruct (LoadControlPlaneURL b) as [url|]; [|done].
  destruct jwt; [|done]. case_bool_decide; [done|]. pose proof (enrollHTTP_view disk m url r). by destruct (enrollHTTP disk m url r).
Qed.

Lemma EnrollBootstrap_view disk resolve now m url answer polls keys info admitted :
  peers_view (EnrollBootstrap disk resolve now m url answer polls keys info admitted).2 = peers_view m.
Proof.
  unfold EnrollBootstrap, enrollBootstrapCredential. destruct (accept_enrollment now m false answer polls url) as [resp|]; [|done].
  pose proof (enrolled_view disk now m (be_BiscuitToken resp) (be_ExpireTime resp) (be_ControlPlanePublicKey resp) (be_RouterAddresses resp) keys tt "failed to save mesh config") as He.
  destruct (adopt_identity _ _ _ _) as [[[]|] m1]; [|done]. destruct (store_write m1 _) as [[[]|] m2]; [|done]. cbn [snd] in He.
  case_bool_decide; [done|]. rewrite <-He. pose proof (joinRouters_peers resolve (adoptEnrolledKeys disk now m2 (be_ControlPlanePublicKey resp) keys) info
    (be_RouterAddresses resp) admitted) as Hv. by destruct (joinRouters _ _ _ _ _).
Qed.

Lemma renewal_turn_view disk resolve now m refresh disk' src r after :
  peers_view (renewal_turn disk resolve now m refresh disk' src r after).2 = peers_view m.
Proof.
  unfold renewal_turn. rewrite <-(RefreshEnrollment_view disk now m refresh). destruct (RefreshEnrollment disk now m refresh) as [res m1]. cbn [snd].
  destruct (is_ok res); [done|]. set (step := match default _ src, mn_store m1 with Ok _, Some b => _ | _, _ => _ end).
  assert (peers_view step.2 = peers_view m1) as Hs.
  { subst step. destruct src as [[jwt|]|]; cbn [default from_option id]; [|done..]. destruct (mn_store m1) as [b|]; [|done].
    destruct (LoadControlPlaneURL b) as [url|]; [|done]. apply Enroll_view. }
  destruct step as [fetchErr m2]. cbn [snd] in Hs. destruct fetchErr; [done|]. destruct (mn_store m2) as [b|]; [|done].
  destruct (LoadIdentityExpiration b) as [exp|]; [|done]. by destruct (_ && _).
Qed.

Lemma start_recovery_view disk now m refresh disk' jwt r : peers_view (start_recovery disk now m refresh disk' jwt r).2 = peers_view m.
Proof.
  unfold start_recovery. rewrite <-(RefreshEnrollment_view disk now m refresh). destruct (RefreshEnrollment disk now m refresh) as [res m1]. cbn [snd].
  assert (peers_view (if is_ok res then (Ok tt, m1) else ReEnrollWithRefreshToken disk' m1 jwt r).2 = peers_view m1) as Hs.
  { destruct (is_ok res); [done|apply ReEnroll_view]. }
  destruct (if is_ok res then _ else _) as [res2 m2]. cbn [snd] in Hs. destruct res2; [|done]. destruct (mn_store m2) as [b|]; [|done]. cbn [snd].
  destruct (LoadMeshConfig b) as [[pubKey addrs]|]; [|done]. by case_bool_decide.
Qed.

(** The events by which a node enrolls. *)
Definition enrolls (ev : NodeEvent) : bool :=
  match ev with
  | NRefresh _ _ _ | NEnroll _ _ _ _ | NEnrollBootstrap _ _ _ _ _ _ _ _ _ | NRenew _ _ _ _ _ _ _ _ | NRecover _ _ _ _ _ _ | NReEnroll _ _ _ => true
  | _ => false
  end.

Lemma enroll_view m ev : enrolls ev = true → peers_view (node_step m ev) = peers_view m.
Proof.
  destruct ev; try done; intros _; cbn [node_step]; auto using RefreshEnrollment_view, Enroll_view, EnrollBootstrap_view, renewal_turn_view,
    start_recovery_view, ReEnroll_view.
Qed.

Lemma enroll_bans m ev : enrolls ev = true → bans (node_step m ev) = bans m.
Proof. intros He. pose proof (enroll_view m ev He) as Hv. unfold peers_view in Hv. unfold bans. congruence. Qed.

(** The lists that a pull brings. *)
Definition pull_lists (pull : Pull) : list (list string * time) :=
  match pl_info pull with Ok info => [(in_BannedPeerIds info, pl_infoAt pull)] | Err _ => [] end ++
  match pl_revocations pull with Ok resp => if bool_decide (length (rv_BannedPeerIds resp) = 0) then [] else [(rv_BannedPeerIds resp, pl_revocationsAt pull)] | Err _ => [] end.

(** The node knows its control plane. *)
Definition enrolled (m : MeshNode) : Prop := ∃ b url, mn_store m = Some b ∧ LoadControlPlaneURL b = Ok url ∧ url ≠ "".

Lemma once_bans lru revs disk resolve m pull :
  ∃ rs, (∀ x, x ∈ rs → x ∈ pull_lists pull) ∧
    bans (syncControlPlaneOnce lru revs disk resolve m pull).2 = (λ c, foldl (reconciled lru) c rs) <$> bans m ∧
    (enrolled m → ∀ info, pl_info pull = Ok info → ∃ rs', rs = (in_BannedPeerIds info, pl_infoAt pull) :: rs').
Proof.
  assert (Hid : ∀ o : option (gmap string Z), (λ c, foldl (reconciled lru) c []) <$> o = o) by (by intros []).
  unfold syncControlPlaneOnce. destruct (mn_store m) as [b|] eqn:Eb.
  2: { exists []. split_and!; [by intros x ?%not_elem_of_nil|by rewrite Hid|]. by intros (b & url & Hb & _); rewrite Eb in Hb. }
  destruct (negb _) eqn:Eu.
  { exists []. split_and!; [by intros x ?%not_elem_of_nil|by rewrite Hid|]. intros (b' & url & Hb & Hl & Hne). rewrite Eb in Hb. injection Hb as <-.
    rewrite Hl, bool_decide_false in Eu by done. done. }
  pose proof (syncTrustedKeys_bans (disk WriteTrustedKeys) (pl_keysAt pull) m (pl_keys pull)) as H1.
  destruct (node_syncTrustedKeys _ _ m _) as [keys m1]. cbn [snd] in H1.
  assert (bans (if is_ok keys && identityPredatesRotation m1 then RefreshEnrollment disk (pl_refreshAt pull) m1 (pl_refresh pull) else (Ok tt, m1)).2 = bans m) as H2.
  { destruct (is_ok keys && _); [by rewrite RefreshEnrollment_bans|done]. }
  destruct (if is_ok keys && _ then _ else _) as [refresh m2]. cbn [snd] in H2.
  pose proof (syncMeshInfo_bans lru disk (pl_infoAt pull) resolve m2 (pl_info pull)) as H3. destruct (syncMeshInfo _ _ _ _ m2 _) as [info m3].
  pose proof (syncMeshPolicy_bans m3 (pl_policy pull)) as H4. destruct (syncMeshPolicy m3 _) as [policy m4]. cbn [snd] in *.
  assert (∃ rs, (∀ x, x ∈ rs → x ∈ match pl_revocations pull with Ok resp => if bool_decide (length (rv_BannedPeerIds resp) = 0) then [] else [(rv_BannedPeerIds resp, pl_revocationsAt pull)] | Err _ => [] end) ∧
    bans (syncRevocations lru revs (pl_revocationsAt pull) m4 (pl_revocations pull)).2 = (λ c, foldl (reconciled lru) c rs) <$> bans m4) as (rs & Hrs & H5).
  { unfold syncRevocations. pose proof (identity_of_bans m4) as Hi. destruct (identity_of m4) as [[tok|] m5]; cbn [snd] in Hi.
    2: { exists []. rewrite Hid. by split; [intros x ?%not_elem_of_nil|]. }
    destruct (pl_revocations pull) as [resp|e]; [|exists []; rewrite Hid; by split; [intros x ?%not_elem_of_nil|]]. cbv zeta. cbn [snd].
    case_bool_decide as Hlen.
    - exists []. rewrite Hid. split; [done|]. rewrite <-Hi. unfold bans. apply revokes_peers.
    - exists [(rv_BannedPeerIds resp, pl_revocationsAt pull)]. split; [done|]. rewrite reconcile_bans. unfold bans at 1. cbn [with_node mn_node].
      rewrite revokes_peers. by fold (bans m5); rewrite Hi. }
  destruct (syncRevocations _ _ _ m4 _) as [revocations m5]. cbn [snd] in *. rewrite H4, H3, H2 in H5. clear -Hrs H5.
  unfold pull_lists. destruct (pl_info pull) as [info0|].
  - exists ((in_BannedPeerIds info0, pl_infoAt pull) :: rs). split_and!.
    + intros x [->|Hx]%elem_of_cons; [by left|]. right. by apply Hrs.
    + rewrite H5. by destruct (bans m).
    + intros _ info' [= <-]. eauto.
  - exists rs. split_and!; [done|done|]. done.
Qed.

Lemma recover_bans disk m r : bans (recoverEnrollment disk m r).2 = bans m.
Proof.
  unfold recoverEnrollment. destruct (rc_token r) as [token|]; [|done]. destruct (match mn_lastReenroll m with Some _ => _ | None => _ end); [done|].
  cbv zeta. destruct token; [|done]. destruct (mn_store _) as [b|]; [|done]. destruct (LoadControlPlaneURL b) as [url|]; [|done].
  set (m0 := with_reenroll m _). change (bans m) with (bans m0). clearbody m0.
  unfold enrollBootstrapCredential. destruct (accept_enrollment _ _ _ _ _ _) as [resp|]; [|done].
  pose proof (adopt_identity_bans disk m0 (be_BiscuitToken resp) (be_ExpireTime resp)) as Ha. destruct (adopt_identity disk m0 _ _) as [[[]|] m1]; [|done].
  pose proof (store_write_bans m1 (λ b, SaveMeshConfig (disk WriteMeshConfig) (rc_now r) b (be_ControlPlanePublicKey resp) (be_RouterAddresses resp))) as Hs.
  destruct (store_write m1 _) as [[[]|] m2]; cbn [snd] in *; [|by rewrite Hs]. rewrite <-Ha, <-Hs. unfold adoptEnrolledKeys, recordIdentityKeySet.
  by rewrite store_write_bans, syncTrustedKeys_bans, addTrustedKey_bans.
Qed.

Lemma sync_bans lru revs resolve m disk pull disk' r disk'' pull' :
  ∃ rs, (∀ x, x ∈ rs → x ∈ pull_lists pull ++ pull_lists pull') ∧
    bans (SyncControlPlane lru revs resolve m disk pull disk' r disk'' pull').2 = (λ c, foldl (reconciled lru) c rs) <$> bans m ∧
    (enrolled m → ∀ info, pl_info pull = Ok info → ∃ rs', rs = (in_BannedPeerIds info, pl_infoAt pull) :: rs').
Proof.
  destruct (once_bans lru revs disk resolve m pull) as (rs & Hrs & Hb & Hi). unfold SyncControlPlane.
  destruct (syncControlPlaneOnce lru revs disk resolve m pull) as [res m1]. cbn [snd] in Hb.
  assert (∀ x, x ∈ rs → x ∈ pull_lists pull ++ pull_lists pull') as Hrs' by (intros x Hx; apply elem_of_app; auto).
  destruct res as [[]|e]; [by exists rs|]. destruct (controlPlaneForgotUs e); [|by exists rs].
  pose proof (recover_bans disk' m1 r) as Hr. destruct (recoverEnrollment disk' m1 r) as [[] m2]; cbn [snd] in Hr; [|exists rs; by rewrite <-Hb, <-Hr].
  destruct (once_bans lru revs disk'' resolve m2 pull') as (rs2 & Hrs2 & Hb2 & _). exists (rs ++ rs2). split_and!.
  - intros x [Hx|Hx]%elem_of_app; [by apply Hrs'|]. apply elem_of_app. right. by apply Hrs2.
  - rewrite Hb2, Hr, Hb. destruct (bans m) as [c|]; [|done]. simpl. by rewrite foldl_app.
  - intros He info Hinfo. destruct (Hi He info Hinfo) as [rs' ->]. by exists (rs' ++ rs2).
Qed.

(** ** Histories *)

Definition event_lists (ev : NodeEvent) : list (list string * time) :=
  match ev with NSync _ _ _ _ pull _ _ _ pull' => pull_lists pull ++ pull_lists pull' | _ => [] end.

Definition restarts (ev : NodeEvent) : Prop := match ev with NRestart _ _ _ _ => True | _ => False end.

#[local] Instance restarts_dec ev : Decision (restarts ev).
Proof. destruct ev; apply _. Defined.

(** The peer that an event bans. *)
Definition bans_peer (e : MeshEvent) (p : string) : Prop := me_Type e = BANNED ∧ peer_Decode (me_PeerId e) = Ok p.

(** What a step does to the cache: nothing, or ban lists, or one ban. *)
Lemma step_bans m ev : ¬ restarts ev →
  bans (node_step m ev) = bans m ∨
  (∃ lru rs, (∀ x, x ∈ rs → x ∈ event_lists ev) ∧ bans (node_step m ev) = (λ c, foldl (reconciled lru) c rs) <$> bans m) ∨
  (∃ lru e p, e ∈ mn_inbox m ∧ bans_peer e p ∧ (default 0 (mn_peerLastEventTime m !! p) ≤ event_ms e)%Z ∧
     bans (node_step m ev) = (λ c, lru_Add lru c p (event_ms e)) <$> bans m).
Proof.
  intros Hr. destruct ev; cbn [node_step]; try (by exfalso; apply Hr).
  - left. unfold receive_event. destruct msg; [|done]. by destruct (node_validateMeshEvent _ _ _).
  - unfold listenForControlPlaneEvents. destruct (mn_inbox m) as [|e inbox] eqn:Ei; [by left|]. destruct allowed; cbn [negb]; [|by left].
    destruct (me_Type e) eqn:Et.
    + unfold handleBannedEvent. destruct (peer_Decode (me_PeerId e)) as [p|] eqn:Ed; [|by left]. cbv zeta. cbn [mn_peerLastEventTime with_events].
      destruct (Z.ltb_spec (event_ms e) (default 0%Z (mn_peerLastEventTime m !! p))) as [|Hle]; [by left|].
      right. right. exists lru, e, p. split; [by left|]. split; [done|]. split; [done|]. by rewrite banPeer_bans.
    + left. unfold handleKeyRotationEvent. destruct (negb _); [done|]. unfold bans, node_emit. cbn [mn_node]. apply addTrustedKey_bans.
    + by left.
  - left. unfold handshake_open. destruct (peer_revoked _ _); [done|]. by destruct allowed.
  - left. unfold handshake_frame. destruct (negb _); [done|]. destruct frame as [[data|]|]; [|done..].
    destruct (VerifyBiscuitAndGetExpiry _ _ _ _); [|done]. set (m1 := with_peers _ _ _). change (bans m) with (bans m1). clearbody m1.
    pose proof (identity_of_bans m1). by destruct (identity_of m1).
  - left. unfold node_AllowReserve, isAdmitted. destruct (_ !! p); [|done]. by destruct (negb _).
  - left. assert (∀ m p, bans (isAdmitted now m p).2 = bans m) as Hv.
    { intros m0 p. unfold isAdmitted. destruct (_ !! p); [|done]. by destruct (negb _). }
    unfold node_AllowConnect. specialize (Hv m src) as Hs. destruct (isAdmitted now m src) as [[] m1]; [|done]. cbn [negb]. by rewrite Hv.
  - left. unfold startKeyPruning. cbv zeta. by destruct (negb _); [rewrite persist_bans|].
  - right. left. destruct (sync_bans bans0 revs resolve m disk pull disk' r disk'' pull') as (rs & Hrs & Hb & _). by exists bans0, rs.
  - left. apply RefreshEnrollment_bans.
  - left. unfold bans. apply RevokeBiscuitID_peers.
  - left. unfold node_RevokeBiscuitToken, bans. destruct (UnmarshalInbound token) as [[b rules]|]; [|done]. destruct (last _); [|done]. apply RevokeBiscuitID_peers.
  - left. by apply (enroll_bans m (NEnroll disk resolve url r)).
  - left. by apply (enroll_bans m (NEnrollBootstrap disk resolve now url answer polls keys info admitted)).
  - left. by apply (enroll_bans m (NRenew disk resolve now refresh disk' src r after)).
  - left. by apply (enroll_bans m (NRecover disk now refresh disk' jwt r)).
  - left. by apply (enroll_bans m (NReEnroll disk jwt r)).
  - by left.
Qed.

(** The events that wait waited before or were received since. *)
Lemma run_inbox_since m before evs e :
  settled m → e ∈ mn_inbox (node_run m (before ++ evs)) →
  e ∈ mn_inbox (node_run m before) ∨ ∃ ev, ev ∈ evs ∧ e ∈ heard_events ev.
Proof.
  intros [Hin Hst].
  assert (Hrun : ∀ (E : MeshEvent → Prop) m0 evs, trust_ok (λ _, True) E (λ _, True) (mn_self m) (mn_RequiredRole m) True m0 →
    (∀ ev e, ev ∈ evs → e ∈ heard_events ev → E e) →
    trust_ok (λ _, True) E (λ _, True) (mn_self m) (mn_RequiredRole m) True (node_run m0 evs)).
  { intros E m0 evs0 Hm0 Hev. apply node_run_ok; try done. intros ev Hin'. split_and!; [done| |done|done]. intros e' signer data He' _ _ _. eauto. }
  assert (trust_ok (λ _, True) (λ _, True) (λ _, True) (mn_self m) (mn_RequiredRole m) True m) as Hm.
  { unfold trust_ok, trust_view, view_ok. rewrite Hin, Hst. split_and!; try done; [by rewrite Forall_forall|by left]. }
  pose proof (Hrun (λ _, True) m before Hm ltac:(done)) as Hb.
  assert (trust_ok (λ _, True) (λ e, e ∈ mn_inbox (node_run m before) ∨ ∃ ev, ev ∈ evs ∧ e ∈ heard_events ev) (λ _, True) (mn_self m)
    (mn_RequiredRole m) True (node_run m before)) as Hb'.
  { destruct Hb as (? & ? & ? & Hs & _ & ?). unfold trust_ok, trust_view, view_ok. split_and!; try done; try tauto. rewrite Forall_forall. auto. }
  intros He. unfold node_run in He. rewrite foldl_app in He. fold (node_run m before) in He. fold (node_run (node_run m before) evs) in He.
  destruct (Hrun _ _ evs Hb') as (_ & _ & _ & _ & Hi & _); [eauto|]. rewrite Forall_forall in Hi. by apply Hi.
Qed.

Lemma run_inbox m evs e : settled m → e ∈ mn_inbox (node_run m evs) → ∃ ev, ev ∈ evs ∧ e ∈ heard_events ev.
Proof.
  intros Hs He. destruct (run_inbox_since m [] evs e Hs He) as [Hin|?]; [|done]. destruct Hs as [Hnil _]. cbn in Hin. rewrite Hnil in Hin. by apply not_elem_of_nil in Hin.
Qed.

(** ** The order of events *)

(** The times of the last ban events. *)
Definition lasts (m : MeshNode) : gmap string Z := mn_peerLastEventTime m.

(** Nobody is admitted that was not, no handshake is opened and no ban event is
    handled. *)
Definition quieter (m m' : MeshNode) : Prop := mn_authPeers m' ⊆ mn_authPeers m ∧ lasts m' = lasts m ∧ mn_opening m' = mn_opening m.

#[local] Instance quieter_preorder : PreOrder quieter.
Proof.
  split; [by intros m; split|]. intros m1 m2 m3 (H1 & H2 & H3) (H4 & H5 & H6).
  split; [by etrans|]. split; congruence.
Qed.

Lemma store_write_quieter m save : quieter m (store_write m save).2.
Proof. unfold store_write. destruct (mn_store m) as [b|]; [|done]. by destruct (save b). Qed.

Lemma banPeer_quieter lru m p t : quieter m (banPeer lru m p t) ∧ mn_authPeers (banPeer lru m p t) !! p = None.
Proof.
  assert (mn_authPeers (banPeer lru m p t) = delete p (mn_authPeers m)) as Ha.
  { unfold banPeer. destruct (n_revokedPeers (mn_node m)); by destruct (mn_started _). }
  split; [|by rewrite Ha, lookup_delete_eq]. split; [rewrite Ha; apply delete_subseteq|].
  unfold banPeer. destruct (n_revokedPeers (mn_node m)); by destruct (mn_started _).
Qed.

Lemma reconcile_quieter lru m ids t : quieter m (node_reconcileBannedPeers lru m ids t).
Proof.
  unfold node_reconcileBannedPeers. destruct (n_revokedPeers (mn_node m)) as [c|]; [|done]. set (m0 := with_node m _). trans m0; [done|].
  generalize m0. clear m0. induction (remove_dups (decode_peers ids)) as [|p l IH]; intros m0; simpl; [done|]. etrans; [|apply IH]. unfold ban_listed.
  destruct (peer_revoked _ p); [done|]. apply banPeer_quieter.
Qed.

Lemma syncTrustedKeys_quieter commit now m answer : quieter m (node_syncTrustedKeys commit now m answer).2.
Proof. unfold node_syncTrustedKeys. destruct (syncTrustedKeys _ _ _); [|done]. cbn [snd]. unfold persistTrustedKeys. etrans; [|apply store_write_quieter]. done. Qed.

Lemma addTrustedKey_quieter commit now m key : quieter m (node_addTrustedKey commit now m key).
Proof. unfold node_addTrustedKey. destruct (containsTrustedKey _ _); [done|]. unfold persistTrustedKeys. etrans; [|apply store_write_quieter]. done. Qed.

Lemma adopt_identity_quieter disk m tok exp : quieter m (adopt_identity disk m tok exp).2.
Proof.
  unfold adopt_identity. pose proof (store_write_quieter m (λ b, SaveIdentity (disk WriteIdentity) b tok)) as H1.
  destruct (store_write m _) as [[[]|] m1]; [|done]. cbn [snd] in H1.
  pose proof (store_write_quieter (SetIdentityCache m1 tok) (λ b, SaveIdentityExpiration (disk WriteExpiration) b (expireUnix exp))) as H2.
  destruct (store_write (SetIdentityCache m1 tok) _) as [r2 m2]. cbn [snd] in *. etrans; [exact H1|]. etrans; [|exact H2].
  unfold SetIdentityCache. by destruct (negb _).
Qed.

Lemma RefreshEnrollment_quieter disk now m answer : quieter m (RefreshEnrollment disk now m answer).2.
Proof.
  unfold RefreshEnrollment. destruct (mn_store m) as [b|]; [|done]. destruct (_ ;; _) as [[tok exp]|]; [|done].
  pose proof (adopt_identity_quieter disk m tok exp) as Ha. destruct (adopt_identity disk m tok exp) as [[[]|] m1]; [|done].
  cbn [snd] in *. etrans; [exact Ha|]. apply (store_write_quieter m1).
Qed.

Lemma identity_of_quieter m : quieter m (identity_of m).2.
Proof. unfold identity_of. by destruct (GetIdentity (mn_node m)). Qed.

Lemma syncMeshInfo_quieter lru disk t resolve m answer : quieter m (syncMeshInfo lru disk t resolve m answer).2.
Proof.
  unfold syncMeshInfo. destruct answer as [info|]; [|done]. cbn [snd]. etrans; [|apply reconcile_quieter].
  trans (adopt_routers (disk WriteMeshConfig) t resolve m info); [|done]. unfold adopt_routers. destruct (bool_decide _ && _); [done|]. cbv zeta.
  match goal with |- quieter _ (with_info ?x _ _ _) => trans x; [|done] end. destruct (mn_store m) as [b2|]; [|done].
  destruct (LoadMeshConfig b2) as [[k a]|]; [|done]. destruct (negb _); [|done]. apply store_write_quieter.
Qed.

Lemma syncMeshPolicy_quieter m answer : quieter m (syncMeshPolicy m answer).2.
Proof.
  unfold syncMeshPolicy. destruct (mn_store m) as [b3|]; [|done]. destruct (negb _); [done|]. pose proof (identity_of_quieter m) as Hi.
  destruct (identity_of m) as [[tok|] m']; [|done]. destruct (_ ← _ ; _) as [[rules texts]|]; [|done]. cbn [snd] in *. etrans; [exact Hi|].
  by destruct (match mn_meshPolicyTexts m' with Some _ => _ | None => _ end).
Qed.

Lemma syncRevocations_quieter lru revs t m answer : quieter m (syncRevocations lru revs t m answer).2.
Proof.
  unfold syncRevocations. pose proof (identity_of_quieter m) as Hi. destruct (identity_of m) as [[tok|] m']; [|done]. cbn [snd] in Hi.
  destruct answer as [resp|]; [|done]. cbv zeta. cbn [snd]. etrans; [exact Hi|]. case_bool_decide; [done|]. etrans; [|apply reconcile_quieter]. done.
Qed.

Lemma once_quieter lru revs disk resolve m pull : quieter m (syncControlPlaneOnce lru revs disk resolve m pull).2.
Proof.
  unfold syncControlPlaneOnce. destruct (mn_store m) as [b|] eqn:Eb; [|done]. destruct (negb _); [done|].
  pose proof (syncTrustedKeys_quieter (disk WriteTrustedKeys) (pl_keysAt pull) m (pl_keys pull)) as H1.
  destruct (node_syncTrustedKeys _ _ m _) as [keys m1]. cbn [snd] in H1. etrans; [exact H1|]. clear H1.
  assert (quieter m1 (if is_ok keys && identityPredatesRotation m1 then RefreshEnrollment disk (pl_refreshAt pull) m1 (pl_refresh pull) else (Ok tt, m1)).2) as H2.
  { destruct (is_ok keys && _); [apply RefreshEnrollment_quieter|done]. }
  destruct (if is_ok keys && _ then _ else _) as [refresh m2]. cbn [snd] in H2. etrans; [exact H2|]. clear H2.
  pose proof (syncMeshInfo_quieter lru disk (pl_infoAt pull) resolve m2 (pl_info pull)) as H3.
  destruct (syncMeshInfo _ _ _ _ m2 _) as [info m3]. cbn [snd] in H3. etrans; [exact H3|]. clear H3.
  pose proof (syncMeshPolicy_quieter m3 (pl_policy pull)) as H4.
  destruct (syncMeshPolicy m3 _) as [policy m4]. cbn [snd] in H4. etrans; [exact H4|]. clear H4.
  pose proof (syncRevocations_quieter lru revs (pl_revocationsAt pull) m4 (pl_revocations pull)) as H5. by destruct (syncRevocations _ _ _ m4 _).
Qed.

Lemma recover_quieter disk m r : quieter m (recoverEnrollment disk m r).2.
Proof.
  unfold recoverEnrollment. destruct (rc_token r) as [token|]; [|done]. destruct (match mn_lastReenroll m with Some _ => _ | None => _ end); [done|].
  cbv zeta. destruct token; [|done]. destruct (mn_store _) as [b|]; [|done]. destruct (LoadControlPlaneURL b) as [url|]; [|done].
  set (m0 := with_reenroll m _). trans m0; [done|]. clearbody m0.
  unfold enrollBootstrapCredential. destruct (accept_enrollment _ _ _ _ _ _) as [resp|]; [|done].
  pose proof (adopt_identity_quieter disk m0 (be_BiscuitToken resp) (be_ExpireTime resp)) as Ha. destruct (adopt_identity disk m0 _ _) as [[[]|] m1]; [|done].
  pose proof (store_write_quieter m1 (λ b, SaveMeshConfig (disk WriteMeshConfig) (rc_now r) b (be_ControlPlanePublicKey resp) (be_RouterAddresses resp))) as Hs.
  destruct (store_write m1 _) as [[[]|] m2]; cbn [snd] in *; (etrans; [exact Ha|]); (etrans; [exact Hs|]); [|done].
  unfold adoptEnrolledKeys, recordIdentityKeySet. etrans; [|apply store_write_quieter]. etrans; [apply addTrustedKey_quieter|apply syncTrustedKeys_quieter].
Qed.

Lemma sync_quieter lru revs resolve m disk pull disk' r disk'' pull' : quieter m (SyncControlPlane lru revs resolve m disk pull disk' r disk'' pull').2.
Proof.
  unfold SyncControlPlane. pose proof (once_quieter lru revs disk resolve m pull) as H1. destruct (syncControlPlaneOnce lru revs disk resolve m pull) as [[[]|e] m1];
    cbn [snd] in H1; (etrans; [exact H1|]); [done|]. destruct (controlPlaneForgotUs e); [|done]. pose proof (recover_quieter disk' m1 r) as H2.
  destruct (recoverEnrollment disk' m1 r) as [[] m2]; cbn [snd] in H2; [|done]. etrans; [exact H2|apply once_quieter].
Qed.

Lemma isAdmitted_quieter now m p : quieter m (isAdmitted now m p).2.
Proof.
  unfold isAdmitted. destruct (_ !! p); [|done]. destruct (negb _); [|done]. split; [apply delete_subseteq|done].
Qed.

Lemma AllowConnect_quieter now m src dest : quieter m (node_AllowConnect now m src dest).2.
Proof.
  unfold node_AllowConnect. pose proof (isAdmitted_quieter now m src) as Hs. destruct (isAdmitted now m src) as [[] m1]; [|done]. cbn [negb].
  etrans; [exact Hs|apply isAdmitted_quieter].
Qed.

Lemma enroll_quieter m ev : enrolls ev = true → quieter m (node_step m ev).
Proof.
  intros He. pose proof (enroll_view m ev He) as Hv. unfold peers_view in Hv. injection Hv as _ Ha Hl Ho _. unfold quieter, lasts. by rewrite Ha, Hl, Ho.
Qed.

(** What a step that is neither a ban event, nor a handshake, nor a restart does
    to the peers. *)
Lemma step_quieter m ev :
  match ev with NListen _ _ _ _ | NOpen _ _ | NFrame _ _ _ | NRestart _ _ _ _ => True | _ => quieter m (node_step m ev) end.
Proof.
  destruct ev; cbn [node_step]; try done.
  - unfold receive_event. destruct msg; [|done]. by destruct (node_validateMeshEvent _ _ _).
  - apply isAdmitted_quieter.
  - apply AllowConnect_quieter.
  - unfold startKeyPruning, persistTrustedKeys. cbv zeta. destruct (negb _); [|done]. etrans; [|apply store_write_quieter]. done.
  - apply sync_quieter.
  - by apply (enroll_quieter m (NRefresh disk now answer)).
  - by apply (enroll_quieter m (NEnroll disk resolve url r)).
  - by apply (enroll_quieter m (NEnrollBootstrap disk resolve now url answer polls keys info admitted)).
  - by apply (enroll_quieter m (NRenew disk resolve now refresh disk' src r after)).
  - by apply (enroll_quieter m (NRecover disk now refresh disk' jwt r)).
  - by apply (enroll_quieter m (NReEnroll disk jwt r)).
Qed.

(** A ban event that is handled is not older than the last one. *)
Lemma step_lasts m ev p : ¬ restarts ev → (default 0 (lasts m !! p) ≤ default 0 (lasts (node_step m ev) !! p))%Z.
Proof.
  intros Hr. pose proof (step_quieter m ev) as Hq. destruct ev; try (destruct Hq as (_ & -> & _)); try done; try (by exfalso; apply Hr); cbn [node_step].
  - unfold listenForControlPlaneEvents. destruct (mn_inbox m) as [|e inbox]; [done|]. destruct allowed; [|done]. cbn [negb]. destruct (me_Type e).
    + unfold handleBannedEvent. destruct (peer_Decode (me_PeerId e)) as [q|]; [|done]. cbv zeta. cbn [mn_peerLastEventTime with_events].
      destruct (Z.ltb_spec (event_ms e) (default 0%Z (mn_peerLastEventTime m !! q))) as [|Hle]; [done|].
      rewrite (proj1 (proj2 (proj1 (banPeer_quieter lru _ q (event_ms e))))). unfold lasts in *. cbn.
      destruct (decide (q = p)) as [->|Hne]; [by rewrite lookup_insert_eq|by rewrite lookup_insert_ne].
    + unfold handleKeyRotationEvent. destruct (negb _); [done|]. change (lasts (node_emit ?x _)) with (lasts x).
      by rewrite (proj1 (proj2 (addTrustedKey_quieter (disk WriteAddedKey) now (with_events m (mn_peerLastEventTime m) inbox) (me_NewPublicKey e)))).
    + done.
  - unfold handshake_open. destruct (peer_revoked _ _); [done|]. by destruct allowed.
  - unfold handshake_frame. destruct (negb _); [done|]. destruct frame as [[data|]|]; [|done..].
    destruct (VerifyBiscuitAndGetExpiry _ _ _ _); [|done]. set (m1 := with_peers _ _ _). change (lasts m) with (lasts m1). clearbody m1.
    rewrite <-(proj1 (proj2 (identity_of_quieter m1))). by destruct (identity_of m1).
Qed.

(** ** A cache with room *)

Section room.
Context (U : gset string) (HU : (Z.of_nat (size U) < RevocationCacheSize)%Z).

(** The peers that an event names as banned are in [U]. *)
Definition in_universe (ev : NodeEvent) : Prop :=
  (∀ ids t p, (ids, t) ∈ event_lists ev → p ∈ decode_peers ids → p ∈ U) ∧ (∀ e p, e ∈ heard_events ev → bans_peer e p → p ∈ U).

Lemma lru_Add_within lru (c : gmap string Z) p t : dom c ⊆ U → p ∈ U → lru_Add lru c p t = <[p := t]> c ∧ dom (lru_Add lru c p t) ⊆ U.
Proof.
  intros Hc Hp. assert (lru_Add lru c p t = <[p := t]> c) as ->.
  { apply lru_Add_room. right. rewrite <-(size_dom (D := gset string)). pose proof (subseteq_size _ _ Hc). lia. }
  split; [done|]. rewrite dom_insert. set_solver.
Qed.

Lemma reconciled_within lru (c : gmap string Z) ids t : dom c ⊆ U → (∀ p, p ∈ decode_peers ids → p ∈ U) →
  dom (reconciled lru c (ids, t)) ⊆ U ∧
  ∀ p, reconciled lru c (ids, t) !! p =
    match c !! p with
    | Some b => if bool_decide (p ∈ decode_peers ids ∨ (UnixMilli t ≤ b)%Z) then Some b else None
    | None => if bool_decide (p ∈ decode_peers ids) then Some (UnixMilli t) else None
    end.
Proof.
  intros Hc Hids. unfold reconciled.
  assert (Hfold : ∀ l (c0 : gmap string Z), dom c0 ⊆ U → (∀ p, p ∈ l → p ∈ U) →
    let c' := foldl (λ c p, if bool_decide (is_Some (c !! p)) then c else lru_Add lru c p (UnixMilli t)) c0 l in
    dom c' ⊆ U ∧ ∀ p, c' !! p = match c0 !! p with Some b => Some b | None => if bool_decide (p ∈ l) then Some (UnixMilli t) else None end).
  { induction l as [|q l IH]; intros c0 Hc0 Hl; simpl.
    - split; [done|]. intros p. destruct (c0 !! p); [done|]. done.
    - case_bool_decide as Hq.
      + destruct (IH c0 Hc0) as [Hd Hlk]; [intros; apply Hl; by right|]. split; [done|]. intros p. rewrite Hlk. destruct (c0 !! p) eqn:Ep; [done|].
        assert (p ≠ q) by (intros ->; rewrite Ep in Hq; by destruct Hq). by rewrite (bool_decide_ext (p ∈ q :: l) (p ∈ l)) by set_solver.
      + destruct (lru_Add_within lru c0 q (UnixMilli t) Hc0) as [Heq Hd0]; [apply Hl; by left|].
        destruct (IH _ Hd0) as [Hd Hlk]; [intros; apply Hl; by right|]. split; [done|]. intros p. rewrite Hlk, Heq.
        destruct (decide (p = q)) as [->|Hne].
        * rewrite lookup_insert_eq. apply eq_None_not_Some in Hq. rewrite Hq. rewrite bool_decide_true by by left. done.
        * rewrite lookup_insert_ne by done. destruct (c0 !! p); [done|]. by rewrite (bool_decide_ext (p ∈ q :: l) (p ∈ l)) by set_solver. }
  set (c0 := filter _ c). destruct (Hfold (remove_dups (decode_peers ids)) c0) as [Hd Hlk].
  - etrans; [apply dom_filter_subseteq|done].
  - intros p Hp. apply Hids. by rewrite elem_of_remove_dups in Hp.
  - split; [done|]. intros p. rewrite Hlk. subst c0. rewrite map_lookup_filter. destruct (c !! p) as [b|]; simpl.
    + repeat case_guard; repeat case_bool_decide; simpl; try done; exfalso; rewrite ?elem_of_remove_dups in *; tauto.
    + do 2 case_bool_decide; [done| | |done]; rewrite elem_of_remove_dups in *; done.
Qed.

(** The cache exists and stays within the universe. *)
Definition cache_within (m : MeshNode) : Prop := ∃ c, bans m = Some c ∧ dom c ⊆ U.

Lemma lists_within lru (c : gmap string Z) rs : dom c ⊆ U → (∀ ids t p, (ids, t) ∈ rs → p ∈ decode_peers ids → p ∈ U) →
  dom (foldl (reconciled lru) c rs) ⊆ U.
Proof.
  revert c. induction rs as [|[ids t] rs IH]; intros c Hc Hrs; simpl; [done|]. apply IH; [|intros ids' t' p Hx; eapply Hrs; by right].
  apply reconciled_within; [done|]. intros p. eapply Hrs. by left.
Qed.

(** Every event that waits bans a peer of the universe. *)
Definition inbox_within (m : MeshNode) : Prop := ∀ e p, e ∈ mn_inbox m → bans_peer e p → p ∈ U.

Lemma run_inbox_within m evs : settled m → (∀ ev, ev ∈ evs → in_universe ev) → inbox_within (node_run m evs).
Proof. intros Hs Hev e p (ev & Hin & He)%run_inbox Hb; [|done]. by eapply Hev. Qed.

Lemma step_within m ev : in_universe ev → inbox_within m → cache_within m → cache_within (node_step m ev).
Proof.
  intros [Hl He] Hi (c & Hc & Hd). destruct (decide (restarts ev)) as [Hr|Hr].
  { destruct ev; try done. exists ∅. split; [done|]. by rewrite dom_empty_L. }
  destruct (step_bans m ev Hr) as [Hs|[(lru & rs & Hrs & Hs)|(lru & e & p & Hin & Hb & _ & Hs)]]; rewrite Hc in Hs.
  - by exists c.
  - exists (foldl (reconciled lru) c rs). split; [done|]. apply lists_within; [done|]. intros ids t p Hx. by eapply Hl, Hrs.
  - exists (lru_Add lru c p (event_ms e)). split; [done|]. apply lru_Add_within; [done|by eapply Hi].
Qed.

Lemma run_within m evs : settled m → (∀ ev, ev ∈ evs → in_universe ev) → cache_within m → cache_within (node_run m evs).
Proof.
  intros Hs Hev Hm. unfold node_run. induction evs as [|ev evs IH] using rev_ind; [done|]. rewrite foldl_snoc. apply step_within.
  - apply Hev. apply elem_of_app. right. by left.
  - apply run_inbox_within; [done|]. intros; apply Hev, elem_of_app. by left.
  - apply IH. intros; apply Hev, elem_of_app. by left.
Qed.

(** ** Convergence *)

(** The bans of the control plane at each time. *)
Context (B : time → gset string) (T0 : time) (p : string) (d : bool).

(** Times here are those of the node's clock.  A list that is pulled at [t] is the
    control plane's at [t] or later. *)
Definition truthful (ev : NodeEvent) : Prop :=
  ∀ ids t, (ids, t) ∈ event_lists ev → ∃ t', (t ≤ t')%Z ∧ ∀ q, q ∈ decode_peers ids ↔ q ∈ B t'.

(** The event is after [T0]: its pulls are. *)
Definition later (ev : NodeEvent) : Prop :=
  ¬ restarts ev ∧ (∀ ids t, (ids, t) ∈ event_lists ev → (T0 ≤ t)%Z).

(** No ban event about a peer that is not banned is heard, or waits. *)
Definition no_false_ban (ev : NodeEvent) : Prop := ∀ e, e ∈ heard_events ev → bans_peer e p → d = true.
Definition none_waits (m : MeshNode) : Prop := ∀ e, e ∈ mn_inbox m → bans_peer e p → d = true.

(** The verdict of the control plane on [p] from [T0] on. *)
Definition verdict_since : Prop := ∀ t, (T0 ≤ t)%Z → (p ∈ B t ↔ d = true).

Definition agrees (c : gmap string Z) : Prop := is_Some (c !! p) ↔ d = true.

Lemma reconciled_agrees lru c ids t t' : dom c ⊆ U → (∀ q, q ∈ decode_peers ids → q ∈ U) → verdict_since → (T0 ≤ t)%Z → (t ≤ t')%Z →
  (∀ q, q ∈ decode_peers ids ↔ q ∈ B t') →
  agrees c ∨ (d = false → ∀ b, c !! p = Some b → (b < UnixMilli t)%Z) → agrees (reconciled lru c (ids, t)).
Proof.
  intros Hc Hids Hv Ht Ht' Hq Hor. destruct (reconciled_within lru c ids t Hc Hids) as [_ Hlk]. unfold agrees in *. rewrite Hlk.
  assert (p ∈ decode_peers ids ↔ d = true) as Hp by (rewrite Hq; apply Hv; lia). clear Hlk.
  destruct d.
  - destruct Hp as [_ Hp]. specialize (Hp eq_refl). split; [done|]. intros _. destruct (c !! p); rewrite bool_decide_true by auto; eauto.
  - assert (p ∉ decode_peers ids) as Hn by (intros [=]%Hp). split; [|done]. intros Hs. exfalso.
    destruct (c !! p) as [b|] eqn:Eb; [|rewrite bool_decide_false in Hs by done; by destruct Hs].
    destruct Hor as [[Ha _]|Hb]; [specialize (Ha (mk_is_Some _ _ eq_refl)); done|]. specialize (Hb eq_refl b eq_refl).
    rewrite bool_decide_false in Hs by (intros [?|?]; [done|lia]). by destruct Hs.
Qed.

Lemma lists_agree lru c rs : verdict_since → dom c ⊆ U → (∀ ids t q, (ids, t) ∈ rs → q ∈ decode_peers ids → q ∈ U) →
  (∀ ids t, (ids, t) ∈ rs → (T0 ≤ t)%Z ∧ ∃ t', (t ≤ t')%Z ∧ ∀ q, q ∈ decode_peers ids ↔ q ∈ B t') →
  agrees c → agrees (foldl (reconciled lru) c rs).
Proof.
  intros Hv. revert c. induction rs as [|[ids t] rs IH]; intros c Hc HrsU Hrs Ha; simpl; [done|].
  destruct (Hrs ids t) as (Ht & t' & Ht' & Hq); [by left|].
  assert (∀ q, q ∈ decode_peers ids → q ∈ U) as HidsU by (intros q; eapply HrsU; by left).
  apply IH.
  - by apply reconciled_within.
  - intros ids' t'' q Hx. eapply HrsU. by right.
  - intros ids' t'' Hx. apply Hrs. by right.
  - eapply reconciled_agrees; try done. by left.
Qed.

Lemma step_agrees m ev c : verdict_since → truthful ev → later ev → in_universe ev → inbox_within m →
  (∀ e, e ∈ mn_inbox m → bans_peer e p → d = true) → bans m = Some c → dom c ⊆ U → agrees c →
  ∃ c', bans (node_step m ev) = Some c' ∧ agrees c'.
Proof.
  intros Hv Htr [Hr Hlat] [HlU _] Hi Hfalse Hc Hd Ha.
  destruct (step_bans m ev Hr) as [Hs|[(lru & rs & Hrs & Hs)|(lru & e & q & Hin & Hb & _ & Hs)]]; rewrite Hc in Hs; simpl in Hs; eexists; (split; [exact Hs|]).
  - done.
  - apply lists_agree; try done.
    + intros ids t q Hx. by eapply HlU, Hrs.
    + intros ids t Hx. split; [by eapply Hlat, Hrs|]. by apply Htr, Hrs.
  - destruct (lru_Add_within lru c q (event_ms e) Hd) as [-> _]; [by eapply Hi|]. unfold agrees in *.
    destruct (decide (q = p)) as [->|Hne]; [|by rewrite lookup_insert_ne].
    rewrite lookup_insert_eq. rewrite (Hfalse e Hin Hb). by split.
Qed.

(** The pull is made and answered. *)
Definition pulled (m : MeshNode) (ev : NodeEvent) (info : InfoResponse) (t : time) : Prop :=
  enrolled m ∧ match ev with NSync _ _ _ _ pull _ _ _ _ => pl_info pull = Ok info ∧ pl_infoAt pull = t | _ => False end.

Lemma pull_agrees m ev c info t : verdict_since → pulled m ev info t → truthful ev → later ev → in_universe ev →
  bans m = Some c → dom c ⊆ U → (d = false → ∀ b, c !! p = Some b → (b < UnixMilli t)%Z) →
  ∃ c', bans (node_step m ev) = Some c' ∧ agrees c'.
Proof.
  intros Hv [Hen Hp] Htr [_ Hlat] [HlU _] Hc Hd Hold. destruct ev; try done. destruct Hp as [Hinfo <-]. cbn [node_step].
  destruct (sync_bans bans0 revs resolve m disk pull disk' r disk'' pull') as (rs & Hrs & Hb & Hhd). rewrite Hc in Hb. simpl in Hb.
  destruct (Hhd Hen info Hinfo) as [rs' ->]. eexists. split; [exact Hb|]. simpl. set (ids := in_BannedPeerIds info) in *.
  assert ((ids, pl_infoAt pull) ∈ event_lists (NSync bans0 revs resolve disk pull disk' r disk'' pull')) as Hx by (apply Hrs; by left).
  assert (∀ q, q ∈ decode_peers ids → q ∈ U) as HidsU by (intros q; by eapply HlU).
  destruct (Htr _ _ Hx) as (t' & Ht' & Hq). apply lists_agree; try done.
  - by apply reconciled_within.
  - intros ids' t'' q Hy. eapply HlU, Hrs. by right.
  - intros ids' t'' Hy. split; [eapply Hlat, Hrs|apply Htr, Hrs]; by right.
  - eapply reconciled_agrees; try done; [by eapply Hlat|]. by right.
Qed.

(** What a node does about a peer with the verdict [d]: its gater refuses the
    peer when it is banned, and so does the handshake. *)
Definition enforces (m : MeshNode) : Prop :=
  peer_revoked (mn_node m) p = d ∧ node_InterceptPeerDial m p = negb d ∧ node_InterceptSecured m p = negb d ∧
  (d = true → ∀ allowed, handshake_open m p allowed = m).

Lemma agrees_enforces m c : bans m = Some c → agrees c → enforces m.
Proof.
  intros Hc Ha. assert (peer_revoked (mn_node m) p = d) as Hp.
  { unfold peer_revoked. fold (bans m). rewrite Hc. unfold agrees in Ha. destruct d; [by apply bool_decide_eq_true, Ha|].
    apply bool_decide_eq_false. intros [=]%Ha. }
  unfold enforces, node_InterceptPeerDial, node_InterceptSecured. rewrite Hp. split_and!; try done. intros ->. intros allowed.
  unfold handshake_open. by rewrite Hp.
Qed.

(** C8: A node comes to hold the control plane's verdict on a peer and keeps it:
    when the peer is banned, or is not banned, from some time on, then once the
    node has pulled since, it refuses the peer, or does not, for as long as it
    runs without a restart, whatever other pulls, handshakes, enrollments and
    events about others there are.  This holds when what it pulls from then on
    is the control plane's list at the time of the pull or later, when no ban
    event about a peer that is not banned waits at the pull or is heard
    afterwards (a ban that is delivered late bans the peer again until the next
    pull, [delayed_ban_returns]), when the bans that the node recorded for a peer
    that is not banned are dated before the pull (a ban is dated by the control
    plane's clock), and when all peers that are ever banned fit the cache. *)
Theorem bans_converge m before ev after info t :
  settled m → cache_within m → (∀ ev', ev' ∈ before ++ ev :: after → in_universe ev') →
  verdict_since → pulled (node_run m before) ev info t → none_waits (node_run m before) →
  (d = false → ∀ c b, bans (node_run m before) = Some c → c !! p = Some b → (b < UnixMilli t)%Z) →
  (∀ ev', ev' ∈ ev :: after → truthful ev' ∧ later ev' ∧ no_false_ban ev') →
  enforces (node_run m (before ++ ev :: after)).
Proof.
  intros Hs Hw Hev Hv Hpull Hnone Hold Hafter.
  assert (Hb : ∀ evs, evs `prefix_of` before ++ ev :: after → cache_within (node_run m evs) ∧ inbox_within (node_run m evs)).
  { intros evs [rest Hrest]. assert (∀ ev', ev' ∈ evs → in_universe ev') as Hevs.
    { intros ev' Hin. apply Hev. rewrite Hrest, elem_of_app. by left. }
    split; [by apply run_within|by apply run_inbox_within]. }
  assert (Hf : ∀ evs, evs `prefix_of` ev :: after → none_waits (node_run m (before ++ evs))).
  { intros evs [rest Hrest] e He Hban. apply run_inbox_since in He as [He|(ev' & Hin & He)]; [by eapply Hnone| |done].
    assert (ev' ∈ ev :: after) as Hin' by (rewrite Hrest, elem_of_app; by left). by eapply (proj2 (proj2 (Hafter ev' Hin'))). }
  assert (∃ c, bans (node_run m (before ++ ev :: after)) = Some c ∧ agrees c) as (c & Hc & Ha); [|by eapply agrees_enforces].
  induction after as [|ev' after IH] using rev_ind.
  - destruct (Hb before) as ((c & Hc & Hd) & _); [by eexists|]. unfold node_run. rewrite foldl_snoc. fold (node_run m before).
    destruct (Hafter ev) as (? & ? & _); [by left|]. eapply pull_agrees; try done; [|by intros; eapply Hold].
    apply Hev. apply elem_of_app. right. by left.
  - destruct IH as (c & Hc & Ha).
    + intros e' He'. apply Hev. apply elem_of_app in He' as [?|[->|?]%elem_of_cons]; set_solver.
    + intros e' [->|He']%elem_of_cons; apply Hafter; set_solver.
    + intros evs Hp. apply Hb. etrans; [exact Hp|]. exists [ev']. by rewrite <-(assoc_L (++)).
    + intros evs Hp. apply Hf. etrans; [exact Hp|]. by exists [ev'].
    + destruct (Hb (before ++ ev :: after)) as ((c0 & Hc0 & Hd) & Hi); [exists [ev']; by rewrite <-(assoc_L (++))|].
      rewrite Hc in Hc0. injection Hc0 as <-. change (before ++ ev :: after ++ [ev']) with (before ++ (ev :: after) ++ [ev']).
      rewrite (assoc_L (++)). unfold node_run. rewrite foldl_snoc. fold (node_run m (before ++ ev :: after)).
      destruct (Hafter ev') as (? & ? & _); [set_solver|]. eapply step_agrees; try done; [apply Hev; set_solver|]. apply Hf. by exists [ev'].
Qed.

(** The node has recorded a ban of [p] as of [T0] or later. *)
Definition recorded (m : MeshNode) : Prop :=
  ∃ c b, bans m = Some c ∧ c !! p = Some b ∧ (UnixMilli T0 ≤ b)%Z ∧ (UnixMilli T0 ≤ default 0 (lasts m !! p))%Z.

Lemma reconciled_recorded lru c ids t t' b : dom c ⊆ U → (∀ q, q ∈ decode_peers ids → q ∈ U) → (∀ t, (T0 ≤ t)%Z → p ∈ B t) → (t ≤ t')%Z →
  (∀ q, q ∈ decode_peers ids ↔ q ∈ B t') → c !! p = Some b → (UnixMilli T0 ≤ b)%Z → reconciled lru c (ids, t) !! p = Some b.
Proof.
  intros Hc Hids Hv Ht' Hq Hb HT. destruct (reconciled_within lru c ids t Hc Hids) as [_ Hlk]. rewrite Hlk, Hb.
  rewrite bool_decide_true; [done|]. destruct (Z.le_gt_cases T0 t) as [Hle|Hgt]; [left; apply Hq, Hv; lia|]. right.
  etrans; [|exact HT]. apply UnixMilli_mono. lia.
Qed.

Lemma step_recorded m ev : (∀ t, (T0 ≤ t)%Z → p ∈ B t) → ¬ restarts ev → truthful ev → in_universe ev → inbox_within m → cache_within m →
  recorded m → recorded (node_step m ev).
Proof.
  intros Hv Hr Htr [HlU _] Hi (c & Hc & Hd) (c' & b & Hc' & Hb & HT & Hlast). rewrite Hc in Hc'. injection Hc' as <-.
  pose proof (step_lasts m ev p Hr) as Hle. unfold recorded.
  assert (∃ c' b', bans (node_step m ev) = Some c' ∧ c' !! p = Some b' ∧ (UnixMilli T0 ≤ b')%Z) as (c' & b' & ? & ? & ?);
    [|exists c', b'; split_and!; [done..|lia]].
  destruct (step_bans m ev Hr) as [Hs|[(lru & rs & Hrs & Hs)|(lru & e & q & Hin & Hban & Hord & Hs)]]; rewrite Hc in Hs; simpl in Hs.
  - by exists c, b.
  - exists (foldl (reconciled lru) c rs), b. split; [done|]. split; [|done]. clear Hs Hc. revert c Hd Hb. induction rs as [|[ids t] rs IH]; intros c Hd Hb; simpl; [done|].
    assert ((ids, t) ∈ event_lists ev) as Hx by (apply Hrs; by left). destruct (Htr ids t Hx) as (t' & Ht' & Hq).
    assert (∀ q, q ∈ decode_peers ids → q ∈ U) as HidsU by (intros q; by eapply HlU).
    apply IH; [intros y Hy; apply Hrs; by right|by apply reconciled_within|by eapply reconciled_recorded].
  - exists (lru_Add lru c q (event_ms e)). destruct (lru_Add_within lru c q (event_ms e) Hd) as [Heq _]; [by eapply Hi|]. rewrite Heq in *.
    destruct (decide (q = p)) as [->|Hne]; [|exists b; by rewrite lookup_insert_ne]. exists (event_ms e). rewrite lookup_insert_eq. unfold lasts in Hlast. split_and!; [done..|]. lia.
Qed.

(** The next event that waits is a ban of [p], as of [T0] or later, and not older
    than one the node handled. *)
Definition ban_next (m : MeshNode) : Prop := ∃ e inbox, mn_inbox m = e :: inbox ∧ bans_peer e p ∧ (UnixMilli T0 ≤ event_ms e)%Z ∧
  (default 0 (lasts m !! p) ≤ event_ms e)%Z.

Lemma handled_recorded m lru disk now : ban_next m → cache_within m → recorded (node_step m (NListen lru disk now true)).
Proof.
  intros (e & inbox & Hin & [Ht Hd] & HT & Hl) (c & Hc & _). unfold recorded. cbn [node_step]. unfold listenForControlPlaneEvents. rewrite Hin. cbn [negb].
  rewrite Ht. unfold handleBannedEvent. rewrite Hd. cbv zeta. cbn [mn_peerLastEventTime with_events]. unfold lasts in Hl. apply Z.ltb_ge in Hl as ->.
  exists (lru_Add lru c p (event_ms e)), (event_ms e). rewrite banPeer_bans, (proj1 (proj2 (proj1 (banPeer_quieter lru _ p (event_ms e))))). split_and!; [|apply lru_Add_new|done|].
  - unfold bans in Hc |- *. cbn [with_events mn_node]. by rewrite Hc.
  - unfold lasts. cbn. by rewrite lookup_insert_eq.
Qed.

(** C9: A ban that reaches a node as an event holds at once and is not undone by an
    answer that is older: once the node has handled it, the node refuses the peer
    for as long as it runs without a restart and the control plane bans the
    peer, even when a pull that began before the ban, and so does not list it, is
    answered afterwards, and when older ban events arrive late.  The event's
    time, which the control plane's clock gives, must not be before the time the
    ban took effect by the node's clock, at which pulls are dated: when the
    control plane's clock is behind, an older pull lifts the ban
    ([skewed_ban_lifted]).  All peers that are ever banned must fit the cache. *)
Theorem ban_event_holds m before lru disk now after :
  settled m → cache_within m → (∀ ev, ev ∈ before ++ NListen lru disk now true :: after → in_universe ev) →
  (∀ t, (T0 ≤ t)%Z → p ∈ B t) → ban_next (node_run m before) → (∀ ev, ev ∈ after → truthful ev ∧ ¬ restarts ev) →
  let m' := node_run m (before ++ NListen lru disk now true :: after) in
  peer_revoked (mn_node m') p = true ∧ node_InterceptSecured m' p = false ∧ ∀ allowed, handshake_open m' p allowed = m'.
Proof.
  intros Hs Hw Hev Hv Hnext Hafter m'. assert (recorded m') as (c & b & Hc & Hb & _).
  { subst m'. induction after as [|ev after IH] using rev_ind.
    - unfold node_run. rewrite foldl_snoc. apply handled_recorded; [done|]. apply run_within; try done. intros; apply Hev, elem_of_app; by left.
    - change (before ++ NListen lru disk now true :: after ++ [ev]) with (before ++ (NListen lru disk now true :: after) ++ [ev]) in *.
      rewrite (assoc_L (++)) in *. unfold node_run. rewrite foldl_snoc. fold (node_run m (before ++ NListen lru disk now true :: after)).
      assert (∀ ev', ev' ∈ before ++ NListen lru disk now true :: after → in_universe ev') by (intros; apply Hev, elem_of_app; by left).
      destruct (Hafter ev) as [? ?]; [set_solver|].
      apply step_recorded; [done..|apply Hev; set_solver|by apply run_inbox_within|by apply run_within|]. apply IH; [done|]. intros; apply Hafter; set_solver. }
  assert (peer_revoked (mn_node m') p = true) as Hp.
  { unfold peer_revoked. fold (bans m'). rewrite Hc. apply bool_decide_eq_true. by exists b. }
  split_and!; [done| |].
  - unfold node_InterceptSecured. by rewrite Hp.
  - intros allowed. unfold handshake_open. by rewrite Hp.
Qed.
End room.
End node.
