(* ===== verification/NodeRelayFacts.v ===== *)
(** * The peers a node relays for

    What a history makes true of the peers that a node has admitted. *)

From S2P Require Import Prelude GoStrings Regex Names Biscuit NaiveEngine Facts DatalogText Grants Labels HTTPGrants PolicyRules Egress Base64 Tar Token TokenModel Identity Middleware MiddlewareFacts Directory Keyring Router Decimal Store NodeStore NodeRouters NodeSync NodeSyncFacts NodeBanFacts.

Section node.
Context `{UC : UnicodeCase, TC : TARCodec, BT : BiscuitTokens, TX : BiscuitText, BE : BiscuitEngine, PC : PeerCodec, MA : Multiaddr, PB : PeerBytes,
  KC : KeysCodec, ED : Ed25519, EC : EventCodec, CC : CredentialCodec}.

(** The frame that admits [p] to [exp]. *)
Definition frame_admits (m : MeshNode) (ev : NodeEvent) (p : string) (exp : time) : Prop :=
  p ∈ mn_opening m ∧ ∃ now data, ev = NFrame now p (Ok (Ok data)) ∧ VerifyBiscuitAndGetExpiry now data p (getTrustedPublicKeys m) = Ok exp.

(** The event evicts [p]: the node handles a ban of it. *)
Definition evicts (m : MeshNode) (ev : NodeEvent) (p : string) : Prop :=
  ∃ lru disk now e inbox, ev = NListen lru disk now true ∧ mn_inbox m = e :: inbox ∧ bans_peer e p ∧ (default 0 (lasts m !! p) ≤ event_ms e)%Z.

Lemma listen_peers lru disk now m allowed : mn_authPeers (listenForControlPlaneEvents lru disk now m allowed) ⊆ mn_authPeers m ∧
  mn_opening (listenForControlPlaneEvents lru disk now m allowed) = mn_opening m ∧
  ∀ p, evicts m (NListen lru disk now allowed) p → mn_authPeers (listenForControlPlaneEvents lru disk now m allowed) !! p = None.
Proof.
  unfold listenForControlPlaneEvents. destruct (mn_inbox m) as [|e inbox] eqn:Ei.
  { split_and!; [done..|]. intros p (? & ? & ? & e & inbox & _ & Hin & _). by rewrite Ei in Hin. }
  assert (Hno : ∀ p, evicts m (NListen lru disk now allowed) p → allowed = true ∧ bans_peer e p ∧ (default 0 (lasts m !! p) ≤ event_ms e)%Z).
  { intros p (lru' & disk' & now' & e' & inbox' & Heq & Hin & Hb & Hl). rewrite Ei in Hin. injection Hin as <- <-. by injection Heq as _ _ _ ->. }
  destruct allowed; cbn [negb]; [|split_and!; [done..|]; by intros p [[=] _]%Hno]. destruct (me_Type e) eqn:Et.
  - unfold handleBannedEvent. destruct (peer_Decode (me_PeerId e)) as [q|] eqn:Ed; cbv zeta; cbn [mn_peerLastEventTime with_events].
    2: { split_and!; [done..|]. intros p (_ & [_ Hd] & _)%Hno. by rewrite Ed in Hd. }
    destruct (Z.ltb_spec (event_ms e) (default 0%Z (mn_peerLastEventTime m !! q))) as [Hlt|Hle].
    { split_and!; [done..|]. intros p (_ & [_ Hd] & Hl)%Hno. rewrite Ed in Hd. injection Hd as ->. unfold lasts in Hl. lia. }
    set (m1 := with_events _ _ _). destruct (banPeer_quieter lru m1 q (event_ms e)) as [(Ha & _ & Ho) Hn]. split_and!; [done..|].
    intros p (_ & [_ Hd] & _)%Hno. rewrite Ed in Hd. by injection Hd as <-.
  - split_and!; [..|by intros p (_ & [Ht _] & _)%Hno; rewrite Et in Ht]; unfold handleKeyRotationEvent; (destruct (negb _); [done|]);
      cbn [node_emit mn_authPeers mn_opening];
      destruct (addTrustedKey_quieter (disk WriteAddedKey) now (with_events m (mn_peerLastEventTime m) inbox) (me_NewPublicKey e)) as (Ha & _ & Ho);
      [exact Ha|exact Ho].
  - split_and!; [done..|]. by intros p (_ & [Ht _] & _)%Hno; rewrite Et in Ht.
Qed.

Lemma frame_peers now m q frame p exp : mn_authPeers (handshake_frame now m q frame).2 !! p = Some exp →
  mn_authPeers m !! p = Some exp ∨ frame_admits m (NFrame now q frame) p exp.
Proof.
  unfold handshake_frame. destruct (bool_decide_reflect (q ∈ mn_opening m)) as [Hq|Hq]; cbn [negb]; [|by left].
  destruct frame as [[data|]|]; [|by left..]. set (m1 := with_peers m _ _). change (getTrustedPublicKeys m1) with (getTrustedPublicKeys m).
  destruct (VerifyBiscuitAndGetExpiry now data q (getTrustedPublicKeys m)) as [e|] eqn:Ev; [|by left].
  set (m2 := with_peers m1 _ _). destruct (identity_of_quieter m2) as [Ha _]. destruct (identity_of m2) as [ident m3]. cbn [snd] in *.
  intros Hp%(λ H, lookup_weaken _ _ _ _ H Ha). cbn in Hp. apply lookup_insert_Some in Hp as [[-> ->]|[_ Hp]]; [|by left].
  right. split; [done|]. by exists now, data.
Qed.

Lemma frame_opening now m q frame p : p ∈ mn_opening (handshake_frame now m q frame).2 → p ∈ mn_opening m.
Proof.
  unfold handshake_frame. destruct (negb _); [done|]. destruct frame as [[data|]|]; cbn; [|set_solver..].
  destruct (VerifyBiscuitAndGetExpiry _ _ _ _) as [e|]; [|set_solver]. set (m2 := with_peers (with_peers m _ _) _ _).
  destruct (identity_of_quieter m2) as (_ & _ & Ho). destruct (identity_of m2) as [ident m3]. cbn [snd] in *. rewrite Ho. cbn. set_solver.
Qed.

Lemma step_opening m ev p : p ∈ mn_opening (node_step m ev) → p ∈ mn_opening m ∨ (ev = NOpen p true ∧ peer_revoked (mn_node m) p = false).
Proof.
  pose proof (step_quieter m ev) as Hq. destruct ev; try (destruct Hq as (_ & _ & ->)); auto; cbn [node_step].
  - destruct (listen_peers lru disk now m allowed) as (_ & -> & _). by left.
  - unfold handshake_open. destruct (peer_revoked (mn_node m) p0) eqn:Er; [by left|]. destruct allowed; cbn [negb]; [|by left]. cbn.
    intros [->%elem_of_singleton|?]%elem_of_union; [by right|by left].
  - intros ?%frame_opening. by left.
  - cbn. intros ?%elem_of_empty. done.
Qed.

(** The peer began a handshake when it was not banned, and ended it with a
    credential that a key trusted then verifies for it and that is not expired
    at [now]; it has not been evicted since. *)
Definition node_admitted (m : MeshNode) (evs : list NodeEvent) (now : time) (p : string) : Prop :=
  ∃ exp before ev after, evs = before ++ ev :: after ∧ (now < exp)%Z ∧ frame_admits (node_run m before) ev p exp ∧
    (∃ b1 b2, before = b1 ++ NOpen p true :: b2 ∧ peer_revoked (mn_node (node_run m b1)) p = false) ∧
    ∀ a1 ev' a2, after = a1 ++ ev' :: a2 → ¬ restarts ev' ∧ ¬ evicts (node_run m (before ++ ev :: a1)) ev' p.

(** A node that has just been made. *)
Definition no_peers (m : MeshNode) : Prop := mn_authPeers m = ∅ ∧ mn_opening m = ∅.

Lemma run_opening m evs p : no_peers m → p ∈ mn_opening (node_run m evs) →
  ∃ b1 b2, evs = b1 ++ NOpen p true :: b2 ∧ peer_revoked (mn_node (node_run m b1)) p = false.
Proof.
  intros [_ H0]. unfold node_run. induction evs as [|ev evs IH] using rev_ind; [simpl; by rewrite H0|]. rewrite foldl_snoc.
  intros [Hp|[-> Hr]]%step_opening; [|by exists evs, []]. destruct (IH Hp) as (b1 & b2 & -> & Hr). exists b1, (b2 ++ [ev]).
  split; [by rewrite <-(assoc_L (++))|done].
Qed.

Lemma step_authPeers m ev p exp : mn_authPeers (node_step m ev) !! p = Some exp →
  (mn_authPeers m !! p = Some exp ∧ ¬ restarts ev ∧ ¬ evicts m ev p) ∨ frame_admits m ev p exp.
Proof.
  pose proof (step_quieter m ev) as Hq. intros Hp.
  assert (Hno : ∀ m', quieter m m' → mn_authPeers m' !! p = Some exp → mn_authPeers m !! p = Some exp).
  { intros m' [Ha _] H. by eapply lookup_weaken. }
  assert (Hev : (∀ lru disk now, ev ≠ NListen lru disk now true) → ¬ evicts m ev p).
  { intros Hne (lru & disk & now & e & inbox & -> & _). by eapply Hne. }
  destruct ev; try (left; split_and!; [by eapply Hno|by intros []|by apply Hev]); cbn [node_step] in Hp.
  - destruct (listen_peers lru disk now m allowed) as (Ha & _ & Hevict). left. split_and!; [by eapply lookup_weaken|by intros []|].
    intros He%Hevict. congruence.
  - left. unfold handshake_open in Hp. split_and!; [|by intros []|by apply Hev]. destruct (peer_revoked _ _); [done|]. by destruct allowed.
  - apply frame_peers in Hp as [Hp|Hp]; [|by right]. left. split_and!; [done|by intros []|by apply Hev].
Qed.

Lemma node_run_admission m evs p exp now : no_peers m → mn_authPeers (node_run m evs) !! p = Some exp → (now < exp)%Z → node_admitted m evs now p.
Proof.
  intros H0 Hp Hnow. revert Hp. induction evs as [|ev evs IH] using rev_ind; [simpl; rewrite (proj1 H0); by rewrite lookup_empty|].
  unfold node_run at 1. rewrite foldl_snoc. fold (node_run m evs). intros [(Hp & Hr & He)|Hf]%step_authPeers.
  - destruct (IH Hp) as (e & before & ev0 & after & -> & Hlt & Hfr & Hop & Haf). exists e, before, ev0, (after ++ [ev]).
    split_and!; [by rewrite <-(assoc_L (++))|done..|]. intros a1 ev' a2 Heq. destruct a2 as [|x a2 _] using rev_ind.
    + apply app_inj_tail in Heq as [-> ->]. done.
    + rewrite app_comm_cons, (assoc_L (++)) in Heq. apply app_inj_tail in Heq as [Heq _]. by eapply Haf.
  - exists exp, evs, ev, []. split_and!; [done..| |].
    + apply run_opening; [done|]. apply Hf.
    + intros a1 ev' a2 Heq. by destruct a1.
Qed.

End node.

(** * Revoked tokens

    What revoking a token does to it, to the tokens attenuated from it and to
    its parent, and that the revocations a node pulls take effect. *)

(** ** Lengths of encodings *)

Lemma RawURL_Encode_len s : 3 * len (RawURL_Encode s) < 4 * len s + 3.
Proof. revert s. fix IH 1. intros [|a [|b [|c r]]]; [cbn; lia..|]. specialize (IH r). cbn [RawURL_Encode]. simpl len. lia. Qed.

Lemma RawURL_Encode_inj s t : RawURL_Encode s = RawURL_Encode t → s = t.
Proof. intros Heq. apply (inj Ok). by rewrite <-!RawURL_Decode_Encode, Heq. Qed.

Lemma hex_DecodeString_len s raw : hex_DecodeString s = Ok raw → len s = 2 * len raw.
Proof.
  revert s raw. fix IH 1. intros [|c [|d s]] raw; cbn [hex_DecodeString]; [by intros [= <-]|done|].
  destruct (hex_value c); [|done]. destruct (hex_value d); [|done]. destruct (hex_DecodeString s) as [t|] eqn:E; [|done]. cbn. intros [= <-].
  apply IH in E. cbn. lia.
Qed.

(** What hexadecimal would make of an encoded signature is not a signature. *)
Lemma encoded_not_hex id raw id' : len id = 64 → len id' = 64 → hex_DecodeString (RawURL_Encode id) = Ok raw → RawURL_Encode raw ≠ RawURL_Encode id'.
Proof. intros Hid Hid' Hd%hex_DecodeString_len Heq%RawURL_Encode_inj. subst raw. pose proof (RawURL_Encode_len id). lia. Qed.

Section node.
Context `{UC : UnicodeCase, TC : TARCodec, BT : BiscuitTokens, BE : BiscuitEngine, PC : PeerCodec}.

(** When a revocation ends. *)
Definition revoked_to (now expiry : time) : time := if bool_decide (expiry = zero_time) then (now + BiscuitTokenTTL)%Z else expiry.

Definition tokens (n : AgentMeshNode) : gmap string time := default ∅ (n_revokedTokens n).

(** There is room for the entries of one revocation. *)
Definition room (n : AgentMeshNode) : Prop := (Z.of_nat (size (tokens n)) + 1 < RevocationCacheSize)%Z.

Lemma RevokeBiscuitID_cache lru now n id expiry : id ≠ "" → room n →
  n_revokedTokens (node_RevokeBiscuitID lru now n id expiry) = Some (
    match hex_DecodeString id with
    | Ok raw => if 0 <? len raw then <[RawURL_Encode raw := revoked_to now expiry]> (<[id := revoked_to now expiry]> (tokens n))
                else <[id := revoked_to now expiry]> (tokens n)
    | Err _ => <[id := revoked_to now expiry]> (tokens n)
    end).
Proof.
  intros Hid Hroom. unfold node_RevokeBiscuitID. rewrite bool_decide_false by done. cbv zeta. change (default ∅ (n_revokedTokens n)) with (tokens n).
  change (if bool_decide (expiry = zero_time) then (now + BiscuitTokenTTL)%Z else expiry) with (revoked_to now expiry).
  cbn [set_revokedTokens n_revokedTokens]. f_equal. rewrite (lru_Add_room lru (tokens n)) by (right; unfold room in Hroom; lia).
  destruct (hex_DecodeString id) as [raw|]; [|done]. destruct (0 <? len raw); [|done]. apply lru_Add_room. right.
  unfold room in Hroom. rewrite map_size_insert. destruct (tokens n !! id); unfold Datatypes.id; lia.
Qed.

End node.

(** ** Example *)

#[local] Existing Instances ascii_case one_rule_codec example_tokens naive_engine plain_codec.

#[refine] Definition plain_lru {V} : Lru V := {| lru_Add c k v := <[k := v]> c |}.
Proof.
  - intros c k v. by rewrite lookup_insert_eq.
  - intros c k v k' v' Hne. by rewrite lookup_insert_ne.
  - done.
Defined.

Definition revoking_node : AgentMeshNode :=
  {| n_revokedPeers := Some ∅; n_revokedTokens := Some ∅; n_trustedKeys := []; n_nodeConfig := None; n_MeshPolicyRules := [];
     n_cachedIdentity := None; n_storedIdentity := None |}.

