(* ===== verification/NodeScenario.v ===== *)
(** * A node's history, played

    Concrete parameters for the node's theorems, and the histories that show
    that their hypotheses can hold. *)

From stdpp Require Import countable.
From S2P Require Import Prelude GoStrings Regex Names Biscuit NaiveEngine Facts DatalogText Grants Labels HTTPGrants PolicyRules Egress Base64 Tar Token TokenModel Identity Middleware Directory Keyring KeyringFacts Router Decimal Store NodeStore NodeRouters NodeSync NodeSyncFacts NodeBanFacts NodeRelayFacts.

(** ** A codec for credentials *)

#[local] Instance Timestamp_countable : Countable Timestamp :=
  inj_countable' (λ t, (ts_seconds t, ts_nanos t, ts_unknown t)) (λ '(s, n, u), {| ts_seconds := s; ts_nanos := n; ts_unknown := u |})
    (λ t, match t with Build_Timestamp _ _ _ => eq_refl end).
#[local] Instance OIDCSession_eq_dec : EqDecision OIDCSession.
Proof. solve_decision. Defined.
#[local] Instance OIDCSession_countable : Countable OIDCSession :=
  inj_countable' (λ s, (os_Issuer s, os_ClientId s, os_Audience s, os_RefreshToken s))
    (λ '(i, c, a, r), {| os_Issuer := i; os_ClientId := c; os_Audience := a; os_RefreshToken := r |})
    (λ s, match s with Build_OIDCSession _ _ _ _ => eq_refl end).
#[local] Instance TrustedSigningKey_eq_dec : EqDecision TrustedSigningKey.
Proof. solve_decision. Defined.
#[local] Instance TrustedSigningKey_countable : Countable TrustedSigningKey :=
  inj_countable' (λ k, (sk_PublicKey k, sk_ReceiveTime k)) (λ '(k, t), {| sk_PublicKey := k; sk_ReceiveTime := t |})
    (λ k, match k with Build_TrustedSigningKey _ _ => eq_refl end).
#[local] Instance MemberCredential_eq_dec : EqDecision MemberCredential.
Proof. solve_decision. Defined.
#[local] Instance MemberCredential_countable : Countable MemberCredential :=
  inj_countable' (λ c, (mc_ControlPlaneUrl c, mc_Biscuit c, mc_ExpireTime c, mc_TrustedKeys c, mc_IssuedUnderKeys c, mc_RouterAddresses c, mc_OidcSession c))
    (λ '(u, b, e, k, i, r, o), {| mc_ControlPlaneUrl := u; mc_Biscuit := b; mc_ExpireTime := e; mc_TrustedKeys := k; mc_IssuedUnderKeys := i;
                                  mc_RouterAddresses := r; mc_OidcSession := o |})
    (λ c, match c with Build_MemberCredential _ _ _ _ _ _ _ => eq_refl end).

(** The bits of a positive number. *)
Fixpoint bits (p : positive) : string :=
  match p with xH => "1" | xO p => String "0" (bits p) | xI p => String "2" (bits p) end.
Fixpoint unbits (s : string) : positive :=
  match s with
  | String "0" s => xO (unbits s)
  | String "2" s => xI (unbits s)
  | _ => xH
  end.
Lemma unbits_bits p : unbits (bits p) = p.
Proof. induction p as [p IH|p IH|]; simpl; by rewrite ?IH. Qed.

#[local, refine] Instance bits_codec : CredentialCodec := {|
  cred_Marshal c := Ok (if bool_decide (c = empty_credential) then "" else bits (encode c));
  cred_Unmarshal s := if bool_decide (s = "") then Ok empty_credential
                      else match decode (unbits s) with Some c => Ok c | None => Err (NewError "proto: cannot parse") end |}.
Proof.
  - intros c data [= <-]. destruct (bool_decide_reflect (c = empty_credential)) as [->|Hc]; [done|].
    rewrite bool_decide_false by (by destruct (encode c)). by rewrite unbits_bits, stdpp.countable.decode_encode.
  - intros c. destruct (bool_decide_reflect (c = empty_credential)) as [->|Hc]; [done|]. intros Heq%(inj Ok). by destruct (encode c).
Defined.

(** A cache that evicts the smallest key when it is full. *)
Definition evict {V} (c : gmap string V) : gmap string V := match sorted_keys c with [] => c | k :: _ => delete k c end.

#[refine] Definition small_lru {V} : Lru V := {|
  lru_Add c k v := <[k := v]> (if bool_decide (is_Some (c !! k)) || (Z.of_nat (size c) <? RevocationCacheSize)%Z then c else evict c) |}.
Proof.
  - intros c k v. by rewrite lookup_insert_eq.
  - intros c k v k' v' Hne. rewrite lookup_insert_ne by done. destruct (_ || _); [done|]. unfold evict. destruct (sorted_keys c); [done|].
    by intros [_ ?]%lookup_delete_Some.
  - intros c k v Hor. f_equal. case_bool_decide; [done|]. destruct Hor as [?|Hlt]; [done|]. by apply Z.ltb_lt in Hlt as ->.
Defined.

#[local] Existing Instances ascii_case one_rule_codec example_tokens naive_engine reference_text plain_codec text_addrs text_peers open_signatures plain_payload.

#[local] Instance plain_events : EventCodec := {| marshal_event _ p _ k := Ok (p +:+ "|" +:+ k) |}.

(** ** The node *)

Definition all_written : Disk := λ _, Ok tt.

Definition at_ms (ms : Z) : time := (ms * 1000000)%Z.

Definition node_credential : MemberCredential :=
  {| mc_ControlPlaneUrl := "https://cp"; mc_Biscuit := ""; mc_ExpireTime := None; mc_TrustedKeys := [{| sk_PublicKey := key1; sk_ReceiveTime := None |}];
     mc_IssuedUnderKeys := [key1]; mc_RouterAddresses := []; mc_OidcSession := None |}.

Definition node_bucket : gmap string string := {[ keyCredential := bits (encode node_credential) ]}.

Definition scenario_node : MeshNode :=
  NewAgentMeshNode 0%Z {| no_self := "12D3p2"; no_RequiredRole := ""; no_ControlPlanePubKey := ""; no_NodeConfig := None; no_RouterAddrs := [] |} (Some node_bucket).

Lemma scenario_settled : settled scenario_node.
Proof. by split. Qed.

Lemma scenario_url : LoadControlPlaneURL node_bucket = Ok "https://cp".
Proof. by vm_compute. Qed.

Lemma scenario_enrolled : enrolled scenario_node.
Proof. exists node_bucket, "https://cp". split; [reflexivity|]. split; [exact scenario_url|done]. Qed.

(** A signed event. *)
Definition signed_event (signer : PublicKey) ty (p : string) (t : time) (k : PublicKey) : MeshEvent :=
  {| me_Type := ty; me_PeerId := p; me_EventTime := Some (timestamp_New t); me_NewPublicKey := k; me_Signature := signer +:+ p +:+ "|" +:+ k |}.

(** A list of keys with everyone's signature. *)
Definition signed_list (keys : list PublicKey) (t : time) : KeysResponse :=
  {| kres_PublicKeys := keys; kres_Signatures := (λ k, k +:+ Join keys ",") <$> keys; kres_SignTime := Some (timestamp_New t) |}.

Definition refused {A} : result A := Err (StatusError 503).

(** A pull of keys and bans. *)
Definition pull_at (t : time) (keys : result KeysResponse) (banned : list string) : Pull :=
  {| pl_keysAt := t; pl_keys := keys; pl_refreshAt := t; pl_refresh := refused; pl_infoAt := t;
     pl_info := Ok {| in_RouterAddresses := []; in_Routers := []; in_Directory := None; in_BannedPeerIds := banned |};
     pl_policy := refused; pl_egress := Ok tt; pl_revocationsAt := t; pl_revocations := refused |}.

Definition no_recovery : Recovery := {| rc_now := 0%Z; rc_token := None; rc_answer := refused; rc_polls := []; rc_keys := refused |}.

Definition sync_event (pull : Pull) : NodeEvent := NSync small_lru small_lru (λ a, Ok [a]) all_written pull all_written no_recovery all_written pull.

Definition listen (now : time) : NodeEvent := NListen small_lru all_written now true.

(** A rotation to a second key, which then vouches for a third; the node
    restarts. *)
Definition rotations : list NodeEvent := [
  NReceive (at_ms 1000) (Ok (signed_event key1 KEY_ROTATION "" (at_ms 1000) key2));
  listen (at_ms 1001);
  sync_event (pull_at (at_ms 2000) (Ok (signed_list [key2; key3] (at_ms 2000))) []);
  NRestart (at_ms 3000) "" None []].


(** ** Bans *)

Definition bad : string := "12D3bad".
Definition always_banned : time → gset string := λ _, {[ bad ]}.

(** Two pulls that list the peer. *)
Definition banned_pulls : list NodeEvent := [
  sync_event (pull_at (at_ms 2000) refused [bad]);
  NOpen bad true;
  sync_event (pull_at (at_ms 3000) refused [bad])].

Lemma banned_lists t keys ids u : (ids, u) ∈ event_lists (sync_event (pull_at t keys [bad])) → ids = [bad] ∧ u = t.
Proof. intros Hx. cbn in Hx. by apply elem_of_cons in Hx as [[= -> ->]|Hx%list_elem_of_singleton]; [|injection Hx as -> ->]. Qed.

(** A peer that was banned until 1.5 s: a pull of 1 s lists it, the next does not. *)
Definition banned_until (t0 : time) : time → gset string := λ t, if (t <? t0)%Z then {[ bad ]} else ∅.
Definition lifted_pulls : list NodeEvent := [sync_event (pull_at (at_ms 1000) refused [bad]); sync_event (pull_at (at_ms 2000) refused []); NOpen bad true].

Lemma empty_lists t keys ids u : (ids, u) ∈ event_lists (sync_event (pull_at t keys [])) → ids = [] ∧ u = t.
Proof. intros Hx. cbn in Hx. by apply elem_of_cons in Hx as [[= -> ->]|Hx%list_elem_of_singleton]; [|injection Hx as -> ->]. Qed.

(** Both verdicts: the peer is refused after two pulls that list it, and let
    through after a pull that no longer does. *)
Lemma bans_converge_witness :
  enforces bad true (node_run scenario_node banned_pulls) ∧ enforces bad false (node_run scenario_node lifted_pulls).
Proof.
  assert (Hroom : cache_within {[ bad ]} scenario_node) by (exists ∅; split; [done|]; by rewrite dom_empty_L).
  assert (Hlisted : ∀ t, in_universe {[ bad ]} (sync_event (pull_at t refused [bad]))).
  { intros t. split; [|by intros e q He%not_elem_of_nil]. intros ids u q [-> _]%banned_lists Hq. cbn in Hq. apply list_elem_of_singleton in Hq as ->. by apply elem_of_singleton. }
  assert (Hopen : in_universe {[ bad ]} (NOpen bad true)) by (split; [by intros ids u q Hx%not_elem_of_nil|by intros e q He%not_elem_of_nil]).
  split.
  - apply (bans_converge {[ bad ]} ltac:(by vm_compute) always_banned (at_ms 1000) bad true scenario_node []
      (sync_event (pull_at (at_ms 2000) refused [bad])) [NOpen bad true; sync_event (pull_at (at_ms 3000) refused [bad])]
      {| in_RouterAddresses := []; in_Routers := []; in_Directory := None; in_BannedPeerIds := [bad] |} (at_ms 2000)).
    + exact scenario_settled.
    + exact Hroom.
    + intros ev Hev. cbn [app] in Hev. apply elem_of_cons in Hev as [->|[->|[->|Hev%not_elem_of_nil]%elem_of_cons]%elem_of_cons]; [apply Hlisted|exact Hopen|apply Hlisted|done].
    + intros t _. split; [done|]. intros _. unfold always_banned. by apply elem_of_singleton.
    + split; [exact scenario_enrolled|done].
    + done.
    + done.
    + assert (Hlist : ∀ t, (at_ms 1000 ≤ t)%Z →
        truthful always_banned (sync_event (pull_at t refused [bad])) ∧ later (at_ms 1000) (sync_event (pull_at t refused [bad])) ∧
        no_false_ban bad true (sync_event (pull_at t refused [bad]))).
      { intros t Ht. split; [|split; [split; [by intros []|by intros ids u [_ ->]%banned_lists]|done]]. intros ids u [-> ->]%banned_lists. exists t. split; [done|].
        intros q. change (decode_peers [bad]) with [bad]. unfold always_banned. by rewrite list_elem_of_singleton, elem_of_singleton. }
      intros ev Hev. apply elem_of_cons in Hev as [->|[->|[->|Hev%not_elem_of_nil]%elem_of_cons]%elem_of_cons]; [by apply Hlist| |by apply Hlist|done].
      split; [by intros ids u Hx%not_elem_of_nil|]. split; [split; [by intros []|by intros ids u Hx%not_elem_of_nil]|done].
  - apply (bans_converge {[ bad ]} ltac:(by vm_compute) (banned_until (at_ms 1500)) (at_ms 1500) bad false scenario_node
      [sync_event (pull_at (at_ms 1000) refused [bad])] (sync_event (pull_at (at_ms 2000) refused [])) [NOpen bad true]
      {| in_RouterAddresses := []; in_Routers := []; in_Directory := None; in_BannedPeerIds := [] |} (at_ms 2000)).
    + exact scenario_settled.
    + exact Hroom.
    + intros ev Hev. cbn [app] in Hev. apply elem_of_cons in Hev as [->|[->|[->|Hev%not_elem_of_nil]%elem_of_cons]%elem_of_cons]; [apply Hlisted| |exact Hopen|done].
      split; [|by intros e q He%not_elem_of_nil]. intros ids u q [-> _]%empty_lists Hq. by apply not_elem_of_nil in Hq.
    + intros t Ht. unfold banned_until. apply Z.ltb_ge in Ht as ->. split; [by intros ?%elem_of_empty|done].
    + split; [|done]. exists (default ∅ (mn_store (node_run scenario_node [sync_event (pull_at (at_ms 1000) refused [bad])]))), "https://cp".
      split; [by vm_compute|]. split; [by vm_compute|done].
    + intros e He. vm_compute in He. by apply not_elem_of_nil in He.
    + intros _ c b Hc Hb. vm_compute in Hc. injection Hc as <-. vm_compute in Hb. injection Hb as <-. by vm_compute.
    + intros ev Hev. apply elem_of_cons in Hev as [->|[->|Hev%not_elem_of_nil]%elem_of_cons]; [..|done].
      * split; [|split; [split; [by intros []|by intros ids u [_ ->]%empty_lists]|by intros e He%not_elem_of_nil]].
        intros ids u [-> ->]%empty_lists. exists (at_ms 2000). split; [done|]. intros q. change (decode_peers []) with (@nil string).
        change (banned_until (at_ms 1500) (at_ms 2000)) with (∅ : gset string). split; [by intros ?%not_elem_of_nil|by intros ?%elem_of_empty].
      * split; [by intros ids u Hx%not_elem_of_nil|]. split; [split; [by intros []|by intros ids u Hx%not_elem_of_nil]|by intros e He%not_elem_of_nil].
Defined.

(** A ban of 1.5 s, heard and handled while a pull of 1 s is under way. *)
Definition ban_heard : list NodeEvent := [NReceive (at_ms 1501) (Ok (signed_event key1 BANNED bad (at_ms 1500) ""))].
Definition late_answer : NodeEvent := sync_event (pull_at (at_ms 1000) refused []).
Definition banned_from (t0 : time) : time → gset string := λ t, if (t0 <=? t)%Z then {[ bad ]} else ∅.

Lemma ban_event_holds_witness :
  peer_revoked (mn_node (node_run scenario_node (ban_heard ++ [listen (at_ms 1502); late_answer]))) bad = true.
Proof.
  apply (ban_event_holds {[ bad ]} ltac:(by vm_compute) (banned_from (at_ms 1500)) (at_ms 1500) bad scenario_node ban_heard
    small_lru all_written (at_ms 1502) [late_answer]).
  - exact scenario_settled.
  - exists ∅. split; [done|]. by rewrite dom_empty_L.
  - intros ev Hev. cbn [app ban_heard] in Hev.
    apply elem_of_cons in Hev as [->|[->|[->|Hev%not_elem_of_nil]%elem_of_cons]%elem_of_cons]; [..|done].
    + split; [by intros ids t q Hx%not_elem_of_nil|]. intros e q ->%list_elem_of_singleton [_ Hd]. cbn in Hd. injection Hd as <-. by apply elem_of_singleton.
    + split; [by intros ids t q Hx%not_elem_of_nil|by intros e q He%not_elem_of_nil].
    + split; [|by intros e q He%not_elem_of_nil]. intros ids t q Hx Hq. exfalso. cbn in Hx.
      by apply elem_of_cons in Hx as [[= -> _]|[= -> _]%list_elem_of_singleton]; apply not_elem_of_nil in Hq.
  - intros t Ht. unfold banned_from. apply Z.leb_le in Ht as ->. by apply elem_of_singleton.
  - exists (signed_event key1 BANNED bad (at_ms 1500) ""), []. split; [by vm_compute|]. split; [done|]. by vm_compute.
  - intros ev ->%list_elem_of_singleton. split; [|by intros []]. intros ids t Hx. exists (at_ms 1000).
    cbn in Hx. assert (ids = [] ∧ t = at_ms 1000) as [-> ->] by (by apply elem_of_cons in Hx as [[= -> ->]|[= -> ->]%list_elem_of_singleton]).
    split; [done|]. intros q. change (decode_peers []) with (@nil string). change (banned_from (at_ms 1500) (at_ms 1000)) with (∅ : gset string).
    split; [by intros ?%not_elem_of_nil|]. by intros ?%elem_of_empty.
Defined.

(** ** What the rules leave open *)

(** A ban is kept by the time of its event, not by when the node recorded it:
    when the control plane's clock is behind, an answer from before the ban
    lifts it. *)
Example skewed_ban_lifted :
  let heard := node_run scenario_node [NReceive (at_ms 2001) (Ok (signed_event key1 BANNED bad (at_ms 1500) "")); listen (at_ms 2001)] in
  peer_revoked (mn_node heard) bad = true ∧
  peer_revoked (mn_node (node_step heard (sync_event (pull_at (at_ms 2000) refused [])))) bad = false.
Proof. by vm_compute. Qed.

(** A ban that is heard late, though still fresh, bans again a peer that is no
    longer banned, until the next pull. *)
Example delayed_ban_returns :
  let lifted := node_run scenario_node [sync_event (pull_at (at_ms 2000) refused [])] in
  let heard := node_run lifted [NReceive (at_ms 2500) (Ok (signed_event key1 BANNED bad (at_ms 1500) "")); listen (at_ms 2501)] in
  peer_revoked (mn_node lifted) bad = false ∧ peer_revoked (mn_node heard) bad = true ∧
  peer_revoked (mn_node (node_step heard (sync_event (pull_at (at_ms 3000) refused [])))) bad = false.
Proof. by vm_compute. Qed.

(** A registration in the renewal loop takes the key of the answer, whoever
    answers: the credential of the answer is not verified under a key that the
    node trusts, as it is when a node recovers with its bootstrap token. *)
Example registration_takes_any_key :
  let stranger := {| ep_ErrorMessage := ""; ep_BiscuitToken := "anything"; ep_ControlPlanePublicKey := key3; ep_ExpireTime := None; ep_RouterAddresses := [] |} in
  let r := {| rg_now := at_ms 2000; rg_answer := Ok stranger; rg_keys := refused; rg_info := refused; rg_admitted := Ok tt |} in
  let m := node_step scenario_node (NRenew all_written (λ a, Ok [a]) (at_ms 2000) refused all_written (Some (Ok "jwt")) r (at_ms 2001)) in
  (key3 ∉ getTrustedPublicKeys scenario_node) ∧ (key3 ∈ getTrustedPublicKeys m) ∧ (GetIdentity (mn_node m)).1 = Some "anything" ∧
  getTrustedPublicKeys (node_step scenario_node (NRenew all_written (λ a, Ok [a]) (at_ms 2000) refused all_written None r (at_ms 2001))) =
  getTrustedPublicKeys scenario_node.
Proof.
  cbv zeta. split; [apply (bool_decide_unpack _); by vm_compute|]. split; [apply (bool_decide_unpack _); by vm_compute|]. by vm_compute.
Qed.

(** A refusal of the node's credential counts only when no other status is in
    the way. *)
Example masked_refusal :
  controlPlaneForgotUs (JoinError (WrapError "keys" (StatusError 503)) (WrapError "policy" (WrapError "failed to fetch mesh policy" (StatusError 401)))) = false ∧
  controlPlaneForgotUs (WrapError "policy" (WrapError "failed to fetch mesh policy" (StatusError 401))) = true.
Proof. by vm_compute. Qed.

(** A first policy that is empty leaves no trace, so that the one that follows
    it does not have the node announce its services again; later changes do. *)
Example change_from_empty_missed :
  let n := with_node scenario_node (set_cachedIdentity (mn_node scenario_node) "credential") in
  let pull texts m := (syncMeshPolicy m (Ok {| po_DatalogRules := texts; po_Unknown := false |})).2 in
  let granted := pull ["p($x) <- q($x)"] (pull [] n) in
  length (n_MeshPolicyRules (mn_node granted)) = 1 ∧ mn_out granted = [] ∧
  mn_out (pull ["p($x) <- q($x)"; "r($x) <- q($x)"] granted) = [TriggerReprovide].
Proof. by vm_compute. Qed.

(** ** Relaying *)

Definition relay_node : MeshNode :=
  NewAgentMeshNode 0%Z {| no_self := "12D3p3"; no_RequiredRole := ""; no_ControlPlanePubKey := example_public; no_NodeConfig := None; no_RouterAddrs := [] |} None.

Definition handshakes : list NodeEvent := [
  NOpen "12D3p1" true; NFrame (5 * second)%Z "12D3p1" (Ok (Ok (token_bytes 0)));
  NOpen "12D3p2" true; NFrame (6 * second)%Z "12D3p2" (Ok (Ok (token_bytes 4)))].

