(* ===== verification/Effects.v ===== *)
(** * Programs over calls

    A handler that talks to other services in the middle of its work is a
    program over an interface of calls, each with its type of replies; what the
    other side answers is left open.  A program answers along a trace when each
    call of the trace is its next one and it goes on with the reply that the
    trace has.  The node's proxies are such programs; the calls are declared
    where they are used. *)

From S2P Require Import Prelude.

Inductive eprog {call : Type} (reply : call → Type) (A : Type) :=
| ERet (a : A)
| EDo (c : call) (k : reply c → eprog reply A).
Arguments ERet {call reply A} a.
Arguments EDo {call reply A} c k.

Section effects.
Context {call : Type} {reply : call → Type}.
Abbreviation prog := (eprog reply).

Definition eperform (c : call) : prog (reply c) := EDo c ERet.

#[global] Instance eprog_ret : MRet prog := λ _, ERet.
Fixpoint eprog_bind_ {A B} (f : A → prog B) (p : prog A) : prog B :=
  match p with
  | ERet a => f a
  | EDo c k => EDo c (λ r, eprog_bind_ f (k r))
  end.
#[global] Instance eprog_bind : MBind prog := @eprog_bind_.

Abbreviation event := (sigT reply).

(** The program answers [a] along the trace. *)
Fixpoint eruns {A} (p : prog A) (tr : list event) (a : A) {struct p} : Prop :=
  match p, tr with
  | ERet b, [] => b = a
  | EDo c k, e :: tr => ∃ r, e = existT c r ∧ eruns (k r) tr a
  | _, _ => False
  end.

Lemma eruns_ret {A} (b : A) tr a : eruns (ERet b) tr a ↔ tr = [] ∧ b = a.
Proof. destruct tr; cbn; naive_solver. Qed.

Lemma eruns_do {A} c (k : reply c → prog A) tr a :
  eruns (EDo c k) tr a ↔ ∃ r tr', tr = existT c r :: tr' ∧ eruns (k r) tr' a.
Proof. destruct tr as [|e tr]; cbn; naive_solver. Qed.

Lemma eruns_bind {A B} (p : prog A) (k : A → prog B) tr b :
  eruns (p ≫= k) tr b ↔ ∃ tr1 tr2 a, tr = tr1 ++ tr2 ∧ eruns p tr1 a ∧ eruns (k a) tr2 b.
Proof.
  split.
  - revert tr. induction p as [a|c f IH]; intros tr Hr.
    + by exists [], tr, a.
    + apply eruns_do in Hr as (r & tr' & -> & (tr1 & tr2 & a & -> & Hp & Hk)%IH).
      exists (existT c r :: tr1), tr2, a. split_and!; [done| |done]. by exists r.
  - intros (tr1 & tr2 & a & -> & Hp & Hk). revert tr1 Hp. induction p as [a'|c f IH]; intros tr1 Hp.
    + apply eruns_ret in Hp as [-> ->]. done.
    + apply eruns_do in Hp as (r & tr' & -> & Hp). cbn. exists r. split; [done|]. by apply IH.
Qed.

Lemma eruns_perform {B} c (k : reply c → prog B) tr b :
  eruns (eperform c ≫= k) tr b ↔ ∃ r tr', tr = existT c r :: tr' ∧ eruns (k r) tr' b.
Proof. apply (eruns_do c (λ r, k r)). Qed.

(** A program run with the replies of a function. *)
Fixpoint erun {A} (env : ∀ c, reply c) (p : prog A) : list event * A :=
  match p with
  | ERet a => ([], a)
  | EDo c k => let '(tr, a) := erun env (k (env c)) in (existT c (env c) :: tr, a)
  end.

Lemma erun_runs {A} env (p : prog A) : eruns p (erun env p).1 (erun env p).2.
Proof.
  induction p as [a|c k IH]; cbn; [done|]. specialize (IH (env c)). destruct (erun env (k (env c))) as [tr a]. cbn in *. by exists (env c).
Qed.

(** What holds of every call of a program, whatever is replied. *)
Fixpoint ecalls {A} (P : call → Prop) (p : prog A) : Prop :=
  match p with
  | ERet _ => True
  | EDo c k => P c ∧ ∀ r, ecalls P (k r)
  end.

Lemma ecalls_bind {A B} P (p : prog A) (k : A → prog B) : ecalls P p → (∀ a, ecalls P (k a)) → ecalls P (p ≫= k).
Proof. induction p as [a|c f IH]; cbn; [auto|]. intros [Hc Hf] Hk. split; [done|]. intros r. by apply IH. Qed.

Lemma ecalls_perform P c : P c → ecalls P (eperform c).
Proof. by split. Qed.

Lemma ecalls_eruns {A} P (p : prog A) tr a : ecalls P p → eruns p tr a → ∀ c r, existT c r ∈ tr → P c.
Proof.
  revert tr. induction p as [b|c f IH]; intros tr Hc Hr c' r'.
  - apply eruns_ret in Hr as [-> _]. by intros ?%elem_of_nil.
  - apply eruns_do in Hr as (r & tr' & -> & Hr). destruct Hc as [Hc Hf].
    intros [He|Hin]%elem_of_cons; [|by eapply IH]. assert (c' = c) as -> by (by inversion He). done.
Qed.

Lemma ecalls_mono {A} (P Q : call → Prop) (p : prog A) : (∀ c, P c → Q c) → ecalls P p → ecalls Q p.
Proof. intros HPQ. induction p as [a|c f IH]; cbn; [done|]. intros [Hc Hf]. split; [auto|]. intros r. by apply IH. Qed.
End effects.
Arguments eperform {call} reply c.

(** * Programs that share a cache

    Several parts of a node ask another service for a token and keep it: they look
    under a key, ask when nothing usable is there, and add what they were given.
    Requests run at once and share the cache, which may drop entries at any time.
    This file has the programs, what holds of the calls of one along the way, and
    what a shared cache can hold. *)

(** ** Calls *)

Section calls.
Context {V other : Type} (oreply : other → Type).

Inductive ccall :=
| KGet (key : string)
| KAdd (key : string) (v : V)
| KRemove (key : string)
| KCall (c : other).

Definition creply (c : ccall) : Type :=
  match c with
  | KGet _ => option V
  | KAdd _ _ | KRemove _ => unit
  | KCall c => oreply c
  end.
End calls.
Arguments ccall V other : clear implicits.

(** ** Along a program *)

Section along.
Context {call : Type} {reply : call → Type} {A : Type}.

(** Every call satisfies [P] and every answer [Q], given what was called and
    replied before. *)
Fixpoint espec (P : list (sigT reply) → call → Prop) (Q : list (sigT reply) → A → Prop) (pre : list (sigT reply)) (p : eprog reply A) : Prop :=
  match p with
  | ERet a => Q pre a
  | EDo c k => P pre c ∧ ∀ r, espec P Q (pre ++ [existT c r]) (k r)
  end.

(** A program whose calls are all fine, then what follows it. *)
Lemma espec_bind {B} (P : list (sigT reply) → call → Prop) Q (R : call → Prop) pre (p : eprog reply B) (k : B → eprog reply A) :
  (∀ pre c, R c → P pre c) → ecalls R p → (∀ mid b, eruns p mid b → espec P Q (pre ++ mid) (k b)) → espec P Q pre (p ≫= k).
Proof.
  intros HR Hp. revert pre Hp. induction p as [b|c f IH]; intros pre Hp Hk.
  - specialize (Hk [] b eq_refl). by rewrite List.app_nil_r in Hk.
  - destruct Hp as [Hc Hf]. split; [by apply HR|]. intros r. apply IH; [done|]. intros mid b Hr. rewrite <-(assoc_L (++)). apply Hk.
    cbn. by exists r.
Qed.
End along.

(** ** A cache and its clients *)

Section shared.
Context {V other : Type} {oreply : other → Type} {Q A : Type}.
Abbreviation call := (ccall V other).
Abbreviation reply := (creply (V := V) oreply).
Abbreviation event := (sigT reply).
Abbreviation prog := (eprog reply A).

Variable body : Q → prog.
Variable admissible : Q → Prop.

(** A request with what it called and was replied so far, and what it does
    next. *)
Abbreviation thread := (Q * list event * prog)%type.
Record shared := { sh_cache : gmap string V; sh_threads : list thread }.

Definition cache_reply (m : gmap string V) (c : call) (r : reply c) : Prop :=
  match c return reply c → Prop with
  | KGet key => λ r, r = m !! key
  | _ => λ _, True
  end r.

Definition cache_next (m : gmap string V) (c : call) : gmap string V :=
  match c with
  | KAdd key v => <[key := v]> m
  | KRemove key => delete key m
  | _ => m
  end.

Inductive shared_step : shared → shared → Prop :=
| step_arrive s q : admissible q →
    shared_step s {| sh_cache := sh_cache s; sh_threads := sh_threads s ++ [(q, [], body q)] |}
| step_call s i q tr c k r : sh_threads s !! i = Some (q, tr, EDo c k) → cache_reply (sh_cache s) c r →
    shared_step s {| sh_cache := cache_next (sh_cache s) c; sh_threads := <[i := (q, tr ++ [existT c r], k r)]> (sh_threads s) |}
| step_evict s m : m ⊆ sh_cache s →
    shared_step s {| sh_cache := m; sh_threads := sh_threads s |}.

Definition shared_reachable : shared → Prop := rtc shared_step {| sh_cache := ∅; sh_threads := [] |}.

(** A run: requests that arrive first, and whose turn it is to make a call; [env]
    answers the calls that are not to the cache. *)
Definition answer (env : ∀ c, oreply c) (m : gmap string V) (c : call) : reply c :=
  match c return reply c with
  | KGet key => m !! key
  | KAdd _ _ | KRemove _ => tt
  | KCall c => env c
  end.

Definition drive (env : ∀ c, oreply c) (s : shared) (i : nat) : shared :=
  match sh_threads s !! i with
  | Some (q, tr, EDo c k) =>
      let r := answer env (sh_cache s) c in
      {| sh_cache := cache_next (sh_cache s) c; sh_threads := <[i := (q, tr ++ [existT c r], k r)]> (sh_threads s) |}
  | _ => s
  end.

Definition start (qs : list Q) : shared := {| sh_cache := ∅; sh_threads := (λ q, (q, [], body q)) <$> qs |}.

Lemma start_reachable qs : Forall admissible qs → shared_reachable (start qs).
Proof.
  induction qs as [|q qs IH] using rev_ind; intros Hqs; [apply rtc_refl|]. apply Forall_app in Hqs as [Hqs Hq]. rewrite Forall_singleton in Hq.
  eapply rtc_r; [by apply IH|]. unfold start. rewrite fmap_app. exact (step_arrive (start qs) q Hq).
Qed.

Lemma drive_reachable env s turns : shared_reachable s → shared_reachable (foldl (drive env) s turns).
Proof.
  revert s. induction turns as [|i turns IH]; intros s Hs; [done|]. apply IH. unfold drive.
  destruct (sh_threads s !! i) as [[[q tr] [a|c k]]|] eqn:Ei; [done| |done].
  eapply rtc_r; [exact Hs|]. eapply step_call; [exact Ei|]. by destruct c.
Qed.

(** What a program adds, with what it called before, and what it answers. *)
Variable adds : Q → list event → string → V → Prop.
Variable answers : Q → list event → A → Prop.

Definition add_ok (q : Q) (pre : list event) (c : call) : Prop :=
  match c with KAdd key v => adds q pre key v | _ => True end.

Hypothesis body_spec : ∀ q, espec (add_ok q) (answers q) [] (body q).

(** The entry that a call found. *)
Definition found_in (e : event) : option (string * V) :=
  match e with
  | existT c r => match c return reply c → option (string * V) with KGet key => λ r, (key,.) <$> r | _ => λ _, None end r
  end.

(** Some request added the entry. *)
Definition added (ts : list thread) (key : string) (v : V) : Prop :=
  ∃ q pre post p, (q, pre ++ post, p) ∈ ts ∧ admissible q ∧ adds q pre key v.

Definition thread_ok (ts : list thread) (t : thread) : Prop :=
  admissible t.1.1 ∧ espec (add_ok t.1.1) (answers t.1.1) t.1.2 t.2 ∧
  ∀ e key v, e ∈ t.1.2 → found_in e = Some (key, v) → added ts key v.

Definition shared_ok (s : shared) : Prop :=
  Forall (thread_ok (sh_threads s)) (sh_threads s) ∧
  ∀ key v, sh_cache s !! key = Some v → added (sh_threads s) key v.

Lemma added_more ts ts' key v :
  (∀ q tr p, (q, tr, p) ∈ ts → ∃ post p', (q, tr ++ post, p') ∈ ts') → added ts key v → added ts' key v.
Proof.
  intros Hm (q & pre & post & p & Hin & ? & ?). destruct (Hm _ _ _ Hin) as (post' & p' & Hin').
  exists q, pre, (post ++ post'), p'. by rewrite (assoc_L (++)).
Qed.

Lemma thread_ok_more ts ts' t :
  (∀ q tr p, (q, tr, p) ∈ ts → ∃ post p', (q, tr ++ post, p') ∈ ts') → thread_ok ts t → thread_ok ts' t.
Proof. intros Hm (? & ? & Hg). split_and!; [done..|]. intros. eapply added_more; eauto. Qed.

Lemma arrive_more (ts : list thread) t : ∀ q tr p, (q, tr, p) ∈ ts → ∃ post p', (q, tr ++ post, p') ∈ ts ++ [t].
Proof. intros q tr p Hin. exists [], p. rewrite List.app_nil_r. set_solver. Qed.

Lemma call_more (ts : list thread) i q tr c k r : ts !! i = Some (q, tr, EDo c k) →
  ∀ q' tr' p', (q', tr', p') ∈ ts → ∃ post p, (q', tr' ++ post, p) ∈ <[i := (q, tr ++ [existT c r], k r)]> ts.
Proof.
  intros Hi q' tr' p' [j Hj]%list_elem_of_lookup. destruct (decide (j = i)) as [->|Hne].
  - rewrite Hi in Hj. injection Hj as <- <- <-. exists [existT c r], (k r). apply list_elem_of_lookup. exists i.
    apply list_lookup_insert_eq. by eapply lookup_lt_Some.
  - exists [], p'. rewrite List.app_nil_r. apply list_elem_of_lookup. exists j. by rewrite list_lookup_insert_ne.
Qed.

Lemma shared_step_ok s s' : shared_ok s → shared_step s s' → shared_ok s'.
Proof.
  intros [Ht Hc] Hs. destruct Hs as [s q Hq|s i q tr c k r Hi Hr|s m Hm]; unfold shared_ok; cbn [sh_cache sh_threads].
  - split.
    + apply Forall_app. split; [eapply Forall_impl; [exact Ht|]; intros t; apply thread_ok_more, arrive_more|].
      apply Forall_singleton. split_and!; [done|apply body_spec|]. intros e key v Hin. by apply elem_of_nil in Hin.
    + intros key v Hk. eapply added_more; [apply arrive_more|by apply Hc].
  - pose proof (call_more _ _ _ _ _ _ r Hi) as Hm. rewrite Forall_lookup in Ht. destruct (Ht _ _ Hi) as (Ha & [Hp Hk] & Hg).
    cbn [fst snd] in *. split.
    + apply Forall_insert; [apply Forall_lookup; intros j t Hj; by eapply thread_ok_more; [apply Hm|apply (Ht _ _ Hj)]|].
      split_and!; [done|apply Hk|]. cbn [fst snd]. intros e key v [Hin|Hin]%elem_of_app Hf; [by eapply added_more, Hg|].
      apply list_elem_of_singleton in Hin as ->. eapply added_more; [apply Hm|]. apply Hc.
      destruct c as [key'|? ?|?|?]; cbn in Hf, Hr; try done. subst. by apply fmap_Some in Hf as (? & ? & [= -> ->]).
    + intros key v Hl. destruct c as [key'|key' v'|key'|c]; cbn in Hl; try (eapply added_more; [apply Hm|by apply Hc]).
      * apply lookup_insert_Some in Hl as [[-> ->]|[_ Hl]]; [|eapply added_more; [apply Hm|by apply Hc]].
        exists q, tr, [existT (KAdd key v) r], (k r). split_and!; [|done|done].
        apply list_elem_of_lookup. exists i. apply list_lookup_insert_eq. by eapply lookup_lt_Some.
      * apply lookup_delete_Some in Hl as [_ Hl]. eapply added_more; [apply Hm|by apply Hc].
  - split; [done|]. intros key v Hk. apply Hc. by eapply lookup_weaken.
Qed.

Lemma shared_reachable_ok s : shared_reachable s → shared_ok s.
Proof. intros Hr. eapply rtc_ind_r; [|intros; by eapply shared_step_ok|exact Hr]. split; [constructor|]. intros key v Hk. cbn [sh_cache] in Hk. by rewrite lookup_empty in Hk. Qed.

(** What a request found in the cache, a request added. *)
Lemma shared_hit s q tr p key v : shared_reachable s → (q, tr, p) ∈ sh_threads s → existT (KGet key) (Some v) ∈ tr →
  added (sh_threads s) key v.
Proof. intros [Ht _]%shared_reachable_ok Hin Hg. rewrite Forall_forall in Ht. destruct (Ht _ Hin) as (_ & _ & Hf). by apply (Hf _ key v Hg). Qed.

Lemma shared_answer s q tr a : shared_reachable s → (q, tr, ERet a) ∈ sh_threads s → admissible q ∧ answers q tr a.
Proof. intros [Ht _]%shared_reachable_ok Hin. rewrite Forall_forall in Ht. destruct (Ht _ Hin) as (? & ? & _). done. Qed.
End shared.
Arguments shared V {other} oreply Q A.
