(* ===== verification/Http.v ===== *)
(** * HTTP requests

    What the node's proxies use of [net/http] and [encoding/base64]: header maps
    with canonical keys, requests, and the standard base64 alphabet.  The names
    of the mesh's headers are those of [src/api/network.go]. *)

From S2P Require Import Prelude GoStrings Base64.

(** ** Header maps *)

Definition header_token : string := "!#$%&'*+-.^_`|~0123456789ABCDEFGHIJKLMNOPQRSTUVWXYZabcdefghijklmnopqrstuvwxyz".
Definition validHeaderFieldByte (c : ascii) : bool := bool_decide (c ∈ chars header_token).

Definition upper_char (c : ascii) : ascii :=
  if ((97 <=? byte c) && (byte c <=? 122))%Z then char_of (byte c - 32) else c.

(** Letters are upper case at the start and after a hyphen, and lower case
    elsewhere. *)
Fixpoint canonical_go (upper : bool) (s : string) : string :=
  match s with
  | "" => ""
  | String c s =>
      let c := if upper then upper_char c else ascii_lower c in
      String c (canonical_go (bool_decide (c = "-"%char)) s)
  end.

(** [textproto.CanonicalMIMEHeaderKey]. *)
Definition CanonicalHeaderKey (s : string) : string :=
  if str_forallb validHeaderFieldByte s then canonical_go true s else s.

Abbreviation Header := (gmap string (list string)).

Definition Header_Get (h : Header) (key : string) : string := default "" (head (default [] (h !! CanonicalHeaderKey key))).
Definition Header_Set (h : Header) (key value : string) : Header := <[CanonicalHeaderKey key := [value]]> h.
Definition Header_Del (h : Header) (key : string) : Header := delete (CanonicalHeaderKey key) h.
Definition Header_Add (h : Header) (key value : string) : Header :=
  <[CanonicalHeaderKey key := default [] (h !! CanonicalHeaderKey key) ++ [value]]> h.

(** [for name := range h { if drop(name) { delete(h, name) } }]. *)
Definition Header_drop (drop : string → bool) (h : Header) : Header := filter (λ kv, drop kv.1 = false) h.

(** ** The mesh's headers *)

Definition HeaderMeshBiscuit : string := "X-Mesh-Biscuit".
Definition HeaderPeerID : string := "X-Peer-Id".
Definition HeaderMeshAuthentication : string := "X-Mesh-Authentication".
Definition HeaderMeshNoTrailingSlash : string := "X-Mesh-No-Trailing-Slash".
Definition HeaderMeshRequiredLabels : string := "X-Mesh-Required-Labels".
Definition HeaderMeshPrincipal : string := "X-Mesh-Principal".
Definition HeaderMeshRoles : string := "X-Mesh-Roles".
Definition HeaderMeshTask : string := "X-Mesh-Task".
Definition HeaderMeshTaskID : string := "X-Mesh-Task-Id".
Definition HeaderMeshTargetService : string := "X-Mesh-Target-Service".
Definition HeaderMeshEgressPort : string := "X-Mesh-Egress-Port".
Definition HeaderMeshTunnelUpgrade : string := "mesh-tcp-tunnel".

Definition EqualFold (s t : string) : bool := bool_decide (fold_ascii s = fold_ascii t).

(** [hasDotSegment] of [src/internal/node/sidecar.go]. *)
Definition hasDotSegment (p : string) : bool := existsb (λ seg, bool_decide (seg = ".") || bool_decide (seg = "..")) (Split p "/").

(** [strings.SplitN(s, sep, n)] for [n > 0]. *)
Fixpoint SplitN (s sep : string) (n : nat) : list string :=
  match n with
  | O => []
  | S O => [s]
  | S n => let '(before, after, found) := Cut s sep in if found then before :: SplitN after sep n else [s]
  end.

(** ** Requests *)

(** A request: [req_Body] is what reading its body to the end gives; [None]
    where the reading fails. *)
Record Request := {
  req_Method : string;
  req_Path : string;
  req_RawQuery : string;
  req_Host : string;
  req_Header : Header;
  req_Body : option string;
}.

Definition with_headers (r : Request) (h : Header) : Request :=
  {| req_Method := req_Method r; req_Path := req_Path r; req_RawQuery := req_RawQuery r; req_Host := req_Host r;
     req_Header := h; req_Body := req_Body r |}.
Definition with_path (r : Request) (p : string) : Request :=
  {| req_Method := req_Method r; req_Path := p; req_RawQuery := req_RawQuery r; req_Host := req_Host r;
     req_Header := req_Header r; req_Body := req_Body r |}.
Definition with_body (r : Request) (b : option string) : Request :=
  {| req_Method := req_Method r; req_Path := req_Path r; req_RawQuery := req_RawQuery r; req_Host := req_Host r;
     req_Header := req_Header r; req_Body := b |}.
Definition with_host (r : Request) (h : string) : Request :=
  {| req_Method := req_Method r; req_Path := req_Path r; req_RawQuery := req_RawQuery r; req_Host := h;
     req_Header := req_Header r; req_Body := req_Body r |}.

(** [r.URL.RequestURI()] of a path that needs no escapes. *)
Definition RequestURI (r : Request) : string :=
  if bool_decide (req_RawQuery r = "") then req_Path r else req_Path r +:+ "?" +:+ req_RawQuery r.

(** ** Standard base64 *)

Definition std_of_url (c : ascii) : ascii :=
  if bool_decide (c = "-"%char) then "+"%char else if bool_decide (c = "_"%char) then "/"%char else c.
Definition url_of_std (c : ascii) : ascii :=
  if bool_decide (c = "+"%char) then "-"%char else if bool_decide (c = "/"%char) then "_"%char
  else if bool_decide (c = "-"%char) || bool_decide (c = "_"%char) then "!"%char else c.

(** The padding of a text of [n] sextets. *)
Definition b64_padding (n : nat) : string := match n mod 4 with 2 => "==" | 3 => "=" | _ => "" end.

Definition Std_Encode (s : string) : string :=
  let e := str_map std_of_url (RawURL_Encode s) in e +:+ b64_padding (len e).

(** Decoding with padding: the text without line breaks is sextets followed by
    the padding of their number. *)
Definition padded_Decode (to_url : ascii → ascii) (s : string) : result string :=
  let t := String.string_of_list_ascii (filter (λ c, is_newline c = false) (chars s)) in
  let '(data, pad) := span (λ c, negb (bool_decide (c = "="%char))) t in
  fail_if (negb (bool_decide (pad = b64_padding (len data)))) "illegal base64 data";;
  RawURL_Decode (str_map to_url data).

Definition Std_Decode : string → result string := padded_Decode url_of_std.
Definition URL_Decode : string → result string := padded_Decode (λ c, c).
Definition RawStd_Decode (s : string) : result string := RawURL_Decode (str_map url_of_std s).

(** ** Lemmas *)

Lemma Header_Get_Del h k : Header_Get (Header_Del h k) k = "".
Proof. unfold Header_Get, Header_Del. by rewrite lookup_delete_eq. Qed.

Lemma Header_Get_Set h k v : Header_Get (Header_Set h k v) k = v.
Proof. unfold Header_Get, Header_Set. by rewrite lookup_insert_eq. Qed.

Lemma Header_drop_lookup d h k vs : Header_drop d h !! k = Some vs ↔ h !! k = Some vs ∧ d k = false.
Proof. apply map_lookup_filter_Some. Qed.

Lemma Header_drop_None d h k : d k = true → Header_drop d h !! k = None.
Proof. intros Hd. destruct (Header_drop d h !! k) eqn:E; [|done]. apply Header_drop_lookup in E as [_ E]. congruence. Qed.
