(* ===== verification/LocalAuth.v ===== *)
(** * The gates of a node's local API

    Who may use a node's local API and under which authority: the shared token,
    the socket, and credentials that a caller presents
    ([src/internal/node/sidecar.go], [src/internal/node/sts.go]).  A handler
    behind a gate gets the request's headers and the caller's credential, which
    stands for the value that [WithCallerBiscuit] puts in the context. *)

From S2P Require Import Prelude GoStrings Regex Names Biscuit NaiveEngine Facts DatalogText Grants Labels HTTPGrants PolicyRules Egress Base64 Tar Token TokenModel Identity Middleware Directory Http.

(** What a handler reads of the node. *)
Record LocalNode := {
  ln_node : AgentMeshNode;
  ln_self : option string;             (** [localPeerID], when there is one *)
  ln_storedKey : option PublicKey;     (** the key of the mesh configuration in the store *)
  ln_labels : gmap string string;
}.

(** [json.Unmarshal] of the header of a JWT finds a text under "alg". *)
Class JWTHeader := { header_has_alg : string → bool }.

Section local.
Context `{UC : UnicodeCase, TC : TARCodec, BT : BiscuitTokens, BE : BiscuitEngine, PC : PeerCodec, SH : SHA256, JH : JWTHeader}.

(** ** Credentials presented to this node *)

Definition trustedPublicKeys (l : LocalNode) : list PublicKey :=
  match tk_Key <$> n_trustedKeys (ln_node l) with
  | [] => match ln_storedKey l with
          | Some k => if bool_decide (len k = PublicKeySize) then [k] else []
          | None => []
          end
  | keys => keys
  end.

Definition banned_claim (n : AgentMeshNode) (pidStr : string) : bool :=
  if bool_decide (pidStr = "") then false
  else match peer_Decode pidStr with Ok pid => peer_revoked n pid | Err _ => false end.

Definition VerifyLocalBiscuit (now : time) (l : LocalNode) (rawToken : string) : result VerifiedBiscuitClaims * AgentMeshNode :=
  let n := ln_node l in
  if bool_decide (rawToken = "") then (fail "empty biscuit token", n)
  else match wrap_err "invalid biscuit" (UnmarshalInbound rawToken) with
  | Err e => (Err e, n)
  | Ok (b, _) =>
      let '(revoked, n) := IsBiscuitRevoked now n b in
      if revoked then (fail "biscuit is revoked", n)
      else
        let keys := trustedPublicKeys l in
        match keys with
        | [] => (fail "no trusted control plane keys available", n)
        | _ =>
            (claims ← InspectVerifiedBiscuit now rawToken keys;
             fail_if (existsb (banned_claim n) [vc_NodePeerID claims; vc_ActorNodePeerID claims; vc_ClientPeerID claims]) "peer is banned";;
             Ok claims, n)
        end
  end.

Definition verifyLocalCallerBiscuit (now : time) (l : LocalNode) (rawToken : string) : result VerifiedBiscuitClaims * AgentMeshNode :=
  let '(r, n) := VerifyLocalBiscuit now l rawToken in
  (claims ← r;
   match vc_TaskRules claims, ln_self l with
   | [], Some localPID =>
       fail_if (negb (bool_decide (localPID = "")) && negb (bool_decide (vc_ClientPeerID claims = "")) &&
                negb (bool_decide (vc_ClientPeerID claims = localPID))) "standing biscuit client_peer_id is not bound to this node";;
       Ok claims
   | _, _ => Ok claims
   end, n).

Definition b64_decoders : list (string → result string) := [Std_Decode; URL_Decode; RawURL_Decode; RawStd_Decode].

Definition decodes_to (s : string) (dec : string → result string) : option string :=
  match dec s with
  | Ok raw => if bool_decide (raw = "") then None else if is_ok (UnmarshalInbound raw) then Some raw else None
  | Err _ => None
  end.

Definition decodeBiscuitToken (s : string) : result string :=
  let s := TrimSpace s in
  if bool_decide (s = "") then fail "empty token"
  else match head (omap (decodes_to s) b64_decoders) with
       | Some raw => Ok raw
       | None => fail "not a valid Agent Mesh biscuit token"
       end.

Definition isLikelyJWT (s : string) : bool :=
  match Split (TrimSpace s) "." with
  | [h; p; g] =>
      negb (bool_decide (h = "")) && negb (bool_decide (p = "")) && negb (bool_decide (g = "")) &&
      match RawURL_Decode h with Ok hdrBytes => header_has_alg hdrBytes | Err _ => false end
  | _ => false
  end.

(** A credential whose appended blocks are refused. *)
Definition bad_blocks_in (bearer : string) (dec : string → result string) : option error :=
  match dec bearer with
  | Ok raw => if bool_decide (raw = "") then None
              else match UnmarshalInbound raw with
                   | Err uErr => if errors_Is uErr ErrAppendedBlocks then Some uErr else None
                   | Ok _ => None
                   end
  | Err _ => None
  end.

(** A bearer value is a credential of the mesh, one that fails, or something
    else; [exchanged] is the outcome of [ExchangeSubjectJWT], for the value that
    looks like a JWT. *)
Inductive CallerCredential :=
| CallerBiscuit (raw : string)
| CallerRefused (e : error)
| NotMeshCredential.

Definition resolveCallerCredential (now : time) (l : LocalNode) (exchanged : string → result string) (bearer : string)
  : CallerCredential * AgentMeshNode :=
  if bool_decide (bearer = "") then (NotMeshCredential, ln_node l)
  else match decodeBiscuitToken bearer with
  | Ok rawBiscuit =>
      match verifyLocalCallerBiscuit now l rawBiscuit with
      | (Err e, n) => (CallerRefused e, n)
      | (Ok _, n) => (CallerBiscuit rawBiscuit, n)
      end
  | Err _ =>
      match head (omap (bad_blocks_in bearer) b64_decoders) with
      | Some uErr => (CallerRefused uErr, ln_node l)
      | None =>
          if isLikelyJWT bearer then
            (match exchanged bearer with Ok b => CallerBiscuit b | Err e => CallerRefused e end, ln_node l)
          else (NotMeshCredential, ln_node l)
      end
  end.

(** ** The gates *)

Definition constantTimeEqual (got want : string) : bool := bool_decide (sha256_Sum256 got = sha256_Sum256 want).

Definition stripSidecarTokenFromAuthorization (h : Header) (token : string) : Header :=
  if bool_decide (token = "") then h
  else match SplitN2 (Header_Get h "Authorization") " " with
       | [scheme; value] => if EqualFold scheme "bearer" && constantTimeEqual value token then Header_Del h "Authorization" else h
       | _ => h
       end.

(** What a gate does with a request: an answer of its own, or the request for
    the handler with the caller's credential. *)
Inductive Gate :=
| Refused (status : Z)
| Passed (h : Header) (caller : option string).

Definition withAuth (token : string) (allowAuthorizationFallback fromLocalSocket : bool) (h : Header) : Gate :=
  if fromLocalSocket then Passed (stripSidecarTokenFromAuthorization (Header_Del h HeaderMeshAuthentication) token) None
  else if bool_decide (token = "") then Passed h None
  else
    let mesh := Header_Get h HeaderMeshAuthentication in
    let headerName := if bool_decide (mesh = "") && allowAuthorizationFallback then "Authorization" else HeaderMeshAuthentication in
    let authHeader := Header_Get h headerName in
    if bool_decide (authHeader = "") then Refused 401
    else match Split authHeader " " with
    | [scheme; value] =>
        if negb (bool_decide (ToLower scheme = "bearer")) then Refused 401
        else if negb (constantTimeEqual value token) then Refused 403
        else Passed (stripSidecarTokenFromAuthorization (Header_Del h headerName) token) None
    | _ => Refused 401
    end.

(** The value after the scheme of a header, when the scheme is bearer. *)
Definition bearer_value (authHeader : string) : option string :=
  match SplitN2 authHeader " " with
  | [scheme; value] => if EqualFold scheme "bearer" then Some (TrimSpace value) else None
  | _ => None
  end.

(** The header that authenticates a request, its value, and the bearer in it. *)
Definition gate_credential (allowAuthorizationFallback : bool) (h : Header) : string * string * option string :=
  let mesh := Header_Get h HeaderMeshAuthentication in
  let b64 := TrimSpace (Header_Get h HeaderMeshBiscuit) in
  if negb (bool_decide (mesh = "")) then (HeaderMeshAuthentication, mesh, bearer_value mesh)
  else if negb (bool_decide (b64 = "")) then
    let bearer := TrimSpace (TrimPrefix (TrimPrefix b64 "Bearer ") "bearer ") in
    (HeaderMeshBiscuit, b64, if bool_decide (bearer = "") then None else Some bearer)
  else if allowAuthorizationFallback then
    let auth := Header_Get h "Authorization" in
    ("Authorization", auth, if bool_decide (auth = "") then None else bearer_value auth)
  else (HeaderMeshAuthentication, "", None).

Definition withCallerOrTokenAuth (resolve : string → CallerCredential) (token : string)
    (allowAuthorizationFallback fromLocalSocket : bool) (h : Header) : Gate :=
  let '(headerName, authHeader, bearer) := gate_credential allowAuthorizationFallback h in
  if fromLocalSocket || bool_decide (token = "") then
    let next h caller :=
      Passed (stripSidecarTokenFromAuthorization (Header_Del (Header_Del h HeaderMeshAuthentication) HeaderMeshBiscuit) token) caller in
    match bearer with
    | Some bearer =>
        if bool_decide (token = "") || bool_decide (headerName = HeaderMeshBiscuit) || negb (constantTimeEqual bearer token) then
          match resolve bearer with
          | CallerRefused _ => Refused 403
          | CallerBiscuit b => next (Header_Del h headerName) (Some b)
          | NotMeshCredential =>
              if bool_decide (headerName = HeaderMeshAuthentication) || bool_decide (headerName = HeaderMeshBiscuit)
              then Refused 403 else next h None
          end
        else next h None
    | None => next h None
    end
  else if bool_decide (authHeader = "") then Refused 401
  else match bearer with
  | None => Refused 401
  | Some bearer =>
      if negb (bool_decide (headerName = HeaderMeshBiscuit)) && constantTimeEqual bearer token
      then Passed (stripSidecarTokenFromAuthorization (Header_Del h headerName) token) None
      else match resolve bearer with
           | CallerBiscuit b => Passed (stripSidecarTokenFromAuthorization (Header_Del h headerName) token) (Some b)
           | _ => Refused 403
           end
  end.

Definition GetRequestIdentity (n : AgentMeshNode) (caller : option string) : option string * AgentMeshNode :=
  match caller with
  | Some b => if bool_decide (b = "") then GetIdentity n else (Some b, n)
  | None => GetIdentity n
  end.

(** [outsideLabels] of [src/internal/node/openai_scorer.go]. *)
Definition outsideLabels (required claimed : gmap string string) (local : bool) : bool :=
  if bool_decide (size required = 0) then false
  else if local then negb (LabelsSatisfy required claimed) else LabelsContradict required claimed.

(** ** Facts *)

(** A credential that verifies at this node. *)
Definition verified_here (now : time) (l : LocalNode) (raw : string) : Prop :=
  ∃ claims, InspectVerifiedBiscuit now raw (trustedPublicKeys l) = Ok claims ∧
    (IsBiscuitRevoked now (ln_node l) (vc_Biscuit claims)).1 = false ∧
    (∀ p pid, p ∈ [vc_NodePeerID claims; vc_ActorNodePeerID claims; vc_ClientPeerID claims] → p ≠ "" →
       peer_Decode p = Ok pid → peer_revoked (ln_node l) pid = false) ∧
    (∀ self, ln_self l = Some self → vc_TaskRules claims = [] → self ≠ "" → vc_ClientPeerID claims ≠ "" → vc_ClientPeerID claims = self).

Lemma peer_revoked_scan now n b p : peer_revoked (IsBiscuitRevoked now n b).2 p = peer_revoked n p.
Proof. unfold IsBiscuitRevoked. destruct (n_revokedTokens n); [|done]. by destruct (revoked_scan _ _ _). Qed.

Lemma InspectVerifiedBiscuit_biscuit now raw keys c b rules :
  UnmarshalInbound raw = Ok (b, rules) → InspectVerifiedBiscuit now raw keys = Ok c → vc_Biscuit c = b.
Proof.
  intros Eb Hi. unfold InspectVerifiedBiscuit in Hi. apply bind_Ok in Hi as ([b' rules'] & Eb' & Hi).
  rewrite Eb in Eb'. injection Eb' as <- <-. destruct (first_key _ _) as [[k w]|] in Hi; [|discriminate].
  repeat (apply bind_Ok in Hi as (? & _ & Hi)). by injection Hi as <-.
Qed.

Lemma VerifyLocalBiscuit_Ok now l raw claims :
  (VerifyLocalBiscuit now l raw).1 = Ok claims →
  InspectVerifiedBiscuit now raw (trustedPublicKeys l) = Ok claims ∧
  (IsBiscuitRevoked now (ln_node l) (vc_Biscuit claims)).1 = false ∧
  existsb (banned_claim (ln_node l)) [vc_NodePeerID claims; vc_ActorNodePeerID claims; vc_ClientPeerID claims] = false.
Proof.
  unfold VerifyLocalBiscuit. case_bool_decide; [done|].
  destruct (UnmarshalInbound raw) as [[b rules]|] eqn:Eb; [|done]. cbn [wrap_err].
  destruct (IsBiscuitRevoked now (ln_node l) b) as [[] n'] eqn:Er; [done|].
  destruct (trustedPublicKeys l) eqn:Ek; [done|]. cbn [fst]. intros (c & Hi & Hc)%bind_Ok. apply bind_unit_Ok in Hc as [Hb [= <-]].
  rewrite (InspectVerifiedBiscuit_biscuit _ _ _ _ _ _ Eb Hi), Er. split_and!; [done..|]. apply fail_if_Ok in Hb.
  assert (∀ q, banned_claim n' q = banned_claim (ln_node l) q) as Hsame.
  { intros q. unfold banned_claim. pose proof (peer_revoked_scan now (ln_node l) b) as Hs. rewrite Er in Hs.
    case_bool_decide; [done|]. destruct (peer_Decode q); [apply Hs|done]. }
  cbn [existsb] in *. by rewrite !Hsame in Hb.
Qed.

Lemma verifyLocalCallerBiscuit_Ok now l raw claims :
  (verifyLocalCallerBiscuit now l raw).1 = Ok claims → verified_here now l raw.
Proof.
  unfold verifyLocalCallerBiscuit. destruct (VerifyLocalBiscuit now l raw) as [r n] eqn:Ev. cbn [fst]. intros (c & -> & Hc)%bind_Ok.
  destruct (VerifyLocalBiscuit_Ok now l raw c) as (Hi & Hr & Hb); [by rewrite Ev|]. exists c. split_and!; [done..| |].
  - intros p pid Hp Hne Hd. destruct (peer_revoked (ln_node l) pid) eqn:Ep; [|done].
    cut (existsb (banned_claim (ln_node l)) [vc_NodePeerID c; vc_ActorNodePeerID c; vc_ClientPeerID c] = true); [congruence|].
    apply existsb_exists. exists p. split; [by apply list_elem_of_In|]. unfold banned_claim. by rewrite bool_decide_false, Hd.
  - intros self Hs Ht Hne Hcl. rewrite Ht, Hs in Hc. apply bind_unit_Ok in Hc as [Hc _]. apply fail_if_Ok in Hc.
    rewrite !bool_decide_false in Hc by done. cbn in Hc. by apply negb_false_iff, bool_decide_eq_true in Hc.
Qed.

Lemma resolve_verified now l exchanged bearer c :
  (resolveCallerCredential now l exchanged bearer).1 = CallerBiscuit c →
  (decodeBiscuitToken bearer = Ok c ∧ verified_here now l c) ∨ (isLikelyJWT bearer = true ∧ exchanged bearer = Ok c).
Proof.
  unfold resolveCallerCredential. case_bool_decide; [done|]. destruct (decodeBiscuitToken bearer) as [raw|] eqn:Ed.
  - destruct (verifyLocalCallerBiscuit now l raw) as [[claims|] n] eqn:Ev; [|done]. intros [= <-]. left. split; [done|].
    apply (verifyLocalCallerBiscuit_Ok now l raw claims). by rewrite Ev.
  - destruct (head _); [done|]. destruct (isLikelyJWT bearer); [|done]. destruct (exchanged bearer); [|done]. intros [= <-]. by right.
Qed.

Lemma Header_Get_Del_mono h k k' : Header_Get h k = "" → Header_Get (Header_Del h k') k = "".
Proof.
  unfold Header_Get, Header_Del. destruct (decide (CanonicalHeaderKey k = CanonicalHeaderKey k')) as [->|Hne];
    [by rewrite lookup_delete_eq|by rewrite lookup_delete_ne].
Qed.

Lemma strip_mono h token k : Header_Get h k = "" → Header_Get (stripSidecarTokenFromAuthorization h token) k = "".
Proof.
  unfold stripSidecarTokenFromAuthorization. case_bool_decide; [done|]. destruct (SplitN2 _ _) as [|? [|? [|]]]; try done.
  destruct (_ && _); [|done]. apply Header_Get_Del_mono.
Qed.

Lemma gate_credential_name allow h name auth bearer : gate_credential allow h = (name, auth, bearer) →
  name ≠ HeaderMeshAuthentication → name ≠ HeaderMeshBiscuit → name = "Authorization" ∧ allow = true.
Proof.
  unfold gate_credential. destruct (negb (bool_decide (Header_Get h HeaderMeshAuthentication = ""))); [by intros [= <- _ _]|].
  destruct (negb (bool_decide (TrimSpace (Header_Get h HeaderMeshBiscuit) = ""))); [by intros [= <- _ _]|].
  destruct allow; by intros [= <- _ _].
Qed.

(** On the node's own socket, and without a token, no header of the mesh is left. *)
Lemma passed_stripped h token :
  let h' := stripSidecarTokenFromAuthorization (Header_Del (Header_Del h HeaderMeshAuthentication) HeaderMeshBiscuit) token in
  Header_Get h' HeaderMeshAuthentication = "" ∧ Header_Get h' HeaderMeshBiscuit = "".
Proof. split; apply strip_mono; [apply Header_Get_Del_mono|]; apply Header_Get_Del. Qed.

(** C20: A request gets past the gate of the local API only with proof of who
    sends it: it came over the node's own socket, or the node has no token and
    leaves that to mutual TLS, or the one header that authenticates it (the mesh's
    authentication header, else its credential header, else Authorization where
    the entry allows that) carries the node's token, or a credential of the mesh.
    The handler acts under a caller's credential only when that header presents
    one that verifies at this node, is not revoked, names no banned peer and is
    bound to this node when it is a standing one, or a JWT that was exchanged for
    it; what that header presents is the token, or else it is resolved, and when
    it does not resolve the request is refused and never falls back to the node's
    own authority, save for an Authorization that is no credential of the mesh
    where the transport authenticates.  A header that carried an accepted
    credential is gone from the request that the handler sees, over a connection
    so is the one that carried the token, and where the transport authenticates so
    are both headers of the mesh.  The gate looks at no other header: a credential
    beside the token is not resolved and, over a connection, travels on. *)
Theorem sidecar_gate now l exchanged token allow socket h h' caller :
  withCallerOrTokenAuth (λ b, (resolveCallerCredential now l exchanged b).1) token allow socket h = Passed h' caller →
  let '(name, _, bearer) := gate_credential allow h in
  let has_token b := token ≠ "" ∧ name ≠ HeaderMeshBiscuit ∧ constantTimeEqual b token = true in
  (socket = true ∨ token = "" ∨ ∃ b, bearer = Some b ∧ (has_token b ∨ is_Some caller)) ∧
  (∀ c, caller = Some c → ∃ b, bearer = Some b ∧ Header_Get h' name = "" ∧
     ((decodeBiscuitToken b = Ok c ∧ verified_here now l c) ∨ (isLikelyJWT b = true ∧ exchanged b = Ok c))) ∧
  (∀ b, bearer = Some b → caller = None →
     (has_token b ∧ (socket = false → Header_Get h' name = "")) ∨
     (name = "Authorization" ∧ allow = true ∧ (socket = true ∨ token = "") ∧
      (resolveCallerCredential now l exchanged b).1 = NotMeshCredential)) ∧
  (socket = true ∨ token = "" → Header_Get h' HeaderMeshAuthentication = "" ∧ Header_Get h' HeaderMeshBiscuit = "").
Proof.
  unfold withCallerOrTokenAuth. destruct (gate_credential allow h) as [[name auth] bearer] eqn:Eg.
  destruct (socket || bool_decide (token = "")) eqn:Es; cbv zeta.
  - rewrite orb_true_iff, bool_decide_eq_true in Es.
    destruct bearer as [b|]; [|intros [= <- <-]; split_and!; [tauto|done|done|intros _; apply passed_stripped]].
    destruct (bool_decide (token = "") || bool_decide (name = HeaderMeshBiscuit) || negb (constantTimeEqual b token)) eqn:Ec.
    + destruct ((resolveCallerCredential now l exchanged b).1) as [c| |] eqn:Er; [|done|].
      * intros [= <- <-]. split_and!; [tauto| |done|intros _; apply passed_stripped]. intros c' [= <-]. exists b. apply resolve_verified in Er.
        split_and!; [done| |done]. apply strip_mono. by do 2 apply Header_Get_Del_mono; apply Header_Get_Del.
      * destruct (bool_decide (name = HeaderMeshAuthentication) || _) eqn:En; [done|]. intros [= <- <-].
        rewrite orb_false_iff, !bool_decide_eq_false in En. destruct (gate_credential_name _ _ _ _ _ Eg) as [-> ->]; [tauto..|].
        split_and!; [tauto|done| |intros _; apply passed_stripped]. intros b' [= <-] _. by right.
    + rewrite !orb_false_iff, negb_false_iff, !bool_decide_eq_false in Ec. destruct Ec as [[Ht Hn] Hc]. intros [= <- <-].
      split_and!; [tauto|done| |intros _; apply passed_stripped]. intros b' [= <-] _. left. split; [done|]. intros ->. by destruct Es.
  - rewrite orb_false_iff, bool_decide_eq_false in Es. destruct Es as [Hsock Ht]. case_bool_decide; [done|]. destruct bearer as [b|]; [|done].
    assert (Hno : socket = true ∨ token = "" → False) by (by intros [?|?]; congruence).
    destruct (negb (bool_decide (name = HeaderMeshBiscuit)) && constantTimeEqual b token) eqn:Ec.
    + rewrite andb_true_iff, negb_true_iff, bool_decide_eq_false in Ec. intros [= <- <-]. split_and!; [|done| |tauto].
      * right; right. exists b. split; [done|]. left. tauto.
      * intros b' [= <-] _. left. split; [tauto|]. intros _. apply strip_mono, Header_Get_Del.
    + destruct ((resolveCallerCredential now l exchanged b).1) as [c| |] eqn:Er; [|done..]. intros [= <- <-]. split_and!; [|  |done|tauto].
      * right; right. exists b. split; [done|]. by right.
      * intros c' [= <-]. exists b. apply resolve_verified in Er. split_and!; [done| |done]. apply strip_mono, Header_Get_Del.
Qed.
End local.

(** ** Examples *)

#[local] Existing Instances ascii_case one_rule_codec example_tokens naive_engine plain_codec.

(** A digest that tells short texts apart. *)
#[local, refine] Instance short_digest : SHA256 := {| sha256_Sum256 s := str_take 32 (s +:+ "00000000000000000000000000000000") |}.
Proof. intros s. rewrite len_take, len_app. cbn [String.length]. lia. Defined.

#[local] Instance any_header : JWTHeader := {| header_has_alg s := true |}.

Definition bearer_header (name token : string) : Header := Header_Set ∅ name ("Bearer " +:+ token).

Definition gate_node : LocalNode :=
  {| ln_node := {| n_revokedPeers := Some ∅; n_revokedTokens := Some ∅; n_trustedKeys := [{| tk_Key := example_public; tk_ReceivedAt := 0%Z |}];
                   n_nodeConfig := None; n_MeshPolicyRules := []; n_cachedIdentity := None; n_storedIdentity := None |};
     ln_self := Some "12D3p1"; ln_storedKey := None; ln_labels := ∅ |}.

(** A member's credential is presented in place of the node's token. *)
Lemma sidecar_gate_witness :
  let resolve b := (resolveCallerCredential (5 * second)%Z gate_node (λ _, fail "no exchange") b).1 in
  ∃ h', withCallerOrTokenAuth resolve "secret" false false (bearer_header HeaderMeshAuthentication "AA==") = Passed h' (Some (token_bytes 0)) ∧
    verified_here (5 * second)%Z gate_node (token_bytes 0).
Proof.
  destruct (withCallerOrTokenAuth (λ b, (resolveCallerCredential (5 * second)%Z gate_node (λ _, fail "no exchange") b).1)
              "secret" false false (bearer_header HeaderMeshAuthentication "AA==")) as [|h' caller] eqn:E; [by vm_compute in E|].
  assert (Some (token_bytes 0) = caller) as <-.
  { apply (f_equal (λ g, match g with Passed _ c => c | _ => None end)) in E. rewrite <-E. by vm_compute. }
  exists h'. split; [exact E|]. pose proof (sidecar_gate _ _ _ _ _ _ _ _ _ E) as Hg.
  change (gate_credential false (bearer_header HeaderMeshAuthentication "AA==")) with
    (HeaderMeshAuthentication, "Bearer AA==", Some "AA==") in Hg.
  destruct Hg as (_ & Hc & _). destruct (Hc _ eq_refl) as (b & _ & _ & [[_ Hv]|[_ Hx]]); [exact Hv|done].
Defined.

(** The strip compares the value as it is written, the gate its trimmed form: a
    token with a space more passes the gate of the mesh header and stays in
    Authorization for the handler. *)
Example padded_token_survives :
  let h := Header_Set (bearer_header HeaderMeshAuthentication "secret") "Authorization" "Bearer  secret" in
  ∃ h', withCallerOrTokenAuth (λ _, NotMeshCredential) "secret" true false h = Passed h' None ∧ Header_Get h' "Authorization" = "Bearer  secret" ∧
    withCallerOrTokenAuth (λ _, NotMeshCredential) "secret" true false (Header_Del h HeaderMeshAuthentication) = Passed ∅ None.
Proof. eexists. by vm_compute. Qed.

(** A credential beside the token is neither looked at nor taken off. *)
Example credential_beside_token :
  let h := Header_Set (bearer_header HeaderMeshAuthentication "secret") HeaderMeshBiscuit "stray" in
  match withCallerOrTokenAuth (λ _, CallerRefused (NewError "refused")) "secret" true false h with
  | Passed h' None => Header_Get h' HeaderMeshAuthentication = "" ∧ Header_Get h' HeaderMeshBiscuit = "stray"
  | _ => False
  end.
Proof. by vm_compute. Qed.
