(* ===== verification/Callout.v ===== *)
(** * Calling an external processor

    The client of an Envoy external processor ([src/internal/envoy/callout.go]):
    the processing modes, the request and the response phase of a session, and
    the header changes a processor may ask for.  The calls of an egress request
    are declared here, all of them, so that a request is one program; sessions
    are told apart by the position of their inspector in the chain.  Deadlines
    are not modelled: a call may fail at any time. *)

From S2P Require Import Prelude GoStrings Regex Names Biscuit NaiveEngine Facts DatalogText Grants Labels HTTPGrants PolicyRules Egress Base64 Tar Effects Http.

Definition DefaultMaxBufferBytes : Z := 2 ^ 20.

(** ** Messages *)

Inductive AppendAction := APPEND_IF_EXISTS_OR_ADD | ADD_IF_ABSENT | OVERWRITE_IF_EXISTS_OR_ADD | OVERWRITE_IF_EXISTS.

Record HeaderValue := { hv_Key : string; hv_Value : string; hv_RawValue : string }.
Record HeaderValueOption := { ho_Header : option HeaderValue; ho_AppendAction : AppendAction }.
Record HeaderMutation := { hm_RemoveHeaders : list string; hm_SetHeaders : list HeaderValueOption }.

Inductive BodyMutation := ClearBody (clear : bool) | Body (b : string) | OtherBody.
Record CommonResponse := { cr_HeaderMutation : option HeaderMutation; cr_BodyMutation : option BodyMutation }.

Record ImmediateResponse := {
  imm_Code : Z;
  imm_Headers : option HeaderMutation;
  imm_Body : string;
  imm_Details : string;
}.

Inductive ResponseKind :=
| RImmediate (i : ImmediateResponse)
| RRequestHeaders (c : option CommonResponse)
| RRequestBody (c : option CommonResponse)
| RResponseHeaders (c : option CommonResponse)
| RResponseBody (c : option CommonResponse)
| ROther.

Record ProcessingResponse := { pr_ModeOverride : option ProcessingMode; pr_Kind : ResponseKind }.

(** What is sent: headers as a list of lower case keys and values, or a body;
    the attributes of the request go with its messages. *)
Inductive ProcessingRequest :=
| PRequestHeaders (attrs : list (string * string)) (headers : list (string * string)) (endOfStream : bool)
| PRequestBody (attrs : list (string * string)) (body : string)
| PResponseHeaders (headers : list (string * string)) (endOfStream : bool)
| PResponseBody (body : string).

(** ** The calls of an egress request *)

Record egressCallerContext := {
  ec_principal : string;
  ec_roles : list string;
  ec_actorNode : string;
  ec_task : string;
  ec_rules : list TaskAuthorizationRule;
}.

(** What goes to the destination: the request and the credential-bearing host it
    is sent to. *)
Record UpstreamRequest := { ur_Target : URL; ur_Request : Request }.

(** The answer of the destination, its body in the pieces it arrives in; [None]
    where the transport fails. *)
Record UpstreamResponse := { us_Status : Z; us_Header : Header; us_Chunks : list string }.

Inductive ecall :=
| CContext                                                        (** the caller, as the node knows it now *)
| CExchange (principal : string) (rules : list TaskAuthorizationRule)  (** the destination's credential *)
| CArmorAuth (service : string)                                   (** the credential of the inspection service *)
| CArmor (url auth field text : string)
| CExtOpen (sess : nat) (cfg : ExtProc)
| CExtSend (sess : nat) (m : ProcessingRequest)
| CExtRecv (sess : nat)
| CExtClose (sess : nat)
| CUpstream (u : UpstreamRequest).

Definition ereply (c : ecall) : Type :=
  match c with
  | CContext => egressCallerContext
  | CExchange _ _ => result string
  | CArmorAuth _ => string
  | CArmor _ _ _ _ => result (Z * string)  (** status and body *)
  | CExtOpen _ _ | CExtSend _ _ => result unit
  | CExtRecv _ => result ProcessingResponse
  | CExtClose _ => unit
  | CUpstream _ => option UpstreamResponse
  end.

Abbreviation egress := (eprog ereply).
Abbreviation ask := (eperform ereply).

(** ** Modes *)

Definition InitialProcessingMode (cfg : ExtProc) : ProcessingMode :=
  match ep_processing_mode cfg with
  | None =>
      {| pm_RequestHeaderMode := HEADER_SEND; pm_ResponseHeaderMode := HEADER_SEND; pm_RequestBodyMode := BODY_NONE;
         pm_ResponseBodyMode := BODY_NONE; pm_RequestTrailerMode := HEADER_SKIP; pm_ResponseTrailerMode := HEADER_SKIP |}
  | Some pm =>
      {| pm_RequestHeaderMode := if bool_decide (pm_RequestHeaderMode pm = HEADER_SKIP) then HEADER_SKIP else HEADER_SEND;
         pm_ResponseHeaderMode := if bool_decide (pm_ResponseHeaderMode pm = HEADER_SKIP) then HEADER_SKIP else HEADER_SEND;
         pm_RequestBodyMode := pm_RequestBodyMode pm; pm_ResponseBodyMode := pm_ResponseBodyMode pm;
         pm_RequestTrailerMode := if bool_decide (pm_RequestTrailerMode pm = HEADER_SEND) then HEADER_SEND else HEADER_SKIP;
         pm_ResponseTrailerMode := if bool_decide (pm_ResponseTrailerMode pm = HEADER_SEND) then HEADER_SEND else HEADER_SKIP |}
  end.

Definition override_header (dst override : HeaderMode) : HeaderMode :=
  if bool_decide (override = HEADER_MODE_DEFAULT) then dst else override.
Definition override_body (dst override : BodyMode) : BodyMode :=
  if bool_decide (override = BODY_NONE) then dst else override.

Definition ApplyModeOverride (dst override : ProcessingMode) : ProcessingMode :=
  {| pm_RequestHeaderMode := override_header (pm_RequestHeaderMode dst) (pm_RequestHeaderMode override);
     pm_ResponseHeaderMode := override_header (pm_ResponseHeaderMode dst) (pm_ResponseHeaderMode override);
     pm_RequestBodyMode := override_body (pm_RequestBodyMode dst) (pm_RequestBodyMode override);
     pm_ResponseBodyMode := override_body (pm_ResponseBodyMode dst) (pm_ResponseBodyMode override);
     pm_RequestTrailerMode := override_header (pm_RequestTrailerMode dst) (pm_RequestTrailerMode override);
     pm_ResponseTrailerMode := override_header (pm_ResponseTrailerMode dst) (pm_ResponseTrailerMode override) |}.

Definition apply_override (cfg : ExtProc) (mode : ProcessingMode) (resp : ProcessingResponse) : ProcessingMode :=
  match pr_ModeOverride resp with
  | Some o => if ep_allow_mode_override cfg then ApplyModeOverride mode o else mode
  | None => mode
  end.

Definition NeedsResponseBuffer (mode : ProcessingMode) : bool :=
  negb (bool_decide (pm_ResponseHeaderMode mode = HEADER_SKIP)) || negb (bool_decide (pm_ResponseBodyMode mode = BODY_NONE)).

Section callout.
Context `{UnicodeCase}.

(** ** Headers *)

Definition IsProtectedEgressHeader (name : string) : bool :=
  let lower := ToLower (TrimSpace name) in
  slices_Contains ["authorization"; "host"; ":authority"; "cookie"] lower ||
  HasPrefix lower "x-mesh-" || HasPrefix lower "x-forwarded-".

Definition apply_remove (h : Header) (rem : string) : Header :=
  if IsProtectedEgressHeader rem then h else Header_Del h rem.

Definition apply_set (h : Header) (opt : HeaderValueOption) : Header :=
  match ho_Header opt with
  | None => h
  | Some hv =>
      let key := TrimSpace (hv_Key hv) in
      if bool_decide (key = "") || HasPrefix key ":" || IsProtectedEgressHeader key then h
      else
        let val := if bool_decide (hv_Value hv = "") then hv_RawValue hv else hv_Value hv in
        match ho_AppendAction opt with
        | ADD_IF_ABSENT => if bool_decide (Header_Get h key = "") then Header_Set h key val else h
        | OVERWRITE_IF_EXISTS => if bool_decide (Header_Get h key = "") then h else Header_Set h key val
        | _ => Header_Set h key val
        end
  end.

Definition ApplySafeHeaderMutations (h : Header) (mut : option HeaderMutation) : Header :=
  match mut with
  | None => h
  | Some mut => foldl apply_set (foldl apply_remove h (hm_RemoveHeaders mut)) (hm_SetHeaders mut)
  end.

Definition proto_header (kv : string * list string) : string * string := (ToLower kv.1, Join kv.2 ", ").

Definition HTTPRequestToProtoHeaders (r : Request) (destName : string) : list (string * string) :=
  [(":method", req_Method r); (":path", RequestURI r); (":authority", destName); (":scheme", "https")] ++
  (proto_header <$> filter (λ kv, IsProtectedEgressHeader kv.1 = false) (map_to_list (req_Header r))).

Definition HTTPResponseToProtoHeaders (status : string) (h : Header) : list (string * string) :=
  (":status", status) :: (proto_header <$> map_to_list h).

(** ** Phases *)

Definition mutated_body (body : string) (bm : option BodyMutation) : string :=
  match bm with
  | Some (ClearBody true) => ""
  | Some (Body b) => b
  | _ => body
  end.

(** The answer to one message: the mode it leaves, and the immediate response or
    the changes it asks for. *)
Definition common_of (kind : ResponseKind) (want : ResponseKind → option (option CommonResponse)) : option CommonResponse :=
  default None (want kind).

Definition is_immediate (resp : ProcessingResponse) : option ImmediateResponse :=
  match pr_Kind resp with RImmediate i => Some i | _ => None end.

Definition apply_common (c : option CommonResponse) (h : Header) (body : string) : Header * string :=
  match c with
  | None => (h, body)
  | Some c => (ApplySafeHeaderMutations h (cr_HeaderMutation c), mutated_body body (cr_BodyMutation c))
  end.

(** One message and its answer; a failure closes the session in the request
    phase. *)
Definition exchange_message (sess : nat) (m : ProcessingRequest) : egress (result ProcessingResponse) :=
  sent ← ask (CExtSend sess m);
  match sent with
  | Err e => mret (Err e)
  | Ok _ => ask (CExtRecv sess)
  end.

Definition close_on_error {A} (sess : nat) (r : result A) : egress (result A) :=
  match r with
  | Err e => ask (CExtClose sess);; mret (Err e)
  | Ok a => mret (Ok a)
  end.

(** What a phase leaves: the headers as changed so far, and the error, or the
    mode of the session with the immediate response or the body. *)
Record Phase := { ph_Header : Header; ph_Out : result (ProcessingMode * option ImmediateResponse * string) }.

(** A message of a phase, when the phase sends it. *)
Definition phase_step (cfg : ExtProc) (sess : nat) (closing : bool) (want : ResponseKind → option (option CommonResponse))
    (m : ProcessingRequest) (mode : ProcessingMode) (h : Header) (body : string) (k : ProcessingMode → Header → string → egress Phase) : egress Phase :=
  r ← exchange_message sess m;
  r ← (if closing then close_on_error sess r else mret r);
  match r with
  | Err e => mret {| ph_Header := h; ph_Out := Err e |}
  | Ok resp =>
      let mode := apply_override cfg mode resp in
      match is_immediate resp with
      | Some imm => mret {| ph_Header := h; ph_Out := Ok (mode, Some imm, body) |}
      | None => let '(h, body) := apply_common (common_of (pr_Kind resp) want) h body in k mode h body
      end
  end.

Definition want_request_headers k := match k with RRequestHeaders c => Some c | _ => None end.
Definition want_request_body k := match k with RRequestBody c => Some c | _ => None end.
Definition want_response_headers k := match k with RResponseHeaders c => Some c | _ => None end.
Definition want_response_body k := match k with RResponseBody c => Some c | _ => None end.

Definition RunRequestPhase (sess : nat) (r : Request) (cfg : ExtProc) (destName reqBody : string) (attrs : list (string * string)) : egress Phase :=
  opened ← ask (CExtOpen sess cfg);
  match opened with
  | Err e => mret {| ph_Header := req_Header r; ph_Out := Err e |}
  | Ok _ =>
      let mode := InitialProcessingMode cfg in
      let body_phase mode h body :=
        if negb (bool_decide (body = "")) && negb (bool_decide (pm_RequestBodyMode mode = BODY_NONE)) then
          phase_step cfg sess true want_request_body (PRequestBody attrs body) mode h body
            (λ mode h body, mret {| ph_Header := h; ph_Out := Ok (mode, None, body) |})
        else mret {| ph_Header := h; ph_Out := Ok (mode, None, body) |} in
      if negb (bool_decide (pm_RequestHeaderMode mode = HEADER_SKIP)) then
        let endOfStream := bool_decide (reqBody = "") || bool_decide (pm_RequestBodyMode mode = BODY_NONE) in
        phase_step cfg sess true want_request_headers (PRequestHeaders attrs (HTTPRequestToProtoHeaders r destName) endOfStream)
          mode (req_Header r) reqBody body_phase
      else body_phase mode (req_Header r) reqBody
  end.

(** The status is rendered by the caller. *)
Definition RunResponsePhase (sess : nat) (cfg : ExtProc) (mode : ProcessingMode) (status : string) (respHeader : Header) (respBody : string) : egress Phase :=
  let body_phase mode h body :=
    if negb (bool_decide (body = "")) && negb (bool_decide (pm_ResponseBodyMode mode = BODY_NONE)) then
      let maxBytes := if (ep_max_buffered_bytes cfg <=? 0)%Z then DefaultMaxBufferBytes else ep_max_buffered_bytes cfg in
      if (maxBytes <? Z.of_nat (len body))%Z then mret {| ph_Header := h; ph_Out := fail "response body exceeds max_buffered_bytes" |}
      else phase_step cfg sess false want_response_body (PResponseBody body) mode h body
             (λ mode h body, mret {| ph_Header := h; ph_Out := Ok (mode, None, body) |})
    else mret {| ph_Header := h; ph_Out := Ok (mode, None, body) |} in
  if negb (bool_decide (pm_ResponseHeaderMode mode = HEADER_SKIP)) then
    let endOfStream := bool_decide (respBody = "") || bool_decide (pm_ResponseBodyMode mode = BODY_NONE) in
    phase_step cfg sess false want_response_headers (PResponseHeaders (HTTPResponseToProtoHeaders status respHeader) endOfStream)
      mode respHeader respBody body_phase
  else body_phase mode respHeader respBody.
End callout.
