(* ===== verification/TlsHello.v ===== *)
(** * TLS ClientHello inspection

    The parser that a TCP tunnel runs on the first bytes of a client
    ([src/internal/tlsinspect/tlsinspect.go]).  Byte slices are strings; a
    reader is the bytes that it will deliver before it fails.  The grammar of
    the messages that are accepted (RFC 8446, section 4.1.2) is [hello] with
    its encoding, and the theorem of the file is that the parser accepts
    exactly the encodings, and reports the name and the extension that they
    carry. *)

From S2P Require Import Prelude GoStrings Regex Names Base64.

Definition RecordTypeHandshake : Z := 0x16.
Definition HandshakeTypeClientHello : Z := 0x01.
Definition ExtServerName : Z := 0x0000.
Definition ExtEncryptedClientHello : Z := 0xfe0d.
Definition MaxRecordBytes : Z := 16384.

Record ClientHello := { ch_RawRecord : string; ch_ServerName : string; ch_HasECH : bool }.

(** [b[i]], for an index in range, and [len(b)]. *)
Definition at_ (b : string) (i : nat) : Z := byte (default "000"%char (String.get i b)).
Definition size (b : string) : Z := Z.of_nat (len b).

(** [b[:n]] and [b[n:]], for [n] in range. *)
Definition upto (n : Z) (b : string) : string := str_take (Z.to_nat n) b.
Definition from_ (n : Z) (b : string) : string := str_drop (Z.to_nat n) b.

(** [binary.BigEndian.Uint16]. *)
Definition Uint16 (b : string) : Z := Z.lor (at_ b 1) (Z.shiftl (at_ b 0) 8).

(** ** Parsing *)

(** The loop over the entries of a server name list; every entry takes at
    least three bytes, so that [len b] rounds are enough. *)
Fixpoint server_names (fuel : nat) (b hostName : string) : result (string * string) :=
  if negb (3 <=? size b)%Z then Ok (hostName, b)
  else match fuel with
  | O => fail "out of fuel"
  | S fuel =>
      let nameType := at_ b 0 in
      let nameLen := Uint16 (from_ 1 b) in
      let b := from_ 3 b in
      fail_if ((size b <? nameLen)%Z || (nameLen =? 0)%Z) "invalid server_name entry length";;
      let val := upto nameLen b in
      let b := from_ nameLen b in
      if (nameType =? 0)%Z then
        fail_if (negb (bool_decide (hostName = ""))) "duplicate host_name entry in server_name extension";;
        server_names fuel b val
      else server_names fuel b hostName
  end.

Definition parseServerNameExtension (b : string) : result string :=
  fail_if (size b <? 2)%Z "truncated server_name extension";;
  let listLen := Uint16 b in
  let b := from_ 2 b in
  fail_if (negb (size b =? listLen)%Z) "invalid server_name list length";;
  '(hostName, b) ← server_names (len b) b "";
  fail_if (negb (size b =? 0)%Z) "trailing bytes in server_name list";;
  Ok hostName.

(** The loop over the extensions, with what it has seen so far. *)
Fixpoint extensions (fuel : nat) (b sni : string) (hasECH seenSNIExt : bool) : result (string * bool * string) :=
  if negb (4 <=? size b)%Z then Ok (sni, hasECH, b)
  else match fuel with
  | O => fail "out of fuel"
  | S fuel =>
      let extType := Uint16 b in
      let extLen := Uint16 (from_ 2 b) in
      let b := from_ 4 b in
      fail_if (size b <? extLen)%Z "truncated TLS extension data";;
      let extData := upto extLen b in
      let b := from_ extLen b in
      if (extType =? ExtEncryptedClientHello)%Z then extensions fuel b sni true seenSNIExt
      else if (extType =? ExtServerName)%Z then
        fail_if seenSNIExt "duplicate server_name extension in TLS ClientHello";;
        parsed ← parseServerNameExtension extData;
        extensions fuel b parsed hasECH true
      else extensions fuel b sni hasECH seenSNIExt
  end.

Definition ParseClientHelloHandshake (b : string) : result (string * bool) :=
  fail_if (size b <? 4)%Z "truncated TLS handshake message";;
  fail_if (negb (at_ b 0 =? HandshakeTypeClientHello)%Z) "expected TLS ClientHello (0x01)";;
  let hsLen := Z.lor (Z.lor (Z.shiftl (at_ b 1) 16) (Z.shiftl (at_ b 2) 8)) (at_ b 3) in
  let b := from_ 4 b in
  fail_if (size b <? hsLen)%Z "TLS ClientHello record shorter than handshake length";;
  fail_if (hsLen <? size b)%Z "TLS ClientHello record contains trailing bytes or multiple handshake messages";;
  let b := upto hsLen b in
  fail_if (size b <? 34)%Z "truncated TLS ClientHello fixed header";;
  let b := from_ 34 b in
  fail_if (size b <? 1)%Z "truncated TLS ClientHello session_id";;
  let sidLen := at_ b 0 in
  let b := from_ 1 b in
  fail_if (size b <? sidLen)%Z "truncated TLS ClientHello session_id bytes";;
  let b := from_ sidLen b in
  fail_if (size b <? 2)%Z "truncated TLS ClientHello cipher_suites";;
  let csLen := Uint16 b in
  let b := from_ 2 b in
  fail_if ((csLen =? 0)%Z || negb (csLen mod 2 =? 0)%Z || (size b <? csLen)%Z) "invalid TLS ClientHello cipher_suites length";;
  let b := from_ csLen b in
  fail_if (size b <? 1)%Z "truncated TLS ClientHello compression_methods";;
  let compLen := at_ b 0 in
  let b := from_ 1 b in
  fail_if ((compLen =? 0)%Z || (size b <? compLen)%Z) "invalid TLS ClientHello compression_methods length";;
  let b := from_ compLen b in
  if (size b =? 0)%Z then Ok ("", false)
  else
    fail_if (size b <? 2)%Z "truncated TLS ClientHello extensions length";;
    let extTotalLen := Uint16 b in
    let b := from_ 2 b in
    fail_if (negb (size b =? extTotalLen)%Z) "invalid TLS ClientHello extensions block length";;
    '(sni, hasECH, b) ← extensions (len b) b "" false false;
    fail_if (negb (size b =? 0)%Z) "trailing bytes in TLS ClientHello extensions";;
    Ok (sni, hasECH).

(** ** Reading *)

(** [io.ReadFull] of [n] bytes: what was read and what is left. *)
Definition ReadFull (r : string) (n : Z) : result (string * string) :=
  if (size r <? n)%Z then fail "unexpected EOF" else Ok (upto n r, from_ n r).

(** What is returned beside the error, and what is left in the reader. *)
Definition ReadClientHello (r : string) : option ClientHello * result unit * string :=
  match wrap_err "failed to read TLS record header" (ReadFull r 5) with
  | Err e => (None, Err e, "")
  | Ok (hdr, rest) =>
      let recLen := Uint16 (from_ 3 hdr) in
      let checked :=
        fail_if (negb (at_ hdr 0 =? RecordTypeHandshake)%Z) "expected TLS Handshake record (0x16)";;
        fail_if (negb (at_ hdr 1 =? 3)%Z || (at_ hdr 2 <? 1)%Z || (4 <? at_ hdr 2)%Z) "invalid TLS record version";;
        fail_if ((recLen <=? 0)%Z || (MaxRecordBytes <? recLen)%Z) "invalid TLS record length" in
      match checked with
      | Err e => (None, Err e, rest)
      | Ok _ =>
          match wrap_err "failed to read TLS Handshake record body" (ReadFull rest recLen) with
          | Err e => (None, Err e, "")
          | Ok (payload, rest) =>
              let rawRecord := hdr +:+ payload in
              match ParseClientHelloHandshake payload with
              | Err e => (Some {| ch_RawRecord := rawRecord; ch_ServerName := ""; ch_HasECH := false |}, Err e, rest)
              | Ok (sni, hasECH) => (Some {| ch_RawRecord := rawRecord; ch_ServerName := sni; ch_HasECH := hasECH |}, Ok tt, rest)
              end
          end
      end
  end.

Section verify.
Context `{UnicodeCase}.

(** The record, the name, the error, and what is left in the reader. *)
Definition VerifyClientHello (r expectedHost : string) : string * string * result unit * string :=
  let '(ch, err, rest) := ReadClientHello r in
  let rawRecord := match ch with Some ch => ch_RawRecord ch | None => "" end in
  match err, ch with
  | Err e, _ => (rawRecord, "", Err e, rest)
  | Ok _, None => (rawRecord, "", fail "unreachable", rest)
  | Ok _, Some ch =>
      if ch_HasECH ch then (rawRecord, ch_ServerName ch, fail "TLS ClientHello contains Encrypted Client Hello (ECH), which is forbidden on named TCP tunnels", rest)
      else if bool_decide (ch_ServerName ch = "") then (rawRecord, "", fail "TLS ClientHello is missing SNI server_name extension", rest)
      else
        let normSNI := NormalizeMeshHost (ch_ServerName ch) in
        let normExpected := NormalizeMeshHost expectedHost in
        if negb (bool_decide (normSNI = normExpected)) then (rawRecord, ch_ServerName ch, fail "TLS ClientHello SNI does not match destination", rest)
        else (rawRecord, normSNI, Ok tt, rest)
  end.
End verify.

(** ** The grammar *)

Inductive extension :=
| ServerName (names : list (Z * string))
| EncryptedClientHello (data : string)
| OtherExtension (type : Z) (data : string).

Record hello := {
  h_fixed : string;        (** version and random *)
  h_session : string;
  h_ciphers : string;
  h_compression : string;
  h_extensions : option (list extension);
}.

Definition u8 (n : Z) : string := str1 (char_of n).
Definition u16 (n : Z) : string := String (char_of (n / 256)) (u8 (n mod 256)).
Definition u24 (n : Z) : string := String (char_of (n / 65536)) (u16 (n mod 65536)).
Definition vec8 (s : string) : string := u8 (size s) +:+ s.
Definition vec16 (s : string) : string := u16 (size s) +:+ s.

Fixpoint concat (l : list string) : string := match l with [] => "" | s :: l => s +:+ concat l end.

Definition encode_name (n : Z * string) : string := u8 n.1 +:+ vec16 n.2.
Definition encode_names (l : list (Z * string)) : string := vec16 (concat (encode_name <$> l)).

Definition encode_extension (x : extension) : string :=
  match x with
  | ServerName names => u16 ExtServerName +:+ vec16 (encode_names names)
  | EncryptedClientHello data => u16 ExtEncryptedClientHello +:+ vec16 data
  | OtherExtension t data => u16 t +:+ vec16 data
  end.

Definition encode_body (h : hello) : string :=
  h_fixed h +:+ vec8 (h_session h) +:+ vec16 (h_ciphers h) +:+ vec8 (h_compression h) +:+
  match h_extensions h with Some l => vec16 (concat (encode_extension <$> l)) | None => "" end.

Definition encode_hello (h : hello) : string := u8 HandshakeTypeClientHello +:+ u24 (size (encode_body h)) +:+ encode_body h.

(** A record of the handshake, of TLS version 1.[v - 1]. *)
Definition encode_record (v : Z) (h : hello) : string :=
  u8 RecordTypeHandshake +:+ u8 3 +:+ u8 v +:+ vec16 (encode_hello h).

(** What the hello says. *)
Definition host_names (l : list (Z * string)) : list string := snd <$> filter (λ n, n.1 = 0%Z) l.
Definition server_name_lists (l : list extension) : list (list (Z * string)) :=
  omap (λ x, match x with ServerName names => Some names | _ => None end) l.
Definition hello_extensions (h : hello) : list extension := default [] (h_extensions h).
Definition hello_sni (h : hello) : string := default "" (head (mjoin (host_names <$> server_name_lists (hello_extensions h)))).
Definition is_ech (x : extension) : bool := match x with EncryptedClientHello _ => true | _ => false end.
Definition hello_ech (h : hello) : bool := existsb is_ech (hello_extensions h).

(** The bounds of the length fields, and the rules of RFC 8446 and RFC 6066 that
    the parser enforces. *)
Definition names_ok (l : list (Z * string)) : Prop :=
  Forall (λ n, (0 ≤ n.1 < 256)%Z ∧ (0 < size n.2 < 65536)%Z) l ∧
  (size (concat (encode_name <$> l)) < 65536)%Z ∧ length (host_names l) ≤ 1.
Definition extension_ok (x : extension) : Prop :=
  match x with
  | ServerName names => names_ok names ∧ (size (encode_names names) < 65536)%Z
  | EncryptedClientHello data => (size data < 65536)%Z
  | OtherExtension t data => (0 ≤ t < 65536)%Z ∧ t ≠ ExtServerName ∧ t ≠ ExtEncryptedClientHello ∧ (size data < 65536)%Z
  end.
Definition hello_ok (h : hello) : Prop :=
  size (h_fixed h) = 34%Z ∧ (size (h_session h) < 256)%Z ∧
  (0 < size (h_ciphers h) < 65536)%Z ∧ (size (h_ciphers h) mod 2 = 0)%Z ∧ (0 < size (h_compression h) < 256)%Z ∧
  Forall extension_ok (hello_extensions h) ∧ length (server_name_lists (hello_extensions h)) ≤ 1 ∧
  (size (concat (encode_extension <$> hello_extensions h)) < 65536)%Z ∧ (size (encode_body h) < 16777216)%Z.

(** ** Slices and numbers *)

Lemma size_app s t : size (s +:+ t) = (size s + size t)%Z.
Proof. unfold size. rewrite len_app. lia. Qed.

Lemma size_nonneg s : (0 ≤ size s)%Z.
Proof. unfold size. lia. Qed.

Lemma size_zero s : size s = 0%Z ↔ s = "".
Proof. unfold size. rewrite <-len_zero. lia. Qed.

Lemma at_head c s : at_ (String c s) 0 = byte c.
Proof. done. Qed.

Lemma at_tail c s i : at_ (String c s) (S i) = at_ s i.
Proof. done. Qed.

(** A string is what is before a position and what is after it. *)
Lemma cut_at (n : Z) b : (0 ≤ n ≤ size b)%Z → ∃ x y, b = x +:+ y ∧ size x = n.
Proof.
  intros Hn. exists (upto n b), (from_ n b). unfold upto, from_. rewrite take_drop. split; [done|].
  unfold size in *. rewrite len_take. lia.
Qed.

Lemma upto_app x y n : size x = n → upto n (x +:+ y) = x.
Proof. intros <-. unfold upto, size. rewrite Nat2Z.id. apply take_app_len. Qed.

Lemma upto_all x n : size x = n → upto n x = x.
Proof. intros Hx. rewrite <-(app_nil_r x) at 1. by apply upto_app. Qed.

Lemma from_app x y n : size x = n → from_ n (x +:+ y) = y.
Proof. intros <-. unfold from_, size. rewrite Nat2Z.id. apply drop_app_len. Qed.

Lemma lor_shift a b k : (0 ≤ k)%Z → (0 ≤ b < 2 ^ k)%Z → Z.lor (Z.shiftl a k) b = (a * 2 ^ k + b)%Z.
Proof.
  intros Hk Hb. rewrite <-Z.shiftl_mul_pow2 by done.
  enough (Z.land (Z.shiftl a k) b = 0%Z) as Hz by (rewrite <-(Z.add_lor_land (Z.shiftl a k) b), Hz; lia).
  apply Z.bits_inj'. intros i Hi. rewrite Z.land_spec, Z.bits_0.
  destruct (decide (i < k)%Z); [by rewrite Z.shiftl_spec_low|].
  apply andb_false_intro2. destruct (decide (b = 0)%Z) as [->|]; [apply Z.bits_0|].
  apply Z.bits_above_log2; [lia|]. apply Z.log2_lt_pow2; [lia|].
  apply Z.lt_le_trans with (2 ^ k)%Z; [lia|]. apply Z.pow_le_mono_r; lia.
Qed.

Lemma Uint16_bytes a b s : Uint16 (String a (String b s)) = (byte a * 256 + byte b)%Z.
Proof. unfold Uint16. rewrite at_tail, !at_head, Z.lor_comm. apply lor_shift; [done|]. apply byte_range. Qed.

Lemma Uint16_u16 n s : (0 ≤ n < 65536)%Z → Uint16 (u16 n +:+ s) = n.
Proof.
  intros Hn. unfold u16, u8. rewrite !app_cons, Uint16_bytes, !byte_char_of.
  - rewrite Z.mul_comm. symmetry. by apply Z.div_mod.
  - by apply Z.mod_pos_bound.
  - split; [apply Z.div_pos; lia|]. apply Z.div_lt_upper_bound; lia.
Qed.

Lemma u16_bytes a b : u16 (byte a * 256 + byte b) = String a (str1 b).
Proof.
  pose proof (byte_range a). pose proof (byte_range b). unfold u16, u8.
  rewrite Z.div_add_l, (Z.div_small (byte b)), Z.add_0_r by lia.
  rewrite Z.add_comm, Z.mod_add, Z.mod_small by lia. by rewrite !char_of_byte.
Qed.

(** Two bytes are the encoding of the number they are read as. *)
Lemma read_u16 b : (2 ≤ size b)%Z → ∃ n s, (0 ≤ n < 65536)%Z ∧ b = u16 n +:+ s.
Proof.
  intros Hb. destruct b as [|x [|y s]]; [done..|]. exists (byte x * 256 + byte y)%Z, s.
  pose proof (byte_range x). pose proof (byte_range y). rewrite u16_bytes. split; [lia|done].
Qed.

Lemma read_u8 b : (1 ≤ size b)%Z → ∃ n s, (0 ≤ n < 256)%Z ∧ b = u8 n +:+ s.
Proof.
  intros Hb. destruct b as [|x s]; [done|]. exists (byte x), s. unfold u8. rewrite char_of_byte.
  split; [apply byte_range|done].
Qed.

Lemma at_u8 n s : (0 ≤ n < 256)%Z → at_ (u8 n +:+ s) 0 = n.
Proof. intros. unfold u8. rewrite app_cons, at_head. by apply byte_char_of. Qed.

Lemma size_u8 n : size (u8 n) = 1%Z.
Proof. done. Qed.

Lemma size_u16 n : size (u16 n) = 2%Z.
Proof. done. Qed.

Lemma from_u8 n s : from_ 1 (u8 n +:+ s) = s.
Proof. done. Qed.

Lemma from_u16 n s : from_ 2 (u16 n +:+ s) = s.
Proof. done. Qed.

Create Rewrite HintDb slices.
#[export] Hint Rewrite size_app size_u8 size_u16 from_u8 from_u16 : slices.

Lemma fail_if_false {A} msg (r : result A) : (fail_if false msg;; r) = r.
Proof. done. Qed.

(** ** Server names *)

(** The name found before the list, if any, and the ones in it. *)
Definition found (hostName : string) (l : list (Z * string)) : list string :=
  (if bool_decide (hostName = "") then [] else [hostName]) ++ host_names l.

Definition name_ok (n : Z * string) : Prop := (0 ≤ n.1 < 256)%Z ∧ (0 < size n.2 < 65536)%Z.

Lemma name_not_empty t val : name_ok (t, val) → val ≠ "".
Proof. intros [_ Hv] ->. cbn [snd] in Hv. by destruct Hv. Qed.

Lemma names_step t val b hostName fuel :
  name_ok (t, val) →
  server_names (S fuel) (encode_name (t, val) +:+ b) hostName =
  (if (t =? 0)%Z then
     fail_if (negb (bool_decide (hostName = ""))) "duplicate host_name entry in server_name extension";; server_names fuel b val
   else server_names fuel b hostName).
Proof.
  intros [Ht Hv]. cbn [fst snd] in Ht, Hv. pose proof (size_nonneg b).
  assert (encode_name (t, val) +:+ b = u8 t +:+ u16 (size val) +:+ val +:+ b) as ->.
  { unfold encode_name, vec16. cbn [fst snd]. by rewrite !app_assoc. }
  cbn [server_names]. rewrite (proj2 (Z.leb_le _ _)). 2: { autorewrite with slices. lia. } cbn [negb].
  rewrite at_u8, from_u8, Uint16_u16 by lia.
  replace (from_ 3 _) with (val +:+ b) by done.
  rewrite size_app, (proj2 (Z.ltb_ge _ _)), (proj2 (Z.eqb_neq (size val) 0)) by lia.
  cbn [orb]. by rewrite fail_if_false, (upto_app val b), (from_app val b).
Qed.

(** An entry at the front of what has at least three bytes. *)
Lemma names_cut b : (3 ≤ size b)%Z →
  (∃ t val b', b = encode_name (t, val) +:+ b' ∧ name_ok (t, val)) ∨
  (∀ fuel hostName, ¬ is_ok (server_names (S fuel) b hostName)).
Proof.
  intros Hb. destruct (read_u8 b) as (t & b1 & Ht & ->); [lia|].
  autorewrite with slices in Hb. destruct (read_u16 b1) as (n & b2 & Hn & ->); [lia|].
  autorewrite with slices in Hb. destruct (decide (0 < n ≤ size b2)%Z) as [Hle|Hle].
  - left. destruct (cut_at n b2) as (val & b' & -> & Hval); [lia|]. exists t, val, b'.
    unfold encode_name, vec16, name_ok. cbn [fst snd]. rewrite Hval, !app_assoc. split; [done|lia].
  - right. intros fuel hostName. cbn [server_names]. rewrite (proj2 (Z.leb_le _ _)) by (autorewrite with slices; lia).
    cbn [negb]. rewrite from_u8, Uint16_u16 by lia. replace (from_ 3 _) with b2 by done.
    destruct (size b2 <? n)%Z eqn:?, (n =? 0)%Z eqn:?; cbn; try tauto; lia.
Qed.

Lemma concat_step {A} (f : A → string) x l rest : concat (f <$> x :: l) +:+ rest = f x +:+ concat (f <$> l) +:+ rest.
Proof. cbn. apply app_assoc. Qed.

Lemma server_names_sound fuel b hostName h rest :
  server_names fuel b hostName = Ok (h, rest) →
  ∃ l, b = concat (encode_name <$> l) +:+ rest ∧ Forall name_ok l ∧ (size rest < 3)%Z ∧
    length (found hostName l) ≤ 1 ∧ h = default "" (head (found hostName l)).
Proof.
  revert b hostName. induction fuel as [|fuel IH]; intros b hostName Hs.
  all: destruct (decide (size b < 3)%Z) as [Hb|Hb];
    [|try (cbn [server_names] in Hs; rewrite (proj2 (Z.leb_le _ _)) in Hs by lia; done)].
  1, 2: cbn [server_names] in Hs; rewrite (proj2 (Z.leb_gt _ _)) in Hs by lia; cbn in Hs; simplify_eq;
    exists []; unfold found; case_bool_decide; simplify_eq/=; split_and!; auto.
  destruct (names_cut b) as [(t & val & b' & -> & Hok)|Hno]; [lia| |].
  - rewrite names_step in Hs by done. destruct (Z.eqb_spec t 0) as [->|Ht].
    + apply bind_unit_Ok in Hs as [Hh Hs]. apply fail_if_Ok, negb_false_iff, bool_decide_eq_true in Hh as ->.
      apply IH in Hs as (l & -> & Hl & Hr & Hlen & ->). exists ((0%Z, val) :: l).
      assert (found "" ((0%Z, val) :: l) = found val l) as ->.
      { unfold found, host_names. rewrite filter_cons_True by done.
        by rewrite (bool_decide_eq_false_2 (val = "")) by (by eapply name_not_empty). }
      rewrite concat_step. split_and!; auto.
    + apply IH in Hs as (l & -> & Hl & Hr & Hlen & ->). exists ((t, val) :: l).
      assert (found hostName ((t, val) :: l) = found hostName l) as ->.
      { unfold found, host_names. by rewrite filter_cons_False. }
      rewrite concat_step. split_and!; auto.
  - exfalso. apply (Hno fuel hostName). by rewrite Hs.
Qed.

Lemma server_names_complete fuel l hostName :
  Forall name_ok l → length (found hostName l) ≤ 1 → length l ≤ fuel →
  server_names fuel (concat (encode_name <$> l)) hostName = Ok (default "" (head (found hostName l)), "").
Proof.
  intros Hl. revert fuel hostName. induction Hl as [|[t val] l Hok Hl IH]; intros fuel hostName Hlen Hf.
  - assert (server_names fuel "" hostName = Ok (hostName, "")) as E by (by destruct fuel).
    cbn [fmap list_fmap concat]. rewrite E. unfold found. case_bool_decide; by subst.
  - destruct fuel as [|fuel]; [cbn in Hf; lia|]. cbn in Hf. cbn [fmap list_fmap concat].
    rewrite names_step by done. destruct (Z.eqb_spec t 0) as [->|Ht].
    + pose proof (name_not_empty _ _ Hok) as Hval.
      unfold found, host_names in Hlen. rewrite filter_cons_True in Hlen by done.
      case_bool_decide as Hh; [|cbn in Hlen; lia]. subst hostName. cbn [negb]. rewrite fail_if_false, IH; [|..|lia].
      * unfold found, host_names. rewrite filter_cons_True by done. by rewrite bool_decide_eq_false_2.
      * unfold found. by rewrite bool_decide_eq_false_2.
    + unfold found, host_names in Hlen |- *. rewrite filter_cons_False in Hlen |- * by done. apply IH; [done|lia].
Qed.

Lemma concat_length {A} (f : A → string) l : (∀ x, 1 ≤ len (f x)) → length l ≤ len (concat (f <$> l)).
Proof. intros Hf. induction l as [|x l IH]; cbn; [done|]. rewrite len_app. specialize (Hf x). lia. Qed.

Lemma names_split l : names_ok l ↔ Forall name_ok l ∧ (size (concat (encode_name <$> l)) < 65536)%Z ∧ length (host_names l) ≤ 1.
Proof. done. Qed.

(** The data of a server name extension. *)
Lemma parseServerNameExtension_iff b h :
  parseServerNameExtension b = Ok h ↔ ∃ l, b = encode_names l ∧ names_ok l ∧ h = default "" (head (host_names l)).
Proof.
  split.
  - intros Hp. unfold parseServerNameExtension in Hp.
    apply bind_unit_Ok in Hp as [Hb Hp]. apply fail_if_Ok, Z.ltb_ge in Hb.
    apply read_u16 in Hb as (n & s & Hn & ->). rewrite Uint16_u16, from_u16 in Hp by done.
    apply bind_unit_Ok in Hp as [Hs Hp]. apply fail_if_Ok, negb_false_iff, Z.eqb_eq in Hs as <-.
    apply bind_Ok in Hp as ([h' rest] & (l & -> & Hl & _ & Hlen & ->)%server_names_sound & Hp).
    apply bind_unit_Ok in Hp as [Hr Hp]. apply fail_if_Ok, negb_false_iff, Z.eqb_eq, size_zero in Hr as ->.
    rewrite app_nil_r in *. injection Hp as <-. exists l. rewrite names_split. split_and!; done || lia.
  - intros (l & -> & Hok & ->). apply names_split in Hok as (Hl & Hs & Hlen).
    pose proof (size_nonneg (concat (encode_name <$> l))).
    unfold parseServerNameExtension, encode_names, vec16.
    rewrite (proj2 (Z.ltb_ge _ _)) by (autorewrite with slices; lia).
    rewrite fail_if_false, Uint16_u16, from_u16, Z.eqb_refl by lia. cbn [negb].
    rewrite fail_if_false, server_names_complete; [done..|]. apply concat_length. intros n. unfold encode_name. rewrite len_app. by apply le_n_S, Nat.le_0_l.
Qed.

(** ** Extensions *)

Definition name_lists (l : list extension) : list string := mjoin (host_names <$> server_name_lists l).

(** An extension as the loop reads it: its type, and its data as bytes. *)
Definition wire_type (x : extension) : Z :=
  match x with ServerName _ => ExtServerName | EncryptedClientHello _ => ExtEncryptedClientHello | OtherExtension t _ => t end.
Definition wire_data (x : extension) : string :=
  match x with ServerName names => encode_names names | EncryptedClientHello data | OtherExtension _ data => data end.

Lemma encode_extension_wire x : encode_extension x = u16 (wire_type x) +:+ vec16 (wire_data x).
Proof. by destruct x. Qed.

Lemma extension_wire_ok x : extension_ok x → (0 ≤ wire_type x < 65536)%Z ∧ (size (wire_data x) < 65536)%Z.
Proof. destruct x; cbn -[size Z.lt]; intros; unfold ExtServerName, ExtEncryptedClientHello; lia. Qed.

Lemma extension_step t data b sni ech seen fuel :
  (0 ≤ t < 65536)%Z → (size data < 65536)%Z →
  extensions (S fuel) ((u16 t +:+ vec16 data) +:+ b) sni ech seen =
  (if (t =? ExtEncryptedClientHello)%Z then extensions fuel b sni true seen
   else if (t =? ExtServerName)%Z then
     fail_if seen "duplicate server_name extension in TLS ClientHello";;
     parsed ← parseServerNameExtension data; extensions fuel b parsed ech true
   else extensions fuel b sni ech seen).
Proof.
  intros Ht Hd. pose proof (size_nonneg b). pose proof (size_nonneg data).
  unfold vec16. rewrite !app_assoc. cbn [extensions].
  rewrite (proj2 (Z.leb_le _ _)) by (autorewrite with slices; lia). cbn [negb].
  rewrite from_u16, Uint16_u16, Uint16_u16 by lia.
  replace (from_ 4 _) with (data +:+ b) by done.
  rewrite size_app, (proj2 (Z.ltb_ge _ _)) by lia. by rewrite fail_if_false, (upto_app data b), (from_app data b).
Qed.

(** Four bytes begin an extension, or its data is cut short. *)
Lemma extension_cut b : (4 ≤ size b)%Z →
  (∃ t data b', b = (u16 t +:+ vec16 data) +:+ b' ∧ (0 ≤ t < 65536)%Z ∧ (size data < 65536)%Z) ∨
  (∀ fuel sni ech seen, ¬ is_ok (extensions (S fuel) b sni ech seen)).
Proof.
  intros Hb. destruct (read_u16 b) as (t & b1 & Ht & ->); [lia|].
  autorewrite with slices in Hb. destruct (read_u16 b1) as (n & b2 & Hn & ->); [lia|].
  autorewrite with slices in Hb. destruct (decide (n ≤ size b2)%Z) as [Hle|Hle].
  - left. destruct (cut_at n b2) as (data & b' & -> & Hdata); [lia|]. exists t, data, b'.
    unfold vec16. rewrite Hdata, !app_assoc. split; [done|lia].
  - right. intros fuel sni ech seen. cbn [extensions]. rewrite (proj2 (Z.leb_le _ _)) by (autorewrite with slices; lia).
    cbn [negb]. rewrite from_u16, (Uint16_u16 n) by lia. replace (from_ 4 _) with b2 by done.
    rewrite (proj2 (Z.ltb_lt _ _)) by lia. tauto.
Qed.

(** The name that the loop ends with. *)
Definition last_name (sni : string) (l : list extension) : string :=
  match server_name_lists l with names :: _ => default "" (head (host_names names)) | [] => sni end.

Definition lists_left (seen : bool) (l : list extension) : Prop :=
  length (server_name_lists l) ≤ if seen then 0 else 1.

Lemma name_lists_cons names l : server_name_lists (ServerName names :: l) = names :: server_name_lists l.
Proof. done. Qed.

Lemma extensions_sound fuel b sni ech seen sni' ech' rest :
  extensions fuel b sni ech seen = Ok (sni', ech', rest) →
  ∃ l, b = concat (encode_extension <$> l) +:+ rest ∧ Forall extension_ok l ∧ (size rest < 4)%Z ∧
    lists_left seen l ∧ sni' = last_name sni l ∧ ech' = ech || existsb is_ech l.
Proof.
  revert b sni ech seen. induction fuel as [|fuel IH]; intros b sni ech seen Hs.
  all: destruct (decide (size b < 4)%Z) as [Hb|Hb];
    [|try (cbn [extensions] in Hs; rewrite (proj2 (Z.leb_le _ _)) in Hs by lia; done)].
  1, 2: cbn [extensions] in Hs; rewrite (proj2 (Z.leb_gt _ _)) in Hs by lia; cbn in Hs; simplify_eq;
    exists []; unfold lists_left, last_name; rewrite orb_false_r; destruct seen; split_and!; auto; cbn; lia.
  destruct (extension_cut b) as [(t & data & b' & -> & Ht & Hd)|Hno]; [lia| |].
  - rewrite extension_step in Hs by done.
    destruct (Z.eqb_spec t ExtEncryptedClientHello) as [->|Hech]; [|destruct (Z.eqb_spec t ExtServerName) as [->|Hsn]].
    + apply IH in Hs as (l & -> & Hl & Hr & Hlen & -> & ->). exists (EncryptedClientHello data :: l).
      rewrite concat_step. split_and!; auto. cbn. by rewrite !orb_true_r.
    + apply bind_unit_Ok in Hs as [Hseen Hs]. apply fail_if_Ok in Hseen as ->.
      apply bind_Ok in Hs as (h & (names & -> & Hok & ->)%parseServerNameExtension_iff & Hs).
      apply IH in Hs as (l & -> & Hl & Hr & Hlen & -> & ->). exists (ServerName names :: l).
      apply Nat.le_0_r, length_zero_iff_nil in Hlen. rewrite concat_step.
      unfold lists_left, last_name. rewrite name_lists_cons, Hlen.
      split_and!; auto. constructor; [|done]. split; [done|lia].
    + apply IH in Hs as (l & -> & Hl & Hr & Hlen & -> & ->). exists (OtherExtension t data :: l).
      rewrite concat_step. split_and!; auto. by constructor.
  - exfalso. apply (Hno fuel sni ech seen). by rewrite Hs.
Qed.

Lemma extensions_complete fuel l sni ech seen :
  Forall extension_ok l → lists_left seen l → length l ≤ fuel →
  extensions fuel (concat (encode_extension <$> l)) sni ech seen = Ok (last_name sni l, ech || existsb is_ech l, "").
Proof.
  intros Hl. revert fuel sni ech seen. induction Hl as [|x l Hok Hl IH]; intros fuel sni ech seen Hlen Hf.
  - cbn. rewrite orb_false_r. by destruct fuel.
  - destruct fuel as [|fuel]; [cbn in Hf; lia|]. cbn in Hf. cbn [fmap list_fmap concat].
    destruct (extension_wire_ok _ Hok). rewrite encode_extension_wire, extension_step by done.
    unfold lists_left in *. destruct x as [names|data|t data]; cbn [wire_type wire_data].
    + rewrite name_lists_cons in Hlen. destruct seen; [cbn in Hlen; lia|]. apply le_S_n, Nat.le_0_r, length_zero_iff_nil in Hlen. rewrite Z.eqb_refl. cbn [Z.eqb ExtServerName ExtEncryptedClientHello].
      rewrite fail_if_false, (proj2 (parseServerNameExtension_iff _ (default "" (head (host_names names))))).
      2: { exists names. by destruct Hok. }
      cbn [mbind result_bind]. rewrite IH by (rewrite ?Hlen; done || lia). unfold last_name. by rewrite name_lists_cons, Hlen.
    + rewrite Z.eqb_refl, IH by (done || lia). by rewrite !orb_true_r.
    + destruct Hok as (_ & Hs & He & _). rewrite !(proj2 (Z.eqb_neq _ _)) by done. apply IH; [done|lia].
Qed.

(** ** The handshake message *)

Definition handshake_length (b : string) : Z := Z.lor (Z.lor (Z.shiftl (at_ b 1) 16) (Z.shiftl (at_ b 2) 8)) (at_ b 3).

Lemma handshake_length_bytes x a b c s :
  handshake_length (String x (String a (String b (String c s)))) = (byte a * 65536 + (byte b * 256 + byte c))%Z.
Proof.
  unfold handshake_length. rewrite !at_tail, !at_head, <-Z.lor_assoc.
  pose proof (byte_range b). pose proof (byte_range c).
  rewrite (lor_shift (byte b)) by lia. apply lor_shift; lia.
Qed.

Lemma handshake_length_u24 x n s : (0 ≤ n < 16777216)%Z → handshake_length (u8 x +:+ u24 n +:+ s) = n.
Proof.
  intros Hn. etransitivity; [apply handshake_length_bytes|].
  pose proof (Z.mod_pos_bound n 65536 ltac:(lia)) as Hm.
  rewrite !byte_char_of.
  - rewrite (Z.mul_comm _ 256), <-(Z.div_mod (n mod 65536)), Z.mul_comm by lia. symmetry. by apply Z.div_mod.
  - by apply Z.mod_pos_bound.
  - split; [apply Z.div_pos; lia|]. apply Z.div_lt_upper_bound; lia.
  - split; [apply Z.div_pos; lia|]. apply Z.div_lt_upper_bound; lia.
Qed.

Lemma u24_bytes a b c : u24 (byte a * 65536 + (byte b * 256 + byte c)) = String a (String b (str1 c)).
Proof.
  pose proof (byte_range b). pose proof (byte_range c). unfold u24.
  rewrite Z.div_add_l, (Z.div_small (byte b * 256 + byte c)), Z.add_0_r by lia.
  rewrite Z.add_comm, Z.mod_add, Z.mod_small by lia. by rewrite char_of_byte, u16_bytes.
Qed.

Lemma read_handshake b : (4 ≤ size b)%Z →
  ∃ t n s, (0 ≤ t < 256)%Z ∧ (0 ≤ n < 16777216)%Z ∧ b = u8 t +:+ u24 n +:+ s.
Proof.
  intros Hb. destruct b as [|x [|y [|z [|w s]]]]; [done..|].
  exists (byte x), (byte y * 65536 + (byte z * 256 + byte w))%Z, s.
  pose proof (byte_range x). pose proof (byte_range y). pose proof (byte_range z). pose proof (byte_range w).
  rewrite u24_bytes. unfold u8. rewrite char_of_byte. split_and!; done || lia.
Qed.

Lemma from_handshake t n s : from_ 4 (u8 t +:+ u24 n +:+ s) = s.
Proof. done. Qed.

Lemma size_vec8 s : size (vec8 s) = (1 + size s)%Z.
Proof. apply size_app. Qed.

Lemma size_vec16 s : size (vec16 s) = (2 + size s)%Z.
Proof. apply size_app. Qed.

Lemma size_u24 n : size (u24 n) = 3%Z.
Proof. done. Qed.
#[export] Hint Rewrite size_vec8 size_vec16 size_u24 : slices.

(** A vector of at most 255 bytes at the front, as it is read. *)
Lemma read_vec8 b : (1 ≤ size b)%Z → (at_ b 0 ≤ size (from_ 1 b))%Z →
  ∃ s rest, b = vec8 s +:+ rest ∧ (size s < 256)%Z ∧ at_ b 0 = size s ∧ from_ (at_ b 0) (from_ 1 b) = rest.
Proof.
  intros Hb Hn. destruct (read_u8 b) as (n & b' & Hr & ->); [done|].
  rewrite at_u8, from_u8 in Hn |- * by done. destruct (cut_at n b') as (s & rest & -> & Hs); [lia|].
  exists s, rest. rewrite from_app by done. unfold vec8. rewrite Hs, app_assoc. split_and!; done || lia.
Qed.

Lemma read_vec16 b : (2 ≤ size b)%Z → (Uint16 b ≤ size (from_ 2 b))%Z →
  ∃ s rest, b = vec16 s +:+ rest ∧ (size s < 65536)%Z ∧ Uint16 b = size s ∧ from_ (Uint16 b) (from_ 2 b) = rest.
Proof.
  intros Hb Hn. destruct (read_u16 b) as (n & b' & Hr & ->); [done|].
  rewrite Uint16_u16, from_u16 in Hn |- * by done. destruct (cut_at n b') as (s & rest & -> & Hs); [lia|].
  exists s, rest. rewrite from_app by done. unfold vec16. rewrite Hs, app_assoc. split_and!; done || lia.
Qed.

Lemma at_vec8 s rest : (size s < 256)%Z → at_ (vec8 s +:+ rest) 0 = size s ∧ from_ 1 (vec8 s +:+ rest) = s +:+ rest.
Proof. intros Hs. pose proof (size_nonneg s). unfold vec8. rewrite app_assoc, at_u8 by lia. done. Qed.

Lemma at_vec16 s rest : (size s < 65536)%Z → Uint16 (vec16 s +:+ rest) = size s ∧ from_ 2 (vec16 s +:+ rest) = s +:+ rest.
Proof. intros Hs. pose proof (size_nonneg s). unfold vec16. rewrite app_assoc, Uint16_u16 by lia. done. Qed.

Lemma hello_sni_last h : length (server_name_lists (hello_extensions h)) ≤ 1 → hello_sni h = last_name "" (hello_extensions h).
Proof.
  intros Hlen. unfold hello_sni, last_name. destruct (server_name_lists _) as [|names [|]]; cbn in *; [done| |lia].
  by rewrite (right_id_L [] (++)).
Qed.

(** The extensions block, or its absence. *)
Definition parse_extensions (b : string) : result (string * bool) :=
  if (size b =? 0)%Z then Ok ("", false)
  else
    fail_if (size b <? 2)%Z "truncated TLS ClientHello extensions length";;
    let extTotalLen := Uint16 b in
    let b := from_ 2 b in
    fail_if (negb (size b =? extTotalLen)%Z) "invalid TLS ClientHello extensions block length";;
    '(sni, hasECH, b) ← extensions (len b) b "" false false;
    fail_if (negb (size b =? 0)%Z) "trailing bytes in TLS ClientHello extensions";;
    Ok (sni, hasECH).

Definition encode_extensions (o : option (list extension)) : string :=
  match o with Some l => vec16 (concat (encode_extension <$> l)) | None => "" end.

Definition extensions_ok (o : option (list extension)) : Prop :=
  Forall extension_ok (default [] o) ∧ length (server_name_lists (default [] o)) ≤ 1 ∧
  (size (concat (encode_extension <$> default [] o)) < 65536)%Z.

Lemma parse_extensions_iff b sni ech :
  parse_extensions b = Ok (sni, ech) ↔
  ∃ o, b = encode_extensions o ∧ extensions_ok o ∧ sni = last_name "" (default [] o) ∧ ech = existsb is_ech (default [] o).
Proof.
  split.
  - unfold parse_extensions. destruct (Z.eqb_spec (size b) 0) as [->%size_zero|_]; intros Hp.
    { exists None. injection Hp as <- <-. unfold extensions_ok. split_and!; try done; cbn; auto. }
    apply bind_unit_Ok in Hp as [Hb Hp]. apply fail_if_Ok, Z.ltb_ge in Hb.
    apply read_u16 in Hb as (n & s & Hn & ->). rewrite Uint16_u16, from_u16 in Hp by done.
    apply bind_unit_Ok in Hp as [Hs Hp]. apply fail_if_Ok, negb_false_iff, Z.eqb_eq in Hs as <-.
    apply bind_Ok in Hp as ([[sni' ech'] rest] & (l & -> & Hl & _ & Hlen & -> & ->)%extensions_sound & Hp).
    apply bind_unit_Ok in Hp as [Hr Hp]. apply fail_if_Ok, negb_false_iff, Z.eqb_eq, size_zero in Hr as ->.
    rewrite app_nil_r in *. injection Hp as <- <-. exists (Some l). unfold extensions_ok. split_and!; auto. cbn -[size Z.lt]. lia.
  - intros ([l|] & -> & (Hl & Hlen & Hs) & -> & ->); [|done]. change (default [] (Some l)) with l in *.
    pose proof (size_nonneg (concat (encode_extension <$> l))).
    unfold parse_extensions. cbn [encode_extensions]. unfold vec16.
    rewrite (proj2 (Z.eqb_neq _ _)), (proj2 (Z.ltb_ge _ _)) by (autorewrite with slices; lia).
    rewrite fail_if_false, Uint16_u16, from_u16, Z.eqb_refl by lia. cbn [negb].
    rewrite fail_if_false, extensions_complete; [done..|]. apply concat_length. intros x.
    rewrite encode_extension_wire, len_app. by apply le_n_S, Nat.le_0_l.
Qed.

(** The parts of a message before the extensions: the bounds that are checked
    are those of the encoding. *)
Definition front_ok (fixed session ciphers compression : string) : Prop :=
  size fixed = 34%Z ∧ (size session < 256)%Z ∧ (0 < size ciphers < 65536)%Z ∧ (size ciphers mod 2 = 0)%Z ∧
  (0 < size compression < 256)%Z.

Lemma parse_front_sound b r :
  ParseClientHelloHandshake b = Ok r →
  ∃ fixed session ciphers compression rest, let body := fixed +:+ vec8 session +:+ vec16 ciphers +:+ vec8 compression +:+ rest in
    b = u8 HandshakeTypeClientHello +:+ u24 (size body) +:+ body ∧ (size body < 16777216)%Z ∧
    front_ok fixed session ciphers compression ∧ parse_extensions rest = Ok r.
Proof.
  unfold ParseClientHelloHandshake. intros Hp.
  apply bind_unit_Ok in Hp as [Hb Hp]. apply fail_if_Ok, Z.ltb_ge in Hb.
  apply read_handshake in Hb as (t & n & s & Ht & Hn & ->).
  apply bind_unit_Ok in Hp as [Hty Hp]. rewrite at_u8 in Hty by done. apply fail_if_Ok, negb_false_iff, Z.eqb_eq in Hty as ->.
  fold (handshake_length (u8 HandshakeTypeClientHello +:+ u24 n +:+ s)) in Hp.
  rewrite handshake_length_u24, from_handshake in Hp by done.
  apply bind_unit_Ok in Hp as [Hlo Hp]. apply fail_if_Ok, Z.ltb_ge in Hlo.
  apply bind_unit_Ok in Hp as [Hhi Hp]. apply fail_if_Ok, Z.ltb_ge in Hhi.
  assert (size s = n) as Hsz by lia. rewrite upto_all in Hp by done.
  apply bind_unit_Ok in Hp as [Hf Hp]. apply fail_if_Ok, Z.ltb_ge in Hf.
  destruct (cut_at 34 s) as (fixed & s1 & -> & Hfix); [lia|]. rewrite from_app in Hp by done.
  apply bind_unit_Ok in Hp as [H1 Hp]. apply fail_if_Ok, Z.ltb_ge in H1.
  apply bind_unit_Ok in Hp as [H2 Hp]. apply fail_if_Ok, Z.ltb_ge in H2.
  destruct (read_vec8 s1) as (session & s2 & -> & Hsid & _ & Hrest); [done..|]. rewrite Hrest in Hp. clear Hrest H1 H2.
  apply bind_unit_Ok in Hp as [H1 Hp]. apply fail_if_Ok, Z.ltb_ge in H1.
  apply bind_unit_Ok in Hp as [H2 Hp]. apply fail_if_Ok in H2. rewrite !orb_false_iff, Z.ltb_ge, negb_false_iff, Z.eqb_neq, Z.eqb_eq in H2.
  destruct H2 as [[Hcs Hev] H2].
  destruct (read_vec16 s2) as (ciphers & s3 & -> & Hc & Hu & Hrest); [done..|]. rewrite Hrest in Hp. rewrite Hu in Hcs, Hev. clear Hrest H1 H2 Hu.
  apply bind_unit_Ok in Hp as [H1 Hp]. apply fail_if_Ok, Z.ltb_ge in H1.
  apply bind_unit_Ok in Hp as [H2 Hp]. apply fail_if_Ok in H2. rewrite orb_false_iff, Z.ltb_ge, Z.eqb_neq in H2. destruct H2 as [Hcm H2].
  destruct (read_vec8 s3) as (compression & rest & -> & Hm & Hu & Hrest); [done..|]. rewrite Hrest in Hp. rewrite Hu in Hcm. clear Hrest H1 H2 Hu.
  pose proof (size_nonneg ciphers). pose proof (size_nonneg compression).
  exists fixed, session, ciphers, compression, rest. unfold front_ok. cbn zeta. rewrite Hsz. split_and!; done || lia.
Qed.

Lemma parse_front_complete fixed session ciphers compression rest :
  front_ok fixed session ciphers compression →
  let body := fixed +:+ vec8 session +:+ vec16 ciphers +:+ vec8 compression +:+ rest in
  (size body < 16777216)%Z →
  ParseClientHelloHandshake (u8 HandshakeTypeClientHello +:+ u24 (size body) +:+ body) = parse_extensions rest.
Proof.
  intros (Hf & Hs & Hc & Hev & Hm) body Hb. pose proof (size_nonneg body). pose proof (size_nonneg session).
  pose proof (size_nonneg rest). unfold ParseClientHelloHandshake. rewrite at_u8 by done.
  fold (handshake_length (u8 HandshakeTypeClientHello +:+ u24 (size body) +:+ body)).
  rewrite handshake_length_u24, from_handshake by done. rewrite upto_all by done.
  rewrite Z.eqb_refl, !Z.ltb_irrefl. cbn [negb].
  rewrite (proj2 (Z.ltb_ge _ 4)) by (autorewrite with slices; lia).
  assert (size body = 34 + (1 + size session) + (2 + size ciphers) + (1 + size compression) + size rest)%Z as Hbody.
  { unfold body. autorewrite with slices. lia. }
  rewrite (proj2 (Z.ltb_ge (size body) 34)) by lia. unfold body. rewrite !fail_if_false, from_app by done.
  destruct (at_vec8 session (vec16 ciphers +:+ vec8 compression +:+ rest)) as [-> ->]; [done|].
  destruct (at_vec16 ciphers (vec8 compression +:+ rest)) as [E1 E2]; [lia|].
  destruct (at_vec8 compression rest) as [E3 E4]; [lia|].
  rewrite (from_app session) by done. rewrite E1, E2, (from_app ciphers), E3, E4, (from_app compression), Hev by done.
  rewrite (proj2 (Z.eqb_neq (size ciphers) 0)), (proj2 (Z.eqb_neq (size compression) 0)) by lia.
  rewrite !(proj2 (Z.ltb_ge (size (_ +:+ _)) _)) by (autorewrite with slices; lia). done.
Qed.

(** The parser accepts exactly the encodings of well-formed hellos, and reports
    what they say. *)
Lemma hello_grammar b sni ech :
  ParseClientHelloHandshake b = Ok (sni, ech) ↔
  ∃ h, hello_ok h ∧ b = encode_hello h ∧ sni = hello_sni h ∧ ech = hello_ech h.
Proof.
  split.
  - intros (fixed & session & ciphers & compression & rest & -> & Hb & Hf & (o & -> & Ho & -> & ->)%parse_extensions_iff)%parse_front_sound.
    exists {| h_fixed := fixed; h_session := session; h_ciphers := ciphers; h_compression := compression; h_extensions := o |}.
    destruct Ho as (Hl & Hlen & Hs), Hf as (? & ? & ? & ? & ?). rewrite hello_sni_last by done.
    split; [|done]. unfold hello_ok, hello_extensions. cbn -[size Z.lt Z.modulo encode_body concat]. split_and!; try done; lia.
  - intros (h & (? & ? & ? & ? & ? & ? & Hlen & ? & Hb) & -> & -> & ->). rewrite hello_sni_last by done.
    unfold encode_hello. change (encode_body h) with
      (h_fixed h +:+ vec8 (h_session h) +:+ vec16 (h_ciphers h) +:+ vec8 (h_compression h) +:+ encode_extensions (h_extensions h)) in *.
    rewrite parse_front_complete by done. apply parse_extensions_iff. by exists (h_extensions h).
Qed.

(** ** Records *)

Lemma ReadFull_app x y n : size x = n → ReadFull (x +:+ y) n = Ok (x, y).
Proof.
  intros Hx. pose proof (size_nonneg y). unfold ReadFull.
  rewrite (proj2 (Z.ltb_ge _ _)) by (rewrite size_app; lia). by rewrite upto_app, from_app.
Qed.

Lemma ReadFull_Ok r n x y : ReadFull r n = Ok (x, y) → (0 ≤ n)%Z → r = x +:+ y ∧ size x = n.
Proof.
  unfold ReadFull. intros Hr Hn. destruct (Z.ltb_spec (size r) n); [done|]. injection Hr as <- <-.
  destruct (cut_at n r) as (x & y & -> & Hx); [lia|]. by rewrite upto_app, from_app.
Qed.

(** The five bytes of a header. *)
Lemma read_header hdr : size hdr = 5%Z →
  ∃ t m v n, (0 ≤ t < 256)%Z ∧ (0 ≤ m < 256)%Z ∧ (0 ≤ v < 256)%Z ∧ (0 ≤ n < 65536)%Z ∧ hdr = u8 t +:+ u8 m +:+ u8 v +:+ u16 n.
Proof.
  intros Hh. destruct hdr as [|a [|b [|c [|d [|e [|]]]]]]; try done; [|by unfold size in Hh; cbn [len] in Hh; lia].
  exists (byte a), (byte b), (byte c), (byte d * 256 + byte e)%Z.
  rewrite u16_bytes. unfold u8. rewrite !char_of_byte.
  pose proof (byte_range a). pose proof (byte_range b). pose proof (byte_range c). pose proof (byte_range d). pose proof (byte_range e).
  split_and!; done || lia.
Qed.

Lemma header_fields t m v n :
  (0 ≤ t < 256)%Z → (0 ≤ m < 256)%Z → (0 ≤ v < 256)%Z → (0 ≤ n < 65536)%Z →
  let hdr := u8 t +:+ u8 m +:+ u8 v +:+ u16 n in
  at_ hdr 0 = t ∧ at_ hdr 1 = m ∧ at_ hdr 2 = v ∧ Uint16 (from_ 3 hdr) = n.
Proof.
  intros Ht Hm Hv Hn hdr. split_and!.
  1-3: by apply byte_char_of.
  rewrite <-(Uint16_u16 n "") by done. by rewrite app_nil_r.
Qed.

Lemma size_encode_hello h : (0 < size (encode_hello h))%Z.
Proof. unfold encode_hello. pose proof (size_nonneg (encode_body h)). autorewrite with slices. lia. Qed.

(** Reading without an error takes one record, whole, with a hello in it, and
    every such record is read. *)
Lemma ReadClientHello_iff r ch rest :
  ReadClientHello r = (Some ch, Ok tt, rest) ↔
  ∃ v h, r = encode_record v h +:+ rest ∧ (1 ≤ v ≤ 4)%Z ∧ hello_ok h ∧ (size (encode_hello h) ≤ MaxRecordBytes)%Z ∧
    ch = {| ch_RawRecord := encode_record v h; ch_ServerName := hello_sni h; ch_HasECH := hello_ech h |}.
Proof.
  unfold ReadClientHello, MaxRecordBytes. split.
  - intros Hr. destruct (ReadFull r 5) as [[hdr r1]|e] eqn:E1; [|done]. apply ReadFull_Ok in E1 as [-> Hh]; [|done].
    cbn [wrap_err] in Hr. apply read_header in Hh as (t & m & v & n & Ht & Hm & Hv & Hn & ->).
    destruct (header_fields t m v n) as (E1 & E2 & E3 & E4); [done..|]. rewrite E1, E2, E3, E4 in Hr.
    destruct (_;; _) as [[]|] eqn:Ec; [|done]. apply bind_unit_Ok in Ec as [Ety Ec]. apply bind_unit_Ok in Ec as [Ever Elen].
    apply fail_if_Ok in Ety, Ever, Elen. rewrite !orb_false_iff, !negb_false_iff, ?Z.ltb_ge, ?Z.leb_gt, ?Z.eqb_eq in *.
    destruct Ever as [[-> Hlo] Hhi], Elen as [Hpos Hmax]. subst t.
    destruct (ReadFull r1 n) as [[payload r2]|e] eqn:E5; [|done]. apply ReadFull_Ok in E5 as [-> <-]; [|lia]. cbn [wrap_err] in Hr.
    destruct (ParseClientHelloHandshake payload) as [[sni ech]|e] eqn:E6; [|done]. injection Hr as <- <-.
    apply hello_grammar in E6 as (h & Hok & -> & -> & ->). exists v, h. unfold encode_record, vec16.
    rewrite !app_assoc. split_and!; done || lia.
  - intros (v & h & -> & Hv & Hok & Hmax & ->). pose proof (size_encode_hello h) as Hpos.
    assert (encode_record v h +:+ rest = (u8 RecordTypeHandshake +:+ u8 3 +:+ u8 v +:+ u16 (size (encode_hello h))) +:+ encode_hello h +:+ rest) as ->.
    { unfold encode_record, vec16. by rewrite !app_assoc. }
    rewrite ReadFull_app by done. cbn [wrap_err].
    destruct (header_fields RecordTypeHandshake 3 v (size (encode_hello h))) as (-> & -> & -> & ->); [done|done|lia..|].
    rewrite !(proj2 (Z.ltb_ge _ _)), (proj2 (Z.leb_gt _ _)) by lia. rewrite !Z.eqb_refl. cbn [negb orb fail_if mbind result_bind].
    rewrite ReadFull_app by done. cbn [wrap_err].
    rewrite (proj2 (hello_grammar _ (hello_sni h) (hello_ech h))) by (by exists h).
    unfold encode_record, vec16. by rewrite !app_assoc.
Qed.

Section verify_facts.
Context `{UnicodeCase}.

Lemma VerifyClientHello_Ok r host raw sni rest :
  VerifyClientHello r host = (raw, sni, Ok tt, rest) →
  r = raw +:+ rest ∧ sni = NormalizeMeshHost host ∧
  ∃ v h, raw = encode_record v h ∧ (1 ≤ v ≤ 4)%Z ∧ hello_ok h ∧ (size (encode_hello h) ≤ MaxRecordBytes)%Z ∧
    hello_ech h = false ∧ hello_sni h ≠ "" ∧ NormalizeMeshHost (hello_sni h) = NormalizeMeshHost host.
Proof.
  unfold VerifyClientHello. intros Hv. destruct (ReadClientHello r) as [[[ch|] [[]|]] rest'] eqn:E; try done.
  apply ReadClientHello_iff in E as (v & h & -> & Hver & Hok & Hmax & ->). cbn [ch_HasECH ch_ServerName ch_RawRecord] in Hv.
  destruct (hello_ech h) eqn:Ee; [done|]. case_bool_decide as Hne; [done|]. case_bool_decide as Heq; [|done].
  cbn in Hv. simplify_eq. split_and!; [done..|]. by exists v, h.
Qed.

(** C19: The inspector of TCP tunnels accepts exactly the TLS hellos that name the
    destination in the clear: it returns a record without an error if and only
    if the stream starts with that record, the record holds one well-formed
    ClientHello and nothing else, the hello has no encrypted hello extension,
    at most one server name extension with at most one host name, and that name
    is the expected one; what is returned with what is left is the stream. *)
Theorem hello_verified r host raw sni rest :
  VerifyClientHello r host = (raw, sni, Ok tt, rest) ↔
  r = raw +:+ rest ∧ sni = NormalizeMeshHost host ∧
  ∃ v h, raw = encode_record v h ∧ (1 ≤ v ≤ 4)%Z ∧ hello_ok h ∧ (size (encode_hello h) ≤ MaxRecordBytes)%Z ∧
    hello_ech h = false ∧ hello_sni h ≠ "" ∧ NormalizeMeshHost (hello_sni h) = NormalizeMeshHost host.
Proof.
  split; [apply VerifyClientHello_Ok|]. intros (-> & -> & v & h & -> & Hver & Hok & Hmax & Hech & Hne & Heq). unfold VerifyClientHello.
  rewrite (proj2 (ReadClientHello_iff _ {| ch_RawRecord := encode_record v h; ch_ServerName := hello_sni h; ch_HasECH := hello_ech h |} rest))
      by (by exists v, h).
    cbn [ch_HasECH ch_ServerName ch_RawRecord]. rewrite Hech, bool_decide_eq_false_2 by done.
    by rewrite Heq, bool_decide_eq_true_2.
Qed.
End verify_facts.
