(* ===== verification/SafeDial.v ===== *)
(** * Where an egress node may connect

    The check of the addresses that an egress destination resolves to, and the
    dialer behind it ([src/internal/node/egress_tunnel.go]).  An address of
    [net/netip] is its bytes, with the zone of an IPv6 address; its predicates
    are those of that package.  Reading and printing addresses, the resolver and
    the network are parameters. *)

From S2P Require Import Prelude GoStrings.

(** ** Addresses *)

Inductive Addr :=
| ZeroAddr
| AddrFrom4 (b : list Z)
| AddrFrom16 (b : list Z) (zone : string).

#[export] Instance Addr_eq_dec : EqDecision Addr.
Proof. solve_decision. Defined.

(** [b[i]] of an array of bytes. *)
Definition nth_byte (b : list Z) (i : nat) : Z := default 0%Z (b !! i).

Definition IPv4Unspecified : Addr := AddrFrom4 [0; 0; 0; 0]%Z.
Definition IPv6Unspecified : Addr := AddrFrom16 (replicate 16 0%Z) "".

Definition Is4In6 (ip : Addr) : bool :=
  match ip with
  | AddrFrom16 b _ => bool_decide (take 12 b = replicate 10 0%Z ++ [0xff; 0xff]%Z)
  | _ => false
  end.

Definition Unmap (ip : Addr) : Addr :=
  match ip with
  | AddrFrom16 b _ => if Is4In6 ip then AddrFrom4 (drop 12 b) else ip
  | _ => ip
  end.

Definition IsValid (ip : Addr) : bool := negb (bool_decide (ip = ZeroAddr)).

Definition IsUnspecified (ip : Addr) : bool := bool_decide (ip = IPv4Unspecified) || bool_decide (ip = IPv6Unspecified).

Definition IsLoopback (ip : Addr) : bool :=
  match ip with
  | ZeroAddr => false
  | AddrFrom4 b => (nth_byte b 0 =? 127)%Z
  | AddrFrom16 b _ => bool_decide (b = replicate 15 0%Z ++ [1%Z])
  end.

Definition IsMulticast (ip : Addr) : bool :=
  match ip with
  | ZeroAddr => false
  | AddrFrom4 b => (Z.land (nth_byte b 0) 0xf0 =? 0xe0)%Z
  | AddrFrom16 b _ => (nth_byte b 0 =? 0xff)%Z
  end.

Definition IsLinkLocalUnicast (ip : Addr) : bool :=
  match ip with
  | ZeroAddr => false
  | AddrFrom4 b => (nth_byte b 0 =? 169)%Z && (nth_byte b 1 =? 254)%Z
  | AddrFrom16 b _ => (nth_byte b 0 =? 0xfe)%Z && (Z.land (nth_byte b 1) 0xc0 =? 0x80)%Z
  end.

Definition IsLinkLocalMulticast (ip : Addr) : bool :=
  match ip with
  | ZeroAddr => false
  | AddrFrom4 b => (nth_byte b 0 =? 224)%Z && (nth_byte b 1 =? 0)%Z && (nth_byte b 2 =? 0)%Z
  | AddrFrom16 b _ => (nth_byte b 0 =? 0xff)%Z && (Z.land (nth_byte b 1) 0x0f =? 0x02)%Z
  end.

Definition IsPrivate (ip : Addr) : bool :=
  match ip with
  | ZeroAddr => false
  | AddrFrom4 b =>
      (nth_byte b 0 =? 10)%Z || ((nth_byte b 0 =? 172)%Z && (Z.land (nth_byte b 1) 0xf0 =? 16)%Z) ||
      ((nth_byte b 0 =? 192)%Z && (nth_byte b 1 =? 168)%Z)
  | AddrFrom16 b _ => (Z.land (nth_byte b 0) 0xfe =? 0xfc)%Z
  end.

Definition IsGlobalUnicast (ip : Addr) : bool :=
  match ip with
  | ZeroAddr => false
  | _ => negb (bool_decide (ip = IPv4Unspecified)) && negb (bool_decide (ip = AddrFrom4 [255; 255; 255; 255]%Z)) &&
         negb (bool_decide (ip = IPv6Unspecified)) && negb (IsLoopback ip) && negb (IsMulticast ip) && negb (IsLinkLocalUnicast ip)
  end.

(** ** The check *)

(** The ranges of IPv4 that are refused beside those that [netip] knows. *)
Definition reserved4 (b : list Z) : bool :=
  let b0 := nth_byte b 0 in let b1 := nth_byte b 1 in let b2 := nth_byte b 2 in
  (b0 =? 0)%Z ||
  ((b0 =? 100) && (64 <=? b1) && (b1 <=? 127))%Z ||
  ((b0 =? 192) && (b1 =? 0) && ((b2 =? 0) || (b2 =? 2)))%Z ||
  ((b0 =? 198) && ((b1 =? 18) || (b1 =? 19)))%Z ||
  ((b0 =? 198) && (b1 =? 51) && (b2 =? 100) || (b0 =? 203) && (b1 =? 0) && (b2 =? 113))%Z ||
  (240 <=? b0)%Z.

(** The checks that always apply, and those for an address that must be public;
    the embedded address of a 6to4 address has no such address inside. *)
Definition never_dialled (ip : Addr) : bool :=
  negb (IsValid ip) || IsUnspecified ip || IsMulticast ip || IsLinkLocalUnicast ip || IsLinkLocalMulticast ip.
Definition not_public (ip : Addr) : bool := IsLoopback ip || IsPrivate ip || negb (IsGlobalUnicast ip).

Definition isForbidden4 (b : list Z) : bool := never_dialled (AddrFrom4 b) || not_public (AddrFrom4 b) || reserved4 b.

Definition reserved6 (b : list Z) : bool :=
  let b0 := nth_byte b 0 in let b1 := nth_byte b 1 in let b2 := nth_byte b 2 in
  let b3 := nth_byte b 3 in let b4 := nth_byte b 4 in let b5 := nth_byte b 5 in
  bool_decide (take 12 b = [0x00; 0x64; 0xff; 0x9b; 0; 0; 0; 0; 0; 0; 0; 0]%Z) ||
  ((b0 =? 0x20) && (b1 =? 0x01) && (b2 =? 0x0d) && (b3 =? 0xb8))%Z ||
  ((b0 =? 0x20) && (b1 =? 0x02))%Z && isForbidden4 [b2; b3; b4; b5].

Definition isForbiddenEgressAddr (addr : Addr) (allowLocal : bool) : bool :=
  let ip := Unmap addr in
  never_dialled ip ||
  negb allowLocal && (not_public ip || match ip with AddrFrom4 b => reserved4 b | AddrFrom16 b _ => reserved6 b | ZeroAddr => false end).

(** ** Dialing *)

Fixpoint last_index (c : ascii) (s : string) : option nat :=
  match s with
  | "" => None
  | String d s => match last_index c s with
                  | Some i => Some (S i)
                  | None => if bool_decide (c = d) then Some O else None
                  end
  end.

(** [net.SplitHostPort]. *)
Definition SplitHostPort (hostport : string) : result (string * string) :=
  match last_index ":" hostport with
  | None => fail "missing port in address"
  | Some i =>
      let port := str_drop (S i) hostport in
      if HasPrefix hostport "[" then
        match Index hostport "]" with
        | None => fail "missing ']' in address"
        | Some e =>
            if bool_decide (S e = len hostport) then fail "missing port in address"
            else if negb (bool_decide (S e = i)) then
              fail (if HasPrefix (str_drop (S e) hostport) ":" then "too many colons in address" else "missing port in address")
            else if Contains (str_drop 1 hostport) "[" then fail "unexpected '[' in address"
            else if Contains (str_drop (S e) hostport) "]" then fail "unexpected ']' in address"
            else Ok (str_take (e - 1) (str_drop 1 hostport), port)
        end
      else
        let host := str_take i hostport in
        if Contains host ":" then fail "too many colons in address"
        else if Contains hostport "[" then fail "unexpected '[' in address"
        else if Contains hostport "]" then fail "unexpected ']' in address"
        else Ok (host, port)
  end.

(** [net.JoinHostPort]. *)
Definition JoinHostPort (host port : string) : string :=
  if Contains host ":" then "[" +:+ host +:+ "]:" +:+ port else host +:+ ":" +:+ port.

(** [netip.ParseAddr]. *)
Class AddrText := { ParseAddr : string → result Addr }.

(** What the network does: the resolver's answers, and which connections are
    accepted. *)
Record Network := {
  LookupNetIP : string → result (list Addr);
  DialContext : Addr → string → result unit;
}.

Section dial.
Context `{AddrText}.

(** The addresses tried in turn, up to the first that answers: the connection,
    which is where it leads to, and every attempt. *)
Fixpoint try_addrs (net : Network) (port : string) (allowed : list Addr) (lastErr : error) : result (Addr * string) * list (Addr * string) :=
  match allowed with
  | [] => (Err lastErr, [])
  | ip :: allowed =>
      match DialContext net (Unmap ip) port with
      | Ok _ => (Ok (Unmap ip, port), [(Unmap ip, port)])
      | Err dErr => let '(r, tried) := try_addrs net port allowed dErr in (r, (Unmap ip, port) :: tried)
      end
  end.

Definition resolve_host (net : Network) (host : string) : result (list Addr) :=
  match ParseAddr host with
  | Ok parsed => Ok [parsed]
  | Err _ => LookupNetIP net host
  end.

Definition dialSafeEgressTCP (net : Network) (addr : string) (allowLocal : bool) : result (Addr * string) * list (Addr * string) :=
  match SplitHostPort addr with
  | Err e => (Err e, [])
  | Ok (host, port) =>
      match resolve_host net host with
      | Err e => (Err e, [])
      | Ok [] => (fail "no IP addresses resolved", [])
      | Ok ips =>
          match filter (λ ip, isForbiddenEgressAddr ip allowLocal = false) ips with
          | [] => (fail "egress dial refused: resolved IP is in a forbidden range", [])
          | allowed => try_addrs net port allowed (NewError "")
          end
      end
  end.
End dial.

(** ** The ranges *)

(** An address as a number, and a block of addresses that share a prefix. *)
Definition num (b : list Z) : Z := foldl (λ acc x, (acc * 256 + x)%Z) 0%Z b.

Record cidr := { c_base : list Z; c_len : Z }.

Definition in_cidr (b : list Z) (c : cidr) : Prop :=
  (num b / 2 ^ (8 * Z.of_nat (length b) - c_len c) = num (c_base c) / 2 ^ (8 * Z.of_nat (length b) - c_len c))%Z.

#[export] Instance in_cidr_dec b c : Decision (in_cidr b c).
Proof. unfold in_cidr. apply _. Defined.

Definition blocks4 : list cidr := [
  {| c_base := [0; 0; 0; 0]%Z; c_len := 8 |};
  {| c_base := [10; 0; 0; 0]%Z; c_len := 8 |};
  {| c_base := [100; 64; 0; 0]%Z; c_len := 10 |};
  {| c_base := [127; 0; 0; 0]%Z; c_len := 8 |};
  {| c_base := [169; 254; 0; 0]%Z; c_len := 16 |};
  {| c_base := [172; 16; 0; 0]%Z; c_len := 12 |};
  {| c_base := [192; 0; 0; 0]%Z; c_len := 24 |};
  {| c_base := [192; 0; 2; 0]%Z; c_len := 24 |};
  {| c_base := [192; 168; 0; 0]%Z; c_len := 16 |};
  {| c_base := [198; 18; 0; 0]%Z; c_len := 15 |};
  {| c_base := [198; 51; 100; 0]%Z; c_len := 24 |};
  {| c_base := [203; 0; 113; 0]%Z; c_len := 24 |};
  {| c_base := [224; 0; 0; 0]%Z; c_len := 4 |};
  {| c_base := [240; 0; 0; 0]%Z; c_len := 4 |}].

Definition pad16 (b : list Z) : list Z := b ++ replicate (16 - length b) 0%Z.

Definition blocks6 : list cidr := [
  {| c_base := pad16 (replicate 15 0%Z ++ [1%Z]); c_len := 128 |};
  {| c_base := pad16 [0x00; 0x64; 0xff; 0x9b]%Z; c_len := 96 |};
  {| c_base := pad16 [0x20; 0x01; 0x0d; 0xb8]%Z; c_len := 32 |};
  {| c_base := pad16 [0xfc]%Z; c_len := 7 |};
  {| c_base := pad16 [0xfe; 0x80]%Z; c_len := 10 |};
  {| c_base := pad16 [0xff]%Z; c_len := 8 |}].

Definition mapped : cidr := {| c_base := pad16 (replicate 10 0%Z ++ [0xff; 0xff]%Z); c_len := 96 |}.
Definition six_to_four : cidr := {| c_base := pad16 [0x20; 0x02]%Z; c_len := 16 |}.

(** The addresses that are refused when the destination must be public.  The
    zone of an IPv6 address matters for the unspecified address alone. *)
Definition refused4 (b : list Z) : Prop := Exists (in_cidr b) blocks4.
Definition refused (a : Addr) : Prop :=
  match a with
  | ZeroAddr => True
  | AddrFrom4 b => refused4 b
  | AddrFrom16 b zone =>
      (in_cidr b mapped ∧ refused4 (drop 12 b)) ∨
      (¬ in_cidr b mapped ∧
       ((num b = 0%Z ∧ zone = "") ∨ Exists (in_cidr b) blocks6 ∨ (in_cidr b six_to_four ∧ refused4 (take 4 (drop 2 b)))))
  end.

#[export] Instance refused4_dec b : Decision (refused4 b).
Proof. unfold refused4. apply _. Defined.

#[export] Instance refused_dec a : Decision (refused a).
Proof. unfold refused. destruct a; apply _. Defined.

Definition is_byte (x : Z) : Prop := (0 ≤ x < 256)%Z.
Definition addr_ok (a : Addr) : Prop :=
  match a with
  | ZeroAddr => True
  | AddrFrom4 b => length b = 4 ∧ Forall is_byte b
  | AddrFrom16 b _ => length b = 16 ∧ Forall is_byte b
  end.

(** ** Numbers and prefixes *)

Lemma num_snoc b x : num (b ++ [x]) = (num b * 256 + x)%Z.
Proof. unfold num. by rewrite foldl_app. Qed.

Lemma num_app b c : num (b ++ c) = (num b * 256 ^ Z.of_nat (length c) + num c)%Z.
Proof.
  induction c as [|x c IH] using rev_ind; [rewrite (right_id_L [] (++)); cbn; lia|].
  rewrite (assoc_L (++)), !num_snoc, IH, length_app, Nat2Z.inj_add, Z.pow_add_r by lia. cbn. lia.
Qed.

Lemma num_bound b : Forall is_byte b → (0 ≤ num b < 256 ^ Z.of_nat (length b))%Z.
Proof.
  induction b as [|x b IH] using rev_ind; [cbn; lia|]. intros [Hb [Hx _]%Forall_cons]%Forall_app.
  specialize (IH Hb). unfold is_byte in Hx. rewrite num_snoc, length_app, Nat2Z.inj_add, Z.pow_add_r by lia. cbn. lia.
Qed.

Lemma num_inj b c : Forall is_byte b → Forall is_byte c → length b = length c → num b = num c → b = c.
Proof.
  revert c. induction b as [|x b IH] using rev_ind; intros c Hb Hc Hlen Hnum; [by destruct c|].
  destruct c as [|y c _] using rev_ind; [rewrite length_app in Hlen; cbn in Hlen; lia|].
  rewrite !length_app in Hlen. rewrite !num_snoc in Hnum. cbn in Hlen.
  apply Forall_app in Hb as [Hb [Hx _]%Forall_cons], Hc as [Hc [Hy _]%Forall_cons]. unfold is_byte in *.
  assert (x = y) as -> by lia. f_equal. apply IH; auto; lia.
Qed.

(** Membership in a block, byte by byte: the whole bytes of the prefix agree,
    and so do the leading bits of the next. *)
Lemma cidr_bytes pre x post pre' x' post' (m : Z) :
  Forall is_byte (pre ++ x :: post) → Forall is_byte (pre' ++ x' :: post') →
  length pre = length pre' → length post = length post' → (0 ≤ m ≤ 8)%Z →
  in_cidr (pre ++ x :: post) {| c_base := pre' ++ x' :: post'; c_len := 8 * Z.of_nat (length pre) + m |} ↔
  pre = pre' ∧ (x / 2 ^ (8 - m) = x' / 2 ^ (8 - m))%Z.
Proof.
  intros [Hp [Hx Ho]%Forall_cons]%Forall_app [Hp' [Hx' Ho']%Forall_cons]%Forall_app Hlp Hlo Hm.
  assert (∀ p y q, Forall is_byte p → is_byte y → Forall is_byte q → length p = length pre → length q = length post →
    (num (p ++ y :: q) / 2 ^ (8 * Z.of_nat (length (pre ++ x :: post)) - (8 * Z.of_nat (length pre) + m)) =
     num p * 2 ^ m + y / 2 ^ (8 - m))%Z ∧ (0 ≤ y / 2 ^ (8 - m) < 2 ^ m)%Z) as Hdiv.
  { intros p y q Hfp Hy Hfq Hep Heq. unfold is_byte in Hy. rewrite length_app. cbn [length].
    replace (8 * _ - _)%Z with (8 * Z.of_nat (length q) + (8 - m))%Z by lia.
    pose proof (num_bound q Hfq) as Hq. change 256%Z with (2 ^ 8)%Z in Hq. rewrite <-Z.pow_mul_r in Hq by lia.
    replace (p ++ y :: q) with ((p ++ [y]) ++ q) by by rewrite <-(assoc_L (++)).
    rewrite num_app, num_snoc. change 256%Z with (2 ^ 8)%Z. rewrite <-Z.pow_mul_r, Z.pow_add_r, <-Z.div_div by lia.
    rewrite Z.div_add_l, (Z.div_small (num q)), Z.add_0_r by lia.
    replace (2 ^ 8)%Z with (2 ^ m * 2 ^ (8 - m))%Z by (rewrite <-Z.pow_add_r by lia; f_equal; lia).
    pose proof (Z.pow_pos_nonneg 2 (8 - m) ltac:(lia) ltac:(lia)).
    rewrite Z.mul_assoc, Z.div_add_l by lia. split; [done|]. split; [by apply Z.div_pos; lia|].
    apply Z.div_lt_upper_bound; [lia|]. rewrite Z.mul_comm, <-Z.pow_add_r by lia.
    replace (m + (8 - m))%Z with 8%Z by lia. lia. }
  unfold in_cidr. cbn [c_base c_len].
  destruct (Hdiv pre x post) as [-> Hbx]; [done..|]. destruct (Hdiv pre' x' post') as [-> Hbx']; [done..|].
  split; [|by intros [-> ->]]. intros E.
  assert (num pre = num pre') as En by nia. split; [by apply num_inj|]. rewrite En in E. lia.
Qed.

(** What holds of each of the 256 bytes. *)
Lemma every_byte (p : Z → bool) : forallb p (seqZ 0 256) = true → ∀ x, is_byte x → p x = true.
Proof. intros Hp x Hx. rewrite forallb_forall in Hp. apply Hp, list_elem_of_In, elem_of_seqZ. done. Qed.

Lemma mask_byte mask k x :
  forallb (λ x, (Z.land x mask =? x / k * k)%Z) (seqZ 0 256) = true → is_byte x → Z.land x mask = (x / k * k)%Z.
Proof. intros Hp Hx. apply Z.eqb_eq. by apply (every_byte (λ x, Z.land x mask =? x / k * k)%Z). Qed.

(** The same for blocks written out. *)
Lemma cidr_iff pre x post pre' x' post' (m : Z) b c :
  Forall is_byte b → b = pre ++ x :: post → c_base c = pre' ++ x' :: post' → c_len c = (8 * Z.of_nat (length pre) + m)%Z →
  Forall is_byte (c_base c) → length pre = length pre' → length post = length post' → (0 ≤ m ≤ 8)%Z →
  in_cidr b c ↔ pre = pre' ∧ (x / 2 ^ (8 - m) = x' / 2 ^ (8 - m))%Z.
Proof. destruct c as [base n]. cbn. intros Hb -> -> -> Hc ???. by apply cidr_bytes. Qed.

(** ** IPv4 *)

#[local] Instance AddrFrom4_inj : Inj (=) (=) AddrFrom4.
Proof. by intros ? ? [= ->]. Qed.

Lemma cons_iff {A} (x y : A) l k : x :: l = y :: k ↔ x = y ∧ l = k.
Proof. naive_solver. Qed.

Ltac bytes := cbn [c_base c_len]; rewrite ?Forall_cons, ?Forall_nil; unfold is_byte in *; repeat split; lia.

Lemma refused4_bytes b0 b1 b2 b3 :
  is_byte b0 → is_byte b1 → is_byte b2 → is_byte b3 →
  refused4 [b0; b1; b2; b3] ↔
  b0 = 0%Z ∨ b0 = 10%Z ∨ (b0 = 100 ∧ b1 / 64 = 1)%Z ∨ b0 = 127%Z ∨ (b0 = 169 ∧ b1 = 254)%Z ∨ (b0 = 172 ∧ b1 / 16 = 1)%Z ∨
  (b0 = 192 ∧ b1 = 0 ∧ b2 = 0)%Z ∨ (b0 = 192 ∧ b1 = 0 ∧ b2 = 2)%Z ∨ (b0 = 192 ∧ b1 = 168)%Z ∨
  (b0 = 198 ∧ b1 / 2 = 9)%Z ∨ (b0 = 198 ∧ b1 = 51 ∧ b2 = 100)%Z ∨ (b0 = 203 ∧ b1 = 0 ∧ b2 = 113)%Z ∨
  (b0 / 16 = 14)%Z ∨ (b0 / 16 = 15)%Z.
Proof.
  intros H0 H1 H2 H3. assert (Forall is_byte [b0; b1; b2; b3]) as Hb by bytes.
  unfold refused4, blocks4. rewrite !Exists_cons, Exists_nil.
  rewrite (cidr_iff [] b0 [b1; b2; b3] [] 0%Z [0; 0; 0]%Z 8) by (done || bytes).
  rewrite (cidr_iff [] b0 [b1; b2; b3] [] 10%Z [0; 0; 0]%Z 8) by (done || bytes).
  rewrite (cidr_iff [b0] b1 [b2; b3] [100%Z] 64%Z [0; 0]%Z 2) by (done || bytes).
  rewrite (cidr_iff [] b0 [b1; b2; b3] [] 127%Z [0; 0; 0]%Z 8) by (done || bytes).
  rewrite (cidr_iff [b0] b1 [b2; b3] [169%Z] 254%Z [0; 0]%Z 8) by (done || bytes).
  rewrite (cidr_iff [b0] b1 [b2; b3] [172%Z] 16%Z [0; 0]%Z 4) by (done || bytes).
  rewrite (cidr_iff [b0; b1] b2 [b3] [192; 0]%Z 0%Z [0]%Z 8) by (done || bytes).
  rewrite (cidr_iff [b0; b1] b2 [b3] [192; 0]%Z 2%Z [0]%Z 8) by (done || bytes).
  rewrite (cidr_iff [b0] b1 [b2; b3] [192%Z] 168%Z [0; 0]%Z 8) by (done || bytes).
  rewrite (cidr_iff [b0] b1 [b2; b3] [198%Z] 18%Z [0; 0]%Z 7) by (done || bytes).
  rewrite (cidr_iff [b0; b1] b2 [b3] [198; 51]%Z 100%Z [0]%Z 8) by (done || bytes).
  rewrite (cidr_iff [b0; b1] b2 [b3] [203; 0]%Z 113%Z [0]%Z 8) by (done || bytes).
  rewrite (cidr_iff [] b0 [b1; b2; b3] [] 224%Z [0; 0; 0]%Z 4) by (done || bytes).
  rewrite (cidr_iff [] b0 [b1; b2; b3] [] 240%Z [0; 0; 0]%Z 4) by (done || bytes).
  change (64 / 2 ^ (8 - 2))%Z with 1%Z. change (16 / 2 ^ (8 - 4))%Z with 1%Z. change (18 / 2 ^ (8 - 7))%Z with 9%Z.
  change (224 / 2 ^ (8 - 4))%Z with 14%Z. change (240 / 2 ^ (8 - 4))%Z with 15%Z. change (2 ^ (8 - 8))%Z with 1%Z.
  rewrite !Z.div_1_r, !cons_iff. change (2 ^ (8 - 2))%Z with 64%Z. change (2 ^ (8 - 4))%Z with 16%Z. change (2 ^ (8 - 7))%Z with 2%Z.
  tauto.
Qed.

Lemma isForbidden4_refused b0 b1 b2 b3 :
  is_byte b0 → is_byte b1 → is_byte b2 → is_byte b3 →
  isForbidden4 [b0; b1; b2; b3] = true ↔ refused4 [b0; b1; b2; b3].
Proof.
  intros H0 H1 H2 H3. rewrite refused4_bytes by done.
  assert (b0 / 16 = 14 ↔ Z.land b0 0xf0 = 0xe0)%Z as -> by (rewrite (mask_byte 0xf0 16) by (done || by vm_compute); lia).
  assert (b1 / 16 = 1 ↔ Z.land b1 0xf0 = 16)%Z as -> by (rewrite (mask_byte 0xf0 16) by (done || by vm_compute); lia).
  assert (b1 / 64 = 1 ↔ 64 ≤ b1 ∧ b1 ≤ 127)%Z as -> by (unfold is_byte in *; split; Z.to_euclidean_division_equations; lia).
  assert (b1 / 2 = 9 ↔ b1 = 18 ∨ b1 = 19)%Z as -> by (split; Z.to_euclidean_division_equations; lia).
  assert (b0 / 16 = 15 ↔ 240 ≤ b0)%Z as -> by (unfold is_byte in *; split; Z.to_euclidean_division_equations; lia).
  assert (b0 = 224 ↔ b0 = 224 ∧ Z.land b0 0xf0 = 0xe0)%Z as Hmc by (split; [by intros ->|by intros [? _]]).
  unfold isForbidden4, never_dialled, not_public, reserved4, IsGlobalUnicast, IsUnspecified, IsValid, IPv4Unspecified, IPv6Unspecified, nth_byte.
  cbn [IsLoopback IsMulticast IsLinkLocalUnicast IsLinkLocalMulticast IsPrivate lookup list_lookup default from_option id].
  unfold nth_byte. cbn [lookup list_lookup default from_option id].
  rewrite !negb_andb, !negb_involutive, !orb_true_iff, !andb_true_iff, !bool_decide_eq_true, !orb_true_iff, !Z.eqb_eq, !Z.leb_le.
  rewrite !(inj_iff AddrFrom4), !cons_iff, negb_orb, !negb_involutive, andb_true_iff, !Z.eqb_eq.
  assert (AddrFrom4 [b0; b1; b2; b3] ≠ ZeroAddr ∧ AddrFrom4 [b0; b1; b2; b3] ≠ AddrFrom16 (replicate 16 0%Z) "") as [??] by done.
  assert (b0 = 255 → 240 ≤ b0)%Z by lia. tauto.
Qed.

(** ** IPv6 *)

(** A prefix of whole bytes. *)
Lemma cidr_take k b c :
  Forall is_byte b → Forall is_byte (c_base c) → length b = length (c_base c) → k ≤ length b → c_len c = (8 * Z.of_nat k)%Z →
  in_cidr b c ↔ take k b = take k (c_base c).
Proof.
  intros Hb Hc Hlen Hk Hn. unfold in_cidr. rewrite Hn.
  assert (∀ l, Forall is_byte l → length l = length b →
    (num l / 2 ^ (8 * Z.of_nat (length b) - 8 * Z.of_nat k))%Z = num (take k l)) as Hdiv.
  { intros l Hl El. rewrite <-(firstn_skipn k l) at 1. rewrite num_app, length_drop, El.
    replace (8 * Z.of_nat (length b) - 8 * Z.of_nat k)%Z with (8 * Z.of_nat (length b - k))%Z by lia.
    pose proof (num_bound _ (Forall_drop _ k _ Hl)) as Hd. rewrite length_drop, El in Hd.
    rewrite Z.pow_mul_r by lia. change (2 ^ 8)%Z with 256%Z.
    rewrite Z.div_add_l, Z.div_small by lia. lia. }
  rewrite !Hdiv by auto. split; [|by intros ->]. apply num_inj; [by apply Forall_take..|]. rewrite !length_take. lia.
Qed.

Lemma Is4In6_mapped b zone : length b = 16 → Forall is_byte b → Is4In6 (AddrFrom16 b zone) = true ↔ in_cidr b mapped.
Proof.
  intros Hlen Hb. rewrite (cidr_take 12) by (done || lia || (cbn; rewrite ?Forall_cons, ?Forall_nil; unfold is_byte; lia)).
  cbn [Is4In6]. by rewrite bool_decide_eq_true.
Qed.

Ltac block := done || lia || (cbn; rewrite ?Forall_cons, ?Forall_nil; unfold is_byte; lia) || (cbn in *; lia).

Section six.
Context (b0 b1 b2 b3 b4 b5 : Z) (rest : list Z) (zone : string).
Let b := b0 :: b1 :: b2 :: b3 :: b4 :: b5 :: rest.
Context (Hlen : length b = 16) (Hb : Forall is_byte b).

Lemma head_bytes : is_byte b0 ∧ is_byte b1 ∧ is_byte b2 ∧ is_byte b3 ∧ is_byte b4 ∧ is_byte b5.
Proof. unfold b in Hb. rewrite !Forall_cons in Hb. tauto. Qed.

Lemma loopback6 : IsLoopback (AddrFrom16 b zone) = true ↔ in_cidr b {| c_base := pad16 (replicate 15 0%Z ++ [1%Z]); c_len := 128 |}.
Proof.
  rewrite (cidr_take 16) by block. cbn [IsLoopback c_base]. rewrite bool_decide_eq_true.
  rewrite <-(firstn_all b) at 1. by rewrite Hlen.
Qed.

Lemma multicast6 : IsMulticast (AddrFrom16 b zone) = true ↔ in_cidr b {| c_base := pad16 [0xff]%Z; c_len := 8 |}.
Proof. rewrite (cidr_take 1) by block. cbn. rewrite Z.eqb_eq. naive_solver. Qed.

Lemma linklocal6 : IsLinkLocalUnicast (AddrFrom16 b zone) = true ↔ in_cidr b {| c_base := pad16 [0xfe; 0x80]%Z; c_len := 10 |}.
Proof.
  destruct head_bytes as (? & ? & _).
  rewrite (cidr_iff [b0] b1 (b2 :: b3 :: b4 :: b5 :: rest) [0xfe]%Z 0x80%Z (replicate 14 0%Z) 2) by block.
  cbn [IsLinkLocalUnicast]. unfold nth_byte. cbn [b lookup list_lookup default from_option id].
  rewrite (mask_byte 0xc0 64) by (done || by vm_compute). rewrite andb_true_iff, !Z.eqb_eq, cons_iff.
  change (0x80 / 2 ^ (8 - 2))%Z with 2%Z. change (2 ^ (8 - 2))%Z with 64%Z.
  assert (b1 / 64 * 64 = 0x80 ↔ b1 / 64 = 2)%Z by lia. tauto.
Qed.

Lemma private6 : IsPrivate (AddrFrom16 b zone) = true ↔ in_cidr b {| c_base := pad16 [0xfc]%Z; c_len := 7 |}.
Proof.
  destruct head_bytes as (? & _).
  rewrite (cidr_iff [] b0 (b1 :: b2 :: b3 :: b4 :: b5 :: rest) [] 0xfc%Z (replicate 15 0%Z) 7) by block.
  cbn [IsPrivate]. unfold nth_byte. cbn [b lookup list_lookup default from_option id].
  rewrite (mask_byte 0xfe 2) by (done || by vm_compute). rewrite Z.eqb_eq.
  change (0xfc / 2 ^ (8 - 7))%Z with 126%Z. change (2 ^ (8 - 7))%Z with 2%Z.
  assert (b0 / 2 * 2 = 0xfc ↔ b0 / 2 = 126)%Z by lia. tauto.
Qed.

Lemma reserved6_blocks : reserved6 b = true ↔
  in_cidr b {| c_base := pad16 [0x00; 0x64; 0xff; 0x9b]%Z; c_len := 96 |} ∨
  in_cidr b {| c_base := pad16 [0x20; 0x01; 0x0d; 0xb8]%Z; c_len := 32 |} ∨
  (in_cidr b six_to_four ∧ refused4 (take 4 (drop 2 b))).
Proof.
  destruct head_bytes as (? & ? & ? & ? & ? & ?).
  rewrite (cidr_take 12), (cidr_take 4), (cidr_take 2) by block.
  unfold reserved6, nth_byte. cbn [b lookup list_lookup default from_option id take drop c_base six_to_four pad16].
  rewrite <-isForbidden4_refused by done. rewrite !orb_true_iff, !andb_true_iff, bool_decide_eq_true, !Z.eqb_eq.
  change (take 12 (pad16 _)) with [0x00; 0x64; 0xff; 0x9b; 0; 0; 0; 0; 0; 0; 0; 0]%Z.
  change (take 4 (pad16 _)) with [0x20; 0x01; 0x0d; 0xb8]%Z. change (take 2 (pad16 _)) with [0x20; 0x02]%Z.
  rewrite !cons_iff. tauto.
Qed.

Lemma unspecified6 : AddrFrom16 b zone = IPv6Unspecified ↔ num b = 0%Z ∧ zone = "".
Proof.
  split.
  - intros E. unfold IPv6Unspecified in E. by injection E as -> -> -> -> -> -> -> ->.
  - intros [Hn ->]. unfold IPv6Unspecified. f_equal. apply num_inj; [done|repeat constructor; done|done|by rewrite Hn].
Qed.

Lemma forbidden6 : never_dialled (AddrFrom16 b zone) || not_public (AddrFrom16 b zone) || reserved6 b = true ↔
  (num b = 0%Z ∧ zone = "") ∨ Exists (in_cidr b) blocks6 ∨ (in_cidr b six_to_four ∧ refused4 (take 4 (drop 2 b))).
Proof.
  assert (IsLinkLocalMulticast (AddrFrom16 b zone) = true → IsMulticast (AddrFrom16 b zone) = true) as Hmc.
  { cbn. rewrite andb_true_iff. tauto. }
  unfold never_dialled, not_public, IsGlobalUnicast, IsUnspecified, IsValid, blocks6. cbn [negb].
  rewrite !Exists_cons, Exists_nil, <-loopback6, <-multicast6, <-linklocal6, <-private6, <-unspecified6.
  rewrite !negb_andb, !negb_involutive, !orb_true_iff, !bool_decide_eq_true, reserved6_blocks.
  assert (AddrFrom16 b zone ≠ ZeroAddr ∧ AddrFrom16 b zone ≠ IPv4Unspecified ∧ AddrFrom16 b zone ≠ AddrFrom4 [255; 255; 255; 255]%Z) as (? & ? & ?) by done.
  tauto.
Qed.
End six.

(** Whether an address is refused, as the code decides it and as the ranges say. *)
Lemma forbidden_iff a : addr_ok a → isForbiddenEgressAddr a false = true ↔ refused a.
Proof.
  destruct a as [|b|b zone]; cbn [addr_ok].
  - done.
  - intros [Hlen Hb]. destruct b as [|b0 [|b1 [|b2 [|b3 [|]]]]]; try done. rewrite !Forall_cons in Hb.
    destruct Hb as (? & ? & ? & ? & _). cbn [refused]. rewrite <-isForbidden4_refused by done.
    unfold isForbiddenEgressAddr, isForbidden4. cbn [Unmap negb andb]. by rewrite <-orb_assoc.
  - intros [Hlen Hb]. cbn [refused]. pose proof (Is4In6_mapped b zone Hlen Hb) as Hmap.
    unfold isForbiddenEgressAddr. cbn [Unmap negb andb]. destruct (Is4In6 (AddrFrom16 b zone)) eqn:E.
    + assert (length (drop 12 b) = 4) as Hd by (rewrite length_drop, Hlen; done).
      pose proof (Forall_drop is_byte 12 b Hb) as Hdb.
      destruct (drop 12 b) as [|b0 [|b1 [|b2 [|b3 [|]]]]]; try done. rewrite !Forall_cons in Hdb.
      destruct Hdb as (? & ? & ? & ? & _). rewrite orb_assoc. fold (isForbidden4 [b0; b1; b2; b3]).
      rewrite isForbidden4_refused by done. tauto.
    + rewrite orb_assoc. destruct b as [|b0 [|b1 [|b2 [|b3 [|b4 [|b5 rest]]]]]]; try done.
      rewrite forbidden6 by done. naive_solver.
Qed.

Section dial_facts.
Context `{AddrText}.

Lemma try_addrs_tried net port allowed e a p :
  (a, p) ∈ (try_addrs net port allowed e).2 → p = port ∧ ∃ ip, ip ∈ allowed ∧ a = Unmap ip.
Proof.
  revert e. induction allowed as [|ip allowed IH]; intros e; cbn; [by intros ?%elem_of_nil|].
  destruct (DialContext net (Unmap ip) port).
  - intros [= -> ->]%list_elem_of_singleton. split; [done|]. exists ip. split; [left|done].
  - specialize (IH e0). destruct (try_addrs net port allowed e0) as [r tried]. cbn in *.
    intros [[= -> ->]|Hin]%elem_of_cons; [split; [done|]; exists ip; split; [left|done]|].
    destruct (IH Hin) as [-> (ip' & ? & ->)]. split; [done|]. exists ip'. split; [by right|done].
Qed.

(** Where the dialer connects or tries to. *)
Lemma dial_tried net addr allowLocal a p :
  (a, p) ∈ (dialSafeEgressTCP net addr allowLocal).2 →
  ∃ host ips ip, SplitHostPort addr = Ok (host, p) ∧ resolve_host net host = Ok ips ∧ ip ∈ ips ∧ a = Unmap ip ∧
    isForbiddenEgressAddr ip allowLocal = false.
Proof.
  unfold dialSafeEgressTCP. destruct (SplitHostPort addr) as [[host port]|]; [|by intros ?%elem_of_nil].
  destruct (resolve_host net host) as [ips|] eqn:Er; [|by intros ?%elem_of_nil].
  intros Hin. assert ((a, p) ∈ (try_addrs net port (filter (λ ip, isForbiddenEgressAddr ip allowLocal = false) ips) (NewError "")).2) as Ht.
  { destruct ips as [|ip0 ips]; [by apply elem_of_nil in Hin|].
    destruct (filter _ (ip0 :: ips)); [by apply elem_of_nil in Hin|done]. }
  apply try_addrs_tried in Ht as [-> (ip & [Hf Hip]%list_elem_of_filter & ->)].
  by exists host, ips, ip.
Qed.

(** A connection is the last attempt. *)
Lemma try_addrs_conn net port allowed e c : (try_addrs net port allowed e).1 = Ok c → c ∈ (try_addrs net port allowed e).2.
Proof.
  revert e. induction allowed as [|ip allowed IH]; intros e; cbn; [done|].
  destruct (DialContext net (Unmap ip) port); [intros [= ->]; left|].
  specialize (IH e0). destruct (try_addrs net port allowed e0). cbn in *. intros ?. right. auto.
Qed.

Lemma dial_conn net addr allowLocal c : (dialSafeEgressTCP net addr allowLocal).1 = Ok c → c ∈ (dialSafeEgressTCP net addr allowLocal).2.
Proof.
  unfold dialSafeEgressTCP. destruct (SplitHostPort addr) as [[host port]|]; [|done].
  destruct (resolve_host net host) as [[|ip0 ips]|]; [done| |done].
  destruct (filter _ _) eqn:E; [done|]. apply try_addrs_conn.
Qed.

(** The addresses are tried in their order up to the first that answers: those
    before it failed, and it is the connection. *)
Lemma try_addrs_spec net port allowed e :
  let '(conn, tried) := try_addrs net port allowed e in
  ∃ failed rest, allowed = failed ++ rest ∧ Forall (λ ip, is_ok (DialContext net (Unmap ip) port) = false) failed ∧
    match rest with
    | [] => is_ok conn = false ∧ tried = (λ ip, (Unmap ip, port)) <$> failed
    | ip :: _ => DialContext net (Unmap ip) port = Ok tt ∧ conn = Ok (Unmap ip, port) ∧ tried = (λ ip, (Unmap ip, port)) <$> failed ++ [ip]
    end.
Proof.
  revert e. induction allowed as [|ip allowed IH]; intros e; cbn; [by exists [], []|].
  destruct (DialContext net (Unmap ip) port) as [[]|e0] eqn:Ed; [by exists [], (ip :: allowed)|].
  specialize (IH e0). destruct (try_addrs net port allowed e0) as [r tried]. destruct IH as (failed & rest & -> & Hf & Hr).
  exists (ip :: failed), rest. split_and!; [done|constructor; [by rewrite Ed|done]|]. destruct rest as [|ip' rest].
  - by destruct Hr as [? ->].
  - by destruct Hr as (? & ? & ->).
Qed.

Lemma filter_agree (P Q : Addr → Prop) `{∀ x, Decision (P x), ∀ x, Decision (Q x)} l :
  Forall (λ x, P x ↔ Q x) l → filter P l = filter Q l.
Proof. induction 1 as [|x l Hx _ IH]; [done|]. rewrite !filter_cons, IH. repeat case_decide; tauto. Qed.

(** C28: A node that forwards to a destination in public connects only to public
    addresses, whatever the destination's name resolves to.  Of the addresses of
    the answer it takes those outside the blocks that are set aside for local,
    private, shared, documentation and benchmarking use, for multicast and for
    translation into such addresses, and tries them in the answer's order at the
    port that was named; the first that answers is the connection and nothing is
    tried after it, and the node gives up only when every one of them failed, at
    once when there is none.  An IPv6 address is refused whatever its zone, but
    for the unspecified one: [::] without a zone is refused and with a zone it
    counts as public. *)
Theorem dial_public net addr host port ips :
  SplitHostPort addr = Ok (host, port) → resolve_host net host = Ok ips → Forall addr_ok ips →
  let '(conn, tried) := dialSafeEgressTCP net addr false in
  ∃ failed rest, filter (λ ip, ¬ refused ip) ips = failed ++ rest ∧
    Forall (λ ip, is_ok (DialContext net (Unmap ip) port) = false) failed ∧
    match rest with
    | [] => is_ok conn = false ∧ tried = (λ ip, (Unmap ip, port)) <$> failed
    | ip :: _ => DialContext net (Unmap ip) port = Ok tt ∧ conn = Ok (Unmap ip, port) ∧ tried = (λ ip, (Unmap ip, port)) <$> failed ++ [ip]
    end.
Proof.
  intros Hs Hr Hok. assert (filter (λ ip, isForbiddenEgressAddr ip false = false) ips = filter (λ ip, ¬ refused ip) ips) as Hf.
  { apply filter_agree. eapply Forall_impl; [exact Hok|]. intros ip Hip. cbn beta. rewrite <-(forbidden_iff ip Hip), not_true_iff_false. done. }
  unfold dialSafeEgressTCP. rewrite Hs, Hr. destruct ips as [|ip0 ips]; [by exists [], []|]. rewrite Hf.
  destruct (filter (λ ip, ¬ refused ip) (ip0 :: ips)) as [|ip1 l]; [by exists [], []|]. apply try_addrs_spec.
Qed.
End dial_facts.

(** A name with a loopback, a 6to4 loopback and three public addresses, of which
    the first fails: it and the second are tried, in this order, and no other. *)
Definition no_addr_text : AddrText := {| ParseAddr := λ _, fail "not an address" |}.
Definition public1 : Addr := AddrFrom4 [93; 184; 215; 13]%Z.
Definition public2 : Addr := AddrFrom4 [93; 184; 215; 14]%Z.
Definition public3 : Addr := AddrFrom4 [93; 184; 215; 15]%Z.
Definition example_answer : list Addr :=
  [AddrFrom4 [127; 0; 0; 1]%Z; public1; AddrFrom16 (pad16 [0x20; 0x02; 127; 0; 0; 1]%Z) "lo"; public2; public3].
Definition example_net : Network :=
  {| LookupNetIP := λ _, Ok example_answer; DialContext := λ a _, if bool_decide (a = public1) then fail "refused" else Ok () |}.

#[local] Existing Instance no_addr_text.

Lemma dial_public_witness :
  dialSafeEgressTCP example_net "api.example.com:443" false = (Ok (public2, "443"), [(public1, "443"); (public2, "443")]) ∧
  ∃ failed rest, filter (λ ip, ¬ refused ip) example_answer = failed ++ rest ∧ rest ≠ [].
Proof.
  split; [by vm_compute|].
  pose proof (dial_public example_net "api.example.com:443" "api.example.com" "443" example_answer eq_refl eq_refl) as Hd.
  destruct Hd as (failed & rest & Hp & _ & Hr).
  - unfold example_answer, public1, public2, public3. rewrite !Forall_cons, Forall_nil. unfold addr_ok. cbn.
    rewrite ?Forall_cons, ?Forall_nil. unfold is_byte. lia.
  - exists failed, rest. split; [exact Hp|]. intros ->. destruct Hr as [Hr _]. vm_compute in Hr. discriminate Hr.
Defined.

(** The unspecified address with a zone is not the unspecified address of
    [netip], and is dialled. *)
Example zoned_unspecified_dialled : isForbiddenEgressAddr (AddrFrom16 (replicate 16 0%Z) "lo") false = false.
Proof. reflexivity. Qed.
