(* ===== verification/EgressService.v ===== *)
(** * Serving an egress destination

    The egress services of a node ([src/internal/node/egress.go] and
    [src/internal/node/egress_tunnel.go]): what a destination is refused for, the
    credential that is presented, the request that leaves the mesh, and TCP
    tunnels.  [httputil.ReverseProxy] is modelled as far as it makes the outgoing
    request: the hop-by-hop headers it drops, the forwarding headers it strips,
    and [SetURL]. *)

From S2P Require Import Prelude GoStrings Regex Names Biscuit NaiveEngine Facts DatalogText Grants Labels HTTPGrants PolicyRules Egress Base64 Tar Token TokenModel Identity Middleware Directory Decimal Effects Http LocalAuth Callout TlsHello SafeDial.

(** [authorizationFor] of [src/internal/node/backend_target.go]. *)
Definition authorizationFor (user pass : string) : string :=
  if bool_decide (user = "") then "Bearer " +:+ pass else "Basic " +:+ Std_Encode (user +:+ ":" +:+ pass).

(** How a credential is obtained: [s.exchanger], nil without a broker. *)
Inductive Exchanger :=
| StaticSecretExchanger (name : string)
| OIDCFederationExchanger (f : OidcFederation)
| AWSAssumeRoleExchanger (a : AWSAssumeRole)
| PlatformIdentityExchanger (scopes : list string).

Record EgressService := {
  es_destination : EgressDestination;
  es_target : URL;
  es_exchanger : option Exchanger;
  es_isStaticSecret : bool;
}.

(** The answer to a client: [http.Error] is an answer of plain text. *)
Record Answer := { an_Status : Z; an_Header : Header; an_Body : string }.

Definition http_Error (h : Header) (text : string) (status : Z) : Answer :=
  {| an_Status := status;
     an_Header := Header_Set (Header_Set h "Content-Type" "text/plain; charset=utf-8") "X-Content-Type-Options" "nosniff";
     an_Body := text +:+ str1 "010" |}.

Definition proxyStatusDenied : string := "http_request_denied".
Definition proxyStatusDestinationNotFound : string := "destination_not_found".
Definition proxyStatusDestinationUnreachable : string := "destination_unavailable".
Definition proxyStatusConfigurationError : string := "proxy_configuration_error".

Definition refuse (status : Z) (text errorType : string) : Answer :=
  http_Error (Header_Set ∅ "Proxy-Status" ("agentmesh-node; error=" +:+ errorType)) text status.

(** ** Building the service *)

(** [filepath.Base(s) == s], for a text that is not empty: no slash in it, or the
    root alone. *)
Definition is_base_name (s : string) : bool := negb (Contains s "/") || bool_decide (s = "/").

Definition initExchanger (d : EgressDestination) : option Exchanger * bool :=
  let secretName := EgressStaticSecret d in
  if negb (bool_decide (secretName = "")) then (Some (StaticSecretExchanger secretName), true)
  else (match eg_broker d with
        | Some (Oidc (Some f)) => Some (OIDCFederationExchanger f)
        | Some (AwsAssumeRole (Some a)) => Some (AWSAssumeRoleExchanger a)
        | Some (PlatformIdentity (Some scopes)) => Some (PlatformIdentityExchanger scopes)
        | _ => None
        end, false).

(** How [ReverseProxy] cleans a query that Go would not parse. *)
Class QueryText := { cleanQueryParams : string → string }.

Section service.
Context `{UC : UnicodeCase, UP : URLParser}.

Definition newEgressServiceForNode (d : EgressDestination) : result EgressService :=
  ValidateEgressName (eg_name d);;
  target ← (match url_Parse (EgressTargetURL d) with
            | Err _ => fail "egress: invalid target_url"
            | Ok u =>
                fail_if (bool_decide (url_Host u = "") ||
                         (negb (bool_decide (url_Scheme u = "http")) && negb (bool_decide (url_Scheme u = "https")))) "egress: invalid target_url";;
                Ok u
            end);
  fail_if (url_has_User target) "egress: target_url must not carry a credential";;
  let cred := EgressStaticSecret d in
  fail_if (negb (bool_decide (cred = "")) &&
           (negb (is_base_name cred) || bool_decide (cred = ".") || bool_decide (cred = ".."))) "egress: credential must be a file name";;
  Ok {| es_destination := d; es_target := target; es_exchanger := (initExchanger d).1; es_isStaticSecret := (initExchanger d).2 |}.

(** What a secret file holds, as an Authorization value. *)
Definition credential_of (data : string) : result string :=
  let cred := TrimSpace data in
  if bool_decide (cred = "") then fail "credential is empty"
  else let '(user, pass, ok) := Cut cred ":" in
       Ok (if ok then authorizationFor user pass else authorizationFor "" cred).

(** [credential], with what reading the named file gives. *)
Definition stored_credential (secrets : string → result string) (s : EgressService) : result string :=
  data ← secrets (EgressStaticSecret (es_destination s));
  credential_of data.

(** [Init] fails where the named credential cannot be read. *)
Definition Init (secrets : string → result string) (s : EgressService) : result unit :=
  if negb (bool_decide (EgressStaticSecret (es_destination s) = "")) then
    match stored_credential secrets s with Ok _ => Ok tt | Err e => Err e end
  else Ok tt.

Definition port (s : EgressService) : Z :=
  let default_port := if bool_decide (url_Scheme (es_target s) = "http") then 80%Z else 443%Z in
  if bool_decide (url_Port (es_target s) = "") then default_port
  else match ParseInt (url_Port (es_target s)) with Ok n => n | Err _ => default_port end.

Definition egressFactsFor (s : EgressService) : EgressFacts := {| ef_Host := eg_name (es_destination s); ef_Port := port s |}.

(** ** The credential *)

Definition rendered (s : EgressService) (tok : string) : string :=
  if es_isStaticSecret s then
    let '(user, pass, ok) := Cut tok ":" in if ok then authorizationFor user pass else authorizationFor "" tok
  else authorizationFor "" tok.

Definition resolveAuthorization (s : EgressService) : egress (result (string * egressCallerContext)) :=
  ec ← ask CContext;
  match es_exchanger s with
  | None => mret (Ok ("", ec))
  | Some _ =>
      r ← ask (CExchange (ec_principal ec) (ec_rules ec));
      match r with
      | Err e => mret (Err e)
      | Ok tok => mret (Ok (if bool_decide (tok = "") then "" else rendered s tok, ec))
      end
  end.

(** ** The outgoing request *)

(** The headers that authenticated the caller or that the mesh sets. *)
Definition caller_header (name : string) : bool :=
  let lower := ToLower name in
  bool_decide (lower = "authorization") || bool_decide (lower = "cookie") ||
  HasPrefix lower "x-mesh-" || HasPrefix lower "x-forwarded-" || EqualFold name HeaderPeerID.

Definition hopHeaders : list string :=
  ["Connection"; "Proxy-Connection"; "Keep-Alive"; "Proxy-Authenticate"; "Proxy-Authorization"; "Te"; "Trailer"; "Transfer-Encoding"; "Upgrade"].

Definition is_ascii_space (c : ascii) : bool := bool_decide (c ∈ [" "; "009"; "010"; "013"]%char).
Fixpoint drop_spaces (l : list ascii) : list ascii :=
  match l with c :: l' => if is_ascii_space c then drop_spaces l' else l | [] => [] end.
(** [textproto.TrimString]. *)
Definition TrimString (s : string) : string := String.string_of_list_ascii (reverse (drop_spaces (reverse (drop_spaces (chars s))))).

(** [removeHopByHopHeaders]: the headers that Connection names, and the fixed
    ones. *)
Definition connection_tokens (h : Header) : list string :=
  filter (λ sf, sf ≠ "") (TrimString <$> mjoin ((λ f, Split f ",") <$> default [] (h !! "Connection"))).
Definition removeHopByHopHeaders (h : Header) : Header :=
  foldl Header_Del (foldl Header_Del h (connection_tokens h)) hopHeaders.

(** A token among the values of a header, as [httpguts] compares them. *)
Definition HeaderValuesContainsToken (values : list string) (token : string) : bool :=
  existsb (λ v, existsb (λ t, EqualFold (TrimString t) token) (Split v ",")) values.

Definition upgradeType (h : Header) : string :=
  if HeaderValuesContainsToken (default [] (h !! "Connection")) "Upgrade" then Header_Get h "Upgrade" else "".

(** What [ReverseProxy] makes of the headers before [Rewrite] runs. *)
Definition proxy_headers (h : Header) : Header :=
  let reqUpType := upgradeType h in
  let out := removeHopByHopHeaders h in
  let out := if HeaderValuesContainsToken (default [] (h !! "Te")) "trailers" then Header_Set out "Te" "trailers" else out in
  let out := if bool_decide (reqUpType = "") then out else Header_Set (Header_Set out "Connection" "Upgrade") "Upgrade" reqUpType in
  foldl Header_Del out ["Forwarded"; "X-Forwarded-For"; "X-Forwarded-Host"; "X-Forwarded-Proto"].

(** [singleJoiningSlash]. *)
Definition singleJoiningSlash (a b : string) : string :=
  if HasSuffix a "/" && HasPrefix b "/" then a +:+ str_drop 1 b
  else if negb (HasSuffix a "/") && negb (HasPrefix b "/") then a +:+ "/" +:+ b
  else a +:+ b.

Definition join_query (target req : string) : string :=
  if bool_decide (target = "") || bool_decide (req = "") then target +:+ req else target +:+ "&" +:+ req.

Definition forward_context (ec : egressCallerContext) (h : Header) : Header :=
  let h := if bool_decide (ec_principal ec = "") then h else Header_Set h HeaderMeshPrincipal (ec_principal ec) in
  let h := match ec_roles ec with [] => h | roles => Header_Set h HeaderMeshRoles (Join roles ",") end in
  if bool_decide (ec_task ec = "") then h else Header_Set h HeaderMeshTask (ec_task ec).

(** The headers that [Rewrite] leaves. *)
Definition rewrite_headers (s : EgressService) (auth : string) (ec : egressCallerContext) (h : Header) : Header :=
  let h := Header_drop caller_header h in
  let h := if bool_decide (auth = "") then h else Header_Set h "Authorization" auth in
  if eg_forward_context (es_destination s) then forward_context ec h else h.

Definition default_user_agent (h : Header) : Header :=
  match h !! "User-Agent" with Some _ => h | None => Header_Set h "User-Agent" "" end.

(** The request that leaves the node: [Rewrite] after [ReverseProxy]'s own
    changes. *)
Definition Rewrite `{QueryText} (s : EgressService) (auth : string) (ec : egressCallerContext) (r : Request) : UpstreamRequest :=
  {| ur_Target := es_target s;
     ur_Request :=
       {| req_Method := req_Method r;
          req_Path := singleJoiningSlash (url_Path (es_target s)) (req_Path r);
          req_RawQuery := join_query (url_RawQuery (es_target s)) (cleanQueryParams (req_RawQuery r));
          req_Host := if eg_preserve_host (es_destination s) then eg_name (es_destination s) else url_Host (es_target s);
          req_Header := default_user_agent (rewrite_headers s auth ec (proxy_headers (req_Header r)));
          req_Body := req_Body r |} |}.

(** ** Tunnels *)

Definition isAllowedTCPPort (s : EgressService) (reqPort : Z) : bool :=
  if ((reqPort <=? 0) || (65535 <? reqPort))%Z then false
  else existsb (Z.eqb reqPort) (eg_ports (es_destination s)).

Definition resolveTCPTargetAddr (s : EgressService) (reqPort : Z) : string :=
  if negb (bool_decide (eg_target_url (es_destination s) = "")) then
    if negb (bool_decide (url_Port (es_target s) = "")) then url_Host (es_target s)
    else JoinHostPort (url_Hostname (es_target s)) (FormatInt reqPort)
  else JoinHostPort (eg_name (es_destination s)) (FormatInt reqPort).

Definition allowsLocalTarget `{AddrText} (s : EgressService) : bool :=
  if bool_decide (eg_target_url (es_destination s) = "") then false
  else
    let h := TrimSpace (url_Hostname (es_target s)) in
    if EqualFold h "localhost" then true
    else match ParseAddr h with
         | Ok ip => IsLoopback (Unmap ip) || IsPrivate (Unmap ip)
         | Err _ => false
         end.

(** What a tunnel does with the client's connection: refused before it is taken
    over, closed after that, or joined with a connection to the destination, to
    which [sent] is written before anything else and [rest] follows. *)
Inductive Tunnel :=
| TunnelRefused (a : Answer)
| TunnelClosed (tried : list (Addr * string))
| TunnelJoined (conn : Addr * string) (tried : list (Addr * string)) (sent rest : string).

Definition ServeTunnel `{AddrText} (net : Network) (s : EgressService) (reqPort : Z) (stream : string) : Tunnel :=
  let d := es_destination s in
  if negb (bool_decide (eg_mode d = EGRESS_MODE_TCP)) then
    TunnelRefused (refuse 403 "egress destination is HTTP-only; TCP tunnels are not permitted" proxyStatusDenied)
  else if negb (isAllowedTCPPort s reqPort) then
    TunnelRefused (refuse 403 "egress destination does not allow TCP port" proxyStatusDenied)
  else
    let '(rawHello, sni, err, rest) := VerifyClientHello stream (eg_name d) in
    match err with
    | Err _ => TunnelClosed []
    | Ok _ =>
        let '(conn, tried) := dialSafeEgressTCP net (resolveTCPTargetAddr s reqPort) (allowsLocalTarget s) in
        match conn with
        | Err _ => TunnelClosed tried
        | Ok conn => TunnelJoined conn tried rawHello rest
        end
    end.

(** The port of a tunnel in a request that came over the mesh. *)
Definition tunnel_port (s : EgressService) (h : Header) : Z :=
  let pStr := Header_Get h HeaderMeshEgressPort in
  if bool_decide (pStr = "") then port s
  else match ParseInt pStr with Ok p => p | Err _ => port s end.

Definition is_tunnel_request (r : Request) : bool :=
  bool_decide (req_Method r = "CONNECT") || EqualFold (Header_Get (req_Header r) "Upgrade") HeaderMeshTunnelUpgrade.
End service.

(** ** The caller *)

Section caller.
Context `{UC : UnicodeCase, TC : TARCodec, BT : BiscuitTokens, BE : BiscuitEngine, PC : PeerCodec}.

(** [extractCallerContext]: the answer to [CContext], with the credential that
    the request came with. *)
Definition extractCallerContext (now : time) (l : LocalNode) (caller : option string) : egressCallerContext * AgentMeshNode :=
  let nobody := {| ec_principal := ""; ec_roles := []; ec_actorNode := default "" (ln_self l); ec_task := ""; ec_rules := [] |} in
  match GetRequestIdentity (ln_node l) caller with
  | (None, n) => (nobody, n)
  | (Some raw, n) =>
      match VerifyLocalBiscuit now {| ln_node := n; ln_self := ln_self l; ln_labels := ln_labels l; ln_storedKey := ln_storedKey l |} raw with
      | (Ok claims, n) =>
          ({| ec_principal := Principal claims; ec_roles := vc_Roles claims;
              ec_actorNode := if bool_decide (vc_ActorNodePeerID claims = "") then default "" (ln_self l) else vc_ActorNodePeerID claims;
              ec_task := InnermostTaskName claims; ec_rules := vc_TaskRules claims |}, n)
      | (Err _, n) => (nobody, n)
      end
  end.

(** What is said of the caller is said of the credential that the request came
    with, and only when that credential verifies here. *)
Lemma extractCallerContext_verified now l raw ec n : raw ≠ "" → extractCallerContext now l (Some raw) = (ec, n) →
  (ec_principal ec = "" ∧ ec_roles ec = [] ∧ ec_task ec = "" ∧ ec_rules ec = []) ∨
  ∃ claims, InspectVerifiedBiscuit now raw (trustedPublicKeys l) = Ok claims ∧
    (IsBiscuitRevoked now (ln_node l) (vc_Biscuit claims)).1 = false ∧
    ec_principal ec = Principal claims ∧ ec_roles ec = vc_Roles claims ∧ ec_task ec = InnermostTaskName claims ∧ ec_rules ec = vc_TaskRules claims.
Proof.
  intros Hne He. unfold extractCallerContext, GetRequestIdentity in He. rewrite bool_decide_false in He by done.
  destruct l as [n0 self labels stored]. cbn [ln_node ln_self ln_labels ln_storedKey] in He.
  destruct (VerifyLocalBiscuit _ _ raw) as [[claims|] n'] eqn:Ev in He; [|left; by injection He as <- <-].
  right. exists claims. apply (f_equal fst), VerifyLocalBiscuit_Ok in Ev as (? & ? & _). by injection He as <- <-.
Qed.
End caller.

(** ** The tunnel *)

Lemma last_index_app c a b : c ∉ chars b → last_index c (a +:+ String c b) = Some (len a).
Proof.
  intros Hb. assert (last_index c b = None) as Hn.
  { induction b as [|d b IH]; [done|]. cbn in Hb. apply not_elem_of_cons in Hb as [Hd Hb]. cbn. rewrite IH by done. by rewrite bool_decide_false. }
  induction a as [|d a IH].
  - change (last_index c (String c b) = Some 0). cbn. by rewrite Hn, bool_decide_true.
  - change (last_index c (String d (a +:+ String c b)) = Some (S (len a))). cbn. by rewrite IH.
Qed.

Lemma SplitHostPort_port hp i host p : last_index ":" hp = Some i → SplitHostPort hp = Ok (host, p) → p = str_drop (S i) hp.
Proof.
  intros Hi. unfold SplitHostPort. rewrite Hi. destruct (HasPrefix hp "[").
  - destruct (Index hp "]"); [|done]. case_bool_decide; [done|]. destruct (negb _); [done|].
    destruct (Contains _ "["); [done|]. destruct (Contains _ "]"); [done|]. by intros [= _ <-].
  - destruct (Contains _ ":"); [done|]. destruct (Contains hp "["); [done|]. destruct (Contains hp "]"); [done|]. by intros [= _ <-].
Qed.

Lemma SplitHostPort_Join h n host p : SplitHostPort (JoinHostPort h (FormatInt n)) = Ok (host, p) → p = FormatInt n.
Proof.
  assert (∀ a, SplitHostPort (a +:+ String ":" (FormatInt n)) = Ok (host, p) → p = FormatInt n) as Hany.
  { intros a Hs. rewrite (SplitHostPort_port _ (len a) _ _ (last_index_app ":" a (FormatInt n) (FormatInt_no_colon n)) Hs).
    change (String ":" (FormatInt n)) with (":" +:+ FormatInt n). rewrite <-app_assoc.
    replace (S (len a)) with (len (a +:+ ":")) by (rewrite len_app; cbn; lia). apply drop_app_len. }
  unfold JoinHostPort. destruct (Contains h ":"); intros Hs.
  - apply (Hany ("[" +:+ h +:+ "]")). by rewrite !app_assoc.
  - by apply (Hany h).
Qed.

Section tunnel.
Context `{UC : UnicodeCase, AT : AddrText}.

(** A connection that a tunnel to the destination may open, for a client that
    sent [hello]. *)
Definition tunnel_ok (net : Network) (s : EgressService) (reqPort : Z) (hello : string) (a : Addr) (p : string) : Prop :=
  eg_mode (es_destination s) = EGRESS_MODE_TCP ∧ (1 ≤ reqPort ≤ 65535)%Z ∧ reqPort ∈ eg_ports (es_destination s) ∧
  (∃ v h, hello = encode_record v h ∧ hello_ok h ∧ hello_ech h = false ∧ hello_sni h ≠ "" ∧
     NormalizeMeshHost (hello_sni h) = NormalizeMeshHost (eg_name (es_destination s))) ∧
  (∃ host ips ip, SplitHostPort (resolveTCPTargetAddr s reqPort) = Ok (host, p) ∧ resolve_host net host = Ok ips ∧ ip ∈ ips ∧ a = Unmap ip ∧
     (allowsLocalTarget s = false ∨ eg_target_url (es_destination s) = "" → addr_ok ip → ¬ refused ip)) ∧
  (eg_target_url (es_destination s) = "" ∨ url_Port (es_target s) = "" → p = FormatInt reqPort).

(** C14: A TCP tunnel connects to nothing before the client has shown where it
    goes: every connection it opens or tries is for a destination in tunnel
    mode, at a port of its list, after the client's first record was read to be a
    well-formed TLS hello that names the destination in the clear, and leads to
    an address of the destination's own target, which is a public one unless the
    policy's target is itself local; a destination without a target of its own
    is dialled at the port that was asked for.  A tunnel that is joined sends
    that hello first, and then what followed it, so that the destination gets
    the client's bytes as they were sent. *)
Theorem tunnel_verified net s reqPort stream :
  match ServeTunnel net s reqPort stream with
  | TunnelRefused a => an_Status a = 403%Z ∧ (eg_mode (es_destination s) ≠ EGRESS_MODE_TCP ∨ isAllowedTCPPort s reqPort = false)
  | TunnelClosed tried => ∀ a p, (a, p) ∈ tried → ∃ hello rest, stream = hello +:+ rest ∧ tunnel_ok net s reqPort hello a p
  | TunnelJoined conn tried sent rest =>
      stream = sent +:+ rest ∧ conn ∈ tried ∧ ∀ a p, (a, p) ∈ tried → tunnel_ok net s reqPort sent a p
  end.
Proof.
  unfold ServeTunnel. case_bool_decide as Hm; [|by split; [|left]]. cbn [negb].
  destruct (isAllowedTCPPort s reqPort) eqn:Ep; [|by split; [|right]]. cbn [negb].
  destruct (VerifyClientHello stream (eg_name (es_destination s))) as [[[raw sni] [[]|e]] rest] eqn:Ev; [|by intros ? ? ?%elem_of_nil].
  apply VerifyClientHello_Ok in Ev as (-> & _ & v & h & -> & _ & Hok & _ & Hech & Hne & Hsni).
  destruct (dialSafeEgressTCP net (resolveTCPTargetAddr s reqPort) (allowsLocalTarget s)) as [conn tried] eqn:Ed.
  assert (∀ a p, (a, p) ∈ tried → tunnel_ok net s reqPort (encode_record v h) a p) as Hall.
  { intros a p Hin. unfold isAllowedTCPPort in Ep. destruct (_ || _) eqn:Er in Ep; [done|]. apply orb_false_iff in Er as [H1 H2].
    pose proof (dial_tried net (resolveTCPTargetAddr s reqPort) (allowsLocalTarget s) a p) as Ht. rewrite Ed in Ht.
    destruct (Ht Hin) as (host & ips & ip & Hs & Hr & Hip & -> & Hf).
    assert (allowsLocalTarget s = false ∨ eg_target_url (es_destination s) = "" → addr_ok ip → ¬ refused ip) as Hpub.
    { intros Hl Hok' Href. apply forbidden_iff in Href; [|done].
      destruct (allowsLocalTarget s) eqn:El; [|congruence]. destruct Hl as [|Hl]; [done|]. unfold allowsLocalTarget in El. by rewrite Hl in El. }
    unfold tunnel_ok. split_and!; [done|lia|lia| | | |].
    - apply existsb_exists in Ep as (x & Hx & ->%Z.eqb_eq). by apply list_elem_of_In.
    - by exists v, h.
    - by exists host, ips, ip.
    - intros Hp. unfold resolveTCPTargetAddr in Hs. destruct Hp as [Hp|Hp]; rewrite Hp, (bool_decide_true ("" = "")) in Hs by done; cbn [negb] in Hs.
      + by eapply SplitHostPort_Join.
      + destruct (negb (bool_decide (eg_target_url (es_destination s) = ""))); by eapply SplitHostPort_Join. }
  destruct conn as [c|]; [|intros a p Hin; by exists (encode_record v h), rest; auto].
  split_and!; [done| |done]. pose proof (dial_conn net (resolveTCPTargetAddr s reqPort) (allowsLocalTarget s) c) as Hc. rewrite Ed in Hc. auto.
Qed.
End tunnel.
