(* ===== verification/EgressInspect.v ===== *)
(** * Inspected egress requests

    The inspection chain around an egress request
    ([src/internal/node/egress_inspect.go]): Model Armor and external
    processors see the request before the destination's credential is obtained,
    and the buffered response before the caller gets it.  JSON documents and
    gzip are read by the standard library's codecs, which are parameters;
    logging and metrics are left out, and so is a response that switches
    protocols.  [modelArmorBaseURL] is set by tests only and is empty here. *)

From S2P Require Import Prelude GoStrings Regex Names Biscuit NaiveEngine Facts DatalogText Grants Labels HTTPGrants PolicyRules Egress Base64 Tar Token TokenModel Identity Middleware Directory Decimal Effects Http LocalAuth Callout TlsHello SafeDial EgressService.

(** ** Codecs *)

Inductive json :=
| JNull
| JBool (b : bool)
| JNum (n : string)
| JStr (s : string)
| JArr (l : list json)
| JObj (m : list (string * json)).

(** A document as [map[string]any], its keys distinct, and back. *)
Class JSONText := {
  json_Unmarshal : string → option (list (string * json));
  json_Marshal : list (string * json) → result string;
}.

(** What is read of an answer of Model Armor: the match state, and for each filter
    the text it put in place. *)
Record SanitizationResult := { sr_FilterMatchState : string; sr_FilterResults : list (option string) }.
Class ArmorText := { armor_Unmarshal : string → result SanitizationResult }.

(** The stream in a gzip file, and whether it ends in an error; [None] for a bad
    header. *)
Class Gzip := { gunzip : string → option (string * bool) }.

(** [io.ReadAll(io.LimitReader(r, n))] of a stream. *)
Definition read_limited (n : nat) (data : string) (bad : bool) : string * bool :=
  if n <=? len data then (str_take n data, false) else (data, bad).

(** ** The recorder *)

Record boundedResponseRecorder := {
  rec_header : Header;
  rec_body : string;
  rec_code : Z;
  rec_wroteHeader : bool;
  rec_maxBytes : Z;
  rec_overflowed : bool;
}.

Definition newBoundedResponseRecorder (maxBytes : Z) : boundedResponseRecorder :=
  {| rec_header := ∅; rec_body := ""; rec_code := 200; rec_wroteHeader := false;
     rec_maxBytes := if (maxBytes <=? 0)%Z then DefaultMaxBufferBytes else maxBytes; rec_overflowed := false |}.

Definition WriteHeader (r : boundedResponseRecorder) (statusCode : Z) : boundedResponseRecorder :=
  if rec_wroteHeader r then r
  else {| rec_header := rec_header r; rec_body := rec_body r; rec_code := statusCode; rec_wroteHeader := true;
          rec_maxBytes := rec_maxBytes r; rec_overflowed := rec_overflowed r |}.

Definition set_body (r : boundedResponseRecorder) (body : string) (overflowed : bool) : boundedResponseRecorder :=
  {| rec_header := rec_header r; rec_body := body; rec_code := rec_code r; rec_wroteHeader := rec_wroteHeader r;
     rec_maxBytes := rec_maxBytes r; rec_overflowed := overflowed |}.

(** [Write]: whether it succeeds. *)
Definition Write_ (r : boundedResponseRecorder) (p : string) : boundedResponseRecorder * bool :=
  let r := if rec_wroteHeader r then r else WriteHeader r 200 in
  let remaining := (rec_maxBytes r + 1 - Z.of_nat (len (rec_body r)))%Z in
  if (remaining <? Z.of_nat (len p))%Z then
    (set_body r (if (0 <? remaining)%Z then rec_body r +:+ str_take (Z.to_nat remaining) p else rec_body r) true, false)
  else (set_body r (rec_body r +:+ p) (rec_overflowed r), true).

(** The pieces of a body, up to the first that is not taken. *)
Fixpoint copy_body (r : boundedResponseRecorder) (chunks : list string) : boundedResponseRecorder * bool :=
  match chunks with
  | [] => (r, true)
  | p :: chunks => let '(r, ok) := Write_ r p in if ok then copy_body r chunks else (r, false)
  end.

(** ** Text in documents *)

Fixpoint assoc (k : string) (m : list (string * json)) : option json :=
  match m with
  | [] => None
  | (k', v) :: m => if bool_decide (k = k') then Some v else assoc k m
  end.

Definition as_arr (v : option json) : option (list json) := match v with Some (JArr l) => Some l | _ => None end.
Definition as_obj (v : option json) : option (list (string * json)) := match v with Some (JObj m) => Some m | _ => None end.
(** A text that is not empty. *)
Definition as_text (v : option json) : option string :=
  match v with Some (JStr s) => if bool_decide (s = "") then None else Some s | _ => None end.

Definition message_content (m : json) : option string := mm ← as_obj (Some m); as_text (assoc "content" mm).
Definition choice_content (c : json) : option string :=
  cm ← as_obj (Some c); msg ← as_obj (assoc "message" cm); as_text (assoc "content" msg).
Definition part_text (p : json) : option string := pm ← as_obj (Some p); as_text (assoc "text" pm).
Definition item_texts (it : json) : list string :=
  match as_obj (Some it) with
  | None => []
  | Some im =>
      let im := default im (as_obj (assoc "content" im)) in
      match as_arr (assoc "parts" im) with Some parts => omap part_text parts | None => [] end
  end.

(** The first of the texts that is not empty. *)
Definition first_text (texts : list (option string)) : option string :=
  head (omap (λ o, t ← o; if bool_decide (t = "") then None else Some t) texts).

Definition newline : string := str1 "010".

Section texts.
Context `{UC : UnicodeCase, JT : JSONText}.

Definition extractInspectableText (body : string) : string :=
  match json_Unmarshal body with
  | None => TrimSpace body
  | Some doc =>
      default (TrimSpace body) (first_text [
        (λ msgs, Join (omap message_content msgs) newline) <$> as_arr (assoc "messages" doc);
        (λ choices, Join (omap choice_content choices) "") <$> as_arr (assoc "choices" doc);
        (λ items, Join (mjoin (item_texts <$> items)) "") <$> as_arr (assoc "contents" doc);
        (λ items, Join (mjoin (item_texts <$> items)) "") <$> as_arr (assoc "candidates" doc)])
  end.

(** [strings.ReplaceAll(s, old, new)] for an [old] that is not empty: the fuel is
    the length of the text. *)
Fixpoint replace_all (fuel : nat) (s old new : string) : string :=
  match fuel, s with
  | O, _ | _, "" => s
  | S fuel, String c s' =>
      if HasPrefix s old then new +:+ replace_all fuel (str_drop (len old) s) old new
      else String c (replace_all fuel s' old new)
  end.
Definition ReplaceAll (s old new : string) : string := replace_all (len s) s old new.

Fixpoint replaceStringInJSONValue (v : json) (original replacement : string) : json * bool :=
  match v with
  | JStr val =>
      if bool_decide (val = original) then (JStr replacement, true)
      else if negb (bool_decide (original = "")) && Contains val original then (JStr (ReplaceAll val original replacement), true)
      else (JStr val, false)
  | JArr l =>
      let r := (fix go l := match l with
                | [] => ([], false)
                | e :: l => let '(e, m1) := replaceStringInJSONValue e original replacement in
                            let '(l, m2) := go l in (e :: l, m1 || m2)
                end) l in
      (JArr r.1, r.2)
  | JObj m =>
      let r := (fix go m := match m with
                | [] => ([], false)
                | (k, e) :: m => let '(e, m1) := replaceStringInJSONValue e original replacement in
                                 let '(m, m2) := go m in ((k, e) :: m, m1 || m2)
                end) m in
      (JObj r.1, r.2)
  | _ => (v, false)
  end.

(** A key of an object that is there is given a value. *)
Definition set_key (k : string) (v : json) (m : list (string * json)) : list (string * json) :=
  (λ kv, if bool_decide (kv.1 = k) then (kv.1, v) else kv) <$> m.

(** The contents of the messages that have one, in turn. *)
Fixpoint set_contents (msgs : list json) (contents : list string) : list json :=
  match msgs, contents with
  | m :: msgs, c :: contents' =>
      match m, message_content m with
      | JObj mm, Some _ => JObj (set_key "content" (JStr c) mm) :: set_contents msgs contents'
      | _, _ => m :: set_contents msgs contents
      end
  | _, _ => msgs
  end.

(** The lines of the replacement, as many for each content as it had. *)
Fixpoint regroup (lineCounts : list nat) (parts : list string) : list string :=
  match lineCounts with
  | [] => []
  | lc :: lineCounts => Join (take lc parts) newline :: regroup lineCounts (drop lc parts)
  end.

Definition replace_messages (doc : list (string * json)) (replacement : string) : option (list (string * json)) :=
  msgs ← as_arr (assoc "messages" doc);
  let contents := omap message_content msgs in
  let put cs := Some (set_key "messages" (JArr (set_contents msgs cs)) doc) in
  match contents with
  | [] => None
  | [_] => put [replacement]
  | _ =>
      let lineCounts := (λ c, Count c "010" + 1) <$> contents in
      let parts := Split replacement "010" in
      if bool_decide (length parts = sum_list lineCounts) then put (regroup lineCounts parts) else None
  end.

Definition replaceInspectableText (body original replacement : string) : result string :=
  if bool_decide (original = replacement) then Ok body
  else if bool_decide (original = "") then fail "cannot replace empty original inspectable text"
  else match json_Unmarshal body with
  | None => Ok (ReplaceAll body original replacement)
  | Some doc =>
      match replace_messages doc replacement with
      | Some doc => json_Marshal doc
      | None =>
          match replaceStringInJSONValue (JObj doc) original replacement with
          | (JObj updated, true) => json_Marshal updated
          | _ => if Contains body original then Ok (ReplaceAll body original replacement)
                 else fail "failed to map inspection replacement back into structured JSON payload"
          end
      end
  end.
End texts.

(** ** The chain *)

(** What the caller gets; [Aborted] is a connection that the server cuts off. *)
Inductive Outcome :=
| Answered (a : Answer)
| Aborted.

Definition GetModelArmor (ins : option Inspector) : option ModelArmorConfig := match ins with Some (ModelArmor m) => m | _ => None end.
Definition GetExtProc (ins : option Inspector) : option ExtProc := match ins with Some (ExtProcKind p) => p | _ => None end.

(** The largest buffer that a processor asks for, or the default. *)
Definition max_buffer (inspectors : list (option Inspector)) : Z :=
  (foldl (λ acc ins,
     match GetExtProc ins with
     | Some ep =>
         if (0 <? ep_max_buffered_bytes ep)%Z && (negb acc.2 || (acc.1 <? ep_max_buffered_bytes ep)%Z)
         then (ep_max_buffered_bytes ep, true) else acc
     | None => acc
     end) (DefaultMaxBufferBytes, false) inspectors).1.

Definition has_model_armor (inspectors : list (option Inspector)) : bool :=
  existsb (λ ins, bool_decide (is_Some (GetModelArmor ins))) inspectors.

(** A session of a processor that wants the response. *)
Record activeExtProc := { as_sess : nat; as_cfg : ExtProc; as_mode : ProcessingMode }.

(** The request as the chain has changed it, and the sessions kept open. *)
Record Chain := {
  ch_Header : Header;
  ch_Body : string;
  ch_Streams : list activeExtProc;
  ch_NeedBuffer : bool;
}.

Definition set_chain (st : Chain) (h : Header) (body : string) : Chain :=
  {| ch_Header := h; ch_Body := body; ch_Streams := ch_Streams st; ch_NeedBuffer := ch_NeedBuffer st |}.

Section inspect.
Context `{UC : UnicodeCase, UPr : UnicodePrint, UP : URLParser, AT : AddrText, JT : JSONText, AX : ArmorText, GZ : Gzip, QT : QueryText}.

(** *** Model Armor *)

(** [projects/P/locations/L/templates/T]: the location. *)
Fixpoint template_location (parts : list string) : string :=
  match parts with
  | p :: ((q :: _) as parts') => if bool_decide (p = "locations") && negb (bool_decide (q = "")) then q else template_location parts'
  | _ => "us-central1"
  end.

Fixpoint TrimLeft (s : string) (c : ascii) : string :=
  match s with
  | String d s' => if bool_decide (d = c) then TrimLeft s' c else s
  | "" => ""
  end.

(** The endpoint and the credential for it; [registered] is the target of an
    egress service of this node, as text. *)
Definition resolveModelArmorEndpoint (registered : string → option string) (s : EgressService) (template : string)
  : egress (result (string * string)) :=
  let tmpl := TrimSpace template in
  if bool_decide (tmpl = "") then mret (fail "model_armor.template is empty")
  else if HasPrefix tmpl "http://" || HasPrefix tmpl "https://" then
    mret (match url_Parse tmpl with
          | Err _ => fail "invalid model_armor.template URL"
          | Ok u =>
              fail_if (bool_decide (url_Hostname u = "")) "invalid model_armor.template URL";;
              let host := TrimSpace (url_Hostname u) in
              fail_if (negb (allowsLocalTarget s) && (EqualFold host "localhost" || HasSuffix (ToLower host) ".localhost"))
                "model_armor.template URL host is in a forbidden local domain";;
              fail_if (match ParseAddr host with Ok ip => isForbiddenEgressAddr ip (allowsLocalTarget s) | Err _ => false end)
                "model_armor.template URL host is in a forbidden IP range";;
              Ok (tmpl, "")
          end)
  else
    let maHost := "modelarmor." +:+ template_location (Split tmpl "/") +:+ ".rep.googleapis.com" in
    let path := "/v1/" +:+ TrimLeft tmpl "/" in
    match registered maHost with
    | Some target => authHdr ← ask (CArmorAuth maHost); mret (Ok (TrimRight target "/" +:+ path, authHdr))
    | None => mret (Ok ("https://" +:+ maHost +:+ path, ""))
    end.

(** What an answer of the service says: whether to block, and the text to put in
    place. *)
Definition armor_verdict (status : Z) (respBytes : string) : result (bool * string) :=
  if negb (status =? 200)%Z then fail "model armor returned an error"
  else
    r ← wrap_err "invalid Model Armor response JSON" (armor_Unmarshal respBytes);
    let replacement := foldl (λ acc o, match o with Some t => if bool_decide (t = "") then acc else t | None => acc end) "" (sr_FilterResults r) in
    if EqualFold (sr_FilterMatchState r) "MATCH_FOUND" then
      if negb (bool_decide (replacement = "")) && bool_decide (length (sr_FilterResults r) = 1) then Ok (false, replacement) else Ok (true, "")
    else Ok (false, replacement).

Definition callModelArmorAPI (registered : string → option string) (s : EgressService) (cfg : ModelArmorConfig) (method dataField text : string)
  : egress (result (bool * string)) :=
  e ← resolveModelArmorEndpoint registered s (ma_template cfg);
  match e with
  | Err err => mret (Err err)
  | Ok (endpoint, authHdr) =>
      resp ← ask (CArmor (endpoint +:+ ":" +:+ method) authHdr dataField text);
      mret ('(status, respBytes) ← resp; armor_verdict status respBytes)
  end.

(** The body after an inspection, whether it is blocked, and an error. *)
Definition inspectModelArmor (registered : string → option string) (s : EgressService) (cfg : ModelArmorConfig) (method dataField body : string)
  : egress (string * result bool) :=
  let text := extractInspectableText body in
  if bool_decide (body = "") || bool_decide (text = "") then mret (body, Ok false)
  else
    v ← callModelArmorAPI registered s cfg method dataField text;
    mret (match v with
          | Err e => (body, Err e)
          | Ok (true, _) => (body, Ok true)
          | Ok (false, replacement) =>
              if negb (bool_decide (replacement = "")) && negb (bool_decide (replacement = text)) then
                match replaceInspectableText body text replacement with
                | Ok updated => (updated, Ok false)
                | Err e => (body, Err e)
                end
              else (body, Ok false)
          end).

Definition inspectModelArmorRequest registered s cfg := inspectModelArmor registered s cfg "sanitizeUserPrompt" "userPromptData".
Definition inspectModelArmorResponse registered s cfg := inspectModelArmor registered s cfg "sanitizeModelResponse" "modelResponseData".

(** *** Answers *)

Definition writeImmediateResponse (imm : ImmediateResponse) : Answer :=
  let details := if bool_decide (imm_Details imm = "") then "ext_proc_blocked" else imm_Details imm in
  {| an_Status := if ((100 <=? imm_Code imm) && (imm_Code imm <=? 599))%Z then imm_Code imm else 403;
     an_Header := Header_Set (ApplySafeHeaderMutations ∅ (imm_Headers imm)) "Proxy-Status"
                    ("agentmesh-node; error=" +:+ proxyStatusDenied +:+ "; details=" +:+ strconv_Quote details);
     an_Body := if bool_decide (imm_Body imm = "") then "Request blocked by ext_proc inspector" +:+ newline else imm_Body imm |}.

Definition armor_blocked (details text : string) : Answer :=
  http_Error (Header_Set ∅ "Proxy-Status" ("agentmesh-node; error=" +:+ proxyStatusDenied +:+ "; details=" +:+ strconv_Quote details)) text 403.

(** *** The request *)

(** Decompressing the body for Model Armor: the body and the headers, or a
    refusal. *)
Definition decode_request (maxBytes : Z) (h : Header) (body : string) : Answer + Header * string :=
  let ce := TrimSpace (Header_Get h "Content-Encoding") in
  if bool_decide (ce = "") || EqualFold ce "identity" then inr (h, body)
  else if EqualFold ce "gzip" then
    match gunzip body with
    | None => inl (refuse 400 "invalid gzip request body" proxyStatusDenied)
    | Some (data, bad) =>
        let '(decompressed, readErr) := read_limited (Z.to_nat (maxBytes + 1)) data bad in
        if readErr || (maxBytes <? Z.of_nat (len decompressed))%Z
        then inl (refuse 413 "decompressed request body exceeds max_buffered_bytes" proxyStatusDenied)
        else inr (Header_Del (Header_Del h "Content-Encoding") "Content-Length", decompressed)
    end
  else inl (refuse 415 "unsupported Content-Encoding with Model Armor inspection" proxyStatusDenied).

(** The body that the inspectors get, and the headers without those of the
    caller. *)
Definition prepare_request (inspectors : list (option Inspector)) (r : Request) : Answer + Header * string :=
  let maxBytes := max_buffer inspectors in
  match req_Body r with
  | None => inl (refuse 400 "failed to read request body" proxyStatusDenied)
  | Some data =>
      let '(reqBody, _) := read_limited (Z.to_nat (maxBytes + 1)) data false in
      if (maxBytes <? Z.of_nat (len reqBody))%Z then inl (refuse 413 "request body exceeds max_buffered_bytes" proxyStatusDenied)
      else
        match (if has_model_armor inspectors && negb (bool_decide (reqBody = "")) then decode_request maxBytes (req_Header r) reqBody
               else inr (req_Header r, reqBody)) with
        | inl a => inl a
        | inr (h, reqBody) => inr (Header_drop caller_header h, reqBody)
        end
  end.

Definition mesh_attributes (destName : string) (ec : egressCallerContext) : list (string * string) :=
  [("principal", ec_principal ec); ("roles", Join (ec_roles ec) ","); ("actor_node", ec_actorNode ec); ("task", ec_task ec);
   ("service", EgressServicePrefix +:+ destName); ("destination", destName)].

(** One inspector of the chain, the [k]-th: an answer, or the chain goes on. *)
Definition inspect_request (registered : string → option string) (s : EgressService) (r : Request) (ec : egressCallerContext)
    (k : nat) (ins : option Inspector) (st : Chain) : egress (Answer + Chain) :=
  match ins with
  | Some (ModelArmor (Some ma)) =>
      '(body, v) ← inspectModelArmorRequest registered s ma (ch_Body st);
      let buffered := bool_decide (ma_response ma = RESPONSE_INSPECTION_BUFFERED) in
      let next := {| ch_Header := ch_Header st; ch_Body := body; ch_Streams := ch_Streams st; ch_NeedBuffer := ch_NeedBuffer st || buffered |} in
      mret (match v with
            | Err _ => if ma_fail_open ma then inr next else inl (refuse 502 "Model Armor inspection unavailable" proxyStatusConfigurationError)
            | Ok true => inl (armor_blocked "model_armor" "Request blocked by Model Armor policy")
            | Ok false => inr next
            end)
  | Some (ExtProcKind (Some ep)) =>
      let name := eg_name (es_destination s) in
      ph ← RunRequestPhase k (with_headers r (ch_Header st)) ep name (ch_Body st) (mesh_attributes name ec);
      match ph_Out ph with
      | Err _ =>
          mret (if ep_failure_mode_allow ep then inr (set_chain st (ph_Header ph) (ch_Body st))
                else inl (refuse 502 "ext_proc inspector error" proxyStatusConfigurationError))
      | Ok (_, Some imm, _) => ask (CExtClose k);; mret (inl (writeImmediateResponse imm))
      | Ok (mode, None, newBody) =>
          if NeedsResponseBuffer mode then
            mret (inr {| ch_Header := ph_Header ph; ch_Body := newBody;
                         ch_Streams := ch_Streams st ++ [{| as_sess := k; as_cfg := ep; as_mode := mode |}]; ch_NeedBuffer := true |})
          else ask (CExtClose k);; mret (inr (set_chain st (ph_Header ph) newBody))
      end
  | _ => mret (inr st)
  end.

(** The deferred closing of the sessions that are still open. *)
Fixpoint close_streams (streams : list activeExtProc) : egress unit :=
  match streams with
  | [] => mret tt
  | a :: streams => ask (CExtClose (as_sess a));; close_streams streams
  end.

Fixpoint inspect_requests (registered : string → option string) (s : EgressService) (r : Request) (ec : egressCallerContext)
    (k : nat) (inspectors : list (option Inspector)) (st : Chain) : egress (Answer + Chain) :=
  match inspectors with
  | [] => mret (inr st)
  | ins :: inspectors =>
      v ← inspect_request registered s r ec k ins st;
      match v with
      | inl a => close_streams (ch_Streams st);; mret (inl a)
      | inr st => inspect_requests registered s r ec (S k) inspectors st
      end
  end.

(** *** The proxy *)

Definition ascii_IsPrint (s : string) : bool := str_forallb (λ c, (32 <=? byte c) && (byte c <=? 126))%Z s.

(** The answer of the destination, [None] where there is none and the proxy
    answers 502 itself. *)
Definition proxy_RoundTrip (s : EgressService) (auth : string) (ec : egressCallerContext) (r : Request) : egress (option UpstreamResponse) :=
  if ascii_IsPrint (upgradeType (req_Header r)) then ask (CUpstream (Rewrite s auth ec r)) else mret None.

Definition passed_on (resp : option UpstreamResponse) : Outcome :=
  Answered (match resp with
            | Some resp => {| an_Status := us_Status resp; an_Header := removeHopByHopHeaders (us_Header resp); an_Body := concat (us_Chunks resp) |}
            | None => {| an_Status := 502; an_Header := ∅; an_Body := "" |}
            end).

(** The response as the recorder takes it, and whether all of it was taken. *)
Definition record_response (maxBytes : Z) (resp : option UpstreamResponse) : boundedResponseRecorder * bool :=
  let rec := newBoundedResponseRecorder maxBytes in
  match resp with
  | None => (WriteHeader rec 502, true)
  | Some resp =>
      let rec := {| rec_header := removeHopByHopHeaders (us_Header resp); rec_body := rec_body rec; rec_code := rec_code rec;
                    rec_wroteHeader := rec_wroteHeader rec; rec_maxBytes := rec_maxBytes rec; rec_overflowed := rec_overflowed rec |} in
      copy_body (WriteHeader rec (us_Status resp)) (us_Chunks resp)
  end.

(** *** The response *)

Fixpoint inspect_responses (status : Z) (streams : list activeExtProc) (h : Header) (body : string) : egress (Answer + Header * string) :=
  match streams with
  | [] => mret (inr (h, body))
  | a :: streams =>
      ph ← RunResponsePhase (as_sess a) (as_cfg a) (as_mode a) (FormatInt status) h body;
      match ph_Out ph with
      | Err _ =>
          if ep_failure_mode_allow (as_cfg a) then inspect_responses status streams (ph_Header ph) body
          else mret (inl (refuse 502 "ext_proc response inspection error" proxyStatusConfigurationError))
      | Ok (_, Some imm, _) => mret (inl (writeImmediateResponse imm))
      | Ok (_, None, body) => inspect_responses status streams (ph_Header ph) body
      end
  end.

Definition decode_response (maxBytes : Z) (ma : ModelArmorConfig) (h : Header) (body : string) : Answer + Header * string :=
  let ce := TrimSpace (Header_Get h "Content-Encoding") in
  if bool_decide (ce = "") || EqualFold ce "identity" || bool_decide (body = "") then inr (h, body)
  else if EqualFold ce "gzip" then
    let invalid := if ma_fail_open ma then inr (h, body) else inl (refuse 502 "invalid gzip upstream response body" proxyStatusDenied) in
    match gunzip body with
    | None => invalid
    | Some (data, bad) =>
        let '(decompressed, readErr) := read_limited (Z.to_nat (maxBytes + 1)) data bad in
        if (maxBytes <? Z.of_nat (len decompressed))%Z
        then inl (refuse 502 "decompressed upstream response exceeds max_buffered_bytes" proxyStatusDenied)
        else if readErr then invalid
        else inr (Header_Del (Header_Del h "Content-Encoding") "Content-Length", decompressed)
    end
  else if ma_fail_open ma then inr (h, body)
  else inl (refuse 502 "unsupported upstream Content-Encoding for Model Armor response inspection" proxyStatusDenied).

Fixpoint armor_responses (registered : string → option string) (s : EgressService) (maxBytes : Z) (inspectors : list (option Inspector))
    (h : Header) (body : string) : egress (Answer + Header * string) :=
  match inspectors with
  | [] => mret (inr (h, body))
  | ins :: inspectors =>
      match GetModelArmor ins with
      | Some ma =>
          if bool_decide (ma_response ma = RESPONSE_INSPECTION_BUFFERED) then
            match decode_response maxBytes ma h body with
            | inl a => mret (inl a)
            | inr (h, body) =>
                '(body, v) ← inspectModelArmorResponse registered s ma body;
                match v with
                | Err _ =>
                    if ma_fail_open ma then armor_responses registered s maxBytes inspectors h body
                    else mret (inl (refuse 502 "Model Armor response inspection unavailable" proxyStatusConfigurationError))
                | Ok true => mret (inl (armor_blocked "model_armor_response" "Response blocked by Model Armor policy"))
                | Ok false => armor_responses registered s maxBytes inspectors h body
                end
            end
          else armor_responses registered s maxBytes inspectors h body
      | None => armor_responses registered s maxBytes inspectors h body
      end
  end.

(** The headers of the response, those of the length apart. *)
Definition response_headers (h : Header) (body : string) : Header :=
  Header_Set (Header_drop (λ k, EqualFold k "Content-Length") h) "Content-Length" (FormatInt (Z.of_nat (len body))).

Definition to_outcome (status : Z) (v : Answer + Header * string) : Outcome :=
  Answered (match v with
            | inl a => a
            | inr (h, body) => {| an_Status := status; an_Header := response_headers h body; an_Body := body |}
            end).

Definition inspect_response (registered : string → option string) (s : EgressService) (inspectors : list (option Inspector))
    (streams : list activeExtProc) (rec : boundedResponseRecorder) : egress (Answer + Header * string) :=
  v ← inspect_responses (rec_code rec) streams (rec_header rec) (rec_body rec);
  match v with
  | inl a => mret (inl a)
  | inr (h, body) =>
      if rec_overflowed rec then mret (inl (refuse 502 "upstream response exceeds max_buffered_bytes" proxyStatusDenied))
      else armor_responses registered s (max_buffer inspectors) inspectors h body
  end.

(** *** The whole request *)

Definition credential_unavailable : Answer := refuse 502 "egress credential unavailable" proxyStatusConfigurationError.

(** The request with the body that the chain left. *)
Definition with_chain (r : Request) (st : Chain) : Request :=
  let h := if bool_decide (ch_Body st = "") then Header_Del (ch_Header st) "Content-Length"
           else Header_Set (ch_Header st) "Content-Length" (FormatInt (Z.of_nat (len (ch_Body st)))) in
  with_body (with_headers r h) (Some (ch_Body st)).

(** After the chain: the credential, the destination, and the response.
    [served] says that the request came through an [http.Server], where the
    proxy cuts the connection off when a response cannot be copied. *)
Definition forward_inspected (registered : string → option string) (served : bool) (s : EgressService) (ec : egressCallerContext)
    (r : Request) (inspectors : list (option Inspector)) (st : Chain) : egress Outcome :=
  auth ← resolveAuthorization s;
  match auth with
  | Err _ => close_streams (ch_Streams st);; mret (Answered credential_unavailable)
  | Ok (auth, _) =>
      let r := with_chain r st in
      if negb (ch_NeedBuffer st) then
        resp ← proxy_RoundTrip s auth ec r; close_streams (ch_Streams st);; mret (passed_on resp)
      else
        resp ← proxy_RoundTrip s auth ec (with_headers r (Header_Del (req_Header r) "Accept-Encoding"));
        let '(rec, complete) := record_response (max_buffer inspectors) resp in
        if negb complete && served then close_streams (ch_Streams st);; mret Aborted
        else
          v ← inspect_response registered s inspectors (ch_Streams st) rec;
          close_streams (ch_Streams st);; mret (to_outcome (rec_code rec) v)
  end.

Definition serveInspectedEgress (registered : string → option string) (served : bool) (s : EgressService) (r : Request) : egress Outcome :=
  match eg_inspectors (es_destination s) with
  | [] =>
      auth ← resolveAuthorization s;
      match auth with
      | Err _ => mret (Answered credential_unavailable)
      | Ok (auth, ec) => resp ← proxy_RoundTrip s auth ec r; mret (passed_on resp)
      end
  | inspectors =>
      ec ← ask CContext;
      match prepare_request inspectors r with
      | inl a => mret (Answered a)
      | inr (h, body) =>
          v ← inspect_requests registered s r ec 0 inspectors {| ch_Header := h; ch_Body := body; ch_Streams := []; ch_NeedBuffer := false |};
          match v with
          | inl a => mret (Answered a)
          | inr st => forward_inspected registered served s ec r inspectors st
          end
      end
  end.

(** The handler of the service, for a request that is not a tunnel. *)
Definition egress_handler (registered : string → option string) (served : bool) (s : EgressService) (r : Request) : egress Outcome :=
  if bool_decide (eg_mode (es_destination s) = EGRESS_MODE_TCP)
  then mret (Answered (refuse 403 "egress destination is configured for TCP tunnel mode only" proxyStatusDenied))
  else serveInspectedEgress registered served s r.
End inspect.
