(* ===== verification/EgressInspectFacts.v ===== *)
(** * What inspection guarantees

    Facts about the programs of [EgressInspect], along every trace of calls and
    replies: that the chain comes first, and what leaves the mesh. *)

From S2P Require Import Prelude GoStrings Regex Names Biscuit NaiveEngine Facts DatalogText Grants Labels HTTPGrants PolicyRules Egress Base64 Tar Token TokenModel Identity Middleware Directory Decimal Effects Http LocalAuth Callout TlsHello SafeDial EgressService EgressInspect.

Abbreviation event := (sigT ereply).

(** ** Traces *)

Lemma app_cons_split {A} (P : A → Prop) (a l1 l2 b : list A) e :
  l1 ++ e :: l2 = a ++ b → P e → Forall (λ x, ¬ P x) a → ∃ l, l1 = a ++ l ∧ b = l ++ e :: l2.
Proof.
  revert l1. induction a as [|x a IH]; intros l1 Heq He Ha; [by exists l1|].
  apply Forall_cons in Ha as [Hx Ha]. destruct l1 as [|y l1]; cbn in Heq; injection Heq as -> Heq; [done|].
  destruct (IH l1 Heq He Ha) as (l & -> & ->). by exists l.
Qed.

(** The next call of a program. *)
Tactic Notation "next_call" hyp(H) "as" simple_intropattern(p) :=
  lazymatch type of H with
  | eruns (mbind ?k (eperform _ ?c)) ?tr ?a => apply (eruns_perform (reply := ereply) c k tr a) in H as p
  | eruns (eperform _ ?c) ?tr ?a => apply (eruns_perform (reply := ereply) c ERet tr a) in H as p
  end.
Tactic Notation "answer" hyp(H) "as" simple_intropattern(p) := apply eruns_ret in H as p.

(** A call that obtains the destination's credential or reaches it. *)
Definition forwards (c : ecall) : Prop := match c with CExchange _ _ | CUpstream _ => True | _ => False end.
Definition is_forward (e : event) : Prop := forwards (projT1 e).

Section facts.
Context `{UC : UnicodeCase, UPr : UnicodePrint, UP : URLParser, AT : AddrText, JT : JSONText, AX : ArmorText, GZ : Gzip, QT : QueryText}.

(** A reply that says no. *)
Definition blocks (e : event) : Prop :=
  let '(existT c r) := e in
  match c return ereply c → Prop with
  | CArmor _ _ _ _ => λ r, ∃ status body t, r = Ok (status, body) ∧ armor_verdict status body = Ok (true, t)
  | CExtRecv _ => λ r, ∃ resp, r = Ok resp ∧ is_Some (is_immediate resp)
  | _ => λ _, False
  end r.

(** A reply that is no verdict. *)
Definition fails (e : event) : Prop :=
  let '(existT c r) := e in
  match c return ereply c → Prop with
  | CArmor _ _ _ _ => λ r, is_ok ('(status, body) ← r; armor_verdict status body) = false
  | CExtOpen _ _ | CExtSend _ _ | CExtRecv _ => λ r, is_ok r = false
  | _ => λ _, False
  end r.

Definition no_block (tr : list event) : Prop := Forall (λ e, ¬ blocks e) tr.
Definition no_failure (tr : list event) : Prop := Forall (λ e, ¬ fails e) tr.

(** ** A session's request phase *)

(** What the end of a phase says of its calls. *)
Definition phase_verdict (tr : list event) (ph : Phase) : Prop :=
  match ph_Out ph with
  | Err _ => no_block tr
  | Ok (_, None, _) => no_block tr ∧ no_failure tr
  | Ok (_, Some _, _) => True
  end.

Lemma phase_verdict_app tr1 tr2 ph : no_block tr1 → no_failure tr1 → phase_verdict tr2 ph → phase_verdict (tr1 ++ tr2) ph.
Proof.
  intros H1 H2. unfold phase_verdict, no_block, no_failure. destruct (ph_Out ph) as [[[? [?|]] ?]|]; rewrite ?Forall_app; tauto.
Qed.

Lemma phase_step_verdict cfg sess want m mode h body k tr ph :
  (∀ mode h body tr ph, eruns (k mode h body) tr ph → phase_verdict tr ph) →
  eruns (phase_step cfg sess true want m mode h body k) tr ph → phase_verdict tr ph.
Proof.
  intros Hk Hr. unfold phase_step, exchange_message in Hr. apply eruns_bind in Hr as (tr1 & tr2 & a & -> & Hx & Hr).
  next_call Hx as (sent & tr1' & -> & Hx).
  destruct sent as [[]|e]; [|apply eruns_ret in Hx as [-> <-]].
  - next_call Hx as (resp & ? & -> & [-> <-]%eruns_ret). destruct resp as [resp|e].
    + apply eruns_bind in Hr as (? & tr3 & ? & -> & [-> <-]%eruns_ret & Hr).
      destruct (is_immediate resp) as [imm|] eqn:Ei.
      * apply eruns_ret in Hr as [-> <-]. done.
      * destruct (apply_common _ h body) as [h' body']. apply phase_verdict_app; [| |by eapply Hk].
        -- apply Forall_cons. split; [intros []|]. apply Forall_singleton. intros (resp' & [= <-] & [? Hi]). by rewrite Ei in Hi.
        -- apply Forall_cons. split; [by intros ?|]. apply Forall_singleton. by intros ?.
    + apply eruns_bind in Hr as (tr2' & tr3 & ? & -> & Hc & Hr). cbv beta iota delta [close_on_error] in Hc. next_call Hc as (u & ? & -> & [-> <-]%eruns_ret).
      apply eruns_ret in Hr as [-> <-]. unfold phase_verdict, no_block. cbn [ph_Out]. rewrite !Forall_app, !Forall_cons, !Forall_nil.
      split_and!; first [done|by intros []|by intros (? & ? & ?)].
  - apply eruns_bind in Hr as (tr2' & tr3 & ? & -> & Hc & Hr). cbv beta iota delta [close_on_error] in Hc. next_call Hc as (u & ? & -> & [-> <-]%eruns_ret).
    apply eruns_ret in Hr as [-> <-]. unfold phase_verdict, no_block. cbn [ph_Out]. rewrite !Forall_app, !Forall_cons, !Forall_nil.
    split_and!; first [done|by intros []].
Qed.

Lemma RunRequestPhase_verdict sess r cfg name body attrs tr ph :
  eruns (RunRequestPhase sess r cfg name body attrs) tr ph →
  phase_verdict tr ph ∧ ∃ o, existT (CExtOpen sess cfg) o ∈ tr.
Proof.
  unfold RunRequestPhase. intros Hr. next_call Hr as (o & tr' & -> & Hr). split; [|exists o; by left].
  change (existT (CExtOpen sess cfg) o :: tr') with ([existT (CExtOpen sess cfg) o] ++ tr').
  destruct o as [[]|e].
  - apply phase_verdict_app; [apply Forall_singleton; by intros ?..|].
    set (body_phase := λ mode h body, _) in Hr.
    assert (∀ mode h body tr ph, eruns (body_phase mode h body) tr ph → phase_verdict tr ph) as Hb.
    { intros mode h body0 tr0 ph0. unfold body_phase. clear Hr. destruct (_ && _).
      - apply phase_step_verdict. intros ? ? ? ? ? [-> <-]%eruns_ret. by split; apply Forall_nil.
      - intros [-> <-]%eruns_ret. by split; apply Forall_nil. }
    destruct (negb _); [by eapply phase_step_verdict|by eapply Hb].
  - apply eruns_ret in Hr as [-> <-]. apply Forall_singleton. by intros [].
Qed.

(** ** Where the credential is not asked for *)

(** What a processor is shown of the headers: the request line, and headers that
    are not protected. *)
Definition clean_message (m : ProcessingRequest) : Prop :=
  match m with
  | PRequestHeaders _ hs _ =>
      ∀ n v, (n, v) ∈ hs → n ∈ [":method"; ":path"; ":authority"; ":scheme"] ∨ ∃ k, n = ToLower k ∧ IsProtectedEgressHeader k = false
  | _ => True
  end.
Definition clean (c : ecall) : Prop := match c with CExtSend _ m => clean_message m | _ => True end.

Definition quiet (c : ecall) : Prop := ¬ forwards c ∧ clean c.

Lemma request_headers_clean r name attrs eos : clean_message (PRequestHeaders attrs (HTTPRequestToProtoHeaders r name) eos).
Proof.
  intros n v. unfold HTTPRequestToProtoHeaders. rewrite elem_of_app. intros [Hin|Hin].
  - left. apply (list_elem_of_fmap_2 fst) in Hin. exact Hin.
  - right. apply list_elem_of_fmap in Hin as ([k vs] & Heq & [Hp _]%list_elem_of_filter).
    unfold proto_header in Heq. injection Heq as -> _. by exists k.
Qed.

Ltac quiet_step :=
  lazymatch goal with
  | |- ecalls _ (mret _) => exact I
  | |- ecalls _ (mbind _ _) => apply ecalls_bind; [|intros ?]
  | |- ecalls _ (eperform _ _) => apply ecalls_perform; split; [intros []|first [done|idtac]]
  | |- ecalls _ (match ?x with _ => _ end) => destruct x
  | |- ecalls _ (let '(_, _) := ?x in _) => destruct x
  end.
Ltac quiet := repeat quiet_step.

Lemma close_streams_quiet streams : ecalls quiet (close_streams streams).
Proof. induction streams; cbn [close_streams]; quiet. done. Qed.

Lemma inspectModelArmor_quiet registered s cfg method field body : ecalls quiet (inspectModelArmor registered s cfg method field body).
Proof. unfold inspectModelArmor, callModelArmorAPI, resolveModelArmorEndpoint. cbv zeta. quiet. Qed.

Lemma phase_step_quiet cfg sess closing want m mode h body k :
  clean_message m → (∀ mode h body, ecalls quiet (k mode h body)) → ecalls quiet (phase_step cfg sess closing want m mode h body k).
Proof. intros Hm Hk. unfold phase_step, exchange_message, close_on_error. quiet. apply Hk. Qed.

Lemma RunRequestPhase_quiet sess r cfg name body attrs : ecalls quiet (RunRequestPhase sess r cfg name body attrs).
Proof.
  unfold RunRequestPhase. cbv zeta. quiet; (apply phase_step_quiet; [first [done|apply request_headers_clean]|intros]); quiet.
  apply phase_step_quiet; [done|intros; quiet].
Qed.

Lemma RunResponsePhase_quiet sess cfg mode status h body : ecalls quiet (RunResponsePhase sess cfg mode status h body).
Proof.
  unfold RunResponsePhase. cbv zeta. quiet; (apply phase_step_quiet; [done|intros]); quiet. apply phase_step_quiet; [done|intros; quiet].
Qed.

Lemma inspect_request_quiet registered s r ec k ins st : ecalls quiet (inspect_request registered s r ec k ins st).
Proof.
  unfold inspect_request, inspectModelArmorRequest. cbv zeta. quiet.
  all: first [apply inspectModelArmor_quiet|apply RunRequestPhase_quiet].
Qed.

Lemma inspect_requests_quiet registered s r ec k inspectors st : ecalls quiet (inspect_requests registered s r ec k inspectors st).
Proof.
  revert k st. induction inspectors as [|ins inspectors IH]; intros k st; cbn [inspect_requests]; quiet;
    [apply inspect_request_quiet|apply close_streams_quiet|apply IH].
Qed.

Lemma inspect_response_quiet registered s inspectors streams rec : ecalls quiet (inspect_response registered s inspectors streams rec).
Proof.
  unfold inspect_response. quiet.
  - generalize (rec_header rec), (rec_body rec). induction streams as [|a streams IH]; intros h body; cbn [inspect_responses]; quiet;
      [apply RunResponsePhase_quiet|apply IH|apply IH].
  - lazymatch goal with |- ecalls _ (armor_responses _ _ ?m _ ?h ?b) => generalize m, h, b end.
    induction inspectors as [|ins inspectors IH]; intros m h body; cbn [armor_responses];
      unfold inspectModelArmorResponse; quiet; try apply IH. apply inspectModelArmor_quiet.
Qed.

(** ** One inspector *)

Lemma endpoint_silent registered s template tr e :
  eruns (resolveModelArmorEndpoint registered s template) tr e → no_block tr ∧ no_failure tr.
Proof.
  assert (no_block [] ∧ no_failure []) as Hnil by (by split; apply Forall_nil).
  unfold resolveModelArmorEndpoint. cbv zeta. case_bool_decide; [by intros [-> _]%eruns_ret|].
  destruct (_ || _); [by intros [-> _]%eruns_ret|]. destruct (registered _) as [target|]; [|by intros [-> _]%eruns_ret].
  intros Hr. next_call Hr as (a & ? & -> & [-> _]%eruns_ret). split; apply Forall_singleton; by intros [].
Qed.

Definition asked (field text : string) (tr : list event) : Prop :=
  ∃ url auth r, existT (CArmor url auth field text) r ∈ tr.

Lemma inspectModelArmor_verdict registered s cfg method field body tr body' v :
  eruns (inspectModelArmor registered s cfg method field body) tr (body', v) →
  match v with
  | Ok true => True
  | Ok false => no_block tr ∧ no_failure tr ∧ (body ≠ "" → extractInspectableText body ≠ "" → asked field (extractInspectableText body) tr)
  | Err _ => no_block tr
  end.
Proof.
  unfold inspectModelArmor. cbv zeta. destruct (bool_decide (body = "") || _) eqn:Ee.
  - intros [-> [= <- <-]]%eruns_ret. rewrite orb_true_iff, !bool_decide_eq_true in Ee. split_and!; [by apply Forall_nil..|]. by destruct Ee.
  - intros (tr1 & tr2 & verdict & -> & Hc & [-> Hv]%eruns_ret)%eruns_bind. rewrite List.app_nil_r.
    unfold callModelArmorAPI in Hc. apply eruns_bind in Hc as (tr3 & tr4 & e & -> & [Hb Hf]%endpoint_silent & Hc).
    destruct e as [[endpoint auth]|err].
    2: { apply eruns_ret in Hc as [-> <-]. simplify_eq. by rewrite List.app_nil_r. }
    next_call Hc as (r & ? & -> & [-> Hr]%eruns_ret).
    destruct verdict as [[[] replacement]|err]; [by simplify_eq| |].
    + assert (v = Ok false ∨ ∃ e, v = Err e) as Hcase.
      { destruct (_ && _) in Hv; [destruct (replaceInspectableText _ _ _)|]; simplify_eq; eauto. }
      assert (¬ blocks (existT (CArmor (endpoint +:+ ":" +:+ method) auth field (extractInspectableText body)) r)) as Hnb.
      { intros (status & rb & t & -> & Ht). cbn in Hr. congruence. }
      destruct Hcase as [->|[e ->]]; [|by apply Forall_app; split; [|apply Forall_singleton]]. split_and!.
      * by apply Forall_app; split; [|apply Forall_singleton].
      * apply Forall_app; split; [done|]. apply Forall_singleton. cbn. by rewrite Hr.
      * intros _ _. do 3 eexists. apply elem_of_app. right. by left.
    + simplify_eq. apply Forall_app. split; [done|]. apply Forall_singleton. intros (status & rb & t & -> & Ht). cbn in Hr. congruence.
Qed.

(** The chain let a request pass at its [k]-th inspector, with the calls [seg]. *)
Definition cleared (k : nat) (ins : option Inspector) (st : Chain) (seg : list event) : Prop :=
  match ins with
  | Some (ModelArmor (Some ma)) =>
      no_block seg ∧
      (ma_fail_open ma = false → no_failure seg ∧
         (ch_Body st ≠ "" → extractInspectableText (ch_Body st) ≠ "" → asked "userPromptData" (extractInspectableText (ch_Body st)) seg))
  | Some (ExtProcKind (Some ep)) =>
      no_block seg ∧ (∃ o, existT (CExtOpen k ep) o ∈ seg) ∧ (ep_failure_mode_allow ep = false → no_failure seg)
  | _ => seg = []
  end.

Lemma inspect_request_cleared registered s r ec k ins st seg st' :
  eruns (inspect_request registered s r ec k ins st) seg (inr st') → cleared k ins st seg.
Proof.
  unfold inspect_request, cleared. destruct ins as [[[ma|]|[ep|]|]|]; [| | | | |]; try (by intros [-> _]%eruns_ret).
  - intros (tr1 & tr2 & [body v] & -> & Hv%inspectModelArmor_verdict & [-> Hr]%eruns_ret)%eruns_bind. rewrite List.app_nil_r.
    destruct v as [[]|e]; [done|naive_solver|]. split; [done|]. intros Hfo. by rewrite Hfo in Hr.
  - cbv zeta. intros (tr1 & tr2 & ph & -> & [Hv [o Ho]]%RunRequestPhase_verdict & Hr)%eruns_bind. unfold phase_verdict in Hv.
    assert (∃ o, existT (CExtOpen k ep) o ∈ tr1 ++ tr2) as Ho' by (exists o; apply elem_of_app; by left).
    assert (no_block [existT (CExtClose k) ()] ∧ no_failure [existT (CExtClose k) ()]) as [Hc1 Hc2]
      by (split; apply Forall_singleton; by intros []).
    destruct (ph_Out ph) as [[[mode [imm|]] body]|e].
    + next_call Hr as (? & ? & -> & [_ [=]]%eruns_ret).
    + destruct Hv as [Hb Hf]. destruct (NeedsResponseBuffer mode).
      * apply eruns_ret in Hr as [-> _]. rewrite List.app_nil_r in *. auto.
      * next_call Hr as ([] & ? & -> & [-> _]%eruns_ret). split_and!; [by apply Forall_app|done|]. intros _. by apply Forall_app.
    + apply eruns_ret in Hr as [-> Hr]. rewrite List.app_nil_r in *. split_and!; [done..|]. intros Ha. by rewrite Ha in Hr.
Qed.

(** The whole chain let it pass, with the calls [segs] of the inspectors in
    turn. *)
Fixpoint chain_cleared (registered : string → option string) (s : EgressService) (r : Request) (ec : egressCallerContext)
    (k : nat) (inspectors : list (option Inspector)) (st : Chain) (segs : list (list event)) (st' : Chain) : Prop :=
  match inspectors, segs with
  | [], [] => st = st'
  | ins :: inspectors, seg :: segs =>
      cleared k ins st seg ∧
      ∃ st1, eruns (inspect_request registered s r ec k ins st) seg (inr st1) ∧ chain_cleared registered s r ec (S k) inspectors st1 segs st'
  | _, _ => False
  end.

Lemma inspect_requests_cleared registered s r ec k inspectors st tr st' :
  eruns (inspect_requests registered s r ec k inspectors st) tr (inr st') →
  ∃ segs, tr = mjoin segs ∧ chain_cleared registered s r ec k inspectors st segs st'.
Proof.
  revert k st tr. induction inspectors as [|ins inspectors IH]; intros k st tr; cbn [inspect_requests].
  - intros [-> [= <-]]%eruns_ret. by exists [].
  - intros (seg & tr2 & [a|st1] & -> & Hi & Hr)%eruns_bind.
    + apply eruns_bind in Hr as (? & ? & ? & -> & _ & [_ [=]]%eruns_ret).
    + apply IH in Hr as (segs & -> & Hs). exists (seg :: segs). split; [done|]. split; [by eapply inspect_request_cleared|]. by exists st1.
Qed.

(** ** The credential and the destination *)

Lemma resolveAuthorization_calls s tr a :
  eruns (resolveAuthorization s) tr a →
  ∃ ec, (es_exchanger s = None ∧ tr = [existT CContext ec] ∧ a = Ok ("", ec)) ∨
        ∃ r, tr = [existT CContext ec; existT (CExchange (ec_principal ec) (ec_rules ec)) r] ∧
             a = (tok ← r; Ok (if bool_decide (tok = "") then "" else rendered s tok, ec)).
Proof.
  unfold resolveAuthorization. intros Hr. next_call Hr as (ec & tr' & -> & Hr). exists ec. destruct (es_exchanger s).
  - right. next_call Hr as (r & ? & -> & Hr). exists r. destruct r; by apply eruns_ret in Hr as [-> <-].
  - left. by apply eruns_ret in Hr as [-> <-].
Qed.

Lemma proxy_RoundTrip_calls s auth ec r tr resp :
  eruns (proxy_RoundTrip s auth ec r) tr resp → (tr = [] ∧ resp = None) ∨ tr = [existT (CUpstream (Rewrite s auth ec r)) resp].
Proof.
  unfold proxy_RoundTrip. destruct (ascii_IsPrint _); intros Hr; [right|left].
  - next_call Hr as (x & ? & -> & [-> ->]%eruns_ret). done.
  - by apply eruns_ret in Hr as [-> <-].
Qed.

Lemma quiet_trace {A} (p : egress A) tr a : ecalls quiet p → eruns p tr a → Forall (λ e, ¬ is_forward e) tr.
Proof. intros Hq Hr. apply Forall_forall. intros [c r] Hin. exact (proj1 (ecalls_eruns quiet p tr a Hq Hr c r Hin)). Qed.

(** The calls after the credential: requests to the destination, with the body
    [body] and what [ec] says of the caller, and then neither. *)
Definition sent_after (s : EgressService) (ec : egressCallerContext) (a : result (string * egressCallerContext)) (body : option string) (e : event) : Prop :=
  ∃ auth ec' r resp, a = Ok (auth, ec') ∧ e = existT (CUpstream (Rewrite s auth ec r)) resp ∧ req_Body r = body.
Definition calls_after (s : EgressService) (ec : egressCallerContext) (a : result (string * egressCallerContext)) (body : option string)
    (C : list event) : Prop :=
  ∃ up tail, C = up ++ tail ∧ Forall (sent_after s ec a body) up ∧ Forall (λ e, ¬ is_forward e) tail.

Lemma quiet_after s ec a body C : Forall (λ e, ¬ is_forward e) C → calls_after s ec a body C.
Proof. intros HC. exists [], C. split_and!; [done|by apply Forall_nil|done]. Qed.

Lemma proxied_calls s auth ec r tr resp tail ec' : eruns (proxy_RoundTrip s auth ec r) tr resp →
  Forall (λ e, ¬ is_forward e) tail → calls_after s ec (Ok (auth, ec')) (req_Body r) (tr ++ tail).
Proof.
  intros [[-> _]| ->]%proxy_RoundTrip_calls Ht; [by apply quiet_after|]. eexists _, tail. split_and!; [done| |done].
  apply Forall_singleton. by exists auth, ec', r, resp.
Qed.

Lemma close_answer_quiet {A} streams (x : A) tr y : eruns (close_streams streams;; mret x) tr y → Forall (λ e, ¬ is_forward e) tr.
Proof. apply quiet_trace. quiet. apply close_streams_quiet. Qed.

Lemma forward_inspected_calls registered served s ec r inspectors st tr out :
  eruns (forward_inspected registered served s ec r inspectors st) tr out →
  ∃ R C a, tr = R ++ C ∧ eruns (resolveAuthorization s) R a ∧ calls_after s ec a (Some (ch_Body st)) C.
Proof.
  unfold forward_inspected. intros (R & C & a & -> & HR & Hr)%eruns_bind. exists R, C, a. split_and!; [done..|].
  destruct a as [[auth ec']|err]; [|by eapply quiet_after, close_answer_quiet].
  destruct (negb (ch_NeedBuffer st)).
  - apply eruns_bind in Hr as (tr1 & tr2 & resp & -> & Hp & Hr%close_answer_quiet). exact (proxied_calls _ _ _ _ _ _ _ ec' Hp Hr).
  - apply eruns_bind in Hr as (tr1 & tr2 & resp & -> & Hp & Hr). apply (proxied_calls _ _ _ _ _ _ _ ec' Hp).
    destruct (record_response _ resp) as [rec complete]. eapply quiet_trace, Hr.
    quiet; first [apply close_streams_quiet|apply inspect_response_quiet].
Qed.

(** The calls of a request, with and without inspectors. *)
Lemma serve_calls registered served s r tr out : eruns (serveInspectedEgress registered served s r) tr out →
  (∃ ec R C a, tr = R ++ C ∧ eruns (resolveAuthorization s) R a ∧ existT CContext ec ∈ tr ∧ eg_inspectors (es_destination s) = [] ∧
     calls_after s ec a (req_Body r) C) ∨
  (∃ ec tr', tr = existT CContext ec :: tr' ∧ eg_inspectors (es_destination s) ≠ [] ∧
     (Forall (λ e, ¬ is_forward e) tr' ∨
      ∃ h body segs st R C a, prepare_request (eg_inspectors (es_destination s)) r = inr (h, body) ∧
        chain_cleared registered s r ec 0 (eg_inspectors (es_destination s))
          {| ch_Header := h; ch_Body := body; ch_Streams := []; ch_NeedBuffer := false |} segs st ∧
        Forall (λ e, ¬ is_forward e) (mjoin segs) ∧
        tr' = mjoin segs ++ R ++ C ∧ eruns (resolveAuthorization s) R a ∧ calls_after s ec a (Some (ch_Body st)) C)).
Proof.
  unfold serveInspectedEgress. destruct (eg_inspectors (es_destination s)) as [|ins inspectors] eqn:Ei.
  - intros (R & C & a & -> & HR & Hr)%eruns_bind. left.
    assert (∃ ec, existT CContext ec ∈ R ∧ ∀ auth ec', a = Ok (auth, ec') → ec = ec') as (ec & Hec & Hsame).
    { destruct (resolveAuthorization_calls _ _ _ HR) as (ec & [(_ & -> & ->)|(x & -> & ->)]); exists ec; (split; [by left|]).
      - by intros ? ? [= _ ->].
      - destruct x; [|done]. by intros ? ? [= _ ->]. }
    exists ec, R, C, a. split_and!; [done..|apply elem_of_app; by left|done|]. destruct a as [[auth ec']|err].
    + apply eruns_bind in Hr as (tr1 & tr2 & resp & -> & Hp & [-> _]%eruns_ret). rewrite (Hsame _ _ eq_refl) in *.
      by apply (proxied_calls _ _ _ _ _ _ _ _ Hp), Forall_nil.
    + apply eruns_ret in Hr as [-> _]. by apply quiet_after, Forall_nil.
  - intros Hr. right. next_call Hr as (ec & tr' & -> & Hr). exists ec, tr'. split_and!; [done..|].
    destruct (prepare_request _ r) as [ans|[h body]]; [left; by apply eruns_ret in Hr as [-> _]|].
    apply eruns_bind in Hr as (A & B & v & -> & HA & Hr).
    pose proof (quiet_trace _ _ _ (inspect_requests_quiet _ _ _ _ _ _ _) HA) as Hq.
    destruct v as [ans|st]; [left; apply eruns_ret in Hr as [-> _]; by rewrite List.app_nil_r|]. right.
    apply inspect_requests_cleared in HA as (segs & -> & Hs).
    apply forward_inspected_calls in Hr as (R & C & a & -> & HR & HC). by exists h, body, segs, st, R, C, a.
Qed.

(** The first call after the caller's context is the exchange or the request. *)
Lemma first_forward s ec body R C a l e tr2 :
  eruns (resolveAuthorization s) R a → calls_after s ec a body C → R ++ C = l ++ e :: tr2 → is_forward e → Forall (λ x, ¬ is_forward x) l →
  ∃ ec', l = [existT CContext ec'].
Proof.
  intros HR (up & tail & -> & Hup & Htail) Hl He Hfirst.
  destruct (resolveAuthorization_calls _ _ _ HR) as (ec' & [(_ & -> & _)|(x & -> & _)]); exists ec'.
  - destruct l as [|y l]; cbn in Hl; injection Hl as <- Hl; [done|]. apply Forall_cons in Hfirst as [_ Hfirst].
    destruct up as [|z up]; cbn in Hl.
    + rewrite Hl, Forall_app, Forall_cons in Htail. tauto.
    + destruct l as [|y l]; [done|]. cbn in Hl. injection Hl as <- _. apply Forall_cons in Hup as [(? & ? & ? & ? & _ & -> & _) _].
      apply Forall_cons in Hfirst as [Hz _]. by destruct Hz.
  - destruct l as [|y [|z l]]; cbn in Hl; injection Hl as <- Hl; [done|done|]. subst z.
    apply Forall_cons in Hfirst as [_ [Hz _]%Forall_cons]. by destruct Hz.
Qed.

(** Which requests are sent. *)
Lemma upstream_after s ec body R C a u resp :
  eruns (resolveAuthorization s) R a → calls_after s ec a body C → existT (CUpstream u) resp ∈ R ++ C →
  ∃ auth ec' r, a = Ok (auth, ec') ∧ u = Rewrite s auth ec r ∧ req_Body r = body.
Proof.
  intros HR (up & tail & -> & Hup & Htail) Hin. apply elem_of_app in Hin as [Hin|[Hin|Hin]%elem_of_app].
  - exfalso. destruct (resolveAuthorization_calls _ _ _ HR) as (ec' & [(_ & -> & _)|(x & -> & _)]).
    + apply list_elem_of_singleton in Hin. by apply (f_equal (@projT1 _ _)) in Hin.
    + apply elem_of_cons in Hin as [Hin|Hin%list_elem_of_singleton]; by apply (f_equal (@projT1 _ _)) in Hin.
  - rewrite Forall_forall in Hup. destruct (Hup _ Hin) as (auth & ec' & r & x & -> & Heq & Hb). exists auth, ec', r.
    apply (f_equal (@projT1 _ _)) in Heq. cbn in Heq. injection Heq as ->. done.
  - exfalso. rewrite Forall_forall in Htail. by apply (Htail _ Hin).
Qed.

(** C4: An inspected request reaches the destination, or obtains its credential,
    only after the whole chain has let it pass: before the first such call the
    node has made, in order and with nothing else between them, the calls of
    each inspector, none of which said no; an inspector that fails closed gave a
    verdict on every call it got, every processor was called, and Model Armor was
    given the text of the body as the inspectors before it left it.  What is then
    sent is the body that the chain left. *)
Theorem inspected_first registered served s r tr out tr1 e tr2 :
  eg_inspectors (es_destination s) ≠ [] →
  eruns (serveInspectedEgress registered served s r) tr out →
  tr = tr1 ++ e :: tr2 → is_forward e → Forall (λ x, ¬ is_forward x) tr1 →
  ∃ ec ec' h body segs st,
    prepare_request (eg_inspectors (es_destination s)) r = inr (h, body) ∧
    chain_cleared registered s r ec 0 (eg_inspectors (es_destination s))
      {| ch_Header := h; ch_Body := body; ch_Streams := []; ch_NeedBuffer := false |} segs st ∧
    tr1 = [existT CContext ec] ++ mjoin segs ++ [existT CContext ec'] ∧
    (∀ u resp, existT (CUpstream u) resp ∈ tr → req_Body (ur_Request u) = Some (ch_Body st)).
Proof.
  intros Hne Hr -> He Hfirst. apply serve_calls in Hr as [(? & ? & ? & ? & _ & _ & _ & ? & _)|(ec & tr' & Htr & _ & Hcase)]; [done|].
  destruct tr1 as [|x tr1]; [by injection Htr as -> _|]. cbn in Htr. injection Htr as -> Htr.
  apply Forall_cons in Hfirst as [_ Hfirst].
  destruct Hcase as [Hq|(h & body & segs & st & R & C & a & Hp & Hs & Hq & -> & HR & HC)].
  { rewrite <-Htr, Forall_app, Forall_cons in Hq. tauto. }
  destruct (app_cons_split is_forward _ _ _ _ _ Htr He Hq) as (l & -> & Hl). apply Forall_app in Hfirst as [_ Hfirst].
  destruct (first_forward _ _ _ _ _ _ _ _ _ HR HC Hl He Hfirst) as [ec' ->].
  exists ec, ec', h, body, segs, st. split_and!; [done..|]. intros u resp Hin.
  cbn in Hin. rewrite <-(assoc_L (++)) in Hin. change ([existT CContext ec'] ++ e :: tr2) with ([existT CContext ec'] ++ (e :: tr2)) in Hin.
  rewrite <-Hl in Hin. apply elem_of_cons in Hin as [Hin|[Hin|Hin]%elem_of_app].
  - by apply (f_equal (@projT1 _ _)) in Hin.
  - exfalso. rewrite Forall_forall in Hq. by apply (Hq _ Hin).
  - destruct (upstream_after _ _ _ _ _ _ _ _ HR HC Hin) as (auth & ec0 & r0 & _ & -> & Hb). exact Hb.
Qed.

(** ** What the destination sees *)

Lemma Header_Set_lookup h k v name vs : Header_Set h k v !! name = Some vs → (name = CanonicalHeaderKey k ∧ vs = [v]) ∨ h !! name = Some vs.
Proof. unfold Header_Set. rewrite lookup_insert_Some. naive_solver. Qed.

Lemma Header_Set_other h k v name : name ≠ CanonicalHeaderKey k → Header_Set h k v !! name = h !! name.
Proof. intros Hne. unfold Header_Set. by rewrite lookup_insert_ne. Qed.

(** What a header of the mesh may say of the caller. *)
Definition context_header (ec : egressCallerContext) (name : string) (vs : list string) : Prop :=
  (name = HeaderMeshPrincipal ∧ vs = [ec_principal ec]) ∨ (name = HeaderMeshRoles ∧ vs = [Join (ec_roles ec) ","]) ∨
  (name = HeaderMeshTask ∧ vs = [ec_task ec]).

Lemma forward_context_lookup ec h name vs : forward_context ec h !! name = Some vs → context_header ec name vs ∨ h !! name = Some vs.
Proof.
  unfold forward_context, context_header. intros Hl.
  assert (∀ (b : bool) (h0 : Header) k v, (if b then h0 else Header_Set h0 k v) !! name = Some vs → (name = CanonicalHeaderKey k ∧ vs = [v]) ∨ h0 !! name = Some vs)
    as Hset by (intros [] ???; [by right|apply Header_Set_lookup]).
  apply Hset in Hl as [[-> ->]|Hl]; [left; by right; right|].
  assert ((name = HeaderMeshRoles ∧ vs = [Join (ec_roles ec) ","]) ∨
          (if bool_decide (ec_principal ec = "") then h else Header_Set h HeaderMeshPrincipal (ec_principal ec)) !! name = Some vs) as [Hr|Hl'].
  { destruct (ec_roles ec) as [|r rs] eqn:Er; [by right|]. by apply Header_Set_lookup in Hl. }
  - left. by right; left.
  - apply Hset in Hl' as [[-> ->]|Hl']; [left; by left|by right].
Qed.

Lemma rewrite_headers_lookup s auth ec h name vs :
  default_user_agent (rewrite_headers s auth ec h) !! name = Some vs →
  caller_header name = false ∨ (name = "User-Agent" ∧ vs = [""]) ∨ (name = "Authorization" ∧ auth ≠ "" ∧ vs = [auth]) ∨
  (eg_forward_context (es_destination s) = true ∧ context_header ec name vs).
Proof.
  intros Hl. assert ((name = "User-Agent" ∧ vs = [""]) ∨ rewrite_headers s auth ec h !! name = Some vs) as [?|Hr].
  { unfold default_user_agent in Hl. destruct (_ !! "User-Agent"); [by right|]. by apply Header_Set_lookup in Hl. }
  { by right; left. }
  clear Hl. unfold rewrite_headers in Hr.
  assert (context_header ec name vs ∧ eg_forward_context (es_destination s) = true ∨
          (if bool_decide (auth = "") then Header_drop caller_header h else Header_Set (Header_drop caller_header h) "Authorization" auth) !! name = Some vs)
    as [[? ?]|Ha].
  { destruct (eg_forward_context _); [|by right]. apply forward_context_lookup in Hr as [?|?]; [by left|by right]. }
  { by right; right; right. }
  case_bool_decide as Hauth; [|apply Header_Set_lookup in Ha as [[-> ->]|Ha]; [by right; right; left|]];
    left; by apply Header_drop_lookup in Ha as [_ Ha].
Qed.

Lemma rewrite_headers_auth s auth ec h : auth ≠ "" → default_user_agent (rewrite_headers s auth ec h) !! "Authorization" = Some [auth].
Proof.
  intros Ha. assert (rewrite_headers s auth ec h !! "Authorization" = Some [auth]) as Hr.
  { unfold rewrite_headers. rewrite bool_decide_false by done.
    assert (Header_Set (Header_drop caller_header h) "Authorization" auth !! "Authorization" = Some [auth]) as Hs by apply lookup_insert_eq.
    destruct (eg_forward_context _); [|done]. unfold forward_context.
    assert (∀ (b : bool) (h0 : Header) k v, "Authorization" ≠ CanonicalHeaderKey k → (if b then h0 else Header_Set h0 k v) !! "Authorization" = h0 !! "Authorization")
      as Hset by (intros []; [done|]; intros; by apply Header_Set_other).
    rewrite Hset by done. destruct (ec_roles ec) as [|x xs]; [|rewrite (Header_Set_other _ HeaderMeshRoles) by done]; by rewrite Hset by done. }
  unfold default_user_agent. destruct (_ !! "User-Agent"); [done|]. by rewrite Header_Set_other.
Qed.

Lemma rendered_nonempty s tok : rendered s tok ≠ "".
Proof.
  unfold rendered, authorizationFor. destruct (es_isStaticSecret s); [|done]. destruct (Cut tok ":") as [[user pass] []]; [|done]. by case_bool_decide.
Qed.

(** A credential is what was exchanged. *)
Lemma resolveAuthorization_exchanged s R auth ec : eruns (resolveAuthorization s) R (Ok (auth, ec)) →
  (es_exchanger s = None ∧ auth = "") ∨
  ∃ tok, existT (CExchange (ec_principal ec) (ec_rules ec)) (Ok tok) ∈ R ∧ auth = (if bool_decide (tok = "") then "" else rendered s tok).
Proof.
  intros (ec' & [(? & _ & [= -> ->])|(x & -> & Hx)])%resolveAuthorization_calls; [by left|]. right. destruct x as [tok|]; [|done].
  injection Hx as -> ->. exists tok. split; [|done]. right. by left.
Qed.

(** Where the request comes from, with its credential. *)
Lemma upstream_from registered served s r tr out u resp :
  eruns (serveInspectedEgress registered served s r) tr out → existT (CUpstream u) resp ∈ tr →
  ∃ ec R auth ec' r', existT CContext ec ∈ tr ∧ (∀ x, x ∈ R → x ∈ tr) ∧ eruns (resolveAuthorization s) R (Ok (auth, ec')) ∧ u = Rewrite s auth ec r'.
Proof.
  intros [(ec & R & C & a & -> & HR & Hec & _ & HC)|(ec & tr' & -> & _ & Hcase)]%serve_calls Hin.
  - destruct (upstream_after _ _ _ _ _ _ _ _ HR HC Hin) as (auth & ec' & r' & -> & -> & _). exists ec, R, auth, ec', r'.
    split_and!; [done| |done..]. intros x Hx. apply elem_of_app. by left.
  - apply elem_of_cons in Hin as [Hin|Hin]; [by apply (f_equal (@projT1 _ _)) in Hin|].
    destruct Hcase as [Hq|(h & body & segs & st & R & C & a & _ & _ & Hq & -> & HR & HC)].
    { rewrite Forall_forall in Hq. by destruct (Hq _ Hin). }
    apply elem_of_app in Hin as [Hin|Hin]; [rewrite Forall_forall in Hq; by destruct (Hq _ Hin)|].
    destruct (upstream_after _ _ _ _ _ _ _ _ HR HC Hin) as (auth & ec' & r' & -> & -> & _). exists ec, R, auth, ec', r'.
    split_and!; [by left| |done..]. intros x Hx. right. rewrite !elem_of_app. auto.
Qed.

(** No processor is shown the caller's or the destination's credential. *)
Lemma processors_clean registered served s r tr out sess m sent :
  eruns (serveInspectedEgress registered served s r) tr out → existT (CExtSend sess m) sent ∈ tr → clean_message m.
Proof.
  intros Hr Hin. refine (ecalls_eruns clean _ _ _ _ Hr _ _ Hin). clear.
  assert (∀ {A} (p : egress A), ecalls quiet p → ecalls clean p) as Hm by (intros A p; apply ecalls_mono; by intros c [_ ?]).
  assert (∀ auth ec r, ecalls clean (proxy_RoundTrip s auth ec r)) as Hp by (intros; unfold proxy_RoundTrip; destruct (ascii_IsPrint _); by repeat split).
  assert (ecalls clean (resolveAuthorization s)) as Ha.
  { unfold resolveAuthorization. apply ecalls_bind; [by repeat split|]. intros a. destruct (es_exchanger s); [|done].
    apply ecalls_bind; [by repeat split|]. by intros []. }
  unfold serveInspectedEgress, forward_inspected.
  repeat (first
    [ apply Ha | apply Hp | apply Hm, inspect_requests_quiet | apply Hm, close_streams_quiet | apply Hm, inspect_response_quiet
    | done | apply ecalls_bind; [|intros] | apply ecalls_perform
    | lazymatch goal with |- ecalls _ (match ?x with _ => _ end) => destruct x end ]).
Qed.
(** C12: What the destination gets is what the policy says and no more: it is sent
    to the destination's target, under the host that the policy names; its
    Authorization is the credential that was exchanged for this request and
    nothing that the caller or an inspector sent; no cookie, forwarding header or
    header of the mesh goes with it, but for the principal, the roles and the
    task as [extractCallerContext] gives them, and those only when the policy says
    so.  A processor is shown none of the protected headers. *)
Theorem egress_headers registered served s r tr out :
  eruns (serveInspectedEgress registered served s r) tr out →
  (∀ sess m sent, existT (CExtSend sess m) sent ∈ tr → clean_message m) ∧
  ∀ u resp, existT (CUpstream u) resp ∈ tr →
  let h := req_Header (ur_Request u) in
  ur_Target u = es_target s ∧
  req_Host (ur_Request u) = (if eg_preserve_host (es_destination s) then eg_name (es_destination s) else url_Host (es_target s)) ∧
  (es_exchanger s = None ∨
   ∃ principal rules tok, existT (CExchange principal rules) (Ok tok) ∈ tr ∧ (tok ≠ "" → h !! "Authorization" = Some [rendered s tok])) ∧
  ∀ name vs, h !! name = Some vs →
    caller_header name = false ∨ (name = "User-Agent" ∧ vs = [""]) ∨
    (name = "Authorization" ∧ ∃ principal rules tok, existT (CExchange principal rules) (Ok tok) ∈ tr ∧ vs = [rendered s tok]) ∨
    (eg_forward_context (es_destination s) = true ∧ ∃ ec, existT CContext ec ∈ tr ∧ context_header ec name vs).
Proof.
  intros Hr. split; [intros sess m sent; by apply (processors_clean registered served s r tr out)|].
  intros u resp Hin. destruct (upstream_from _ _ _ _ _ _ _ _ Hr Hin) as (ec & R & auth & ec' & r' & Hec & HR & Ha & ->).
  apply resolveAuthorization_exchanged in Ha. cbv zeta. cbn [Rewrite ur_Target ur_Request req_Host req_Header]. split_and!; [done..| |].
  - destruct Ha as [[? _]|(tok & Hx & ->)]; [by left|]. right. eexists _, _, tok. split; [by apply HR|]. intros Hne.
    rewrite bool_decide_false by done. apply rewrite_headers_auth, rendered_nonempty.
  - intros name vs [?|[?|[(-> & Hne & ->)|[Hf Hc]]]]%rewrite_headers_lookup; [by left|by right; left| |].
    + right; right; left. split; [done|]. destruct Ha as [[_ ?]|(tok & Hx & ->)]; [done|]. eexists _, _, tok. split; [by apply HR|].
      case_bool_decide; [done|done].
    + right; right; right. split; [done|]. by exists ec.
Qed.

End facts.

(** ** The recorder *)

Lemma str_take_all n s : len s ≤ n → str_take n s = s.
Proof. revert n. induction s as [|c s IH]; intros [|n] Hn; cbn in *; try done || lia. rewrite IH by lia. done. Qed.

Lemma str_take_app n s t : len s ≤ n → str_take n (s +:+ t) = s +:+ str_take (n - len s) t.
Proof.
  revert n. induction s as [|c s IH]; intros n Hn; [by rewrite Nat.sub_0_r|]. destruct n as [|n]; cbn in Hn; [lia|].
  change (String c (str_take n (s +:+ t)) = String c (s +:+ str_take (n - len s) t)). by rewrite IH by lia.
Qed.

Lemma str_take_prefix n s t : n ≤ len s → str_take n (s +:+ t) = str_take n s.
Proof.
  revert n. induction s as [|c s IH]; intros [|n] Hn; cbn in Hn; try lia; [by destruct t|done|].
  change (String c (str_take n (s +:+ t)) = String c (str_take n s)). by rewrite IH by lia.
Qed.

Definition rec_ok (r : boundedResponseRecorder) : Prop :=
  rec_wroteHeader r = true ∧ (0 < rec_maxBytes r)%Z ∧ (Z.of_nat (len (rec_body r)) ≤ rec_maxBytes r + 1)%Z.

Lemma copy_body_spec chunks r : rec_ok r →
  let limit := Z.to_nat (rec_maxBytes r + 1) in
  let all := rec_body r +:+ concat chunks in
  let '(r', complete) := copy_body r chunks in
  rec_body r' = str_take limit all ∧ rec_code r' = rec_code r ∧ rec_header r' = rec_header r ∧
  (complete = true ↔ len all ≤ limit) ∧ (complete = true → rec_overflowed r' = rec_overflowed r) ∧ (complete = false → rec_overflowed r' = true).
Proof.
  revert r. induction chunks as [|p chunks IH]; intros r (Hw & Hmax & Hlen); cbn [copy_body concat]; cbv zeta.
  - rewrite app_nil_r, str_take_all by lia. split_and!; [done..| |done|done]. split; [lia|done].
  - unfold Write_. rewrite Hw. cbv zeta. remember (rec_maxBytes r + 1 - Z.of_nat (len (rec_body r)))%Z as remaining eqn:Hrem.
    destruct (Z.ltb_spec remaining (Z.of_nat (len p))) as [Hlt|Hge].
    + cbn [set_body rec_body rec_code rec_header rec_overflowed]. split_and!; [|done|done| |done|done].
      * rewrite str_take_app by lia. replace (Z.to_nat (rec_maxBytes r + 1) - len (rec_body r)) with (Z.to_nat remaining) by lia.
        rewrite str_take_prefix by lia. destruct (Z.ltb_spec 0 remaining); [done|].
        replace (Z.to_nat remaining) with 0 by lia. destruct p; by rewrite app_nil_r.
      * split; [done|]. rewrite !len_app. lia.
    + specialize (IH (set_body r (rec_body r +:+ p) (rec_overflowed r))). cbn [set_body rec_body rec_maxBytes rec_overflowed rec_code rec_header rec_wroteHeader] in IH.
      rewrite app_assoc in IH. apply IH. unfold rec_ok. cbn. rewrite len_app. split_and!; [done|lia..].
Qed.

Lemma max_buffer_spec inspectors :
  (0 < max_buffer inspectors)%Z ∧ ∀ ep, Some (ExtProcKind (Some ep)) ∈ inspectors → (ep_max_buffered_bytes ep ≤ max_buffer inspectors)%Z.
Proof.
  unfold max_buffer. set (f := λ acc ins, _).
  assert (∀ acc, (0 < acc.1)%Z →
    let out := foldl f acc inspectors in (0 < out.1)%Z ∧ (acc.2 = true → out.2 = true ∧ (acc.1 ≤ out.1)%Z) ∧
    ∀ ep, Some (ExtProcKind (Some ep)) ∈ inspectors → (ep_max_buffered_bytes ep ≤ out.1)%Z) as Hf.
  { induction inspectors as [|ins inspectors IH]; intros acc Hacc; cbn [foldl]; cbv zeta; [by split_and!; [..|intros ? ?%elem_of_nil]|].
    assert ((0 < (f acc ins).1)%Z ∧ (acc.2 = true → (f acc ins).2 = true ∧ (acc.1 ≤ (f acc ins).1)%Z) ∧
      ∀ ep, ins = Some (ExtProcKind (Some ep)) → (0 < ep_max_buffered_bytes ep)%Z → (f acc ins).2 = true ∧ (ep_max_buffered_bytes ep ≤ (f acc ins).1)%Z)
      as (H1 & H2 & H3).
    { unfold f. destruct (GetExtProc ins) as [ep|] eqn:Eg.
      - destruct (_ && _) eqn:Ec; cbn.
        + apply andb_true_iff in Ec as [Hpos Hor]. split_and!; [lia| |].
          * intros Ha. rewrite Ha in Hor. cbn in Hor. split; [done|lia].
          * intros ep' -> _. injection Eg as ->. split; [done|lia].
        + split_and!; [done|done|]. intros ep' -> Hpos. injection Eg as ->. rewrite (proj2 (Z.ltb_lt _ _) Hpos) in Ec. cbn in Ec.
          apply orb_false_iff in Ec as [Ha%negb_false_iff Hle]. split; [done|lia].
      - split_and!; [done|done|]. intros ep -> _. done. }
    destruct (IH (f acc ins) H1) as (I1 & I2 & I3). split_and!; [done| |].
    - intros Ha. destruct (H2 Ha) as [Ha' ?]. destruct (I2 Ha'). split; [done|lia].
    - intros ep [Heq|Hin]%elem_of_cons; [|by apply I3]. destruct (Z.lt_ge_cases 0 (ep_max_buffered_bytes ep)); [|lia].
      destruct (H3 ep (eq_sym Heq)) as [Ha ?]; [done|]. destruct (I2 Ha). lia. }
  destruct (Hf (DefaultMaxBufferBytes, false)) as (? & _ & ?); [done|]. by split.
Qed.

(** Buffering a response for inspection takes bounded memory and loses
    nothing in silence: the recorder keeps the first [max_buffer + 1] bytes of
    what the destination sends, with its status and headers; it takes all of a
    response of at most that many bytes, and of a longer one it keeps those bytes,
    stops the copy and is marked as overflowed.  The limit is that of the
    largest buffer a processor asks for, or the default. *)
Theorem recorder_bounded inspectors resp :
  let limit := Z.to_nat (max_buffer inspectors + 1) in
  let '(rec, complete) := record_response (max_buffer inspectors) resp in
  match resp with
  | None => rec_body rec = "" ∧ rec_code rec = 502%Z ∧ complete = true
  | Some resp =>
      rec_body rec = str_take limit (concat (us_Chunks resp)) ∧ rec_code rec = us_Status resp ∧
      rec_header rec = removeHopByHopHeaders (us_Header resp) ∧
      (complete = true ↔ len (concat (us_Chunks resp)) ≤ limit) ∧ rec_overflowed rec = negb complete
  end ∧ (len (rec_body rec) ≤ limit)%nat ∧
  (0 < max_buffer inspectors)%Z ∧
  (∀ ep, Some (ExtProcKind (Some ep)) ∈ inspectors → (ep_max_buffered_bytes ep ≤ max_buffer inspectors)%Z).
Proof.
  cbv zeta. destruct (max_buffer_spec inspectors) as [Hmax Hall]. unfold record_response, newBoundedResponseRecorder.
  rewrite (proj2 (Z.leb_gt _ _) Hmax). destruct resp as [resp|]; [|cbn; split_and!; [done..|lia|done|done]].
  set (rec := WriteHeader _ _). assert (rec_ok rec) as Hok by (by split_and!; [|cbn; lia..]).
  pose proof (copy_body_spec (us_Chunks resp) rec Hok) as Hc. cbv zeta in Hc.
  destruct (copy_body rec (us_Chunks resp)) as [r' complete]. destruct Hc as (Hb & Hcode & Hh & Hiff & Ht & Hf).
  cbn [rec WriteHeader rec_wroteHeader rec_body rec_maxBytes rec_code rec_header rec_overflowed] in *.
  change ("" +:+ concat (us_Chunks resp)) with (concat (us_Chunks resp)) in *.
  split_and!; [done..| | |done|done].
  - destruct complete; [by apply Ht|by apply Hf].
  - rewrite Hb, len_take. lia.
Qed.

(** ** Example *)

#[local] Existing Instances ascii_case ascii_print no_addr_text.
#[local] Instance no_urls : URLParser := {| url_Parse := λ _, fail "not a URL" |}.
#[local] Instance no_json : JSONText := {| json_Unmarshal := λ _, None; json_Marshal := λ _, fail "no JSON" |}.
#[local] Instance no_armor : ArmorText := {| armor_Unmarshal := λ _, fail "no JSON" |}.
#[local] Instance no_gzip : Gzip := {| gunzip := λ _, None |}.
#[local] Instance plain_query : QueryText := {| cleanQueryParams q := q |}.

Definition example_processor : ExtProc :=
  {| ep_target := "dns:///dlp:443"; ep_ca := ""; ep_client_certificate := ""; ep_processing_mode := None; ep_allow_mode_override := false;
     ep_message_timeout := None; ep_failure_mode_allow := false; ep_max_buffered_bytes := 0 |}.

Definition example_service : EgressService :=
  {| es_destination := {| eg_name := "api.example.com"; eg_target_url := ""; eg_credential := ""; eg_served_by := ["gateway"];
       eg_broker := Some (PlatformIdentity (Some [])); eg_inspectors := [Some (ExtProcKind (Some example_processor))];
       eg_mode := EGRESS_MODE_HTTP; eg_ports := []; eg_preserve_host := false; eg_forward_context := true |};
     es_target := {| url_Scheme := "https"; url_Host := "api.example.com"; url_Hostname := "api.example.com"; url_Port := ""; url_Path := "";
                     url_has_User := false; url_RawQuery := ""; url_Fragment := "" |};
     es_exchanger := Some (PlatformIdentityExchanger []); es_isStaticSecret := false |}.

Definition example_request : Request :=
  {| req_Method := "POST"; req_Path := "/v1/chat"; req_RawQuery := ""; req_Host := "node";
     req_Header := Header_Set (Header_Set ∅ "Authorization" "Bearer caller") "Accept" "*/*"; req_Body := Some "hello" |}.

(** Everyone answers, and the processor lets everything pass. *)
Definition willing (c : ecall) : ereply c :=
  match c with
  | CContext => {| ec_principal := "alice"; ec_roles := []; ec_actorNode := "12D3p1"; ec_task := ""; ec_rules := [] |}
  | CExchange _ _ => Ok "tok"
  | CArmorAuth _ => ""
  | CArmor _ _ _ _ => fail "unavailable"
  | CExtOpen _ _ | CExtSend _ _ => Ok tt
  | CExtRecv _ => Ok {| pr_ModeOverride := None; pr_Kind := ROther |}
  | CExtClose _ => tt
  | CUpstream _ => Some {| us_Status := 200; us_Header := ∅; us_Chunks := ["hi"] |}
  end.

Definition example_run : list event * Outcome := erun willing (serveInspectedEgress (λ _, None) true example_service example_request).

Lemma example_runs : eruns (serveInspectedEgress (λ _, None) true example_service example_request) example_run.1 example_run.2.
Proof. apply erun_runs. Qed.

Lemma example_split :
  ∃ tr1 tr2, example_run.1 = tr1 ++ existT (CExchange "alice" []) (Ok "tok") :: tr2 ∧ Forall (λ x, ¬ is_forward x) tr1 ∧ length tr1 = 5.
Proof.
  exists (take 5 example_run.1), (drop 6 example_run.1). split_and!; [by vm_compute| |by vm_compute].
  apply (Forall_fmap (@projT1 _ ereply) (λ c, ¬ forwards c)). set (l := projT1 <$> take 5 example_run.1). vm_compute in l. subst l.
  by repeat (apply Forall_cons; split; [by intros []|]).
Qed.

(** The processor has its say before the credential is exchanged. *)
Lemma inspected_first_witness :
  ∃ tr1 tr2 ec ec' segs, example_run.1 = tr1 ++ existT (CExchange "alice" []) (Ok "tok") :: tr2 ∧
    tr1 = [existT CContext ec] ++ mjoin segs ++ [existT CContext ec'] ∧ length tr1 = 5.
Proof.
  destruct example_split as (tr1 & tr2 & Htr & Hq & Hl).
  destruct (inspected_first (λ _, None) true example_service example_request example_run.1 example_run.2 tr1 _ tr2 ltac:(done) example_runs Htr I Hq)
    as (ec & ec' & _ & _ & segs & _ & _ & _ & Heq & _).
  exists tr1, tr2, ec, ec', segs. exact (conj Htr (conj Heq Hl)).
Defined.

Lemma egress_headers_witness :
  example_run.2 = Answered {| an_Status := 200; an_Header := Header_Set ∅ "Content-Length" "2"; an_Body := "hi" |} ∧
  ∀ u resp, existT (CUpstream u) resp ∈ example_run.1 → req_Host (ur_Request u) = "api.example.com".
Proof.
  split; [by vm_compute|]. intros u resp Hin.
  destruct (egress_headers (λ _, None) true example_service example_request example_run.1 example_run.2 example_runs) as [_ Hu].
  destruct (Hu u resp Hin) as (_ & Hh & _). exact Hh.
Defined.
