(* ===== verification/Registry.v ===== *)
(** * The services of a node

    The registry of the services that a node offers
    ([src/internal/node/service_registry.go]), the services that a local request
    may register ([src/internal/node/service.go]), and the egress services that
    the control plane assigns ([src/internal/node/egress.go]).  The registry's
    lock is taken twice in a registration, with the backend probed and the
    directory told in between: the operations are also given as the steps that
    the lock makes atomic, so that they interleave.  The directory is what the
    node's own records in it are. *)

From S2P Require Import Prelude GoStrings Regex Names Biscuit NaiveEngine Facts DatalogText Grants Labels HTTPGrants PolicyRules Egress Base64 Tar Token TokenModel Identity Middleware Directory Decimal Effects Http LocalAuth Callout TlsHello SafeDial EgressService.

(** ** Services *)

(** An instance of a service: instances are told apart by their number. *)
Record Service := {
  sv_instance : nat;
  sv_Type : ServiceType;
  sv_Name : string;
  sv_egress : option EgressService;  (** set for an egress service *)
}.

Inductive Backend := TargetUrl (u : string) | Command (argv : list string) | NoBackend.
Record RegisterServiceRequest := { rsr_Type : ServiceType; rsr_Name : string; rsr_Backend : Backend }.

Definition NewServiceFromRequest (instance : nat) (req : RegisterServiceRequest) : result Service :=
  fail_if (match rsr_Backend req with Command [] => true | _ => false end) "command backend has no command";;
  match rsr_Type req with
  | SERVICE_TYPE_MCP | SERVICE_TYPE_INFERENCE | SERVICE_TYPE_A2A =>
      Ok {| sv_instance := instance; sv_Type := rsr_Type req; sv_Name := rsr_Name req; sv_egress := None |}
  | SERVICE_TYPE_EGRESS => fail "egress destinations are assigned by the control plane, not registered on a node"
  | SERVICE_TYPE_UNSPECIFIED => fail "unspecified or unsupported service type"
  end.

Definition serviceTarget (svc : Service) : string :=
  match ServiceTypeToString (sv_Type svc) with
  | Ok typeStr => typeStr +:+ "://" +:+ sv_Name svc
  | Err _ => ""
  end.

(** ** The registry *)

Record Registry := {
  rg_services : gmap string Service;
  rg_records : gmap string string;  (** directory key to the service it names *)
  rg_torn : list nat;               (** the instances torn down, in order *)
  rg_next : nat;                    (** the number of the next instance *)
}.

Definition set_services (g : Registry) (m : gmap string Service) : Registry :=
  {| rg_services := m; rg_records := rg_records g; rg_torn := rg_torn g; rg_next := rg_next g |}.
Definition set_records (g : Registry) (r : gmap string string) : Registry :=
  {| rg_services := rg_services g; rg_records := r; rg_torn := rg_torn g; rg_next := rg_next g |}.
Definition tear_down (g : Registry) (svcs : list Service) : Registry :=
  {| rg_services := rg_services g; rg_records := rg_records g; rg_torn := rg_torn g ++ (sv_instance <$> svcs); rg_next := rg_next g |}.

Definition NewServiceRegistry : Registry := {| rg_services := ∅; rg_records := ∅; rg_torn := []; rg_next := 0 |}.

(** What a service and the directory answer. *)
Record RegistryEnv := {
  re_secrets : string → result string;  (** the files of the secrets directory *)
  re_Init : Service → result unit;      (** the services that are not egress services *)
  re_Probe : Service → result unit;
  re_Provide : string → bool;
  re_Withdraw : string → bool;
}.

Definition Get (g : Registry) (name : string) : option Service := rg_services g !! name.
Definition GetTyped (g : Registry) (t : ServiceType) (name : string) : option Service :=
  svc ← Get g name; if bool_decide (sv_Type svc = t) then Some svc else None.

Definition List_ (g : Registry) (typeFilter : ServiceType) : list Service :=
  filter (λ svc, typeFilter = SERVICE_TYPE_UNSPECIFIED ∨ sv_Type svc = typeFilter) ((map_to_list (rg_services g)).*2).

(** [Register] up to the point where the lock is given back the first time. *)
Definition register_check (g : Registry) (svc : Service) : result unit :=
  fail_if (bool_decide (sv_Type svc = SERVICE_TYPE_UNSPECIFIED)) "cannot register service with unspecified type";;
  typeStr ← ServiceTypeToString (sv_Type svc);
  wrap_err "invalid service name" (ValidateServiceFormat (typeStr +:+ "://" +:+ sv_Name svc));;
  fail_if (match rg_services g !! sv_Name svc with
           | Some existing => negb (bool_decide (sv_Type existing = sv_Type svc))
           | None => false
           end) "service name is already registered; a name cannot serve two types".

Section registry.
Context `{UC : UnicodeCase, SH : SHA256}.

Definition service_Init (env : RegistryEnv) (svc : Service) : result unit :=
  match sv_egress svc with Some es => Init (re_secrets env) es | None => re_Init env svc end.

Definition provide (env : RegistryEnv) (t : ServiceType) (name target : string) (records : gmap string string) : gmap string string :=
  match ServiceKey t name with
  | Ok key => if re_Provide env key then <[key := target]> records else records
  | Err _ => records
  end.

Definition withdraw (env : RegistryEnv) (t : ServiceType) (name : string) (records : gmap string string) : gmap string string :=
  match ServiceKey t name with
  | Ok key => if re_Withdraw env key then delete key records else records
  | Err _ => records
  end.

(** The records of a service whose backend answers, by name and by type. *)
Definition publish (env : RegistryEnv) (svc : Service) (g : Registry) : Registry :=
  if is_ok (re_Probe env svc)
  then set_records g (provide env (sv_Type svc) "" (serviceTarget svc) (provide env (sv_Type svc) (sv_Name svc) (serviceTarget svc) (rg_records g)))
  else g.

(** [Register] once the lock is taken again. *)
Definition register_insert (svc : Service) (g : Registry) : Registry :=
  let replaced := rg_services g !! sv_Name svc in
  let g := set_services g (<[sv_Name svc := svc]> (rg_services g)) in
  match replaced with
  | Some old => if bool_decide (sv_instance old = sv_instance svc) then g else tear_down g [old]
  | None => g
  end.

(** A registration that nothing comes between. *)
Definition Register (env : RegistryEnv) (svc : Service) (g : Registry) : result unit * Registry :=
  match register_check g svc;; wrap_err "init" (service_Init env svc) with
  | Err e => (Err e, g)
  | Ok _ => (Ok tt, register_insert svc (publish env svc g))
  end.

(** Whether another service of the type is left. *)
Definition type_served (m : gmap string Service) (t : ServiceType) : bool :=
  existsb (λ svc, bool_decide (sv_Type svc = t)) ((map_to_list m).*2).

Definition withdraw_service (env : RegistryEnv) (svc : Service) (typeStillServed : bool) (g : Registry) : Registry :=
  let records := withdraw env (sv_Type svc) (sv_Name svc) (rg_records g) in
  tear_down (set_records g (if typeStillServed then records else withdraw env (sv_Type svc) "" records)) [svc].

Definition Unregister (env : RegistryEnv) (name : string) (g : Registry) : Registry :=
  match rg_services g !! name with
  | None => g
  | Some svc =>
      let m := delete name (rg_services g) in
      withdraw_service env svc (type_served m (sv_Type svc)) (set_services g m)
  end.

Definition WithdrawAll (env : RegistryEnv) (g : Registry) : Registry :=
  let svcs := (map_to_list (rg_services g)).*2 in
  let records := foldl (λ r svc, withdraw env (sv_Type svc) (sv_Name svc) r) (rg_records g) svcs in
  set_records g (foldl (λ r svc, withdraw env (sv_Type svc) "" r) records svcs).

Definition TeardownAll (g : Registry) : Registry :=
  tear_down (set_services g ∅) ((map_to_list (rg_services g)).*2).

Definition ReprovideAll (env : RegistryEnv) (g : Registry) : Registry * nat :=
  let svcs := (map_to_list (rg_services g)).*2 in
  (foldl (λ g svc, publish env svc g) g svcs, length (filter (λ svc, is_ok (re_Probe env svc) = false) svcs)).

(** ** Interleavings *)

(** What a goroutine has still to do. *)
Inductive Pending :=
| PChecked (svc : Service)                  (** to initialise and to publish *)
| PInsert (svc : Service)
| PWithdraw (svc : Service) (typeStillServed : bool)
| PReprovide (svc : Service).

Inductive rstep : Registry * list Pending → Registry * list Pending → Prop :=
| step_check g p svc : register_check g svc = Ok tt → rstep (g, p) (g, PChecked svc :: p)
| step_init_fails g p1 p2 svc : rstep (g, p1 ++ PChecked svc :: p2) (g, p1 ++ p2)
| step_publish env g p1 p2 svc : rstep (g, p1 ++ PChecked svc :: p2) (publish env svc g, p1 ++ PInsert svc :: p2)
| step_insert g p1 p2 svc : rstep (g, p1 ++ PInsert svc :: p2) (register_insert svc g, p1 ++ p2)
| step_remove g p name svc : rg_services g !! name = Some svc →
    rstep (g, p) (set_services g (delete name (rg_services g)), PWithdraw svc (type_served (delete name (rg_services g)) (sv_Type svc)) :: p)
| step_withdraw env g p1 p2 svc still : rstep (g, p1 ++ PWithdraw svc still :: p2) (withdraw_service env svc still g, p1 ++ p2)
| step_withdraw_all env g p : rstep (g, p) (WithdrawAll env g, p)
| step_teardown_all g p : rstep (g, p) (TeardownAll g, p)
| step_snapshot g p name svc : rg_services g !! name = Some svc → rstep (g, p) (g, PReprovide svc :: p)
| step_reprovide env g p1 p2 svc : rstep (g, p1 ++ PReprovide svc :: p2) (publish env svc g, p1 ++ p2).

Definition registry_reachable (s : Registry * list Pending) : Prop := rtc rstep (NewServiceRegistry, []) s.

(** ** Assignments *)

Definition new_egress (d : EgressDestination) `{URLParser} (g : Registry) : result Service * Registry :=
  let g' := {| rg_services := rg_services g; rg_records := rg_records g; rg_torn := rg_torn g; rg_next := S (rg_next g) |} in
  match newEgressServiceForNode d with
  | Ok es => (Ok {| sv_instance := rg_next g; sv_Type := SERVICE_TYPE_EGRESS; sv_Name := eg_name d; sv_egress := Some es |}, g')
  | Err e => (Err e, g')
  end.

Definition sameAssignment (svc : Service) (d : EgressDestination) : bool :=
  match sv_egress svc with Some es => bool_decide (es_destination es = d) | None => false end.

(** One assignment: the errors so far, and the registry. *)
Definition apply_assignment `{URLParser} (env : RegistryEnv) (st : list error * Registry) (od : option EgressDestination) : list error * Registry :=
  let '(errs, g) := st in
  match od with
  | None => (errs, g)
  | Some d =>
      if match GetTyped g SERVICE_TYPE_EGRESS (eg_name d) with Some svc => sameAssignment svc d | None => false end then (errs, g)
      else match new_egress d g with
           | (Err e, g) => (errs ++ [e], g)
           | (Ok svc, g) =>
               match Register env svc g with
               | (Err e, g) => (errs ++ [WrapError "egress" e], g)
               | (Ok _, g) => (errs, g)
               end
           end
  end.

Definition wanted (assigned : list (option EgressDestination)) (name : string) : bool :=
  existsb (λ od, match od with Some d => bool_decide (eg_name d = name) | None => false end) assigned.

Definition withdraw_unwanted (env : RegistryEnv) (assigned : list (option EgressDestination)) (g : Registry) : Registry :=
  foldl (λ g svc, if wanted assigned (sv_Name svc) then g else Unregister env (sv_Name svc) g) g (List_ g SERVICE_TYPE_EGRESS).

Definition applyEgressAssignments `{URLParser} (env : RegistryEnv) (assigned : list (option EgressDestination)) (g : Registry) : list error * Registry :=
  let '(errs, g) := foldl (apply_assignment env) ([], g) assigned in
  (errs, withdraw_unwanted env assigned g).

(** The node before and after [Start] made the registry. *)
Record EgressNode := { en_services : option Registry; en_pending : list (option EgressDestination) }.

Definition node_applyEgressAssignments `{URLParser} (env : RegistryEnv) (assigned : list (option EgressDestination)) (n : EgressNode) : list error * EgressNode :=
  match en_services n with
  | None => ([], {| en_services := None; en_pending := assigned |})
  | Some g => let '(errs, g) := applyEgressAssignments env assigned g in (errs, {| en_services := Some g; en_pending := en_pending n |})
  end.

Definition applyPendingEgress `{URLParser} (env : RegistryEnv) (n : EgressNode) : EgressNode :=
  match en_pending n with
  | [] => {| en_services := en_services n; en_pending := [] |}
  | pending => (node_applyEgressAssignments env pending {| en_services := en_services n; en_pending := [] |}).2
  end.

(** What [Start] does of it. *)
Definition node_start `{URLParser} (env : RegistryEnv) (n : EgressNode) : EgressNode :=
  applyPendingEgress env {| en_services := Some NewServiceRegistry; en_pending := en_pending n |}.
End registry.
