(* ===== verification/RegistryFacts.v ===== *)
(** * What the registry guarantees

    The registry under every interleaving of its operations, and the egress
    services after an assignment. *)

From S2P Require Import Prelude GoStrings Regex Names Biscuit NaiveEngine Facts DatalogText Grants Labels HTTPGrants PolicyRules Egress Base64 Tar Token TokenModel Identity Middleware Directory Decimal Effects Http LocalAuth Callout TlsHello SafeDial EgressService Registry.

(** ** Services that may be registered *)

(** The service is addressed as [ty://name]. *)
Definition service_ok (svc : Service) : Prop :=
  ∃ ty, ServiceTypeToString (sv_Type svc) = Ok ty ∧ ValidateServiceFormat (ty +:+ "://" +:+ sv_Name svc) = Ok tt.

Lemma typed_parses t ty name : ServiceTypeToString t = Ok ty → ValidateServiceFormat (ty +:+ "://" +:+ name) = Ok tt →
  ParseServiceTarget (ty +:+ "://" +:+ name) = (ty, name) ∧ name ≠ "".
Proof.
  intros [Hne Hty]%ServiceTypeToString_uri Hv. apply ValidateServiceFormat_iff in Hv as [Hv|(ty' & nm & Heq & Hu & Hnm)].
  { exfalso. destruct ty as [|c [|d ty]]; rewrite ?app_cons in Hv; naive_solver. }
  assert (∀ ty, str_forallb (not_in ":/?#") ty = true → ":"%char ∉ chars ty) as Hcolon.
  { intros ty0 H0 Hin. rewrite forallb_not_in in H0. apply (H0 _ Hin). by left. }
  pose proof (Cut_char ty' ":" (Hcolon _ (proj1 (proj2 Hu))) ("//" +:+ nm)) as H1.
  pose proof (Cut_char ty ":" (Hcolon _ Hty) ("//" +:+ name)) as H2.
  change (String ":" ("//" +:+ nm)) with ("://" +:+ nm) in H1. change (String ":" ("//" +:+ name)) with ("://" +:+ name) in H2.
  rewrite <-Heq, H2 in H1. injection H1 as <- Hn. change (name = nm) in Hn. subst nm.
  split; [by apply ParseServiceTarget_uri|]. intros ->. destruct Hnm as [?|Hd]; [done|]. by apply dnsNameRegex_not_empty.
Qed.

Lemma register_check_ok g svc : register_check g svc = Ok tt → service_ok svc.
Proof.
  unfold register_check. intros [_ Hc]%bind_unit_Ok. apply bind_Ok in Hc as (ty & Ht & Hc). apply bind_unit_Ok in Hc as [Hv _].
  rewrite wrap_err_Ok in Hv. by exists ty.
Qed.

Section facts.
Context `{UC : UnicodeCase, SH : SHA256}.

(** ** The invariant *)

(** A record of the directory names a service under one of its keys. *)
Definition record_ok (key target : string) : Prop :=
  ∃ svc, service_ok svc ∧ target = serviceTarget svc ∧
    (ServiceKey (sv_Type svc) (sv_Name svc) = Ok key ∨ ServiceKey (sv_Type svc) "" = Ok key).

Definition registry_ok (g : Registry) : Prop :=
  (∀ name svc, rg_services g !! name = Some svc → sv_Name svc = name ∧ service_ok svc) ∧
  (∀ key target, rg_records g !! key = Some target → record_ok key target).

Definition pending_ok (p : Pending) : Prop :=
  match p with PChecked svc | PInsert svc | PWithdraw svc _ | PReprovide svc => service_ok svc end.

Lemma provide_ok env svc name records key target :
  service_ok svc → name = sv_Name svc ∨ name = "" →
  provide env (sv_Type svc) name (serviceTarget svc) records !! key = Some target → record_ok key target ∨ records !! key = Some target.
Proof.
  intros Hs Hn. unfold provide. destruct (ServiceKey (sv_Type svc) name) as [k|] eqn:Ek; [|by right]. destruct (re_Provide env k); [|by right].
  intros [[<- <-]|[_ ?]]%lookup_insert_Some; [left|by right]. exists svc. split_and!; [done..|]. destruct Hn as [->| ->]; [by left|by right].
Qed.

Lemma withdraw_sub env t name records key target : withdraw env t name records !! key = Some target → records !! key = Some target.
Proof. unfold withdraw. destruct (ServiceKey t name); [|done]. destruct (re_Withdraw env _); [|done]. by intros [_ ?]%lookup_delete_Some. Qed.

Lemma publish_ok env svc g : service_ok svc → registry_ok g → registry_ok (publish env svc g).
Proof.
  intros Hs [Hsv Hrec]. unfold publish. destruct (is_ok _); [|done]. split; [done|]. intros key target. cbn. intros Hl.
  apply provide_ok in Hl as [?|Hl]; [done| |done|by right]. apply provide_ok in Hl as [?|Hl]; [done|by apply Hrec|done|by left].
Qed.

Lemma register_insert_ok svc g : service_ok svc → registry_ok g → registry_ok (register_insert svc g).
Proof.
  intros Hs [Hsv Hrec].
  assert (registry_ok (set_services g (<[sv_Name svc := svc]> (rg_services g)))) as Hok.
  { split; [|done]. cbn. intros name svc'. rewrite lookup_insert_Some. intros [[<- <-]|[_ ?]]; [done|by apply Hsv]. }
  unfold register_insert. destruct (rg_services g !! sv_Name svc); [|done]. by case_bool_decide.
Qed.

Lemma withdraw_service_ok env svc still g : registry_ok g → registry_ok (withdraw_service env svc still g).
Proof.
  intros [Hsv Hrec]. split; [done|]. cbn. intros key target Hl. apply Hrec. destruct still; [by eapply withdraw_sub|].
  by eapply withdraw_sub, withdraw_sub.
Qed.

Lemma WithdrawAll_ok env g : registry_ok g → registry_ok (WithdrawAll env g).
Proof.
  intros [Hsv Hrec]. split; [done|]. cbn. intros key target Hl. apply Hrec. revert Hl. generalize ((map_to_list (rg_services g)).*2) as svcs. intros svcs.
  assert (∀ f r, foldl (λ r svc, withdraw env (sv_Type svc) (f svc) r) r svcs !! key = Some target → r !! key = Some target) as Hf.
  { intros f. induction svcs as [|svc svcs IH]; intros r; [done|]. cbn. intros ?%IH. by eapply withdraw_sub. }
  intros Hl%(Hf (λ _, "")). by apply (Hf sv_Name) in Hl.
Qed.

Lemma rstep_ok g p g' p' : rstep (g, p) (g', p') → registry_ok g ∧ Forall pending_ok p → registry_ok g' ∧ Forall pending_ok p'.
Proof.
  intros Hstep. inversion Hstep as [? ? svc Hc|? p1 p2 svc|env ? p1 p2 svc|? p1 p2 svc|? ? name svc Hl|env ? p1 p2 svc still|env ? ?|? ?|? ? name svc Hl|env ? p1 p2 svc];
    subst; rewrite ?Forall_app, ?Forall_cons; cbn [pending_ok]; intros [Hg Hp].
  - split; [done|]. split; [by eapply register_check_ok|done].
  - tauto.
  - split; [apply publish_ok; tauto|tauto].
  - split; [apply register_insert_ok; tauto|tauto].
  - split_and!; [|by apply (proj1 Hg) in Hl as [_ ?]|done]. split; [|apply Hg]. cbn. intros n s [_ Hs]%lookup_delete_Some. by apply Hg.
  - split; [by apply withdraw_service_ok|tauto].
  - split; [by apply WithdrawAll_ok|done].
  - split; [|done]. split; [|apply Hg]. cbn. intros n s Hs. by rewrite lookup_empty in Hs.
  - split_and!; [done|by apply (proj1 Hg) in Hl as [_ ?]|done].
  - split; [apply publish_ok; tauto|tauto].
Qed.

Lemma reachable_ok g p : registry_reachable (g, p) → registry_ok g ∧ Forall pending_ok p.
Proof.
  assert (∀ s s', rtc rstep s s' → registry_ok s.1 ∧ Forall pending_ok s.2 → registry_ok s'.1 ∧ Forall pending_ok s'.2) as Hrtc.
  { intros s s' Hs. induction Hs as [|[g1 p1] [g2 p2] s3 Hstep _ IH]; [done|]. intros H1. apply IH. cbn in *. by eapply rstep_ok. }
  intros Hr. apply (Hrtc _ _ Hr). cbn. split; [|by apply Forall_nil]. split; intros ? ? Hl; cbn [NewServiceRegistry rg_services rg_records] in Hl; by rewrite lookup_empty in Hl.
Qed.

Lemma record_ServiceOfRecord provider svc key : service_ok svc → sv_Name svc ≠ "*" →
  ServiceKey (sv_Type svc) (sv_Name svc) = Ok key ∨ ServiceKey (sv_Type svc) "" = Ok key →
  ServiceOfRecord provider key (serviceTarget svc) = Ok (sv_Type svc, sv_Name svc).
Proof.
  intros (ty & Ht & Hv) Hstar Hkey. destruct (typed_parses _ _ _ Ht Hv) as [Hp Hne].
  destruct (ServiceTypeToString_uri _ _ Ht) as [Hty _]. unfold ServiceOfRecord, serviceTarget. rewrite Ht.
  rewrite (bool_decide_false (_ = "")) by (destruct ty; [done|by rewrite app_cons]).
  rewrite Hp. cbn [fst snd]. rewrite (ParseServiceType_ToString _ _ Ht).
  rewrite (bool_decide_false (sv_Type svc = _)) by (intros E; by rewrite E in Ht). rewrite (bool_decide_false (sv_Name svc = "")), (bool_decide_false (sv_Name svc = "*")) by done.
  cbn [orb].
  assert (∀ n, ∃ k, ServiceKey (sv_Type svc) n = Ok k) as Hk by (intros n; unfold ServiceKey; rewrite Ht; by eexists).
  destruct (Hk (sv_Name svc)) as [k1 Hk1], (Hk "") as [k2 Hk2]. rewrite Hk1, Hk2 in Hkey |- *. cbn [mbind result_bind].
  case_bool_decide as Hne1; [done|]. destruct Hkey as [[= ->]|[= ->]]; [done|]. by rewrite bool_decide_true.
Qed.

(** C21: However the operations of the registry interleave, the service that is
    found under a type and a name is the one that the policy was evaluated on:
    every entry is under its own name, of a type that can be written, under a
    target [type://name] that validates and parses back to that type and name.
    And every record that the node has in the directory is for a service, with its
    type and name in its target, and is one that the directory's readers accept
    as that service's, unless the service's name is "*": such a name can be
    registered, and the readers refuse its records ([wildcard_name]). *)
Theorem registry_typed g p : registry_reachable (g, p) →
  (∀ t name svc, GetTyped g t name = Some svc →
     sv_Type svc = t ∧ sv_Name svc = name ∧
     ∃ ty, ServiceTypeToString t = Ok ty ∧ serviceTarget svc = ty +:+ "://" +:+ name ∧
       ValidateServiceFormat (serviceTarget svc) = Ok tt ∧ ParseServiceTarget (serviceTarget svc) = (ty, name)) ∧
  (∀ name, is_Some (Get g name) → ∃ t svc, GetTyped g t name = Some svc) ∧
  (∀ key target, rg_records g !! key = Some target →
     ∃ t name, (name ≠ "*" → ∀ provider, ServiceOfRecord provider key target = Ok (t, name)) ∧
       ∃ ty, ServiceTypeToString t = Ok ty ∧ target = ty +:+ "://" +:+ name).
Proof.
  intros [[Hsv Hrec] _]%reachable_ok. split_and!.
  - intros t name svc Hg. unfold GetTyped, Get in Hg. destruct (rg_services g !! name) as [svc'|] eqn:El; [|done]. cbn in Hg.
    case_bool_decide as Ht; [|done]. injection Hg as ->. destruct (Hsv _ _ El) as [<- (ty & Hty & Hv)]. split_and!; [done..|].
    exists ty. unfold serviceTarget. rewrite Hty, <-Ht. split_and!; [done..|]. by eapply typed_parses.
  - intros name [svc Hs]. exists (sv_Type svc), svc. unfold GetTyped. rewrite Hs. cbn. by rewrite bool_decide_true.
  - intros key target (svc & Hok & -> & Hkey)%Hrec. exists (sv_Type svc), (sv_Name svc). split.
    + intros Hstar provider. by apply record_ServiceOfRecord.
    + destruct Hok as (ty & Ht & _). exists ty. unfold serviceTarget. by rewrite Ht.
Qed.
End facts.

(** ** Assignments *)

Lemma filter_same {A} (P Q : A → Prop) `{∀ x, Decision (P x), ∀ x, Decision (Q x)} (l : list A) :
  (∀ x, x ∈ l → P x ↔ Q x) → filter P l = filter Q l.
Proof.
  induction l as [|x l IH]; intros Hl; [done|]. rewrite !filter_cons, IH by (intros; apply Hl; by right).
  specialize (Hl x ltac:(by left)). by destruct (decide (P x)), (decide (Q x)); try tauto.
Qed.

Section assignments.
Context `{UC : UnicodeCase, SH : SHA256, UP : URLParser}.
Variable env : RegistryEnv.

(** The destination that an egress service of the node is for. *)
Definition served (g : Registry) (name : string) : option EgressDestination :=
  svc ← GetTyped g SERVICE_TYPE_EGRESS name; es_destination <$> sv_egress svc.

(** Whether the node can serve a destination: it is well-formed, its credential
    is there, and its name is not taken by a service of another type. *)
Definition servable (g : Registry) (d : EgressDestination) : bool :=
  match newEgressServiceForNode d with
  | Ok es =>
      is_ok (Init (re_secrets env) es) &&
      match rg_services g !! eg_name d with Some old => bool_decide (sv_Type old = SERVICE_TYPE_EGRESS) | None => true end
  | Err _ => false
  end.

(** Entries are under their own names, and egress services have a destination. *)
Definition named (g : Registry) : Prop :=
  ∀ name svc, rg_services g !! name = Some svc → sv_Name svc = name ∧ (sv_Type svc = SERVICE_TYPE_EGRESS → is_Some (sv_egress svc)).

Lemma newEgress_ok d es : newEgressServiceForNode d = Ok es →
  es_destination es = d ∧ ValidateServiceFormat (ServiceTypeStringEgress +:+ "://" +:+ eg_name d) = Ok tt.
Proof.
  unfold newEgressServiceForNode. intros [Hv Hn]%bind_unit_Ok. apply bind_Ok in Hn as (u & _ & Hn). apply bind_unit_Ok in Hn as [_ Hn].
  cbv zeta in Hn. apply bind_unit_Ok in Hn as [_ [= <-]]. split; [done|].
  unfold ValidateEgressName in Hv. by repeat (apply bind_unit_Ok in Hv as [_ Hv]).
Qed.

Lemma publish_services svc g : rg_services (publish env svc g) = rg_services g.
Proof. unfold publish. by destruct (is_ok _). Qed.

Lemma register_insert_services svc g : rg_services (register_insert svc g) = <[sv_Name svc := svc]> (rg_services g).
Proof. unfold register_insert. destruct (_ !! sv_Name svc); [|done]. by case_bool_decide. Qed.

Lemma served_lookup g g' x : rg_services g' !! x = rg_services g !! x → served g' x = served g x.
Proof. intros Hx. unfold served, GetTyped, Get. by rewrite Hx. Qed.

Lemma servable_lookup g g' d : rg_services g' !! eg_name d = rg_services g !! eg_name d → servable g' d = servable g d.
Proof. intros Hx. unfold servable. by rewrite Hx. Qed.

Lemma served_same g d :
  match GetTyped g SERVICE_TYPE_EGRESS (eg_name d) with Some svc => sameAssignment svc d | None => false end = bool_decide (served g (eg_name d) = Some d).
Proof.
  unfold served. destruct (GetTyped g SERVICE_TYPE_EGRESS (eg_name d)) as [svc|]; cbn; [|by rewrite bool_decide_false].
  unfold sameAssignment. destruct (sv_egress svc) as [es|]; cbn; [|by rewrite bool_decide_false]. apply bool_decide_ext. naive_solver.
Qed.

(** A service that is registered for a destination. *)
Definition serves (svc : Service) (d : EgressDestination) : Prop :=
  sv_Type svc = SERVICE_TYPE_EGRESS ∧ sv_Name svc = eg_name d ∧ ∃ es, sv_egress svc = Some es ∧ es_destination es = d.

(** What one assignment does. *)
Lemma apply_assignment_spec errs g d errs' g' :
  apply_assignment env (errs, g) (Some d) = (errs', g') →
  (∀ x, x ≠ eg_name d → rg_services g' !! x = rg_services g !! x) ∧
  if bool_decide (served g (eg_name d) = Some d) then errs' = errs ∧ g' = g
  else if servable g d then errs' = errs ∧ ∃ svc, serves svc d ∧ rg_services g' !! eg_name d = Some svc
  else (∃ e, errs' = errs ++ [e]) ∧ rg_services g' = rg_services g.
Proof.
  unfold apply_assignment. rewrite served_same. case_bool_decide as Hsame; [by intros [= <- <-]|].
  unfold new_egress, servable. destruct (newEgressServiceForNode d) as [es|e] eqn:En; [|intros [= <- <-]; naive_solver].
  destruct (newEgress_ok _ _ En) as [Hd Hv]. set (svc := {| sv_instance := _ |}). set (g0 := {| rg_services := _ |}).
  unfold Register. assert (register_check g0 svc = fail_if (negb match rg_services g !! eg_name d with
    Some old => bool_decide (sv_Type old = SERVICE_TYPE_EGRESS) | None => true end)
    "service name is already registered; a name cannot serve two types") as ->.
  { unfold register_check. cbn [svc g0 sv_Type sv_Name rg_services]. rewrite bool_decide_false by done. cbn [fail_if mbind result_bind ServiceTypeToString].
    rewrite Hv. cbn [wrap_err mbind result_bind]. by destruct (rg_services g !! eg_name d). }
  cbn [service_Init svc sv_egress]. destruct (Init (re_secrets env) es) as [[]|e].
  2: { destruct (negb _); cbn; intros [= <- <-]; naive_solver. }
  cbn [is_ok andb]. destruct (match rg_services g !! eg_name d with Some _ => _ | None => _ end); cbn.
  - intros [= <- <-]. rewrite register_insert_services, publish_services. cbn [svc g0 sv_Name rg_services]. split.
    + intros x Hx. by rewrite lookup_insert_ne.
    + split; [done|]. exists svc. split; [|apply lookup_insert_eq]. split_and!; [done..|]. by exists es.
  - intros [= <- <-]. naive_solver.
Qed.

Lemma serves_served g d svc : rg_services g !! eg_name d = Some svc → serves svc d → served g (eg_name d) = Some d.
Proof. intros Hl (Ht & _ & es & He & Hd). unfold served, GetTyped, Get. rewrite Hl. cbn. rewrite bool_decide_true by done. cbn. by rewrite He, <-Hd. Qed.

(** The destination that is served after an assignment to [d], or to nothing. *)
Definition outcome (g : Registry) (d : EgressDestination) : option EgressDestination :=
  if bool_decide (served g (eg_name d) = Some d) || servable g d then Some d else served g (eg_name d).

Definition assigned_names (assigned : list (option EgressDestination)) : list string := eg_name <$> omap id assigned.

(** What the entry under [d]'s name is after the assignments, when [g] was the
    registry before. *)
Definition entry_after (g : Registry) (d : EgressDestination) (m : gmap string Service) : Prop :=
  if bool_decide (served g (eg_name d) = Some d) then m !! eg_name d = rg_services g !! eg_name d
  else if servable g d then ∃ svc, serves svc d ∧ m !! eg_name d = Some svc
  else m !! eg_name d = rg_services g !! eg_name d.

Definition refused_assignments (g : Registry) (assigned : list (option EgressDestination)) : list EgressDestination :=
  filter (λ d, served g (eg_name d) ≠ Some d ∧ servable g d = false) (omap id assigned).

Lemma entry_after_ext g g' d m : rg_services g' !! eg_name d = rg_services g !! eg_name d → entry_after g d m ↔ entry_after g' d m.
Proof. intros Hx. unfold entry_after. by rewrite (served_lookup _ _ _ Hx), (servable_lookup _ _ _ Hx), Hx. Qed.

Lemma apply_all_spec assigned errs g errs' g' :
  NoDup (assigned_names assigned) → foldl (apply_assignment env) (errs, g) assigned = (errs', g') →
  (∀ x, x ∉ assigned_names assigned → rg_services g' !! x = rg_services g !! x) ∧
  (∀ d, Some d ∈ assigned → entry_after g d (rg_services g')) ∧
  length errs' = length errs + length (refused_assignments g assigned).
Proof.
  unfold refused_assignments. revert errs g. induction assigned as [|[d|] assigned IH]; intros errs g Hnd.
  - intros [= <- <-]. split_and!; [done|by intros ? ?%elem_of_nil|cbn; lia].
  - cbn [foldl]. destruct (apply_assignment env (errs, g) (Some d)) as [errs1 g1] eqn:E1. intros Hf.
    change (assigned_names (Some d :: assigned)) with (eg_name d :: assigned_names assigned) in *. apply NoDup_cons in Hnd as [Hd Hnd].
    apply apply_assignment_spec in E1 as [Hother Hone]. destruct (IH _ _ Hnd Hf) as (Hout & Hin & Hlen).
    assert (∀ d', Some d' ∈ assigned → rg_services g1 !! eg_name d' = rg_services g !! eg_name d') as Hsame.
    { intros d' Hd'. apply Hother. intros Heq. apply Hd. rewrite <-Heq. apply list_elem_of_fmap_2, list_elem_of_omap. by exists (Some d'). }
    split_and!.
    + intros x Hx. apply not_elem_of_cons in Hx as [Hx1 Hx2]. rewrite Hout by done. by apply Hother.
    + intros d' [[= ->]|Hd']%elem_of_cons.
      * unfold entry_after. rewrite (Hout _ Hd). destruct (bool_decide _); [by destruct Hone as [_ ->]|].
        destruct (servable g d); [by destruct Hone as [_ ?]|]. by destruct Hone as [_ ->].
      * apply (entry_after_ext g g1); [by apply Hsame|by apply Hin].
    + rewrite Hlen. cbn [omap list_omap id]. rewrite filter_cons.
      assert (filter (λ d, served g1 (eg_name d) ≠ Some d ∧ servable g1 d = false) (omap id assigned) =
              filter (λ d, served g (eg_name d) ≠ Some d ∧ servable g d = false) (omap id assigned)) as ->.
      { apply filter_same. intros d' Hd'. apply list_elem_of_omap in Hd' as ([d''|] & Hd'' & Heq); [|done]. injection Heq as ->.
        by rewrite (served_lookup _ _ _ (Hsame _ Hd'')), (servable_lookup _ _ _ (Hsame _ Hd'')). }
      case_bool_decide as Hs; [destruct Hone as [-> _]; rewrite decide_False by tauto; done|]. destruct (servable g d).
      * destruct Hone as [-> _]. rewrite decide_False by (intros [_ [=]]). done.
      * destruct Hone as [[e ->] _]. rewrite decide_True by done. rewrite length_app. cbn. lia.
  - intros Hf. destruct (IH errs g Hnd Hf) as (Hout & Hin & Hlen). split_and!; [done| |done].
    intros d [[=]|Hd]%elem_of_cons. by apply Hin.
Qed.

Lemma Unregister_services name g : rg_services (Unregister env name g) = delete name (rg_services g).
Proof. unfold Unregister. destruct (rg_services g !! name) eqn:E; [done|]. by rewrite delete_id. Qed.

Lemma withdraw_unwanted_services assigned g x : named g →
  rg_services (withdraw_unwanted env assigned g) !! x =
  match GetTyped g SERVICE_TYPE_EGRESS x with
  | Some svc => if wanted assigned x then Some svc else None
  | None => rg_services g !! x
  end.
Proof.
  intros Hn. unfold withdraw_unwanted.
  assert (∀ svcs g0, (∀ svc, svc ∈ svcs → wanted assigned (sv_Name svc) = true ∨ sv_Name svc ≠ x) →
    rg_services (foldl (λ g svc, if wanted assigned (sv_Name svc) then g else Unregister env (sv_Name svc) g) g0 svcs) !! x = rg_services g0 !! x) as Hkeep.
  { intros svcs. induction svcs as [|svc svcs IH]; intros g0 Hall; [done|]. cbn. rewrite IH by (intros; apply Hall; by right).
    destruct (wanted assigned (sv_Name svc)) eqn:Ew; [done|]. rewrite Unregister_services. apply lookup_delete_ne.
    destruct (Hall svc) as [Hw|Hw]; [by left|congruence|done]. }
  assert (∀ svcs g0, (∃ svc, svc ∈ svcs ∧ sv_Name svc = x) → wanted assigned x = false →
    rg_services (foldl (λ g svc, if wanted assigned (sv_Name svc) then g else Unregister env (sv_Name svc) g) g0 svcs) !! x = None) as Hdrop.
  { intros svcs. induction svcs as [|svc svcs IH]; intros g0 (svc' & Hin & Hx) Hw; [by apply elem_of_nil in Hin|]. cbn.
    destruct (decide (x ∈ (sv_Name <$> svcs))) as [Hex|Hnex].
    { apply list_elem_of_fmap in Hex as (svc'' & -> & Hs). apply IH; [by exists svc''|done]. }
    apply elem_of_cons in Hin as [->|Hin]; [|destruct Hnex; rewrite <-Hx; by apply list_elem_of_fmap_2]. rewrite Hkeep.
    - rewrite Hx, Hw, Unregister_services. apply lookup_delete_eq.
    - intros svc'' Hin''. right. intros Hx''. apply Hnex. rewrite <-Hx''. by apply list_elem_of_fmap_2. }
  assert (∀ svc, svc ∈ List_ g SERVICE_TYPE_EGRESS ↔ ∃ name, rg_services g !! name = Some svc ∧ sv_Type svc = SERVICE_TYPE_EGRESS) as Hlist.
  { intros svc. unfold List_. rewrite list_elem_of_filter, list_elem_of_fmap. split.
    - intros [[[=]|Ht] ([name svc'] & -> & Hm%elem_of_map_to_list)]. by exists name.
    - intros (name & Hm & Ht). split; [by right|]. exists (name, svc). split; [done|]. by apply elem_of_map_to_list. }
  unfold GetTyped, Get. destruct (rg_services g !! x) as [svc|] eqn:Ex; cbn.
  - destruct (Hn _ _ Ex) as [Hx _]. case_bool_decide as Ht.
    + destruct (wanted assigned x) eqn:Ew.
      * rewrite Hkeep; [done|]. intros svc' (name & Hm & _)%Hlist. destruct (Hn _ _ Hm) as [<- _].
        destruct (decide (sv_Name svc' = x)) as [->|]; [by left|by right].
      * apply Hdrop; [|done]. exists svc. split; [|done]. apply Hlist. by exists x.
    + rewrite Hkeep; [done|]. intros svc' (name & Hm & Ht')%Hlist. right. intros <-. destruct (Hn _ _ Hm) as [<- _]. congruence.
  - rewrite Hkeep; [done|]. intros svc' (name & Hm & _)%Hlist. right. intros <-. destruct (Hn _ _ Hm) as [<- _]. congruence.
Qed.

Lemma wanted_spec assigned x : wanted assigned x = true ↔ x ∈ assigned_names assigned.
Proof.
  unfold wanted, assigned_names. rewrite existsb_exists, list_elem_of_fmap. split.
  - intros ([d|] & Hin & Hx); [|done]. apply bool_decide_eq_true in Hx as <-. exists d. split; [done|]. apply list_elem_of_omap.
    exists (Some d). split; [by apply list_elem_of_In|done].
  - intros (d & -> & ([d'|] & Hin & Heq)%list_elem_of_omap); [|done]. injection Heq as ->. exists (Some d).
    split; [by apply list_elem_of_In|by apply bool_decide_eq_true].
Qed.

Lemma assigned_names_elem assigned d : Some d ∈ assigned → eg_name d ∈ assigned_names assigned.
Proof. intros Hin. apply list_elem_of_fmap_2, list_elem_of_omap. by exists (Some d). Qed.

(** An entry is the one there was, or serves what was assigned under its name. *)
Lemma entry_cases g d m : entry_after g d m →
  m !! eg_name d = rg_services g !! eg_name d ∧ outcome g d = served g (eg_name d) ∨
  ∃ svc, serves svc d ∧ m !! eg_name d = Some svc ∧ outcome g d = Some d ∧
         (∀ old, rg_services g !! eg_name d = Some old → sv_Type old = SERVICE_TYPE_EGRESS).
Proof.
  unfold entry_after, outcome. case_bool_decide as Hs; cbn [orb]; [intros ->; left; by split|]. destruct (servable g d) eqn:Esv; [|intros ->; by left].
  intros (svc & Hsv & Hm). right. exists svc. split_and!; [done..|]. intros old Hold. unfold servable in Esv.
  destruct (newEgressServiceForNode d); [|done]. apply andb_true_iff in Esv as [_ Esv]. rewrite Hold in Esv. by apply bool_decide_eq_true in Esv.
Qed.

Lemma named_after assigned g g1 : named g →
  (∀ x, x ∉ assigned_names assigned → rg_services g1 !! x = rg_services g !! x) →
  (∀ d, Some d ∈ assigned → entry_after g d (rg_services g1)) → named g1.
Proof.
  intros Hn Hout Hin x svc Hx. destruct (decide (x ∈ assigned_names assigned)) as [Hd|Hd]; [|rewrite Hout in Hx by done; by apply Hn].
  apply list_elem_of_fmap in Hd as (d & -> & ([d'|] & Hd' & [= ->])%list_elem_of_omap).
  destruct (entry_cases _ _ _ (Hin _ Hd')) as [[Heq _]|(svc' & (Ht & Hname & es & He & _) & Hm & _)]; [rewrite Heq in Hx; by apply Hn|].
  rewrite Hm in Hx. injection Hx as <-. split; [done|]. intros _. by exists es.
Qed.

Lemma applied_again assigned g : named g → (∀ d, Some d ∈ assigned → served g (eg_name d) = Some d) →
  (∀ x, x ∉ assigned_names assigned → served g x = None) → applyEgressAssignments env assigned g = ([], g).
Proof.
  intros Hn Hall Hnone. unfold applyEgressAssignments.
  assert (foldl (apply_assignment env) ([], g) assigned = ([], g)) as ->.
  { clear Hnone. induction assigned as [|[d|] assigned IH]; [done| |]; cbn [foldl].
    - assert (apply_assignment env ([], g) (Some d) = ([], g)) as ->; [|apply IH; intros; apply Hall; by right].
      unfold apply_assignment. rewrite served_same, bool_decide_true; [done|]. apply Hall. by left.
    - apply IH. intros. apply Hall. by right. }
  f_equal. unfold withdraw_unwanted.
  assert (∀ svc, svc ∈ List_ g SERVICE_TYPE_EGRESS → wanted assigned (sv_Name svc) = true) as Hw.
  { intros svc (Ht & ([name svc'] & -> & Hm%elem_of_map_to_list)%list_elem_of_fmap)%list_elem_of_filter. cbn in *. destruct Ht as [[=]|Ht].
    destruct (Hn _ _ Hm) as [Hname Heg]. destruct (Heg Ht) as [es Hes]. apply wanted_spec.
    destruct (decide (sv_Name svc' ∈ assigned_names assigned)) as [|Hno]; [done|]. apply Hnone in Hno. rewrite Hname in Hno.
    unfold served, GetTyped, Get in Hno. rewrite Hm in Hno. cbn in Hno. rewrite bool_decide_true in Hno by done. cbn in Hno. by rewrite Hes in Hno. }
  induction (List_ g SERVICE_TYPE_EGRESS) as [|svc svcs IH]; [done|]. cbn. rewrite Hw by (by left). apply IH. intros svc' Hs. apply Hw. by right.
Qed.

(** C22: Applying the control plane's assignments makes the node serve them and
    nothing else: a destination that is assigned and that the node can serve is
    served as it was written; one that it cannot serve is reported and leaves
    what was served under its name; every other egress service is gone, and no
    service of another type is touched.  When nothing was refused, applying the
    same assignments again changes nothing. *)
Theorem assignments_applied assigned g errs g' :
  named g → NoDup (assigned_names assigned) → applyEgressAssignments env assigned g = (errs, g') →
  (∀ d, Some d ∈ assigned → served g' (eg_name d) = outcome g d) ∧
  (∀ x, x ∉ assigned_names assigned → served g' x = None) ∧
  (∀ x svc, sv_Type svc ≠ SERVICE_TYPE_EGRESS → rg_services g' !! x = Some svc ↔ rg_services g !! x = Some svc) ∧
  length errs = length (refused_assignments g assigned) ∧
  (errs = [] → applyEgressAssignments env assigned g' = ([], g')).
Proof.
  intros Hn Hnd. unfold applyEgressAssignments at 1. destruct (foldl (apply_assignment env) ([], g) assigned) as [errs1 g1] eqn:Ef. intros [= <- <-].
  destruct (apply_all_spec _ _ _ _ _ Hnd Ef) as (Hout & Hin & Hlen). pose proof (named_after _ _ _ Hn Hout Hin) as Hn1.
  pose proof (λ x, withdraw_unwanted_services assigned g1 x Hn1) as Hw. set (g' := withdraw_unwanted env assigned g1) in *.
  assert (∀ x, x ∈ assigned_names assigned → rg_services g' !! x = rg_services g1 !! x) as Hkept.
  { intros x Hx. rewrite Hw, (proj2 (wanted_spec _ _) Hx). unfold GetTyped, Get. destruct (rg_services g1 !! x); [|done]. cbn. by case_bool_decide. }
  assert (∀ d, Some d ∈ assigned → served g' (eg_name d) = outcome g d) as Hserved.
  { intros d Hd. rewrite (served_lookup g1 g') by (by apply Hkept, assigned_names_elem).
    destruct (entry_cases _ _ _ (Hin _ Hd)) as [[Heq ->]|(svc & Hs & Hm & -> & _)]; [by apply served_lookup|by eapply serves_served]. }
  assert (∀ x, x ∉ assigned_names assigned → served g' x = None) as Hgone.
  { intros x Hx. unfold served, GetTyped, Get. rewrite Hw. unfold GetTyped, Get. destruct (rg_services g1 !! x) as [svc|]; [|done]. cbn.
    rewrite <-wanted_spec in Hx. case_bool_decide as Ht; [by destruct (wanted assigned x)|]. cbn. by rewrite bool_decide_false. }
  split_and!; [done..| |done|].
  - intros x svc Ht. destruct (decide (x ∈ assigned_names assigned)) as [Hx|Hx].
    + rewrite Hkept by done. apply list_elem_of_fmap in Hx as (d & -> & ([d'|] & Hd' & [= ->])%list_elem_of_omap).
      destruct (entry_cases _ _ _ (Hin _ Hd')) as [[-> _]|(svc' & (Ht' & _) & Hm & _ & Hold)]; [done|].
      rewrite Hm. split; [by intros [= ->]|]. intros Hg. by apply Hold in Hg.
    + rewrite Hw, <-Hout by done. unfold GetTyped, Get. destruct (rg_services g1 !! x) as [svc'|]; [|done]. cbn.
      rewrite <-wanted_spec in Hx. case_bool_decide as Ht'; [|done]. destruct (wanted assigned x); [done|]. split; [done|]. by intros [= ->].
  - intros Herr. rewrite Herr in Hlen. cbn in Hlen. apply applied_again; [|intros d Hd|done].
    + intros x svc Hx. rewrite Hw in Hx. unfold GetTyped, Get in Hx. destruct (rg_services g1 !! x) as [svc'|] eqn:Ex; [|done]. cbn in Hx.
      assert (svc' = svc) as -> by (case_bool_decide; [destruct (wanted assigned x)|]; naive_solver). by apply Hn1.
    + rewrite Hserved by done. unfold outcome. destruct (_ || _) eqn:Eo; [done|]. apply orb_false_iff in Eo as [Eo1%bool_decide_eq_false Eo2].
      exfalso. assert (d ∈ refused_assignments g assigned) as Hr; [|symmetry in Hlen; apply nil_length_inv in Hlen; rewrite Hlen in Hr; by apply elem_of_nil in Hr].
      apply list_elem_of_filter. split; [done|]. apply list_elem_of_omap. by exists (Some d).
Qed.
End assignments.

(** ** Examples *)

#[local] Existing Instance ascii_case.
#[refine] Definition short_hash : SHA256 := {| sha256_Sum256 s := str_take 32 (s +:+ "00000000000000000000000000000000") |}.
Proof. intros s. rewrite len_take, len_app. cbn [String.length]. lia. Defined.
#[local] Existing Instance short_hash.

Definition calc (t : ServiceType) (instance : nat) : Service := {| sv_instance := instance; sv_Type := t; sv_Name := "calc"; sv_egress := None |}.

Definition good_env : RegistryEnv :=
  {| re_secrets := λ _, fail "no secrets"; re_Init := λ _, Ok tt; re_Probe := λ _, Ok tt; re_Provide := λ _, true; re_Withdraw := λ _, true |}.

Definition one_service : Registry := register_insert (calc SERVICE_TYPE_MCP 0) (publish good_env (calc SERVICE_TYPE_MCP 0) NewServiceRegistry).

Lemma one_service_reachable : registry_reachable (one_service, []).
Proof.
  eapply rtc_l; [apply (step_check _ _ (calc SERVICE_TYPE_MCP 0)); by vm_compute|].
  eapply rtc_l; [apply (step_publish good_env _ [] [])|]. eapply rtc_l; [apply (step_insert _ [] [])|]. apply rtc_refl.
Qed.

Lemma registry_typed_witness :
  GetTyped one_service SERVICE_TYPE_MCP "calc" = Some (calc SERVICE_TYPE_MCP 0) ∧ GetTyped one_service SERVICE_TYPE_A2A "calc" = None ∧
  ParseServiceTarget (serviceTarget (calc SERVICE_TYPE_MCP 0)) = ("mcp", "calc").
Proof.
  destruct (registry_typed one_service [] one_service_reachable) as [Ht _].
  assert (GetTyped one_service SERVICE_TYPE_MCP "calc" = Some (calc SERVICE_TYPE_MCP 0)) as Hg by (by vm_compute).
  split_and!; [exact Hg|by vm_compute|]. destruct (Ht _ _ _ Hg) as (_ & _ & ty & [= <-] & _ & _ & Hp). exact Hp.
Defined.

(** Two registrations of one name under two types that both pass the check before
    either is in the registry: the second takes the place of the first. *)
Example two_types_one_name :
  let a := calc SERVICE_TYPE_MCP 0 in
  let b := calc SERVICE_TYPE_A2A 1 in
  ∃ g, registry_reachable (g, []) ∧ GetTyped g SERVICE_TYPE_MCP "calc" = None ∧ GetTyped g SERVICE_TYPE_A2A "calc" = Some b ∧ rg_torn g = [0] ∧
    is_ok (Register good_env b one_service).1 = false.
Proof.
  intros a b. exists (register_insert b (register_insert a (publish good_env b (publish good_env a NewServiceRegistry)))).
  split_and!; [|by vm_compute..].
  eapply rtc_l; [apply (step_check _ _ a); by vm_compute|]. eapply rtc_l; [apply (step_check _ _ b); by vm_compute|].
  eapply rtc_l; [apply (step_publish good_env _ [PChecked b] [])|]. eapply rtc_l; [apply (step_publish good_env _ [] [PInsert a])|].
  eapply rtc_l; [apply (step_insert _ [PInsert b] [])|]. eapply rtc_l; [apply (step_insert _ [] [])|]. apply rtc_refl.
Qed.

(** A service may be registered under the name "*", and no reader of the directory
    takes its records. *)
Example wildcard_name :
  let svc := {| sv_instance := 0; sv_Type := SERVICE_TYPE_MCP; sv_Name := "*"; sv_egress := None |} in
  is_ok (Register good_env svc NewServiceRegistry).1 = true ∧
  ∀ key, is_ok (ServiceOfRecord "12D3p1" key (serviceTarget svc)) = false.
Proof. split; [by vm_compute|]. intros key. reflexivity. Qed.

#[local] Instance https_urls : URLParser := {| url_Parse s :=
  Ok {| url_Scheme := "https"; url_Host := TrimPrefix s "https://"; url_Hostname := TrimPrefix s "https://"; url_Port := ""; url_Path := "";
        url_has_User := false; url_RawQuery := ""; url_Fragment := "" |} |}.

Definition plain_destination (name secret : string) : EgressDestination :=
  {| eg_name := name; eg_target_url := ""; eg_credential := secret; eg_served_by := ["gateway"]; eg_broker := None; eg_inspectors := [];
     eg_mode := EGRESS_MODE_HTTP; eg_ports := []; eg_preserve_host := false; eg_forward_context := false |}.

Definition assigned_now : list (option EgressDestination) :=
  [Some (plain_destination "api.example.com" ""); Some (plain_destination "other.example.com" "missing"); None].

Lemma one_service_named : named one_service.
Proof.
  intros name svc. unfold one_service. rewrite register_insert_services, publish_services, lookup_insert_Some.
  intros [[<- <-]|[_ Hl]]; [by vm_compute|]. cbn [NewServiceRegistry rg_services] in Hl. by rewrite lookup_empty in Hl.
Qed.

Lemma assigned_now_names : NoDup (assigned_names assigned_now).
Proof. apply (bool_decide_unpack _). by vm_compute. Qed.

(** One of two destinations can be served: the other's credential is not there. *)
Lemma assignments_applied_witness :
  let '(errs, g) := applyEgressAssignments good_env assigned_now one_service in
  served g "api.example.com" = Some (plain_destination "api.example.com" "") ∧ served g "other.example.com" = None ∧ length errs = 1 ∧
  rg_services g !! "calc" = Some (calc SERVICE_TYPE_MCP 0).
Proof.
  destruct (applyEgressAssignments good_env assigned_now one_service) as [errs g] eqn:E.
  destruct (assignments_applied good_env assigned_now one_service errs g one_service_named assigned_now_names E) as (H1 & _ & H3 & H4 & _).
  clear E. split_and!.
  - trans (outcome good_env one_service (plain_destination "api.example.com" "")); [apply (H1 (plain_destination "api.example.com" "")); by left|by vm_compute].
  - trans (outcome good_env one_service (plain_destination "other.example.com" "missing"));
      [apply (H1 (plain_destination "other.example.com" "missing")); right; by left|by vm_compute].
  - rewrite H4. by vm_compute.
  - apply H3; [done|by vm_compute].
Defined.
