(* ===== verification/Ingress.v ===== *)
(** * Where requests enter

    The handler of requests that come over the mesh
    ([StartIngressServer] of [src/internal/node/node.go]), the local API's way
    to an egress destination ([handleLocalEgress] of
    [src/internal/node/egress.go]), CONNECT tunnels
    ([src/internal/node/egress_tunnel.go]), and the decisions that a node makes
    for an external proxy ([src/internal/node/ext_authz.go]).  Each ends in an
    answer of its own or in the request that the service's handler gets.
    Accounting, logging and metrics are left out. *)

From S2P Require Import Prelude GoStrings Regex Names Biscuit NaiveEngine Facts DatalogText Grants Labels HTTPGrants PolicyRules Egress Base64 Tar Token TokenModel Identity Middleware MiddlewareFacts LabelsGate Directory Decimal Effects Http LocalAuth Callout TlsHello SafeDial EgressService EgressInspect Registry.

(** What is read of a JSON-RPC request: its method and the name in its
    parameters. *)
Class RPCText := { rpc_Unmarshal : string → option (string * string) }.
(** [protojson.Marshal] of a task rule. *)
Class TaskJSON := { task_json : TaskAuthorizationRule → result string }.

Definition MaxGRPCMessageBytes : Z := 16 * 2 ^ 20.

(** The request and the caller's credential for the handler of a service, or an
    answer. *)
Inductive Dispatch :=
| Rejected (a : Answer)
| Dispatched (svc : Service) (r : Request) (caller : string).

Definition plain_error (text : string) (status : Z) : Dispatch := Rejected (http_Error ∅ text status).

Section ingress.
Context `{UC : UnicodeCase, TC : TARCodec, BT : BiscuitTokens, BE : BiscuitEngine, PC : PeerCodec, SH : SHA256, JH : JWTHeader, RT : RPCText}.

(** ** MCP bodies *)

Definition InspectJSONRPCMCPBody (body : string) : string * bool :=
  match rpc_Unmarshal body with
  | None => ("", false)
  | Some (method, name) =>
      if slices_Contains ["initialize"; "ping"; "tools/list"] method then ("", true)
      else if bool_decide (method = "tools/call") then
        let rawTool := TrimSpace name in
        if bool_decide (rawTool = "") then ("", false)
        else match SplitToolName rawTool with
             | Ok (_, stripped) => (stripped, false)
             | Err _ => (rawTool, false)
             end
      else ("", false)
  end.

Definition InspectMCPHTTPRequestBody (r : Request) : result (string * bool) :=
  if negb (EqualFold (req_Method r) "POST") then Ok ("", false)
  else match req_Body r with
  | None => fail "read"
  | Some data =>
      fail_if (MaxGRPCMessageBytes <? Z.of_nat (len data))%Z "MCP request body exceeds maximum inspection size";;
      Ok (InspectJSONRPCMCPBody data)
  end.

(** ** Requests over the mesh *)

(** The value that [strconv.Atoi] returns when its error is not looked at: zero
    for what is no number, and the nearest integer for a number out of range,
    which is found out at the first digit too many. *)
Fixpoint saturated_digits (acc : Z) (s : string) : option Z :=
  match s with
  | "" => Some acc
  | String c s =>
      if in_range 48 57 c then
        let acc := (acc * 10 + (byte c - 48))%Z in
        if (2 ^ 64 <=? acc)%Z then Some (2 ^ 64 - 1)%Z else saturated_digits acc s
      else None
  end.

Definition Atoi_value (s : string) : Z :=
  let '(neg, ds) := match s with
                    | String "+" r => (false, r)
                    | String "-" r => (true, r)
                    | _ => (false, s)
                    end in
  let un := if bool_decide (ds = "") then 0%Z else default 0%Z (saturated_digits 0 ds) in
  if neg then Z.max (- un) (- 2 ^ 63) else Z.min un (2 ^ 63 - 1).

Lemma saturated_parse acc s n : (0 ≤ acc)%Z → parse_digits acc s = Some n → (n < 2 ^ 64)%Z → saturated_digits acc s = Some n ∧ (acc ≤ n)%Z.
Proof.
  revert acc. induction s as [|c s IH]; intros acc Hacc; cbn [parse_digits saturated_digits]; [by intros [= ->]|].
  destruct (in_range 48 57 c) eqn:Ec; [|done]. intros Hp Hn. unfold in_range in Ec.
  destruct (IH (acc * 10 + (byte c - 48))%Z) as [Hs Hle]; [lia|done|done|]. split; [|lia]. cbv zeta. by rewrite (proj2 (Z.leb_gt _ _)) by lia.
Qed.

(** On the numbers that [ParseInt] accepts it is that number. *)
Lemma Atoi_value_Ok s n : ParseInt s = Ok n → Atoi_value s = n.
Proof.
  unfold ParseInt, Atoi_value. set (sd := match s with String "+" r => _ | _ => _ end). destruct sd as [neg ds]. intros (un & Hu & H)%bind_Ok.
  rewrite !bind_unit_Ok, !fail_if_Ok in H. destruct H as (H1 & H2 & H3). injection H3 as <-. unfold ParseUint in Hu.
  case_bool_decide; [done|]. destruct (parse_digits 0 ds) as [v|] eqn:Ep; [|done]. rewrite bind_unit_Ok, fail_if_Ok, Z.leb_gt in Hu.
  destruct Hu as [Hv [= ->]]. destruct (saturated_parse 0 ds un ltac:(lia) Ep Hv) as [-> Hle]. cbn [default from_option id].
  destruct neg; cbn [negb andb] in H1, H2; [apply Z.ltb_ge in H2|apply Z.leb_gt in H1]; lia.
Qed.

(** The facts that the request is authorized on. *)
Definition ingress_context (g : Registry) (remotePeer : string) (t : ServiceType) (serviceTypeStr serviceName upstreamPath : string) (r : Request)
  : RequestContext :=
  let tunnel := EqualFold (Header_Get (req_Header r) "Upgrade") HeaderMeshTunnelUpgrade in
  let is_egress := bool_decide (t = SERVICE_TYPE_EGRESS) in
  {| rc_PeerID := remotePeer; rc_Protocol := "/libp2p-http"; rc_Target := ToLower serviceTypeStr +:+ "://" +:+ serviceName;
     rc_HTTP := Some (if is_egress && tunnel then {| hr_Method := "CONNECT"; hr_Path := "" |}
                      else {| hr_Method := req_Method r; hr_Path := "/" +:+ upstreamPath |});
     rc_Egress := if is_egress then
                    if tunnel then
                      Some {| ef_Host := serviceName;
                              ef_Port := Atoi_value (Header_Get (req_Header r) HeaderMeshEgressPort) |}
                    else svc ← GetTyped g t serviceName; egressFactsFor <$> sv_egress svc
                  else None;
     rc_Local := false; rc_MCPTool := ""; rc_AllowMCPStreamInit := false |}.

Definition with_mcp (c : RequestContext) (tool : string) (init : bool) : RequestContext :=
  {| rc_PeerID := rc_PeerID c; rc_Protocol := rc_Protocol c; rc_Target := rc_Target c; rc_HTTP := rc_HTTP c; rc_Egress := rc_Egress c;
     rc_Local := rc_Local c; rc_MCPTool := tool; rc_AllowMCPStreamInit := init |}.

(** The verification of a request, with the two steps of an MCP request: the
    credential first, and then with what the body says. *)
Definition ingress_verify (now : time) (n : AgentMeshNode) (biscuitBytes : string) (t : ServiceType) (c : RequestContext) (r : Request)
  : (Answer + RequestContext) * AgentMeshNode :=
  let denied := refuse 403 "Authorization failed" proxyStatusDenied in
  let final c n :=
    match VerifyBiscuitToken now n biscuitBytes c with
    | (Ok _, n) => (inr c, n)
    | (Err _, n) => (inl denied, n)
    end in
  if bool_decide (t = SERVICE_TYPE_MCP) then
    match VerifyBiscuitToken now n biscuitBytes (with_mcp c "" true) with
    | (Err _, n) => (inl denied, n)
    | (Ok _, n) =>
        match InspectMCPHTTPRequestBody r with
        | Err e => (inl (refuse 413 "MCP request body" proxyStatusDenied), n)
        | Ok (tool, init) => final (with_mcp c tool init) n
        end
    end
  else final c n.

Definition stripped_header (name : string) : bool :=
  let lower := ToLower name in bool_decide (lower = "cookie") || HasPrefix lower "x-mesh-".

(** The headers that the service gets: who is calling, as this node verified
    it. *)
Definition ingress_headers (now : time) (l : LocalNode) (remotePeer biscuitBytes : string) (h : Header) : Header * AgentMeshNode :=
  let h := Header_Set (Header_drop stripped_header h) HeaderPeerID remotePeer in
  match VerifyLocalBiscuit now l biscuitBytes with
  | (Ok claims, n) =>
      let h := if bool_decide (Principal claims = "") then h else Header_Set h HeaderMeshPrincipal (Principal claims) in
      (match vc_Roles claims with [] => h | roles => Header_Set h HeaderMeshRoles (Join roles ",") end, n)
  | (Err _, n) => (h, n)
  end.

Definition set_node (l : LocalNode) (n : AgentMeshNode) : LocalNode :=
  {| ln_node := n; ln_self := ln_self l; ln_storedKey := ln_storedKey l; ln_labels := ln_labels l |}.

(** [allow] is the rate limiter, when there is one; [handled] says that a service
    has a handler. *)
Definition ingress (now : time) (allow : option (string → bool)) (handled : Service → bool) (l : LocalNode) (g : Registry) (remoteAddr : string) (r : Request)
  : Dispatch * AgentMeshNode :=
  let n := ln_node l in
  if hasDotSegment (req_Path r) then (plain_error "Invalid path" 400, n)
  else match SplitN (TrimPrefix (req_Path r) "/") "/" 3 with
  | serviceTypeStr :: serviceName :: rest =>
      let upstreamPath := default "" (head rest) in
      match ParseServiceType serviceTypeStr with
      | Err _ => (plain_error "Invalid service type" 400, n)
      | Ok t =>
          let biscuitB64 := Header_Get (req_Header r) HeaderMeshBiscuit in
          if bool_decide (biscuitB64 = "") then (plain_error "Missing X-Mesh-Biscuit header" 401, n)
          else match Std_Decode biscuitB64 with
          | Err _ => (plain_error "Invalid X-Mesh-Biscuit encoding" 400, n)
          | Ok biscuitBytes =>
              match peer_Decode remoteAddr with
              | Err _ => (plain_error "Invalid remote peer" 400, n)
              | Ok remotePeer =>
                  if match allow with Some allow => negb (allow remotePeer) | None => false end then (plain_error "Too Many Requests" 429, n)
                  else
                    let c := ingress_context g remotePeer t serviceTypeStr serviceName upstreamPath r in
                    match ingress_verify now n biscuitBytes t c r with
                    | (inl a, n) => (Rejected a, n)
                    | (inr _, n) =>
                        let '(h, n) := ingress_headers now (set_node l n) remotePeer biscuitBytes (req_Header r) in
                        match GetTyped g t serviceName with
                        | None => (plain_error "Service not found" 404, n)
                        | Some svc =>
                            if negb (handled svc) then (plain_error "Service not found" 404, n)
                            else
                              let h := if bool_decide (upstreamPath = "") && bool_decide (rest = [])
                                       then Header_Set h HeaderMeshNoTrailingSlash "true" else h in
                              (Dispatched svc (with_path (with_headers r h) ("/" +:+ upstreamPath)) biscuitBytes, n)
                        end
                    end
              end
          end
      end
  | _ => (plain_error "Invalid path" 400, n)
  end.

(** ** Egress through the local API *)

Definition handleLocalEgress (now : time) (handled : Service → bool) (l : LocalNode) (g : Registry) (hostID : string) (caller : option string) (r : Request)
  : Dispatch * AgentMeshNode :=
  let n := ln_node l in
  if hasDotSegment (req_Path r) then (plain_error "Invalid path" 400, n)
  else match parseRequiredLabels (Header_Get (req_Header r) HeaderMeshRequiredLabels) with
  | Err _ => (Rejected (refuse 400 "Invalid X-Mesh-Required-Labels header" proxyStatusDenied), n)
  | Ok requiredLabels =>
      let h := Header_Del (req_Header r) HeaderMeshRequiredLabels in
      let '(host, upstreamPath, _) := Cut (TrimPrefix (req_Path r) "/egress/") "/" in
      let host := NormalizeMeshHost host in
      if bool_decide (host = "") then (plain_error "Usage: /egress/<destination>/<path>" 400, n)
      else
        let not_assigned := Rejected (refuse 404 "no egress destination is assigned to this node" proxyStatusDestinationNotFound) in
        match GetTyped g SERVICE_TYPE_EGRESS host with
        | None => (not_assigned, n)
        | Some svc =>
            if negb (handled svc) then (not_assigned, n)
            else if outsideLabels requiredLabels (ln_labels l) true then
              (Rejected (refuse 403 "Required labels not attested by provider" proxyStatusDenied), n)
            else if outsideLabels (egressFloor n) (ln_labels l) true then
              (Rejected (refuse 403 "Forbidden: provider does not attest the egress floor" proxyStatusDenied), n)
            else
              match GetRequestIdentity n caller with
              | (None, n) => (plain_error "node has no credential yet" 503, n)
              | (Some ident, n) =>
                  let c := {| rc_PeerID := hostID; rc_Protocol := "local-api"; rc_Target := EgressServicePrefix +:+ host;
                              rc_HTTP := Some {| hr_Method := req_Method r; hr_Path := "/" +:+ upstreamPath |};
                              rc_Egress := egressFactsFor <$> sv_egress svc; rc_Local := true; rc_MCPTool := ""; rc_AllowMCPStreamInit := false |} in
                  match VerifyBiscuitToken now n ident c with
                  | (Err _, n) => (Rejected (refuse 403 "Authorization failed" proxyStatusDenied), n)
                  | (Ok _, n) =>
                      let h := Header_Set (Header_Del h HeaderMeshBiscuit) HeaderPeerID hostID in
                      (Dispatched svc (with_path (with_headers r h) ("/" +:+ upstreamPath)) ident, n)
                  end
              end
        end
  end.

(** ** CONNECT *)

(** The header that [withConnectTunnel] authenticates a CONNECT request by. *)
Definition connect_headers (h : Header) : Header :=
  let proxyAuth := Header_Get h "Proxy-Authorization" in
  let h := if negb (bool_decide (proxyAuth = "")) && bool_decide (Header_Get h HeaderMeshAuthentication = "")
           then Header_Set h HeaderMeshAuthentication proxyAuth else h in
  Header_Del h "Proxy-Authorization".

(** [rawHost] is the host of the request, which [http.Server] takes from the
    request line of a CONNECT. *)
Definition parseConnectHostPort (rawHost : string) : result (string * Z) :=
  match SplitHostPort rawHost with
  | Err _ => fail "CONNECT target must be host:port"
  | Ok (host, portStr) =>
      let host := NormalizeMeshHost host in
      match ParseInt portStr with
      | Err _ => fail "invalid port"
      | Ok p =>
          fail_if ((p <=? 0) || (65535 <? p))%Z "invalid port";;
          ValidateEgressName host;;
          Ok (host, p)
      end
  end.

(** Where a tunnel goes: to this node's service, over the mesh with the request
    that is written to the peer, or nowhere. *)
Inductive Connect :=
| ConnectRejected (a : Answer)
| ConnectLocal (svc : Service) (reqPort : Z) (caller : string)
| ConnectForward (peer reqLine : string).

Definition crlf : string := String "013" newline.

Definition forward_request (host : string) (p : Z) (biscuitBytes : string) : string :=
  "GET /egress/" +:+ host +:+ " HTTP/1.1" +:+ crlf +:+ "Host: " +:+ host +:+ ":" +:+ FormatInt p +:+ crlf +:+
  "Connection: Upgrade" +:+ crlf +:+ "Upgrade: " +:+ HeaderMeshTunnelUpgrade +:+ crlf +:+
  HeaderMeshEgressPort +:+ ": " +:+ FormatInt p +:+ crlf +:+ HeaderMeshBiscuit +:+ ": " +:+ Std_Encode biscuitBytes +:+ crlf +:+ crlf.

(** The first provider that passes the label gate; whether one of those before it
    was heard from and refused. *)
Fixpoint first_provider (verify : string → result unit) (providers : list string) (denied : bool) : option string * bool :=
  match providers with
  | [] => (None, denied)
  | p :: providers =>
      match peer_Decode p with
      | Err _ => first_provider verify providers denied
      | Ok targetPeer =>
          match verify targetPeer with
          | Ok _ => (Some targetPeer, denied)
          | Err e => first_provider verify providers (denied || negb (errors_Is e ErrProviderUnreachable))
          end
      end
  end.

(** [discover] is what the directory finds, [verify] the label gate; the node has
    a host. *)
Definition handleConnectTunnel (now : time) (discover : string → result (list string)) (verify : string → gmap string string → string → result unit)
    (l : LocalNode) (g : Registry) (caller : option string) (r : Request) : Connect * AgentMeshNode :=
  let n := ln_node l in
  match parseConnectHostPort (req_Host r) with
  | Err _ => (ConnectRejected (refuse 400 "CONNECT target" proxyStatusDenied), n)
  | Ok (host, p) =>
      match parseRequiredLabels (Header_Get (req_Header r) HeaderMeshRequiredLabels) with
      | Err _ => (ConnectRejected (refuse 400 "Invalid X-Mesh-Required-Labels header" proxyStatusDenied), n)
      | Ok requiredLabels =>
          match GetRequestIdentity n caller with
          | (None, n) => (ConnectRejected (http_Error ∅ "node has no credential yet" 503), n)
          | (Some ident, n) =>
              let svc := GetTyped g SERVICE_TYPE_EGRESS host in
              let localLabelFailed := outsideLabels requiredLabels (ln_labels l) true || outsideLabels (egressFloor n) (ln_labels l) true in
              let labels_refused := ConnectRejected (refuse 403 "Required labels not attested by provider" proxyStatusDenied) in
              let remote :=
                match discover host with
                | Ok ((_ :: _) as providers) =>
                    match first_provider (λ p, verify p requiredLabels (EgressServicePrefix +:+ host)) providers false with
                    | (Some peer, _) => ConnectForward peer (forward_request host p ident)
                    | (None, false) => ConnectRejected (refuse 502 "Bad Gateway: no provider answered" proxyStatusDestinationUnreachable)
                    | (None, true) => labels_refused
                    end
                | _ =>
                    if bool_decide (is_Some svc) && localLabelFailed then labels_refused
                    else ConnectRejected (refuse 404 "no provider found" proxyStatusDestinationNotFound)
                end in
              match svc with
              | Some svc =>
                  if localLabelFailed then (remote, n)
                  else
                    let c := {| rc_PeerID := default "" (ln_self l); rc_Protocol := "local-api"; rc_Target := EgressServicePrefix +:+ host;
                                rc_HTTP := Some {| hr_Method := "CONNECT"; hr_Path := "" |}; rc_Egress := Some {| ef_Host := host; ef_Port := p |};
                                rc_Local := true; rc_MCPTool := ""; rc_AllowMCPStreamInit := false |} in
                    match VerifyBiscuitToken now n ident c with
                    | (Err _, n) => (ConnectRejected (refuse 403 "Authorization failed" proxyStatusDenied), n)
                    | (Ok _, n) => (ConnectLocal svc p ident, n)
                    end
              | None => (remote, n)
              end
          end
      end
  end.

(** ** Decisions for an external proxy *)

Record CheckInput := {
  ci_Method : string;
  ci_Path : string;
  ci_Host : string;
  ci_Headers : gmap string string;  (** under lower case names *)
  ci_AllowMCPStreamInit : bool;
}.

Record CheckResult := { ck_Allowed : bool; ck_HTTPStatus : Z; ck_ResponseHeaders : gmap string string }.

Definition check_denied (status : Z) : CheckResult := {| ck_Allowed := false; ck_HTTPStatus := status; ck_ResponseHeaders := ∅ |}.

Definition HeaderMeshMCPTool : string := "X-Mesh-Mcp-Tool".

Definition header_of (headers : gmap string string) (name : string) : string := default "" (headers !! ToLower name).

(** The credential that is presented, or the status of the refusal. *)
Definition extractAndVerifyExtAuthzBiscuit (exchanged : string → result string) (headers : gmap string string) : Z + string :=
  let rawB64 := TrimSpace (header_of headers HeaderMeshBiscuit) in
  if negb (bool_decide (rawB64 = "")) then
    match decodeBiscuitToken rawB64 with Ok raw => inr raw | Err _ => inl 403%Z end
  else
    let bearer := default "" (head (omap (λ h, bearer_value (TrimSpace (default "" (headers !! h)))) [ToLower HeaderMeshAuthentication; "authorization"])) in
    if bool_decide (bearer = "") then inl 401%Z
    else match decodeBiscuitToken bearer with
    | Ok raw => inr raw
    | Err _ => if isLikelyJWT bearer then match exchanged bearer with Ok b => inr b | Err _ => inl 403%Z end else inl 403%Z
    end.

Definition isExtAuthzServiceScheme (scheme : string) : bool :=
  slices_Contains [ServiceTypeStringMCP; ServiceTypeStringInference; ServiceTypeStringA2A; ServiceTypeStringEgress; "http"] scheme.

Record egressRoute := { rt_peerID : string; rt_serviceType : string; rt_serviceName : string; rt_upstreamPath : string }.

Definition parseEgressRoute (path : string) : option egressRoute :=
  match SplitN path "/" 6 with
  | _ :: _ :: peerID :: t :: name :: rest =>
      Some {| rt_peerID := peerID; rt_serviceType := ToLower t; rt_serviceName := name; rt_upstreamPath := default "" (head rest) |}
  | _ => None
  end.

(** The name of a service, under which an egress destination is normalised. *)
Definition normalised_name (scheme name : string) : string :=
  if bool_decide (scheme = ServiceTypeStringEgress) then NormalizeMeshHost name else name.

(** The target and the path; no target where there is none. *)
Definition resolveExtAuthzTarget (g : Registry) (i : CheckInput) : option string * string :=
  let path := (Cut (ci_Path i) "?").1.1 in
  let explicit := TrimSpace (header_of (ci_Headers i) HeaderMeshTargetService) in
  if negb (bool_decide (explicit = "")) then
    let '(scheme, name) := ParseServiceTarget explicit in
    let scheme := ToLower scheme in
    let name' := normalised_name scheme name in
    if isExtAuthzServiceScheme scheme && negb (bool_decide (name = "")) && negb (bool_decide (name' = ""))
    then (Some (scheme +:+ "://" +:+ name'), path) else (None, path)
  else
    let by_host :=
      let normHost := NormalizeMeshHost (ci_Host i) in
      if bool_decide (TrimSpace (ci_Host i) = "") || bool_decide (normHost = "") then (None, path)
      else match GetTyped g SERVICE_TYPE_EGRESS normHost with
           | Some _ => (Some (EgressServicePrefix +:+ normHost), if bool_decide (path = "") then "/" else path)
           | None => (None, path)
           end in
    let by_route :=
      if HasPrefix path "/mesh/" then
        match parseEgressRoute path with
        | Some route =>
            if isExtAuthzServiceScheme (rt_serviceType route)
            then (Some (rt_serviceType route +:+ "://" +:+ rt_serviceName route), "/" +:+ rt_upstreamPath route) else by_host
        | None => by_host
        end
      else by_host in
    match SplitN (TrimPrefix (TrimPrefix path "/mesh/") "/") "/" 3 with
    | t :: name :: rest =>
        let scheme := ToLower t in
        let name := normalised_name scheme name in
        if isExtAuthzServiceScheme scheme && negb (bool_decide (name = ""))
        then (Some (scheme +:+ "://" +:+ name), "/" +:+ default "" (head rest)) else by_route
    | _ => by_route
    end.

(** The peer that a credential is evaluated for. *)
Definition ext_authz_peer (localPID : string) (claims : VerifiedBiscuitClaims) : result string :=
  match vc_TaskRules claims with
  | [] => Ok localPID
  | _ => if bool_decide (vc_ClientPeerID claims = "") then Ok localPID else peer_Decode (vc_ClientPeerID claims)
  end.

Definition ext_authz_egress (g : Registry) (target : string) : option EgressFacts :=
  if HasPrefix target EgressServicePrefix then
    let after := TrimPrefix target EgressServicePrefix in
    match GetTyped g SERVICE_TYPE_EGRESS after with
    | Some svc => Some (default {| ef_Host := after; ef_Port := 443 |} (egressFactsFor <$> sv_egress svc))
    | None => Some {| ef_Host := after; ef_Port := 443 |}
    end
  else None.

Definition ext_authz_headers `{TaskJSON} (rawBiscuit : string) (claims : VerifiedBiscuitClaims) : gmap string string :=
  let h := <[HeaderMeshBiscuit := Std_Encode rawBiscuit]> (<[HeaderMeshPrincipal := Principal claims]>
             (<[HeaderMeshRoles := Join (vc_Roles claims) ","]> ∅)) in
  match last (vc_TaskRules claims) with
  | None => h
  | Some lastRule =>
      let h := match task_json lastRule with Ok j => <[HeaderMeshTask := j]> h | Err _ => h end in
      if bool_decide (InnermostTaskName claims = "") then h else <[HeaderMeshTaskID := InnermostTaskName claims]> h
  end.

(** The credential of the destination, for a request that is allowed. *)
Definition ext_authz_credential (g : Registry) (target : string) (headers : gmap string string) : egress CheckResult :=
  let allowed h := {| ck_Allowed := true; ck_HTTPStatus := 200; ck_ResponseHeaders := h |} in
  match (if HasPrefix target EgressServicePrefix
         then svc ← GetTyped g SERVICE_TYPE_EGRESS (TrimPrefix target EgressServicePrefix); sv_egress svc else None) with
  | Some es =>
      match es_exchanger es with
      | Some _ =>
          auth ← resolveAuthorization es;
          mret (match auth with
                | Err _ => check_denied 502
                | Ok (authHdr, _) => allowed (if bool_decide (authHdr = "") then headers else <["Authorization" := authHdr]> headers)
                end)
      | None => mret (allowed headers)
      end
  | None => mret (allowed headers)
  end.

Definition evaluateExtAuthz `{TaskJSON} (now : time) (exchanged : string → result string) (l : LocalNode) (g : Registry) (i : CheckInput) : egress CheckResult :=
  match extractAndVerifyExtAuthzBiscuit exchanged (ci_Headers i) with
  | inl status => mret (check_denied status)
  | inr rawBiscuit =>
      match VerifyLocalBiscuit now l rawBiscuit with
      | (Err _, _) => mret (check_denied 403)
      | (Ok claims, n) =>
          match resolveExtAuthzTarget g i with
          | (None, _) => mret (check_denied 403)
          | (Some target, reqPath) =>
              match ln_self l with
              | None | Some "" => mret (check_denied 503)
              | Some localPID =>
                  match ext_authz_peer localPID claims with
                  | Err _ => mret (check_denied 400)
                  | Ok callerPeer =>
                      let c := {| rc_PeerID := callerPeer; rc_Protocol := "ext_authz"; rc_Target := target;
                                  rc_HTTP := Some {| hr_Method := if bool_decide (ci_Method i = "") then "GET" else ci_Method i;
                                                     hr_Path := if bool_decide (reqPath = "") then "/" else reqPath |};
                                  rc_Egress := ext_authz_egress g target; rc_Local := bool_decide (callerPeer = localPID);
                                  rc_MCPTool := header_of (ci_Headers i) HeaderMeshMCPTool; rc_AllowMCPStreamInit := ci_AllowMCPStreamInit i |} in
                      match VerifyBiscuitToken now n rawBiscuit c with
                      | (Err _, _) => mret (check_denied 403)
                      | (Ok _, _) => ext_authz_credential g target (ext_authz_headers rawBiscuit claims)
                      end
                  end
              end
          end
      end
  end.
End ingress.
