(* ===== verification/IngressFacts.v ===== *)
(** * What gets in

    Requests that reach a service of the node were authorized for it. *)

From S2P Require Import Prelude GoStrings Regex Names Biscuit NaiveEngine Facts DatalogText Grants Labels HTTPGrants PolicyRules Egress Base64 Tar Token TokenModel Identity Middleware MiddlewareFacts LabelsGate Directory Decimal Effects Http LocalAuth Callout TlsHello SafeDial EgressService EgressInspect EgressInspectFacts Registry RegistryFacts Ingress.

(** ** Segments *)

Lemma Split_not_nil s c : Split s c ≠ [].
Proof. destruct s as [|d s]; cbn; [done|]. case_bool_decide; [done|]. by destruct (Split s c). Qed.

Lemma Split_at (a b : string) (c : ascii) : Split (a +:+ String c b) c = Split a c ++ Split b c.
Proof.
  induction a as [|d a IH]; [change ("" +:+ String c b) with (String c b); cbn; by rewrite bool_decide_true|].
  change (String d a +:+ String c b) with (String d (a +:+ String c b)). cbn. rewrite IH. case_bool_decide; [done|].
  pose proof (Split_not_nil a c) as Hne. by destruct (Split a c).
Qed.

Lemma hasDotSegment_app a b : hasDotSegment (a +:+ String "/" b) = hasDotSegment a || hasDotSegment b.
Proof. unfold hasDotSegment. rewrite Split_at. apply existsb_app. Qed.

Lemma SplitN_not_nil s n : SplitN s "/" (S n) ≠ [].
Proof. destruct n; cbn; [done|]. by destruct (Cut s "/") as [[? ?] []]. Qed.

(** What is left of a path after its first segments has none of its own. *)
Lemma SplitN_dots s n parts last : hasDotSegment s = false → SplitN s "/" n = parts ++ [last] → hasDotSegment last = false.
Proof.
  revert s parts. induction n as [|[|n] IH]; intros s parts Hs.
  - by destruct parts.
  - cbn. destruct parts as [|? [|]]; [by intros [= <-]|done..].
  - change (SplitN s "/" (S (S n))) with (let '(before, after, found) := Cut s "/" in if found then before :: SplitN after "/" (S n) else [s]).
    destruct (Cut s "/") as [[b a] []] eqn:Ec; [|destruct parts as [|? [|]]; [by intros [= <-]|done..]].
    apply Cut_char_inv in Ec as [-> _]. rewrite hasDotSegment_app in Hs. apply orb_false_iff in Hs as [Hb Ha].
    destruct parts as [|p parts]; [intros [= _ Hn]; by apply SplitN_not_nil in Hn|intros [= _ Hn]; by apply (IH a parts)].
Qed.

Section facts.
Context `{UC : UnicodeCase, TC : TARCodec, BT : BiscuitTokens, BE : BiscuitEngine, PC : PeerCodec, SH : SHA256, JH : JWTHeader, RT : RPCText}.

Lemma VerifyBiscuitToken_snd now n raw req : node_equiv now (VerifyBiscuitToken now n raw req).2 n.
Proof.
  unfold VerifyBiscuitToken, verifyBiscuitTokenWithRules. destruct (peer_revoked n (rc_PeerID req)); [reflexivity|].
  generalize (n_trustedKeys n), (NewError "authorization failed"). intros keys. revert n.
  induction keys as [|key keys IH]; intros n e; simpl; [reflexivity|].
  pose proof (authorizeWithRules_snd now n raw req (tk_Key key)) as Hn.
  destruct (authorizeWithRules now n raw req (tk_Key key)) as [[rs|e'] m]; simpl in Hn; [done|].
  destruct (errors_Is e' ErrInvalidSignature); [|done]. specialize (IH m e').
  destruct (try_keys now m raw req keys e') as [x m']. simpl in *. by rewrite IH.
Qed.

(** The credential was verified for these facts, at a node with the caches of this
    one. *)
Definition authorized (now : time) (n : AgentMeshNode) (raw : string) (c : RequestContext) : Prop :=
  ∃ n0, node_equiv now n0 n ∧ (VerifyBiscuitToken now n0 raw c).1 = Ok tt.

Lemma ingress_verify_ok now n raw t c r c' n' :
  ingress_verify now n raw t c r = (inr c', n') →
  authorized now n raw c' ∧
  if bool_decide (t = SERVICE_TYPE_MCP)
  then authorized now n raw (with_mcp c "" true) ∧ ∃ tool init, InspectMCPHTTPRequestBody r = Ok (tool, init) ∧ c' = with_mcp c tool init
  else c' = c.
Proof.
  unfold ingress_verify. cbv zeta. case_bool_decide as Ht.
  - pose proof (VerifyBiscuitToken_snd now n raw (with_mcp c "" true)) as Hn.
    destruct (VerifyBiscuitToken now n raw (with_mcp c "" true)) as [[[]|] m] eqn:E1; [|done].
    destruct (InspectMCPHTTPRequestBody r) as [[tool init]|]; [|done].
    destruct (VerifyBiscuitToken now m raw (with_mcp c tool init)) as [[[]|] m'] eqn:E2; [|done]. intros [= <- _]. split; [|split].
    + exists m. split; [done|by rewrite E2].
    + exists n. split; [reflexivity|by rewrite E1].
    + by exists tool, init.
  - destruct (VerifyBiscuitToken now n raw c) as [[[]|] m] eqn:E; [|done]. intros [= <- _]. split; [|done]. exists n. split; [reflexivity|by rewrite E].
Qed.

Lemma ParseServiceType_lower s t : ParseServiceType s = Ok t → ServiceTypeToString t = Ok (ToLower s).
Proof. unfold ParseServiceType. cbv zeta. repeat (case_bool_decide as E; [intros [= <-]; by rewrite E|clear E]). done. Qed.

Lemma SplitN_length s n : length (SplitN s "/" n) ≤ n.
Proof.
  revert s. induction n as [|[|n] IH]; intros s; [cbn; lia..|].
  change (SplitN s "/" (S (S n))) with (let '(before, after, found) := Cut s "/" in if found then before :: SplitN after "/" (S n) else [s]).
  destruct (Cut s "/") as [[b a] []]; cbn [length]; [specialize (IH a); lia|lia].
Qed.

Lemma trimmed_dots p : hasDotSegment p = false → hasDotSegment (TrimPrefix p "/") = false.
Proof.
  unfold TrimPrefix. destruct (HasPrefix p "/") eqn:E; [|done]. apply HasPrefix_spec in E as [q ->].
  change (str_drop (len "/") ("/" +:+ q)) with q. change ("/" +:+ q) with ("" +:+ String "/" q). rewrite hasDotSegment_app. by intros [_ ?]%orb_false_iff.
Qed.

(** The path after the type and the name of a service. *)
Lemma upstream_dots p t name rest : hasDotSegment p = false → SplitN (TrimPrefix p "/") "/" 3 = t :: name :: rest →
  hasDotSegment ("/" +:+ default "" (head rest)) = false.
Proof.
  intros Hp%trimmed_dots Hs. change ("/" +:+ default "" (head rest)) with ("" +:+ String "/" (default "" (head rest))). rewrite hasDotSegment_app.
  destruct rest as [|x rest]; [done|]. pose proof (SplitN_length (TrimPrefix p "/") 3) as Hl. rewrite Hs in Hl. cbn in Hl.
  destruct rest; [|cbn in Hl; lia]. apply (SplitN_dots _ 3 [t; name] x Hp Hs).
Qed.

(** ** What the service sees *)

(** A header of a request that is passed on: one the caller sent, of those that
    are left alone, or what this node says of the caller. *)
Definition passed_header (h : Header) (remotePeer : string) (claims : result VerifiedBiscuitClaims) (name : string) (vs : list string) : Prop :=
  (stripped_header name = false ∧ h !! name = Some vs) ∨ (name = HeaderPeerID ∧ vs = [remotePeer]) ∨
  (name = HeaderMeshNoTrailingSlash ∧ vs = ["true"]) ∨
  ∃ c, claims = Ok c ∧ ((name = HeaderMeshPrincipal ∧ vs = [Principal c]) ∨ (name = HeaderMeshRoles ∧ vs = [Join (vc_Roles c) ","])).

Lemma Header_Set_cases h k v name vs : Header_Set h k v !! name = Some vs → (name = CanonicalHeaderKey k ∧ vs = [v]) ∨ (name ≠ CanonicalHeaderKey k ∧ h !! name = Some vs).
Proof. unfold Header_Set. rewrite lookup_insert_Some. naive_solver. Qed.

Lemma ingress_headers_lookup now l remotePeer raw h name vs :
  (ingress_headers now l remotePeer raw h).1 !! name = Some vs →
  passed_header h remotePeer (VerifyLocalBiscuit now l raw).1 name vs ∧ (name = HeaderPeerID → vs = [remotePeer]).
Proof.
  set (h0 := Header_Set (Header_drop stripped_header h) HeaderPeerID remotePeer).
  assert (∀ claims, h0 !! name = Some vs → passed_header h remotePeer claims name vs ∧ (name = HeaderPeerID → vs = [remotePeer])) as Hbase.
  { intros claims [[-> ->]|[Hne [Hl Hs]%Header_drop_lookup]]%Header_Set_cases; [split; [by right; left|done]|]. split; [by left|by intros ->]. }
  unfold ingress_headers. fold h0. destruct (VerifyLocalBiscuit now l raw) as [[c|e] n]; cbn [fst]; [|apply Hbase].
  assert (∀ vs, (if bool_decide (Principal c = "") then h0 else Header_Set h0 HeaderMeshPrincipal (Principal c)) !! name = Some vs →
    (name = HeaderMeshPrincipal ∧ vs = [Principal c]) ∨ h0 !! name = Some vs) as Hp.
  { intros vs'. case_bool_decide; [by right|]. intros [[-> ->]|[_ ?]]%Header_Set_cases; [by left|by right]. }
  intros Hl. assert ((name = HeaderMeshRoles ∧ vs = [Join (vc_Roles c) ","]) ∨
    (if bool_decide (Principal c = "") then h0 else Header_Set h0 HeaderMeshPrincipal (Principal c)) !! name = Some vs) as [[-> ->]|Hl'].
  { destruct (vc_Roles c) eqn:Er; [by right|]. apply Header_Set_cases in Hl as [[-> ->]|[_ ?]]; [by left|by right]. }
  - split; [|done]. right; right; right. exists c. split; [done|]. by right.
  - apply Hp in Hl' as [[-> ->]|Hl']; [|by apply Hbase]. split; [|done]. right; right; right. exists c. split; [done|]. by left.
Qed.

(** What a request that is passed on went through. *)
Lemma ingress_inv now allow handled l g remoteAddr r svc r' caller n' :
  ingress now allow handled l g remoteAddr r = (Dispatched svc r' caller, n') →
  ∃ ts name rest t remotePeer c n1,
    hasDotSegment (req_Path r) = false ∧ SplitN (TrimPrefix (req_Path r) "/") "/" 3 = ts :: name :: rest ∧ ParseServiceType ts = Ok t ∧
    Std_Decode (Header_Get (req_Header r) HeaderMeshBiscuit) = Ok caller ∧ peer_Decode remoteAddr = Ok remotePeer ∧
    (∀ f, allow = Some f → f remotePeer = true) ∧
    ingress_verify now (ln_node l) caller t (ingress_context g remotePeer t ts name (default "" (head rest)) r) r = (inr c, n1) ∧
    GetTyped g t name = Some svc ∧ req_Method r' = req_Method r ∧ req_Body r' = req_Body r ∧ req_Path r' = "/" +:+ default "" (head rest) ∧
    (∀ name vs, req_Header r' !! name = Some vs →
       passed_header (req_Header r) remotePeer (VerifyLocalBiscuit now (set_node l n1) caller).1 name vs ∧ (name = HeaderPeerID → vs = [remotePeer])).
Proof.
  unfold ingress. cbv zeta. destruct (hasDotSegment (req_Path r)) eqn:Edot; [done|].
  destruct (SplitN _ "/" 3) as [|ts [|name rest]] eqn:Es; [done..|]. destruct (ParseServiceType ts) as [t|] eqn:Et; [|done].
  case_bool_decide; [done|]. destruct (Std_Decode _) as [raw|] eqn:Eb; [|done]. destruct (peer_Decode remoteAddr) as [remotePeer|] eqn:Ep; [|done].
  destruct (match allow with Some _ => _ | None => _ end) eqn:Ea; [done|].
  destruct (ingress_verify _ _ _ _ _ _) as [[a|c] n1] eqn:Ev; [done|].
  destruct (ingress_headers _ _ _ _ _) as [h n2] eqn:Eh. destruct (GetTyped g t name) as [svc'|] eqn:Eg; [|done]. destruct (negb (handled svc')); [done|].
  intros [= -> <- <- _]. exists ts, name, rest, t, remotePeer, c, n1. split_and!; try done.
  - intros f ->. by apply negb_false_iff in Ea.
  - intros name' vs Hl. cbn [with_path with_headers req_Header] in Hl.
    assert ((name' = HeaderMeshNoTrailingSlash ∧ vs = ["true"]) ∨ h !! name' = Some vs) as [[-> ->]|Hl'].
    { destruct (_ && _) in Hl; [|by right]. apply Header_Set_cases in Hl as [[-> ->]|[_ ?]]; [by left|by right]. }
    + split; [by right; right; left|done].
    + apply (ingress_headers_lookup now (set_node l n1) remotePeer raw). by rewrite Eh.
Qed.

(** A request that asks an egress destination for a tunnel. *)
Definition asks_tunnel (svc : Service) (r : Request) : bool :=
  bool_decide (sv_Type svc = SERVICE_TYPE_EGRESS) && EqualFold (Header_Get (req_Header r) "Upgrade") HeaderMeshTunnelUpgrade.

(** C5: A request that comes over the mesh reaches a service only when its
    credential was verified for it: for the peer that the connection is with, for
    the target of the very service that gets it, and, for MCP, for the tool that
    its body calls.  It was verified for the method and the path that the service
    sees, and for an egress destination for its host and port, unless it asks the
    destination for a tunnel: then it was verified for CONNECT with no path, to the
    destination's name and the port that its header asks for, whatever its method
    and path are.  The service gets no cookie and no header of the mesh that the
    caller wrote, and its X-Peer-Id is that of the connection; the path that is
    left has no dot segment of its own. *)
Theorem ingress_authorized now allow handled l g remoteAddr r svc r' caller n' :
  registry_ok g → ingress now allow handled l g remoteAddr r = (Dispatched svc r' caller, n') →
  ∃ remotePeer c n1,
    peer_Decode remoteAddr = Ok remotePeer ∧ (∀ f, allow = Some f → f remotePeer = true) ∧
    Std_Decode (Header_Get (req_Header r) HeaderMeshBiscuit) = Ok caller ∧
    authorized now (ln_node l) caller c ∧ rc_PeerID c = remotePeer ∧ rc_Target c = serviceTarget svc ∧ rc_Local c = false ∧
    req_Method r' = req_Method r ∧
    (if asks_tunnel svc r then
       rc_HTTP c = Some {| hr_Method := "CONNECT"; hr_Path := "" |} ∧
       rc_Egress c = Some {| ef_Host := sv_Name svc; ef_Port := Atoi_value (Header_Get (req_Header r) HeaderMeshEgressPort) |}
     else
       rc_HTTP c = Some {| hr_Method := req_Method r'; hr_Path := req_Path r' |} ∧
       rc_Egress c = if bool_decide (sv_Type svc = SERVICE_TYPE_EGRESS) then egressFactsFor <$> sv_egress svc else None) ∧
    (sv_Type svc = SERVICE_TYPE_MCP → InspectMCPHTTPRequestBody r = Ok (rc_MCPTool c, rc_AllowMCPStreamInit c)) ∧
    req_Body r' = req_Body r ∧ hasDotSegment (req_Path r') = false ∧
    (∀ name vs, req_Header r' !! name = Some vs →
       passed_header (req_Header r) remotePeer (VerifyLocalBiscuit now (set_node l n1) caller).1 name vs ∧ (name = HeaderPeerID → vs = [remotePeer])).
Proof.
  intros [Hsv _] (ts & name & rest & t & remotePeer & c & n1 & Edot & Es & Et & Eb & Ep & Ea & Ev & Eg & Hm & Hb & Hpath & Hh)%ingress_inv.
  apply ingress_verify_ok in Ev as [Hauth Hc].
  assert (sv_Type svc = t ∧ sv_Name svc = name) as [Ht Hname].
  { unfold GetTyped, Get in Eg. destruct (rg_services g !! name) as [s0|] eqn:El; [|done]. cbn in Eg. case_bool_decide; [|done].
    injection Eg as ->. by destruct (Hsv _ _ El) as [-> _]. }
  set (up := default "" (head rest)) in *. set (c0 := ingress_context g remotePeer t ts name up r) in *.
  assert (rc_PeerID c = remotePeer ∧ rc_Target c = ToLower ts +:+ "://" +:+ name ∧ rc_Local c = false ∧ rc_HTTP c = rc_HTTP c0 ∧
          rc_Egress c = rc_Egress c0) as (H1 & H2 & H3 & H4 & H5).
  { case_bool_decide; [|by rewrite Hc]. by destruct Hc as [_ (tool & init & _ & ->)]. }
  exists remotePeer, c, n1. split_and!; try done.
  - unfold serviceTarget. by rewrite H2, Ht, Hname, (ParseServiceType_lower _ _ Et).
  - unfold asks_tunnel. rewrite H4, H5, Ht, Hm, Hpath, Hname. cbn [c0 ingress_context rc_HTTP rc_Egress].
    destruct (bool_decide (t = SERVICE_TYPE_EGRESS)); cbn [andb]; [|done]. destruct (EqualFold _ HeaderMeshTunnelUpgrade); [done|]. by rewrite Eg.
  - rewrite Ht. intros ->. rewrite bool_decide_true in Hc by done. by destruct Hc as [_ (tool & init & ? & ->)].
  - rewrite Hpath. by apply (upstream_dots (req_Path r) ts name).
Qed.

(** A tunnel that comes over the mesh is authorized for the port that it asks for
    and then opened to the destination's own: the header with the port is among
    those that are stripped before the service gets the request. *)
Lemma tunnel_port_lost now allow handled l g remoteAddr r svc r' caller n' :
  ingress now allow handled l g remoteAddr r = (Dispatched svc r' caller, n') →
  sv_Type svc = SERVICE_TYPE_EGRESS → EqualFold (Header_Get (req_Header r) "Upgrade") HeaderMeshTunnelUpgrade = true →
  (∃ c p, authorized now (ln_node l) caller c ∧ ef_Port <$> rc_Egress c = Some p ∧
     p = Atoi_value (Header_Get (req_Header r) HeaderMeshEgressPort)) ∧
  ∀ es, tunnel_port es (req_Header r') = port es.
Proof.
  intros (ts & name & rest & t & remotePeer & c & n1 & _ & _ & _ & _ & _ & _ & Ev & Eg & _ & _ & _ & Hh)%ingress_inv Ht Htun.
  apply ingress_verify_ok in Ev as [Hauth Hc].
  assert (t = SERVICE_TYPE_EGRESS) as ->.
  { unfold GetTyped, Get in Eg. destruct (rg_services g !! name); [|done]. cbn in Eg. case_bool_decide; [|done]. injection Eg as ->. congruence. }
  rewrite bool_decide_false in Hc by done. subst c. split.
  - eexists _, _. split_and!; [exact Hauth| |done]. cbn [ingress_context rc_Egress]. by rewrite bool_decide_true, Htun.
  - intros es. unfold tunnel_port. rewrite bool_decide_true; [done|]. unfold Header_Get.
    destruct (req_Header r' !! CanonicalHeaderKey HeaderMeshEgressPort) as [vs|] eqn:El; [|done]. exfalso.
    apply Hh in El as [[[Hs _]|[[Hn _]|[[Hn _]|(c & _ & [[Hn _]|[Hn _]])]]] _]; [|by vm_compute in Hn..].
    assert (stripped_header (CanonicalHeaderKey HeaderMeshEgressPort) = true) as Hs' by (by vm_compute). congruence.
Qed.

(** ** Egress through the local API *)

Lemma GetRequestIdentity_snd now n caller : node_equiv now (GetRequestIdentity n caller).2 n.
Proof. unfold GetRequestIdentity. destruct caller as [b|]; [|apply GetIdentity_snd]. case_bool_decide; [apply GetIdentity_snd|reflexivity]. Qed.

(** The verification that ends an entry of the local API. *)
Lemma verified_after now n caller ident n1 c n2 :
  GetRequestIdentity n caller = (Some ident, n1) → VerifyBiscuitToken now n1 ident c = (Ok tt, n2) → authorized now n ident c.
Proof. intros Hi Hv. exists n1. split; [|by rewrite Hv]. pose proof (GetRequestIdentity_snd now n caller) as He. by rewrite Hi in He. Qed.

Lemma egress_target g host svc : registry_ok g → GetTyped g SERVICE_TYPE_EGRESS host = Some svc →
  sv_Type svc = SERVICE_TYPE_EGRESS ∧ serviceTarget svc = EgressServicePrefix +:+ host.
Proof.
  intros [Hsv _] Hg. unfold GetTyped, Get in Hg. destruct (rg_services g !! host) as [s0|] eqn:El; [|done]. cbn in Hg.
  case_bool_decide as Ht; [|done]. injection Hg as ->. destruct (Hsv _ _ El) as [Hn _]. split; [done|]. unfold serviceTarget. by rewrite Ht, Hn.
Qed.

Lemma strip_peer_biscuit h k hostID :
  Header_Get (Header_Set (Header_Del (Header_Del h k) HeaderMeshBiscuit) HeaderPeerID hostID) HeaderMeshBiscuit = "".
Proof.
  unfold Header_Get, Header_Set, Header_Del. rewrite lookup_insert_ne by (intros Heq; by vm_compute in Heq). by rewrite lookup_delete_eq.
Qed.

(** A client of the local API reaches an egress destination of the node only
    under a credential that was verified for it: its own, or the node's when it
    presented none, for the destination's target, host and port and for the method
    and the path that the destination gets; the node attests the labels that the
    caller requires and those that its operator does; and the credential does not
    travel on. *)
Theorem local_egress_authorized now handled l g hostID caller r svc r' ident n' :
  registry_ok g → handleLocalEgress now handled l g hostID caller r = (Dispatched svc r' ident, n') →
  (GetRequestIdentity (ln_node l) caller).1 = Some ident ∧ sv_Type svc = SERVICE_TYPE_EGRESS ∧ hasDotSegment (req_Path r) = false ∧
  Header_Get (req_Header r') HeaderMeshBiscuit = "" ∧ Header_Get (req_Header r') HeaderPeerID = hostID ∧ req_Body r' = req_Body r ∧
  (∃ required, parseRequiredLabels (Header_Get (req_Header r) HeaderMeshRequiredLabels) = Ok required ∧
     outsideLabels required (ln_labels l) true = false ∧ outsideLabels (egressFloor (ln_node l)) (ln_labels l) true = false) ∧
  ∃ c, authorized now (ln_node l) ident c ∧ rc_PeerID c = hostID ∧ rc_Local c = true ∧ rc_Target c = serviceTarget svc ∧
    rc_HTTP c = Some {| hr_Method := req_Method r'; hr_Path := req_Path r' |} ∧ rc_Egress c = egressFactsFor <$> sv_egress svc.
Proof.
  intros Hok. unfold handleLocalEgress. cbv zeta. destruct (hasDotSegment (req_Path r)) eqn:Edot; [done|].
  destruct (parseRequiredLabels _) as [required|] eqn:El; [|done]. destruct (Cut _ "/") as [[host up] found].
  case_bool_decide; [done|]. destruct (GetTyped g SERVICE_TYPE_EGRESS (NormalizeMeshHost host)) as [svc'|] eqn:Eg; [|done].
  destruct (negb (handled svc')); [done|]. destruct (outsideLabels required _ _) eqn:E1; [done|]. destruct (outsideLabels (egressFloor _) _ _) eqn:E2; [done|].
  destruct (GetRequestIdentity (ln_node l) caller) as [[id|] n1] eqn:Ei; [|done].
  destruct (VerifyBiscuitToken _ _ _ _) as [[[]|] n2] eqn:Ev; [|done]. intros [= -> <- -> _].
  destruct (egress_target _ _ _ Hok Eg) as [Ht Htarget]. split_and!; try done.
  - apply strip_peer_biscuit.
  - cbn [with_path with_headers req_Header]. apply Header_Get_Set.
  - by exists required.
  - eexists. split_and!; [by eapply verified_after|done..].
Qed.

(** ** CONNECT *)

Lemma first_provider_verified verify providers denied peer d :
  first_provider verify providers denied = (Some peer, d) → ∃ p, p ∈ providers ∧ peer_Decode p = Ok peer ∧ verify peer = Ok tt.
Proof.
  revert denied. induction providers as [|p providers IH]; intros denied; cbn; [done|].
  destruct (peer_Decode p) as [target|] eqn:Ep; [|intros (q & ? & ?)%IH; exists q; split; [by right|done]].
  destruct (verify target) as [[]|] eqn:Ev; [|intros (q & ? & ?)%IH; exists q; split; [by right|done]].
  intros [= <- _]. exists p. split; [by left|done].
Qed.

(** A CONNECT request opens a tunnel of this node only under a credential that was
    verified for the destination and the port that it asks for; one that is
    forwarded goes to a peer that passed the label gate, with that host, that port
    and the caller's credential. *)
Lemma connect_authorized now discover verify l g caller r :
  registry_ok g →
  match (handleConnectTunnel now discover verify l g caller r).1 with
  | ConnectLocal svc p ident =>
      (GetRequestIdentity (ln_node l) caller).1 = Some ident ∧ sv_Type svc = SERVICE_TYPE_EGRESS ∧ (1 ≤ p ≤ 65535)%Z ∧
      ∃ c host, authorized now (ln_node l) ident c ∧ parseConnectHostPort (req_Host r) = Ok (host, p) ∧ rc_Target c = serviceTarget svc ∧
        rc_Egress c = Some {| ef_Host := host; ef_Port := p |} ∧ rc_HTTP c = Some {| hr_Method := "CONNECT"; hr_Path := "" |}
  | ConnectForward peer reqLine =>
      ∃ host p ident required, parseConnectHostPort (req_Host r) = Ok (host, p) ∧ (GetRequestIdentity (ln_node l) caller).1 = Some ident ∧
        reqLine = forward_request host p ident ∧
        parseRequiredLabels (Header_Get (req_Header r) HeaderMeshRequiredLabels) = Ok required ∧ verify peer required (EgressServicePrefix +:+ host) = Ok tt
  | ConnectRejected _ => True
  end.
Proof.
  intros Hok. unfold handleConnectTunnel. cbv zeta. destruct (parseConnectHostPort (req_Host r)) as [[host p]|] eqn:Eh; [|done].
  destruct (parseRequiredLabels _) as [required|] eqn:El; [|done].
  destruct (GetRequestIdentity (ln_node l) caller) as [[ident|] n1] eqn:Ei; [|done].
  set (remote := match discover host with Ok [] => _ | _ => _ end).
  assert (match remote with
    | ConnectForward peer reqLine => reqLine = forward_request host p ident ∧ verify peer required (EgressServicePrefix +:+ host) = Ok tt
    | ConnectLocal _ _ _ => False
    | ConnectRejected _ => True end) as Hrem.
  { subst remote. destruct (discover host) as [[|q qs]|]; [by destruct (_ && _)| |by destruct (_ && _)].
    destruct (first_provider _ (q :: qs) false) as [[peer|] d] eqn:Ef; [|by destruct d]. by apply first_provider_verified in Ef as (_ & _ & _ & ?). }
  assert (match remote with
    | ConnectLocal _ _ _ => False
    | ConnectForward peer reqLine => ∃ host0 p0 ident0 required0, Ok (host, p) = Ok (host0, p0) ∧ Some ident = Some ident0 ∧ reqLine = forward_request host0 p0 ident0 ∧
        Ok required = Ok required0 ∧ verify peer required0 (EgressServicePrefix +:+ host0) = Ok tt
    | ConnectRejected _ => True end) as Hrem'.
  { destruct remote; [done|done|]. exists host, p, ident, required. naive_solver. }
  destruct (GetTyped g SERVICE_TYPE_EGRESS host) as [svc|] eqn:Eg; [|by destruct remote].
  destruct (_ || _); [by destruct remote|]. destruct (VerifyBiscuitToken _ _ _ _) as [[[]|] n2] eqn:Ev; [|done]. cbn [fst].
  destruct (egress_target _ _ _ Hok Eg) as [Ht Htarget]. split_and!; [done|done| | |].
  1-2: unfold parseConnectHostPort in Eh; destruct (SplitHostPort _) as [[h ps]|]; [|done]; destruct (ParseInt ps) as [q|]; [|done];
    apply bind_unit_Ok in Eh as [Hp Eh]; apply fail_if_Ok, orb_false_iff in Hp as [? ?]; apply bind_unit_Ok in Eh as [_ [= _ ->]]; lia.
  eexists _, host. split_and!; [by eapply verified_after|done..].
Qed.

(** ** Decisions for an external proxy *)

Lemma ext_authz_headers_lookup `{TJ : TaskJSON} raw claims :
  ext_authz_headers raw claims !! HeaderMeshPrincipal = Some (Principal claims) ∧ ext_authz_headers raw claims !! "Authorization" = None.
Proof.
  unfold ext_authz_headers. set (h := <[HeaderMeshBiscuit := _]> _).
  assert (h !! HeaderMeshPrincipal = Some (Principal claims) ∧ h !! "Authorization" = None) as Hh.
  { subst h. rewrite !lookup_insert_ne by done. by rewrite lookup_insert_eq. }
  destruct (last (vc_TaskRules claims)) as [rule|]; [|done]. case_bool_decide; destruct (task_json rule); rewrite ?lookup_insert_ne by done; done.
Qed.

(** A request is allowed only with a credential that verifies at this node and was
    verified for the target that the request resolves to; the proxy is told the
    principal of that credential, and gets the destination's credential only as it
    was exchanged for this request. *)
Lemma ext_authz_allowed `{TJ : TaskJSON} now exchanged l g i tr res :
  eruns (evaluateExtAuthz now exchanged l g i) tr res → ck_Allowed res = true →
  ∃ raw claims target reqPath c n1,
    extractAndVerifyExtAuthzBiscuit exchanged (ci_Headers i) = inr raw ∧ VerifyLocalBiscuit now l raw = (Ok claims, n1) ∧
    resolveExtAuthzTarget g i = (Some target, reqPath) ∧ (VerifyBiscuitToken now n1 raw c).1 = Ok tt ∧ rc_Target c = target ∧
    ck_ResponseHeaders res !! HeaderMeshPrincipal = Some (Principal claims) ∧
    (∀ v, ck_ResponseHeaders res !! "Authorization" = Some v →
       ∃ es principal rules tok, existT (CExchange principal rules) (Ok tok) ∈ tr ∧ v = rendered es tok).
Proof.
  unfold evaluateExtAuthz. intros Hr Ha.
  assert (∀ status, eruns (mret (check_denied status)) tr res → False) as Hden by (intros ? [_ <-]%eruns_ret; done).
  destruct (extractAndVerifyExtAuthzBiscuit exchanged (ci_Headers i)) as [status|raw] eqn:Ex; [by apply Hden in Hr|].
  destruct (VerifyLocalBiscuit now l raw) as [[claims|] n1] eqn:Ev; [|by apply Hden in Hr].
  destruct (resolveExtAuthzTarget g i) as [[target|] reqPath] eqn:Et; [|by apply Hden in Hr].
  destruct (ln_self l) as [[|a self]|]; [by apply Hden in Hr| |by apply Hden in Hr].
  destruct (ext_authz_peer _ claims) as [callerPeer|]; [|by apply Hden in Hr]. cbv zeta in Hr.
  destruct (VerifyBiscuitToken now n1 raw _) as [[[]|] n2] eqn:Eb; [|by apply Hden in Hr].
  eexists raw, claims, target, reqPath, _, n1. split_and!; [done..|by rewrite Eb|done| |].
  all: destruct (ext_authz_headers_lookup raw claims) as [Hp Hnone]; unfold ext_authz_credential in Hr; cbv zeta in Hr;
    destruct (if HasPrefix target EgressServicePrefix then _ else None) as [es|];
    [destruct (es_exchanger es) as [ex|]|]; [|by apply eruns_ret in Hr as [_ <-]; cbn; rewrite ?Hnone..];
    apply eruns_bind in Hr as (R & ? & auth & -> & HR & [-> <-]%eruns_ret); destruct auth as [[auth ec]|]; [|done]; cbn [ck_ResponseHeaders].
  - case_bool_decide; [done|]. by rewrite lookup_insert_ne.
  - intros v. case_bool_decide as Hne; [by rewrite Hnone|]. rewrite lookup_insert_eq. intros [= <-].
    apply resolveAuthorization_exchanged in HR as [[_ ?]|(tok & Hin & Hv)]; [done|]. exists es, (ec_principal ec), (ec_rules ec), tok.
    rewrite List.app_nil_r. split; [done|]. rewrite Hv in Hne |- *. by case_bool_decide.
Qed.
End facts.

(** ** Example *)

#[local] Existing Instances ascii_case one_rule_codec example_tokens naive_engine plain_codec short_hash.
#[local] Instance no_alg : JWTHeader := {| header_has_alg := λ _, false |}.
#[local] Instance ping_body : RPCText := {| rpc_Unmarshal := λ _, Some ("ping", "") |}.

Definition provider_node : LocalNode :=
  {| ln_node := {| n_revokedPeers := Some ∅; n_revokedTokens := Some ∅; n_trustedKeys := [{| tk_Key := example_public; tk_ReceivedAt := 0%Z |}];
                   n_nodeConfig := None; n_MeshPolicyRules := []; n_cachedIdentity := Some (token_bytes 4); n_storedIdentity := None |};
     ln_self := Some "12D3p2"; ln_storedKey := None; ln_labels := ∅ |}.

Definition calc_request (path : string) : Request :=
  {| req_Method := "POST"; req_Path := path; req_RawQuery := ""; req_Host := "12D3p2";
     req_Header := Header_Set (Header_Set ∅ HeaderMeshBiscuit "AA==") "X-Mesh-Principal" "root"; req_Body := Some "{}" |}.

Definition calc_ingress (path : string) : Dispatch :=
  (ingress (5 * second)%Z None (λ _, true) provider_node one_service "12D3p1" (calc_request path)).1.

(** A member calls the service it was granted, and the name it claims is replaced;
    another service is refused. *)
Lemma ingress_authorized_witness :
  match calc_ingress "/mcp/calc/rpc" with
  | Dispatched svc r' caller =>
      serviceTarget svc = "mcp://calc" ∧ req_Path r' = "/rpc" ∧ Header_Get (req_Header r') HeaderMeshPrincipal = "alice" ∧
      ∃ c, authorized (5 * second)%Z (ln_node provider_node) caller c ∧ rc_Target c = serviceTarget svc
  | Rejected _ => False
  end ∧
  match calc_ingress "/a2a/calc/rpc" with Rejected a => an_Status a = 403%Z | _ => False end.
Proof.
  split; [|by vm_compute].
  pose proof (λ svc r' caller n', ingress_authorized (5 * second)%Z None (λ _, true) provider_node one_service "12D3p1" (calc_request "/mcp/calc/rpc")
    svc r' caller n' (proj1 (reachable_ok one_service [] one_service_reachable))) as Hi.
  assert (match calc_ingress "/mcp/calc/rpc" with
    | Dispatched svc r' _ => serviceTarget svc = "mcp://calc" ∧ req_Path r' = "/rpc" ∧ Header_Get (req_Header r') HeaderMeshPrincipal = "alice"
    | Rejected _ => False end) as Hv by (by vm_compute).
  unfold calc_ingress in *.
  destruct (ingress (5 * second)%Z None (λ _, true) provider_node one_service "12D3p1" (calc_request "/mcp/calc/rpc")) as [[a|svc r' caller] n'];
    cbn [fst] in *; [done|].
  destruct (Hi svc r' caller n' eq_refl) as (remotePeer & c & n1 & _ & _ & _ & Hc & _ & Ht & _).
  destruct Hv as (H1 & H2 & H3). split_and!; [exact H1|exact H2|exact H3|]. exists c. exact (conj Hc Ht).
Defined.

(** The node's own credential for a destination that it serves. *)
Definition egress_token : toy := Toy example_key [
  Fact FactExpiration [biscuit_Date (1000 * second)%Z];
  Fact FactNode [VStr "12D3p1"];
  Fact FactClientPeerID [VStr "12D3p1"];
  Fact FactRole [VStr RoleNode];
  Fact FactGrantedServiceSet [VStr "egress"; VSet [AStr "api.example.com"]] ] [] false.

Lemma egress_table_ok : table_ok [egress_token].
Proof. apply small_table_ok. simpl. lia. Qed.

Definition egress_tokens : BiscuitTokens := toy_tokens [egress_token] egress_table_ok.

Definition egress_node : LocalNode :=
  {| ln_node := {| n_revokedPeers := Some ∅; n_revokedTokens := Some ∅; n_trustedKeys := [{| tk_Key := example_public; tk_ReceivedAt := 0%Z |}];
                   n_nodeConfig := None; n_MeshPolicyRules := []; n_cachedIdentity := Some (token_bytes 0); n_storedIdentity := None |};
     ln_self := Some "12D3p1"; ln_storedKey := None; ln_labels := ∅ |}.

Definition egress_entry : Service :=
  {| sv_instance := 0; sv_Type := SERVICE_TYPE_EGRESS; sv_Name := "api.example.com"; sv_egress := Some example_service |}.

Definition egress_registry : Registry := register_insert egress_entry NewServiceRegistry.

Lemma egress_registry_ok : registry_ok egress_registry.
Proof.
  apply register_insert_ok; [by exists "egress"; vm_compute|]. split; intros ? ? Hl; cbn [NewServiceRegistry rg_services rg_records] in Hl; by rewrite lookup_empty in Hl.
Qed.

Definition egress_request (path : string) : Request :=
  {| req_Method := "GET"; req_Path := path; req_RawQuery := ""; req_Host := "localhost"; req_Header := ∅; req_Body := Some "" |}.

Definition local_egress (path : string) : Dispatch :=
  (@handleLocalEgress _ _ egress_tokens _ _ (5 * second)%Z (λ _, true) egress_node egress_registry "12D3p1" None (egress_request path)).1.

Lemma local_egress_authorized_witness :
  match local_egress "/egress/API.example.com./v1/models" with
  | Dispatched svc r' ident =>
      serviceTarget svc = "egress://api.example.com" ∧ req_Path r' = "/v1/models" ∧ ident = token_bytes 0 ∧ Header_Get (req_Header r') HeaderMeshBiscuit = ""
  | Rejected _ => False
  end ∧
  match local_egress "/egress/other.example.com/" with Rejected a => an_Status a = 404%Z | _ => False end.
Proof.
  split; [|by vm_compute].
  pose proof (λ svc r' ident n', @local_egress_authorized _ _ egress_tokens _ _ _ (5 * second)%Z (λ _, true) egress_node egress_registry "12D3p1" None
    (egress_request "/egress/API.example.com./v1/models") svc r' ident n' egress_registry_ok) as Hi.
  assert (match local_egress "/egress/API.example.com./v1/models" with
    | Dispatched svc r' ident => serviceTarget svc = "egress://api.example.com" ∧ req_Path r' = "/v1/models" ∧ ident = token_bytes 0
    | Rejected _ => False end) as Hv by (by vm_compute).
  unfold local_egress in *. destruct (handleLocalEgress _ _ _ _ _ _ _) as [[a|svc r' ident] n']; cbn [fst] in *; [done|].
  destruct (Hi svc r' ident n' eq_refl) as (_ & _ & _ & Hb & _). destruct Hv as (H1 & H2 & H3). split_and!; [exact H1|exact H2|exact H3|exact Hb].
Defined.
