(* ===== verification/CredProvider.v ===== *)
(** * What a brokered credential may do

    The narrowing of [src/internal/credprovider/credprovider.go]: the scopes, the
    permissions and the resources that the tasks of a caller leave of what the
    policy grants a destination, as OAuth scopes and as an AWS session policy.
    Patterns are given the meaning that AWS gives them. *)

From S2P Require Import Prelude GoStrings Regex Names Biscuit NaiveEngine Facts DatalogText Grants Labels HTTPGrants PolicyRules Egress Base64 Tar Token TokenModel Identity Middleware Directory Decimal Effects Http LocalAuth Callout TlsHello SafeDial EgressService EgressInspect.

(** ** Patterns *)

Definition matchesWildcardPattern (pattern value : string) : bool :=
  let pattern := TrimSpace pattern in
  let value := TrimSpace value in
  if bool_decide (pattern = "*") || bool_decide (pattern = value) then true
  else if HasSuffix pattern "*" then HasPrefix value (TrimSuffix pattern "*") else false.

Definition matchesAnyWildcard (val : string) (patterns : list string) : bool := existsb (λ pat, matchesWildcardPattern pat val) patterns.

Definition add_unique (out : list string) (s : string) : list string :=
  if negb (bool_decide (s = "")) && negb (slices_Contains out s) then out ++ [s] else out.

Definition intersect_pair (x : string) (out : list string) (y : string) : list string :=
  if matchesWildcardPattern x y then add_unique out y
  else if matchesWildcardPattern y x then add_unique out x
  else out.

Definition intersectWildcardSets (a b : list string) : list string :=
  foldl (λ out x, foldl (intersect_pair x) out b) [] a.

(** ** Tasks *)

Definition taskRuleMatchesService (r : option TaskRule) (targetSvc : string) : bool :=
  match r with
  | None => true
  | Some r => is_nil (tr_allowed_services r) || matchesAnyWildcard targetSvc (tr_allowed_services r)
  end.

Definition rule_permissions (r : option TaskRule) : list string :=
  match r with
  | Some r => match tr_operation r with Some op => op_allowed_permissions op | None => [] end
  | None => []
  end.
Definition rule_resources (r : option TaskRule) : list string := match r with Some r => tr_allowed_resources r | None => [] end.

Section narrowing.
Context `{UC : UnicodeCase}.

Definition target_service (destName : string) : string :=
  EgressServicePrefix +:+ NormalizeMeshHost (TrimPrefix destName EgressServicePrefix).

(** The rules of a task that match the service. *)
Definition matching_rules (targetSvc : string) (tar : TaskAuthorizationRule) : list (option TaskRule) :=
  filter (λ r, taskRuleMatchesService r targetSvc = true) (tar_rules tar).

(** ** OAuth scopes *)

Definition isOAuthScopeCandidate (perm : string) (policyScopes : list string) : bool :=
  if matchesAnyWildcard perm policyScopes then true
  else if existsb (matchesWildcardPattern perm) policyScopes then true
  else if HasPrefix perm "https://" || HasPrefix perm "http://" then true
  else if Contains perm "/" && Contains perm "." then false
  else true.

Definition scope_permissions (targetSvc : string) (tar : TaskAuthorizationRule) : list string :=
  filter (λ p, p ≠ "") (TrimSpace <$> mjoin (rule_permissions <$> matching_rules targetSvc tar)).

Definition narrow_scopes (policyScopes : list string) (targetSvc : string) (current : list string) (otar : option TaskAuthorizationRule)
  : result (list string) :=
  match otar with
  | None => Ok current
  | Some tar =>
      let tarPerms := scope_permissions targetSvc tar in
      fail_if (is_nil (matching_rules targetSvc tar)) "task authorization rule does not allow service";;
      if is_nil policyScopes || is_nil tarPerms then Ok current
      else if negb (existsb (λ p, isOAuthScopeCandidate p policyScopes) tarPerms) then Ok current
      else
        let next := filter (λ s, matchesAnyWildcard s tarPerms = true) current in
        fail_if (is_nil next) "task authorization rule narrows OAuth scopes to an empty intersection with policy scopes";;
        Ok next
  end.

Fixpoint narrow_all (policyScopes : list string) (targetSvc : string) (current : list string) (rules : list (option TaskAuthorizationRule))
  : result (list string) :=
  match rules with
  | [] => Ok current
  | tar :: rules => current ← narrow_scopes policyScopes targetSvc current tar; narrow_all policyScopes targetSvc current rules
  end.

Definition NarrowOIDCScopes (policyScopes : list string) (destName : string) (rules : list (option TaskAuthorizationRule)) : result (list string) :=
  current ← narrow_all policyScopes (target_service destName) policyScopes rules;
  Ok (if is_nil policyScopes then [] else current).

(** ** Permissions and resources *)

Definition unique_trimmed (l : list string) : list string := foldl add_unique [] (TrimSpace <$> l).

(** The permissions or resources so far, [None] before a task limits them. *)
Definition intersect_with (sofar : option (list string)) (own : list string) (what : string) : result (option (list string)) :=
  if is_nil own then Ok sofar
  else match sofar with
  | None => Ok (Some own)
  | Some l =>
      let both := intersectWildcardSets l own in
      fail_if (is_nil both) what;;
      Ok (Some both)
  end.

Definition task_permissions (targetSvc : string) (tar : TaskAuthorizationRule) : list string :=
  unique_trimmed (mjoin (rule_permissions <$> matching_rules targetSvc tar)).
Definition task_resources (targetSvc : string) (tar : TaskAuthorizationRule) : list string :=
  unique_trimmed (mjoin (rule_resources <$> matching_rules targetSvc tar)).

Definition intersect_task (targetSvc : string) (st : option (list string) * option (list string)) (otar : option TaskAuthorizationRule)
  : result (option (list string) * option (list string)) :=
  match otar with
  | None => Ok st
  | Some tar =>
      fail_if (is_nil (matching_rules targetSvc tar)) "task authorization rule does not allow service";;
      perms ← intersect_with st.1 (task_permissions targetSvc tar) "task authorization rule has empty allowed_permissions intersection";
      resources ← intersect_with st.2 (task_resources targetSvc tar) "task authorization rule has empty allowed_resources intersection";
      Ok (perms, resources)
  end.

Fixpoint intersect_tasks (targetSvc : string) (st : option (list string) * option (list string)) (rules : list (option TaskAuthorizationRule))
  : result (option (list string) * option (list string)) :=
  match rules with
  | [] => Ok st
  | tar :: rules => st ← intersect_task targetSvc st tar; intersect_tasks targetSvc st rules
  end.

Definition IntersectTaskPermissionsAndResources (destName : string) (rules : list (option TaskAuthorizationRule)) : result (list string * list string) :=
  st ← intersect_tasks (target_service destName) (None, None) rules;
  Ok (default [] st.1, default [] st.2).
End narrowing.

(** ** Session policies *)

Record awsStatement := { st_Effect : string; st_Action : json; st_Resource : json }.

(** What [encoding/json] makes of a policy: the raw [Statement] of a document, a
    statement or an array of them; and the document that is written. *)
Class PolicyText := {
  policy_Unmarshal : string → result string;
  statements_Unmarshal : string → result (list awsStatement);
  statement_Unmarshal : string → result awsStatement;
  policy_Marshal : list string → list string → result string;
}.

Definition maxAWSSessionPolicyBytes : nat := 2048.

Definition isASCIIAlphaNum (r : Z) : bool :=
  ((97 <=? r) && (r <=? 122) || (65 <=? r) && (r <=? 90) || (48 <=? r) && (r <=? 57))%Z.

Definition validateAWSAction (a : string) : result unit :=
  if bool_decide (a = "*") then Ok tt
  else
    let '(svc, act, ok) := Cut a ":" in
    fail_if (negb ok || bool_decide (svc = "") || bool_decide (act = "")) "invalid AWS IAM action: expected <service>:<action>";;
    fail_if (existsb (λ r, negb (isASCIIAlphaNum r) && negb (r =? 45)%Z) (runes svc)) "invalid character in AWS IAM service prefix";;
    fail_if (existsb (λ r, negb (isASCIIAlphaNum r) && negb (r =? 42)%Z && negb (r =? 63)%Z && negb (r =? 45)%Z && negb (r =? 95)%Z) (runes act))
      "invalid character in AWS IAM action".

Definition validateAWSResource (res : string) : result unit :=
  if bool_decide (res = "*") then Ok tt
  else
    fail_if (negb (HasPrefix res "arn:")) "invalid AWS IAM resource: must be * or an ARN";;
    fail_if (existsb (λ r, (r <=? 0x20) || (r =? 0x7f) || (r =? 34) || (r =? 92))%Z (runes res)) "invalid character in AWS IAM resource".

Definition nonblank (s : string) : list string := if bool_decide (TrimSpace s = "") then [] else [TrimSpace s].

Definition stringOrSlice (v : json) : list string :=
  match v with
  | JStr s => nonblank s
  | JArr l => mjoin ((λ item, match item with JStr s => nonblank s | _ => [] end) <$> l)
  | _ => []
  end.

Section policy.
Context `{UC : UnicodeCase, PT : PolicyText}.

Definition template_statements (templateJSON : string) : result (list awsStatement) :=
  raw ← wrap_err "invalid aws_assume_role.session_policy JSON" (policy_Unmarshal templateJSON);
  let trimmedStmt := TrimSpace raw in
  if bool_decide (trimmedStmt = "") then Ok []
  else if HasPrefix trimmedStmt "[" then wrap_err "invalid aws_assume_role.session_policy Statement array" (statements_Unmarshal trimmedStmt)
  else st ← wrap_err "invalid aws_assume_role.session_policy Statement object" (statement_Unmarshal trimmedStmt); Ok [st].

Definition allow_statements (sts : list awsStatement) : list awsStatement := filter (λ st, EqualFold (st_Effect st) "Allow" = true) sts.
Definition template_actions (sts : list awsStatement) : list string := mjoin ((λ st, stringOrSlice (st_Action st)) <$> allow_statements sts).
Definition template_resources (sts : list awsStatement) : list string := mjoin ((λ st, stringOrSlice (st_Resource st)) <$> allow_statements sts).

(** What is left of a template's entries, where there is a template. *)
Definition narrowed (tmpl : option (list string)) (own : list string) (what : string) : result (list string) :=
  match tmpl with
  | Some t =>
      if is_nil own then Ok t
      else let both := intersectWildcardSets t own in fail_if (is_nil both) what;; Ok both
  | None => Ok own
  end.

Definition or_any (l : list string) : list string := if is_nil l then ["*"] else l.

Fixpoint validate_all (f : string → result unit) (l : list string) : result unit :=
  match l with [] => Ok tt | x :: l => f x;; validate_all f l end.

Definition CompileAWSSessionPolicy (templateJSON destName : string) (rules : list (option TaskAuthorizationRule)) : result string :=
  '(tarPerms, tarResources) ← IntersectTaskPermissionsAndResources destName rules;
  tmpl ← (if bool_decide (TrimSpace templateJSON = "") then Ok None
          else sts ← template_statements templateJSON; Ok (Some sts));
  actions ← narrowed (template_actions <$> tmpl) tarPerms "task allowed_permissions have empty intersection with AWS session_policy template Actions";
  resources ← narrowed (template_resources <$> tmpl) tarResources "task allowed_resources have empty intersection with AWS session_policy template Resources";
  if is_nil actions && is_nil resources then Ok ""
  else
    let actions := or_any actions in
    let resources := or_any resources in
    validate_all validateAWSAction actions;;
    validate_all validateAWSResource resources;;
    encoded ← policy_Marshal actions resources;
    fail_if (maxAWSSessionPolicyBytes <? len encoded) "compiled AWS session policy exceeds the byte limit";;
    Ok encoded.
End policy.

(** ** Session names *)

Definition session_char (r : Z) : ascii :=
  if isASCIIAlphaNum r || existsb (Z.eqb r) [61; 44; 46; 64; 45; 95]%Z then char_of r else "_"%char.

(** One byte is written for each character, up to the 64th. *)
Definition sanitizeAWSSessionName (principal : string) : string :=
  if bool_decide (principal = "") then "mesh-session"
  else
    let b := String.string_of_list_ascii (take 64 (session_char <$> runes principal)) in
    if len b <? 2 then "mesh-session" else b.
