(* ===== verification/CredProviderFacts.v ===== *)
(** * Brokered credentials: theorems

    The patterns of [CredProvider] are read as AWS reads them, and what a task
    leaves of a policy is compared with what the policy and every task grant. *)

From S2P Require Import Prelude GoStrings Regex Names Biscuit NaiveEngine Facts DatalogText Grants Labels HTTPGrants PolicyRules Egress Base64 Tar Token TokenModel Identity Middleware Directory Decimal Effects Http LocalAuth Callout TlsHello SafeDial EgressService EgressInspect CredProvider.

(** ** Trimming *)

Lemma space_encodings_len e : e ∈ space_encodings → 0 < len e.
Proof.
  assert (Forall (λ e, 0 < len e) space_encodings) as Hf by (apply (bool_decide_unpack _); by vm_compute).
  rewrite Forall_forall in Hf. apply Hf.
Qed.

Lemma leading_space_Some s k : leading_space s = Some k → 0 < k ≤ len s.
Proof.
  unfold leading_space. intros (e & [He Hp]%List.find_some & ->)%fmap_Some. apply list_elem_of_In, space_encodings_len in He.
  apply HasPrefix_spec in Hp as [r ->]. rewrite len_app. lia.
Qed.

Lemma trailing_space_Some s k : trailing_space s = Some k → 0 < k ≤ len s.
Proof.
  unfold trailing_space. intros (e & [He Hp]%List.find_some & ->)%fmap_Some. apply list_elem_of_In, space_encodings_len in He.
  apply HasSuffix_spec in Hp as [r ->]. rewrite len_app. lia.
Qed.

Lemma trim_left_None fuel s : len s ≤ fuel → leading_space (trim_left fuel s) = None.
Proof.
  revert s. induction fuel as [|fuel IH]; intros s Hf; cbn [trim_left].
  - destruct (leading_space s) eqn:E; [|done]. apply leading_space_Some in E. lia.
  - destruct (leading_space s) as [k|] eqn:E; [|done]. apply leading_space_Some in E. apply IH. rewrite len_drop. lia.
Qed.

Lemma trim_right_None fuel s : len s ≤ fuel → trailing_space (trim_right fuel s) = None.
Proof.
  revert s. induction fuel as [|fuel IH]; intros s Hf; cbn [trim_right].
  - destruct (trailing_space s) eqn:E; [|done]. apply trailing_space_Some in E. lia.
  - destruct (trailing_space s) as [k|] eqn:E; [|done]. apply trailing_space_Some in E. apply IH. rewrite len_take. lia.
Qed.

Lemma trim_right_prefix fuel s : ∃ r, s = trim_right fuel s +:+ r.
Proof.
  revert s. induction fuel as [|fuel IH]; intros s; cbn [trim_right]; [exists ""; by rewrite app_nil_r|].
  destruct (trailing_space s) as [k|]; [|exists ""; by rewrite app_nil_r].
  destruct (IH (str_take (len s - k) s)) as [r Hr]. exists (r +:+ str_drop (len s - k) s). rewrite <-app_assoc, <-Hr. by rewrite take_drop.
Qed.

Lemma leading_space_prefix s r : leading_space (s +:+ r) = None → leading_space s = None.
Proof.
  unfold leading_space. rewrite !fmap_None. intros Hn. apply find_none. intros e He.
  pose proof (List.find_none _ _ Hn e (proj1 (list_elem_of_In _ _) He)) as Hp. cbn in Hp.
  destruct (HasPrefix s e) eqn:E; [|done]. apply HasPrefix_spec in E as [t ->]. by rewrite app_assoc, HasPrefix_app in Hp.
Qed.

(** What is trimmed stays so. *)
Lemma TrimSpace_idem s : TrimSpace (TrimSpace s) = TrimSpace s.
Proof.
  unfold TrimSpace at 2 3. set (l := trim_left (len s) s).
  assert (leading_space l = None) as Hl by (by apply trim_left_None). set (t := trim_right (len l) l).
  assert (trailing_space t = None) as Ht by (by apply trim_right_None).
  destruct (trim_right_prefix (len l) l) as [r Hr]. fold t in Hr. rewrite Hr in Hl. apply leading_space_prefix in Hl.
  unfold TrimSpace. assert (∀ n, trim_left n t = t) as -> by (intros []; cbn [trim_left]; [done|by rewrite Hl]).
  assert (∀ n, trim_right n t = t) as -> by (intros []; cbn [trim_right]; [done|by rewrite Ht]). done.
Qed.

(** ** The meaning of patterns *)

(** A star stands for any text, a question mark for one character. *)
Inductive glob : string → string → Prop :=
| glob_nil : glob "" ""
| glob_char c p s : c ≠ "*"%char → c ≠ "?"%char → glob p s → glob (String c p) (String c s)
| glob_one p c s : glob p s → glob (String "?" p) (String c s)
| glob_star p s t : glob p t → glob (String "*" p) (s +:+ t).

(** What a list of patterns grants. *)
Definition granted (pats : list string) (u : string) : Prop := Exists (λ p, glob p u) pats.

Lemma glob_app p q s t : glob p s → glob q t → glob (p +:+ q) (s +:+ t).
Proof.
  intros Hp Hq. induction Hp as [|c p s ?? _ IH|p c s _ IH|p s1 s2 _ IH]; [done| | |].
  - change (glob (String c (p +:+ q)) (String c (s +:+ t))). by constructor.
  - change (glob (String "?" (p +:+ q)) (String c (s +:+ t))). by constructor.
  - change (glob (String "*" (p +:+ q)) ((s1 +:+ s2) +:+ t)). rewrite app_assoc. by constructor.
Qed.

Lemma glob_app_inv p q u : glob (p +:+ q) u → ∃ s t, u = s +:+ t ∧ glob p s ∧ glob q t.
Proof.
  revert u. induction p as [|c p IH]; intros u Hg; [exists "", u; split_and!; [done|constructor|done]|].
  change (glob (String c (p +:+ q)) u) in Hg. inversion Hg as [|? ? s' ?? Hg'|? c' s' Hg'|? s1 s2 Hg']; subst;
    destruct (IH _ Hg') as (s & t & -> & Hs & Ht).
  - exists (String c s), t. split_and!; [done|by constructor|done].
  - exists (String c' s), t. split_and!; [done|by constructor|done].
  - exists (s1 +:+ s), t. split_and!; [by rewrite <-app_assoc|by constructor|done].
Qed.

Lemma glob_any u : glob "*" u.
Proof. rewrite <-(app_nil_r u). constructor. constructor. Qed.

(** Texts without space around them, as they are kept. *)
Definition trimmed (s : string) : Prop := TrimSpace s = s.

(** A pattern that matches another grants all that the other does. *)
Lemma matches_covers x y u : trimmed x → trimmed y → matchesWildcardPattern x y = true → glob y u → glob x u.
Proof.
  unfold trimmed, matchesWildcardPattern. intros -> ->. case_bool_decide as Hs; [intros _ _; subst; apply glob_any|].
  case_bool_decide as He; [by subst|]. cbn [orb]. destruct (HasSuffix x "*") eqn:Hx; [|done].
  intros Hp Hy. apply HasSuffix_spec in Hx as [p ->]. rewrite TrimSuffix_app in Hp.
  apply HasPrefix_spec in Hp as [r ->].
  apply glob_app_inv in Hy as (s & t & -> & Hs' & _). apply glob_app; [done|apply glob_any].
Qed.

(** ** Intersections *)

Lemma elem_of_add_unique out s t : t ∈ add_unique out s ↔ t ∈ out ∨ (t = s ∧ s ≠ "").
Proof.
  unfold add_unique, slices_Contains. repeat case_bool_decide; cbn [negb andb]; try rewrite elem_of_app, list_elem_of_singleton; naive_solver.
Qed.

Lemma add_unique_trimmed out s : Forall trimmed out → trimmed s → Forall trimmed (add_unique out s).
Proof. rewrite !Forall_forall. intros Ho Hs t [?|[-> _]]%elem_of_add_unique; auto. Qed.

(** Which of two patterns stands for both. *)
Definition meet (x y t : string) : Prop :=
  t ≠ "" ∧ ((matchesWildcardPattern x y = true ∧ t = y) ∨ (matchesWildcardPattern x y = false ∧ matchesWildcardPattern y x = true ∧ t = x)).

Lemma elem_of_intersect_pair x out y t : t ∈ intersect_pair x out y ↔ t ∈ out ∨ meet x y t.
Proof.
  unfold intersect_pair, meet.
  destruct (matchesWildcardPattern x y); [rewrite elem_of_add_unique; naive_solver|].
  destruct (matchesWildcardPattern y x); [rewrite elem_of_add_unique|]; naive_solver.
Qed.

Lemma elem_of_intersect a b t : t ∈ intersectWildcardSets a b ↔ ∃ x y, x ∈ a ∧ y ∈ b ∧ meet x y t.
Proof.
  assert (∀ x out, t ∈ foldl (intersect_pair x) out b ↔ t ∈ out ∨ ∃ y, y ∈ b ∧ meet x y t) as Hin.
  { intros x. induction b as [|y b IH]; intros out; cbn [foldl]; [set_solver|].
    rewrite IH, elem_of_intersect_pair. set_solver. }
  unfold intersectWildcardSets. assert (∀ out, t ∈ foldl (λ out x, foldl (intersect_pair x) out b) out a ↔
    t ∈ out ∨ ∃ x y, x ∈ a ∧ y ∈ b ∧ meet x y t) as Hout.
  { induction a as [|x a IH]; intros out; cbn [foldl]; [set_solver|]. rewrite IH, Hin. set_solver. }
  rewrite Hout. set_solver.
Qed.

Lemma intersect_trimmed a b : Forall trimmed a → Forall trimmed b → Forall trimmed (intersectWildcardSets a b).
Proof.
  rewrite !Forall_forall. intros Ha Hb t (x & y & Hx & Hy & _ & [[_ ->]|(_ & _ & ->)])%elem_of_intersect; auto.
Qed.

(** What an intersection grants, both lists grant. *)
Lemma intersect_sound a b u : Forall trimmed a → Forall trimmed b → granted (intersectWildcardSets a b) u → granted a u ∧ granted b u.
Proof.
  unfold granted. rewrite !Forall_forall, !Exists_exists.
  intros Ha Hb (t & (x & y & Hx & Hy & _ & Hm)%elem_of_intersect & Hu).
  destruct Hm as [[Hm ->]|(_ & Hm & ->)]; (split; [exists x|exists y]); (split; [done|]); try done.
  - by apply (matches_covers x y); auto.
  - by apply (matches_covers y x); auto.
Qed.

(** A pattern whose only wildcard is a star at its end. *)
Definition literal (w : string) : bool := str_forallb (λ c, negb (bool_decide (c = "*"%char)) && negb (bool_decide (c = "?"%char))) w.
Definition plain_pattern (p : string) : Prop := p ≠ "" ∧ trimmed p ∧ ∃ w, literal w = true ∧ (p = w ∨ p = w +:+ "*").

Lemma glob_literal w u : literal w = true → glob w u ↔ u = w.
Proof.
  revert u. induction w as [|c w IH]; intros u Hw.
  - split; [by inversion 1|intros ->; constructor].
  - change (negb (bool_decide (c = "*"%char)) && negb (bool_decide (c = "?"%char)) && literal w = true) in Hw.
    apply andb_prop in Hw as [[Hs Hq]%andb_prop Hw]. apply negb_true_iff, bool_decide_eq_false in Hs, Hq. split.
    + inversion 1; subst; try done. f_equal. by apply IH.
    + intros ->. constructor; [done..|]. by apply IH.
Qed.

Lemma glob_prefix w u : literal w = true → glob (w +:+ "*") u ↔ ∃ r, u = w +:+ r.
Proof.
  intros Hw. split.
  - intros (s & t & -> & Hs & _)%glob_app_inv. apply glob_literal in Hs as ->; [|done]. by exists t.
  - intros [r ->]. apply glob_app; [by apply glob_literal|apply glob_any].
Qed.

Lemma prefixes_comparable w v r r' : w +:+ r = v +:+ r' → (∃ t, v = w +:+ t) ∨ (∃ t, w = v +:+ t).
Proof.
  revert v. induction w as [|c w IH]; intros v He; [left; by exists v|].
  destruct v as [|d v]; [right; by exists (String c w)|]. injection He as <- He.
  destruct (IH _ He) as [[t ->]|[t ->]]; [left|right]; by exists t.
Qed.

Lemma matches_prefix w v : trimmed (w +:+ "*") → trimmed v → (∃ t, v = w +:+ t) → matchesWildcardPattern (w +:+ "*") v = true.
Proof.
  unfold trimmed, matchesWildcardPattern. intros -> Hv [t ->]. rewrite Hv. case_bool_decide; [done|]. case_bool_decide; [done|].
  cbn [orb]. by rewrite HasSuffix_app, TrimSuffix_app, HasPrefix_app.
Qed.

Lemma plain_meet x y u : plain_pattern x → plain_pattern y → glob x u → glob y u →
  matchesWildcardPattern x y = true ∨ matchesWildcardPattern y x = true.
Proof.
  intros (_ & Tx & w & Hw & Ex) (_ & Ty & v & Hv & Ey) Hx Hy.
  assert (∀ z, trimmed z → matchesWildcardPattern z z = true) as Hrefl.
  { intros z. unfold trimmed, matchesWildcardPattern. intros ->. rewrite (bool_decide_true (z = z)) by done. by rewrite orb_true_r. }
  destruct Ex as [->| ->], Ey as [->| ->].
  - apply glob_literal in Hx, Hy; [|done..]. subst. left. auto.
  - apply glob_literal in Hx; [|done]. subst. apply glob_prefix in Hy; [|done]. right. by apply matches_prefix.
  - apply glob_literal in Hy; [|done]. subst. apply glob_prefix in Hx; [|done]. left. by apply matches_prefix.
  - apply glob_prefix in Hx as [r ->], Hy as [r' Hr]; [|done..].
    destruct (prefixes_comparable _ _ _ _ Hr) as [[t ->]|[t ->]]; [left|right]; apply matches_prefix; try done;
      exists (t +:+ "*"); by rewrite app_assoc.
Qed.

(** For patterns of that kind it grants exactly what both do. *)
Lemma intersect_exact a b u : Forall plain_pattern a → Forall plain_pattern b →
  granted (intersectWildcardSets a b) u ↔ granted a u ∧ granted b u.
Proof.
  intros Ha Hb. split.
  - apply intersect_sound; [eapply Forall_impl; [exact Ha|]|eapply Forall_impl; [exact Hb|]]; by intros p (_ & ? & _).
  - unfold granted. rewrite !Exists_exists. rewrite Forall_forall in Ha, Hb.
    intros [(x & Hx & Gx) (y & Hy & Gy)]. destruct (plain_meet x y u (Ha x Hx) (Hb y Hy) Gx Gy) as [Hm|Hm].
    + exists y. split; [|done]. apply elem_of_intersect. exists x, y. split_and!; [done..|]. split; [by apply Hb|by left].
    + destruct (matchesWildcardPattern x y) eqn:Hm'.
      * exists y. split; [|done]. apply elem_of_intersect. exists x, y. split_and!; [done..|]. split; [by apply Hb|by left].
      * exists x. split; [|done]. apply elem_of_intersect. exists x, y. split_and!; [done..|]. split; [by apply Ha|by right].
Qed.

(** ** Tasks *)

(** A list that limits nothing is empty. *)
Definition within (limits : list string) (u : string) : Prop := limits = [] ∨ granted limits u.

Lemma is_nil_spec {A} (l : list A) : is_nil l = true ↔ l = [].
Proof. by destruct l. Qed.

Lemma unique_trimmed_trimmed l : Forall trimmed (unique_trimmed l).
Proof.
  unfold unique_trimmed. assert (∀ l out, Forall trimmed out → Forall trimmed (foldl add_unique out (TrimSpace <$> l))) as Hf; [|by apply Hf].
  clear. induction l as [|s l IH]; intros out Ho; [done|]. apply IH, add_unique_trimmed; [done|]. apply TrimSpace_idem.
Qed.

Lemma intersect_with_Ok sofar own what out : intersect_with sofar own what = Ok out → Forall trimmed (default [] sofar) → Forall trimmed own →
  Forall trimmed (default [] out) ∧ (∀ u, within (default [] out) u → within (default [] sofar) u ∧ within own u) ∧
  (default [] out = [] → default [] sofar = [] ∧ own = []) ∧ (sofar ≠ None → default [] sofar ≠ [] → default [] out ≠ []).
Proof.
  unfold intersect_with, within. destruct (is_nil own) eqn:Eo.
  { apply is_nil_spec in Eo as ->. intros [= <-]. naive_solver. }
  assert (own ≠ []) as Hne by (intros ->; done). destruct sofar as [l|]; [|intros [= <-]; cbn; naive_solver].
  intros [Hf [= <-]]%bind_unit_Ok Hl Hown. apply fail_if_Ok in Hf. cbn [default] in *.
  assert (intersectWildcardSets l own ≠ []) as Hb by (intros Hb; by rewrite Hb in Hf).
  split_and!; [by apply intersect_trimmed| |by intros|done].
  intros u [?|Hu]; [done|]. apply intersect_sound in Hu as [? ?]; auto.
Qed.

Section tasks.
Context `{UC : UnicodeCase}.

(** What the tasks together leave, each of them grants. *)
Lemma intersect_tasks_Ok svc rules st st' : intersect_tasks svc st rules = Ok st' →
  Forall trimmed (default [] st.1) → Forall trimmed (default [] st.2) →
  Forall trimmed (default [] st'.1) ∧ Forall trimmed (default [] st'.2) ∧
  (∀ u, within (default [] st'.1) u → within (default [] st.1) u ∧ ∀ tar, Some tar ∈ rules → within (task_permissions svc tar) u) ∧
  (∀ u, within (default [] st'.2) u → within (default [] st.2) u ∧ ∀ tar, Some tar ∈ rules → within (task_resources svc tar) u) ∧
  (default [] st'.1 = [] → default [] st.1 = [] ∧ ∀ tar, Some tar ∈ rules → task_permissions svc tar = []) ∧
  (default [] st'.2 = [] → default [] st.2 = [] ∧ ∀ tar, Some tar ∈ rules → task_resources svc tar = []) ∧
  (∀ tar, Some tar ∈ rules → matching_rules svc tar ≠ []).
Proof.
  revert st. induction rules as [|otar rules IH]; intros st Hr H1 H2; cbn [intersect_tasks] in Hr.
  { injection Hr as <-. split_and!; try done; try (split; [done|]); set_solver. }
  apply bind_Ok in Hr as (st1 & Ht & Hr). destruct otar as [tar|]; cbn [intersect_task] in Ht.
  - apply bind_unit_Ok in Ht as [Hm Ht]. apply fail_if_Ok in Hm. apply bind_Ok in Ht as (perms & Hp & Ht).
    apply bind_Ok in Ht as (resources & Hq & [= <-]).
    apply intersect_with_Ok in Hp as (Tp & Gp & Np & _); [|done|apply unique_trimmed_trimmed].
    apply intersect_with_Ok in Hq as (Tq & Gq & Nq & _); [|done|apply unique_trimmed_trimmed].
    destruct (IH _ Hr Tp Tq) as (? & ? & G1 & G2 & N1 & N2 & Hall). split_and!; [done..| | | | |].
    + intros u Hu. destruct (G1 u Hu) as [Hu' Hrest]. destruct (Gp u Hu') as [? ?]. split; [done|].
      intros tar' [[= ->]|?]%elem_of_cons; auto.
    + intros u Hu. destruct (G2 u Hu) as [Hu' Hrest]. destruct (Gq u Hu') as [? ?]. split; [done|].
      intros tar' [[= ->]|?]%elem_of_cons; auto.
    + intros [[? ?]%Np Hrest]%N1. split; [done|]. intros tar' [[= ->]|?]%elem_of_cons; auto.
    + intros [[? ?]%Nq Hrest]%N2. split; [done|]. intros tar' [[= ->]|?]%elem_of_cons; auto.
    + intros tar' [[= ->]|?]%elem_of_cons; [|auto]. intros He. by rewrite He in Hm.
  - injection Ht as <-. destruct (IH _ Hr H1 H2) as (? & ? & G1 & G2 & N1 & N2 & Hall). split_and!; [done..| | | | |].
    + intros u [? ?]%G1. split; [done|]. intros tar' [[=]|?]%elem_of_cons. auto.
    + intros u [? ?]%G2. split; [done|]. intros tar' [[=]|?]%elem_of_cons. auto.
    + intros [? ?]%N1. split; [done|]. intros tar' [[=]|?]%elem_of_cons. auto.
    + intros [? ?]%N2. split; [done|]. intros tar' [[=]|?]%elem_of_cons. auto.
    + intros tar' [[=]|?]%elem_of_cons. auto.
Qed.

(** ** Scopes *)

Lemma narrow_all_Ok scopes svc rules current out : narrow_all scopes svc current rules = Ok out →
  out `sublist_of` current ∧ (current ≠ [] → out ≠ []) ∧
  ∀ tar, Some tar ∈ rules → matching_rules svc tar ≠ [] ∧
    (scopes ≠ [] → existsb (λ p, isOAuthScopeCandidate p scopes) (scope_permissions svc tar) = true →
     Forall (λ s, matchesAnyWildcard s (scope_permissions svc tar) = true) out).
Proof.
  revert current. induction rules as [|otar rules IH]; intros current Hr; cbn [narrow_all] in Hr.
  { injection Hr as <-. split_and!; [done..|]. set_solver. }
  apply bind_Ok in Hr as (next & Hn & Hr). destruct (IH _ Hr) as (Hsub & Hne & Hall).
  destruct otar as [tar|]; cbn [narrow_scopes] in Hn.
  2:{ injection Hn as <-. split_and!; [done..|]. intros tar [[=]|?]%elem_of_cons. auto. }
  apply bind_unit_Ok in Hn as [Hm Hn]. apply fail_if_Ok in Hm.
  assert (matching_rules svc tar ≠ []) as Hmr by (intros He; by rewrite He in Hm).
  assert (next `sublist_of` current ∧ (current ≠ [] → next ≠ []) ∧
    (scopes ≠ [] → existsb (λ p, isOAuthScopeCandidate p scopes) (scope_permissions svc tar) = true →
     Forall (λ s, matchesAnyWildcard s (scope_permissions svc tar) = true) next)) as (Hs & Hn' & Hc).
  { destruct (is_nil scopes || is_nil (scope_permissions svc tar)) eqn:E1.
    { injection Hn as <-. split_and!; [done..|]. intros Hsc Hex. apply orb_true_iff in E1 as [E1|E1]; apply is_nil_spec in E1; [done|].
      by rewrite E1 in Hex. }
    destruct (existsb _ _) eqn:E2 in Hn; cbn [negb] in Hn.
    - apply bind_unit_Ok in Hn as [Hf [= <-]]. apply fail_if_Ok in Hf. split_and!; [apply sublist_filter| |].
      + intros _ He. by rewrite He in Hf.
      + intros _ _. apply Forall_forall. by intros s [? _]%list_elem_of_filter.
    - injection Hn as <-. split_and!; [done..|]. intros _ Hex. congruence. }
  split_and!; [by etrans|auto|]. intros tar' [[= ->]|Hin]%elem_of_cons; [|auto]. split; [done|]. intros Hsc Hex.
  specialize (Hc Hsc Hex). rewrite !Forall_forall in *. intros s Hs'. apply Hc. by eapply elem_of_sublist.
Qed.

(** The tasks narrow the scopes of a destination and never select any: some of
    the policy's remain, in its order, and where a task's permissions speak of
    scopes every scope that remains matches one of them; every task has a rule
    that allows the destination. *)
Definition narrowed_scopes (policyScopes : list string) (destName : string) (rules : list (option TaskAuthorizationRule)) (scopes : list string) : Prop :=
  scopes `sublist_of` policyScopes ∧ (policyScopes ≠ [] → scopes ≠ []) ∧
  ∀ tar, Some tar ∈ rules → let svc := target_service destName in
    matching_rules svc tar ≠ [] ∧
    (existsb (λ p, isOAuthScopeCandidate p policyScopes) (scope_permissions svc tar) = true →
     ∀ s, s ∈ scopes → matchesAnyWildcard s (scope_permissions svc tar) = true).

Lemma NarrowOIDCScopes_narrows policyScopes destName rules scopes :
  NarrowOIDCScopes policyScopes destName rules = Ok scopes → narrowed_scopes policyScopes destName rules scopes.
Proof.
  intros (current & Hc & [= <-])%bind_Ok. destruct (is_nil policyScopes) eqn:En.
  - apply is_nil_spec in En as ->. apply narrow_all_Ok in Hc as (_ & _ & Hall). split_and!; [done..|].
    intros tar Hin. split; [by apply (Hall tar)|]. set_solver.
  - assert (policyScopes ≠ []) as Hne by (by intros ->). apply narrow_all_Ok in Hc as (Hs & Hn & Hall). split_and!; [done|auto|].
    intros tar Hin. destruct (Hall tar Hin) as [? Hf]. split; [done|]. intros Hex. apply Forall_forall. auto.
Qed.
End tasks.

(** ** Session policies *)

Lemma nonblank_trimmed s : Forall trimmed (nonblank s).
Proof. unfold nonblank. case_bool_decide; [done|]. constructor; [apply TrimSpace_idem|done]. Qed.

Lemma Forall_mjoin {A} (P : A → Prop) (ls : list (list A)) : Forall (Forall P) ls → Forall P (mjoin ls).
Proof. induction 1; [done|]. apply Forall_app. split; auto. Qed.

Lemma stringOrSlice_trimmed v : Forall trimmed (stringOrSlice v).
Proof.
  destruct v; cbn [stringOrSlice]; try by constructor.
  { apply nonblank_trimmed. }
  apply Forall_mjoin, Forall_fmap, Forall_true. intros []; cbn; try by constructor. apply nonblank_trimmed.
Qed.

Lemma narrowed_Ok tmpl own what out : narrowed tmpl own what = Ok out → Forall trimmed (default [] tmpl) → Forall trimmed own →
  (∀ u, within out u → within (default [] tmpl) u ∧ within own u) ∧ (out = [] → default [] tmpl = [] ∧ own = []).
Proof.
  unfold narrowed, within. destruct tmpl as [t|]; [|intros [= <-]; naive_solver].
  destruct (is_nil own) eqn:Eo; [apply is_nil_spec in Eo as ->; intros [= <-]; naive_solver|].
  intros [Hf [= <-]]%bind_unit_Ok Ht Hown. apply fail_if_Ok in Hf. cbn [default] in *.
  assert (intersectWildcardSets t own ≠ []) as Hb by (intros Hb; by rewrite Hb in Hf).
  split; [|done]. intros u [?|Hu]; [done|]. apply intersect_sound in Hu as [? ?]; auto.
Qed.

Lemma or_any_granted l u : granted (or_any l) u → within l u.
Proof. unfold or_any, within. destruct (is_nil l) eqn:E; [apply is_nil_spec in E as ->|]; auto. Qed.

Lemma validate_all_Ok f l : validate_all f l = Ok tt → Forall (λ x, f x = Ok tt) l.
Proof. induction l as [|x l IH]; [done|]. intros [? ?]%bind_unit_Ok. constructor; auto. Qed.

Section policies.
Context `{UC : UnicodeCase, PT : PolicyText}.

(** The statements of a template; none where it is blank. *)
Definition statements_of (templateJSON : string) (sts : list awsStatement) : Prop :=
  if bool_decide (TrimSpace templateJSON = "") then sts = [] else template_statements templateJSON = Ok sts.

(** C30: A session policy narrows and never selects: every action that it allows is
    one that the statements of the template allow, where they name actions, and one
    that each task of the caller allows, where it names permissions; so for the
    resources.  It is valid and no longer than AWS takes.  No policy is sent only
    where neither the template nor a task limits anything. *)
Theorem policy_narrows templateJSON destName rules policy :
  CompileAWSSessionPolicy templateJSON destName rules = Ok policy →
  let svc := target_service destName in
  ∃ sts, statements_of templateJSON sts ∧
  (∀ tar, Some tar ∈ rules → matching_rules svc tar ≠ []) ∧
  ((policy = "" ∧ template_actions sts = [] ∧ template_resources sts = [] ∧
    ∀ tar, Some tar ∈ rules → task_permissions svc tar = [] ∧ task_resources svc tar = []) ∨
   ∃ actions resources, policy_Marshal actions resources = Ok policy ∧ len policy ≤ maxAWSSessionPolicyBytes ∧
     Forall (λ a, validateAWSAction a = Ok tt) actions ∧ Forall (λ r, validateAWSResource r = Ok tt) resources ∧
     (∀ u, granted actions u →
        within (template_actions sts) u ∧ ∀ tar, Some tar ∈ rules → within (task_permissions svc tar) u) ∧
     (∀ u, granted resources u →
        within (template_resources sts) u ∧ ∀ tar, Some tar ∈ rules → within (task_resources svc tar) u)).
Proof.
  intros ([tarPerms tarResources] & Ht & Hc)%bind_Ok. apply bind_Ok in Ht as (st & Ht & [= <- <-]).
  apply intersect_tasks_Ok in Ht as (T1 & T2 & G1 & G2 & N1 & N2 & Hall); [|done..].
  apply bind_Ok in Hc as (tmpl & Htm & Hc). cbv zeta.
  assert (∃ sts, statements_of templateJSON sts ∧ default [] (template_actions <$> tmpl) = template_actions sts ∧
          default [] (template_resources <$> tmpl) = template_resources sts) as (sts & Hsts & Ea & Er).
  { unfold statements_of. case_bool_decide; [injection Htm as <-; by exists []|].
    apply bind_Ok in Htm as (sts & ? & [= <-]). by exists sts. }
  exists sts. split_and!; [done..|].
  assert (Forall trimmed (template_actions sts) ∧ Forall trimmed (template_resources sts)) as [Ta Tr].
  { split; apply Forall_mjoin, Forall_fmap, Forall_true; intros; apply stringOrSlice_trimmed. }
  rewrite <-Ea in Ta. rewrite <-Er in Tr.
  apply bind_Ok in Hc as (actions & Hna & Hc). apply narrowed_Ok in Hna as [Ga Na]; [|done..].
  apply bind_Ok in Hc as (resources & Hnr & Hc). apply narrowed_Ok in Hnr as [Gr Nr]; [|done..].
  rewrite Ea in Ga, Na. rewrite Er in Gr, Nr.
  destruct (is_nil actions && is_nil resources) eqn:En.
  - left. injection Hc as <-. apply andb_prop in En as [[Hta [_ Hp]%N1]%is_nil_spec%Na [Htr [_ Hr]%N2]%is_nil_spec%Nr].
    split_and!; [done..|]. intros tar Hin. split; auto.
  - right. apply bind_unit_Ok in Hc as [Hva%validate_all_Ok Hc]. apply bind_unit_Ok in Hc as [Hvr%validate_all_Ok Hc].
    apply bind_Ok in Hc as (enc & Hm & Hc). apply bind_unit_Ok in Hc as [Hl [= <-]]. apply fail_if_Ok, Nat.ltb_ge in Hl.
    exists (or_any actions), (or_any resources). split_and!; [done..| |].
    + intros u [? [_ ?]%G1]%or_any_granted%Ga. done.
    + intros u [? [_ ?]%G2]%or_any_granted%Gr. done.
Qed.
End policies.

(** ** Session names *)

Definition session_name_char (c : ascii) : Prop := session_char (byte c) = c.

Lemma session_char_ok r : session_name_char (session_char r).
Proof.
  unfold session_name_char. unfold session_char at 2 3. destruct (_ || _) eqn:E; [|done].
  assert (byte (char_of r) = r) as Hb.
  { apply byte_char_of. apply orb_true_iff in E as [E|E].
    - unfold isASCIIAlphaNum in E. lia.
    - cbn in E. lia. }
  unfold session_char. by rewrite Hb, E.
Qed.

(** The name of a session is one that AWS takes: two to 64 letters, digits and
    the signs it allows. *)
Lemma session_name_ok principal : let s := sanitizeAWSSessionName principal in 2 ≤ len s ≤ 64 ∧ Forall session_name_char (chars s).
Proof.
  cbv zeta. unfold sanitizeAWSSessionName.
  assert (2 ≤ len "mesh-session" ≤ 64 ∧ Forall session_name_char (chars "mesh-session")) as Hd
    by (split; [by vm_compute; lia|apply (bool_decide_unpack _); by vm_compute]).
  case_bool_decide; [done|]. set (l := take 64 _).
  assert (chars (String.string_of_list_ascii l) = l) as Hl by apply String.list_ascii_of_string_of_list_ascii.
  destruct (_ <? 2) eqn:E; [done|]. apply Nat.ltb_ge in E.
  rewrite Hl. split.
  - split; [done|]. rewrite <-length_chars, Hl.
    subst l. rewrite length_take. lia.
  - subst l. apply Forall_take, Forall_fmap, Forall_true. intros r. apply session_char_ok.
Qed.

(** ** Examples *)

(** A policy language small enough to read: two statements, or a denial. *)
Definition statement (effect action resource : string) : awsStatement :=
  {| st_Effect := effect; st_Action := JStr action; st_Resource := JArr [JStr resource] |}.
Definition two_statements : list awsStatement := [statement "Allow" "s3:Get*" "arn:a"; statement "Allow" "s3:DeleteObject" "arn:b"].
Definition toy_policy : PolicyText := {|
  policy_Unmarshal := Ok;
  statements_Unmarshal s := if bool_decide (s = "[two]") then Ok two_statements else Ok [statement "Deny" "s3:*" "arn:a"];
  statement_Unmarshal _ := fail "not a statement";
  policy_Marshal actions resources := Ok (Join actions "," +:+ " on " +:+ Join resources ",");
|}.
#[local] Existing Instances ascii_case toy_policy.

Definition reading_task (perms resources : list string) : TaskAuthorizationRule :=
  {| tar_name := "read"; tar_display_name := "";
     tar_rules := [Some {| tr_description := ""; tr_allowed_services := ["egress://s3.example.com"];
                           tr_operation := Some {| op_allowed_tools := []; op_allowed_methods := []; op_allowed_paths := [];
                                                   op_allowed_permissions := perms; op_unknown := "" |};
                           tr_allowed_resources := resources; tr_unknown := "" |}];
     tar_expire_time := None; tar_unknown := "" |}.

Example reading_policy : CompileAWSSessionPolicy "[two]" "s3.example.com"
  [Some (reading_task ["s3:GetObject"; "s3:Put*"] []); None; Some (reading_task ["s3:*"] ["arn:*"])] = Ok "s3:GetObject on arn:a,arn:b".
Proof. by vm_compute. Qed.

Lemma policy_narrows_witness :
  let rules := [Some (reading_task ["s3:GetObject"; "s3:Put*"] []); None; Some (reading_task ["s3:*"] ["arn:*"])] in
  let svc := target_service "s3.example.com" in
  ∃ sts, statements_of "[two]" sts ∧
  (∀ tar, Some tar ∈ rules → matching_rules svc tar ≠ []) ∧
  (("s3:GetObject on arn:a,arn:b" = "" ∧ template_actions sts = [] ∧ template_resources sts = [] ∧
    ∀ tar, Some tar ∈ rules → task_permissions svc tar = [] ∧ task_resources svc tar = []) ∨
   ∃ actions resources, policy_Marshal actions resources = Ok "s3:GetObject on arn:a,arn:b" ∧
     len "s3:GetObject on arn:a,arn:b" ≤ maxAWSSessionPolicyBytes ∧
     Forall (λ a, validateAWSAction a = Ok tt) actions ∧ Forall (λ r, validateAWSResource r = Ok tt) resources ∧
     (∀ u, granted actions u →
        within (template_actions sts) u ∧ ∀ tar, Some tar ∈ rules → within (task_permissions svc tar) u) ∧
     (∀ u, granted resources u →
        within (template_resources sts) u ∧ ∀ tar, Some tar ∈ rules → within (task_resources svc tar) u)).
Proof. apply (policy_narrows "[two]" "s3.example.com"). by vm_compute. Defined.

(** The statements of a template are not kept apart: what one of them allows is
    allowed on the resources of the others. *)
Example statements_crossed :
  CompileAWSSessionPolicy "[two]" "s3.example.com" [] = policy_Marshal ["s3:Get*"; "s3:DeleteObject"] ["arn:a"; "arn:b"] ∧
  Forall (λ st, ¬ (granted (stringOrSlice (st_Action st)) "s3:DeleteObject" ∧ granted (stringOrSlice (st_Resource st)) "arn:a")) two_statements.
Proof.
  split; [by vm_compute|]. assert (∀ p u, literal p = true → u ≠ p → ¬ granted [p] u) as Hno.
  { intros p u Hp Hne [Hg|Hg]%Exists_cons; [|by inversion Hg]. by apply glob_literal in Hg. }
  constructor; [|constructor; [|done]].
  - intros [Hg _]. vm_compute in Hg. apply Exists_cons in Hg as [Hg|Hg]; [|by inversion Hg].
    change "s3:Get*" with ("s3:Get" +:+ "*") in Hg. apply glob_prefix in Hg as [r Hr]; done.
  - intros [_ Hg]. revert Hg. by apply (Hno "arn:b").
Qed.

(** A template that only denies leaves no policy, and so all that the role may
    do. *)
Example denials_dropped : CompileAWSSessionPolicy "[deny]" "s3.example.com" [] = Ok "".
Proof. by vm_compute. Qed.

(** So are the rules of a task not kept apart. *)
Example rules_crossed :
  let rule perm res := Some {| tr_description := ""; tr_allowed_services := [];
                               tr_operation := Some {| op_allowed_tools := []; op_allowed_methods := []; op_allowed_paths := [];
                                                       op_allowed_permissions := [perm]; op_unknown := "" |};
                               tr_allowed_resources := [res]; tr_unknown := "" |} in
  CompileAWSSessionPolicy "" "s3.example.com"
    [Some {| tar_name := "t"; tar_display_name := ""; tar_rules := [rule "s3:GetObject" "arn:a"; rule "s3:PutObject" "arn:b"];
             tar_expire_time := None; tar_unknown := "" |}] =
  policy_Marshal ["s3:GetObject"; "s3:PutObject"] ["arn:a"; "arn:b"].
Proof. by vm_compute. Qed.
