(* ===== verification/Broker.v ===== *)
(** * Exchanging credentials

    The exchangers of [src/internal/credprovider/credprovider.go]: what an egress
    service presents to its destination, a secret of the platform or a token that
    is obtained for the caller and kept in a cache.  An exchange is a program over
    the calls it makes; the cache is shared by the requests of a destination. *)

From S2P Require Import Prelude GoStrings Regex Names Biscuit NaiveEngine Facts DatalogText Grants Labels HTTPGrants PolicyRules Egress Base64 Tar Token TokenModel Identity Middleware Directory Keyring Decimal Enrollment OAuth Effects Http LocalAuth Callout TlsHello SafeDial EgressService EgressInspect CredProvider.

Definition TokenTypeJWT : string := "urn:ietf:params:oauth:token-type:jwt".
Definition TokenTypeAccessToken : string := "urn:ietf:params:oauth:token-type:access_token".
Definition defaultGoogleSTSEndpoint : string := "https://sts.googleapis.com/v1/token".
Definition defaultAWSSTSEndpoint : string := "https://sts.amazonaws.com/".
Definition cloud_platform : string := "https://www.googleapis.com/auth/cloud-platform".

(** ** Calls *)

Record cachedBrokerToken := { bt_token : string; bt_expiry : time }.

(** A form that is posted, in the order it is built. *)
Abbreviation form := (list (string * string)).

Inductive bcall :=
| BNow
| BMint (caller destination audience : string)           (** [mintJWT], for the caller of the request *)
| BPost (endpoint : string) (f : form)
| BImpersonate (token serviceAccount : string) (scopes : list string)
| BMetadata (scopes : list string)
| BSecret (name : string).

Definition breply (c : bcall) : Type :=
  match c with
  | BNow => time
  | BMint _ _ _ => result (string * time)  (** the token, with its expiry or the zero time *)
  | BPost _ _ | BImpersonate _ _ _ | BMetadata _ => result (Z * string)  (** status and body *)
  | BSecret _ => result string
  end.

Abbreviation broker := (eprog (creply (V := cachedBrokerToken) breply)).
Abbreviation bevent := (sigT (creply (V := cachedBrokerToken) breply)).
Abbreviation bask c := (eperform (creply (V := cachedBrokerToken) breply) (KCall c)).
Abbreviation bcache c := (eperform (creply (V := cachedBrokerToken) breply) c).

(** What an egress request gives to the exchanger: the credential it came with,
    empty for the node's own, and the context taken from it. *)
Record BrokerRequest := { bq_Caller : string; bq_Principal : string; bq_Rules : list TaskAuthorizationRule }.

(** What is read of the answers: the token and its lifetime or expiry. *)
Record awsResponse := {
  aj_Credentials_SessionToken : string;
  aj_Credentials_Expiration : json;
  aj_SessionToken : string;
  aj_AccessToken : string;
}.

Class STSText := {
  token_Unmarshal : string → option (string * Z);        (** [access_token], [expires_in] *)
  impersonated_Unmarshal : string → option (string * string);  (** [accessToken], [expireTime] *)
  aws_json_Unmarshal : string → option awsResponse;
  aws_xml_Unmarshal : string → option (string * string);  (** [SessionToken], [Expiration] *)
  rfc3339_Parse : string → option time;
  float_int64 : string → Z;
}.

Definition or_zero (t : option time) : time := default zero_time t.

(** The earlier of two instants, where the second is one. *)
Definition capped (expiry limit : time) : time :=
  if negb (bool_decide (limit = zero_time)) && (limit <? expiry)%Z then limit else expiry.

Section exchange.
Context `{UC : UnicodeCase, TC : TARCodec, SH : SHA256, PT : PolicyText, ST : STSText}.

(** ** Keys *)

Definition rule_bytes (r : TaskAuthorizationRule) : string :=
  match proto_Marshal r with Ok raw => raw | Err _ => tar_name r end +:+ ";".

Fixpoint rules_bytes (rules : list TaskAuthorizationRule) : string :=
  match rules with [] => "" | r :: rules => rule_bytes r +:+ rules_bytes rules end.

Definition key_text (q : BrokerRequest) (destName targetID extra : string) (scopes resources : list string) : string :=
  bq_Caller q +:+ ("|" +:+ (bq_Principal q +:+ ("|" +:+ (rules_bytes (bq_Rules q) +:+
  ("|" +:+ destName +:+ "|" +:+ targetID +:+ "|" +:+ extra +:+ "|" +:+ Join scopes "," +:+ "|" +:+ Join resources ","))))).

Definition brokerCacheKey (q : BrokerRequest) (destName targetID extra : string) (scopes resources : list string) : string :=
  hex_string (sha256_Sum256 (key_text q destName targetID extra scopes resources)).

(** ** Static secrets *)

Definition static_Exchange (secretName : string) : broker (result (string * time)) :=
  if bool_decide (secretName = "") then mret (Ok ("", zero_time))
  else if negb (is_base_name secretName) || bool_decide (secretName = ".") || bool_decide (secretName = "..")
  then mret (fail "credential must be a file name")
  else
    data ← bask (BSecret secretName);
    mret (data ← data;
          fail_if (bool_decide (TrimSpace data = "")) "credential is empty";;
          Ok (TrimSpace data, zero_time)).

(** ** Tokens that are kept *)

(** An entry of the cache, used until 10 seconds before it expires. *)
Definition from_cache (key : string) (fresh : broker (result (string * time))) : broker (result (string * time)) :=
  hit ← bcache (KGet key);
  match hit with
  | Some c =>
      if bool_decide (bt_token c = "") then fresh
      else
        now ← bask BNow;
        if (now + 10 * second <? bt_expiry c)%Z then mret (Ok (bt_token c, bt_expiry c)) else fresh
  | None => fresh
  end.

(** What both federated exchangers do: a border token is minted for the caller and
    posted; what [finish] makes of the answer is kept. *)
Definition exchange_with (q : BrokerRequest) (destName audience key endpoint : string) (f : string → form)
    (finish : Z → string → time → broker (result (string * time))) : broker (result (string * time)) :=
  from_cache key (
    minted ← bask (BMint (bq_Caller q) destName audience);
    match minted with
    | Err e => mret (Err (WrapError "mint border JWT" e))
    | Ok (borderJWT, jwtExpiry) =>
        resp ← bask (BPost endpoint (f borderJWT));
        match resp with
        | Err e => mret (Err (WrapError "STS exchange failed" e))
        | Ok (status, body) =>
            out ← finish status body jwtExpiry;
            match out with
            | Err e => mret (Err e)
            | Ok (token, expiry) =>
                bcache (KAdd key {| bt_token := token; bt_expiry := expiry |});;
                mret (Ok (token, expiry))
            end
        end
    end).

(** ** OIDC federation *)

Definition impersonateServiceAccount (federatedToken serviceAccount : string) (scopes : list string) : broker (result (string * time)) :=
  let scopes := if is_nil scopes then [cloud_platform] else scopes in
  resp ← bask (BImpersonate federatedToken serviceAccount scopes);
  mret ('(status, body) ← wrap_err "service account impersonation failed" resp;
        fail_if (negb (status =? 200)%Z) "service account impersonation returned an error";;
        match impersonated_Unmarshal body with
        | Some (tok, expireTime) =>
            fail_if (bool_decide (tok = "")) "invalid generateAccessToken response";;
            Ok (tok, if bool_decide (expireTime = "") then zero_time else or_zero (rfc3339_Parse expireTime))
        | None => fail "invalid generateAccessToken response"
        end).

(** The expiry of a token by its lifetime in seconds. *)
Definition lifetime_expiry (expiresIn : Z) : broker time :=
  now ← bask BNow;
  if (0 <? expiresIn)%Z then now ← bask BNow; mret (now + wrap64 (expiresIn * second))%Z
  else mret (now + 5 * 60 * second)%Z.

Definition oidc_finish (cfg : OidcFederation) (scopes : list string) (status : Z) (body : string) (jwtExpiry : time) : broker (result (string * time)) :=
  if negb (status =? 200)%Z then mret (fail "STS returned an error")
  else match token_Unmarshal body with
  | None => mret (fail "invalid STS response")
  | Some (accessToken, expiresIn) =>
      if bool_decide (accessToken = "") then mret (fail "invalid STS response")
      else
        expiry ← lifetime_expiry expiresIn;
        let expiry := capped expiry jwtExpiry in
        let sa := TrimSpace (of_impersonate cfg) in
        if bool_decide (sa = "") then mret (Ok (accessToken, expiry))
        else
          imp ← impersonateServiceAccount accessToken sa scopes;
          mret ('(impToken, impExpiry) ← imp; Ok (impToken, capped expiry impExpiry))
  end.

Definition oidc_form (audience : string) (scopes resources : list string) (borderJWT : string) : form :=
  [("grant_type", GrantTypeTokenExchange); ("subject_token", borderJWT); ("subject_token_type", TokenTypeJWT);
   ("requested_token_type", TokenTypeAccessToken); ("audience", audience)] ++
  (if is_nil scopes then [] else [("scope", Join scopes " ")]) ++ (("resource",.) <$> resources).

(** What is asked for: the scopes and resources that the tasks leave. *)
Definition oidc_terms (destName : string) (cfg : OidcFederation) (rules : list TaskAuthorizationRule) : result (list string * list string) :=
  fail_if (bool_decide (TrimSpace (of_audience cfg) = "")) "oidc_federation.audience is required";;
  scopes ← NarrowOIDCScopes (of_scopes cfg) destName (Some <$> rules);
  '(_, resources) ← IntersectTaskPermissionsAndResources destName (Some <$> rules);
  Ok (scopes, resources).

Definition oidc_endpoint (cfg : OidcFederation) : string :=
  if bool_decide (TrimSpace (of_token_endpoint cfg) = "") then defaultGoogleSTSEndpoint else TrimSpace (of_token_endpoint cfg).

Definition oidc_Exchange (destName : string) (cfg : OidcFederation) (q : BrokerRequest) : broker (result (string * time)) :=
  match oidc_terms destName cfg (bq_Rules q) with
  | Err e => mret (Err e)
  | Ok (scopes, resources) =>
      let audience := TrimSpace (of_audience cfg) in
      exchange_with q destName audience (brokerCacheKey q destName audience (of_impersonate cfg) scopes resources)
        (oidc_endpoint cfg) (oidc_form audience scopes resources) (oidc_finish cfg scopes)
  end.

(** ** AWS *)

Definition parseAWSAssumeRoleResponse (body : string) : result (string * time) :=
  let xml :=
    match aws_xml_Unmarshal body with
    | Some (sessionToken, expiration) =>
        if bool_decide (sessionToken = "") then fail "unable to parse AWS AssumeRoleWithWebIdentity response"
        else Ok (TrimSpace sessionToken, or_zero (rfc3339_Parse (TrimSpace expiration)))
    | None => fail "unable to parse AWS AssumeRoleWithWebIdentity response"
    end in
  match aws_json_Unmarshal body with
  | Some r =>
      if negb (bool_decide (aj_Credentials_SessionToken r = "")) then
        Ok (aj_Credentials_SessionToken r,
            match aj_Credentials_Expiration r with
            | JStr s => or_zero (rfc3339_Parse s)
            | JNum n => (float_int64 n * second)%Z
            | _ => zero_time
            end)
      else if negb (bool_decide (aj_SessionToken r = "")) then Ok (aj_SessionToken r, zero_time)
      else if negb (bool_decide (aj_AccessToken r = "")) then Ok (aj_AccessToken r, zero_time)
      else xml
  | None => xml
  end.

Definition aws_finish (status : Z) (body : string) (jwtExpiry : time) : broker (result (string * time)) :=
  if negb (status =? 200)%Z then mret (fail "AWS STS returned an error")
  else match parseAWSAssumeRoleResponse body with
  | Err e => mret (Err e)
  | Ok (token, expiry) =>
      expiry ← (if bool_decide (expiry = zero_time) then now ← bask BNow; mret (now + 15 * 60 * second)%Z else mret expiry);
      mret (Ok (token, capped expiry jwtExpiry))
  end.

Definition aws_form (roleARN sessionName sessionPolicy borderJWT : string) : form :=
  [("Action", "AssumeRoleWithWebIdentity"); ("Version", "2011-06-15"); ("RoleArn", roleARN);
   ("RoleSessionName", sessionName); ("WebIdentityToken", borderJWT)] ++
  (if bool_decide (sessionPolicy = "") then [] else [("Policy", sessionPolicy)]).

Definition aws_policy (destName : string) (cfg : AWSAssumeRole) (rules : list TaskAuthorizationRule) : result string :=
  fail_if (bool_decide (TrimSpace (aws_role_arn cfg) = "")) "aws_assume_role.role_arn is required";;
  CompileAWSSessionPolicy (aws_session_policy cfg) destName (Some <$> rules).

Definition aws_Exchange (destName : string) (cfg : AWSAssumeRole) (q : BrokerRequest) : broker (result (string * time)) :=
  match aws_policy destName cfg (bq_Rules q) with
  | Err e => mret (Err e)
  | Ok sessionPolicy =>
      let roleARN := TrimSpace (aws_role_arn cfg) in
      exchange_with q destName "sts.amazonaws.com" (brokerCacheKey q destName roleARN sessionPolicy [] [])
        defaultAWSSTSEndpoint (aws_form roleARN (sanitizeAWSSessionName (bq_Principal q)) sessionPolicy) aws_finish
  end.

(** ** The platform *)

Definition platform_Exchange (destName : string) (policyScopes : list string) (q : BrokerRequest) : broker (result (string * time)) :=
  match NarrowOIDCScopes policyScopes destName (Some <$> bq_Rules q) with
  | Err e => mret (Err e)
  | Ok scopes =>
      resp ← bask (BMetadata scopes);
      match ('(status, body) ← wrap_err "platform metadata request failed" resp;
             fail_if (negb (status =? 200)%Z) "platform metadata returned an error";;
             match token_Unmarshal body with
             | Some (tok, expiresIn) => fail_if (bool_decide (tok = "")) "invalid platform metadata token response";; Ok (tok, expiresIn)
             | None => fail "invalid platform metadata token response"
             end) with
      | Err e => mret (Err e)
      | Ok (tok, expiresIn) => expiry ← lifetime_expiry expiresIn; mret (Ok (tok, expiry))
      end
  end.

(** What an egress service asks its exchanger. *)
Definition Exchange (destName : string) (e : Exchanger) (q : BrokerRequest) : broker (result (string * time)) :=
  match e with
  | StaticSecretExchanger name => static_Exchange name
  | OIDCFederationExchanger cfg => oidc_Exchange destName cfg q
  | AWSAssumeRoleExchanger cfg => aws_Exchange destName cfg q
  | PlatformIdentityExchanger scopes => platform_Exchange destName scopes q
  end.
End exchange.
