(* ===== verification/BrokerFacts.v ===== *)
(** * Exchanging credentials: theorems

    A token that is kept for one caller is never given to another: over every
    interleaving of the requests of a destination, what a request answers with was
    exchanged for a request with the same credential, principal and tasks.  And
    what is asked of a provider is within the policy and those tasks. *)

From S2P Require Import Prelude GoStrings Regex Names Biscuit NaiveEngine Facts DatalogText Grants Labels HTTPGrants PolicyRules Egress Base64 Tar Token TokenModel Identity Middleware Directory Keyring Router Decimal Store Enrollment OAuth NodeStore NodeRouters NodeSync Effects Http LocalAuth Callout TlsHello SafeDial EgressService EgressInspect Scenario CredProvider CredProviderFacts Broker.

(** ** Hexadecimal *)

Lemma hex_string_decodes s : hex_DecodeString (hex_string s) = Ok s.
Proof.
  induction s as [|c s IH]; [done|].
  change (hex_DecodeString (hex 2 (byte c) +:+ hex_string s) = Ok (String c s)).
  assert (∃ a b, hex 2 (byte c) = String a (String b "") ∧ ∃ hi lo, hex_value a = Some hi ∧ hex_value b = Some lo ∧ char_of (16 * hi + lo)%Z = c)
    as (a & b & -> & hi & lo & Ha & Hb & <-).
  { destruct c as [[] [] [] [] [] [] [] []]; eexists _, _; (split; [reflexivity|]); eexists _, _; (split_and!; reflexivity). }
  change (match hex_value a, hex_value b with
          | Some hi, Some lo => (λ t, String (char_of (16 * hi + lo)%Z) t) <$> hex_DecodeString (hex_string s)
          | _, _ => Err (NewError "encoding/hex: invalid byte")
          end = Ok (String (char_of (16 * hi + lo)%Z) s)).
  by rewrite Ha, Hb, IH.
Qed.

Lemma hex_string_inj s t : hex_string s = hex_string t → s = t.
Proof. intros He. apply (f_equal hex_DecodeString) in He. rewrite !hex_string_decodes in He. by injection He. Qed.

(** ** What a request exchanges *)

Section made.
Context `{UC : UnicodeCase, TC : TARCodec, SH : SHA256, PT : PolicyText, ST : STSText}.

(** The terms of a federated exchange. *)
Record Federated := {
  fd_audience : string;
  fd_text : string;
  fd_endpoint : string;
  fd_form : string → form;
  fd_finish : Z → string → time → broker (result (string * time));
}.

Definition fd_key (t : Federated) : string := hex_string (sha256_Sum256 (fd_text t)).

Definition federated (destName : string) (e : Exchanger) (q : BrokerRequest) : option Federated :=
  match e with
  | OIDCFederationExchanger cfg =>
      let audience := TrimSpace (of_audience cfg) in
      match oidc_terms destName cfg (bq_Rules q) with
      | Ok (scopes, resources) =>
          Some {| fd_audience := audience; fd_text := key_text q destName audience (of_impersonate cfg) scopes resources;
                  fd_endpoint := oidc_endpoint cfg; fd_form := oidc_form audience scopes resources; fd_finish := oidc_finish cfg scopes |}
      | Err _ => None
      end
  | AWSAssumeRoleExchanger cfg =>
      let roleARN := TrimSpace (aws_role_arn cfg) in
      match aws_policy destName cfg (bq_Rules q) with
      | Ok sessionPolicy =>
          Some {| fd_audience := "sts.amazonaws.com"; fd_text := key_text q destName roleARN sessionPolicy [] [];
                  fd_endpoint := defaultAWSSTSEndpoint;
                  fd_form := aws_form roleARN (sanitizeAWSSessionName (bq_Principal q)) sessionPolicy; fd_finish := aws_finish |}
      | Err _ => None
      end
  | _ => None
  end.

Definition is_federated (e : Exchanger) : bool :=
  match e with OIDCFederationExchanger _ | AWSAssumeRoleExchanger _ => true | _ => false end.

(** The calls end with an exchange that gave the token: a border token minted for
    the caller, posted with the terms of the request, and the answer as it is
    read. *)
Definition made (destName : string) (e : Exchanger) (q : BrokerRequest) (pre : list bevent) (v : cachedBrokerToken) : Prop :=
  ∃ t pre0 borderJWT jwtExpiry status body mid, federated destName e q = Some t ∧
    pre = pre0 ++ existT (KCall (BMint (bq_Caller q) destName (fd_audience t))) (Ok (borderJWT, jwtExpiry)) ::
                  existT (KCall (BPost (fd_endpoint t) (fd_form t borderJWT))) (Ok (status, body)) :: mid ∧
    eruns (fd_finish t status body jwtExpiry) mid (Ok (bt_token v, bt_expiry v)).

Definition adds_made (destName : string) (e : Exchanger) (q : BrokerRequest) (pre : list bevent) (key : string) (v : cachedBrokerToken) : Prop :=
  made destName e q pre v ∧ ∃ t, federated destName e q = Some t ∧ key = fd_key t.

(** An answer comes from the cache, for 10 seconds at least, or was made. *)
Definition answers_made (destName : string) (e : Exchanger) (q : BrokerRequest) (tr : list bevent) (a : result (string * time)) : Prop :=
  match a with
  | Err _ => True
  | Ok (tok, exp) =>
      let v := {| bt_token := tok; bt_expiry := exp |} in
      (∃ t now, federated destName e q = Some t ∧ existT (KGet (fd_key t)) (Some v) ∈ tr ∧
                existT (KCall BNow) now ∈ tr ∧ (now + 10 * second < exp)%Z) ∨
      ∃ pre post, tr = pre ++ post ∧ made destName e q pre v
  end.

Definition not_add (c : ccall cachedBrokerToken bcall) : Prop := match c with KAdd _ _ => False | _ => True end.

Lemma lifetime_not_add n : ecalls not_add (lifetime_expiry n).
Proof. unfold lifetime_expiry. apply ecalls_bind; [by repeat split|]. intros now. by destruct (_ <? _)%Z; repeat split. Qed.

Lemma finish_not_add destName e q t status body jwtExpiry : federated destName e q = Some t → ecalls not_add (fd_finish t status body jwtExpiry).
Proof.
  destruct e as [|cfg|cfg|]; cbn; try done.
  - destruct (oidc_terms _ _ _) as [[scopes resources]|]; [|done]. intros [= <-]. cbn. unfold oidc_finish.
    destruct (negb _); [done|]. destruct (token_Unmarshal body) as [[tok n]|]; [|done]. case_bool_decide; [done|].
    apply ecalls_bind; [apply lifetime_not_add|]. intros expiry. case_bool_decide; [done|]. apply ecalls_bind; [by repeat split|done].
  - destruct (aws_policy _ _ _); [|done]. intros [= <-]. cbn. unfold aws_finish.
    destruct (negb _); [done|]. destruct (parseAWSAssumeRoleResponse body) as [[tok exp]|]; [|done].
    apply ecalls_bind; [|done]. by case_bool_decide; repeat split.
Qed.

Lemma exchange_with_spec destName e q t : federated destName e q = Some t →
  espec (add_ok (adds_made destName e) q) (answers_made destName e q) []
    (exchange_with q destName (fd_audience t) (fd_key t) (fd_endpoint t) (fd_form t) (fd_finish t)).
Proof.
  intros Ht. unfold exchange_with. set (fresh := _ ≫= _).
  assert (∀ pre, espec (add_ok (adds_made destName e) q) (answers_made destName e q) pre fresh) as Hfresh.
  { intros pre. subst fresh. cbn. split; [done|]. intros [[jwt jexp]|err]; cbn; [|done]. split; [done|].
    intros [[status body]|err]; cbn; [|done].
    apply (espec_bind _ _ not_add); [by intros ? []|by eapply finish_not_add|].
    intros mid [[tok exp]|err] Hmid; [|done]. cbn.
    assert (made destName e q (((pre ++ [existT (KCall (BMint (bq_Caller q) destName (fd_audience t))) (Ok (jwt, jexp))]) ++
      [existT (KCall (BPost (fd_endpoint t) (fd_form t jwt))) (Ok (status, body))]) ++ mid) {| bt_token := tok; bt_expiry := exp |}) as Hmade.
    { exists t, pre, jwt, jexp, status, body, mid. split_and!; [done| |done]. by rewrite <-!(assoc_L (++)). }
    split; [split; [exact Hmade|by exists t]|]. intros []. right. by eexists _, _. }
  unfold from_cache. cbn. split; [done|]. intros [[tok exp]|]; [|apply Hfresh]. cbn. case_bool_decide; [apply Hfresh|].
  cbn. split; [done|]. intros now. destruct (_ <? _)%Z eqn:Eb; [|apply Hfresh]. cbn. left. exists t, now.
  split_and!; [done|set_solver|set_solver|lia].
Qed.

Lemma Exchange_spec destName e q : is_federated e = true →
  espec (add_ok (adds_made destName e) q) (answers_made destName e q) [] (Exchange destName e q).
Proof.
  destruct (federated destName e q) as [t|] eqn:Ht.
  - intros _. pose proof (exchange_with_spec _ _ _ _ Ht) as Hs. destruct e as [|cfg|cfg|]; cbn in Ht; try done; cbn [Exchange].
    + unfold oidc_Exchange. destruct (oidc_terms _ _ _) as [[scopes resources]|]; [|done]. injection Ht as <-. exact Hs.
    + unfold aws_Exchange. destruct (aws_policy _ _ _); [|done]. injection Ht as <-. exact Hs.
  - destruct e as [|cfg|cfg|]; cbn [is_federated]; try done; intros _; cbn in Ht |- *.
    + unfold oidc_Exchange. by destruct (oidc_terms _ _ _) as [[]|].
    + unfold aws_Exchange. by destruct (aws_policy _ _ _).
Qed.

(** ** Keys *)

Definition decodes `{BiscuitTokens} (b : string) : bool := is_ok (UnmarshalInbound b).

Lemma framed (ok : string → Prop) b b' r r' :
  (∀ b r, ok b → ¬ ok (b +:+ ("|" +:+ r))) → ok b → ok b' → b +:+ ("|" +:+ r) = b' +:+ ("|" +:+ r') → b = b' ∧ r = r'.
Proof.
  intros Hsep Hb Hb' He. destruct (prefixes_comparable _ _ _ _ He) as [[t ->]|[t ->]]; rewrite app_assoc in He.
  - apply app_inv_head in He. destruct t as [|c t]; [apply (app_inv_head "|") in He as ->; by rewrite app_nil_r|].
    injection He as <- _. destruct (Hsep b t Hb). done.
  - symmetry in He. apply app_inv_head in He. destruct t as [|c t]; [apply (app_inv_head "|") in He as ->; by rewrite app_nil_r|].
    injection He as <- _. destruct (Hsep b' t Hb'). done.
Qed.

Lemma federated_text destName e q t : federated destName e q = Some t →
  ∃ rest, fd_text t = bq_Caller q +:+ ("|" +:+ (bq_Principal q +:+ ("|" +:+ rest))).
Proof.
  destruct e as [|cfg|cfg|]; cbn; try done.
  - destruct (oidc_terms _ _ _) as [[scopes resources]|]; [|done]. intros [= <-]. by eexists.
  - destruct (aws_policy _ _ _); [|done]. intros [= <-]. by eexists.
Qed.

(** ** Isolation *)

(** Where requests come from: with the node's own credential or one that decodes,
    and with the principal and the tasks of that credential, or none where it did
    not verify. *)
Definition request_of `{BiscuitTokens} (claims_of : string → string * list TaskAuthorizationRule) (q : BrokerRequest) : Prop :=
  (bq_Caller q = "" ∨ decodes (bq_Caller q) = true) ∧
  ((bq_Principal q, bq_Rules q) = claims_of (bq_Caller q) ∨ (bq_Principal q, bq_Rules q) = ("", [])).

(** SHA-256 tells the keys of these requests apart. *)
Definition no_collision (destName : string) (e : Exchanger) (qs : list BrokerRequest) : Prop :=
  ∀ q q' t t', q ∈ qs → q' ∈ qs → federated destName e q = Some t → federated destName e q' = Some t' →
    sha256_Sum256 (fd_text t) = sha256_Sum256 (fd_text t') → fd_text t = fd_text t'.

Lemma same_request `{BiscuitTokens} claims_of destName e q q' t t' :
  (∀ b r, b = "" ∨ decodes b = true → decodes (b +:+ ("|" +:+ r)) = false) →
  (∀ b, (claims_of b).1 ≠ "" ∧ HasPrefix (claims_of b).1 "|" = false) →
  request_of claims_of q → request_of claims_of q' →
  federated destName e q = Some t → federated destName e q' = Some t' → fd_text t = fd_text t' → q = q'.
Proof.
  intros Hsep Hp [Hc Hq] [Hc' Hq'] (r & ->)%federated_text (r' & ->)%federated_text He.
  apply (framed (λ b, b = "" ∨ decodes b = true)) in He as [Hcaller He]; [| |done|done].
  2:{ intros b x Hb [He0|Hd]; [by destruct b|]. by rewrite Hsep in Hd. }
  destruct q as [c p rules], q' as [c' p' rules']. cbn [bq_Caller bq_Principal bq_Rules] in *. subst c'.
  destruct (Hp c) as [Hne Hpre].
  assert (∀ x y, (claims_of c).1 +:+ ("|" +:+ x) ≠ "" +:+ ("|" +:+ y)) as Hdiff.
  { intros x y. destruct ((claims_of c).1) as [|a l]; [done|]. intros [= -> _].
    pose proof (HasPrefix_app "|" l) as Hp'. change ("|" +:+ l) with (String "|" l) in Hp'. congruence. }
  destruct Hq as [Hq|[= -> ->]], Hq' as [Hq'|[= -> ->]].
  - rewrite <-Hq' in Hq. by injection Hq as -> ->.
  - rewrite <-Hq in Hdiff. by apply Hdiff in He.
  - rewrite <-Hq' in Hdiff. symmetry in He. by apply Hdiff in He.
  - done.
Qed.

(** C13: A credential that was exchanged for one caller is never given to another:
    over every interleaving of the requests of a destination, and whatever the
    cache drops, the token that a request answers with was exchanged in a request
    with the same credential, the same principal and the same tasks, from a border
    token minted for that credential and with the terms that its tasks leave; it is
    the token and the expiry that were obtained there. *)
Theorem broker_isolated `{BiscuitTokens} claims_of destName e (s : shared cachedBrokerToken breply BrokerRequest (result (string * time))) q tr tok exp :
  is_federated e = true →
  (∀ b r, b = "" ∨ decodes b = true → decodes (b +:+ ("|" +:+ r)) = false) →
  (∀ b, (claims_of b).1 ≠ "" ∧ HasPrefix (claims_of b).1 "|" = false) →
  shared_reachable (Exchange destName e) (request_of claims_of) s →
  no_collision destName e ((λ t, t.1.1) <$> sh_threads s) →
  (q, tr, ERet (Ok (tok, exp))) ∈ sh_threads s →
  ∃ pre post p, (q, pre ++ post, p) ∈ sh_threads s ∧ made destName e q pre {| bt_token := tok; bt_expiry := exp |}.
Proof.
  intros Hfed Hsep Hclaims Hreach Hcoll Hin.
  pose proof (λ q, Exchange_spec destName e q Hfed) as Hspec.
  destruct (shared_answer _ _ _ _ Hspec _ _ _ _ Hreach Hin) as [Hq [(t & now & Ht & Hhit & _)|(pre & post & -> & Hm)]].
  2:{ exists pre, post, (ERet (Ok (tok, exp))). done. }
  destruct (shared_hit _ _ _ _ Hspec _ _ _ _ _ _ Hreach Hin Hhit) as (q' & pre & post & p & Hin' & Hq' & Hm & t' & Ht' & Hkey).
  apply hex_string_inj in Hkey.
  assert (∀ q tr p, (q, tr, p) ∈ sh_threads s → q ∈ (λ t, t.1.1) <$> sh_threads s) as Helem.
  { intros q0 tr0 p0 H0. apply list_elem_of_fmap. by exists (q0, tr0, p0). }
  apply (Hcoll q q' t t' (Helem _ _ _ Hin) (Helem _ _ _ Hin') Ht Ht') in Hkey.
  assert (q = q') as <- by (eapply same_request; eauto). by exists pre, post, p.
Qed.

(** ** Scopes *)

(** What a call asks for is within the policy of the exchanger and the tasks of
    the request. *)
Definition asks_within (destName : string) (e : Exchanger) (q : BrokerRequest) (c : ccall cachedBrokerToken bcall) : Prop :=
  let narrowed policy scopes := narrowed_scopes policy destName (Some <$> bq_Rules q) scopes in
  match c with
  | KCall (BPost _ f) =>
      match e with
      | OIDCFederationExchanger cfg =>
          ∃ scopes, narrowed (of_scopes cfg) scopes ∧ ∀ v, ("scope", v) ∈ f ↔ scopes ≠ [] ∧ v = Join scopes " "
      | AWSAssumeRoleExchanger _ => ∀ v, ("scope", v) ∉ f
      | _ => False
      end
  | KCall (BImpersonate _ sa scopes) =>
      ∃ cfg asked, e = OIDCFederationExchanger cfg ∧ sa = TrimSpace (of_impersonate cfg) ∧ sa ≠ "" ∧ narrowed (of_scopes cfg) asked ∧
        scopes = if is_nil (of_scopes cfg) then [cloud_platform] else asked
  | KCall (BMetadata scopes) => ∃ policy, e = PlatformIdentityExchanger policy ∧ narrowed policy scopes
  | _ => True
  end.

Lemma lifetime_asks destName e q n : ecalls (asks_within destName e q) (lifetime_expiry n).
Proof. unfold lifetime_expiry. apply ecalls_bind; [by repeat split|]. intros now. by destruct (_ <? _)%Z; repeat split. Qed.

Lemma oidc_form_scope audience scopes resources jwt v :
  ("scope", v) ∈ oidc_form audience scopes resources jwt ↔ scopes ≠ [] ∧ v = Join scopes " ".
Proof.
  unfold oidc_form. rewrite !elem_of_app, list_elem_of_fmap. destruct scopes as [|x scopes]; cbn [is_nil]; set_solver.
Qed.

Lemma exchange_with_asks destName e q audience key endpoint f finish :
  (∀ jwt, asks_within destName e q (KCall (BPost endpoint (f jwt)))) → (∀ status body exp, ecalls (asks_within destName e q) (finish status body exp)) →
  ecalls (asks_within destName e q) (exchange_with q destName audience key endpoint f finish).
Proof.
  intros Hf Hfin. unfold exchange_with. set (fresh := _ ≫= _). assert (ecalls (asks_within destName e q) fresh) as Hfresh.
  { apply ecalls_bind; [by split|]. intros [[jwt jexp]|]; [|done]. apply ecalls_bind; [by apply ecalls_perform|].
    intros [[status body]|]; [|done]. apply ecalls_bind; [apply Hfin|]. by intros [[tok exp]|]; repeat split. }
  unfold from_cache. apply ecalls_bind; [by split|]. intros [c|]; [|done]. case_bool_decide; [done|].
  apply ecalls_bind; [by split|]. intros now. by destruct (_ <? _)%Z.
Qed.

Lemma oidc_finish_asks destName cfg q scopes status body jwtExpiry :
  narrowed_scopes (of_scopes cfg) destName (Some <$> bq_Rules q) scopes →
  ecalls (asks_within destName (OIDCFederationExchanger cfg) q) (oidc_finish cfg scopes status body jwtExpiry).
Proof.
  intros Hn. unfold oidc_finish. destruct (negb _); [done|]. destruct (token_Unmarshal body) as [[tok n]|]; [|done]. case_bool_decide; [done|].
  apply ecalls_bind; [apply lifetime_asks|]. intros expiry. case_bool_decide; [done|]. apply ecalls_bind; [|done].
  unfold impersonateServiceAccount. apply ecalls_bind; [|done]. apply ecalls_perform. exists cfg, scopes. split_and!; [done..|].
  destruct Hn as (Hsub & Hne & _). destruct (of_scopes cfg) as [|x l].
  - apply sublist_nil_r in Hsub. by subst.
  - destruct scopes; [|done]. by destruct Hne.
Qed.

(** C31: What is asked of a provider for a caller is within the policy and the
    tasks of the request, along every exchange and whatever the provider
    answers.  A federated exchange and the platform are asked for scopes of the
    policy, in its order, each allowed by every task whose permissions speak of
    scopes, and for some where the policy has some; the field is left out where
    the policy has none, and an AWS exchange has no such field.  An impersonated
    account is asked for the same scopes, with one exception: where the policy
    names no scope, it is asked for the scope of the whole cloud platform,
    whatever the tasks say of scopes.  In every case each task has a rule that
    allows the destination, or nothing is asked.  The tasks are those of the
    credential that came with the request, and none when it did not verify. *)
Theorem scopes_asked destName e q tr a c r :
  eruns (Exchange destName e q) tr a → existT c r ∈ tr → asks_within destName e q c.
Proof.
  assert (ecalls (asks_within destName e q) (Exchange destName e q)) as Hall; [|intros Hr; by eapply ecalls_eruns].
  destruct e as [name|cfg|cfg|policy]; cbn [Exchange].
  - unfold static_Exchange. repeat (case_bool_decide || destruct (negb _); cbn [orb]); try done; apply ecalls_bind; done || by split.
  - unfold oidc_Exchange. destruct (oidc_terms destName cfg (bq_Rules q)) as [[scopes resources]|] eqn:Et; [|done].
    apply bind_unit_Ok in Et as [_ (sc & Hn & Et)%bind_Ok]. apply bind_Ok in Et as ([? ?] & _ & [= <- <-]).
    apply NarrowOIDCScopes_narrows in Hn. apply exchange_with_asks; [|intros; by apply oidc_finish_asks].
    intros jwt. exists sc. split; [done|]. intros v. apply oidc_form_scope.
  - unfold aws_Exchange. destruct (aws_policy _ _ _) as [policy|]; [|done]. apply exchange_with_asks.
    + intros jwt v. unfold aws_form. case_bool_decide; set_solver.
    + intros status body exp. unfold aws_finish. destruct (negb _); [done|]. destruct (parseAWSAssumeRoleResponse body) as [[tok x]|]; [|done].
      apply ecalls_bind; [|done]. by case_bool_decide; repeat split.
  - unfold platform_Exchange. destruct (NarrowOIDCScopes _ _ _) as [scopes|] eqn:Hn; [|done]. apply NarrowOIDCScopes_narrows in Hn.
    apply ecalls_bind; [apply ecalls_perform; by exists policy|]. intros resp. destruct (_ ← _; _) as [[tok n]|]; [|done].
    apply ecalls_bind; [apply lifetime_asks|done].
Qed.
End made.

(** ** A run *)

(** In the model of tokens, no token begins with another and a bar. *)
Lemma toy_decodes table Hok b : @decodes ascii_case one_rule_codec (toy_tokens table Hok) b = true → ∃ i, i < length table ∧ b = token_bytes i.
Proof.
  unfold decodes, UnmarshalInbound. destruct (Unmarshal b) as [t|] eqn:Eu; [|done]. intros _. revert Eu. cbn. unfold toy_Unmarshal.
  destruct (list_find _ _) as [[i t']|] eqn:E; [|done]. intros _. apply list_find_Some in E as (_ & Hs & _). revert Hs. unfold toy_Serialize.
  destruct (list_find _ _) as [[j t'']|] eqn:Ej; [|done]. intros [= <-]. apply list_find_Some in Ej as (Hj & _).
  exists j. split; [by eapply lookup_lt_Some|done].
Qed.

Definition no_sts_text : STSText := {|
  token_Unmarshal body := Some (body, 3600%Z); impersonated_Unmarshal _ := None; aws_json_Unmarshal _ := None; aws_xml_Unmarshal _ := None;
  rfc3339_Parse _ := None; float_int64 _ := 0%Z |}.

#[local] Existing Instances ascii_case one_rule_codec example_tokens padded_digest toy_policy no_sts_text.

Lemma example_tokens_framed b r : b = "" ∨ decodes b = true → decodes (b +:+ ("|" +:+ r)) = false.
Proof.
  intros Hb. apply not_true_is_false. intros (i & Hi & He)%toy_decodes. apply (f_equal len) in He as Hl. rewrite !len_app in Hl.
  cbn [len] in Hl. change (len (token_bytes i)) with 1 in Hl. change (len "|") with 1 in Hl.
  assert (b = "" ∧ r = "") as [-> ->].
  { destruct b, r; cbn in Hl; try done; lia. }
  change (length example_table) with (length example_table) in Hi. revert He.
  assert (Forall (λ i, "|" ≠ token_bytes i) (seq 0 (length example_table))) as Hf by (apply (bool_decide_unpack _); by vm_compute).
  rewrite Forall_forall in Hf. intros He. apply (Hf i); [|done]. apply elem_of_seq. lia.
Qed.

(** Two requests of one caller and one of another: the second finds what the first
    obtained, the third does not. *)
Definition federation : Exchanger :=
  OIDCFederationExchanger {| of_token_endpoint := ""; of_audience := "aud"; of_impersonate := ""; of_scopes := ["read"; "write"] |}.
Definition claims_example (b : string) : string * list TaskAuthorizationRule := (if bool_decide (b = token_bytes 0) then "alice" else "bob", []).
Definition broker_request (i : nat) : BrokerRequest :=
  {| bq_Caller := token_bytes i; bq_Principal := (claims_example (token_bytes i)).1; bq_Rules := [] |}.
Definition broker_env (c : bcall) : breply c :=
  match c with
  | BNow => 1000 * second
  | BMint caller _ _ => Ok ("jwt of " +:+ caller, zero_time)
  | BPost _ f => Ok (200, match f with _ :: (_, jwt) :: _ => "token for " +:+ jwt | _ => "" end)
  | BImpersonate _ _ _ | BMetadata _ => fail "not used"
  | BSecret _ => fail "not used"
  end%Z.

Definition broker_run : shared cachedBrokerToken breply BrokerRequest (result (string * time)) :=
  foldl (drive broker_env) (start (Exchange "api.example.com" federation) [broker_request 0; broker_request 0; broker_request 1])
    [0; 0; 2; 0; 0; 0; 0; 1; 1; 2; 2; 2; 2; 2].

Lemma broker_run_reachable : shared_reachable (Exchange "api.example.com" federation) (request_of claims_example) broker_run.
Proof.
  apply drive_reachable, start_reachable. assert (∀ i, decodes (token_bytes i) = true → request_of claims_example (broker_request i)) as Hr.
  { intros i Hi. split; [by right|]. left. unfold broker_request. cbn. by destruct (claims_example _) eqn:E; inversion E. }
  rewrite !Forall_cons, Forall_nil. split_and!; try done; apply Hr; by vm_compute.
Qed.

Lemma broker_run_distinct : no_collision "api.example.com" federation ((λ t, t.1.1) <$> sh_threads broker_run).
Proof.
  assert ((λ t : BrokerRequest * list bevent * broker (result (string * time)), t.1.1) <$> sh_threads broker_run =
          [broker_request 0; broker_request 0; broker_request 1]) as -> by (by vm_compute).
  assert (∀ q, q ∈ [broker_request 0; broker_request 0; broker_request 1] → q = broker_request 0 ∨ q = broker_request 1) as Hcase.
  { intros q. rewrite !elem_of_cons, elem_of_nil. naive_solver. }
  intros q q' t t' [-> | ->]%Hcase [-> | ->]%Hcase Ht Ht' Hs; [congruence| | |congruence]; exfalso;
    apply federated_text in Ht as [r Hr]; apply federated_text in Ht' as [r' Hr']; rewrite Hr, Hr' in Hs; discriminate Hs.
Qed.

Lemma claims_example_ok b : (claims_example b).1 ≠ "" ∧ HasPrefix (claims_example b).1 "|" = false.
Proof. unfold claims_example. by case_bool_decide. Qed.

Lemma thread_answer (o : option (BrokerRequest * list bevent * broker (result (string * time)))) q v :
  match o with Some (q', _, ERet (Ok v')) => q' = q ∧ v' = v | _ => False end → ∃ tr, o = Some (q, tr, ERet (Ok v)).
Proof. destruct o as [[[q' tr] [[v'|]|]]|]; try done. intros [-> ->]. by exists tr. Qed.

Lemma broker_isolated_witness : ∃ tr,
  sh_threads broker_run !! 1 = Some (broker_request 0, tr, ERet (Ok ("token for jwt of " +:+ token_bytes 0, 4600 * second)%Z)) ∧
  ∃ pre post p, (broker_request 0, pre ++ post, p) ∈ sh_threads broker_run ∧
    made "api.example.com" federation (broker_request 0) pre {| bt_token := "token for jwt of " +:+ token_bytes 0; bt_expiry := 4600 * second |}%Z.
Proof.
  destruct (thread_answer (sh_threads broker_run !! 1) (broker_request 0) ("token for jwt of " +:+ token_bytes 0, 4600 * second)%Z) as [tr E].
  { by vm_compute. }
  exists tr. split; [exact E|]. apply (broker_isolated claims_example "api.example.com" federation broker_run (broker_request 0) tr).
  - reflexivity.
  - apply example_tokens_framed.
  - exact claims_example_ok.
  - apply broker_run_reachable.
  - apply broker_run_distinct.
  - exact (list_elem_of_lookup_2 _ _ _ E).
Defined.

(** An account that is impersonated: with scopes of the policy, of which a task
    leaves one, and without. *)
Definition impersonating (scopes : list string) : Exchanger :=
  OIDCFederationExchanger {| of_token_endpoint := ""; of_audience := "aud"; of_impersonate := "sa"; of_scopes := scopes |}.
Definition reader_request : BrokerRequest :=
  {| bq_Caller := ""; bq_Principal := "alice"; bq_Rules := [reading_task ["https://scopes/read*"] []] |}.
Local Abbreviation asking scopes := (erun (answer broker_env ∅) (Exchange "s3.example.com" (impersonating scopes) reader_request)).
Definition policy_scopes : list string := ["https://scopes/read.all"; "https://scopes/write"].
Local Abbreviation impersonates scopes := (KCall (BImpersonate "token for jwt of " "sa" scopes)).

Lemma impersonation_asked :
  (asking policy_scopes).1 !! 5 = Some (existT (impersonates ["https://scopes/read.all"]) (fail "not used")) ∧
  (asking []).1 !! 5 = Some (existT (impersonates [cloud_platform]) (fail "not used")).
Proof. split; vm_compute; reflexivity. Qed.

Lemma scopes_asked_witness :
  asks_within "s3.example.com" (impersonating policy_scopes) reader_request (impersonates ["https://scopes/read.all"]) ∧
  asks_within "s3.example.com" (impersonating []) reader_request (impersonates [cloud_platform]).
Proof.
  destruct impersonation_asked as [H1 H2]. split.
  - exact (scopes_asked _ _ _ _ _ _ _ (erun_runs (answer broker_env ∅) _) (list_elem_of_lookup_2 _ _ _ H1)).
  - exact (scopes_asked _ _ _ _ _ _ _ (erun_runs (answer broker_env ∅) _) (list_elem_of_lookup_2 _ _ _ H2)).
Defined.

(** ** Expiry *)

Lemma capped_le expiry limit : limit ≠ zero_time → (capped expiry limit ≤ limit)%Z.
Proof. intros Hne. unfold capped. rewrite bool_decide_false by done. cbn [negb andb]. destruct (Z.ltb_spec limit expiry); lia. Qed.

Lemma capped_le_l expiry limit : (capped expiry limit ≤ expiry)%Z.
Proof. unfold capped. destruct (negb _); cbn [andb]; [|lia]. destruct (Z.ltb_spec limit expiry); lia. Qed.

(** What is obtained with a border token expires with it. *)
Lemma finish_capped `{UC : UnicodeCase, TC : TARCodec, SH : SHA256, PT : PolicyText, ST : STSText} destName e q t status body jwtExpiry mid tok exp :
  federated destName e q = Some t → jwtExpiry ≠ zero_time →
  eruns (fd_finish t status body jwtExpiry) mid (Ok (tok, exp)) → (exp ≤ jwtExpiry)%Z.
Proof.
  intros Ht Hne. destruct e as [|cfg|cfg|]; cbn in Ht; try done.
  - destruct (oidc_terms _ _ _) as [[scopes resources]|]; [|done]. injection Ht as <-. cbn [fd_finish]. unfold oidc_finish.
    destruct (negb _); [by intros [_ [=]]%eruns_ret|]. destruct (token_Unmarshal body) as [[access n]|]; [|by intros [_ [=]]%eruns_ret].
    case_bool_decide; [by intros [_ [=]]%eruns_ret|]. intros (tr1 & tr2 & expiry & -> & _ & Hr)%eruns_bind.
    pose proof (capped_le expiry jwtExpiry Hne). case_bool_decide; [by apply eruns_ret in Hr as [_ [= _ <-]]|].
    apply eruns_bind in Hr as (tr3 & tr4 & imp & -> & _ & [_ Hr]%eruns_ret). apply bind_Ok in Hr as ([t' x] & _ & [= _ <-]).
    pose proof (capped_le_l (capped expiry jwtExpiry) x). lia.
  - destruct (aws_policy _ _ _); [|done]. injection Ht as <-. cbn [fd_finish]. unfold aws_finish.
    destruct (negb _); [by intros [_ [=]]%eruns_ret|]. destruct (parseAWSAssumeRoleResponse body) as [[t' x]|]; [|by intros [_ [=]]%eruns_ret].
    intros (tr1 & tr2 & expiry & -> & _ & [_ [= _ <-]]%eruns_ret)%eruns_bind. by apply capped_le.
Qed.

(** ** A credential that no longer verifies *)

(** A task that does not reach the destination gets nothing while its credential
    verifies; once it has expired, the context has no tasks, and what the platform
    is asked for is not narrowed. *)
Example expired_caller_unnarrowed :
  let ctx now := (extractCallerContext (PC := plain_codec) (BE := naive_engine) now gate_node (Some (token_bytes 1))).1 in
  let asks now := erun (answer broker_env ∅) (platform_Exchange "api.example.com" ["read"; "write"]
                    {| bq_Caller := token_bytes 1; bq_Principal := ec_principal (ctx now); bq_Rules := ec_rules (ctx now) |}) in
  (asks (5 * second)%Z).1 = [] ∧ is_ok (asks (5 * second)%Z).2 = false ∧
  (projT1 <$> (asks (2000 * second)%Z).1) = [KCall (BMetadata ["read"; "write"])].
Proof. by vm_compute. Qed.
