(* ===== verification/NodeOAuth.v ===== *)
(** * Tokens that a node hands out

    The token endpoint of a node and what it asks of the control plane
    ([src/internal/node/sts.go]): credentials exchanged for JWTs and border tokens,
    both kept in a cache, and the handlers of [/oauth/token] and [/oauth/revoke].  A
    handler is a program: what it reads of the node, whose state other requests
    change between two reads, what it asks the control plane and what it changes are
    its calls. *)

From S2P Require Import Prelude GoStrings Regex Names Biscuit NaiveEngine Facts DatalogText Grants Labels HTTPGrants PolicyRules Egress Base64 Tar Token TokenModel Identity Middleware Directory Keyring Decimal Enrollment Sts OAuth Effects Http LocalAuth Callout TlsHello SafeDial EgressService EgressInspect CredProvider Broker.

(** ** What the control plane answers *)

Record TokenExchangeResponse := { tx_BiscuitToken : string; tx_ExpireTime : option Timestamp }.
Record STSTokenResponse := { sx_Jwt : string; sx_ExpireTime : option Timestamp }.

(** The instant of a timestamp that is present and valid. *)
Definition valid_time (t : option Timestamp) : option time := ts ← t; if Tar.IsValid ts then Some (AsTime ts) else None.

(** What the node needs to ask the control plane. *)
Record Asker := {
  as_URL : string;                                  (** empty when the store has none or cannot be read *)
  as_Identity : string;                             (** [GetIdentity] *)
  as_PrivKey : option (string → result string);     (** [Sign] of the node's key *)
  as_PeerID : option string;                        (** [localPeerID] *)
}.

Inductive xcall :=
| XNow
| XAsker
| XNode                                              (** the clock and what the node has revoked *)
| XExchangeToken (cpURL nodeBiscuit : string) (req : TokenExchangeRequest)
| XMintSTSToken (cpURL nodeBiscuit : string) (req : STSTokenRequest).

Definition xreply (c : xcall) : Type :=
  match c with
  | XNow => time
  | XAsker => Asker
  | XNode => time * AgentMeshNode
  | XExchangeToken _ _ _ => result TokenExchangeResponse
  | XMintSTSToken _ _ _ => result STSTokenResponse
  end.

(** The parts of a request to the control plane that prove who asks: the address,
    the node's credential, and a signed challenge. *)
Definition ready (n : Asker) : result (string * string * (string → result string) * string) :=
  fail_if (bool_decide (as_URL n = "")) "control plane URL not configured in node store";;
  fail_if (bool_decide (as_Identity n = "")) "node has no enrolled biscuit identity";;
  match as_PrivKey n with
  | None => fail "node has no private key"
  | Some sign => match as_PeerID n with None => fail "node has no peer ID" | Some pid => Ok (as_URL n, as_Identity n, sign, pid) end
  end.

(** ** Requests and answers of the endpoints *)

Definition GrantTypeClientCredentials : string := "client_credentials".
Definition GrantTypeJWTBearer : string := "urn:ietf:params:oauth:grant-type:jwt-bearer".
Definition ClientAssertionTypeJWTBearer : string := "urn:ietf:params:oauth:client-assertion-type:jwt-bearer".
Definition ClientAssertionTypeJWTSPIFFE : string := "urn:ietf:params:oauth:client-assertion-type:jwt-spiffe".

(** [url.Values] *)
Abbreviation Values := (gmap string (list string)).
Definition FormValue (f : Values) (key : string) : string := default "" (head (default [] (f !! key))).

Record OAuthRequest := {
  oq_post : bool;
  oq_form : option Values;      (** [None] when [ParseForm] fails *)
  oq_header : Header;
  oq_socket : bool;             (** [fromLocalSocket] *)
}.

Inductive OAuthReply :=
| OAuthRefused (status : Z) (code : string)
| OAuthToken (accessToken issuedTokenType : string) (expiresIn : Z) (scope : string)
| OAuthDone.

Section node.
Context `{UC : UnicodeCase, TC : TARCodec, BT : BiscuitTokens, BE : BiscuitEngine, PC : PeerCodec, SH : SHA256, JH : JWTHeader}.

(** ** Exchanging a JWT *)

Record ExchangeRequest := {
  xr_SubjectToken : string;
  xr_SubjectTokenType : string;
  xr_TaskRule : option TaskAuthorizationRule;
  xr_Seal : bool;
}.

Abbreviation xprog := (eprog (creply (V := TokenExchangeResponse) xreply)).
Abbreviation xask c := (eperform (creply (V := TokenExchangeResponse) xreply) (KCall c)).
Abbreviation xcache c := (eperform (creply (V := TokenExchangeResponse) xreply) c).

Definition exchange_text (q : ExchangeRequest) : string := xr_SubjectTokenType q +:+ ("|" +:+ xr_SubjectToken q).
Definition exchange_key (q : ExchangeRequest) : string := hex_string (sha256_Sum256 (exchange_text q)).
Definition cacheable (q : ExchangeRequest) : bool := match xr_TaskRule q with None => negb (xr_Seal q) | Some _ => false end.

(** An entry that lasts 10 seconds more and whose credential is not revoked. *)
Definition exchange_usable (cached : TokenExchangeResponse) : xprog bool :=
  match valid_time (tx_ExpireTime cached) with
  | None => mret false
  | Some expiry =>
      now ← xask XNow;
      if (now + 10 * second <? expiry)%Z then
        match UnmarshalInbound (tx_BiscuitToken cached) with
        | Err _ => mret false
        | Ok (b, _) => '(now, n) ← xask XNode; mret (negb (IsBiscuitRevoked now n b).1)
        end
      else mret false
  end.

Definition ask_exchange (q : ExchangeRequest) : xprog (result TokenExchangeResponse) :=
  n ← xask XAsker;
  match ready n with
  | Err e => mret (Err e)
  | Ok (cpURL, nodeBiscuit, sign, pid) =>
      now ← xask XNow;
      let challengeMs := UnixMilli now in
      match wrap_err "failed to sign token exchange challenge" (sign (TokenExchangeChallenge pid challengeMs)) with
      | Err e => mret (Err e)
      | Ok sig =>
          xask (XExchangeToken cpURL nodeBiscuit
            {| te_SubjectToken := xr_SubjectToken q; te_TaskRule := xr_TaskRule q; te_Seal := xr_Seal q;
               te_ChallengeUnixMs := challengeMs; te_ChallengeSignature := sig |})
      end
  end.

Definition fresh_exchange (q : ExchangeRequest) : xprog (result TokenExchangeResponse) :=
  resp ← ask_exchange q;
  match resp with
  | Err e => mret (Err e)
  | Ok resp => (if cacheable q then xcache (KAdd (exchange_key q) resp) else mret tt);; mret (Ok resp)
  end.

Definition ExchangeSubjectJWT (q : ExchangeRequest) : xprog (result TokenExchangeResponse) :=
  if bool_decide (xr_SubjectToken q = "") then mret (fail "subject_token is required")
  else if cacheable q then
    hit ← xcache (KGet (exchange_key q));
    match hit with
    | None => fresh_exchange q
    | Some cached =>
        usable ← exchange_usable cached;
        if usable : bool then mret (Ok cached) else xcache (KRemove (exchange_key q));; fresh_exchange q
    end
  else fresh_exchange q.

(** ** Border tokens *)

Record BorderRequest := { br_Caller : string; br_Destination : string; br_Audience : string }.

Abbreviation mprog := (eprog (creply (V := STSTokenResponse) xreply)).
Abbreviation mask c := (eperform (creply (V := STSTokenResponse) xreply) (KCall c)).
Abbreviation mcache c := (eperform (creply (V := STSTokenResponse) xreply) c).

Definition border_text (callerBiscuit destination audience : string) : string :=
  callerBiscuit +:+ ("|" +:+ (destination +:+ ("|" +:+ audience))).
Definition border_key (callerBiscuit destination audience : string) : string :=
  hex_string (sha256_Sum256 (border_text callerBiscuit destination audience)).

Definition ask_border (callerBiscuit destination audience : string) : mprog (result STSTokenResponse) :=
  n ← mask XAsker;
  match ready n with
  | Err e => mret (Err e)
  | Ok (cpURL, nodeBiscuit, sign, pid) =>
      now ← mask XNow;
      let challengeMs := UnixMilli now in
      match wrap_err "failed to sign STS token challenge" (sign (STSTokenChallenge pid challengeMs)) with
      | Err e => mret (Err e)
      | Ok sig =>
          mask (XMintSTSToken cpURL nodeBiscuit
            {| sq_Biscuit := callerBiscuit; sq_Destination := destination; sq_Audience := audience;
               sq_ChallengeUnixMs := challengeMs; sq_ChallengeSignature := sig |})
      end
  end.

Definition border_usable (cached : STSTokenResponse) : mprog bool :=
  match valid_time (sx_ExpireTime cached) with
  | None => mret false
  | Some expiry => now ← mask XNow; mret (now + 10 * second <? expiry)%Z
  end.

Definition fresh_border (callerBiscuit destination audience : string) : mprog (result STSTokenResponse) :=
  resp ← ask_border callerBiscuit destination audience;
  match resp with
  | Err e => mret (Err e)
  | Ok resp => mcache (KAdd (border_key callerBiscuit destination audience) resp);; mret (Ok resp)
  end.

(** The token for a caller that is known. *)
Definition border_for (callerBiscuit destination audience : string) : mprog (result STSTokenResponse) :=
  let destination := NormalizeMeshHost destination in
  let key := border_key callerBiscuit destination audience in
  if bool_decide (callerBiscuit = "") then mret (fail "missing biscuit for STS token minting")
  else if bool_decide (destination = "") then mret (fail "destination is required")
  else
    hit ← mcache (KGet key);
    match hit with
    | None => fresh_border callerBiscuit destination audience
    | Some cached =>
        usable ← border_usable cached;
        if usable : bool then mret (Ok cached) else mcache (KRemove key);; fresh_border callerBiscuit destination audience
    end.

Definition MintBorderJWT (q : BorderRequest) : mprog (result STSTokenResponse) :=
  if bool_decide (br_Caller q = "") then n ← mask XAsker; border_for (as_Identity n) (br_Destination q) (br_Audience q)
  else border_for (br_Caller q) (br_Destination q) (br_Audience q).

(** ** The calls of the endpoints *)

Inductive ocall :=
| ONow
| OView                                                        (** the node as it is at an instant *)
| OIdentity                                                    (** [GetIdentity] *)
| OExchange (q : ExchangeRequest)                              (** [ExchangeSubjectJWT] *)
| OMint (q : BorderRequest)                                    (** [MintBorderJWT] *)
| ORevoke (rawToken : string) (expiry : time).                 (** [RevokeBiscuitToken] *)

Definition oreply (c : ocall) : Type :=
  match c with
  | ONow => time
  | OView => time * LocalNode
  | OIdentity => string
  | OExchange _ => result TokenExchangeResponse
  | OMint _ => result STSTokenResponse
  | ORevoke _ _ => result string
  end.

Abbreviation oprog := (eprog oreply).
Abbreviation oask c := (eperform oreply c).

Definition plain_exchange (jwt : string) : ExchangeRequest :=
  {| xr_SubjectToken := jwt; xr_SubjectTokenType := TokenTypeJWT; xr_TaskRule := None; xr_Seal := false |}.

(** ** Who asks *)

(** [resolveCallerCredential] comes to exchanging the bearer. *)
Definition exchanges (bearer : string) : bool :=
  negb (bool_decide (bearer = "")) && negb (is_ok (decodeBiscuitToken bearer)) &&
  bool_decide (head (omap (bad_blocks_in bearer) b64_decoders) = None) && isLikelyJWT bearer.

Definition resolve_bearer (bearer : string) : oprog CallerCredential :=
  exchanged ← (if exchanges bearer then r ← oask (OExchange (plain_exchange bearer)); mret (tx_BiscuitToken <$> r)
               else mret (fail "not exchanged"));
  '(now, l) ← oask OView;
  mret (resolveCallerCredential now l (λ _, exchanged) bearer).1.

(** The caller's credential, empty when the node's own is to be used; the first of
    the headers that authenticates. *)
Fixpoint authenticate_headers (sidecarToken : string) (socket : bool) (h : Header) (names : list string) : oprog (option string) :=
  match names with
  | [] => mret (if socket || bool_decide (sidecarToken = "") then Some "" else None)
  | name :: names =>
      match bearer_value (Header_Get h name) with
      | None => authenticate_headers sidecarToken socket h names
      | Some bearer =>
          if negb (bool_decide (sidecarToken = "")) && constantTimeEqual bearer sidecarToken then mret (Some "")
          else
            cred ← resolve_bearer bearer;
            match cred with
            | CallerBiscuit b => mret (Some b)
            | _ => authenticate_headers sidecarToken socket h names
            end
      end
  end.

Definition authenticateSidecarCaller (sidecarToken : string) (q : OAuthRequest) : oprog (option string) :=
  authenticate_headers sidecarToken (oq_socket q) (oq_header q) [HeaderMeshAuthentication; "Authorization"].

Definition clientAssertionFromForm (f : Values) : result (option string) :=
  let assertion := TrimSpace (FormValue f "client_assertion") in
  let assertionType := TrimSpace (FormValue f "client_assertion_type") in
  if bool_decide (assertion = "") && bool_decide (assertionType = "") then Ok None
  else
    fail_if (bool_decide (assertion = "")) "client_assertion is required with client_assertion_type";;
    fail_if (bool_decide (assertionType = "")) "client_assertion_type is required with client_assertion";;
    fail_if (negb (bool_decide (assertionType = ClientAssertionTypeJWTBearer) || bool_decide (assertionType = ClientAssertionTypeJWTSPIFFE)))
      "unsupported client_assertion_type";;
    fail_if (negb (isLikelyJWT assertion)) "client_assertion must be a JWT";;
    Ok (Some assertion).

(** ** [/oauth/token] *)

(** The subject of a grant with its type, and whether it is the client itself, so
    that refusing it refuses the client. *)
Definition grant_subject (f : Values) (assertion : option string) : OAuthReply + (string * string * bool) :=
  let grantType := FormValue f "grant_type" in
  if bool_decide (grantType = GrantTypeTokenExchange) then
    inr (TrimSpace (FormValue f "subject_token"), TrimSpace (FormValue f "subject_token_type"), false)
  else if bool_decide (grantType = GrantTypeClientCredentials) then
    match assertion with
    | None => inl (OAuthRefused 401 "invalid_client")
    | Some a => inr (a, TokenTypeJWT, true)
    end
  else if bool_decide (grantType = GrantTypeJWTBearer) then
    let assertion := TrimSpace (FormValue f "assertion") in
    if isLikelyJWT assertion then inr (assertion, TokenTypeJWT, false) else inl (OAuthRefused 400 "invalid_grant")
  else inl (OAuthRefused 400 "unsupported_grant_type").

Definition subjectRejected (client : bool) : OAuthReply :=
  if client then OAuthRefused 401 "invalid_client" else OAuthRefused 400 "invalid_grant".

(** What is asked for. *)
Record TokenTerms := {
  tm_requested : string;
  tm_resources : list string;
  tm_scope : string;
  tm_audience : string;
  tm_seal : bool;
  tm_tar : option TaskAuthorizationRule;
}.

Definition token_terms (f : Values) : result TokenTerms :=
  let resources := default [] (f !! "resource") in
  let scope := TrimSpace (FormValue f "scope") in
  let sealParam := TrimSpace (FormValue f "seal") in
  tar ← BuildTARFromOAuthParams "oauth-task" (TrimSpace (FormValue f "options")) resources scope None;
  Ok {| tm_requested := TrimSpace (FormValue f "requested_token_type"); tm_resources := resources; tm_scope := scope;
        tm_audience := TrimSpace (FormValue f "audience");
        tm_seal := bool_decide (sealParam = "true") || bool_decide (sealParam = "1"); tm_tar := tar |}.

(** Seconds to an expiry, at least one; 300 without one. *)
Definition exp_in (expiry : option time) : oprog Z :=
  match expiry with
  | None => mret 300%Z
  | Some e => now ← oask ONow; let s := Z.quot (e - now) second in mret (if (s <=? 0)%Z then 1%Z else s)
  end.

Definition node_exchange (subject subjectType : string) (t : TokenTerms) (seal : bool) : oprog (result TokenExchangeResponse) :=
  oask (OExchange {| xr_SubjectToken := subject; xr_SubjectTokenType := subjectType; xr_TaskRule := tm_tar t; xr_Seal := seal |}).

(** The credential to narrow for a subject, with its expiry, or an answer. *)
Definition subject_base (t : TokenTerms) (subject subjectType : string) (client : bool) : oprog (OAuthReply + (string * time)) :=
  match decodeBiscuitToken subject with
  | Ok rawBiscuit =>
      '(now, l) ← oask OView;
      mret match (verifyLocalCallerBiscuit now l rawBiscuit).1 with
           | Err _ => inl (OAuthRefused 400 "invalid_grant")
           | Ok claims => inr (rawBiscuit, vc_Expiration claims)
           end
  | Err _ =>
      if bool_decide (subjectType = TokenTypeBiscuit) then mret (inl (OAuthRefused 400 "invalid_grant"))
      else if bool_decide (tm_requested t = TokenTypeJWT) then
        resp ← node_exchange subject subjectType t false;
        mret match resp with
             | Err _ => inl (subjectRejected client)
             | Ok resp => inr (tx_BiscuitToken resp, default zero_time (valid_time (tx_ExpireTime resp)))
             end
      else
        resp ← node_exchange subject subjectType t (tm_seal t);
        match resp with
        | Err _ => mret (inl (subjectRejected client))
        | Ok resp =>
            expIn ← exp_in (valid_time (tx_ExpireTime resp));
            mret (inl (OAuthToken (Std_Encode (tx_BiscuitToken resp)) TokenTypeBiscuit expIn (tm_scope t)))
        end
  end.

(** The credential of the caller without a subject, empty for the node's own. *)
Definition calling (sidecarToken : string) (q : OAuthRequest) (assertion : option string) : oprog (option string) :=
  match assertion with
  | Some a => resp ← oask (OExchange (plain_exchange a)); mret match resp with Ok resp => Some (tx_BiscuitToken resp) | Err _ => None end
  | None => authenticateSidecarCaller sidecarToken q
  end.

Definition caller_base (sidecarToken : string) (q : OAuthRequest) (assertion : option string) : oprog (OAuthReply + (string * time)) :=
  caller ← calling sidecarToken q assertion;
  match caller with
  | None => mret (inl (OAuthRefused 401 "invalid_client"))
  | Some callerBiscuit =>
      baseBiscuit ← (if bool_decide (callerBiscuit = "") then oask OIdentity else mret callerBiscuit);
      if bool_decide (baseBiscuit = "") then mret (inl (OAuthRefused 503 "temporarily_unavailable"))
      else
        '(now, l) ← oask OView;
        mret (inr (baseBiscuit, match (VerifyLocalBiscuit now l baseBiscuit).1 with Ok claims => vc_Expiration claims | Err _ => zero_time end))
  end.

(** The expiry that a task leaves. *)
Definition task_expiry (tar : option TaskAuthorizationRule) (expiresAt : time) : time :=
  match (tar ← tar; valid_time (tar_expire_time tar)) with
  | Some e => if bool_decide (expiresAt = zero_time) || (e <? expiresAt)%Z then e else expiresAt
  | None => expiresAt
  end.

(** The credential narrowed to the task, and sealed. *)
Definition narrow_base (t : TokenTerms) (baseBiscuit : string) : OAuthReply + string :=
  match match tm_tar t with Some tar => AttenuateBiscuit baseBiscuit tar | None => Ok baseBiscuit end with
  | Err _ => inl (OAuthRefused 400 "invalid_request")
  | Ok b =>
      if tm_seal t then match SealBiscuit b with Err _ => inl (OAuthRefused 500 "server_error") | Ok b => inr b end
      else inr b
  end.

Definition egress_destination (resources : list string) : string :=
  default "" (head (omap (λ res, if HasPrefix res EgressServicePrefix then Some (TrimPrefix res EgressServicePrefix) else None) resources)).

Definition issue (t : TokenTerms) (baseBiscuit : string) (expiresAt : time) : oprog OAuthReply :=
  match narrow_base t baseBiscuit with
  | inl refused => mret refused
  | inr b =>
      if bool_decide (tm_requested t = TokenTypeJWT) then
        let dest := egress_destination (tm_resources t) in
        if bool_decide (dest = "") then mret (OAuthRefused 400 "invalid_target")
        else
          resp ← oask (OMint {| br_Caller := b; br_Destination := dest; br_Audience := tm_audience t |});
          match resp with
          | Err _ => mret (OAuthRefused 403 "access_denied")
          | Ok resp => expIn ← exp_in (valid_time (sx_ExpireTime resp)); mret (OAuthToken (sx_Jwt resp) TokenTypeJWT expIn (tm_scope t))
          end
      else
        let expiresAt := task_expiry (tm_tar t) expiresAt in
        expIn ← exp_in (if bool_decide (expiresAt = zero_time) then None else Some expiresAt);
        mret (OAuthToken (Std_Encode b) TokenTypeBiscuit expIn (tm_scope t))
  end.

Definition handleNodeOAuthToken (sidecarToken : string) (q : OAuthRequest) : oprog OAuthReply :=
  if negb (oq_post q) then mret (OAuthRefused 405 "invalid_request")
  else match oq_form q with
  | None => mret (OAuthRefused 400 "invalid_request")
  | Some f =>
      match clientAssertionFromForm f with
      | Err _ => mret (OAuthRefused 401 "invalid_client")
      | Ok assertion =>
          match grant_subject f assertion with
          | inl refused => mret refused
          | inr (subject, subjectType, client) =>
              match token_terms f with
              | Err _ => mret (OAuthRefused 400 "invalid_request")
              | Ok t =>
                  base ← (if negb (bool_decide (subject = "")) && negb (bool_decide (subject = "self"))
                          then subject_base t subject subjectType client
                          else caller_base sidecarToken q assertion);
                  match base with
                  | inl answer => mret answer
                  | inr (baseBiscuit, expiresAt) => issue t baseBiscuit expiresAt
                  end
              end
          end
      end
  end.

(** ** [/oauth/revoke] *)

(** Whether a token may be revoked and until when: it verifies, or the caller is
    authenticated, or the token is revoked already. *)
Definition revocation_terms (sidecarToken : string) (q : OAuthRequest) (rawBiscuit : string) : oprog (option time) :=
  now ← oask ONow;
  let expiry := (now + 24 * 3600 * second)%Z in
  '(now, l) ← oask OView;
  match (VerifyLocalBiscuit now l rawBiscuit).1 with
  | Ok claims => mret (Some (if bool_decide (vc_Expiration claims = zero_time) then expiry else vc_Expiration claims))
  | Err _ =>
      caller ← authenticateSidecarCaller sidecarToken q;
      match caller with
      | Some _ => mret (Some expiry)
      | None =>
          match UnmarshalInbound rawBiscuit with
          | Err _ => mret None
          | Ok (b, _) => '(now, l) ← oask OView; mret (if (IsBiscuitRevoked now (ln_node l) b).1 then Some expiry else None)
          end
      end
  end.

Definition handleNodeOAuthRevoke (sidecarToken : string) (q : OAuthRequest) : oprog OAuthReply :=
  if negb (oq_post q) then mret (OAuthRefused 405 "invalid_request")
  else match oq_form q with
  | None => mret (OAuthRefused 400 "invalid_request")
  | Some f =>
      let tokenStr := TrimSpace (FormValue f "token") in
      if bool_decide (tokenStr = "") then mret (OAuthRefused 400 "invalid_request")
      else match decodeBiscuitToken tokenStr with
      | Err _ =>
          caller ← authenticateSidecarCaller sidecarToken q;
          mret match caller with Some _ => OAuthDone | None => OAuthRefused 400 "invalid_request" end
      | Ok rawBiscuit =>
          expiry ← revocation_terms sidecarToken q rawBiscuit;
          match expiry with
          | None => mret (OAuthRefused 401 "invalid_token")
          | Some expiry =>
              r ← oask (ORevoke rawBiscuit expiry);
              mret match r with Ok _ => OAuthDone | Err _ => OAuthRefused 400 "invalid_request" end
          end
      end
  end.
End node.
