(* ===== verification/NodeOAuthFacts.v ===== *)
(** * Tokens that a node hands out: theorems

    What a node's token endpoint issues is never more than what was presented to
    it, and border tokens that the node keeps go back to who they were minted for,
    for the destination and audience they were minted for. *)

From S2P Require Import Prelude GoStrings Regex Names Biscuit NaiveEngine Facts DatalogText Grants Labels HTTPGrants PolicyRules Egress Base64 Tar Token TokenModel Identity IdentityFacts Middleware Directory Keyring Router Decimal Store Enrollment Sts OAuth NodeStore NodeRouters NodeSync Effects Http LocalAuth Callout TlsHello SafeDial EgressService EgressInspect Scenario CredProvider CredProviderFacts Broker BrokerFacts NodeOAuth.

(** The first call of a program that ran. *)
Tactic Notation "first_call" hyp(H) "as" simple_intropattern(p) :=
  lazymatch type of H with
  | eruns (mbind ?k (eperform _ ?c)) ?tr ?a => apply (eruns_perform (reply := oreply) c k tr a) in H as p
  | eruns (eperform _ ?c) ?tr ?a => apply (eruns_perform (reply := oreply) c ERet tr a) in H as p
  end.

Section node.
Context `{UC : UnicodeCase, TC : TARCodec, BT : BiscuitTokens, BE : BiscuitEngine, PC : PeerCodec, SH : SHA256, JH : JWTHeader}.

(** ** Border tokens *)

Abbreviation mevent := (sigT (creply (V := STSTokenResponse) xreply)).

(** The last call minted the token at the control plane, for the request. *)
Definition minted_for (caller destination audience : string) (pre : list mevent) (v : STSTokenResponse) : Prop :=
  ∃ pre0 url own req, pre = pre0 ++ [existT (KCall (XMintSTSToken url own req)) (Ok v)] ∧
    sq_Biscuit req = caller ∧ sq_Destination req = destination ∧ sq_Audience req = audience.

Definition minted (q : BorderRequest) (pre : list mevent) (v : STSTokenResponse) : Prop :=
  minted_for (br_Caller q) (NormalizeMeshHost (br_Destination q)) (br_Audience q) pre v.

Definition request_text (q : BorderRequest) : string := border_text (br_Caller q) (NormalizeMeshHost (br_Destination q)) (br_Audience q).
Definition request_key (q : BorderRequest) : string := hex_string (sha256_Sum256 (request_text q)).

(** It lasts 10 seconds more at an instant of the request. *)
Definition still_good (tr : list mevent) (v : STSTokenResponse) : Prop :=
  ∃ now expiry, existT (KCall XNow) now ∈ tr ∧ valid_time (sx_ExpireTime v) = Some expiry ∧ (now + 10 * second < expiry)%Z.

Definition border_adds (q : BorderRequest) (pre : list mevent) (key : string) (v : STSTokenResponse) : Prop :=
  br_Caller q ≠ "" → minted q pre v ∧ key = request_key q.

Definition border_answers (q : BorderRequest) (tr : list mevent) (a : result STSTokenResponse) : Prop :=
  match a with
  | Err _ => True
  | Ok v => br_Caller q ≠ "" →
      (existT (KGet (request_key q)) (Some v) ∈ tr ∧ still_good tr v) ∨ ∃ pre post, tr = pre ++ post ∧ minted q pre v
  end.

Lemma fresh_border_spec q caller pre : (br_Caller q ≠ "" → caller = br_Caller q) →
  espec (add_ok border_adds q) (border_answers q) pre (fresh_border caller (NormalizeMeshHost (br_Destination q)) (br_Audience q)).
Proof.
  intros Hc. cbn. split; [done|]. intros n. destruct (ready n) as [[[[url own] sign] pid]|]; cbn; [|done]. split; [done|]. intros now.
  destruct (wrap_err _ _) as [sig|]; cbn; [|done]. split; [done|]. intros [v|]; cbn; [|done].
  match goal with |- context [existT (KCall (XMintSTSToken url own ?r)) _] =>
    assert (br_Caller q ≠ "" → ∀ pre, minted q (pre ++ [existT (KCall (XMintSTSToken url own r)) (Ok v)]) v) as Hm end.
  { intros Hne pre0. rewrite (Hc Hne). by eexists pre0, url, own, _. }
  split; [intros Hne; split; [by apply Hm|by rewrite (Hc Hne)]|]. intros ? Hne. right. eexists _, _. split; [reflexivity|by apply Hm].
Qed.

Lemma border_for_spec q caller pre : (br_Caller q ≠ "" → caller = br_Caller q) →
  espec (add_ok border_adds q) (border_answers q) pre (border_for caller (br_Destination q) (br_Audience q)).
Proof.
  intros Hc. unfold border_for. case_bool_decide; [done|]. case_bool_decide; [done|]. pose proof (λ pre, fresh_border_spec q caller pre Hc) as Hf.
  cbn -[fresh_border border_usable]. split; [done|]. intros [v|]; [|apply Hf]. unfold border_usable.
  destruct (valid_time (sx_ExpireTime v)) as [expiry|] eqn:Ev; [|split; [done|]; intros ?; apply Hf].
  split; [done|]. intros now. cbn -[fresh_border]. destruct (_ <? _)%Z eqn:El; [|split; [done|]; intros ?; apply Hf].
  intros Hne. left. unfold request_key, request_text. rewrite <-(Hc Hne). split; [set_solver|].
  exists now, expiry. split_and!; [set_solver|done|lia].
Qed.

Lemma MintBorderJWT_spec q : espec (add_ok border_adds q) (border_answers q) [] (MintBorderJWT q).
Proof.
  unfold MintBorderJWT. case_bool_decide; [|by apply border_for_spec]. split; [done|]. intros n. by apply border_for_spec.
Qed.

(** Requests with a credential that decodes, for a name without a bar. *)
Definition border_request (q : BorderRequest) : Prop :=
  br_Caller q ≠ "" ∧ decodes (br_Caller q) = true ∧ Contains (NormalizeMeshHost (br_Destination q)) "|" = false.

Definition border_distinct (qs : list BorderRequest) : Prop :=
  ∀ q q', q ∈ qs → q' ∈ qs → sha256_Sum256 (request_text q) = sha256_Sum256 (request_text q') → request_text q = request_text q'.

Lemma no_bar_framed b r : Contains (b +:+ ("|" +:+ r)) "|" = true.
Proof. apply Contains_spec. exists b, r. done. Qed.

Lemma same_border q q' :
  (∀ b r, b = "" ∨ decodes b = true → decodes (b +:+ ("|" +:+ r)) = false) → border_request q → border_request q' →
  request_text q = request_text q' →
  br_Caller q = br_Caller q' ∧ NormalizeMeshHost (br_Destination q) = NormalizeMeshHost (br_Destination q') ∧ br_Audience q = br_Audience q'.
Proof.
  intros Hsep (_ & Hd & Hc) (_ & Hd' & Hc') He. unfold request_text, border_text in He.
  apply (framed (λ b, decodes b = true)) in He as [Hcaller He]; [|intros b r Hb; rewrite Hsep by auto; done|done|done].
  apply (framed (λ b, Contains b "|" = false)) in He as [Hdest Haud]; [done| |done|done]. intros b r _. by rewrite no_bar_framed.
Qed.

(** C16: The border tokens that a node keeps go back to who they were minted for:
    over every interleaving of the requests, and whatever the cache drops, a token
    that is answered was minted by the control plane for the same credential, the
    same destination and the same audience, where SHA-256 tells the requests apart;
    it was minted in this request, or it lasts 10 seconds more at an instant of
    it. *)
Theorem border_isolated (s : shared STSTokenResponse xreply BorderRequest (result STSTokenResponse)) q tr v :
  (∀ b r, b = "" ∨ decodes b = true → decodes (b +:+ ("|" +:+ r)) = false) →
  shared_reachable MintBorderJWT border_request s →
  border_distinct ((λ t, t.1.1) <$> sh_threads s) →
  (q, tr, ERet (Ok v)) ∈ sh_threads s →
  (∃ pre post, tr = pre ++ post ∧ minted q pre v) ∨
  (still_good tr v ∧ ∃ q' pre post p, (q', pre ++ post, p) ∈ sh_threads s ∧ minted q pre v).
Proof.
  intros Hsep Hreach Hdist Hin.
  destruct (shared_answer _ _ _ _ MintBorderJWT_spec _ _ _ _ Hreach Hin) as [Hq Ha]. destruct (Ha (proj1 Hq)) as [[Hhit Hgood]|Hm]; [|by left].
  right. split; [done|].
  destruct (shared_hit _ _ _ _ MintBorderJWT_spec _ _ _ _ _ _ Hreach Hin Hhit) as (q' & pre & post & p & Hin' & Hq' & Hadd).
  destruct (Hadd (proj1 Hq')) as [Hm Hkey]. apply hex_string_inj in Hkey.
  assert (∀ q tr p, (q, tr, p) ∈ sh_threads s → q ∈ (λ t, t.1.1) <$> sh_threads s) as Helem.
  { intros q0 tr0 p0 H0. apply list_elem_of_fmap. by exists (q0, tr0, p0). }
  apply (Hdist q q' (Helem _ _ _ Hin) (Helem _ _ _ Hin')) in Hkey.
  destruct (same_border q q' Hsep Hq Hq' Hkey) as (Hc & Hd & Hau). exists q', pre, post, p. split; [done|].
  unfold minted. by rewrite Hc, Hd, Hau.
Qed.

(** ** Exchanged credentials *)

Abbreviation xevent := (sigT (creply (V := TokenExchangeResponse) xreply)).

(** The last call exchanged the subject at the control plane, with the task and the
    seal of the request. *)
Definition exchanged (q : ExchangeRequest) (pre : list xevent) (v : TokenExchangeResponse) : Prop :=
  ∃ pre0 url own req, pre = pre0 ++ [existT (KCall (XExchangeToken url own req)) (Ok v)] ∧
    te_SubjectToken req = xr_SubjectToken q ∧ te_TaskRule req = xr_TaskRule q ∧ te_Seal req = xr_Seal q.

(** The credential was not revoked at an instant of the request, and lasts. *)
Definition still_valid (tr : list xevent) (v : TokenExchangeResponse) : Prop :=
  ∃ now expiry, existT (KCall XNow) now ∈ tr ∧ valid_time (tx_ExpireTime v) = Some expiry ∧ (now + 10 * second < expiry)%Z ∧
  ∃ b rules now n, UnmarshalInbound (tx_BiscuitToken v) = Ok (b, rules) ∧ existT (KCall XNode) (now, n) ∈ tr ∧
    (IsBiscuitRevoked now n b).1 = false.

Definition exchange_adds (q : ExchangeRequest) (pre : list xevent) (key : string) (v : TokenExchangeResponse) : Prop :=
  exchanged q pre v ∧ cacheable q = true ∧ key = exchange_key q.

Definition exchange_answers (q : ExchangeRequest) (tr : list xevent) (a : result TokenExchangeResponse) : Prop :=
  match a with
  | Err _ => True
  | Ok v => (cacheable q = true ∧ existT (KGet (exchange_key q)) (Some v) ∈ tr ∧ still_valid tr v) ∨
            ∃ pre post, tr = pre ++ post ∧ exchanged q pre v
  end.

Lemma fresh_exchange_spec q pre : espec (add_ok exchange_adds q) (exchange_answers q) pre (fresh_exchange q).
Proof.
  cbn. split; [done|]. intros n. destruct (ready n) as [[[[url own] sign] pid]|]; cbn; [|done]. split; [done|]. intros now.
  destruct (wrap_err _ _) as [sig|]; cbn; [|done]. split; [done|]. intros [v|]; cbn; [|done].
  match goal with |- context [existT (KCall (XExchangeToken url own ?r)) _] =>
    assert (∀ pre, exchanged q (pre ++ [existT (KCall (XExchangeToken url own r)) (Ok v)]) v) as Hm end.
  { intros pre0. by eexists pre0, url, own, _. }
  destruct (cacheable q) eqn:Ec; cbn.
  - split; [by split|]. intros ?. right. eexists _, _. split; [reflexivity|apply Hm].
  - right. eexists _, []. split; [by rewrite List.app_nil_r|apply Hm].
Qed.

Lemma ExchangeSubjectJWT_spec q : espec (add_ok exchange_adds q) (exchange_answers q) [] (ExchangeSubjectJWT q).
Proof.
  unfold ExchangeSubjectJWT. case_bool_decide; [done|]. pose proof (fresh_exchange_spec q) as Hf. destruct (cacheable q) eqn:Ec; [|apply Hf].
  cbn -[fresh_exchange exchange_usable]. split; [done|]. intros [v|]; [|apply Hf]. unfold exchange_usable.
  destruct (valid_time (tx_ExpireTime v)) as [expiry|] eqn:Ev; [|split; [done|]; intros ?; apply Hf].
  split; [done|]. intros now. cbn -[fresh_exchange]. destruct (_ <? _)%Z eqn:El; [|split; [done|]; intros ?; apply Hf].
  destruct (UnmarshalInbound (tx_BiscuitToken v)) as [[b rules]|] eqn:Eu; [|split; [done|]; intros ?; apply Hf].
  cbn -[fresh_exchange]. split; [done|]. intros [now' n]. cbn -[fresh_exchange].
  destruct ((IsBiscuitRevoked now' n b).1) eqn:Er; cbn -[fresh_exchange]; [split; [done|]; intros ?; apply Hf|].
  left. split_and!; [done|set_solver|]. exists now, expiry. split_and!; [set_solver|done|lia|].
  exists b, rules, now', n. split_and!; [done|set_solver|done].
Qed.

(** A text that ends in a part without a bar: what follows another bar of it ends
    in that part. *)
Lemma after_bar (t j t' j' : string) : Contains j "|" = false → t +:+ ("|" +:+ j) = t' +:+ ("|" +:+ j') → HasSuffix j' j = true.
Proof.
  intros Hj He. apply HasSuffix_spec. destruct (prefixes_comparable _ _ _ _ He) as [[r ->]|[r ->]]; rewrite app_assoc in He.
  - apply app_inv_head in He. destruct r as [|c r]; [injection He as He; change (j = j') in He; subst j'; by exists ""|].
    injection He as <- He. change (j = r +:+ ("|" +:+ j')) in He. subst j. by rewrite no_bar_framed in Hj.
  - symmetry in He. apply app_inv_head in He. destruct r as [|c r]; [injection He as He; change (j' = j) in He; subst j'; by exists ""|].
    injection He as <- He. change (j' = r +:+ ("|" +:+ j)) in He. subst j'. exists (r +:+ "|"). by rewrite app_assoc.
Qed.

(** Whoever is answered with a credential from the cache presented the JWT that it
    was exchanged for: over every interleaving of the requests, where SHA-256 tells
    them apart and the JWTs that the control plane accepts have no bar, the
    credential was exchanged in the request itself with its task and seal, or was
    exchanged without any for a JWT that ends the presented text, has not been
    revoked at the node since, and lasts. *)
Theorem exchange_isolated (s : shared TokenExchangeResponse xreply ExchangeRequest (result TokenExchangeResponse)) q tr v :
  shared_reachable ExchangeSubjectJWT (λ _, True) s →
  (∀ q q' : ExchangeRequest, q ∈ (λ t, t.1.1) <$> sh_threads s → q' ∈ (λ t, t.1.1) <$> sh_threads s →
     sha256_Sum256 (exchange_text q) = sha256_Sum256 (exchange_text q') → exchange_text q = exchange_text q') →
  (∀ q tr p pre post v, (q, tr, p) ∈ sh_threads s → tr = pre ++ post → exchanged q pre v → Contains (xr_SubjectToken q) "|" = false) →
  (q, tr, ERet (Ok v)) ∈ sh_threads s →
  (∃ pre post, tr = pre ++ post ∧ exchanged q pre v) ∨
  (xr_TaskRule q = None ∧ xr_Seal q = false ∧ still_valid tr v ∧
   ∃ q' pre post p, (q', pre ++ post, p) ∈ sh_threads s ∧ exchanged q' pre v ∧ xr_TaskRule q' = None ∧ xr_Seal q' = false ∧
     HasSuffix (xr_SubjectToken q) (xr_SubjectToken q') = true).
Proof.
  intros Hreach Hdist Hjwt Hin.
  destruct (shared_answer _ _ _ _ ExchangeSubjectJWT_spec _ _ _ _ Hreach Hin) as [_ [(Hc & Hhit & Hgood)|Hm]]; [|by left].
  assert (∀ q, cacheable q = true → xr_TaskRule q = None ∧ xr_Seal q = false) as Hplain.
  { intros q0. unfold cacheable. destruct (xr_TaskRule q0); [done|]. by intros ->%negb_true_iff. }
  right. destruct (Hplain q Hc) as [-> ->]. split_and!; [done..|].
  destruct (shared_hit _ _ _ _ ExchangeSubjectJWT_spec _ _ _ _ _ _ Hreach Hin Hhit) as (q' & pre & post & p & Hin' & _ & Hm & Hc' & Hkey).
  apply hex_string_inj in Hkey.
  assert (∀ q tr p, (q, tr, p) ∈ sh_threads s → q ∈ (λ t, t.1.1) <$> sh_threads s) as Helem.
  { intros q0 tr0 p0 H0. apply list_elem_of_fmap. by exists (q0, tr0, p0). }
  apply (Hdist q q' (Helem _ _ _ Hin) (Helem _ _ _ Hin')) in Hkey. destruct (Hplain q' Hc') as [? ?].
  exists q', pre, post, p. split_and!; [done..|].
  eapply after_bar; [by eapply (Hjwt q' _ p pre post v Hin')|symmetry; exact Hkey].
Qed.

(** ** The token endpoint *)

Abbreviation oevent := (sigT oreply).


Lemma exp_in_runs e tr z : eruns (exp_in e) tr z → (1 ≤ z)%Z.
Proof.
  destruct e as [e|]; cbn [exp_in]; [|intros [_ <-]%eruns_ret; done].
  intros H. first_call H as (now & tr' & _ & [_ <-]%eruns_ret). case_match; lia.
Qed.

(** A bearer value that stands for the credential: a Biscuit that verifies here, or
    a JWT that was exchanged for it. *)
Definition presented (tr : list oevent) (bearer raw : string) : Prop :=
  (∃ now l, existT OView (now, l) ∈ tr ∧ decodeBiscuitToken bearer = Ok raw ∧ verified_here now l raw) ∨
  (∃ resp, existT (OExchange (plain_exchange bearer)) (Ok resp) ∈ tr ∧ isLikelyJWT bearer = true ∧ raw = tx_BiscuitToken resp).

Lemma presented_more tr tr' bearer raw : tr ⊆ tr' → presented tr bearer raw → presented tr' bearer raw.
Proof. intros Hsub [(now & l & H & ?)|(resp & H & ?)]; [left; exists now, l|right; exists resp]; auto. Qed.

Lemma resolve_bearer_runs bearer tr raw : eruns (resolve_bearer bearer) tr (CallerBiscuit raw) → presented tr bearer raw.
Proof.
  intros (tr1 & tr2 & ex & -> & Hx & Hr)%eruns_bind. first_call Hr as ([now l] & tr' & -> & [-> Hr]%eruns_ret).
  apply resolve_verified in Hr as [[Hd Hv]|[Hj Hex]]; [left; exists now, l; split_and!; [set_solver|done..]|right].
  destruct (exchanges bearer); [|apply eruns_ret in Hx as [_ <-]; done].
  first_call Hx as (r & tr0 & -> & [-> <-]%eruns_ret). destruct r as [resp|]; [|done]. injection Hex as <-.
  exists resp. split_and!; [set_solver|done..].
Qed.

(** The caller may use the node's own authority. *)
Definition entitled (sidecarToken : string) (q : OAuthRequest) : Prop :=
  oq_socket q = true ∨ sidecarToken = "" ∨
  ∃ name bearer, name ∈ [HeaderMeshAuthentication; "Authorization"] ∧ bearer_value (Header_Get (oq_header q) name) = Some bearer ∧
    sidecarToken ≠ "" ∧ constantTimeEqual bearer sidecarToken = true.

Definition presents (q : OAuthRequest) (tr : list oevent) (raw : string) : Prop :=
  ∃ name bearer, name ∈ [HeaderMeshAuthentication; "Authorization"] ∧ bearer_value (Header_Get (oq_header q) name) = Some bearer ∧
    presented tr bearer raw.

Lemma authenticate_runs sidecarToken q names tr raw : names ⊆ [HeaderMeshAuthentication; "Authorization"] →
  eruns (authenticate_headers sidecarToken (oq_socket q) (oq_header q) names) tr (Some raw) →
  (raw = "" ∧ entitled sidecarToken q) ∨ presents q tr raw.
Proof.
  revert tr. induction names as [|name names IH]; intros tr Hn; cbn [authenticate_headers].
  - intros [_ Hs]%eruns_ret. destruct (oq_socket q || bool_decide (sidecarToken = "")) eqn:E; [|done]. injection Hs as <-. left. split; [done|].
    apply orb_true_iff in E as [?|?%bool_decide_eq_true]; [by left|by right; left].
  - destruct (bearer_value (Header_Get (oq_header q) name)) as [bearer|] eqn:Eb; [|apply IH; set_solver].
    destruct (negb (bool_decide (sidecarToken = "")) && constantTimeEqual bearer sidecarToken) eqn:Et.
    + intros [_ [= <-]]%eruns_ret. left. split; [done|]. right; right. exists name, bearer.
      apply andb_true_iff in Et as [Et%negb_true_iff%bool_decide_eq_false ?]. split_and!; [set_solver|done..].
    + intros (tr1 & tr2 & c & -> & Hc & Hr)%eruns_bind.
      assert (eruns (authenticate_headers sidecarToken (oq_socket q) (oq_header q) names) tr2 (Some raw) →
              (raw = "" ∧ entitled sidecarToken q) ∨ presents q (tr1 ++ tr2) raw) as Hnext.
      { intros [?|(n & b & ? & ? & ?)]%IH; [by left| |set_solver]. right. exists n, b. split_and!; [done..|].
        eapply presented_more; [|done]. set_solver. }
      destruct c as [b| |]; [|by apply Hnext..]. apply eruns_ret in Hr as [-> [= ->]]. right. exists name, bearer.
      split_and!; [set_solver|done|]. eapply presented_more; [|by eapply resolve_bearer_runs]. set_solver.
Qed.

Lemma decodeBiscuitToken_nonempty s raw : decodeBiscuitToken s = Ok raw → raw ≠ "".
Proof.
  unfold decodeBiscuitToken. case_bool_decide; [done|]. destruct (head _) as [r|] eqn:E; [|done]. intros [= <-] ->.
  apply head_Some_elem_of in E. apply list_elem_of_omap in E as (dec & _ & Hd). revert Hd. unfold decodes_to.
  destruct (dec _) as [r|]; [|done]. case_bool_decide; [done|]. by destruct (is_ok _); intros [=].
Qed.

(** A credential with the authority and the tasks of the base and the task that was
    asked for; the base itself where nothing was asked for. *)
Definition narrowed_to (t : TokenTerms) (base raw : string) : Prop :=
  (tm_tar t = None ∧ tm_seal t = false ∧ raw = base) ∨
  ∃ b rules b', UnmarshalInbound base = Ok (b, rules) ∧ UnmarshalInbound raw = Ok (b', rules ++ option_list (tm_tar t)) ∧ authority b' = authority b.

Lemma narrow_base_Ok t base raw : narrow_base t base = inr raw → (∀ tar, tm_tar t = Some tar → hasUnknownTARFields tar = false) →
  narrowed_to t base raw.
Proof.
  unfold narrow_base. intros Hn Hunk.
  destruct (match tm_tar t with Some tar => AttenuateBiscuit base tar | None => Ok base end) as [mid|] eqn:Em; [|done].
  assert ((tm_tar t = None ∧ mid = base) ∨ ∃ b rules b', UnmarshalInbound base = Ok (b, rules) ∧
            UnmarshalInbound mid = Ok (b', rules ++ option_list (tm_tar t)) ∧ authority b' = authority b) as Hmid.
  { destruct (tm_tar t) as [tar|]; [right|left; by injection Em as ->].
    apply bind_Ok in Em as ([d r] & Ha & [= ->]). apply attenuate_roundtrip in Ha as (b & rules & b' & ? & ? & _ & _ & ? & _); [|by apply Hunk].
    by exists b, rules, b'. }
  destruct (tm_seal t) eqn:Es; [|injection Hn as <-; destruct Hmid as [[? ->]|?]; [by left|by right]].
  destruct (SealBiscuit mid) as [d|] eqn:Ed; [|done]. injection Hn as ->. apply bind_Ok in Ed as ([d' r] & Hs & [= ->]).
  apply sealed_stays in Hs as [(b1 & rules1 & b2 & Hm & Hr & Hauth) _]. right.
  destruct Hmid as [[Ht ->]|(b & rules & b' & Hb & Hmid & Ha)].
  - exists b1, rules1, b2. rewrite Ht, List.app_nil_r. done.
  - rewrite Hm in Hmid. injection Hmid as -> ->. exists b, rules, b2. split_and!; [done..|congruence].
Qed.

(** ** The task that is asked for *)

Lemma scope_step_services st tok st' : scope_step st tok = Ok st' → ∀ s, s ∈ sc_services st → s ∈ sc_services st'.
Proof.
  unfold scope_step. destruct st as [sv tl ms ps qs]. repeat case_match; intros [= <-] s Hs; cbn in *; set_solver.
Qed.

Lemma scope_loop_services toks st st' : scope_loop st toks = Ok st' → ∀ s, s ∈ sc_services st → s ∈ sc_services st'.
Proof.
  revert st. induction toks as [|tok toks IH]; intros st; cbn [scope_loop]; [by intros [= <-]|].
  intros (st1 & H1 & H2)%bind_Ok s Hs. eapply IH; [done|]. by eapply scope_step_services.
Qed.

Lemma parse_options_known options tar : (∀ s tar, protojson_Unmarshal s = Ok tar → hasUnknownTARFields tar = false) →
  parse_options options = Ok (Some tar) → hasUnknownTARFields tar = false.
Proof.
  intros Hj. unfold parse_options. case_bool_decide; [done|]. destruct (HasPrefix options "{").
  - intros (t & Ht & [= <-])%bind_Ok. rewrite wrap_err_Ok in Ht. eauto.
  - intros (t & Ht & [= <-])%bind_Ok. rewrite wrap_err_Ok in Ht. unfold DecodeTARBlockPayload in Ht.
    apply bind_unit_Ok in Ht as [_ Ht]. apply bind_Ok in Ht as (raw & _ & Ht). apply bind_unit_Ok in Ht as [_ Ht].
    apply bind_Ok in Ht as (r & _ & Ht). apply bind_unit_Ok in Ht as [Hu Ht]. apply bind_unit_Ok in Ht as [_ [= <-]].
    by apply fail_if_Ok in Hu.
Qed.

Lemma token_terms_known f t : (∀ s tar, protojson_Unmarshal s = Ok tar → hasUnknownTARFields tar = false) →
  token_terms f = Ok t → ∀ tar, tm_tar t = Some tar → hasUnknownTARFields tar = false.
Proof.
  intros Hj (otar & Hb & [= <-])%bind_Ok tar. cbn [tm_tar]. intros ->. unfold BuildTARFromOAuthParams in Hb.
  apply bind_Ok in Hb as (own & Hown & Hb). apply bind_Ok in Hb as (st & _ & Hb). destruct own as [own|].
  - apply bind_unit_Ok in Hb as [_ Hb]. rewrite bind_unit_Ok, bind_unit_Ok in Hb. destruct Hb as (_ & _ & [= <-]).
    apply parse_options_known in Hown; [|done]. revert Hown. unfold hasUnknownTARFields. cbn [tar_unknown tar_expire_time tar_rules shorten_expiry]. done.
  - destruct (is_nil (sc_services st) && _ && _ && _ && _); [done|]. apply bind_unit_Ok in Hb as [_ Hb].
    rewrite bind_unit_Ok, bind_unit_Ok in Hb. destruct Hb as (_ & _ & [= <-]).
    unfold hasUnknownTARFields, scope_operation. cbn. by destruct (_ && _).
Qed.

(** A border token is only asked for with a task that names its destination. *)
Definition names_destination (t : TokenTerms) (dest : string) : Prop :=
  ∃ tar r, tm_tar t = Some tar ∧ tar_rules tar = [Some r] ∧ TrimSpace (EgressServicePrefix +:+ dest) ∈ tr_allowed_services r.

Lemma egress_destination_in resources dest : egress_destination resources = dest → dest ≠ "" → EgressServicePrefix +:+ dest ∈ resources.
Proof.
  unfold egress_destination. destruct (head _) as [d|] eqn:E; cbn; [|by intros <-]. intros -> _.
  apply head_Some_elem_of, list_elem_of_omap in E as (res & Hin & Hres). destruct (HasPrefix res EgressServicePrefix) eqn:Ep; [|done].
  injection Hres as <-. apply HasPrefix_spec in Ep as [r ->]. by rewrite TrimPrefix_app.
Qed.

Lemma trim_right_nonempty fuel c s : (∀ e, e ∈ space_encodings → HasPrefix e (str1 c) = false) → trim_right fuel (String c s) ≠ "".
Proof.
  intros Hc. revert s. induction fuel as [|fuel IH]; intros s; cbn [trim_right]; [done|]. destruct (trailing_space (String c s)) as [k|] eqn:E; [|done].
  unfold trailing_space in E. apply fmap_Some in E as (e & [He Hp]%List.find_some & ->). apply list_elem_of_In in He.
  apply HasSuffix_spec in Hp as [r Hr]. rewrite Hr, len_app, Nat.add_sub, take_app_len. destruct r as [|d r]; [|injection Hr as <- _; apply IH].
  rewrite app_nil_l in Hr. specialize (Hc e He). rewrite <-Hr in Hc. change (String c s) with (str1 c +:+ s) in Hc. by rewrite HasPrefix_app in Hc.
Qed.

Lemma trimmed_egress dest : TrimSpace (EgressServicePrefix +:+ dest) ≠ "".
Proof.
  assert (Forall (λ e, HasPrefix e "e" = false) space_encodings) as Hf by (apply (bool_decide_unpack _); by vm_compute).
  rewrite Forall_forall in Hf. change (EgressServicePrefix +:+ dest) with (String "e" ("gress://" +:+ dest)). unfold TrimSpace.
  assert (leading_space (String "e" ("gress://" +:+ dest)) = None) as Hl by reflexivity.
  destruct (len (String "e" ("gress://" +:+ dest))) eqn:El; [done|]. cbn [trim_left]. rewrite Hl. by apply trim_right_nonempty.
Qed.

Lemma token_terms_destination f t dest : token_terms f = Ok t → egress_destination (tm_resources t) = dest → dest ≠ "" → names_destination t dest.
Proof.
  intros (otar & Hb & [= <-])%bind_Ok He Hne. pose proof (trimmed_egress dest) as Htrim. cbn [tm_resources] in *. apply egress_destination_in in He; [|done].
  unfold BuildTARFromOAuthParams in Hb. apply bind_Ok in Hb as (own & _ & Hb). apply bind_Ok in Hb as (st & Hst & Hb).
  pose proof (scope_loop_services _ _ _ Hst (TrimSpace (EgressServicePrefix +:+ dest))) as Hin. cbn [sc_services] in Hin.
  assert (TrimSpace (EgressServicePrefix +:+ dest) ∈ sc_services st) as Hs.
  { apply Hin, list_elem_of_filter. split; [done|]. by apply list_elem_of_fmap_2. }
  assert (is_nil (sc_services st) = false) as Hnil by (destruct (sc_services st); [by apply elem_of_nil in Hs|done]).
  rewrite Hnil in Hb. cbn [andb] in Hb. destruct own as [own|]; [by apply bind_unit_Ok in Hb as [[=] _]|].
  apply bind_unit_Ok in Hb as [_ Hb]. rewrite bind_unit_Ok, bind_unit_Ok in Hb. destruct Hb as (_ & _ & [= <-]).
  eexists _, _. split_and!; [reflexivity..|]. exact Hs.
Qed.

(** ** What is issued *)

(** The exchange of a subject with the task that is asked for. *)
Definition subject_exchange (t : TokenTerms) (subject subjectType : string) (seal : bool) : ExchangeRequest :=
  {| xr_SubjectToken := subject; xr_SubjectTokenType := subjectType; xr_TaskRule := tm_tar t; xr_Seal := seal |}.

(** The credential that a token is made from: that of the subject, of the client
    that asserts itself or of the caller, or the node's own for a caller that may
    use it.  Without a subject only the last three. *)
Inductive token_base (sidecarToken : string) (q : OAuthRequest) (t : TokenTerms) (assertion : option string) (subject subjectType : string)
    (tr : list oevent) : string → Prop :=
| base_verified raw now l : subject ≠ "" → subject ≠ "self" → decodeBiscuitToken subject = Ok raw → @existT _ oreply OView (now, l) ∈ tr →
    verified_here now l raw → token_base sidecarToken q t assertion subject subjectType tr raw
| base_exchanged resp : subject ≠ "" → subject ≠ "self" → @existT _ oreply (OExchange (subject_exchange t subject subjectType false)) (Ok resp) ∈ tr →
    token_base sidecarToken q t assertion subject subjectType tr (tx_BiscuitToken resp)
| base_client a resp : subject = "" ∨ subject = "self" → assertion = Some a → @existT _ oreply (OExchange (plain_exchange a)) (Ok resp) ∈ tr →
    token_base sidecarToken q t assertion subject subjectType tr (tx_BiscuitToken resp)
| base_caller raw : subject = "" ∨ subject = "self" → assertion = None → presents q tr raw →
    token_base sidecarToken q t assertion subject subjectType tr raw
| base_own raw : subject = "" ∨ subject = "self" → assertion = None → entitled sidecarToken q → @existT _ oreply OIdentity raw ∈ tr →
    token_base sidecarToken q t assertion subject subjectType tr raw.

Lemma token_base_more sidecarToken q t assertion subject subjectType tr tr' raw : tr ⊆ tr' →
  token_base sidecarToken q t assertion subject subjectType tr raw → token_base sidecarToken q t assertion subject subjectType tr' raw.
Proof.
  intros Hsub [r now l| | |r ? ? (name & b & ? & ? & ?)|]; [eapply base_verified|eapply base_exchanged|eapply base_client|eapply base_caller|eapply base_own];
    eauto. exists name, b. split_and!; [done..|by eapply presented_more].
Qed.

(** The exchanges of a request give credentials. *)
Definition exchanges_give (tr : list oevent) : Prop :=
  ∀ x resp, existT (OExchange x) (Ok resp) ∈ tr → tx_BiscuitToken resp ≠ "".

Lemma presented_nonempty tr bearer raw : exchanges_give tr → presented tr bearer raw → raw ≠ "".
Proof. intros Hgive [(now & l & _ & Hd & _)|(resp & Hx & _ & ->)]; [by eapply decodeBiscuitToken_nonempty|by eapply Hgive]. Qed.

Lemma subject_base_runs sidecarToken q assertion t subject subjectType client tr out : subject ≠ "" → subject ≠ "self" →
  eruns (subject_base t subject subjectType client) tr out →
  match out with
  | inr (base, _) => token_base sidecarToken q t assertion subject subjectType tr base
  | inl (OAuthToken tok ty z scope) => ty = TokenTypeBiscuit ∧ (1 ≤ z)%Z ∧
      ∃ resp, existT (OExchange (subject_exchange t subject subjectType (tm_seal t))) (Ok resp) ∈ tr ∧ tok = Std_Encode (tx_BiscuitToken resp)
  | inl OAuthDone => False
  | inl _ => True
  end.
Proof.
  intros Hs Hs' Hr. unfold subject_base, node_exchange in Hr. destruct (decodeBiscuitToken subject) as [raw|] eqn:Ed.
  - first_call Hr as ([now l] & tr' & -> & [-> <-]%eruns_ret). destruct ((verifyLocalCallerBiscuit now l raw).1) as [claims|] eqn:Ev; [|done].
    eapply base_verified; [done..| |by eapply verifyLocalCallerBiscuit_Ok]. set_solver.
  - case_bool_decide; [apply eruns_ret in Hr as [_ <-]; done|]. case_bool_decide.
    + first_call Hr as (resp & tr' & -> & [-> <-]%eruns_ret). destruct resp as [resp|]; [|by destruct client].
      apply base_exchanged; [done..|]. apply elem_of_cons. by left.
    + first_call Hr as (resp & tr' & -> & Hr). destruct resp as [resp|]; [|apply eruns_ret in Hr as [_ <-]; by destruct client].
      apply eruns_bind in Hr as (tr1 & tr2 & z & -> & Hz%exp_in_runs & [-> <-]%eruns_ret). split_and!; [done..|]. exists resp.
      split; [|done]. apply elem_of_cons. by left.
Qed.

Lemma caller_base_runs sidecarToken q assertion t subject subjectType tr out : subject = "" ∨ subject = "self" → exchanges_give tr →
  eruns (caller_base sidecarToken q assertion) tr out →
  match out with
  | inr (base, _) => token_base sidecarToken q t assertion subject subjectType tr base
  | inl (OAuthToken _ _ _ _) | inl OAuthDone => False
  | inl _ => True
  end.
Proof.
  intros Hs Hgive Hr. unfold caller_base in Hr. apply eruns_bind in Hr as (tr1 & tr2 & caller & -> & Hc & Hr).
  destruct caller as [cred|]; [|apply eruns_ret in Hr as [_ <-]; done].
  assert ((cred ≠ "" ∧ token_base sidecarToken q t assertion subject subjectType (tr1 ++ tr2) cred) ∨ (cred = "" ∧ assertion = None ∧ entitled sidecarToken q)) as Hcred.
  { destruct assertion as [a|]; cbn [calling] in Hc.
    - first_call Hc as (resp & tr' & -> & [-> Hx]%eruns_ret). destruct resp as [resp|]; [|done]. injection Hx as <-. left.
      assert (existT (OExchange (plain_exchange a)) (Ok resp) ∈ [existT (OExchange (plain_exchange a)) (Ok resp)] ++ tr2) as Hin by set_solver.
      split; [by eapply Hgive|by eapply base_client].
    - apply authenticate_runs in Hc as [[-> ?]|(name & b & ? & ? & Hp)]; [by right|left| set_solver].
      apply (presented_more _ (tr1 ++ tr2)) in Hp; [|set_solver]. split; [by eapply presented_nonempty|].
      apply base_caller; [done..|]. by exists name, b. }
  apply eruns_bind in Hr as (tr3 & tr4 & base & -> & Hb & Hr).
  case_bool_decide as Hbase; [apply eruns_ret in Hr as [_ <-]; done|]. first_call Hr as ([now l] & tr' & -> & [-> <-]%eruns_ret).
  revert Hb. case_bool_decide as Hempty.
  - intros Hb. first_call Hb as (own & tr' & -> & [-> <-]%eruns_ret). destruct Hcred as [[Hne _]|(_ & -> & He)]; [done|].
    apply base_own; [done..|]. set_solver.
  - intros [-> ->]%eruns_ret. by destruct Hcred as [[_ Hcred]|[-> _]].
Qed.

(** What a token stands for: a Biscuit that is narrowed, or a border token for it
    and a destination that the task names. *)
Definition stands_for (t : TokenTerms) (tr : list oevent) (tok ty raw : string) : Prop :=
  (ty = TokenTypeBiscuit ∧ tok = Std_Encode raw) ∨
  (ty = TokenTypeJWT ∧ ∃ dest resp, names_destination t dest ∧ tok = sx_Jwt resp ∧
     @existT _ oreply (OMint {| br_Caller := raw; br_Destination := dest; br_Audience := tm_audience t |}) (Ok resp) ∈ tr).

Lemma stands_for_more t tr tr' tok ty raw : tr ⊆ tr' → stands_for t tr tok ty raw → stands_for t tr' tok ty raw.
Proof. intros Hsub [?|(? & d & r & ? & ? & ?)]; [by left|]. right. split; [done|]. exists d, r. auto. Qed.

Lemma issue_runs f t base expiresAt tr tok ty z scope :
  (∀ s tar, protojson_Unmarshal s = Ok tar → hasUnknownTARFields tar = false) → token_terms f = Ok t →
  eruns (issue t base expiresAt) tr (OAuthToken tok ty z scope) →
  (1 ≤ z)%Z ∧ ∃ raw, narrowed_to t base raw ∧ stands_for t tr tok ty raw.
Proof.
  intros Hj Ht Hr. unfold issue in Hr. destruct (narrow_base t base) as [refused|raw] eqn:En.
  { apply eruns_ret in Hr as [_ ->]. unfold narrow_base in En. destruct (match tm_tar t with Some tar => AttenuateBiscuit base tar | None => Ok base end); [|done].
    destruct (tm_seal t); [|done]. by destruct (SealBiscuit _). }
  apply narrow_base_Ok in En; [|by eapply token_terms_known]. case_bool_decide as Hty.
  - case_bool_decide as Hd; [by apply eruns_ret in Hr as [_ ?]|]. first_call Hr as (resp & tr' & -> & Hr).
    destruct resp as [resp|]; [|by apply eruns_ret in Hr as [_ ?]].
    apply eruns_bind in Hr as (tr1 & tr2 & z' & -> & Hz%exp_in_runs & [-> [= <- <- <- _]]%eruns_ret). split; [done|].
    exists raw. split; [done|]. right. split; [done|]. exists (egress_destination (tm_resources t)), resp.
    split_and!; [by eapply token_terms_destination|done|]. apply elem_of_cons. by left.
  - apply eruns_bind in Hr as (tr1 & tr2 & z' & -> & Hz%exp_in_runs & [-> [= <- <- <- _]]%eruns_ret). split; [done|].
    exists raw. split; [done|]. by left.
Qed.

(** C11: A node hands out nothing that was not presented to it: a token answers only
    a request whose subject verifies at the node or was exchanged by the control
    plane with the task that is asked for; without a subject, only a client whose
    assertion was exchanged, a caller whose credential verifies or was exchanged, or
    one that may use the node's own.  A Biscuit that is issued has the authority
    block and the tasks of that credential, and the task that is asked for beside
    them; a border token is minted for a Biscuit that is narrowed so, and for a
    destination which that task names.  The lifetime that is stated is positive. *)
Theorem oauth_narrows sidecarToken q tr tok ty z scope :
  (∀ s tar, protojson_Unmarshal s = Ok tar → hasUnknownTARFields tar = false) → exchanges_give tr →
  eruns (handleNodeOAuthToken sidecarToken q) tr (OAuthToken tok ty z scope) →
  (1 ≤ z)%Z ∧ ∃ f t assertion subject subjectType client,
    oq_post q = true ∧ oq_form q = Some f ∧ clientAssertionFromForm f = Ok assertion ∧
    grant_subject f assertion = inr (subject, subjectType, client) ∧ token_terms f = Ok t ∧
    ((subject ≠ "" ∧ subject ≠ "self" ∧ ty = TokenTypeBiscuit ∧
      ∃ resp, @existT _ oreply (OExchange (subject_exchange t subject subjectType (tm_seal t))) (Ok resp) ∈ tr ∧ tok = Std_Encode (tx_BiscuitToken resp)) ∨
     ∃ base raw, token_base sidecarToken q t assertion subject subjectType tr base ∧ narrowed_to t base raw ∧ stands_for t tr tok ty raw).
Proof.
  intros Hj Hgive Hr. unfold handleNodeOAuthToken in Hr. destruct (oq_post q) eqn:Ep; [|by apply eruns_ret in Hr as [_ ?]].
  destruct (oq_form q) as [f|] eqn:Ef; [|by apply eruns_ret in Hr as [_ ?]]. cbn [negb] in Hr.
  destruct (clientAssertionFromForm f) as [assertion|] eqn:Ea; [|by apply eruns_ret in Hr as [_ ?]].
  destruct (grant_subject f assertion) as [refused|[[subject subjectType] client]] eqn:Eg.
  { apply eruns_ret in Hr as [_ ->]. unfold grant_subject in Eg. by repeat case_match. }
  destruct (token_terms f) as [t|] eqn:Et; [|by apply eruns_ret in Hr as [_ ?]].
  apply eruns_bind in Hr as (tr1 & tr2 & out & -> & Hb & Hr).
  assert (exchanges_give tr1) as Hgive1 by (intros x resp Hx; apply (Hgive x); set_solver).
  destruct (negb (bool_decide (subject = "")) && negb (bool_decide (subject = "self"))) eqn:Es.
  - apply andb_true_iff in Es as [Hs%negb_true_iff%bool_decide_eq_false Hs'%negb_true_iff%bool_decide_eq_false].
    eapply (subject_base_runs sidecarToken q assertion) in Hb; [|done..]. destruct out as [a|[base e]].
    + apply eruns_ret in Hr as [-> ->]. destruct Hb as (-> & Hz & resp & Hin & ->). split; [done|].
      exists f, t, assertion, subject, subjectType, client. split_and!; [done..|]. left. split_and!; [done..|]. exists resp. set_solver.
    + apply (issue_runs f) in Hr as (Hz & raw & Hn & Hst); [|done..]. split; [done|].
      exists f, t, assertion, subject, subjectType, client. split_and!; [done..|]. right. exists base, raw.
      split_and!; [eapply token_base_more; [|done]; set_solver|done|]. eapply stands_for_more; [|done]. set_solver.
  - assert (subject = "" ∨ subject = "self") as Hs by (apply andb_false_iff in Es as [?%negb_false_iff%bool_decide_eq_true|?%negb_false_iff%bool_decide_eq_true]; auto).
    apply (caller_base_runs _ _ _ t subject subjectType) in Hb; [|done..]. destruct out as [a|[base e]]; [by apply eruns_ret in Hr as [_ ->]|].
    apply (issue_runs f) in Hr as (Hz & raw & Hn & Hst); [|done..]. split; [done|].
    exists f, t, assertion, subject, subjectType, client. split_and!; [done..|]. right. exists base, raw.
    split_and!; [eapply token_base_more; [|done]; set_solver|done|]. eapply stands_for_more; [|done]. set_solver.
Qed.

(** ** The revocation endpoint *)

(** Who revokes is authenticated. *)
Definition authenticated (sidecarToken : string) (q : OAuthRequest) (tr : list oevent) : Prop :=
  entitled sidecarToken q ∨ ∃ raw, presents q tr raw.

Lemma authenticateSidecarCaller_runs sidecarToken q tr raw :
  eruns (authenticateSidecarCaller sidecarToken q) tr (Some raw) → authenticated sidecarToken q tr.
Proof. intros [[_ ?]|?]%authenticate_runs; [by left|right; by exists raw|set_solver]. Qed.

Lemma authenticated_more sidecarToken q tr tr' : tr ⊆ tr' → authenticated sidecarToken q tr → authenticated sidecarToken q tr'.
Proof. intros Hsub [?|(raw & n & b & ? & ? & ?)]; [by left|]. right. exists raw, n, b. split_and!; [done..|by eapply presented_more]. Qed.

(** Why a token may be revoked. *)
Definition revocable (sidecarToken : string) (q : OAuthRequest) (tr : list oevent) (raw : string) : Prop :=
  (∃ now l claims, @existT _ oreply OView (now, l) ∈ tr ∧ (VerifyLocalBiscuit now l raw).1 = Ok claims) ∨
  authenticated sidecarToken q tr ∨
  (∃ now l b rules, @existT _ oreply OView (now, l) ∈ tr ∧ UnmarshalInbound raw = Ok (b, rules) ∧ (IsBiscuitRevoked now (ln_node l) b).1 = true).

Lemma revocation_terms_runs sidecarToken q raw tr expiry :
  eruns (revocation_terms sidecarToken q raw) tr (Some expiry) → revocable sidecarToken q tr raw.
Proof.
  intros Hr. unfold revocation_terms in Hr. first_call Hr as (now0 & tr0 & -> & Hr). cbv zeta in Hr. first_call Hr as ([now l] & tr1 & -> & Hr).
  destruct ((VerifyLocalBiscuit now l raw).1) as [claims|] eqn:Ev; [left; exists now, l, claims; split; [set_solver|done]|].
  apply eruns_bind in Hr as (tr2 & tr3 & caller & -> & Hc & Hr). destruct caller as [cred|].
  { right; left. apply authenticateSidecarCaller_runs in Hc. eapply authenticated_more; [|done]. set_solver. }
  destruct (UnmarshalInbound raw) as [[b rules]|] eqn:Eu; [|by apply eruns_ret in Hr as [_ ?]].
  first_call Hr as ([now' l'] & tr4 & -> & [-> Hs]%eruns_ret). destruct ((IsBiscuitRevoked now' (ln_node l') b).1) eqn:Er; [|done].
  right; right. exists now', l', b, rules. split_and!; [set_solver|done..].
Qed.

(** The revocation endpoint answers that all is done only to someone who presented
    a token that it then revoked, and may: one that verifies here, or that is
    revoked already, or any that decodes for a caller that is authenticated; or to
    such a caller that presented something else. *)
Theorem revoke_done sidecarToken q tr :
  eruns (handleNodeOAuthRevoke sidecarToken q) tr OAuthDone →
  ∃ f, oq_post q = true ∧ oq_form q = Some f ∧
  match decodeBiscuitToken (TrimSpace (FormValue f "token")) with
  | Err _ => authenticated sidecarToken q tr
  | Ok raw => revocable sidecarToken q tr raw ∧
      ∃ tr0 expiry id, tr = tr0 ++ [@existT _ oreply (ORevoke raw expiry) (Ok id)]
  end.
Proof.
  intros Hr. unfold handleNodeOAuthRevoke in Hr. destruct (oq_post q) eqn:Ep; [|by apply eruns_ret in Hr as [_ ?]].
  destruct (oq_form q) as [f|] eqn:Ef; [|by apply eruns_ret in Hr as [_ ?]]. cbn [negb] in Hr. exists f. split_and!; [done..|].
  case_bool_decide; [by apply eruns_ret in Hr as [_ ?]|]. destruct (decodeBiscuitToken _) as [raw|] eqn:Ed.
  - apply eruns_bind in Hr as (tr1 & tr2 & expiry & -> & Ht & Hr). destruct expiry as [expiry|]; [|by apply eruns_ret in Hr as [_ ?]].
    first_call Hr as (r & tr' & -> & [-> Hd]%eruns_ret). destruct r as [id|]; [|done]. split; [|by exists tr1, expiry, id].
    apply revocation_terms_runs in Ht. destruct Ht as [(now & l & c & ? & ?)|[?|(now & l & b & rs & ? & ?)]].
    + left. exists now, l, c. set_solver.
    + right; left. eapply authenticated_more; [|done]. set_solver.
    + right; right. exists now, l, b, rs. set_solver.
  - apply eruns_bind in Hr as (tr1 & tr2 & caller & -> & Hc & [-> Hd]%eruns_ret). destruct caller as [cred|]; [|done].
    apply authenticateSidecarCaller_runs in Hc. eapply authenticated_more; [|done]. set_solver.
Qed.
End node.

(** ** Runs *)

#[local] Existing Instances ascii_case one_rule_codec example_tokens naive_engine plain_codec padded_digest any_header.

(** Two requests of one caller and one of another: the second is answered with what
    the first obtained. *)
Definition border_example (i : nat) : BorderRequest := {| br_Caller := token_bytes i; br_Destination := "api"; br_Audience := "aud" |}.
Definition asker_example : Asker := {| as_URL := "https://cp"; as_Identity := "own"; as_PrivKey := Some Ok; as_PeerID := Some "12D3p1" |}.
Definition border_env (c : xcall) : xreply c :=
  match c with
  | XNow => 1000 * second
  | XAsker => asker_example
  | XNode => (0, ln_node gate_node)
  | XExchangeToken _ _ _ => fail "not used"
  | XMintSTSToken _ _ req => Ok {| sx_Jwt := "jwt of " +:+ sq_Biscuit req; sx_ExpireTime := Some {| ts_seconds := 1900; ts_nanos := 0; ts_unknown := "" |} |}
  end%Z.
Definition border_jwt (i : nat) : STSTokenResponse :=
  {| sx_Jwt := "jwt of " +:+ token_bytes i; sx_ExpireTime := Some {| ts_seconds := 1900; ts_nanos := 0; ts_unknown := "" |} |}.

Definition border_run : shared STSTokenResponse xreply BorderRequest (result STSTokenResponse) :=
  foldl (drive border_env) (start MintBorderJWT [border_example 0; border_example 0; border_example 1]) [0; 0; 2; 0; 0; 0; 1; 1; 2; 2; 2; 2].

Lemma border_run_reachable : shared_reachable MintBorderJWT border_request border_run.
Proof. apply drive_reachable, start_reachable. rewrite !Forall_cons, Forall_nil. split_and!; try done; by vm_compute. Qed.

Lemma border_run_distinct : border_distinct ((λ t, t.1.1) <$> sh_threads border_run).
Proof.
  assert ((λ t : BorderRequest * list (sigT (creply (V := STSTokenResponse) xreply)) * _, t.1.1) <$> sh_threads border_run =
          [border_example 0; border_example 0; border_example 1]) as -> by (by vm_compute).
  assert (∀ q, q ∈ [border_example 0; border_example 0; border_example 1] → q = border_example 0 ∨ q = border_example 1) as Hcase.
  { intros q. rewrite !elem_of_cons, elem_of_nil. naive_solver. }
  intros q q' [-> | ->]%Hcase [-> | ->]%Hcase Hs; [done| | |done]; discriminate Hs.
Qed.

Lemma border_thread (o : option (BorderRequest * list (sigT (creply (V := STSTokenResponse) xreply)) * eprog (creply (V := STSTokenResponse) xreply) (result STSTokenResponse))) q v :
  match o with Some (q', _, ERet (Ok v')) => q' = q ∧ v' = v | _ => False end → ∃ tr, o = Some (q, tr, ERet (Ok v)).
Proof. destruct o as [[[q' tr] [[v'|]|]]|]; try done. intros [-> ->]. by exists tr. Qed.

Lemma border_isolated_witness : ∃ tr,
  sh_threads border_run !! 1 = Some (border_example 0, tr, ERet (Ok (border_jwt 0))) ∧
  ((∃ pre post, tr = pre ++ post ∧ minted (border_example 0) pre (border_jwt 0)) ∨
   (still_good tr (border_jwt 0) ∧ ∃ q' pre post p, (q', pre ++ post, p) ∈ sh_threads border_run ∧ minted (border_example 0) pre (border_jwt 0))).
Proof.
  destruct (border_thread (sh_threads border_run !! 1) (border_example 0) (border_jwt 0)) as [tr E]; [by vm_compute|].
  exists tr. split; [exact E|]. apply (border_isolated border_run (border_example 0) tr (border_jwt 0)).
  - apply example_tokens_framed.
  - apply border_run_reachable.
  - apply border_run_distinct.
  - exact (list_elem_of_lookup_2 _ _ _ E).
Defined.

(** A member narrows its credential to a task. *)
Definition narrowing_form : Values :=
  {[ "grant_type" := [GrantTypeTokenExchange]; "subject_token" := ["AA=="]; "options" := ["dA"] ]}.
Definition oauth_request (f : Values) (socket : bool) : OAuthRequest := {| oq_post := true; oq_form := Some f; oq_header := ∅; oq_socket := socket |}.

Definition oauth_env (now : time) (l : LocalNode) (c : ocall) : oreply c :=
  match c with
  | ONow => now
  | OView => (now, l)
  | OIdentity => token_bytes 0
  | OExchange _ => fail "not used"
  | OMint _ => fail "not used"
  | ORevoke _ _ => Ok "id"
  end.

Definition narrowing_run := erun (oauth_env (5 * second)%Z gate_node) (handleNodeOAuthToken "secret" (oauth_request narrowing_form false)).

Lemma narrowing_no_exchange x (r : oreply (OExchange x)) : existT (OExchange x) r ∉ narrowing_run.1.
Proof.
  assert (Forall (λ e : sigT oreply, match projT1 e with OExchange _ => False | _ => True end) narrowing_run.1) as Hno
    by (vm_compute; by repeat constructor).
  rewrite Forall_forall in Hno. intros Hin. exact (Hno _ Hin).
Qed.

Lemma oauth_narrows_witness :
  narrowing_run.2 = OAuthToken "AQ==" TokenTypeBiscuit 995 "" ∧
  ∃ t base raw, token_terms narrowing_form = Ok t ∧
    token_base "secret" (oauth_request narrowing_form false) t None "AA==" "" narrowing_run.1 base ∧ narrowed_to t base raw.
Proof.
  assert (narrowing_run.2 = OAuthToken "AQ==" TokenTypeBiscuit 995 "") as Ha by (by vm_compute). split; [exact Ha|].
  pose proof (erun_runs (oauth_env (5 * second)%Z gate_node) (handleNodeOAuthToken "secret" (oauth_request narrowing_form false))) as Hr.
  fold narrowing_run in Hr. rewrite Ha in Hr.
  destruct (oauth_narrows "secret" (oauth_request narrowing_form false) narrowing_run.1 "AQ==" TokenTypeBiscuit 995 "")
    as (_ & f & t & assertion & subject & subjectType & client & _ & Hf & Hca & Hg & Ht & Hcase); [intros s tar Hs; discriminate Hs|intros x resp Hin; destruct (narrowing_no_exchange _ _ Hin)|exact Hr|].
  injection Hf as <-. vm_compute in Hca. injection Hca as <-. vm_compute in Hg. injection Hg as <- <- _. exists t.
  destruct Hcase as [(_ & _ & _ & resp & Hin & _)|(base & raw & Hb & Hn & _)]; [|exists base, raw; split; [exact Ht|split; [exact Hb|exact Hn]]].
  exfalso. exact (narrowing_no_exchange _ _ Hin).
Defined.

(** The node's own credential is issued with a lifetime of 300 seconds also when it
    has expired, or does not verify for another reason. *)
Example expired_identity_issued :
  let q := oauth_request {[ "grant_type" := [GrantTypeTokenExchange] ]} true in
  (erun (oauth_env (2000 * second)%Z gate_node) (handleNodeOAuthToken "secret" q)).2 = OAuthToken "AA==" TokenTypeBiscuit 300 "" ∧
  is_ok (VerifyLocalBiscuit (2000 * second)%Z gate_node (token_bytes 0)).1 = false.
Proof. by vm_compute. Qed.

(** A caller on the socket whose credential is refused is not refused: the node's own
    credential is issued. *)
Example refused_caller_gets_own :
  let q := {| oq_post := true; oq_form := Some {[ "grant_type" := [GrantTypeTokenExchange] ]};
              oq_header := bearer_header HeaderMeshAuthentication "BA=="; oq_socket := true |} in
  (resolveCallerCredential (5 * second)%Z gate_node (λ _, fail "no exchange") "BA==").1 =
    CallerRefused (NewError "standing biscuit client_peer_id is not bound to this node") ∧
  (erun (oauth_env (5 * second)%Z gate_node) (handleNodeOAuthToken "secret" q)).2 = OAuthToken "AA==" TokenTypeBiscuit 995 "".
Proof. by vm_compute. Qed.

(** ** Forged revocations *)

(** The same first signature under another key, and a block of one's own. *)
Definition forged_token : toy := Toy (example_key +:+ "0123456789") member_facts [(FactTARBlock, "dA")] false.
Definition forged_table : list toy := [member_token; forged_token].
Lemma forged_table_ok : table_ok forged_table.
Proof. apply small_table_ok. simpl. lia. Qed.

(** The member's credential is revoked. *)
Definition revoking_node : LocalNode :=
  {| ln_node := set_revokedTokens (ln_node gate_node) (Some {[ RawURL_Encode (toy_id member_token 0) := (900 * second)%Z ]});
     ln_self := ln_self gate_node; ln_storedKey := None; ln_labels := ∅ |}.

(** Nobody in particular presents a token that no trusted key signed, which begins
    like a revoked one, and has the identifier of its last block revoked. *)
Example forged_revocation :
  let T := toy_tokens forged_table forged_table_ok in
  let q := oauth_request {[ "token" := ["AQ=="] ]} false in
  let run := erun (oauth_env (5 * second)%Z revoking_node) (handleNodeOAuthRevoke (BT := T) "secret" q) in
  run.2 = OAuthDone ∧ last run.1 = Some (@existT _ oreply (ORevoke (token_bytes 1) ((5 + 24 * 3600) * second)%Z) (Ok "id")) ∧
  is_ok (toy_Authorizer forged_token example_public) = false.
Proof. by vm_compute. Qed.
